(* ===== verification/_CoqProject ===== *)
-Q . S2P
Prelude.v
Sha256.v
GoValue.v
GoStrings.v
IR.v
HostIR.v
State.v
Moves.v
MovesProps.v
Graph.v
Schedule.v
ScheduleGraph.v
ScheduleProps.v
Engine.v
Execute.v
ExecuteLemmas.v
ExecuteRun.v
Run.v
Memory.v
EngineProps.v
Diff.v
DiffProps.v
Document.v
DocumentProps.v
ExecuteWaves.v
ExecuteProps.v
Lease.v
LeaseProps.v
Values.v
InputType.v
InputTypeProps.v
Merge.v
Variables.v
Hcl.v
Parse.v
ParseProps.v
Locals.v
Fields.v
MergeProps.v
VariableProps.v
MovedDecl.v
Dependencies.v
DependencyProps.v
GraphHelpers.v
GraphSystemd.v
GraphDocker.v
GraphHost.v
GraphCompile.v
GraphClosed.v
GraphClosedLate.v
GraphCompileProps.v
GraphSensitive.v
HostValidation.v
HostValidationProps.v
HostSpecs.v
SystemdSpecs.v
NetworkdSpecs.v
HostBuild.v
HostBuildUnits.v
HostBuildProps.v
DockerSpecs.v
ComponentSpecs.v
ComponentProps.v
ParseConfig.v
ParseFiles.v
Assertions.v
Compile.v
CompileProps.v
UnitFileProps.v
Base64.v
Remote.v
Ssh.v
NativeFiles.v
NativeHost.v
NativeApps.v
Native.v
BulkProps.v
NativeProps.v
