(* ===== verification/Prelude.v ===== *)
(** * DebianForm verification library

    DebianForm ([src/], Go) manages Debian hosts from HCL files.  A run goes
    through these parts:

    - the parser turns HCL into configuration values ([internal/core/parser]);
    - merge overlays profiles and hosts and builds the specification of each
      host ([internal/core/merge]; types in [internal/core/ir]);
    - graph turns the specifications into resource nodes and operations with
      dependencies, and schedules them in waves ([internal/core/graph]);
    - state is what a host recorded of earlier runs, with the moves that rename
      recorded resources ([internal/core/state]);
    - engine compares graph, state and the observed host, produces a plan, and
      applies it wave by wave through a provider, recording each result through
      a backend, under a lock per host ([internal/core/engine]);
    - plan is the reviewable form of a plan ([internal/core/plan]).

    ** Layout

    Foundations.
    - [Prelude]: results ([(T, error)]), Go strings, sorting by a boolean order,
      order-preserving deduplication, machine integers, the state-and-error
      monad [M].
    - [Sha256], [GoValue], [GoStrings]: SHA-256; the dynamic values stored under
      [any] with their JSON text; [strings], [path/filepath], [strconv.Atoi] and
      facts on [strconv.Quote].
    - [IR], [HostIR]: [ir/types.go] and [ir/platform.go]; [HostIR] is the
      specification of a host, every record field for field.

    Configuration.
    - [Values]: [parser/value.go].  [InputType], [InputTypeProps]: the types of variables and inputs and the two copies of
      the normalization of values to them ([parser/input_type.go],
      [parser/variable.go], [merge/merge_components.go]).
    - [Variables], [VariableProps]: [resolveVariableValues] of [parser/parse.go]
      with its parsers, and [componentInputValues] of
      [merge/merge_components.go].
    - [Hcl]: the class [HCL], all that the parser uses of the hcl and cty
      libraries, with the syntax trees it reads, and on top of it [parser/eval.go]
      and the conversions of [parser/value.go]; [Toy] is a small instance for
      examples.
    - [Parse]: the readers of blocks of hosts, profiles and component bodies and
      the validators of their shape ([parser/parse.go]); [ParseProps]: the two
      agree.
    - [Locals]: [parser/locals.go] and what the evaluation of locals computes.
    - [ParseConfig]: variables, inputs and types ([parser/input_type.go]), scripts,
      artifacts, components, profiles, hosts and moved blocks as they are read.
      [ParseFiles]: [ParseFilesWithOptions], [parser/validation.go], variable
      files, and the properties of whole configurations.
    - [MovedDecl]: the checks of [parser/moved.go], followed
      into the moves of a state.
    - [Merge], [MergeProps]: [merge/merge_values.go],
      [merge/merge_profiles.go], the loop over a host's imports and
      [movedSpecs] of [merge/merge.go].
    - [Fields]: the field readers of [merge/merge_fields.go].
    - [HostSpecs]: the builders of files, secrets, directories, users, groups,
      packages, kernel, system, services, APT and nftables sections
      ([merge_files.go], [merge_users.go], ...); [SystemdSpecs], [NetworkdSpecs]:
      [merge_systemd.go]; [DockerSpecs]: [merge_docker.go]; [HostBuild]:
      [buildHostSpec] and [applyHostFacts] ([merge_host.go]);
      [ComponentSpecs]: scripts, artifacts, bodies and instances of components
      ([merge_components.go], [merge_scripts.go]).  A builder runs in the error
      monad [S], reads its value through [rd], and takes [os.ReadFile] as a
      parameter.
    - [HostBuildUnits], [HostBuildProps], [ComponentProps]: what a built section,
      host, Docker specification and component guarantee; one lemma per builder,
      proved with the tactics [spec_inv] and [from_section].
    - [UnitFileProps]: a reference reader of unit files, and the text the
      builders render read back.
    - [HostValidation], [HostValidationProps]: [merge_validation.go] against the
      declarative claims of a host on paths, packages and names.
    - [Dependencies], [DependencyProps]: [merge/resource_dependencies.go],
      followed into the graph.
    - [Assertions]: the view of a host that conditions read, assertions and the
      validations of variables and inputs ([assert.go],
      [component_input_validation.go]).  [Compile], [CompileProps]:
      [CompileWithOptions] of [merge.go], with [merge_variables.go] and
      [merge_scripts.go].

    Graph.
    - [Graph]: the data of [graph/graph.go] and [graph/graph_dependencies.go].
    - [GraphHelpers] ([graph_helpers.go], [graph_files.go], [graph_apt.go],
      [graph_nftables.go], [graph_components.go]), [GraphSystemd]
      ([graph_systemd.go], [graph_networkd_activation.go]), [GraphDocker]
      ([graph_docker.go]): the node builders.
    - [GraphHost]: [compileHost] of [graph_host.go], section by section, each
      written once for a [scope] (the host or one of its components);
      [GraphCompile]: [Compile] of [graph.go], and a host that compiles to 36
      nodes and 15 operations.
    - [GraphClosed], [GraphClosedLate]: one walk over all sections in dependency order, for any set of addresses closed
      under dependencies; [GraphCompileProps] instantiates it twice (the declared
      addresses, the well-founded ones); [GraphSensitive]: what builders show of
      sensitive content.
    - [Schedule] (definitions) and [ScheduleGraph], [ScheduleProps]:
      [graph/schedule.go].

    State.
    - [State]: [state/state.go].  [Moves] (definitions) and [MovesProps]:
      [state/moved.go].

    Engine.
    - [Engine]: data, [Compare], steps, orphans, operations and summaries of
      [engine/engine.go] and [engine/provider_values.go].
    - [Execute]: execution waves, item execution, commits, the wave runner; the
      classes [Backend] and [Provider] are the Go interfaces.  [ExecuteLemmas],
      [ExecuteRun], [ExecuteWaves]: its lemmas and invariants.
    - [Run]: [Engine.Plan], [Check], [Apply], state preparation, locks.
    - [Memory]: the in-memory backend and provider of [engine/memory.go], as
      instances of the two classes that satisfy their laws.
    - [EngineProps], [ExecuteProps]: properties of planning and
      of whole runs, and the bound on the steps of a wave.
    - [Lease], [LeaseProps]: the lock scripts of [engine/ssh_backend.go].

    Hosts.
    - [Remote]: the class [Runner], the Go interface through which commands reach
      a host; [shellQuote], with a reader of POSIX shell words to prove it
      against; the discovery of facts ([facts.go]).  [Base64]: its encoding and
      strict decoding.
    - [Ssh]: what [engine/ssh.go] computes around its processes, and the slot of
      the first connection as a step relation over the callers of the runner.
    - [NativeFiles], [NativeHost], [NativeApps]: plan and apply of each kind of
      resource of [engine/provider_*.go], from files to Compose projects; a plan
      is a script and a function of its output, an apply is a script.
    - [Native]: [NativeProvider] ([provider.go], [provider_operations.go],
      [provider_networkd_preflight.go], [bulk_plan.go]); any [Runner] makes the
      [Provider] that the engine runs on ([native_provider]).
    - [BulkProps], [NativeProps]: one script for all plans of a host against one
      script for each; what is applied is found again; what a script operation
      sends.

    Plan.
    - [Diff], [DiffProps]: [plan/diff.go].  [Document], [DocumentProps]:
      [plan/plan.go] and [Plan.Document].

    ** What the theorems show

    - Locks: at most one holder at a time, under crashes of scripts and holders,
      lease expiry and recovery ([lease_exclusive], [lease_recovers],
      [lease_protects], [renewal_in_time]); an apply releases every lock it took
      and changes nothing while another process holds one
      ([Apply_releases_locks], [Apply_excluded], [Apply_rejected]).
    - Execution: over every interleaving of a wave's items, the recorded state
      is that of the items that succeeded, dependents of a failure are not run,
      and the waves contain each step of the plan once, after what it depends on
      ([run_waves_commits], [run_waves_blocks], [executionWaves_spec],
      [orphanExecutionWaves_spec]); a wave of n items ends after at most 2n
      steps with a result for each ([wave_terminates]).
    - Reading: an accepted configuration is exactly what its blocks declare, one
      entry per block and name, the order of the files is irrelevant unless a
      local is defined twice, and reading always ends
      ([ParseFilesWithOptions_spec], [ParseFilesWithOptions_order],
      [ParseFilesWithOptions_terminates]); the locals are the only solution of
      their equations and the pass before the variables agrees with the final one
      ([evaluateLocals_spec], [evaluateStaticLocals_spec]); a component body whose
      shape is accepted fails only for what its expressions mean
      ([ValidateComponentBodyShape_spec]).
    - Building: every accepted host and component is well formed
      ([CompileWithOptions_wf]), which is what host validation relies on; a
      program is, host by host, what the meaning of its imports declares, and a
      filter selects among the same hosts ([CompileWithOptions_spec],
      [CompileWithOptions_filter]); the two copies of the validation of variables
      agree ([validateVariableValues_parsed]); validation accepts exactly the hosts whose claims on
      paths and names do not collide ([validateHostSpec_spec]); a rendered
      service unit and a networkd file read back as what was declared, so no
      value can add a section or a directive
      ([renderSystemdServiceUnit_reads_back], [networkdNetDevSpec_reads_back]);
      detected facts are merged exactly when the target is supported and the
      declaration agrees ([applyHostFacts_spec]).
    - Compilation: the graph of a host has no dangling or foreign dependency or
      trigger and is sorted; without [depends_on] the scheduler accepts it unless
      two addresses collide; sensitive content never enters the attributes of a
      node ([compileHost_closed], [Compile_accepts],
      [compileHost_hides_content]).
    - Scheduling: validation accepts exactly the acyclic graphs with distinct
      known addresses, its error names a cycle, the waves are a layering of the
      graph ([Validate_spec], [Validate_cycle], [scheduleWaves_spec],
      [ActiveWavesWithAliases_spec], [TopologicalSort_spec]).
    - Planning: protected resources are never destroyed, nothing recorded is
      forgotten by a plan, operations run exactly when triggered, comparison and
      convergence ([Plan_prevent_destroy], [assemble_plan_complete],
      [operationSteps_spec], [Compare_noop], [apply_then_plan_noop]).
    - Moves: accepted declarations, idempotence, conservation of resources,
      closed dependencies, digests ([validateAndOrderMoves_spec],
      [ResolveMoves_idempotent], [ResolveMoves_conserves], ...).
    - Hosts: planning a host with one script makes the plans of its nodes one by
      one ([PlanHost_planHostLegacy]); an applied file is in sync at the next
      plan ([file_converges]); commands and scripts of operations are read by a
      shell as they were declared ([operation_commands_read]); a host that
      Netplan owns is not planned ([plan_needs_native_networkd]); one ssh process
      authenticates before others start, and no caller that waits is forgotten
      ([initial_auth_exclusive], [initial_auth_progress]).
    - Plan documents: secrets do not reach a document, diffs are complete and
      correct patches, summaries and delete diagnostics ([plan_Document_hides],
      [BuildDiff_hides], [BuildDiff_children], [textHunks_spec], ...).
    - Configuration: [Merge] implements declarative overlay rules, resolving
      imports with a cache and marks computes the cache-free meaning of an import
      list and reports real cycles ([Merge_spec], [mergeHost_spec]);
      [depends_on] entries become exactly the edges they name
      ([explicit_dependencies_spec]).
    - Variables, inputs, moved blocks: a normalized value has the declared type
      and the two copies of the routine agree ([normalizeValueForType_typed],
      [normalize_copies_agree]); every declared variable and input gets a value
      of its type or an error names why ([resolveVariableValues_spec],
      [componentInputValues_spec]); moved blocks are accepted exactly when they
      are chains, and those accepted are accepted again by the state
      ([validateAndSortMoved_spec], [configured_moves_accepted]).
    - Findings: [Merge_drops_list_marks], [moved_change_action_pending] and
      [DesiredDigest_reload_summary] state behaviour that looks unintended.

    ** Conventions

    - A formatted error is a constructor with the values it prints.  Where the
      code ranges over a Go map and the order shows in the result, the order is
      a parameter ([range_keys] in [GraphHost], which may differ from one
      networkd network to the next, and [AttrOrder] for the attributes of a
      body); elsewhere the loops visit the keys in sorted order, which the
      code does too or which cannot be seen in the result.
    - A nil map or slice is the empty one, except where [any] distinguishes them
      ([GNil], [GNilStrs]).  Strings are byte strings; JSON texts assume valid
      UTF-8.  A missing map entry reads as the zero value.
    - Errors keep the state they happened in: [M E W A] returns the world on
      both exits.
    - Time is a parameter ([now]); time in leases is in nanoseconds, as Z.
    - Recursion that is not structural has fuel: the depth-first search and the
      chains of moves use one more than the number of entries, each call visiting
      a new one ([Validate_spec], [validateAndOrderMoves_spec] include that the
      fuel suffices); the wave loops one more than the number of entries, each
      round emitting one; expressions, values and types the size of their tree,
      which the laws [HCLSizes] make decrease, and the locals one more than the
      number of definitions ([ParseFilesWithOptions_terminates]); diffs the size of both values ([buildDiffNode_fuel]);
      profiles the number of profiles, each call marking a new one
      ([mergeHost_spec]: never [DepthExceeded]).
    - Goroutines of a wave are a step relation over their atomic actions
      ([wave_step]); semaphores and contexts only restrict it, and a cancelled
      item is a step of its own ([ws_cancelled]).  Hosts are planned one after
      the other: their computations share nothing but the backend.

    ** Not modelled

    - The hcl and cty libraries, which are not part of the repository: parsing
      files and evaluating an expression to a cty value are fields of the class
      [HCL] or parameters.  The functions that expressions call are inside that
      evaluation; those for validations are modelled beside it, [jsonencode],
      [file], [templatefile] and [toset] are not.
    - What happens on a host: a script is a text for the [Runner], whose answers
      the properties constrain by hypotheses; ssh processes and the files of the
      SSH runner.  JSON decoding ([json.Unmarshal]) and [os.ReadFile] are
      parameters.
    - Terminal output, progress, the debug runner, the command line. *)
From Stdlib Require Export ZArith Ascii Lia.
From stdpp Require Export base tactics strings list gmap sorting pretty.

(** ** Results: Go's [(T, error)] return pairs

    A Go function returning [(T, error)] is modelled as [result E T]: [Err e]
    is the [return ..., err] exit, [Ok a] is the [return a, nil] exit. *)
Inductive result (E A : Type) : Type :=
| Ok (a : A)
| Err (e : E).
Arguments Ok {E A} a.
Arguments Err {E A} e.

#[export] Instance result_ret {E} : MRet (result E) := fun A a => Ok a.
#[export] Instance result_bind {E} : MBind (result E) :=
  fun A B f m => match m with Ok a => f a | Err e => Err e end.
#[export] Instance result_fmap {E} : FMap (result E) :=
  fun A B f m => match m with Ok a => Ok (f a) | Err e => Err e end.

Definition map_err {E E' A} (f : E -> E') (m : result E A) : result E' A :=
  match m with Ok a => Ok a | Err e => Err (f e) end.

Definition is_ok {E A} (m : result E A) : bool :=
  match m with Ok _ => true | Err _ => false end.

(** [guard_or b e]: the early return [if !b { return ..., e }]. *)
Definition guard_or {E} (b : bool) (e : E) : result E unit :=
  if b then Ok tt else Err e.

Definition of_option {E A} (e : E) (o : option A) : result E A :=
  match o with Some a => Ok a | None => Err e end.

(** A [for _, x := range xs] loop whose body may return an error. *)
Fixpoint fold_res {E S A} (f : S -> A -> result E S) (xs : list A) (s : S) : result E S :=
  match xs with
  | [] => Ok s
  | x :: xs => match f s x with Ok s' => fold_res f xs s' | Err e => Err e end
  end.

(** The results of a list of computations, up to the first error. *)
Fixpoint seq_res {E A} (l : list (result E A)) : result E (list A) :=
  match l with
  | [] => Ok []
  | r :: l => x ← r; xs ← seq_res l; Ok (x :: xs)
  end.

Lemma bind_Ok {E A B} (m : result E A) (f : A -> result E B) b :
  (m ≫= f) = Ok b <-> exists a, m = Ok a /\ f a = Ok b.
Proof. destruct m; naive_solver. Qed.

Lemma Ok_bind {E A B} (a : A) (f : A -> result E B) : (Ok a ≫= f) = f a.
Proof. done. Qed.

Lemma bind_Err {E A B} (m : result E A) (f : A -> result E B) e :
  (m ≫= f) = Err e <-> m = Err e \/ exists a, m = Ok a /\ f a = Err e.
Proof. destruct m; naive_solver. Qed.

Lemma guard_or_Ok {E} b (e : E) u : guard_or b e = Ok u <-> b = true.
Proof. destruct b, u; naive_solver. Qed.

Lemma guard_bind_true {E A} (P : Prop) `{!Decision P} (e : E) (f : unit -> result E A) :
  P -> guard_or (bool_decide P) e ≫= f = f tt.
Proof. intros H. by rewrite bool_decide_true. Qed.

Lemma guard_bind_false {E A} (P : Prop) `{!Decision P} (e : E) (f : unit -> result E A) :
  ~ P -> guard_or (bool_decide P) e ≫= f = Err e.
Proof. intros H. by rewrite bool_decide_false. Qed.

Lemma guard_or_Err {E} b (e e' : E) : guard_or b e = Err e' <-> b = false /\ e = e'.
Proof. destruct b; cbn; naive_solver. Qed.

Lemma map_err_Ok {E E' A} (f : E -> E') (m : result E A) a :
  map_err f m = Ok a <-> m = Ok a.
Proof. destruct m; naive_solver. Qed.

Lemma of_option_Ok {E A} (e : E) (o : option A) a : of_option e o = Ok a <-> o = Some a.
Proof. destruct o; cbn; naive_solver. Qed.

Lemma fold_res_app {E S A} (f : S -> A -> result E S) xs ys s :
  fold_res f (xs ++ ys) s = (s' ← fold_res f xs s; fold_res f ys s').
Proof. revert s; induction xs as [|x xs IH]; intros s; cbn; [done|]. by destruct (f s x). Qed.

(** Loop invariant rule for [fold_res]. *)
Lemma fold_res_inv {E S A} (P : S -> Prop) (f : S -> A -> result E S) xs s s' :
  (forall s x s', x ∈ xs -> P s -> f s x = Ok s' -> P s') ->
  P s -> fold_res f xs s = Ok s' -> P s'.
Proof.
  revert s; induction xs as [|x xs IH]; intros s Hstep Hs; cbn; [naive_solver|].
  destruct (f s x) as [s1|] eqn:E1; [|done]. apply IH.
  - intros; eapply Hstep; eauto. by right.
  - eapply Hstep; eauto. by left.
Qed.

(** [res_inv] peels the binds, guards and coercions of a successful run. *)
Ltac res_inv :=
  repeat match goal with
  | H : (_ ≫= _) = Ok _ |- _ => apply bind_Ok in H as (? & ? & H)
  | H : guard_or _ _ = Ok _ |- _ => apply guard_or_Ok in H
  | H : map_err _ _ = Ok _ |- _ => apply map_err_Ok in H
  | H : of_option _ _ = Ok _ |- _ => apply of_option_Ok in H
  | H : Ok _ = Ok _ |- _ => injection H as H; try subst
  | H : Err _ = Ok _ |- _ => discriminate H
  | H : Ok _ = Err _ |- _ => discriminate H
  | H : mret _ = Ok _ |- _ => injection H as H; try subst
  end.

(** ** Go strings

    A Go string is a sequence of bytes; [String.string] is exactly that.  The
    comparison [<] of Go strings is the bytewise lexicographic order. *)
Definition dquote : string := String (ascii_of_N 34) EmptyString.

Definition str_ltb (a b : string) : bool := String.ltb a b.

Definition strings_HasPrefix (s p : string) : bool := String.prefix p s.

Fixpoint str_drop (n : nat) (s : string) : string :=
  match n, s with
  | O, _ => s
  | S n, String _ s => str_drop n s
  | S _, EmptyString => EmptyString
  end.

Definition strings_TrimPrefix (s p : string) : string :=
  if strings_HasPrefix s p then str_drop (String.length p) s else s.

Definition str_rev (s : string) : string :=
  String.string_of_list_ascii (reverse (String.list_ascii_of_string s)).

Definition strings_HasSuffix (s p : string) : bool := String.prefix (str_rev p) (str_rev s).

Definition strings_Contains (s p : string) : bool :=
  match String.index 0 p s with Some _ => true | None => false end.

Fixpoint strings_ContainsAny (s chars : string) : bool :=
  match s with
  | EmptyString => false
  | String c s => strings_Contains chars (String c EmptyString) || strings_ContainsAny s chars
  end.

Definition strings_Join (xs : list string) (sep : string) : string := String.concat sep xs.

Lemma str_app_cons c s t : String c s +:+ t = String c (s +:+ t).
Proof. done. Qed.

Lemma str_app_nil_r s : s +:+ "" = s.
Proof. induction s as [|c s IH]; [done|]. by rewrite str_app_cons, IH. Qed.

Lemma str_app_assoc a b c : (a +:+ b) +:+ c = a +:+ (b +:+ c).
Proof. induction a as [|x a IH]; [done|]. by rewrite !str_app_cons, IH. Qed.

Lemma str_app_inv_l a b c : a +:+ b = a +:+ c -> b = c.
Proof. induction a as [|x a IH]; [done|]. rewrite !str_app_cons. intros [=]; auto. Qed.

Lemma prefix_cons c d p s :
  String.prefix (String c p) (String d s) = if ascii_dec c d then String.prefix p s else false.
Proof. done. Qed.

Lemma prefix_iff p s : String.prefix p s = true <-> exists t, s = p +:+ t.
Proof.
  revert s; induction p as [|c p IH]; intros s.
  - split; [exists s; done|]. by destruct s.
  - destruct s as [|d s]; [naive_solver|]. rewrite prefix_cons.
    destruct (ascii_dec c d) as [->|Hne].
    + rewrite IH. split; intros [t Ht]; exists t; rewrite ?str_app_cons in *; congruence.
    + split; [done|]. intros [t Ht]. rewrite str_app_cons in Ht. congruence.
Qed.

Lemma str_drop_app p t : str_drop (String.length p) (p +:+ t) = t.
Proof. by induction p as [|c p IH]. Qed.

Lemma TrimPrefix_app p t : strings_TrimPrefix (p +:+ t) p = t.
Proof.
  unfold strings_TrimPrefix, strings_HasPrefix.
  rewrite (proj2 (prefix_iff p (p +:+ t))); [|by exists t]. apply str_drop_app.
Qed.

Lemma HasPrefix_app p t : strings_HasPrefix (p +:+ t) p = true.
Proof. apply prefix_iff. by exists t. Qed.

Lemma HasPrefix_iff s p : strings_HasPrefix s p = true <-> exists t, s = p +:+ t.
Proof. apply prefix_iff. Qed.

(** The byte order on strings is a strict total order. *)
Lemma str_leb_refl s : String.leb s s = true.
Proof. apply Is_true_true, (reflexivity (R := String.le) s). Qed.

Lemma str_ltb_leb a b : str_ltb a b = negb (String.leb b a).
Proof.
  unfold str_ltb, String.ltb, String.leb. rewrite (String.compare_antisym b a).
  by destruct (String.compare a b).
Qed.

Lemma str_ltb_irrefl a : str_ltb a a = false.
Proof. by rewrite str_ltb_leb, str_leb_refl. Qed.

Lemma str_leb_trans a b c :
  String.leb a b = true -> String.leb b c = true -> String.leb a c = true.
Proof.
  rewrite <- !Is_true_true. exact (transitivity (R := String.le) (x := a) (y := b) (z := c)).
Qed.

Lemma str_leb_antisym a b : String.leb a b = true -> String.leb b a = true -> a = b.
Proof. apply String.leb_antisym. Qed.

Lemma str_ltb_trans a b c : str_ltb a b = true -> str_ltb b c = true -> str_ltb a c = true.
Proof.
  rewrite !str_ltb_leb, !negb_true_iff. intros H1 H2.
  destruct (String.leb c a) eqn:Hca; [|done]. exfalso.
  destruct (String.leb_total a b) as [H|H]; [|congruence].
  destruct (String.leb_total b c) as [H'|H']; [|congruence].
  pose proof (str_leb_trans _ _ _ Hca H). congruence.
Qed.

Lemma str_ltb_asym a b : str_ltb a b = true -> str_ltb b a = false.
Proof.
  intros H. destruct (str_ltb b a) eqn:E; [|done].
  pose proof (str_ltb_trans _ _ _ H E) as Haa. by rewrite str_ltb_irrefl in Haa.
Qed.

Lemma str_ltb_total a b : str_ltb a b = false -> str_ltb b a = false -> a = b.
Proof.
  rewrite !str_ltb_leb, !negb_false_iff. intros. by apply str_leb_antisym.
Qed.

(** ** [sort.SliceStable]

    [sort_by less] is the stable sort by the comparison [less]: insertion of
    each element before the first one that is not strictly below it. *)
Section sort.
Context {A : Type} (less : A -> A -> bool).

Fixpoint insert_by (x : A) (l : list A) : list A :=
  match l with
  | [] => [x]
  | y :: l' => if less y x then y :: insert_by x l' else x :: l
  end.

Definition sort_by (l : list A) : list A := foldr insert_by [] l.

Lemma sort_by_cons x l : sort_by (x :: l) = insert_by x (sort_by l).
Proof. done. Qed.

(** [y] may follow [x] in a sorted list. *)
Definition may_follow (x y : A) : Prop := less y x = false.

Lemma insert_by_perm x l : insert_by x l ≡ₚ x :: l.
Proof.
  induction l as [|y l IH]; cbn; [done|].
  destruct (less y x); [|done]. by rewrite IH, Permutation_swap.
Qed.

Lemma sort_by_perm l : sort_by l ≡ₚ l.
Proof. induction l as [|x l IH]; [done|]. by rewrite sort_by_cons, insert_by_perm, IH. Qed.

Lemma elem_of_sort_by x l : x ∈ sort_by l <-> x ∈ l.
Proof. by rewrite sort_by_perm. Qed.

Lemma length_sort_by l : length (sort_by l) = length l.
Proof. by rewrite sort_by_perm. Qed.

Lemma NoDup_sort_by l : NoDup (sort_by l) <-> NoDup l.
Proof. by rewrite sort_by_perm. Qed.

(** A list already in order is left alone. *)
Lemma sort_by_id l : StronglySorted may_follow l -> sort_by l = l.
Proof.
  induction 1 as [|x l Hl IH Hx]; [done|]. rewrite sort_by_cons, IH.
  destruct l as [|y l]; cbn; [done|]. inversion Hx as [|? ? Hyx]; subst.
  unfold may_follow in Hyx. by rewrite Hyx.
Qed.

Context (asym : forall a b, less a b = true -> less b a = false).
Context (trans : forall a b c, less b a = false -> less c b = false -> less c a = false).

Lemma insert_by_sorted x l :
  StronglySorted may_follow l -> StronglySorted may_follow (insert_by x l).
Proof.
  induction 1 as [|y l Hl IH Hy]; cbn; [repeat constructor|].
  destruct (less y x) eqn:Hyx.
  - constructor; [done|]. rewrite insert_by_perm. constructor; [|done].
    unfold may_follow. auto.
  - constructor; [by constructor|]. constructor; [done|].
    eapply Forall_impl; [exact Hy|]. unfold may_follow; eauto.
Qed.

Lemma sort_by_sorted l : StronglySorted may_follow (sort_by l).
Proof. induction l; [constructor|]. rewrite sort_by_cons. by apply insert_by_sorted. Qed.

Lemma sort_by_idemp l : sort_by (sort_by l) = sort_by l.
Proof. apply sort_by_id, sort_by_sorted. Qed.

(** When the comparison separates the elements, the input order is irrelevant:
    a Go loop that collects map entries in any order and then sorts them
    yields one list. *)
Lemma sort_by_unique l l' :
  (forall a b, a ∈ l -> b ∈ l -> less a b = false -> less b a = false -> a = b) ->
  l ≡ₚ l' -> sort_by l = sort_by l'.
Proof.
  intros Hsep Hperm.
  apply (StronglySorted_unique_strong may_follow); [|apply sort_by_sorted..|].
  - intros a b Ha Hb Hab Hba.
    rewrite elem_of_sort_by in Ha, Hb. rewrite <- Hperm in Hb. unfold may_follow in *. auto.
  - by rewrite !sort_by_perm.
Qed.
End sort.

(** [sort.Strings] *)
Definition sort_strings (l : list string) : list string := sort_by str_ltb l.

Lemma str_not_ltb_trans a b c :
  str_ltb b a = false -> str_ltb c b = false -> str_ltb c a = false.
Proof.
  rewrite !str_ltb_leb, !negb_false_iff. intros H1 H2. by eapply str_leb_trans.
Qed.

Lemma sort_strings_unique l l' : l ≡ₚ l' -> sort_strings l = sort_strings l'.
Proof.
  apply sort_by_unique; eauto using str_ltb_asym, str_not_ltb_trans, str_ltb_total.
Qed.

Lemma elem_of_sort_strings x l : x ∈ sort_strings l <-> x ∈ l.
Proof. apply elem_of_sort_by. Qed.

Lemma sort_strings_sorted l : StronglySorted (may_follow str_ltb) (sort_strings l).
Proof. apply sort_by_sorted; eauto using str_ltb_asym, str_not_ltb_trans. Qed.

Lemma NoDup_sort_strings l : NoDup (sort_strings l) <-> NoDup l.
Proof. apply NoDup_sort_by. Qed.

(** Comparison by a string key, ties broken by another comparison. *)
Section lex.
Context {A : Type} (key : A -> string) (less : A -> A -> bool).

Definition lex_less (a b : A) : bool :=
  if decide (key a = key b) then less a b else str_ltb (key a) (key b).

Lemma lex_asym :
  (forall a b, less a b = true -> less b a = false) ->
  forall a b, lex_less a b = true -> lex_less b a = false.
Proof.
  unfold lex_less. intros Hl a b H. repeat case_decide; try congruence; auto using str_ltb_asym.
Qed.

Lemma lex_trans :
  (forall a b c, less b a = false -> less c b = false -> less c a = false) ->
  forall a b c, lex_less b a = false -> lex_less c b = false -> lex_less c a = false.
Proof.
  unfold lex_less. intros Hl a b c Hba Hcb.
  destruct (decide (key b = key a)) as [E1|E1], (decide (key c = key b)) as [E2|E2].
  - rewrite decide_True by congruence. eauto.
  - rewrite decide_False by congruence. by rewrite <- E1.
  - rewrite decide_False by congruence. by rewrite E2.
  - destruct (decide (key c = key a)) as [E3|E3]; [|by eapply str_not_ltb_trans].
    destruct E1. apply str_ltb_total; [done|]. by rewrite <- E3.
Qed.

Lemma lex_sep a b :
  (less a b = false -> less b a = false -> key a = key b -> a = b) ->
  lex_less a b = false -> lex_less b a = false -> a = b.
Proof.
  unfold lex_less. intros Hl Hab Hba.
  destruct (decide (key a = key b)) as [E|E]; [rewrite decide_True in Hba by done; auto|].
  rewrite decide_False in Hba by congruence. destruct E. by apply str_ltb_total.
Qed.
End lex.

(** The sorted keys of a Go map. *)
Definition sorted_keys {V} (m : gmap string V) : list string :=
  sort_strings (map_to_list m).*1.

Lemma elem_of_sorted_keys {V} (m : gmap string V) k : k ∈ sorted_keys m <-> is_Some (m !! k).
Proof.
  unfold sorted_keys. rewrite elem_of_sort_strings, list_elem_of_fmap. split.
  - intros [[k' v] [-> Hin]]. apply elem_of_map_to_list in Hin. by exists v.
  - intros [v Hv]. exists (k, v). split; [done|]. by apply elem_of_map_to_list.
Qed.

Lemma NoDup_sorted_keys {V} (m : gmap string V) : NoDup (sorted_keys m).
Proof. apply NoDup_sort_strings, NoDup_fst_map_to_list. Qed.

Lemma sorted_keys_dom {V W} (m : gmap string V) (m' : gmap string W) :
  dom m = dom m' -> sorted_keys m = sorted_keys m'.
Proof.
  intros Hdom. apply sort_strings_unique, NoDup_Permutation; [apply NoDup_fst_map_to_list..|].
  intros k. rewrite <- (elem_of_sort_strings k (map_to_list m).*1).
  rewrite <- (elem_of_sort_strings k (map_to_list m').*1).
  assert (Hm := elem_of_sorted_keys m k). assert (Hm' := elem_of_sorted_keys m' k).
  unfold sorted_keys in *. by rewrite Hm, Hm', <- !elem_of_dom, Hdom.
Qed.

(** Rebuilding a map from its entries, visited in any order. *)
Lemma list_to_map_entries {V W} (f : V -> W) (m : gmap string V) l :
  l ≡ₚ map_to_list m ->
  list_to_map (reverse ((fun p => (p.1, f p.2)) <$> l)) = f <$> m.
Proof.
  intros Hl.
  assert (NoDup (reverse ((fun p => (p.1, f p.2)) <$> l)).*1) as Hnd.
  { rewrite fmap_reverse, reverse_Permutation, <- list_fmap_compose, Hl.
    exact (NoDup_fst_map_to_list m). }
  apply map_eq. intros k. rewrite lookup_fmap. destruct (m !! k) as [v|] eqn:Hk; cbn.
  - apply elem_of_list_to_map; [done|]. rewrite elem_of_reverse. apply list_elem_of_fmap.
    exists (k, v). split; [done|]. by rewrite Hl, elem_of_map_to_list.
  - apply not_elem_of_list_to_map. rewrite fmap_reverse, elem_of_reverse, <- list_fmap_compose.
    intros ([k' v] & -> & Hin)%list_elem_of_fmap. cbn in *.
    rewrite Hl, elem_of_map_to_list in Hin. congruence.
Qed.

Lemma fold_left_insert {V W} (f : V -> W) l (out : gmap string W) :
  fold_left (fun o p => <[p.1 := f p.2]> o) l out =
  list_to_map (reverse ((fun p => (p.1, f p.2)) <$> l)) ∪ out.
Proof.
  revert out; induction l as [|[k v] l IH]; intros out.
  - cbn. by rewrite (left_id_L ∅ (∪)).
  - cbn [fold_left]. rewrite IH, fmap_cons, reverse_cons, list_to_map_app. cbn.
    by rewrite <- (assoc_L (∪)), <- insert_union_l, (left_id_L ∅ (∪)).
Qed.

(** A Go loop that maps every entry of [m] into a fresh map. *)
Lemma fold_left_insert_entries {V W} (f : V -> W) (m : gmap string V) l :
  l ≡ₚ map_to_list m ->
  fold_left (fun o p => <[p.1 := f p.2]> o) l ∅ = f <$> m.
Proof. intros. rewrite fold_left_insert, (right_id_L ∅ (∪)). by apply list_to_map_entries. Qed.

(** Indexing the elements of a list by a key they do not share. *)
Lemma fold_left_index {A W} (key : A -> string) (val : A -> W) l (m : gmap string W) k w :
  NoDup (key <$> l) ->
  fold_left (fun m x => <[key x := val x]> m) l m !! k = Some w <->
  (exists x, x ∈ l /\ key x = k /\ val x = w) \/ (~ (k ∈ (key <$> l)) /\ m !! k = Some w).
Proof.
  revert m; induction l as [|y l IH]; intros m Hnd; cbn.
  { split; [intros H; right; split; [apply not_elem_of_nil|done]|].
    intros [(? & ?%elem_of_nil & _)|[_ H]]; done. }
  apply NoDup_cons in Hnd as [Hy Hnd]. rewrite IH by done. rewrite elem_of_cons.
  destruct (decide (key y = k)) as [<-|Hne].
  - rewrite lookup_insert_eq. split.
    + intros [(x & Hx & Hk & Hw)|[_ [= <-]]]; [|left; exists y; split; [left|done]].
      left. exists x. split; [by right|done].
    + intros [(x & [->|Hx]%elem_of_cons & Hk & <-)|[Hn _]]; [by right| |by destruct Hn; left].
      left. eauto.
  - rewrite lookup_insert_ne by done. split.
    + intros [(x & Hx & H)|[Hn Hm]]; [left; exists x; split; [by right|done]|right; naive_solver].
    + intros [(x & [->|Hx]%elem_of_cons & Hk & Hw)|[Hn Hm]]; [done|left; eauto|right; naive_solver].
Qed.

(** ** Order-preserving removal of duplicates

    Go: a [seen] set and an output slice. *)
Fixpoint dedup_go {A} `{Countable A} (seen : gset A) (l : list A) : list A :=
  match l with
  | [] => []
  | x :: l => if decide (x ∈ seen) then dedup_go seen l else x :: dedup_go ({[x]} ∪ seen) l
  end.

Definition dedup {A} `{Countable A} (l : list A) : list A := dedup_go ∅ l.

Section dedup.
Context {A : Type} `{Countable A}.
Implicit Types (l : list A) (seen : gset A).

Lemma elem_of_dedup_go seen l x : x ∈ dedup_go seen l <-> x ∈ l /\ x ∉ seen.
Proof.
  revert seen; induction l as [|y l IH]; intros seen; cbn; [set_solver|].
  case_decide as Hy; [|rewrite elem_of_cons]; rewrite IH, elem_of_cons; [set_solver|].
  destruct (decide (x = y)) as [->|]; set_solver.
Qed.

Lemma elem_of_dedup l x : x ∈ dedup l <-> x ∈ l.
Proof. unfold dedup. rewrite elem_of_dedup_go. set_solver. Qed.

Lemma NoDup_dedup_go seen l : NoDup (dedup_go seen l).
Proof.
  revert seen; induction l as [|y l IH]; intros seen; cbn; [constructor|].
  case_decide; [done|]. constructor; [|done]. rewrite elem_of_dedup_go. set_solver.
Qed.

Lemma NoDup_dedup l : NoDup (dedup l).
Proof. apply NoDup_dedup_go. Qed.

Lemma dedup_go_id seen l : NoDup l -> (forall x, x ∈ l -> x ∉ seen) -> dedup_go seen l = l.
Proof.
  intros Hl; revert seen; induction Hl as [|y l Hy Hl IH]; intros seen Hd; cbn; [done|].
  rewrite decide_False by (apply Hd; left). f_equal. apply IH.
  intros x Hx. specialize (Hd x). set_solver.
Qed.

Lemma dedup_id l : NoDup l -> dedup l = l.
Proof. intros. by apply dedup_go_id; [|set_solver]. Qed.

Lemma dedup_idemp l : dedup (dedup l) = dedup l.
Proof. apply dedup_id, NoDup_dedup. Qed.
End dedup.

(** Two elements of a list whose keys are distinct are equal when their keys are. *)
Lemma NoDup_fmap_eq {A B} (f : A -> B) (l : list A) x y :
  NoDup (f <$> l) -> x ∈ l -> y ∈ l -> f x = f y -> x = y.
Proof.
  intros Hl [i Hi]%list_elem_of_lookup_1 [j Hj]%list_elem_of_lookup_1 Hxy.
  assert (i = j) as ->; [|congruence].
  eapply (NoDup_lookup (f <$> l) i j (f x)); [done|by rewrite list_lookup_fmap, Hi|].
  by rewrite list_lookup_fmap, Hj, Hxy.
Qed.

Lemma list_filter_all_true {A} (P : A -> Prop) `{!forall x, Decision (P x)} (l : list A) :
  (forall x, x ∈ l -> P x) -> filter P l = l.
Proof.
  induction l as [|x l IH]; intros Hl; [done|].
  rewrite filter_cons_True by (apply Hl; by left). f_equal. apply IH. intros. apply Hl. by right.
Qed.

Lemma list_elem_of_In_concat {A} (x : A) (ls : list (list A)) :
  x ∈ concat ls <-> exists l, l ∈ ls /\ x ∈ l.
Proof.
  induction ls as [|l ls IH]; cbn; [set_solver|]. rewrite elem_of_app, IH. set_solver.
Qed.

Lemma fold_res_check {E A} (f : unit -> A -> result E unit) (l : list A) :
  fold_res f l tt = Ok tt <-> forall x, x ∈ l -> f tt x = Ok tt.
Proof.
  induction l as [|x l IH]; cbn; [set_solver|]. destruct (f tt x) as [[]|e] eqn:E1.
  - rewrite IH. split; [|intros H y Hy; apply H; by right].
    intros H y [->|Hy]%elem_of_cons; auto.
  - split; [done|]. intros H. rewrite (H x) in E1 by left. done.
Qed.

(** [for i, item := range list] with a fallible body that appends. *)
Fixpoint mapi_res {E A B} (f : nat -> A -> result E B) (i : nat) (l : list A) : result E (list B) :=
  match l with
  | [] => Ok []
  | x :: l => y ← f i x; ys ← mapi_res f (S i) l; Ok (y :: ys)
  end.

Lemma mapi_res_related {E A B} (f : nat -> A -> result E B) i l k :
  mapi_res f i l = Ok k -> Forall2 (fun a b => exists j, f j a = Ok b) l k.
Proof.
  revert i k. induction l as [|a l IH]; intros i k; cbn; [intros [= <-]; constructor|].
  intros (b & Hb & (bs & Hbs & [= <-])%bind_Ok)%bind_Ok. constructor; [by exists i|by eapply IH].
Qed.

Lemma fold_res_ext {E S A} (f g : S -> A -> result E S) l s : (forall s a, a ∈ l -> f s a = g s a) -> fold_res f l s = fold_res g l s.
Proof.
  revert s. induction l as [|a l IH]; intros s Hfg; [done|]. cbn. rewrite Hfg by apply list_elem_of_here.
  destruct (g s a); [|done]. apply IH. intros s' a' Ha. by apply Hfg, list_elem_of_further.
Qed.

Lemma mapi_res_ext {E A B} (f g : nat -> A -> result E B) l i : (forall i a, f i a = g i a) -> mapi_res f i l = mapi_res g i l.
Proof. intros Hfg. revert i. induction l as [|a l IH]; intros i; [done|]. cbn. by rewrite Hfg, IH. Qed.

(** Consecutive elements are related: [Sorted] of the Standard Library. *)
Lemma Sorted_snoc {A} (R : A -> A -> Prop) (l : list A) x :
  Sorted R l -> (forall y, last l = Some y -> R y x) -> Sorted R (l ++ [x]).
Proof.
  induction 1 as [|y l Hl IH Hd]; intros Hlast; cbn; [by repeat constructor|].
  constructor.
  - apply IH. intros z Hz. apply Hlast. destruct l; [done|]. done.
  - destruct l as [|z l]; cbn; constructor; [by apply Hlast|]. by inversion Hd.
Qed.

Lemma Sorted_app_r {A} (R : A -> A -> Prop) (l k : list A) : Sorted R (l ++ k) -> Sorted R k.
Proof. induction l as [|x l IH]; cbn; [done|]. inversion 1; auto. Qed.

Lemma Sorted_imp {A} (P Q : A -> A -> Prop) (l : list A) :
  (forall x y, P x y -> Q x y) -> Sorted P l -> Sorted Q l.
Proof.
  intros Himp. induction 1 as [|x l Hl IH Hx]; constructor; [done|].
  destruct Hx; constructor; auto.
Qed.

Lemma StronglySorted_imp {A} (P Q : A -> A -> Prop) (l : list A) :
  (forall x y, x ∈ l -> y ∈ l -> P x y -> Q x y) -> StronglySorted P l -> StronglySorted Q l.
Proof.
  intros Himp Hl. induction Hl as [|x l Hl IH Hx]; constructor.
  - apply IH. intros; apply Himp; [by right..|done].
  - apply Forall_forall. intros y Hy. rewrite Forall_forall in Hx.
    apply Himp; [by left|by right|auto].
Qed.

Create HintDb dbf.
#[export] Hint Resolve NoDup_dedup NoDup_sorted_keys str_ltb_asym str_not_ltb_trans
  str_ltb_total : dbf.
Create Rewrite HintDb dbf_rw.
#[export] Hint Rewrite @elem_of_dedup @elem_of_sort_by @elem_of_sort_strings
  @elem_of_sorted_keys @TrimPrefix_app @HasPrefix_app : dbf_rw.

(** ** Machine integers: Go's 64-bit [int] *)
Definition int_wrap (z : Z) : Z := ((z + 2 ^ 63) `mod` 2 ^ 64 - 2 ^ 63)%Z.
Definition int_max : Z := (2 ^ 63 - 1)%Z.
Definition int_min : Z := (- 2 ^ 63)%Z.
Definition int_add (a b : Z) : Z := int_wrap (a + b).

Lemma int_wrap_id z : (int_min <= z <= int_max)%Z -> int_wrap z = z.
Proof. unfold int_wrap, int_min, int_max. intros. rewrite Z.mod_small; lia. Qed.

Lemma int_wrap_range z : (int_min <= int_wrap z <= int_max)%Z.
Proof.
  unfold int_wrap, int_min, int_max.
  pose proof (Z.mod_pos_bound (z + 2 ^ 63) (2 ^ 64) ltac:(lia)). lia.
Qed.

(** ** Effects: a world passed along, and an error exit

    [M E W A] is the shape of a method [func(...) (T, error)] that may change
    the world [W]; the world is kept on the error exit. *)
Definition M (E W A : Type) : Type := W -> result E A * W.

#[export] Instance M_ret {E W} : MRet (M E W) := fun A a w => (Ok a, w).
#[export] Instance M_bind {E W} : MBind (M E W) :=
  fun A B f m w =>
    match m w with
    | (Ok a, w') => f a w'
    | (Err e, w') => (Err e, w')
    end.

Definition lift {E W A} (r : result E A) : M E W A := fun w => (r, w).
Definition raise {E W A} (e : E) : M E W A := fun w => (Err e, w).

(** [for _, x := range xs] with an effectful body. *)
Fixpoint fold_M {E W S A} (f : S -> A -> M E W S) (xs : list A) (s : S) : M E W S :=
  match xs with
  | [] => mret s
  | x :: xs => s' ← f s x; fold_M f xs s'
  end.

Lemma M_bind_Ok {E W A B} (m : M E W A) (f : A -> M E W B) w b w' :
  (m ≫= f) w = (Ok b, w') <-> exists a w1, m w = (Ok a, w1) /\ f a w1 = (Ok b, w').
Proof.
  unfold mbind, M_bind. destruct (m w) as [[a|e] w1]; split.
  - intros H. by exists a, w1.
  - intros (a' & w2 & H & Hf). by injection H as <- <-.
  - done.
  - intros (a' & w2 & H & _). done.
Qed.

Lemma lift_Ok {E W A} (r : result E A) (w w' : W) a :
  lift r w = (Ok a, w') <-> r = Ok a /\ w = w'.
Proof. unfold lift. split; [by intros [= -> ->]|by intros [-> ->]]. Qed.

Lemma fold_M_inv {E W S A} (P : S -> W -> Prop) (f : S -> A -> M E W S) xs s w s' w' :
  (forall s w x s' w', x ∈ xs -> P s w -> f s x w = (Ok s', w') -> P s' w') ->
  P s w -> fold_M f xs s w = (Ok s', w') -> P s' w'.
Proof.
  revert s w; induction xs as [|x xs IH]; intros s w Hstep Hs; cbn; [by intros H; injection H as <- <-|].
  unfold mbind, M_bind. destruct (f s x w) as [[s1|e] w1] eqn:E1; [|done]. apply IH.
  - intros; eapply Hstep; eauto. by right.
  - eapply Hstep; eauto. by left.
Qed.
