(* ===== verification/Sha256.v ===== *)
(** * SHA-256 and hexadecimal digests

    Every digest of the program ([state.Digest], [sha256Hex], content
    summaries) is Go's [crypto/sha256] followed by [encoding/hex].  Both are
    defined here over byte strings, executable, so that a statement about a
    digest can be evaluated on concrete values.  Words are [N] below [2^32]
    with the wrap-around written out. *)
From Stdlib Require Import NArith Ascii.
From S2P Require Import Prelude.

Module Sha256.
Local Open Scope N_scope.

Definition w32 (x : N) : N := N.land x 0xFFFFFFFF.
Definition add32 (x y : N) : N := w32 (x + y).
Definition rotr (n x : N) : N := N.lor (N.shiftr x n) (w32 (N.shiftl x (32 - n))).
Definition not32 (x : N) : N := N.lxor x 0xFFFFFFFF.

Definition Ch (x y z : N) : N := N.lxor (N.land x y) (N.land (not32 x) z).
Definition Maj (x y z : N) : N := N.lxor (N.lxor (N.land x y) (N.land x z)) (N.land y z).
Definition Sigma0 (x : N) : N := N.lxor (N.lxor (rotr 2 x) (rotr 13 x)) (rotr 22 x).
Definition Sigma1 (x : N) : N := N.lxor (N.lxor (rotr 6 x) (rotr 11 x)) (rotr 25 x).
Definition sigma0 (x : N) : N := N.lxor (N.lxor (rotr 7 x) (rotr 18 x)) (N.shiftr x 3).
Definition sigma1 (x : N) : N := N.lxor (N.lxor (rotr 17 x) (rotr 19 x)) (N.shiftr x 10).

(** The constants of FIPS 180-4, by their definition: the first 32 fractional
    bits of the cube roots of the first 64 primes, and of the square roots of
    the first 8. *)
Definition is_prime (n : N) : bool :=
  forallb (fun d => negb (n mod d =? 0)) (N.of_nat <$> seq 2 (N.to_nat (N.sqrt n) - 1)).

Definition primes (count : nat) : list N :=
  take count (filter (fun n => is_prime n = true) (N.of_nat <$> seq 2 400)).

(** Integer cube root below [2^bits], bit by bit. *)
Fixpoint cube_root (bits : nat) (r n : N) : N :=
  match bits with
  | O => r
  | S bits =>
      let r' := r + N.shiftl 1 (N.of_nat bits) in
      cube_root bits (if r' * r' * r' <=? n then r' else r) n
  end.

Definition K : list N :=
  Eval vm_compute in (fun p => w32 (cube_root 36 0 (N.shiftl p 96))) <$> primes 64.

Definition H0 : list N := Eval vm_compute in (fun p => w32 (N.sqrt (N.shiftl p 64))) <$> primes 8.

(** Big-endian bytes of an [n]-byte word. *)
Fixpoint be_bytes (n : nat) (x : N) : list N :=
  match n with
  | O => []
  | S n => N.land (N.shiftr x (8 * N.of_nat n)) 0xFF :: be_bytes n x
  end.

(** Message padding: a 1 bit, zeroes, the bit length on 64 bits. *)
Definition pad (msg : list N) : list N :=
  let len := N.of_nat (length msg) in
  let zeros := N.to_nat ((119 - len mod 64) mod 64) in
  msg ++ [0x80] ++ replicate zeros 0 ++ be_bytes 8 (8 * len).

Fixpoint words (bs : list N) : list N :=
  match bs with
  | a :: b :: c :: d :: bs =>
      (N.shiftl a 24 + N.shiftl b 16 + N.shiftl c 8 + d) :: words bs
  | _ => []
  end.

(** The message schedule, newest word first: [W t] from the 16 previous. *)
Fixpoint schedule (n : nat) (rw : list N) : list N :=
  match n with
  | O => rw
  | S n =>
      let w := add32 (add32 (sigma1 (nth 1 rw 0)) (nth 6 rw 0))
                     (add32 (sigma0 (nth 14 rw 0)) (nth 15 rw 0)) in
      schedule n (w :: rw)
  end.

Definition round (st : list N) (kw : N * N) : list N :=
  match st with
  | [a; b; c; d; e; f; g; h] =>
      let t1 := add32 (add32 (add32 h (Sigma1 e)) (add32 (Ch e f g) (fst kw))) (snd kw) in
      let t2 := add32 (Sigma0 a) (Maj a b c) in
      [add32 t1 t2; a; b; c; add32 d t1; e; f; g]
  | _ => st
  end.

Definition compress (h : list N) (block : list N) : list N :=
  let w := reverse (schedule 48 (reverse block)) in
  zip_with add32 h (fold_left round (zip K w) h).

Fixpoint blocks (fuel : nat) (ws : list N) (h : list N) : list N :=
  match fuel, ws with
  | S fuel, _ :: _ => blocks fuel (drop 16 ws) (compress h (take 16 ws))
  | _, _ => h
  end.

Definition sum256 (msg : list N) : list N :=
  let ws := words (pad msg) in
  mjoin (be_bytes 4 <$> blocks (length ws) ws H0).

Definition hex_digit (x : N) : ascii :=
  ascii_of_N (if x <? 10 then 48 + x else 87 + x).

(** [hex.EncodeToString] *)
Fixpoint hex (bs : list N) : string :=
  match bs with
  | [] => ""
  | b :: bs => String (hex_digit (N.shiftr b 4)) (String (hex_digit (N.land b 0xF)) (hex bs))
  end.

Definition bytes (s : string) : list N := N_of_ascii <$> String.list_ascii_of_string s.
End Sha256.

(** [hex.EncodeToString(sha256.Sum256([]byte(s)))] *)
Definition sha256Hex (s : string) : string := Sha256.hex (Sha256.sum256 (Sha256.bytes s)).

(** FIPS 180-4 test vectors. *)
Example sha256_empty :
  sha256Hex "" = "e3b0c44298fc1c149afbf4c8996fb92427ae41e4649b934ca495991b7852b855".
Proof. vm_compute. reflexivity. Qed.

Example sha256_abc :
  sha256Hex "abc" = "ba7816bf8f01cfea414140de5dae2223b00361a396177a9cb410ff61f20015ad".
Proof. vm_compute. reflexivity. Qed.

Example sha256_two_blocks :
  sha256Hex "abcdbcdecdefdefgefghfghighijhijkijkljklmklmnlmnomnopnopq" =
  "248d6a61d20638b8e5c026930c3e6039a33ce45964ff2167f6ecedd419db06c1".
Proof. vm_compute. reflexivity. Qed.

(** A digest is always a 64 character string. *)
Lemma length_be_bytes n x : length (Sha256.be_bytes n x) = n.
Proof. induction n; cbn; auto. Qed.

Lemma length_round st kw : length st = 8 -> length (Sha256.round st kw) = 8.
Proof. intros H. do 9 (destruct st as [|? st]; try done). Qed.

Lemma length_compress h b : length h = 8 -> length (Sha256.compress h b) = 8.
Proof.
  intros Hh. unfold Sha256.compress. rewrite length_zip_with.
  assert (forall kws st, length st = 8 -> length (fold_left Sha256.round kws st) = 8) as Hf.
  { induction kws; cbn; auto using length_round. }
  rewrite Hf; lia.
Qed.

Lemma length_blocks n ws h : length h = 8 -> length (Sha256.blocks n ws h) = 8.
Proof.
  revert ws h; induction n as [|n IH]; intros [|w ws] h Hh; cbn; auto using length_compress.
Qed.

Lemma length_sum256 msg : length (Sha256.sum256 msg) = 32.
Proof.
  unfold Sha256.sum256.
  assert (forall l, length (mjoin (Sha256.be_bytes 4 <$> l)) = 4 * length l) as ->.
  { induction l as [|x l IH]; [done|].
    rewrite fmap_cons. cbn [mjoin list_join]. rewrite length_app, length_be_bytes.
    change (4 + length (mjoin (Sha256.be_bytes 4 <$> l)) = 4 * S (length l)). rewrite IH. lia. }
  by rewrite length_blocks.
Qed.

Lemma length_hex bs : String.length (Sha256.hex bs) = 2 * length bs.
Proof. induction bs as [|b bs IH]; cbn; [done|]. rewrite IH. lia. Qed.

Lemma sha256Hex_length s : String.length (sha256Hex s) = 64.
Proof. unfold sha256Hex. by rewrite length_hex, length_sum256. Qed.

#[export] Hint Rewrite sha256Hex_length : dbf_rw.
