(* ===== verification/GoValue.v ===== *)
(** * Dynamic values ([any]) and their JSON encoding

    Resource attributes travel through the program as [map[string]any]: graph
    nodes, plans and state records all hold one.  [goval] has one constructor
    per dynamic type the program stores under [any]; [marshal]/[json_text] are
    [encoding/json] on these values, [unmarshal_any] is [json.Unmarshal] into
    an [any]. *)
From S2P Require Import Prelude Sha256.

(** ** Values *)

(** [ir.ContentSummary], the one struct stored under [any]. *)
Record ContentSummary := { SHA256 : string; Bytes : Z }.

#[export] Instance ContentSummary_eq_dec : EqDecision ContentSummary.
Proof. solve_decision. Defined.

Inductive goval : Type :=
| GNil
| GBool (b : bool)
| GInt (z : Z)               (* int, int64 *)
| GFloat (z : Z)             (* float64 with an integral value *)
| GStr (s : string)
| GNilStrs                   (* []string(nil) *)
| GStrs (l : list string)    (* a non-nil []string *)
| GStrss (l : list (list string))
| GSummary (c : ContentSummary)
| GList (l : list goval)     (* []any *)
| GMap (m : gmap string goval)
| GNumber (text : string).  (* json.Number *)

(** A [map[string]any]; a nil map is the empty one. *)
Abbreviation gomap := (gmap string goval).

Fixpoint goval_size (v : goval) : nat :=
  match v with
  | GList l => S (sum_list (goval_size <$> l))
  | GMap m => S (sum_list (map_to_list (goval_size <$> m)).*2)
  | _ => 1
  end.

Lemma sum_list_elem_of (x : nat) l : x ∈ l -> x <= sum_list l.
Proof. induction 1; cbn; lia. Qed.

Lemma goval_size_list l v : v ∈ l -> goval_size v < goval_size (GList l).
Proof.
  intros Hv. cbn. assert (goval_size v <= sum_list (goval_size <$> l)); [|lia].
  apply sum_list_elem_of, list_elem_of_fmap; eauto.
Qed.

Lemma goval_size_map (m : gomap) k v : m !! k = Some v -> goval_size v < goval_size (GMap m).
Proof.
  intros Hv. cbn. assert (goval_size v <= sum_list (map_to_list (goval_size <$> m)).*2); [|lia].
  apply sum_list_elem_of, list_elem_of_fmap. exists (k, goval_size v). split; [done|].
  apply elem_of_map_to_list. by rewrite lookup_fmap, Hv.
Qed.

(** Induction that reaches the elements of lists and maps. *)
Lemma goval_rect_nested (P : goval -> Prop) :
  P GNil -> (forall b, P (GBool b)) -> (forall z, P (GInt z)) -> (forall z, P (GFloat z)) ->
  (forall s, P (GStr s)) -> P GNilStrs -> (forall l, P (GStrs l)) -> (forall l, P (GStrss l)) ->
  (forall c, P (GSummary c)) ->
  (forall l, Forall P l -> P (GList l)) ->
  (forall m : gomap, map_Forall (fun _ => P) m -> P (GMap m)) ->
  (forall text, P (GNumber text)) ->
  forall v, P v.
Proof.
  intros Hnil Hb Hi Hf Hs Hns Hss Hsss Hc Hl Hm Hnum v.
  remember (goval_size v) as n eqn:Hn. revert v Hn.
  induction (lt_wf n) as [n _ IH]; intros v ->.
  destruct v as [| | | | | | | | |l|m|]; auto.
  - apply Hl, Forall_forall. intros v Hv. eapply IH; [|done]. by apply goval_size_list.
  - apply Hm. intros k v Hv. eapply IH; [|done]. by eapply goval_size_map.
Qed.

(** ** Type assertions and field reads *)

Definition as_string (v : goval) : option string := match v with GStr s => Some s | _ => None end.
Definition as_bool (v : goval) : option bool := match v with GBool b => Some b | _ => None end.
Definition as_map (v : goval) : option gomap := match v with GMap m => Some m | _ => None end.
Definition as_list (v : goval) : option (list goval) := match v with GList l => Some l | _ => None end.

(** [engine.stringMapValue] (no [fmt.Stringer] is ever stored). *)
Definition stringMapValue (values : gomap) (name : string) : string :=
  match values !! name with Some (GStr s) => s | _ => "" end.

(** [engine.boolMapValue]: [value, _ := values[name].(bool)]. *)
Definition boolMapValue (values : gomap) (name : string) : bool :=
  match values !! name with Some (GBool b) => b | _ => false end.

(** [engine.intMapValue] *)
Definition intMapValue (values : gomap) (name : string) : Z :=
  match values !! name with Some (GInt z) => z | Some (GFloat z) => z | _ => 0 end.

(** [engine.stringListAnyValue] *)
Definition stringListAnyValue (v : goval) : list string :=
  match v with
  | GStrs l => l
  | GList l => omap as_string l
  | _ => []
  end.

(** [engine.stringListMapValue] *)
Definition stringListMapValue (values : gomap) (name : string) : list string :=
  match values !! name with
  | None | Some GNil => []
  | Some v => stringListAnyValue v
  end.

(** [engine.commandMatrixDesired] on the attribute map. *)
Definition commandRow (v : goval) : option (list string) :=
  match v with
  | GStrs l => Some l
  | GNilStrs => Some []
  | GList l => Some (omap as_string l)
  | _ => None
  end.

Definition commandMatrixValue (values : gomap) (name : string) : list (list string) :=
  match values !! name with
  | Some (GStrss l) => l
  | Some (GList l) => omap commandRow l
  | _ => []
  end.

(** ** Deep copies

    [state.cloneValue]/[cloneMap].  Values are immutable here, so what a copy
    changes is only what Go's copy changes: an empty [[]string] becomes the nil
    slice, which JSON prints differently. *)
Fixpoint cloneValue (v : goval) : goval :=
  match v with
  | GMap m => GMap (cloneValue <$> m)
  | GList l => GList (cloneValue <$> l)
  | GStrs [] => GNilStrs
  | v => v
  end.

Definition cloneMap (m : gomap) : gomap := cloneValue <$> m.

Lemma cloneValue_idemp v : cloneValue (cloneValue v) = cloneValue v.
Proof.
  induction v as [| | | | | |l| | |l IH|m IH|] using goval_rect_nested; try done.
  - by destruct l.
  - cbn. f_equal. rewrite <- list_fmap_compose. apply list_fmap_ext.
    intros i x Hx. apply (proj1 (Forall_forall _ _) IH). by eapply list_elem_of_lookup_2.
  - cbn. f_equal. rewrite <- map_fmap_compose. apply map_fmap_ext.
    intros k x Hx. by apply (IH k).
Qed.

Lemma cloneMap_idemp m : cloneMap (cloneMap m) = cloneMap m.
Proof.
  unfold cloneMap. rewrite <- map_fmap_compose. apply map_fmap_ext.
  intros. apply cloneValue_idemp.
Qed.

Lemma lookup_cloneMap m k : cloneMap m !! k = cloneValue <$> (m !! k).
Proof. apply lookup_fmap. Qed.

Lemma cloneMap_insert m k v : cloneMap (<[k := v]> m) = <[k := cloneValue v]> (cloneMap m).
Proof. apply fmap_insert. Qed.

Lemma cloneMap_delete m k : cloneMap (delete k m) = delete k (cloneMap m).
Proof. apply fmap_delete. Qed.

Lemma stringMapValue_clone m k : stringMapValue (cloneMap m) k = stringMapValue m k.
Proof.
  unfold stringMapValue. rewrite lookup_cloneMap.
  by destruct (m !! k) as [[| | | | | |[]| | | | |]|].
Qed.

Lemma boolMapValue_clone m k : boolMapValue (cloneMap m) k = boolMapValue m k.
Proof.
  unfold boolMapValue. rewrite lookup_cloneMap.
  by destruct (m !! k) as [[| | | | | |[]| | | | |]|].
Qed.

#[export] Hint Rewrite lookup_cloneMap cloneMap_insert cloneMap_delete cloneMap_idemp
  stringMapValue_clone boolMapValue_clone : dbf_rw.

(** ** JSON documents

    Object members keep their order: Go prints struct fields in declaration
    order and map entries in key order. *)
Inductive json : Type :=
| JNull
| JBool (b : bool)
| JNum (z : Z)
| JStr (s : string)
| JArr (l : list json)
| JObj (l : list (string * json))
| JNumber (text : string).  (** a number by its text, from a [json.Number] *)

(** Members of a map, printed in key order. *)
Definition key_ltb {V} (a b : string * V) : bool := str_ltb a.1 b.1.
Definition sorted_entries {V} (m : gmap string V) : list (string * V) :=
  sort_by key_ltb (map_to_list m).

(** [json:",omitempty"] fields. *)
Definition omit_str (k s : string) : list (string * json) :=
  if decide (s = "") then [] else [(k, JStr s)].
Definition omit_num (k : string) (z : Z) : list (string * json) :=
  if decide (z = 0%Z) then [] else [(k, JNum z)].

Definition marshal_summary (c : ContentSummary) : json :=
  JObj (omit_str "sha256" (SHA256 c) ++ omit_num "bytes" (Bytes c)).

(** [json.Marshal], as a document. *)
Fixpoint marshal (v : goval) : json :=
  match v with
  | GNil | GNilStrs => JNull
  | GBool b => JBool b
  | GInt z | GFloat z => JNum z
  | GStr s => JStr s
  | GStrs l => JArr (JStr <$> l)
  | GStrss l => JArr ((fun row => JArr (JStr <$> row)) <$> l)
  | GSummary c => marshal_summary c
  | GList l => JArr (marshal <$> l)
  | GMap m => JObj (sorted_entries (marshal <$> m))
  | GNumber text => JNumber (if decide (text = "") then "0" else text)
  end.

Definition marshal_map (m : gomap) : json := marshal (GMap m).

(** [json.Unmarshal] into an [any]: numbers become [float64], objects
    [map[string]any] with the last of equal members winning.  A number that a
    [json.Number] wrote keeps its text: the code puts them in the settings of
    the Docker daemon only, whose JSON is never read back. *)
Fixpoint unmarshal_any (j : json) : goval :=
  match j with
  | JNull => GNil
  | JBool b => GBool b
  | JNum z => GFloat z
  | JStr s => GStr s
  | JArr l => GList (unmarshal_any <$> l)
  | JObj l => GMap (list_to_map (reverse ((fun p => (p.1, unmarshal_any p.2)) <$> l)))
  | JNumber text => GNumber text
  end.

(** *** Text *)

(** A byte-wise scanner for UTF-8 as [utf8.DecodeRune] accepts it: the length
    of the encoded rune at the head of [l], [None] for an invalid byte. *)
Definition in_range (lo hi x : N) : bool := (lo <=? x)%N && (x <=? hi)%N.
Definition is_cont (x : N) : bool := in_range 0x80 0xBF x.

Definition rune_len (l : list N) : option nat :=
  match l with
  | [] => None
  | b0 :: l =>
      if (b0 <? 0x80)%N then Some 1
      else match l with
      | b1 :: l =>
          if in_range 0xC2 0xDF b0 then if is_cont b1 then Some 2 else None
          else match l with
          | b2 :: l =>
              let ok3 := if (b0 =? 0xE0)%N then in_range 0xA0 0xBF b1
                         else if (b0 =? 0xED)%N then in_range 0x80 0x9F b1
                         else in_range 0xE1 0xEF b0 && is_cont b1 in
              if ok3 && in_range 0xE0 0xEF b0 then if is_cont b2 then Some 3 else None
              else match l with
              | b3 :: _ =>
                  let ok4 := if (b0 =? 0xF0)%N then in_range 0x90 0xBF b1
                             else if (b0 =? 0xF4)%N then in_range 0x80 0x8F b1
                             else in_range 0xF1 0xF3 b0 && is_cont b1 in
                  if ok4 && is_cont b2 && is_cont b3 then Some 4 else None
              | [] => None
              end
          | [] => None
          end
      | [] => None
      end
  end.

Definition byte_str (n : N) : string := String (ascii_of_N n) EmptyString.
Definition backslash : string := byte_str 92.
Definition hex2 (n : N) : string := Sha256.hex [n].

(** The escape of one ASCII byte in a JSON string (HTML escaping on). *)
Definition json_ascii (b : N) : string :=
  if (b =? 34)%N then backslash +:+ dquote
  else if (b =? 92)%N then backslash +:+ backslash
  else if (b =? 8)%N then backslash +:+ "b"
  else if (b =? 12)%N then backslash +:+ "f"
  else if (b =? 10)%N then backslash +:+ "n"
  else if (b =? 13)%N then backslash +:+ "r"
  else if (b =? 9)%N then backslash +:+ "t"
  else if (b <? 0x20)%N || (b =? 0x26)%N || (b =? 0x3C)%N || (b =? 0x3E)%N
  then backslash +:+ "u00" +:+ hex2 b
  else byte_str b.

(** U+2028 and U+2029 *)
Definition line_separator (l : list N) : option string :=
  match l with
  | b0 :: b1 :: b2 :: _ =>
      if (b0 =? 0xE2)%N && (b1 =? 0x80)%N then
        if (b2 =? 0xA8)%N then Some "2028" else if (b2 =? 0xA9)%N then Some "2029" else None
      else None
  | _ => None
  end.

Inductive scan := Emit (n : nat) | Skip (n : nat).

Fixpoint json_escape (st : scan) (l : list N) : string :=
  match l with
  | [] => ""
  | b :: l' =>
      match st with
      | Emit (S n) => byte_str b +:+ json_escape (Emit n) l'
      | Skip (S n) => json_escape (Skip n) l'
      | _ =>
          if (b <? 0x80)%N then json_ascii b +:+ json_escape (Emit 0) l'
          else match line_separator l with
          | Some u => backslash +:+ "u" +:+ u +:+ json_escape (Skip 2) l'
          | None =>
              match rune_len l with
              | Some n => byte_str b +:+ json_escape (Emit (Nat.pred n)) l'
              | None => backslash +:+ "ufffd" +:+ json_escape (Emit 0) l'
              end
          end
      end
  end.

Definition json_string (s : string) : string :=
  dquote +:+ json_escape (Emit 0) (Sha256.bytes s) +:+ dquote.

Definition comma_join (l : list string) : string := strings_Join l ",".

Fixpoint json_text (j : json) : string :=
  match j with
  | JNull => "null"
  | JBool true => "true"
  | JBool false => "false"
  | JNum z => pretty z
  | JStr s => json_string s
  | JArr l => "[" +:+ comma_join (json_text <$> l) +:+ "]"
  | JObj l => "{" +:+ comma_join ((fun p => json_string p.1 +:+ ":" +:+ json_text p.2) <$> l) +:+ "}"
  | JNumber text => text
  end.

Example json_text_example :
  json_text (marshal (GMap {["b" := GStrs ["x"]; "a" := GInt (-3); "c" := GBool true;
                            "d" := GSummary {| SHA256 := "ab"; Bytes := 7 |}; "e" := GNilStrs]})) =
  String.concat dquote ["{"; "a"; ":-3,"; "b"; ":["; "x"; "],"; "c"; ":true,"; "d"; ":{";
                        "sha256"; ":"; "ab"; ","; "bytes"; ":7},"; "e"; ":null}"].
Proof. vm_compute. reflexivity. Qed.

(** ** Quoted strings

    [strconv.Quote], with every non-ASCII rune taken as printable. *)
Definition quote_ascii (b : N) : string :=
  if (b =? 34)%N then backslash +:+ dquote
  else if (b =? 92)%N then backslash +:+ backslash
  else if (b =? 7)%N then backslash +:+ "a"
  else if (b =? 8)%N then backslash +:+ "b"
  else if (b =? 12)%N then backslash +:+ "f"
  else if (b =? 10)%N then backslash +:+ "n"
  else if (b =? 13)%N then backslash +:+ "r"
  else if (b =? 9)%N then backslash +:+ "t"
  else if (b =? 11)%N then backslash +:+ "v"
  else if (b <? 0x20)%N || (b =? 0x7F)%N then backslash +:+ "x" +:+ hex2 b
  else byte_str b.

Fixpoint quote_escape (skip : nat) (l : list N) : string :=
  match l with
  | [] => ""
  | b :: l' =>
      match skip with
      | S n => byte_str b +:+ quote_escape n l'
      | O =>
          if (b <? 0x80)%N then quote_ascii b +:+ quote_escape 0 l'
          else match rune_len l with
          | Some n => byte_str b +:+ quote_escape (Nat.pred n) l'
          | None => backslash +:+ "x" +:+ hex2 b +:+ quote_escape 0 l'
          end
      end
  end.

Definition strconv_Quote (s : string) : string :=
  dquote +:+ quote_escape 0 (Sha256.bytes s) +:+ dquote.

(** ** Decidable equality ([reflect.DeepEqual] on decoded values) *)
Abbreviation leaf := (string + (Z + bool))%type.

Definition leaf_str (s : string) : gen_tree leaf := GenLeaf (inl s).
Definition leaf_num (z : Z) : gen_tree leaf := GenLeaf (inr (inl z)).
Definition leaf_bool (b : bool) : gen_tree leaf := GenLeaf (inr (inr b)).
Definition leaf_strs (l : list string) : gen_tree leaf := GenNode 0 (leaf_str <$> l).
Definition entry_tree (p : string * gen_tree leaf) : gen_tree leaf :=
  GenNode 0 [leaf_str p.1; p.2].

Fixpoint to_tree (v : goval) : gen_tree leaf :=
  match v with
  | GNil => GenNode 0 []
  | GBool b => GenNode 1 [leaf_bool b]
  | GInt z => GenNode 2 [leaf_num z]
  | GFloat z => GenNode 3 [leaf_num z]
  | GStr s => GenNode 4 [leaf_str s]
  | GNilStrs => GenNode 5 []
  | GStrs l => GenNode 6 [leaf_strs l]
  | GStrss l => GenNode 7 (leaf_strs <$> l)
  | GSummary c => GenNode 8 [leaf_str (SHA256 c); leaf_num (Bytes c)]
  | GList l => GenNode 9 (to_tree <$> l)
  | GMap m => GenNode 10 (entry_tree <$> map_to_list (to_tree <$> m))
  | GNumber text => GenNode 11 [leaf_str text]
  end.

Lemma fmap_inj_on {A B} (f : A -> B) (l l' : list A) :
  (forall x y, x ∈ l -> f x = f y -> x = y) -> f <$> l = f <$> l' -> l = l'.
Proof.
  revert l'; induction l as [|x l IH]; intros [|y l'] Hinj; cbn; try done.
  intros [= Hxy Hl]. f_equal; [apply Hinj; [by left|done]|].
  apply IH; [|done]. intros; apply Hinj; [by right|done].
Qed.

Lemma leaf_strs_inj (l l' : list string) : leaf_str <$> l = leaf_str <$> l' -> l = l'.
Proof. apply fmap_inj_on. by intros x y _ [=]. Qed.

Lemma to_tree_inj v w : to_tree v = to_tree w -> v = w.
Proof.
  revert w; induction v as [| | | | | |l|l|c|l IH|m IH|] using goval_rect_nested;
    intros w Hw; destruct w as [| | | | | |l'|l'|c'|l'|m'|]; try discriminate Hw;
    cbn in Hw; try (by simplify_eq); try (injection Hw as Hw).
  - f_equal. by apply leaf_strs_inj.
  - f_equal. eapply fmap_inj_on; [|exact Hw]. intros x y _ [= Hxy]. by apply leaf_strs_inj.
  - destruct c, c'; naive_solver.
  - f_equal. eapply fmap_inj_on; [|exact Hw]. intros x y Hx.
    by apply (proj1 (Forall_forall _ _) IH).
  - f_equal. apply fmap_inj_on in Hw; [|intros [] []; naive_solver].
    assert (to_tree <$> m = to_tree <$> m') as Hm.
    { apply map_to_list_inj. by rewrite Hw. }
    apply map_eq. intros k. pose proof (f_equal (lookup k) Hm) as Hk.
    rewrite !lookup_fmap in Hk. destruct (m !! k) as [x|] eqn:Hx, (m' !! k) as [y|] eqn:Hy;
      cbn in Hk; try discriminate; [|done].
    injection Hk as Hk. f_equal. exact (IH k x Hx y Hk).
Qed.

#[export] Instance goval_eq_dec : EqDecision goval.
Proof.
  intros v w. destruct (decide (to_tree v = to_tree w)) as [H|H].
  - left. by apply to_tree_inj.
  - right. by intros ->.
Defined.

(** ** JSON round trips *)

Section sorted_entries.
Context {V : Type}.
Implicit Types m : gmap string V.

Lemma sorted_entries_perm m : sorted_entries m ≡ₚ map_to_list m.
Proof. apply sort_by_perm. Qed.

Lemma elem_of_sorted_entries m k v : (k, v) ∈ sorted_entries m <-> m !! k = Some v.
Proof. by rewrite sorted_entries_perm, elem_of_map_to_list. Qed.

Lemma NoDup_sorted_entries m : NoDup (sorted_entries m).*1.
Proof. rewrite sorted_entries_perm. apply NoDup_fst_map_to_list. Qed.

(** Reading the members back gives the map. *)
Lemma list_to_map_sorted_entries {W} (f : V -> W) m :
  list_to_map (reverse ((fun p => (p.1, f p.2)) <$> sorted_entries m)) = f <$> m.
Proof. apply list_to_map_entries, sorted_entries_perm. Qed.
End sorted_entries.

(** Values with no struct inside: what [json.Unmarshal] produces, and every
    attribute except [summary]. *)
Inductive plain : goval -> Prop :=
| plain_nil : plain GNil
| plain_bool b : plain (GBool b)
| plain_int z : plain (GInt z)
| plain_float z : plain (GFloat z)
| plain_str s : plain (GStr s)
| plain_nilstrs : plain GNilStrs
| plain_strs l : plain (GStrs l)
| plain_strss l : plain (GStrss l)
| plain_list l : Forall plain l -> plain (GList l)
| plain_map (m : gomap) : map_Forall (fun _ => plain) m -> plain (GMap m).

(** Decoding and encoding again prints the same document. *)
Lemma marshal_unmarshal_marshal v : plain v -> marshal (unmarshal_any (marshal v)) = marshal v.
Proof.
  induction v as [| | | | | |l|l|c|l IH|m IH|] using goval_rect_nested; intros Hv; try done.
  - cbn. f_equal. rewrite <- !list_fmap_compose. done.
  - cbn. f_equal. rewrite <- !list_fmap_compose. apply list_fmap_ext. intros _ row _. cbn.
    f_equal. by rewrite <- !list_fmap_compose.
  - inversion Hv.
  - inversion Hv as [| | | | | | | |? Hl|]; subst. cbn. f_equal. rewrite <- !list_fmap_compose.
    apply list_fmap_ext. intros i x Hx%list_elem_of_lookup_2. cbn.
    rewrite Forall_forall in IH, Hl. auto.
  - inversion Hv as [| | | | | | | | |? Hm]; subst.
    cbn [marshal unmarshal_any]. do 2 f_equal. rewrite list_to_map_sorted_entries.
    rewrite <- !map_fmap_compose. apply map_fmap_ext. intros k x Hx. cbn.
    apply (IH k x Hx (Hm k x Hx)).
  - inversion Hv.
Qed.
