(* ===== verification/GoStrings.v ===== *)
(** * Go's [strings] functions on bytes

    Trimming, lower-casing and splitting, as the engine and the front end use
    them.  White space is Unicode's [White_Space], recognized on UTF-8. *)
From S2P Require Import Prelude Sha256 GoValue.

Definition of_bytes (l : list N) : string := String.string_of_list_ascii (ascii_of_N <$> l).

(** The length of the white-space rune at the head of [l], 0 if there is none. *)
Definition space_len (l : list N) : nat :=
  match l with
  | b0 :: l1 =>
      if in_range 9 13 b0 || (b0 =? 32)%N then 1
      else match l1 with
      | b1 :: l2 =>
          if (b0 =? 0xC2)%N && ((b1 =? 0x85)%N || (b1 =? 0xA0)%N) then 2
          else match l2 with
          | b2 :: _ =>
              if (b0 =? 0xE1)%N && (b1 =? 0x9A)%N && (b2 =? 0x80)%N
                 || (b0 =? 0xE2)%N && (b1 =? 0x80)%N
                    && (in_range 0x80 0x8A b2 || (b2 =? 0xA8)%N || (b2 =? 0xA9)%N || (b2 =? 0xAF)%N)
                 || (b0 =? 0xE2)%N && (b1 =? 0x81)%N && (b2 =? 0x9F)%N
                 || (b0 =? 0xE3)%N && (b1 =? 0x80)%N && (b2 =? 0x80)%N
              then 3 else 0
          | [] => 0
          end
      | [] => 0
      end
  | [] => 0
  end.

Fixpoint trim_left_space (fuel : nat) (l : list N) : list N :=
  match fuel with
  | O => l
  | S fuel => match space_len l with O => l | n => trim_left_space fuel (drop n l) end
  end.

(** The white-space rune that ends the list whose reverse is [r]. *)
Definition space_len_rev (r : list N) : nat :=
  if bool_decide (space_len (reverse (take 1 r)) = 1) then 1
  else if bool_decide (space_len (reverse (take 2 r)) = 2) then 2
  else if bool_decide (space_len (reverse (take 3 r)) = 3) then 3
  else 0.

Fixpoint trim_right_space (fuel : nat) (r : list N) : list N :=
  match fuel with
  | O => r
  | S fuel => match space_len_rev r with O => r | n => trim_right_space fuel (drop n r) end
  end.

Definition strings_TrimSpace (s : string) : string :=
  let l := Sha256.bytes s in
  let l := trim_left_space (length l) l in
  of_bytes (reverse (trim_right_space (length l) (reverse l))).

Example TrimSpace_example : strings_TrimSpace (String (ascii_of_N 10) "  a b ") = "a b".
Proof. vm_compute. reflexivity. Qed.

(** [strings.Trim] with an ASCII cut set. *)
Fixpoint drop_while (p : ascii -> bool) (l : list ascii) : list ascii :=
  match l with
  | [] => []
  | c :: l' => if p c then drop_while p l' else l
  end.

Definition in_cutset (cutset : string) (c : ascii) : bool :=
  bool_decide (c ∈ String.list_ascii_of_string cutset).

Definition strings_TrimLeft (s cutset : string) : string :=
  String.string_of_list_ascii (drop_while (in_cutset cutset) (String.list_ascii_of_string s)).

Definition strings_Trim (s cutset : string) : string :=
  let l := drop_while (in_cutset cutset) (String.list_ascii_of_string s) in
  String.string_of_list_ascii (reverse (drop_while (in_cutset cutset) (reverse l))).

(** [strings.ToLower] on ASCII text. *)
Definition lower_ascii (c : ascii) : ascii :=
  let n := N_of_ascii c in if in_range 65 90 n then ascii_of_N (n + 32) else c.

Fixpoint strings_ToLower (s : string) : string :=
  match s with
  | EmptyString => EmptyString
  | String c s => String (lower_ascii c) (strings_ToLower s)
  end.

(** [strings.Split] by a single byte. *)
Fixpoint split_go (c : ascii) (cur : string) (s : string) : list string :=
  match s with
  | EmptyString => [cur]
  | String d s => if decide (d = c) then cur :: split_go c "" s
                  else split_go c (cur +:+ String d EmptyString) s
  end.
Definition strings_Split (s : string) (c : ascii) : list string := split_go c "" s.

(** [safeName]: alphanumerics kept, every other rune becomes an underscore. *)
Definition alnum (n : N) : bool := in_range 97 122 n || in_range 65 90 n || in_range 48 57 n.

Fixpoint safe_runes (skip : nat) (l : list N) : string :=
  match l with
  | [] => ""
  | b :: l' =>
      match skip with
      | S n => safe_runes n l'
      | O =>
          if alnum b then byte_str b +:+ safe_runes 0 l'
          else match rune_len l with
          | Some n => "_" +:+ safe_runes (Nat.pred n) l'
          | None => "_" +:+ safe_runes 0 l'
          end
      end
  end.

Definition safeName (value : string) : string :=
  let out := strings_Trim (safe_runes 0 (Sha256.bytes value)) "_" in
  if decide (out = "") then "resource" else strings_ToLower out.

Definition modulePath (name : string) : string := "/etc/modules-load.d/dbf-" +:+ safeName name +:+ ".conf".
Definition sysctlPath (key : string) : string := "/etc/sysctl.d/99-dbf-" +:+ safeName key +:+ ".conf".

Example safeName_example : safeName "net.ipv4.ip_Forward" = "net_ipv4_ip_forward".
Proof. vm_compute. reflexivity. Qed.

(** [normalizeMode], [displayMode], [nonEmptyLines], [sameStringSet] *)
Definition normalizeMode (mode : string) : string := strings_TrimLeft mode "0".

Fixpoint zeros (n : nat) : string :=
  match n with O => EmptyString | S n => String "0" (zeros n) end.

Definition displayMode (mode : string) : string :=
  let trimmed := strings_TrimSpace mode in
  if decide (trimmed = "") then ""
  else if decide (4 <= String.length trimmed) then trimmed
  else zeros (4 - String.length trimmed) +:+ trimmed.

Definition newline : ascii := ascii_of_N 10.

Definition nonEmptyLines (output : string) : list string :=
  filter (fun l => l <> "") (strings_TrimSpace <$> strings_Split (strings_TrimSpace output) newline).

Definition sameStringSet (a b : list string) : bool :=
  if decide (length a <> length b) then false
  else bool_decide (sort_strings a = sort_strings b).

(** Despite its name the test is equality of multisets. *)
Lemma sameStringSet_spec a b : sameStringSet a b = true <-> a ≡ₚ b.
Proof.
  unfold sameStringSet. split.
  - case_decide; [done|]. rewrite bool_decide_eq_true. intros E.
    rewrite <- (sort_by_perm str_ltb a), <- (sort_by_perm str_ltb b).
    unfold sort_strings in E. by rewrite E.
  - intros Hp. rewrite decide_False by (rewrite Hp; tauto).
    apply bool_decide_eq_true. by apply sort_strings_unique.
Qed.

(** ** [path/filepath] on Unix, and the pieces of [strings] and [strconv] the
    builders of host specifications use *)

Definition slash : ascii := "/"%char.

Definition filepath_IsAbs (path : string) : bool := strings_HasPrefix path "/".

(** One component of [filepath.Clean], on the components kept so far, last
    first. *)
Definition clean_step (rooted : bool) (kept : list string) (part : string) : list string :=
  if bool_decide (part = "" \/ part = ".") then kept
  else if bool_decide (part = "..") then
    match kept with
    | last :: rest => if bool_decide (last = "..") then part :: kept else rest
    | [] => if rooted then [] else [part]
    end
  else part :: kept.

Definition filepath_Clean (path : string) : string :=
  let rooted := filepath_IsAbs path in
  let kept := reverse (fold_left (clean_step rooted) (strings_Split path slash) []) in
  let body := strings_Join kept "/" in
  if rooted then "/" +:+ body else if bool_decide (body = "") then "." else body.

(** [path[:i+1]] for the last slash [i]. *)
Definition dir_prefix (path : string) : string :=
  String.string_of_list_ascii
    (reverse (drop_while (fun c => negb (bool_decide (c = slash))) (reverse (String.list_ascii_of_string path)))).
Definition filepath_Dir (path : string) : string := filepath_Clean (dir_prefix path).

(** [filepath.Join] of a directory, which [filepath.Dir] never leaves empty, and
    a name. *)
Definition filepath_Join (dir name : string) : string := filepath_Clean (dir +:+ "/" +:+ name).

Example Clean_example :
  filepath_Clean <$> ["/a/./b/../c"; "../x"; "a/.."; "/.."; "a//b/"; ""; "../../a/../b"]
  = ["/a/c"; "../x"; "."; "/"; "a/b"; "."; "../../b"].
Proof. vm_compute. reflexivity. Qed.
Example Dir_example : filepath_Dir <$> ["/etc/site.dbf.hcl"; "site.dbf.hcl"; "x/y/z"] = ["/etc"; "."; "x/y"].
Proof. vm_compute. reflexivity. Qed.

Definition strings_TrimSuffix (s suffix : string) : string :=
  if strings_HasSuffix s suffix then String.substring 0 (String.length s - String.length suffix) s else s.

(** [strings.Cut] at a one-byte separator. *)
Fixpoint strings_Cut (s : string) (sep : ascii) : option (string * string) :=
  match s with
  | EmptyString => None
  | String c s' =>
      if bool_decide (c = sep) then Some (EmptyString, s')
      else '(a, b) ← strings_Cut s' sep; Some (String c a, b)
  end.

(** [strconv.Atoi]: an optional sign and decimal digits, in the range of
    [int]. *)
Fixpoint digits_value (acc : Z) (l : list N) : option Z :=
  match l with
  | [] => Some acc
  | b :: l => if in_range 48 57 b then digits_value (acc * 10 + Z.of_N (b - 48))%Z l else None
  end.
Definition strconv_Atoi (s : string) : option Z :=
  let '(negative, digits) :=
    match Sha256.bytes s with
    | 45 :: l => (true, l)
    | 43 :: l => (false, l)
    | l => (false, l)
    end%N in
  match digits with
  | [] => None
  | _ => z ← digits_value 0 digits;
         let z := if negative then (- z)%Z else z in
         if bool_decide (int_min <= z <= int_max)%Z then Some z else None
  end.

Example Atoi_example :
  strconv_Atoi <$> ["22"; "-1"; "+7"; ""; "1x"; "9223372036854775808"; "-9223372036854775808"]
  = [Some 22%Z; Some (-1)%Z; Some 7%Z; None; None; None; Some int_min].
Proof. vm_compute. reflexivity. Qed.

(** ** Quoted strings are printable

    [strconv.Quote] escapes the control characters of its argument, so that its
    result is one line of text without a NUL byte. *)

(** No control character: every byte is at least a space. *)
Definition printable (s : string) : bool := forallb (N.leb 0x20) (Sha256.bytes s).

Lemma printable_cons c s : printable (String c s) = N.leb 0x20 (N_of_ascii c) && printable s.
Proof. done. Qed.

Lemma printable_app a b : printable (a +:+ b) = printable a && printable b.
Proof. induction a as [|c a IH]; [done|]. by rewrite str_app_cons, !printable_cons, IH, andb_assoc. Qed.

(** The bytes of a rune after the first are outside ASCII. *)
Definition high (l : list N) : Prop := Forall (fun b => (0x80 <= b)%N) l.

Lemma in_range_high lo hi b : (0x80 <= lo)%N -> in_range lo hi b = true -> (0x80 <= b)%N.
Proof. unfold in_range. rewrite andb_true_iff, N.leb_le. lia. Qed.

Lemma rune_len_high b l n :
  (b <? 0x80)%N = false -> rune_len (b :: l) = Some n -> high (take (Nat.pred n) l).
Proof.
  intros Hb. cbn [rune_len]. rewrite Hb.
  destruct l as [|b1 l]; [done|]. unfold is_cont.
  destruct (in_range 0xC2 0xDF b) eqn:E2.
  { destruct (in_range 0x80 0xBF b1) eqn:E; [|done]. intros [= <-].
    repeat constructor. by eapply in_range_high in E. }
  destruct l as [|b2 l]; [done|].
  assert (Hb1 : forall x y z w u v (c d : bool), (0x80 <= x)%N -> (0x80 <= z)%N ->
    (if c then in_range x y b1 else if d then in_range z w b1
     else in_range u v b && in_range 0x80 0xBF b1) = true -> (0x80 <= b1)%N).
  { intros x y z w u v c d Hx Hz. destruct c; [by apply in_range_high|].
    destruct d; [by apply in_range_high|]. intros [_ H]%andb_true_iff. by eapply in_range_high in H. }
  destruct (_ && in_range 0xE0 0xEF b) eqn:E3.
  { apply andb_true_iff in E3 as [E3 _]. destruct (in_range 0x80 0xBF b2) eqn:E; [|done].
    intros [= <-]. repeat constructor; [by eapply Hb1 in E3|by eapply in_range_high in E]. }
  destruct l as [|b3 l]; [done|]. destruct (_ && _ && _) eqn:E4; [|done]. intros [= <-].
  apply andb_true_iff in E4 as [[E4 E5]%andb_true_iff E6].
  repeat constructor; [by eapply Hb1 in E4|by eapply in_range_high in E5|by eapply in_range_high in E6].
Qed.

Definition byte_range : list N := N.of_nat <$> seq 0 256.

Lemma byte_range_forall (p : N -> bool) b : forallb p byte_range = true -> (b < 256)%N -> p b = true.
Proof.
  intros Hp Hb. rewrite forallb_forall in Hp. apply Hp, list_elem_of_In, list_elem_of_fmap.
  exists (N.to_nat b). split; [lia|]. apply elem_of_seq. lia.
Qed.

Lemma printable_byte b : (b < 256)%N -> (0x80 <= b)%N -> printable (byte_str b) = true.
Proof.
  intros Hb Hz. assert (H := byte_range_forall (fun b => (b <? 0x80)%N || printable (byte_str b)) b eq_refl Hb).
  cbn beta in H. apply orb_true_iff in H as [?%N.ltb_lt|H]; [lia|done].
Qed.

Lemma printable_hex2 b : (b < 256)%N -> printable (hex2 b) = true.
Proof. by apply (byte_range_forall (fun b => printable (hex2 b)) b eq_refl). Qed.

Lemma printable_quote_ascii b : (b < 256)%N -> printable (quote_ascii b) = true.
Proof. by apply (byte_range_forall (fun b => printable (quote_ascii b)) b eq_refl). Qed.

Lemma printable_quote_escape l : forall skip,
  Forall (fun b => (b < 256)%N) l -> high (take skip l) -> printable (quote_escape skip l) = true.
Proof.
  induction l as [|b l IH]; intros skip Hl Hskip; [done|].
  apply Forall_cons in Hl as [Hb Hl]. destruct skip as [|skip]; cbn [quote_escape].
  - destruct (b <? 0x80)%N eqn:E.
    + by rewrite printable_app, printable_quote_ascii, IH.
    + destruct (rune_len (b :: l)) as [n|] eqn:Er.
      * rewrite printable_app, printable_byte, IH; [done|done| |done|by apply N.ltb_ge in E].
        by eapply rune_len_high.
      * rewrite !printable_app, printable_hex2, IH by (done || constructor). done.
  - cbn in Hskip. apply Forall_cons in Hskip as [Hz Hskip].
    by rewrite printable_app, printable_byte, IH.
Qed.

Lemma printable_Quote s : printable (strconv_Quote s) = true.
Proof.
  unfold strconv_Quote. rewrite !printable_app, printable_quote_escape; [done| |constructor].
  apply Forall_forall. intros b Hb. unfold Sha256.bytes in Hb.
  apply list_elem_of_fmap in Hb as (c & -> & _). apply N_ascii_bounded.
Qed.

(** ** A quoted string determines the string

    [unquote] reads what [quote_escape] wrote, up to the closing quote. *)
Definition hex_value (c : ascii) : N :=
  let n := N_of_ascii c in if in_range 48 57 n then n - 48 else n - 87.
Definition unescape (c : ascii) : N :=
  let n := N_of_ascii c in
  if (n =? 97)%N then 7 else if (n =? 98)%N then 8 else if (n =? 102)%N then 12 else if (n =? 110)%N then 10
  else if (n =? 114)%N then 13 else if (n =? 116)%N then 9 else if (n =? 118)%N then 11 else n.

Fixpoint unquote (s : string) : list N :=
  match s with
  | EmptyString => []
  | String c s' =>
      let n := N_of_ascii c in
      if (n =? 34)%N then []
      else if (n =? 92)%N then
        match s' with
        | String d s'' =>
            if (N_of_ascii d =? 120)%N then
              match s'' with
              | String h (String k r) => (16 * hex_value h + hex_value k)%N :: unquote r
              | _ => []
              end
            else unescape d :: unquote s''
        | EmptyString => []
        end
      else n :: unquote s'
  end.

Lemma bytes_below (P : N -> Prop) b : Forall P byte_range -> (b < 256)%N -> P b.
Proof.
  intros HP Hb. rewrite Forall_forall in HP. apply HP, list_elem_of_fmap.
  exists (N.to_nat b). split; [lia|]. apply elem_of_seq. lia.
Qed.

Lemma unquote_ascii r b :
  (b < 256)%N -> (b < 0x80)%N -> unquote (quote_ascii b +:+ r) = b :: unquote r.
Proof.
  intros Hb. apply (bytes_below (fun b => (b < 0x80)%N -> unquote (quote_ascii b +:+ r) = b :: unquote r)); [|done].
  clear b Hb.
  unfold byte_range. cbn [seq fmap list_fmap]. repeat (constructor; [done || by intros H; exfalso; revert H|]).
  constructor.
Qed.

Lemma unquote_hex r b : (b < 256)%N -> unquote (backslash +:+ "x" +:+ hex2 b +:+ r) = b :: unquote r.
Proof.
  intros Hb. apply (bytes_below (fun b => unquote (backslash +:+ "x" +:+ hex2 b +:+ r) = b :: unquote r)); [|done].
  clear b Hb.
  unfold byte_range. cbn [seq fmap list_fmap]. repeat (constructor; [done|]). constructor.
Qed.

Lemma unquote_high r b :
  (b < 256)%N -> (0x80 <= b)%N -> unquote (byte_str b +:+ r) = b :: unquote r.
Proof.
  intros Hb Hz. unfold byte_str. rewrite str_app_cons. cbn [unquote]. rewrite N_ascii_embedding by done. cbv zeta.
  destruct (N.eqb_spec b 34); [lia|]. by destruct (N.eqb_spec b 92); [lia|].
Qed.

Lemma unquote_escape r l : forall skip,
  Forall (fun b => (b < 256)%N) l -> high (take skip l) ->
  unquote (quote_escape skip l +:+ dquote +:+ r) = l.
Proof.
  induction l as [|b l IH]; intros skip Hl Hskip; [done|].
  apply Forall_cons in Hl as [Hb Hl]. destruct skip as [|skip]; cbn [quote_escape].
  - destruct (b <? 0x80)%N eqn:E.
    + rewrite str_app_assoc, unquote_ascii by (done || by apply N.ltb_lt). f_equal. by apply IH.
    + destruct (rune_len (b :: l)) as [n|] eqn:Er; rewrite !str_app_assoc.
      * rewrite unquote_high by (done || by apply N.ltb_ge). f_equal. apply IH; [done|].
        by eapply rune_len_high.
      * rewrite unquote_hex by done. f_equal. by apply IH.
  - cbn in Hskip. apply Forall_cons in Hskip as [Hz Hskip].
    rewrite str_app_assoc, unquote_high by done. f_equal. by apply IH.
Qed.

Lemma bytes_bounded s : Forall (fun b => (b < 256)%N) (Sha256.bytes s).
Proof.
  apply Forall_forall. intros b Hb. unfold Sha256.bytes in Hb.
  apply list_elem_of_fmap in Hb as (c & -> & _). apply N_ascii_bounded.
Qed.

Lemma bytes_inj s s' : Sha256.bytes s = Sha256.bytes s' -> s = s'.
Proof.
  revert s'. induction s as [|c s IH]; intros [|c' s']; try done.
  unfold Sha256.bytes. cbn. intros [= Hc Hs]. f_equal; [|by apply IH].
  by rewrite <- (ascii_N_embedding c), <- (ascii_N_embedding c'), Hc.
Qed.

Lemma Quote_inj s s' r r' : strconv_Quote s +:+ r = strconv_Quote s' +:+ r' -> s = s'.
Proof.
  unfold strconv_Quote. rewrite !str_app_assoc. intros Hq%str_app_inv_l%(f_equal unquote).
  rewrite !unquote_escape in Hq by (apply bytes_bounded || constructor). by apply bytes_inj.
Qed.

(** ** Splitting what was joined, reading what was printed *)

Definition nl : string := String newline "".

Lemma list_ascii_app a b : String.list_ascii_of_string (a +:+ b) = String.list_ascii_of_string a ++ String.list_ascii_of_string b.
Proof. induction a as [|c a IH]; [done|]. rewrite str_app_cons. cbn. by rewrite IH. Qed.

Lemma string_of_list_app a b : String.string_of_list_ascii (a ++ b) = String.string_of_list_ascii a +:+ String.string_of_list_ascii b.
Proof. induction a as [|c a IH]; [done|]. cbn. by rewrite IH. Qed.

(** A text without a character. *)
Definition lacks (c : ascii) (s : string) : bool := forallb (fun d => negb (bool_decide (d = c))) (String.list_ascii_of_string s).

Lemma lacks_cons c d s : lacks c (String d s) = negb (bool_decide (d = c)) && lacks c s.
Proof. done. Qed.

Lemma lacks_app c a b : lacks c (a +:+ b) = lacks c a && lacks c b.
Proof. induction a as [|d a IH]; [done|]. by rewrite str_app_cons, !lacks_cons, IH, andb_assoc. Qed.

Lemma ContainsAny_lacks c cs s :
  strings_Contains cs (String c "") = true -> strings_ContainsAny s cs = false -> lacks c s = true.
Proof.
  intros Hc. induction s as [|d s IH]; [done|]. cbn [strings_ContainsAny]. rewrite orb_false_iff. intros [Hd Hs].
  rewrite lacks_cons, IH by done. rewrite andb_true_r. apply negb_true_iff, bool_decide_eq_false. intros ->. congruence.
Qed.

Lemma printable_lacks c s : (N_of_ascii c < 32)%N -> printable s = true -> lacks c s = true.
Proof.
  intros Hc. induction s as [|d s IH]; [done|]. rewrite printable_cons, lacks_cons, !andb_true_iff, N.leb_le. intros [Hd Hs].
  split; [|auto]. apply negb_true_iff, bool_decide_eq_false. intros ->. lia.
Qed.

Lemma bytes_lacks (p : N -> bool) c s : p (N_of_ascii c) = false -> forallb p (Sha256.bytes s) = true -> lacks c s = true.
Proof.
  intros Hc. induction s as [|d s IH]; [done|].
  change (p (N_of_ascii d) && forallb p (Sha256.bytes s) = true -> lacks c (String d s) = true).
  rewrite lacks_cons, !andb_true_iff. intros [Hd Hs]. split; [|auto].
  apply negb_true_iff, bool_decide_eq_false. intros ->. congruence.
Qed.

Lemma lacks_Join c l sep : lacks c sep = true -> Forall (fun s => lacks c s = true) l -> lacks c (strings_Join l sep) = true.
Proof.
  intros Hsep. induction 1 as [|s l Hs Hl IH]; [done|]. unfold strings_Join in *. cbn [String.concat].
  destruct l as [|s' l]; [done|]. by rewrite !lacks_app, Hs, Hsep, IH.
Qed.

Lemma split_go_lacks c a cur rest :
  lacks c a = true -> split_go c cur (a +:+ String c rest) = (cur +:+ a) :: split_go c "" rest.
Proof.
  revert cur; induction a as [|d a IH]; intros cur.
  - intros _. change ("" +:+ ?x) with x. cbn [split_go]. by rewrite decide_True, str_app_nil_r.
  - rewrite lacks_cons, andb_true_iff, negb_true_iff, bool_decide_eq_false. intros [Hd Ha].
    rewrite str_app_cons. cbn [split_go]. rewrite decide_False by done. by rewrite IH, str_app_assoc.
Qed.

Lemma Split_lines lines :
  lines <> [] -> Forall (fun line => lacks newline line = true) lines ->
  strings_Split (strings_Join lines nl +:+ nl) newline = lines ++ [""].
Proof.
  unfold strings_Split. intros Hne Hall. unfold nl.
  induction Hall as [|line lines Hl Hall IH]; [done|]. unfold strings_Join in *. cbn [String.concat].
  destruct lines as [|line' lines].
  - by rewrite split_go_lacks.
  - rewrite !str_app_assoc. change (String newline "" +:+ ?r) with (String newline r). rewrite split_go_lacks by done.
    cbn [app]. by rewrite IH.
Qed.

Lemma Cut_lacks c a b : lacks c a = true -> strings_Cut (a +:+ String c b) c = Some (a, b).
Proof.
  induction a as [|d a IH].
  - intros _. change ("" +:+ ?x) with x. cbn. by rewrite bool_decide_true.
  - rewrite lacks_cons, andb_true_iff, negb_true_iff, bool_decide_eq_false. intros [Hd Ha].
    rewrite str_app_cons. cbn [strings_Cut]. by rewrite bool_decide_false, IH.
Qed.

(** A text that does not start with white space is not blank. *)
Lemma TrimSpace_nonempty c s : (33 <= N_of_ascii c < 128)%N -> strings_TrimSpace (String c s) <> "".
Proof.
  intros Hc. unfold strings_TrimSpace. change (Sha256.bytes (String c s)) with (N_of_ascii c :: Sha256.bytes s).
  assert (Hs : forall l, space_len (N_of_ascii c :: l) = 0).
  { intros l. cbn [space_len]. unfold in_range. destruct (N.leb_spec (N_of_ascii c) 13); [lia|].
    rewrite andb_false_r. destruct (N.eqb_spec (N_of_ascii c) 32); [lia|]. cbn [orb].
    destruct l as [|b1 l]; [done|]. destruct (N.eqb_spec (N_of_ascii c) 194); [lia|]. cbn [andb].
    destruct l as [|b2 l]; [done|]. destruct (N.eqb_spec (N_of_ascii c) 225); [lia|].
    destruct (N.eqb_spec (N_of_ascii c) 226); [lia|]. destruct (N.eqb_spec (N_of_ascii c) 227); [lia|]. done. }
  assert (Hl : forall fuel l, trim_left_space fuel (N_of_ascii c :: l) = N_of_ascii c :: l) by (intros [|fuel] l; cbn [trim_left_space]; by rewrite ?Hs).
  rewrite Hl. generalize (length (N_of_ascii c :: Sha256.bytes s)) as fuel. intros fuel.
  assert (Hr : forall fuel r, exists r', trim_right_space fuel (r ++ [N_of_ascii c]) = r' ++ [N_of_ascii c]).
  { clear fuel. intros fuel. induction fuel as [|fuel IH]; intros r; [by exists r|]. cbn [trim_right_space].
    destruct (space_len_rev (r ++ [N_of_ascii c])) as [|n] eqn:En; [by exists r|].
    destruct (decide (S n <= length r)) as [Hn|Hn].
    - rewrite drop_app_le by done. apply IH.
    - exfalso. revert En. unfold space_len_rev.
      assert (Ht : forall m, length r < m -> exists l, reverse (take m (r ++ [N_of_ascii c])) = N_of_ascii c :: l).
      { intros m Hm. rewrite take_ge by (rewrite length_app; cbn; lia). rewrite reverse_app. by eexists. }
      repeat case_bool_decide; intros [= <-]; match goal with H : space_len (reverse (take ?m _)) = _ |- _ =>
        destruct (Ht m) as [l El]; [lia|]; by rewrite El, Hs in H end. }
  rewrite reverse_cons. destruct (Hr fuel (reverse (Sha256.bytes s))) as [r' ->]. rewrite reverse_app. done.
Qed.

(** Decimal digits are read back. *)
Definition digit_text (s : string) : Prop := Forall (fun c => in_range 48 57 (N_of_ascii c) = true) (String.list_ascii_of_string s).
Fixpoint pow10 (s : string) : Z := match s with EmptyString => 1 | String _ s => 10 * pow10 s end.

Lemma digits_value_app acc l l' : digits_value acc (l ++ l') = (z ← digits_value acc l; digits_value z l').
Proof. revert acc. induction l as [|b l IH]; intros acc; [done|]. cbn. destruct (in_range 48 57 b); [apply IH|done]. Qed.

Lemma pow10_app a b : pow10 (a +:+ b) = (pow10 a * pow10 b)%Z.
Proof.
  induction a as [|c a IH]; [by change ("" +:+ ?x) with x; cbn [pow10]; lia|]. rewrite str_app_cons. cbn [pow10]. rewrite IH. lia.
Qed.

Lemma bytes_app a b : Sha256.bytes (a +:+ b) = Sha256.bytes a ++ Sha256.bytes b.
Proof. unfold Sha256.bytes. by rewrite list_ascii_app, fmap_app. Qed.

Lemma pretty_char_digit m : (m < 10)%N -> N_of_ascii (pretty_N_char m) = (48 + m)%N.
Proof.
  intros Hm. assert (Hin : m ∈ N.of_nat <$> seq 0 10).
  { apply list_elem_of_fmap. exists (N.to_nat m). rewrite elem_of_seq. lia. }
  repeat (apply elem_of_cons in Hin as [->|Hin]; [done|]). by apply elem_of_nil in Hin.
Qed.

Lemma pretty_N_go_digits (x : N) s :
  exists d, pretty_N_go x s = d +:+ s /\ digit_text d /\ (0 < x -> d <> "")%N
    /\ forall acc, digits_value acc (Sha256.bytes d) = Some (acc * pow10 d + Z.of_N x)%Z.
Proof.
  revert s. induction (N.lt_wf_0 x) as [x _ IH]; intros s.
  destruct (decide (x = 0%N)) as [->|Hx].
  { exists "". rewrite pretty_N_go_0. split_and!; [done|constructor|lia|]. intros acc. cbn. f_equal. lia. }
  rewrite pretty_N_go_step by lia.
  destruct (IH (x / 10)%N) with (s := String (pretty_N_char (x `mod` 10)) s) as (d & -> & Hd & _ & Hv); [apply N.div_lt; lia|].
  assert (Hm : (x mod 10 < 10)%N) by (apply N.mod_lt; lia). assert (Hc := pretty_char_digit _ Hm).
  assert (Hr : in_range 48 57 (48 + x mod 10)%N = true).
  { unfold in_range. rewrite andb_true_iff, !N.leb_le. revert Hm. generalize (x mod 10)%N. lia. }
  exists (d +:+ String (pretty_N_char (x mod 10)) ""). split_and!.
  - by rewrite str_app_assoc.
  - unfold digit_text. rewrite list_ascii_app. apply Forall_app. split; [done|]. repeat constructor. cbn. by rewrite Hc.
  - intros _. by destruct d.
  - intros acc. rewrite bytes_app, digits_value_app, Hv.
    change (Sha256.bytes (String (pretty_N_char (x mod 10)) "")) with [N_of_ascii (pretty_N_char (x mod 10))].
    rewrite Hc. cbn [mbind option_bind digits_value]. rewrite Hr. f_equal. rewrite pow10_app. cbn [pow10].
    rewrite (N.add_comm 48), N.add_sub. assert (Hx' := N.div_mod x 10 ltac:(done)). revert Hx'.
    generalize (x / 10)%N, (x mod 10)%N. intros q m ->. lia.
Qed.

Lemma pretty_digits (n : nat) :
  exists d c s, pretty n = d /\ d = String c s /\ digit_text d /\ digits_value 0 (Sha256.bytes d) = Some (Z.of_nat n).
Proof.
  change (pretty n) with (pretty (N.of_nat n)). unfold pretty, pretty_N. case_decide as Hn.
  { assert (n = 0) as -> by lia. exists "0", "0"%char, "". repeat split; by repeat constructor. }
  destruct (pretty_N_go_digits (N.of_nat n) "") as (d & -> & Hd & Hne & Hv). rewrite str_app_nil_r.
  specialize (Hv 0%Z). destruct d as [|c d]; [by destruct Hne; [lia|]|]. eexists _, c, d. split_and!; [done..|].
  rewrite Hv. f_equal. lia.
Qed.

Lemma Atoi_pretty (n : nat) : (Z.of_nat n <= int_max)%Z -> strconv_Atoi (pretty n) = Some (Z.of_nat n).
Proof.
  intros Hn. destruct (pretty_digits n) as (d & c & s & -> & -> & Hd & Hv). unfold strconv_Atoi.
  change (Sha256.bytes (String c s)) with (N_of_ascii c :: Sha256.bytes s) in *.
  apply Forall_cons in Hd as [Hc _]. unfold in_range in Hc. rewrite andb_true_iff, !N.leb_le in Hc.
  set (z := Z.of_nat n) in *. assert (Hz : (int_min <= z <= int_max)%Z) by (unfold int_min, z in *; lia).
  assert (Hin : N_of_ascii c ∈ [48; 49; 50; 51; 52; 53; 54; 55; 56; 57]%N) by (rewrite !elem_of_cons; lia).
  clearbody z. clear Hc. revert Hv.
  repeat (apply elem_of_cons in Hin as [->|Hin]; [intros Hv; cbv beta iota; rewrite Hv; cbn [mbind option_bind]; by rewrite bool_decide_true|]).
  by apply elem_of_nil in Hin.
Qed.
