(* ===== verification/IR.v ===== *)
(** * Intermediate representation: the shared records of [internal/core/ir]

    Source positions, lifecycle, host facts, state moves and dependencies as
    [types.go] declares them, and the target-platform check of [platform.go].
    The specification of a host is in [HostIR.v]. *)
From S2P Require Import Prelude.

Record SourceRef := { src_File : string; src_Line : Z; src_Path : string }.
Definition no_source : SourceRef := {| src_File := ""; src_Line := 0; src_Path := "" |}.

Record LifecycleSpec := { PreventDestroy : bool; lc_Source : SourceRef }.

Record SystemFacts := {
  Hostname : string;
  Distribution : string;
  Version : string;
  Architecture : string;
  Codename : string;
  DetectedAt : string;
}.
Definition no_facts : SystemFacts :=
  {| Hostname := ""; Distribution := ""; Version := ""; Architecture := ""; Codename := "";
     DetectedAt := "" |}.

Record HostFacts := { System : SystemFacts }.

Record MovedSpec := {
  mv_From : string;
  mv_To : string;
  mv_Source : SourceRef;
  mv_FromSource : SourceRef;
  mv_ToSource : SourceRef;
}.

Record ResourceDependencySpec := {
  dep_From : string;
  dep_DependsOn : string;
  dep_ArtifactPath : string;
  dep_Source : SourceRef;
}.

#[export] Instance SourceRef_eq_dec : EqDecision SourceRef.
Proof. solve_decision. Defined.
#[export] Instance LifecycleSpec_eq_dec : EqDecision LifecycleSpec.
Proof. solve_decision. Defined.
#[export] Instance SystemFacts_eq_dec : EqDecision SystemFacts.
Proof. solve_decision. Defined.
#[export] Instance HostFacts_eq_dec : EqDecision HostFacts.
Proof. solve_decision. Defined.
#[export] Instance MovedSpec_eq_dec : EqDecision MovedSpec.
Proof. solve_decision. Defined.
#[export] Instance ResourceDependencySpec_eq_dec : EqDecision ResourceDependencySpec.
Proof. solve_decision. Defined.

(** ** Target platforms *)

Inductive platform_error :=
| UnsupportedTarget (distribution version architecture codename : string)
| CodenameMismatch (distribution version codename want : string).

Definition unsupportedTargetError (distribution version architecture codename : string)
  : result platform_error unit :=
  Err (UnsupportedTarget distribution version architecture codename).

Definition check_codename (distribution version codename want : string)
  : result platform_error unit :=
  guard_or (bool_decide (codename = want)) (CodenameMismatch distribution version codename want).

Definition ValidateTargetPlatform (distribution version architecture codename : string)
  : result platform_error unit :=
  let unsupported := unsupportedTargetError distribution version architecture codename in
  if decide (distribution = "debian") then
    let check want :=
      if decide (architecture = "amd64" \/ architecture = "arm64")
      then check_codename distribution version codename want
      else unsupported in
    if decide (version = "12") then check "bookworm"
    else if decide (version = "13") then check "trixie"
    else unsupported
  else if decide (distribution = "ubuntu") then
    let check want :=
      if decide (architecture = "amd64")
      then check_codename distribution version codename want
      else unsupported in
    if decide (version = "24.04") then check "noble"
    else if decide (version = "26.04") then check "resolute"
    else unsupported
  else unsupported.

(** The advertised targets: Debian 12/13 on amd64/arm64 or Ubuntu 24.04/26.04
    on amd64, each with its codename. *)
Definition supported_targets : list (string * string * string * string) :=
  [ ("debian", "12", "amd64", "bookworm"); ("debian", "12", "arm64", "bookworm");
    ("debian", "13", "amd64", "trixie"); ("debian", "13", "arm64", "trixie");
    ("ubuntu", "24.04", "amd64", "noble"); ("ubuntu", "26.04", "amd64", "resolute") ].

Lemma check_codename_Ok d v c want u :
  check_codename d v c want = Ok u <-> c = want.
Proof. unfold check_codename. rewrite guard_or_Ok. apply bool_decide_eq_true. Qed.

Lemma ValidateTargetPlatform_supported d v a c :
  ValidateTargetPlatform d v a c = Ok tt <-> (d, v, a, c) ∈ supported_targets.
Proof.
  split.
  - unfold ValidateTargetPlatform, unsupportedTargetError, supported_targets.
    cbv zeta. repeat case_decide; try done; rewrite check_codename_Ok; intros; subst;
      repeat match goal with H : _ \/ _ |- _ => destruct H end; subst; set_solver.
  - intros H. repeat (apply elem_of_cons in H as [H|H]; [by simplify_eq|]).
    by apply elem_of_nil in H.
Qed.
