(* ===== verification/HostIR.v ===== *)
(** * The specification of a host: [internal/core/ir/types.go]

    [HostSpec] and the records below it, field for field.  A Go pointer is an
    option; a slice is a list, or a [slice] where the code tells the nil slice
    from an empty one. *)
From S2P Require Import Prelude Sha256 GoValue IR.

(** A Go slice: [None] is nil. *)
Abbreviation slice A := (option (list A)).
Definition elems {A} (s : slice A) : list A := default [] s.

(** [append([]string(nil), s...)], stored under [any]. *)
Definition copied_strings (l : list string) : goval :=
  match l with [] => GNilStrs | _ => GStrs l end.

(** [s] stored under [any]. *)
Definition slice_value (s : slice string) : goval := from_option GStrs GNilStrs s.

Abbreviation NetworkdSection := (gmap string (list string)).

Record SSHSpec := {
  ssh_Host : string;
  ssh_Port : Z;
  ssh_User : string;
  ssh_IdentityFile : string;
  ssh_Source : SourceRef;
}.

Record StateSpec := {
  sts_Path : string;
  sts_LockPath : string;
  sts_Source : SourceRef;
}.

Record StagingSpec := {
  stg_Root : string;
  stg_Source : SourceRef;
}.

Record PlatformSpec := {
  pf_Distribution : string;
  pf_Version : string;
  pf_Architecture : string;
  pf_Codename : string;
  pf_Source : SourceRef;
}.

Record SystemSpec := {
  sys_Hostname : string;
  sys_HostnameSet : bool;
  sys_Timezone : string;
  sys_TimezoneSet : bool;
  sys_Locale : string;
  sys_LocaleSet : bool;
  sys_Source : SourceRef;
}.

Record KernelModuleSpec := {
  km_Name : string;
  km_Persist : bool;
  km_Ensure : string;
  km_Source : SourceRef;
}.

Record SysctlSpec := {
  sc_Key : string;
  sc_Value : string;
  sc_Persist : bool;
  sc_ApplyRuntime : bool;
  sc_Source : SourceRef;
}.

Record KernelSpec := {
  ker_Modules : list KernelModuleSpec;
  ker_Sysctl : gmap string SysctlSpec;
  ker_Source : SourceRef;
}.

Record PackageItem := {
  pk_Name : string;
  pk_Repositories : list string;
  pk_ConffilePolicy : string;
  pk_ConffilePolicySet : bool;
  pk_Lifecycle : option LifecycleSpec;
  pk_Source : SourceRef;
}.

Record PackageSpec := {
  pks_Install : list PackageItem;
  pks_Source : SourceRef;
}.

Record APTSigningKeySpec := {
  ak_URL : string;
  ak_Content : string;
  ak_SHA256 : string;
  ak_Path : string;
  ak_Sensitive : bool;
  ak_Source : SourceRef;
}.

Record APTRepositorySpec := {
  ar_Name : string;
  ar_URIs : list string;
  ar_Suites : list string;
  ar_Components : list string;
  ar_Architectures : list string;
  ar_SigningKey : option APTSigningKeySpec;
  ar_Ensure : string;
  ar_Lifecycle : option LifecycleSpec;
  ar_Source : SourceRef;
}.

Record APTSourceFileSpec := {
  as_Label : string;
  as_Path : string;
  as_Content : string;
  as_SourcePath : string;
  as_Owner : string;
  as_Group : string;
  as_Mode : string;
  as_Ensure : string;
  as_OnDestroy : string;
  as_Sensitive : bool;
  as_Lifecycle : option LifecycleSpec;
  as_Summary : ContentSummary;
  as_Source : SourceRef;
}.

Record APTSpec := {
  apt_Repositories : gmap string APTRepositorySpec;
  apt_SourceFiles : gmap string APTSourceFileSpec;
  apt_Source : SourceRef;
}.

Record ScriptReferenceSpec := {
  srf_Scope : string;
  srf_Name : string;
  srf_DeclarationID : string;
  srf_Source : SourceRef;
}.

Record ManagedFile := {
  mf_Path : string;
  mf_Content : string;
  mf_ContentVersion : string;
  mf_ContentWriteOnly : bool;
  mf_SourcePath : string;
  mf_Owner : string;
  mf_Group : string;
  mf_Mode : string;
  mf_Sensitive : bool;
  mf_Ensure : string;
  mf_OnChange : option ScriptReferenceSpec;
  mf_Lifecycle : option LifecycleSpec;
  mf_Summary : ContentSummary;
  mf_Source : SourceRef;
}.

Record FileSpec := {
  fls_Files : gmap string ManagedFile;
  fls_Source : SourceRef;
}.

Record SecretFile := {
  sf_Path : string;
  sf_SourcePath : string;
  sf_Owner : string;
  sf_Group : string;
  sf_Mode : string;
  sf_Ensure : string;
  sf_Lifecycle : option LifecycleSpec;
  sf_Summary : ContentSummary;
  sf_Source : SourceRef;
}.

Record SecretSpec := {
  secs_Files : gmap string SecretFile;
  secs_Source : SourceRef;
}.

Record ManagedDirectory := {
  md_Path : string;
  md_Owner : string;
  md_Group : string;
  md_Mode : string;
  md_Ensure : string;
  md_Lifecycle : option LifecycleSpec;
  md_Source : SourceRef;
}.

Record DirectorySpec := {
  dirs_Directories : gmap string ManagedDirectory;
  dirs_Source : SourceRef;
}.

Record ManagedGroup := {
  mg_Name : string;
  mg_GID : string;
  mg_System : bool;
  mg_Ensure : string;
  mg_Lifecycle : option LifecycleSpec;
  mg_Source : SourceRef;
}.

Record GroupSpec := {
  grs_Groups : gmap string ManagedGroup;
  grs_Source : SourceRef;
}.

Record ManagedUser := {
  mu_Name : string;
  mu_UID : string;
  mu_PrimaryGroup : string;
  mu_Groups : slice string;
  mu_System : bool;
  mu_Home : string;
  mu_Shell : string;
  mu_SSHAuthorizedKeys : slice string;
  mu_Ensure : string;
  mu_Lifecycle : option LifecycleSpec;
  mu_Source : SourceRef;
}.

Record UserSpec := {
  uss_Users : gmap string ManagedUser;
  uss_Source : SourceRef;
}.

Record SystemdUnit := {
  su_Name : string;
  su_Path : string;
  su_Content : string;
  su_SourcePath : string;
  su_Owner : string;
  su_Group : string;
  su_Mode : string;
  su_Sensitive : bool;
  su_Ensure : string;
  su_ChangeAction : string;
  su_ChangeActionSource : SourceRef;
  su_Lifecycle : option LifecycleSpec;
  su_Summary : ContentSummary;
  su_Source : SourceRef;
}.

Record NetworkdNamedSection := {
  ns_Identity : string;
  ns_Name : string;
  ns_Settings : NetworkdSection;
  ns_Source : SourceRef;
}.

Record NetworkdActivationSpec := {
  na_Reconfigure : list string;
  na_PostReload : option ScriptReferenceSpec;
  na_Source : SourceRef;
}.

Record NetworkdNetDev := {
  nd_Label : string;
  nd_Name : string;
  nd_Path : string;
  nd_NetDev : NetworkdSection;
  nd_WireGuard : NetworkdSection;
  nd_WireGuardPeers : gmap string NetworkdSection;
  nd_Sections : list NetworkdNamedSection;
  nd_ContentMode : string;
  nd_SourcePath : string;
  nd_Owner : string;
  nd_Group : string;
  nd_Mode : string;
  nd_Sensitive : bool;
  nd_Ensure : string;
  nd_Activation : option NetworkdActivationSpec;
  nd_Lifecycle : option LifecycleSpec;
  nd_Summary : ContentSummary;
  nd_Content : string;
  nd_Source : SourceRef;
}.

Record NetworkdNetwork := {
  nn_Label : string;
  nn_Path : string;
  nn_Match : NetworkdSection;
  nn_Network : NetworkdSection;
  nn_Sections : list NetworkdNamedSection;
  nn_ContentMode : string;
  nn_SourcePath : string;
  nn_Owner : string;
  nn_Group : string;
  nn_Mode : string;
  nn_Sensitive : bool;
  nn_Ensure : string;
  nn_Activation : option NetworkdActivationSpec;
  nn_Lifecycle : option LifecycleSpec;
  nn_Summary : ContentSummary;
  nn_Content : string;
  nn_Source : SourceRef;
}.

Record NetworkdSpec := {
  nw_Enable : option bool;
  nw_NetDevs : gmap string NetworkdNetDev;
  nw_Networks : gmap string NetworkdNetwork;
  nw_Source : SourceRef;
}.

Record SystemdTimer := {
  tm_Name : string;
  tm_Unit : SystemdUnit;
  tm_Timer : NetworkdSection;
  tm_Install : NetworkdSection;
  tm_Enable : option bool;
  tm_State : string;
  tm_Source : SourceRef;
}.

Record SystemdResolvedSpec := {
  rs_Unit : SystemdUnit;
  rs_Resolve : NetworkdSection;
  rs_Enable : option bool;
  rs_State : string;
  rs_Source : SourceRef;
}.

Record SystemdJournaldSpec := {
  jd_Unit : SystemdUnit;
  jd_Journal : NetworkdSection;
  jd_State : string;
  jd_Source : SourceRef;
}.

Record SystemdSpec := {
  sd_Units : gmap string SystemdUnit;
  sd_Networkd : option NetworkdSpec;
  sd_Timers : gmap string SystemdTimer;
  sd_Resolved : option SystemdResolvedSpec;
  sd_Journald : option SystemdJournaldSpec;
  sd_Source : SourceRef;
}.

Record ManagedService := {
  ms_Name : string;
  ms_Unit : string;
  ms_Package : string;
  ms_Enabled : option bool;
  ms_State : string;
  ms_Lifecycle : option LifecycleSpec;
  ms_Source : SourceRef;
}.

Record ServiceSpec := {
  svs_Services : gmap string ManagedService;
  svs_Source : SourceRef;
}.

Record NftablesFileSpec := {
  nf_Label : string;
  nf_Path : string;
  nf_Content : string;
  nf_SourcePath : string;
  nf_Owner : string;
  nf_Group : string;
  nf_Mode : string;
  nf_Sensitive : bool;
  nf_Validate : bool;
  nf_Activate : bool;
  nf_Ensure : string;
  nf_Lifecycle : option LifecycleSpec;
  nf_Summary : ContentSummary;
  nf_Source : SourceRef;
}.

Record NftablesSpec := {
  nft_Enable : option bool;
  nft_Main : option NftablesFileSpec;
  nft_Files : gmap string NftablesFileSpec;
  nft_Source : SourceRef;
}.

Record DockerPackageSpec := {
  dp_Source : string;
  dp_Channel : string;
  dp_Version : option string;
  dp_RepositoryURL : string;
  dp_GPGURL : string;
  dp_GPGSHA256 : string;
  dp_RemoveConflicts : string;
  dp_SourceRef : SourceRef;
  dp_RepositoryURLSet : bool;
  dp_GPGURLSet : bool;
}.

Record DockerServiceSpec := {
  ds_Enable : bool;
  ds_State : string;
  ds_Name : string;
  ds_SourceRef : SourceRef;
}.

Record DockerDaemonSpec := {
  dd_Settings : gmap string goval;
  dd_Source : SourceRef;
  dd_Summary : ContentSummary;
}.

Record DockerComposeFileSpec := {
  df_Label : string;
  df_Path : string;
  df_Content : string;
  df_SourcePath : string;
  df_Owner : string;
  df_Group : string;
  df_Mode : string;
  df_Sensitive : bool;
  df_Summary : ContentSummary;
  df_Source : SourceRef;
}.

Record DockerComposeServiceSpec := {
  dcs_Enable : bool;
  dcs_Name : string;
}.

Record DockerComposeSpec := {
  dc_Name : string;
  dc_Enable : bool;
  dc_State : string;
  dc_Directory : string;
  dc_Project : string;
  dc_File : option DockerComposeFileSpec;
  dc_EnvFiles : gmap string DockerComposeFileSpec;
  dc_Pull : string;
  dc_Recreate : string;
  dc_RemoveOrphans : bool;
  dc_Service : DockerComposeServiceSpec;
  dc_After : list string;
  dc_WantedBy : list string;
  dc_Source : SourceRef;
}.

Record DockerSpec := {
  dk_Enable : bool;
  dk_Package : DockerPackageSpec;
  dk_Service : DockerServiceSpec;
  dk_Daemon : option DockerDaemonSpec;
  dk_Users : list string;
  dk_Composes : gmap string DockerComposeSpec;
  dk_Source : SourceRef;
}.

Record ComponentScriptSpec := {
  cs_Name : string;
  cs_DeclarationID : string;
  cs_Mode : string;
  cs_Body : string;
  cs_Interpreter : slice string;
  cs_Outputs : list string;
  cs_Run : string;
  cs_Content : string;
  cs_Commands : slice (list string);
  cs_Sensitive : bool;
  cs_Source : SourceRef;
}.

Record ComponentArtifactSourceSpec := {
  asrc_Architecture : string;
  asrc_URL : string;
  asrc_SHA256 : string;
  asrc_URLSensitive : bool;
  asrc_SHA256Sensitive : bool;
  asrc_Source : SourceRef;
}.

Record ComponentArtifactExtractSpec := {
  ext_Format : string;
  ext_StripComponents : Z;
  ext_Include : string;
  ext_Source : SourceRef;
}.

Record ComponentArtifactBuildSpec := {
  bld_Commands : list (list string);
  bld_Packages : list string;
  bld_WorkingDir : string;
  bld_Output : string;
  bld_SourceName : string;
  bld_Source : SourceRef;
}.

Record ComponentArtifactInstallSpec := {
  ins_Path : string;
  ins_Owner : string;
  ins_Group : string;
  ins_Mode : string;
  ins_Source : SourceRef;
}.

Record ComponentInstanceSpec := {
  ci_Name : string;
  ci_Template : string;
  ci_InputValues : gmap string goval;
  ci_StagingRoot : string;
  ci_ArtifactType : string;
  ci_Version : string;
  ci_Scripts : gmap string ComponentScriptSpec;
  ci_SelectedSource : option ComponentArtifactSourceSpec;
  ci_Extract : option ComponentArtifactExtractSpec;
  ci_Build : option ComponentArtifactBuildSpec;
  ci_Install : option ComponentArtifactInstallSpec;
  ci_APT : APTSpec;
  ci_Packages : PackageSpec;
  ci_Files : FileSpec;
  ci_Secrets : SecretSpec;
  ci_Directories : DirectorySpec;
  ci_Groups : GroupSpec;
  ci_Users : UserSpec;
  ci_Systemd : SystemdSpec;
  ci_Services : ServiceSpec;
  ci_Source : SourceRef;
  ci_ExplicitDependencies : list ResourceDependencySpec;
}.

Record HostSpec := {
  h_Name : string;
  h_Source : SourceRef;
  h_Facts : HostFacts;
  h_SSH : SSHSpec;
  h_State : StateSpec;
  h_Staging : option StagingSpec;
  h_Moves : list MovedSpec;
  h_Platform : option PlatformSpec;
  h_System : SystemSpec;
  h_Kernel : KernelSpec;
  h_Packages : PackageSpec;
  h_APT : APTSpec;
  h_Files : FileSpec;
  h_Secrets : SecretSpec;
  h_Directories : DirectorySpec;
  h_Groups : GroupSpec;
  h_Users : UserSpec;
  h_Systemd : SystemdSpec;
  h_Services : ServiceSpec;
  h_Nftables : NftablesSpec;
  h_Docker : option DockerSpec;
  h_Scripts : gmap string ComponentScriptSpec;
  h_Components : list ComponentInstanceSpec;
  h_ExplicitDependencies : list ResourceDependencySpec;
}.

Record Program := { p_Hosts : list HostSpec }.

(** ** Accessors *)

Definition PlatformArchitecture (h : HostSpec) : string := from_option pf_Architecture "" (h_Platform h).
Definition PlatformDistribution (h : HostSpec) : string := from_option pf_Distribution "" (h_Platform h).
Definition PlatformVersion (h : HostSpec) : string := from_option pf_Version "" (h_Platform h).
Definition PlatformCodename (h : HostSpec) : string := from_option pf_Codename "" (h_Platform h).

(** ** Zero values *)

Definition zero_SSHSpec : SSHSpec :=
  {| ssh_Host := ""; ssh_Port := 0; ssh_User := ""; ssh_IdentityFile := "";
     ssh_Source := no_source |}.
Definition zero_StateSpec : StateSpec :=
  {| sts_Path := ""; sts_LockPath := ""; sts_Source := no_source |}.
Definition zero_SystemSpec : SystemSpec :=
  {| sys_Hostname := ""; sys_HostnameSet := false; sys_Timezone := ""; sys_TimezoneSet := false;
     sys_Locale := ""; sys_LocaleSet := false; sys_Source := no_source |}.
Definition zero_KernelSpec : KernelSpec :=
  {| ker_Modules := []; ker_Sysctl := ∅; ker_Source := no_source |}.
Definition zero_PackageSpec : PackageSpec :=
  {| pks_Install := []; pks_Source := no_source |}.
Definition zero_APTSpec : APTSpec :=
  {| apt_Repositories := ∅; apt_SourceFiles := ∅; apt_Source := no_source |}.
Definition zero_FileSpec : FileSpec :=
  {| fls_Files := ∅; fls_Source := no_source |}.
Definition zero_SecretSpec : SecretSpec :=
  {| secs_Files := ∅; secs_Source := no_source |}.
Definition zero_DirectorySpec : DirectorySpec :=
  {| dirs_Directories := ∅; dirs_Source := no_source |}.
Definition zero_GroupSpec : GroupSpec :=
  {| grs_Groups := ∅; grs_Source := no_source |}.
Definition zero_UserSpec : UserSpec :=
  {| uss_Users := ∅; uss_Source := no_source |}.
Definition zero_SystemdSpec : SystemdSpec :=
  {| sd_Units := ∅; sd_Networkd := None; sd_Timers := ∅; sd_Resolved := None;
     sd_Journald := None; sd_Source := no_source |}.
Definition zero_ServiceSpec : ServiceSpec :=
  {| svs_Services := ∅; svs_Source := no_source |}.
Definition zero_NftablesSpec : NftablesSpec :=
  {| nft_Enable := None; nft_Main := None; nft_Files := ∅; nft_Source := no_source |}.
Definition bare_component (name : string) : ComponentInstanceSpec :=
  {| ci_Name := name; ci_Template := ""; ci_InputValues := ∅; ci_StagingRoot := "";
     ci_ArtifactType := ""; ci_Version := ""; ci_Scripts := ∅; ci_SelectedSource := None;
     ci_Extract := None; ci_Build := None; ci_Install := None; ci_APT := zero_APTSpec;
     ci_Packages := zero_PackageSpec; ci_Files := zero_FileSpec; ci_Secrets := zero_SecretSpec;
     ci_Directories := zero_DirectorySpec; ci_Groups := zero_GroupSpec;
     ci_Users := zero_UserSpec; ci_Systemd := zero_SystemdSpec; ci_Services := zero_ServiceSpec;
     ci_Source := no_source; ci_ExplicitDependencies := [] |}.
(** A host that declares nothing but its name. *)
Definition bare_host (name : string) : HostSpec :=
  {| h_Name := name; h_Source := no_source; h_Facts := {| System := no_facts |};
     h_SSH := zero_SSHSpec; h_State := zero_StateSpec; h_Staging := None; h_Moves := [];
     h_Platform := None; h_System := zero_SystemSpec; h_Kernel := zero_KernelSpec;
     h_Packages := zero_PackageSpec; h_APT := zero_APTSpec; h_Files := zero_FileSpec;
     h_Secrets := zero_SecretSpec; h_Directories := zero_DirectorySpec;
     h_Groups := zero_GroupSpec; h_Users := zero_UserSpec; h_Systemd := zero_SystemdSpec;
     h_Services := zero_ServiceSpec; h_Nftables := zero_NftablesSpec; h_Docker := None;
     h_Scripts := ∅; h_Components := []; h_ExplicitDependencies := [] |}.
