(* ===== verification/State.v ===== *)
(** * Remote state: records, validation, revisions and digests

    Models [internal/core/state/state.go].  A state document is a [State]
    record whose resources are a [gmap] from stable address to [Resource]. *)
From S2P Require Import Prelude Sha256 GoValue IR.

(** The schema version, [const Version]. *)
Definition StateVersion : Z := 2.

Record Resource := {
  r_Host : string;
  r_Kind : string;
  r_ProviderType : string;
  r_ProviderAddress : string;
  r_Ownership : string;
  r_Lifecycle : option LifecycleSpec;
  r_Desired : gomap;
  r_DesiredDigest : string;
  r_Observed : gomap;
  r_UpdatedAt : string;
  r_Order : Z;
  r_DependsOn : list string;
}.

Record State := {
  st_Version : Z;
  st_Host : string;
  st_Serial : Z;
  st_UpdatedAt : string;
  st_Facts : option HostFacts;
  st_Resources : gmap string Resource;
}.

Definition set_r_Host (h : string) (r : Resource) : Resource :=
  {| r_Host := h; r_Kind := r_Kind r; r_ProviderType := r_ProviderType r;
     r_ProviderAddress := r_ProviderAddress r; r_Ownership := r_Ownership r;
     r_Lifecycle := r_Lifecycle r; r_Desired := r_Desired r;
     r_DesiredDigest := r_DesiredDigest r; r_Observed := r_Observed r;
     r_UpdatedAt := r_UpdatedAt r; r_Order := r_Order r; r_DependsOn := r_DependsOn r |}.

Definition set_r_DependsOn (d : list string) (r : Resource) : Resource :=
  {| r_Host := r_Host r; r_Kind := r_Kind r; r_ProviderType := r_ProviderType r;
     r_ProviderAddress := r_ProviderAddress r; r_Ownership := r_Ownership r;
     r_Lifecycle := r_Lifecycle r; r_Desired := r_Desired r;
     r_DesiredDigest := r_DesiredDigest r; r_Observed := r_Observed r;
     r_UpdatedAt := r_UpdatedAt r; r_Order := r_Order r; r_DependsOn := d |}.

Definition set_r_maps (desired observed : gomap) (r : Resource) : Resource :=
  {| r_Host := r_Host r; r_Kind := r_Kind r; r_ProviderType := r_ProviderType r;
     r_ProviderAddress := r_ProviderAddress r; r_Ownership := r_Ownership r;
     r_Lifecycle := r_Lifecycle r; r_Desired := desired;
     r_DesiredDigest := r_DesiredDigest r; r_Observed := observed;
     r_UpdatedAt := r_UpdatedAt r; r_Order := r_Order r; r_DependsOn := r_DependsOn r |}.

Definition set_Resources (m : gmap string Resource) (st : State) : State :=
  {| st_Version := st_Version st; st_Host := st_Host st; st_Serial := st_Serial st;
     st_UpdatedAt := st_UpdatedAt st; st_Facts := st_Facts st; st_Resources := m |}.

Definition set_Facts (f : option HostFacts) (st : State) : State :=
  {| st_Version := st_Version st; st_Host := st_Host st; st_Serial := st_Serial st;
     st_UpdatedAt := st_UpdatedAt st; st_Facts := f; st_Resources := st_Resources st |}.

Definition set_revision (serial : Z) (updatedAt : string) (st : State) : State :=
  {| st_Version := st_Version st; st_Host := st_Host st; st_Serial := serial;
     st_UpdatedAt := updatedAt; st_Facts := st_Facts st; st_Resources := st_Resources st |}.

Definition Empty (host : string) : State :=
  {| st_Version := StateVersion; st_Host := host; st_Serial := 0; st_UpdatedAt := "";
     st_Facts := None; st_Resources := ∅ |}.

(** ** Validation *)

Inductive state_error :=
| NoExpectedHost
| NewerVersion (host : string) (version : Z)
| UnsupportedVersion (host : string) (version : Z)
| StateHostEmpty (expected : string)
| StateHostMismatch (got expected : string)
| ResourceHostMismatch (address got expected : string)
| DecodeError (field : string).

(** The loop body over [st.Resources]: an omitted host is filled in. *)
Definition normalize_resource (host : string) (out : gmap string Resource)
    (entry : string * Resource) : result state_error (gmap string Resource) :=
  let '(address, resource) := entry in
  if decide (r_Host resource = "") then Ok (<[address := set_r_Host host resource]> out)
  else if decide (r_Host resource = host) then Ok (<[address := resource]> out)
  else Err (ResourceHostMismatch address (r_Host resource) host).

Definition Normalize (st : State) (host : string) : result state_error State :=
  _ ← guard_or (bool_decide (host <> "")) NoExpectedHost;
  _ ← guard_or (bool_decide (st_Version st <= StateVersion)%Z) (NewerVersion host (st_Version st));
  _ ← guard_or (bool_decide (st_Version st = StateVersion)) (UnsupportedVersion host (st_Version st));
  _ ← guard_or (bool_decide (st_Host st <> "")) (StateHostEmpty host);
  _ ← guard_or (bool_decide (st_Host st = host)) (StateHostMismatch (st_Host st) host);
  resources ← fold_res (normalize_resource host) (map_to_list (st_Resources st)) ∅;
  Ok (set_Resources resources st).

(** What a valid document for [host] looks like. *)
Definition resource_host_ok (host : string) (r : Resource) : Prop :=
  r_Host r = "" \/ r_Host r = host.

Record valid_state (host : string) (st : State) : Prop := {
  valid_host : host <> "";
  valid_version : st_Version st = StateVersion;
  valid_st_host : st_Host st = host;
  valid_resources : map_Forall (fun _ => resource_host_ok host) (st_Resources st);
}.

Definition fill_host (host : string) (r : Resource) : Resource :=
  if decide (r_Host r = "") then set_r_Host host r else r.

Lemma fill_host_Host host r : resource_host_ok host r -> r_Host (fill_host host r) = host.
Proof. unfold fill_host, resource_host_ok. case_decide; naive_solver. Qed.

Lemma fill_host_idemp host r : fill_host host (fill_host host r) = fill_host host r.
Proof.
  unfold fill_host at 2 3. case_decide as Hr; unfold fill_host; case_decide; done.
Qed.

Lemma normalize_loop_ok host (l : list (string * Resource)) out :
  Forall (fun p => resource_host_ok host p.2) l ->
  fold_res (normalize_resource host) l out =
  Ok (fold_left (fun o p => <[p.1 := fill_host host p.2]> o) l out).
Proof.
  revert out; induction l as [|[k r] l IH]; intros out Hl; [done|].
  inversion Hl as [|? ? Hr Hl']; subst. cbn. unfold fill_host, resource_host_ok in *; cbn in *.
  repeat case_decide; [by apply IH..|naive_solver].
Qed.

Lemma normalize_loop_inv host l out out' :
  fold_res (normalize_resource host) l out = Ok out' ->
  Forall (fun p => resource_host_ok host p.2) l.
Proof.
  revert out; induction l as [|[k r] l IH]; intros out; cbn; [constructor|].
  unfold resource_host_ok. repeat case_decide; try done; constructor; cbn; eauto.
Qed.

Lemma map_Forall_entries {V} (P : V -> Prop) (m : gmap string V) :
  map_Forall (fun _ => P) m <-> Forall (fun p => P p.2) (map_to_list m).
Proof.
  rewrite map_Forall_to_list. apply Forall_iff. by intros [].
Qed.

(** [Normalize] accepts exactly the valid documents and only fills in the
    omitted resource hosts. *)
Lemma Normalize_valid st host :
  valid_state host st -> Normalize st host = Ok (set_Resources (fill_host host <$> st_Resources st) st).
Proof.
  intros [Hh Hv Hs Hr]. unfold Normalize. rewrite Hv, Hs.
  rewrite !bool_decide_true by (done || lia). cbn.
  rewrite normalize_loop_ok by (by apply map_Forall_entries).
  cbn. by rewrite (fold_left_insert_entries _ (st_Resources st)).
Qed.

Lemma Normalize_inv st host st' :
  Normalize st host = Ok st' ->
  valid_state host st /\ st' = set_Resources (fill_host host <$> st_Resources st) st.
Proof.
  intros H.
  assert (valid_state host st) as Hv; [|by rewrite Normalize_valid in H; res_inv].
  unfold Normalize in H. res_inv.
  repeat match goal with H : bool_decide _ = true |- _ => apply bool_decide_eq_true in H end.
  split; try done. apply map_Forall_entries. by eapply normalize_loop_inv.
Qed.

Lemma Normalize_ok_iff st host :
  is_ok (Normalize st host) = true <-> valid_state host st.
Proof.
  split; [|by intros ->%Normalize_valid].
  destruct (Normalize st host) as [st'|] eqn:E; [|done]. by apply Normalize_inv in E as [].
Qed.

Lemma fill_host_fixed host (m : gmap string Resource) :
  fill_host host <$> (fill_host host <$> m) = fill_host host <$> m.
Proof. rewrite <- map_fmap_compose. apply map_fmap_ext. intros. apply fill_host_idemp. Qed.

Lemma normalized_valid host st :
  valid_state host st ->
  valid_state host (set_Resources (fill_host host <$> st_Resources st) st).
Proof.
  intros [Hh Hv Hs Hr]. split; try done. cbn. intros k r. rewrite lookup_fmap.
  intros (r0 & Hr0 & ->)%fmap_Some. right. apply fill_host_Host, (Hr k r0 Hr0).
Qed.

(** A state returned by [Normalize] is a fixed point of it. *)
Lemma Normalize_idemp st host st' :
  Normalize st host = Ok st' -> Normalize st' host = Ok st'.
Proof.
  intros [Hv ->]%Normalize_inv. rewrite Normalize_valid by (by apply normalized_valid).
  cbn. by rewrite fill_host_fixed.
Qed.

(** A normalized state: valid, and every resource names the host. *)
Definition normal_state (host : string) (st : State) : Prop :=
  valid_state host st /\ map_Forall (fun _ r => r_Host r = host) (st_Resources st).

Lemma Normalize_normal st host st' : Normalize st host = Ok st' -> normal_state host st'.
Proof.
  intros [Hv ->]%Normalize_inv. split; [by apply normalized_valid|].
  intros k r. cbn. rewrite lookup_fmap. intros (r0 & Hr0 & ->)%fmap_Some.
  apply fill_host_Host. by eapply (valid_resources _ _ Hv).
Qed.

Lemma Normalize_fixed st host : normal_state host st -> Normalize st host = Ok st.
Proof.
  intros [Hv Hr]. rewrite Normalize_valid by done.
  replace (fill_host host <$> st_Resources st) with (st_Resources st).
  - by destruct st.
  - apply map_eq. intros k. rewrite lookup_fmap. destruct (_ !! k) as [r|] eqn:Hk; [|done].
    cbn. unfold fill_host. rewrite decide_False; [done|]. rewrite (Hr k r Hk). by destruct Hv.
Qed.

(** ** Revisions *)

(** [PrepareWrite]; [now] is the clock reading [time.Now().UTC()] in RFC 3339. *)
Definition PrepareWrite (now : string) (st : State) (host : string) : result state_error State :=
  st ← Normalize st host;
  Ok (set_revision (int_add (st_Serial st) 1) now st).

Lemma PrepareWrite_Ok now st host st' :
  PrepareWrite now st host = Ok st' <->
  exists n, Normalize st host = Ok n /\ st' = set_revision (int_add (st_Serial st) 1) now n.
Proof.
  unfold PrepareWrite. rewrite bind_Ok. split; intros (n & Hn & H); exists n; split; try done.
  - injection H as <-. apply Normalize_inv in Hn as [_ ->]. done.
  - subst. apply Normalize_inv in Hn as [_ ->]. done.
Qed.

Lemma PrepareWrite_normal now st host st' :
  PrepareWrite now st host = Ok st' -> normal_state host st'.
Proof.
  rewrite PrepareWrite_Ok. intros (n & [[? ? ? ?] ?]%Normalize_normal & ->). by repeat split.
Qed.

(** ** Sanitized attributes and digests *)

Definition SanitizeDesired (desired : gomap) : gomap :=
  let out := cloneMap desired in
  let sensitive := boolMapValue out "sensitive" in
  let out :=
    match out !! "content" with
    | Some (GStr content) =>
        <["content_bytes" := GInt (Z.of_nat (String.length content))]>
        (<["content_sha256" := GStr (sha256Hex content)]> (delete "content" out))
    | _ => out
    end in
  if sensitive then delete "summary" (delete "source_path" out) else out.

Definition SanitizeObserved (observed : gomap) : gomap := SanitizeDesired observed.

Definition Digest (v : goval) : string := sha256Hex (json_text (marshal v)).

Definition DesiredDigest (desired : gomap) : string := Digest (GMap (SanitizeDesired desired)).

(** No textual content survives sanitizing, whatever the sensitivity flag. *)
Lemma SanitizeDesired_no_content d s : SanitizeDesired d !! "content" <> Some (GStr s).
Proof.
  unfold SanitizeDesired. cbv zeta. destruct (cloneMap d !! "content") as [v|] eqn:Hc.
  - destruct v; destruct (boolMapValue _ _); rewrite ?lookup_delete_ne, ?lookup_insert_ne by done;
      rewrite ?lookup_delete_eq; congruence.
  - destruct (boolMapValue _ _); rewrite ?lookup_delete_ne by done; congruence.
Qed.

Lemma SanitizeDesired_sensitive d :
  boolMapValue d "sensitive" = true ->
  SanitizeDesired d !! "source_path" = None /\ SanitizeDesired d !! "summary" = None.
Proof.
  intros Hs. unfold SanitizeDesired. cbv zeta. rewrite boolMapValue_clone, Hs.
  by rewrite lookup_delete_eq, lookup_delete_ne, lookup_delete_eq by done.
Qed.

(** The attributes sanitizing may touch. *)
Definition sanitized_keys : list string :=
  ["content"; "content_sha256"; "content_bytes"; "source_path"; "summary"].

Lemma SanitizeDesired_other d k : k ∉ sanitized_keys -> SanitizeDesired d !! k = cloneMap d !! k.
Proof.
  unfold sanitized_keys. rewrite !not_elem_of_cons. intros (? & ? & ? & ? & ? & _).
  unfold SanitizeDesired. cbv zeta.
  destruct (cloneMap d !! "content") as [[]|]; destruct (boolMapValue _ _);
    by rewrite ?lookup_delete_ne, ?lookup_insert_ne, ?lookup_delete_ne by done.
Qed.

Lemma SanitizeDesired_flag d :
  boolMapValue (SanitizeDesired d) "sensitive" = boolMapValue d "sensitive".
Proof.
  rewrite <- (boolMapValue_clone d). unfold boolMapValue.
  rewrite SanitizeDesired_other; [done|]. unfold sanitized_keys. set_solver.
Qed.

Lemma SanitizeDesired_cloned d : cloneMap (SanitizeDesired d) = SanitizeDesired d.
Proof.
  unfold SanitizeDesired. cbv zeta.
  destruct (cloneMap d !! "content") as [[]|]; destruct (boolMapValue _ _);
    by autorewrite with dbf_rw.
Qed.

(** The attribute maps sanitizing leaves alone. *)
Lemma SanitizeDesired_fixed m :
  cloneMap m = m -> (forall s, m !! "content" <> Some (GStr s)) ->
  (boolMapValue m "sensitive" = true -> m !! "source_path" = None /\ m !! "summary" = None) ->
  SanitizeDesired m = m.
Proof.
  intros Hclone Hc Hs. unfold SanitizeDesired. cbv zeta. rewrite Hclone.
  assert (match m !! "content" with
    | Some (GStr c) => <["content_bytes" := GInt (Z.of_nat (String.length c))]>
        (<["content_sha256" := GStr (sha256Hex c)]> (delete "content" m))
    | _ => m end = m) as ->.
  { destruct (m !! "content") as [[]|] eqn:E; try done. by destruct (Hc s). }
  destruct (boolMapValue m "sensitive"); [|done].
  destruct Hs as [H1 H2]; [done|]. rewrite (delete_id m) by done. by rewrite delete_id.
Qed.

Lemma SanitizeDesired_idemp d : SanitizeDesired (SanitizeDesired d) = SanitizeDesired d.
Proof.
  apply SanitizeDesired_fixed; [apply SanitizeDesired_cloned|apply SanitizeDesired_no_content|].
  rewrite SanitizeDesired_flag. apply SanitizeDesired_sensitive.
Qed.

(** The digest is a function of the sanitized attributes: state records, which
    only keep those, digest to the value computed from the full attributes. *)
Lemma DesiredDigest_sanitized d : DesiredDigest (SanitizeDesired d) = DesiredDigest d.
Proof. unfold DesiredDigest. by rewrite SanitizeDesired_idemp. Qed.

Lemma DesiredDigest_length d : String.length (DesiredDigest d) = 64.
Proof. apply sha256Hex_length. Qed.

Lemma DesiredDigest_nonempty d : DesiredDigest d <> "".
Proof. intros H. pose proof (DesiredDigest_length d) as Hl. by rewrite H in Hl. Qed.

(** Attributes read back from a JSON document. *)
Definition reload (m : gomap) : gomap := (fun v => unmarshal_any (marshal v)) <$> m.

Lemma unmarshal_marshal_map m : unmarshal_any (marshal (GMap m)) = GMap (reload m).
Proof.
  cbn [marshal unmarshal_any]. rewrite list_to_map_sorted_entries. unfold reload.
  by rewrite <- map_fmap_compose.
Qed.

Lemma Digest_reload m : plain (GMap m) -> Digest (GMap (reload m)) = Digest (GMap m).
Proof.
  intros Hm. unfold Digest. rewrite <- unmarshal_marshal_map.
  by rewrite marshal_unmarshal_marshal.
Qed.

Lemma cloneValue_reload v : cloneValue (unmarshal_any (marshal v)) = unmarshal_any (marshal v).
Proof.
  induction v as [| | | | | |l|l|c|l IH|m IH|] using goval_rect_nested; try done.
  - cbn. f_equal. rewrite <- !list_fmap_compose. done.
  - cbn. f_equal. rewrite <- !list_fmap_compose. apply list_fmap_ext. intros _ row _. cbn.
    f_equal. by rewrite <- !list_fmap_compose.
  - cbn. unfold omit_str, omit_num. repeat case_decide; cbn; f_equal; by autorewrite with dbf_rw.
  - cbn. f_equal. rewrite <- !list_fmap_compose. apply list_fmap_ext.
    intros i x Hx%list_elem_of_lookup_2. rewrite Forall_forall in IH. by apply IH.
  - rewrite unmarshal_marshal_map. cbn. f_equal. unfold reload. rewrite <- map_fmap_compose.
    apply map_fmap_ext. intros k x Hx. exact (IH k x Hx).
Qed.

Lemma cloneMap_reload m : cloneMap (reload m) = reload m.
Proof.
  unfold cloneMap, reload. rewrite <- map_fmap_compose. apply map_fmap_ext.
  intros. apply cloneValue_reload.
Qed.

Lemma boolMapValue_reload m k : boolMapValue (reload m) k = boolMapValue m k.
Proof.
  unfold boolMapValue, reload. rewrite lookup_fmap.
  by destruct (m !! k) as [[]|].
Qed.

Lemma stringMapValue_reload m k : stringMapValue (reload m) k = stringMapValue m k.
Proof.
  unfold stringMapValue, reload. rewrite lookup_fmap. by destruct (m !! k) as [[]|].
Qed.

Lemma lookup_reload m k : reload m !! k = (fun v => unmarshal_any (marshal v)) <$> (m !! k).
Proof. apply lookup_fmap. Qed.

Lemma SanitizeDesired_reload d :
  SanitizeDesired (reload (SanitizeDesired d)) = reload (SanitizeDesired d).
Proof.
  apply SanitizeDesired_fixed; [apply cloneMap_reload|..].
  - intros s. rewrite lookup_reload. intros (v & Hv & Hs)%fmap_Some.
    destruct v; try discriminate Hs. by apply SanitizeDesired_no_content in Hv.
  - rewrite boolMapValue_reload, SanitizeDesired_flag, !lookup_reload.
    by intros [-> ->]%SanitizeDesired_sensitive.
Qed.

(** The digest recorded with a resource can be recomputed from the attributes
    the state file kept, as long as no attribute is a struct. *)
Lemma DesiredDigest_reload d :
  plain (GMap (SanitizeDesired d)) -> DesiredDigest (reload (SanitizeDesired d)) = DesiredDigest d.
Proof.
  intros Hp. unfold DesiredDigest. rewrite SanitizeDesired_reload. by apply Digest_reload.
Qed.

Definition summary_desired : gomap :=
  {["path" := GStr "/etc/motd"; "component" := GStr "web";
    "summary" := GSummary {| SHA256 := "ab"; Bytes := 2 |}]}.

(** The digest of an attribute map is not stable under storage when an
    attribute is a struct: a content summary digests differently before the
    state is written and after it is read back, because the struct prints its
    fields in declaration order and the decoded map in key order. *)
Theorem DesiredDigest_reload_summary :
  DesiredDigest (reload (SanitizeDesired summary_desired)) <> DesiredDigest summary_desired.
Proof. vm_compute. discriminate. Qed.
