(* ===== verification/Moves.v ===== *)
(** * Declarative address refactoring: [internal/core/state/moved.go]

    [ResolveMoves] rewrites the state keys (and the metadata derived from
    them) according to the [moved] blocks of a host.  The Go code works on a
    private clone of the state; here the resource map is passed along. *)
From S2P Require Import Prelude Sha256 GoValue IR State.

Record MoveTarget := { mt_ProviderAddress : string; mt_Desired : gomap }.
Definition no_target : MoveTarget := {| mt_ProviderAddress := ""; mt_Desired := ∅ |}.

Record RealizedMove := { rm_Host : string; rm_From : string; rm_To : string }.
#[export] Instance RealizedMove_eq_dec : EqDecision RealizedMove.
Proof. solve_decision. Defined.

Record MoveResult := { mr_State : State; mr_Moves : list RealizedMove }.

Inductive move_error :=
| MoveState (e : state_error)
| SourceNotComponent (from : string)
| DestinationNotComponent (to : string)
| MoveToItself (from : string)
| SourceDeclaredTwice (from firstTo : string)
| SameDestination (firstFrom from to : string)
| MoveOverlap (from to previousFrom previousTo : string)
| MoveCycle (source : string)
| BothDesired (from : string)
| DestinationExists (from to : string)
| DestinationNotDesired (from final : string)
| MoveOutOfFuel.

(** ** Addresses *)

(** [address == prefix || strings.HasPrefix(address, prefix+".")] *)
Definition under (prefix address : string) : bool :=
  bool_decide (address = prefix) || strings_HasPrefix address (prefix +:+ ".").

Definition matchingAddresses (resources : gmap string Resource) (prefix : string) : list string :=
  sort_strings (filter (fun a => under prefix a = true) (map_to_list resources).*1).

Definition replaceAddressPrefix (address from to : string) : string :=
  to +:+ strings_TrimPrefix address from.

Definition prefixesOverlap (left right : string) : bool :=
  bool_decide (left = right) || strings_HasPrefix left (right +:+ ".")
  || strings_HasPrefix right (left +:+ ".").

Definition component_root (host : string) : string := "host." +:+ host +:+ ".components.".

Definition componentFromPrefix (host prefix : string) : option string :=
  let root := component_root host in
  if strings_HasPrefix prefix root then
    let component := strings_TrimPrefix prefix root in
    if bool_decide (component = "") || strings_Contains component "."
       || strings_ContainsAny component "[]"
    then None else Some component
  else None.

(** ** Validation and ordering of the declarations *)

Definition move_less (a b : MovedSpec) : bool :=
  if decide (mv_From a = mv_From b) then str_ltb (mv_To a) (mv_To b)
  else str_ltb (mv_From a) (mv_From b).

Abbreviation moveMap := (gmap string MovedSpec).

Record validation := {
  va_bySource : moveMap;
  va_byTarget : moveMap;
  va_validated : list MovedSpec;
}.

Definition validate_move (host : string) (va : validation) (move : MovedSpec)
  : result move_error validation :=
  _ ← of_option (SourceNotComponent (mv_From move)) (componentFromPrefix host (mv_From move));
  _ ← of_option (DestinationNotComponent (mv_To move)) (componentFromPrefix host (mv_To move));
  _ ← guard_or (bool_decide (mv_From move <> mv_To move)) (MoveToItself (mv_From move));
  match va_bySource va !! mv_From move with
  | Some previous => Err (SourceDeclaredTwice (mv_From move) (mv_To previous))
  | None =>
  match va_byTarget va !! mv_To move with
  | Some previous => Err (SameDestination (mv_From previous) (mv_From move) (mv_To move))
  | None =>
  match list_find (fun p => prefixesOverlap (mv_From p) (mv_From move)
                         || prefixesOverlap (mv_To p) (mv_To move) = true) (va_validated va) with
  | Some (_, previous) =>
      Err (MoveOverlap (mv_From move) (mv_To move) (mv_From previous) (mv_To previous))
  | None =>
      Ok {| va_bySource := <[mv_From move := move]> (va_bySource va);
            va_byTarget := <[mv_To move := move]> (va_byTarget va);
            va_validated := va_validated va ++ [move] |}
  end end end.

(** [bySource[source].To], the zero value when the key is absent. *)
Definition target_of (bySource : moveMap) (source : string) : string :=
  match bySource !! source with Some move => mv_To move | None => "" end.

(** [depth]: the length of the chain of mappings that starts at [source],
    with the memo table and the set of sources on the call stack. *)
Fixpoint depth (fuel : nat) (bySource : moveMap) (source : string)
    (depths : gmap string nat) (visiting : gset string)
  : result move_error (nat * gmap string nat) :=
  match fuel with
  | O => Err MoveOutOfFuel
  | S fuel =>
      match depths !! source with
      | Some value => Ok (value, depths)
      | None =>
          if decide (source ∈ visiting) then Err (MoveCycle source)
          else
            let visiting := {[source]} ∪ visiting in
            match bySource !! target_of bySource source with
            | None => Ok (1, <[source := 1]> depths)
            | Some next =>
                '(d, depths) ← depth fuel bySource (mv_From next) depths visiting;
                Ok (S d, <[source := S d]> depths)
            end
      end
  end.

Definition depth_loop (bySource : moveMap) (depths : gmap string nat) (source : string)
  : result move_error (gmap string nat) :=
  '(_, depths) ← depth (S (size bySource)) bySource source depths ∅;
  Ok depths.

Definition depth_of (depths : gmap string nat) (m : MovedSpec) : nat :=
  default 0 (depths !! mv_From m).

(** Deepest chains first, then by source. *)
Definition depth_less (depths : gmap string nat) (a b : MovedSpec) : bool :=
  if decide (depth_of depths a = depth_of depths b) then str_ltb (mv_From a) (mv_From b)
  else bool_decide (depth_of depths b < depth_of depths a).

Definition validateAndOrderMoves (host : string) (declarations : list MovedSpec)
  : result move_error (list MovedSpec) :=
  let moves := sort_by move_less declarations in
  va ← fold_res (validate_move host) moves
         {| va_bySource := ∅; va_byTarget := ∅; va_validated := [] |};
  depths ← fold_res (depth_loop (va_bySource va)) (sorted_keys (va_bySource va)) ∅;
  Ok (sort_by (depth_less depths) moves).

(** [finalMoveTargets]: follow [next] while the target is itself a source. *)
Fixpoint follow (fuel : nat) (next : gmap string string) (target : string) : string :=
  match fuel with
  | O => target
  | S fuel => match next !! target with Some t => follow fuel next t | None => target end
  end.

Definition next_targets (moves : list MovedSpec) : gmap string string :=
  fold_left (fun m mv => <[mv_From mv := mv_To mv]> m) moves ∅.

Definition finalMoveTargets (moves : list MovedSpec) : gmap string string :=
  fold_left (fun m mv => <[mv_From mv := follow (length moves) (next_targets moves) (mv_To mv)]> m)
    moves ∅.

(** ** Rebasing *)

Definition cloneLifecycle (l : option LifecycleSpec) : option LifecycleSpec := l.

(** The component recorded for a moved resource. *)
Definition moved_component (toComponent : string) (target : MoveTarget) : string :=
  match mt_Desired target !! "component" with
  | Some (GStr c) => if decide (c = "") then toComponent else c
  | _ => toComponent
  end.

Definition rebaseMovedResource (resource : Resource) (fromComponent toComponent : string)
    (target : MoveTarget) : Resource :=
  let oldDigest := r_DesiredDigest resource in
  let desired := cloneMap (r_Desired resource) in
  let observed := cloneMap (r_Observed resource) in
  let component := moved_component toComponent target in
  let current := stringMapValue desired "component" in
  let desiredChanged :=
    (bool_decide (is_Some (desired !! "component")) || bool_decide (r_Kind resource = "component_script_output"))
    && (bool_decide (current <> component) || bool_decide (current = fromComponent)) in
  let desired := if desiredChanged then <["component" := GStr component]> desired else desired in
  let providerAddress :=
    if decide (mt_ProviderAddress target = "") then r_ProviderAddress resource
    else mt_ProviderAddress target in
  let digest := if desiredChanged then DesiredDigest desired else oldDigest in
  let observed :=
    if desiredChanged then
      match observed !! "desired_digest" with
      | Some (GStr d) => if decide (d = oldDigest) then <["desired_digest" := GStr digest]> observed
                         else observed
      | _ => observed
      end
    else observed in
  {| r_Host := r_Host resource; r_Kind := r_Kind resource;
     r_ProviderType := r_ProviderType resource; r_ProviderAddress := providerAddress;
     r_Ownership := r_Ownership resource; r_Lifecycle := cloneLifecycle (r_Lifecycle resource);
     r_Desired := desired; r_DesiredDigest := digest; r_Observed := observed;
     r_UpdatedAt := r_UpdatedAt resource; r_Order := r_Order resource;
     r_DependsOn := r_DependsOn resource |}.

Definition rebase_dependency (from to dependency : string) : string :=
  if under from dependency then replaceAddressPrefix dependency from to else dependency.

Definition rebaseResourceDependencies (from to : string) (resources : gmap string Resource)
  : gmap string Resource :=
  (fun r => set_r_DependsOn (rebase_dependency from to <$> r_DependsOn r) r) <$> resources.

(** [state.cloneState]: deep copies of the attribute maps. *)
Definition cloneResource (r : Resource) : Resource :=
  set_r_maps (cloneMap (r_Desired r)) (cloneMap (r_Observed r)) r.

Definition cloneState (st : State) : State :=
  set_Resources (cloneResource <$> st_Resources st) st.

(** ** Resolution *)

Abbreviation move_acc := (gmap string Resource * list RealizedMove)%type.

(** Go's zero value of a missing map entry. *)
Definition zero_resource : Resource :=
  {| r_Host := ""; r_Kind := ""; r_ProviderType := ""; r_ProviderAddress := "";
     r_Ownership := ""; r_Lifecycle := None; r_Desired := ∅; r_DesiredDigest := "";
     r_Observed := ∅; r_UpdatedAt := ""; r_Order := 0; r_DependsOn := [] |}.

(** The inner loop body: one address of one declaration. *)
Definition move_entry (host : string) (declaration : MovedSpec) (fromComponent toComponent : string)
    (targets : gmap string MoveTarget) (acc : move_acc) (from : string)
  : result move_error move_acc :=
  let '(resources, moves) := acc in
  let to := replaceAddressPrefix from (mv_From declaration) (mv_To declaration) in
  match resources !! to with
  | Some _ => Err (DestinationExists from to)
  | None =>
      let resource := rebaseMovedResource (default zero_resource (resources !! from))
                        fromComponent toComponent (default no_target (targets !! to)) in
      Ok (<[to := resource]> (delete from resources),
          moves ++ [{| rm_Host := host; rm_From := from; rm_To := to |}])
  end.

Definition check_destination (declaration : MovedSpec) (resources : gmap string Resource)
    (u : unit) (from : string) : result move_error unit :=
  let to := replaceAddressPrefix from (mv_From declaration) (mv_To declaration) in
  match resources !! to with Some _ => Err (DestinationExists from to) | None => Ok tt end.

(** The outer loop body: one declaration. *)
Definition resolve_declaration (host : string) (desiredComponents : gset string)
    (targets : gmap string MoveTarget) (finalTargets : gmap string string)
    (acc : move_acc) (declaration : MovedSpec) : result move_error move_acc :=
  let '(resources, moves) := acc in
  let addresses := matchingAddresses resources (mv_From declaration) in
  if decide (addresses = []) then Ok acc
  else
    let finalTarget := default "" (finalTargets !! mv_From declaration) in
    if decide (mv_From declaration ∈ desiredComponents) then
      if decide (finalTarget ∈ desiredComponents) then Err (BothDesired (mv_From declaration))
      else
        _ ← fold_res (check_destination declaration resources) addresses tt;
        Ok acc
    else if decide (finalTarget ∉ desiredComponents)
    then Err (DestinationNotDesired (mv_From declaration) finalTarget)
    else
      let fromComponent := default "" (componentFromPrefix host (mv_From declaration)) in
      let toComponent := default "" (componentFromPrefix host (mv_To declaration)) in
      '(resources, moves) ←
        fold_res (move_entry host declaration fromComponent toComponent targets) addresses
          (resources, moves);
      Ok (rebaseResourceDependencies (mv_From declaration) (mv_To declaration) resources, moves).

Definition ResolveMoves (st : State) (declarations : list MovedSpec)
    (desiredComponents : gset string) (targets : gmap string MoveTarget)
  : result move_error MoveResult :=
  normalized ← map_err MoveState (Normalize st (st_Host st));
  let start := cloneState normalized in
  if decide (length declarations = 0) then Ok {| mr_State := start; mr_Moves := [] |}
  else
    ordered ← validateAndOrderMoves (st_Host st) declarations;
    let finalTargets := finalMoveTargets ordered in
    '(resources, moves) ←
      fold_res (resolve_declaration (st_Host st) desiredComponents targets finalTargets) ordered
        (st_Resources start, []);
    Ok {| mr_State := set_Resources resources start; mr_Moves := moves |}.
