(* ===== verification/MovesProps.v ===== *)
(** * Properties of declarative address refactoring *)
From S2P Require Import Prelude Sha256 GoValue IR State Moves.

(** ** Validation and ordering of [moved] declarations

    [validateAndOrderMoves] accepts exactly the well-formed, acyclic sets of
    declarations and returns them with the chain [a -> b] before [b -> c]. *)

(** *** Component roots *)

Lemma contains_dot_cons c s :
  strings_Contains (String c s) "." = false ->
  c <> "."%char /\ strings_Contains s "." = false.
Proof.
  unfold strings_Contains. cbn [String.index].
  destruct (String.prefix "." (String c s)) eqn:Hp; [done|].
  destruct (String.index 0 "." s); [done|]. intros _. split; [|done]. intros ->.
  rewrite prefix_cons in Hp. destruct (ascii_dec _ _); [by destruct s|congruence].
Qed.

Lemma dotless_split c c' t t' :
  strings_Contains c "." = false -> strings_Contains c' "." = false ->
  (t = "" \/ exists u, t = "." +:+ u) -> (t' = "" \/ exists u, t' = "." +:+ u) ->
  c +:+ t = c' +:+ t' -> c = c'.
Proof.
  revert c'; induction c as [|x c IH]; intros [|x' c'] Hc Hc' Ht Ht'; [done| | |].
  - apply contains_dot_cons in Hc' as [Hx _]. rewrite str_app_cons.
    destruct Ht as [->|[u ->]]; [done|]. change ("" +:+ ("." +:+ u)) with (String "." u). congruence.
  - apply contains_dot_cons in Hc as [Hx _]. rewrite str_app_cons.
    destruct Ht' as [->|[u ->]]; [done|]. change ("" +:+ ("." +:+ u)) with (String "." u). congruence.
  - apply contains_dot_cons in Hc as [_ Hc]. apply contains_dot_cons in Hc' as [_ Hc'].
    rewrite !str_app_cons. intros [= -> H]. f_equal. eauto.
Qed.

(** The addresses [moved] declarations may name. *)
Definition is_root (host p : string) : Prop := is_Some (componentFromPrefix host p).

Lemma is_root_inv host p :
  is_root host p ->
  exists c, p = component_root host +:+ c /\ c <> "" /\ strings_Contains c "." = false.
Proof.
  intros [c Hc]. unfold componentFromPrefix in Hc.
  destruct (strings_HasPrefix p (component_root host)) eqn:Hp; [|done].
  apply HasPrefix_iff in Hp as [t ->]. rewrite TrimPrefix_app in Hc.
  destruct (bool_decide (t = "")) eqn:H1; [done|].
  destruct (strings_Contains t ".") eqn:H2; [done|].
  exists t. apply bool_decide_eq_false in H1. done.
Qed.

Lemma under_iff p a : under p a = true <-> exists t, a = p +:+ t /\ (t = "" \/ exists u, t = "." +:+ u).
Proof.
  unfold under. rewrite orb_true_iff, bool_decide_eq_true, HasPrefix_iff. split.
  - intros [->|[u ->]]; [exists ""; by rewrite str_app_nil_r; auto|].
    exists ("." +:+ u). rewrite str_app_assoc. eauto.
  - intros (t & -> & [->|[u ->]]); [left; by rewrite str_app_nil_r|].
    right. exists u. by rewrite str_app_assoc.
Qed.

Lemma under_refl p : under p p = true.
Proof. apply under_iff. exists "". rewrite str_app_nil_r. auto. Qed.

(** Distinct component roots cover disjoint sets of addresses. *)
Lemma root_unique host p q a :
  is_root host p -> is_root host q -> under p a = true -> under q a = true -> p = q.
Proof.
  intros (c & -> & _ & Hc)%is_root_inv (c' & -> & _ & Hc')%is_root_inv.
  rewrite !under_iff. intros (t & -> & Ht) (t' & Heq & Ht').
  rewrite !str_app_assoc in Heq. apply str_app_inv_l in Heq.
  by rewrite (dotless_split c c' t t').
Qed.

Lemma prefixesOverlap_eq host p q :
  is_root host p -> is_root host q -> prefixesOverlap p q = bool_decide (p = q).
Proof.
  intros Hp Hq. unfold prefixesOverlap. case_bool_decide as Hpq; [done|]. cbn.
  destruct (strings_HasPrefix p (q +:+ ".")) eqn:E1; cbn.
  { destruct Hpq. eapply root_unique; eauto using under_refl.
    unfold under. by rewrite E1, orb_true_r. }
  destruct (strings_HasPrefix q (p +:+ ".")) eqn:E2; [|done].
  destruct Hpq. symmetry. eapply root_unique; eauto using under_refl.
  unfold under. by rewrite E2, orb_true_r.
Qed.

(** *** Well-formed declarations *)

Record valid_moves (host : string) (ms : list MovedSpec) : Prop := {
  vm_roots : Forall (fun m => is_root host (mv_From m) /\ is_root host (mv_To m)
                              /\ mv_From m <> mv_To m) ms;
  vm_sources : NoDup (mv_From <$> ms);
  vm_targets : NoDup (mv_To <$> ms);
}.

(** The index maps agree with the list of validated declarations. *)
Record index_ok (ms : list MovedSpec) (key : MovedSpec -> string) (ix : moveMap) : Prop := {
  ix_sound : forall k m, ix !! k = Some m -> m ∈ ms /\ key m = k;
  ix_complete : forall m, m ∈ ms -> is_Some (ix !! key m);
}.

Definition validation_ok (host : string) (va : validation) : Prop :=
  valid_moves host (va_validated va)
  /\ index_ok (va_validated va) mv_From (va_bySource va)
  /\ index_ok (va_validated va) mv_To (va_byTarget va).

Lemma index_ok_snoc ms key ix m :
  index_ok ms key ix -> index_ok (ms ++ [m]) key (<[key m := m]> ix).
Proof.
  intros [Hs Hc]. split.
  - intros k m'. rewrite elem_of_app, list_elem_of_singleton.
    intros [[<- <-]|[_ H]]%lookup_insert_Some; [auto|]. apply Hs in H as [??]; auto.
  - intros m'. rewrite elem_of_app, list_elem_of_singleton. intros Hm.
    destruct (decide (key m = key m')) as [->|]; [rewrite lookup_insert_eq; eauto|].
    rewrite lookup_insert_ne by done. destruct Hm as [Hm| ->]; [by apply Hc|done].
Qed.

Lemma index_ok_None ms key ix k :
  index_ok ms key ix -> ix !! k = None <-> k ∉ key <$> ms.
Proof.
  intros [Hs Hc]. split.
  - intros Hk (m & -> & Hm)%list_elem_of_fmap. apply Hc in Hm as [? Hm]. congruence.
  - intros Hk. destruct (ix !! k) as [m|] eqn:E; [|done]. apply Hs in E as [Hm <-].
    destruct Hk. by apply list_elem_of_fmap_2.
Qed.

Lemma NoDup_fmap_snoc {A} (f : A -> string) l x :
  NoDup (f <$> l ++ [x]) <-> NoDup (f <$> l) /\ f x ∉ f <$> l.
Proof.
  rewrite fmap_app, NoDup_app. cbn. split; [intros (? & H & _); split; set_solver|].
  intros [? ?]. repeat split; [done| |repeat constructor; set_solver]. set_solver.
Qed.

(** One step of validation: accepted exactly when the extended list is valid. *)
Lemma validate_move_ok host va m :
  validation_ok host va ->
  valid_moves host (va_validated va ++ [m]) ->
  exists va', validate_move host va m = Ok va' /\ va_validated va' = va_validated va ++ [m].
Proof.
  intros (Hvm & Hs & Ht) [Hr HNs HNt].
  apply Forall_app in Hr as [Hr Hm]. apply Forall_cons in Hm as [([c1 Hc1] & [c2 Hc2] & Hne) _].
  apply NoDup_fmap_snoc in HNs as [_ HNs]. apply NoDup_fmap_snoc in HNt as [_ HNt].
  unfold validate_move. rewrite Hc1, Hc2, bool_decide_true by done. cbn.
  rewrite (proj2 (index_ok_None _ _ _ _ Hs)) by done.
  rewrite (proj2 (index_ok_None _ _ _ _ Ht)) by done.
  destruct (list_find _ (va_validated va)) as [[i p]|] eqn:E; [|eauto].
  apply list_find_Some in E as (Hi%list_elem_of_lookup_2 & Hov & _). exfalso.
  rewrite Forall_forall in Hr. destruct (Hr p Hi) as (Hp1 & Hp2 & _).
  rewrite (prefixesOverlap_eq host) in Hov by (unfold is_root; eauto).
  rewrite (prefixesOverlap_eq host) in Hov by (unfold is_root; eauto).
  apply orb_true_iff in Hov as [Ho|Ho]; apply bool_decide_eq_true in Ho;
    [apply HNs|apply HNt]; rewrite <- Ho; by apply list_elem_of_fmap_2.
Qed.

Lemma validate_move_inv host va m va' :
  validation_ok host va -> validate_move host va m = Ok va' ->
  validation_ok host va' /\ va_validated va' = va_validated va ++ [m].
Proof.
  intros ([Hr HNs HNt] & Hs & Ht). unfold validate_move. intros H. res_inv.
  match goal with H : bool_decide _ = true |- _ => apply bool_decide_eq_true in H end.
  destruct (va_bySource va !! mv_From m) eqn:E1; [done|].
  destruct (va_byTarget va !! mv_To m) eqn:E2; [done|].
  destruct (list_find _ _) as [[]|]; [done|]. res_inv.
  rewrite (index_ok_None _ _ _ _ Hs) in E1. rewrite (index_ok_None _ _ _ _ Ht) in E2.
  split; [|done]. split; [|split; by apply index_ok_snoc]. cbn.
  split; cbn; rewrite ?NoDup_fmap_snoc; [|done..].
  apply Forall_app. split; [done|]. unfold is_root. repeat constructor; eauto.
Qed.

Lemma validate_moves_inv host ms va va' :
  validation_ok host va -> fold_res (validate_move host) ms va = Ok va' ->
  validation_ok host va' /\ va_validated va' = va_validated va ++ ms.
Proof.
  revert va; induction ms as [|m ms IH]; intros va Hva; cbn.
  - intros [= <-]. by rewrite app_nil_r.
  - destruct (validate_move host va m) as [va1|] eqn:E; [|done]. intros H.
    apply validate_move_inv in E as [Hva1 E]; [|done]. apply IH in H as [? ->]; [|done].
    by rewrite E, <- app_assoc.
Qed.

Lemma valid_moves_app_l host l k : valid_moves host (l ++ k) -> valid_moves host l.
Proof.
  intros [Hr Hs Ht]. rewrite !fmap_app in *. apply NoDup_app in Hs as [? _].
  apply NoDup_app in Ht as [? _]. apply Forall_app in Hr as [? _]. by split.
Qed.

Lemma validate_moves_ok host ms va :
  validation_ok host va -> valid_moves host (va_validated va ++ ms) ->
  exists va', fold_res (validate_move host) ms va = Ok va'.
Proof.
  revert va; induction ms as [|m ms IH]; intros va Hva Hms; cbn; [eauto|].
  destruct (validate_move_ok host va m) as (va1 & Hm & E); [done| |].
  - apply (valid_moves_app_l _ _ ms). by rewrite <- app_assoc.
  - rewrite Hm. apply IH; [by eapply validate_move_inv|]. by rewrite E, <- app_assoc.
Qed.

Definition no_validation : validation :=
  {| va_bySource := ∅; va_byTarget := ∅; va_validated := [] |}.

Lemma no_validation_ok host : validation_ok host no_validation.
Proof. split; [split; constructor|]. split; split; set_solver. Qed.

#[export] Instance valid_moves_perm host : Proper ((≡ₚ) ==> iff) (valid_moves host).
Proof.
  intros l k Hlk.
  split; intros [Hr Hs Ht]; split; solve [by rewrite <- Hlk | by rewrite Hlk].
Qed.

(** *** Chain depths *)

(** One mapping feeds the next when its destination is a source again. *)
Definition feeds (ms : list MovedSpec) (a b : string) : Prop :=
  exists m, m ∈ ms /\ mv_From m = a /\ mv_To m = b.

Definition acyclic_moves (ms : list MovedSpec) : Prop := forall a, ~ tc (feeds ms) a a.

Inductive depth_is (bs : moveMap) : string -> nat -> Prop :=
| depth_last s : bs !! target_of bs s = None -> depth_is bs s 1
| depth_next s n :
    is_Some (bs !! target_of bs s) -> depth_is bs (target_of bs s) n -> depth_is bs s (S n).

Lemma depth_is_fun bs s n m : depth_is bs s n -> depth_is bs s m -> n = m.
Proof.
  intros Hn; revert m; induction Hn as [s Hs|s n [? Hs] Hn IH]; intros m Hm;
    inversion Hm as [? Hs'|? n' [? Hs'] Hn']; subst; try congruence.
  f_equal. by apply IH.
Qed.

Definition depths_ok (bs : moveMap) (depths : gmap string nat) : Prop :=
  map_Forall (fun s n => depth_is bs s n) depths.

Lemma depths_ok_insert bs depths s n :
  depths_ok bs depths -> depth_is bs s n -> depths_ok bs (<[s := n]> depths).
Proof. intros. by apply map_Forall_insert_2. Qed.

Section depth.
Context (ms : list MovedSpec) (bs : moveMap) (Hbs : index_ok ms mv_From bs).

Lemma feeds_target s : is_Some (bs !! s) -> feeds ms s (target_of bs s).
Proof.
  intros [m Hm]. unfold target_of. rewrite Hm. apply (ix_sound _ _ _ Hbs) in Hm as [??].
  by exists m.
Qed.

Definition depth_post (depths : gmap string nat) (s : string)
    (out : result move_error (nat * gmap string nat)) : Prop :=
  match out with
  | Ok (n, depths') =>
      depth_is bs s n /\ depths_ok bs depths' /\ depths ⊆ depths' /\ depths' !! s = Some n
  | Err e => exists c, e = MoveCycle c /\ tc (feeds ms) c c
  end.

Lemma depth_post_insert depths s n :
  depths_ok bs depths -> depths !! s = None -> depth_is bs s n ->
  depth_post depths s (Ok (n, <[s := n]> depths)).
Proof.
  intros. split; [done|]. split; [by apply depths_ok_insert|].
  by rewrite lookup_insert_eq; split; [apply insert_subseteq|].
Qed.

(** The fuel bounds the number of sources on the call stack, which are
    distinct keys of [bs]: it is never exhausted. *)
Lemma depth_spec fuel s depths visiting :
  is_Some (bs !! s) -> visiting ⊆ dom bs -> size bs < fuel + size visiting ->
  (forall v, v ∈ visiting -> tc (feeds ms) v s) -> depths_ok bs depths ->
  depth_post depths s (depth fuel bs s depths visiting).
Proof.
  revert s depths visiting. induction fuel as [|fuel IH]; intros s depths visiting Hs Hv Hf Hr Hd.
  { apply subseteq_size in Hv. rewrite size_dom in Hv. lia. }
  cbn [depth]. destruct (depths !! s) as [n|] eqn:En; [by repeat split; [apply Hd|..]|].
  case_decide as Hin; [by exists s; eauto|].
  destruct (bs !! target_of bs s) as [nx|] eqn:Enx.
  - destruct (ix_sound _ _ _ Hbs _ _ Enx) as [_ ->].
    assert (depth_post depths (target_of bs s)
              (depth fuel bs (target_of bs s) depths ({[s]} ∪ visiting))) as HP.
    { apply IH; [done| | | |done].
      - intros v [->%elem_of_singleton|?]%elem_of_union; [by apply elem_of_dom|auto].
      - rewrite size_union by set_solver. rewrite size_singleton. lia.
      - intros v [->%elem_of_singleton|Hvis]%elem_of_union; [by apply tc_once, feeds_target|].
        eapply tc_r; [by apply Hr|by apply feeds_target]. }
    destruct (depth fuel _ _ _ _) as [[d depths']|e]; cbn; [|done].
    destruct HP as (H1 & H2 & H3 & H4).
    assert (depth_is bs s (S d)) as Hsd by (constructor; eauto).
    split; [done|]. split; [by apply depths_ok_insert|]. rewrite lookup_insert_eq. split; [|done].
    apply insert_subseteq_r; done.
  - by apply depth_post_insert, depth_last.
Qed.

Lemma depth_loop_spec s depths :
  is_Some (bs !! s) -> depths_ok bs depths ->
  match depth_loop bs depths s with
  | Ok depths' => depths_ok bs depths' /\ depths ⊆ depths' /\ is_Some (depths' !! s)
  | Err e => exists c, e = MoveCycle c /\ tc (feeds ms) c c
  end.
Proof.
  intros Hs Hd. unfold depth_loop.
  assert (depth_post depths s (depth (S (size bs)) bs s depths ∅)) as HP.
  { apply depth_spec; [done|set_solver|lia|set_solver|done]. }
  destruct (depth _ _ _ _ _) as [[d depths']|e]; cbn; [|done]. naive_solver.
Qed.

Lemma depth_loops_spec l depths :
  (forall s, s ∈ l -> is_Some (bs !! s)) -> depths_ok bs depths ->
  match fold_res (depth_loop bs) l depths with
  | Ok depths' => depths_ok bs depths' /\ depths ⊆ depths' /\ (forall s, s ∈ l -> is_Some (depths' !! s))
  | Err e => exists c, e = MoveCycle c /\ tc (feeds ms) c c
  end.
Proof.
  revert depths; induction l as [|s l IH]; intros depths Hl Hd; cbn [fold_res]; [set_solver|].
  pose proof (depth_loop_spec s depths) as Hs.
  destruct (depth_loop bs depths s) as [d1|e]; [|by apply Hs; [apply Hl; left|]].
  destruct Hs as (Hd1 & Hsub & [n Hn]); [apply Hl; left|done|].
  specialize (IH d1). destruct (fold_res _ l d1) as [d2|e2]; [|apply IH; [set_solver|done]].
  destruct IH as (Hd2 & Hsub2 & Hl2); [set_solver|done|]. split; [done|].
  split; [by trans d1|]. intros k [->|Hk]%elem_of_cons; [|by apply Hl2].
  exists n. by eapply lookup_weaken.
Qed.
End depth.

Lemma depth_less_asym depths a b : depth_less depths a b = true -> depth_less depths b a = false.
Proof.
  unfold depth_less. intros H. repeat case_decide;
    rewrite ?bool_decide_eq_true, ?bool_decide_eq_false in *; try lia. by apply str_ltb_asym.
Qed.

Lemma depth_less_trans depths a b c :
  depth_less depths b a = false -> depth_less depths c b = false -> depth_less depths c a = false.
Proof.
  unfold depth_less. intros H1 H2.
  repeat case_decide; rewrite ?bool_decide_eq_false in *; try lia. by eapply str_not_ltb_trans.
Qed.

(** In processing order no later destination is an earlier source. *)
Definition moves_ordered (ms : list MovedSpec) : Prop :=
  StronglySorted (fun x y => mv_To y <> mv_From x) ms.

Lemma index_ok_lookup ms key ix m :
  index_ok ms key ix -> NoDup (key <$> ms) -> m ∈ ms -> ix !! key m = Some m.
Proof.
  intros [Hs Hc] Hnd Hm. destruct (Hc m Hm) as [m' E]. rewrite E. f_equal.
  apply Hs in E as [??]. by eapply (NoDup_fmap_eq key).
Qed.

(** Depths decrease by one along the mapping chains. *)
Lemma depth_link ms bs depths m1 m2 :
  index_ok ms mv_From bs -> NoDup (mv_From <$> ms) -> depths_ok bs depths ->
  (forall m, m ∈ ms -> is_Some (depths !! mv_From m)) ->
  m1 ∈ ms -> m2 ∈ ms -> mv_To m1 = mv_From m2 ->
  depth_of depths m1 = S (depth_of depths m2).
Proof.
  intros Hbs Hnd Hok Hall H1 H2 Hlink. unfold depth_of.
  destruct (Hall m1 H1) as [n1 E1]. destruct (Hall m2 H2) as [n2 E2]. rewrite E1, E2. cbn.
  apply (depth_is_fun _ _ _ _ (Hok _ _ E1)).
  assert (target_of bs (mv_From m1) = mv_From m2) as Ht.
  { unfold target_of. by rewrite (index_ok_lookup ms mv_From bs m1 Hbs Hnd H1). }
  constructor; rewrite Ht; [by apply (ix_complete _ _ _ Hbs)|by apply Hok].
Qed.

Lemma decreasing_acyclic ms (rank : MovedSpec -> nat) :
  NoDup (mv_From <$> ms) ->
  (forall m1 m2, m1 ∈ ms -> m2 ∈ ms -> mv_To m1 = mv_From m2 -> rank m2 < rank m1) ->
  acyclic_moves ms.
Proof.
  intros Hnd Hdec a Ha.
  assert (forall x y, tc (feeds ms) x y -> forall m', m' ∈ ms -> mv_From m' = y ->
    exists m, m ∈ ms /\ mv_From m = x /\ rank m' < rank m) as Htc.
  { intros x y Hxy. induction Hxy as [x y (m & Hm & <- & <-)|x y z (m & Hm & <- & <-) _ IH];
      intros m' Hm' Hy; [exists m; eauto|].
    destruct (IH m' Hm' Hy) as (m1 & ? & ? & ?). exists m. repeat split; [done|].
    specialize (Hdec m m1). naive_solver lia. }
  assert (exists m, m ∈ ms /\ mv_From m = a) as (m & Hm & Hma).
  { inversion Ha as [? ? (m & ? & ? & _)|? ? ? (m & ? & ? & _) _]; eauto. }
  destruct (Htc a a Ha m Hm Hma) as (m2 & Hm2 & Heq & Hlt).
  assert (m2 = m) as -> by (eapply (NoDup_fmap_eq mv_From); eauto; congruence). lia.
Qed.

#[export] Instance acyclic_moves_perm : Proper ((≡ₚ) ==> iff) acyclic_moves.
Proof.
  assert (forall l k, l ≡ₚ k -> acyclic_moves l -> acyclic_moves k) as Hgo.
  { intros l k Hlk Hl a Ha. apply (Hl a). revert Ha. generalize a at 1 3 as b. intros b Hb.
    induction Hb as [x y (m & Hm & ?)|x y z (m & Hm & ?) _ IH].
    - apply tc_once. exists m. by rewrite Hlk.
    - eapply tc_l; [|done]. exists m. by rewrite Hlk. }
  intros l k Hlk. by split; apply Hgo.
Qed.

(** What the two passes of [validateAndOrderMoves] establish. *)
Lemma order_inv host ds ms :
  validateAndOrderMoves host ds = Ok ms ->
  ms ≡ₚ ds /\ valid_moves host ds /\ acyclic_moves ds /\ moves_ordered ms.
Proof.
  unfold validateAndOrderMoves. set (sorted := sort_by move_less ds).
  assert (sorted ≡ₚ ds) as <- by apply sort_by_perm. intros H. res_inv.
  rename x into va, x0 into depths, H0 into Hva, H1 into Hd.
  apply validate_moves_inv in Hva as [(Hvm & Hbs & _) Hval]; [|apply no_validation_ok].
  cbn in Hval. rewrite Hval in Hvm, Hbs.
  pose proof (depth_loops_spec sorted _ Hbs (sorted_keys (va_bySource va)) ∅) as HD.
  rewrite Hd in HD. destruct HD as (Hok & _ & Hall);
    [intros s; by rewrite elem_of_sorted_keys|apply map_Forall_empty|].
  assert (forall m1 m2, m1 ∈ sorted -> m2 ∈ sorted -> mv_To m1 = mv_From m2 ->
            depth_of depths m1 = S (depth_of depths m2)) as Hlink.
  { intros m1 m2. eapply depth_link; [done|apply Hvm|done|].
    intros m Hm. apply Hall. rewrite elem_of_sorted_keys. by apply (ix_complete _ _ _ Hbs). }
  split; [by rewrite sort_by_perm|]. split; [done|]. split.
  - apply (decreasing_acyclic _ (depth_of depths)); [apply Hvm|].
    intros m1 m2 H1 H2 H12. rewrite (Hlink m1 m2); [lia|done..].
  - eapply StronglySorted_imp;
      [|apply sort_by_sorted; eauto using depth_less_asym, depth_less_trans].
    intros x y. rewrite !elem_of_sort_by. unfold may_follow, depth_less. intros Hx Hy Hless Heq.
    specialize (Hlink y x Hy Hx Heq). case_decide; [lia|].
    apply bool_decide_eq_false in Hless. lia.
Qed.

Lemma order_total host ds :
  valid_moves host ds -> acyclic_moves ds -> exists ms, validateAndOrderMoves host ds = Ok ms.
Proof.
  unfold validateAndOrderMoves. set (sorted := sort_by move_less ds).
  assert (sorted ≡ₚ ds) as <- by apply sort_by_perm. intros Hvm Hac.
  destruct (validate_moves_ok host sorted no_validation (no_validation_ok host)) as [va Hva]; [done|].
  change (exists ms, (va ← fold_res (validate_move host) sorted no_validation;
    depths ← fold_res (depth_loop (va_bySource va)) (sorted_keys (va_bySource va)) ∅;
    Ok (sort_by (depth_less depths) sorted)) = Ok ms).
  rewrite Hva. cbn.
  apply validate_moves_inv in Hva as [(_ & Hbs & _) Hval]; [|apply no_validation_ok].
  cbn in Hval. rewrite Hval in Hbs.
  pose proof (depth_loops_spec sorted _ Hbs (sorted_keys (va_bySource va)) ∅) as HD.
  destruct (fold_res (depth_loop _) _ _) as [depths|e]; [cbn; eauto|].
  destruct HD as (c & _ & Hc); [intros s; by rewrite elem_of_sorted_keys|apply map_Forall_empty|].
  by destruct (Hac c).
Qed.

Lemma elem_of_matching m p a :
  a ∈ matchingAddresses m p <-> is_Some (m !! a) /\ under p a = true.
Proof.
  unfold matchingAddresses. rewrite elem_of_sort_strings, list_elem_of_filter, list_elem_of_fmap.
  split.
  - intros (Hu & [k r] & -> & Hin%elem_of_map_to_list). split; [by exists r|done].
  - intros [[r Hr] Hu]. split; [done|]. exists (a, r). by rewrite elem_of_map_to_list.
Qed.

Lemma NoDup_matching m p : NoDup (matchingAddresses m p).
Proof.
  unfold matchingAddresses. apply NoDup_sort_strings. apply NoDup_filter, NoDup_fst_map_to_list.
Qed.

Lemma matching_nil m p :
  matchingAddresses m p = [] <-> forall a, under p a = true -> m !! a = None.
Proof.
  split.
  - intros Hnil a Ha. destruct (m !! a) as [r|] eqn:E; [|done].
    assert (a ∈ matchingAddresses m p) as Hin by (apply elem_of_matching; eauto).
    rewrite Hnil in Hin. by apply elem_of_nil in Hin.
  - intros H. destruct (matchingAddresses m p) as [|a l] eqn:E; [done|].
    assert (a ∈ matchingAddresses m p) as [[r Hr] Hu]%elem_of_matching by (rewrite E; by left).
    by rewrite H in Hr.
Qed.

Lemma replace_under p q a : under p a = true -> under q (replaceAddressPrefix a p q) = true.
Proof.
  unfold replaceAddressPrefix. rewrite !under_iff. intros (t & -> & Ht).
  rewrite TrimPrefix_app. by exists t.
Qed.

(** ** One declaration *)
Section declaration.
Context (host : string) (d : MovedSpec) (fromC toC : string) (targets : gmap string MoveTarget).

Definition rename (a : string) : string := replaceAddressPrefix a (mv_From d) (mv_To d).
Definition rebased (a : string) (r : Resource) : Resource :=
  rebaseMovedResource r fromC toC (default no_target (targets !! rename a)).

(** Induction over the inner loop: every address is present when its turn
    comes, and its destination is free. *)
Lemma move_entries_ind (I : gmap string Resource -> Prop) l m mv m' mv' :
  (forall m a r, I m -> m !! a = Some r -> m !! rename a = None -> a ∈ l ->
     I (<[rename a := rebased a r]> (delete a m))) ->
  NoDup l -> (forall a, a ∈ l -> is_Some (m !! a)) -> I m ->
  fold_res (move_entry host d fromC toC targets) l (m, mv) = Ok (m', mv') ->
  I m' /\ dom m' = (dom m ∖ list_to_set l) ∪ list_to_set (rename <$> l).
Proof.
  intros Hstep Hl. revert m mv. induction Hl as [|a l Ha Hl IH]; intros m mv Hpres HI; cbn.
  - intros [= <- <-]. split; [done|set_solver].
  - fold (rename a). destruct (m !! rename a) eqn:Hto; [done|].
    destruct (Hpres a) as [r Hr]; [by left|]. rewrite Hr. cbn. fold (rebased a r). intros Hrun.
    apply IH in Hrun as [HI' Hdom]; [split; [done|]|..].
    + assert (rename a ∉ l).
      { intros Hin. destruct (Hpres (rename a)) as [? ?]; [by right|congruence]. }
      rewrite Hdom, dom_insert_L, dom_delete_L. cbn. set_solver.
    + intros m0 a0 r0 H1 H2 H3 H4. apply Hstep; [done..|by right].
    + intros b Hb. destruct (Hpres b) as [rb Hrb]; [by right|].
      rewrite lookup_insert_ne by congruence. rewrite lookup_delete_ne by set_solver. eauto.
    + apply Hstep; [done..|by left].
Qed.
End declaration.

(** The fields a move never touches. *)
Definition identity (r : Resource) :=
  (r_Host r, r_Kind r, r_ProviderType r, r_Ownership r, r_Lifecycle r, r_UpdatedAt r, r_Order r).

Definition identities (m : gmap string Resource) := (fun p => identity p.2) <$> map_to_list m.

Lemma identities_insert m a r :
  m !! a = None -> identities (<[a := r]> m) ≡ₚ identity r :: identities m.
Proof. intros. unfold identities. by rewrite map_to_list_insert. Qed.

Lemma identities_delete m a r :
  m !! a = Some r -> identities m ≡ₚ identity r :: identities (delete a m).
Proof.
  intros Hr. rewrite <- identities_insert by apply lookup_delete_eq.
  by rewrite insert_delete_id.
Qed.

Lemma identities_fmap (f : Resource -> Resource) m :
  (forall r, identity (f r) = identity r) -> identities (f <$> m) ≡ₚ identities m.
Proof.
  intros Hf. unfold identities. rewrite map_to_list_fmap, <- list_fmap_compose.
  apply reflexive_eq, list_fmap_ext. intros _ [k r] _. apply Hf.
Qed.

(** A resource-wise property that renaming preserves. *)
Record move_stable (P : Resource -> Prop) : Prop := {
  ms_rebase : forall r f t target, P r -> P (rebaseMovedResource r f t target);
  ms_depends : forall r deps, P r -> P (set_r_DependsOn deps r);
}.

Section step.
Context (host : string) (comps : gset string) (targets : gmap string MoveTarget)
        (finals : gmap string string).

(** A declaration that has nothing left to do. *)
Definition settled (m : gmap string Resource) (d : MovedSpec) : Prop :=
  (forall a, under (mv_From d) a = true -> m !! a = None)
  \/ (mv_From d ∈ comps /\ ~ default "" (finals !! mv_From d) ∈ comps
      /\ forall a, under (mv_From d) a = true -> is_Some (m !! a) -> m !! rename d a = None).

Lemma check_destinations d m l :
  fold_res (check_destination d m) l tt = Ok tt <-> forall a, a ∈ l -> m !! rename d a = None.
Proof.
  induction l as [|a l IH]; cbn [fold_res]; [set_solver|].
  unfold check_destination at 1. fold (rename d a).
  destruct (m !! rename d a) eqn:E.
  - split; [intros H; discriminate H|]. intros H. rewrite (H a) in E by left. discriminate E.
  - rewrite IH. split; [|intros H b Hb; apply H; by right].
    intros H b [->|Hb]%elem_of_cons; auto.
Qed.

Lemma settled_run m mv d :
  settled m d -> resolve_declaration host comps targets finals (m, mv) d = Ok (m, mv).
Proof.
  intros Hs. unfold resolve_declaration. case_decide as Hnil; [done|].
  destruct Hs as [H%matching_nil|(H1 & H2 & H3)]; [done|].
  rewrite decide_True by done. rewrite decide_False by done.
  rewrite (proj2 (check_destinations _ _ _)); [done|].
  intros a [? ?]%elem_of_matching. by apply H3.
Qed.

(** The other outcome: every matching address is renamed. *)
Definition moved (m m' : gmap string Resource) (d : MovedSpec) : Prop :=
  dom m' = (dom m ∖ list_to_set (matchingAddresses m (mv_From d)))
           ∪ list_to_set (rename d <$> matchingAddresses m (mv_From d))
  /\ identities m' ≡ₚ identities m
  /\ (forall P, move_stable P -> map_Forall (fun _ => P) m -> map_Forall (fun _ => P) m')
  /\ (forall a r, m' !! a = Some r -> exists a0 r0, m !! a0 = Some r0 /\
        r_DependsOn r = rebase_dependency (mv_From d) (mv_To d) <$> r_DependsOn r0).

Lemma move_entries_moved d fromC toC m mv m' mv' :
  fold_res (move_entry host d fromC toC targets) (matchingAddresses m (mv_From d)) (m, mv)
    = Ok (m', mv') ->
  moved m (rebaseResourceDependencies (mv_From d) (mv_To d) m') d.
Proof.
  intros Hrun. set (l := matchingAddresses m (mv_From d)) in *.
  destruct (move_entries_ind host d fromC toC targets (fun m' =>
    identities m' ≡ₚ identities m
    /\ (forall P, move_stable P -> map_Forall (fun _ => P) m -> map_Forall (fun _ => P) m')
    /\ (forall a r, m' !! a = Some r -> exists a0 r0, m !! a0 = Some r0 /\ r_DependsOn r = r_DependsOn r0))
    l m mv m' mv') as [(Hid & HP & Hdep) Hdom].
  - intros m1 a r (Hid & HP & Hdep) Ha Hto _. split; [|split].
    + rewrite identities_insert by (by apply lookup_delete_None; auto).
      by rewrite <- Hid, (identities_delete m1 a r Ha).
    + intros P Hst Hall. apply map_Forall_insert_2.
      * apply Hst. by apply (HP P Hst Hall a).
      * apply map_Forall_delete. auto.
    + intros b rb [[<- <-]|[_ [_ ?]%lookup_delete_Some]]%lookup_insert_Some;
        [by apply (Hdep a r)|eauto].
  - apply NoDup_matching.
  - by intros a [? _]%elem_of_matching.
  - split; [done|]. split; [auto|]. intros a r Hr. by exists a, r.
  - done.
  - unfold moved, rebaseResourceDependencies. split; [by rewrite dom_fmap_L|].
    split; [by rewrite identities_fmap|]. split.
    + intros P Hst Hall a r. rewrite lookup_fmap. intros (r1 & Hr1 & ->)%fmap_Some.
      apply Hst. by apply (HP P Hst Hall a).
    + intros a r. rewrite lookup_fmap. intros (r1 & Hr1 & ->)%fmap_Some.
      apply Hdep in Hr1 as (a0 & r0 & ? & ->). by exists a0, r0.
Qed.

Lemma resolve_declaration_inv m mv d m' mv' :
  resolve_declaration host comps targets finals (m, mv) d = Ok (m', mv') ->
  (m' = m /\ mv' = mv /\ settled m d) \/ moved m m' d.
Proof.
  unfold resolve_declaration. case_decide as Hnil; [|case_decide as Hs; case_decide as Ht].
  - intros [= <- <-]. left. split; [done|]. split; [done|]. left. by apply matching_nil.
  - done.
  - intros H. res_inv. left. split; [done|]. split; [done|]. right. split; [done|].
    split; [done|]. destruct x. rewrite check_destinations in H0.
    intros a Ha Hin. apply H0. by apply elem_of_matching.
  - done.
  - intros H. res_inv. destruct x as [m1 mv1]. res_inv. right. by eapply move_entries_moved.
Qed.
End step.

Lemma moved_lookup m m' d k :
  moved m m' d ->
  is_Some (m' !! k) <->
  (is_Some (m !! k) /\ under (mv_From d) k = false)
  \/ exists a, is_Some (m !! a) /\ under (mv_From d) a = true /\ k = rename d a.
Proof.
  intros [Hdom _]. rewrite <- elem_of_dom, Hdom, elem_of_union, elem_of_difference.
  rewrite !elem_of_list_to_set, list_elem_of_fmap, elem_of_dom.
  setoid_rewrite elem_of_matching. split.
  - intros [[Hk Hn]|(a & -> & Ha & Hu)]; [|by right; eauto].
    left. split; [done|]. apply not_true_is_false. auto.
  - intros [[Hk Hn]|(a & Ha & Hu & ->)]; [left|by right; eauto].
    split; [done|]. intros [_ ?]. congruence.
Qed.

Section settle.
Context (host : string) (comps : gset string) (finals : gmap string string).

Lemma moved_settled m m' d :
  is_root host (mv_From d) -> is_root host (mv_To d) -> mv_From d <> mv_To d ->
  moved m m' d -> settled comps finals m' d.
Proof.
  intros Hf Ht Hne Hm. left. intros a Ha. apply eq_None_not_Some.
  rewrite (moved_lookup _ _ _ _ Hm). intros [[_ ?]|(b & _ & Hb & ->)]; [congruence|].
  apply Hne. apply (root_unique host _ _ (rename d b)); [done..|by apply replace_under].
Qed.

Lemma settled_kept m m' d d2 :
  is_root host (mv_From d) -> is_root host (mv_To d) ->
  is_root host (mv_From d2) -> is_root host (mv_To d2) ->
  mv_From d2 <> mv_From d -> mv_To d2 <> mv_From d -> mv_To d2 <> mv_To d ->
  moved m m' d2 -> settled comps finals m d -> settled comps finals m' d.
Proof.
  intros Rf Rt Rf2 Rt2 H1 H2 H3 Hm.
  assert (forall a, under (mv_From d) a = true -> is_Some (m' !! a) -> is_Some (m !! a)) as Hfrom.
  { intros a Ha. rewrite (moved_lookup _ _ _ _ Hm). intros [[? _]|(b & _ & Hb & ->)]; [done|].
    destruct H2. apply (root_unique host _ _ (rename d2 b)); [done..|by apply replace_under|done]. }
  intros [Hs|(Hc & Hf & Hs)]; [left|right].
  - intros a Ha. apply eq_None_not_Some. intros Hs'. apply Hfrom in Hs' as [? Hs']; [|done].
    by rewrite Hs in Hs'.
  - split; [done|]. split; [done|]. intros a Ha Hin. apply eq_None_not_Some.
    rewrite (moved_lookup _ _ _ _ Hm). intros [[[? Hx] _]|(b & _ & Hb & Hx)].
    + rewrite Hs in Hx; [done|done|by apply Hfrom].
    + destruct H3. apply (root_unique host _ _ (rename d a)); [done|done| |by apply replace_under].
      rewrite Hx. by apply replace_under.
Qed.
End settle.

(** ** The whole run *)

(** Dependencies always name recorded resources. *)
Definition deps_closed (m : gmap string Resource) : Prop :=
  forall a r dep, m !! a = Some r -> dep ∈ r_DependsOn r -> is_Some (m !! dep).

Lemma moved_deps_closed m m' d : moved m m' d -> deps_closed m -> deps_closed m'.
Proof.
  intros Hm Hc a r dep Hr Hdep. pose proof Hm as (_ & _ & _ & Hd).
  apply Hd in Hr as (a0 & r0 & Hr0 & E). rewrite E in Hdep.
  apply list_elem_of_fmap in Hdep as (dep0 & -> & Hdep0).
  rewrite (moved_lookup _ _ _ _ Hm). unfold rebase_dependency.
  destruct (under (mv_From d) dep0) eqn:Hu; [right|left]; eauto.
Qed.

Section run.
Context (host : string) (comps : gset string) (targets : gmap string MoveTarget)
        (finals : gmap string string).

(** A property kept by every realized declaration holds after the run. *)
Lemma resolve_run_ind (I : gmap string Resource -> Prop) ds m mv m' mv' :
  (forall m m' d, d ∈ ds -> moved m m' d -> I m -> I m') ->
  fold_res (resolve_declaration host comps targets finals) ds (m, mv) = Ok (m', mv') ->
  I m -> I m'.
Proof.
  intros Hstep Hrun HI.
  apply (fold_res_inv (fun acc => I acc.1) _ _ _ _) with (2 := HI) in Hrun; [done|].
  intros [m1 mv1] d [m2 mv2] Hd HI1 [(-> & _)|Hm]%resolve_declaration_inv; [done|]. cbn. eauto.
Qed.

Lemma valid_moves_cons d ds :
  valid_moves host (d :: ds) ->
  (is_root host (mv_From d) /\ is_root host (mv_To d) /\ mv_From d <> mv_To d)
  /\ valid_moves host ds
  /\ forall x, x ∈ ds -> is_root host (mv_From x) /\ is_root host (mv_To x)
               /\ mv_From x <> mv_From d /\ mv_To x <> mv_To d.
Proof.
  intros [Hr Hs Ht]. apply Forall_cons in Hr as [Hd Hr].
  rewrite fmap_cons, NoDup_cons in Hs, Ht. destruct Hs as [Hs1 Hs2], Ht as [Ht1 Ht2].
  split; [done|]. split; [done|]. rewrite Forall_forall in Hr. intros x Hx.
  destruct (Hr x Hx) as (? & ? & _). repeat split; [done..| |];
    intros E; [apply Hs1|apply Ht1]; rewrite <- E; by apply list_elem_of_fmap_2.
Qed.

Lemma resolve_run_settled ds m mv m' mv' :
  valid_moves host ds -> moves_ordered ds ->
  fold_res (resolve_declaration host comps targets finals) ds (m, mv) = Ok (m', mv') ->
  Forall (settled comps finals m') ds.
Proof.
  intros Hv Ho; revert m mv Hv; induction Ho as [|d ds Ho IH Hd]; intros m mv Hv; [constructor|].
  apply valid_moves_cons in Hv as ((Hf & Ht & Hne) & Hv & Hx). cbn [fold_res].
  destruct (resolve_declaration _ _ _ _ _ d) as [[m1 mv1]|] eqn:E; [|done]. intros Hrun.
  constructor; [|by eapply IH]. rewrite Forall_forall in Hd.
  apply (resolve_run_ind (fun m => settled comps finals m d) _ _ _ _ _) with (2 := Hrun).
  - intros m2 m3 x Hin Hm. destruct (Hx x Hin) as (? & ? & ? & ?).
    apply (settled_kept host) with (d2 := x); auto.
  - apply resolve_declaration_inv in E as [(-> & _ & ?)|E]; [done|].
    by apply (moved_settled host) with (m := m).
Qed.

Lemma settled_runs ds m mv :
  Forall (settled comps finals m) ds ->
  fold_res (resolve_declaration host comps targets finals) ds (m, mv) = Ok (m, mv).
Proof.
  induction 1 as [|d ds Hd _ IH]; [done|]. cbn [fold_res]. by rewrite settled_run.
Qed.
End run.

Lemma ResolveMoves_unfold st ds comps targets :
  ResolveMoves st ds comps targets =
  (n ← map_err MoveState (Normalize st (st_Host st));
   ordered ← validateAndOrderMoves (st_Host st) ds;
   '(resources, moves) ← fold_res (resolve_declaration (st_Host st) comps targets
        (finalMoveTargets ordered)) ordered (st_Resources (cloneState n), []);
   Ok {| mr_State := set_Resources resources (cloneState n); mr_Moves := moves |}).
Proof.
  unfold ResolveMoves. destruct (Normalize st (st_Host st)) as [n|]; [|done]. cbn.
  case_decide as Hl; [|done]. destruct ds; [|done]. cbn. by destruct n.
Qed.

(** The ingredients of a successful run. *)
Lemma ResolveMoves_inv st ds comps targets res :
  ResolveMoves st ds comps targets = Ok res ->
  exists n ordered,
    Normalize st (st_Host st) = Ok n
    /\ validateAndOrderMoves (st_Host st) ds = Ok ordered
    /\ fold_res (resolve_declaration (st_Host st) comps targets (finalMoveTargets ordered))
         ordered (st_Resources (cloneState n), []) = Ok (st_Resources (mr_State res), mr_Moves res)
    /\ mr_State res = set_Resources (st_Resources (mr_State res)) (cloneState n).
Proof.
  rewrite ResolveMoves_unfold. intros H. res_inv. destruct x1 as [resources moves]. res_inv.
  exists x, x0. cbn. done.
Qed.

(** A resource-wise property established by normalization and copying and kept
    by renaming holds of the result. *)
Lemma ResolveMoves_Forall (P : Resource -> Prop) st ds comps targets res :
  ResolveMoves st ds comps targets = Ok res -> move_stable P ->
  (forall r, r ∈ (map_to_list (st_Resources st)).*2 -> resource_host_ok (st_Host st) r ->
     P (cloneResource (fill_host (st_Host st) r))) ->
  map_Forall (fun _ => P) (st_Resources (mr_State res)).
Proof.
  intros (n & ordered & [Hv ->]%Normalize_inv & _ & Hrun & _)%ResolveMoves_inv HP Hinit.
  apply (resolve_run_ind _ _ _ _ (map_Forall (fun _ => P)) _ _ _ _ _) with (2 := Hrun).
  - intros m m' d _ (_ & _ & H & _). by apply H.
  - intros a r. cbn. rewrite !lookup_fmap. intros (r1 & (r0 & Hr0 & ->)%fmap_Some & ->)%fmap_Some.
    apply Hinit; [|by eapply (valid_resources _ _ Hv)].
    apply list_elem_of_fmap. exists (a, r0). by rewrite elem_of_map_to_list.
Qed.

Lemma rebase_cloned r f t target :
  cloneMap (r_Desired (rebaseMovedResource r f t target)) = r_Desired (rebaseMovedResource r f t target)
  /\ cloneMap (r_Observed (rebaseMovedResource r f t target))
     = r_Observed (rebaseMovedResource r f t target).
Proof.
  unfold rebaseMovedResource. cbv zeta. cbn [r_Desired r_Observed].
  split; [by destruct (_ && _); autorewrite with dbf_rw|].
  destruct (_ && _); [|by autorewrite with dbf_rw].
  destruct (cloneMap (r_Observed r) !! "desired_digest") as [[]|]; try by autorewrite with dbf_rw.
  case_decide; by autorewrite with dbf_rw.
Qed.

Definition cloned (r : Resource) : Prop := cloneResource r = r.

Lemma cloned_iff r :
  cloned r <-> cloneMap (r_Desired r) = r_Desired r /\ cloneMap (r_Observed r) = r_Observed r.
Proof.
  unfold cloned, cloneResource, set_r_maps. split; [intros <-; cbn; by rewrite !cloneMap_idemp|].
  intros [-> ->]. by destruct r.
Qed.

Lemma cloned_stable : move_stable cloned.
Proof.
  split; intros *; rewrite !cloned_iff; [intros _; apply rebase_cloned|done].
Qed.

Lemma cloneResource_cloned r : cloned (cloneResource r).
Proof. apply cloned_iff. cbn. by rewrite !cloneMap_idemp. Qed.

Lemma cloneState_fixed st : map_Forall (fun _ => cloned) (st_Resources st) -> cloneState st = st.
Proof.
  intros H. unfold cloneState. replace (cloneResource <$> st_Resources st) with (st_Resources st).
  - by destruct st.
  - apply map_eq. intros k. rewrite lookup_fmap. destruct (_ !! k) as [r|] eqn:E; [|done].
    cbn. by rewrite (H k r E).
Qed.

Lemma host_stable host : move_stable (fun r => r_Host r = host).
Proof. by split; intros. Qed.

(** The result of a run is normalized and unshared. *)
Lemma ResolveMoves_normal st ds comps targets res :
  ResolveMoves st ds comps targets = Ok res ->
  normal_state (st_Host st) (mr_State res)
  /\ cloneState (mr_State res) = mr_State res /\ st_Host (mr_State res) = st_Host st.
Proof.
  intros Hrun. pose proof (ResolveMoves_Forall _ _ _ _ _ _ Hrun cloned_stable) as Hcl.
  pose proof (ResolveMoves_Forall _ _ _ _ _ _ Hrun (host_stable (st_Host st))) as Hh.
  apply ResolveMoves_inv in Hrun as (n & ordered & [Hv ->]%Normalize_inv & _ & _ & E).
  assert (map_Forall (fun _ r => r_Host r = st_Host st) (st_Resources (mr_State res))) as Hhost.
  { apply Hh. intros r _ Hr. cbn. by apply fill_host_Host. }
  split; [split; [|done]|split].
  - rewrite E. destruct Hv as [H1 H2 H3 H4]. split; try done. cbn.
    intros k r Hr. right. by apply (Hhost k).
  - apply cloneState_fixed, Hcl. intros. apply cloneResource_cloned.
  - by rewrite E.
Qed.

Lemma finalMoveTargets_ordered host ds ms :
  validateAndOrderMoves host ds = Ok ms ->
  valid_moves host ms /\ moves_ordered ms.
Proof. intros (Hp & Hv & _ & Ho)%order_inv. split; [by rewrite Hp|done]. Qed.

(** ** Digests follow the renamed attributes *)

Lemma DesiredDigest_clone d : DesiredDigest (cloneMap d) = DesiredDigest d.
Proof. unfold DesiredDigest, SanitizeDesired. by rewrite cloneMap_idemp. Qed.

Definition digest_current (r : Resource) : Prop := r_DesiredDigest r = DesiredDigest (r_Desired r).

Definition observed_current (r : Resource) : Prop :=
  r_Observed r !! "desired_digest" = Some (GStr (r_DesiredDigest r)).

Lemma digest_current_stable : move_stable digest_current.
Proof.
  split; [|done]. unfold digest_current, rebaseMovedResource. intros r f t target Hr.
  cbv zeta. cbn [r_Desired r_DesiredDigest]. destruct (_ && _); [done|].
  by rewrite DesiredDigest_clone.
Qed.

Lemma observed_current_stable : move_stable observed_current.
Proof.
  split; [|done]. unfold observed_current, rebaseMovedResource. intros r f t target Hr.
  cbv zeta. cbn [r_Observed r_DesiredDigest].
  assert (cloneMap (r_Observed r) !! "desired_digest" = Some (GStr (r_DesiredDigest r))) as E.
  { by rewrite lookup_cloneMap, Hr. }
  destruct (_ && _); [|done]. rewrite E. rewrite decide_True by done. by rewrite lookup_insert_eq.
Qed.

(** ** A concrete run, for the witnesses: the chain [a -> b -> c] *)

Definition ex_move (from to : string) : MovedSpec :=
  {| mv_From := "host.h.components." +:+ from; mv_To := "host.h.components." +:+ to;
     mv_Source := no_source; mv_FromSource := no_source; mv_ToSource := no_source |}.

Definition ex_resource (desired : gomap) (deps : list string) (order : Z) : Resource :=
  {| r_Host := ""; r_Kind := "component_file"; r_ProviderType := "file"; r_ProviderAddress := "";
     r_Ownership := "managed"; r_Lifecycle := None; r_Desired := desired;
     r_DesiredDigest := DesiredDigest desired;
     r_Observed := {["desired_digest" := GStr (DesiredDigest desired)]};
     r_UpdatedAt := "t0"; r_Order := order; r_DependsOn := deps |}.

Definition ex_state : State :=
  {| st_Version := 2; st_Host := "h"; st_Serial := 7; st_UpdatedAt := "t1"; st_Facts := None;
     st_Resources :=
       {[ "host.h.components.a.file.x" :=
            ex_resource {["component" := GStr "a"; "path" := GStr "/etc/x"]} [] 3;
          "host.h.components.a.file.y" :=
            ex_resource {["component" := GStr "a"; "path" := GStr "/etc/y"]}
              ["host.h.components.a.file.x"] 4 ]} |}.

Definition ex_decls : list MovedSpec := [ex_move "b" "c"; ex_move "a" "b"].
Definition ex_desired : gset string := {["host.h.components.c"]}.

Definition ex_result : MoveResult :=
  match ResolveMoves ex_state ex_decls ex_desired ∅ with
  | Ok r => r
  | Err _ => {| mr_State := ex_state; mr_Moves := [] |}
  end.

Lemma ex_run : ResolveMoves ex_state ex_decls ex_desired ∅ = Ok ex_result.
Proof.
  unfold ex_result. destruct (ResolveMoves ex_state ex_decls ex_desired ∅) as [r|e] eqn:E; [done|].
  assert (is_ok (ResolveMoves ex_state ex_decls ex_desired ∅) = true) as H by (vm_compute; done).
  by rewrite E in H.
Qed.

(** The chain is followed to its end. *)
Example ex_moves :
  (fun m => (rm_From m, rm_To m)) <$> mr_Moves ex_result =
  [("host.h.components.a.file.x", "host.h.components.b.file.x");
   ("host.h.components.a.file.y", "host.h.components.b.file.y");
   ("host.h.components.b.file.x", "host.h.components.c.file.x");
   ("host.h.components.b.file.y", "host.h.components.c.file.y")].
Proof. vm_compute. reflexivity. Qed.

(** ** Properties *)

(** [validateAndOrderMoves] succeeds exactly on the declarations whose
    endpoints are distinct component roots of the host, whose sources and
    destinations are unique, and whose chains are acyclic; it returns a
    permutation of them in which no later declaration feeds an earlier one, so
    that a chain [a -> b], [b -> c] is applied front to back.  The search for
    cycles never runs out of its call-depth bound. *)
Theorem validateAndOrderMoves_spec host ds :
  (valid_moves host ds /\ acyclic_moves ds)
  <-> exists ms, validateAndOrderMoves host ds = Ok ms /\ ms ≡ₚ ds /\ moves_ordered ms.
Proof.
  split.
  - intros [Hv Ha]. destruct (order_total host ds Hv Ha) as [ms Hms].
    exists ms. split; [done|]. by apply order_inv in Hms as (? & _ & _ & ?).
  - intros (ms & Hms & _). by apply order_inv in Hms as (_ & ? & ? & _).
Qed.

(** Running [ResolveMoves] on its own result, with the same declarations
    and desired components, changes nothing and reports no move: leaving
    applied [moved] blocks in the configuration is harmless. *)
Theorem ResolveMoves_idempotent st ds comps targets targets' res :
  ResolveMoves st ds comps targets = Ok res ->
  ResolveMoves (mr_State res) ds comps targets' = Ok {| mr_State := mr_State res; mr_Moves := [] |}.
Proof.
  intros Hrun. destruct (ResolveMoves_normal _ _ _ _ _ Hrun) as (Hn & Hc & Hh).
  apply ResolveMoves_inv in Hrun as (n & ordered & _ & Hord & Hrun & _).
  rewrite ResolveMoves_unfold, Hh, (Normalize_fixed _ _ Hn), Hord. cbn [map_err].
  rewrite !Ok_bind, Hc. destruct (finalMoveTargets_ordered _ _ _ Hord) as [Hv Ho].
  pose proof (resolve_run_settled _ _ _ _ _ _ _ _ _ Hv Ho Hrun) as Hs.
  rewrite (settled_runs _ _ _ _ _ _ _ Hs). cbn. by destruct (mr_State res).
Qed.

Lemma ResolveMoves_idempotent_witness :
  ResolveMoves (mr_State ex_result) ex_decls ex_desired ∅
  = Ok {| mr_State := mr_State ex_result; mr_Moves := [] |}.
Proof. apply (ResolveMoves_idempotent ex_state _ _ ∅), ex_run. Defined.

(** A successful run neither loses nor duplicates a resource: the
    resources of the result are those of the (host-filled) input, up to
    address, provider address, attributes, digests and dependencies; kind,
    provider type, ownership, lifecycle, update time and order are kept. *)
Theorem ResolveMoves_conserves st ds comps targets res :
  ResolveMoves st ds comps targets = Ok res ->
  identities (st_Resources (mr_State res))
  ≡ₚ identities (fill_host (st_Host st) <$> st_Resources st).
Proof.
  intros (n & ordered & [_ ->]%Normalize_inv & _ & Hrun & _)%ResolveMoves_inv.
  trans (identities (cloneResource <$> (fill_host (st_Host st) <$> st_Resources st)));
    [|by apply identities_fmap].
  apply (resolve_run_ind _ _ _ _ (fun m => identities m ≡ₚ _) _ _ _ _ _) with (2 := Hrun); [|done].
  by intros m m' d _ (_ & -> & _).
Qed.

Lemma ResolveMoves_conserves_witness :
  identities (st_Resources (mr_State ex_result))
  ≡ₚ identities (fill_host "h" <$> st_Resources ex_state).
Proof. apply (ResolveMoves_conserves _ _ _ _ _ ex_run). Defined.

(** If every recorded dependency names a recorded resource before the run,
    so it does afterwards: dependency lists are rewritten together with the
    addresses they point to. *)
Theorem ResolveMoves_deps_closed st ds comps targets res :
  ResolveMoves st ds comps targets = Ok res ->
  deps_closed (st_Resources st) -> deps_closed (st_Resources (mr_State res)).
Proof.
  intros (n & ordered & [_ ->]%Normalize_inv & _ & Hrun & _)%ResolveMoves_inv Hc.
  apply (resolve_run_ind _ _ _ _ deps_closed _ _ _ _ _) with (2 := Hrun).
  - intros m m' d _. apply moved_deps_closed.
  - intros a r dep. cbn. rewrite !lookup_fmap.
    intros (r1 & (r0 & Hr0 & ->)%fmap_Some & ->)%fmap_Some Hdep.
    destruct (Hc a r0 dep Hr0) as [r' Hr']; [|by rewrite Hr'].
    revert Hdep. unfold fill_host. by case_decide.
Qed.

Lemma ex_deps_closed : deps_closed (st_Resources ex_state).
Proof.
  intros a r dep Ha Hd. cbn in Ha.
  apply lookup_insert_Some in Ha as [[<- <-]|[_ Ha]]; cbn in Hd; [by apply elem_of_nil in Hd|].
  apply lookup_singleton_Some in Ha as [<- <-]. apply list_elem_of_singleton in Hd as ->.
  vm_compute. eauto.
Qed.

Lemma ResolveMoves_deps_closed_witness : deps_closed (st_Resources (mr_State ex_result)).
Proof. apply (ResolveMoves_deps_closed _ _ _ _ _ ex_run), ex_deps_closed. Defined.

(** After a successful run every declaration is settled: nothing is
    recorded under its source any more, unless the source component is still
    desired, its final destination is not, and the destination entries are free. *)
Theorem ResolveMoves_settles st ds comps targets res d :
  ResolveMoves st ds comps targets = Ok res -> d ∈ ds ->
  exists ordered, validateAndOrderMoves (st_Host st) ds = Ok ordered
    /\ settled comps (finalMoveTargets ordered) (st_Resources (mr_State res)) d.
Proof.
  intros (n & ordered & _ & Hord & Hrun & _)%ResolveMoves_inv Hd. exists ordered. split; [done|].
  destruct (finalMoveTargets_ordered _ _ _ Hord) as [Hv Ho].
  apply resolve_run_settled in Hrun; [|done..]. rewrite Forall_forall in Hrun. apply Hrun.
  apply order_inv in Hord as [Hp _]. by rewrite Hp.
Qed.

Lemma ResolveMoves_settles_witness :
  exists ordered, validateAndOrderMoves "h" ex_decls = Ok ordered
    /\ settled ex_desired (finalMoveTargets ordered) (st_Resources (mr_State ex_result)) (ex_move "a" "b").
Proof. apply (ResolveMoves_settles _ _ _ _ _ _ ex_run). right. left. Defined.

(** Moves keep the digests honest: if every record's desired digest is the
    digest of its attributes, and its observed digest equals it, the same holds
    after attributes were rewritten to the new component name. *)
Theorem ResolveMoves_digests st ds comps targets res :
  ResolveMoves st ds comps targets = Ok res ->
  map_Forall (fun _ r => digest_current r /\ observed_current r) (st_Resources st) ->
  map_Forall (fun _ r => digest_current r /\ observed_current r) (st_Resources (mr_State res)).
Proof.
  intros Hrun Hst. apply (ResolveMoves_Forall _ _ _ _ _ _ Hrun).
  - split; intros *; intros [? ?]; split;
      solve [by apply digest_current_stable | by apply observed_current_stable].
  - intros r ([k r'] & -> & Hr%elem_of_map_to_list)%list_elem_of_fmap _. cbn in *.
    destruct (Hst _ _ Hr) as [H1 H2]. unfold digest_current, observed_current in *.
    assert (r_Desired (fill_host (st_Host st) r') = r_Desired r'
      /\ r_DesiredDigest (fill_host (st_Host st) r') = r_DesiredDigest r'
      /\ r_Observed (fill_host (st_Host st) r') = r_Observed r') as (E1 & E2 & E3).
    { unfold fill_host. by case_decide. }
    unfold cloneResource, set_r_maps. cbn [r_Desired r_Observed r_DesiredDigest].
    by rewrite E1, E2, E3, DesiredDigest_clone, lookup_cloneMap, H2.
Qed.

Lemma ResolveMoves_digests_witness :
  map_Forall (fun _ r => digest_current r /\ observed_current r) (st_Resources (mr_State ex_result)).
Proof.
  apply (ResolveMoves_digests _ _ _ _ _ ex_run).
  cbn [ex_state st_Resources]. apply map_Forall_insert_2; [by split|].
  apply map_Forall_singleton. by split.
Defined.
