(* ===== verification/Graph.v ===== *)
(** * The resource graph: [internal/core/graph/graph.go], [graph_dependencies.go]

    Nodes, operations and the explicit dependencies added to them; the
    scheduler is in [Schedule.v]. *)
From S2P Require Import Prelude Sha256 GoValue IR.

Record Node := {
  n_Host : string;
  n_Address : string;
  n_Kind : string;
  n_Summary : string;
  n_Source : SourceRef;
  n_Lifecycle : option LifecycleSpec;
  n_Desired : gomap;
  n_ProviderType : string;
  n_ProviderAddress : string;
  n_ProviderPayload : gomap;
  n_DependsOn : list string;
  n_ExplicitDependsOn : list string;
  n_DependencySources : gmap string SourceRef;
}.

Record ScriptOutputPayload := {
  so_Address : string;
  so_Path : string;
  so_ScriptDigest : string;
  so_ProviderAddress : string;
}.

Record ScriptPayload := {
  sp_Name : string;
  sp_ComponentName : string;
  sp_Mode : string;
  sp_Kind : string;
  sp_Interpreter : list string;
  sp_Outputs : list ScriptOutputPayload;
  sp_Run : string;
  sp_Content : string;
  sp_Commands : list (list string);
  sp_TriggerAddresses : list string;
  sp_TriggerPaths : list string;
}.

Record OperationCompletion := { oc_ResourceAddress : string; oc_ObservedField : string }.

Record Operation := {
  op_Host : string;
  op_Address : string;
  op_Action : string;
  op_Summary : string;
  op_Sensitive : bool;
  op_DependsOn : list string;
  op_TriggeredBy : list string;
  op_CommandPreview : string;
  op_ScriptPayload : option ScriptPayload;
  op_Completion : option OperationCompletion;
  op_Source : SourceRef;
}.

Record ResourceGraph := { g_Nodes : list Node; g_Operations : list Operation }.

#[export] Instance Node_eq_dec : EqDecision Node.
Proof. solve_decision. Defined.
#[export] Instance ScriptOutputPayload_eq_dec : EqDecision ScriptOutputPayload.
Proof. solve_decision. Defined.
#[export] Instance ScriptPayload_eq_dec : EqDecision ScriptPayload.
Proof. solve_decision. Defined.
#[export] Instance OperationCompletion_eq_dec : EqDecision OperationCompletion.
Proof. solve_decision. Defined.
#[export] Instance Operation_eq_dec : EqDecision Operation.
Proof. solve_decision. Defined.

(** [dedupeStrings]: first occurrences, without the empty string. *)
Definition dedupeStrings (values : list string) : list string :=
  dedup (filter (fun v => v <> "") values).

Lemma elem_of_dedupeStrings x l : x ∈ dedupeStrings l <-> x ∈ l /\ x <> "".
Proof. unfold dedupeStrings. rewrite elem_of_dedup, list_elem_of_filter. naive_solver. Qed.

Lemma NoDup_dedupeStrings l : NoDup (dedupeStrings l).
Proof. apply NoDup_dedup. Qed.

Lemma dedupeStrings_id l : NoDup l -> "" ∉ l -> dedupeStrings l = l.
Proof.
  intros Hl Hne. unfold dedupeStrings. rewrite list_filter_all_true; [by apply dedup_id|].
  intros x Hx ->. done.
Qed.

#[export] Hint Resolve NoDup_dedupeStrings : dbf.

(** ** Serialized nodes *)

Definition nodeContentWriteOnly (n : Node) : bool := boolMapValue (n_Desired n) "content_write_only".
Definition nodeSensitive (n : Node) : bool := boolMapValue (n_Desired n) "sensitive".

Definition set_n_Desired (d : gomap) (n : Node) : Node :=
  {| n_Host := n_Host n; n_Address := n_Address n; n_Kind := n_Kind n; n_Summary := n_Summary n;
     n_Source := n_Source n; n_Lifecycle := n_Lifecycle n; n_Desired := d;
     n_ProviderType := n_ProviderType n; n_ProviderAddress := n_ProviderAddress n;
     n_ProviderPayload := n_ProviderPayload n; n_DependsOn := n_DependsOn n;
     n_ExplicitDependsOn := n_ExplicitDependsOn n; n_DependencySources := n_DependencySources n |}.

Definition set_n_ProviderPayload (p : gomap) (n : Node) : Node :=
  {| n_Host := n_Host n; n_Address := n_Address n; n_Kind := n_Kind n; n_Summary := n_Summary n;
     n_Source := n_Source n; n_Lifecycle := n_Lifecycle n; n_Desired := n_Desired n;
     n_ProviderType := n_ProviderType n; n_ProviderAddress := n_ProviderAddress n;
     n_ProviderPayload := p; n_DependsOn := n_DependsOn n;
     n_ExplicitDependsOn := n_ExplicitDependsOn n; n_DependencySources := n_DependencySources n |}.

(** [nodeJSON]: the copy [Node.MarshalJSON] encodes instead of the node. *)
Definition nodeJSON (n : Node) : Node :=
  let out := if nodeSensitive n then set_n_Desired (delete "content" (cloneMap (n_Desired n))) n
             else n in
  if nodeContentWriteOnly n || nodeSensitive n then set_n_ProviderPayload ∅ out else out.

(** ** Explicit dependencies *)

Inductive graph_error :=
| CrossesHost (source : SourceRef)
| UnknownDependent (source : SourceRef) (address : string)
| UnknownDependency (source : SourceRef) (address : string).

Definition node_index (nodes : list Node) : gmap string nat :=
  fold_left (fun m p => <[n_Address p.2 := p.1]> m) (imap (fun i n => (i, n)) nodes) ∅.

Definition add_dependency (dependency : ResourceDependencySpec) (n : Node) : Node :=
  {| n_Host := n_Host n; n_Address := n_Address n; n_Kind := n_Kind n; n_Summary := n_Summary n;
     n_Source := n_Source n; n_Lifecycle := n_Lifecycle n; n_Desired := n_Desired n;
     n_ProviderType := n_ProviderType n; n_ProviderAddress := n_ProviderAddress n;
     n_ProviderPayload := n_ProviderPayload n;
     n_DependsOn := dedupeStrings (n_DependsOn n ++ [dep_DependsOn dependency]);
     n_ExplicitDependsOn := dedupeStrings (n_ExplicitDependsOn n ++ [dep_DependsOn dependency]);
     n_DependencySources :=
       <[dep_DependsOn dependency := dep_Source dependency]> (n_DependencySources n) |}.

Definition apply_dependency (host : string) (byAddress : gmap string nat) (nodes : list Node)
    (dependency : ResourceDependencySpec) : result graph_error (list Node) :=
  let prefix := "host." +:+ host +:+ "." in
  _ ← guard_or (strings_HasPrefix (dep_From dependency) prefix
                && strings_HasPrefix (dep_DependsOn dependency) prefix)
       (CrossesHost (dep_Source dependency));
  from ← of_option (UnknownDependent (dep_Source dependency) (dep_From dependency))
       (byAddress !! dep_From dependency);
  _ ← of_option (UnknownDependency (dep_Source dependency) (dep_DependsOn dependency))
       (byAddress !! dep_DependsOn dependency);
  Ok (alter (add_dependency dependency) from nodes).

Definition applyExplicitDependencies (host : string) (nodes : list Node)
    (dependencies : list ResourceDependencySpec) : result graph_error (list Node) :=
  fold_res (apply_dependency host (node_index nodes)) dependencies nodes.
