(* ===== verification/Schedule.v ===== *)
(** * The scheduler: [internal/core/graph/schedule.go] *)
From S2P Require Import Prelude Sha256 GoValue IR Graph.

Record ScheduleItem := {
  si_Address : string;
  si_Host : string;
  si_Kind : string;
  si_Operation : bool;
  si_SafeParallel : bool;
  si_DependsOn : list string;
}.

Record scheduleEntry := {
  se_item : ScheduleItem;
  se_dependsOn : list string;
  se_order : nat;
  se_source : SourceRef;
  se_dependencySources : gmap string SourceRef;
}.

Abbreviation entry_map := (gmap string scheduleEntry).

Inductive schedule_error :=
| NodeEmptyAddress
| DuplicateAddress (address : string)
| OperationEmptyAddress
| OperationEmptyHost (address : string)
| DependsOnUnknown (address dep : string)
| TriggeredByUnknown (address trigger : string)
| DependencyCycle (source : SourceRef) (cycle : list string)
| UnknownActive (address : string)
| CycleDetected
| ScheduleOutOfFuel.

Definition SafeParallelKind (kind : string) : bool :=
  bool_decide (kind ∈ ["file"; "secret"; "systemd_unit"; "nftables_file"; "networkd_netdev";
    "networkd_network"; "directory"; "component_download"; "component_build"; "component_binary";
    "component_file"; "component_ca_certificate"; "component_archive"; "component_script_output"]).

Definition zero_item : ScheduleItem :=
  {| si_Address := ""; si_Host := ""; si_Kind := ""; si_Operation := false;
     si_SafeParallel := false; si_DependsOn := [] |}.

Definition zero_entry : scheduleEntry :=
  {| se_item := zero_item; se_dependsOn := []; se_order := 0; se_source := no_source;
     se_dependencySources := ∅ |}.

(** ** Entries *)

Definition node_entry (node : Node) (order : nat) : scheduleEntry :=
  {| se_item := {| si_Address := n_Address node; si_Host := n_Host node; si_Kind := n_Kind node;
                   si_Operation := false; si_SafeParallel := SafeParallelKind (n_Kind node);
                   si_DependsOn := [] |};
     se_dependsOn := dedupeStrings (n_DependsOn node);
     se_order := order; se_source := n_Source node;
     se_dependencySources := n_DependencySources node |}.

Definition add_node (acc : entry_map * nat) (node : Node) : result schedule_error (entry_map * nat) :=
  let '(entries, order) := acc in
  _ ← guard_or (bool_decide (n_Address node <> "")) NodeEmptyAddress;
  match entries !! n_Address node with
  | Some _ => Err (DuplicateAddress (n_Address node))
  | None => Ok (<[n_Address node := node_entry node order]> entries, S order)
  end.

Definition operation_entry (op : Operation) (order : nat) : scheduleEntry :=
  {| se_item := {| si_Address := op_Address op; si_Host := op_Host op; si_Kind := "operation";
                   si_Operation := true; si_SafeParallel := false; si_DependsOn := [] |};
     se_dependsOn := dedupeStrings (op_DependsOn op);
     se_order := order; se_source := op_Source op; se_dependencySources := ∅ |}.

Definition add_operation (acc : entry_map * nat) (op : Operation)
  : result schedule_error (entry_map * nat) :=
  let '(entries, order) := acc in
  _ ← guard_or (bool_decide (op_Address op <> "")) OperationEmptyAddress;
  _ ← guard_or (bool_decide (op_Host op <> "")) (OperationEmptyHost (op_Address op));
  match entries !! op_Address op with
  | Some _ => Err (DuplicateAddress (op_Address op))
  | None => Ok (<[op_Address op := operation_entry op order]> entries, S order)
  end.

Definition check_known (entries : entry_map) (err : string -> schedule_error) (u : unit) (dep : string)
  : result schedule_error unit :=
  match entries !! dep with Some _ => Ok tt | None => Err (err dep) end.

Definition check_entry (entries : entry_map) (u : unit) (p : string * scheduleEntry)
  : result schedule_error unit :=
  fold_res (check_known entries (DependsOnUnknown p.1)) (se_dependsOn p.2) tt.

Definition check_triggers (entries : entry_map) (u : unit) (op : Operation)
  : result schedule_error unit :=
  fold_res (check_known entries (TriggeredByUnknown (op_Address op)))
    (dedupeStrings (op_TriggeredBy op)) tt.

Definition scheduleEntries (g : ResourceGraph) : result schedule_error entry_map :=
  acc ← fold_res add_node (g_Nodes g) (∅, 0);
  '(entries, _) ← fold_res add_operation (g_Operations g) acc;
  _ ← fold_res (check_entry entries) (map_to_list entries) tt;
  _ ← fold_res (check_triggers entries) (g_Operations g) tt;
  Ok entries.

(** ** Cycle detection: depth-first search with an explicit stack *)

Record dfs := {
  df_state : gmap string nat;       (* 1: on the stack, 2: finished *)
  df_index : gmap string nat;       (* stackIndex *)
  df_stack : list string;
}.

Definition no_dfs : dfs := {| df_state := ∅; df_index := ∅; df_stack := [] |}.

Definition deps_of (entries : entry_map) (address : string) : list string :=
  se_dependsOn (default zero_entry (entries !! address)).

(** The position the diagnostic is attributed to. *)
Definition cycle_source (entries : entry_map) (stack : list string) (address : string) : SourceRef :=
  let source := se_source (default zero_entry (entries !! address)) in
  match last stack with
  | None => source
  | Some parent =>
      default source (se_dependencySources (default zero_entry (entries !! parent)) !! address)
  end.

Definition dfs_push (address : string) (s : dfs) : dfs :=
  {| df_state := <[address := 1]> (df_state s);
     df_index := <[address := length (df_stack s)]> (df_index s);
     df_stack := df_stack s ++ [address] |}.

Definition dfs_pop (address : string) (s : dfs) : dfs :=
  {| df_state := <[address := 2]> (df_state s);
     df_index := delete address (df_index s);
     df_stack := take (pred (length (df_stack s))) (df_stack s) |}.

Fixpoint visit (fuel : nat) (entries : entry_map) (s : dfs) (address : string)
  : result schedule_error dfs :=
  match fuel with
  | O => Err ScheduleOutOfFuel
  | S fuel =>
      match default 0 (df_state s !! address) with
      | 1 =>
          let start := default 0 (df_index s !! address) in
          Err (DependencyCycle (cycle_source entries (df_stack s) address)
                 (drop start (df_stack s) ++ [address]))
      | 2 => Ok s
      | _ =>
          s ← fold_res (visit fuel entries) (deps_of entries address) (dfs_push address s);
          Ok (dfs_pop address s)
      end
  end.

Definition validateAcyclic (entries : entry_map) : result schedule_error unit :=
  _ ← fold_res (visit (S (size entries)) entries) (sorted_keys entries) no_dfs;
  Ok tt.

Definition Validate (g : ResourceGraph) : result schedule_error unit :=
  entries ← scheduleEntries g;
  validateAcyclic entries.

(** ** Waves *)

(** The selected addresses: [None] is Go's nil map, i.e. the whole graph. *)
Abbreviation activation := (option (gset string)).

Definition is_active (active : activation) (address : string) : bool :=
  match active with Some a => bool_decide (address ∈ a) | None => false end.

Definition activeDependencies (deps : list string) (active : activation) (useAll : bool) : list string :=
  filter (fun dep => useAll || is_active active dep = true) deps.

Definition scheduleEntryForActiveAddress (entries : entry_map) (aliases : gmap string string)
    (address : string) : option scheduleEntry :=
  match entries !! address with
  | Some entry => Some entry
  | None =>
      let base := default "" (aliases !! address) in
      if decide (base = "") then None else entries !! base
  end.

Definition alias_dependencies (active : activation) (aliases : gmap string string) (dep : string)
  : list string :=
  if is_active active dep then [dep]
  else (filter (fun p => p.2 = dep /\ is_active active p.1 = true) (map_to_list aliases)).*1.

Definition activeDependenciesWithAliases (deps : list string) (active : activation)
    (aliases : gmap string string) (useAll : bool) : list string :=
  if useAll then activeDependencies deps active true
  else dedupeStrings (concat (alias_dependencies active aliases <$> deps)).

Definition order_less (entries : entry_map) (a b : string) : bool :=
  let left := default zero_entry (entries !! a) in
  let right := default zero_entry (entries !! b) in
  if decide (se_order left = se_order right) then str_ltb a b
  else bool_decide (se_order left < se_order right).

Definition sortAddressesByOrder (addresses : list string) (entries : entry_map) : list string :=
  sort_by (order_less entries) addresses.

Definition sortedReady (indegree : gmap string Z) (entries : entry_map) : list string :=
  sortAddressesByOrder ((filter (fun p => p.2 = 0%Z) (map_to_list indegree)).*1) entries.

Definition item_less (a b : ScheduleItem) : bool := str_ltb (si_Address a) (si_Address b).
Definition sortScheduleItems (items : list ScheduleItem) : list ScheduleItem :=
  sort_by item_less items.

Definition set_si_Address (a : string) (i : ScheduleItem) : ScheduleItem :=
  {| si_Address := a; si_Host := si_Host i; si_Kind := si_Kind i; si_Operation := si_Operation i;
     si_SafeParallel := si_SafeParallel i; si_DependsOn := si_DependsOn i |}.
Definition set_si_DependsOn (d : list string) (i : ScheduleItem) : ScheduleItem :=
  {| si_Address := si_Address i; si_Host := si_Host i; si_Kind := si_Kind i;
     si_Operation := si_Operation i; si_SafeParallel := si_SafeParallel i; si_DependsOn := d |}.

(** [activeEntries] when an active set is given. *)
Definition activate (entries : entry_map) (active : activation) (aliases : gmap string string)
    (aliasDependsOn : gmap string (list string)) (out : entry_map) (address : string)
  : result schedule_error entry_map :=
  entry ← of_option (UnknownActive address) (scheduleEntryForActiveAddress entries aliases address);
  let deps := match aliasDependsOn !! address with
              | Some deps => dedupeStrings deps
              | None => se_dependsOn entry
              end in
  Ok (<[address :=
        {| se_item := set_si_Address address (se_item entry);
           se_dependsOn := activeDependenciesWithAliases deps active aliases false;
           se_order := se_order entry; se_source := se_source entry;
           se_dependencySources := se_dependencySources entry |}]> out).

Definition check_active (entries : entry_map) (aliases : gmap string string) (u : unit) (address : string)
  : result schedule_error unit :=
  match scheduleEntryForActiveAddress entries aliases address with
  | Some _ => Ok tt
  | None => Err (UnknownActive address)
  end.

Definition activeEntries (entries : entry_map) (active : activation) (aliases : gmap string string)
    (aliasDependsOn : gmap string (list string)) : result schedule_error entry_map :=
  match active with
  | None => Ok entries
  | Some set =>
      _ ← fold_res (check_active entries aliases) (elements set) tt;
      fold_res (activate entries active aliases aliasDependsOn) (elements set) ∅
  end.

(** [indegree] and [dependents], filled in one pass over the entries. *)
Definition count_entry (active : activation) (aliases : gmap string string) (useAll : bool)
    (acc : gmap string Z * gmap string (list string)) (p : string * scheduleEntry)
  : gmap string Z * gmap string (list string) :=
  let '(indegree, dependents) := acc in
  let '(address, entry) := p in
  if negb useAll && negb (is_active active address) then acc
  else
    let activeDeps := activeDependenciesWithAliases (se_dependsOn entry) active aliases useAll in
    (<[address := Z.of_nat (length activeDeps)]> indegree,
     fold_left (fun m dep => <[dep := default [] (m !! dep) ++ [address]]> m) activeDeps dependents).

(** Emitting one address: its dependents lose one pending dependency. *)
Definition release (acc : gmap string Z * list string) (dependent : string)
  : gmap string Z * list string :=
  let '(indegree, ready) := acc in
  let count := (default 0%Z (indegree !! dependent) - 1)%Z in
  (<[dependent := count]> indegree, if decide (count = 0%Z) then ready ++ [dependent] else ready).

Definition emit (dependents : gmap string (list string)) (acc : gmap string Z * list string)
    (address : string) : gmap string Z * list string :=
  fold_left release (default [] (dependents !! address)) acc.

Definition wave_item (entries : entry_map) (active : activation) (aliases : gmap string string)
    (useAll : bool) (address : string) : ScheduleItem :=
  let entry := default zero_entry (entries !! address) in
  set_si_DependsOn (activeDependenciesWithAliases (se_dependsOn entry) active aliases useAll)
    (se_item entry).

Fixpoint wave_loop (fuel : nat) (entries : entry_map) (item : string -> ScheduleItem)
    (dependents : gmap string (list string)) (indegree : gmap string Z) (ready : list string)
    (waves : list (list ScheduleItem)) (emitted : nat)
  : result schedule_error (list (list ScheduleItem) * nat) :=
  match ready with
  | [] => Ok (waves, emitted)
  | _ =>
      match fuel with
      | O => Err ScheduleOutOfFuel
      | S fuel =>
          let '(indegree, next) := fold_left (emit dependents) ready (indegree, []) in
          wave_loop fuel entries item dependents indegree (sortAddressesByOrder next entries)
            (waves ++ [sortScheduleItems (item <$> ready)]) (emitted + length ready)
      end
  end.

Definition scheduleWavesWithAliases (g : ResourceGraph) (active : activation)
    (aliases : gmap string string) (aliasDependsOn : gmap string (list string))
  : result schedule_error (list (list ScheduleItem)) :=
  entries ← scheduleEntries g;
  _ ← validateAcyclic entries;
  let useAll := bool_decide (active = None) in
  selected ← activeEntries entries active aliases aliasDependsOn;
  let '(indegree, dependents) :=
    fold_left (count_entry active aliases useAll) (map_to_list selected) (∅, ∅) in
  if decide (size indegree = 0) then Ok []
  else
    let item := wave_item (if useAll then entries else selected) active aliases useAll in
    '(waves, emitted) ← wave_loop (S (size indegree)) selected item dependents indegree
                          (sortedReady indegree selected) [] 0;
    _ ← guard_or (bool_decide (emitted = size indegree)) CycleDetected;
    Ok waves.

Definition scheduleWaves (g : ResourceGraph) (active : activation) :=
  scheduleWavesWithAliases g active ∅ ∅.
Definition Waves (g : ResourceGraph) := scheduleWaves g None.
Definition ActiveWaves (g : ResourceGraph) (active : gset string) := scheduleWaves g (Some active).
Definition ActiveWavesWithAliases (g : ResourceGraph) (active : gset string)
    (aliases : gmap string string) (aliasDependsOn : gmap string (list string)) :=
  scheduleWavesWithAliases g (Some active) aliases aliasDependsOn.

Definition TopologicalSort (g : ResourceGraph) : result schedule_error (list ScheduleItem) :=
  waves ← Waves g;
  Ok (concat waves).
