(* ===== verification/ScheduleGraph.v ===== *)
(** * From resource graphs to schedule entries

    [scheduleEntries] accepts exactly the well-formed graphs; the entries it
    builds, and those selected for a run, satisfy what the cycle check and the
    wave loop rely on. *)
From S2P Require Import Prelude Sha256 GoValue IR Graph Schedule.

Section dfs.
Context (entries : entry_map).

Definition edge (a b : string) : Prop := b ∈ deps_of entries a.

(** A closed walk, written with its first address repeated at the end. *)
Definition is_cycle (c : list string) : Prop :=
  exists a mid, c = a :: mid ++ [a] /\ Sorted edge c.

Definition finished (a : string) : Prop := Acc (fun b a => edge a b) a.

Context (closed : forall a b, edge a b -> is_Some (entries !! b)).

Record dfs_ok (s : dfs) : Prop := {
  ok_stack : forall a, df_state s !! a = Some 1 <-> a ∈ df_stack s;
  ok_done : forall a, df_state s !! a = Some 2 -> finished a;
  ok_values : forall a n, df_state s !! a = Some n -> n = 1 \/ n = 2;
  ok_nodup : NoDup (df_stack s);
  ok_dom : forall a, a ∈ df_stack s -> is_Some (entries !! a);
  ok_index : forall i a, df_stack s !! i = Some a -> df_index s !! a = Some i;
  ok_path : Sorted edge (df_stack s);
}.

(** [a] may be visited next. *)
Definition may_visit (s : dfs) (a : string) : Prop :=
  is_Some (entries !! a) /\ forall p, last (df_stack s) = Some p -> edge p a.

Definition cycle_found (e : schedule_error) : Prop :=
  exists source c, e = DependencyCycle source c /\ is_cycle c.

(** What visiting the addresses [l] from [s] achieves. *)
Definition visit_post (s : dfs) (l : list string) (out : result schedule_error dfs) : Prop :=
  match out with
  | Ok s' =>
      dfs_ok s' /\ df_stack s' = df_stack s
      /\ (forall x, x ∈ l -> df_state s' !! x = Some 2)
      /\ (forall x, df_state s !! x = Some 2 -> df_state s' !! x = Some 2)
  | Err e => cycle_found e
  end.

Lemma stack_bound s : dfs_ok s -> length (df_stack s) <= size entries.
Proof.
  intros Hs. rewrite <- size_dom.
  rewrite <- (size_list_to_set (C := gset string)) by apply Hs.
  apply subseteq_size. intros a. rewrite elem_of_list_to_set, elem_of_dom. apply Hs.
Qed.

Lemma found_cycle s a i :
  dfs_ok s -> may_visit s a -> df_stack s !! i = Some a -> is_cycle (drop i (df_stack s) ++ [a]).
Proof.
  intros Hs [_ He] Hi. exists a, (drop (S i) (df_stack s)).
  rewrite (drop_S _ a) by done. split; [done|]. rewrite <- (drop_S _ a i) by done.
  assert (Sorted edge (df_stack s ++ [a])) as Hp by (apply Sorted_snoc; [apply Hs|done]).
  rewrite <- (take_drop i (df_stack s)), <- app_assoc in Hp. by apply Sorted_app_r in Hp.
Qed.

Lemma push_ok s a :
  dfs_ok s -> may_visit s a -> a ∉ df_stack s -> df_state s !! a <> Some 2 ->
  dfs_ok (dfs_push a s).
Proof.
  intros Hs [Ha He] Hni Hn2. destruct Hs as [H1 H2 H3 H4 H5 H6 H7]. split; cbn.
  - intros b. rewrite elem_of_app, list_elem_of_singleton, lookup_insert_Some, <- H1.
    destruct (decide (b = a)); naive_solver.
  - intros b. rewrite lookup_insert_Some. naive_solver.
  - intros b n. rewrite lookup_insert_Some. naive_solver.
  - apply NoDup_app. split; [done|]. split; [set_solver|repeat constructor; set_solver].
  - intros b. rewrite elem_of_app, list_elem_of_singleton. naive_solver.
  - intros i b. rewrite lookup_app_Some. intros [Hi|[Hl Hi]].
    + rewrite lookup_insert_ne; [by apply H6|]. intros ->. apply Hni.
      by eapply list_elem_of_lookup_2.
    + apply list_lookup_singleton_Some in Hi as [Hi <-]. rewrite lookup_insert_eq. f_equal. lia.
  - by apply Sorted_snoc.
Qed.

Lemma pop_ok s s' a :
  dfs_ok s -> dfs_ok s' -> a ∉ df_stack s -> df_stack s' = df_stack s ++ [a] -> finished a ->
  dfs_ok (dfs_pop a s') /\ df_stack (dfs_pop a s') = df_stack s.
Proof.
  intros Hs [H1 H2 H3 H4 H5 H6 H7] Hni Hst Hf.
  assert (df_stack (dfs_pop a s') = df_stack s) as E.
  { cbn. rewrite Hst, length_app. cbn. rewrite Nat.add_1_r. cbn. by rewrite take_app_length. }
  split; [|done]. rewrite Hst in H1, H5, H6.
  split; rewrite ?E; [| | |apply Hs..| |apply Hs]; cbn.
  - intros b. rewrite lookup_insert_Some, H1, elem_of_app, list_elem_of_singleton.
    destruct (decide (b = a)); naive_solver.
  - intros b. rewrite lookup_insert_Some. naive_solver.
  - intros b n. rewrite lookup_insert_Some. naive_solver.
  - intros i b Hi. rewrite lookup_delete_ne.
    + apply H6. rewrite lookup_app_l; [done|]. by eapply lookup_lt_Some.
    + intros ->. apply Hni. by eapply list_elem_of_lookup_2.
Qed.

Lemma visit_list_post f l s :
  (forall a s, a ∈ l -> dfs_ok s -> may_visit s a -> size entries < f + length (df_stack s) ->
     visit_post s [a] (visit f entries s a)) ->
  dfs_ok s -> (forall a, a ∈ l -> may_visit s a) -> size entries < f + length (df_stack s) ->
  visit_post s l (fold_res (visit f entries) l s).
Proof.
  revert s; induction l as [|a l IH]; intros s Hf Hs Hl Hfuel.
  { split; [done|]. set_solver. }
  cbn [fold_res]. pose proof (Hf a s ltac:(by left) Hs (Hl a ltac:(by left)) Hfuel) as Ha.
  destruct (visit f entries s a) as [s1|e]; [|done]. destruct Ha as (Hs1 & E1 & D1 & M1).
  specialize (IH s1).
  destruct (fold_res (visit f entries) l s1) as [s2|e]; unfold visit_post in IH.
  - destruct IH as (Hs2 & E2 & D2 & M2); [intros ? ? ?; apply Hf; by right|done| |by rewrite E1|].
    { intros b Hb. unfold may_visit. rewrite E1. apply Hl. by right. }
    split; [done|]. split; [congruence|]. split; [|auto].
    intros x [->|Hx]%elem_of_cons; [apply M2, D1; by left|auto].
  - apply IH; [intros ? ? ?; apply Hf; by right|done| |by rewrite E1].
    intros b Hb. unfold may_visit. rewrite E1. apply Hl. by right.
Qed.

Lemma visit_spec f s a :
  dfs_ok s -> may_visit s a -> size entries < f + length (df_stack s) ->
  visit_post s [a] (visit f entries s a).
Proof.
  revert s a. induction f as [|f IH]; intros s a Hs Ha Hf.
  { pose proof (stack_bound s Hs). lia. }
  cbn [visit]. destruct (df_state s !! a) as [n|] eqn:En; cbn [default].
  - destruct (ok_values _ Hs _ _ En) as [->| ->].
    + apply (ok_stack _ Hs), list_elem_of_lookup in En as [i Hi].
      rewrite (ok_index _ Hs _ _ Hi). eexists _, _. split; [done|]. by apply found_cycle.
    + split; [done|]. split; [done|]. split; [|done]. intros x ->%list_elem_of_singleton. done.
  - assert (a ∉ df_stack s) as Hni by (rewrite <- (ok_stack _ Hs); congruence).
    assert (dfs_ok (dfs_push a s)) as Hp by (apply push_ok; [done..|congruence]).
    pose proof (visit_list_post f (deps_of entries a) (dfs_push a s)) as Hl.
    destruct (fold_res (visit f entries) (deps_of entries a) (dfs_push a s)) as [s2|e].
    + destruct Hl as (Hs2 & E2 & D2 & M2); [|done|..].
      * intros b s0 _. apply IH.
      * intros b Hb. split; [by eapply closed|]. cbn. rewrite last_snoc. by intros p [= <-].
      * cbn. rewrite length_app. cbn. lia.
      * cbn in E2. assert (finished a) as Hfin.
        { constructor. intros b Hb. apply (ok_done _ Hs2), D2, Hb. }
        destruct (pop_ok s s2 a) as [Hok Est]; [done..|].
        split; [done|]. split; [done|]. cbn. split.
        -- intros x ->%list_elem_of_singleton. apply lookup_insert_eq.
        -- intros x Hx. destruct (decide (x = a)) as [->|]; [apply lookup_insert_eq|].
           rewrite lookup_insert_ne by done. apply M2. cbn. by rewrite lookup_insert_ne.
    + apply Hl; [intros b s0 _; apply IH|done| |].
      * intros b Hb. split; [by eapply closed|]. cbn. rewrite last_snoc. by intros p [= <-].
      * cbn. rewrite length_app. cbn. lia.
Qed.

Lemma no_dfs_ok : dfs_ok no_dfs.
Proof. split; cbn; try set_solver; try constructor; set_solver. Qed.

Lemma validateAcyclic_post :
  match validateAcyclic entries with
  | Ok _ => forall a, is_Some (entries !! a) -> finished a
  | Err e => cycle_found e
  end.
Proof.
  unfold validateAcyclic.
  pose proof (visit_list_post (S (size entries)) (sorted_keys entries) no_dfs) as Hl.
  destruct (fold_res _ _ _) as [s|e]; cbn.
  - destruct Hl as (Hs & _ & D & _); [intros a s0 _; apply visit_spec|apply no_dfs_ok| |cbn; lia|].
    + intros a Ha. split; [by apply elem_of_sorted_keys|done].
    + intros a Ha. apply (ok_done _ Hs), D. by apply elem_of_sorted_keys.
  - apply Hl; [intros a s0 _; apply visit_spec|apply no_dfs_ok| |cbn; lia].
    intros a Ha. split; [by apply elem_of_sorted_keys|done].
Qed.

Lemma finished_acyclic a : finished a -> ~ tc edge a a.
Proof.
  induction 1 as [a _ IH]. intros Ha. inversion Ha as [? ? Hab|? b ? Hab Hba]; subst.
  - by apply (IH a).
  - apply (IH b); [done|]. by eapply tc_r.
Qed.

Lemma is_cycle_tc c : is_cycle c -> exists a, tc edge a a.
Proof.
  intros (a & mid & -> & Hs). exists a. revert Hs.
  enough (forall x l, Sorted edge (x :: l ++ [a]) -> tc edge x a) as H by (intros; by eapply H).
  intros x l; revert x; induction l as [|y l IH]; intros x; cbn; intros Hs;
    apply Sorted_inv in Hs as [Hs Hd]; apply HdRel_inv in Hd.
  - by apply tc_once.
  - eapply tc_l; [done|]. by apply IH.
Qed.
End dfs.

Section kahn.
Context (entries : entry_map) (item : string -> ScheduleItem).
Context (V : gset string) (deps : string -> list string)
        (dependents : gmap string (list string)).
(** The dependencies of [v] not emitted yet. *)
Definition pending (E : gset string) (v : string) : gset string := list_to_set (deps v) ∖ E.

Definition indegree_ok (E : gset string) (ind : gmap string Z) : Prop :=
  forall v, v ∈ V -> ind !! v = Some (Z.of_nat (size (pending E v))).

Lemma pending_add E v r :
  r ∈ deps v -> r ∉ E -> size (pending E v) = S (size (pending ({[r]} ∪ E) v)).
Proof.
  intros Hr Hn. unfold pending.
  replace (list_to_set (deps v) ∖ E)
    with ({[r]} ∪ (list_to_set (deps v) ∖ ({[r]} ∪ E)) : gset string).
  - rewrite size_union by set_solver. rewrite size_singleton. lia.
  - apply set_eq. intros x. destruct (decide (x = r)); set_solver.
Qed.

Lemma pending_same E v r : r ∉ deps v -> pending ({[r]} ∪ E) v = pending E v.
Proof. intros. unfold pending. set_solver. Qed.

Lemma pending_nil E v : size (pending E v) = 0 <-> forall d, d ∈ deps v -> d ∈ E.
Proof.
  unfold pending. rewrite size_empty_iff. split.
  - intros H d Hd. destruct (decide (d ∈ E)); [done|]. set_solver.
  - intros H. set_solver.
Qed.

Context (item_address : forall v, v ∈ V -> si_Address (item v) = v).
Context (deps_in : forall v d, v ∈ V -> d ∈ deps v -> d ∈ V).
Context (dependents_spec : forall d v,
  v ∈ default [] (dependents !! d) <-> v ∈ V /\ d ∈ deps v).
Context (dependents_nodup : forall d, NoDup (default [] (dependents !! d))).

Definition count (ind : gmap string Z) (v : string) : Z := default 0%Z (ind !! v).

Lemma release_spec ds ind rd :
  NoDup ds -> NoDup rd -> (forall v, v ∈ ds -> v ∉ rd) ->
  let out := fold_left release ds (ind, rd) in
  (forall v, out.1 !! v = if decide (v ∈ ds) then Some (count ind v - 1)%Z else ind !! v)
  /\ NoDup out.2
  /\ (forall v, v ∈ out.2 <-> v ∈ rd \/ (v ∈ ds /\ count ind v = 1%Z)).
Proof.
  intros Hnd. revert ind rd. induction Hnd as [|d ds Hd Hnd IH]; intros ind rd Hrd Hdis; cbv zeta.
  { cbn. split; [done|]. split; [done|]. set_solver. }
  cbn [fold_left]. unfold release at 2 4 6. cbv zeta.
  set (ind1 := <[d := (default 0 (ind !! d) - 1)%Z]> ind).
  set (rd1 := if decide (default 0 (ind !! d) - 1 = 0)%Z then rd ++ [d] else rd).
  assert (forall v, v ∈ rd1 <-> v ∈ rd \/ (v = d /\ count ind v = 1%Z)) as Hrd1.
  { intros v. unfold rd1, count. case_decide; rewrite ?elem_of_app, ?list_elem_of_singleton.
    - split; [|tauto]. intros [?| ->]; [auto|right; split; [done|lia]].
    - split; [auto|]. intros [?|[-> ?]]; [done|lia]. }
  assert (NoDup rd1) as Hnd1.
  { unfold rd1. case_decide; [|done]. apply NoDup_app. split; [done|].
    split; [|repeat constructor; set_solver]. intros x Hx ->%list_elem_of_singleton.
    apply (Hdis d); [by left|done]. }
  assert (forall v, v <> d -> count ind1 v = count ind v) as Hcount.
  { intros v Hv. unfold count, ind1. by rewrite lookup_insert_ne. }
  destruct (IH ind1 rd1) as (H1 & H2 & H3); [done| |].
  { intros v Hv. rewrite Hrd1. intros [Hr|[-> _]]; [|done]. apply (Hdis v); [by right|done]. }
  split; [|split; [done|]].
  - intros v. rewrite H1. destruct (decide (v = d)) as [->|Hne].
    + rewrite decide_False by done. rewrite decide_True by left. unfold ind1.
      by rewrite lookup_insert_eq.
    + rewrite Hcount by done. unfold ind1. rewrite lookup_insert_ne by done.
      do 2 case_decide; set_solver.
  - intros v. rewrite H3, Hrd1, elem_of_cons. split.
    + intros [[?|[-> ?]]|[Hv Hc]]; [auto|auto|]. rewrite Hcount in Hc by (intros ->; done). auto.
    + intros [?|[[->|Hv] Hc]]; [auto|auto|]. right. split; [done|].
      rewrite Hcount; [done|]. intros ->; done.
Qed.

(** One address emitted: [E] grows by [r]; the newly ready addresses are
    those whose last pending dependency was [r]. *)
Lemma emit_spec E r ind rd :
  r ∉ E -> indegree_ok E ind -> NoDup rd ->
  (forall v, v ∈ rd -> v ∈ V /\ size (pending E v) = 0) ->
  let out := emit dependents (ind, rd) r in
  indegree_ok ({[r]} ∪ E) out.1 /\ NoDup out.2
  /\ (forall v, v ∈ out.2 <->
        v ∈ rd \/ (v ∈ V /\ r ∈ deps v /\ size (pending ({[r]} ∪ E) v) = 0)).
Proof.
  intros Hr Hind Hrd Hpend. cbv zeta. unfold emit.
  destruct (release_spec (default [] (dependents !! r)) ind rd) as (H1 & H2 & H3); [done..| |].
  { intros v [Hv Hd]%dependents_spec [_ Hp]%Hpend. rewrite (pending_add E v r) in Hp by done. lia. }
  assert (forall v, v ∈ V -> count ind v = Z.of_nat (size (pending E v))) as Hc.
  { intros v Hv. unfold count. by rewrite Hind. }
  split; [|split; [done|]].
  - intros v Hv. rewrite H1. case_decide as Hdec; rewrite dependents_spec in Hdec.
    + rewrite Hc by done. rewrite (pending_add E v r) by tauto. f_equal. lia.
    + rewrite Hind by done. rewrite pending_same by tauto. done.
  - intros v. rewrite H3, dependents_spec. split; [|intros [?|(Hv & Hd & Hp)]; [auto|]].
    + intros [?|[[Hv Hd] Hp]]; [auto|]. right. split; [done|]. split; [done|].
      rewrite Hc, (pending_add E v r) in Hp by done. lia.
    + right. split; [done|]. rewrite Hc, (pending_add E v r) by done. lia.
Qed.

(** A whole wave. *)
Lemma wave_spec E R ind :
  NoDup R -> (forall r, r ∈ R -> r ∉ E) -> indegree_ok E ind ->
  let out := fold_left (emit dependents) R (ind, []) in
  indegree_ok (list_to_set R ∪ E) out.1 /\ NoDup out.2
  /\ (forall v, v ∈ out.2 <->
        v ∈ V /\ size (pending (list_to_set R ∪ E) v) = 0 /\ size (pending E v) <> 0).
Proof.
  intros HR HE Hind. cbv zeta.
  induction R as [|r R IH] using rev_ind.
  { cbn. replace (∅ ∪ E) with E by set_solver. split; [done|]. split; [constructor|]. set_solver. }
  apply NoDup_app in HR as (HR & Hdis & _).
  destruct IH as (H1 & H2 & H3); [done|intros x Hx; apply HE, elem_of_app; by left|].
  rewrite fold_left_app. cbn [fold_left].
  replace (list_to_set (R ++ [r]) ∪ E) with ({[r]} ∪ (list_to_set R ∪ E)) by set_solver.
  destruct (fold_left (emit dependents) R (ind, [])) as [ind1 rd1]. cbn [fst snd] in *.
  set (E1 := list_to_set R ∪ E) in *.
  assert (r ∉ E1) as Hr.
  { unfold E1. rewrite elem_of_union, elem_of_list_to_set. intros [Hin|Hin].
    - apply (Hdis r Hin). by left.
    - apply (HE r); [|done]. apply elem_of_app; right; by left. }
  destruct (emit_spec E1 r ind1 rd1) as (G1 & G2 & G3); [done..| |].
  { intros v [? [? _]]%H3. done. }
  split; [done|]. split; [done|]. intros v. rewrite G3, H3.
  destruct (decide (r ∈ deps v)) as [Hd|Hd].
  - assert (r ∉ E) by (unfold E1 in Hr; set_solver).
    pose proof (pending_add E1 v r Hd Hr). pose proof (pending_add E v r Hd).
    naive_solver lia.
  - rewrite (pending_same E1) by done. naive_solver.
Qed.

(** ** The loop *)

Definition layers (waves : list (list ScheduleItem)) : list (list string) :=
  (fun w : list ScheduleItem => si_Address <$> w) <$> waves.

(** Every dependency of an address of wave [i] is in an earlier wave. *)
Definition layered (ws : list (list string)) : Prop :=
  forall i w v d, ws !! i = Some w -> v ∈ w -> d ∈ deps v ->
    exists j w', j < i /\ ws !! j = Some w' /\ d ∈ w'.

Definition emitted_set (waves : list (list ScheduleItem)) : gset string :=
  list_to_set (concat (layers waves)).

Record loop_ok (ind : gmap string Z) (ready : list string) (waves : list (list ScheduleItem)) : Prop := {
  lo_ind : indegree_ok (emitted_set waves) ind;
  lo_ready_nodup : NoDup ready;
  lo_ready : forall v, v ∈ ready <-> v ∈ V /\ ~ v ∈ emitted_set waves
                                   /\ size (pending (emitted_set waves) v) = 0;
  lo_nodup : NoDup (concat (layers waves));
  lo_sub : emitted_set waves ⊆ V;
  lo_layered : layered (layers waves);
  lo_items : forall w i, w ∈ waves -> i ∈ w -> i = item (si_Address i);
  lo_sorted : forall w, w ∈ waves -> StronglySorted (may_follow item_less) w;
}.
Lemma layers_snoc waves w : layers (waves ++ [w]) = layers waves ++ [si_Address <$> w].
Proof. unfold layers. by rewrite fmap_app. Qed.

Lemma wave_addresses ready :
  (forall v, v ∈ ready -> v ∈ V) -> si_Address <$> sortScheduleItems (item <$> ready) ≡ₚ ready.
Proof.
  intros Hr. unfold sortScheduleItems. rewrite sort_by_perm, <- list_fmap_compose.
  apply reflexive_eq. rewrite <- (list_fmap_id ready) at 2. apply list_fmap_ext.
  intros i v Hv%list_elem_of_lookup_2. apply item_address. auto.
Qed.

Lemma item_less_sorted l : StronglySorted (may_follow item_less) (sortScheduleItems l).
Proof.
  apply sort_by_sorted; unfold item_less; intros *; [apply str_ltb_asym|apply str_not_ltb_trans].
Qed.

Lemma layered_snoc (ws : list (list string)) (w E : list string) :
  layered ws -> (forall v, v ∈ E -> v ∈ concat ws) ->
  (forall v d, v ∈ w -> d ∈ deps v -> d ∈ E) -> layered (ws ++ [w]).
Proof.
  intros Hl HE Hw i w' v d Hi Hv Hd. rewrite lookup_app_Some in Hi.
  destruct Hi as [Hi|[Hlen Hi]].
  - destruct (Hl i w' v d Hi Hv Hd) as (j & wj & Hj & Hlk & Hin). exists j, wj.
    split; [done|]. split; [|done]. rewrite lookup_app_l; [done|]. by eapply lookup_lt_Some.
  - apply list_lookup_singleton_Some in Hi as [Hi ->].
    assert (d ∈ concat ws) as (wj & Hin & Hd')%list_elem_of_In_concat by eauto.
    apply list_elem_of_lookup in Hin as [j Hj]. exists j, wj.
    pose proof (lookup_lt_Some _ _ _ Hj). split; [lia|]. split; [|done].
    by rewrite lookup_app_l.
Qed.

Lemma loop_step ind ready waves :
  loop_ok ind ready waves ->
  let out := fold_left (emit dependents) ready (ind, []) in
  loop_ok out.1 (sortAddressesByOrder out.2 entries)
    (waves ++ [sortScheduleItems (item <$> ready)]).
Proof.
  intros [H1 H2 H3 H4 H5 H6 H7 H8]. cbv zeta. set (E := emitted_set waves) in *.
  destruct (wave_spec E ready ind) as (W1 & W2 & W3); [done|by intros r (_ & ? & _)%H3|done|].
  assert (si_Address <$> sortScheduleItems (item <$> ready) ≡ₚ ready) as Hw.
  { apply wave_addresses. by intros v [? _]%H3. }
  assert (emitted_set (waves ++ [sortScheduleItems (item <$> ready)]) = list_to_set ready ∪ E) as HE.
  { unfold emitted_set. rewrite layers_snoc, concat_app, list_to_set_app_L. cbn.
    rewrite app_nil_r, Hw. set_solver. }
  split; rewrite ?HE.
  - done.
  - by apply NoDup_sort_by.
  - intros v. unfold sortAddressesByOrder. rewrite elem_of_sort_by, W3.
    rewrite elem_of_union, elem_of_list_to_set, H3. split.
    + intros (Hv & Hp & Hq). split; [done|]. split; [|done]. intros [(_ & _ & ?)|Hin]; [done|].
      apply Hq, pending_nil. intros d Hd. unfold E, emitted_set in *.
      rewrite elem_of_list_to_set in *. apply list_elem_of_In_concat in Hin as (w & Hw1 & Hv1).
      apply list_elem_of_lookup in Hw1 as [i Hi].
      destruct (H6 i w v d Hi Hv1 Hd) as (j & wj & _ & Hj & Hdj).
      apply list_elem_of_In_concat. exists wj. split; [by eapply list_elem_of_lookup_2|done].
    + intros (Hv & Hn & Hp). split; [done|]. split; [done|]. intros Hq. apply Hn. left. tauto.
  - rewrite layers_snoc, concat_app. cbn. rewrite app_nil_r, Hw. apply NoDup_app.
    split; [done|]. split; [|done]. intros v Hv [_ [Hn _]]%H3. apply Hn.
    unfold E, emitted_set. by rewrite elem_of_list_to_set.
  - intros v. rewrite elem_of_union, elem_of_list_to_set, H3. set_solver.
  - rewrite layers_snoc. apply (layered_snoc _ _ (elements E)); [done|..].
    + intros v. unfold E, emitted_set. by rewrite elem_of_elements, elem_of_list_to_set.
    + intros v d. rewrite Hw, H3, elem_of_elements. intros (_ & _ & Hp). by apply pending_nil.
  - intros w i [Hin|Hin]%elem_of_app Hi; [by eapply H7|].
    apply list_elem_of_singleton in Hin as ->. unfold sortScheduleItems in Hi.
    rewrite elem_of_sort_by in Hi. apply list_elem_of_fmap in Hi as (v & -> & [Hv _]%H3).
    by rewrite item_address.
  - intros w [Hin|Hin]%elem_of_app; [by apply H8|].
    apply list_elem_of_singleton in Hin as ->. apply item_less_sorted.
Qed.

Definition loop_done (waves : list (list ScheduleItem)) : Prop :=
  (exists ind, loop_ok ind [] waves) .

(** The loop returns before its fuel, one unit per vertex, is used up. *)
Lemma wave_loop_spec f ind ready waves emitted :
  loop_ok ind ready waves -> emitted = size (emitted_set waves) ->
  size V < f + emitted ->
  exists waves' emitted', wave_loop f entries item dependents ind ready waves emitted
      = Ok (waves', emitted')
    /\ loop_done waves' /\ emitted' = size (emitted_set waves').
Proof.
  revert ind ready waves emitted. induction f as [|f IH]; intros ind ready waves emitted Hok He Hf.
  { pose proof (subseteq_size _ _ (lo_sub _ _ _ Hok)). lia. }
  destruct ready as [|r ready]; [exists waves, emitted; repeat split; eauto; by exists ind|].
  cbn [wave_loop].
  pose proof (loop_step _ _ _ Hok) as Hstep. cbv zeta in Hstep.
  destruct (fold_left (emit dependents) (r :: ready) (ind, [])) as [ind' next]. cbn [fst snd] in Hstep.
  assert (size (emitted_set (waves ++ [sortScheduleItems (item <$> r :: ready)]))
          = emitted + length (r :: ready)) as Hsize.
  { unfold emitted_set. rewrite !size_list_to_set by (first [apply Hstep|apply Hok]).
    rewrite layers_snoc, concat_app, length_app. cbn [concat]. rewrite app_nil_r.
    rewrite He. unfold emitted_set. rewrite size_list_to_set by apply Hok. f_equal.
    apply Permutation_length, wave_addresses. intros v Hv. by apply (lo_ready _ _ _ Hok). }
  apply IH; [done|by rewrite Hsize|cbn in *; lia].
Qed.

Lemma done_complete waves :
  loop_done waves -> (forall v, v ∈ V -> Acc (fun d v => d ∈ deps v) v) -> (emitted_set waves) = V.
Proof using deps_in.
  intros [ind Hok] Hacc. apply set_eq. intros v. split; [apply (lo_sub _ _ _ Hok)|].
  intros Hv. specialize (Hacc v Hv). induction Hacc as [v _ IH].
  destruct (decide (v ∈ emitted_set waves)) as [|Hn]; [done|]. exfalso.
  assert (v ∉ []) as Hnil by apply not_elem_of_nil. rewrite (lo_ready _ _ _ Hok) in Hnil. apply Hnil.
  split; [done|]. split; [done|]. apply pending_nil. intros d Hd.
  apply (IH d Hd). by apply (deps_in v).
Qed.

Lemma done_acyclic waves :
  loop_done waves -> emitted_set waves = V ->
  forall v, v ∈ V -> Acc (fun d v => d ∈ deps v) v.
Proof using Type.
  intros [ind Hok] HV v Hv. rewrite <- HV in Hv. unfold emitted_set in Hv. rewrite elem_of_list_to_set in Hv.
  apply list_elem_of_In_concat in Hv as (w & Hw & Hv). apply list_elem_of_lookup in Hw as [i Hi].
  revert w v Hi Hv. induction (lt_wf i) as [i _ IH]. intros w v Hi Hv. constructor. intros d Hd.
  destruct (lo_layered _ _ _ Hok i w v d Hi Hv Hd) as (j & wj & Hj & Hlk & Hin).
  exact (IH j Hj wj d Hlk Hin).
Qed.
End kahn.

(** ** Well-formed graphs *)

(** Addresses with their declared dependencies, nodes before operations. *)
Definition graph_vertices (g : ResourceGraph) : list (string * list string) :=
  ((fun n => (n_Address n, n_DependsOn n)) <$> g_Nodes g)
  ++ ((fun op => (op_Address op, op_DependsOn op)) <$> g_Operations g).

Definition addresses (g : ResourceGraph) : list string := (graph_vertices g).*1.

Definition graph_edge (g : ResourceGraph) (a b : string) : Prop :=
  exists ds, (a, ds) ∈ graph_vertices g /\ b ∈ ds /\ b <> "".

Record graph_wf (g : ResourceGraph) : Prop := {
  gw_nodup : NoDup (addresses g);
  gw_nonempty : "" ∉ addresses g;
  gw_hosts : Forall (fun op => op_Host op <> "") (g_Operations g);
  gw_deps : forall a b, graph_edge g a b -> b ∈ addresses g;
  gw_triggers : forall op t, op ∈ g_Operations g -> t ∈ op_TriggeredBy op -> t <> "" ->
    t ∈ addresses g;
}.

(** The entries built so far represent the vertices seen so far. *)
Record built (vs : list (string * list string)) (entries : entry_map) : Prop := {
  bu_nodup : NoDup vs.*1;
  bu_sound : forall a e, entries !! a = Some e ->
    a <> "" /\ si_Address (se_item e) = a
    /\ exists ds, (a, ds) ∈ vs /\ se_dependsOn e = dedupeStrings ds;
  bu_complete : forall a, a ∈ vs.*1 -> is_Some (entries !! a);
}.

Lemma built_nil : built [] ∅.
Proof. split; [constructor|set_solver|set_solver]. Qed.

Lemma built_fresh vs entries a : built vs entries -> entries !! a = None <-> a ∉ vs.*1.
Proof.
  intros [Hn Hs Hc]. split.
  - intros Ha Hin. apply Hc in Hin as [? ?]. congruence.
  - intros Ha. destruct (entries !! a) as [e|] eqn:E; [|done]. apply Hs in E as (_ & _ & ds & Hin & _).
    destruct Ha. apply list_elem_of_fmap. by exists (a, ds).
Qed.

Lemma built_snoc vs entries a ds e :
  built vs entries -> a <> "" -> entries !! a = None -> si_Address (se_item e) = a ->
  se_dependsOn e = dedupeStrings ds -> built (vs ++ [(a, ds)]) (<[a := e]> entries).
Proof.
  intros Hb Hne Hfresh Ha Hds. pose proof Hfresh as Hn. rewrite (built_fresh _ _ _ Hb) in Hn.
  destruct Hb as [H1 H2 H3]. split.
  - rewrite fmap_app. apply NoDup_app. split; [done|].
    split; [set_solver|repeat constructor; set_solver].
  - intros b eb. rewrite lookup_insert_Some. intros [[<- <-]|[_ Hb]].
    + split; [done|]. split; [done|]. exists ds. split; [set_solver|done].
    + apply H2 in Hb as (? & ? & db & ? & ?). split; [done|]. split; [done|].
      exists db. split; [set_solver|done].
  - intros b. rewrite fmap_app, elem_of_app. cbn. rewrite list_elem_of_singleton.
    destruct (decide (b = a)) as [->|]; [rewrite lookup_insert_eq; eauto|].
    rewrite lookup_insert_ne by done. naive_solver.
Qed.

Section add.
(** The two loops of [scheduleEntries] have one shape. *)
Context {A : Type} (add : entry_map * nat -> A -> result schedule_error (entry_map * nat))
        (vertex : A -> string * list string) (entry : A -> nat -> scheduleEntry) (ok : A -> Prop).
Context (entry_address : forall x o, si_Address (se_item (entry x o)) = (vertex x).1).
Context (entry_deps : forall x o, se_dependsOn (entry x o) = dedupeStrings (vertex x).2).
Context (add_spec : forall entries order x acc,
  add (entries, order) x = Ok acc <->
  ok x /\ (vertex x).1 <> "" /\ entries !! (vertex x).1 = None
  /\ acc = (<[(vertex x).1 := entry x order]> entries, S order)).

Lemma add_loop_inv xs entries order entries' order' vs :
  built vs entries -> fold_res add xs (entries, order) = Ok (entries', order') ->
  built (vs ++ (vertex <$> xs)) entries' /\ Forall ok xs /\ "" ∉ (vertex <$> xs).*1.
Proof.
  revert entries order vs. induction xs as [|x xs IH]; intros entries order vs Hb; cbn [fold_res].
  - intros [= <- <-]. cbn. rewrite app_nil_r. split; [done|]. split; [constructor|set_solver].
  - destruct (add (entries, order) x) as [acc|] eqn:E; [|done]. intros Hrun.
    apply add_spec in E as (Hok & Hne & Hfresh & ->).
    apply (IH _ _ (vs ++ [vertex x])) in Hrun as (Hb' & Hall & Hnil).
    + rewrite <- app_assoc in Hb'. split; [done|]. split; [by constructor|].
      rewrite !fmap_cons, not_elem_of_cons. split; [done|done].
    + pose proof (entry_address x order) as Ha. pose proof (entry_deps x order) as Hd.
      destruct (vertex x) as [a ds]. by apply built_snoc.
Qed.

Lemma add_loop_ok xs entries order vs :
  built vs entries -> NoDup (vs ++ (vertex <$> xs)).*1 -> "" ∉ (vertex <$> xs).*1 ->
  Forall ok xs -> exists acc, fold_res add xs (entries, order) = Ok acc.
Proof.
  revert entries order vs. induction xs as [|x xs IH]; intros entries order vs Hb Hnd Hne Hall; [by eexists|].
  apply Forall_cons in Hall as [Hx Hall].
  rewrite !fmap_cons, not_elem_of_cons in Hne. destruct Hne as [Hne Hnes].
  assert (entries !! (vertex x).1 = None) as Hfresh.
  { rewrite (built_fresh _ _ _ Hb). rewrite fmap_app, fmap_cons, fmap_cons in Hnd.
    apply NoDup_app in Hnd as (_ & Hdis & _). intros Hin. apply (Hdis _ Hin). by left. }
  cbn [fold_res]. rewrite (proj2 (add_spec _ _ _ _) (conj Hx (conj (not_eq_sym Hne) (conj Hfresh eq_refl)))).
  apply (IH _ _ (vs ++ [vertex x])); [|by rewrite <- app_assoc|done..].
  pose proof (entry_address x order) as Ha. pose proof (entry_deps x order) as Hd.
  destruct (vertex x) as [a ds]. by apply built_snoc.
Qed.
End add.

Lemma add_node_spec entries order n acc :
  add_node (entries, order) n = Ok acc <->
  n_Address n <> "" /\ entries !! n_Address n = None
  /\ acc = (<[n_Address n := node_entry n order]> entries, S order).
Proof.
  unfold add_node. rewrite bind_Ok. setoid_rewrite guard_or_Ok.
  setoid_rewrite bool_decide_eq_true. split.
  - intros (_ & Hne & H). destruct (entries !! _); [done|]. by injection H as <-.
  - intros (Hne & -> & ->). by exists tt.
Qed.

Lemma add_operation_spec entries order op acc :
  add_operation (entries, order) op = Ok acc <->
  op_Address op <> "" /\ op_Host op <> "" /\ entries !! op_Address op = None
  /\ acc = (<[op_Address op := operation_entry op order]> entries, S order).
Proof.
  unfold add_operation. rewrite bind_Ok. setoid_rewrite bind_Ok. setoid_rewrite guard_or_Ok.
  setoid_rewrite bool_decide_eq_true. split.
  - intros (_ & Hne & _ & Hh & H). destruct (entries !! _); [done|]. by injection H as <-.
  - intros (Hne & Hh & -> & ->). exists tt. split; [done|]. by exists tt.
Qed.

Definition node_vertex (n : Node) : string * list string := (n_Address n, n_DependsOn n).
Definition operation_vertex (op : Operation) : string * list string := (op_Address op, op_DependsOn op).

Lemma check_known_Ok entries err dep :
  check_known entries err tt dep = Ok tt <-> is_Some (entries !! dep).
Proof. unfold check_known. destruct (entries !! dep); split; intros H; first [done | by eexists | by destruct H]. Qed.

(** What a successful [scheduleEntries] returns. *)
Record entries_wf (g : ResourceGraph) (entries : entry_map) : Prop := {
  ew_built : built (graph_vertices g) entries;
  ew_closed : forall a b, edge entries a b -> is_Some (entries !! b);
}.

Lemma edge_iff g entries a b : built (graph_vertices g) entries -> edge entries a b <-> graph_edge g a b.
Proof.
  intros [Hnd Hs Hc]. unfold edge, deps_of, graph_edge. split.
  - destruct (entries !! a) as [e|] eqn:E; cbn; [|set_solver].
    apply Hs in E as (_ & _ & ds & Hin & ->). rewrite elem_of_dedupeStrings. exists ds. tauto.
  - intros (ds & Hin & Hb & Hne). destruct (Hc a) as [e E].
    { apply list_elem_of_fmap. by exists (a, ds). }
    rewrite E. cbn. apply Hs in E as (_ & _ & ds' & Hin' & ->).
    assert ((a, ds') = (a, ds)) as [= ->] by (by eapply (NoDup_fmap_eq fst)).
    by apply elem_of_dedupeStrings.
Qed.

Lemma built_dom vs entries : built vs entries -> dom entries = list_to_set vs.*1.
Proof.
  intros Hb. apply set_eq. intros a. rewrite elem_of_dom, elem_of_list_to_set.
  rewrite <- not_eq_None_Some, (built_fresh _ _ _ Hb).
  split; [|tauto]. intros H. destruct (decide (a ∈ vs.*1)); tauto.
Qed.

Lemma scheduleEntries_inv g entries :
  scheduleEntries g = Ok entries -> graph_wf g /\ entries_wf g entries.
Proof.
  unfold scheduleEntries. intros H. res_inv. destruct x as [e0 o0], x0 as [e1 o1]. res_inv.
  rename H0 into Hn, H1 into Ho, H2 into Hc, H3 into Ht. destruct x, x0.
  apply (add_loop_inv add_node node_vertex node_entry (fun _ => True)) with (vs := []) in Hn
    as (Hb0 & _ & Hn0); [|done|done|intros; rewrite add_node_spec; tauto|apply built_nil].
  apply (add_loop_inv add_operation operation_vertex operation_entry (fun op => op_Host op <> ""))
    with (vs := node_vertex <$> g_Nodes g) in Ho as (Hb & Hhosts & Hn1);
    [|done|done|intros; rewrite add_operation_spec; tauto|done].
  change (built (graph_vertices g) entries) in Hb. rewrite fold_res_check in Hc. rewrite fold_res_check in Ht.
  assert (forall a b, edge entries a b -> is_Some (entries !! b)) as Hclosed.
  { intros a b. unfold edge, deps_of. destruct (entries !! a) as [e|] eqn:E; cbn; [|set_solver].
    intros Hin. specialize (Hc (a, e)). rewrite elem_of_map_to_list in Hc. specialize (Hc E).
    unfold check_entry in Hc. rewrite fold_res_check in Hc. by apply (check_known_Ok _ (DependsOnUnknown a)), Hc. }
  assert (forall a, is_Some (entries !! a) -> a ∈ addresses g) as Hdom.
  { intros a. rewrite <- elem_of_dom, (built_dom _ _ Hb). apply elem_of_list_to_set. }
  split; [|by split]. split.
  - apply Hb.
  - unfold addresses, graph_vertices. rewrite fmap_app, elem_of_app. intros [H|H]; [by apply Hn0|by apply Hn1].
  - done.
  - intros a b Hab. apply Hdom, (Hclosed a). by rewrite (edge_iff g).
  - intros op t Hop Hin Hne. apply Hdom. specialize (Ht op Hop). unfold check_triggers in Ht.
    rewrite fold_res_check in Ht. apply (check_known_Ok _ (TriggeredByUnknown (op_Address op))), Ht.
    by apply elem_of_dedupeStrings.
Qed.

Lemma scheduleEntries_ok g : graph_wf g -> exists entries, scheduleEntries g = Ok entries.
Proof.
  intros [Hnd Hne Hhosts Hdeps Htrig]. unfold scheduleEntries.
  unfold addresses, graph_vertices in Hnd, Hne. pose proof Hnd as Hnd'.
  rewrite fmap_app in Hnd, Hne. apply NoDup_app in Hnd as (HndN & _ & _).
  rewrite elem_of_app in Hne.
  destruct (add_loop_ok add_node node_vertex node_entry (fun _ => True)) with
    (xs := g_Nodes g) (entries := ∅ : entry_map) (order := 0) (vs := @nil (string * list string))
    as [[e0 o0] E0];
    [done|done|intros; rewrite add_node_spec; tauto|apply built_nil|done|tauto|by apply Forall_true|].
  rewrite E0, Ok_bind.
  apply (add_loop_inv add_node node_vertex node_entry (fun _ => True)) with (vs := []) in E0
    as (Hb0 & _ & _); [|done|done|intros; rewrite add_node_spec; tauto|apply built_nil].
  destruct (add_loop_ok add_operation operation_vertex operation_entry (fun op => op_Host op <> ""))
    with (xs := g_Operations g) (entries := e0) (order := o0) (vs := node_vertex <$> g_Nodes g)
    as [[e1 o1] E1]; [done|done|intros; rewrite add_operation_spec; tauto|done|done|tauto|done|].
  rewrite E1, Ok_bind.
  apply (add_loop_inv add_operation operation_vertex operation_entry (fun op => op_Host op <> ""))
    with (vs := node_vertex <$> g_Nodes g) in E1 as (Hb & _ & _);
    [|done|done|intros; rewrite add_operation_spec; tauto|done].
  change (built (graph_vertices g) e1) in Hb.
  assert (fold_res (check_entry e1) (map_to_list e1) tt = Ok tt) as ->.
  { apply fold_res_check. intros [a e] Ha%elem_of_map_to_list. apply fold_res_check.
    intros b Hin. apply check_known_Ok, Hb, (Hdeps a). rewrite <- (edge_iff g e1) by done.
    unfold edge, deps_of. by rewrite Ha. }
  assert (fold_res (check_triggers e1) (g_Operations g) tt = Ok tt) as ->; [|by eexists].
  apply fold_res_check. intros op Hop. apply fold_res_check. intros t.
  rewrite elem_of_dedupeStrings, check_known_Ok. intros [Hin Hn]. apply Hb. by apply (Htrig op).
Qed.

(** [Validate] decides well-formedness and acyclicity. *)
Lemma Validate_inv g entries :
  scheduleEntries g = Ok entries ->
  match validateAcyclic entries with
  | Ok _ => forall a, a ∈ addresses g -> finished entries a
  | Err e => cycle_found entries e
  end.
Proof.
  intros [Hwf [Hb Hcl]]%scheduleEntries_inv.
  pose proof (validateAcyclic_post entries Hcl) as Hp.
  destruct (validateAcyclic entries) as [u|]; [|done]. intros a Ha. apply Hp, Hb, Ha.
Qed.

Lemma tc_edge_graph g entries a b :
  built (graph_vertices g) entries -> tc (edge entries) a b -> tc (graph_edge g) a b.
Proof.
  intros Hb. induction 1 as [x y Hxy|x y z Hxy _ IH]; rewrite (edge_iff g) in Hxy by done;
    [by apply tc_once|by eapply tc_l].
Qed.

Lemma tc_graph_edge g entries a b :
  built (graph_vertices g) entries -> tc (graph_edge g) a b -> tc (edge entries) a b.
Proof.
  intros Hb. induction 1 as [x y Hxy|x y z Hxy _ IH]; rewrite <- (edge_iff g entries) in Hxy by done;
    [by apply tc_once|by eapply tc_l].
Qed.

Lemma graph_edge_source g a b : graph_edge g a b -> a ∈ addresses g.
Proof. intros (ds & Hin & _). apply list_elem_of_fmap. by exists (a, ds). Qed.
