(* ===== verification/ScheduleProps.v ===== *)
(** * Properties of the resource-graph scheduler *)
From S2P Require Import Prelude Sha256 GoValue IR Graph Schedule ScheduleGraph.
From S2P Require Import ScheduleGraph.

(** ** Selecting the entries of a run

    [activeEntries] and the counting pass establish the hypotheses of the wave
    loop; [scheduleWavesWithAliases] then succeeds exactly when the selected
    dependency relation is well founded. *)

Section count.
Context (active : activation) (aliases : gmap string string) (useAll : bool).

Definition entry_deps (e : scheduleEntry) : list string :=
  activeDependenciesWithAliases (se_dependsOn e) active aliases useAll.

Lemma add_dependents_spec (address : string) (ds : list string) (m : gmap string (list string)) d :
  NoDup ds ->
  default [] (fold_left (fun m dep => <[dep := default [] (m !! dep) ++ [address]]> m) ds m !! d)
  = default [] (m !! d) ++ (if decide (d ∈ ds) then [address] else []).
Proof.
  intros Hnd. revert m. induction Hnd as [|x ds Hx Hnd IH]; intros m; cbn [fold_left].
  { rewrite decide_False by set_solver. by rewrite app_nil_r. }
  rewrite IH. destruct (decide (d = x)) as [->|Hne].
  - rewrite lookup_insert_eq. cbn. rewrite decide_False by done.
    rewrite decide_True by left. by rewrite app_nil_r.
  - rewrite lookup_insert_ne by done. f_equal. do 2 case_decide; set_solver.
Qed.

Lemma count_entry_spec l :
  NoDup l.*1 -> (forall p, p ∈ l -> NoDup (entry_deps p.2)) ->
  (forall p, p ∈ l -> useAll = false -> is_active active p.1 = true) ->
  let out := fold_left (count_entry active aliases useAll) l (∅, ∅) in
  (forall v, out.1 !! v
     = (fun e => Z.of_nat (length (entry_deps e))) <$> (list_to_map l : entry_map) !! v)
  /\ (forall d, default [] (out.2 !! d) = (filter (fun p => d ∈ entry_deps p.2) l).*1).
Proof.
  induction l as [|[a e] l IH] using rev_ind; intros Hnd Hds Hact; cbv zeta.
  { cbn. split; intros; by rewrite lookup_empty. }
  rewrite fmap_app in Hnd. apply NoDup_app in Hnd as (Hnd & Hfresh & _).
  destruct IH as [H1 H2]; [done|intros; apply Hds; set_solver|intros; apply Hact; set_solver|].
  assert ((a, e) ∈ l ++ [(a, e)]) as Hin by set_solver.
  rewrite fold_left_app. cbn [fold_left].
  destruct (fold_left (count_entry active aliases useAll) l (∅, ∅)) as [ind dependents].
  cbn [fst snd] in *. unfold count_entry.
  assert (negb useAll && negb (is_active active a) = false) as ->.
  { destruct useAll; [done|]. pose proof (Hact _ Hin eq_refl) as Ha. cbn in Ha. by rewrite Ha. }
  cbn [fst snd]. split.
  - intros v. rewrite list_to_map_app. destruct (decide (v = a)) as [->|Hne].
    + rewrite lookup_insert_eq. rewrite lookup_union_r; [cbn; by rewrite lookup_insert_eq|].
      apply not_elem_of_list_to_map_1. intros Ha. apply (Hfresh a Ha). by left.
    + rewrite lookup_insert_ne, H1 by done. f_equal. cbn.
      destruct ((list_to_map l : entry_map) !! v) as [ev|] eqn:Ev.
      * symmetry. by apply lookup_union_Some_l.
      * rewrite lookup_union_r by done. by rewrite lookup_insert_ne.
  - intros d. rewrite add_dependents_spec by (by apply (Hds _ Hin)).
    rewrite H2, filter_app, fmap_app. f_equal. rewrite filter_cons. cbn.
    fold (entry_deps e). by case_decide.
Qed.
End count.

(** *** Dependencies restricted to the active set *)

Lemma activeDependencies_all deps active : activeDependencies deps active true = deps.
Proof. unfold activeDependencies. by apply list_filter_all_true. Qed.

Lemma elem_of_active_deps deps set aliases d :
  d ∈ activeDependenciesWithAliases deps (Some set) aliases false <->
  d <> "" /\ d ∈ set /\ (d ∈ deps \/ exists dep, dep ∈ deps /\ ~ dep ∈ set /\ aliases !! d = Some dep).
Proof.
  unfold activeDependenciesWithAliases. rewrite elem_of_dedupeStrings, list_elem_of_In_concat.
  assert (forall dep, d ∈ alias_dependencies (Some set) aliases dep <->
    d ∈ set /\ ((dep = d /\ d ∈ set) \/ (~ dep ∈ set /\ aliases !! d = Some dep))) as Halias.
  { intros dep. unfold alias_dependencies, is_active. case_bool_decide as Hdep.
    - rewrite list_elem_of_singleton. split; [intros ->; auto|]. intros [_ [[-> _]|[? _]]]; done.
    - rewrite list_elem_of_fmap. setoid_rewrite list_elem_of_filter.
      setoid_rewrite bool_decide_eq_true. split.
      + intros ([k v] & -> & [Hv Hk] & Hin%elem_of_map_to_list). cbn in *. subst v. auto.
      + intros [Hd [[-> _]|[_ Ha]]]; [done|]. exists (d, dep). split; [done|].
        by rewrite elem_of_map_to_list. }
  split.
  - intros [(l & (dep & -> & Hdep)%list_elem_of_fmap & Hd) Hne]. apply Halias in Hd.
    split; [done|]. destruct Hd as [Hs [[-> _]|[? ?]]]; eauto 8.
  - intros (Hne & Hs & Hd). split; [|done]. destruct Hd as [Hd|(dep & Hdep & Hn & Ha)].
    + exists (alias_dependencies (Some set) aliases d). split; [by apply list_elem_of_fmap_2|].
      apply Halias. auto.
    + exists (alias_dependencies (Some set) aliases dep). split; [by apply list_elem_of_fmap_2|].
      apply Halias. auto.
Qed.

(** Filtering a second time changes nothing. *)
Lemma active_deps_idemp deps set aliases :
  activeDependenciesWithAliases (activeDependenciesWithAliases deps (Some set) aliases false)
    (Some set) aliases false
  = activeDependenciesWithAliases deps (Some set) aliases false.
Proof.
  set (l := activeDependenciesWithAliases deps (Some set) aliases false).
  assert (NoDup l) as Hnd by apply NoDup_dedupeStrings.
  assert (forall d, d ∈ l -> d <> "" /\ d ∈ set) as Hin.
  { intros d (? & ? & _)%elem_of_active_deps. done. }
  clearbody l. unfold activeDependenciesWithAliases.
  assert (concat (alias_dependencies (Some set) aliases <$> l) = l) as ->.
  { clear Hnd. induction l as [|d l IH]; [done|]. cbn. rewrite IH by (intros; apply Hin; by right).
    unfold alias_dependencies, is_active. rewrite bool_decide_true; [done|]. apply Hin. by left. }
  apply dedupeStrings_id; [done|]. intros H. by apply Hin in H as [? _].
Qed.

(** *** Selected entries *)

Section activate.
Context (entries : entry_map) (set : gset string) (aliases : gmap string string)
        (aliasDependsOn : gmap string (list string)).

Definition declared_deps (address : string) (entry : scheduleEntry) : list string :=
  match aliasDependsOn !! address with
  | Some deps => dedupeStrings deps
  | None => se_dependsOn entry
  end.

Definition activated (address : string) (entry : scheduleEntry) : scheduleEntry :=
  {| se_item := set_si_Address address (se_item entry);
     se_dependsOn := activeDependenciesWithAliases (declared_deps address entry) (Some set) aliases false;
     se_order := se_order entry; se_source := se_source entry;
     se_dependencySources := se_dependencySources entry |}.

Lemma activate_loop l out sel :
  fold_res (activate entries (Some set) aliases aliasDependsOn) l out = Ok sel -> NoDup l ->
  (forall v, v ∈ l -> exists e, scheduleEntryForActiveAddress entries aliases v = Some e
                        /\ sel !! v = Some (activated v e))
  /\ (forall v, v ∉ l -> sel !! v = out !! v).
Proof.
  revert out. induction l as [|a l IH]; intros out; cbn [fold_res].
  { intros [= <-] _. split; [set_solver|done]. }
  unfold activate at 1. destruct (scheduleEntryForActiveAddress entries aliases a) as [e|] eqn:E;
    [cbn [of_option]; rewrite Ok_bind|done].
  intros Hrun [Ha Hnd]%NoDup_cons. apply IH in Hrun as [H1 H2]; [|done]. split.
  - intros v [->|Hv]%elem_of_cons; [|by apply H1]. exists e. split; [done|].
    rewrite H2 by done. by rewrite lookup_insert_eq.
  - intros v [Hne Hv]%not_elem_of_cons. rewrite H2 by done. by rewrite lookup_insert_ne.
Qed.

Lemma activate_loop_ok l out :
  (forall v, v ∈ l -> is_Some (scheduleEntryForActiveAddress entries aliases v)) ->
  exists sel, fold_res (activate entries (Some set) aliases aliasDependsOn) l out = Ok sel.
Proof.
  revert out. induction l as [|a l IH]; intros out Hl; cbn [fold_res]; [by eexists|].
  unfold activate at 1. destruct (Hl a) as [e ->]; [by left|]. cbn [of_option]. rewrite Ok_bind.
  apply IH. intros v Hv. apply Hl. by right.
Qed.

(** The entries of a run with an explicit active set. *)
Lemma activeEntries_Some_inv sel :
  activeEntries entries (Some set) aliases aliasDependsOn = Ok sel ->
  dom sel = set /\ forall v, v ∈ set ->
    exists e, scheduleEntryForActiveAddress entries aliases v = Some e
              /\ sel !! v = Some (activated v e).
Proof.
  unfold activeEntries. intros H. res_inv. apply activate_loop in H as [H1 H2]; [|apply NoDup_elements].
  setoid_rewrite elem_of_elements in H1. setoid_rewrite elem_of_elements in H2. split; [|done].
  apply set_eq. intros v. rewrite elem_of_dom. split.
  - intros [e He]. destruct (decide (v ∈ set)); [done|]. by rewrite H2 in He.
  - intros Hv. destruct (H1 v Hv) as (e & _ & ->). eauto.
Qed.

Lemma activeEntries_Some_ok :
  (forall v, v ∈ set -> is_Some (scheduleEntryForActiveAddress entries aliases v)) ->
  exists sel, activeEntries entries (Some set) aliases aliasDependsOn = Ok sel.
Proof.
  intros H. unfold activeEntries.
  assert (fold_res (check_active entries aliases) (elements set) tt = Ok tt) as ->.
  { apply fold_res_check. intros v Hv%elem_of_elements. unfold check_active.
    by destruct (H v Hv) as [e ->]. }
  apply activate_loop_ok. setoid_rewrite elem_of_elements. done.
Qed.
End activate.

(** What the wave loop needs of the selected entries. *)
Definition selected_ok (active : activation) (aliases : gmap string string) (useAll : bool)
    (sel : entry_map) : Prop :=
  forall v e, sel !! v = Some e ->
    si_Address (se_item e) = v /\ NoDup (entry_deps active aliases useAll e)
    /\ (forall d, d ∈ entry_deps active aliases useAll e -> is_Some (sel !! d))
    /\ (useAll = false -> is_active active v = true).

Lemma selected_None g entries aliases ad sel :
  scheduleEntries g = Ok entries -> activeEntries entries None aliases ad = Ok sel ->
  sel = entries /\ selected_ok None aliases true entries.
Proof.
  intros [_ [Hb Hcl]]%scheduleEntries_inv [= <-]. split; [done|]. intros v e Hv.
  assert (entry_deps None aliases true e = se_dependsOn e) as -> by apply activeDependencies_all.
  pose proof (bu_sound _ _ Hb v e Hv) as (_ & Ha & ds & _ & E). split; [done|].
  split; [rewrite E; auto with dbf|]. split; [|done]. intros d Hd. apply (Hcl v).
  unfold edge, deps_of. by rewrite Hv.
Qed.

Lemma selected_Some entries set aliases ad sel :
  activeEntries entries (Some set) aliases ad = Ok sel ->
  dom sel = set /\ selected_ok (Some set) aliases false sel.
Proof.
  intros [Hdom Hsel]%activeEntries_Some_inv. split; [done|]. intros v e Hv.
  assert (v ∈ set) as Hin by (rewrite <- Hdom; apply elem_of_dom; eauto).
  destruct (Hsel v Hin) as (e0 & _ & He). rewrite Hv in He. injection He as ->.
  split; [done|]. split; [apply NoDup_dedupeStrings|]. split.
  - intros d (_ & Hd & _)%elem_of_active_deps. by rewrite <- elem_of_dom, Hdom.
  - intros _. by apply bool_decide_eq_true.
Qed.

Section run.
Context (g : ResourceGraph) (active : activation) (aliases : gmap string string)
        (aliasDependsOn : gmap string (list string)) (entries sel : entry_map).
Context (Hentries : scheduleEntries g = Ok entries).
Context (Hacyclic : validateAcyclic entries = Ok tt).
Context (Hsel : activeEntries entries active aliases aliasDependsOn = Ok sel).

Let useAll : bool := bool_decide (active = None).

(** The dependencies a run enforces. *)
Definition run_deps (v : string) : list string :=
  entry_deps active aliases useAll (default zero_entry (sel !! v)).

Definition run_item : string -> ScheduleItem :=
  wave_item (if useAll then entries else sel) active aliases useAll.

Lemma sel_ok : selected_ok active aliases useAll sel /\ (useAll = true -> sel = entries).
Proof.
  unfold useAll. destruct active as [set|].
  - rewrite bool_decide_false by done. by apply selected_Some in Hsel as [_ ?].
  - rewrite bool_decide_true by done. by eapply selected_None in Hsel as [-> ?].
Qed.

Lemma run_item_eq v : run_item v = wave_item sel active aliases useAll v.
Proof.
  unfold run_item. destruct sel_ok as [_ Heq]. destruct useAll; [by rewrite Heq|done].
Qed.

Lemma run_deps_spec v : v ∈ dom sel ->
  exists e, sel !! v = Some e /\ run_deps v = entry_deps active aliases useAll e.
Proof. intros [e He]%elem_of_dom. exists e. split; [done|]. unfold run_deps. by rewrite He. Qed.

Let counted := fold_left (count_entry active aliases useAll) (map_to_list sel) (∅, ∅).

Lemma counted_spec :
  (forall v, counted.1 !! v
     = (fun e => Z.of_nat (length (entry_deps active aliases useAll e))) <$> sel !! v)
  /\ (forall d v, v ∈ default [] (counted.2 !! d) <-> v ∈ dom sel /\ d ∈ run_deps v)
  /\ (forall d, NoDup (default [] (counted.2 !! d))).
Proof.
  destruct sel_ok as [Hok _].
  destruct (count_entry_spec active aliases useAll (map_to_list sel)) as [H1 H2].
  { apply NoDup_fst_map_to_list. }
  { intros [v e] Hv%elem_of_map_to_list. by apply (Hok v e). }
  { intros [v e] Hv%elem_of_map_to_list. by apply (Hok v e). }
  unfold counted. split; [|split].
  - intros v. by rewrite H1, list_to_map_to_list.
  - intros d v. rewrite H2, list_elem_of_fmap. setoid_rewrite list_elem_of_filter. split.
    + intros ([k e] & -> & [Hd Hin%elem_of_map_to_list]). cbn in *.
      split; [by eapply elem_of_dom_2|]. unfold run_deps. by rewrite Hin.
    + intros [Hv Hd]. apply run_deps_spec in Hv as (e & He & E). exists (v, e).
      rewrite elem_of_map_to_list. rewrite E in Hd. done.
  - intros d. rewrite H2. apply NoDup_fmap_fst; [|apply NoDup_filter, NoDup_map_to_list].
    intros k e1 e2 [_ H%elem_of_map_to_list]%list_elem_of_filter.
    intros [_ H'%elem_of_map_to_list]%list_elem_of_filter. congruence.
Qed.

(** The promise of a schedule: every selected address once, each after its
    dependencies, waves sorted by address. *)
Record schedule_ok (waves : list (list ScheduleItem)) : Prop := {
  sk_perm : concat (layers waves) ≡ₚ elements (dom sel);
  sk_layered : layered run_deps (layers waves);
  sk_items : forall w i, w ∈ waves -> i ∈ w -> i = run_item (si_Address i);
  sk_sorted : forall w, w ∈ waves -> StronglySorted (may_follow item_less) w;
}.

Definition well_founded_deps : Prop :=
  forall v, v ∈ dom sel -> Acc (fun d v => d ∈ run_deps v) v.

Lemma run_item_address v : v ∈ dom sel -> si_Address (run_item v) = v.
Proof.
  intros [e He]%elem_of_dom. rewrite run_item_eq. unfold wave_item. rewrite He. cbn.
  by apply (proj1 sel_ok v e).
Qed.

Lemma run_deps_in v d : v ∈ dom sel -> d ∈ run_deps v -> d ∈ dom sel.
Proof.
  intros (e & He & ->)%run_deps_spec Hd. apply elem_of_dom. by apply (proj1 sel_ok v e).
Qed.

Lemma run_pending v : v ∈ dom sel -> size (pending run_deps ∅ v) = length (run_deps v).
Proof.
  intros Hv. unfold pending. rewrite difference_empty_L, size_list_to_set; [done|].
  apply run_deps_spec in Hv as (e & He & ->). by apply (proj1 sel_ok v e).
Qed.

Lemma elem_of_sortedReady v :
  v ∈ sortedReady counted.1 sel <-> v ∈ dom sel /\ run_deps v = [].
Proof.
  destruct counted_spec as (H1 & _). unfold sortedReady, sortAddressesByOrder.
  rewrite elem_of_sort_by, list_elem_of_fmap. setoid_rewrite list_elem_of_filter. split.
  - intros ([k z] & -> & [Hz Hi%elem_of_map_to_list]). cbn in *. subst z.
    rewrite H1 in Hi. apply fmap_Some in Hi as (e & He & Hl).
    split; [by eapply elem_of_dom_2|]. unfold run_deps. rewrite He. cbn.
    apply nil_length_inv. lia.
  - intros (Hv & Hp). apply run_deps_spec in Hv as (e & He & E). exists (v, 0%Z).
    split; [done|]. split; [done|]. rewrite elem_of_map_to_list, H1, He. cbn.
    by rewrite <- E, Hp.
Qed.

Lemma NoDup_sortedReady ind : NoDup (sortedReady ind sel).
Proof.
  apply NoDup_sort_by, NoDup_fmap_fst; [|apply NoDup_filter, NoDup_map_to_list].
  intros k e1 e2 [_ Ha%elem_of_map_to_list]%list_elem_of_filter.
  intros [_ Hb%elem_of_map_to_list]%list_elem_of_filter. congruence.
Qed.

Lemma initial_loop :
  loop_ok run_item (dom sel) run_deps counted.1 (sortedReady counted.1 sel) [].
Proof.
  split.
  - intros v Hv. change (emitted_set []) with (∅ : gset string). rewrite run_pending by done.
    rewrite (proj1 counted_spec). by apply run_deps_spec in Hv as (e & -> & ->).
  - apply NoDup_sortedReady.
  - intros v. rewrite elem_of_sortedReady. change (emitted_set []) with (∅ : gset string).
    split; intros [Hv Hp]; (split; [done|]); [|destruct Hp as [_ Hp]];
      rewrite run_pending in * by done.
    + rewrite Hp. split; [apply not_elem_of_empty|done].
    + by apply nil_length_inv.
  - apply NoDup_nil_2.
  - apply empty_subseteq.
  - intros i w v d Hi. discriminate Hi.
  - by intros w i ?%elem_of_nil.
  - by intros w ?%elem_of_nil.
Qed.

Lemma done_schedule waves :
  loop_done run_item (dom sel) run_deps waves ->
  if decide (size (emitted_set waves) = size (dom sel))
  then schedule_ok waves /\ well_founded_deps else ~ well_founded_deps.
Proof.
  intros Hdone. case_decide as Hfull.
  - assert (emitted_set waves = dom sel) as Eset.
    { apply leibniz_equiv, set_subseteq_size_equiv; [destruct Hdone as [ind Hlo]; apply (lo_sub _ _ _ _ _ _ Hlo)|lia]. }
    split; [|exact (done_acyclic _ _ _ _ Hdone Eset)].
    destruct Hdone as [ind [_ _ _ Hnodup _ Hlay Hitems Hsorted]]. split; [|done..].
    apply NoDup_Permutation; [done|apply NoDup_elements|]. intros v.
    rewrite elem_of_elements, <- Eset. unfold emitted_set. by rewrite elem_of_list_to_set.
  - intros Hwf. apply Hfull. f_equal. exact (done_complete _ _ _ run_deps_in _ Hdone Hwf).
Qed.

Lemma run_schedule :
  match scheduleWavesWithAliases g active aliases aliasDependsOn with
  | Ok waves => schedule_ok waves /\ well_founded_deps
  | Err e => e = CycleDetected /\ ~ well_founded_deps
  end.
Proof.
  destruct counted_spec as (H1 & H2 & H3).
  pose proof initial_loop as Hinit.
  unfold scheduleWavesWithAliases. rewrite Hentries, Ok_bind, Hacyclic, Ok_bind. cbv zeta.
  rewrite Hsel, Ok_bind. fold useAll. fold counted. fold run_item.
  destruct counted as [ind dependents]. cbn [fst snd] in *.
  assert (size ind = size (dom sel)) as Hsize.
  { rewrite <- size_dom. f_equal. apply set_eq. intros v. rewrite !elem_of_dom, H1.
    by rewrite fmap_is_Some. }
  rewrite Hsize. case_decide as Hempty.
  { apply size_empty_inv, leibniz_equiv in Hempty. split; [split|].
    - by rewrite Hempty.
    - intros i w v d Hi. discriminate Hi.
    - by intros w i ?%elem_of_nil.
    - by intros w ?%elem_of_nil.
    - intros v. rewrite Hempty. by intros ?%elem_of_empty. }
  destruct (wave_loop_spec sel run_item (dom sel) run_deps dependents run_item_address run_deps_in
    H2 H3 (S (size (dom sel))) ind (sortedReady ind sel) [] 0 Hinit)
    as (waves & emitted & -> & Hdone & ->); [done|lia|].
  rewrite Ok_bind. pose proof (done_schedule waves Hdone) as Hd. case_decide as Hfull.
  - by rewrite bool_decide_true.
  - by rewrite bool_decide_false.
Qed.
End run.

Lemma Validate_Ok g :
  Validate g = Ok tt <-> exists entries, scheduleEntries g = Ok entries /\ validateAcyclic entries = Ok tt.
Proof. unfold Validate. apply bind_Ok. Qed.

Lemma Acc_sub {A} (R Q : A -> A -> Prop) x : (forall a b, Q a b -> R a b) -> Acc R x -> Acc Q x.
Proof. intros HQ. induction 1 as [x _ IH]. constructor. eauto. Qed.

(** The addresses a run selects. *)
Definition selection (g : ResourceGraph) (active : activation) : gset string :=
  match active with Some set => set | None => list_to_set (addresses g) end.

Section noalias.
Context (g : ResourceGraph) (active : activation) (entries sel : entry_map).
Context (Hentries : scheduleEntries g = Ok entries).
Context (Hsel : activeEntries entries active ∅ ∅ = Ok sel).

Lemma no_alias_entry v : scheduleEntryForActiveAddress entries ∅ v = entries !! v.
Proof. unfold scheduleEntryForActiveAddress. by destruct (entries !! v). Qed.

Lemma selection_dom : dom sel = selection g active.
Proof.
  destruct active as [set|]; [by apply selected_Some in Hsel as [? _]|].
  cbn in *. injection Hsel as ->. apply scheduleEntries_inv in Hentries as [_ [Hb _]].
  by rewrite (built_dom _ _ Hb).
Qed.

Lemma run_deps_edge v d :
  v ∈ dom sel -> d ∈ run_deps active ∅ sel v <-> d ∈ dom sel /\ graph_edge g v d.
Proof.
  intros Hv. pose proof (scheduleEntries_inv _ _ Hentries) as [_ [Hb Hcl]].
  rewrite <- (edge_iff g entries) by done.
  apply (run_deps_spec active ∅) in Hv as (e & He & ->). unfold edge, deps_of.
  destruct active as [set|].
  - apply activeEntries_Some_inv in Hsel as [Hdom Hs].
    assert (v ∈ set) as Hin by (rewrite <- Hdom; by eapply elem_of_dom_2).
    destruct (Hs v Hin) as (e0 & E0 & E). rewrite no_alias_entry in E0.
    rewrite He in E. injection E as ->. rewrite E0, Hdom. cbn [default].
    unfold entry_deps. rewrite bool_decide_false by done. cbn [se_dependsOn activated].
    rewrite active_deps_idemp, elem_of_active_deps. unfold declared_deps. rewrite lookup_empty.
    apply (bu_sound _ _ Hb) in E0 as (_ & _ & ds & _ & E0). split.
    + intros (_ & Hd & [?|(? & _ & _ & Ha)]); [done|]. by rewrite lookup_empty in Ha.
    + intros [Hd Hdep]. split; [|auto]. cbn in Hdep. rewrite E0, elem_of_dedupeStrings in Hdep. tauto.
  - injection Hsel as <-. rewrite He. cbn [default].
    change (entry_deps None ∅ _ e) with (activeDependencies (se_dependsOn e) None true).
    rewrite activeDependencies_all.
    split; [|tauto]. intros Hd. split; [|done]. apply elem_of_dom, (Hcl v).
    unfold edge, deps_of. by rewrite He.
Qed.

Lemma no_alias_well_founded :
  (forall a, a ∈ addresses g -> finished entries a) -> well_founded_deps active ∅ sel.
Proof.
  intros Hfin v Hv.
  assert (finished entries v) as Hacc.
  { destruct (decide (v ∈ addresses g)) as [|Hn]; [auto|]. constructor. intros b Hb.
    destruct Hn. apply (graph_edge_source g v b). rewrite <- (edge_iff g entries); [done|].
    by apply scheduleEntries_inv in Hentries as [_ [? _]]. }
  induction Hacc as [v _ IH]. constructor. intros d Hd.
  apply run_deps_edge in Hd as [Hd He]; [|done]. apply IH; [|done].
  apply (edge_iff g); [|done]. by apply scheduleEntries_inv in Hentries as [_ [? _]].
Qed.
End noalias.

Lemma scheduleWavesWithAliases_Ok g active aliases ad waves :
  scheduleWavesWithAliases g active aliases ad = Ok waves ->
  exists entries sel, scheduleEntries g = Ok entries /\ validateAcyclic entries = Ok tt
    /\ activeEntries entries active aliases ad = Ok sel
    /\ schedule_ok active aliases entries sel waves.
Proof.
  intros H. pose proof H as H'. unfold scheduleWavesWithAliases in H'. cbv zeta in H'.
  apply bind_Ok in H' as (entries & He & H'). apply bind_Ok in H' as ([] & Ha & H').
  apply bind_Ok in H' as (sel & Hs & _). exists entries, sel. split; [done|]. split; [done|].
  split; [done|]. pose proof (run_schedule g active aliases ad entries sel He Ha Hs) as Hr.
  rewrite H in Hr. by destruct Hr.
Qed.

(** [b] is scheduled in a strictly earlier wave than [a]. *)
Definition earlier (waves : list (list ScheduleItem)) (b a : string) : Prop :=
  exists i j wa wb, j < i /\ layers waves !! i = Some wa /\ a ∈ wa
                    /\ layers waves !! j = Some wb /\ b ∈ wb.

Lemma layered_earlier deps waves a b :
  layered deps (layers waves) -> a ∈ concat (layers waves) -> b ∈ deps a -> earlier waves b a.
Proof.
  intros Hl (wa & Hwa & Ha)%list_elem_of_In_concat Hb.
  apply list_elem_of_lookup in Hwa as [i Hi].
  destruct (Hl i wa a b Hi Ha Hb) as (j & wb & Hj & Hlk & Hin).
  by exists i, j, wa, wb.
Qed.

(** Earlier waves come first in the concatenation. *)
Lemma earlier_split waves b a :
  earlier waves b a -> exists l1 l2 l3, concat (layers waves) = l1 ++ b :: l2 ++ a :: l3.
Proof.
  intros (i & j & wa & wb & Hj & Hi & Ha & Hjb & Hb).
  apply list_elem_of_split in Ha as (a1 & a2 & ->).
  assert (b ∈ concat (take i (layers waves))) as Hin.
  { apply list_elem_of_In_concat. exists wb. split; [|done].
    apply list_elem_of_lookup. exists j. by rewrite lookup_take_lt. }
  apply list_elem_of_split in Hin as (b1 & b2 & E).
  exists b1, (b2 ++ a1), (a2 ++ concat (drop (S i) (layers waves))).
  rewrite <- (take_drop_middle (layers waves) i _ Hi) at 1.
  rewrite concat_app, E. cbn [concat].
  repeat first [rewrite <- app_assoc | rewrite <- app_comm_cons]. done.
Qed.

(** ** A concrete graph, for the witnesses *)

Definition ex_node (address kind : string) (deps : list string) : Node :=
  {| n_Host := "h"; n_Address := address; n_Kind := kind; n_Summary := ""; n_Source := no_source;
     n_Lifecycle := None; n_Desired := ∅; n_ProviderType := ""; n_ProviderAddress := "";
     n_ProviderPayload := ∅; n_DependsOn := deps; n_ExplicitDependsOn := [];
     n_DependencySources := ∅ |}.

Definition ex_operation (address : string) (deps triggers : list string) : Operation :=
  {| op_Host := "h"; op_Address := address; op_Action := "run"; op_Summary := "";
     op_Sensitive := false; op_DependsOn := deps; op_TriggeredBy := triggers;
     op_CommandPreview := ""; op_ScriptPayload := None; op_Completion := None;
     op_Source := no_source |}.

Definition ex_graph : ResourceGraph :=
  {| g_Nodes := [ex_node "pkg" "package" []; ex_node "unit" "systemd_unit" ["pkg"; ""; "pkg"];
                 ex_node "file" "file" ["pkg"]];
     g_Operations := [ex_operation "reload" ["unit"; "file"] ["unit"]] |}.

Definition ex_cyclic : ResourceGraph :=
  {| g_Nodes := [ex_node "a" "file" ["b"]; ex_node "b" "file" ["c"]; ex_node "c" "file" ["b"]];
     g_Operations := [] |}.

Example ex_waves :
  (layers <$> Waves ex_graph) = Ok [["pkg"]; ["file"; "unit"]; ["reload"]].
Proof. vm_compute. reflexivity. Qed.

Example ex_cycle :
  Validate ex_cyclic = Err (DependencyCycle no_source ["b"; "c"; "b"]).
Proof. vm_compute. reflexivity. Qed.

(** ** Properties *)

Lemma Validate_complete g : graph_wf g -> (forall a, ~ tc (graph_edge g) a a) -> Validate g = Ok tt.
Proof.
  intros Hwf Hac. destruct (scheduleEntries_ok g Hwf) as [entries He]. apply Validate_Ok.
  exists entries. split; [done|]. pose proof (Validate_inv _ _ He) as Hv.
  destruct (validateAcyclic entries) as [[]|e]; [done|]. exfalso.
  destruct Hv as (source & c & _ & Hc). apply is_cycle_tc in Hc as [a Ha].
  apply (Hac a). apply scheduleEntries_inv in He as [_ [Hb _]]. by eapply tc_edge_graph.
Qed.

Lemma Acc_acyclic {A} (R : A -> A -> Prop) a : Acc (fun b a => R a b) a -> ~ tc R a a.
Proof.
  induction 1 as [a _ IH]. intros Ha. inversion Ha as [? ? Hab|? b ? Hab Hba]; subst.
  - by apply (IH a).
  - apply (IH b); [done|]. by eapply tc_r.
Qed.

(** C26: [ResourceGraph.Validate] accepts exactly the graphs whose addresses are
    distinct and non-empty, whose operations name a host, whose dependencies
    and triggers exist, and whose dependency relation has no cycle; the
    depth-first search never exceeds one stack frame per address. *)
Theorem Validate_spec g :
  Validate g = Ok tt <-> graph_wf g /\ forall a, ~ tc (graph_edge g) a a.
Proof.
  rewrite Validate_Ok. split.
  - intros (entries & He & Ha). pose proof (Validate_inv _ _ He) as Hv. rewrite Ha in Hv.
    apply scheduleEntries_inv in He as [Hwf [Hb Hcl]]. split; [done|]. intros a Hcyc.
    assert (a ∈ addresses g) as Hin by (inversion Hcyc; subst; by eapply graph_edge_source).
    apply (finished_acyclic _ _ (Hv a Hin)). by eapply tc_graph_edge.
  - intros [Hwf Hac]. by apply Validate_Ok, Validate_complete.
Qed.

(** On a well-formed graph the only error is a cycle, and the cycle the
    diagnostic prints is one: it starts and ends at the same address and each
    address depends on the next. *)
Theorem Validate_cycle g e :
  graph_wf g -> Validate g = Err e ->
  exists source a mid, e = DependencyCycle source (a :: mid ++ [a])
    /\ Sorted (graph_edge g) (a :: mid ++ [a]).
Proof.
  intros [entries He]%scheduleEntries_ok H. unfold Validate in H. rewrite He, Ok_bind in H.
  pose proof (Validate_inv _ _ He) as Hv. rewrite H in Hv.
  destruct Hv as (source & c & -> & a & mid & -> & Hs). exists source, a, mid. split; [done|].
  eapply Sorted_imp; [|exact Hs]. intros x y Hxy. apply (edge_iff g entries); [|done].
  by apply scheduleEntries_inv in He as [_ [? _]].
Qed.

Lemma ex_cyclic_wf : graph_wf ex_cyclic.
Proof.
  destruct (scheduleEntries ex_cyclic) as [entries|e] eqn:E; [by apply scheduleEntries_inv in E as []|].
  assert (is_ok (scheduleEntries ex_cyclic) = true) as H by (vm_compute; done).
  by rewrite E in H.
Qed.

Lemma Validate_cycle_witness :
  exists source a mid,
    DependencyCycle no_source ["b"; "c"; "b"] = DependencyCycle source (a :: mid ++ [a])
    /\ Sorted (graph_edge ex_cyclic) (a :: mid ++ [a]).
Proof. apply (Validate_cycle ex_cyclic _ ex_cyclic_wf). vm_compute. reflexivity. Defined.

(** C23: Scheduling a valid graph, whole or restricted to known active
    addresses, always succeeds (the wave loop ends within one iteration per
    address and never reports a leftover cycle), and conversely; the waves then
    contain every selected address exactly once, and whenever a selected
    address depends on another selected one, it is in a strictly later wave. *)
Theorem scheduleWaves_spec g active :
  (Validate g = Ok tt /\ (forall a, a ∈ selection g active -> a ∈ addresses g))
  <-> exists waves, scheduleWaves g active = Ok waves
      /\ concat (layers waves) ≡ₚ elements (selection g active)
      /\ forall a b, a ∈ selection g active -> b ∈ selection g active -> graph_edge g a b ->
           earlier waves b a.
Proof.
  unfold scheduleWaves. rewrite Validate_Ok. split.
  - intros [(entries & He & Ha) Hsub].
    pose proof (scheduleEntries_inv _ _ He) as [_ [Hb _]].
    assert (exists sel, activeEntries entries active ∅ ∅ = Ok sel) as [sel Hs].
    { destruct active as [set|]; [|by eexists]. apply activeEntries_Some_ok. intros v Hv.
      rewrite no_alias_entry. apply Hb, Hsub, Hv. }
    pose proof (run_schedule g active ∅ ∅ entries sel He Ha Hs) as Hr.
    pose proof (Validate_inv _ _ He) as Hfin. rewrite Ha in Hfin.
    pose proof (no_alias_well_founded g active entries sel He Hs Hfin) as Hwf.
    destruct (scheduleWavesWithAliases g active ∅ ∅) as [waves|e]; [|by destruct Hr].
    destruct Hr as [[Hp Hl _ _] _]. exists waves. split; [done|].
    rewrite <- (selection_dom g active entries sel) by done. split; [done|].
    intros a b Hina Hinb Hab. eapply layered_earlier; [done| |].
    + rewrite Hp. by apply elem_of_elements.
    + by apply (run_deps_edge g active entries sel).
  - intros (waves & H & _). apply scheduleWavesWithAliases_Ok in H as (entries & sel & He & Ha & Hs & _).
    split; [by exists entries|]. intros a Hin.
    rewrite <- (selection_dom g active entries sel) in Hin by done.
    apply scheduleEntries_inv in He as [_ [Hb _]]. destruct active as [set|].
    + apply activeEntries_Some_inv in Hs as [Hdom Hs]. rewrite Hdom in Hin.
      destruct (Hs a Hin) as (e & E & _). rewrite no_alias_entry in E.
      apply (bu_sound _ _ Hb) in E as (_ & _ & ds & Hv & _). apply list_elem_of_fmap.
      by exists (a, ds).
    + injection Hs as <-. rewrite (built_dom _ _ Hb) in Hin. by apply elem_of_list_to_set in Hin.
Qed.

Lemma ActiveWaves_lemma g active aliases aliasDependsOn waves :
  ActiveWavesWithAliases g active aliases aliasDependsOn = Ok waves ->
  concat (layers waves) ≡ₚ elements active
  /\ forall w i d, w ∈ waves -> i ∈ w -> d ∈ si_DependsOn i -> earlier waves d (si_Address i).
Proof.
  intros (entries & sel & He & Ha & Hs & [Hp Hl Hitems _])%scheduleWavesWithAliases_Ok.
  pose proof (selected_Some _ _ _ _ _ Hs) as [Hdom _]. rewrite Hdom in Hp. split; [done|].
  intros w i d Hw Hi Hd. eapply layered_earlier; [exact Hl| |].
  - apply list_elem_of_In_concat. exists (si_Address <$> w). unfold layers.
    split; [apply list_elem_of_fmap; by exists w|by apply list_elem_of_fmap_2].
  - by rewrite (Hitems w i Hw Hi) in Hd.
Qed.

(** With aliases (the replicas of an operation), a schedule contains the
    active addresses exactly once, and every dependency listed on a scheduled
    item is itself scheduled, in a strictly earlier wave. *)
Theorem ActiveWavesWithAliases_spec g active aliases aliasDependsOn waves :
  ActiveWavesWithAliases g active aliases aliasDependsOn = Ok waves ->
  concat (layers waves) ≡ₚ elements active
  /\ forall w i d, w ∈ waves -> i ∈ w -> d ∈ si_DependsOn i -> earlier waves d (si_Address i).
Proof. apply ActiveWaves_lemma. Qed.

Definition ex_aliased : result schedule_error (list (list ScheduleItem)) :=
  ActiveWavesWithAliases ex_graph {["unit"; "reload#1"; "pkg"]} {["reload#1" := "reload"]} ∅.

Lemma ActiveWavesWithAliases_spec_witness :
  match ex_aliased with
  | Ok waves => concat (layers waves) ≡ₚ elements ({["unit"; "reload#1"; "pkg"]} : gset string)
  | Err _ => False
  end.
Proof.
  destruct ex_aliased as [waves|e] eqn:E.
  - exact (proj1 (ActiveWavesWithAliases_spec _ _ _ _ _ E)).
  - assert (is_ok ex_aliased = true) as H by (vm_compute; reflexivity). by rewrite E in H.
Defined.

(** A topological sort lists every address after the addresses it depends
    on. *)
Theorem TopologicalSort_spec g items a b :
  TopologicalSort g = Ok items -> graph_edge g a b ->
  exists l1 l2 l3, si_Address <$> items = l1 ++ b :: l2 ++ a :: l3.
Proof.
  unfold TopologicalSort, Waves. intros H Hab. res_inv. rename x into waves.
  replace (si_Address <$> concat waves) with (concat (layers waves)).
  - apply scheduleWavesWithAliases_Ok in H0 as (entries & sel & He & Ha & Hs & [Hp Hl _ _]).
    pose proof (scheduleEntries_inv _ _ He) as [Hwf _].
    assert (dom sel = list_to_set (addresses g)) as Hdom by (by apply (selection_dom g None entries sel)).
    assert (a ∈ dom sel /\ b ∈ dom sel) as [Hina Hinb].
    { rewrite Hdom, !elem_of_list_to_set. split; [by eapply graph_edge_source|].
      by eapply (gw_deps _ Hwf). }
    apply earlier_split. eapply layered_earlier; [exact Hl| |].
    + rewrite Hp. by apply elem_of_elements.
    + by apply (run_deps_edge g None entries sel).
  - unfold layers. clear. induction waves as [|w ws IH]; [done|]. cbn. by rewrite fmap_app, IH.
Qed.

Definition ex_sorted : list ScheduleItem :=
  match TopologicalSort ex_graph with Ok items => items | Err _ => [] end.

Lemma TopologicalSort_spec_witness :
  exists l1 l2 l3, si_Address <$> ex_sorted = l1 ++ "pkg" :: l2 ++ "unit" :: l3.
Proof.
  apply (TopologicalSort_spec ex_graph).
  - vm_compute. reflexivity.
  - exists ["pkg"; ""; "pkg"]. split; [right; left|]. split; [left|done].
Defined.
