(* ===== verification/Engine.v ===== *)
(** * The engine's data and planning functions: [engine.go], [provider_values.go]

    Actions, plans and steps; the three-way comparison of desired, recorded
    and observed state; orphans; operations; summaries.  The monadic [Plan] and
    [Apply] are in [Run.v], the execution waves in [Execute.v]. *)
From S2P Require Import Prelude Sha256 GoValue GoStrings IR State Moves Graph Schedule.

Definition ActionCreate : string := "create".
Definition ActionUpdate : string := "update".
Definition ActionDelete : string := "delete".
Definition ActionDestroy : string := "destroy".
Definition ActionAdopt : string := "adopt".
Definition ActionForget : string := "forget".
Definition ActionNoOp : string := "no-op".
Definition ActionRun : string := "run".

Record ProviderPlan := {
  pp_Action : string;
  pp_Summary : string;
  pp_Observed : gomap;
  pp_Ownership : string;
}.

Record Observed := { ob_Exists : bool; ob_DesiredDigest : string; ob_Values : gomap }.

Record Step := {
  s_Address : string;
  s_Host : string;
  s_Action : string;
  s_Summary : string;
  s_Node : Node;
  s_Prior : option Resource;
  s_Observed : gomap;
  s_Ownership : string;
  s_Order : Z;
}.

Record OperationStep := {
  os_Address : string;
  os_Action : string;
  os_Operation : Operation;
  os_TriggerAddresses : list string;
  os_TriggerPaths : list string;
}.

Record Summary := {
  sm_Move : nat; sm_Create : nat; sm_Update : nat; sm_Delete : nat; sm_NoOp : nat;
  sm_Operations : nat;
}.

Record Plan := {
  pl_Steps : list Step;
  pl_Operations : list OperationStep;
  pl_Moves : list RealizedMove;
  pl_Summary : Summary;
}.

Record Options := { o_Host : string; o_Parallel : Z; o_PerHostParallel : Z }.

Inductive engine_error :=
| EngineState (e : state_error)
| EngineMove (e : move_error)
| EngineGraph (e : schedule_error)
| EnginePlatform (host : string) (e : platform_error)
| IncompletePlatform (host : string)
| UnknownHost (address host : string)
| StateNotRead (host : string)
| PreventDestroyError (address kind : string) (lifecycle : option LifecycleSpec)
| MovesChanged (host : string)
| OrphanCycle
| StepFailed (address : string) (cause : string)
| BackendFailed (cause : string)
| UnsupportedAction (address action : string)
| CompletionMissing (address resource : string)
| CompletionFieldEmpty (address : string)
| Rejected (cause : string)
| NodeFailed (subject message : string)       (* an error of a provider on a subject *)
| RedactedPayload (cause : engine_error)      (* [redactedPayloadError]: the cause is not printed *)
| Wrapped (prefix : string) (cause : engine_error)
| EngineOutOfFuel.

(** ** Small helpers *)

(** The zero value of [graph.Node] carried by orphan steps. *)
Definition zero_node : Node :=
  {| n_Host := ""; n_Address := ""; n_Kind := ""; n_Summary := ""; n_Source := no_source;
     n_Lifecycle := None; n_Desired := ∅; n_ProviderType := ""; n_ProviderAddress := "";
     n_ProviderPayload := ∅; n_DependsOn := []; n_ExplicitDependsOn := [];
     n_DependencySources := ∅ |}.

Definition stringDesired (node : Node) (name : string) : string := stringMapValue (n_Desired node) name.
Definition boolDesired (node : Node) (name : string) : bool := boolMapValue (n_Desired node) name.
Definition stringListDesired (node : Node) (name : string) : list string :=
  stringListMapValue (n_Desired node) name.

Definition ensureAbsent (node : Node) : bool := bool_decide (stringDesired node "ensure" = "absent").

Definition desiredEnsureAbsent (node : Node) : bool :=
  match n_Desired node !! "ensure" with
  | Some (GStr ensure) => bool_decide (ensure = "absent")
  | _ => false
  end.

(** The first non-empty identifying attribute, else the address. *)
Definition identity_keys : list string := ["name"; "path"; "output_path"; "key"; "user"].

Definition identity (node : Node) : string :=
  match list_find (fun key => stringMapValue (n_Desired node) key <> "") identity_keys with
  | Some (_, key) => stringMapValue (n_Desired node) key
  | None => n_Address node
  end.

Definition ownership (prior : option Resource) : string :=
  match prior with
  | Some p => if decide (r_Ownership p = "") then "managed" else r_Ownership p
  | None => "managed"
  end.

Definition destroysResource (action : string) : bool :=
  bool_decide (action = ActionDelete \/ action = ActionDestroy).

Definition preventsDestroy (lifecycle : option LifecycleSpec) : bool :=
  match lifecycle with Some l => PreventDestroy l | None => false end.

Definition triggersOperation (action : string) : bool :=
  bool_decide (action = ActionCreate \/ action = ActionUpdate \/ action = ActionDelete).

Definition defaultSummary (action fallback : string) : string :=
  if decide (fallback = "") then action else fallback.

(** ** Change actions *)

Definition changeActionDigestObservedField : string := "change_action_digest".

Definition changeActionCompletionPending (node : Node) (prior : option Resource) : bool :=
  match prior with
  | None => false
  | Some p =>
      if decide (stringDesired node "change_action" = "") then false
      else bool_decide (stringMapValue (r_Observed p) changeActionDigestObservedField
                        <> DesiredDigest (n_Desired node))
  end.

Definition changeActionConfigurationRemoved (node : Node) (prior : option Resource) : bool :=
  match prior with
  | Some p => bool_decide (stringDesired node "change_action" = "")
              && bool_decide (stringMapValue (r_Desired p) "change_action" <> "")
  | None => false
  end.

Definition completeChangeActionOnAdopt (node : Node) (prior : option Resource) (observed : gomap)
  : gomap :=
  if bool_decide (stringDesired node "change_action" = "") || bool_decide (is_Some prior)
  then observed
  else <[changeActionDigestObservedField := GStr (DesiredDigest (n_Desired node))]> observed.

Definition inSyncPlan (node : Node) (prior : option Resource) (summary : string) (observed : gomap)
  : ProviderPlan :=
  let observed := <["desired_digest" := GStr (DesiredDigest (n_Desired node))]> observed in
  match prior with
  | None => {| pp_Action := ActionAdopt;
               pp_Summary := "adopt existing " +:+ n_Kind node +:+ " " +:+ identity node;
               pp_Observed := observed; pp_Ownership := "adopted" |}
  | Some _ => {| pp_Action := ActionNoOp; pp_Summary := summary; pp_Observed := observed;
                 pp_Ownership := ownership prior |}
  end.

Definition absentInSyncPlan (prior : option Resource) (summary : string) (observed : gomap)
  : ProviderPlan :=
  {| pp_Action := match prior with Some _ => ActionDelete | None => ActionNoOp end;
     pp_Summary := summary; pp_Observed := observed; pp_Ownership := ownership prior |}.

(** ** Compare: desired, recorded and observed *)

Definition Compare (node : Node) (prior : option Resource) (observed : Observed) : ProviderPlan :=
  let desiredDigest := DesiredDigest (n_Desired node) in
  let observedValues :=
    if decide (ob_DesiredDigest observed = "") then ob_Values observed
    else <["desired_digest" := GStr (ob_DesiredDigest observed)]> (ob_Values observed) in
  let plan action summary values own :=
    {| pp_Action := action; pp_Summary := summary; pp_Observed := values; pp_Ownership := own |} in
  let what := n_Kind node +:+ " " +:+ identity node in
  if desiredEnsureAbsent node then
    if ob_Exists observed then plan ActionDelete ("delete " +:+ what) observedValues "managed"
    else plan ActionNoOp ("already absent " +:+ what) observedValues "managed"
  else if negb (ob_Exists observed) then
    plan ActionCreate ("create " +:+ what) observedValues "managed"
  else if decide (ob_DesiredDigest observed = desiredDigest) then
    match prior with
    | None => plan ActionAdopt ("adopt existing " +:+ what)
                (completeChangeActionOnAdopt node prior observedValues) "adopted"
    | Some p =>
        if changeActionCompletionPending node prior then
          plan ActionUpdate ("retry " +:+ stringDesired node "change_action" +:+ " after updating "
                             +:+ identity node) observedValues (r_Ownership p)
        else plan ActionNoOp ("no changes for " +:+ what) observedValues (r_Ownership p)
    end
  else match prior with
  | Some p =>
      if bool_decide (r_DesiredDigest p <> "")
         && bool_decide (ob_DesiredDigest observed <> r_DesiredDigest p)
      then plan ActionUpdate ("repair drift for " +:+ what) observedValues (r_Ownership p)
      else plan ActionUpdate ("update " +:+ what) observedValues "managed"
  | None => plan ActionUpdate ("update " +:+ what) observedValues "managed"
  end.

(** ** Planned steps *)

Definition priorResource (st : State) (address : string) : option Resource := st_Resources st !! address.

(** The step loop of [Engine.Plan]: one node and its provider plan. *)
Record step_acc := { sa_steps : list Step; sa_changed : gset string; sa_noOp : nat }.

Definition plan_step (providerPlans : gmap string ProviderPlan)
    (priorsByHost : gmap string (gmap string (option Resource))) (acc : step_acc)
    (item : Node * nat)
  : result engine_error step_acc :=
  let '(node, order) := item in
  let raw := default {| pp_Action := ""; pp_Summary := ""; pp_Observed := ∅; pp_Ownership := "" |}
               (providerPlans !! n_Address node) in
  let action := if decide (pp_Action raw = "") then ActionNoOp else pp_Action raw in
  let summary := if decide (pp_Summary raw = "") then defaultSummary action (n_Summary node)
                 else pp_Summary raw in
  _ ← guard_or (negb (destroysResource action && preventsDestroy (n_Lifecycle node)))
       (PreventDestroyError (n_Address node) (n_Kind node) (n_Lifecycle node));
  let step := {| s_Address := n_Address node; s_Host := n_Host node; s_Action := action;
                 s_Summary := summary; s_Node := node;
                 s_Prior := default None (default ∅ (priorsByHost !! n_Host node) !! n_Address node);
                 s_Observed := pp_Observed raw; s_Ownership := pp_Ownership raw;
                 s_Order := Z.of_nat order |} in
  if decide (action = ActionNoOp) then
    Ok {| sa_steps := sa_steps acc; sa_changed := sa_changed acc; sa_noOp := S (sa_noOp acc) |}
  else
    Ok {| sa_steps := sa_steps acc ++ [step];
          sa_changed := if triggersOperation action then {[s_Address step]} ∪ sa_changed acc
                        else sa_changed acc;
          sa_noOp := sa_noOp acc |}.

(** ** Orphans: recorded resources that are no longer desired *)

Definition forgetOrphan (prior : Resource) : bool :=
  bool_decide (r_Kind prior = "component_script_output")
  || bool_decide (r_Kind prior = "system_hostname")
  || bool_decide (r_Kind prior = "system_timezone")
  || bool_decide (r_Kind prior = "system_locale")
  || bool_decide (r_Kind prior = "apt_source_file")
     && bool_decide (stringMapValue (r_Desired prior) "on_destroy" = "keep").

Definition sameDirectoryDesired (a b : gomap) : bool :=
  if decide (stringMapValue a "path" = "") then false
  else forallb (fun key => bool_decide (stringMapValue a key = stringMapValue b key))
         ["path"; "owner"; "group"; "mode"; "ensure"].

Definition desiredStillManagesOrphan (host : string) (prior : Resource) (desired : gmap string Node)
  : bool :=
  if decide (r_Kind prior <> "directory") then false
  else existsb (fun p => bool_decide (n_Host p.2 = host) && bool_decide (n_Kind p.2 = "directory")
                         && sameDirectoryDesired (r_Desired prior) (n_Desired p.2))
         (map_to_list desired).

Definition orphan_action (host : string) (prior : Resource) (desired : gmap string Node)
    (address : string) : string * string :=
  let what := r_Kind prior +:+ " " +:+ address in
  if decide (r_Ownership prior = "adopted") then (ActionForget, "forget adopted " +:+ what)
  else if forgetOrphan prior then (ActionForget, "forget " +:+ what)
  else if desiredStillManagesOrphan host prior desired then
    (ActionForget, "forget shared " +:+ what)
  else (ActionDestroy, "destroy " +:+ what).

Definition orphan_step (host : string) (desired : gmap string Node) (out : list Step)
    (entry : string * Resource) : result engine_error (list Step) :=
  let '(address, prior) := entry in
  match desired !! address with
  | Some _ => Ok out
  | None =>
      let '(action, summary) := orphan_action host prior desired address in
      _ ← guard_or (negb (bool_decide (action = ActionDestroy) && preventsDestroy (r_Lifecycle prior)))
           (PreventDestroyError address (r_Kind prior) (r_Lifecycle prior));
      Ok (out ++ [{| s_Address := address; s_Host := host; s_Action := action; s_Summary := summary;
                     s_Node := zero_node; s_Prior := Some prior; s_Observed := ∅;
                     s_Ownership := ""; s_Order := 0 |}])
  end.

Definition orphan_host (opts : Options) (desired : gmap string Node) (out : list Step)
    (entry : string * State) : result engine_error (list Step) :=
  let '(host, st) := entry in
  if bool_decide (o_Host opts <> "") && bool_decide (host <> o_Host opts) then Ok out
  else fold_res (orphan_step host desired) (map_to_list (st_Resources st)) out.

Definition orphanSteps (states : gmap string State) (desired : gmap string Node) (opts : Options)
  : result engine_error (list Step) :=
  fold_res (orphan_host opts desired) (map_to_list states) [].

(** ** Operations *)

Definition stepByAddress (steps : list Step) : gmap string Step :=
  fold_left (fun m s => <[s_Address s := s]> m) steps ∅.

Definition operationTriggerPath (step : Step) : string :=
  match n_Desired (s_Node step) !! "path" with
  | Some (GStr path) => path
  | _ =>
      match s_Prior step with
      | Some prior => match r_Desired prior !! "path" with Some (GStr path) => path | _ => "" end
      | None => ""
      end
  end.

(** The step of a trigger that has none: Go's zero value. *)
Definition zero_step : Step :=
  {| s_Address := ""; s_Host := ""; s_Action := ""; s_Summary := ""; s_Node := zero_node;
     s_Prior := None; s_Observed := ∅; s_Ownership := ""; s_Order := 0 |}.

Definition dedupeOperationDependencies (values : list string) : list string := dedup values.

Definition set_op_edges (dependsOn triggeredBy : list string) (op : Operation) : Operation :=
  {| op_Host := op_Host op; op_Address := op_Address op; op_Action := op_Action op;
     op_Summary := op_Summary op; op_Sensitive := op_Sensitive op; op_DependsOn := dependsOn;
     op_TriggeredBy := triggeredBy; op_CommandPreview := op_CommandPreview op;
     op_ScriptPayload := op_ScriptPayload op; op_Completion := op_Completion op;
     op_Source := op_Source op |}.

Definition operationForTriggers (op : Operation) (triggers : list string) : Operation :=
  let static := filter (fun d => d ∉ op_TriggeredBy op) (op_DependsOn op) in
  set_op_edges (dedupeOperationDependencies (triggers ++ static)) triggers op.

Definition operationEachAddress (address trigger : string) : string :=
  address +:+ ".trigger[" +:+ strconv_Quote trigger +:+ "]".

Definition operation_mode (op : Operation) : string :=
  match op_ScriptPayload op with Some p => sp_Mode p | None => "" end.

Definition operation_steps_for (changed : gset string) (steps : gmap string Step) (opts : Options)
    (op : Operation) : list OperationStep :=
  if bool_decide (o_Host opts <> "") && bool_decide (op_Host op <> o_Host opts) then []
  else
    let triggered := filter (fun t => t ∈ changed) (op_TriggeredBy op) in
    let path t := operationTriggerPath (default zero_step (steps !! t)) in
    if decide (triggered = []) then []
    else if decide (operation_mode op = "each") then
      (fun t => {| os_Address := operationEachAddress (op_Address op) t; os_Action := ActionRun;
                   os_Operation := operationForTriggers op [t];
                   os_TriggerAddresses := [t]; os_TriggerPaths := [path t] |}) <$> triggered
    else [{| os_Address := op_Address op; os_Action := ActionRun;
             os_Operation := operationForTriggers op triggered;
             os_TriggerAddresses := triggered; os_TriggerPaths := path <$> triggered |}].

Definition set_os_Operation (op : Operation) (s : OperationStep) : OperationStep :=
  {| os_Address := os_Address s; os_Action := os_Action s; os_Operation := op;
     os_TriggerAddresses := os_TriggerAddresses s; os_TriggerPaths := os_TriggerPaths s |}.

Definition filterInactiveOperationDependencies (steps : list OperationStep)
    (operations : list Operation) : list OperationStep :=
  let operationAddresses := op_Address <$> operations in
  let active := (fun s => op_Address (os_Operation s)) <$> steps in
  (fun s =>
     let op := os_Operation s in
     set_os_Operation
       (set_op_edges (filter (fun d => d ∈ operationAddresses -> d ∈ active) (op_DependsOn op))
          (op_TriggeredBy op) op) s) <$> steps.

Definition operationSteps (operations : list Operation) (changed : gset string)
    (steps : gmap string Step) (opts : Options) : list OperationStep :=
  filterInactiveOperationDependencies
    (mjoin (operation_steps_for changed steps opts <$> operations)) operations.

(** ** Summary and order *)

Definition summarize_step (sm : Summary) (step : Step) : Summary :=
  let a := s_Action step in
  if decide (a = ActionCreate) then
    {| sm_Move := sm_Move sm; sm_Create := S (sm_Create sm); sm_Update := sm_Update sm;
       sm_Delete := sm_Delete sm; sm_NoOp := sm_NoOp sm; sm_Operations := sm_Operations sm |}
  else if decide (a = ActionUpdate \/ a = ActionAdopt) then
    {| sm_Move := sm_Move sm; sm_Create := sm_Create sm; sm_Update := S (sm_Update sm);
       sm_Delete := sm_Delete sm; sm_NoOp := sm_NoOp sm; sm_Operations := sm_Operations sm |}
  else if decide (a = ActionDelete \/ a = ActionDestroy \/ a = ActionForget) then
    {| sm_Move := sm_Move sm; sm_Create := sm_Create sm; sm_Update := sm_Update sm;
       sm_Delete := S (sm_Delete sm); sm_NoOp := sm_NoOp sm; sm_Operations := sm_Operations sm |}
  else if decide (a = ActionNoOp) then
    {| sm_Move := sm_Move sm; sm_Create := sm_Create sm; sm_Update := sm_Update sm;
       sm_Delete := sm_Delete sm; sm_NoOp := S (sm_NoOp sm); sm_Operations := sm_Operations sm |}
  else sm.

Definition summarize (steps : list Step) (operations : list OperationStep) (noOp moves : nat)
  : Summary :=
  let sm := fold_left summarize_step steps
    {| sm_Move := moves; sm_Create := 0; sm_Update := 0; sm_Delete := 0; sm_NoOp := 0;
       sm_Operations := 0 |} in
  {| sm_Move := sm_Move sm; sm_Create := sm_Create sm; sm_Update := sm_Update sm;
     sm_Delete := sm_Delete sm; sm_NoOp := sm_NoOp sm + noOp; sm_Operations := length operations |}.

Definition step_less (a b : Step) : bool :=
  if decide (s_Order a = s_Order b) then str_ltb (s_Address a) (s_Address b)
  else bool_decide (s_Order a < s_Order b)%Z.
Definition sortSteps (steps : list Step) : list Step := sort_by step_less steps.

Definition op_step_key (s : OperationStep) : string :=
  if decide (os_Address s = "") then op_Address (os_Operation s) else os_Address s.
Definition sortOperationSteps (steps : list OperationStep) : list OperationStep :=
  sort_by (fun a b => str_ltb (op_step_key a) (op_step_key b)) steps.

(** ** Recorded state of an executed step *)

Definition resourceStateForStep (step : Step) (observed : gomap) (updatedAt : string) : Resource :=
  let node := s_Node step in
  let sanitizedObserved := SanitizeObserved observed in
  {| r_Host := s_Host step; r_Kind := n_Kind node; r_ProviderType := n_ProviderType node;
     r_ProviderAddress := n_ProviderAddress node;
     r_Ownership := if decide (s_Ownership step = "") then "managed" else s_Ownership step;
     r_Lifecycle := n_Lifecycle node;
     r_Desired := SanitizeDesired (n_Desired node);
     r_DesiredDigest := DesiredDigest (n_Desired node);
     r_Observed := if boolMapValue (n_Desired node) "sensitive"
                   then delete "original_content" sanitizedObserved else sanitizedObserved;
     r_UpdatedAt := updatedAt; r_Order := s_Order step; r_DependsOn := n_DependsOn node |}.

(** The node a provider sees: the payload replaces the public attributes. *)
Definition fileContentWriteOnly (node : Node) : bool := boolMapValue (n_Desired node) "content_write_only".

Definition providerNode (node : Node) : Node :=
  if decide (size (n_ProviderPayload node) = 0) then node
  else if fileContentWriteOnly node then node
  else set_n_Desired (n_ProviderPayload node) node.

Definition set_s_Node (n : Node) (s : Step) : Step :=
  {| s_Address := s_Address s; s_Host := s_Host s; s_Action := s_Action s; s_Summary := s_Summary s;
     s_Node := n; s_Prior := s_Prior s; s_Observed := s_Observed s; s_Ownership := s_Ownership s;
     s_Order := s_Order s |}.

Definition providerStep (step : Step) : Step := set_s_Node (providerNode (s_Node step)) step.
