(* ===== verification/Execute.v ===== *)
(** * Executing a plan: the wave runner of [engine.go]

    The execution waves of a plan, the provider and backend interfaces, the
    execution of one item, and the runner.  Items of a wave run concurrently in
    the program: a wave is a step relation over all interleavings of the items'
    atomic actions ([wave_step]), with a sequential executor as one instance. *)
From S2P Require Import Prelude Sha256 GoValue GoStrings IR HostIR State Moves Graph Schedule Engine.

(** ** Execution items *)

Inductive payload :=
| EResource (step : Step)
| EOperation (step : OperationStep).

Record executionItem := {
  ei_address : string;
  ei_host : string;
  ei_safeParallel : bool;
  ei_dependsOn : list string;
  ei_payload : payload;
}.

Definition activeStepMap (plan : Plan) : gmap string Step := stepByAddress (pl_Steps plan).

Definition set_os_Address (a : string) (s : OperationStep) : OperationStep :=
  {| os_Address := a; os_Action := os_Action s; os_Operation := os_Operation s;
     os_TriggerAddresses := os_TriggerAddresses s; os_TriggerPaths := os_TriggerPaths s |}.

Definition activeOperationMap (plan : Plan) : gmap string OperationStep :=
  fold_left (fun m s => <[op_step_key s := set_os_Address (op_step_key s) s]> m)
    (pl_Operations plan) ∅.

(** [activeDependencyOverrides]: edges between active resources, reversed when
    the dependency is being destroyed. *)
Definition push_override (overrides : gmap string (list string)) (address dependency : string)
  : gmap string (list string) :=
  <[address := default [] (overrides !! address) ++ [dependency]]> overrides.

Definition override_dependency (active : gmap string Step) (activeOps : gmap string OperationStep)
    (node : Node) (step : Step) (overrides : gmap string (list string)) (dependency : string)
  : gmap string (list string) :=
  match active !! dependency with
  | Some dependencyStep =>
      if destroysResource (s_Action dependencyStep)
      then push_override overrides dependency (n_Address node)
      else push_override overrides (n_Address node) dependency
  | None =>
      if bool_decide (is_Some (activeOps !! dependency)) && negb (destroysResource (s_Action step))
      then push_override overrides (n_Address node) dependency
      else overrides
  end.

Definition override_node (active : gmap string Step) (activeOps : gmap string OperationStep)
    (overrides : gmap string (list string)) (node : Node) : gmap string (list string) :=
  match active !! n_Address node with
  | None => overrides
  | Some step => fold_left (override_dependency active activeOps node step) (n_DependsOn node) overrides
  end.

Definition activeDependencyOverrides (g : ResourceGraph) (active : gmap string Step)
    (activeOps : gmap string OperationStep) : gmap string (list string) :=
  dedupeOperationDependencies <$>
    fold_left (override_node active activeOps) (g_Nodes g) ((fun _ => []) <$> active).

(** ** Orphan waves: dependents are removed before what they depend on *)

Record orphan_graph := { og_indegree : gmap string Z; og_dependents : gmap string (list string) }.

Definition orphan_edge (byAddress : gmap string Step) (from : string) (acc : orphan_graph)
    (dependency : string) : orphan_graph :=
  match byAddress !! dependency with
  | None => acc
  | Some _ =>
      {| og_indegree := <[dependency := (default 0 (og_indegree acc !! dependency) + 1)%Z]>
                          (og_indegree acc);
         og_dependents := <[from := default [] (og_dependents acc !! from) ++ [dependency]]>
                            (og_dependents acc) |}
  end.

Definition orphan_node (byAddress : gmap string Step) (acc : orphan_graph) (step : Step)
  : orphan_graph :=
  match s_Prior step with
  | None => acc
  | Some prior => fold_left (orphan_edge byAddress (s_Address step)) (r_DependsOn prior) acc
  end.

Definition orphan_item (step : Step) : executionItem :=
  {| ei_address := s_Address step; ei_host := s_Host step;
     ei_safeParallel := SafeParallelKind (match s_Prior step with Some p => r_Kind p | None => "" end);
     ei_dependsOn := []; ei_payload := EResource step |}.

Definition orphan_steps_at (byAddress : gmap string Step) (addresses : list string) : list Step :=
  (fun a => default zero_step (byAddress !! a)) <$> addresses.

Fixpoint orphan_loop (fuel : nat) (byAddress : gmap string Step)
    (dependents : gmap string (list string)) (indegree : gmap string Z) (ready : list Step)
    (waves : list (list executionItem)) (emitted : nat)
  : result engine_error (list (list executionItem) * nat) :=
  match ready with
  | [] => Ok (waves, emitted)
  | _ =>
      match fuel with
      | O => Err EngineOutOfFuel
      | S fuel =>
          let '(indegree, next) := fold_left (emit dependents) (s_Address <$> ready) (indegree, []) in
          orphan_loop fuel byAddress dependents indegree
            (sortSteps (orphan_steps_at byAddress next))
            (waves ++ [orphan_item <$> ready]) (emitted + length ready)
      end
  end.

Definition orphanExecutionWaves (steps : list Step) : result engine_error (list (list executionItem)) :=
  let byAddress := stepByAddress steps in
  let init := {| og_indegree := (fun _ => 0%Z) <$> byAddress; og_dependents := ∅ |} in
  let og := fold_left (orphan_node byAddress) steps init in
  let ready := sortSteps (orphan_steps_at byAddress
                 ((filter (fun p => p.2 = 0%Z) (map_to_list (og_indegree og))).*1)) in
  '(waves, emitted) ← orphan_loop (S (size byAddress)) byAddress (og_dependents og) (og_indegree og)
                        ready [] 0;
  _ ← guard_or (bool_decide (emitted = length steps)) OrphanCycle;
  Ok waves.

(** ** The waves of a plan *)

Definition scheduled_item (active : gmap string Step) (activeOps : gmap string OperationStep)
    (item : ScheduleItem) : executionItem :=
  if si_Operation item then
    {| ei_address := si_Address item; ei_host := si_Host item; ei_safeParallel := false;
       ei_dependsOn := si_DependsOn item;
       ei_payload := EOperation (default
         {| os_Address := ""; os_Action := ""; os_Operation :=
              {| op_Host := ""; op_Address := ""; op_Action := ""; op_Summary := "";
                 op_Sensitive := false; op_DependsOn := []; op_TriggeredBy := [];
                 op_CommandPreview := ""; op_ScriptPayload := None; op_Completion := None;
                 op_Source := no_source |};
            os_TriggerAddresses := []; os_TriggerPaths := [] |} (activeOps !! si_Address item)) |}
  else
    let step := default zero_step (active !! si_Address item) in
    {| ei_address := si_Address item; ei_host := s_Host step;
       ei_safeParallel := si_SafeParallel item; ei_dependsOn := si_DependsOn item;
       ei_payload := EResource step |}.

Definition known_addresses (g : ResourceGraph) : gset string :=
  list_to_set ((n_Address <$> g_Nodes g) ++ (op_Address <$> g_Operations g)).

Definition plan_orphans (g : ResourceGraph) (plan : Plan) : list Step :=
  filter (fun s => s_Address s ∉ known_addresses g) (pl_Steps plan).

Definition active_addresses (g : ResourceGraph) (plan : Plan) : gset string :=
  list_to_set (s_Address <$> filter (fun s => s_Address s ∈ known_addresses g) (pl_Steps plan))
  ∪ dom (activeOperationMap plan).

Definition operation_aliases (activeOps : gmap string OperationStep) : gmap string string :=
  omap (fun p => if decide (p.1 = p.2) then None else Some p.2)
    (map_imap (fun address s => Some (address, op_Address (os_Operation s))) activeOps).

Definition alias_overrides (activeOps : gmap string OperationStep) : gmap string (list string) :=
  omap (fun p => if decide (p.1 = op_Address (os_Operation p.2)) then None
                 else Some (op_DependsOn (os_Operation p.2)))
    (map_imap (fun address s => Some (address, s)) activeOps).

Definition executionWaves (g : ResourceGraph) (plan : Plan)
  : result engine_error (list (list executionItem)) :=
  let active := activeStepMap plan in
  let activeOps := activeOperationMap plan in
  let orphans := plan_orphans g plan in
  scheduled ← map_err EngineGraph
    (ActiveWavesWithAliases g (active_addresses g plan) (operation_aliases activeOps)
       (alias_overrides activeOps ∪ activeDependencyOverrides g active activeOps));
  orphanWaves ← (if decide (orphans = []) then Ok [] else orphanExecutionWaves orphans);
  Ok (orphanWaves ++
      ((fun wave : list ScheduleItem => scheduled_item active activeOps <$> wave) <$> scheduled)).

(** ** Interfaces *)

Record OperationResult := { or_Outputs : gmap string gomap }.

(** [Provider]: the parts of the Go interface, over a world [W]; a [None]
    result of [Apply] is Go's nil map. *)
Class Provider (W : Type) := {
  provider_Plan : Node -> option Resource -> M engine_error W ProviderPlan;
  provider_Apply : Step -> M engine_error W (option gomap);
  provider_Destroy : Step -> M engine_error W unit;
  provider_RunOperation : Operation -> M engine_error W OperationResult;
  (** The optional interfaces [HostPlanner] and [HostPreflighter]; [None]: the
      type assertion on the provider fails. *)
  provider_PlanHost : option (HostSpec -> list Node -> gmap string (option Resource)
                              -> M engine_error W (gmap string ProviderPlan));
  provider_PreflightHost : option (HostSpec -> list Node -> M engine_error W unit);
}.

(** [Backend] *)
Class Backend (W : Type) := {
  backend_Read : string -> M engine_error W State;
  backend_Write : string -> State -> M engine_error W State;
  backend_Lock : string -> M engine_error W unit;
  backend_Unlock : string -> M engine_error W unit;
}.

(** ** One item *)

(** [scriptOutputNodeForOperation] *)
Definition script_output_node (operation : Operation) (payload : ScriptPayload)
    (address : string) (output : ScriptOutputPayload) : Node :=
  let desired := {["path" := GStr (so_Path output); "script" := GStr (sp_Name payload)]} in
  let desired :=
    if decide (sp_ComponentName payload = "") then <["scope" := GStr "host"]> desired
    else <["component" := GStr (sp_ComponentName payload)]> desired in
  let desired :=
    if decide (so_ScriptDigest output = "") then desired
    else <["script_digest" := GStr (so_ScriptDigest output)]> desired in
  {| n_Host := op_Host operation; n_Address := address; n_Kind := "component_script_output";
     n_Summary := ""; n_Source := op_Source operation; n_Lifecycle := None; n_Desired := desired;
     n_ProviderType := "component_script_output"; n_ProviderAddress := so_ProviderAddress output;
     n_ProviderPayload := ∅; n_DependsOn := []; n_ExplicitDependsOn := [];
     n_DependencySources := ∅ |}.

Definition scriptOutputNodeForOperation (operation : Operation) (address : string) : option Node :=
  match op_ScriptPayload operation with
  | None => None
  | Some payload =>
      match list_find (fun o => so_Address o = address) (sp_Outputs payload) with
      | Some (_, output) => Some (script_output_node operation payload address output)
      | None => None
      end
  end.

Definition operationWithStepContext (step : OperationStep) : Operation :=
  let op := os_Operation step in
  {| op_Host := op_Host op; op_Address := op_Address op; op_Action := op_Action op;
     op_Summary := op_Summary op; op_Sensitive := op_Sensitive op; op_DependsOn := op_DependsOn op;
     op_TriggeredBy := op_TriggeredBy op; op_CommandPreview := op_CommandPreview op;
     op_ScriptPayload :=
       match op_ScriptPayload op with
       | None => None
       | Some p =>
           Some {| sp_Name := sp_Name p; sp_ComponentName := sp_ComponentName p;
                   sp_Mode := sp_Mode p; sp_Kind := sp_Kind p; sp_Interpreter := sp_Interpreter p;
                   sp_Outputs := sp_Outputs p; sp_Run := sp_Run p; sp_Content := sp_Content p;
                   sp_Commands := sp_Commands p; sp_TriggerAddresses := os_TriggerAddresses step;
                   sp_TriggerPaths := os_TriggerPaths step |}
       end;
     op_Completion := op_Completion op; op_Source := op_Source op |}.

(** [removeStateDependencyReferences] *)
Definition removeStateDependencyReferences (removed : string) (resources : gmap string Resource)
  : gmap string Resource :=
  (fun r => if decide (removed ∈ r_DependsOn r)
            then set_r_DependsOn (filter (fun d => d <> removed) (r_DependsOn r)) r
            else r) <$> resources.

(** The state change of an executed resource step; [None]: nothing to write. *)
Definition commit_resource (step : Step) (observed : option gomap) (now : string) (st : State)
  : option State :=
  let a := s_Action step in
  if decide (a = ActionCreate \/ a = ActionUpdate) then
    if decide (n_Kind (s_Node step) = "component_script_output") then None
    else
      let observed := default (s_Observed step) observed in
      Some (set_Resources (<[s_Address step := resourceStateForStep step observed now]>
              (st_Resources st)) st)
  else if decide (a = ActionDelete \/ a = ActionDestroy \/ a = ActionForget) then
    Some (set_Resources (removeStateDependencyReferences (s_Address step)
            (delete (s_Address step) (st_Resources st))) st)
  else if decide (a = ActionAdopt) then
    Some (set_Resources (<[s_Address step := resourceStateForStep step (s_Observed step) now]>
            (st_Resources st)) st)
  else None.

(** The outputs and the completion mark an operation leaves in the state. *)
Definition output_node (host : string) (operation : Operation) (address : string) (observed : gomap)
  : Node :=
  match scriptOutputNodeForOperation operation address with
  | Some node => node
  | None =>
      {| n_Host := host; n_Address := address; n_Kind := "component_script_output"; n_Summary := "";
         n_Source := no_source; n_Lifecycle := None;
         n_Desired := {["path" := GStr (stringMapValue observed "path")]};
         n_ProviderType := "component_script_output";
         n_ProviderAddress := "component_script_output." +:+ address; n_ProviderPayload := ∅;
         n_DependsOn := []; n_ExplicitDependsOn := []; n_DependencySources := ∅ |}
  end.

Definition output_resource (host : string) (operation : Operation) (now : string) (address : string)
    (observed : gomap) : Resource :=
  resourceStateForStep
    {| s_Address := address; s_Host := host; s_Action := ActionUpdate; s_Summary := "";
       s_Node := output_node host operation address observed; s_Prior := None;
       s_Observed := observed; s_Ownership := "managed"; s_Order := 0 |} observed now.

Definition set_completion (field now : string) (r : Resource) : Resource :=
  {| r_Host := r_Host r; r_Kind := r_Kind r; r_ProviderType := r_ProviderType r;
     r_ProviderAddress := r_ProviderAddress r; r_Ownership := r_Ownership r;
     r_Lifecycle := r_Lifecycle r; r_Desired := r_Desired r;
     r_DesiredDigest := r_DesiredDigest r;
     r_Observed := SanitizeObserved (<[field := GStr (r_DesiredDigest r)]> (r_Observed r));
     r_UpdatedAt := now; r_Order := r_Order r; r_DependsOn := r_DependsOn r |}.

Definition commit_completion (step : OperationStep) (now : string) (resources : gmap string Resource)
  : result engine_error (gmap string Resource) :=
  match op_Completion (os_Operation step) with
  | None => Ok resources
  | Some completion =>
      match resources !! oc_ResourceAddress completion with
      | None => Err (CompletionMissing (os_Address step) (oc_ResourceAddress completion))
      | Some resource =>
          _ ← guard_or (bool_decide (oc_ObservedField completion <> ""))
               (CompletionFieldEmpty (os_Address step));
          Ok (<[oc_ResourceAddress completion := set_completion (oc_ObservedField completion) now resource]>
                resources)
      end
  end.

Definition commit_outputs (host : string) (step : OperationStep) (outcome : OperationResult)
    (now : string) (st : State) : result engine_error State :=
  let resources := fold_left
    (fun m p => <[p.1 := output_resource host (os_Operation step) now p.1 p.2]> m)
    (map_to_list (or_Outputs outcome)) (st_Resources st) in
  resources ← commit_completion step now resources;
  Ok (set_Resources resources st).

(** ** The runner *)

(** A monad transition on a pair of worlds: the remote world and the engine's
    map of host states. *)
Abbreviation cfg W := (W * gmap string State)%type.

Section runner.
Context {W : Type} `{!Provider W} `{!Backend W}.
Context (hosts : gset string) (now : string -> string).

(** Go's zero [State] of a missing map entry. *)
Definition zero_state : State :=
  {| st_Version := 0; st_Host := ""; st_Serial := 0; st_UpdatedAt := ""; st_Facts := None;
     st_Resources := ∅ |}.

Definition state_of (states : gmap string State) (host : string) : State :=
  default zero_state (states !! host).

(** Clone, change, write, record: one critical section of the host's lock. *)
Definition write_back (host : string) (st : State) (c : cfg W) : result engine_error unit * cfg W :=
  match backend_Write host st c.1 with
  | (Ok committed, w) => (Ok tt, (w, <[host := committed]> c.2))
  | (Err e, w) => (Err e, (w, c.2))
  end.

(** What the provider call of an item leaves for the commit. *)
Inductive called :=
| CalledResource (observed : option gomap)
| CalledOperation (outcome : OperationResult).

(** The provider call of [executeResourceStep]. *)
Definition call_resource (step : Step) (w : W) : result engine_error (option gomap) * W :=
  let a := s_Action step in
  if decide (a = ActionCreate \/ a = ActionUpdate \/ a = ActionDelete) then
    provider_Apply (providerStep step) w
  else if decide (a = ActionDestroy) then
    match provider_Destroy step w with (Ok _, w) => (Ok None, w) | (Err e, w) => (Err e, w) end
  else if decide (a = ActionAdopt \/ a = ActionForget \/ a = ActionNoOp) then (Ok None, w)
  else (Err (UnsupportedAction (s_Address step) a), w).

Definition call_item (item : executionItem) (w : W) : result engine_error called * W :=
  match ei_payload item with
  | EResource step =>
      if decide (s_Host step ∈ hosts) then
        match call_resource step w with
        | (Ok observed, w) => (Ok (CalledResource observed), w)
        | (Err e, w) => (Err e, w)
        end
      else (Err (UnknownHost (s_Address step) (s_Host step)), w)
  | EOperation step =>
      match provider_RunOperation (operationWithStepContext step) w with
      | (Ok outcome, w) => (Ok (CalledOperation outcome), w)
      | (Err e, w) => (Err e, w)
      end
  end.

(** The commit: the state change of [executeResourceStep] or
    [recordOperationOutputs], under the host's state lock. *)
Definition commit_item (item : executionItem) (r : called) (c : cfg W)
  : result engine_error unit * cfg W :=
  match ei_payload item, r with
  | EResource step, CalledResource observed =>
      match commit_resource step observed (now (ei_address item)) (state_of c.2 (s_Host step)) with
      | None => (Ok tt, c)
      | Some st => write_back (s_Host step) st c
      end
  | EOperation step, CalledOperation outcome =>
      let host := op_Host (os_Operation step) in
      if decide (or_Outputs outcome = ∅ /\ op_Completion (os_Operation step) = None) then (Ok tt, c)
      else if decide (host ∈ hosts) then
        match commit_outputs host step outcome (now (ei_address item)) (state_of c.2 host) with
        | Ok st => write_back host st c
        | Err e => (Err e, c)
        end
      else (Err (UnknownHost (os_Address step) host), c)
  | _, _ => (Ok tt, c)
  end.

(** [executeItem]: the call, then the commit. *)
Definition executeItem (item : executionItem) (c : cfg W) : result engine_error unit * cfg W :=
  match call_item item c.1 with
  | (Err e, w) => (Err e, (w, c.2))
  | (Ok r, w) => commit_item item r (w, c.2)
  end.

(** *** One wave: all interleavings *)

Inductive phase := Waiting | Calling (r : called) | Finished (r : result engine_error unit).

Record wave_state := { ws_cfg : cfg W; ws_phases : gmap string phase }.

Inductive wave_step (wave : list executionItem) : wave_state -> wave_state -> Prop :=
| ws_call item w states phases r w' :
    item ∈ wave -> phases !! ei_address item = Some Waiting ->
    call_item item w = (Ok r, w') ->
    wave_step wave {| ws_cfg := (w, states); ws_phases := phases |}
      {| ws_cfg := (w', states); ws_phases := <[ei_address item := Calling r]> phases |}
| ws_call_fails item w states phases e w' :
    item ∈ wave -> phases !! ei_address item = Some Waiting ->
    call_item item w = (Err e, w') ->
    wave_step wave {| ws_cfg := (w, states); ws_phases := phases |}
      {| ws_cfg := (w', states); ws_phases := <[ei_address item := Finished (Err e)]> phases |}
| ws_commit item c phases r out c' :
    item ∈ wave -> phases !! ei_address item = Some (Calling r) ->
    commit_item item r c = (out, c') ->
    wave_step wave {| ws_cfg := c; ws_phases := phases |}
      {| ws_cfg := c'; ws_phases := <[ei_address item := Finished out]> phases |}
| ws_cancelled item c phases e :
    item ∈ wave -> phases !! ei_address item = Some Waiting ->
    wave_step wave {| ws_cfg := c; ws_phases := phases |}
      {| ws_cfg := c; ws_phases := <[ei_address item := Finished (Err e)]> phases |}.

Definition start_wave (wave : list executionItem) (c : cfg W) : wave_state :=
  {| ws_cfg := c; ws_phases := list_to_map ((fun i => (ei_address i, Waiting)) <$> wave) |}.

Definition all_finished (s : wave_state) : Prop :=
  map_Forall (fun _ p => exists r, p = Finished r) (ws_phases s).

(** A complete run of a wave and the result of each item. *)
Definition wave_run (wave : list executionItem) (c : cfg W) (results : gmap string (result engine_error unit))
    (c' : cfg W) : Prop :=
  exists s, rtc (wave_step wave) (start_wave wave c) s /\ ws_cfg s = c'
    /\ ws_phases s = Finished <$> results.

(** *** The sequential executor *)

Fixpoint wave_seq (wave : list executionItem) (c : cfg W)
    (results : gmap string (result engine_error unit))
  : gmap string (result engine_error unit) * cfg W :=
  match wave with
  | [] => (results, c)
  | item :: wave =>
      let '(r, c) := executeItem item c in
      wave_seq wave c (<[ei_address item := r]> results)
  end.

(** *** All waves: failures block their dependents *)

Record run_log := {
  rl_failed : gmap string engine_error;
  rl_blocked : gmap string string;
  rl_first : option engine_error;
  rl_executed : list string;       (* every item started, in wave order *)
}.
Definition no_log : run_log :=
  {| rl_failed := ∅; rl_blocked := ∅; rl_first := None; rl_executed := [] |}.

Fixpoint blockedDependency (deps : list string) (failed : gmap string engine_error)
    (blocked : gmap string string) : string :=
  match deps with
  | [] => ""
  | dep :: deps =>
      match failed !! dep with
      | Some _ => dep
      | None => match blocked !! dep with
                | Some blockedBy => blockedBy
                | None => blockedDependency deps failed blocked
                end
      end
  end.

(** The first pass over a wave: [blocked] grows while the items are sorted out. *)
Fixpoint split_wave (wave : list executionItem) (failed : gmap string engine_error)
    (blocked : gmap string string) : list executionItem * gmap string string :=
  match wave with
  | [] => ([], blocked)
  | item :: wave =>
      let dep := blockedDependency (ei_dependsOn item) failed blocked in
      if decide (dep <> "") then split_wave wave failed (<[ei_address item := dep]> blocked)
      else let '(runnable, blocked) := split_wave wave failed blocked in
           (item :: runnable, blocked)
  end.

Definition record_result (results : gmap string (result engine_error unit)) (log : run_log)
    (item : executionItem) : run_log :=
  let executed := rl_executed log ++ [ei_address item] in
  match results !! ei_address item with
  | Some (Err e) =>
      {| rl_failed := <[ei_address item := e]> (rl_failed log); rl_blocked := rl_blocked log;
         rl_first := match rl_first log with None => Some e | first => first end;
         rl_executed := executed |}
  | _ => {| rl_failed := rl_failed log; rl_blocked := rl_blocked log; rl_first := rl_first log;
            rl_executed := executed |}
  end.

Definition set_blocked (b : gmap string string) (log : run_log) : run_log :=
  {| rl_failed := rl_failed log; rl_blocked := b; rl_first := rl_first log;
     rl_executed := rl_executed log |}.

(** [runExecutionWaves] over all interleavings. *)
Inductive run_waves : list (list executionItem) -> run_log -> cfg W -> run_log -> cfg W -> Prop :=
| rw_nil log c : run_waves [] log c log c
| rw_wave wave waves log c runnable blocked results c1 log' c' :
    split_wave wave (rl_failed log) (rl_blocked log) = (runnable, blocked) ->
    wave_run runnable c results c1 ->
    run_waves waves (fold_left (record_result results) runnable (set_blocked blocked log)) c1 log' c' ->
    run_waves (wave :: waves) log c log' c'.

(** [runExecutionWaves] with the items of a wave one after the other. *)
Fixpoint runExecutionWaves (waves : list (list executionItem)) (log : run_log) (c : cfg W)
  : run_log * cfg W :=
  match waves with
  | [] => (log, c)
  | wave :: waves =>
      let '(runnable, blocked) := split_wave wave (rl_failed log) (rl_blocked log) in
      let '(results, c) := wave_seq runnable c ∅ in
      runExecutionWaves waves
        (fold_left (record_result results) runnable (set_blocked blocked log)) c
  end.
End runner.
