(* ===== verification/ExecuteLemmas.v ===== *)
(** * Lemmas on the wave runner

    The interface laws of backends and providers, the effect of one commit, the
    invariants of a wave over all interleavings, and of a whole run. *)
From S2P Require Import Prelude Sha256 GoValue GoStrings IR State Moves Graph Schedule Engine.
From S2P Require Import Execute.

(** ** Interface laws *)

(** A backend keeps, per host, the document its last successful write returned,
    which is the prepared form of the document it was given; a write to one
    host leaves the others alone.  Nothing is said of failed writes. *)
Class BackendLaws (W : Type) `{!Backend W} := {
  backend_view : W -> string -> State;
  backend_write_ok : forall host st w st' w',
    backend_Write host st w = (Ok st', w') ->
    (exists now, PrepareWrite now st host = Ok st')
    /\ forall k, backend_view w' k = if decide (k = host) then st' else backend_view w k;
}.

(** Provider calls do not touch state documents, and an operation reports only
    outputs its payload declares. *)
Class ProviderLaws (W : Type) `{!Provider W} `{!Backend W} `{!BackendLaws W} := {
  provider_apply_frame : forall step w r w', provider_Apply step w = (r, w') ->
    forall k, backend_view w' k = backend_view w k;
  provider_destroy_frame : forall step w r w', provider_Destroy step w = (r, w') ->
    forall k, backend_view w' k = backend_view w k;
  provider_run_frame : forall op w r w', provider_RunOperation op w = (r, w') ->
    forall k, backend_view w' k = backend_view w k;
  provider_outputs : forall op w r w', provider_RunOperation op w = (Ok r, w') ->
    forall a, is_Some (or_Outputs r !! a) ->
      exists p, op_ScriptPayload op = Some p /\ a ∈ so_Address <$> sp_Outputs p;
}.

(** ** Recorded digests *)

Definition digests (m : gmap string Resource) (a : string) : option string :=
  r_DesiredDigest <$> m !! a.

Lemma digests_fmap (f : Resource -> Resource) m a :
  (forall r, r_DesiredDigest (f r) = r_DesiredDigest r) -> digests (f <$> m) a = digests m a.
Proof.
  intros Hf. unfold digests. rewrite lookup_fmap. destruct (m !! a); cbn; [by rewrite Hf|done].
Qed.

Lemma digests_insert_ne m a b r : a <> b -> digests (<[b := r]> m) a = digests m a.
Proof. intros. unfold digests. by rewrite lookup_insert_ne. Qed.

Lemma digests_insert_eq m a r : digests (<[a := r]> m) a = Some (r_DesiredDigest r).
Proof. unfold digests. by rewrite lookup_insert_eq. Qed.

Lemma PrepareWrite_digests now st host st' a :
  PrepareWrite now st host = Ok st' -> digests (st_Resources st') a = digests (st_Resources st) a.
Proof.
  intros (n & [_ ->]%Normalize_inv & ->)%PrepareWrite_Ok. cbn.
  apply digests_fmap. intros r. unfold fill_host. by case_decide.
Qed.

Lemma digests_removed removed m a :
  digests (removeStateDependencyReferences removed m) a = digests m a.
Proof. apply digests_fmap. intros r. by case_decide. Qed.

(** Contradictory assumptions on an action. *)
Ltac action_conflict :=
  exfalso; unfold ActionCreate, ActionUpdate, ActionDelete, ActionDestroy, ActionAdopt,
    ActionForget, ActionNoOp in *; intuition congruence.

(** What an executed step must have left in the state. *)
Definition recorded (step : Step) (d : option string) : Prop :=
  let a := s_Action step in
  if decide ((a = ActionCreate \/ a = ActionUpdate) /\ n_Kind (s_Node step) = "component_script_output")
  then True
  else if decide (a = ActionCreate \/ a = ActionUpdate \/ a = ActionAdopt) then
    d = Some (DesiredDigest (n_Desired (s_Node step)))
  else if decide (a = ActionDelete \/ a = ActionDestroy \/ a = ActionForget) then d = None
  else True.

Lemma commit_resource_other step observed now st st' a :
  commit_resource step observed now st = Some st' -> a <> s_Address step ->
  digests (st_Resources st') a = digests (st_Resources st) a.
Proof.
  unfold commit_resource. intros H Hne. repeat case_decide; try done; injection H as <-; cbn.
  - by apply digests_insert_ne.
  - rewrite digests_removed. unfold digests. by rewrite lookup_delete_ne.
  - by apply digests_insert_ne.
Qed.

Lemma commit_resource_own step observed now st st' :
  commit_resource step observed now st = Some st' ->
  recorded step (digests (st_Resources st') (s_Address step)).
Proof.
  unfold commit_resource, recorded. intros H.
  repeat case_decide; try done; try action_conflict; injection H as <-; cbn;
    rewrite ?digests_insert_eq, ?digests_removed; try done.
  unfold digests. by rewrite lookup_delete_eq.
Qed.

Lemma commit_resource_None step observed now st d :
  commit_resource step observed now st = None -> recorded step d.
Proof. unfold commit_resource, recorded. intros. repeat case_decide; try done; action_conflict. Qed.

Lemma commit_outputs_other host step outcome now st st' a :
  commit_outputs host step outcome now st = Ok st' -> or_Outputs outcome !! a = None ->
  digests (st_Resources st') a = digests (st_Resources st) a.
Proof.
  unfold commit_outputs, commit_completion. intros H Ha. res_inv. cbn.
  set (m := fold_left _ _ _) in *.
  assert (digests m a = digests (st_Resources st) a) as <-.
  { unfold m. clear -Ha.
    assert (forall p, p ∈ map_to_list (or_Outputs outcome) -> p.1 <> a) as Hne.
    { intros [k v] Hin%elem_of_map_to_list. cbn. congruence. }
    revert Hne. generalize (st_Resources st). induction (map_to_list _) as [|p l IH]; intros m Hne; [done|].
    cbn [fold_left]. rewrite IH by (intros; apply Hne; by right).
    apply digests_insert_ne. intros ->. by apply (Hne p); [left|]. }
  destruct (op_Completion _) as [completion|]; [|by injection H0 as ->].
  destruct (m !! oc_ResourceAddress completion) as [r|] eqn:E; [|done]. res_inv.
  destruct (decide (a = oc_ResourceAddress completion)) as [->|Hne].
  - rewrite digests_insert_eq. unfold digests. by rewrite E.
  - by apply digests_insert_ne.
Qed.

Section item.
Context {W : Type} `{!Provider W} `{!Backend W} `{!BackendLaws W} `{!ProviderLaws W}.
Context (hosts : gset string) (now : string -> string).

Definition recorded_digest (states : gmap string State) (host a : string) : option string :=
  digests (st_Resources (state_of states host)) a.

(** The engine's states are the stored documents. *)
Definition synced (c : cfg W) : Prop := forall h, h ∈ hosts -> backend_view c.1 h = state_of c.2 h.

(** The addresses a commit may change. *)
Definition touched (item : executionItem) : list string :=
  match ei_payload item with
  | EResource step => [s_Address step]
  | EOperation step =>
      match op_ScriptPayload (os_Operation step) with
      | Some p => so_Address <$> sp_Outputs p
      | None => []
      end
  end.

(** A call result that belongs to the item. *)
Definition fits (item : executionItem) (r : called) : Prop :=
  match ei_payload item, r with
  | EResource _, CalledResource _ => True
  | EOperation _, CalledOperation outcome =>
      forall a, is_Some (or_Outputs outcome !! a) -> a ∈ touched item
  | _, _ => False
  end.

Lemma call_item_frame item w r w' :
  call_item hosts item w = (r, w') -> forall k, backend_view w' k = backend_view w k.
Proof.
  unfold call_item, call_resource. intros H. destruct (ei_payload item) as [step|step].
  - case_decide; [|by injection H as _ <-].
    repeat case_decide.
    + destruct (provider_Apply _ w) as [[o|e] w1] eqn:E; injection H as _ <-;
        by eapply provider_apply_frame.
    + destruct (provider_Destroy _ w) as [[o|e] w1] eqn:E; injection H as _ <-;
        by eapply provider_destroy_frame.
    + by injection H as _ <-.
    + by injection H as _ <-.
  - destruct (provider_RunOperation _ w) as [[o|e] w1] eqn:E; injection H as _ <-;
      by eapply provider_run_frame.
Qed.

Lemma call_item_fits item w r w' : call_item hosts item w = (Ok r, w') -> fits item r.
Proof.
  unfold call_item, fits, touched. intros H. destruct (ei_payload item) as [step|step].
  - case_decide; [|done]. destruct (call_resource step w) as [[o|e] w1]; [|done].
    by injection H as <- _.
  - destruct (provider_RunOperation _ w) as [[o|e] w1] eqn:E; [|done]. injection H as <- _.
    intros a Ha. destruct (provider_outputs _ _ _ _ E a Ha) as (p & Hp & Hin).
    unfold operationWithStepContext in Hp. cbn in Hp.
    destruct (op_ScriptPayload (os_Operation step)) as [q|]; [|done]. by injection Hp as <-.
Qed.

Lemma write_back_Ok host st c u c' :
  write_back host st c = (Ok u, c') ->
  exists st', (exists t, PrepareWrite t st host = Ok st') /\ c'.2 = <[host := st']> c.2
    /\ forall k, backend_view c'.1 k = if decide (k = host) then st' else backend_view c.1 k.
Proof.
  unfold write_back. destruct (backend_Write host st c.1) as [[st'|e] w] eqn:E; [|done].
  intros [= _ <-]. apply backend_write_ok in E as [Hp Hv]. by exists st'.
Qed.

Lemma write_back_synced host st c u c' :
  write_back host st c = (Ok u, c') -> synced c -> synced c'.
Proof.
  intros (st' & _ & E & Hv)%write_back_Ok Hs h Hh. rewrite Hv, E. unfold state_of.
  case_decide as Heq; [subst; by rewrite lookup_insert_eq|].
  rewrite lookup_insert_ne by done. by apply Hs.
Qed.

Lemma write_back_digest host st c u c' h a :
  write_back host st c = (Ok u, c') ->
  digests (st_Resources st) a = recorded_digest c.2 host a ->
  recorded_digest c'.2 h a = recorded_digest c.2 h a.
Proof.
  intros (st' & (t & Hp) & E & _)%write_back_Ok Hd. unfold recorded_digest, state_of in *.
  rewrite E. destruct (decide (h = host)) as [->|]; [|by rewrite lookup_insert_ne].
  rewrite lookup_insert_eq. cbn. by rewrite (PrepareWrite_digests _ _ _ _ _ Hp).
Qed.

Lemma commit_item_synced item r c c' :
  commit_item hosts now item r c = (Ok tt, c') -> synced c -> synced c'.
Proof.
  unfold commit_item. destruct (ei_payload item) as [step|step], r as [o|o];
    try (intros [= <-]; done).
  - destruct (commit_resource _ _ _ _) as [st|]; [apply write_back_synced|by intros [= <-]].
  - case_decide; [by intros [= <-]|]. case_decide; [|done].
    destruct (commit_outputs _ _ _ _ _) as [st|e]; [apply write_back_synced|done].
Qed.

(** A commit changes recorded digests at the item's own addresses only... *)
Lemma commit_item_other item r c c' h a :
  fits item r -> commit_item hosts now item r c = (Ok tt, c') -> a ∉ touched item ->
  recorded_digest c'.2 h a = recorded_digest c.2 h a.
Proof.
  unfold commit_item, fits, touched. destruct (ei_payload item) as [step|step], r as [o|o]; try done.
  - intros _ H Ha. destruct (commit_resource _ _ _ _) as [st|] eqn:E; [|by injection H as <-].
    apply (write_back_digest _ _ _ _ _ _ _ H). rewrite list_elem_of_singleton in Ha.
    by apply (commit_resource_other _ _ _ _ _ _ E).
  - intros Hf H Ha. case_decide; [by injection H as <-|]. case_decide; [|done].
    destruct (commit_outputs _ _ _ _ _) as [st|e] eqn:E; [|done].
    apply (write_back_digest _ _ _ _ _ _ _ H). apply (commit_outputs_other _ _ _ _ _ _ _ E).
    apply eq_None_not_Some. intros Hs. apply Ha, Hf, Hs.
Qed.

(** ... and leaves there what the step calls for. *)
Lemma commit_item_own item step r c c' :
  ei_payload item = EResource step -> fits item r ->
  commit_item hosts now item r c = (Ok tt, c') ->
  recorded step (recorded_digest c'.2 (s_Host step) (s_Address step)).
Proof.
  unfold commit_item, fits. intros ->. destruct r as [o|o]; [|done]. intros _ H.
  destruct (commit_resource _ _ _ _) as [st|] eqn:E; [|by eapply commit_resource_None].
  apply write_back_Ok in H as (st' & (t & Hp) & E' & _). unfold recorded_digest, state_of.
  rewrite E', lookup_insert_eq. cbn. rewrite (PrepareWrite_digests _ _ _ _ _ Hp).
  by eapply commit_resource_own.
Qed.
End item.
