(* ===== verification/ExecuteRun.v ===== *)
(** * Invariants of waves and of whole runs *)
From S2P Require Import Prelude Sha256 GoValue GoStrings IR State Moves Graph Schedule Engine.
From S2P Require Import Execute ExecuteLemmas.

(** No item writes at the address of another resource item. *)
Definition separate (items : list executionItem) : Prop :=
  forall i j step, i ∈ items -> j ∈ items -> ei_address i <> ei_address j ->
    ei_payload i = EResource step -> s_Address step ∉ touched j.

Definition unique_items (items : list executionItem) : Prop := NoDup (ei_address <$> items).

Section wave.
Context {W : Type} `{!Provider W} `{!Backend W} `{!BackendLaws W} `{!ProviderLaws W}.
Context (hosts : gset string) (now : string -> string).

Definition no_errors (phases : gmap string phase) : Prop :=
  forall a e, phases !! a <> Some (Finished (Err e)).

(** What holds of a wave in progress as long as nothing failed. *)
Record wave_inv (wave : list executionItem) (c0 : cfg W) (s : wave_state) : Prop := {
  wi_synced : synced hosts (ws_cfg s);
  wi_fits : forall i r, i ∈ wave -> ws_phases s !! ei_address i = Some (Calling r) -> fits i r;
  wi_other : forall h a, (forall i, i ∈ wave -> a ∉ touched i) ->
    recorded_digest (ws_cfg s).2 h a = recorded_digest c0.2 h a;
  wi_done : forall i step, i ∈ wave -> ei_payload i = EResource step ->
    ws_phases s !! ei_address i = Some (Finished (Ok tt)) ->
    recorded step (recorded_digest (ws_cfg s).2 (s_Host step) (s_Address step));
}.

Lemma unique_eq wave i j :
  unique_items wave -> i ∈ wave -> j ∈ wave -> ei_address i = ei_address j -> i = j.
Proof. intros. by eapply (NoDup_fmap_eq ei_address). Qed.

Lemma wave_step_errors wave s s' :
  wave_step hosts now wave s s' -> no_errors (ws_phases s') -> no_errors (ws_phases s).
Proof.
  intros Hstep Hs a e Ha.
  assert (forall (i : executionItem) p q, ws_phases s !! ei_address i = Some p ->
    ws_phases s' = <[ei_address i := q]> (ws_phases s) -> (forall e, p <> Finished (Err e)) -> False) as Hgo.
  { intros i p q Hp E Hne. apply (Hs a e). rewrite E, lookup_insert_ne; [done|].
    intros Heq. rewrite Heq, Ha in Hp. injection Hp as <-. by apply (Hne e). }
  destruct Hstep as [i w states phases r w' _ Hp _|i w states phases e' w' _ Hp _
    |i c phases r out c' _ Hp _|i c phases e' _ Hp]; cbn in *; by eapply Hgo.
Qed.

Lemma wave_inv_step wave c0 s s' :
  unique_items wave -> separate wave -> wave_step hosts now wave s s' ->
  no_errors (ws_phases s') -> wave_inv wave c0 s -> wave_inv wave c0 s'.
Proof.
  intros Hu Hsep Hstep Hne [H1 H2 H3 H4].
  destruct Hstep as [i w states phases r w' Hi Hp Hcall|i w states phases e w' Hi Hp _
    |i c phases r out c' Hi Hp Hcommit|i c phases e Hi Hp]; cbn in *.
  - pose proof (call_item_fits _ _ _ _ _ Hcall) as Hfits. split; cbn.
    + intros h Hh. rewrite (call_item_frame _ _ _ _ _ Hcall). by apply H1.
    + intros j q Hj. rewrite lookup_insert_Some. intros [[Heq [= <-]]|[_ Hq]]; [|eauto].
      by rewrite (unique_eq wave j i).
    + done.
    + intros j step Hj Hpay. rewrite lookup_insert_Some. intros [[_ ?]|[_ Hq]]; [done|eauto].
  - destruct (Hne (ei_address i) e). apply lookup_insert_eq.
  - destruct out as [[]|e]; [|destruct (Hne (ei_address i) e); apply lookup_insert_eq].
    pose proof (H2 i r Hi Hp) as Hfits. split; cbn.
    + by eapply commit_item_synced.
    + intros j q Hj. rewrite lookup_insert_Some. intros [[_ ?]|[_ Hq]]; [done|eauto].
    + intros h a Ha. rewrite (commit_item_other _ _ _ _ _ _ h a Hfits Hcommit) by auto. by apply H3.
    + intros j step Hj Hpay. rewrite lookup_insert_Some. intros [[Heq _]|[Hneq Hq]].
      * assert (j = i) as -> by (by apply (unique_eq wave)).
        by apply (commit_item_own _ _ _ _ _ _ _ Hpay Hfits Hcommit).
      * rewrite (commit_item_other _ _ _ _ _ _ _ _ Hfits Hcommit); [by apply (H4 j)|].
        by apply (Hsep j i).
  - destruct (Hne (ei_address i) e). apply lookup_insert_eq.
Qed.

Lemma start_wave_lookup wave (c : cfg W) a p :
  ws_phases (start_wave wave c) !! a = Some p -> p = Waiting.
Proof.
  cbn. intros (i & [= _ <-] & _)%elem_of_list_to_map_2%list_elem_of_fmap. done.
Qed.

Lemma start_wave_inv wave (c : cfg W) : synced hosts c -> wave_inv wave c (start_wave wave c).
Proof.
  intros Hs. split; [done|..|done|]; intros;
    match goal with H : _ !! _ = Some _ |- _ => by apply start_wave_lookup in H end.
Qed.

Lemma wave_steps_inv wave c0 s s' :
  unique_items wave -> separate wave -> rtc (wave_step hosts now wave) s s' ->
  no_errors (ws_phases s') -> wave_inv wave c0 s -> wave_inv wave c0 s'.
Proof.
  intros Hu Hsep Hrtc. induction Hrtc as [s|s s1 s' Hstep Hrtc IH]; [done|]. intros Hne Hinv.
  apply IH; [done|]. eapply wave_inv_step; [done..| |done].
  clear -Hrtc Hne. induction Hrtc as [|s1 s2 s3 H12 _ IH]; [done|].
  eapply wave_step_errors; [done|auto].
Qed.

(** The phases keep their domain. *)
Lemma wave_steps_dom wave s s' :
  rtc (wave_step hosts now wave) s s' -> dom (ws_phases s') = dom (ws_phases s).
Proof.
  induction 1 as [|s s1 s' Hstep _ IH]; [done|]. rewrite IH.
  destruct Hstep; cbn; rewrite dom_insert_lookup_L; eauto.
Qed.

Lemma wave_run_dom wave c results c' a :
  wave_run hosts now wave c results c' ->
  is_Some (results !! a) <-> exists i, i ∈ wave /\ ei_address i = a.
Proof.
  intros (s & Hrtc & _ & Hph). rewrite <- elem_of_dom.
  rewrite <- (dom_fmap_L Finished results), <- Hph, (wave_steps_dom _ _ _ Hrtc). cbn.
  rewrite dom_list_to_map_L, elem_of_list_to_set, <- list_fmap_compose, list_elem_of_fmap.
  naive_solver.
Qed.

(** A wave that ends without errors. *)
Lemma wave_run_ok wave c results c' :
  unique_items wave -> separate wave -> synced hosts c ->
  wave_run hosts now wave c results c' ->
  (forall i, i ∈ wave -> forall e, results !! ei_address i <> Some (Err e)) ->
  synced hosts c'
  /\ (forall h a, (forall i, i ∈ wave -> a ∉ touched i) ->
        recorded_digest c'.2 h a = recorded_digest c.2 h a)
  /\ (forall i step, i ∈ wave -> ei_payload i = EResource step ->
        recorded step (recorded_digest c'.2 (s_Host step) (s_Address step))).
Proof.
  intros Hu Hsep Hs Hrun Hok. pose proof (wave_run_dom wave c results c') as Hdom.
  pose proof Hrun as (s & Hrtc & <- & Hph).
  assert (no_errors (ws_phases s)) as Hne.
  { intros a e. rewrite Hph, lookup_fmap. intros (r & Hr & [= <-])%fmap_Some.
    destruct (proj1 (Hdom a Hrun)) as (i & Hi & <-); [eauto|]. by apply (Hok i Hi e). }
  pose proof (wave_steps_inv wave c _ _ Hu Hsep Hrtc Hne (start_wave_inv wave c Hs)) as [H1 _ H3 H4].
  split; [done|]. split; [done|]. intros i step Hi Hpay. apply (H4 i); [done..|].
  destruct (proj2 (Hdom (ei_address i) Hrun)) as [[[]|e] Hr]; [by exists i| |].
  - by rewrite Hph, lookup_fmap, Hr.
  - by destruct (Hok i Hi e).
Qed.
End wave.

(** ** The log of a run *)

Lemma record_result_blocked results l log :
  rl_blocked (fold_left (record_result results) l log) = rl_blocked log.
Proof.
  revert log; induction l as [|i l IH]; intros log; [done|]. cbn [fold_left]. rewrite IH.
  unfold record_result. by destruct (results !! _) as [[]|].
Qed.

Lemma record_result_executed results l log :
  rl_executed (fold_left (record_result results) l log) = rl_executed log ++ (ei_address <$> l).
Proof.
  revert log; induction l as [|i l IH]; intros log; cbn [fold_left]; [by rewrite app_nil_r|].
  rewrite IH. unfold record_result. by destruct (results !! _) as [[]|]; cbn; rewrite <- app_assoc.
Qed.

(** The first error is remembered. *)
Lemma record_result_one results log i :
  rl_first (record_result results log i) = None ->
  rl_first log = None /\ rl_failed (record_result results log i) = rl_failed log
  /\ forall e, results !! ei_address i <> Some (Err e).
Proof.
  unfold record_result. destruct (results !! ei_address i) as [[u|e]|]; cbn; [done| |done].
  by destruct (rl_first log).
Qed.

Lemma record_result_first results l log :
  rl_first (fold_left (record_result results) l log) = None ->
  rl_first log = None /\ rl_failed (fold_left (record_result results) l log) = rl_failed log
  /\ forall i, i ∈ l -> forall e, results !! ei_address i <> Some (Err e).
Proof.
  revert log; induction l as [|i l IH]; intros log; cbn [fold_left].
  { intros H. split; [done|]. split; [done|]. by intros i ?%elem_of_nil. }
  intros (H1 & H2 & H3)%IH. apply record_result_one in H1 as (H1 & H4 & H5).
  split; [done|]. split; [congruence|]. intros j [->|Hj]%elem_of_cons; auto.
Qed.

Lemma split_wave_free wave :
  split_wave wave ∅ ∅ = (wave, ∅).
Proof.
  assert (forall deps, blockedDependency deps ∅ ∅ = "") as Hb.
  { induction deps as [|d deps IH]; [done|]. cbn. by rewrite !lookup_empty. }
  induction wave as [|i wave IH]; [done|]. cbn [split_wave]. rewrite Hb.
  rewrite decide_False by tauto. by rewrite IH.
Qed.

Section run.
Context {W : Type} `{!Provider W} `{!Backend W} `{!BackendLaws W} `{!ProviderLaws W}.
Context (hosts : gset string) (now : string -> string).

Lemma run_waves_first waves log (c : cfg W) log' c' :
  run_waves hosts now waves log c log' c' -> rl_first log' = None -> rl_first log = None.
Proof.
  induction 1 as [|wave waves log c runnable blocked results c1 log' c' _ _ _ IH]; [done|].
  intros (H & _)%IH%record_result_first. done.
Qed.

Lemma run_waves_ok waves log (c : cfg W) log' c' :
  run_waves hosts now waves log c log' c' ->
  rl_first log' = None -> rl_failed log = ∅ -> rl_blocked log = ∅ ->
  unique_items (concat waves) -> separate (concat waves) -> synced hosts c ->
  synced hosts c'
  /\ rl_executed log' = rl_executed log ++ (ei_address <$> concat waves)
  /\ (forall h a, (forall i, i ∈ concat waves -> a ∉ touched i) ->
        recorded_digest c'.2 h a = recorded_digest c.2 h a)
  /\ (forall i step, i ∈ concat waves -> ei_payload i = EResource step ->
        recorded step (recorded_digest c'.2 (s_Host step) (s_Address step))).
Proof.
  induction 1 as [log c|wave waves log c runnable blocked results c1 log' c' Hsplit Hwave Hrun IH].
  { intros _ _ _ _ _ Hs. cbn. rewrite app_nil_r. repeat split; [done|]. set_solver. }
  intros Hfirst Hf Hb Hu Hsep Hs. rewrite Hf, Hb, split_wave_free in Hsplit.
  injection Hsplit as <- <-. cbn [concat] in Hu, Hsep.
  pose proof (run_waves_first _ _ _ _ _ Hrun Hfirst) as (_ & Hfail & Hres)%record_result_first.
  unfold unique_items in Hu. rewrite fmap_app in Hu.
  apply NoDup_app in Hu as (Hu1 & Hdis & Hu2).
  destruct (wave_run_ok hosts now wave c results c1) as (Hs1 & Ho1 & Hd1); [done| |done..|].
  { intros i j step Hi Hj. apply Hsep; apply elem_of_app; by left. }
  destruct IH as (Hs' & Hexec & Ho & Hd); [done| | |done| |done|].
  { rewrite Hfail. cbn. done. }
  { by rewrite record_result_blocked. }
  { intros i j step Hi Hj. apply Hsep; apply elem_of_app; by right. }
  split; [done|]. split.
  { rewrite Hexec, record_result_executed. cbn. by rewrite <- app_assoc, <- fmap_app. }
  cbn [concat]. setoid_rewrite elem_of_app. split.
  - intros h a Ha. rewrite Ho by auto. apply Ho1. auto.
  - intros i step [Hi|Hi] Hpay; [|by apply (Hd i)].
    rewrite Ho; [by apply (Hd1 i)|]. intros j Hj. apply (Hsep i j); [apply elem_of_app; by left
      |apply elem_of_app; by right| |done].
    intros Heq. apply (Hdis (ei_address i)); [by apply list_elem_of_fmap_2|].
    rewrite Heq. by apply list_elem_of_fmap_2.
Qed.
End run.

(** ** The sequential executor is one interleaving *)
Section sequential.
Context {W : Type} `{!Provider W} `{!Backend W}.
Context (hosts : gset string) (now : string -> string).

Lemma execute_steps wave item (c : cfg W) phases r c' :
  item ∈ wave -> phases !! ei_address item = Some Waiting ->
  executeItem hosts now item c = (r, c') ->
  rtc (wave_step hosts now wave) {| ws_cfg := c; ws_phases := phases |}
    {| ws_cfg := c'; ws_phases := <[ei_address item := Finished r]> phases |}.
Proof.
  intros Hi Hp. unfold executeItem. destruct c as [w states]. cbn.
  destruct (call_item hosts item w) as [[q|e] w1] eqn:Ecall.
  - intros Hcommit. eapply rtc_l; [by eapply ws_call|]. apply rtc_once.
    rewrite <- (insert_insert_eq phases (ei_address item) (Finished r) (Calling q)).
    eapply ws_commit; [done|by apply lookup_insert_eq|done].
  - intros [= <- <-]. apply rtc_once. by eapply ws_call_fails.
Qed.

Lemma wave_seq_steps wave rest (c : cfg W) results phases results' c' :
  wave_seq hosts now rest c results = (results', c') ->
  NoDup (ei_address <$> rest) -> (forall i, i ∈ rest -> i ∈ wave) ->
  (forall i, i ∈ rest -> phases !! ei_address i = Some Waiting) ->
  exists phases', rtc (wave_step hosts now wave) {| ws_cfg := c; ws_phases := phases |}
                    {| ws_cfg := c'; ws_phases := phases' |}
    /\ (forall a, a ∈ ei_address <$> rest -> phases' !! a = Finished <$> results' !! a
                                             /\ is_Some (results' !! a))
    /\ (forall a, a ∉ ei_address <$> rest -> phases' !! a = phases !! a /\ results' !! a = results !! a).
Proof.
  revert c results phases. induction rest as [|i rest IH]; intros c results phases Hrun Hnd Hsub Hw.
  { cbn in Hrun. injection Hrun as -> ->. exists phases. split; [apply rtc_refl|].
    split; [by intros a ?%elem_of_nil|done]. }
  cbn [wave_seq] in Hrun. destruct (executeItem hosts now i c) as [r c1] eqn:E.
  rewrite fmap_cons in Hnd. apply NoDup_cons in Hnd as [Hni Hnd].
  destruct (IH c1 (<[ei_address i := r]> results) (<[ei_address i := Finished r]> phases) Hrun Hnd)
    as (phases' & Hrtc & Hin & Hout).
  { intros j Hj. apply Hsub. by right. }
  { intros j Hj. rewrite lookup_insert_ne; [apply Hw; by right|].
    intros Heq. apply Hni. rewrite Heq. by apply list_elem_of_fmap_2. }
  exists phases'. split; [etrans; [|exact Hrtc]; apply execute_steps; [apply Hsub; by left|apply Hw; by left|done]|].
  split.
  - intros a. rewrite fmap_cons, elem_of_cons. intros [->|Ha]; [|by apply Hin].
    destruct (Hout _ Hni) as [-> ->]. rewrite !lookup_insert_eq. split; [done|eauto].
  - intros a. rewrite fmap_cons, not_elem_of_cons. intros [Hne Ha].
    destruct (Hout a Ha) as [-> ->]. by rewrite !lookup_insert_ne.
Qed.

Lemma wave_seq_run wave (c : cfg W) results c' :
  unique_items wave -> wave_seq hosts now wave c ∅ = (results, c') ->
  wave_run hosts now wave c results c'.
Proof.
  intros Hu Hrun.
  destruct (wave_seq_steps wave wave c ∅ (ws_phases (start_wave wave c)) results c')
    as (phases' & Hrtc & Hin & Hout); [done..| |].
  { intros i Hi. cbn. apply elem_of_list_to_map.
    - by rewrite <- list_fmap_compose.
    - apply list_elem_of_fmap. by exists i. }
  exists {| ws_cfg := c'; ws_phases := phases' |}. split; [done|]. split; [done|]. cbn.
  apply map_eq. intros a. rewrite lookup_fmap.
  destruct (decide (a ∈ ei_address <$> wave)) as [Ha|Ha]; [by destruct (Hin a Ha)|].
  destruct (Hout a Ha) as [-> ->]. rewrite lookup_empty. cbn.
  apply not_elem_of_list_to_map. by rewrite <- list_fmap_compose.
Qed.

Lemma split_wave_sublist wave failed blocked runnable blocked' :
  split_wave wave failed blocked = (runnable, blocked') -> runnable `sublist_of` wave.
Proof.
  revert blocked runnable blocked'. induction wave as [|i wave IH]; intros blocked runnable blocked';
    cbn [split_wave]; [by intros [= <- <-]|].
  case_decide as Hdep; [intros Hr%IH; by constructor|].
  destruct (split_wave wave failed blocked) as [r b] eqn:E. intros [= <- <-].
  constructor. by eapply IH.
Qed.

Lemma sublist_unique (l k : list executionItem) : l `sublist_of` k -> unique_items k -> unique_items l.
Proof. intros Hl Hk. eapply sublist_NoDup; [exact Hk|]. by apply fmap_sublist. Qed.

Lemma runExecutionWaves_run waves log (c : cfg W) log' c' :
  Forall unique_items waves -> runExecutionWaves hosts now waves log c = (log', c') ->
  run_waves hosts now waves log c log' c'.
Proof.
  intros Hu. revert log c. induction Hu as [|wave waves Hw Hu IH]; intros log c; cbn.
  { intros [= <- <-]. constructor. }
  destruct (split_wave wave (rl_failed log) (rl_blocked log)) as [runnable blocked] eqn:Es.
  destruct (wave_seq hosts now runnable c ∅) as [results c1] eqn:Er. intros Hrun.
  econstructor; [done| |by apply IH]. apply wave_seq_run; [|done].
  eapply sublist_unique; [by eapply split_wave_sublist|done].
Qed.
End sequential.

(** ** Failures block their dependents *)

Record log_ok (seen : list string) (log : run_log) : Prop := {
  lk_executed : forall a, a ∈ rl_executed log -> a ∈ seen;
  lk_seen : forall a, a ∈ seen -> a ∈ rl_executed log \/ is_Some (rl_blocked log !! a);
  lk_failed : rl_failed log !! "" = None;
  lk_blocked : forall a b, rl_blocked log !! a = Some b -> b <> "";
}.

Lemma blockedDependency_nil deps failed blocked d :
  failed !! "" = None -> (forall a b, blocked !! a = Some b -> b <> "") ->
  blockedDependency deps failed blocked = "" -> d ∈ deps ->
  failed !! d = None /\ blocked !! d = None.
Proof.
  intros Hf Hb. induction deps as [|x deps IH]; [by intros _ ?%elem_of_nil|]. cbn.
  destruct (failed !! x) as [e|] eqn:Ef; [intros ->; congruence|].
  destruct (blocked !! x) as [b|] eqn:Eb; [intros ->; by destruct (Hb _ _ Eb)|].
  intros Hnil [->|Hd]%elem_of_cons; [done|]. by apply IH.
Qed.

Lemma split_wave_spec wave failed blocked runnable blocked' :
  failed !! "" = None -> (forall a b, blocked !! a = Some b -> b <> "") ->
  split_wave wave failed blocked = (runnable, blocked') ->
  (forall i d, i ∈ runnable -> d ∈ ei_dependsOn i -> failed !! d = None /\ blocked !! d = None)
  /\ (forall a b, blocked' !! a = Some b -> b <> "")
  /\ (forall a, is_Some (blocked !! a) -> is_Some (blocked' !! a))
  /\ (forall i, i ∈ wave -> i ∈ runnable \/ is_Some (blocked' !! ei_address i)).
Proof.
  intros Hf. revert blocked runnable blocked'.
  induction wave as [|i wave IH]; intros blocked runnable blocked' Hb; cbn [split_wave].
  { intros [= <- <-]. split; [by intros i d ?%elem_of_nil|]. split; [done|]. split; [done|].
    by intros i ?%elem_of_nil. }
  case_decide as Hdep.
  - intros Hrun. destruct (IH (<[ei_address i := blockedDependency (ei_dependsOn i) failed blocked]> blocked) runnable blocked')
      as (H1 & H2 & H3 & H4); [|done|].
    { intros a b. rewrite lookup_insert_Some. intros [[_ <-]|[_ ?]]; eauto. }
    split; [|split; [done|split]].
    + intros j d Hj Hd. destruct (H1 j d Hj Hd) as [? Hn]. split; [done|].
      rewrite lookup_insert_None in Hn. tauto.
    + intros a Ha. apply H3. destruct (decide (a = ei_address i)) as [->|].
      * rewrite lookup_insert_eq. eauto.
      * by rewrite lookup_insert_ne.
    + intros j [->|Hj]%elem_of_cons; [|by apply H4]. right. apply H3. rewrite lookup_insert_eq. eauto.
  - destruct (split_wave wave failed blocked) as [r b] eqn:E. intros [= <- <-].
    destruct (IH blocked r b Hb E) as (H1 & H2 & H3 & H4).
    split; [|split; [done|split; [done|]]].
    + intros j d [->|Hj]%elem_of_cons Hd; [|by apply (H1 j)].
      eapply blockedDependency_nil; [done|done| |exact Hd].
      destruct (decide (blockedDependency (ei_dependsOn i) failed blocked = "")); tauto.
    + intros j [->|Hj]%elem_of_cons; [left; by left|]. destruct (H4 j Hj); [left; by right|by right].
Qed.

Lemma record_result_failed results l log a :
  a ∉ ei_address <$> l ->
  rl_failed (fold_left (record_result results) l log) !! a = rl_failed log !! a.
Proof.
  revert log; induction l as [|i l IH]; intros log; [done|].
  rewrite fmap_cons, not_elem_of_cons. intros [Hne Ha]. cbn [fold_left]. rewrite IH by done.
  unfold record_result. destruct (results !! _) as [[]|]; cbn; [done| |done].
  by rewrite lookup_insert_ne.
Qed.

Section blocking.
Context {W : Type} `{!Provider W} `{!Backend W}.
Context (hosts : gset string) (now : string -> string).

(** Addresses outside the waves keep their entries in the log. *)
Lemma run_waves_frame waves log (c : cfg W) log' c' a :
  run_waves hosts now waves log c log' c' -> a ∉ ei_address <$> concat waves ->
  rl_failed log' !! a = rl_failed log !! a /\ (a ∈ rl_executed log' <-> a ∈ rl_executed log).
Proof.
  induction 1 as [|wave waves log c runnable blocked results c1 log' c' Hsplit _ _ IH]; [done|].
  cbn [concat]. rewrite fmap_app, not_elem_of_app. intros [Hw Hws].
  destruct (IH Hws) as [-> ->]. apply split_wave_sublist in Hsplit.
  assert (a ∉ ei_address <$> runnable) as Hr.
  { intros (i & -> & Hi)%list_elem_of_fmap. apply Hw, list_elem_of_fmap_2.
    by eapply elem_of_sublist. }
  rewrite record_result_failed, record_result_executed by done. cbn.
  rewrite elem_of_app. tauto.
Qed.

Lemma log_ok_wave seen log wave runnable blocked results :
  log_ok seen log -> (forall i, i ∈ wave -> ei_address i <> "") ->
  split_wave wave (rl_failed log) (rl_blocked log) = (runnable, blocked) ->
  log_ok (seen ++ (ei_address <$> wave))
    (fold_left (record_result results) runnable (set_blocked blocked log)).
Proof.
  intros [H1 H2 H3 H4] Hne Hsplit.
  pose proof (split_wave_sublist _ _ _ _ _ Hsplit) as Hsub.
  destruct (split_wave_spec _ _ _ _ _ H3 H4 Hsplit) as (_ & Hb & Hkeep & Hcase).
  split; rewrite ?record_result_blocked, ?record_result_executed; cbn.
  - intros a. rewrite !elem_of_app. intros [?|(i & -> & Hi)%list_elem_of_fmap]; [auto|right].
    apply list_elem_of_fmap_2. by eapply elem_of_sublist.
  - intros a. rewrite !elem_of_app. intros [[?|?]%H2|(i & -> & Hi)%list_elem_of_fmap]; [auto|auto|].
    destruct (Hcase i Hi); [left; right; by apply list_elem_of_fmap_2|auto].
  - rewrite record_result_failed; [done|]. intros (i & Heq & Hi)%list_elem_of_fmap.
    apply (Hne i); [by eapply elem_of_sublist|done].
  - done.
Qed.

Lemma run_waves_deps waves log (c : cfg W) log' c' seen :
  run_waves hosts now waves log c log' c' -> log_ok seen log ->
  unique_items (concat waves) -> (forall i, i ∈ concat waves -> ei_address i <> "") ->
  (forall i, i ∈ concat waves -> ei_address i ∉ seen) ->
  forall ws1 wave ws2 item d, waves = ws1 ++ wave :: ws2 -> item ∈ wave ->
    d ∈ ei_dependsOn item -> d ∈ seen ++ (ei_address <$> concat ws1) ->
    ei_address item ∈ rl_executed log' ->
    d ∈ rl_executed log' /\ rl_failed log' !! d = None.
Proof.
  intros Hrun. revert seen.
  induction Hrun as [|wave waves log c runnable blocked results c1 log' c' Hsplit Hwave Hrun IH];
    intros seen Hlog Hu Hne Hdis ws1 w ws2 item d Heq Hitem Hd Hin Hexec; [by destruct ws1|].
  cbn [concat] in *. unfold unique_items in Hu. rewrite fmap_app in Hu.
  apply NoDup_app in Hu as (Hu1 & Hdisj & Hu2).
  setoid_rewrite elem_of_app in Hne. setoid_rewrite elem_of_app in Hdis.
  assert (log_ok (seen ++ (ei_address <$> wave))
    (fold_left (record_result results) runnable (set_blocked blocked log))) as Hlog'.
  { apply log_ok_wave; auto. }
  destruct ws1 as [|w1 ws1]; cbn in Heq; injection Heq as <- ->.
  - cbn in Hin. rewrite app_nil_r in Hin.
    assert (forall a, a ∈ seen -> a ∉ ei_address <$> concat ws2) as Hseen.
    { intros a Ha (i & -> & Hi)%list_elem_of_fmap. apply (Hdis i); auto. }
    destruct Hlog as [H1 H2 H3 H4].
    destruct (split_wave_spec _ _ _ _ _ H3 H4 Hsplit) as (Hok & _).
    pose proof (split_wave_sublist _ _ _ _ _ Hsplit) as Hsub.
    assert (item ∈ runnable) as Hr.
    { apply (run_waves_frame _ _ _ _ _ _ Hrun) in Hexec;
        [|intros Ha; apply (Hdisj (ei_address item)); [by apply list_elem_of_fmap_2|done]].
      rewrite record_result_executed in Hexec. cbn in Hexec.
      apply elem_of_app in Hexec as [Hx|(j & Ej & Hj)%list_elem_of_fmap].
      - destruct (Hdis item); [auto|by apply H1].
      - replace item with j; [done|]. eapply (NoDup_fmap_eq ei_address); [exact Hu1| |done|done].
        by eapply elem_of_sublist. }
    destruct (Hok item d Hr Hd) as [Hfd Hbd].
    destruct (run_waves_frame _ _ _ _ _ d Hrun (Hseen d Hin)) as [E1 E2].
    rewrite E1, E2, record_result_executed, record_result_failed.
    + cbn. split; [|done]. apply elem_of_app. left.
      destruct (H2 d Hin) as [|[b Hb]]; [done|congruence].
    + intros (j & -> & Hj)%list_elem_of_fmap. apply (Hdis j); [|done]. left.
      by eapply elem_of_sublist.
  - apply (IH (seen ++ (ei_address <$> wave)) Hlog' Hu2) with (ws1 := ws1) (wave := w) (ws2 := ws2) (item := item);
      [auto| |done..| |done].
    + intros i Hi [Hs|Hw]%elem_of_app; [apply (Hdis i); auto|].
      apply (Hdisj (ei_address i)); [done|by apply list_elem_of_fmap_2].
    + cbn in Hin. rewrite fmap_app in Hin. by rewrite <- app_assoc.
Qed.
End blocking.
