(* ===== verification/Run.v ===== *)
(** * [Engine.Plan], [Engine.Check] and [Engine.Apply]

    State reading, state moves, planning, locking, the preparation of the
    host states and the execution of the plan, over a world with a backend and
    a provider.  [runHosts] is modelled host after host, in program order. *)
From S2P Require Import Prelude Sha256 GoValue GoStrings IR HostIR State Moves Graph Schedule Engine.
From S2P Require Import Execute.

(** ** Hosts *)

Definition selected (opts : Options) (host : string) : bool :=
  bool_decide (o_Host opts = "") || bool_decide (host = o_Host opts).

Definition selectedProgramHosts (program : Program) (opts : Options) : list HostSpec :=
  filter (fun h => selected opts (h_Name h) = true) (p_Hosts program).

Definition hostsByName (program : Program) : gmap string HostSpec :=
  fold_left (fun m h => <[h_Name h := h]> m) (p_Hosts program) ∅.

Definition hasHostFacts (facts : HostFacts) : bool :=
  let s := System facts in
  bool_decide (Hostname s <> "") || bool_decide (Distribution s <> "")
  || bool_decide (Version s <> "") || bool_decide (Architecture s <> "")
  || bool_decide (Codename s <> "") || bool_decide (DetectedAt s <> "").

Definition validate_host_platform (u : unit) (host : HostSpec) : result engine_error unit :=
  let s := System (h_Facts host) in
  if decide (Distribution s = "" /\ Version s = "") then Ok tt
  else
    _ ← guard_or (negb (bool_decide (Distribution s = "" \/ Version s = "" \/ Architecture s = ""
                                     \/ Codename s = "")))
         (IncompletePlatform (h_Name host));
    map_err (EnginePlatform (h_Name host))
      (ValidateTargetPlatform (Distribution s) (Version s) (Architecture s) (Codename s)).

Definition validateProgramTargetPlatforms (program : Program) (opts : Options)
  : result engine_error unit :=
  fold_res validate_host_platform (selectedProgramHosts program opts) tt.

(** ** Moves of a host *)

Definition move_less3 (a b : RealizedMove) : bool :=
  if decide (rm_Host a = rm_Host b) then
    if decide (rm_From a = rm_From b) then str_ltb (rm_To a) (rm_To b)
    else str_ltb (rm_From a) (rm_From b)
  else str_ltb (rm_Host a) (rm_Host b).

Definition sortRealizedMoves (moves : list RealizedMove) : list RealizedMove := sort_by move_less3 moves.

Definition node_target (node : Node) : MoveTarget :=
  {| mt_ProviderAddress := n_ProviderAddress node; mt_Desired := n_Desired node |}.

Definition output_targets (operation : Operation) (targets : gmap string MoveTarget)
  : gmap string MoveTarget :=
  match op_ScriptPayload operation with
  | None => targets
  | Some payload =>
      fold_left (fun m output =>
          match scriptOutputNodeForOperation operation (so_Address output) with
          | Some node => <[n_Address node := node_target node]> m
          | None => m
          end) (sp_Outputs payload) targets
  end.

Definition move_targets (host : string) (g : ResourceGraph) : gmap string MoveTarget :=
  let targets := fold_left
    (fun m n => if decide (n_Host n = host) then <[n_Address n := node_target n]> m else m)
    (g_Nodes g) ∅ in
  fold_left (fun m op => if decide (op_Host op = host) then output_targets op m else m)
    (g_Operations g) targets.

Definition desired_components (host : HostSpec) : gset string :=
  list_to_set ((fun c => "host." +:+ h_Name host +:+ ".components." +:+ ci_Name c) <$> h_Components host).

Definition resolveHostMoves (st : State) (host : HostSpec) (g : ResourceGraph)
  : result engine_error MoveResult :=
  map_err EngineMove
    (ResolveMoves st (h_Moves host) (desired_components host) (move_targets (h_Name host) g)).

Definition resolve_program_host (g : ResourceGraph) (states : gmap string State)
    (acc : gmap string State * list RealizedMove) (host : HostSpec)
  : result engine_error (gmap string State * list RealizedMove) :=
  let '(resolved, moves) := acc in
  st ← of_option (StateNotRead (h_Name host)) (states !! h_Name host);
  outcome ← resolveHostMoves st host g;
  Ok (<[h_Name host := mr_State outcome]> resolved, moves ++ mr_Moves outcome).

Definition resolveProgramMoves (program : Program) (g : ResourceGraph) (states : gmap string State)
    (opts : Options) : result engine_error (gmap string State * list RealizedMove) :=
  '(resolved, moves) ← fold_res (resolve_program_host g states)
                         (selectedProgramHosts program opts) (∅, []);
  Ok (resolved, sortRealizedMoves moves).

Definition verifyApprovedHostMoves (host : string) (approved realized : list RealizedMove)
  : result engine_error unit :=
  let want := sortRealizedMoves (filter (fun m => rm_Host m = host) approved) in
  let got := sortRealizedMoves realized in
  _ ← guard_or (bool_decide (length want = length got)) (MovesChanged host);
  guard_or (bool_decide (want = got)) (MovesChanged host).

(** ** Recorded dependencies follow the graph *)

Definition trackedStateDependencies (dependencies : list string) (resources : gmap string Resource)
  : list string :=
  filter (fun d => is_Some (resources !! d)) dependencies.

Definition reconcile_node (host : string) (acc : State * bool) (node : Node) : State * bool :=
  let '(st, changed) := acc in
  if decide (n_Host node <> host) then acc
  else match st_Resources st !! n_Address node with
  | None => acc
  | Some resource =>
      let dependsOn := trackedStateDependencies (n_DependsOn node) (st_Resources st) in
      if decide (r_DependsOn resource = dependsOn) then acc
      else (set_Resources (<[n_Address node := set_r_DependsOn dependsOn resource]> (st_Resources st)) st,
            true)
  end.

Definition reconcileStateDependencies (st : State) (host : string) (g : ResourceGraph) : State * bool :=
  fold_left (reconcile_node host) (g_Nodes g) (st, false).

(** ** Planning *)

Record plan_input := {
  pi_desired : gmap string Node;
  pi_nodes : list (Node * nat);
  pi_byHost : gmap string (list Node);
  pi_priors : gmap string (gmap string (option Resource));
}.

Definition collect_node (hosts : gmap string HostSpec) (states : gmap string State) (opts : Options)
    (acc : plan_input) (p : nat * Node) : result engine_error plan_input :=
  let '(order, node) := p in
  if negb (selected opts (n_Host node)) then Ok acc
  else
    host ← of_option (UnknownHost (n_Address node) (n_Host node)) (hosts !! n_Host node);
    let st := state_of states (h_Name host) in
    let prior := priorResource st (n_Address node) in
    Ok {| pi_desired := <[n_Address node := node]> (pi_desired acc);
          pi_nodes := pi_nodes acc ++ [(node, order)];
          pi_byHost := <[h_Name host := default [] (pi_byHost acc !! h_Name host) ++ [node]]>
                         (pi_byHost acc);
          pi_priors := <[h_Name host := <[n_Address node := prior]>
                          (default ∅ (pi_priors acc !! h_Name host))]> (pi_priors acc) |}.

Definition collect_nodes (hosts : gmap string HostSpec) (states : gmap string State) (opts : Options)
    (g : ResourceGraph) : result engine_error plan_input :=
  fold_res (collect_node hosts states opts) (imap (fun i n => (i, n)) (g_Nodes g))
    {| pi_desired := ∅; pi_nodes := []; pi_byHost := ∅; pi_priors := ∅ |}.

(** The pure second half of [Engine.Plan]: from provider plans to the plan. *)
Definition assemble_plan (g : ResourceGraph) (opts : Options) (states : gmap string State)
    (moves : list RealizedMove) (input : plan_input) (providerPlans : gmap string ProviderPlan)
  : result engine_error Plan :=
  acc ← fold_res (plan_step providerPlans (pi_priors input)) (pi_nodes input)
          {| sa_steps := []; sa_changed := ∅; sa_noOp := 0 |};
  orphaned ← orphanSteps states (pi_desired input) opts;
  let steps := sa_steps acc ++ orphaned in
  let operations := operationSteps (g_Operations g) (sa_changed acc) (stepByAddress steps) opts in
  Ok {| pl_Steps := sortSteps steps; pl_Operations := sortOperationSteps operations;
        pl_Moves := moves;
        pl_Summary := summarize (sortSteps steps) (sortOperationSteps operations) (sa_noOp acc)
                        (length moves) |}.

Section engine.
Context {W : Type} `{!Provider W} `{!Backend W}.
Context (now : string -> string).

Definition read_state (states : gmap string State) (host : HostSpec)
  : M engine_error W (gmap string State) :=
  st ← backend_Read (h_Name host);
  st ← lift (map_err EngineState (Normalize st (h_Name host)));
  mret (<[h_Name host := st]> states).

Definition readStates (hosts : list HostSpec) : M engine_error W (gmap string State) :=
  fold_M read_state hosts ∅.

Definition plan_node (priorsByHost : gmap string (gmap string (option Resource)))
    (plans : gmap string ProviderPlan) (item : Node * nat)
  : M engine_error W (gmap string ProviderPlan) :=
  let node := item.1 in
  let prior := default None (default ∅ (priorsByHost !! n_Host node) !! n_Address node) in
  plan ← provider_Plan node prior;
  mret (<[n_Address node := plan]> plans).

Definition plan_host (planner : HostSpec -> list Node -> gmap string (option Resource)
                                -> M engine_error W (gmap string ProviderPlan))
    (input : plan_input) (plans : gmap string ProviderPlan) (host : HostSpec)
  : M engine_error W (gmap string ProviderPlan) :=
  match default [] (pi_byHost input !! h_Name host) with
  | [] => mret plans
  | nodes =>
      hostPlans ← planner host nodes (default ∅ (pi_priors input !! h_Name host));
      mret (hostPlans ∪ plans)
  end.

Definition planNodes (hosts : list HostSpec) (input : plan_input)
  : M engine_error W (gmap string ProviderPlan) :=
  match provider_PlanHost with
  | Some planner => fold_M (plan_host planner input) hosts ∅
  | None => fold_M (plan_node (pi_priors input)) (pi_nodes input) ∅
  end.

Definition preflight_host (preflighter : HostSpec -> list Node -> M engine_error W unit)
    (input : plan_input) (_ : unit) (host : HostSpec) : M engine_error W unit :=
  match default [] (pi_byHost input !! h_Name host) with
  | [] => mret tt
  | nodes => preflighter host nodes
  end.

Definition preflightHosts (hosts : list HostSpec) (input : plan_input) : M engine_error W unit :=
  match provider_PreflightHost with
  | Some preflighter => fold_M (preflight_host preflighter input) hosts tt
  | None => mret tt
  end.

Definition engine_Plan (program : Program) (g : ResourceGraph) (opts : Options)
  : M engine_error W Plan :=
  _ ← lift (validateProgramTargetPlatforms program opts);
  _ ← lift (map_err EngineGraph (Validate g));
  states ← readStates (selectedProgramHosts program opts);
  '(states, moves) ← lift (resolveProgramMoves program g states opts);
  input ← lift (collect_nodes (hostsByName program) states opts g);
  _ ← preflightHosts (selectedProgramHosts program opts) input;
  plans ← planNodes (selectedProgramHosts program opts) input;
  lift (assemble_plan g opts states moves input plans).

(** *** Locks *)

(** [lockHosts]: on failure the locks taken so far are released. *)
Fixpoint lock_loop (hosts : list HostSpec) (held : list string) (w : W)
  : result engine_error (list string) * W :=
  match hosts with
  | [] => (Ok held, w)
  | host :: hosts =>
      match backend_Lock (h_Name host) w with
      | (Ok _, w) => lock_loop hosts (held ++ [h_Name host]) w
      | (Err e, w) => (Err e, foldr (fun h w => (backend_Unlock h w).2) w held)
      end
  end.

(** Unlocking goes on after an error; the first one is reported. *)
Fixpoint unlock_all (held : list string) (w : W) : result engine_error unit * W :=
  match held with
  | [] => (Ok tt, w)
  | host :: held =>
      let '(r, w) := unlock_all held w in
      match backend_Unlock host w with
      | (Ok _, w) => (r, w)
      | (Err e, w) => (match r with Ok _ => Err e | Err e' => Err e' end, w)
      end
  end.

Definition withHostLocks {A} (hosts : list HostSpec) (fn : M engine_error W A)
  : M engine_error W A :=
  fun w =>
    match lock_loop hosts [] w with
    | (Err e, w) => (Err e, w)
    | (Ok held, w) =>
        let '(r, w) := fn w in
        let '(u, w) := unlock_all held w in
        (match r, u with Ok _, Err e => Err e | _, _ => r end, w)
    end.

Definition engine_Check (program : Program) (g : ResourceGraph) (opts : Options)
  : M engine_error W Plan :=
  withHostLocks (selectedProgramHosts program opts) (engine_Plan program g opts).

(** *** Preparation and execution *)

Definition prepare_host (g : ResourceGraph) (approved : Plan) (prepared : gmap string State)
    (host : HostSpec) : M engine_error W (gmap string State) :=
  st ← backend_Read (h_Name host);
  st ← lift (map_err EngineState (Normalize st (h_Name host)));
  outcome ← lift (resolveHostMoves st host g);
  _ ← lift (verifyApprovedHostMoves (h_Name host) (pl_Moves approved) (mr_Moves outcome));
  let '(st, dependenciesChanged) := reconcileStateDependencies (mr_State outcome) (h_Name host) g in
  let write := bool_decide (mr_Moves outcome <> []) || dependenciesChanged in
  let facts := hasHostFacts (h_Facts host) in
  let st := if facts then set_Facts (Some (h_Facts host)) st else st in
  st ← (if write || facts then backend_Write (h_Name host) st else mret st);
  mret (<[h_Name host := st]> prepared).

Definition prepareHostStates (program : Program) (g : ResourceGraph) (opts : Options)
    (approved : Plan) : M engine_error W (gmap string State) :=
  fold_M (prepare_host g approved) (selectedProgramHosts program opts) ∅.

Definition execute_waves (program : Program) (plan : Plan) (states : gmap string State)
    (waves : list (list executionItem)) : M engine_error W Plan :=
  fun w =>
    let '(log, c) := runExecutionWaves (dom (hostsByName program)) now waves no_log (w, states) in
    (match rl_first log with Some e => Err e | None => Ok plan end, c.1).

(** The body of [Engine.Apply] under the locks; [before] is [BeforeExecute],
    which may ask the user. *)
Definition apply_locked (program : Program) (g : ResourceGraph) (opts : Options)
    (before : Plan -> M engine_error W unit) : M engine_error W Plan :=
  plan ← engine_Plan program g opts;
  _ ← before plan;
  states ← prepareHostStates program g opts plan;
  if decide (pl_Steps plan = [] /\ pl_Operations plan = []) then mret plan
  else
    waves ← lift (executionWaves g plan);
    execute_waves program plan states waves.

Definition engine_Apply (program : Program) (g : ResourceGraph) (opts : Options)
    (before : Plan -> M engine_error W unit) : M engine_error W Plan :=
  _ ← lift (validateProgramTargetPlatforms program opts);
  withHostLocks (selectedProgramHosts program opts) (apply_locked program g opts before).

(** A review that only decides. *)
Definition decided (review : Plan -> result engine_error unit) : Plan -> M engine_error W unit :=
  fun plan => lift (review plan).
End engine.
