(* ===== verification/Memory.v ===== *)
(** * The in-memory backend and provider: [internal/core/engine/memory.go]

    The reference implementations of the two interfaces. *)
From S2P Require Import Prelude Sha256 GoValue GoStrings IR State Moves Graph Schedule Engine.
From S2P Require Import Execute ExecuteLemmas.

Record MemoryBackend := { mb_states : gmap string State; mb_locked : gset string }.

Record MemoryProvider := {
  mp_Observed : gmap string Observed;
  mp_Applied : list string;
  mp_Destroyed : list string;
  mp_Operations : list string;
  mp_FailApplyAt : string;
}.

(** The world of the in-memory engine; [mw_now] is the clock. *)
Record memory := { mw_backend : MemoryBackend; mw_provider : MemoryProvider; mw_now : string }.

Definition NewMemoryBackend : MemoryBackend := {| mb_states := ∅; mb_locked := ∅ |}.
Definition NewMemoryProvider : MemoryProvider :=
  {| mp_Observed := ∅; mp_Applied := []; mp_Destroyed := []; mp_Operations := [];
     mp_FailApplyAt := "" |}.

Definition set_backend (b : MemoryBackend) (w : memory) : memory :=
  {| mw_backend := b; mw_provider := mw_provider w; mw_now := mw_now w |}.
Definition set_provider (p : MemoryProvider) (w : memory) : memory :=
  {| mw_backend := mw_backend w; mw_provider := p; mw_now := mw_now w |}.

(** ** Backend *)

Definition memory_view (w : memory) (host : string) : State :=
  default (Empty host) (mb_states (mw_backend w) !! host).

Definition memory_Read (host : string) : M engine_error memory State :=
  fun w => (Ok (memory_view w host), w).

Definition memory_Write (host : string) (st : State) : M engine_error memory State :=
  fun w =>
    match PrepareWrite (mw_now w) st host with
    | Err e => (Err (EngineState e), w)
    | Ok committed =>
        (Ok committed,
         set_backend {| mb_states := <[host := committed]> (mb_states (mw_backend w));
                        mb_locked := mb_locked (mw_backend w) |} w)
    end.

Definition memory_Lock (host : string) : M engine_error memory unit :=
  fun w =>
    if decide (host ∈ mb_locked (mw_backend w))
    then (Err (BackendFailed "already locked"), w)
    else (Ok tt, set_backend {| mb_states := mb_states (mw_backend w);
                                mb_locked := {[host]} ∪ mb_locked (mw_backend w) |} w).

Definition memory_Unlock (host : string) : M engine_error memory unit :=
  fun w => (Ok tt, set_backend {| mb_states := mb_states (mw_backend w);
                                  mb_locked := mb_locked (mw_backend w) ∖ {[host]} |} w).

#[export] Instance memory_backend : Backend memory :=
  {| backend_Read := memory_Read; backend_Write := memory_Write;
     backend_Lock := memory_Lock; backend_Unlock := memory_Unlock |}.

#[export] Instance memory_backend_laws : BackendLaws memory.
Proof.
  refine {| backend_view := memory_view |}.
  cbn. unfold memory_Write. intros host st w st' w'.
  destruct (PrepareWrite (mw_now w) st host) as [c|e] eqn:E; [|done]. intros [= <- <-].
  split; [eauto|]. intros k. unfold memory_view. cbn. case_decide as Hk.
  - subst. by rewrite lookup_insert_eq.
  - by rewrite lookup_insert_ne.
Defined.

(** ** Provider *)

Definition record_prior (prior : Resource) : Observed :=
  {| ob_Exists := true; ob_DesiredDigest := r_DesiredDigest prior; ob_Values := r_Observed prior |}.

Definition absent : Observed := {| ob_Exists := false; ob_DesiredDigest := ""; ob_Values := ∅ |}.

Definition memory_observe (p : MemoryProvider) (node : Node) (prior : option Resource) : Observed :=
  match mp_Observed p !! n_Address node with
  | Some o => o
  | None => match prior with Some r => record_prior r | None => absent end
  end.

Definition memory_Plan (node : Node) (prior : option Resource) : M engine_error memory ProviderPlan :=
  fun w => (Ok (Compare node prior (memory_observe (mw_provider w) node prior)), w).

Definition counts (total running stopped : Z) (actual : list string) : goval :=
  GMap {["total" := GInt total; "running" := GInt running; "stopped" := GInt stopped;
         "expected" := GStrs ["web"]; "actual" := GStrs actual]}.

(** The attributes a compose project adds. *)
Definition compose_observed (desired observed : gomap) : gomap :=
  let state := stringMapValue desired "state" in
  let observed := <["state" := GStr state]> observed in
  let observed := <["project" := GStr (stringMapValue desired "project")]> observed in
  let observed := <["services" := counts 1 1 0 ["web"]]> observed in
  let observed := <["containers" := GMap {["total" := GInt 1]}]> observed in
  let observed := <["orphan_count" := GInt 0]> observed in
  let observed := <["orphan_services" := GStrs []]> observed in
  let observed := if decide (state = "stopped")
                  then <["services" := counts 1 0 1 ["web"]]> observed else observed in
  if decide (state = "absent") then
    <["containers" := GMap {["total" := GInt 0]}]>
      (<["services" := counts 0 0 0 []]> (<["exists" := GBool false]> observed))
  else observed.

Definition applied_observed (node : Node) : gomap :=
  let desired := n_Desired node in
  let observed : gomap :=
    {["exists" := GBool true; "desired_digest" := GStr (DesiredDigest desired)]} in
  let observed := if decide (n_Kind node = "docker_compose_project")
                  then compose_observed desired observed else observed in
  let observed := if decide (n_Kind node = "system_hostname")
                  then <["hostname" := GStr (stringMapValue desired "hostname")]> observed
                  else observed in
  let observed := if decide (n_Kind node = "system_timezone")
                  then <["zone_exists" := GBool true]>
                         (<["timezone" := GStr (stringMapValue desired "timezone")]> observed)
                  else observed in
  if decide (n_Kind node = "system_locale")
  then <["available" := GBool true]>
         (<["locale" := GStr (stringMapValue desired "locale")]> observed)
  else observed.

Definition set_mp (observed : gmap string Observed) (applied destroyed operations : list string)
    (p : MemoryProvider) : MemoryProvider :=
  {| mp_Observed := observed; mp_Applied := applied; mp_Destroyed := destroyed;
     mp_Operations := operations; mp_FailApplyAt := mp_FailApplyAt p |}.

Definition memory_Apply (step : Step) : M engine_error memory (option gomap) :=
  fun w =>
    let p := mw_provider w in
    let a := s_Address step in
    if decide (a = mp_FailApplyAt p) then (Err (StepFailed a "injected failure"), w)
    else if decide (s_Action step = ActionDelete) then
      (Ok (Some {["exists" := GBool false]}),
       set_provider (set_mp (<[a := absent]> (mp_Observed p)) (mp_Applied p ++ [a])
                       (mp_Destroyed p) (mp_Operations p) p) w)
    else
      let observed := applied_observed (s_Node step) in
      (Ok (Some observed),
       set_provider (set_mp (<[a := {| ob_Exists := true;
                                       ob_DesiredDigest := DesiredDigest (n_Desired (s_Node step));
                                       ob_Values := observed |}]> (mp_Observed p))
                       (mp_Applied p ++ [a]) (mp_Destroyed p) (mp_Operations p) p) w).

Definition memory_Destroy (step : Step) : M engine_error memory unit :=
  fun w =>
    let p := mw_provider w in
    let a := s_Address step in
    if decide (a = mp_FailApplyAt p) then (Err (StepFailed a "injected failure"), w)
    else (Ok tt, set_provider (set_mp (<[a := absent]> (mp_Observed p)) (mp_Applied p)
                                 (mp_Destroyed p ++ [a]) (mp_Operations p) p) w).

Definition memory_RunOperation (op : Operation) : M engine_error memory OperationResult :=
  fun w =>
    let p := mw_provider w in
    (Ok {| or_Outputs := ∅ |},
     set_provider (set_mp (mp_Observed p) (mp_Applied p) (mp_Destroyed p)
                     (mp_Operations p ++ [op_Address op]) p) w).

#[export] Instance memory_provider : Provider memory :=
  {| provider_Plan := memory_Plan; provider_Apply := memory_Apply;
     provider_Destroy := memory_Destroy; provider_RunOperation := memory_RunOperation;
     provider_PlanHost := None; provider_PreflightHost := None |}.

#[export] Instance memory_provider_laws : ProviderLaws memory.
Proof.
  split; cbn.
  - unfold memory_Apply. intros step w r w' H k. repeat case_decide; by injection H as _ <-.
  - unfold memory_Destroy. intros step w r w' H k. repeat case_decide; by injection H as _ <-.
  - unfold memory_RunOperation. intros op w r w' H k. by injection H as _ <-.
  - unfold memory_RunOperation. intros op w r w' [= <- _] a [? Ha]. cbn in Ha.
    by rewrite lookup_empty in Ha.
Qed.
