(* ===== verification/EngineProps.v ===== *)
(** * Properties of planning and comparison *)
From S2P Require Import Prelude Sha256 GoValue GoStrings IR HostIR State Moves Graph Schedule.
From S2P Require Import MovesProps ScheduleProps Engine Execute ExecuteLemmas Run Memory.

(** ** Lemmas on planning *)

(** *** Steps of desired nodes *)

(** A step planned for a node of the graph. *)
Definition node_step (nodes : list (Node * nat)) (step : Step) : Prop :=
  exists order, (s_Node step, order) ∈ nodes /\ s_Address step = n_Address (s_Node step)
    /\ s_Host step = n_Host (s_Node step) /\ s_Order step = Z.of_nat order
    /\ s_Action step <> ActionNoOp
    /\ (destroysResource (s_Action step) = true -> preventsDestroy (n_Lifecycle (s_Node step)) = false).

Lemma plan_step_inv plans priors acc item acc' :
  plan_step plans priors acc item = Ok acc' ->
  (sa_steps acc' = sa_steps acc /\ sa_changed acc' = sa_changed acc /\ sa_noOp acc' = S (sa_noOp acc))
  \/ (exists step, sa_steps acc' = sa_steps acc ++ [step] /\ node_step [item] step
        /\ sa_noOp acc' = sa_noOp acc
        /\ sa_changed acc' = (if triggersOperation (s_Action step) then {[s_Address step]} else ∅)
                             ∪ sa_changed acc).
Proof.
  destruct item as [node order]. unfold plan_step. cbv zeta. intros H. res_inv.
  set (action := if decide (pp_Action _ = "") then _ else _) in *.
  apply negb_true_iff in H0. case_decide as Hno; injection H as <-; [by left|].
  right. eexists. split; [done|]. cbn. split; [|split; [done|]].
  - exists order. cbn. repeat split; try done; [by left|]. intros Hd. fold action in Hd.
    by rewrite Hd in H0.
  - fold action. destruct (triggersOperation action); [done|]. by rewrite (left_id_L ∅ (∪)).
Qed.

Record steps_ok (nodes : list (Node * nat)) (acc : step_acc) : Prop := {
  so_count : length (sa_steps acc) + sa_noOp acc = length nodes;
  so_steps : forall step, step ∈ sa_steps acc -> node_step nodes step;
  so_changed : forall a, a ∈ sa_changed acc <->
    exists step, step ∈ sa_steps acc /\ s_Address step = a /\ triggersOperation (s_Action step) = true;
}.

Lemma node_step_mono nodes nodes' step :
  (forall x, x ∈ nodes -> x ∈ nodes') -> node_step nodes step -> node_step nodes' step.
Proof. intros Hsub (order & Hin & H). exists order. auto. Qed.

Lemma plan_steps_ok plans priors nodes acc :
  fold_res (plan_step plans priors) nodes {| sa_steps := []; sa_changed := ∅; sa_noOp := 0 |} = Ok acc ->
  steps_ok nodes acc.
Proof.
  revert acc. induction nodes as [|item nodes IH] using rev_ind; intros acc.
  { intros [= <-]. split; cbn; [done|by intros s ?%elem_of_nil|].
    intros a. split; [by intros ?%elem_of_empty|by intros (s & ?%elem_of_nil & _)]. }
  rewrite fold_res_app. intros H. res_inv. rename x into acc0, H0 into Hrun. cbn in H.
  destruct (plan_step plans priors acc0 item) as [acc1|] eqn:E; [|done]. injection H as <-.
  destruct (IH acc0 Hrun) as [Hc Hs Hch]. apply plan_step_inv in E as
    [(E1 & E2 & E3)|(step & E1 & Hstep & E3 & E4)].
  - split; rewrite ?E1, ?E2, ?E3, ?length_app; cbn; [lia| |done].
    intros s Hin. eapply node_step_mono; [|by apply Hs]. intros. apply elem_of_app. by left.
  - split; rewrite ?E1, ?E3, ?length_app; cbn; [lia| |].
    + intros s [Hin|Hin]%elem_of_app.
      * eapply node_step_mono; [|by apply Hs]. intros. apply elem_of_app. by left.
      * apply list_elem_of_singleton in Hin as ->. eapply node_step_mono; [|done].
        intros. apply elem_of_app. by right.
    + intros a. rewrite E4, elem_of_union, Hch. setoid_rewrite elem_of_app.
      setoid_rewrite list_elem_of_singleton. split.
      * intros [Ha|(s & ? & ? & ?)]; [|eauto]. destruct (triggersOperation (s_Action step)) eqn:Ht;
          [|by apply elem_of_empty in Ha]. apply elem_of_singleton in Ha as ->. exists step. auto.
      * intros (s & [Hin| ->] & <- & Ht); [eauto|]. left. rewrite Ht. by apply elem_of_singleton.
Qed.

(** *** Orphans *)

Record orphan_spec (opts : Options) (states : gmap string State) (desired : gmap string Node)
    (step : Step) : Prop := {
  os_recorded : exists st prior, states !! s_Host step = Some st
    /\ st_Resources st !! s_Address step = Some prior /\ s_Prior step = Some prior
    /\ (s_Action step = ActionForget
        \/ s_Action step = ActionDestroy /\ r_Ownership prior <> "adopted"
           /\ preventsDestroy (r_Lifecycle prior) = false);
  os_undesired : desired !! s_Address step = None;
  os_selected : selected opts (s_Host step) = true;
}.

Lemma orphan_action_cases host prior desired address :
  (orphan_action host prior desired address).1 = ActionForget
  \/ (orphan_action host prior desired address).1 = ActionDestroy /\ r_Ownership prior <> "adopted".
Proof.
  unfold orphan_action. case_decide; [by left|]. destruct (forgetOrphan prior); [by left|].
  destruct (desiredStillManagesOrphan _ _ _); [by left|]. by right.
Qed.

Lemma orphan_step_inv host desired out address prior out' :
  orphan_step host desired out (address, prior) = Ok out' ->
  (is_Some (desired !! address) /\ out' = out)
  \/ (desired !! address = None /\ exists step, out' = out ++ [step] /\ s_Address step = address
        /\ s_Host step = host /\ s_Prior step = Some prior
        /\ (s_Action step = ActionForget
            \/ s_Action step = ActionDestroy /\ r_Ownership prior <> "adopted"
               /\ preventsDestroy (r_Lifecycle prior) = false)).
Proof.
  unfold orphan_step. destruct (desired !! address) as [n|]; [intros [= <-]; left; eauto|].
  pose proof (orphan_action_cases host prior desired address) as Hc.
  destruct (orphan_action host prior desired address) as [action summary]. cbn in Hc.
  intros H. res_inv. right. split; [done|]. eexists. repeat (split; [done|]). cbn.
  destruct Hc as [->|[-> Ha]]; [by left|]. right. split; [done|]. split; [done|].
  rewrite bool_decide_true in H0 by done. by apply negb_true_iff in H0.
Qed.

Lemma orphan_host_steps host desired l out out' :
  fold_res (orphan_step host desired) l out = Ok out' ->
  forall step, step ∈ out' -> step ∈ out \/
    exists prior, (s_Address step, prior) ∈ l /\ desired !! s_Address step = None
      /\ s_Host step = host /\ s_Prior step = Some prior
      /\ (s_Action step = ActionForget
          \/ s_Action step = ActionDestroy /\ r_Ownership prior <> "adopted"
             /\ preventsDestroy (r_Lifecycle prior) = false).
Proof.
  revert out; induction l as [|[a p] l IH]; intros out; cbn [fold_res]; [intros [= <-]; auto|].
  destruct (orphan_step host desired out (a, p)) as [out1|] eqn:E; [|done].
  intros Hrun step Hin. destruct (IH out1 Hrun step Hin) as [Hin1|(q & Hq & Hrest)].
  - apply orphan_step_inv in E as [[_ ->]|(Hd & s & -> & <- & Hrest)]; [auto|].
    apply elem_of_app in Hin1 as [?|Hs]; [auto|]. apply list_elem_of_singleton in Hs as ->.
    right. exists p. split; [by left|]. done.
  - right. exists q. split; [by right|done].
Qed.

(** Every entry that is not desired gets its step. *)
Lemma orphan_host_complete host desired l out out' :
  fold_res (orphan_step host desired) l out = Ok out' ->
  (forall step, step ∈ out -> step ∈ out')
  /\ forall a p, (a, p) ∈ l -> desired !! a = None ->
       exists step, step ∈ out' /\ s_Address step = a /\ s_Host step = host.
Proof.
  revert out; induction l as [|[a p] l IH]; intros out; cbn [fold_res].
  { intros [= <-]. split; [done|]. by intros a p ?%elem_of_nil. }
  destruct (orphan_step host desired out (a, p)) as [out1|] eqn:E; [|done].
  intros [Hkeep Hall]%IH. apply orphan_step_inv in E as [[[n Hn] ->]|(Hd & s & -> & Hs & Hh & _)].
  - split; [done|]. intros b q [[= -> ->]|Hin]%elem_of_cons Hb; [congruence|eauto].
  - split; [intros step Hin; apply Hkeep, elem_of_app; by left|].
    intros b q [[= -> ->]|Hin]%elem_of_cons Hb; [|eauto].
    exists s. split; [apply Hkeep, elem_of_app; right; by left|done].
Qed.

Lemma orphanSteps_sound states desired opts out :
  orphanSteps states desired opts = Ok out ->
  forall step, step ∈ out -> orphan_spec opts states desired step.
Proof.
  unfold orphanSteps.
  assert (forall l acc out, (forall h st, (h, st) ∈ l -> states !! h = Some st) ->
    (forall step, step ∈ acc -> orphan_spec opts states desired step) ->
    fold_res (orphan_host opts desired) l acc = Ok out ->
    forall step, step ∈ out -> orphan_spec opts states desired step) as Hgo.
  { induction l as [|[h st] l IH]; intros acc out' Hl Hacc; cbn [fold_res]; [by intros [= <-]|].
    destruct (orphan_host opts desired acc (h, st)) as [acc1|] eqn:E; [|done].
    apply IH; [intros; apply Hl; by right|]. unfold orphan_host in E.
    destruct (bool_decide (o_Host opts <> "") && bool_decide (h <> o_Host opts)) eqn:Esel.
    { by injection E as <-. }
    intros step Hin. destruct (orphan_host_steps _ _ _ _ _ E step Hin) as
      [?|(p & Hp%elem_of_map_to_list & Hd & Hh & Hpr & Hact)]; [auto|].
    split; [|done|].
    - exists st, p. rewrite Hh. split; [apply Hl; by left|done].
    - unfold selected. rewrite Hh. apply andb_false_iff in Esel.
      destruct Esel as [Es|Es]; apply bool_decide_eq_false in Es; apply orb_true_iff;
        [left|right]; apply bool_decide_eq_true; apply dec_stable; tauto. }
  apply Hgo; [by intros h st ?%elem_of_map_to_list|by intros s ?%elem_of_nil].
Qed.

Lemma orphanSteps_complete states desired opts out :
  orphanSteps states desired opts = Ok out ->
  forall h st a p, states !! h = Some st -> st_Resources st !! a = Some p ->
    desired !! a = None -> selected opts h = true ->
    exists step, step ∈ out /\ s_Address step = a /\ s_Host step = h.
Proof.
  unfold orphanSteps.
  assert (forall l acc out, fold_res (orphan_host opts desired) l acc = Ok out ->
    (forall step, step ∈ acc -> step ∈ out)
    /\ forall h st a p, (h, st) ∈ l -> st_Resources st !! a = Some p -> desired !! a = None ->
         selected opts h = true -> exists step, step ∈ out /\ s_Address step = a /\ s_Host step = h)
    as Hgo.
  { induction l as [|[h st] l IH]; intros acc out'; cbn [fold_res].
    { intros [= <-]. split; [done|]. by intros h st a p ?%elem_of_nil. }
    destruct (orphan_host opts desired acc (h, st)) as [acc1|] eqn:E; [|done].
    intros [Hkeep Hall]%IH. unfold orphan_host in E.
    destruct (bool_decide (o_Host opts <> "") && bool_decide (h <> o_Host opts)) eqn:Esel.
    - injection E as <-. split; [done|]. intros h' st' a p [[= -> ->]|Hin]%elem_of_cons; [|eauto].
      intros _ _ Hsel. exfalso. apply andb_true_iff in Esel as [H1 H2].
      rewrite bool_decide_eq_true in H1, H2. unfold selected in Hsel.
      apply orb_true_iff in Hsel as [?|?]; rewrite bool_decide_eq_true in *; done.
    - apply orphan_host_complete in E as [Hk1 Ha1]. split; [auto|].
      intros h' st' a p [[= -> ->]|Hin]%elem_of_cons Hp Hd Hsel; [|eauto].
      destruct (Ha1 a p) as (s & ? & ? & ?); [by apply elem_of_map_to_list|done|eauto]. }
  intros Hrun h st a p Hst. apply Hgo in Hrun as [_ Hall]. apply Hall.
  by apply elem_of_map_to_list.
Qed.

(** ** The inputs of a plan *)

Lemma collect_nodes_inv hosts states opts g input :
  collect_nodes hosts states opts g = Ok input ->
  (forall n o, (n, o) ∈ pi_nodes input -> n ∈ g_Nodes g /\ selected opts (n_Host n) = true)
  /\ forall n, n ∈ g_Nodes g -> selected opts (n_Host n) = true ->
       is_Some (pi_desired input !! n_Address n).
Proof.
  unfold collect_nodes.
  assert (forall l acc out, fold_res (collect_node hosts states opts) l acc = Ok out ->
    (forall n o, (n, o) ∈ pi_nodes out -> (n, o) ∈ pi_nodes acc
       \/ ((o, n) ∈ l /\ selected opts (n_Host n) = true))
    /\ (forall a, is_Some (pi_desired acc !! a) -> is_Some (pi_desired out !! a))
    /\ (forall o n, (o, n) ∈ l -> selected opts (n_Host n) = true ->
          is_Some (pi_desired out !! n_Address n))) as Hgo.
  { induction l as [|[o n] l IH]; intros acc out; cbn [fold_res].
    { intros [= <-]. split; [auto|]. split; [done|]. by intros o n ?%elem_of_nil. }
    destruct (collect_node hosts states opts acc (o, n)) as [acc1|] eqn:E; [|done].
    intros (H1 & H2 & H3)%IH. unfold collect_node in E.
    destruct (selected opts (n_Host n)) eqn:Esel; cbn [negb] in E.
    - res_inv. cbn in *. split; [|split].
      + intros n' o' [Hin|[Hin Hs]]%H1; [|right; split; [by right|done]].
        apply elem_of_app in Hin as [?|Hin]; [auto|]. apply list_elem_of_singleton in Hin as [= -> ->].
        right. split; [by left|done].
      + intros a Ha. apply H2. destruct (decide (a = n_Address n)) as [->|];
          [rewrite lookup_insert_eq; eauto|by rewrite lookup_insert_ne].
      + intros o' n' [[= -> ->]|Hin]%elem_of_cons Hs; [|by apply (H3 o')].
        apply H2. rewrite lookup_insert_eq. eauto.
    - injection E as <-. split; [|split; [done|]].
      + intros n' o' [Hin|[Hin Hs]]%H1; [auto|right; split; [by right|done]].
      + intros o' n' [[= -> ->]|Hin]%elem_of_cons Hs; [congruence|by apply (H3 o')]. }
  intros (H1 & _ & H3)%Hgo. split.
  - intros n o [Hin|[Hin Hs]]%H1; [by apply elem_of_nil in Hin|]. split; [|done].
    apply elem_of_lookup_imap in Hin as (i & n' & [= -> ->] & Hi). by eapply list_elem_of_lookup_2.
  - intros n [i Hi]%list_elem_of_lookup Hs. apply (H3 i); [|done].
    apply elem_of_lookup_imap. by exists i, n.
Qed.

Lemma assemble_plan_inv g opts states moves input plans plan :
  assemble_plan g opts states moves input plans = Ok plan ->
  exists acc orphaned, steps_ok (pi_nodes input) acc
    /\ orphanSteps states (pi_desired input) opts = Ok orphaned
    /\ pl_Steps plan = sortSteps (sa_steps acc ++ orphaned)
    /\ pl_Operations plan = sortOperationSteps
         (operationSteps (g_Operations g) (sa_changed acc) (stepByAddress (sa_steps acc ++ orphaned)) opts).
Proof.
  unfold assemble_plan. intros H. res_inv. exists x, x0. split; [by eapply plan_steps_ok|]. done.
Qed.

Lemma elem_of_sortSteps s l : s ∈ sortSteps l <-> s ∈ l.
Proof. apply elem_of_sort_by. Qed.

Section plan.
Context {W : Type} `{!Provider W} `{!Backend W}.

Lemma engine_Plan_inv program g opts (w : W) plan w' :
  engine_Plan program g opts w = (Ok plan, w') ->
  Validate g = Ok tt
  /\ exists states moves input plans, collect_nodes (hostsByName program) states opts g = Ok input
       /\ assemble_plan g opts states moves input plans = Ok plan.
Proof.
  unfold engine_Plan. intros H.
  apply M_bind_Ok in H as (u & w1 & _ & H). apply M_bind_Ok in H as (u2 & w2 & Hv & H).
  apply lift_Ok in Hv as [Hv _]. apply map_err_Ok in Hv. destruct u2.
  apply M_bind_Ok in H as (states0 & w3 & _ & H). apply M_bind_Ok in H as ([states moves] & w4 & _ & H).
  apply M_bind_Ok in H as (input & w5 & Hc & H). apply lift_Ok in Hc as [Hc _].
  apply M_bind_Ok in H as (u3 & w6 & _ & H).
  apply M_bind_Ok in H as (plans & w7 & _ & H). apply lift_Ok in H as [H _].
  split; [done|]. by exists states, moves, input, plans.
Qed.
End plan.

(** ** Operations *)

Lemma operation_steps_for_active changed steps opts op s :
  s ∈ operation_steps_for changed steps opts op ->
  op_Address (os_Operation s) = op_Address op /\ selected opts (op_Host op) = true
  /\ exists t, t ∈ op_TriggeredBy op /\ t ∈ changed.
Proof.
  unfold operation_steps_for.
  destruct (bool_decide (o_Host opts <> "") && bool_decide (op_Host op <> o_Host opts)) eqn:Esel;
    [by intros ?%elem_of_nil|].
  assert (selected opts (op_Host op) = true) as Hsel.
  { unfold selected. apply andb_false_iff in Esel.
    destruct Esel as [Es|Es]; apply bool_decide_eq_false in Es; apply orb_true_iff;
      [left|right]; apply bool_decide_eq_true; apply dec_stable; tauto. }
  cbv zeta. destruct (decide (filter _ _ = [])) as [Hnil|Hnil]; [by intros ?%elem_of_nil|].
  intros Hs.
  split; [|split; [done|]].
  - destruct (decide (operation_mode op = _)); [apply list_elem_of_fmap in Hs as (t & -> & _); done|].
    by apply list_elem_of_singleton in Hs as ->.
  - destruct (filter (fun t => t ∈ changed) (op_TriggeredBy op)) as [|t l] eqn:E; [done|].
    exists t. assert (t ∈ filter (fun t => t ∈ changed) (op_TriggeredBy op)) as Hin by (rewrite E; by left).
    apply list_elem_of_filter in Hin. tauto.
Qed.

Lemma operation_steps_for_some changed steps opts op t :
  selected opts (op_Host op) = true -> t ∈ op_TriggeredBy op -> t ∈ changed ->
  exists s, s ∈ operation_steps_for changed steps opts op.
Proof.
  intros Hsel Ht Hc. unfold operation_steps_for.
  assert (bool_decide (o_Host opts <> "") && bool_decide (op_Host op <> o_Host opts) = false) as ->.
  { unfold selected in Hsel. apply orb_true_iff in Hsel as [H|H]; apply bool_decide_eq_true in H.
    - rewrite bool_decide_false by tauto. done.
    - rewrite (bool_decide_false (_ <> o_Host opts)) by tauto. apply andb_false_r. }
  cbv zeta. assert (t ∈ filter (fun t => t ∈ changed) (op_TriggeredBy op)) as Hin
    by (by apply list_elem_of_filter).
  destruct (decide (filter _ _ = [])) as [Hnil|Hnil]; [rewrite Hnil in Hin; by apply elem_of_nil in Hin|].
  destruct (decide (operation_mode op = _)); [|eexists; by left]. eexists. by apply list_elem_of_fmap_2.
Qed.

(** ** Multisets of moves *)

Lemma move_less3_lex :
  move_less3 = lex_less rm_Host (lex_less rm_From (fun a b => str_ltb (rm_To a) (rm_To b))).
Proof. done. Qed.

Lemma move_less3_sort l k : l ≡ₚ k -> sortRealizedMoves l = sortRealizedMoves k.
Proof.
  unfold sortRealizedMoves. rewrite move_less3_lex. apply sort_by_unique.
  - apply lex_asym, lex_asym. intros a b. apply str_ltb_asym.
  - apply lex_trans, lex_trans. intros a b c. apply str_not_ltb_trans.
  - intros a b _ _. apply lex_sep. intros H1 H2 E1. revert H1 H2. apply lex_sep.
    intros H1 H2 E2. destruct a, b; cbn in *. f_equal; [done..|]. by apply str_ltb_total.
Qed.

(** ** No-op decisions *)

Lemma Compare_noop_iff node prior observed :
  pp_Action (Compare node prior observed) = ActionNoOp <->
  if desiredEnsureAbsent node then ob_Exists observed = false
  else ob_Exists observed = true /\ ob_DesiredDigest observed = DesiredDigest (n_Desired node)
       /\ is_Some prior /\ changeActionCompletionPending node prior = false.
Proof.
  unfold Compare. cbv zeta. destruct (desiredEnsureAbsent node).
  { by destruct (ob_Exists observed). }
  destruct (ob_Exists observed); cbn [negb]; [|cbn; split; [done|by intros [? _]]].
  destruct (decide (ob_DesiredDigest observed = DesiredDigest (n_Desired node))) as [E|E].
  - destruct prior as [p|]; [|cbn; split; [done|by intros (_ & _ & [? ?] & _)]].
    destruct (changeActionCompletionPending node (Some p)); cbn.
    + split; [done|]. intros (_ & _ & _ & H). discriminate H.
    + split; [|done]. intros _. repeat split; eauto.
  - split; [|tauto]. destruct prior as [p|]; [|done]. by destruct (_ && _).
Qed.

(** ** A concrete plan, for the witnesses *)

Definition ex_program : Program :=
  {| p_Hosts := [bare_host "h"] |}.
Definition ex_options : Options := {| o_Host := ""; o_Parallel := 1; o_PerHostParallel := 1 |}.

Definition ex_plan_node (address : string) (desired : gomap) (deps : list string) : Node :=
  {| n_Host := "h"; n_Address := address; n_Kind := "file"; n_Summary := "file"; n_Source := no_source;
     n_Lifecycle := None; n_Desired := desired; n_ProviderType := "file";
     n_ProviderAddress := "file." +:+ address; n_ProviderPayload := ∅; n_DependsOn := deps;
     n_ExplicitDependsOn := []; n_DependencySources := ∅ |}.

Definition ex_plan_graph : ResourceGraph :=
  {| g_Nodes := [ex_plan_node "h.a" {["path" := GStr "/a"]} [];
                 ex_plan_node "h.b" {["path" := GStr "/b"]} ["h.a"]];
     g_Operations := [ex_operation "h.reload" ["h.a"; "h.b"] ["h.b"]] |}.

(** One recorded resource that the graph no longer mentions. *)
Definition ex_memory : memory :=
  {| mw_backend :=
       {| mb_states := {["h" := {| st_Version := 2; st_Host := "h"; st_Serial := 3;
                                   st_UpdatedAt := "t0"; st_Facts := None;
                                   st_Resources := {["h.old" := ex_resource {["path" := GStr "/old"]} [] 1]} |}]};
          mb_locked := ∅ |};
     mw_provider := NewMemoryProvider; mw_now := "t1" |}.

Definition ex_plan_run : result engine_error Plan * memory :=
  engine_Plan ex_program ex_plan_graph ex_options ex_memory.

Definition ex_plan : Plan :=
  match ex_plan_run.1 with
  | Ok p => p
  | Err _ => {| pl_Steps := []; pl_Operations := []; pl_Moves := [];
                pl_Summary := summarize [] [] 0 0 |}
  end.

Lemma ex_plan_run_ok : ex_plan_run = (Ok ex_plan, ex_plan_run.2).
Proof.
  unfold ex_plan. destruct ex_plan_run as [[p|e] w] eqn:E; [done|].
  assert (is_ok ex_plan_run.1 = true) as H by (vm_compute; reflexivity). by rewrite E in H.
Qed.

(** ** Properties *)

(** C27: No plan, over any backend and provider, deletes or destroys a
    protected resource: a step that does either comes from a node of the graph
    without [prevent_destroy], or from a recorded resource that no desired node
    claims, that was not adopted, and whose recorded lifecycle allows it. *)
Theorem Plan_prevent_destroy {W} `{!Provider W} `{!Backend W} program g opts (w : W) plan w' step :
  engine_Plan program g opts w = (Ok plan, w') ->
  step ∈ pl_Steps plan -> destroysResource (s_Action step) = true ->
  (s_Node step ∈ g_Nodes g /\ preventsDestroy (n_Lifecycle (s_Node step)) = false)
  \/ (exists prior, s_Prior step = Some prior /\ r_Ownership prior <> "adopted"
        /\ preventsDestroy (r_Lifecycle prior) = false
        /\ forall n, n ∈ g_Nodes g -> selected opts (n_Host n) = true -> n_Address n <> s_Address step).
Proof.
  intros (_ & states & moves & input & plans & Hin & Hplan)%engine_Plan_inv Hstep Hd.
  apply collect_nodes_inv in Hin as [Hn Hdes].
  apply assemble_plan_inv in Hplan as (acc & orphaned & [_ Hsteps _] & Horph & E & _).
  rewrite E, elem_of_sortSteps, elem_of_app in Hstep. destruct Hstep as [Hs|Hs].
  - left. destruct (Hsteps step Hs) as (o & Hi & _ & _ & _ & _ & Hp).
    split; [by apply (Hn _ o)|auto].
  - right. destruct (orphanSteps_sound _ _ _ _ Horph step Hs) as [(st & prior & _ & _ & Hpr & Hact) Hund _].
    exists prior. split; [done|]. destruct Hact as [Hact|(_ & Ha & Hl)].
    + rewrite Hact in Hd. discriminate Hd.
    + split; [done|]. split; [done|]. intros n Hng Hsel Heq.
      destruct (Hdes n Hng Hsel) as [? Hx]. rewrite Heq in Hx. congruence.
Qed.

Lemma ex_plan_destroys : exists step, step ∈ pl_Steps ex_plan /\ destroysResource (s_Action step) = true.
Proof.
  destruct (list_find (fun s => destroysResource (s_Action s) = true) (pl_Steps ex_plan)) as [[i s]|] eqn:E.
  - apply list_find_Some in E as (Hi%list_elem_of_lookup_2 & Hd & _). by exists s.
  - assert (is_Some (list_find (fun s => destroysResource (s_Action s) = true) (pl_Steps ex_plan))) as [? H]
      by (vm_compute; eauto). by rewrite E in H.
Qed.

Lemma Plan_prevent_destroy_witness :
  exists step, step ∈ pl_Steps ex_plan /\
  ((s_Node step ∈ g_Nodes ex_plan_graph /\ preventsDestroy (n_Lifecycle (s_Node step)) = false)
   \/ (exists prior, s_Prior step = Some prior /\ r_Ownership prior <> "adopted"
        /\ preventsDestroy (r_Lifecycle prior) = false
        /\ forall n, n ∈ g_Nodes ex_plan_graph -> selected ex_options (n_Host n) = true ->
             n_Address n <> s_Address step)).
Proof.
  destruct ex_plan_destroys as (step & Hs & Hd). exists step. split; [exact Hs|].
  exact (Plan_prevent_destroy ex_program ex_plan_graph ex_options ex_memory ex_plan _ step
           ex_plan_run_ok Hs Hd).
Defined.

(** A plan leaves nothing behind: every recorded resource of a selected
    host that no desired node claims has a step (destroy or forget), every step
    for a node changes something, and the no-op count plus the node steps
    account for every desired node. *)
Theorem assemble_plan_complete g opts states moves input plans plan :
  assemble_plan g opts states moves input plans = Ok plan ->
  (forall host st a prior, states !! host = Some st -> st_Resources st !! a = Some prior ->
     pi_desired input !! a = None -> selected opts host = true ->
     exists step, step ∈ pl_Steps plan /\ s_Address step = a /\ s_Host step = host)
  /\ exists nodeSteps orphanSteps noOps,
       pl_Steps plan ≡ₚ nodeSteps ++ orphanSteps
       /\ length nodeSteps + noOps = length (pi_nodes input)
       /\ (forall step, step ∈ nodeSteps -> node_step (pi_nodes input) step)
       /\ (forall step, step ∈ orphanSteps -> orphan_spec opts states (pi_desired input) step).
Proof.
  intros (acc & orphaned & [Hc Hs _] & Horph & E & _)%assemble_plan_inv. split.
  - intros host st a prior Hst Hr Hd Hsel.
    destruct (orphanSteps_complete _ _ _ _ Horph host st a prior Hst Hr Hd Hsel)
      as (step & Hin & Ha & Hh).
    exists step. split; [|done]. rewrite E, elem_of_sortSteps, elem_of_app. by right.
  - exists (sa_steps acc), orphaned, (sa_noOp acc). rewrite E. split; [apply sort_by_perm|].
    split; [done|]. split; [done|]. by apply orphanSteps_sound.
Qed.

Definition ex_states : gmap string State := mb_states (mw_backend ex_memory).
Definition ex_no_input : plan_input := {| pi_desired := ∅; pi_nodes := []; pi_byHost := ∅; pi_priors := ∅ |}.

Definition ex_empty_plan : Plan :=
  match assemble_plan ex_plan_graph ex_options ex_states [] ex_no_input ∅ with
  | Ok p => p
  | Err _ => ex_plan
  end.

Lemma assemble_plan_complete_witness :
  exists step, step ∈ pl_Steps ex_empty_plan /\ s_Address step = "h.old" /\ s_Host step = "h".
Proof.
  refine (proj1 (assemble_plan_complete ex_plan_graph ex_options ex_states [] ex_no_input ∅
    ex_empty_plan _) "h" _ "h.old" _ _ _ _ _); vm_compute; reflexivity.
Defined.

(** An operation is scheduled exactly when one of its triggers changed
    (and its host is selected), and none of its scheduled dependencies is an
    operation that is not itself scheduled. *)
Theorem operationSteps_spec operations changed steps opts op :
  NoDup (op_Address <$> operations) -> op ∈ operations ->
  ((selected opts (op_Host op) = true /\ exists t, t ∈ op_TriggeredBy op /\ t ∈ changed)
   <-> exists s, s ∈ operationSteps operations changed steps opts
         /\ op_Address (os_Operation s) = op_Address op)
  /\ forall s d, s ∈ operationSteps operations changed steps opts -> d ∈ op_DependsOn (os_Operation s) ->
       d ∈ op_Address <$> operations ->
       exists s', s' ∈ operationSteps operations changed steps opts
         /\ op_Address (os_Operation s') = d.
Proof.
  intros Hnd Hop. set (raw := mjoin (operation_steps_for changed steps opts <$> operations)).
  assert (forall s, s ∈ operationSteps operations changed steps opts ->
    exists s0, s0 ∈ raw /\ op_Address (os_Operation s) = op_Address (os_Operation s0)
      /\ forall d, d ∈ op_DependsOn (os_Operation s) -> d ∈ op_Address <$> operations ->
           d ∈ (fun s => op_Address (os_Operation s)) <$> raw) as Hraw.
  { intros s (s0 & -> & Hs0)%list_elem_of_fmap. exists s0. split; [done|]. split; [done|].
    intros d [Hd _]%list_elem_of_filter. exact Hd. }
  assert (forall s0, s0 ∈ raw -> exists s, s ∈ operationSteps operations changed steps opts
    /\ op_Address (os_Operation s) = op_Address (os_Operation s0)) as Hback.
  { intros s0 Hs0. eexists. split; [by apply list_elem_of_fmap_2|done]. }
  split; [split|].
  - intros (Hsel & t & Ht & Hc).
    destruct (operation_steps_for_some changed steps opts op t Hsel Ht Hc) as [s Hs].
    pose proof (operation_steps_for_active _ _ _ _ _ Hs) as [Ha _].
    destruct (Hback s) as (s' & Hs' & E); [|exists s'; by rewrite E].
    apply list_elem_of_join. eexists. split; [exact Hs|]. by apply list_elem_of_fmap_2.
  - intros (s & (s0 & Hs0 & E & _)%Hraw & Ha). rewrite E in Ha.
    apply list_elem_of_join in Hs0 as (l & Hs0 & (op' & -> & Hop')%list_elem_of_fmap).
    apply operation_steps_for_active in Hs0 as (Ha' & Hsel & Ht).
    assert (op' = op) as ->; [|done]. eapply (NoDup_fmap_eq op_Address); [done..|congruence].
  - intros s d Hs Hd Hdo. destruct (Hraw s Hs) as (_ & _ & _ & H).
    destruct (list_elem_of_fmap_1 _ _ _ (H d Hd Hdo)) as (s0 & -> & Hs0). by apply Hback.
Qed.

Lemma operationSteps_spec_witness :
  exists s, s ∈ operationSteps (g_Operations ex_plan_graph) {["h.b"]} ∅ ex_options
    /\ op_Address (os_Operation s) = "h.reload".
Proof.
  apply (operationSteps_spec (g_Operations ex_plan_graph) {["h.b"]} ∅ ex_options
           (ex_operation "h.reload" ["h.a"; "h.b"] ["h.b"])).
  - apply NoDup_singleton.
  - left.
  - split; [reflexivity|]. exists "h.b". split; [left|by apply elem_of_singleton].
Defined.

(** [Compare] decides a no-op exactly when the resource is meant to be
    absent and is, or is meant to be present, exists, is recorded, carries the
    desired digest, and no change action is waiting to be completed. *)
Theorem Compare_noop node prior observed :
  pp_Action (Compare node prior observed) = ActionNoOp <->
  if desiredEnsureAbsent node then ob_Exists observed = false
  else ob_Exists observed = true /\ ob_DesiredDigest observed = DesiredDigest (n_Desired node)
       /\ is_Some prior /\ changeActionCompletionPending node prior = false.
Proof. apply Compare_noop_iff. Qed.

(** Approved moves are applied only as approved: verification succeeds
    exactly when the moves realized on a host are, in any order, those of the
    approved plan for that host. *)
Theorem verifyApprovedHostMoves_spec host approved realized :
  verifyApprovedHostMoves host approved realized = Ok tt <->
  filter (fun m => rm_Host m = host) approved ≡ₚ realized.
Proof.
  unfold verifyApprovedHostMoves. rewrite bind_Ok. setoid_rewrite guard_or_Ok.
  setoid_rewrite bool_decide_eq_true. split.
  - intros (_ & _ & E). unfold sortRealizedMoves in E.
    by rewrite <- (sort_by_perm move_less3 (filter _ _)), E, sort_by_perm.
  - intros Hp%move_less3_sort. exists tt. by rewrite Hp.
Qed.

(** A state move re-arms change actions: when the change action of a
    resource was completed (its observed completion digest is the recorded
    digest), then after the move it counts as pending again exactly when the
    move changed the recorded digest, because the move rebases the observed
    ["desired_digest"] but not the completion digest. *)
Theorem moved_change_action_pending r fromComponent toComponent target node :
  stringMapValue (r_Observed r) changeActionDigestObservedField = r_DesiredDigest r ->
  stringDesired node "change_action" <> "" ->
  let r' := rebaseMovedResource r fromComponent toComponent target in
  DesiredDigest (n_Desired node) = r_DesiredDigest r' ->
  changeActionCompletionPending node (Some r') = bool_decide (r_DesiredDigest r' <> r_DesiredDigest r).
Proof.
  intros Hc Ha r' Hd. unfold changeActionCompletionPending. rewrite decide_False by done. rewrite Hd.
  assert (stringMapValue (r_Observed r') changeActionDigestObservedField = r_DesiredDigest r) as ->.
  { rewrite <- Hc. unfold r', rebaseMovedResource. cbv zeta. cbn [r_Observed].
    rewrite <- (stringMapValue_clone (r_Observed r)).
    assert (forall (m : gomap) v, stringMapValue (<["desired_digest" := v]> m) changeActionDigestObservedField
              = stringMapValue m changeActionDigestObservedField) as Hins.
    { intros m v. unfold stringMapValue. by rewrite lookup_insert_ne. }
    repeat case_match; rewrite ?Hins; done. }
  apply bool_decide_ext. split; intros H E; by apply H.
Qed.

Definition ex_unit_desired (component : string) : gomap :=
  {["component" := GStr component; "change_action" := GStr "restart"; "path" := GStr "/etc/u"]}.

Definition ex_unit : Resource :=
  let digest := DesiredDigest (ex_unit_desired "a") in
  {| r_Host := "h"; r_Kind := "systemd_unit"; r_ProviderType := "systemd_unit"; r_ProviderAddress := "u";
     r_Ownership := "managed"; r_Lifecycle := None; r_Desired := ex_unit_desired "a";
     r_DesiredDigest := digest;
     r_Observed := {["desired_digest" := GStr digest; "change_action_digest" := GStr digest]};
     r_UpdatedAt := ""; r_Order := 0; r_DependsOn := [] |}.

Lemma moved_change_action_pending_witness :
  changeActionCompletionPending (ex_plan_node "u" (ex_unit_desired "b") [])
    (Some (rebaseMovedResource ex_unit "a" "b" {| mt_ProviderAddress := ""; mt_Desired := ∅ |})) = true.
Proof.
  rewrite moved_change_action_pending; vm_compute; try reflexivity. discriminate.
Defined.
