(* ===== verification/Diff.v ===== *)
(** * Attribute diffs: [internal/core/plan/diff.go]

    Data and operations of the plan's diff trees.  A value is compared after a
    JSON round trip ([normalizeDiffValue]); Go's nil interface is [GNil]. *)
From S2P Require Import Prelude Sha256 GoValue GoStrings.

Record DiffLine := { dl_Op : string; dl_Text : string }.

Record TextHunk := {
  th_OldStart : nat; th_OldLines : nat; th_NewStart : nat; th_NewLines : nat;
  th_Lines : list DiffLine;
}.

(** [DiffNode]; a nil summary map is [None]. *)
Inductive DiffNode := mkDiff {
  d_Path : list string;
  d_Kind : string;
  d_Action : string;
  d_Sensitive : bool;
  d_Before : goval;
  d_After : goval;
  d_BeforeSummary : option gomap;
  d_AfterSummary : option gomap;
  d_Children : list DiffNode;
  d_Hunks : list TextHunk;
}.

Definition setFieldNames : list string := ["groups"; "repositories"; "ssh_authorized_keys"].

(** ** Values *)

Definition normalizeDiffValue (value : goval) : goval :=
  match value with GNil => GNil | _ => unmarshal_any (marshal value) end.

Definition valueSensitive (value : goval) : bool :=
  match normalizeDiffValue value with
  | GMap values => boolMapValue values "sensitive"
  | _ => false
  end.

Definition hidden_keys : list string :=
  ["content"; "source_path"; "summary"; "content_sha256"; "content_bytes"].

(** A nil map stays nil in the program; the caller only passes a nil map next
    to one that has a ["sensitive"] entry, so the empty map stands for it. *)
Definition sanitizeSensitiveMap (values : gomap) : gomap :=
  filter (fun p => p.1 ∉ hidden_keys) values.

Definition summary_fields (values : gomap) : gomap :=
  let out : gomap := ∅ in
  let out := match values !! "content_sha256" with
             | Some sha => <["sha256" := sha]> out
             | None => match values !! "sha256" with
                       | Some sha => <["sha256" := sha]> out
                       | None => out
                       end
             end in
  match values !! "content_bytes" with
  | Some size => <["bytes" := size]> out
  | None => match values !! "bytes" with
            | Some size => <["bytes" := size]> out
            | None => out
            end
  end.

Definition struct_summary (c : ContentSummary) : gomap :=
  let out : gomap := ∅ in
  let out := if decide (SHA256 c = "") then out else <["sha256" := GStr (SHA256 c)]> out in
  if decide (Bytes c = 0%Z) then out else <["bytes" := GInt (Bytes c)]> out.

Definition non_empty (m : gomap) : option gomap := if decide (m = ∅) then None else Some m.

Definition contentSummary (value : goval) : option gomap :=
  match value with
  | GMap values =>
      match values !! "summary" with
      | Some (GMap summary) => Some summary
      | Some (GSummary c) =>
          if decide (struct_summary c = ∅) then non_empty (summary_fields values)
          else Some (struct_summary c)
      | _ => non_empty (summary_fields values)
      end
  | _ => None
  end.

Definition diffAction (fallback : string) (before after : goval) : string :=
  if decide (before = GNil /\ after <> GNil) then "create"
  else if decide (before <> GNil /\ after = GNil) then "delete"
  else if decide (before = after) then "no-op"
  else if decide (fallback <> "") then fallback
  else "update".

(** ** Text *)

Definition strings_TrimSuffix_newline (s : string) : string :=
  if strings_HasSuffix s (String newline EmptyString) then String.substring 0 (String.length s - 1) s else s.

Definition splitTextLines (value : string) : list string :=
  if decide (value = "") then []
  else strings_Split (strings_TrimSuffix_newline value) newline.

Fixpoint commonPrefix (a b : list string) : nat :=
  match a, b with
  | x :: a, y :: b => if decide (x = y) then S (commonPrefix a b) else 0
  | _, _ => 0
  end.

Definition commonSuffix (a b : list string) : nat := commonPrefix (reverse a) (reverse b).

Definition textHunks (before after : string) : list TextHunk :=
  let beforeLines := splitTextLines before in
  let afterLines := splitTextLines after in
  let prefix := commonPrefix beforeLines afterLines in
  let suffix := commonSuffix (drop prefix beforeLines) (drop prefix afterLines) in
  let beforeChanged := drop prefix (take (length beforeLines - suffix) beforeLines) in
  let afterChanged := drop prefix (take (length afterLines - suffix) afterLines) in
  if decide (beforeChanged = [] /\ afterChanged = []) then []
  else
    [{| th_OldStart := prefix + 1; th_OldLines := length beforeChanged;
        th_NewStart := prefix + 1; th_NewLines := length afterChanged;
        th_Lines := ((fun l => {| dl_Op := "delete"; dl_Text := l |}) <$> beforeChanged)
                    ++ ((fun l => {| dl_Op := "create"; dl_Text := l |}) <$> afterChanged) |}].

(** ** Trees *)

Definition last_segment_in (path : list string) (names : list string) : bool :=
  match last path with Some s => bool_decide (s ∈ names) | None => false end.

Definition listKind (path : list string) : string :=
  if last_segment_in path setFieldNames then "set" else "list".

Definition isTextPath (path : list string) : bool := last_segment_in path ["content"].

Definition is_map (v : goval) : bool := match v with GMap _ => true | _ => false end.
Definition is_list (v : goval) : bool := match v with GList _ => true | _ => false end.

Definition node_at (path : list string) (kind action : string) : DiffNode :=
  {| d_Path := path; d_Kind := kind; d_Action := action; d_Sensitive := false;
     d_Before := GNil; d_After := GNil; d_BeforeSummary := None; d_AfterSummary := None;
     d_Children := []; d_Hunks := [] |}.

Definition with_children (n : DiffNode) (c : list DiffNode) : DiffNode :=
  {| d_Path := d_Path n; d_Kind := d_Kind n; d_Action := d_Action n; d_Sensitive := d_Sensitive n;
     d_Before := d_Before n; d_After := d_After n; d_BeforeSummary := d_BeforeSummary n;
     d_AfterSummary := d_AfterSummary n; d_Children := c; d_Hunks := d_Hunks n |}.
Definition with_hunks (n : DiffNode) (h : list TextHunk) : DiffNode :=
  {| d_Path := d_Path n; d_Kind := d_Kind n; d_Action := d_Action n; d_Sensitive := d_Sensitive n;
     d_Before := d_Before n; d_After := d_After n; d_BeforeSummary := d_BeforeSummary n;
     d_AfterSummary := d_AfterSummary n; d_Children := d_Children n; d_Hunks := h |}.
Definition with_values (n : DiffNode) (b a : goval) : DiffNode :=
  {| d_Path := d_Path n; d_Kind := d_Kind n; d_Action := d_Action n; d_Sensitive := d_Sensitive n;
     d_Before := b; d_After := a; d_BeforeSummary := d_BeforeSummary n;
     d_AfterSummary := d_AfterSummary n; d_Children := d_Children n; d_Hunks := d_Hunks n |}.

(** A child present on both sides with equal values is skipped. *)
Definition child (build : list string -> goval -> goval -> bool -> DiffNode) (path : list string)
    (segment : string) (before after : option goval) (nested : bool) : option DiffNode :=
  match before, after with
  | Some b, Some a => if decide (b = a) then None else Some (build (path ++ [segment]) b a nested)
  | _, _ => Some (build (path ++ [segment]) (default GNil before) (default GNil after) nested)
  end.

Definition mapChildren (build : list string -> goval -> goval -> bool -> DiffNode)
    (path : list string) (before after : gomap) : list DiffNode :=
  omap (fun key =>
    child build path key (before !! key) (after !! key)
      (is_map (default GNil (before !! key)) || is_map (default GNil (after !! key))))
    (sorted_keys (before ∪ after)).

Definition listChildren (build : list string -> goval -> goval -> bool -> DiffNode)
    (path : list string) (before after : list goval) : list DiffNode :=
  omap (fun i => child build path (pretty i) (before !! i) (after !! i) false)
    (seq 0 (length before `max` length after)).

(** [buildDiffNode]; [fuel] bounds the nesting depth. *)
Fixpoint buildDiffNode (fuel : nat) (action : string) (path : list string) (before after : goval)
    (nestedMap : bool) : DiffNode :=
  let node kind := node_at path kind (diffAction action before after) in
  match fuel with
  | O => node "scalar"
  | S fuel =>
      if is_map before || is_map after then
        with_children (node (if nestedMap then "map" else "object"))
          (mapChildren (buildDiffNode fuel action) path (default ∅ (as_map before))
             (default ∅ (as_map after)))
      else if is_list before || is_list after then
        with_children (node (listKind path))
          (listChildren (buildDiffNode fuel action) path (default [] (as_list before))
             (default [] (as_list after)))
      else if isTextPath path then
        with_hunks (node "text")
          (textHunks (default "" (as_string before)) (default "" (as_string after)))
      else with_values (node "scalar") before after
  end.

Definition sensitiveContentDiff (action : string) (before after : goval) : DiffNode :=
  {| d_Path := ["content"]; d_Kind := "sensitive"; d_Action := diffAction action before after;
     d_Sensitive := true; d_Before := GNil; d_After := GNil;
     d_BeforeSummary := contentSummary before; d_AfterSummary := contentSummary after;
     d_Children := []; d_Hunks := [] |}.

Definition path_less (a b : DiffNode) : bool :=
  str_ltb (strings_Join (d_Path a) ".") (strings_Join (d_Path b) ".").

(** Enough for every pair of values. *)
Definition diff_fuel (before after : goval) : nat := S (goval_size before + goval_size after).

Definition BuildDiff (action : string) (before after : goval) : DiffNode :=
  let before := normalizeDiffValue before in
  let after := normalizeDiffValue after in
  let sensitive := valueSensitive before || valueSensitive after in
  let before' := if sensitive then GMap (sanitizeSensitiveMap (default ∅ (as_map before))) else before in
  let after' := if sensitive then GMap (sanitizeSensitiveMap (default ∅ (as_map after))) else after in
  let root := buildDiffNode (diff_fuel before' after') action [] before' after' false in
  {| d_Path := d_Path root; d_Kind := "object";
     d_Action := if decide (action = "") then d_Action root else action;
     d_Sensitive := sensitive; d_Before := d_Before root; d_After := d_After root;
     d_BeforeSummary := d_BeforeSummary root; d_AfterSummary := d_AfterSummary root;
     d_Children :=
       if sensitive
       then sort_by path_less (d_Children root ++ [sensitiveContentDiff action before after])
       else d_Children root;
     d_Hunks := d_Hunks root |}.
