(* ===== verification/DiffProps.v ===== *)
(** * Properties of attribute diffs *)
From S2P Require Import Prelude Sha256 GoValue GoStrings State Diff.

(** ** Common prefixes and suffixes *)

Lemma commonPrefix_spec a b :
  take (commonPrefix a b) a = take (commonPrefix a b) b
  /\ commonPrefix a b <= length a /\ commonPrefix a b <= length b.
Proof.
  revert b. induction a as [|x a IH]; intros [|y b]; cbn; try (repeat split; lia).
  case_decide as E; cbn; [|repeat split; lia]. destruct (IH b) as (H1 & H2 & H3). subst.
  split; [by f_equal|lia].
Qed.

Lemma drop_reverse_take {A} n (l : list A) : n <= length l -> drop (length l - n) l = reverse (take n (reverse l)).
Proof.
  intros Hn. rewrite <- (take_drop (length l - n) l) at 3. rewrite reverse_app, take_app_le.
  - rewrite take_ge; [by rewrite reverse_involutive|]. rewrite length_reverse, length_drop. lia.
  - rewrite length_reverse, length_drop. lia.
Qed.

Lemma commonSuffix_spec a b :
  drop (length a - commonSuffix a b) a = drop (length b - commonSuffix a b) b
  /\ commonSuffix a b <= length a /\ commonSuffix a b <= length b.
Proof.
  unfold commonSuffix. destruct (commonPrefix_spec (reverse a) (reverse b)) as (H1 & H2 & H3).
  rewrite length_reverse in H2, H3. split; [|done].
  rewrite !drop_reverse_take by done. by rewrite H1.
Qed.

Lemma commonPrefix_refl a : commonPrefix a a = length a.
Proof. induction a as [|x a IH]; [done|]. cbn. by rewrite decide_True, IH. Qed.

(** ** Applying a hunk *)

Definition hunk_text (op : string) (h : TextHunk) : list string :=
  dl_Text <$> filter (fun l => dl_Op l = op) (th_Lines h).

(** What [patch] does with the hunk [h]. *)
Definition apply_hunk (lines : list string) (h : TextHunk) : list string :=
  take (th_OldStart h - 1) lines ++ hunk_text "create" h
  ++ drop (th_OldStart h - 1 + th_OldLines h) lines.

Lemma hunk_lines_text op op' (l : list string) :
  dl_Text <$> filter (fun x => dl_Op x = op) ((fun s => {| dl_Op := op'; dl_Text := s |}) <$> l)
  = if decide (op' = op) then l else [].
Proof.
  induction l as [|x l IH]; [by case_decide|]. rewrite fmap_cons, filter_cons. cbn [dl_Op].
  case_decide as E; [by rewrite fmap_cons, IH|done].
Qed.

(** The three parts of the old and of the new text. *)
Lemma textHunks_parts before after :
  let b := splitTextLines before in
  let a := splitTextLines after in
  let p := commonPrefix b a in
  let s := commonSuffix (drop p b) (drop p a) in
  take p b = take p a /\ drop (length b - s) b = drop (length a - s) a
  /\ p + s <= length b /\ p + s <= length a.
Proof.
  cbv zeta. set (b := splitTextLines before). set (a := splitTextLines after).
  destruct (commonPrefix_spec b a) as (H1 & H2 & H3). set (p := commonPrefix b a) in *.
  destruct (commonSuffix_spec (drop p b) (drop p a)) as (H4 & H5 & H6).
  set (s := commonSuffix (drop p b) (drop p a)) in *. rewrite !drop_drop, !length_drop in *.
  replace (p + (length b - p - s)) with (length b - s) in H4 by lia.
  replace (p + (length a - p - s)) with (length a - s) in H4 by lia.
  repeat split; [done..|lia|lia].
Qed.

Lemma split_middle {A} (l : list A) p q : p <= q -> take p l ++ drop p (take q l) ++ drop q l = l.
Proof.
  intros H. rewrite <- (take_drop q l) at 4. rewrite app_assoc. f_equal.
  rewrite <- (take_drop p (take q l)) at 2. f_equal. rewrite take_take. f_equal. lia.
Qed.

Lemma textHunks_patch before after :
  fold_left apply_hunk (textHunks before after) (splitTextLines before) = splitTextLines after.
Proof.
  pose proof (textHunks_parts before after) as Hp. cbv zeta in Hp. unfold textHunks. cbv zeta.
  set (b := splitTextLines before) in *. set (a := splitTextLines after) in *.
  set (p := commonPrefix b a) in *. set (s := commonSuffix (drop p b) (drop p a)) in *.
  destruct Hp as (H1 & H2 & H3 & H4).
  assert (a = take p b ++ drop p (take (length a - s) a) ++ drop (length b - s) b) as Ha.
  { rewrite H1, H2. symmetry. apply split_middle. lia. }
  etrans; [|symmetry; exact Ha]. case_decide as E.
  - destruct E as [Eb Ea]. rewrite Ea. cbn [fold_left].
    etrans; [symmetry; apply (split_middle b p (length b - s)); lia|]. by rewrite Eb.
  - cbn [fold_left]. unfold apply_hunk, hunk_text. cbn [th_OldStart th_OldLines th_Lines].
    rewrite filter_app, fmap_app, !hunk_lines_text.
    rewrite decide_False, decide_True by done. cbn [app].
    rewrite length_drop, length_take. replace (p + 1 - 1) with p by lia.
    f_equal. f_equal. f_equal. lia.
Qed.

(** ** The fuel suffices *)

Lemma goval_size_pos v : 1 <= goval_size v.
Proof. destruct v; cbn; lia. Qed.

Lemma member_size v k x :
  default ∅ (as_map v) !! k = Some x -> goval_size x < goval_size v.
Proof. destruct v; cbn [as_map default]; try by rewrite lookup_empty. apply goval_size_map. Qed.

Lemma element_size v (i : nat) x :
  default [] (as_list v) !! i = Some x -> goval_size x < goval_size v.
Proof.
  destruct v; cbn [as_list default]; try by rewrite lookup_nil.
  intros ?%list_elem_of_lookup_2. by apply goval_size_list.
Qed.

(** The parts of two values, one of them present, are smaller. *)
Lemma parts_size (p q : option goval) v w :
  (forall x, p = Some x -> goval_size x < goval_size v) ->
  (forall x, q = Some x -> goval_size x < goval_size w) -> is_Some p \/ is_Some q ->
  goval_size (default GNil p) + goval_size (default GNil q) < goval_size v + goval_size w.
Proof.
  intros Hp Hq Hs. pose proof (goval_size_pos v). pose proof (goval_size_pos w).
  destruct p as [x|], q as [y|]; cbn [default id];
    try specialize (Hp _ eq_refl); try specialize (Hq _ eq_refl); cbn; try lia.
  destruct Hs as [Hs|Hs]; inversion Hs; discriminate.
Qed.

Lemma child_ext (f g : list string -> goval -> goval -> bool -> DiffNode) path k p q nested :
  (forall pth, f pth (default GNil p) (default GNil q) nested
               = g pth (default GNil p) (default GNil q) nested) ->
  child f path k p q nested = child g path k p q nested.
Proof.
  intros H. unfold child. by destruct p as [x|], q as [y|]; cbn in *; rewrite ?H.
Qed.

Lemma omap_ext_in {A B} (f g : A -> option B) (l : list A) :
  (forall x, x ∈ l -> f x = g x) -> omap f l = omap g l.
Proof.
  induction l as [|x l IH]; intros H; [done|]. cbn. rewrite (H x) by left.
  rewrite IH; [done|]. intros y Hy. apply H. by right.
Qed.

Lemma buildDiffNode_fuel f1 f2 action path b a nested :
  goval_size b + goval_size a < f1 -> goval_size b + goval_size a < f2 ->
  buildDiffNode f1 action path b a nested = buildDiffNode f2 action path b a nested.
Proof.
  revert f2 path b a nested. induction f1 as [|f1 IH]; intros [|f2] path b a nested H1 H2; try lia.
  cbn [buildDiffNode]. cbv zeta.
  destruct (is_map b || is_map a) eqn:Em; [|destruct (is_list b || is_list a) eqn:El; [|done]].
  - f_equal. apply omap_ext_in. intros k Hk. apply child_ext. intros pth.
    apply elem_of_sorted_keys, lookup_union_is_Some in Hk.
    assert (goval_size (default GNil (default ∅ (as_map b) !! k))
      + goval_size (default GNil (default ∅ (as_map a) !! k)) < goval_size b + goval_size a).
    { apply parts_size; [apply member_size..|done]. }
    apply IH; lia.
  - f_equal. apply omap_ext_in. intros i Hi. apply child_ext. intros pth.
    rewrite elem_of_seq in Hi.
    assert (goval_size (default GNil (default [] (as_list b) !! i))
      + goval_size (default GNil (default [] (as_list a) !! i)) < goval_size b + goval_size a).
    { apply parts_size; [apply element_size..|]. rewrite !lookup_lt_is_Some. lia. }
    apply IH; lia.
Qed.

(** ** The children of a map node *)

Lemma buildDiffNode_path f action path b a nested :
  d_Path (buildDiffNode f action path b a nested) = path.
Proof. destruct f; [done|]. cbn. by repeat case_match. Qed.

Lemma child_path f action path k p q nested n :
  child (buildDiffNode f action) path k p q nested = Some n -> d_Path n = path ++ [k].
Proof.
  unfold child. destruct p, q; try case_decide; intros [= <-]; apply buildDiffNode_path.
Qed.

Lemma child_is_Some f path k p q nested :
  is_Some p \/ is_Some q -> is_Some (child f path k p q nested) <-> p <> q.
Proof.
  intros Hs. unfold child. destruct p as [x|], q as [y|].
  - case_decide as E; [|split; [congruence|eauto]]. subst. split; [by intros [? ?]|done].
  - split; [done|eauto].
  - split; [done|eauto].
  - by destruct Hs as [[? ?]|[? ?]].
Qed.

Lemma mapChildren_paths f action path (b a : gomap) :
  d_Path <$> mapChildren (buildDiffNode f action) path b a
  = (fun k => path ++ [k]) <$> filter (fun k => b !! k <> a !! k) (sorted_keys (b ∪ a)).
Proof.
  unfold mapChildren.
  assert (forall k, k ∈ sorted_keys (b ∪ a) -> is_Some (b !! k) \/ is_Some (a !! k)) as Hk.
  { intros k Hk. by apply elem_of_sorted_keys, lookup_union_is_Some in Hk. }
  induction (sorted_keys (b ∪ a)) as [|k l IH]; [done|]. rewrite filter_cons.
  set (nested := is_map (default GNil (b !! k)) || is_map (default GNil (a !! k))).
  pose proof (child_is_Some (buildDiffNode f action) path k (b !! k) (a !! k) nested
    (Hk k ltac:(left))) as Hc.
  assert (IH' := IH ltac:(intros x Hx; apply Hk; by right)). clear IH Hk.
  cbn [omap list_omap]. fold nested.
  destruct (child (buildDiffNode f action) path k (b !! k) (a !! k) nested) as [n|] eqn:E.
  - rewrite decide_True by (apply Hc; eauto). rewrite !fmap_cons, (child_path _ _ _ _ _ _ _ _ E).
    f_equal. exact IH'.
  - rewrite decide_False; [exact IH'|]. intros Hne%Hc. by destruct Hne.
Qed.

(** ** Roots *)

Lemma normalize_map (m : gomap) : normalizeDiffValue (GMap m) = GMap (reload m).
Proof. apply unmarshal_marshal_map. Qed.

Lemma valueSensitive_map m : valueSensitive (GMap m) = boolMapValue m "sensitive".
Proof. unfold valueSensitive. rewrite normalize_map. apply boolMapValue_reload. Qed.

(** What a diff shows of an attribute map. *)
Definition visible (sensitive : bool) (m : gomap) : gomap :=
  if sensitive then sanitizeSensitiveMap m else m.

Lemma visible_lookup sensitive m k :
  visible sensitive m !! k = if sensitive && bool_decide (k ∈ hidden_keys) then None else m !! k.
Proof.
  destruct sensitive; cbn [visible andb]; [|done]. unfold sanitizeSensitiveMap.
  case_bool_decide as Hk.
  - apply map_lookup_filter_None. right. by intros x _ Hn.
  - destruct (m !! k) as [v|] eqn:E.
    + by apply map_lookup_filter_Some.
    + apply map_lookup_filter_None. by left.
Qed.

Lemma BuildDiff_maps action (b a : gomap) :
  let sensitive := boolMapValue b "sensitive" || boolMapValue a "sensitive" in
  let root := BuildDiff action (GMap b) (GMap a) in
  d_Sensitive root = sensitive
  /\ exists f, d_Children root =
       if sensitive
       then sort_by path_less
              (mapChildren (buildDiffNode f action) [] (visible sensitive (reload b))
                 (visible sensitive (reload a))
               ++ [sensitiveContentDiff action (GMap (reload b)) (GMap (reload a))])
       else mapChildren (buildDiffNode f action) [] (visible sensitive (reload b))
              (visible sensitive (reload a)).
Proof.
  cbv zeta. unfold BuildDiff. cbv zeta. rewrite !normalize_map, !valueSensitive_map, !boolMapValue_reload.
  cbn [d_Sensitive d_Children]. split; [done|].
  destruct (boolMapValue b "sensitive" || boolMapValue a "sensitive"); eexists;
    unfold diff_fuel; cbn [buildDiffNode is_map orb with_children d_Children as_map default visible];
    reflexivity.
Qed.

Lemma paths_NoDup f action (b a : gomap) :
  NoDup (d_Path <$> mapChildren (buildDiffNode f action) [] b a).
Proof.
  rewrite mapChildren_paths. apply NoDup_fmap_2; [by intros ? ? [= ->]|].
  apply NoDup_filter, NoDup_sorted_keys.
Qed.

Lemma paths_elem f action (b a : gomap) p :
  p ∈ d_Path <$> mapChildren (buildDiffNode f action) [] b a <-> exists k, p = [k] /\ b !! k <> a !! k.
Proof.
  rewrite mapChildren_paths, list_elem_of_fmap. cbn [app].
  split; intros (k & -> & Hk); exists k; (split; [done|]).
  - by apply list_elem_of_filter in Hk as [? _].
  - apply list_elem_of_filter. split; [done|]. apply elem_of_sorted_keys, lookup_union_is_Some.
    destruct (b !! k), (a !! k); try done; eauto.
Qed.

(** A diff of two attribute maps has exactly one child per attribute that
    differs (after the JSON round trip) and may be shown; when either side is
    marked sensitive, the content attributes are never shown and one summary
    child stands for them instead. *)
Theorem BuildDiff_children action (b a : gomap) :
  let sensitive := boolMapValue b "sensitive" || boolMapValue a "sensitive" in
  let root := BuildDiff action (GMap b) (GMap a) in
  d_Sensitive root = sensitive
  /\ NoDup (d_Path <$> d_Children root)
  /\ forall p, p ∈ d_Path <$> d_Children root <->
       (exists k, p = [k] /\ (sensitive = true -> k ∉ hidden_keys) /\ reload b !! k <> reload a !! k)
       \/ (sensitive = true /\ p = ["content"]).
Proof.
  cbv zeta. destruct (BuildDiff_maps action b a) as (Hs & f & Hc). split; [exact Hs|]. rewrite Hc. clear Hc Hs.
  set (sensitive := boolMapValue b "sensitive" || boolMapValue a "sensitive").
  assert (forall p, p ∈ d_Path <$> mapChildren (buildDiffNode f action) [] (visible sensitive (reload b))
      (visible sensitive (reload a)) <->
    exists k, p = [k] /\ (sensitive = true -> k ∉ hidden_keys) /\ reload b !! k <> reload a !! k) as Hp.
  { intros p. rewrite paths_elem. setoid_rewrite visible_lookup. unfold sensitive.
    destruct (boolMapValue b "sensitive" || boolMapValue a "sensitive"); cbn [andb];
      split; intros (k & -> & Hk); exists k; (split; [done|]); case_bool_decide || idtac; naive_solver. }
  destruct sensitive.
  - assert (d_Path <$> sort_by path_less
        (mapChildren (buildDiffNode f action) [] (visible true (reload b)) (visible true (reload a))
         ++ [sensitiveContentDiff action (GMap (reload b)) (GMap (reload a))])
      ≡ₚ (d_Path <$> mapChildren (buildDiffNode f action) [] (visible true (reload b))
            (visible true (reload a))) ++ [["content"]]) as Hperm.
    { by rewrite (sort_by_perm path_less), fmap_app. }
    split.
    + rewrite Hperm. apply NoDup_app. split; [apply paths_NoDup|]. split; [|apply NoDup_singleton].
      intros p (k & -> & Hk & _)%Hp [= ->]%list_elem_of_singleton.
      apply Hk; [done|]. by left.
    + intros p. rewrite Hperm, elem_of_app, Hp, list_elem_of_singleton. naive_solver.
  - split; [apply paths_NoDup|]. intros p. rewrite Hp. naive_solver.
Qed.

(** ** Secrets *)

(** Two values that differ at most in their contents. *)
Definition same_but_content (v v' : goval) : Prop :=
  v = v' \/ exists m m' : gomap, v = GMap m /\ v' = GMap m'
            /\ forall k, k <> "content" -> k <> "source_path" -> m !! k = m' !! k.

Lemma same_normalize v v' :
  same_but_content v v' -> same_but_content (normalizeDiffValue v) (normalizeDiffValue v').
Proof.
  intros [->|(m & m' & -> & -> & H)]; [by left|right]. exists (reload m), (reload m').
  rewrite !normalize_map. repeat split. intros k Hc Hs. unfold reload.
  by rewrite !lookup_fmap, H.
Qed.

Lemma same_sensitive v v' : same_but_content v v' -> valueSensitive v = valueSensitive v'.
Proof.
  intros [->|(m & m' & -> & -> & H)]; [done|]. rewrite !valueSensitive_map. unfold boolMapValue.
  by rewrite H.
Qed.

Lemma same_sanitize v v' :
  same_but_content v v' ->
  sanitizeSensitiveMap (default ∅ (as_map v)) = sanitizeSensitiveMap (default ∅ (as_map v')).
Proof.
  intros [->|(m & m' & -> & -> & H)]; [done|]. cbn [as_map default].
  apply map_eq. intros k. change (visible true m !! k = visible true m' !! k).
  rewrite !visible_lookup. cbn [andb]. case_bool_decide as Hk; [done|].
  apply H; intros ->; apply Hk; [left|right; left].
Qed.

Lemma same_contentSummary v v' : same_but_content v v' -> contentSummary v = contentSummary v'.
Proof.
  intros [->|(m & m' & -> & -> & H)]; [done|]. unfold contentSummary, summary_fields.
  by rewrite !H.
Qed.

Lemma same_nil v v' : same_but_content v v' -> v = GNil <-> v' = GNil.
Proof. by intros [->|(m & m' & -> & -> & _)]. Qed.

Lemma same_diffAction action b a b' a' :
  same_but_content b b' -> same_but_content a a' -> (b = a <-> b' = a') ->
  diffAction action b a = diffAction action b' a'.
Proof.
  intros Hb%same_nil Ha%same_nil He. unfold diffAction. repeat case_decide; tauto || done.
Qed.

Lemma BuildDiff_hides_lemma action b a b' a' :
  valueSensitive b || valueSensitive a = true ->
  same_but_content b b' -> same_but_content a a' ->
  (normalizeDiffValue b = normalizeDiffValue a <-> normalizeDiffValue b' = normalizeDiffValue a') ->
  BuildDiff action b a = BuildDiff action b' a'.
Proof.
  intros Hs Hb%same_normalize Ha%same_normalize He. unfold BuildDiff. cbv zeta.
  assert (forall v, valueSensitive (normalizeDiffValue v) = valueSensitive v) as Hnorm.
  { intros v. destruct v as [| | | | | | |rows|c|l|m|]; try done.
    - unfold valueSensitive at 2. destruct c as [sha n].
      unfold normalizeDiffValue. cbn [marshal]. unfold marshal_summary, omit_str, omit_num. cbn [SHA256 Bytes].
      do 2 case_decide; reflexivity.
    - rewrite normalize_map, !valueSensitive_map. apply boolMapValue_reload. }
  rewrite <- (same_sensitive _ _ Hb), <- (same_sensitive _ _ Ha), !Hnorm, Hs.
  rewrite <- (same_sanitize _ _ Hb), <- (same_sanitize _ _ Ha).
  unfold sensitiveContentDiff.
  by rewrite (same_diffAction _ _ _ _ _ Hb Ha He), (same_contentSummary _ _ Hb), (same_contentSummary _ _ Ha).
Qed.

(** Secrets stay out of diffs: when either side is marked sensitive,
    changing the contents (["content"] and ["source_path"]) on both sides, in
    any way that keeps equal values equal and different ones different, does
    not change the diff at all. *)
Theorem BuildDiff_hides action b a b' a' :
  valueSensitive b || valueSensitive a = true ->
  same_but_content b b' -> same_but_content a a' ->
  (normalizeDiffValue b = normalizeDiffValue a <-> normalizeDiffValue b' = normalizeDiffValue a') ->
  BuildDiff action b a = BuildDiff action b' a'.
Proof. apply BuildDiff_hides_lemma. Qed.

Definition ex_secret (content : string) : goval :=
  GMap {["path" := GStr "/etc/token"; "sensitive" := GBool true; "content" := GStr content;
         "content_sha256" := GStr "abc"]}.

Lemma BuildDiff_hides_witness :
  BuildDiff "update" (ex_secret "one") (ex_secret "two")
  = BuildDiff "update" (ex_secret "hunter") (ex_secret "swordfish").
Proof.
  apply BuildDiff_hides.
  - vm_compute. reflexivity.
  - right. do 2 eexists. split; [reflexivity|]. split; [reflexivity|]. intros k Hc _.
    rewrite !lookup_insert. repeat (case_decide; [done|]). by subst.
  - right. do 2 eexists. split; [reflexivity|]. split; [reflexivity|]. intros k Hc _.
    rewrite !lookup_insert. repeat (case_decide; [done|]). by subst.
  - split; intros H; vm_compute in H; discriminate H.
Defined.

(** The text hunk of a diff is a correct patch: applied to the old lines it
    gives the new ones, its line counts are those of its deleted and created
    lines, and there is no hunk exactly when the lines are equal. *)
Theorem textHunks_spec before after :
  fold_left apply_hunk (textHunks before after) (splitTextLines before) = splitTextLines after
  /\ (textHunks before after = [] <-> splitTextLines before = splitTextLines after)
  /\ forall h, h ∈ textHunks before after ->
       th_OldLines h = length (hunk_text "delete" h) /\ th_NewLines h = length (hunk_text "create" h)
       /\ hunk_text "delete" h
          = take (th_OldLines h) (drop (th_OldStart h - 1) (splitTextLines before)).
Proof.
  split; [apply textHunks_patch|].
  pose proof (textHunks_patch before after) as Hpatch.
  pose proof (textHunks_parts before after) as Hp. cbv zeta in Hp.
  unfold textHunks in *. cbv zeta in *.
  set (b := splitTextLines before) in *. set (a := splitTextLines after) in *.
  set (p := commonPrefix b a) in *. set (s := commonSuffix (drop p b) (drop p a)) in *.
  destruct Hp as (H1 & H2 & H3 & H4). split.
  - case_decide as E; [cbn in Hpatch; by subst|]. split; [done|]. intros Eab. exfalso. apply E.
    assert (p = length b) as Hlen by (unfold p; rewrite Eab; apply commonPrefix_refl).
    rewrite !drop_ge; [done| |]; rewrite length_take; [rewrite <- Eab|]; lia.
  - case_decide; [by intros h ?%elem_of_nil|]. intros h ->%list_elem_of_singleton.
    unfold hunk_text. cbn [th_OldStart th_OldLines th_NewLines th_Lines].
    rewrite !filter_app, !fmap_app, !hunk_lines_text.
    rewrite !(decide_True (P := "delete" = "delete")), !(decide_True (P := "create" = "create")),
      !(decide_False (P := "delete" = "create")), !(decide_False (P := "create" = "delete")) by done.
    rewrite app_nil_r. cbn [app]. split; [done|]. split; [done|].
    rewrite length_drop, length_take. replace (p + 1 - 1) with p by lia.
    rewrite take_drop_commute. f_equal. f_equal. lia.
Qed.

Example ex_text : textHunks "a
b
c
" "a
B
c
" = [{| th_OldStart := 2; th_OldLines := 1; th_NewStart := 2; th_NewLines := 1;
        th_Lines := [{| dl_Op := "delete"; dl_Text := "b" |}; {| dl_Op := "create"; dl_Text := "B" |}] |}].
Proof. vm_compute. reflexivity. Qed.
