(* ===== verification/Document.v ===== *)
(** * Plan documents: [internal/core/plan/plan.go] and [Plan.Document] of [engine.go]

    The reviewable form of a plan: one change per step with its diff and, for
    steps that remove something, a delete diagnostic.  The rendering of a
    document to text and HTML is not modelled; the wording tables are. *)
From S2P Require Import Prelude Sha256 GoValue GoStrings IR State Moves Graph Schedule Engine.
From S2P Require Import Diff.

Definition FormatVersion : string := "debianform.plan.alpha1".

Record Command := { cmd_File : string; cmd_Host : string }.
Record Move := { mo_Host : string; mo_From : string; mo_To : string }.

Record Change := {
  ch_Host : string;
  ch_Address : string;
  ch_Action : string;
  ch_Summary : string;
  ch_Source : SourceRef;
  ch_DependsOn : list string;
  ch_ProviderAddress : string;
  ch_DeleteBehavior : string;
  ch_DeleteNotes : list string;
  ch_DeleteRisk : string;
  ch_Diff : DiffNode;
}.

Record OperationNode := {
  on_Host : string;
  on_Address : string;
  on_Action : string;
  on_Summary : string;
  on_DependsOn : list string;
  on_TriggeredBy : list string;
  on_CommandPreview : string;
  on_Source : SourceRef;
}.

(** [Document]; [Diagnostics] is always empty and left out. *)
Record Document := {
  doc_FormatVersion : string;
  doc_GeneratedAt : string;
  doc_Command : Command;
  doc_Summary : Summary;
  doc_Moves : list Move;
  doc_Changes : list Change;
  doc_Operations : list OperationNode;
}.

(** [plan.Options]; [po_Now] is the formatted time. *)
Record PlanOptions := { po_CommandFile : string; po_Host : string; po_Debug : bool; po_Now : string }.

(** ** The document of a graph alone *)

Definition operation_node (address : string) (op : Operation) : OperationNode :=
  {| on_Host := op_Host op; on_Address := address; on_Action := op_Action op;
     on_Summary := op_Summary op; on_DependsOn := op_DependsOn op; on_TriggeredBy := op_TriggeredBy op;
     on_CommandPreview := op_CommandPreview op; on_Source := op_Source op |}.

Definition diffForNode (node : Node) : DiffNode := BuildDiff "create" GNil (GMap (n_Desired node)).

Definition new_change (opts : PlanOptions) (node : Node) : Change :=
  {| ch_Host := n_Host node; ch_Address := n_Address node; ch_Action := "create";
     ch_Summary := n_Summary node; ch_Source := n_Source node;
     ch_DependsOn := n_ExplicitDependsOn node;
     ch_ProviderAddress := if po_Debug opts then n_ProviderAddress node else "";
     ch_DeleteBehavior := ""; ch_DeleteNotes := []; ch_DeleteRisk := "";
     ch_Diff := diffForNode node |}.

Definition document_of (opts : PlanOptions) (summary : Summary) (moves : list Move)
    (changes : list Change) (operations : list OperationNode) : Document :=
  {| doc_FormatVersion := FormatVersion; doc_GeneratedAt := po_Now opts;
     doc_Command := {| cmd_File := po_CommandFile opts; cmd_Host := po_Host opts |};
     doc_Summary := summary; doc_Moves := moves; doc_Changes := changes;
     doc_Operations := operations |}.

Definition New (g : ResourceGraph) (opts : PlanOptions) : Document :=
  let nodes := sort_by (fun a b => str_ltb (n_Address a) (n_Address b)) (g_Nodes g) in
  let changes := new_change opts <$> nodes in
  let operations := (fun op => operation_node (op_Address op) op) <$> g_Operations g in
  document_of opts
    {| sm_Move := 0; sm_Create := length changes; sm_Update := 0; sm_Delete := 0; sm_NoOp := 0;
       sm_Operations := length operations |}
    [] changes operations.

(** ** Delete diagnostics *)

Record deleteDiagnostic := { dd_Behavior : string; dd_Notes : list string; dd_Risk : string }.

Definition diagnostic (behavior : string) (notes : list string) (risk : string) : deleteDiagnostic :=
  {| dd_Behavior := behavior; dd_Notes := notes; dd_Risk := risk |}.

Definition deleteLikeAction (action : string) : bool :=
  bool_decide (action ∈ [ActionDelete; ActionDestroy; ActionForget]).

Definition compact_note (note : string) : option string :=
  let note := strings_TrimSpace note in
  if bool_decide (note = "") || strings_HasSuffix note ": " || strings_HasSuffix note ":" then None
  else Some note.

Definition compactNotes (notes : list string) : list string := omap compact_note notes.

Definition stepDeleteKindAndDesired (step : Step) : string * gomap :=
  let from_node := (n_Kind (s_Node step), n_Desired (s_Node step)) in
  match s_Prior step with
  | Some prior =>
      if decide (s_Action step = ActionDestroy \/ s_Action step = ActionForget)
      then (r_Kind prior, r_Desired prior) else from_node
  | None => from_node
  end.

Definition deletePathForKind (kind : string) (desired : gomap) : string :=
  if decide (kind = "component_build") then stringMapValue desired "output_path"
  else stringMapValue desired "path".

Definition aptSourceOnDestroy (desired : gomap) : string :=
  let value := stringMapValue desired "on_destroy" in
  if decide (value = "") then "keep" else value.

Definition is_kind (kind : string) (kinds : list string) : bool := bool_decide (kind ∈ kinds).

Definition destructiveDeleteDiagnostic (kind : string) (desired : gomap) : deleteDiagnostic :=
  let value := stringMapValue desired in
  if decide (kind = "docker_package_conflicts") then
    diagnostic "destructive"
      ["removes installed Docker conflict packages and does not reinstall them later"] "high"
  else if decide (kind = "package") then
    diagnostic "destructive"
      (compactNotes ["removes package with apt-get remove"; "package: " +:+ value "name"]) "high"
  else if decide (kind = "file") then
    diagnostic "destructive"
      (compactNotes ["removes file and does not restore previous content"; "path: " +:+ value "path"])
      "high"
  else if decide (kind = "secret") then
    diagnostic "destructive"
      (compactNotes ["removes secret file and does not store or restore secret plaintext";
                     "path: " +:+ value "path"]) "high"
  else if is_kind kind ["directory"; "component_archive"] then
    diagnostic "destructive"
      (compactNotes ["removes directory recursively and cannot restore its contents";
                     "path: " +:+ value "path"]) "high"
  else if decide (kind = "group") then
    diagnostic "destructive"
      (compactNotes ["deletes group and does not restore previous membership";
                     "group: " +:+ value "name"]) "high"
  else if decide (kind = "user") then
    diagnostic "destructive"
      (compactNotes ["deletes user and does not restore previous account state";
                     "user: " +:+ value "name"]) "high"
  else if decide (kind = "ssh_authorized_key") then
    diagnostic "destructive"
      (compactNotes ["removes authorized key from the user's authorized_keys file";
                     "user: " +:+ value "user"]) "high"
  else if is_kind kind ["component_binary"; "component_file"] then
    diagnostic "destructive"
      (compactNotes ["removes installed component artifact"; "path: " +:+ value "path"]) "high"
  else if decide (kind = "docker_compose_project") then
    diagnostic "destructive"
      (compactNotes ["runs docker compose down for the project"; "project: " +:+ value "project";
                     "does not restore previous compose project state"]) "high"
  else
    diagnostic "destructive"
      (compactNotes ["removes remote resource managed by DebianForm"; "kind: " +:+ kind]) "high".

Definition destructive_kinds : list string :=
  ["docker_package_conflicts"; "package"; "file"; "secret"; "directory"; "group"; "user";
   "ssh_authorized_key"; "component_binary"; "component_file"; "component_archive";
   "docker_compose_project"].

Definition delete_diagnostic (kind : string) (desired : gomap) : deleteDiagnostic :=
  let value := stringMapValue desired in
  if decide (kind = "apt_source_file") then
    if decide (aptSourceOnDestroy desired = "restore") then
      diagnostic "restore-original"
        (compactNotes ["restores the apt source file content saved when DebianForm adopted or last managed it";
                       "path: " +:+ value "path"]) "medium"
    else
      diagnostic "forget"
        (compactNotes ["keeps the remote apt source file and removes only DebianForm state";
                       "path: " +:+ value "path"]) "low"
  else if decide (kind = "sysctl") then
    diagnostic "remove-managed-artifact"
      (compactNotes ["removes " +:+ sysctlPath (value "key"); "runtime sysctl value is not restored"])
      "medium"
  else if decide (kind = "kernel_module") then
    diagnostic "external-side-effect"
      (compactNotes ["removes " +:+ modulePath (value "name");
                     "attempts to unload the kernel module with modprobe -r"]) "high"
  else if is_kind kind ["apt_signing_key"; "component_download"; "component_build"] then
    diagnostic "remove-managed-artifact"
      (compactNotes ["removes DebianForm-managed artifact"; "path: " +:+ deletePathForKind kind desired])
      "medium"
  else if decide (kind = "systemd_unit") then
    diagnostic "external-side-effect"
      (compactNotes ["removes systemd unit file"; "path: " +:+ value "path";
                     "runs systemctl daemon-reload"]) "high"
  else if decide (kind = "nftables_file") then
    diagnostic "external-side-effect"
      (compactNotes ["removes nftables file"; "path: " +:+ value "path";
                     "may trigger nftables validate or activate operations"]) "high"
  else if decide (kind = "component_ca_certificate") then
    diagnostic "external-side-effect"
      (compactNotes ["removes CA certificate file"; "path: " +:+ value "path";
                     "may trigger update-ca-certificates"]) "high"
  else if decide (kind = "user_group_membership") then
    diagnostic "external-side-effect"
      (compactNotes ["removes user from supplementary group";
                     "existing login sessions may keep old group membership"]) "medium"
  else if decide (kind = "service") then
    diagnostic "external-side-effect"
      (compactNotes ["disables and stops the service when destroying the managed service resource";
                     "service: " +:+ value "name"]) "high"
  else if is_kind kind destructive_kinds then destructiveDeleteDiagnostic kind desired
  else if decide (kind = "networkd_netdev") then
    diagnostic "external-side-effect"
      (compactNotes ["removes systemd-networkd netdev file"; "path: " +:+ value "path";
                     "reloads systemd-networkd"; "removes runtime netdev"; "netdev: " +:+ value "name"])
      "high"
  else if decide (kind = "networkd_network") then
    diagnostic "external-side-effect"
      (compactNotes ["removes systemd-networkd file"; "path: " +:+ value "path"]) "high"
  else
    diagnostic "unknown"
      (compactNotes ["provider has not declared precise delete behavior for resource kind " +:+ kind])
      "unknown".

Definition deleteDiagnosticForStep (step : Step) : deleteDiagnostic :=
  if negb (deleteLikeAction (s_Action step)) then diagnostic "" [] ""
  else if decide (s_Action step = ActionForget) then
    diagnostic "forget"
      ["removes the resource from DebianForm state without modifying the remote resource"] "low"
  else let '(kind, desired) := stepDeleteKindAndDesired step in delete_diagnostic kind desired.

(** The wording of the behaviors. *)
Definition deleteBehaviorMeaning (behavior : string) : string :=
  if decide (behavior = "forget") then
    "removes only DebianForm state; it does not modify the remote server resource."
  else if decide (behavior = "remove-managed-artifact") then
    "removes DebianForm-managed persistent artifacts; it does not guarantee runtime state restoration."
  else if decide (behavior = "restore-original") then
    "attempts to restore the original content saved in DebianForm state."
  else if decide (behavior = "destructive") then
    "may remove user data, packages, accounts, files, directories, or service state."
  else if decide (behavior = "external-side-effect") then
    "may trigger side effects such as reload, restart, activate, update, or unload operations."
  else if decide (behavior = "unknown") then
    "the provider has not declared precise delete behavior; review conservatively."
  else "review the listed actions before applying.".

Definition deleteBehaviorWillNot (behavior : string) (notes : list string) : string :=
  if decide (behavior = "forget") then "modify the remote server resource."
  else if decide (behavior = "remove-managed-artifact") then
    if existsb (fun note => strings_Contains note "runtime" && strings_Contains note "not restored") notes
    then "restore runtime values or guess system defaults."
    else "restore previous runtime state or unmanaged content unless the provider says so."
  else if decide (behavior = "restore-original") then
    "restore anything that was not saved in DebianForm state."
  else if decide (behavior = "destructive") then
    "restore removed data or previous remote state automatically."
  else if decide (behavior = "external-side-effect") then
    "guarantee there is no service impact; check the listed side effects."
  else if decide (behavior = "unknown") then
    "make the operation transparent; inspect the resource/provider before applying."
  else "".

(** ** The document of a plan *)

Definition step_values (step : Step) : goval * goval :=
  let shown := (GMap (s_Observed step), GMap (n_Desired (s_Node step))) in
  match s_Prior step with
  | Some prior =>
      if decide (s_Action step = ActionDestroy \/ s_Action step = ActionForget)
      then (GMap (r_Desired prior), GNil) else shown
  | None => shown
  end.

Definition change_of (opts : PlanOptions) (step : Step) : Change :=
  let '(before, after) := step_values step in
  let d := deleteDiagnosticForStep step in
  let provider := n_ProviderAddress (s_Node step) in
  {| ch_Host := s_Host step; ch_Address := s_Address step; ch_Action := s_Action step;
     ch_Summary := s_Summary step; ch_Source := n_Source (s_Node step);
     ch_DependsOn := n_ExplicitDependsOn (s_Node step);
     ch_ProviderAddress :=
       if po_Debug opts then
         if decide (provider = "") then
           match s_Prior step with Some prior => r_ProviderAddress prior | None => provider end
         else provider
       else "";
     ch_DeleteBehavior := dd_Behavior d; ch_DeleteNotes := dd_Notes d; ch_DeleteRisk := dd_Risk d;
     ch_Diff := BuildDiff (s_Action step) before after |}.

Definition plan_Document (p : Plan) (opts : PlanOptions) : Document :=
  document_of opts (pl_Summary p)
    ((fun m => {| mo_Host := rm_Host m; mo_From := rm_From m; mo_To := rm_To m |}) <$> pl_Moves p)
    (change_of opts <$> pl_Steps p)
    ((fun s => operation_node (op_step_key s) (os_Operation s)) <$> pl_Operations p).

(** ** Filters of the HTML page *)

Definition collect (values : list string) : list string :=
  sorted_keys (list_to_map ((fun v => (v, tt)) <$> filter (fun v => v <> "") values) : gmap string unit).

Definition collectHosts (doc : Document) : list string :=
  collect ((mo_Host <$> doc_Moves doc) ++ (ch_Host <$> doc_Changes doc) ++ (on_Host <$> doc_Operations doc)).

Definition collectActions (doc : Document) : list string :=
  collect ((if decide (doc_Moves doc = []) then [] else ["move"])
           ++ (ch_Action <$> doc_Changes doc) ++ (on_Action <$> doc_Operations doc)).

Definition hasDeleteBehaviorDiagnostics (doc : Document) : bool :=
  existsb (fun c => bool_decide (ch_DeleteBehavior c <> "")) (doc_Changes doc).

Definition actionSymbol (action : string) : string :=
  if is_kind action ["create"; "adopt"] then "+"
  else if decide (action = "update") then "~"
  else if is_kind action ["delete"; "destroy"; "forget"] then "-"
  else if decide (action = "no-op") then "="
  else "?".

Definition sourceText (source : SourceRef) : string :=
  if decide (src_File source = "") then ""
  else if decide (src_Path source = "") then src_File source +:+ ":" +:+ pretty (src_Line source)
  else src_File source +:+ ":" +:+ pretty (src_Line source) +:+ ":" +:+ src_Path source.
