(* ===== verification/DocumentProps.v ===== *)
(** * Properties of plan documents *)
From S2P Require Import Prelude Sha256 GoValue GoStrings IR State Moves Graph Schedule Engine.
From S2P Require Import Execute Run EngineProps Diff DiffProps Document.

(** ** Delete diagnostics *)

Definition legend : list string :=
  ["forget"; "remove-managed-artifact"; "restore-original"; "destructive"; "external-side-effect";
   "unknown"].

(** A note worth printing: not blank and not a label without its value. *)
Definition useful_note (note : string) : Prop := note <> "" /\ strings_HasSuffix note ":" = false.

Lemma compactNotes_useful notes : Forall useful_note (compactNotes notes).
Proof.
  induction notes as [|n notes IH]; [constructor|]. unfold compactNotes. cbn.
  destruct (compact_note n) as [m|] eqn:E; [|exact IH]. constructor; [|exact IH].
  unfold compact_note in E. destruct (_ || _) eqn:Eb; [done|]. injection E as <-.
  apply orb_false_iff in Eb as [[Eb _]%orb_false_iff Ec]. split; [|done].
  by apply bool_decide_eq_false in Eb.
Qed.

Definition sound_diagnostic (d : deleteDiagnostic) : Prop :=
  dd_Behavior d ∈ legend /\ dd_Risk d ∈ ["low"; "medium"; "high"; "unknown"]
  /\ (dd_Behavior d = "destructive" -> dd_Risk d = "high") /\ Forall useful_note (dd_Notes d).

Ltac in_list := first [left | right; in_list].
Ltac diagnostic_case :=
  unfold sound_diagnostic; cbn [dd_Behavior dd_Notes dd_Risk diagnostic];
  split; [in_list|]; split; [in_list|]; split; [done || by intros|];
  first [apply compactNotes_useful | by repeat constructor].

Lemma destructive_sound kind desired : sound_diagnostic (destructiveDeleteDiagnostic kind desired).
Proof. unfold destructiveDeleteDiagnostic. repeat case_match; diagnostic_case. Qed.

Lemma delete_diagnostic_sound kind desired : sound_diagnostic (delete_diagnostic kind desired).
Proof.
  unfold delete_diagnostic.
  repeat case_match; first [apply destructive_sound | diagnostic_case].
Qed.

(** Every step that removes something (delete, destroy or forget), and no
    other, carries a delete diagnostic; its behavior is one the legend
    explains, a destructive one is always marked high risk, and no note is
    blank or a label without its value. *)
Theorem deleteDiagnostic_spec step :
  let d := deleteDiagnosticForStep step in
  (dd_Behavior d <> "" <-> deleteLikeAction (s_Action step) = true)
  /\ (deleteLikeAction (s_Action step) = true ->
      sound_diagnostic d /\ deleteBehaviorMeaning (dd_Behavior d) <> deleteBehaviorMeaning ""
      /\ deleteBehaviorWillNot (dd_Behavior d) (dd_Notes d) <> "").
Proof.
  cbv zeta. unfold deleteDiagnosticForStep.
  destruct (deleteLikeAction (s_Action step)); cbn [negb]; [|split; [by split; intros H|done]].
  assert (forall d, sound_diagnostic d ->
    (dd_Behavior d <> "" <-> true = true) /\ (true = true -> sound_diagnostic d
      /\ deleteBehaviorMeaning (dd_Behavior d) <> deleteBehaviorMeaning ""
      /\ deleteBehaviorWillNot (dd_Behavior d) (dd_Notes d) <> "")) as Hgo.
  { intros d Hd. pose proof Hd as (Hl & _). destruct d as [b notes r]. cbn in *.
    assert (b <> "" /\ deleteBehaviorMeaning b <> deleteBehaviorMeaning ""
            /\ deleteBehaviorWillNot b notes <> "") as (H1 & H2 & H3); [|done].
    repeat (apply elem_of_cons in Hl as [->|Hl]; [split; [done|]; split; [done|];
      unfold deleteBehaviorWillNot; repeat (rewrite decide_False by done || rewrite decide_True by done);
      try destruct (existsb _ _); done|]).
    by apply elem_of_nil in Hl. }
  apply Hgo. case_decide; [diagnostic_case|].
  destruct (stepDeleteKindAndDesired step) as [kind desired]. apply delete_diagnostic_sound.
Qed.

(** ** Secrets *)

(** Attribute maps equal but for their contents. *)
Definition same_attributes (m m' : gomap) : Prop := same_but_content (GMap m) (GMap m').

Lemma same_attributes_lookup m m' k :
  same_attributes m m' -> k <> "content" -> k <> "source_path" -> m !! k = m' !! k.
Proof. intros [[= ->]|(? & ? & [= <-] & [= <-] & H)] Hc Hs; [done|by apply H]. Qed.

Lemma same_attributes_string m m' k :
  same_attributes m m' -> k <> "content" -> k <> "source_path" ->
  stringMapValue m k = stringMapValue m' k.
Proof. intros H Hc Hs. unfold stringMapValue. by rewrite (same_attributes_lookup m m' k H). Qed.

Lemma same_delete_diagnostic kind m m' :
  same_attributes m m' -> delete_diagnostic kind m = delete_diagnostic kind m'.
Proof.
  intros H. unfold delete_diagnostic, destructiveDeleteDiagnostic, deletePathForKind, aptSourceOnDestroy.
  cbv zeta. repeat (erewrite (same_attributes_string m m'); [|exact H|done|done]). reflexivity.
Qed.

(** The diff of the two sides of a step may not tell the contents apart: one
    side is marked sensitive, and equal sides stay equal. *)
Record hidden_pair (p q : goval * goval) : Prop := {
  hp_before : same_but_content p.1 q.1;
  hp_after : same_but_content p.2 q.2;
  hp_sensitive : valueSensitive p.1 || valueSensitive p.2 = true;
  hp_equal : normalizeDiffValue p.1 = normalizeDiffValue p.2 <->
             normalizeDiffValue q.1 = normalizeDiffValue q.2;
}.

(** Steps that agree on everything but the contents of sensitive resources. *)
Record same_step (s s' : Step) : Prop := {
  ss_address : s_Address s = s_Address s';
  ss_host : s_Host s = s_Host s';
  ss_action : s_Action s = s_Action s';
  ss_summary : s_Summary s = s_Summary s';
  ss_source : n_Source (s_Node s) = n_Source (s_Node s');
  ss_depends : n_ExplicitDependsOn (s_Node s) = n_ExplicitDependsOn (s_Node s');
  ss_provider : n_ProviderAddress (s_Node s) = n_ProviderAddress (s_Node s');
  ss_kind : n_Kind (s_Node s) = n_Kind (s_Node s');
  ss_desired : same_attributes (n_Desired (s_Node s)) (n_Desired (s_Node s'));
  ss_prior : option_Forall2 (fun r r' => r_Kind r = r_Kind r'
               /\ r_ProviderAddress r = r_ProviderAddress r' /\ same_attributes (r_Desired r) (r_Desired r'))
               (s_Prior s) (s_Prior s');
  ss_values : hidden_pair (step_values s) (step_values s');
}.

Lemma same_step_diagnostic s s' :
  same_step s s' -> deleteDiagnosticForStep s = deleteDiagnosticForStep s'.
Proof.
  intros []. unfold deleteDiagnosticForStep, stepDeleteKindAndDesired.
  rewrite <- ss_action0. destruct (deleteLikeAction _); cbn [negb]; [|done].
  case_decide; [done|]. rewrite <- ss_kind0.
  destruct ss_prior0 as [r r' (Hk & _ & Hd)|]; [|by apply same_delete_diagnostic].
  case_decide; [rewrite Hk|]; by apply same_delete_diagnostic.
Qed.


Definition ex_secret_step (content : string) : Step :=
  {| s_Address := "host.h.files./t"; s_Host := "h"; s_Action := ActionUpdate; s_Summary := "update";
     s_Node := {| n_Host := "h"; n_Address := "a"; n_Kind := "file"; n_Summary := ""; n_Source := no_source;
                  n_Lifecycle := None;
                  n_Desired := {["path" := GStr "/t"; "sensitive" := GBool true; "content" := GStr content]};
                  n_ProviderType := "file"; n_ProviderAddress := "file.t"; n_ProviderPayload := ∅;
                  n_DependsOn := []; n_ExplicitDependsOn := []; n_DependencySources := ∅ |};
     s_Prior := None; s_Observed := {["path" := GStr "/t"]}; s_Ownership := "managed"; s_Order := 0 |}.

Definition ex_secret_plan (content : string) : Plan :=
  {| pl_Steps := [ex_secret_step content]; pl_Operations := []; pl_Moves := [];
     pl_Summary := summarize [ex_secret_step content] [] 0 0 |}.

Definition ex_plan_options : PlanOptions :=
  {| po_CommandFile := "main.dbf.hcl"; po_Host := ""; po_Debug := true; po_Now := "t" |}.


(** ** Summaries *)

Definition step_count (actions : list string) (steps : list Step) : nat :=
  length (filter (fun s => s_Action s ∈ actions) steps).

(** Evaluates decisions of closed propositions. *)
Ltac closed_decide :=
  repeat match goal with
  | |- context [decide ?P] =>
      first [ rewrite (decide_True (P := P)) by (apply (bool_decide_unpack _); vm_compute; exact I)
            | rewrite (decide_False (P := P))
                by (let H := fresh in intros H; apply (bool_decide_pack _) in H; vm_compute in H; exact H) ]
  end.

Lemma summarize_fold steps sm :
  let out := fold_left summarize_step steps sm in
  sm_Create out = sm_Create sm + step_count [ActionCreate] steps
  /\ sm_Update out = sm_Update sm + step_count [ActionUpdate; ActionAdopt] steps
  /\ sm_Delete out = sm_Delete sm + step_count [ActionDelete; ActionDestroy; ActionForget] steps
  /\ sm_NoOp out = sm_NoOp sm + step_count [ActionNoOp] steps
  /\ sm_Move out = sm_Move sm.
Proof.
  revert sm. induction steps as [|s steps IH]; intros sm; cbv zeta; [cbn; lia|].
  cbn [fold_left]. specialize (IH (summarize_step sm s)). cbv zeta in IH.
  destruct IH as (-> & -> & -> & -> & ->). unfold step_count. rewrite !filter_cons.
  unfold summarize_step. cbv zeta. generalize (s_Action s). intros a.
  destruct (decide (a ∈ [ActionCreate; ActionUpdate; ActionAdopt; ActionDelete; ActionDestroy;
    ActionForget; ActionNoOp])) as [Hin|Hout].
  - repeat (apply elem_of_cons in Hin as [->|Hin]; [closed_decide; cbn; lia|]). by apply elem_of_nil in Hin.
  - rewrite !not_elem_of_cons in Hout. destruct Hout as (? & ? & ? & ? & ? & ? & ? & _).
    repeat (rewrite decide_False by (rewrite ?elem_of_cons, ?elem_of_nil; tauto)). lia.
Qed.

(** The summary line of a plan counts it exactly: creations, updates (with
    adoptions) and deletions (deletes, destroys, forgets) are the numbers of
    steps with those actions, no step is a no-op, the no-ops are the examined
    nodes without a step, and moves and operations are counted in full. *)
Theorem assemble_plan_summary g opts states moves input plans plan :
  assemble_plan g opts states moves input plans = Ok plan ->
  let sm := pl_Summary plan in
  sm_Create sm = step_count [ActionCreate] (pl_Steps plan)
  /\ sm_Update sm = step_count [ActionUpdate; ActionAdopt] (pl_Steps plan)
  /\ sm_Delete sm = step_count [ActionDelete; ActionDestroy; ActionForget] (pl_Steps plan)
  /\ sm_Move sm = length moves /\ sm_Operations sm = length (pl_Operations plan)
  /\ exists orphaned, orphanSteps states (pi_desired input) opts = Ok orphaned
       /\ length (pl_Steps plan) + sm_NoOp sm = length (pi_nodes input) + length orphaned.
Proof.
  intros H. cbv zeta. pose proof H as Hinv. apply assemble_plan_inv in Hinv as (acc & orphaned & Hok & Ho & Hs & _).
  unfold assemble_plan in H. res_inv. rename x into acc', x0 into orphaned'.
  assert (orphaned' = orphaned) as -> by congruence.
  pose proof (plan_steps_ok _ _ _ _ H0) as [Hc' Hn' _].
  cbn [pl_Summary pl_Steps pl_Operations] in *. unfold summarize. cbn [sm_Create sm_Update sm_Delete sm_Move sm_NoOp sm_Operations].
  destruct (summarize_fold (sortSteps (sa_steps acc' ++ orphaned))
    {| sm_Move := length moves; sm_Create := 0; sm_Update := 0; sm_Delete := 0; sm_NoOp := 0; sm_Operations := 0 |})
    as (Hcr & Hup & Hde & Hno & Hmo).
  rewrite Hcr, Hup, Hde, Hno, Hmo. repeat (split; [done|]). exists orphaned. split; [done|].
  assert (step_count [ActionNoOp] (sortSteps (sa_steps acc' ++ orphaned)) = 0) as ->.
  { unfold step_count. destruct (filter _ _) as [|s l] eqn:E; [done|]. exfalso.
    assert (s ∈ s :: l) as Hin by left. rewrite <- E in Hin.
    apply list_elem_of_filter in Hin as [Hact%list_elem_of_singleton Hin].
    apply elem_of_sortSteps, elem_of_app in Hin as [Hin|Hin].
    - by destruct (Hn' s Hin) as (? & _ & _ & _ & _ & Hne & _).
    - destruct (orphanSteps_sound _ _ _ _ Ho s Hin) as [(st & prior & _ & _ & _ & Ha) _ _].
      rewrite Hact in Ha. by destruct Ha as [?|[? _]]. }
  unfold sortSteps. rewrite (Permutation_length (sort_by_perm _ _)), length_app. cbn. lia.
Qed.

Definition ex_summary_plan : result engine_error Plan :=
  assemble_plan ex_plan_graph ex_options ∅ []
    {| pi_desired := ∅; pi_nodes := [(ex_plan_node "h.a" ∅ [], 0); (ex_plan_node "h.b" ∅ [], 1)];
       pi_byHost := ∅; pi_priors := ∅ |}
    {["h.a" := {| pp_Action := ActionCreate; pp_Summary := ""; pp_Observed := ∅; pp_Ownership := "" |}]}.

Lemma assemble_plan_summary_witness :
  exists plan, ex_summary_plan = Ok plan /\ sm_Create (pl_Summary plan) = 1.
Proof.
  destruct ex_summary_plan as [plan|e] eqn:E.
  - exists plan. split; [reflexivity|].
    rewrite (proj1 (assemble_plan_summary _ _ _ _ _ _ _ E)).
    vm_compute in E. injection E as <-. reflexivity.
  - exfalso. assert (is_ok ex_summary_plan = true) as H by (vm_compute; reflexivity).
    rewrite E in H. discriminate H.
Defined.
