(* ===== verification/ExecuteWaves.v ===== *)
(** * The execution waves of a plan

    [executionWaves] turns a plan into waves: first the orphans, dependents
    first, then the scheduled steps and operations. *)
From S2P Require Import Prelude Sha256 GoValue GoStrings IR State Moves MovesProps Graph Schedule.
From S2P Require Import ScheduleGraph ScheduleProps Engine Execute.
From S2P Require Import ExecuteLemmas ExecuteRun Run Memory EngineProps.

(** ** The orphan waves

    [orphanExecutionWaves] is Kahn's algorithm on the dependencies recorded in
    the state, which may list an address several times: the counts are those of
    a multigraph.  An edge goes from a resource to what it depends on, since
    dependents are removed first. *)

(** *** Occurrences *)

Definition occ (v : string) (l : list string) : nat := length (filter (fun x => x = v) l).

Lemma occ_cons v x l : occ v (x :: l) = (if decide (x = v) then 1 else 0) + occ v l.
Proof. unfold occ. rewrite filter_cons. by case_decide. Qed.

Lemma occ_app v l k : occ v (l ++ k) = occ v l + occ v k.
Proof. unfold occ. by rewrite filter_app, length_app. Qed.

Lemma occ_perm v l k : l ≡ₚ k -> occ v l = occ v k.
Proof. intros H. unfold occ. by rewrite H. Qed.

Lemma occ_pos v l : 0 < occ v l <-> v ∈ l.
Proof.
  induction l as [|x l IH]; [cbn; split; [lia|by intros ?%elem_of_nil]|].
  rewrite occ_cons, elem_of_cons, <- IH. case_decide; split; intros; [by left|lia|right; lia|].
  destruct H0 as [->|?]; [done|lia].
Qed.

Lemma mjoin_perm {A B} (f : A -> list B) (l k : list A) : l ≡ₚ k -> mjoin (f <$> l) ≡ₚ mjoin (f <$> k).
Proof.
  induction 1 as [|x l k _ IH|x y l|l k m _ IH1 _ IH2]; cbn; [done|by rewrite IH| |by rewrite IH1].
  rewrite !app_assoc. by rewrite (Permutation_app_comm (f y)).
Qed.

(** *** Releasing along a multigraph *)

Definition cnt (ind : gmap string Z) (v : string) : Z := default 0%Z (ind !! v).

Lemma release_multi ds ind rd :
  (forall v, (Z.of_nat (occ v ds) <= cnt ind v)%Z) -> NoDup rd -> (forall v, v ∈ rd -> cnt ind v = 0%Z) ->
  let out := fold_left release ds (ind, rd) in
  (forall v, cnt out.1 v = (cnt ind v - Z.of_nat (occ v ds))%Z) /\ NoDup out.2
  /\ (forall v, v ∈ out.2 <-> v ∈ rd \/ (0 < cnt ind v /\ cnt ind v = Z.of_nat (occ v ds))%Z).
Proof.
  revert ind rd. induction ds as [|d ds IH]; intros ind rd Hle Hnd Hzero; cbv zeta.
  { cbn. split; [intros; unfold occ; cbn; lia|]. split; [done|]. intros v. split; [auto|].
    intros [?|[? ?]]; [done|]. unfold occ in *. cbn in *. lia. }
  cbn [fold_left]. unfold release at 2 4 6. fold (cnt ind d).
  set (ind1 := <[d := (cnt ind d - 1)%Z]> ind).
  set (rd1 := if decide ((cnt ind d - 1)%Z = 0%Z) then rd ++ [d] else rd).
  assert (forall v, cnt ind1 v = if decide (d = v) then (cnt ind d - 1)%Z else cnt ind v) as Hc1.
  { intros v. unfold cnt at 1, ind1. rewrite lookup_insert. by case_decide. }
  assert (1 <= cnt ind d)%Z as Hd by (specialize (Hle d); rewrite occ_cons, decide_True in Hle by done; lia).
  assert (~ d ∈ rd) as Hdrd by (intros Hin; specialize (Hzero d Hin); lia).
  assert (forall v, v ∈ rd1 <-> v ∈ rd \/ (v = d /\ cnt ind d = 1%Z)) as Hrd1.
  { intros v. unfold rd1. case_decide; rewrite ?elem_of_app, ?list_elem_of_singleton.
    - split; [|tauto]. intros [?| ->]; [auto|right; split; [done|lia]].
    - split; [auto|]. intros [?|[-> ?]]; [done|lia]. }
  destruct (IH ind1 rd1) as (H1 & H2 & H3).
  { intros v. specialize (Hle v). rewrite occ_cons in Hle. rewrite Hc1. repeat case_decide; subst; try done; lia. }
  { unfold rd1. case_decide; [|done]. apply NoDup_app. split; [done|]. split; [|apply NoDup_singleton].
    by intros x Hx ->%list_elem_of_singleton. }
  { intros v [Hv|[-> Hv]]%Hrd1; rewrite Hc1.
    - case_decide; [by subst|by apply Hzero].
    - rewrite decide_True by done. lia. }
  split; [|split; [done|]].
  - intros v. rewrite H1, Hc1, occ_cons. repeat case_decide; subst; try done; lia.
  - intros v. rewrite H3, Hrd1, Hc1, occ_cons. specialize (Hle v). rewrite occ_cons in Hle.
    destruct (decide (d = v)) as [->|Hne].
    + split; [|intros [?|?]; [done|]].
      * intros [[?|[_ ?]]|?]; [auto|right; lia|right; lia].
      * destruct (decide (cnt ind v = 1%Z)); [left; by right|right; lia].
    + split; [intros [[?|[? _]]|?]; [auto|congruence|auto]|intros [?|?]; auto].
Qed.

Lemma fold_emit dependents R acc :
  fold_left (emit dependents) R acc
  = fold_left release (mjoin ((fun r => default [] (dependents !! r)) <$> R)) acc.
Proof.
  revert acc. induction R as [|r R IH]; intros acc; [done|]. cbn. rewrite fold_left_app, IH. done.
Qed.

(** *** Maps by address *)

Lemma stepByAddress_Some steps a s :
  NoDup (s_Address <$> steps) ->
  stepByAddress steps !! a = Some s <-> s ∈ steps /\ s_Address s = a.
Proof.
  unfold stepByAddress. induction steps as [|x steps IH] using rev_ind; intros Hnd.
  { cbn. rewrite lookup_empty. split; [done|]. by intros [?%elem_of_nil _]. }
  rewrite fmap_app in Hnd. apply NoDup_app in Hnd as (Hnd & Hdis & _).
  rewrite fold_left_app. cbn. rewrite lookup_insert, elem_of_app, list_elem_of_singleton.
  case_decide as E.
  - split; [intros [= <-]; auto|]. intros [[Hs| ->] Ha]; [|done]. exfalso.
    apply (Hdis (s_Address s)); [by apply list_elem_of_fmap_2|]. rewrite Ha, <- E. left.
  - rewrite (IH Hnd). split; [tauto|]. intros [[?| ->] ?]; [done|congruence].
Qed.

Definition prior_deps (s : Step) : list string :=
  match s_Prior s with Some p => r_DependsOn p | None => [] end.

Section edges.
Context (byAddress : gmap string Step).

Definition known_deps (s : Step) : list string :=
  filter (fun d => is_Some (byAddress !! d)) (prior_deps s).

Lemma orphan_edges_spec from deps acc :
  let acc' := fold_left (orphan_edge byAddress from) deps acc in
  let known := filter (fun d => is_Some (byAddress !! d)) deps in
  (forall v, cnt (og_indegree acc') v = (cnt (og_indegree acc) v + Z.of_nat (occ v known))%Z)
  /\ (forall x, default [] (og_dependents acc' !! x)
        = default [] (og_dependents acc !! x) ++ (if decide (x = from) then known else []))
  /\ (forall v, is_Some (og_indegree acc' !! v) <-> is_Some (og_indegree acc !! v) \/ v ∈ known).
Proof.
  revert acc. induction deps as [|d deps IH]; intros acc; cbv zeta.
  { cbn. split; [intros; unfold occ; cbn; lia|]. split.
    - intros x. case_decide; by rewrite app_nil_r.
    - intros v. split; [auto|]. by intros [?|?%elem_of_nil]. }
  cbn [fold_left]. destruct (IH (orphan_edge byAddress from acc d)) as (H1 & H2 & H3).
  rewrite filter_cons. unfold orphan_edge in *. destruct (byAddress !! d) as [s|] eqn:E.
  - rewrite decide_True by eauto. cbn [og_indegree og_dependents] in *. split; [|split].
    + intros v. rewrite H1, occ_cons. unfold cnt at 1. rewrite lookup_insert. unfold cnt.
      case_decide; subst; cbn [default id]; lia.
    + intros x. rewrite H2, lookup_insert. case_decide as Ex; subst; case_decide; try done.
      cbn [default id]. by rewrite <- app_assoc.
    + intros v. rewrite H3, lookup_insert, elem_of_cons. case_decide; subst; [split; eauto|].
      split; [tauto|]. intros [?|[->|?]]; tauto.
  - rewrite decide_False by (intros [? ?]; congruence). done.
Qed.

Lemma orphan_nodes_spec l init :
  (forall v, cnt (og_indegree init) v = 0%Z) -> (forall x, og_dependents init !! x = None) ->
  (forall v, is_Some (og_indegree init !! v) <-> is_Some (byAddress !! v)) ->
  let og := fold_left (orphan_node byAddress) l init in
  (forall v, cnt (og_indegree og) v = Z.of_nat (occ v (mjoin (known_deps <$> l))))
  /\ (forall x, default [] (og_dependents og !! x)
        = mjoin (known_deps <$> filter (fun s => s_Address s = x) l))
  /\ (forall v, is_Some (og_indegree og !! v) <-> is_Some (byAddress !! v)).
Proof.
  intros Hc Hd Hi. cbv zeta. induction l as [|s l IH] using rev_ind.
  { cbn. split; [intros; by rewrite Hc|]. split; [intros; by rewrite Hd|done]. }
  destruct IH as (H1 & H2 & H3). rewrite fold_left_app. cbn [fold_left].
  set (og := fold_left (orphan_node byAddress) l init) in *.
  rewrite fmap_app, join_app. cbn [fmap list_fmap mjoin list_join]. rewrite app_nil_r.
  destruct (orphan_edges_spec (s_Address s) (prior_deps s) og) as (E1 & E2 & E3).
  replace (orphan_node byAddress og s) with (fold_left (orphan_edge byAddress (s_Address s)) (prior_deps s) og)
    by (unfold orphan_node, prior_deps; by destruct (s_Prior s)).
  fold (known_deps s) in E1, E2, E3. split; [|split].
  - intros v. rewrite E1, H1, occ_app. lia.
  - intros x. rewrite E2, H2, filter_app, fmap_app, join_app. f_equal. rewrite filter_cons, filter_nil.
    case_decide as Ex; case_decide; try congruence; cbn; [by rewrite app_nil_r|done].
  - intros v. rewrite E3, H3. split; [intros [?|Hv]; [done|]|auto].
    by apply list_elem_of_filter in Hv as [? _].
Qed.
End edges.

(** *** The loop *)

Section loop.
Context (steps : list Step) (Hnd : NoDup (s_Address <$> steps)).
Abbreviation byAddress := (stepByAddress steps).
Context (dependents : gmap string (list string)).

(** The edges of an address. *)
Definition out (a : string) : list string := default [] (dependents !! a).
Definition total (v : string) : nat := occ v (mjoin (out <$> (s_Address <$> steps))).

Lemma known_address a : is_Some (byAddress !! a) <-> a ∈ s_Address <$> steps.
Proof.
  split.
  - intros [s [Hs <-]%stepByAddress_Some]; [by apply list_elem_of_fmap_2|done].
  - intros (s & -> & Hs)%list_elem_of_fmap. exists s. by apply stepByAddress_Some.
Qed.

(** Distinct addresses have no more edges than all addresses. *)
Lemma occ_some l v :
  NoDup l -> (forall a, a ∈ l -> is_Some (byAddress !! a)) -> occ v (mjoin (out <$> l)) <= total v.
Proof.
  intros Hl Hsub. assert (l ⊆+ (s_Address <$> steps)) as (k & Hk)%submseteq_Permutation.
  { apply NoDup_submseteq; [done|]. intros a Ha. by apply known_address, Hsub. }
  unfold total. rewrite (occ_perm v _ _ (mjoin_perm out _ _ Hk)), fmap_app, join_app, occ_app. lia.
Qed.

Context (Hout : forall x v, v ∈ out x -> is_Some (byAddress !! v)).

Lemma known_total v : 0 < total v -> is_Some (byAddress !! v).
Proof.
  unfold total. intros (l & Hv & Hl)%occ_pos%list_elem_of_join.
  apply list_elem_of_fmap in Hl as (x & -> & _). by eapply Hout.
Qed.

Record loop_inv (E : list string) (ready : list Step) (ind : gmap string Z)
    (waves : list (list executionItem)) : Prop := {
  oi_nodup : NoDup (E ++ (s_Address <$> ready));
  oi_sub : forall a, a ∈ E ++ (s_Address <$> ready) -> is_Some (byAddress !! a);
  oi_cnt : forall v, cnt ind v = (Z.of_nat (total v) - Z.of_nat (occ v (mjoin (out <$> E))))%Z;
  oi_zero : forall v, is_Some (byAddress !! v) -> (v ∈ E ++ (s_Address <$> ready) <-> cnt ind v = 0%Z);
  oi_ready : forall s, s ∈ ready -> s ∈ steps;
  oi_waves : E = ei_address <$> concat waves;
  oi_items : forall i, i ∈ concat waves -> exists s, s ∈ steps /\ i = orphan_item s;
  oi_layered : forall k w v x, waves !! k = Some w -> v ∈ ei_address <$> w -> v ∈ out x ->
    is_Some (byAddress !! x) -> exists j wj, j < k /\ waves !! j = Some wj /\ x ∈ ei_address <$> wj;
}.

(** What is ready has all its dependents emitted. *)
Lemma ready_dependents E ready ind waves v x :
  loop_inv E ready ind waves -> v ∈ s_Address <$> ready -> v ∈ out x -> is_Some (byAddress !! x) -> x ∈ E.
Proof.
  intros Hi Hv Hvx Hx. destruct (decide (x ∈ E)) as [|Hn]; [done|]. exfalso.
  assert (v ∈ E ++ (s_Address <$> ready)) as Hin by (apply elem_of_app; by right).
  pose proof (oi_sub _ _ _ _ Hi v Hin) as Hsv. apply (oi_zero _ _ _ _ Hi v Hsv) in Hin.
  rewrite (oi_cnt _ _ _ _ Hi) in Hin.
  assert (occ v (mjoin (out <$> (x :: E))) <= total v) as Hle.
  { pose proof (oi_nodup _ _ _ _ Hi) as Hnodup. apply NoDup_app in Hnodup as (HE & _ & _).
    apply occ_some; [by constructor|]. intros a [->|Ha]%elem_of_cons; [done|].
    apply (oi_sub _ _ _ _ Hi), elem_of_app. by left. }
  replace (mjoin (out <$> (x :: E))) with (out x ++ mjoin (out <$> E)) in Hle by done.
  rewrite occ_app in Hle. apply occ_pos in Hvx. lia.
Qed.

Lemma orphan_steps_at_addresses addresses :
  (forall a, a ∈ addresses -> is_Some (byAddress !! a)) ->
  s_Address <$> orphan_steps_at byAddress addresses = addresses
  /\ forall s, s ∈ orphan_steps_at byAddress addresses -> s ∈ steps.
Proof.
  unfold orphan_steps_at. intros H. split.
  - rewrite <- list_fmap_compose. etrans; [|apply list_fmap_id]. apply list_fmap_ext.
    intros i a Ha%list_elem_of_lookup_2. cbn. destruct (H a Ha) as [s Hs]. rewrite Hs. cbn. by apply stepByAddress_Some in Hs as [_ ?].
  - intros s (a & -> & Ha)%list_elem_of_fmap. destruct (H a Ha) as [s' Hs]. rewrite Hs. cbn.
    by apply stepByAddress_Some in Hs as [? _].
Qed.

Lemma loop_inv_step E ready ind waves :
  loop_inv E ready ind waves ->
  let next := fold_left (emit dependents) (s_Address <$> ready) (ind, []) in
  (forall v, cnt next.1 v = (cnt ind v - Z.of_nat (occ v (mjoin (out <$> (s_Address <$> ready)))))%Z)
  /\ NoDup next.2
  /\ (forall v, v ∈ next.2 <-> (0 < cnt ind v)%Z /\ cnt next.1 v = 0%Z).
Proof.
  intros Hi. cbv zeta. rewrite fold_emit. fold out.
  destruct (release_multi (mjoin (out <$> (s_Address <$> ready))) ind []) as (H1 & H2 & H3).
  - intros v. rewrite (oi_cnt _ _ _ _ Hi).
    pose proof (occ_some _ v (oi_nodup _ _ _ _ Hi) (oi_sub _ _ _ _ Hi)) as Hle.
    rewrite fmap_app, join_app, occ_app in Hle. lia.
  - apply NoDup_nil_2.
  - by intros v ?%elem_of_nil.
  - split; [exact H1|]. split; [exact H2|]. intros v. rewrite H3, H1. split.
    + intros [?%elem_of_nil|[? ?]]; [done|lia].
    + intros [? ?]. right. lia.
Qed.

(** One iteration keeps the invariant. *)
Lemma loop_inv_next E ready ind waves :
  loop_inv E ready ind waves ->
  let next := fold_left (emit dependents) (s_Address <$> ready) (ind, []) in
  loop_inv (E ++ (s_Address <$> ready)) (sortSteps (orphan_steps_at byAddress next.2)) next.1
    (waves ++ [orphan_item <$> ready]).
Proof.
  intros Hi. destruct (loop_inv_step _ _ _ _ Hi) as (Hc & Hn & Hr). cbv zeta.
  set (next := fold_left (emit dependents) (s_Address <$> ready) (ind, [])) in *.
  assert (forall v, (0 <= cnt ind v - Z.of_nat (occ v (mjoin (out <$> (s_Address <$> ready)))))%Z) as Hpos.
  { intros v. rewrite (oi_cnt _ _ _ _ Hi).
    pose proof (occ_some _ v (oi_nodup _ _ _ _ Hi) (oi_sub _ _ _ _ Hi)) as Hle.
    rewrite fmap_app, join_app, occ_app in Hle. lia. }
  assert (forall v, v ∈ next.2 -> is_Some (byAddress !! v)) as Hknown.
  { intros v [Hv _]%Hr. rewrite (oi_cnt _ _ _ _ Hi) in Hv. apply known_total. lia. }
  destruct (orphan_steps_at_addresses _ Hknown) as [Ha Hs].
  assert (s_Address <$> sortSteps (orphan_steps_at byAddress next.2) ≡ₚ next.2) as Hperm.
  { unfold sortSteps. by rewrite (sort_by_perm step_less), Ha. }
  split.
  - rewrite Hperm. apply NoDup_app. split; [apply (oi_nodup _ _ _ _ Hi)|]. split; [|done].
    intros v Hv [Hlt _]%Hr. pose proof (oi_sub _ _ _ _ Hi v Hv) as Hk.
    apply (oi_zero _ _ _ _ Hi v Hk) in Hv. lia.
  - intros v. rewrite Hperm, elem_of_app. intros [?|?]; [by apply (oi_sub _ _ _ _ Hi)|auto].
  - intros v. rewrite Hc, (oi_cnt _ _ _ _ Hi), fmap_app, join_app, occ_app. lia.
  - intros v Hk. rewrite Hperm, elem_of_app, (oi_zero _ _ _ _ Hi v Hk), Hr, Hc.
    specialize (Hpos v). split; [intros [?|[? ?]]; lia|]. intros. destruct (decide (cnt ind v = 0%Z)); [by left|right; lia].
  - intros s. rewrite elem_of_sortSteps. apply Hs.
  - rewrite (oi_waves _ _ _ _ Hi), concat_app, fmap_app. f_equal. cbn. rewrite app_nil_r.
    by rewrite <- list_fmap_compose.
  - intros i. rewrite concat_app, elem_of_app. cbn. rewrite app_nil_r.
    intros [?|(s & -> & Hin)%list_elem_of_fmap]; [by apply (oi_items _ _ _ _ Hi)|].
    exists s. split; [by apply (oi_ready _ _ _ _ Hi)|done].
  - intros k w v x Hk Hv Hvx Hx. rewrite lookup_app in Hk. destruct (waves !! k) as [w'|] eqn:Ew.
    + injection Hk as ->. destruct (oi_layered _ _ _ _ Hi k w v x Ew Hv Hvx Hx) as (j & wj & Hj & Hwj & Hin).
      exists j, wj. split; [done|]. split; [by apply lookup_app_l_Some|done].
    + apply list_lookup_singleton_Some in Hk as [Hk <-]. rewrite <- list_fmap_compose in Hv.
      assert (x ∈ E) as Hin by (by eapply (ready_dependents E ready ind waves v x Hi)).
      rewrite (oi_waves _ _ _ _ Hi) in Hin. apply list_elem_of_fmap in Hin as (i & -> & Hin).
      apply list_elem_of_In_concat in Hin as (wj & Hwj & Hin). apply list_elem_of_lookup in Hwj as [j Hwj].
      exists j, wj. split; [|split; [by apply lookup_app_l_Some|by apply list_elem_of_fmap_2]].
      apply lookup_ge_None in Ew. apply lookup_lt_Some in Hwj. lia.
Qed.

Lemma loop_spec fuel E ready ind waves :
  loop_inv E ready ind waves -> length (s_Address <$> steps) - length E < fuel ->
  exists E' ind' waves',
    orphan_loop fuel byAddress dependents ind ready waves (length E) = Ok (waves', length E')
    /\ loop_inv E' [] ind' waves'.
Proof.
  revert E ready ind waves. induction fuel as [|fuel IH]; intros E ready ind waves Hi Hf; [lia|].
  destruct ready as [|s ready]; [exists E, ind, waves; done|]. cbn [orphan_loop].
  set (r := s :: ready) in *. pose proof (loop_inv_next _ _ _ _ Hi) as Hi'. cbv zeta in Hi'.
  destruct (fold_left (emit dependents) (s_Address <$> r) (ind, [])) as [ind1 next]. cbn [fst snd] in Hi'.
  assert (length (E ++ (s_Address <$> r)) <= length (s_Address <$> steps)) as Hlen.
  { apply submseteq_length, NoDup_submseteq; [apply (oi_nodup _ _ _ _ Hi)|].
    intros a Ha. by apply known_address, (oi_sub _ _ _ _ Hi). }
  rewrite length_app, !length_fmap in Hlen. replace (length E + length r) with (length (E ++ (s_Address <$> r))).
  - apply IH; [done|]. rewrite !length_fmap in *. rewrite length_app, length_fmap. unfold r in *.
    cbn [length] in *. lia.
  - by rewrite length_app, length_fmap.
Qed.
End loop.

(** *** The result *)

(** The orphan [v] is recorded as a dependency of the orphan [x]. *)
Definition removed_before (steps : list Step) (x v : string) : Prop :=
  v ∈ s_Address <$> steps /\ exists s, s ∈ steps /\ s_Address s = x /\ v ∈ prior_deps s.

Definition in_earlier_wave (waves : list (list executionItem)) (x v : string) : Prop :=
  exists j k wj wk, j < k /\ waves !! j = Some wj /\ waves !! k = Some wk
    /\ x ∈ ei_address <$> wj /\ v ∈ ei_address <$> wk.

(** An address is in one wave only. *)
Lemma same_wave (waves : list (list executionItem)) j k wj wk a :
  NoDup (ei_address <$> concat waves) -> waves !! j = Some wj -> waves !! k = Some wk ->
  a ∈ ei_address <$> wj -> a ∈ ei_address <$> wk -> j = k.
Proof.
  revert j k. induction waves as [|w waves IH]; intros j k Hnd Hj Hk Haj Hak; [done|].
  cbn [concat] in Hnd. rewrite fmap_app in Hnd. apply NoDup_app in Hnd as (_ & Hdis & Hnd).
  assert (forall i wi, waves !! i = Some wi -> a ∈ ei_address <$> wi -> a ∈ ei_address <$> concat waves) as Hin.
  { intros i wi Hi (x & -> & Hx)%list_elem_of_fmap. apply list_elem_of_fmap_2, list_elem_of_In_concat.
    exists wi. split; [by eapply list_elem_of_lookup_2|done]. }
  destruct j as [|j], k as [|k]; cbn in Hj, Hk; [done| | |f_equal; by eapply IH].
  - injection Hj as <-. destruct (Hdis a Haj). by eapply Hin.
  - injection Hk as <-. destruct (Hdis a Hak). by eapply Hin.
Qed.

Section result.
Context (steps : list Step) (Hnd : NoDup (s_Address <$> steps)).

Definition orphan_init : orphan_graph :=
  {| og_indegree := (fun _ => 0%Z) <$> stepByAddress steps; og_dependents := ∅ |}.
Definition orphan_built : orphan_graph := fold_left (orphan_node (stepByAddress steps)) steps orphan_init.

Lemma orphan_built_spec :
  (forall v, cnt (og_indegree orphan_built) v
     = Z.of_nat (occ v (mjoin (known_deps (stepByAddress steps) <$> steps))))
  /\ (forall x, out (og_dependents orphan_built) x
        = mjoin (known_deps (stepByAddress steps) <$> filter (fun s => s_Address s = x) steps))
  /\ (forall v, is_Some (og_indegree orphan_built !! v) <-> is_Some (stepByAddress steps !! v)).
Proof.
  apply orphan_nodes_spec; cbn.
  - intros v. unfold cnt. rewrite lookup_fmap. by destruct (stepByAddress steps !! v).
  - intros x. apply lookup_empty.
  - intros v. by rewrite lookup_fmap, fmap_is_Some.
Qed.

Lemma filter_address s :
  s ∈ steps -> filter (fun x => s_Address x = s_Address s) steps = [s].
Proof using Hnd.
  intros Hs. induction steps as [|x l IH]; [by apply elem_of_nil in Hs|].
  rewrite fmap_cons in Hnd. apply NoDup_cons in Hnd as [Hx Hl]. rewrite filter_cons.
  assert (forall y, y ∈ l -> s_Address y <> s_Address x) as Hne.
  { intros y Hy E. apply Hx. rewrite <- E. by apply list_elem_of_fmap_2. }
  apply elem_of_cons in Hs as [->|Hs].
  - rewrite decide_True by done. f_equal. destruct (filter _ l) as [|y k] eqn:E; [done|].
    assert (y ∈ y :: k) as Hy by left. rewrite <- E in Hy. apply list_elem_of_filter in Hy as [Ey Hy].
    by destruct (Hne y Hy).
  - rewrite decide_False by (intros E; by apply (Hne s Hs)). by apply IH.
Qed.

Lemma out_spec s : s ∈ steps -> out (og_dependents orphan_built) (s_Address s) = known_deps (stepByAddress steps) s.
Proof using Hnd.
  intros Hs. destruct orphan_built_spec as (_ & H & _). rewrite H, (filter_address s Hs). cbn.
  by rewrite app_nil_r.
Qed.

Lemma elem_of_out x v : v ∈ out (og_dependents orphan_built) x <-> removed_before steps x v.
Proof using Hnd.
  destruct orphan_built_spec as (_ & H & _). rewrite H, list_elem_of_join. unfold removed_before. split.
  - intros (l & Hv & (s & -> & [Hx Hs]%list_elem_of_filter)%list_elem_of_fmap).
    apply list_elem_of_filter in Hv as [Hk Hv]. split; [by apply (known_address steps Hnd)|eauto].
  - intros (Hk & s & Hs & Hx & Hv). exists (known_deps (stepByAddress steps) s). split.
    + apply list_elem_of_filter. split; [by apply (known_address steps Hnd)|done].
    + apply list_elem_of_fmap_2, list_elem_of_filter. done.
Qed.

Lemma total_built v :
  total steps (og_dependents orphan_built) v = occ v (mjoin (known_deps (stepByAddress steps) <$> steps)).
Proof using Hnd.
  unfold total. rewrite <- list_fmap_compose. f_equal. f_equal. apply list_fmap_ext.
  intros i s Hs%list_elem_of_lookup_2. by apply out_spec.
Qed.

Definition initial_addresses : list string :=
  (filter (fun p => p.2 = 0%Z) (map_to_list (og_indegree orphan_built))).*1.

Lemma elem_of_initial v :
  v ∈ initial_addresses <-> is_Some (stepByAddress steps !! v) /\ cnt (og_indegree orphan_built) v = 0%Z.
Proof using Type.
  destruct orphan_built_spec as (_ & _ & Hd). rewrite <- Hd. unfold initial_addresses, cnt.
  rewrite list_elem_of_fmap. setoid_rewrite list_elem_of_filter. split.
  - intros ([k z] & -> & [Hz Hi%elem_of_map_to_list]). cbn in *. subst. rewrite Hi. eauto.
  - intros [[z Hz] Hc]. rewrite Hz in Hc. cbn in Hc. exists (v, z). rewrite elem_of_map_to_list. done.
Qed.

Lemma NoDup_initial : NoDup initial_addresses.
Proof using Type.
  apply NoDup_fmap_fst; [|apply NoDup_filter, NoDup_map_to_list].
  intros k e1 e2 [_ Ha%elem_of_map_to_list]%list_elem_of_filter.
  intros [_ Hb%elem_of_map_to_list]%list_elem_of_filter. congruence.
Qed.

Lemma initial_inv :
  loop_inv steps (og_dependents orphan_built) []
    (sortSteps (orphan_steps_at (stepByAddress steps) initial_addresses)) (og_indegree orphan_built) [].
Proof using Hnd.
  destruct orphan_built_spec as (Hc & _ & _).
  destruct (orphan_steps_at_addresses steps Hnd initial_addresses) as [Ha Hs].
  { by intros a [? _]%elem_of_initial. }
  assert (s_Address <$> sortSteps (orphan_steps_at (stepByAddress steps) initial_addresses)
          ≡ₚ initial_addresses) as Hperm.
  { unfold sortSteps. by rewrite (sort_by_perm step_less), Ha. }
  split; cbn [app].
  - rewrite Hperm. apply NoDup_initial.
  - intros a. rewrite Hperm. by intros [? _]%elem_of_initial.
  - intros v. rewrite Hc, total_built. change (occ v (mjoin (out (og_dependents orphan_built) <$> []))) with 0.
    lia.
  - intros v Hk. rewrite Hperm, elem_of_initial. tauto.
  - intros s. rewrite elem_of_sortSteps. apply Hs.
  - done.
  - by intros i ?%elem_of_nil.
  - intros k w v x Hk. by rewrite lookup_nil in Hk.
Qed.

Lemma loop_result :
  exists E ind waves,
    orphanExecutionWaves steps
      = (if decide (length E = length steps) then Ok waves else Err OrphanCycle)
    /\ loop_inv steps (og_dependents orphan_built) E [] ind waves.
Proof using Hnd.
  destruct (loop_spec steps Hnd (og_dependents orphan_built)
    ltac:(intros x v Hv; apply elem_of_out in Hv as [Hv _]; by apply (known_address steps Hnd))
    (S (size (stepByAddress steps))) [] _ _ _ initial_inv) as (E & ind & waves & Hrun & Hinv).
  { assert (dom (stepByAddress steps) = list_to_set (s_Address <$> steps)) as Hdom.
    { apply set_eq. intros a. by rewrite elem_of_dom, elem_of_list_to_set, (known_address steps Hnd). }
    rewrite <- size_dom, Hdom, size_list_to_set by done. cbn [length]. lia. }
  exists E, ind, waves. split; [|done]. unfold orphanExecutionWaves.
  fold orphan_init. fold orphan_built. fold initial_addresses. cbn [length] in Hrun.
  rewrite Hrun, Ok_bind. case_decide; [by rewrite bool_decide_true|by rewrite bool_decide_false].
Qed.

(** Everything is emitted when the recorded dependencies have no cycle. *)
Lemma loop_complete E ind waves a :
  loop_inv steps (og_dependents orphan_built) E [] ind waves ->
  Acc (removed_before steps) a -> a ∈ s_Address <$> steps -> a ∈ E.
Proof using Hnd.
  intros Hi Hacc. induction Hacc as [v _ IH]. intros Hv.
  apply (known_address steps Hnd) in Hv. destruct (decide (v ∈ E)) as [|Hn]; [done|]. exfalso.
  pose proof (oi_zero _ _ _ _ _ _ Hi v Hv) as Hz. cbn in Hz. rewrite app_nil_r in Hz.
  assert (E ⊆+ (s_Address <$> steps)) as (k & Hk)%submseteq_Permutation.
  { pose proof (oi_nodup _ _ _ _ _ _ Hi) as HnE. cbn in HnE. rewrite app_nil_r in HnE.
    apply NoDup_submseteq; [done|]. intros x Hx. apply (known_address steps Hnd).
    apply (oi_sub _ _ _ _ _ _ Hi), elem_of_app. by left. }
  assert (0 < occ v (mjoin (out (og_dependents orphan_built) <$> k))) as Hpos.
  { pose proof (oi_cnt _ _ _ _ _ _ Hi v) as Hc. unfold total in Hc.
    rewrite (occ_perm v _ _ (mjoin_perm (out (og_dependents orphan_built)) _ _ Hk)), fmap_app, join_app, occ_app in Hc.
    rewrite Hz in Hn. lia. }
  apply occ_pos, list_elem_of_join in Hpos as (l & Hvl & Hl).
  apply list_elem_of_fmap in Hl as (x & -> & Hx). apply elem_of_out in Hvl.
  assert (x ∈ s_Address <$> steps) as Hxs by (rewrite Hk; apply elem_of_app; by right).
  specialize (IH x Hvl Hxs). rewrite Hk in Hnd. apply NoDup_app in Hnd as (_ & Hdis & _).
  by apply (Hdis x).
Qed.

(** What a complete run of the loop has produced. *)
Definition orphan_waves_ok (waves : list (list executionItem)) : Prop :=
  ei_address <$> concat waves ≡ₚ s_Address <$> steps
  /\ (forall i, i ∈ concat waves -> exists s, s ∈ steps /\ i = orphan_item s)
  /\ (forall x v, removed_before steps x v -> in_earlier_wave waves x v).

Lemma loop_emitted E ind waves :
  loop_inv steps (og_dependents orphan_built) E [] ind waves ->
  NoDup E /\ forall x, x ∈ E -> x ∈ s_Address <$> steps.
Proof using Hnd.
  intros Hi. pose proof (oi_nodup _ _ _ _ _ _ Hi) as HnE. cbn in HnE. rewrite app_nil_r in HnE.
  split; [done|]. intros x Hx. apply (known_address steps Hnd), (oi_sub _ _ _ _ _ _ Hi), elem_of_app. by left.
Qed.

Lemma loop_facts E ind waves :
  loop_inv steps (og_dependents orphan_built) E [] ind waves -> E ≡ₚ s_Address <$> steps ->
  orphan_waves_ok waves.
Proof using Hnd.
  intros Hi HE. unfold orphan_waves_ok. rewrite <- (oi_waves _ _ _ _ _ _ Hi). split; [done|].
  split; [apply (oi_items _ _ _ _ _ _ Hi)|]. intros x v Hxv. pose proof Hxv as [Hv (s & Hs & <- & _)].
  rewrite <- HE, (oi_waves _ _ _ _ _ _ Hi) in Hv. apply list_elem_of_fmap in Hv as (i & -> & Hv).
  apply list_elem_of_In_concat in Hv as (wk & Hwk & Hv). apply list_elem_of_lookup in Hwk as [k Hwk].
  destruct (oi_layered _ _ _ _ _ _ Hi k wk (ei_address i) (s_Address s) Hwk) as (j & wj & Hj & Hwj & Hin).
  - by apply list_elem_of_fmap_2.
  - by apply elem_of_out.
  - apply (known_address steps Hnd). by apply list_elem_of_fmap_2.
  - exists j, k, wj, wk. repeat split; [done..|]. by apply list_elem_of_fmap_2.
Qed.

Lemma orphanExecutionWaves_Ok waves : orphanExecutionWaves steps = Ok waves -> orphan_waves_ok waves.
Proof using Hnd.
  destruct loop_result as (E & ind & waves' & -> & Hi). case_decide as Hlen; [|done]. intros [= <-].
  destruct (loop_emitted _ _ _ Hi) as [HnE Hsub]. apply (loop_facts _ _ _ Hi).
  apply NoDup_Permutation; [done..|]. intros x. split; [apply Hsub|]. intros Hx.
  assert (E ⊆+ (s_Address <$> steps)) as Hse by (by apply NoDup_submseteq).
  apply submseteq_length_Permutation in Hse; [by rewrite Hse|]. rewrite length_fmap. lia.
Qed.

Lemma waves_acyclic waves a :
  orphan_waves_ok waves -> a ∈ s_Address <$> steps -> Acc (removed_before steps) a.
Proof using Hnd.
  intros (Hp & _ & Hord) Ha. rewrite <- Hp in Ha.
  apply list_elem_of_fmap in Ha as (i & -> & Ha). apply list_elem_of_In_concat in Ha as (w & Hw & Ha).
  apply list_elem_of_lookup in Hw as [k Hk]. revert w i Hk Ha.
  assert (NoDup (ei_address <$> concat waves)) as Hnd' by (by rewrite Hp).
  induction (lt_wf k) as [k _ IH]. intros w i Hk Ha. constructor. intros x Hx.
  destruct (Hord _ _ Hx) as (j & k' & wj & wk & Hj & Hwj & Hwk & Hxj & Hvk).
  assert (k' = k) as -> by (eapply (same_wave waves); eauto using list_elem_of_fmap_2).
  apply list_elem_of_fmap in Hxj as (ix & -> & Hix). by apply (IH j Hj wj).
Qed.

Lemma orphanExecutionWaves_acyclic :
  (forall a, a ∈ s_Address <$> steps -> Acc (removed_before steps) a)
  <-> is_ok (orphanExecutionWaves steps) = true.
Proof using Hnd.
  split.
  - intros Hacc. destruct loop_result as (E & ind & waves & -> & Hi).
    destruct (loop_emitted _ _ _ Hi) as [HnE Hsub].
    rewrite decide_True; [done|]. rewrite <- (length_fmap s_Address steps).
    apply Permutation_length, NoDup_Permutation; [done..|]. intros x. split; [apply Hsub|]. intros Hx.
    by eapply loop_complete; [exact Hi|apply Hacc|].
  - destruct (orphanExecutionWaves steps) as [waves|] eqn:E; [|done]. intros _ a Ha.
    by eapply waves_acyclic; [apply orphanExecutionWaves_Ok|].
Qed.
End result.

(** ** Which entries are operations *)

Lemma entries_operation g entries a e :
  scheduleEntries g = Ok entries -> entries !! a = Some e ->
  si_Operation (se_item e) = bool_decide (a ∈ op_Address <$> g_Operations g).
Proof.
  intros Hs He. pose proof (scheduleEntries_inv _ _ Hs) as [[Hnd _ _ _ _] _].
  unfold scheduleEntries in Hs. res_inv. destruct x as [e0 o0], x0 as [e1 o1]. res_inv.
  rename H into Hn, H0 into Ho.
  pose (node_ok := fun (acc : entry_map * nat) => forall a e, acc.1 !! a = Some e ->
    si_Operation (se_item e) = false /\ a ∈ n_Address <$> g_Nodes g).
  pose (all_ok := fun (acc : entry_map * nat) => forall a e, acc.1 !! a = Some e ->
    (si_Operation (se_item e) = false /\ a ∈ n_Address <$> g_Nodes g)
    \/ (si_Operation (se_item e) = true /\ a ∈ op_Address <$> g_Operations g)).
  assert (node_ok (e0, o0)) as Hnok.
  { eapply (fold_res_inv node_ok); [| |exact Hn].
    2: { intros b eb Hb. change ((∅ : entry_map) !! b = Some eb) in Hb. by rewrite lookup_empty in Hb. }
    intros [m o] n acc Hin Hm (_ & _ & ->)%add_node_spec b eb. cbn. rewrite lookup_insert.
    case_decide; [|apply Hm]. intros [= <-]. subst. split; [done|by apply list_elem_of_fmap_2]. }
  assert (all_ok (entries, o1)) as Hall.
  { eapply (fold_res_inv all_ok); [|intros b eb Hb; left; by apply Hnok|exact Ho].
    intros [m o] op acc Hin Hm (_ & _ & _ & ->)%add_operation_spec b eb. cbn. rewrite lookup_insert.
    case_decide; [|apply Hm]. intros [= <-]. subst. right. split; [done|by apply list_elem_of_fmap_2]. }
  destruct (Hall a e He) as [[-> Ha]|[-> Ha]]; [|by rewrite bool_decide_true].
  rewrite bool_decide_false; [done|]. intros Hop. unfold addresses, graph_vertices in Hnd.
  rewrite fmap_app in Hnd. apply NoDup_app in Hnd as (_ & Hdis & _). apply (Hdis a).
  - by rewrite <- list_fmap_compose.
  - by rewrite <- list_fmap_compose.
Qed.

(** ** Plans *)

(** What planning guarantees of a plan: addresses are distinct, a step is never
    at the address of an operation, an operation step belongs to an operation
    of the graph and its own key does not clash. *)
Record plan_fits (g : ResourceGraph) (plan : Plan) : Prop := {
  pf_steps : NoDup (s_Address <$> pl_Steps plan);
  pf_keys : NoDup (op_step_key <$> pl_Operations plan);
  pf_no_operation : forall s, s ∈ pl_Steps plan -> s_Address s ∉ op_Address <$> g_Operations g;
  pf_operation : forall o, o ∈ pl_Operations plan ->
    op_Address (os_Operation o) ∈ op_Address <$> g_Operations g;
  pf_key : forall o, o ∈ pl_Operations plan ->
    ~ op_step_key o ∈ n_Address <$> g_Nodes g /\ ~ op_step_key o ∈ s_Address <$> pl_Steps plan;
}.

Section plan.
Context (g : ResourceGraph) (plan : Plan) (Hfit : plan_fits g plan).

Lemma activeStepMap_Some a s : activeStepMap plan !! a = Some s <-> s ∈ pl_Steps plan /\ s_Address s = a.
Proof. apply stepByAddress_Some, Hfit. Qed.

Lemma activeOperationMap_Some a o :
  activeOperationMap plan !! a = Some o <->
  exists o0, o0 ∈ pl_Operations plan /\ op_step_key o0 = a /\ o = set_os_Address a o0.
Proof.
  unfold activeOperationMap. pose proof (pf_keys _ _ Hfit) as Hnd. revert Hnd.
  induction (pl_Operations plan) as [|x l IH] using rev_ind; intros Hnd.
  { cbn. rewrite lookup_empty. split; [done|]. by intros (? & ?%elem_of_nil & _). }
  rewrite fmap_app in Hnd. apply NoDup_app in Hnd as (Hnd & Hdis & _).
  rewrite fold_left_app. cbn. rewrite lookup_insert. setoid_rewrite elem_of_app.
  setoid_rewrite list_elem_of_singleton. case_decide as E.
  - split; [intros [= <-]; exists x; subst; auto|].
    intros (o0 & [Ho| ->] & Hk & ->); [|by rewrite <- E]. exfalso.
    apply (Hdis (op_step_key o0)); [by apply list_elem_of_fmap_2|]. rewrite Hk, <- E. left.
  - rewrite (IH Hnd). split; [intros (o0 & ? & ? & ?); eauto|].
    intros (o0 & [?| ->] & Hk & ?); [eauto|congruence].
Qed.

Definition known_steps : list Step := filter (fun s => s_Address s ∈ known_addresses g) (pl_Steps plan).
Definition keys : list string := op_step_key <$> pl_Operations plan.

Lemma dom_activeOperationMap : dom (activeOperationMap plan) = list_to_set keys.
Proof using Hfit.
  apply set_eq. intros a. rewrite elem_of_dom, elem_of_list_to_set. unfold keys. split.
  - intros [o (o0 & Ho & <- & _)%activeOperationMap_Some]. by apply list_elem_of_fmap_2.
  - intros (o & -> & Ho)%list_elem_of_fmap. eexists. apply activeOperationMap_Some. eauto.
Qed.

Lemma active_addresses_perm :
  elements (active_addresses g plan) ≡ₚ (s_Address <$> known_steps) ++ keys.
Proof using Hfit.
  assert (NoDup ((s_Address <$> known_steps) ++ keys)) as Hnd.
  { apply NoDup_app. split; [|split; [|apply (pf_keys _ _ Hfit)]].
    - eapply sublist_NoDup; [apply (pf_steps _ _ Hfit)|]. apply fmap_sublist, sublist_filter.
    - intros a (s & -> & [_ Hs]%list_elem_of_filter)%list_elem_of_fmap Hk.
      apply list_elem_of_fmap in Hk as (o & E & Ho).
      apply (proj2 (pf_key _ _ Hfit o Ho)). rewrite <- E. by apply list_elem_of_fmap_2. }
  apply NoDup_Permutation; [apply NoDup_elements|done|]. intros a. unfold active_addresses.
  rewrite elem_of_elements, elem_of_union, dom_activeOperationMap, !elem_of_list_to_set, elem_of_app.
  done.
Qed.

(** A scheduled item is an operation exactly when it runs an operation step. *)
Lemma entry_kind entries a e :
  scheduleEntries g = Ok entries -> a ∈ (s_Address <$> known_steps) ++ keys ->
  scheduleEntryForActiveAddress entries (operation_aliases (activeOperationMap plan)) a = Some e ->
  si_Operation (se_item e) = bool_decide (a ∈ keys).
Proof using Hfit.
  intros Hs Ha He. pose proof (scheduleEntries_inv _ _ Hs) as [_ [Hb _]].
  assert (forall b eb, entries !! b = Some eb -> b ∈ addresses g) as Hdom.
  { intros b eb Hbe. apply (bu_sound _ _ Hb) in Hbe as (_ & _ & ds & Hin & _).
    apply list_elem_of_fmap. by exists (b, ds). }
  apply elem_of_app in Ha as [Ha|Ha].
  - apply list_elem_of_fmap in Ha as (s & -> & [Hk Hin]%list_elem_of_filter).
    assert (s_Address s ∈ addresses g) as Haddr.
    { apply elem_of_list_to_set in Hk. unfold addresses, graph_vertices.
      by rewrite fmap_app, <- !list_fmap_compose. }
    unfold scheduleEntryForActiveAddress in He. destruct (bu_complete _ _ Hb _ Haddr) as [e' E].
    rewrite E in He. injection He as ->. rewrite (entries_operation _ _ _ _ Hs E).
    rewrite !bool_decide_false; [done| |by apply (pf_no_operation _ _ Hfit)].
    intros (o & Eo & Ho)%list_elem_of_fmap. apply (proj2 (pf_key _ _ Hfit o Ho)).
    rewrite <- Eo. by apply list_elem_of_fmap_2.
  - rewrite (bool_decide_true (a ∈ keys)) by done.
    apply list_elem_of_fmap in Ha as (o & -> & Ho). unfold scheduleEntryForActiveAddress in He.
    destruct (entries !! op_step_key o) as [e'|] eqn:E.
    + injection He as ->. rewrite (entries_operation _ _ _ _ Hs E). apply bool_decide_true.
      apply Hdom in E. unfold addresses, graph_vertices in E.
      rewrite fmap_app, <- !list_fmap_compose, elem_of_app in E. destruct E as [E|E]; [|done].
      by destruct (pf_key _ _ Hfit o Ho).
    + case_decide as Hbase; [done|]. rewrite (entries_operation _ _ _ _ Hs He). apply bool_decide_true.
      assert (activeOperationMap plan !! op_step_key o = Some (set_os_Address (op_step_key o) o)) as Hm.
      { apply activeOperationMap_Some. eauto. }
      unfold operation_aliases. rewrite lookup_omap, map_lookup_imap, Hm. cbn.
      case_decide as Ek; cbn; [|by apply (pf_operation _ _ Hfit)].
      exfalso. apply Hbase. unfold operation_aliases. rewrite lookup_omap, map_lookup_imap, Hm. cbn.
      by rewrite decide_True.
Qed.

Lemma layers_concat (sched : list (list ScheduleItem)) : concat (layers sched) = si_Address <$> concat sched.
Proof using Type.
  unfold layers. induction sched as [|w ws IH]; [done|]. cbn. by rewrite fmap_app, IH.
Qed.

Lemma concat_fmap_fmap {A B} (f : A -> B) (ws : list (list A)) :
  concat ((fun w : list A => f <$> w) <$> ws) = f <$> concat ws.
Proof using Type. induction ws as [|w ws IH]; [done|]. cbn. by rewrite fmap_app, <- IH. Qed.

Lemma scheduled_item_address active activeOps i : ei_address (scheduled_item active activeOps i) = si_Address i.
Proof using Type. unfold scheduled_item. by destruct (si_Operation i). Qed.

Lemma scheduled_item_deps active activeOps i : ei_dependsOn (scheduled_item active activeOps i) = si_DependsOn i.
Proof using Type. unfold scheduled_item. by destruct (si_Operation i). Qed.

Lemma scheduled_facts ad sched :
  ActiveWavesWithAliases g (active_addresses g plan) (operation_aliases (activeOperationMap plan)) ad = Ok sched ->
  si_Address <$> concat sched ≡ₚ (s_Address <$> known_steps) ++ keys
  /\ (forall i, i ∈ concat sched -> si_Operation i = bool_decide (si_Address i ∈ keys))
  /\ (forall i d, i ∈ concat sched -> d ∈ si_DependsOn i -> earlier sched d (si_Address i)).
Proof using Hfit.
  intros Hrun. destruct (ActiveWaves_lemma _ _ _ _ _ Hrun) as [Hp Hdeps].
  rewrite layers_concat, active_addresses_perm in Hp. split; [done|].
  apply scheduleWavesWithAliases_Ok in Hrun as (entries & sel & He & _ & Hs & Hok).
  split.
  - intros i Hi. assert (si_Address i ∈ (s_Address <$> known_steps) ++ keys) as Ha.
    { rewrite <- Hp. by apply list_elem_of_fmap_2. }
    apply activeEntries_Some_inv in Hs as [_ Hsel].
    destruct (Hsel (si_Address i)) as (e & Hent & Hlook).
    { by rewrite <- elem_of_elements, active_addresses_perm. }
    rewrite <- (entry_kind entries _ e He Ha Hent).
    apply list_elem_of_In_concat in Hi as (w & Hw & Hi).
    pose proof (sk_items _ _ _ _ _ Hok w i Hw Hi) as Heq.
    rewrite Heq at 1. unfold run_item. rewrite bool_decide_false by done. unfold wave_item.
    by rewrite Hlook.
  - intros i d Hi Hd. apply list_elem_of_In_concat in Hi as (w & Hw & Hi). by eapply Hdeps.
Qed.

(** What an execution item runs. *)
Definition runs (i : executionItem) : Prop :=
  match ei_payload i with
  | EResource s => s ∈ pl_Steps plan /\ s_Address s = ei_address i /\ s_Host s = ei_host i
  | EOperation o => exists o0, o0 ∈ pl_Operations plan /\ op_step_key o0 = ei_address i
                               /\ o = set_os_Address (ei_address i) o0
  end.

Lemma scheduled_item_runs i :
  si_Address i ∈ (s_Address <$> known_steps) ++ keys -> si_Operation i = bool_decide (si_Address i ∈ keys) ->
  runs (scheduled_item (activeStepMap plan) (activeOperationMap plan) i).
Proof using Hfit.
  intros Ha Hop. unfold scheduled_item, runs. rewrite Hop. case_bool_decide as Hk; cbn.
  - apply list_elem_of_fmap in Hk as (o & Ek & Ho).
    assert (activeOperationMap plan !! si_Address i = Some (set_os_Address (si_Address i) o)) as ->.
    { apply activeOperationMap_Some. eauto. }
    eauto.
  - apply elem_of_app in Ha as [Ha|]; [|done].
    apply list_elem_of_fmap in Ha as (s & Es & [_ Hs]%list_elem_of_filter).
    assert (activeStepMap plan !! si_Address i = Some s) as -> by (by apply activeStepMap_Some).
    done.
Qed.

Lemma executionWaves_facts waves :
  executionWaves g plan = Ok waves ->
  ei_address <$> concat waves ≡ₚ (s_Address <$> pl_Steps plan) ++ keys
  /\ (forall i, i ∈ concat waves -> runs i)
  /\ (forall i d, i ∈ concat waves -> d ∈ ei_dependsOn i -> in_earlier_wave waves d (ei_address i))
  /\ (forall x v, removed_before (plan_orphans g plan) x v -> in_earlier_wave waves x v).
Proof using Hfit.
  unfold executionWaves. cbv zeta. intros H. res_inv.
  rename x into sched, H0 into Hsched, x0 into ow, H1 into How.
  apply scheduled_facts in Hsched as (Hp & Hop & Hdeps).
  assert (orphan_waves_ok (plan_orphans g plan) ow) as (Hop1 & Hop2 & Hop3).
  { case_decide as E; [|apply orphanExecutionWaves_Ok; [|done]].
    - injection How as <-. rewrite E. split; [done|]. split; [by intros i ?%elem_of_nil|].
      by intros x v [?%elem_of_nil _].
    - eapply sublist_NoDup; [apply (pf_steps _ _ Hfit)|]. apply fmap_sublist, sublist_filter. }
  set (item := scheduled_item (activeStepMap plan) (activeOperationMap plan)).
  rewrite concat_app, concat_fmap_fmap. split; [|split; [|split]].
  - rewrite fmap_app, Hop1, <- list_fmap_compose.
    rewrite (list_fmap_ext (ei_address ∘ item) si_Address) by (intros; apply scheduled_item_address).
    rewrite Hp, app_assoc, <- fmap_app. f_equiv. apply fmap_Permutation.
    rewrite Permutation_app_comm. apply filter_app_complement.
  - intros i [Hi|(si & -> & Hi)%list_elem_of_fmap]%elem_of_app.
    + destruct (Hop2 i Hi) as (s & Hs & ->). apply list_elem_of_filter in Hs as [_ Hs]. done.
    + apply scheduled_item_runs; [|by apply Hop]. rewrite <- Hp. by apply list_elem_of_fmap_2.
  - intros i d [Hi|(si & -> & Hi)%list_elem_of_fmap]%elem_of_app Hd.
    + destruct (Hop2 i Hi) as (s & Hs & ->). by apply elem_of_nil in Hd.
    + unfold item in Hd |- *. rewrite scheduled_item_address. rewrite scheduled_item_deps in Hd.
      destruct (Hdeps si d Hi Hd) as (ka & kb & wa & wb & Hlt & Ha & Hina & Hb & Hinb).
      unfold layers in Ha, Hb. rewrite list_lookup_fmap in Ha, Hb.
      apply fmap_Some in Ha as (w & Hw & ->). apply fmap_Some in Hb as (w' & Hw' & ->).
      exists (length ow + kb), (length ow + ka), (item <$> w'), (item <$> w).
      rewrite !lookup_app_r, !list_lookup_fmap by lia.
      replace (length ow + kb - length ow) with kb by lia. replace (length ow + ka - length ow) with ka by lia.
      rewrite Hw, Hw'. split; [lia|]. rewrite <- !list_fmap_compose.
      rewrite !(list_fmap_ext (ei_address ∘ item) si_Address) by (intros; apply scheduled_item_address).
      done.
  - intros x v Hxv. destruct (Hop3 x v Hxv) as (j & k & wj & wk & Hlt & Hj & Hk & Hx & Hv).
    exists j, k, wj, wk. split; [done|]. split; [by apply lookup_app_l_Some|].
    split; [by apply lookup_app_l_Some|done].
Qed.
End plan.

(** ** Properties *)


Lemma ex_plan_fits : plan_fits ex_plan_graph ex_plan.
Proof.
  split.
  - apply (bool_decide_unpack _). vm_compute. reflexivity.
  - apply (bool_decide_unpack _). vm_compute. reflexivity.
  - apply (Forall_forall (fun s => s_Address s ∉ op_Address <$> g_Operations ex_plan_graph)).
    apply (bool_decide_unpack _). vm_compute. reflexivity.
  - apply (Forall_forall (fun o => op_Address (os_Operation o) ∈ op_Address <$> g_Operations ex_plan_graph)).
    apply (bool_decide_unpack _). vm_compute. reflexivity.
  - apply (Forall_forall (fun o => ~ op_step_key o ∈ n_Address <$> g_Nodes ex_plan_graph
      /\ ~ op_step_key o ∈ s_Address <$> pl_Steps ex_plan)).
    apply (bool_decide_unpack _). vm_compute. reflexivity.
Qed.


(** Orphans are removed in dependency order: with distinct addresses,
    building the orphan waves succeeds exactly when the recorded dependencies
    among the orphans have no cycle (duplicates in the recorded lists included,
    and the loop needs at most one iteration per orphan), and then the waves
    hold every orphan once, each strictly after the orphans that depend on
    it. *)
Theorem orphanExecutionWaves_spec steps :
  NoDup (s_Address <$> steps) ->
  ((forall a, a ∈ s_Address <$> steps -> Acc (removed_before steps) a)
   <-> is_ok (orphanExecutionWaves steps) = true)
  /\ forall waves, orphanExecutionWaves steps = Ok waves -> orphan_waves_ok steps waves.
Proof.
  intros Hnd. split; [by apply orphanExecutionWaves_acyclic|].
  intros waves. by apply orphanExecutionWaves_Ok.
Qed.

Definition ex_orphan (address : string) (deps : list string) : Step :=
  {| s_Address := address; s_Host := "h"; s_Action := ActionDestroy; s_Summary := ""; s_Node := zero_node;
     s_Prior := Some (ex_resource ∅ deps 1); s_Observed := ∅; s_Ownership := "managed"; s_Order := 0 |}.

Lemma orphanExecutionWaves_spec_witness :
  exists waves, orphanExecutionWaves [ex_orphan "dir" []; ex_orphan "file" ["dir"; "dir"; "gone"]] = Ok waves
    /\ in_earlier_wave waves "file" "dir".
Proof.
  destruct (orphanExecutionWaves_spec [ex_orphan "dir" []; ex_orphan "file" ["dir"; "dir"; "gone"]])
    as [_ Hok]; [apply (bool_decide_unpack _); vm_compute; reflexivity|].
  destruct (orphanExecutionWaves [ex_orphan "dir" []; ex_orphan "file" ["dir"; "dir"; "gone"]])
    as [waves|e] eqn:E; [|exfalso; vm_compute in E; discriminate E].
  exists waves. split; [reflexivity|]. destruct (Hok waves eq_refl) as (_ & _ & Hord). apply Hord.
  split; [left|]. exists (ex_orphan "file" ["dir"; "dir"; "gone"]).
  split; [right; left|]. split; [reflexivity|left].
Defined.
