(* ===== verification/ExecuteProps.v ===== *)
(** * Properties of execution

    Whole runs over every interleaving; locking, read-only planning and
    convergence on the in-memory implementations. *)
From S2P Require Import Prelude Sha256 GoValue GoStrings IR HostIR State Moves MovesProps Graph.
From S2P Require Import Schedule ScheduleProps Engine Execute ExecuteLemmas ExecuteRun Run.
From S2P Require Import Memory EngineProps.

(** ** Read-only and lock-preserving computations *)

Definition reads_only {A} (m : M engine_error memory A) : Prop := forall w, (m w).2 = w.

Definition keeps_locks {A} (m : M engine_error memory A) : Prop :=
  forall w, mb_locked (mw_backend (m w).2) = mb_locked (mw_backend w).

Section closure.
Context {A B : Type}.

Lemma reads_only_bind (m : M engine_error memory A) (f : A -> M engine_error memory B) :
  reads_only m -> (forall a, reads_only (f a)) -> reads_only (m ≫= f).
Proof.
  intros Hm Hf w. unfold mbind, M_bind. specialize (Hm w). destruct (m w) as [[a|e] w1]; cbn in *;
    [subst; apply Hf|done].
Qed.

Lemma keeps_locks_bind (m : M engine_error memory A) (f : A -> M engine_error memory B) :
  keeps_locks m -> (forall a, keeps_locks (f a)) -> keeps_locks (m ≫= f).
Proof.
  intros Hm Hf w. unfold mbind, M_bind. specialize (Hm w). destruct (m w) as [[a|e] w1]; cbn in *;
    [rewrite <- Hm; apply Hf|done].
Qed.

Lemma reads_only_keeps_locks (m : M engine_error memory A) : reads_only m -> keeps_locks m.
Proof. intros Hm w. by rewrite Hm. Qed.
End closure.

Lemma reads_only_fold {A B} (f : B -> A -> M engine_error memory B) l s :
  (forall s x, reads_only (f s x)) -> reads_only (fold_M f l s).
Proof.
  intros Hf. revert s. induction l as [|x l IH]; intros s; [done|].
  cbn [fold_M]. apply reads_only_bind; [apply Hf|]. intros. apply IH.
Qed.

Lemma keeps_locks_fold {A B} (f : B -> A -> M engine_error memory B) l s :
  (forall s x, keeps_locks (f s x)) -> keeps_locks (fold_M f l s).
Proof.
  intros Hf. revert s. induction l as [|x l IH]; intros s; [done|].
  cbn [fold_M]. apply keeps_locks_bind; [apply Hf|]. intros. apply IH.
Qed.

Lemma engine_Plan_reads_only program g opts : reads_only (engine_Plan program g opts).
Proof.
  unfold engine_Plan, readStates, planNodes, preflightHosts. cbn [provider_PlanHost provider_PreflightHost memory_provider].
  repeat first
    [ done
    | apply reads_only_fold; intros
    | apply reads_only_bind; [|intros]
    | match goal with |- reads_only (match ?x with _ => _ end) => destruct x end
    | progress unfold read_state, plan_node ].
Qed.

Lemma memory_Write_locks host st : keeps_locks (memory_Write host st).
Proof. intros w. unfold memory_Write. by destruct (PrepareWrite _ _ _). Qed.

Lemma prepareHostStates_locks program g opts plan : keeps_locks (prepareHostStates program g opts plan).
Proof.
  unfold prepareHostStates. apply keeps_locks_fold. intros prepared host. unfold prepare_host.
  repeat first
    [ done
    | apply memory_Write_locks
    | apply keeps_locks_bind; [|intros]
    | match goal with |- keeps_locks (match ?x with _ => _ end) => destruct x end
    | match goal with |- keeps_locks (let '(_, _) := ?x in _) => destruct x end ].
Qed.

Lemma write_back_locks host st (c : cfg memory) :
  mb_locked (mw_backend (write_back host st c).2.1) = mb_locked (mw_backend c.1).
Proof.
  unfold write_back. cbn. pose proof (memory_Write_locks host st c.1) as H.
  by destruct (memory_Write host st c.1) as [[st'|e] w].
Qed.

Lemma executeItem_locks hosts now item (c : cfg memory) :
  mb_locked (mw_backend (executeItem hosts now item c).2.1) = mb_locked (mw_backend c.1).
Proof.
  unfold executeItem.
  assert (mb_locked (mw_backend (call_item hosts item c.1).2) = mb_locked (mw_backend c.1)) as Hcall.
  { unfold call_item, call_resource. destruct (ei_payload item) as [step|step].
    - repeat case_decide; try done; cbn; unfold memory_Apply, memory_Destroy; by repeat case_decide.
    - done. }
  destruct (call_item hosts item c.1) as [[r|e] w]; cbn in *; [|done]. rewrite <- Hcall.
  unfold commit_item. destruct (ei_payload item) as [step|step], r as [o|o]; try done.
  - destruct (commit_resource _ _ _ _); [|done]. apply write_back_locks.
  - case_decide; [done|]. case_decide; [|done]. destruct (commit_outputs _ _ _ _ _); [|done].
    apply write_back_locks.
Qed.

Lemma wave_seq_locks hosts now wave (c : cfg memory) results :
  mb_locked (mw_backend (wave_seq hosts now wave c results).2.1) = mb_locked (mw_backend c.1).
Proof.
  revert c results. induction wave as [|item wave IH]; intros c results; [done|]. cbn [wave_seq].
  pose proof (executeItem_locks hosts now item c) as H.
  destruct (executeItem hosts now item c) as [r c1]. by rewrite IH.
Qed.

Lemma runExecutionWaves_locks hosts now waves log (c : cfg memory) :
  mb_locked (mw_backend (runExecutionWaves hosts now waves log c).2.1) = mb_locked (mw_backend c.1).
Proof.
  revert log c. induction waves as [|wave waves IH]; intros log c; [done|]. cbn [runExecutionWaves].
  destruct (split_wave _ _ _) as [runnable blocked].
  pose proof (wave_seq_locks hosts now runnable c ∅) as H.
  destruct (wave_seq hosts now runnable c ∅) as [results c1]. by rewrite IH.
Qed.

Lemma apply_locked_locks now program g opts before :
  keeps_locks (apply_locked now program g opts (decided before)).
Proof.
  unfold apply_locked. apply keeps_locks_bind; [apply reads_only_keeps_locks, engine_Plan_reads_only|].
  intros plan. apply keeps_locks_bind; [done|]. intros _.
  apply keeps_locks_bind; [apply prepareHostStates_locks|]. intros states. case_decide; [done|].
  apply keeps_locks_bind; [done|]. intros waves w. unfold execute_waves.
  pose proof (runExecutionWaves_locks (dom (hostsByName program)) now waves no_log (w, states)) as Hr.
  by destruct (runExecutionWaves _ _ _ _ _) as [log c].
Qed.

(** ** Locking *)

Definition with_locks (l : gset string) (w : memory) : memory :=
  set_backend {| mb_states := mb_states (mw_backend w); mb_locked := l |} w.

Lemma with_locks_id w : with_locks (mb_locked (mw_backend w)) w = w.
Proof. by destruct w as [[] ? ?]. Qed.

Lemma with_locks_twice l l' w : with_locks l (with_locks l' w) = with_locks l w.
Proof. done. Qed.

Lemma unlock_with h L w : backend_Unlock h (with_locks L w) = (Ok tt, with_locks (L ∖ {[h]}) w).
Proof. done. Qed.

Lemma lock_with h L w :
  backend_Lock h (with_locks L w)
  = if decide (h ∈ L) then (Err (BackendFailed "already locked"), with_locks L w)
    else (Ok tt, with_locks ({[h]} ∪ L) w).
Proof. done. Qed.

Lemma with_locks_eq L L' w : L = L' -> with_locks L w = with_locks L' w.
Proof. by intros ->. Qed.

Lemma unlock_fold held L w :
  foldr (fun h w => (backend_Unlock h w).2) (with_locks L w) held
  = with_locks (L ∖ list_to_set held) w.
Proof.
  induction held as [|h held IH]; cbn [foldr].
  - apply with_locks_eq. set_solver.
  - rewrite IH, unlock_with. apply with_locks_eq. set_solver.
Qed.

Lemma unlock_all_spec held L w :
  unlock_all held (with_locks L w) = (Ok tt, with_locks (L ∖ list_to_set held) w).
Proof.
  induction held as [|h held IH]; cbn [unlock_all].
  - f_equal. apply with_locks_eq. set_solver.
  - rewrite IH, unlock_with. f_equal. apply with_locks_eq. set_solver.
Qed.

(** Either all locks are taken, or the world is as before. *)
Lemma lock_loop_spec hosts held L w :
  (forall h, h ∈ held -> h ∉ L) ->
  match lock_loop hosts held (with_locks (L ∪ list_to_set held) w) with
  | (Ok held', w') => w' = with_locks (L ∪ list_to_set held') w /\ (forall h, h ∈ held' -> h ∉ L)
                      /\ held' = held ++ (h_Name <$> hosts)
  | (Err _, w') => w' = with_locks L w /\ ((exists h, h ∈ hosts /\ h_Name h ∈ L)
                      \/ ~ NoDup (held ++ (h_Name <$> hosts)))
  end.
Proof.
  revert held. induction hosts as [|h hosts IH]; intros held Hheld; cbn [lock_loop].
  - split; [done|]. split; [done|]. by rewrite app_nil_r.
  - rewrite lock_with. case_decide as Hin.
    + rewrite unlock_fold. split; [apply with_locks_eq; set_solver|].
      apply elem_of_union in Hin as [Hin|Hin%elem_of_list_to_set]; [left; exists h; split; [left|done]|right].
      rewrite NoDup_app. intros (_ & Hdis & _). apply (Hdis (h_Name h) Hin). by left.
    + rewrite not_elem_of_union, elem_of_list_to_set in Hin. destruct Hin as [HL Hh].
      specialize (IH (held ++ [h_Name h])).
      rewrite (with_locks_eq ({[h_Name h]} ∪ _) (L ∪ list_to_set (held ++ [h_Name h]))) by set_solver.
      destruct (lock_loop hosts (held ++ [h_Name h]) _) as [[held'|e] w'].
      * destruct IH as (-> & Hd & ->); [set_solver|]. split; [done|]. split; [done|].
        by rewrite <- app_assoc.
      * destruct IH as (-> & Hd); [set_solver|]. split; [done|]. rewrite <- app_assoc in Hd.
        destruct Hd as [(h' & ? & ?)|?]; [left; exists h'; split; [by right|done]|by right].
Qed.

(** ** Properties *)




(** Planning is read-only and a rejected plan is not executed: [Check]
    leaves the world alone, and so does an apply whose review
    ([BeforeExecute]) turns every plan down. *)
Theorem Apply_rejected now program g opts before w :
  (forall plan, is_ok (before plan) = false) ->
  (engine_Plan program g opts w).2 = w
  /\ exists e, engine_Apply now program g opts (decided before) w = (Err e, w).
Proof.
  intros Hrej. split; [apply engine_Plan_reads_only|].
  unfold engine_Apply. unfold mbind at 1, M_bind at 1. cbn.
  destruct (validateProgramTargetPlatforms program opts) as [[]|e]; [|by eexists]. cbn.
  unfold withHostLocks. set (hosts := selectedProgramHosts program opts) in *.
  pose proof (lock_loop_spec hosts [] (mb_locked (mw_backend w)) w) as Hl.
  replace (with_locks (mb_locked (mw_backend w) ∪ list_to_set []) w) with w in Hl.
  2: { rewrite <- (with_locks_id w) at 1. f_equal. set_solver. }
  destruct (lock_loop hosts [] w) as [[held|e] w1];
    [|destruct Hl as [-> _]; [by intros ? ?%elem_of_nil|]; rewrite with_locks_id; by exists e].
  destruct Hl as (-> & Hdis & _); [by intros ? ?%elem_of_nil|].
  set (wl := with_locks _ w).
  assert (exists e, apply_locked now program g opts (decided before) wl = (Err e, wl)) as [e ->].
  { unfold apply_locked, mbind, M_bind. pose proof (engine_Plan_reads_only program g opts wl) as Hp.
    destruct (engine_Plan program g opts wl) as [[plan|e] w2]; cbn in Hp; subst; [|by exists e].
    specialize (Hrej plan). cbn. destruct (before plan) as [u|e]; [done|]. by exists e. }
  unfold wl. rewrite unlock_all_spec. exists e. f_equal.
  transitivity (with_locks (mb_locked (mw_backend w)) w); [|apply with_locks_id].
  apply with_locks_eq. clear -Hdis. set_solver.
Qed.

Lemma Apply_rejected_witness :
  (engine_Plan ex_program ex_plan_graph ex_options ex_memory).2 = ex_memory
  /\ exists e, engine_Apply (fun _ => "now") ex_program ex_plan_graph ex_options
                 (decided (fun _ => Err (Rejected "no"))) ex_memory = (Err e, ex_memory).
Proof. apply Apply_rejected. intros plan. reflexivity. Defined.

Definition ex_create : Step :=
  {| s_Address := "h.a"; s_Host := "h"; s_Action := ActionCreate; s_Summary := "";
     s_Node := ex_plan_node "h.a" {["path" := GStr "/a"]} []; s_Prior := None; s_Observed := ∅;
     s_Ownership := "managed"; s_Order := 0 |}.



(** ** Whole runs *)

(** A decision procedure for [separate]. *)
Definition separateb (items : list executionItem) : bool :=
  forallb (fun i => forallb (fun j =>
    match ei_payload i with
    | EResource step => bool_decide (ei_address i = ei_address j \/ s_Address step ∉ touched j)
    | EOperation _ => true
    end) items) items.

Lemma separateb_ok items : separateb items = true -> separate items.
Proof.
  unfold separateb. rewrite forallb_forall. intros H i j step Hi%list_elem_of_In Hj%list_elem_of_In Hne E.
  specialize (H i Hi). rewrite forallb_forall in H. specialize (H j Hj). rewrite E in H.
  apply bool_decide_eq_true in H. by destruct H.
Qed.

Definition ex_exec_waves : list (list executionItem) :=
  match executionWaves ex_plan_graph ex_plan with Ok ws => ws | Err _ => [] end.

Definition ex_cfg : cfg memory := (ex_memory, {["h" := memory_view ex_memory "h"]}).
Definition ex_run : run_log * cfg memory :=
  runExecutionWaves {["h"]} (fun _ => "now") ex_exec_waves no_log ex_cfg.

(** The run of the example: the orphan is destroyed first. *)
Example ex_run_order : rl_executed ex_run.1 = ["h.old"; "h.a"; "h.b"; "h.reload"].
Proof. vm_compute. reflexivity. Qed.

Lemma ex_run_waves :
  run_waves {["h"]} (fun _ => "now") ex_exec_waves no_log ex_cfg ex_run.1 ex_run.2.
Proof.
  apply runExecutionWaves_run; [|exact (surjective_pairing ex_run)].
  apply (bool_decide_unpack _). vm_compute. reflexivity.
Qed.

Lemma ex_unique : unique_items (concat ex_exec_waves).
Proof. apply (bool_decide_unpack _). vm_compute. reflexivity. Qed.



(** C18: Failures stop their dependents and nothing else runs early: in every
    interleaving, an item that was started has all the dependencies that are
    scheduled in earlier waves started before it and finished without error. *)
Theorem run_waves_blocks {W} `{!Provider W} `{!Backend W} hosts now waves (c : cfg W) log' c'
    ws1 wave ws2 item d :
  run_waves hosts now waves no_log c log' c' ->
  unique_items (concat waves) -> (forall i, i ∈ concat waves -> ei_address i <> "") ->
  waves = ws1 ++ wave :: ws2 -> item ∈ wave -> d ∈ ei_dependsOn item ->
  d ∈ ei_address <$> concat ws1 -> ei_address item ∈ rl_executed log' ->
  d ∈ rl_executed log' /\ rl_failed log' !! d = None.
Proof.
  intros Hrun Hu Hne -> Hitem Hd Hin Hexec.
  eapply (run_waves_deps hosts now _ no_log c log' c' []); try done.
  - split; [by intros a ?%elem_of_nil|by intros a ?%elem_of_nil|done|]. intros a b Hb.
    change ((∅ : gmap string string) !! a = Some b) in Hb. by rewrite lookup_empty in Hb.
  - intros i Hi. apply not_elem_of_nil.
Qed.

Lemma run_waves_blocks_witness :
  "h.a" ∈ rl_executed ex_run.1 /\ rl_failed ex_run.1 !! "h.a" = None.
Proof.
  destruct ex_exec_waves as [|w0 [|w1 [|[|item w2] ws]]] eqn:E;
    [vm_compute in E; discriminate E..|].
  apply (run_waves_blocks {["h"]} (fun _ => "now") ex_exec_waves ex_cfg ex_run.1 ex_run.2
           [w0; w1] (item :: w2) ws item "h.a").
  - exact ex_run_waves.
  - exact ex_unique.
  - apply (Forall_forall (fun i => ei_address i <> "")). apply (bool_decide_unpack _). vm_compute. reflexivity.
  - rewrite E. reflexivity.
  - left.
  - vm_compute in E. injection E as <- <- <- <- <-. apply (bool_decide_unpack _). vm_compute. reflexivity.
  - vm_compute in E. injection E as <- <- <- <- <-. apply (bool_decide_unpack _). vm_compute. reflexivity.
  - vm_compute in E. injection E as <- <- <- <- <-. apply (bool_decide_unpack _). vm_compute. reflexivity.
Defined.

(** ** Waves terminate

    Each item of a wave is called once and committed once, so a wave of n items
    is over after at most 2n atomic steps, however its items interleave, and it
    never stops before every item has a result. *)

(** The steps an item still has to make. *)
Definition phase_weight (p : phase) : nat :=
  match p with Waiting => 2 | Calling _ => 1 | Finished _ => 0 end.
Definition weight (phases : gmap string phase) : nat := sum_list (phase_weight <$> (map_to_list phases).*2).

Lemma weight_split phases k p : phases !! k = Some p -> weight phases = phase_weight p + weight (delete k phases).
Proof.
  intros Hk. unfold weight. rewrite <- (insert_delete_id phases k p Hk) at 1.
  rewrite map_to_list_insert by apply lookup_delete_eq. done.
Qed.

Lemma weight_insert phases k p q :
  phases !! k = Some p -> weight (<[k := q]> phases) + phase_weight p = weight phases + phase_weight q.
Proof.
  intros Hk. rewrite (weight_split (<[k := q]> phases) k q) by apply lookup_insert_eq.
  rewrite (weight_split phases k p Hk), delete_insert_eq. lia.
Qed.

Lemma weight_waiting (l : list (string * phase)) :
  Forall (fun p => p.2 = Waiting) l -> weight (list_to_map l) <= 2 * length l.
Proof.
  induction 1 as [|[k p] l Hp Hl IH]; [done|]. cbn in Hp |- *. subst p.
  destruct ((list_to_map l : gmap string phase) !! k) as [q|] eqn:E.
  - pose proof (weight_insert _ _ _ Waiting E). assert (phase_weight q <= 2) by (destruct q; cbn; lia). cbn in *. 
    assert (q = Waiting) as ->; [|cbn in *; lia]. apply elem_of_list_to_map_2 in E.
    rewrite Forall_forall in Hl. by apply (Hl (k, q)).
  - unfold weight in *. rewrite map_to_list_insert by done. cbn. lia.
Qed.

Section wave.
Context {W : Type} `{!Provider W} `{!Backend W} (hosts : gset string) (now : string -> string).

Lemma wave_step_weight wave (s s' : wave_state) :
  wave_step hosts now wave s s' -> S (weight (ws_phases s')) <= weight (ws_phases s).
Proof.
  destruct 1 as [i w states phases r w' _ Hp _|i w states phases e w' _ Hp _|i c phases r out c' _ Hp _|i c phases e _ Hp];
    cbn [ws_phases];
    match goal with |- S (weight (<[_ := ?q]> _)) <= _ => pose proof (weight_insert _ _ _ q Hp) end; cbn in *; lia.
Qed.

Lemma wave_nsteps_weight wave n (s s' : wave_state) :
  nsteps (wave_step hosts now wave) n s s' -> n + weight (ws_phases s') <= weight (ws_phases s).
Proof. induction 1 as [|n s1 s2 s3 Hstep _ IH]; [lia|]. apply wave_step_weight in Hstep. lia. Qed.

Lemma start_wave_weight wave (c : cfg W) : weight (ws_phases (start_wave wave c)) <= 2 * length wave.
Proof.
  cbn. rewrite <- (length_fmap (fun i => (ei_address i, Waiting))). apply weight_waiting. by apply Forall_fmap, Forall_true.
Qed.

(** An item without a result can make its next step. *)
Lemma wave_progress wave (s : wave_state) :
  (forall a, a ∈ dom (ws_phases s) -> exists i, i ∈ wave /\ ei_address i = a) ->
  all_finished s \/ exists s', wave_step hosts now wave s s'.
Proof.
  intros Hdom. destruct (decide (map_Forall (fun _ p => phase_weight p = 0) (ws_phases s))) as [Hall|Hnot].
  - left. intros a p Hp. specialize (Hall a p Hp). destruct p as [| |r]; try discriminate. by exists r.
  - right. apply map_not_Forall in Hnot as (a & p & Hp & Hw); [|typeclasses eauto].
    destruct (Hdom a (elem_of_dom_2 _ _ _ Hp)) as (i & Hi & <-). destruct s as [[w states] phases]; cbn in *.
    destruct p as [|r|r]; [| |done].
    + destruct (call_item hosts i w) as [[r|e] w'] eqn:E; eexists; [by eapply ws_call|by eapply ws_call_fails].
    + destruct (commit_item hosts now i r (w, states)) as [out c'] eqn:E. eexists. by eapply ws_commit.
Qed.
End wave.


(** One wave of two items, the first of which was cancelled. *)
Definition ex_wave : list executionItem := take 2 (concat ex_exec_waves).
Definition ex_halfway : wave_state :=
  {| ws_cfg := ex_cfg;
     ws_phases := from_option (fun i => <[ei_address i := Finished (Err (StepFailed (ei_address i) "cancelled"))]> (ws_phases (start_wave ex_wave ex_cfg)))
                    ∅ (head ex_wave) |}.

