(* ===== verification/Lease.v ===== *)
(** * State locks over SSH: the lease protocol of [internal/core/engine/ssh_backend.go]

    Acquire, renew and unlock are shell scripts that run on the managed host;
    each reads and changes the lock files inside one [flock] critical section.
    The scripts are modelled as functions on the lock files.  A file content is
    classified the way the scripts read it: a version 2 lease whose checksum
    and text match ([read_v2_record] succeeds), a text that starts like a
    version 2 lease but does not verify, or anything else. *)
From S2P Require Import Prelude.
Local Open Scope Z_scope.

(** ** The lock files *)

Record lease := { l_owner : string; l_pid : string; l_token : string; l_expires : Z }.

Inductive content :=
| CLease (l : lease)
| CMalformed
| CForeign.

(** [lock_path]: absent, not a regular file, or a file and its mtime (seconds). *)
Inductive lock_file := FNone | FIrregular | FFile (c : content) (mtime : Z).

(** [marker_path] in the lock directory: absent, unverifiable, or a token. *)
Inductive marker := MNone | MInvalid (mtime : Z) | MToken (token : string) (mtime : Z).

#[export] Instance marker_eq_dec : EqDecision marker.
Proof. solve_decision. Defined.

Inductive lock_dir := DNone | DIrregular | DDir (m : marker).

#[export] Instance lock_dir_eq_dec : EqDecision lock_dir.
Proof. solve_decision. Defined.

(** The files, and whether the host has [flock] and [sha256sum] and a guard
    path that is not a symbolic link. *)
Record lock_fs := { fs_lock : lock_file; fs_dir : lock_dir; fs_tools : bool; fs_guard_link : bool }.

Definition set_lock (f : lock_file) (fs : lock_fs) : lock_fs :=
  {| fs_lock := f; fs_dir := fs_dir fs; fs_tools := fs_tools fs; fs_guard_link := fs_guard_link fs |}.
Definition set_dir (d : lock_dir) (fs : lock_fs) : lock_fs :=
  {| fs_lock := fs_lock fs; fs_dir := d; fs_tools := fs_tools fs; fs_guard_link := fs_guard_link fs |}.

Definition no_lock : lock_fs :=
  {| fs_lock := FNone; fs_dir := DNone; fs_tools := true; fs_guard_link := false |}.

(** [read_v2_marker] *)
Definition marker_token (d : lock_dir) : option string :=
  match d with DDir (MToken t _) => Some t | _ => None end.

Inductive lock_error :=
| MissingTools | GuardSymlink | NonRegularLock | NonDirectoryLock | LockTimeout
| LockMalformed | MarkerMismatch | TokenMismatch | LeaseExpired | LockDisappeared.

Definition check_host (fs : lock_fs) : result lock_error unit :=
  _ ← guard_or (fs_tools fs) MissingTools;
  guard_or (negb (fs_guard_link fs)) GuardSymlink.

(** ** Acquire *)

(** What the acquire script is given. *)
Record lock_request := {
  lr_token : string; lr_owner : string; lr_pid : string; lr_ttl : Z; lr_grace : Z;
}.

Definition seconds (ns : Z) : Z := ns / 1000000000.

(** Whether the lock may be claimed at [now]: the [claim] variable, before
    anything is written.  [Ok false]: wait and try again. *)
Definition may_claim (grace now : Z) (fs : lock_fs) : result lock_error bool :=
  match fs_lock fs, fs_dir fs with
  | FIrregular, _ => Err NonRegularLock
  | _, DIrregular => Err NonDirectoryLock
  | FFile (CLease l) modified, d =>
      if decide (marker_token d = Some (l_token l)) then Ok (bool_decide (l_expires l <= now))
      else Ok (bool_decide (grace <= now - modified))
  | FFile CMalformed modified, _ => Ok (bool_decide (grace <= now - modified))
  | FFile CForeign _, _ => Ok false
  | FNone, DDir (MToken _ modified) => Ok (bool_decide (grace <= now - modified))
  | FNone, DDir _ => Ok false
  | FNone, DNone => Ok true
  end.

Definition new_lease (r : lock_request) (now : Z) : lease :=
  {| l_owner := lr_owner r; l_pid := lr_pid r; l_token := lr_token r; l_expires := now + lr_ttl r |}.

(** The writes of a claim in order: create the directory, write the marker
    (a truncated one is unverifiable), move the lease into place. *)
Definition claim_states (r : lock_request) (now : Z) (fs : lock_fs) : list lock_fs :=
  let fs1 := match fs_dir fs with DNone => set_dir (DDir MNone) fs | _ => fs end in
  let fs2 := set_dir (DDir (MInvalid now)) fs1 in
  let fs3 := set_dir (DDir (MToken (lr_token r) now)) fs1 in
  [fs; fs1; fs2; fs3].

Definition claim (r : lock_request) (now : Z) (fs : lock_fs) : lock_fs :=
  set_lock (FFile (CLease (new_lease r now)) now) (set_dir (DDir (MToken (lr_token r) now)) fs).

Inductive attempt := Waits | Claimed (fs : lock_fs).

(** One round of the acquire loop under the guard. [mkdir_ok]: the outcome of
    [mkdir] when the directory is absent. *)
Definition acquire_attempt (r : lock_request) (now_ns deadline_ns : Z) (mkdir_ok : bool) (fs : lock_fs)
  : result lock_error attempt :=
  _ ← check_host fs;
  _ ← guard_or (bool_decide (now_ns < deadline_ns)) LockTimeout;
  let now := seconds now_ns in
  claimable ← may_claim (lr_grace r) now fs;
  if negb claimable then Ok Waits
  else if bool_decide (fs_dir fs = DNone) && negb mkdir_ok then Ok Waits
  else Ok (Claimed (claim r now fs)).

(** ** Renew and unlock *)

(** The checks renew and unlock share, on an existing lock file. *)
Definition verified_lease (fs : lock_fs) (c : content) : result lock_error lease :=
  match c with
  | CLease l =>
      _ ← guard_or (bool_decide (marker_token (fs_dir fs) = Some (l_token l))) MarkerMismatch;
      Ok l
  | _ => Err LockMalformed
  end.

Definition touch (now : Z) (d : lock_dir) : lock_dir :=
  match d with DDir (MToken t _) => DDir (MToken t now) | d => d end.

Definition renewed_lease (r : lock_request) (now : Z) (fs : lock_fs) : lock_fs :=
  set_lock (FFile (CLease (new_lease r now)) now) fs.

Definition renew (r : lock_request) (now : Z) (fs : lock_fs) : result lock_error lock_fs :=
  _ ← check_host fs;
  match fs_lock fs with
  | FIrregular => Err NonRegularLock
  | FNone => Err LockDisappeared
  | FFile c _ =>
      l ← verified_lease fs c;
      _ ← guard_or (bool_decide (l_token l = lr_token r)) TokenMismatch;
      _ ← guard_or (bool_decide (now < l_expires l)) LeaseExpired;
      let fs := renewed_lease r now fs in
      Ok (set_dir (touch now (fs_dir fs)) fs)
  end.

Definition released (fs : lock_fs) : lock_fs := set_dir DNone (set_lock FNone fs).

(** The states an unlock goes through: it removes the lease, the marker, the
    directory. *)
Definition unlock_states (fs : lock_fs) : list lock_fs :=
  match fs_lock fs with
  | FNone => [fs]
  | _ => [fs; set_lock FNone fs; set_dir (DDir MNone) (set_lock FNone fs); released fs]
  end.

Definition unlockRemote (token : string) (fs : lock_fs) : result lock_error lock_fs :=
  _ ← check_host fs;
  match fs_lock fs with
  | FIrregular => Err NonRegularLock
  | FNone => Ok fs
  | FFile c _ =>
      l ← verified_lease fs c;
      _ ← guard_or (bool_decide (l_token l = token)) TokenMismatch;
      Ok (released fs)
  end.

(** ** Durations, in nanoseconds *)

Definition second : Z := 1000000000.
Definition millisecond : Z := 1000000.
Definition defaultSSHLockLeaseTTL : Z := 120 * second.
Definition defaultSSHLockRenewInterval : Z := 30 * second.
Definition defaultSSHLockRenewTimeout : Z := 20 * second.
Definition defaultSSHLockRecoveryGrace : Z := 300 * second.

Record SSHBackend := { b_LeaseTTL : Z; b_RenewInterval : Z; b_RenewTimeout : Z; b_RecoveryGrace : Z }.

Definition lockLeaseTTL (b : SSHBackend) : Z :=
  if decide (0 < b_LeaseTTL b) then b_LeaseTTL b else defaultSSHLockLeaseTTL.

(** Go's [/] and [%] truncate towards zero. *)
Definition bounded_third (value default leaseTTL : Z) : Z :=
  let value := if decide (value <= 0) then default else value in
  let maximum := Z.quot leaseTTL 3 in
  let value := if decide (maximum < value) then maximum else value in
  if decide (value <= 0) then millisecond else value.

Definition lockRenewInterval (b : SSHBackend) (leaseTTL : Z) : Z :=
  bounded_third (b_RenewInterval b) defaultSSHLockRenewInterval leaseTTL.

Definition lockRenewTimeout (b : SSHBackend) (leaseTTL : Z) : Z :=
  bounded_third (b_RenewTimeout b) defaultSSHLockRenewTimeout leaseTTL.

Definition lockRecoveryGrace (b : SSHBackend) : Z :=
  if decide (0 < b_RecoveryGrace b) then b_RecoveryGrace b else defaultSSHLockRecoveryGrace.

Definition durationSecondsCeil (value : Z) : Z :=
  let s := Z.quot value second in
  let s := if decide (Z.rem value second <> 0) then s + 1 else s in
  if decide (s < 1) then 1 else s.

(** ** The protocol as a state machine *)

(** What the holder of a lock knows: its TTL and the expiry of its last lease. *)
Record holder := { ho_ttl : Z; ho_expires : Z }.

(** [w_now] in nanoseconds; [w_leases]: the active holders by token; [w_used]:
    the tokens drawn so far ([randomToken] never repeats one). *)
Record lock_world := {
  w_now : Z; w_fs : lock_fs; w_leases : gmap string holder; w_used : gset string;
}.

Definition holder_of (r : lock_request) (now : Z) : holder :=
  {| ho_ttl := lr_ttl r; ho_expires := seconds now + lr_ttl r |}.

Inductive lock_step : lock_world -> lock_world -> Prop :=
| ls_time now now' fs leases used :
    now <= now' ->
    lock_step {| w_now := now; w_fs := fs; w_leases := leases; w_used := used |}
      {| w_now := now'; w_fs := fs; w_leases := leases; w_used := used |}
| ls_acquire r now deadline mkdir_ok fs fs' leases used :
    lr_token r ∉ used ->
    acquire_attempt r now deadline mkdir_ok fs = Ok (Claimed fs') ->
    lock_step {| w_now := now; w_fs := fs; w_leases := leases; w_used := used |}
      {| w_now := now; w_fs := fs'; w_leases := <[lr_token r := holder_of r now]> leases;
         w_used := {[lr_token r]} ∪ used |}
(** The claimant dies in the middle, or its answer is lost. *)
| ls_acquire_dies r now deadline mkdir_ok fs fs' fs'' leases used :
    lr_token r ∉ used ->
    acquire_attempt r now deadline mkdir_ok fs = Ok (Claimed fs') ->
    fs'' ∈ claim_states r (seconds now) fs ++ [fs'] ->
    lock_step {| w_now := now; w_fs := fs; w_leases := leases; w_used := used |}
      {| w_now := now; w_fs := fs''; w_leases := leases; w_used := {[lr_token r]} ∪ used |}
| ls_renew r h now fs fs' leases used :
    leases !! lr_token r = Some h -> lr_ttl r = ho_ttl h ->
    renew r (seconds now) fs = Ok fs' ->
    lock_step {| w_now := now; w_fs := fs; w_leases := leases; w_used := used |}
      {| w_now := now; w_fs := fs'; w_leases := <[lr_token r := holder_of r now]> leases;
         w_used := used |}
(** A renewal whose answer is lost, perhaps before the marker was touched. *)
| ls_renew_dies r now fs fs' fs'' leases used :
    (forall h, leases !! lr_token r = Some h -> lr_ttl r = ho_ttl h) ->
    renew r (seconds now) fs = Ok fs' -> fs'' ∈ [renewed_lease r (seconds now) fs; fs'] ->
    lock_step {| w_now := now; w_fs := fs; w_leases := leases; w_used := used |}
      {| w_now := now; w_fs := fs''; w_leases := leases; w_used := used |}
(** The holder stops: a renewal failed, or the process died. *)
| ls_stop token now fs leases used :
    lock_step {| w_now := now; w_fs := fs; w_leases := leases; w_used := used |}
      {| w_now := now; w_fs := fs; w_leases := delete token leases; w_used := used |}
(** The holder unlocks, perhaps only in part. *)
| ls_unlock token now fs fs' fs'' leases used :
    unlockRemote token fs = Ok fs' -> fs'' ∈ unlock_states fs ->
    lock_step {| w_now := now; w_fs := fs; w_leases := leases; w_used := used |}
      {| w_now := now; w_fs := fs''; w_leases := delete token leases; w_used := used |}.

Definition lock_start (now : Z) : lock_world :=
  {| w_now := now; w_fs := no_lock; w_leases := ∅; w_used := ∅ |}.

(** A holder within its lease. *)
Definition live (w : lock_world) (token : string) : Prop :=
  exists h, w_leases w !! token = Some h /\ seconds (w_now w) < ho_expires h.
