(* ===== verification/LeaseProps.v ===== *)
(** * Properties of the lease protocol *)
From S2P Require Import Prelude Lease.
Local Open Scope Z_scope.

(** ** Reading the scripts *)

Lemma acquire_inv r now deadline ok fs out :
  acquire_attempt r now deadline ok fs = Ok out ->
  check_host fs = Ok tt /\ exists c, may_claim (lr_grace r) (seconds now) fs = Ok c
    /\ (forall fs', out = Claimed fs' -> c = true /\ fs' = claim r (seconds now) fs).
Proof.
  unfold acquire_attempt. intros H. res_inv. destruct x. split; [done|]. eexists. split; [done|].
  intros fs' ->. destruct x1; [|done]. cbn [negb] in H. split; [done|].
  by destruct (_ && _); [|injection H as <-].
Qed.

(** A claim is only made when no verified lease is running. *)
Lemma may_claim_expired grace now fs l m :
  may_claim grace now fs = Ok true -> fs_lock fs = FFile (CLease l) m ->
  marker_token (fs_dir fs) = Some (l_token l) -> l_expires l <= now.
Proof.
  unfold may_claim. intros H E Hm. rewrite E in H. destruct (fs_dir fs) as [| |d]; [done..|].
  rewrite decide_True in H by done. by injection H as H%bool_decide_eq_true.
Qed.

Lemma verified_lease_inv fs c l :
  verified_lease fs c = Ok l -> c = CLease l /\ marker_token (fs_dir fs) = Some (l_token l).
Proof.
  unfold verified_lease. destruct c as [l'| |]; [|done..]. intros H. res_inv.
  split; [done|]. by apply bool_decide_eq_true in H0.
Qed.

Lemma renew_inv r now fs fs' :
  renew r now fs = Ok fs' ->
  exists l m t, fs_lock fs = FFile (CLease l) m /\ fs_dir fs = DDir (MToken (lr_token r) t)
    /\ l_token l = lr_token r /\ now < l_expires l
    /\ fs' = set_dir (DDir (MToken (lr_token r) now)) (renewed_lease r now fs).
Proof.
  unfold renew. intros H. res_inv. destruct (fs_lock fs) as [| |c m] eqn:E; [done..|]. res_inv.
  apply verified_lease_inv in H1 as [-> Hm]. apply bool_decide_eq_true in H2, H3. rewrite H2 in Hm.
  unfold marker_token in Hm. destruct (fs_dir fs) as [| |[| |t mt]] eqn:Ed; try done.
  injection Hm as ->. do 3 eexists. repeat split; [done..|].
  destruct fs. cbn in *. by subst.
Qed.

Lemma unlock_inv token fs fs' :
  unlockRemote token fs = Ok fs' ->
  fs_lock fs = FNone \/ exists l m, fs_lock fs = FFile (CLease l) m /\ l_token l = token.
Proof.
  unfold unlockRemote. intros H. res_inv. destruct (fs_lock fs) as [| |c m] eqn:E; [by left|done|].
  res_inv. apply verified_lease_inv in H1 as [-> Hm]. apply bool_decide_eq_true in H2. eauto 6.
Qed.

(** ** The invariant *)

(** [token]'s lease is on disk, verified, at least until [e]. *)
Definition on_disk (fs : lock_fs) (token : string) (e : Z) : Prop :=
  exists l m, fs_lock fs = FFile (CLease l) m /\ l_token l = token /\ e <= l_expires l
              /\ marker_token (fs_dir fs) = Some token.

Record lock_inv (w : lock_world) : Prop := {
  li_used : forall t, is_Some (w_leases w !! t) -> t ∈ w_used w;
  li_ttl : forall t h, w_leases w !! t = Some h -> ho_expires h <= seconds (w_now w) + ho_ttl h;
  li_live : forall t h, w_leases w !! t = Some h -> seconds (w_now w) < ho_expires h ->
    on_disk (w_fs w) t (ho_expires h);
}.

Lemma seconds_mono a b : a <= b -> seconds a <= seconds b.
Proof. intros. unfold seconds. apply Z.div_le_mono; lia. Qed.

(** Nobody is live when a claim is possible. *)
Lemma claim_no_live w grace t h :
  lock_inv w -> may_claim grace (seconds (w_now w)) (w_fs w) = Ok true ->
  w_leases w !! t = Some h -> ~ seconds (w_now w) < ho_expires h.
Proof.
  intros [_ _ Hlive] Hc Hh Hlt. destruct (Hlive t h Hh Hlt) as (l & m & Hl & Ht & He & Hm).
  rewrite <- Ht in Hm. pose proof (may_claim_expired _ _ _ _ _ Hc Hl Hm). lia.
Qed.

Lemma on_disk_claim r now fs : on_disk (claim r now fs) (lr_token r) (now + lr_ttl r).
Proof. eexists _, _. split; [done|]. split; [done|]. split; [cbn; lia|done]. Qed.

Lemma on_disk_token fs t t' e e' : on_disk fs t e -> on_disk fs t' e' -> t = t'.
Proof. intros (l & m & H & <- & _) (l' & m' & H' & <- & _). congruence. Qed.

Lemma lock_inv_start now : lock_inv (lock_start now).
Proof.
  split; cbn; intros t; [intros [? Ht]|intros h Ht|intros h Ht]; by rewrite lookup_empty in Ht.
Qed.

Lemma lock_inv_acquired w r fs' :
  lock_inv w -> may_claim (lr_grace r) (seconds (w_now w)) (w_fs w) = Ok true ->
  fs' = claim r (seconds (w_now w)) (w_fs w) ->
  lock_inv {| w_now := w_now w; w_fs := fs';
              w_leases := <[lr_token r := holder_of r (w_now w)]> (w_leases w);
              w_used := {[lr_token r]} ∪ w_used w |}.
Proof.
  intros Hinv Hc ->. split; cbn [w_leases w_used w_now w_fs].
  - intros t. rewrite lookup_insert. case_decide; [set_solver|].
    intros ?%(li_used _ Hinv). set_solver.
  - intros t h. rewrite lookup_insert. case_decide; [intros [= <-]; cbn; lia|apply (li_ttl _ Hinv)].
  - intros t h. rewrite lookup_insert. case_decide as Ht; [subst; intros [= <-] _; apply on_disk_claim|].
    intros Hh Hlt. by destruct (claim_no_live w _ t h Hinv Hc Hh).
Qed.

Lemma lock_inv_dead w fs' used' :
  lock_inv w -> (forall t h, w_leases w !! t = Some h -> ~ seconds (w_now w) < ho_expires h) ->
  w_used w ⊆ used' ->
  lock_inv {| w_now := w_now w; w_fs := fs'; w_leases := w_leases w; w_used := used' |}.
Proof.
  intros [H1 H2 H3] Hdead Hsub. split; cbn [w_leases w_used w_now w_fs]; [set_solver|done|].
  intros t h Hh Hlt. by destruct (Hdead t h Hh).
Qed.

Lemma lock_inv_delete w token fs' :
  lock_inv w ->
  (forall t e, t <> token -> on_disk (w_fs w) t e -> on_disk fs' t e) ->
  lock_inv {| w_now := w_now w; w_fs := fs'; w_leases := delete token (w_leases w); w_used := w_used w |}.
Proof.
  intros [H1 H2 H3] Hkeep. split; cbn [w_leases w_used w_now w_fs]; intros t.
  - rewrite lookup_delete_is_Some. intros [_ ?]. by apply H1.
  - intros h [_ Hh]%lookup_delete_Some. by apply (H2 t).
  - intros h [Hne Hh]%lookup_delete_Some Hlt. apply Hkeep; [done|]. by apply H3.
Qed.

(** A renewal by [r] rewrites [r]'s own lease. *)
Lemma renew_on_disk r now fs fs' t e :
  renew r now fs = Ok fs' -> on_disk fs t e -> t = lr_token r.
Proof.
  intros (l & m & mt & Hl & Hd & Ht & _ & _)%renew_inv (l' & m' & Hl' & <- & _). congruence.
Qed.

Lemma on_disk_renewed r now fs fs' :
  renew r now fs = Ok fs' ->
  on_disk fs' (lr_token r) (now + lr_ttl r) /\ on_disk (renewed_lease r now fs) (lr_token r) (now + lr_ttl r).
Proof.
  intros (l & m & mt & Hl & Hd & Ht & _ & ->)%renew_inv. split; eexists _, _; (split; [done|]);
    (split; [done|]); (split; [cbn; lia|]); [done|]. unfold renewed_lease. cbn. by rewrite Hd.
Qed.

Lemma lock_inv_step w w' : lock_step w w' -> lock_inv w -> lock_inv w'.
Proof.
  destruct 1 as [now now' fs leases used Hle|r now deadline ok fs fs' leases used Hfresh Ha
    |r now deadline ok fs fs' fs'' leases used Hfresh Ha Hin|r h0 now fs fs' leases used Hh0 Httl Hr
    |r now fs fs' fs'' leases used Httl Hr Hin|token now fs leases used
    |token now fs fs' fs'' leases used Hu Hin]; intros Hinv.
  - pose proof (seconds_mono _ _ Hle). destruct Hinv as [H1 H2 H3]. split; cbn in *; [done| |].
    + intros t h Hh. specialize (H2 t h Hh). lia.
    + intros t h Hh Hlt. apply H3; [done|lia].
  - apply acquire_inv in Ha as (_ & c & Hc & Hcl). destruct (Hcl fs' eq_refl) as [-> ->].
    by eapply (lock_inv_acquired _ r _ Hinv).
  - apply acquire_inv in Ha as (_ & c & Hc & Hcl). destruct (Hcl fs' eq_refl) as [-> _].
    apply (lock_inv_dead _ fs'' _ Hinv); cbn [w_leases w_used w_now]; [|set_solver].
    intros t h Hh. by eapply (claim_no_live _ _ t h Hinv).
  - destruct (on_disk_renewed _ _ _ _ Hr) as [Hd _]. destruct Hinv as [H1 H2 H3].
    split; cbn [w_leases w_used w_now w_fs] in *; intros t.
    + rewrite lookup_insert. case_decide; [subst; eauto|apply H1].
    + intros h. rewrite lookup_insert. case_decide; [intros [= <-]; cbn; lia|apply H2].
    + intros h. rewrite lookup_insert. case_decide as Ht; [subst; intros [= <-] _; exact Hd|].
      intros Hh Hlt. pose proof (renew_on_disk _ _ _ _ _ _ Hr (H3 t h Hh Hlt)). congruence.
  - destruct (on_disk_renewed _ _ _ _ Hr) as [Hd Hd']. destruct Hinv as [H1 H2 H3].
    split; cbn [w_leases w_used w_now w_fs] in *; [done|done|]. intros t h Hh Hlt.
    pose proof (renew_on_disk _ _ _ _ _ _ Hr (H3 t h Hh Hlt)) as ->. specialize (Httl h Hh).
    specialize (H2 _ h Hh). rewrite <- Httl in H2.
    assert (on_disk fs'' (lr_token r) (seconds now + lr_ttl r)) as (l & m & ? & ? & ? & ?).
    { apply elem_of_cons in Hin as [->|Hin]; [done|]. by apply list_elem_of_singleton in Hin as ->. }
    exists l, m. repeat split; [done..|lia|done].
  - by apply (lock_inv_delete _ token fs Hinv).
  - apply (lock_inv_delete _ token fs'' Hinv). cbn [w_fs]. intros t e Hne Hd.
    apply unlock_inv in Hu as [Hn|(l & m & Hl & Ht)].
    + unfold unlock_states in Hin. rewrite Hn in Hin. by apply list_elem_of_singleton in Hin as ->.
    + destruct Hd as (l' & m' & Hl' & <- & _). congruence.
Qed.

Lemma lock_inv_steps w w' : rtc lock_step w w' -> lock_inv w -> lock_inv w'.
Proof. induction 1; eauto using lock_inv_step. Qed.

Lemma lock_inv_reachable now w : rtc lock_step (lock_start now) w -> lock_inv w.
Proof. intros H. eapply lock_inv_steps; [exact H|apply lock_inv_start]. Qed.

(** C1: Locks are exclusive: in every reachable state of the protocol, with
    processes dying and answers lost at any point, at most one holder is
    within its lease, and its lease is on disk, verified, until the holder's
    deadline at least. *)
Theorem lease_exclusive now w t1 t2 :
  rtc lock_step (lock_start now) w -> live w t1 -> live w t2 ->
  t1 = t2 /\ exists h, w_leases w !! t1 = Some h /\ on_disk (w_fs w) t1 (ho_expires h).
Proof.
  intros [_ _ Hlive]%lock_inv_reachable (h1 & Hh1 & Hlt1) (h2 & Hh2 & Hlt2).
  pose proof (Hlive t1 h1 Hh1 Hlt1) as Hd1. pose proof (Hlive t2 h2 Hh2 Hlt2) as Hd2.
  split; [by eapply on_disk_token|eauto].
Qed.

(** *** A run *)

Definition ex_request (token : string) : lock_request :=
  {| lr_token := token; lr_owner := "ZGJm"; lr_pid := "7"; lr_ttl := 120; lr_grace := 300 |}.

Definition ex_time (s : Z) : Z := s * second.

Lemma ex_locked :
  rtc lock_step (lock_start (ex_time 10))
    {| w_now := ex_time 10; w_fs := claim (ex_request "aa") 10 no_lock;
       w_leases := {["aa" := holder_of (ex_request "aa") (ex_time 10)]}; w_used := {["aa"]} ∪ ∅ |}.
Proof.
  apply rtc_once. apply (ls_acquire (ex_request "aa") (ex_time 10) (ex_time 11) true no_lock).
  - apply not_elem_of_empty.
  - vm_compute. reflexivity.
Qed.

Lemma lease_exclusive_witness :
  "aa" = "aa" /\ exists h, ({["aa" := holder_of (ex_request "aa") (ex_time 10)]} : gmap string holder) !! "aa" = Some h
    /\ on_disk (claim (ex_request "aa") 10 no_lock) "aa" (ho_expires h).
Proof.
  apply (lease_exclusive _ _ _ _ ex_locked).
  - eexists. split; [reflexivity|vm_compute; reflexivity].
  - eexists. split; [reflexivity|vm_compute; reflexivity].
Defined.

(** ** Fencing *)

Lemma verified_lease_ok fs l :
  marker_token (fs_dir fs) = Some (l_token l) -> verified_lease fs (CLease l) = Ok l.
Proof. intros H. unfold verified_lease. by rewrite bool_decide_true. Qed.

Lemma may_claim_lease grace now fs l m :
  fs_lock fs = FFile (CLease l) m -> marker_token (fs_dir fs) = Some (l_token l) ->
  may_claim grace now fs = Ok (bool_decide (l_expires l <= now)).
Proof.
  intros Hl Hm. unfold may_claim. rewrite Hl. destruct (fs_dir fs) as [| |d]; [done..|].
  by rewrite decide_True.
Qed.

(** A verified lease protects its holder: before it expires nobody can
    claim the lock, and a renewal or an unlock with another token fails and
    changes nothing; the holder's own renewal succeeds until the expiry, and
    its unlock leaves no lock behind. *)
Theorem lease_protects fs l m r now_ns deadline ok :
  check_host fs = Ok tt -> fs_lock fs = FFile (CLease l) m ->
  marker_token (fs_dir fs) = Some (l_token l) ->
  (seconds now_ns < l_expires l -> now_ns < deadline ->
     acquire_attempt r now_ns deadline ok fs = Ok Waits)
  /\ (lr_token r <> l_token l -> forall now, renew r now fs = Err TokenMismatch)
  /\ (forall t, t <> l_token l -> unlockRemote t fs = Err TokenMismatch)
  /\ (lr_token r = l_token l -> forall now, now < l_expires l ->
       exists fs', renew r now fs = Ok fs' /\ on_disk fs' (l_token l) (now + lr_ttl r))
  /\ unlockRemote (l_token l) fs = Ok (released fs).
Proof.
  intros Hh Hl Hm. pose proof (verified_lease_ok fs l Hm) as Hv.
  pose proof (may_claim_lease (lr_grace r) (seconds now_ns) fs l m Hl Hm) as Hc.
  unfold acquire_attempt, renew, unlockRemote. rewrite Hh, Hl, !Ok_bind.
  split; [|split; [|split; [|split]]].
  - intros Hlt Hd. rewrite guard_bind_true, Hc, Ok_bind by done.
    by rewrite bool_decide_false by lia.
  - intros Hne now. by rewrite Ok_bind, Hv, Ok_bind, guard_bind_false by congruence.
  - intros t Hne. by rewrite Ok_bind, Hv, Ok_bind, guard_bind_false by congruence.
  - intros Heq now Hlt. rewrite Ok_bind, Hv, Ok_bind, guard_bind_true, guard_bind_true by done.
    eexists. split; [done|]. eexists _, _. split; [done|]. split; [done|]. split; [cbn; lia|].
    cbn. rewrite <- Hm. by destruct (fs_dir fs) as [| |[| |]].
  - by rewrite Hv, Ok_bind, guard_bind_true.
Qed.

Lemma lease_protects_witness :
  acquire_attempt (ex_request "bb") (ex_time 20) (ex_time 30) true (claim (ex_request "aa") 10 no_lock) = Ok Waits
  /\ unlockRemote "aa" (claim (ex_request "aa") 10 no_lock) = Ok no_lock.
Proof.
  destruct (lease_protects (claim (ex_request "aa") 10 no_lock) (new_lease (ex_request "aa") 10) 10
    (ex_request "bb") (ex_time 20) (ex_time 30) true) as (H1 & _ & _ & _ & H2);
    [reflexivity|reflexivity|reflexivity|].
  split; [apply H1; vm_compute; reflexivity|exact H2].
Defined.

(** ** Recovery *)

(** What the scripts leave on disk, whoever dies. *)
Record lock_shape (fs : lock_fs) : Prop := {
  sh_host : check_host fs = Ok tt;
  sh_lock : fs_lock fs = FNone \/ exists l m, fs_lock fs = FFile (CLease l) m;
  sh_dir : fs_dir fs = DNone \/ exists m, fs_dir fs = DDir m;
}.

Lemma shape_set_lock fs l m : lock_shape fs -> lock_shape (set_lock (FFile (CLease l) m) fs).
Proof. intros [H1 _ H3]. split; [done|right; eauto|done]. Qed.
Lemma shape_set_none fs : lock_shape fs -> lock_shape (set_lock FNone fs).
Proof. intros [H1 _ H3]. split; [done|by left|done]. Qed.
Lemma shape_set_dir fs m : lock_shape fs -> lock_shape (set_dir (DDir m) fs).
Proof. intros [H1 H2 _]. split; [done|done|right; eauto]. Qed.
Lemma shape_no_dir fs : lock_shape fs -> lock_shape (set_dir DNone fs).
Proof. intros [H1 H2 _]. split; [done|done|by left]. Qed.

Create HintDb lock_shape.
#[export] Hint Resolve shape_set_lock shape_set_none shape_set_dir shape_no_dir : lock_shape.

Lemma shape_claim_states r now fs fs' :
  lock_shape fs -> fs' ∈ claim_states r now fs ++ [claim r now fs] -> lock_shape fs'.
Proof.
  intros Hs Hin. unfold claim_states, claim in Hin. cbv zeta in Hin.
  assert (lock_shape (match fs_dir fs with DNone => set_dir (DDir MNone) fs | _ => fs end)) as Hs1
    by (destruct (fs_dir fs); auto with lock_shape).
  cbn [app] in Hin.
  repeat (apply elem_of_cons in Hin as [->|Hin]; [auto with lock_shape|]). by apply elem_of_nil in Hin.
Qed.

Lemma shape_step w w' : lock_step w w' -> lock_shape (w_fs w) -> lock_shape (w_fs w').
Proof.
  destruct 1 as [now now' fs leases used Hle|r now deadline ok fs fs' leases used Hfresh Ha
    |r now deadline ok fs fs' fs'' leases used Hfresh Ha Hin|r h0 now fs fs' leases used Hh0 Httl Hr
    |r now fs fs' fs'' leases used Httl Hr Hin|token now fs leases used
    |token now fs fs' fs'' leases used Hu Hin]; cbn [w_fs]; intros Hs; try done.
  - apply acquire_inv in Ha as (_ & c & _ & Hcl). destruct (Hcl fs' eq_refl) as [_ ->].
    unfold claim. auto with lock_shape.
  - apply acquire_inv in Ha as (_ & c & _ & Hcl). destruct (Hcl fs' eq_refl) as [_ ->].
    by eapply shape_claim_states.
  - apply renew_inv in Hr as (l & m & t & _ & _ & _ & _ & ->). unfold renewed_lease. auto with lock_shape.
  - apply renew_inv in Hr as (l & m & t & _ & _ & _ & _ & ->). unfold renewed_lease in *.
    apply elem_of_cons in Hin as [->|Hin]; [auto with lock_shape|].
    apply list_elem_of_singleton in Hin as ->. auto with lock_shape.
  - unfold unlock_states, released in Hin. destruct (fs_lock fs);
      repeat (apply elem_of_cons in Hin as [->|Hin]; [auto with lock_shape|]); by apply elem_of_nil in Hin.
Qed.

Lemma shape_reachable w w' : rtc lock_step w w' -> lock_shape (w_fs w) -> lock_shape (w_fs w').
Proof. induction 1; eauto using shape_step. Qed.

(** A lock directory without a verifiable marker and without a lease. *)
Definition unmarked (fs : lock_fs) : Prop :=
  fs_lock fs = FNone /\ exists m, fs_dir fs = DDir m /\ marker_token (fs_dir fs) = None.

(** C38: Dead holders do not block a host for ever: in every reachable state,
    either there is a time from which on every attempt claims the lock, or the
    directory exists without a verifiable marker and without a lease (a process
    died between [mkdir] and the marker, or between the removal of the marker
    and [rmdir]), which is never taken over automatically. *)
Theorem lease_recovers now w r :
  rtc lock_step (lock_start now) w ->
  (unmarked (w_fs w) /\ forall t, may_claim (lr_grace r) t (w_fs w) = Ok false)
  \/ (~ unmarked (w_fs w) /\ exists start, forall now_ns deadline,
        start <= seconds now_ns -> now_ns < deadline ->
        acquire_attempt r now_ns deadline true (w_fs w) = Ok (Claimed (claim r (seconds now_ns) (w_fs w)))).
Proof.
  intros Hs%shape_reachable; [|by split; [|left|left]]. destruct Hs as [Hh Hl Hd].
  assert ((unmarked (w_fs w) /\ forall t, may_claim (lr_grace r) t (w_fs w) = Ok false)
    \/ (~ unmarked (w_fs w) /\ exists start, forall t, start <= t ->
           may_claim (lr_grace r) t (w_fs w) = Ok true)) as Hcase.
  { unfold unmarked, may_claim. destruct Hl as [->|(l & m & ->)], Hd as [->|(d & ->)].
    - right. split; [by intros (_ & ? & ? & _)|]. by exists 0.
    - destruct d as [|mt|t mt]; [left; split; [eauto 10|done]..|right].
      split; [by intros (_ & ? & _ & ?)|]. exists (lr_grace r + mt). intros t' Ht.
      by rewrite bool_decide_true by lia.
    - right. split; [by intros (? & _)|]. cbn [marker_token]. exists (lr_grace r + m). intros t' Ht.
      by rewrite decide_False, bool_decide_true by (done || lia).
    - right. split; [by intros (? & _)|]. exists (Z.max (l_expires l) (lr_grace r + m)). intros t' Ht.
      case_decide; by rewrite bool_decide_true by lia. }
  destruct Hcase as [?|[Hu [start Hc]]]; [by left|right]. split; [done|]. exists start.
  intros now_ns deadline Hge Hlt. unfold acquire_attempt. rewrite Hh, Ok_bind, guard_bind_true by done.
  rewrite (Hc _ Hge), Ok_bind. cbn [negb]. by rewrite andb_false_r.
Qed.

Lemma lease_recovers_witness :
  exists start, forall now_ns deadline, start <= seconds now_ns -> now_ns < deadline ->
    acquire_attempt (ex_request "bb") now_ns deadline true (claim (ex_request "aa") 10 no_lock)
    = Ok (Claimed (claim (ex_request "bb") (seconds now_ns) (claim (ex_request "aa") 10 no_lock))).
Proof.
  destruct (lease_recovers _ _ (ex_request "bb") ex_locked) as [[[H _] _]|[_ H]]; [discriminate H|exact H].
Defined.

(** ** Timing *)

Lemma bounded_third_spec value default ttl :
  0 < default -> 3 <= ttl -> 0 < bounded_third value default ttl /\ 3 * bounded_third value default ttl <= ttl.
Proof.
  intros Hd Ht. unfold bounded_third. cbv zeta.
  assert (0 < Z.quot ttl 3 /\ 3 * Z.quot ttl 3 <= ttl) as [? ?].
  { rewrite Z.quot_div_nonneg by lia. split; [apply Z.div_str_pos; lia|apply Z.mul_div_le; lia]. }
  repeat case_decide; lia.
Qed.

Lemma durationSecondsCeil_spec value : 0 <= value -> value <= durationSecondsCeil value * second.
Proof.
  intros Hv. unfold durationSecondsCeil. cbv zeta. pose proof (Z.quot_rem' value second) as E.
  pose proof (Z.rem_bound_pos value second Hv ltac:(done)). unfold second in *.
  repeat case_decide; lia.
Qed.

(** C39: Renewals come in time: with any settings and a lease of at least three
    seconds, a renewal started one renewal interval after the previous one and
    finished within its timeout still finds the lease unexpired, although the
    host counts in whole seconds. *)
Theorem renewal_in_time b t0 t1 :
  let ttl := lockLeaseTTL b in
  3 * second <= ttl -> t0 <= t1 ->
  t1 <= t0 + lockRenewInterval b ttl + lockRenewTimeout b ttl ->
  0 < lockRenewInterval b ttl /\ 0 < lockRenewTimeout b ttl
  /\ seconds t1 < seconds t0 + durationSecondsCeil ttl.
Proof.
  intros ttl Ht Hle Hlt. unfold lockRenewInterval, lockRenewTimeout in *.
  assert (3 <= ttl) by (unfold second in Ht; lia).
  destruct (bounded_third_spec (b_RenewInterval b) defaultSSHLockRenewInterval ttl) as [? ?]; [done..|].
  destruct (bounded_third_spec (b_RenewTimeout b) defaultSSHLockRenewTimeout ttl) as [? ?]; [done..|].
  split; [done|]. split; [done|].
  pose proof (durationSecondsCeil_spec ttl ltac:(lia)) as Hc. unfold seconds, second in *.
  apply Z.div_lt_upper_bound; [lia|]. pose proof (Z.mul_succ_div_gt t0 1000000000 ltac:(lia)). lia.
Qed.

Lemma renewal_in_time_witness :
  let b := {| b_LeaseTTL := 0; b_RenewInterval := 0; b_RenewTimeout := 0; b_RecoveryGrace := 0 |} in
  0 < lockRenewInterval b (lockLeaseTTL b) /\ 0 < lockRenewTimeout b (lockLeaseTTL b)
  /\ seconds (ex_time 59) < seconds (ex_time 10) + durationSecondsCeil (lockLeaseTTL b).
Proof. apply renewal_in_time; vm_compute; discriminate. Defined.

(** A lease of one second may run out before its first renewal. *)
Example ex_short_lease :
  let b := {| b_LeaseTTL := second; b_RenewInterval := 0; b_RenewTimeout := 0; b_RecoveryGrace := 0 |} in
  let t0 := 10900 * millisecond in
  (seconds t0 + durationSecondsCeil (lockLeaseTTL b)
   <=? seconds (t0 + lockRenewInterval b (lockLeaseTTL b))) = true.
Proof. vm_compute. reflexivity. Qed.
