(* ===== verification/Values.v ===== *)
(** * Parsed configuration values: [internal/core/parser/value.go]

    [Value] is what the parser makes of an HCL expression and what [merge]
    overlays: a kind with one payload field per kind, the labels of ordered
    blocks, the references and source position, the list modifier, and the
    sensitive and ephemeral marks. *)
From S2P Require Import Prelude Sha256 GoValue IR.

Inductive Modifier := ModifierNone | ModifierForce | ModifierBefore | ModifierAfter | ModifierUnset.
#[export] Instance Modifier_eq_dec : EqDecision Modifier.
Proof. solve_decision. Defined.

(** [KindZero] is the empty string, the kind of the zero [Value{}] that a read
    of a missing map entry yields. *)
Inductive Kind := KindZero | KindNull | KindString | KindBool | KindNumber | KindList | KindMap.
#[export] Instance Kind_eq_dec : EqDecision Kind.
Proof. solve_decision. Defined.

Inductive ScriptReferenceScope := ScriptReferenceAuto | ScriptReferenceGlobal.
Record ScriptReference := {
  sref_Name : string;
  sref_Scope : ScriptReferenceScope;
  sref_Source : SourceRef;
}.
Record ResourceReference := {
  rref_Type : string;
  rref_Name : string;
  rref_Source : SourceRef;
}.

Inductive Value : Type := mkValue {
  v_Kind : Kind;
  v_String : string;
  v_Bool : bool;
  v_Number : string;
  v_List : list Value;
  v_Map : gmap string Value;
  v_Order : list string;
  v_ScriptReference : option ScriptReference;
  v_ResourceReference : option ResourceReference;
  v_Source : SourceRef;
  v_Modifier : Modifier;
  v_Sensitive : bool;
  v_Ephemeral : bool;
}.

(** [Value{Kind: kind, Source: source}] *)
Definition value_of (kind : Kind) (source : SourceRef) : Value :=
  mkValue kind "" false "" [] ∅ [] None None source ModifierNone false false.

Definition zeroValue : Value := value_of KindZero no_source.
Definition NullValue (source : SourceRef) : Value := value_of KindNull source.
Definition MapValue (values : gmap string Value) (source : SourceRef) : Value :=
  mkValue KindMap "" false "" [] values [] None None source ModifierNone false false.

Definition str_value (s : string) : Value :=
  mkValue KindString s false "" [] ∅ [] None None no_source ModifierNone false false.

Definition with_modifier (m : Modifier) (v : Value) : Value :=
  mkValue (v_Kind v) (v_String v) (v_Bool v) (v_Number v) (v_List v) (v_Map v) (v_Order v)
    (v_ScriptReference v) (v_ResourceReference v) (v_Source v) m (v_Sensitive v) (v_Ephemeral v).
Definition with_order (order : list string) (v : Value) : Value :=
  mkValue (v_Kind v) (v_String v) (v_Bool v) (v_Number v) (v_List v) (v_Map v) order
    (v_ScriptReference v) (v_ResourceReference v) (v_Source v) (v_Modifier v) (v_Sensitive v)
    (v_Ephemeral v).

Definition WithoutModifier (v : Value) : Value := with_modifier ModifierNone v.

Definition IsMap (v : Value) : bool := bool_decide (v_Kind v = KindMap).
Definition IsList (v : Value) : bool := bool_decide (v_Kind v = KindList).

(** [for _, item := range v.Map]: some entry satisfies [p]. *)
Definition map_any (m : gmap string bool) : bool := existsb snd (map_to_list m).

Fixpoint ContainsSensitive (v : Value) : bool :=
  v_Sensitive v ||
  match v_Kind v with
  | KindList => existsb id (ContainsSensitive <$> v_List v)
  | KindMap => map_any (ContainsSensitive <$> v_Map v)
  | _ => false
  end.

Fixpoint ContainsEphemeral (v : Value) : bool :=
  v_Ephemeral v ||
  match v_Kind v with
  | KindList => existsb id (ContainsEphemeral <$> v_List v)
  | KindMap => map_any (ContainsEphemeral <$> v_Map v)
  | _ => false
  end.

Definition StringValue (v : Value) : option string :=
  match v_Kind v with
  | KindString => Some (v_String v)
  | KindNumber => Some (v_Number v)
  | _ => None
  end.

(** [canonical]: a number is kept as its text, like a string. *)
Fixpoint canonical (v : Value) : goval :=
  match v_Kind v with
  | KindString => GStr (v_String v)
  | KindBool => GBool (v_Bool v)
  | KindNumber => GStr (v_Number v)
  | KindList => GList (canonical <$> v_List v)
  | KindMap => GMap (canonical <$> v_Map v)
  | KindNull | KindZero => GNil
  end.

(** [Key]: the JSON text of [canonical], which only holds nil, strings, bools,
    slices and maps, so that marshalling cannot fail. *)
Definition Key (v : Value) : string := json_text (marshal (canonical v)).

(** ** Facts on the marks *)
Lemma map_any_true m : map_any m = true <-> exists k, m !! k = Some true.
Proof.
  unfold map_any. rewrite existsb_exists. split.
  - intros ([k b] & Hin%list_elem_of_In & Hb). cbn in Hb. subst b. exists k.
    by apply elem_of_map_to_list.
  - intros [k Hk]. exists (k, true). split; [|done]. by apply list_elem_of_In, elem_of_map_to_list.
Qed.

Lemma ContainsSensitive_list v :
  v_Kind v = KindList ->
  ContainsSensitive v = true <->
  v_Sensitive v = true \/ exists x, x ∈ v_List v /\ ContainsSensitive x = true.
Proof.
  intros Hk. destruct v; cbn in *; subst. rewrite orb_true_iff, existsb_exists.
  apply or_iff_compat_l. split.
  - intros (b & Hb%list_elem_of_In & Hid). apply list_elem_of_fmap in Hb as (x & -> & Hx). eauto.
  - intros (x & Hx & Hs). exists true. split; [|done].
    apply list_elem_of_In, list_elem_of_fmap. eauto.
Qed.

Lemma ContainsSensitive_map v :
  v_Kind v = KindMap ->
  ContainsSensitive v = true <->
  v_Sensitive v = true \/ exists k x, v_Map v !! k = Some x /\ ContainsSensitive x = true.
Proof.
  intros Hk. destruct v; cbn in *; subst. rewrite orb_true_iff, map_any_true.
  apply or_iff_compat_l. setoid_rewrite lookup_fmap. setoid_rewrite fmap_Some. naive_solver.
Qed.
