(* ===== verification/InputType.v ===== *)
(** * Types of variables and component inputs: [internal/core/parser/input_type.go],
    [parser/variable.go], [merge/merge_components.go]

    The type specifications, their printed form, and the normalization of a
    value to a type: it checks the value, completes objects with the defaults
    of their attributes and sorts sets.  The program has it twice, for variables
    ([normalizeValueForType]) and for component inputs
    ([normalizeComponentInputValue]); both are translated. *)
From S2P Require Import Prelude Sha256 GoValue IR Values.

(** ** Type specifications *)

Inductive ComponentInputTypeKind :=
| ComponentInputTypeString | ComponentInputTypeNumber | ComponentInputTypeBool
| ComponentInputTypeAny | ComponentInputTypeList | ComponentInputTypeSet | ComponentInputTypeMap
| ComponentInputTypeObject | ComponentInputTypeTuple
| ComponentInputTypeOther (name : string).

#[export] Instance ComponentInputTypeKind_eq_dec : EqDecision ComponentInputTypeKind.
Proof. solve_decision. Defined.

Definition kind_text (k : ComponentInputTypeKind) : string :=
  match k with
  | ComponentInputTypeString => "string"
  | ComponentInputTypeNumber => "number"
  | ComponentInputTypeBool => "bool"
  | ComponentInputTypeAny => "any"
  | ComponentInputTypeList => "list"
  | ComponentInputTypeSet => "set"
  | ComponentInputTypeMap => "map"
  | ComponentInputTypeObject => "object"
  | ComponentInputTypeTuple => "tuple"
  | ComponentInputTypeOther name => name
  end.

(** [ComponentObjectAttrSpec], over the type of specifications. *)
Record AttrOf (T : Type) := { a_Type : T; a_Optional : bool; a_Default : option Value }.
Arguments a_Type {T}.
Arguments a_Optional {T}.
Arguments a_Default {T}.

Inductive ComponentInputTypeSpec : Type := mkType {
  t_Kind : ComponentInputTypeKind;
  t_Element : option ComponentInputTypeSpec;
  t_Attributes : gmap string (AttrOf ComponentInputTypeSpec);
  t_Tuple : list ComponentInputTypeSpec;
}.
Abbreviation ComponentObjectAttrSpec := (AttrOf ComponentInputTypeSpec).

(** ** Printed types *)

(** What [json.Marshal] sees of a literal, and what [json.Decoder] makes of a
    text with [UseNumber]: numbers are kept as text. *)
Inductive literal : Type :=
| LNull
| LBool (b : bool)
| LStr (s : string)
| LNum (text : string)
| LList (l : list literal)
| LMap (m : gmap string literal).

Fixpoint canonicalTypeLiteral (v : Value) : literal :=
  match v_Kind v with
  | KindNumber => LNum (v_Number v)
  | KindString => LStr (v_String v)
  | KindBool => LBool (v_Bool v)
  | KindList => LList (canonicalTypeLiteral <$> v_List v)
  | KindMap => LMap (canonicalTypeLiteral <$> v_Map v)
  | KindNull | KindZero => LNull
  end.

(** [encoding/json]'s check of a [json.Number]: an optional sign, an integer
    without leading zeros, a fraction and an exponent. *)
Definition digit (b : N) : bool := in_range 48 57 b.
Fixpoint skip_digits (l : list N) : list N :=
  match l with b :: l' => if digit b then skip_digits l' else l | [] => [] end.
Definition some_digits (l : list N) : option (list N) :=
  match l with b :: l' => if digit b then Some (skip_digits l') else None | [] => None end.

Definition skip_sign (plus : bool) (l : list N) : list N :=
  match l with
  | b :: l' => if (b =? 45)%N || (plus && (b =? 43)%N) then l' else l
  | [] => []
  end.
Definition int_part (l : list N) : option (list N) :=
  match l with
  | b :: l' => if (b =? 48)%N then Some l' else some_digits l
  | [] => None
  end.
Definition frac_part (l : list N) : option (list N) :=
  match l with
  | b :: l' => if (b =? 46)%N then some_digits l' else Some l
  | [] => Some []
  end.
Definition exp_part (l : list N) : option (list N) :=
  match l with
  | b :: l' => if (b =? 101)%N || (b =? 69)%N then some_digits (skip_sign true l') else Some l
  | [] => Some []
  end.
Definition isValidNumber (text : string) : bool :=
  match (l ← int_part (skip_sign false (Sha256.bytes text)); l ← frac_part l; exp_part l) with
  | Some [] => true
  | _ => false
  end.

(** [json.Marshal]; [None] is its error on an invalid number. *)
Fixpoint option_list {A} (l : list (option A)) : option (list A) :=
  match l with
  | [] => Some []
  | x :: l => y ← x; ys ← option_list l; Some (y :: ys)
  end.

Fixpoint literal_text (j : literal) : option string :=
  match j with
  | LNull => Some "null"
  | LBool b => Some (if b then "true" else "false")
  | LStr s => Some (json_string s)
  | LNum text =>
      if bool_decide (text = "") then Some "0"
      else if isValidNumber text then Some text else None
  | LList l =>
      texts ← option_list (literal_text <$> l);
      Some ("[" +:+ comma_join texts +:+ "]")
  | LMap m =>
      texts ← option_list ((fun p => t ← p.2; Some (json_string p.1 +:+ ":" +:+ t))
                             <$> sorted_entries (literal_text <$> m));
      Some ("{" +:+ comma_join texts +:+ "}")
  end.

Definition CanonicalString (v : Value) : string :=
  default "null" (literal_text (canonicalTypeLiteral v)).

(** [ComponentInputTypeSpec.String] *)
Definition attr_text (name typeExpr : string) (optional : bool) (dflt : option Value) : string :=
  name +:+ "=" +:+
  (if optional then
     match dflt with
     | Some v => "optional(" +:+ typeExpr +:+ "," +:+ CanonicalString v +:+ ")"
     | None => "optional(" +:+ typeExpr +:+ ")"
     end
   else typeExpr).

Fixpoint type_String (t : ComponentInputTypeSpec) : string :=
  match t_Kind t with
  | ComponentInputTypeList | ComponentInputTypeSet | ComponentInputTypeMap =>
      kind_text (t_Kind t) +:+ "(" +:+ from_option type_String "any" (t_Element t) +:+ ")"
  | ComponentInputTypeObject =>
      "object({" +:+
      strings_Join ((fun p => p.2 p.1) <$>
        sorted_entries ((fun a name => attr_text name (type_String (a_Type a)) (a_Optional a) (a_Default a))
                          <$> t_Attributes t)) "," +:+ "})"
  | ComponentInputTypeTuple =>
      "tuple([" +:+ strings_Join (type_String <$> t_Tuple t) "," +:+ "])"
  | k => kind_text k
  end.

Definition elementTypeName (spec : ComponentInputTypeSpec) : string :=
  from_option type_String "any" (t_Element spec).

(** ** Normalization *)

(** What a value is checked for, in the wording of the errors. *)
Inductive subject := OfVariable | OfComponentInput.

Inductive input_error :=
| TypeConstraint (s : subject) (source : SourceRef) (name path want : string) (got : Kind)
| UnsupportedAttribute (s : subject) (source : SourceRef) (name path key : string)
| MissingAttribute (s : subject) (source : SourceRef) (name path : string)
| TupleLength (s : subject) (source : SourceRef) (name path : string) (want got : nat)
| UnsupportedType (s : subject) (source : SourceRef) (kind : string)
| MustNotBeNull (s : subject) (source : SourceRef) (name : string)
| NilElement.  (* [*spec.Element] of a nil element: a panic *)

Definition with_list (l : list Value) (v : Value) : Value :=
  mkValue (v_Kind v) (v_String v) (v_Bool v) (v_Number v) l (v_Map v) (v_Order v)
    (v_ScriptReference v) (v_ResourceReference v) (v_Source v) (v_Modifier v) (v_Sensitive v)
    (v_Ephemeral v).
Definition with_map (m : gmap string Value) (v : Value) : Value :=
  mkValue (v_Kind v) (v_String v) (v_Bool v) (v_Number v) (v_List v) m (v_Order v)
    (v_ScriptReference v) (v_ResourceReference v) (v_Source v) (v_Modifier v) (v_Sensitive v)
    (v_Ephemeral v).

Definition item_path (path : string) (i : nat) : string := path +:+ "[" +:+ pretty i +:+ "]".
Definition key_path (path key : string) : string := path +:+ "[" +:+ strconv_Quote key +:+ "]".
Definition attribute_path (path name : string) : string := path +:+ "." +:+ name.

(** A loop over sorted keys that fills a fresh map. *)
Definition fill_map {E A} (f : string -> A -> result E Value) (m : gmap string A)
  : result E (gmap string Value) :=
  fold_res (fun (out : gmap string Value) key =>
    match m !! key with
    | Some x => y ← f key x; Ok (<[key := y]> out)
    | None => Ok out
    end) (sorted_keys m) ∅.

(** The in-place removal of adjacent items with equal keys. *)
Fixpoint drop_repeated (last : option string) (l : list Value) : list Value :=
  match l with
  | [] => []
  | item :: l =>
      if bool_decide (last = Some (Key item)) then drop_repeated last l
      else item :: drop_repeated (Some (Key item)) l
  end.

Definition key_less (a b : Value) : bool := str_ltb (Key a) (Key b).
Definition set_items (l : list Value) : list Value := drop_repeated None (sort_by key_less l).

Section normalize.
(** The order in which [range] visits the keys of a map. *)
Variable range_keys : gmap string Value -> list string.

Definition unsupported_key {T} (attributes : gmap string T) (m : gmap string Value) : option string :=
  head (filter (fun key => attributes !! key = None) (range_keys m)).

(** [parser.missingObjectAttributeSource]; the attribute is missing, so the
    entry it looks up is not there. *)
Definition var_missing_source (parent : Value) (name path : string) : SourceRef :=
  match v_Map parent !! name with
  | Some item => v_Source item
  | None => {| src_File := src_File (v_Source parent); src_Line := src_Line (v_Source parent);
               src_Path := src_Path (v_Source parent) +:+ path |}
  end.

Definition typeConstraintError {A} (name : string) (value : Value) (path want : string)
  : result input_error A :=
  Err (TypeConstraint OfVariable (v_Source value) name path want (v_Kind value)).

Fixpoint normalizeValueForType (name : string) (spec : ComponentInputTypeSpec) (value : Value)
    (path : string) {struct spec} : result input_error Value :=
  let element item path :=
    match t_Element spec with
    | Some e => normalizeValueForType name e item path
    | None => Err NilElement
    end in
  if bool_decide (v_Kind value = KindNull) then Ok value
  else match t_Kind spec with
  | ComponentInputTypeAny => Ok value
  | ComponentInputTypeString =>
      if bool_decide (v_Kind value = KindString) then Ok value
      else typeConstraintError name value path "string"
  | ComponentInputTypeNumber =>
      if bool_decide (v_Kind value = KindNumber) then Ok value
      else typeConstraintError name value path "number"
  | ComponentInputTypeBool =>
      if bool_decide (v_Kind value = KindBool) then Ok value
      else typeConstraintError name value path "bool"
  | ComponentInputTypeList | ComponentInputTypeSet =>
      if IsList value then
        items ← mapi_res (fun i item => element item (item_path path i)) 0 (v_List value);
        Ok (with_list (if bool_decide (t_Kind spec = ComponentInputTypeSet) then set_items items
                       else items) value)
      else typeConstraintError name value path
             (kind_text (t_Kind spec) +:+ "(" +:+ elementTypeName spec +:+ ")")
  | ComponentInputTypeMap =>
      if IsMap value then
        m ← fill_map (fun key item => element item (key_path path key)) (v_Map value);
        Ok (with_map m value)
      else typeConstraintError name value path ("map(" +:+ elementTypeName spec +:+ ")")
  | ComponentInputTypeObject =>
      if IsMap value then
        match unsupported_key (t_Attributes spec) (v_Map value) with
        | Some key => Err (UnsupportedAttribute OfVariable
                             (from_option v_Source no_source (v_Map value !! key)) name path key)
        | None =>
            m ← fill_map (fun key (attribute : string -> result input_error Value) => attribute key)
                ((fun a key =>
                  let attrPath := attribute_path path key in
                  match v_Map value !! key with
                  | Some item => normalizeValueForType name (a_Type a) item attrPath
                  | None =>
                      match a_Default a with
                      | Some dflt => normalizeValueForType name (a_Type a) dflt attrPath
                      | None =>
                          if a_Optional a
                          then Ok (NullValue (var_missing_source value key attrPath))
                          else Err (MissingAttribute OfVariable (v_Source value) name attrPath)
                      end
                  end) <$> t_Attributes spec);
            Ok (with_map m value)
        end
      else typeConstraintError name value path "object"
  | ComponentInputTypeTuple =>
      if IsList value then
        if bool_decide (length (v_List value) = length (t_Tuple spec)) then
          items ← mapi_res (fun i p => p.1 p.2 (item_path path i)) 0
                    (zip (normalizeValueForType name <$> t_Tuple spec) (v_List value));
          Ok (with_list items value)
        else Err (TupleLength OfVariable (v_Source value) name path (length (t_Tuple spec))
                    (length (v_List value)))
      else typeConstraintError name value path "tuple"
  | ComponentInputTypeOther kind => Err (UnsupportedType OfVariable (v_Source value) kind)
  end.

(** [merge.missingObjectAttributeSource] *)
Definition missingObjectAttributeSource (parent : Value) (name path : string) : SourceRef :=
  let path := src_Path (v_Source parent) +:+ path in
  {| src_File := src_File (v_Source parent); src_Line := src_Line (v_Source parent);
     src_Path := if bool_decide (path = "") then name else path |}.

Definition componentInputTypeError {A} (inputName : string) (value : Value) (path want : string)
  : result input_error A :=
  Err (TypeConstraint OfComponentInput (v_Source value) inputName path want (v_Kind value)).

Fixpoint normalizeComponentInputValue (inputName : string) (spec : ComponentInputTypeSpec) (value : Value)
    (path : string) {struct spec} : result input_error Value :=
  let element item path :=
    match t_Element spec with
    | Some e => normalizeComponentInputValue inputName e item path
    | None => Err NilElement
    end in
  if bool_decide (v_Kind value = KindNull) then Ok value
  else match t_Kind spec with
  | ComponentInputTypeAny => Ok value
  | ComponentInputTypeString =>
      if bool_decide (v_Kind value = KindString) then Ok value
      else componentInputTypeError inputName value path "string"
  | ComponentInputTypeNumber =>
      if bool_decide (v_Kind value = KindNumber) then Ok value
      else componentInputTypeError inputName value path "number"
  | ComponentInputTypeBool =>
      if bool_decide (v_Kind value = KindBool) then Ok value
      else componentInputTypeError inputName value path "bool"
  | ComponentInputTypeList | ComponentInputTypeSet =>
      if IsList value then
        items ← mapi_res (fun i item => element item (item_path path i)) 0 (v_List value);
        Ok (with_list (if bool_decide (t_Kind spec = ComponentInputTypeSet) then set_items items
                       else items) value)
      else componentInputTypeError inputName value path
             (kind_text (t_Kind spec) +:+ "(" +:+ elementTypeName spec +:+ ")")
  | ComponentInputTypeMap =>
      if IsMap value then
        m ← fill_map (fun key item => element item (key_path path key)) (v_Map value);
        Ok (with_map m value)
      else componentInputTypeError inputName value path ("map(" +:+ elementTypeName spec +:+ ")")
  | ComponentInputTypeObject =>
      if IsMap value then
        match unsupported_key (t_Attributes spec) (v_Map value) with
        | Some key => Err (UnsupportedAttribute OfComponentInput
                             (from_option v_Source no_source (v_Map value !! key)) inputName path key)
        | None =>
            m ← fill_map (fun key (attribute : string -> result input_error Value) => attribute key)
                ((fun a key =>
                  let attrPath := attribute_path path key in
                  match v_Map value !! key with
                  | Some item => normalizeComponentInputValue inputName (a_Type a) item attrPath
                  | None =>
                      match a_Default a with
                      | Some dflt => normalizeComponentInputValue inputName (a_Type a) dflt attrPath
                      | None =>
                          if a_Optional a
                          then Ok (NullValue (missingObjectAttributeSource value key attrPath))
                          else Err (MissingAttribute OfComponentInput (v_Source value) inputName attrPath)
                      end
                  end) <$> t_Attributes spec);
            Ok (with_map m value)
        end
      else componentInputTypeError inputName value path "object"
  | ComponentInputTypeTuple =>
      if IsList value then
        if bool_decide (length (v_List value) = length (t_Tuple spec)) then
          items ← mapi_res (fun i p => p.1 p.2 (item_path path i)) 0
                    (zip (normalizeComponentInputValue inputName <$> t_Tuple spec) (v_List value));
          Ok (with_list items value)
        else Err (TupleLength OfComponentInput (v_Source value) inputName path (length (t_Tuple spec))
                    (length (v_List value)))
      else componentInputTypeError inputName value path "tuple"
  | ComponentInputTypeOther kind => Err (UnsupportedType OfComponentInput (v_Source value) kind)
  end.

(** ** Variables and inputs *)

(** The fields of [Variable] and [ComponentInput] read here. *)
Record VariableDecl := {
  var_Name : string;
  var_TypeSpec : ComponentInputTypeSpec;
  var_Default : option Value;
  var_Sensitive : bool;
  var_Nullable : bool;
  var_Ephemeral : bool;
  var_Source : SourceRef;
}.

Definition with_marks (sensitive ephemeral : bool) (v : Value) : Value :=
  mkValue (v_Kind v) (v_String v) (v_Bool v) (v_Number v) (v_List v) (v_Map v) (v_Order v)
    (v_ScriptReference v) (v_ResourceReference v) (v_Source v) (v_Modifier v)
    (v_Sensitive v || sensitive) (v_Ephemeral v || ephemeral).

Definition NormalizeVariableValue (variable : VariableDecl) (value : Value) : result input_error Value :=
  _ ← guard_or (negb (bool_decide (v_Kind value = KindNull)) || var_Nullable variable)
        (MustNotBeNull OfVariable (v_Source value) (var_Name variable));
  normalized ← normalizeValueForType (var_Name variable) (var_TypeSpec variable) value "";
  Ok (with_marks (var_Sensitive variable) (var_Ephemeral variable) normalized).

End normalize.
