(* ===== verification/InputTypeProps.v ===== *)
(** * Properties of types and normalization *)
From S2P Require Import Prelude Sha256 GoValue IR Values InputType.

(** ** Typing *)

Definition key_lt (a b : Value) : Prop := key_less a b = true.

(** [has_type spec v]: a null, or a value of the shape of [spec] all the way
    down: a set is strictly sorted by key, an object has exactly the declared
    attributes. *)
Inductive has_type : ComponentInputTypeSpec -> Value -> Prop :=
| ht_null spec v : v_Kind v = KindNull -> has_type spec v
| ht_any spec v : t_Kind spec = ComponentInputTypeAny -> has_type spec v
| ht_string spec v : t_Kind spec = ComponentInputTypeString -> v_Kind v = KindString -> has_type spec v
| ht_number spec v : t_Kind spec = ComponentInputTypeNumber -> v_Kind v = KindNumber -> has_type spec v
| ht_bool spec v : t_Kind spec = ComponentInputTypeBool -> v_Kind v = KindBool -> has_type spec v
| ht_list spec v :
    t_Kind spec = ComponentInputTypeList -> v_Kind v = KindList ->
    (forall item, item ∈ v_List v -> exists e, t_Element spec = Some e /\ has_type e item) ->
    has_type spec v
| ht_set spec v :
    t_Kind spec = ComponentInputTypeSet -> v_Kind v = KindList ->
    (forall item, item ∈ v_List v -> exists e, t_Element spec = Some e /\ has_type e item) ->
    StronglySorted key_lt (v_List v) ->
    has_type spec v
| ht_map spec v :
    t_Kind spec = ComponentInputTypeMap -> v_Kind v = KindMap ->
    (forall key item, v_Map v !! key = Some item -> exists e, t_Element spec = Some e /\ has_type e item) ->
    has_type spec v
| ht_object spec v :
    t_Kind spec = ComponentInputTypeObject -> v_Kind v = KindMap ->
    dom (v_Map v) = dom (t_Attributes spec) ->
    (forall key item, v_Map v !! key = Some item ->
       exists a, t_Attributes spec !! key = Some a /\ has_type (a_Type a) item) ->
    has_type spec v
| ht_tuple spec v :
    t_Kind spec = ComponentInputTypeTuple -> v_Kind v = KindList ->
    length (v_List v) = length (t_Tuple spec) ->
    (forall i t item, t_Tuple spec !! i = Some t -> v_List v !! i = Some item -> has_type t item) ->
    has_type spec v.

(** ** Induction on type specifications *)

Fixpoint type_size (t : ComponentInputTypeSpec) : nat :=
  S (from_option type_size 0 (t_Element t)
     + sum_list (map_to_list ((fun a => type_size (a_Type a)) <$> t_Attributes t)).*2
     + sum_list (type_size <$> t_Tuple t)).

Lemma type_nested_ind (P : ComponentInputTypeSpec -> Prop) :
  (forall spec,
     (forall e, t_Element spec = Some e -> P e) ->
     (forall key a, t_Attributes spec !! key = Some a -> P (a_Type a)) ->
     (forall t, t ∈ t_Tuple spec -> P t) -> P spec) ->
  forall spec, P spec.
Proof.
  intros Hstep spec. remember (type_size spec) as n eqn:Hn. revert spec Hn.
  induction (lt_wf n) as [n _ IH]; intros spec ->.
  assert (Hsub : forall t, type_size t < type_size spec -> P t) by (intros t Ht; by eapply IH).
  clear IH. destruct spec as [k element attributes tuple]. apply Hstep; cbn.
  - intros e ->. apply Hsub. cbn. lia.
  - intros key a Ha. apply Hsub. cbn.
    enough (type_size (a_Type a) <=
            sum_list (map_to_list ((fun a => type_size (a_Type a)) <$> attributes)).*2) by lia.
    apply sum_list_elem_of, list_elem_of_fmap. exists (key, type_size (a_Type a)). split; [done|].
    apply elem_of_map_to_list. by rewrite lookup_fmap, Ha.
  - intros t Ht. apply Hsub. cbn.
    enough (type_size t <= sum_list (type_size <$> tuple)) by lia.
    apply sum_list_elem_of, list_elem_of_fmap. eauto.
Qed.

(** ** The loops *)

Lemma mapi_res_Ok {E A B} (f : nat -> A -> result E B) l : forall i out,
  mapi_res f i l = Ok out <->
  length out = length l /\
  forall j x y, l !! j = Some x -> out !! j = Some y -> f (i + j) x = Ok y.
Proof.
  induction l as [|x l IH]; intros i out; cbn [mapi_res].
  - split; [by intros [= <-]|]. intros [Hl _]. by destruct out.
  - split.
    + intros (y & Hy & (ys & [Hl Hys]%IH & [= <-])%bind_Ok)%bind_Ok. split; [cbn; lia|].
      intros [|j] x' y' Hx Hy'; cbn in *.
      * rewrite Nat.add_0_r. congruence.
      * replace (i + S j) with (S i + j) by lia. by apply (Hys j x' y').
    + intros [Hl Hf]. destruct out as [|y ys]; [done|]. apply bind_Ok. exists y. split.
      * rewrite <- (Nat.add_0_r i). by apply (Hf 0).
      * apply bind_Ok. exists ys. split; [|done]. apply IH. split; [cbn in Hl; lia|].
        intros j x' y' Hx Hy. replace (S i + j) with (i + S j) by lia. by apply (Hf (S j)).
Qed.

Lemma fold_fill_Ok {E A} (f : string -> A -> result E Value) (m : gmap string A) keys :
  NoDup keys -> (forall k, k ∈ keys -> is_Some (m !! k)) ->
  forall (out0 out : gmap string Value),
  fold_res (fun (out : gmap string Value) key =>
    match m !! key with
    | Some x => y ← f key x; Ok (<[key := y]> out)
    | None => Ok out
    end) keys out0 = Ok out <->
  (forall k x, k ∈ keys -> m !! k = Some x -> exists y, f k x = Ok y /\ out !! k = Some y) /\
  (forall k, k ∉ keys -> out !! k = out0 !! k).
Proof.
  intros Hnd. induction Hnd as [|key keys Hkey Hnd IH]; intros Hm out0 out; cbn [fold_res].
  { split; [intros [= ->]; split; [by intros ? ? ?%elem_of_nil|done]|].
    intros [_ H]. f_equal. apply map_eq. intros k. symmetry. apply H, not_elem_of_nil. }
  destruct (Hm key) as [x Hx]; [left|]. rewrite Hx.
  assert (Hm' : forall k, k ∈ keys -> is_Some (m !! k)) by (intros; apply Hm; by right). split.
  - destruct (f key x) as [y|e] eqn:Hy; [|done]. rewrite Ok_bind, IH by done. intros [H1 H2]. split.
    + intros k x' [->|Hk]%elem_of_cons Hx'; [|by apply H1].
      exists y. split; [congruence|]. rewrite H2 by done. apply lookup_insert_eq.
    + intros k [Hne Hk]%not_elem_of_cons. rewrite H2 by done. by apply lookup_insert_ne.
  - intros [H1 H2]. destruct (H1 key x) as (y & -> & Hy); [left|done|]. rewrite Ok_bind, IH by done. split.
    + intros k x' Hk. apply H1. by right.
    + intros k Hk. destruct (decide (k = key)) as [->|Hne]; [by rewrite lookup_insert_eq|].
      rewrite lookup_insert_ne by done. apply H2. by rewrite not_elem_of_cons.
Qed.

Lemma fill_map_Ok {E A} (f : string -> A -> result E Value) (m : gmap string A) out :
  fill_map f m = Ok out <->
  dom out = dom m /\
  forall k x y, m !! k = Some x -> out !! k = Some y -> f k x = Ok y.
Proof.
  unfold fill_map. rewrite fold_fill_Ok; [|apply NoDup_sorted_keys|by intros k Hk%elem_of_sorted_keys].
  split.
  - intros [H1 H2]. split.
    + apply set_eq. intros k. rewrite !elem_of_dom. split.
      * intros [y Hy]. destruct (m !! k) eqn:E0; [eauto|]. rewrite H2 in Hy; [done|].
        rewrite elem_of_sorted_keys, E0. by intros [].
      * intros [x Hx]. destruct (H1 k x) as (y & _ & ->); [|done|eauto]. apply elem_of_sorted_keys. eauto.
    + intros k x y Hx Hy. destruct (H1 k x) as (y' & Hf & Hy'); [apply elem_of_sorted_keys; eauto|done|].
      congruence.
  - intros [Hdom Hf]. split.
    + intros k x _ Hx. assert (is_Some (out !! k)) as [y Hy].
      { apply elem_of_dom. rewrite Hdom. apply elem_of_dom. eauto. } eauto.
    + intros k Hk. rewrite lookup_empty. apply not_elem_of_dom. rewrite Hdom. apply not_elem_of_dom.
      destruct (m !! k) eqn:E0; [|done]. destruct Hk. apply elem_of_sorted_keys. eauto.
Qed.

(** ** Sets *)

Lemma drop_repeated_spec l : forall last,
  StronglySorted (may_follow key_less) l ->
  (forall x k, x ∈ l -> last = Some k -> str_ltb (Key x) k = false) ->
  StronglySorted key_lt (drop_repeated last l) /\
  (forall x, x ∈ drop_repeated last l ->
     x ∈ l /\ forall k, last = Some k -> str_ltb k (Key x) = true).
Proof.
  induction l as [|x l IH]; intros last Hs Hlast; cbn [drop_repeated].
  { split; [constructor|by intros ? ?%elem_of_nil]. }
  inversion Hs as [|? ? Hs' Hall]; subst. rewrite Forall_forall in Hall. case_bool_decide as Hk.
  - destruct (IH last Hs') as [H1 H2]; [intros y k Hy; apply Hlast; by right|].
    split; [done|]. intros y Hy. destruct (H2 y Hy). split; [by right|done].
  - destruct (IH (Some (Key x)) Hs') as [H1 H2].
    { intros y k Hy [= <-]. by apply (Hall y Hy). }
    split; [constructor; [done|]; apply Forall_forall; intros y Hy; by apply (H2 y Hy)|].
    assert (Hx : forall k, last = Some k -> str_ltb k (Key x) = true).
    { intros k ->. destruct (str_ltb k (Key x)) eqn:E; [done|]. destruct Hk. f_equal.
      apply str_ltb_total; [done|]. apply (Hlast x k); [left|done]. }
    intros y [->|Hy]%elem_of_cons; [by split; [left|]|]. destruct (H2 y Hy) as [Hin Hlt].
    split; [by right|]. intros k Hk'. eapply str_ltb_trans; [by apply Hx|by apply Hlt].
Qed.

Lemma key_less_trans a b c : may_follow key_less a b -> may_follow key_less b c -> may_follow key_less a c.
Proof. unfold may_follow, key_less. intros. by eapply str_not_ltb_trans. Qed.

Lemma set_items_sorted l : StronglySorted key_lt (set_items l).
Proof.
  apply drop_repeated_spec; [|done]. apply sort_by_sorted.
  - intros x y. unfold key_less. apply str_ltb_asym.
  - apply key_less_trans.
Qed.

Lemma set_items_elem l x : x ∈ set_items l -> x ∈ l.
Proof.
  intros Hx. destruct (drop_repeated_spec (sort_by key_less l) None) as [_ H].
  - apply sort_by_sorted; [intros ? ?; apply str_ltb_asym|apply key_less_trans].
  - done.
  - destruct (H x Hx) as [Hin _]. by apply elem_of_sort_by in Hin.
Qed.

Lemma drop_repeated_id l : forall last,
  StronglySorted key_lt l -> (forall x, x ∈ l -> last <> Some (Key x)) -> drop_repeated last l = l.
Proof.
  induction l as [|x l IH]; intros last Hs Hl; cbn; [done|]. inversion Hs as [|? ? Hs' Hall]; subst.
  rewrite bool_decide_false by (apply Hl; left). f_equal. apply IH; [done|].
  rewrite Forall_forall in Hall. intros y Hy [= Hk]. specialize (Hall y Hy).
  unfold key_lt, key_less in Hall. by rewrite Hk, str_ltb_irrefl in Hall.
Qed.

Lemma set_items_id l : StronglySorted key_lt l -> set_items l = l.
Proof.
  intros Hs. unfold set_items. rewrite sort_by_id; [by apply drop_repeated_id|].
  eapply StronglySorted_imp; [|exact Hs]. intros x y _ _ Hxy. by apply str_ltb_asym.
Qed.

(** ** Values *)
Lemma with_list_id v : with_list (v_List v) v = v.
Proof. by destruct v. Qed.
Lemma with_map_id v : with_map (v_Map v) v = v.
Proof. by destruct v. Qed.
Lemma IsList_true v : IsList v = true <-> v_Kind v = KindList.
Proof. apply bool_decide_eq_true. Qed.
Lemma IsMap_true v : IsMap v = true <-> v_Kind v = KindMap.
Proof. apply bool_decide_eq_true. Qed.

Section props.
Context (range_keys : gmap string Value -> list string).
(** [range] visits every key of a map. *)
Context (Hrange : forall m, range_keys m ≡ₚ sorted_keys m).

Abbreviation normalize := (normalizeValueForType range_keys).

Lemma unsupported_None {T} (attributes : gmap string T) (m : gmap string Value) :
  unsupported_key range_keys attributes m = None <->
  forall k, is_Some (m !! k) -> is_Some (attributes !! k).
Proof.
  unfold unsupported_key. split.
  - intros H k Hk. apply not_eq_None_Some. intros Hn.
    assert (Hin : k ∈ filter (fun key => attributes !! key = None) (range_keys m)).
    { apply list_elem_of_filter. split; [done|]. by rewrite Hrange, elem_of_sorted_keys. }
    destruct (filter _ _); [by apply elem_of_nil in Hin|done].
  - intros H. destruct (filter _ _) as [|k l] eqn:E; [done|].
    assert (Hin : k ∈ filter (fun key => attributes !! key = None) (range_keys m)) by (rewrite E; left).
    apply list_elem_of_filter in Hin as [Hn Hin]. rewrite Hrange, elem_of_sorted_keys in Hin.
    apply H in Hin as [? ?]. congruence.
Qed.

(** The entries of a completed object: each attribute's own value, its default
    or a null. *)
Lemma normalize_typed spec : forall name value path r,
  normalize name spec value path = Ok r -> has_type spec r.
Proof.
  induction spec as [spec IHe IHa IHt] using type_nested_ind. intros name value path r.
  destruct spec as [k element attributes tuple]; cbn [t_Kind t_Element t_Attributes t_Tuple] in *.
  cbn [normalizeValueForType t_Kind t_Element t_Attributes t_Tuple].
  case_bool_decide as Hnull; [intros [= <-]; by apply ht_null|].
  assert (Helem : forall item p y,
    match element with Some e => normalize name e item p | None => Err NilElement end = Ok y ->
    exists e, element = Some e /\ has_type e y).
  { intros item p y. destruct element as [e|]; [|done]. intros Hy. exists e. split; [done|]. by eapply IHe. }
  destruct k; unfold typeConstraintError.
  - case_bool_decide; [|done]. intros [= <-]. by apply ht_string.
  - case_bool_decide; [|done]. intros [= <-]. by apply ht_number.
  - case_bool_decide; [|done]. intros [= <-]. by apply ht_bool.
  - intros [= <-]. by apply ht_any.
  - destruct (IsList value) eqn:Hl; [|done]. apply IsList_true in Hl.
    intros (items & [Hlen Hit]%mapi_res_Ok & [= <-])%bind_Ok. apply ht_list; [done..|]. cbn.
    intros item [j Hj]%list_elem_of_lookup. destruct (lookup_lt_is_Some_2 (v_List value) j) as [x Hx].
    { apply lookup_lt_Some in Hj. lia. } eapply Helem, Hit; done.
  - destruct (IsList value) eqn:Hl; [|done]. apply IsList_true in Hl.
    intros (items & [Hlen Hit]%mapi_res_Ok & [= <-])%bind_Ok. apply ht_set; [done..| |apply set_items_sorted].
    cbn. intros item [j Hj]%set_items_elem%list_elem_of_lookup.
    destruct (lookup_lt_is_Some_2 (v_List value) j) as [x Hx].
    { apply lookup_lt_Some in Hj. lia. } eapply Helem, Hit; done.
  - destruct (IsMap value) eqn:Hm; [|done]. apply IsMap_true in Hm.
    intros (m & [Hdom Hit]%fill_map_Ok & [= <-])%bind_Ok. apply ht_map; [done..|]. cbn.
    intros key item Hk. destruct (proj1 (elem_of_dom (v_Map value) key)) as [x Hx].
    { rewrite <- Hdom. apply elem_of_dom. eauto. } eapply Helem, Hit; done.
  - destruct (IsMap value) eqn:Hm; [|done]. apply IsMap_true in Hm.
    destruct (unsupported_key _ _ _); [done|].
    intros (m & [Hdom Hit]%fill_map_Ok & [= <-])%bind_Ok. apply ht_object; [done|done| |]; cbn.
    { by rewrite Hdom, dom_fmap_L. }
    intros key item Hk. destruct (attributes !! key) as [a|] eqn:Ha.
    2:{ apply (f_equal (fun d : gset string => key ∈ d)) in Hdom. rewrite dom_fmap_L in Hdom.
        apply not_elem_of_dom in Ha. exfalso. apply Ha. rewrite <- Hdom. apply elem_of_dom. eauto. }
    exists a. split; [done|]. eapply Hit in Hk; [|by rewrite lookup_fmap, Ha]. cbn in Hk.
    destruct (v_Map value !! key); [by eapply IHa|]. destruct (a_Default a); [by eapply IHa|].
    destruct (a_Optional a); [|done]. injection Hk as <-. by apply ht_null.
  - destruct (IsList value) eqn:Hl; [|done]. apply IsList_true in Hl. case_bool_decide as Hlen; [|done].
    intros (items & [Hlen' Hit]%mapi_res_Ok & [= <-])%bind_Ok. rewrite length_zip, length_fmap in Hlen'.
    apply ht_tuple; [done..|cbn; lia|]. cbn. intros i t item Ht Hi.
    destruct (lookup_lt_is_Some_2 (v_List value) i) as [x Hx]; [apply lookup_lt_Some in Ht; lia|].
    eapply (IHt t); [by eapply list_elem_of_lookup_2|]. eapply (Hit i (_, x)); [|done].
    apply lookup_zip_Some. cbn. by rewrite list_lookup_fmap, Ht.
  - done.
Qed.

Lemma typed_normalize spec : forall name value path,
  has_type spec value -> normalize name spec value path = Ok value.
Proof.
  induction spec as [spec IHe IHa IHt] using type_nested_ind. intros name value path Ht.
  destruct (decide (v_Kind value = KindNull)) as [Hnull|Hnull].
  { destruct spec. cbn. by rewrite bool_decide_true. }
  assert (Hloop : forall l i (element : Value -> string -> result input_error Value),
    (forall item p, item ∈ l -> element item p = Ok item) ->
    mapi_res (fun i item => element item (item_path path i)) i l = Ok l).
  { intros l i element Hel. apply mapi_res_Ok. split; [done|]. intros j x y Hx Hy.
    assert (y = x) as -> by congruence. apply Hel. by eapply list_elem_of_lookup_2. }
  destruct spec as [k element attributes tuple]; cbn [t_Kind t_Element t_Attributes t_Tuple] in *.
  cbn [normalizeValueForType t_Kind t_Element t_Attributes t_Tuple]. rewrite bool_decide_false by done.
  inversion Ht as [| | | | |? ? Hk Hv Hit|? ? Hk Hv Hit Hs|? ? Hk Hv Hit|? ? Hk Hv Hdom Hit|? ? Hk Hv Hlen Hit];
    subst; cbn [t_Kind t_Element t_Attributes t_Tuple] in *; subst; try done;
    try (by rewrite bool_decide_true).
  - rewrite (proj2 (IsList_true value)) by done.
    rewrite (Hloop _ _ (fun item p =>
      match element with Some e => normalize name e item p | None => Err NilElement end)) by
      (intros item p Hin; destruct (Hit item Hin) as (e & -> & He); by apply IHe).
    rewrite Ok_bind, bool_decide_false by done. by rewrite with_list_id.
  - rewrite (proj2 (IsList_true value)) by done.
    rewrite (Hloop _ _ (fun item p =>
      match element with Some e => normalize name e item p | None => Err NilElement end)) by
      (intros item p Hin; destruct (Hit item Hin) as (e & -> & He); by apply IHe).
    rewrite Ok_bind, bool_decide_true by done. by rewrite set_items_id, with_list_id.
  - rewrite (proj2 (IsMap_true value)) by done.
    rewrite (proj2 (fill_map_Ok _ _ (v_Map value))); [rewrite Ok_bind; by rewrite with_map_id|].
    split; [done|]. intros key x y Hx Hy. assert (y = x) as -> by congruence.
    destruct (Hit key x Hx) as (e & -> & He). by apply IHe.
  - rewrite (proj2 (IsMap_true value)) by done.
    rewrite (proj2 (unsupported_None attributes (v_Map value)))
      by (intros key Hkey; by rewrite <- elem_of_dom, <- Hdom, elem_of_dom).
    rewrite (proj2 (fill_map_Ok _ _ (v_Map value))); [rewrite Ok_bind; by rewrite with_map_id|].
    split; [by rewrite dom_fmap_L|]. intros key f y Hf Hy. rewrite lookup_fmap in Hf.
    apply fmap_Some in Hf as (a & Ha & ->). cbn. rewrite Hy.
    destruct (Hit key y Hy) as (a' & Ha' & Hty). assert (a' = a) as -> by congruence. by eapply IHa.
  - rewrite (proj2 (IsList_true value)), bool_decide_true by done.
    rewrite (proj2 (mapi_res_Ok _ _ 0 (v_List value))); [rewrite Ok_bind; by rewrite with_list_id|].
    rewrite length_zip, length_fmap. split; [lia|]. intros j [f x] y Hp Hy.
    apply lookup_zip_Some in Hp as [Hf Hx]. cbn in *. rewrite list_lookup_fmap in Hf.
    apply fmap_Some in Hf as (t & Htj & ->). assert (y = x) as -> by congruence.
    eapply IHt; [by eapply list_elem_of_lookup_2|by eapply Hit].
Qed.

(** ** The two copies *)

(** The error of a component input, in the place of that of a variable. *)
Definition for_input (e : input_error) : input_error :=
  match e with
  | TypeConstraint _ source name path want got => TypeConstraint OfComponentInput source name path want got
  | UnsupportedAttribute _ source name path key => UnsupportedAttribute OfComponentInput source name path key
  | MissingAttribute _ source name path => MissingAttribute OfComponentInput source name path
  | TupleLength _ source name path want got => TupleLength OfComponentInput source name path want got
  | UnsupportedType _ source kind => UnsupportedType OfComponentInput source kind
  | MustNotBeNull _ source name => MustNotBeNull OfComponentInput source name
  | NilElement => NilElement
  end.

Lemma mapi_res_map_err {A B} (f g : nat -> A -> result input_error B) l : forall i,
  (forall i x, x ∈ l -> g i x = map_err for_input (f i x)) ->
  mapi_res g i l = map_err for_input (mapi_res f i l).
Proof.
  induction l as [|x l IH]; intros i Hfg; cbn [mapi_res]; [done|].
  rewrite Hfg by left. destruct (f i x); [|done]. cbn [map_err]. rewrite !Ok_bind, IH.
  - by destruct (mapi_res f (S i) l).
  - intros. apply Hfg. by right.
Qed.

Lemma fill_map_map_err {A B} (f : string -> A -> result input_error Value)
    (g : string -> B -> result input_error Value) (m : gmap string A) (m' : gmap string B) :
  dom m' = dom m ->
  (forall k x x', m !! k = Some x -> m' !! k = Some x' -> g k x' = map_err for_input (f k x)) ->
  fill_map g m' = map_err for_input (fill_map f m).
Proof.
  intros Hdom Hfg. unfold fill_map.
  rewrite (sorted_keys_dom m' m Hdom).
  generalize (∅ : gmap string Value). generalize (sorted_keys m) as keys.
  induction keys as [|key keys IH]; intros out; cbn [fold_res]; [done|].
  destruct (m !! key) as [x|] eqn:Hx, (m' !! key) as [x'|] eqn:Hx'.
  - rewrite (Hfg key x x' Hx Hx'). destruct (f key x); [apply IH|done].
  - apply not_elem_of_dom in Hx'. rewrite Hdom in Hx'. destruct Hx'. apply elem_of_dom. eauto.
  - apply not_elem_of_dom in Hx. rewrite <- Hdom in Hx. destruct Hx. apply elem_of_dom. eauto.
  - apply IH.
Qed.

Lemma zip_fmap_left {A B C} (g : A -> B) (l : list A) (k : list C) :
  zip (g <$> l) k = (fun p => (g p.1, p.2)) <$> zip l k.
Proof. revert k; induction l as [|x l IH]; intros [|y k]; cbn; [done..|]. by rewrite IH. Qed.

Lemma mapi_res_fmap {E A B C} (f : nat -> B -> result E C) (h : A -> B) l : forall i,
  mapi_res f i (h <$> l) = mapi_res (fun i x => f i (h x)) i l.
Proof. induction l as [|x l IH]; intros i; cbn; [done|]. by rewrite IH. Qed.

Lemma missing_source parent name path :
  v_Map parent !! name = None ->
  missingObjectAttributeSource parent name (attribute_path path name) =
  var_missing_source parent name (attribute_path path name).
Proof.
  intros Hn. unfold missingObjectAttributeSource, var_missing_source. rewrite Hn.
  rewrite bool_decide_false; [done|]. intros Hempty.
  unfold attribute_path in Hempty. destruct (src_Path _); [|done]. by destruct path.
Qed.

Lemma normalize_copies spec : forall name value path,
  normalizeComponentInputValue range_keys name spec value path =
  map_err for_input (normalize name spec value path).
Proof.
  induction spec as [spec IHe IHa IHt] using type_nested_ind. intros name value path.
  destruct spec as [k element attributes tuple]; cbn [t_Kind t_Element t_Attributes t_Tuple] in *.
  cbn [normalizeComponentInputValue normalizeValueForType t_Kind t_Element t_Attributes t_Tuple].
  assert (Helem : forall item p,
    match element with Some e => normalizeComponentInputValue range_keys name e item p | None => Err NilElement end =
    map_err for_input
      (match element with Some e => normalize name e item p | None => Err NilElement end)).
  { intros item p. destruct element as [e|]; [|done]. by apply IHe. }
  case_bool_decide; [done|]. unfold componentInputTypeError, typeConstraintError.
  destruct k; try (by case_bool_decide); try done.
  - destruct (IsList value); [|done]. rewrite (mapi_res_map_err (fun i item =>
      match element with Some e => normalize name e item (item_path path i) | None => Err NilElement end)) by auto.
    by destruct (mapi_res _ _ _).
  - destruct (IsList value); [|done]. rewrite (mapi_res_map_err (fun i item =>
      match element with Some e => normalize name e item (item_path path i) | None => Err NilElement end)) by auto.
    by destruct (mapi_res _ _ _).
  - destruct (IsMap value); [|done]. rewrite (fill_map_map_err (fun key item =>
      match element with Some e => normalize name e item (key_path path key) | None => Err NilElement end) _ (v_Map value)).
    + by destruct (fill_map _ _).
    + done.
    + intros key x x' Hx Hx'. assert (x' = x) as -> by congruence. apply Helem.
  - destruct (IsMap value); [|done]. destruct (unsupported_key _ _ _); [done|].
    match goal with |- _ = map_err for_input (fill_map ?f ?m ≫= _) =>
      rewrite (fill_map_map_err f _ m); [by destruct (fill_map f m)|by rewrite !dom_fmap_L|] end.
    intros key f g Hf Hg. rewrite !lookup_fmap in Hf, Hg.
    destruct (attributes !! key) as [a|] eqn:Ha; [|done]. injection Hf as <-. injection Hg as <-. cbn.
    destruct (v_Map value !! key) eqn:Hv; [by eapply IHa|]. destruct (a_Default a); [by eapply IHa|].
    destruct (a_Optional a); [|done]. by rewrite missing_source.
  - destruct (IsList value); [|done]. case_bool_decide; [|done]. rewrite !zip_fmap_left, !mapi_res_fmap.
    match goal with |- _ = map_err for_input (mapi_res ?f 0 ?l ≫= _) =>
      rewrite (mapi_res_map_err f); [by destruct (mapi_res f 0 l)|] end.
    intros i [t x] Hin. cbn.
    apply IHt. apply list_elem_of_lookup in Hin as [j Hj]. apply lookup_zip_Some in Hj as [Hj _].
    by eapply list_elem_of_lookup_2.
Qed.

(** C33: Normalization computes exactly the values of a type: whatever it
    returns has the type, and what has the type it returns unchanged, so that it
    is idempotent.  In particular sets come out strictly sorted by key, and
    objects with exactly the declared attributes. *)
Theorem normalizeValueForType_typed spec :
  (forall name value path r, normalize name spec value path = Ok r ->
     has_type spec r /\ forall name' path', normalize name' spec r path' = Ok r) /\
  (forall v, has_type spec v <-> forall name path, normalize name spec v path = Ok v).
Proof.
  split.
  - intros name value path r Hr. assert (Ht := normalize_typed _ _ _ _ _ Hr). split; [done|].
    intros. by apply typed_normalize.
  - intros v. split; [intros; by apply typed_normalize|]. intros H. by apply (normalize_typed _ "" v "").
Qed.

End props.

Lemma sorted_keys_range (m : gmap string Value) : sorted_keys m ≡ₚ sorted_keys m.
Proof. reflexivity. Qed.

(** A set of objects with a defaulted attribute, out of order and with a repeat. *)
Definition simple_type (k : ComponentInputTypeKind) : ComponentInputTypeSpec := mkType k None ∅ [].
Definition sample_type : ComponentInputTypeSpec :=
  mkType ComponentInputTypeSet
    (Some (mkType ComponentInputTypeObject None
       {["name" := {| a_Type := simple_type ComponentInputTypeString; a_Optional := false; a_Default := None |};
         "on" := {| a_Type := simple_type ComponentInputTypeBool; a_Optional := true;
                    a_Default := Some (mkValue KindBool "" true "" [] ∅ [] None None no_source
                                         ModifierNone false false) |}]} [])) ∅ [].
Definition sample_named (name : string) : Value :=
  MapValue {["name" := mkValue KindString name false "" [] ∅ [] None None no_source ModifierNone
                         false false]} no_source.
Definition sample_set (names : list string) : Value :=
  mkValue KindList "" false "" (sample_named <$> names) ∅ [] None None no_source ModifierNone false false.

Lemma normalizeValueForType_typed_witness :
  exists r, normalizeValueForType sorted_keys "v" sample_type (sample_set ["b"; "a"; "b"]) "" = Ok r /\
    length (v_List r) = 2 /\ has_type sample_type r.
Proof.
  eexists. split; [vm_compute; reflexivity|]. split; [vm_compute; reflexivity|].
  apply (proj1 (normalizeValueForType_typed sorted_keys sorted_keys_range sample_type)
           "v" (sample_set ["b"; "a"; "b"]) ""). vm_compute. reflexivity.
Defined.

(** The two copies of the normalization agree: on every type, value and path
    the one for component inputs returns what the one for variables returns,
    and an error is the same error about a component input. *)
Theorem normalize_copies_agree (range_keys : gmap string Value -> list string) spec name value path :
  normalizeComponentInputValue range_keys name spec value path =
  map_err for_input (normalizeValueForType range_keys name spec value path).
Proof. apply normalize_copies. Qed.
