(* ===== verification/Merge.v ===== *)
(** * Overlaying values and resolving profiles: [internal/core/merge]

    [merge_values.go]: [Merge] overlays one [parser.Value] on another under the
    modifiers [force], [before], [after] and [unset].  [merge_profiles.go]:
    [resolveProfile] merges the imports of a profile in order and its own body
    last, with a cache and the [visiting] marks of the profiles being resolved.
    [merge.go]: the part of [CompileWithOptions] that does the same for a host,
    and [movedSpecs]. *)
From S2P Require Import Prelude Sha256 GoValue IR Values.

(** ** Merging values *)

(** The formatted errors of [mergeValue], with the source they point at. *)
Inductive merge_error :=
| UnsetOnList (source : SourceRef)
| ModifierNeedsList (source : SourceRef) (modifier : Modifier).

Fixpoint parserValueToAny (value : Value) : goval :=
  match v_Kind value with
  | KindString => GStr (v_String value)
  | KindBool => GBool (v_Bool value)
  | KindNumber => GStr (v_Number value)
  | KindList => GList (parserValueToAny <$> v_List value)
  | KindMap => GMap (parserValueToAny <$> v_Map value)
  | KindNull | KindZero => GNil
  end.

Definition mergeMapOrder (base overlay : Value) : list string :=
  dedup (v_Order base ++ v_Order overlay).

Definition isKnownListPath (path : string) : bool :=
  existsb (strings_HasSuffix path) [".install"; ".modules"; ".repositories"].

(** The two loops of [appendDedup] share [seen] and the output. *)
Fixpoint dedup_values (seen : gset string) (l : list Value) : list Value :=
  match l with
  | [] => []
  | value :: l =>
      if decide (Key value ∈ seen) then dedup_values seen l
      else value :: dedup_values ({[Key value]} ∪ seen) l
  end.
Definition appendDedup (first second : list Value) : list Value := dedup_values ∅ (first ++ second).

Definition listValue (values : list Value) (source : SourceRef) : Value :=
  mkValue KindList "" false "" values ∅ [] None None source ModifierNone false false.

(** [before] and [after] on a value that is not a list are errors. *)
Definition check_list_modifier (overlay : Value) : result merge_error unit :=
  guard_or (negb (bool_decide (v_Modifier overlay = ModifierBefore \/ v_Modifier overlay = ModifierAfter))
            || IsList overlay)
    (ModifierNeedsList (v_Source overlay) (v_Modifier overlay)).

(** A read [m[key]] of a map: the zero value when the key is missing. *)
Definition map_get (m : gmap string Value) (key : string) : Value := default zeroValue (m !! key).

(** The loop over the overlay's sorted keys; [fs] holds, for each key of the
    overlay, the merge of a base value with that entry. *)
Definition merge_entries
    (fs : gmap string (Value -> result merge_error (option Value))) (m : gmap string Value)
  : result merge_error (gmap string Value) :=
  fold_res (fun m key =>
    match fs !! key with
    | Some f =>
        merged ← f (map_get m key);
        Ok (match merged with Some v => <[key := v]> m | None => delete key m end)
    | None => Ok m
    end) (sorted_keys fs) m.

(** [mergeValue]: [Ok None] is [keep = false]. *)
Fixpoint mergeValue (base overlay : Value) {struct overlay} : result merge_error (option Value) :=
  match v_Modifier overlay with
  | ModifierUnset =>
      if IsList base || isKnownListPath (src_Path (v_Source overlay))
      then Err (UnsetOnList (v_Source overlay))
      else Ok None
  | ModifierForce => Ok (Some (WithoutModifier overlay))
  | m =>
      if bool_decide (v_Kind base = KindZero) then
        _ ← check_list_modifier overlay;
        Ok (Some (WithoutModifier overlay))
      else if IsMap base && IsMap overlay then
        merged ← merge_entries ((fun o b => mergeValue b o) <$> v_Map overlay) (v_Map base);
        Ok (Some (with_order (mergeMapOrder base overlay) (MapValue merged (v_Source overlay))))
      else
        _ ← check_list_modifier overlay;
        if IsList base && IsList overlay then
          if bool_decide (m = ModifierBefore)
          then Ok (Some (listValue (appendDedup (v_List overlay) (v_List base)) (v_Source overlay)))
          else Ok (Some (listValue (appendDedup (v_List base) (v_List overlay)) (v_Source overlay)))
        else Ok (Some (WithoutModifier overlay))
  end.

Definition Merge (base overlay : Value) : result merge_error Value :=
  merged ← mergeValue base overlay;
  Ok (default (MapValue ∅ (v_Source overlay)) merged).

(** ** Profiles and hosts *)

Section profiles.
(** [parser.Assert] is carried along unread. *)
Context {Assert : Type}.

Record Profile := {
  prof_Name : string;
  prof_Source : SourceRef;
  prof_Imports : list string;
  prof_Body : Value;
  prof_Asserts : list Assert;
}.

Record Host := {
  hst_Name : string;
  hst_Source : SourceRef;
  hst_Imports : list string;
  hst_Body : Value;
  hst_Asserts : list Assert;
}.

Record resolvedProfile := { res_Body : Value; res_Asserts : list Assert }.

(** The mutable fields of [compiler]. *)
Record compiler := {
  profileCache : gmap string resolvedProfile;
  visiting : gset string;
}.
Definition new_compiler : compiler := {| profileCache := ∅; visiting := ∅ |}.

Inductive compile_error :=
| UnknownProfile (name : string)
| ImportCycle (source : SourceRef) (cycle : list string)
| ProfileImportFailed (source : SourceRef) (name importName : string) (e : merge_error)
| ProfileFailed (source : SourceRef) (name : string) (e : merge_error)
| HostImportFailed (source : SourceRef) (host importName : string) (e : merge_error)
| HostFailed (source : SourceRef) (host : string) (e : merge_error)
| DepthExceeded.

(** [cycleString]: the names of a cycle error as it prints them. *)
Definition cycleString (names : list string) : string :=
  String.concat " -> " ((fun name => "profile." +:+ name) <$> names).

Abbreviation C := (M compile_error compiler).

Definition mark (name : string) : C unit := fun c =>
  (Ok tt, {| profileCache := profileCache c; visiting := {[name]} ∪ visiting c |}).
Definition finish (name : string) (resolved : resolvedProfile) : C unit := fun c =>
  (Ok tt, {| profileCache := <[name := resolved]> (profileCache c);
             visiting := visiting c ∖ {[name]} |}).

(** The loop over the imports of a profile or host: [resolve] the import,
    overlay its body, append its assertions. *)
Definition merge_imports (resolve : string -> C resolvedProfile)
    (wrap : string -> merge_error -> compile_error) (imports : list string)
    (acc : Value * list Assert) : C (Value * list Assert) :=
  fold_M (fun acc importName =>
    imported ← resolve importName;
    merged ← lift (map_err (wrap importName) (Merge acc.1 (res_Body imported)));
    mret (merged, acc.2 ++ res_Asserts imported)) imports acc.

Variable Profiles : gmap string Profile.

Fixpoint resolveProfile (fuel : nat) (name : string) (stack : list string)
  : C resolvedProfile := fun c =>
  match profileCache c !! name with
  | Some cached => (Ok cached, c)
  | None =>
      match Profiles !! name with
      | None => (Err (UnknownProfile name), c)
      | Some profile =>
          if decide (name ∈ visiting c)
          then (Err (ImportCycle (prof_Source profile) (stack ++ [name])), c)
          else
            match fuel with
            | O => (Err DepthExceeded, c)
            | S fuel =>
                (_ ← mark name;
                 acc ← merge_imports (fun i => resolveProfile fuel i (stack ++ [name]))
                         (ProfileImportFailed (prof_Source profile) name)
                         (prof_Imports profile) (MapValue ∅ (prof_Source profile), []);
                 merged ← lift (map_err (ProfileFailed (prof_Source profile) name)
                                  (Merge acc.1 (prof_Body profile)));
                 let resolved := {| res_Body := merged;
                                    res_Asserts := acc.2 ++ prof_Asserts profile |} in
                 _ ← finish name resolved;
                 mret resolved) c
            end
      end
  end.

(** The first part of the loop over the hosts in [CompileWithOptions]: the
    host's merged body and its assertions.  A profile being resolved is marked,
    so that [resolveProfile] nests at most as deep as there are profiles. *)
Definition mergeHost (host : Host) : C (Value * list Assert) :=
  acc ← merge_imports (fun i => resolveProfile (size Profiles) i [])
          (HostImportFailed (hst_Source host) (hst_Name host))
          (hst_Imports host) (MapValue ∅ (hst_Source host), []);
  merged ← lift (map_err (HostFailed (hst_Source host) (hst_Name host))
                   (Merge acc.1 (hst_Body host)));
  mret (merged, acc.2 ++ hst_Asserts host).

End profiles.
Arguments Profile : clear implicits.
Arguments Host : clear implicits.
Arguments resolvedProfile : clear implicits.
Arguments compiler : clear implicits.

(** [movedSpecs]: the moves of the configuration, addressed on a host. *)
Record Moved := {
  moved_From : string;
  moved_To : string;
  moved_Source : SourceRef;
  moved_FromSource : SourceRef;
  moved_ToSource : SourceRef;
}.

Definition movedSpecs (moves : list Moved) (host : string) : list MovedSpec :=
  (fun move =>
     {| mv_From := "host." +:+ host +:+ ".components." +:+ moved_From move;
        mv_To := "host." +:+ host +:+ ".components." +:+ moved_To move;
        mv_Source := moved_Source move;
        mv_FromSource := moved_FromSource move;
        mv_ToSource := moved_ToSource move |}) <$> moves.
