(* ===== verification/Variables.v ===== *)
(** * Values of variables and component inputs: [parser/parse.go], [parser/variable.go],
    [merge/merge_components.go]

    [resolveVariableValues] chooses the value of each declared variable: the
    last external value given for it, or its default.  External values are
    parsed values, JSON or HCL text.  [componentInputValues] does the same for
    the inputs of a component instance. *)
From S2P Require Import Prelude Sha256 GoValue GoStrings IR Values InputType Merge.

(** ** JSON values *)

(** [strconv.ParseFloat(text, 64)] of a JSON number fails exactly when it is
    out of range: when its absolute value rounds to infinity, which it does from
    half a unit in the last place above the largest float64 on. *)
Fixpoint read_digits (acc : Z * Z) (step : Z) (l : list N) : (Z * Z) * list N :=
  match l with
  | b :: l' => if digit b then read_digits (10 * acc.1 + Z.of_N (b - 48), acc.2 + step)%Z step l'
               else (acc, l)
  | [] => (acc, [])
  end.

(** The mantissa and the decimal exponent of a valid number, without its sign. *)
Definition number_value (text : string) : Z * Z :=
  let '(acc, rest) := read_digits (0, 0)%Z 0 (skip_sign false (Sha256.bytes text)) in
  let '(acc, rest) := match rest with
    | b :: rest' => if (b =? 46)%N then read_digits acc (-1) rest' else (acc, rest)
    | [] => (acc, [])
    end in
  match rest with
  | _ :: rest' =>
      let negative := match rest' with b :: _ => (b =? 45)%N | [] => false end in
      let '(e, _) := read_digits (0, 0)%Z 0 (skip_sign true rest') in
      (acc.1, acc.2 + (if negative then - e.1 else e.1))%Z
  | [] => acc
  end.

Definition float_limit : Z := (2 ^ 1024 - 2 ^ 970)%Z.
Definition ParseFloat_ok (text : string) : bool :=
  let '(m, e) := number_value text in
  if (0 <=? e)%Z then (m * 10 ^ e <? float_limit)%Z else (m <? float_limit * 10 ^ (- e))%Z.

Inductive variable_error :=
| InputError (e : input_error)
| NumberOutOfRange (text : string)
| InvalidJSON (source : SourceRef) (name : string) (cause : option variable_error)
| InvalidHCL (source : SourceRef) (name : string)
| InvalidSensitive (source : SourceRef) (name : string)
| UnknownVariable (source : SourceRef) (name : string)
| VariableRequired (source : SourceRef) (name : string)
| UnknownInput (source : SourceRef) (name component : string)
| InputRequired (source : SourceRef) (component name : string).

(** An error of the values, or one of a validation. *)
Inductive checked_error (E : Type) :=
| ValueError (e : variable_error)
| ConditionError (e : E).
Arguments ValueError {E} e.
Arguments ConditionError {E} e.

Definition set_path (path : string) (source : SourceRef) : SourceRef :=
  {| src_File := src_File source; src_Line := src_Line source; src_Path := path |}.
Definition string_value (s : string) (source : SourceRef) : Value :=
  mkValue KindString s false "" [] ∅ [] None None source ModifierNone false false.

(** [jsonValueToValue], on what the decoder returns. *)
Fixpoint jsonValueToValue (decoded : literal) (source : SourceRef) : result variable_error Value :=
  match decoded with
  | LNull => Ok (NullValue source)
  | LStr s => Ok (string_value s source)
  | LBool b =>
      Ok (mkValue KindBool "" b "" [] ∅ [] None None source ModifierNone false false)
  | LNum text =>
      _ ← guard_or (ParseFloat_ok text) (NumberOutOfRange text);
      Ok (mkValue KindNumber "" false text [] ∅ [] None None source ModifierNone false false)
  | LList l =>
      items ← mapi_res (fun i (convert : SourceRef -> result variable_error Value) =>
                convert (set_path (item_path (src_Path source) i) source)) 0
                (jsonValueToValue <$> l);
      Ok (listValue items source)
  | LMap m =>
      items ← fill_map (fun key (convert : SourceRef -> result variable_error Value) =>
                convert (set_path (key_path (src_Path source) key) source))
                (jsonValueToValue <$> m);
      Ok (MapValue items source)
  end.

(** ** Variables *)

Record ExternalVariableValue := {
  ev_Name : string;
  ev_Value : string;
  ev_ParsedValue : option Value;
  ev_Source : SourceRef;
  ev_IgnoreUnknown : bool;
}.

Definition isComplexType (kind : ComponentInputTypeKind) : bool :=
  match kind with
  | ComponentInputTypeList | ComponentInputTypeSet | ComponentInputTypeMap
  | ComponentInputTypeObject | ComponentInputTypeTuple | ComponentInputTypeAny => true
  | _ => false
  end.

Definition looksLikeJSON (value : string) : bool :=
  let trimmed := strings_TrimSpace value in
  strings_HasPrefix trimmed "{" || strings_HasPrefix trimmed "[" || bool_decide (trimmed = "null").

Section resolve.
Variable range_keys : gmap string Value -> list string.
(** [json.Decoder] on one document with nothing after it, and the hcl
    library's evaluation of an expression. *)
Variable decode_json : string -> option literal.
Variable eval_hcl : string -> SourceRef -> option Value.

Definition parseJSONVariableValue (raw : string) (source : SourceRef) : result (option variable_error) Value :=
  match decode_json raw with
  | None => Err None
  | Some decoded => map_err Some (jsonValueToValue decoded source)
  end.

Definition parseExternalVariableValue (variable : VariableDecl) (item : ExternalVariableValue)
  : result variable_error Value :=
  let source :=
    if bool_decide (src_Path (ev_Source item) = "")
    then set_path ("cli.var." +:+ var_Name variable) (ev_Source item) else ev_Source item in
  let invalid e :=
    if var_Sensitive variable then InvalidSensitive source (var_Name variable) else e in
  if bool_decide (t_Kind (var_TypeSpec variable) = ComponentInputTypeString)
  then Ok (string_value (ev_Value item) source)
  else if isComplexType (t_Kind (var_TypeSpec variable)) && looksLikeJSON (ev_Value item) then
    map_err (fun cause => invalid (InvalidJSON source (var_Name variable) cause))
      (parseJSONVariableValue (ev_Value item) source)
  else of_option (invalid (InvalidHCL source (var_Name variable))) (eval_hcl (ev_Value item) source).

Definition external_value (variable : VariableDecl) (item : ExternalVariableValue)
  : result variable_error Value :=
  value ← match ev_ParsedValue item with
          | Some value => Ok value
          | None => parseExternalVariableValue variable item
          end;
  map_err InputError (NormalizeVariableValue range_keys variable value).

(** The first loop: the explicit values, with the last one of a name winning. *)
Fixpoint explicit_values (Variables : gmap string VariableDecl) (i : nat)
    (external : list ExternalVariableValue) (explicit : gmap string Value)
  : result variable_error (gmap string Value) :=
  match external with
  | [] => Ok explicit
  | item :: external =>
      match Variables !! ev_Name item with
      | None =>
          if ev_IgnoreUnknown item then explicit_values Variables (S i) external explicit
          else
            let source := if bool_decide (src_Path (ev_Source item) = "")
                          then set_path (item_path "cli.var" i) (ev_Source item) else ev_Source item in
            Err (UnknownVariable source (ev_Name item))
      | Some variable =>
          normalized ← external_value variable item;
          explicit_values Variables (S i) external (<[ev_Name item := normalized]> explicit)
      end
  end.

(** The body of the second loop. *)
Definition resolve_one (explicit : gmap string Value) (allowMissing : bool) (name : string)
    (variable : VariableDecl) : result variable_error (option Value) :=
  match explicit !! name with
  | Some value => Ok (Some value)
  | None =>
      match var_Default variable with
      | None =>
          if allowMissing then Ok None
          else Err (VariableRequired (var_Source variable) (var_Name variable))
      | Some dflt =>
          Some <$> map_err InputError (NormalizeVariableValue range_keys variable dflt)
      end
  end.

(** The configuration's [VariableValues] and [ExplicitVariableValues]. *)
Definition resolveVariableValues (Variables : gmap string VariableDecl)
    (external : list ExternalVariableValue) (allowMissing : bool)
  : result variable_error (gmap string Value * gset string) :=
  explicit ← explicit_values Variables 0 external ∅;
  values ← fold_res (fun (values : gmap string Value) name =>
    match Variables !! name with
    | None => Ok values
    | Some variable =>
        value ← resolve_one explicit allowMissing name variable;
        Ok (match value with Some v => <[name := v]> values | None => values end)
    end) (sorted_keys Variables) ∅;
  Ok (values, dom explicit).

End resolve.

(** ** Component inputs *)

(** The fields of [parser.ComponentInput], [Component] and [ComponentInstance]
    read here, over the validations of an input. *)
Record ComponentInput (V : Type) := {
  inp_Name : string;
  inp_TypeSpec : ComponentInputTypeSpec;
  inp_Default : option Value;
  inp_Sensitive : bool;
  inp_Nullable : bool;
  inp_Deprecated : string;
  inp_Validations : list V;
  inp_Source : SourceRef;
}.
Arguments inp_Name {V} _.
Arguments inp_TypeSpec {V} _.
Arguments inp_Default {V} _.
Arguments inp_Sensitive {V} _.
Arguments inp_Nullable {V} _.
Arguments inp_Deprecated {V} _.
Arguments inp_Validations {V} _.
Arguments inp_Source {V} _.
Record Component (V : Type) := { cmp_Name : string; cmp_Inputs : gmap string (ComponentInput V) }.
Arguments cmp_Name {V} _.
Arguments cmp_Inputs {V} _.
Record ComponentInstance := {
  ins_Name : string;
  ins_Inputs : gmap string Value;
  ins_Source : SourceRef;
}.

(** [ir.Warning] of a deprecated input. *)
Record Warning := { w_Source : SourceRef; w_component : string; w_input : string; w_text : string }.

Section inputs.
Variable range_keys : gmap string Value -> list string.
Context {V E : Type}.
Abbreviation ComponentInput := (ComponentInput V).
Abbreviation Component := (Component V).
(** [evaluateComponentInputValidations]: HCL conditions on the input's value. *)
Variable validate : ComponentInput -> Value -> result E unit.

Definition normalizeComponentInput (input : ComponentInput) (value : Value) : result input_error Value :=
  _ ← guard_or (negb (bool_decide (v_Kind value = KindNull)) || inp_Nullable input)
        (MustNotBeNull OfComponentInput (v_Source value) (inp_Name input));
  normalizeComponentInputValue range_keys (inp_Name input) (inp_TypeSpec input) value "".

Fixpoint validateComponentInputTypeSpecDefaults (inputName : string) (spec : ComponentInputTypeSpec)
    (path : string) {struct spec} : result input_error unit :=
  match t_Kind spec with
  | ComponentInputTypeList | ComponentInputTypeSet | ComponentInputTypeMap =>
      match t_Element spec with
      | Some e => validateComponentInputTypeSpecDefaults inputName e path
      | None => Ok tt
      end
  | ComponentInputTypeObject =>
      let checks := (fun a attrPath =>
        _ ← match a_Default a with
            | Some dflt =>
                _ ← normalizeComponentInputValue range_keys inputName (a_Type a) dflt attrPath; Ok tt
            | None => Ok tt
            end;
        validateComponentInputTypeSpecDefaults inputName (a_Type a) attrPath) <$> t_Attributes spec in
      fold_res (fun _ name =>
        match checks !! name with
        | Some check => check (attribute_path path name)
        | None => Ok tt
        end) (sorted_keys checks) tt
  | ComponentInputTypeTuple =>
      _ ← mapi_res (fun i check => check (item_path path i)) 0
            (validateComponentInputTypeSpecDefaults inputName <$> t_Tuple spec);
      Ok tt
  | _ => Ok tt
  end.

Definition value_error {A} (m : result input_error A) : result (checked_error E) A :=
  map_err (fun e => ValueError (InputError e)) m.

Definition validateComponentInputDefinition (input : ComponentInput) : result (checked_error E) unit :=
  _ ← match inp_Default input with
      | Some dflt =>
          normalized ← value_error (normalizeComponentInput input dflt); map_err ConditionError (validate input normalized)
      | None => Ok tt
      end;
  value_error (validateComponentInputTypeSpecDefaults (inp_Name input) (inp_TypeSpec input) "").

(** The maps and the warnings that the second loop builds. *)
Record input_values := {
  iv_values : gmap string Value;
  iv_json : gmap string goval;
  iv_warnings : list Warning;
}.

Definition component_input (template : Component) (instance : ComponentInstance) (acc : input_values)
    (name : string) (input : ComponentInput) : result (checked_error E) input_values :=
  value ← match ins_Inputs instance !! name with
          | Some value => Ok value
          | None => of_option (ValueError (InputRequired (ins_Source instance) (cmp_Name template) name))
                      (inp_Default input)
          end;
  normalized ← value_error (normalizeComponentInput input value);
  _ ← map_err ConditionError (validate input normalized);
  let normalized := if inp_Sensitive input then with_marks true false normalized else normalized in
  Ok {| iv_values := <[name := normalized]> (iv_values acc);
        iv_json := <[name := if inp_Sensitive input then GStr "<sensitive>"
                             else parserValueToAny normalized]> (iv_json acc);
        iv_warnings :=
          if negb (bool_decide (inp_Deprecated input = "")) && bool_decide (is_Some (ins_Inputs instance !! name))
          then iv_warnings acc ++ [{| w_Source := v_Source value; w_component := cmp_Name template;
                                      w_input := name; w_text := inp_Deprecated input |}]
          else iv_warnings acc |}.

Definition componentInputValues (template : Component) (instance : ComponentInstance)
  : result (checked_error E) input_values :=
  match unsupported_key range_keys (cmp_Inputs template) (ins_Inputs instance) with
  | Some name =>
      Err (ValueError (UnknownInput (from_option v_Source no_source (ins_Inputs instance !! name)) name
             (cmp_Name template)))
  | None =>
      fold_res (fun acc name =>
        match cmp_Inputs template !! name with
        | Some input => component_input template instance acc name input
        | None => Ok acc
        end) (sorted_keys (cmp_Inputs template))
        {| iv_values := ins_Inputs instance; iv_json := ∅; iv_warnings := [] |}
  end.

End inputs.
