(* ===== verification/Hcl.v ===== *)
(** * HCL: the interface of the library, and [parser/eval.go]

    [HCL] is what the parser uses of the hashicorp hcl and cty libraries: opaque
    expressions and values with their views.  The types of syntax trees keep the
    fields that the parser reads.  On top of it: conversions between [Value] and
    cty values, and [evalValue], which turns an expression into a [Value]. *)
From S2P Require Import Prelude Sha256 GoValue GoStrings IR Values InputType Merge.

(** ** The library *)

(** [hcl.Traverser]; the key of an index is kept when it is a known, non-null
    string. *)
Inductive traverser :=
| TraverseRoot (name : string)
| TraverseAttr (name : string)
| TraverseIndex (key : option string)
| TraverseOther.

(** [hcl.Traversal] with the position of [SourceRange]. *)
Record Traversal := {
  tr_steps : list traverser;
  tr_Filename : string;
  tr_Line : Z;
}.

(** [cty.Type], as far as the parser tells types apart. *)
Inductive cty_type :=
| CtyString | CtyBool | CtyNumber
| CtySequence    (** tuple or list *)
| CtySet
| CtyObject      (** object or map *)
| CtyOther (name : string).

(** The functions an expression can call: those of [hclEvalContext] in a module
    directory, those of [validationFunctions], or [contains] alone in an
    assertion. *)
Inductive function_table :=
| ModuleFunctions (dir : string)
| ValidationFunctions
| AssertionFunctions.

Class HCL := {
  hcl_expr : Type;
  cty : Type;
  (* syntax *)
  hcl_Call : hcl_expr -> option (string * list hcl_expr);
  hcl_ExprList : hcl_expr -> option (list hcl_expr);
  hcl_ExprMap : hcl_expr -> option (list (hcl_expr * hcl_expr));
  hcl_AbsTraversal : hcl_expr -> option (list traverser);
  hcl_Variables : hcl_expr -> list Traversal;
  hcl_Filename : hcl_expr -> string;
  hcl_Line : hcl_expr -> Z;
  hcl_size : hcl_expr -> nat;
  hcl_ValidIdentifier : string -> bool;
  (* evaluation; the error is the text of the diagnostics *)
  hcl_Value : function_table -> gmap string cty -> hcl_expr -> result string cty;
  (* values *)
  cty_Type : cty -> cty_type;
  cty_AsString : cty -> string;
  cty_True : cty -> bool;
  cty_NumberText : cty -> string;
  cty_Elements : cty -> list (string * cty);
  cty_IsKnown : cty -> bool;
  cty_IsNull : cty -> bool;
  cty_size : cty -> nat;
  cty_HasMark : string -> cty -> bool;
  cty_DeepMarks : cty -> gset string;
  cty_UnmarkDeep : cty -> cty;
  cty_Mark : string -> cty -> cty;
  cty_ConvertString : cty -> result string cty;
  cty_NullVal : cty;
  cty_NullBool : cty;            (* NullVal(Bool) *)
  cty_UnknownString : cty;       (* UnknownVal(String) *)
  cty_NumberIntVal : Z -> cty;
  cty_StringVal : string -> cty;
  cty_BoolVal : bool -> cty;
  cty_ParseNumberVal : string -> result string cty;
  cty_TupleVal : list cty -> cty;
  cty_ObjectVal : gmap string cty -> cty;
}.

(** The parts of an expression, and the elements of a value, are smaller than
    the whole: both are finite trees. *)
Class HCLSizes `{HCL} := {
  call_size : forall e name args a, hcl_Call e = Some (name, args) -> a ∈ args -> hcl_size a < hcl_size e;
  list_size : forall e items a, hcl_ExprList e = Some items -> a ∈ items -> hcl_size a < hcl_size e;
  map_size : forall e pairs p, hcl_ExprMap e = Some pairs -> p ∈ pairs -> hcl_size p.2 < hcl_size e;
  element_size : forall v p, p ∈ cty_Elements v -> cty_size p.2 < cty_size v;
  unmark_size : forall v, cty_size (cty_UnmarkDeep v) = cty_size v;
}.

(** [hclsyntax.Attribute], [Block] and [Body]: the fields that the parser
    reads, ranges by their first line. *)
Record Attribute `{HCL} := {
  at_Expr : hcl_expr;
  at_Filename : string;
  at_Line : Z;
}.

Inductive Block `{HCL} := mkBlock {
  bl_Type : string;
  bl_Labels : list string;
  bl_Line : Z;
  bl_Body : Body;
}
with Body `{HCL} := mkBody {
  bd_Attributes : gmap string Attribute;
  bd_Blocks : list Block;
  bd_Line : Z;
}.

(** The order in which Go ranges over the attributes of a body. *)
Class AttrOrder `{HCL} := {
  range_attrs : gmap string Attribute -> list (string * Attribute);
  range_attrs_perm : forall m, range_attrs m ≡ₚ map_to_list m;
}.

(** ** Errors

    The parser's messages, with the parts that the formats print before them.
    [ShapeError] is a message on the structure of a block, whatever its
    expressions mean. *)
Inductive parse_error :=
| ShapeError (file : string) (line : Z) (message : string)
| At (file : string) (line : Z) (message : string)
| AtSource (source : SourceRef) (message : string)
| Plain (message : string)
| Within (file : string) (line : Z) (path : string) (cause : parse_error)
| Prefixed (prefix : string) (cause : parse_error)
| OutOfFuel.

Abbreviation P := (result parse_error).

Definition quoted (s : string) : string := strconv_Quote s.

(** ** Conversions: [value.go] *)

Definition SensitiveMark : string := "debianform:sensitive".
Definition EphemeralMark : string := "debianform:ephemeral".

Section values.
Context `{HCL}.

Definition mark_if (b : bool) (mark : string) (v : cty) : cty := if b then cty_Mark mark v else v.

(** [ToCty] around [toCty]. *)
Fixpoint ToCty (v : Value) : P cty :=
  converted ← match v_Kind v with
    | KindNull => Ok cty_NullVal
    | KindString => Ok (cty_StringVal (v_String v))
    | KindBool => Ok (cty_BoolVal (v_Bool v))
    | KindNumber => map_err Plain (cty_ParseNumberVal (v_Number v))
    | KindList => cty_TupleVal <$> seq_res (ToCty <$> v_List v)
    | KindMap =>
        entries ← seq_res ((fun p => x ← p.2; Ok (p.1, x)) <$> sorted_entries (ToCty <$> v_Map v));
        Ok (cty_ObjectVal (list_to_map entries))
    | KindZero => Err (Plain ("unsupported value kind " +:+ quoted ""))
    end;
  Ok (mark_if (v_Ephemeral v) EphemeralMark (mark_if (v_Sensitive v) SensitiveMark converted)).

Definition rejectEphemeralCollectionKeys (value : cty) : result string unit :=
  if cty_HasMark EphemeralMark value then
    match cty_Type value with
    | CtyObject => Err "map key cannot use ephemeral values"
    | CtySet => Err "set element cannot use ephemeral values"
    | _ => Ok tt
    end
  else Ok tt.

Definition containsMark (value : cty) (mark : string) : bool :=
  cty_HasMark mark value || bool_decide (mark ∈ cty_DeepMarks value).

Definition ContainsMarked (value : cty) : bool := negb (bool_decide (cty_DeepMarks value = ∅)).

(** [path[i]] and [path[key]] of a position. *)
Definition at_index (source : SourceRef) (i : nat) : SourceRef :=
  {| src_File := src_File source; src_Line := src_Line source; src_Path := item_path (src_Path source) i |}.
Definition at_key (source : SourceRef) (key : string) : SourceRef :=
  {| src_File := src_File source; src_Line := src_Line source; src_Path := key_path (src_Path source) key |}.
Definition at_line (line : Z) (source : SourceRef) : SourceRef :=
  {| src_File := src_File source; src_Line := line; src_Path := src_Path source |}.

Definition scalar (kind : Kind) (s : string) (b : bool) (number : string) (source : SourceRef) : Value :=
  mkValue kind s b number [] ∅ [] None None source ModifierNone false false.

Fixpoint ctyToValue_ (fuel : nat) (value : cty) (source : SourceRef) : P Value :=
  match fuel with
  | O => Err OutOfFuel
  | S fuel =>
      _ ← map_err (AtSource source) (rejectEphemeralCollectionKeys value);
      let sensitive := ContainsMarked value in
      let ephemeral := containsMark value EphemeralMark in
      let value := cty_UnmarkDeep value in
      let at_source message := At (src_File source) (src_Line source) message in
      if negb (cty_IsKnown value) then Err (at_source "unknown values are not supported")
      else
        out ← (if cty_IsNull value then Ok (NullValue source)
          else match cty_Type value with
          | CtyString => Ok (scalar KindString (cty_AsString value) false "" source)
          | CtyBool => Ok (scalar KindBool "" (cty_True value) "" source)
          | CtyNumber => Ok (scalar KindNumber "" false (cty_NumberText value) source)
          | CtySequence | CtySet =>
              items ← mapi_res (fun i p => ctyToValue_ fuel p.2 (at_index source i)) 0 (cty_Elements value);
              Ok (listValue items source)
          | CtyObject =>
              items ← fold_res (fun out p =>
                converted ← ctyToValue_ fuel p.2 (at_key source p.1);
                Ok (<[p.1 := converted]> out)) (cty_Elements value) ∅;
              Ok (MapValue items source)
          | CtyOther name => Err (at_source ("unsupported value type " +:+ name))
          end);
        Ok (with_marks sensitive ephemeral out)
  end.
Definition ctyToValue (value : cty) (source : SourceRef) : P Value :=
  ctyToValue_ (S (cty_size value)) value source.

End values.

(** ** Evaluation: [eval.go] *)

Record EvalContext `{HCL} := {
  ec_ModuleDir : string;
  ec_Locals : gmap string Value;
  ec_Variables : gmap string cty;
  ec_RestrictVariableDefaultReferences : bool;
}.

Section eval.
Context `{HCL}.

Definition convert_local (name : string) (value : Value) : P cty :=
  map_err (Prefixed ("local." +:+ name +:+ ": ")) (ToCty value).

(** The variables of [hclEvalContext].  Go ranges over the locals in any order:
    only which of several failing conversions is reported depends on it. *)
Definition hclEvalContext (ctx : EvalContext) : P (gmap string cty) :=
  locals ← seq_res ((fun p => x ← convert_local p.1 p.2; Ok (p.1, x)) <$> sorted_entries (ec_Locals ctx));
  let vars := <["path" := cty_ObjectVal {["module" := cty_StringVal (ec_ModuleDir ctx)]}]>
              {["local" := cty_ObjectVal (list_to_map locals)]} in
  Ok (ec_Variables ctx ∪ vars).

Definition module_value (ctx : EvalContext) (vars : gmap string cty) (e : hcl_expr) : P cty :=
  map_err Plain (hcl_Value (ModuleFunctions (ec_ModuleDir ctx)) vars e).

Definition evalCty (e : hcl_expr) (ctx : EvalContext) : P cty :=
  vars ← hclEvalContext ctx; module_value ctx vars e.

Definition removedSystemPlatformAlias (steps : list traverser) : option (string * string) :=
  match steps with
  | TraverseRoot root :: TraverseAttr first :: TraverseAttr second :: _ =>
      if bool_decide (root = "target" \/ root = "self") && bool_decide (first = "system")
         && bool_decide (second = "architecture" \/ second = "codename")
      then Some (root +:+ ".system." +:+ second, root +:+ ".platform." +:+ second) else None
  | _ => None
  end.

Definition RemovedSystemPlatformAliasError (e : hcl_expr) (source : SourceRef) : P unit :=
  fold_res (fun _ t =>
    match removedSystemPlatformAlias (tr_steps t) with
    | None => Ok tt
    | Some (legacy, replacement) =>
        let line := if bool_decide (tr_Line t = 0%Z) then src_Line source else tr_Line t in
        let file := if bool_decide (tr_Filename t = "") then src_File source else tr_Filename t in
        Err (AtSource {| src_File := file; src_Line := line; src_Path := src_Path source |}
               (legacy +:+ " is no longer supported; use " +:+ replacement))
    end) (hcl_Variables e) tt.

Definition list_modifier (name : string) : option Modifier :=
  if bool_decide (name = "force") then Some ModifierForce
  else if bool_decide (name = "before") then Some ModifierBefore
  else if bool_decide (name = "after") then Some ModifierAfter
  else None.

Definition with_source (source : SourceRef) (v : Value) : Value :=
  mkValue (v_Kind v) (v_String v) (v_Bool v) (v_Number v) (v_List v) (v_Map v) (v_Order v)
    (v_ScriptReference v) (v_ResourceReference v) source (v_Modifier v) (v_Sensitive v) (v_Ephemeral v).

(** The key of an entry of an object expression. *)
Definition eval_key (ctx : EvalContext) (vars : gmap string cty) (source : SourceRef) (e : hcl_expr) : P string :=
  let fail prefix cause := Within (src_File source) (hcl_Line e) prefix cause in
  key ← map_err (fail "map key") (module_value ctx vars e);
  _ ← guard_or (negb (containsMark key EphemeralMark))
        (At (src_File source) (hcl_Line e) "map key cannot use ephemeral values");
  key ← map_err (fun text => fail "map key must be a string" (Plain text)) (cty_ConvertString key);
  Ok (cty_AsString key).

Fixpoint evalValue_ (fuel : nat) (e : hcl_expr) (ctx : EvalContext) (source : SourceRef) : P Value :=
  match fuel with
  | O => Err OutOfFuel
  | S fuel =>
      let at_source message := At (src_File source) (src_Line source) message in
      let plain :=
        match hcl_ExprList e with
        | Some items =>
            values ← mapi_res (fun i item =>
              evalValue_ fuel item ctx (at_line (hcl_Line item) (at_index source i))) 0 items;
            Ok (listValue values source)
        | None =>
            match hcl_ExprMap e with
            | Some pairs =>
                vars ← hclEvalContext ctx;
                values ← fold_res (fun values p =>
                  key ← eval_key ctx vars source p.1;
                  value ← evalValue_ fuel p.2 ctx (at_line (hcl_Line p.2) (at_key source key));
                  Ok (<[key := value]> values)) pairs ∅;
                Ok (MapValue values source)
            | None =>
                _ ← RemovedSystemPlatformAliasError e source;
                value ← evalCty e ctx;
                ctyToValue value source
            end
        end in
      match hcl_Call e with
      | Some (name, args) =>
          if bool_decide (name = "unset") then
            _ ← guard_or (bool_decide (args = [])) (at_source "unset() takes no arguments");
            Ok (with_modifier ModifierUnset (NullValue source))
          else match list_modifier name with
          | Some modifier =>
              match args with
              | [arg] =>
                  value ← evalValue_ fuel arg ctx source;
                  Ok (with_source source (with_modifier modifier value))
              | _ => Err (at_source (name +:+ "() takes exactly one argument"))
              end
          | None => plain
          end
      | None => plain
      end
  end.
Definition evalValue (e : hcl_expr) (ctx : EvalContext) (source : SourceRef) : P Value :=
  evalValue_ (S (hcl_size e)) e ctx source.

End eval.

(** ** A small instance

    Literals, lists, references and calls, with values that carry their marks:
    enough to evaluate the definitions above on examples. *)
Module Toy.

Inductive value := TC (marks : gset string) (node : node)
with node := TNull | TUnknown | TStr (s : string) | TBool (b : bool) | TNum (text : string)
| TSeq (l : list value) | TObj (l : list (string * value)).

Inductive expr := ELit (line : Z) (v : value) | EList (line : Z) (l : list expr)
| ERef (line : Z) (root : string) (steps : list traverser) | ECall (line : Z) (name : string) (args : list expr).

Fixpoint value_size (v : value) : nat :=
  match v with
  | TC _ (TSeq l) => S (sum_list (value_size <$> l))
  | TC _ (TObj l) => S (sum_list ((fun p => value_size p.2) <$> l))
  | _ => 1
  end.
Fixpoint expr_size (e : expr) : nat :=
  match e with
  | EList _ l | ECall _ _ l => S (sum_list (expr_size <$> l))
  | _ => 1
  end.

Fixpoint deep_marks (v : value) : gset string :=
  match v with
  | TC marks (TSeq l) => marks ∪ ⋃ (deep_marks <$> l)
  | TC marks (TObj l) => marks ∪ ⋃ ((fun p => deep_marks p.2) <$> l)
  | TC marks _ => marks
  end.
Fixpoint unmark_deep (v : value) : value :=
  match v with
  | TC _ (TSeq l) => TC ∅ (TSeq (unmark_deep <$> l))
  | TC _ (TObj l) => TC ∅ (TObj ((fun p => (p.1, unmark_deep p.2)) <$> l))
  | TC _ n => TC ∅ n
  end.

Definition line_of (e : expr) : Z :=
  match e with ELit line _ | EList line _ | ERef line _ _ | ECall line _ _ => line end.

Fixpoint variables (e : expr) : list Traversal :=
  match e with
  | ELit _ _ => []
  | EList _ l | ECall _ _ l => concat (variables <$> l)
  | ERef line root steps =>
      [{| tr_steps := TraverseRoot root :: steps; tr_Filename := ""; tr_Line := line |}]
  end.

Definition step_name (t : traverser) : option string :=
  match t with TraverseAttr name | TraverseIndex (Some name) => Some name | _ => None end.

Fixpoint walk (v : value) (steps : list traverser) : result string value :=
  match steps with
  | [] => Ok v
  | step :: steps =>
      match v, step_name step with
      | TC _ (TObj l), Some name =>
          match list_find (fun p => p.1 = name) l with
          | Some (_, p) => walk p.2 steps
          | None => Err ("no attribute " +:+ name)
          end
      | _, _ => Err "not an object"
      end
  end.

Fixpoint eval (vars : gmap string value) (e : expr) : result string value :=
  match e with
  | ELit _ v => Ok v
  | EList _ l => (fun vs => TC ∅ (TSeq vs)) <$> seq_res (eval vars <$> l)
  | ERef _ root steps =>
      v ← of_option ("unknown variable " +:+ root) (vars !! root); walk v steps
  | ECall _ name _ => Err ("unknown function " +:+ name)
  end.

#[export] Instance toy : HCL := {|
  hcl_expr := expr;
  cty := value;
  hcl_Call e := match e with ECall _ name args => Some (name, args) | _ => None end;
  hcl_ExprList e := match e with EList _ l => Some l | _ => None end;
  hcl_ExprMap _ := None;
  hcl_AbsTraversal e :=
    match e with ERef _ root steps => Some (TraverseRoot root :: steps) | _ => None end;
  hcl_Variables := variables;
  hcl_Filename _ := "";
  hcl_Line := line_of;
  hcl_size := expr_size;
  hcl_ValidIdentifier s := negb (bool_decide (s = ""));
  hcl_Value _ := eval;
  cty_Type v := match v with
    | TC _ (TStr _) => CtyString | TC _ (TBool _) => CtyBool | TC _ (TNum _) => CtyNumber
    | TC _ (TSeq _) => CtySequence | TC _ (TObj _) => CtyObject | TC _ TNull => CtyOther "dynamic" | TC _ TUnknown => CtyString end;
  cty_AsString v := match v with TC _ (TStr s) => s | _ => "" end;
  cty_True v := match v with TC _ (TBool b) => b | _ => false end;
  cty_NumberText v := match v with TC _ (TNum s) => s | _ => "" end;
  cty_Elements v := match v with TC _ (TSeq l) => pair "" <$> l | TC _ (TObj l) => l | _ => [] end;
  cty_IsKnown v := match v with TC _ TUnknown => false | _ => true end;
  cty_IsNull v := match v with TC _ TNull => true | _ => false end;
  cty_size := value_size;
  cty_HasMark mark v := match v with TC marks _ => bool_decide (mark ∈ marks) end;
  cty_DeepMarks := deep_marks;
  cty_UnmarkDeep := unmark_deep;
  cty_Mark mark v := match v with TC marks n => TC ({[mark]} ∪ marks) n end;
  cty_ConvertString v := match v with TC _ (TStr _) => Ok v | _ => Err "string required" end;
  cty_NullVal := TC ∅ TNull;
  cty_NullBool := TC ∅ TNull;
  cty_UnknownString := TC ∅ TUnknown;
  cty_NumberIntVal n := TC ∅ (TNum (pretty n));
  cty_StringVal s := TC ∅ (TStr s);
  cty_BoolVal b := TC ∅ (TBool b);
  cty_ParseNumberVal text := Ok (TC ∅ (TNum text));
  cty_TupleVal l := TC ∅ (TSeq l);
  cty_ObjectVal m := TC ∅ (TObj (sorted_entries m));
|}.

Lemma size_in {A} (f : A -> nat) (l : list A) a : a ∈ l -> f a <= sum_list (f <$> l).
Proof. induction 1; cbn; lia. Qed.

Fixpoint unmark_size_eq (v : value) : value_size (unmark_deep v) = value_size v.
Proof.
  destruct v as [m [| | | | |l|l]]; try reflexivity; cbn; f_equal; f_equal.
  - induction l as [|x l IH]; [reflexivity|]. cbn. f_equal; [apply unmark_size_eq|exact IH].
  - induction l as [|x l IH]; [reflexivity|]. cbn. f_equal; [apply unmark_size_eq|exact IH].
Qed.

#[export] Instance toy_sizes : HCLSizes.
Proof.
  split.
  - intros e name args a He Ha. destruct e; try discriminate He. injection He as <- <-. cbn.
    pose proof (size_in expr_size _ _ Ha). lia.
  - intros e items a He Ha. destruct e; try discriminate He. injection He as <-. cbn.
    pose proof (size_in expr_size _ _ Ha). lia.
  - done.
  - intros v p Hp. destruct v as [m [| | | | |l|l]]; cbn in Hp; try by apply elem_of_nil in Hp.
    + apply list_elem_of_fmap in Hp as (x & -> & Hx). cbn. pose proof (size_in value_size _ _ Hx). lia.
    + cbn. pose proof (size_in (fun p => value_size p.2) _ _ Hp). cbn in *. lia.
  - apply unmark_size_eq.
Qed.

#[export] Instance toy_order : AttrOrder := {| range_attrs m := map_to_list m; range_attrs_perm m := reflexivity _ |}.

End Toy.
