(* ===== verification/Parse.v ===== *)
(** * Blocks of hosts, profiles and components: [parser/parse.go]

    Every kind of block has a reader, which evaluates its attributes and yields
    a [Value], and most have a validator of their shape, which does not
    evaluate.  The parameter of a reader that names the file is part of every
    error. *)
From S2P Require Import Prelude Sha256 GoValue GoStrings IR Values InputType Merge Hcl.

Section parse.
Context `{!HCL} {order : AttrOrder}.

(** ** What the functions share *)

Definition source_at (file : string) (line : Z) (path : string) : SourceRef :=
  {| src_File := file; src_Line := line; src_Path := path |}.

Definition blockSource (file path : string) (block : Block) : SourceRef :=
  source_at file (bl_Line block) path.

Definition attributes (block : Block) : gmap string Attribute := bd_Attributes (bl_Body block).
Definition blocks (block : Block) : list Block := bd_Blocks (bl_Body block).

(** [if len(block.Labels) != 0] *)
Definition no_labels (file what : string) (block : Block) : P unit :=
  guard_or (bool_decide (bl_Labels block = [])) (ShapeError file (bl_Line block) (what +:+ " block must not have labels")).

(** [if len(block.Body.Blocks) != 0] *)
Definition no_nested (file path : string) (block : Block) : P unit :=
  match blocks block with
  | [] => Ok tt
  | nested :: _ => Err (ShapeError file (bl_Line nested) (path +:+ " does not support nested blocks"))
  end.

(** [if len(child.Labels) != 1], and the label. *)
Definition one_label (file what : string) (block : Block) : P string :=
  match bl_Labels block with
  | [label] => Ok label
  | _ => Err (ShapeError file (bl_Line block) (what +:+ " block requires exactly one label"))
  end.

Definition unsupported_attribute (file path name : string) (attr : Attribute) : parse_error :=
  ShapeError file (at_Line attr) ("unsupported attribute " +:+ path +:+ "." +:+ name).
Definition unsupported_block (file path : string) (block : Block) : parse_error :=
  ShapeError file (bl_Line block) ("unsupported block " +:+ path +:+ "." +:+ bl_Type block).
Definition duplicate_block (file path name : string) (block : Block) : parse_error :=
  ShapeError file (bl_Line block) ("duplicate " +:+ path +:+ "." +:+ name +:+ " block").
Definition duplicate_object (file object_path : string) (block : Block) : parse_error :=
  ShapeError file (bl_Line block) ("duplicate " +:+ object_path).

(** [fmt.Sprintf("%s.%s[%s]", path, typ, strconv.Quote(label))] *)
Definition object_path (path typ label : string) : string :=
  path +:+ "." +:+ typ +:+ "[" +:+ quoted label +:+ "]".

(** The loop of a validator over the attributes. *)
Definition check_attrs (file path : string) (allowed : list string) (block : Block) : P unit :=
  fold_res (fun _ p => guard_or (bool_decide (p.1 ∈ allowed)) (unsupported_attribute file path p.1 p.2))
    (range_attrs (attributes block)) tt.

(** The evaluation of one attribute, and its error. *)
Definition eval_attr (file path : string) (ctx : EvalContext) (name : string) (attr : Attribute) : P Value :=
  let source := source_at file (at_Line attr) (path +:+ "." +:+ name) in
  map_err (Within file (at_Line attr) (path +:+ "." +:+ name)) (evalValue (at_Expr attr) ctx source).

(** The loop of a reader over the attributes. *)
Definition read_attrs (file path : string) (allowed : string -> bool) (read : string -> Attribute -> P Value)
    (block : Block) : P (gmap string Value) :=
  fold_res (fun values p =>
    _ ← guard_or (allowed p.1) (unsupported_attribute file path p.1 p.2);
    value ← read p.1 p.2;
    Ok (<[p.1 := value]> values)) (range_attrs (attributes block)) ∅.

Definition eval_attrs (file path : string) (allowed : list string) (ctx : EvalContext) (block : Block)
  : P (gmap string Value) :=
  read_attrs file path (fun name => bool_decide (name ∈ allowed)) (eval_attr file path ctx) block.

(** A block that may occur once. *)
Definition read_once (file path name : string) (block : Block) (values : gmap string Value) (read : P Value)
  : P (gmap string Value) :=
  match values !! name with
  | Some _ => Err (duplicate_block file path name block)
  | None => value ← read; Ok (<[name := value]> values)
  end.

Definition check_once (file path name : string) (block : Block) (seen : gset string) (check : P unit)
  : P (gset string) :=
  if bool_decide (name ∈ seen) then Err (duplicate_block file path name block)
  else _ ← check; Ok ({[name]} ∪ seen).

(** The map value under [name], a new one if there is none. *)
Definition collection_of (file path name : string) (block : Block) (values : gmap string Value) : Value :=
  match values !! name with
  | Some collection => collection
  | None => MapValue ∅ (source_at file (bl_Line block) (path +:+ "." +:+ name))
  end.

(** An object of a collection, read before the check for duplicates. *)
Definition add_object (file path name label : string) (block : Block) (object : Value) (values : gmap string Value)
  : P (gmap string Value) :=
  let collection := collection_of file path name block values in
  match v_Map collection !! label with
  | Some _ => Err (duplicate_object file (object_path path name label) block)
  | None => Ok (<[name := with_map (<[label := object]> (v_Map collection)) collection]> values)
  end.

Definition block_value (file path : string) (block : Block) (values : gmap string Value) : Value :=
  MapValue values (blockSource file path block).

(** ** Lifecycle and signing keys *)

Definition validateLifecycleBlockShape (file path : string) (block : Block) : P unit :=
  _ ← no_labels file path block;
  _ ← no_nested file path block;
  check_attrs file path ["prevent_destroy"] block.

Definition parseLifecycleBlock (file path : string) (block : Block) (ctx : EvalContext) : P Value :=
  _ ← no_labels file path block;
  _ ← no_nested file path block;
  values ← eval_attrs file path ["prevent_destroy"] ctx block;
  Ok (block_value file path block values).

Definition signing_key_attrs : list string := ["url"; "content"; "sha256"; "path"].

Definition validateSigningKeyBlockShape (file path : string) (block : Block) : P unit :=
  _ ← no_labels file path block;
  _ ← no_nested file path block;
  check_attrs file path signing_key_attrs block.

Definition parseSigningKeyBlock (file path : string) (block : Block) (ctx : EvalContext) : P Value :=
  _ ← no_labels file path block;
  _ ← no_nested file path block;
  values ← eval_attrs file path signing_key_attrs ctx block;
  Ok (block_value file path block values).

(** ** References *)

Definition parseScriptTraversal (file : string) (e : hcl_expr) : P ScriptReference :=
  let fail := Err (At file (hcl_Line e) "script reference must be script.<name> or global.script.<name>") in
  match hcl_AbsTraversal e with
  | Some [TraverseRoot root; TraverseAttr name] =>
      if bool_decide (root = "script") && negb (bool_decide (name = ""))
      then Ok {| sref_Name := name; sref_Scope := ScriptReferenceAuto; sref_Source := no_source |} else fail
  | Some [TraverseRoot root; TraverseAttr script; TraverseAttr name] =>
      if bool_decide (root = "global") && bool_decide (script = "script") && negb (bool_decide (name = ""))
      then Ok {| sref_Name := name; sref_Scope := ScriptReferenceGlobal; sref_Source := no_source |} else fail
  | _ => fail
  end.

Definition parseResourceTraversal (file : string) (e : hcl_expr) (source : SourceRef) : P ResourceReference :=
  let fail message := Err (AtSource (source_at file (hcl_Line e) (src_Path source)) message) in
  match hcl_AbsTraversal e with
  | Some [first; second] =>
      match first with
      | TraverseRoot root =>
          if bool_decide (root ∈ ["package"; "file"; "service"; "artifact"]) then
            let name := match second with
              | TraverseAttr name => name
              | TraverseIndex (Some key) => key
              | _ => ""
              end in
            if bool_decide (name = "") then fail "depends_on resource label must be a non-empty static string"
            else Ok {| rref_Type := root; rref_Name := name; rref_Source := source |}
          else fail "depends_on reference type is out of scope; supported types are package, file, service, and artifact"
      | _ => fail "depends_on reference type is out of scope; supported types are package, file, service, and artifact"
      end
  | _ => fail "depends_on entry must be package.<name>, file[<label>], service.<name>, or artifact[<path>]"
  end.

Definition resource_value (ref : ResourceReference) (source : SourceRef) : Value :=
  mkValue KindString (rref_Type ref +:+ "[" +:+ quoted (rref_Name ref) +:+ "]") false "" [] ∅ [] None (Some ref) source
    ModifierNone false false.

(** [seen] keys are the type and the name, which a NUL byte separates. *)
Definition parseResourceReferenceList (file : string) (e : hcl_expr) (source : SourceRef) : P Value :=
  match hcl_ExprList e with
  | None => Err (AtSource (source_at file (hcl_Line e) (src_Path source)) "depends_on must be a list of resource references")
  | Some items =>
      refs ← mapi_res (fun i item =>
        let itemSource := at_line (hcl_Line item) (at_index source i) in
        ref ← parseResourceTraversal file item itemSource; Ok (ref, itemSource)) 0 items;
      let kept := fold_left (fun acc p =>
        let key := (rref_Type p.1, rref_Name p.1) in
        if bool_decide (key ∈ acc.1) then acc else ({[key]} ∪ acc.1, acc.2 ++ [resource_value p.1 p.2]))
        refs (∅ : gset (string * string), []) in
      Ok (listValue kept.2 source)
  end.

(** A reference to a script, as the value of the attribute at [source]. *)
Definition script_value (ref : ScriptReference) (source : SourceRef) : Value :=
  mkValue KindString (sref_Name ref) false "" [] ∅ []
    (Some {| sref_Name := sref_Name ref; sref_Scope := sref_Scope ref; sref_Source := source |}) None source
    ModifierNone false false.

Definition read_script (file path name : string) (attr : Attribute) : P Value :=
  ref ← parseScriptTraversal file (at_Expr attr);
  Ok (script_value ref (source_at file (at_Line attr) (path +:+ "." +:+ name))).

(** ** systemd-networkd *)

Definition validateGenericNetworkdSectionBlockShape (file path : string) (block : Block) : P unit :=
  _ ← no_nested file path block;
  check_attrs file path ["name"; "settings"] block.

Definition parseGenericNetworkdSectionBlock (file path : string) (block : Block) (ctx : EvalContext) : P Value :=
  _ ← validateGenericNetworkdSectionBlockShape file path block;
  values ← eval_attrs file path ["name"; "settings"] ctx block;
  Ok (block_value file path block values).

Definition validateNetworkdActivationBlockShape (file path : string) (block : Block) : P unit :=
  _ ← no_labels file path block;
  _ ← no_nested file path block;
  check_attrs file path ["reconfigure"; "post_reload"] block.

Definition parseNetworkdActivationBlock (file path : string) (block : Block) (ctx : EvalContext) : P Value :=
  _ ← validateNetworkdActivationBlockShape file path block;
  values ← read_attrs file path (fun name => bool_decide (name ∈ ["reconfigure"; "post_reload"]))
    (fun name attr =>
       if bool_decide (name = "post_reload") then read_script file path name attr
       else eval_attr file path ctx name attr) block;
  Ok (block_value file path block values).

Definition validateNetworkdSectionBlockShape (file path : string) (block : Block) : P unit :=
  _ ← no_nested file path block;
  fold_res (fun _ p => guard_or (negb (bool_decide (p.1 = "")))
                         (ShapeError file (at_Line p.2) ("unsupported empty attribute in " +:+ path)))
    (range_attrs (attributes block)) tt.

Definition parseNetworkdSectionBlock (file path : string) (block : Block) (ctx : EvalContext) : P Value :=
  _ ← no_nested file path block;
  values ← read_attrs file path (fun _ => true) (eval_attr file path ctx) block;
  Ok (block_value file path block values).

(** The attributes of a netdev or network, [None] for another type. *)
Definition networkd_object_attrs (typ : string) : option (list string) :=
  let common := ["path"; "content"; "source"; "sensitive"; "owner"; "group"; "mode"; "ensure"] in
  if bool_decide (typ = "netdev") then Some (common ++ ["netdev"; "wireguard"; "wireguard_peer"])
  else if bool_decide (typ = "network") then Some (common ++ ["match"; "network"])
  else None.

Definition unsupported_type (file path : string) (block : Block) : parse_error :=
  ShapeError file (bl_Line block) ("unsupported block " +:+ path).

(** The validator keeps the paths of labelled blocks beside the names of single ones. *)
Definition check_object (file path typ : string) (seen : gset string) (check : string -> P unit) (block : Block)
  : P (gset string) :=
  label ← one_label file (path +:+ "." +:+ typ) block;
  let objectPath := object_path path typ label in
  if bool_decide (objectPath ∈ seen) then Err (duplicate_object file objectPath block)
  else _ ← check objectPath; Ok ({[objectPath]} ∪ seen).

Definition networkd_object_child_shape (file path typ : string) (seen : gset string) (child : Block)
  : P (gset string) :=
  if bool_decide (bl_Type child = "lifecycle") then
    check_once file path "lifecycle" child seen (validateLifecycleBlockShape file (path +:+ ".lifecycle") child)
  else if bool_decide (bl_Type child = "section") then
    check_object file path "section" seen
      (fun objectPath => validateGenericNetworkdSectionBlockShape file objectPath child) child
  else if bool_decide (bl_Type child = "activation") then
    check_once file path "activation" child seen (validateNetworkdActivationBlockShape file (path +:+ ".activation") child)
  else if bool_decide (bl_Type child = "wireguard_peer") then
    _ ← guard_or (bool_decide (typ = "netdev")) (unsupported_block file path child);
    check_object file path "wireguard_peer" seen
      (fun objectPath => validateNetworkdSectionBlockShape file objectPath child) child
  else Err (unsupported_block file path child).

Definition validateNetworkdObjectBlockShape (file path : string) (block : Block) : P unit :=
  allowed ← of_option (unsupported_type file path block) (networkd_object_attrs (bl_Type block));
  _ ← check_attrs file path allowed block;
  _ ← fold_res (networkd_object_child_shape file path (bl_Type block)) (blocks block) ∅;
  Ok tt.

(** [collection.Order = append(collection.Order, label)] for sections. *)
Definition order_section (label : string) (values : gmap string Value) : gmap string Value :=
  alter (fun collection => with_order (v_Order collection ++ [label]) collection) "section" values.

Definition networkd_object_child (file path typ : string) (ctx : EvalContext) (values : gmap string Value)
    (child : Block) : P (gmap string Value) :=
  if bool_decide (bl_Type child = "lifecycle") then
    read_once file path "lifecycle" child values (parseLifecycleBlock file (path +:+ ".lifecycle") child ctx)
  else if bool_decide (bl_Type child = "section") then
    label ← one_label file (path +:+ ".section") child;
    section ← parseGenericNetworkdSectionBlock file (object_path path "section" label) child ctx;
    values ← add_object file path "section" label child section values;
    Ok (order_section label values)
  else if bool_decide (bl_Type child = "activation") then
    read_once file path "activation" child values (parseNetworkdActivationBlock file (path +:+ ".activation") child ctx)
  else if bool_decide (bl_Type child = "wireguard_peer") then
    _ ← guard_or (bool_decide (typ = "netdev")) (unsupported_block file path child);
    label ← one_label file (path +:+ ".wireguard_peer") child;
    peer ← parseNetworkdSectionBlock file (object_path path "wireguard_peer" label) child ctx;
    let collection := collection_of file path "wireguard_peer" child values in
    _ ← guard_or (IsMap collection) (AtSource (v_Source collection) "must be a map");
    add_object file path "wireguard_peer" label child peer values
  else Err (unsupported_block file path child).

Definition parseNetworkdObjectBlock (file path : string) (block : Block) (ctx : EvalContext) : P Value :=
  allowed ← of_option (unsupported_type file path block) (networkd_object_attrs (bl_Type block));
  values ← eval_attrs file path allowed ctx block;
  values ← fold_res (networkd_object_child file path (bl_Type block) ctx) (blocks block) values;
  Ok (block_value file path block values).

Definition networkd_child_shape (file path : string) (seen : gset (string * string)) (child : Block)
  : P (gset (string * string)) :=
  if bool_decide (bl_Type child = "netdev" \/ bl_Type child = "network") then
    label ← one_label file (path +:+ "." +:+ bl_Type child) child;
    let objectPath := object_path path (bl_Type child) label in
    _ ← validateNetworkdObjectBlockShape file objectPath child;
    _ ← guard_or (negb (bool_decide ((bl_Type child, label) ∈ seen))) (duplicate_object file objectPath child);
    Ok ({[(bl_Type child, label)]} ∪ seen)
  else Err (unsupported_block file path child).

Definition validateNetworkdBlockShape (file path : string) (block : Block) : P unit :=
  _ ← no_labels file path block;
  _ ← check_attrs file path ["enable"] block;
  _ ← fold_res (networkd_child_shape file path) (blocks block) ∅;
  Ok tt.

Definition networkd_child (file path : string) (ctx : EvalContext) (values : gmap string Value) (child : Block)
  : P (gmap string Value) :=
  if bool_decide (bl_Type child = "netdev" \/ bl_Type child = "network") then
    label ← one_label file (path +:+ "." +:+ bl_Type child) child;
    object ← parseNetworkdObjectBlock file (object_path path (bl_Type child) label) child ctx;
    add_object file path (bl_Type child) label child object values
  else Err (unsupported_block file path child).

Definition parseNetworkdBlock (file path : string) (block : Block) (ctx : EvalContext) : P Value :=
  _ ← no_labels file path block;
  values ← eval_attrs file path ["enable"] ctx block;
  values ← fold_res (networkd_child file path ctx) (blocks block) values;
  Ok (block_value file path block values).

(** ** resolved and journald; the main nftables file *)

Definition systemd_singleton_attrs (typ : string) : option (list string) :=
  if bool_decide (typ = "resolved") then Some ["enable"; "state"; "resolve"; "owner"; "file_group"; "mode"; "ensure"]
  else if bool_decide (typ = "journald") then Some ["state"; "journal"; "owner"; "file_group"; "mode"; "ensure"]
  else None.

(** The loop over blocks that only know [lifecycle]. *)
Definition lifecycle_child_shape (file path : string) (seen : gset string) (child : Block) : P (gset string) :=
  if bool_decide (bl_Type child = "lifecycle") then
    check_once file path "lifecycle" child seen (validateLifecycleBlockShape file (path +:+ ".lifecycle") child)
  else Err (unsupported_block file path child).
Definition lifecycle_child (file path : string) (ctx : EvalContext) (values : gmap string Value) (child : Block)
  : P (gmap string Value) :=
  if bool_decide (bl_Type child = "lifecycle") then
    read_once file path "lifecycle" child values (parseLifecycleBlock file (path +:+ ".lifecycle") child ctx)
  else Err (unsupported_block file path child).

Definition validateSystemdSingletonBlockShape (file path : string) (block : Block) : P unit :=
  _ ← no_labels file path block;
  allowed ← of_option (unsupported_type file path block) (systemd_singleton_attrs (bl_Type block));
  _ ← check_attrs file path allowed block;
  _ ← fold_res (lifecycle_child_shape file path) (blocks block) ∅;
  Ok tt.

Definition parseSystemdSingletonBlock (file path : string) (block : Block) (ctx : EvalContext) : P Value :=
  _ ← no_labels file path block;
  allowed ← of_option (unsupported_type file path block) (systemd_singleton_attrs (bl_Type block));
  values ← eval_attrs file path allowed ctx block;
  values ← fold_res (lifecycle_child file path ctx) (blocks block) values;
  Ok (block_value file path block values).

Definition nftables_attrs : list string :=
  ["path"; "content"; "source"; "owner"; "group"; "mode"; "ensure"; "sensitive"; "validate"; "activate"].

Definition validateNftablesMainBlockShape (file path : string) (block : Block) : P unit :=
  _ ← no_labels file path block;
  _ ← check_attrs file path nftables_attrs block;
  _ ← fold_res (lifecycle_child_shape file path) (blocks block) ∅;
  Ok tt.

Definition parseNftablesMainBlock (file path : string) (block : Block) (ctx : EvalContext) : P Value :=
  _ ← no_labels file path block;
  values ← eval_attrs file path nftables_attrs ctx block;
  values ← fold_res (lifecycle_child file path ctx) (blocks block) values;
  Ok (block_value file path block values).

(** ** Labelled objects *)

Definition allowedLabeledObjectAttrs (domain blockType : string) : list string :=
  let key := domain +:+ "." +:+ blockType in
  let key_is k := bool_decide (key = k) in
  if key_is "apt.repository" then ["uris"; "suites"; "components"; "architectures"; "ensure"]
  else if key_is "apt.source_file" then ["path"; "content"; "source"; "owner"; "group"; "mode"; "ensure"; "on_destroy"]
  else if key_is "packages.package" then ["repositories"; "conffile_policy"; "depends_on"]
  else if key_is "files.file" then
    ["path"; "content"; "content_version"; "source"; "owner"; "group"; "mode"; "ensure"; "sensitive"; "on_change"; "depends_on"]
  else if key_is "secrets.file" then ["path"; "source"; "owner"; "group"; "mode"; "ensure"]
  else if key_is "directories.directory" then ["path"; "owner"; "group"; "mode"; "ensure"]
  else if key_is "groups.group" then ["gid"; "system"; "ensure"]
  else if key_is "users.user" then ["uid"; "home"; "shell"; "group"; "groups"; "system"; "ssh_authorized_keys"; "ensure"]
  else if key_is "systemd.unit" then ["name"; "content"; "source"; "owner"; "group"; "mode"; "ensure"]
  else if key_is "systemd.service_unit" then
    ["name"; "content"; "source"; "owner"; "file_group"; "mode"; "ensure"; "description"; "run"; "type"; "user"; "group";
     "working_dir"; "environment"; "restart"; "restart_delay"; "wants"; "after"; "wanted_by"; "stdout"; "stderr";
     "service_config"; "change_action"]
  else if key_is "systemd.timer" then
    ["description"; "timer"; "install"; "wanted_by"; "enable"; "state"; "owner"; "file_group"; "mode"; "ensure"]
  else if key_is "services.service" then ["name"; "package"; "enabled"; "state"; "depends_on"]
  else if key_is "nftables.file" then nftables_attrs
  else [].

Definition labeled_child_shape (file domain path typ : string) (seen : gset string) (child : Block) : P (gset string) :=
  if bool_decide (bl_Type child = "lifecycle") then
    check_once file path "lifecycle" child seen (validateLifecycleBlockShape file (path +:+ ".lifecycle") child)
  else if bool_decide (bl_Type child = "signing_key") then
    _ ← guard_or (bool_decide (domain = "apt" /\ typ = "repository")) (unsupported_block file path child);
    check_once file path "signing_key" child seen (validateSigningKeyBlockShape file (path +:+ ".signing_key") child)
  else Err (unsupported_block file path child).

Definition validateLabeledObjectBlockShape (file domain path : string) (block : Block) : P unit :=
  _ ← check_attrs file path (allowedLabeledObjectAttrs domain (bl_Type block)) block;
  _ ← fold_res (labeled_child_shape file domain path (bl_Type block)) (blocks block) ∅;
  Ok tt.

Definition read_labeled_attr (file domain path typ : string) (ctx : EvalContext) (name : string) (attr : Attribute)
  : P Value :=
  if bool_decide (name = "depends_on") then
    parseResourceReferenceList file (at_Expr attr) (source_at file (at_Line attr) (path +:+ "." +:+ name))
  else if bool_decide (domain = "files" /\ typ = "file" /\ name = "on_change") then read_script file path name attr
  else eval_attr file path ctx name attr.

Definition labeled_child (file domain path typ : string) (ctx : EvalContext) (values : gmap string Value) (child : Block)
  : P (gmap string Value) :=
  if bool_decide (bl_Type child = "lifecycle") then
    read_once file path "lifecycle" child values (parseLifecycleBlock file (path +:+ ".lifecycle") child ctx)
  else if bool_decide (bl_Type child = "signing_key") then
    _ ← guard_or (bool_decide (domain = "apt" /\ typ = "repository")) (unsupported_block file path child);
    read_once file path "signing_key" child values (parseSigningKeyBlock file (path +:+ ".signing_key") child ctx)
  else Err (unsupported_block file path child).

Definition parseLabeledObjectBlock (file domain path : string) (block : Block) (ctx : EvalContext) : P Value :=
  values ← read_attrs file path
    (fun name => bool_decide (name ∈ allowedLabeledObjectAttrs domain (bl_Type block)))
    (read_labeled_attr file domain path (bl_Type block) ctx) block;
  values ← fold_res (labeled_child file domain path (bl_Type block) ctx) (blocks block) values;
  Ok (block_value file path block values).

(** ** Docker *)

Definition docker_object_attrs (typ : string) : option (list string) :=
  if bool_decide (typ = "package") then
    Some ["source"; "channel"; "version"; "repository_url"; "gpg_url"; "gpg_sha256"; "remove_conflicts"]
  else if bool_decide (typ = "service") then Some ["enable"; "state"]
  else if bool_decide (typ = "daemon") then Some ["settings"]
  else None.

Definition compose_object_attrs (typ : string) : option (list string) :=
  if bool_decide (typ = "file" \/ typ = "env_file") then Some ["path"; "content"; "source"; "owner"; "group"; "mode"]
  else if bool_decide (typ = "service") then Some ["enable"; "name"]
  else None.

Definition compose_attrs : list string :=
  ["enable"; "state"; "directory"; "project"; "pull"; "recreate"; "remove_orphans"; "after"; "wanted_by"].

(** A block with attributes only, of a type that fixes which. *)
Definition flat_shape (attrs : string -> option (list string)) (file path : string) (block : Block) : P unit :=
  allowed ← of_option (unsupported_type file path block) (attrs (bl_Type block));
  _ ← no_nested file path block;
  check_attrs file path allowed block.
Definition flat_value (attrs : string -> option (list string)) (file path : string) (block : Block) (ctx : EvalContext)
  : P Value :=
  allowed ← of_option (unsupported_type file path block) (attrs (bl_Type block));
  _ ← no_nested file path block;
  values ← eval_attrs file path allowed ctx block;
  Ok (block_value file path block values).

Definition validateDockerObjectBlockShape : string -> string -> Block -> P unit := flat_shape docker_object_attrs.
Definition parseDockerObjectBlock : string -> string -> Block -> EvalContext -> P Value := flat_value docker_object_attrs.
Definition validateDockerComposeObjectBlockShape : string -> string -> Block -> P unit := flat_shape compose_object_attrs.
Definition parseDockerComposeObjectBlock : string -> string -> Block -> EvalContext -> P Value :=
  flat_value compose_object_attrs.

(** The errors of a second compose file say more. *)
Definition one_compose_file : string := "; multiple compose file blocks are not supported yet".
Definition compose_single (file path : string) (child : Block) (exists_ : bool) : P unit :=
  _ ← guard_or (bool_decide (bl_Labels child = []))
        (ShapeError file (bl_Line child) (path +:+ "." +:+ bl_Type child +:+ " block must not have labels" +:+ one_compose_file));
  guard_or (negb exists_)
    (ShapeError file (bl_Line child) ("duplicate " +:+ path +:+ "." +:+ bl_Type child +:+ " block" +:+ one_compose_file)).

Definition compose_child_shape (file path : string) (seen : gset string) (child : Block) : P (gset string) :=
  let typ := bl_Type child in
  if bool_decide (typ = "file" \/ typ = "service") then
    _ ← compose_single file path child (bool_decide (typ ∈ seen));
    _ ← validateDockerComposeObjectBlockShape file (path +:+ "." +:+ typ) child;
    Ok ({[typ]} ∪ seen)
  else if bool_decide (typ = "env_file") then
    check_object file path "env_file" seen (fun objectPath => validateDockerComposeObjectBlockShape file objectPath child) child
  else Err (unsupported_block file path child).

Definition validateDockerComposeBlockShape (file path : string) (block : Block) : P unit :=
  _ ← check_attrs file path compose_attrs block;
  _ ← fold_res (compose_child_shape file path) (blocks block) ∅;
  Ok tt.

Definition compose_child (file path : string) (ctx : EvalContext) (values : gmap string Value) (child : Block)
  : P (gmap string Value) :=
  let typ := bl_Type child in
  if bool_decide (typ = "file" \/ typ = "service") then
    _ ← compose_single file path child (bool_decide (is_Some (values !! typ)));
    object ← parseDockerComposeObjectBlock file (path +:+ "." +:+ typ) child ctx;
    Ok (<[typ := object]> values)
  else if bool_decide (typ = "env_file") then
    label ← one_label file (path +:+ ".env_file") child;
    object ← parseDockerComposeObjectBlock file (object_path path "env_file" label) child ctx;
    add_object file path "env_file" label child object values
  else Err (unsupported_block file path child).

Definition parseDockerComposeBlock (file path : string) (block : Block) (ctx : EvalContext) : P Value :=
  values ← eval_attrs file path compose_attrs ctx block;
  values ← fold_res (compose_child file path ctx) (blocks block) values;
  Ok (block_value file path block values).

Definition docker_child_shape (file path : string) (seen : gset string) (child : Block) : P (gset string) :=
  let typ := bl_Type child in
  if bool_decide (typ = "package" \/ typ = "service" \/ typ = "daemon") then
    _ ← no_labels file (path +:+ "." +:+ typ) child;
    check_once file path typ child seen (validateDockerObjectBlockShape file (path +:+ "." +:+ typ) child)
  else if bool_decide (typ = "compose") then
    check_object file path "compose" seen (fun objectPath => validateDockerComposeBlockShape file objectPath child) child
  else Err (unsupported_block file path child).

Definition validateDockerBlockShape (file path : string) (block : Block) : P unit :=
  _ ← no_labels file path block;
  _ ← check_attrs file path ["enable"; "users"] block;
  _ ← fold_res (docker_child_shape file path) (blocks block) ∅;
  Ok tt.

Definition docker_child (file path : string) (ctx : EvalContext) (values : gmap string Value) (child : Block)
  : P (gmap string Value) :=
  let typ := bl_Type child in
  if bool_decide (typ = "package" \/ typ = "service" \/ typ = "daemon") then
    _ ← no_labels file (path +:+ "." +:+ typ) child;
    read_once file path typ child values (parseDockerObjectBlock file (path +:+ "." +:+ typ) child ctx)
  else if bool_decide (typ = "compose") then
    label ← one_label file (path +:+ ".compose") child;
    object ← parseDockerComposeBlock file (object_path path "compose" label) child ctx;
    add_object file path "compose" label child object values
  else Err (unsupported_block file path child).

Definition parseDockerBlock (file path : string) (block : Block) (ctx : EvalContext) : P Value :=
  values ← eval_attrs file path ["enable"; "users"] ctx block;
  values ← fold_res (docker_child file path ctx) (blocks block) values;
  Ok (block_value file path block values).

(** ** Sections *)

Definition allowedDomainAttrs (domain : string) : list string :=
  let key_is d := bool_decide (domain = d) in
  if key_is "ssh" then ["host"; "port"; "user"; "identity_file"]
  else if key_is "state" then ["path"; "lock_path"]
  else if key_is "staging" then ["root"]
  else if key_is "platform" then ["distribution"; "version"; "architecture"; "codename"]
  else if key_is "system" then ["hostname"; "architecture"; "codename"; "timezone"; "locale"]
  else if key_is "kernel" then ["modules"; "sysctl"]
  else if key_is "packages" then ["install"]
  else if key_is "nftables" then ["enable"]
  else [].

Definition allowedDomainObjectBlocks (domain : string) : list string :=
  let key_is d := bool_decide (domain = d) in
  if key_is "apt" then ["repository"; "source_file"]
  else if key_is "packages" then ["package"]
  else if key_is "files" || key_is "secrets" then ["file"]
  else if key_is "directories" then ["directory"]
  else if key_is "groups" then ["group"]
  else if key_is "users" then ["user"]
  else if key_is "systemd" then ["unit"; "service_unit"; "timer"]
  else if key_is "services" then ["service"]
  else if key_is "nftables" then ["file"]
  else [].

(** [values] and [collections] of the validator. *)
Record shape_seen := { ss_values : gset string; ss_objects : gset (string * string) }.
Definition once_seen (file path name : string) (child : Block) (seen : shape_seen) (check : P unit) : P shape_seen :=
  values ← check_once file path name child (ss_values seen) check;
  Ok {| ss_values := values; ss_objects := ss_objects seen |}.

Definition domain_child_shape (file path domain : string) (seen : shape_seen) (child : Block) : P shape_seen :=
  let typ := bl_Type child in
  if bool_decide (domain = "nftables" /\ typ = "main") then
    once_seen file path "main" child seen (validateNftablesMainBlockShape file (path +:+ ".main") child)
  else if bool_decide (domain = "systemd" /\ typ = "networkd") then
    once_seen file path "networkd" child seen (validateNetworkdBlockShape file (path +:+ ".networkd") child)
  else if bool_decide (domain = "systemd" /\ (typ = "resolved" \/ typ = "journald")) then
    once_seen file path typ child seen (validateSystemdSingletonBlockShape file (path +:+ "." +:+ typ) child)
  else
    _ ← guard_or (bool_decide (typ ∈ allowedDomainObjectBlocks domain)) (unsupported_block file path child);
    label ← one_label file (path +:+ "." +:+ typ) child;
    let objectPath := object_path path typ label in
    _ ← validateLabeledObjectBlockShape file domain objectPath child;
    _ ← guard_or (negb (bool_decide ((typ, label) ∈ ss_objects seen))) (duplicate_object file objectPath child);
    Ok {| ss_values := ss_values seen; ss_objects := {[(typ, label)]} ∪ ss_objects seen |}.

(** The first nested block of a docker section hands the section over to its own
    validator. *)
Definition validateDomainBlockShape (file path : string) (block : Block) : P unit :=
  _ ← check_attrs file path (allowedDomainAttrs (bl_Type block)) block;
  if bool_decide (bl_Type block = "docker") && negb (bool_decide (length (blocks block) = 0))
  then validateDockerBlockShape file path block
  else
    _ ← fold_res (domain_child_shape file path (bl_Type block)) (blocks block)
          {| ss_values := ∅; ss_objects := ∅ |};
    Ok tt.

Definition domain_child (file path domain : string) (ctx : EvalContext) (values : gmap string Value) (child : Block)
  : P (gmap string Value) :=
  let typ := bl_Type child in
  if bool_decide (domain = "nftables" /\ typ = "main") then
    read_once file path "main" child values (parseNftablesMainBlock file (path +:+ ".main") child ctx)
  else if bool_decide (domain = "systemd" /\ typ = "networkd") then
    read_once file path "networkd" child values (parseNetworkdBlock file (path +:+ ".networkd") child ctx)
  else if bool_decide (domain = "systemd" /\ (typ = "resolved" \/ typ = "journald")) then
    read_once file path typ child values (parseSystemdSingletonBlock file (path +:+ "." +:+ typ) child ctx)
  else
    _ ← guard_or (bool_decide (typ ∈ allowedDomainObjectBlocks domain)) (unsupported_block file path child);
    label ← one_label file (path +:+ "." +:+ typ) child;
    object ← parseLabeledObjectBlock file domain (object_path path typ label) child ctx;
    add_object file path typ label child object values.

Definition parseDomainBlock (file path : string) (block : Block) (ctx : EvalContext) : P Value :=
  values ← eval_attrs file path (allowedDomainAttrs (bl_Type block)) ctx block;
  values ← fold_res (domain_child file path (bl_Type block) ctx) (blocks block) values;
  Ok (block_value file path block values).

(** ** Bodies of components *)

Definition component_sections : list string :=
  ["apt"; "packages"; "files"; "secrets"; "directories"; "groups"; "users"; "systemd"; "services"].
Definition component_own_blocks : list string := ["input"; "script"; "source"; "extract"; "build"; "install"].

(** The fields of [Component] that both functions read. *)
Section component_body.
Variable source : SourceRef.
Variable body : Body.
Abbreviation file := (src_File source).
Abbreviation path := (src_Path source).

Definition component_attrs : P unit :=
  fold_res (fun _ p => guard_or (bool_decide (p.1 ∈ ["type"; "version"]))
                         (ShapeError (at_Filename p.2) (at_Line p.2) ("unsupported attribute " +:+ path +:+ "." +:+ p.1)))
    (range_attrs (bd_Attributes body)) tt.

Definition component_child_shape (seen : gset string) (block : Block) : P (gset string) :=
  let typ := bl_Type block in
  if bool_decide (typ ∈ component_own_blocks) then Ok seen
  else if bool_decide (typ ∈ component_sections) then
    _ ← no_labels file typ block;
    check_once file path typ block seen (validateDomainBlockShape file (path +:+ "." +:+ typ) block)
  else Err (unsupported_block file path block).

Definition ValidateComponentBodyShape : P unit :=
  _ ← component_attrs;
  _ ← fold_res component_child_shape (bd_Blocks body) ∅;
  Ok tt.

Definition component_child (ctx : EvalContext) (values : gmap string Value) (block : Block) : P (gmap string Value) :=
  let typ := bl_Type block in
  if bool_decide (typ ∈ component_own_blocks) then Ok values
  else if bool_decide (typ ∈ component_sections) then
    _ ← no_labels file typ block;
    read_once file path typ block values (parseDomainBlock file (path +:+ "." +:+ typ) block ctx)
  else Err (unsupported_block file path block).

Definition ParseComponentBody (ctx : EvalContext) : P Value :=
  _ ← component_attrs;
  values ← fold_res (component_child ctx) (bd_Blocks body) ∅;
  Ok (MapValue values source).
End component_body.

End parse.
