(* ===== verification/ParseProps.v ===== *)
(** * The shape of a component is checked without evaluating it

    A component whose body cannot be evaluated yet, because the facts of its
    host are not known, is checked with [ValidateComponentBodyShape] instead of
    [ParseComponentBody].  [agree] relates a validator to the reader of the same
    block: the validator accepts whatever the reader accepts, and once it has
    accepted, the reader only fails on the value of an expression. *)
From S2P Require Import Prelude Sha256 GoValue GoStrings IR Values InputType Merge Hcl Parse.

Definition is_shape (e : parse_error) : Prop :=
  match e with ShapeError _ _ _ => True | _ => False end.

Definition agree {A B} (R : A -> B -> Prop) (c : P A) (r : P B) : Prop :=
  match c, r with
  | Ok a, Ok b => R a b
  | Ok _, Err e => ~ is_shape e
  | Err _, Ok _ => False
  | Err _, Err _ => True
  end.

Lemma agree_imp {A B} (R R' : A -> B -> Prop) c r :
  agree R c r -> (forall a b, R a b -> R' a b) -> agree R' c r.
Proof. destruct c, r; cbn; auto. Qed.

Lemma agree_same {A} (m : P A) : agree eq m m.
Proof. by destruct m. Qed.

Lemma agree_bind {A B C D} (R : A -> B -> Prop) (Q : C -> D -> Prop) c r f g :
  agree R c r -> (forall a b, R a b -> agree Q (f a) (g b)) -> agree Q (c ≫= f) (r ≫= g).
Proof.
  intros Hcr Hfg. destruct c as [a|], r as [b|]; cbn in *; try done.
  - by apply Hfg.
  - destruct (f a); cbn; done.
Qed.

(** The same step on both sides. *)
Lemma agree_step {A C D} (Q : C -> D -> Prop) (m : P A) f g :
  (forall a, m = Ok a -> agree Q (f a) (g a)) -> agree Q (m ≫= f) (m ≫= g).
Proof. intros Hfg. destruct m as [a|]; cbn; [by apply Hfg|done]. Qed.

(** A step of the reader only. *)
Lemma agree_read {B C D} (Q : C -> D -> Prop) (c : P C) (r : P B) (g : B -> P D) :
  (forall e, r = Err e -> ~ is_shape e) -> (forall b, r = Ok b -> agree Q c (g b)) -> agree Q c (r ≫= g).
Proof.
  intros He Hg. destruct r as [b|e]; cbn; [by apply Hg|]. destruct c; cbn; [by apply He|done].
Qed.

Lemma agree_with {A B} (R : A -> B -> Prop) (p : B -> Prop) c r :
  agree R c r -> (forall b, r = Ok b -> p b) -> agree (fun a b => R a b /\ p b) c r.
Proof. destruct c, r; cbn; auto. Qed.

Lemma agree_fold {A B X} (R : A -> B -> Prop) (f : A -> X -> P A) (g : B -> X -> P B) l a b :
  R a b -> (forall x a b, x ∈ l -> R a b -> agree R (f a x) (g b x)) ->
  agree R (fold_res f l a) (fold_res g l b).
Proof.
  revert a b. induction l as [|x l IH]; intros a b Hab Hl; [done|]. cbn.
  assert (H := Hl x a b ltac:(by left) Hab). destruct (f a x) as [a'|], (g b x) as [b'|]; cbn in *; try done.
  - apply IH; [done|]. intros y ???. apply Hl. by right.
  - destruct (fold_res f l a'); done.
Qed.

Lemma agree_Ok {A B} (R : A -> B -> Prop) a b : R a b -> agree R (Ok a) (Ok b).
Proof. done. Qed.

(** ** Attributes *)

Lemma fold_guards {X} (p : X -> bool) (err : X -> parse_error) (l : list X) :
  (fold_res (fun (_ : unit) x => guard_or (p x) (err x)) l tt = Ok tt /\ forallb p l = true)
  \/ ((exists e, fold_res (fun (_ : unit) x => guard_or (p x) (err x)) l tt = Err e) /\ forallb p l = false).
Proof.
  induction l as [|x l IH]; cbn; [by left|]. unfold guard_or. destruct (p x); cbn; [done|]. right. eauto.
Qed.

Section attributes.
Context `{!HCL} (o1 o2 : AttrOrder).

(** What a loop over the attributes of a body sees does not depend on its order. *)
Lemma forallb_range (p : string * Attribute -> bool) m :
  forallb p (range_attrs (AttrOrder := o1) m) = forallb p (range_attrs (AttrOrder := o2) m).
Proof.
  apply eq_true_iff_eq. rewrite !forallb_forall.
  assert (Hin : forall x, In x (range_attrs (AttrOrder := o1) m) <-> In x (range_attrs (AttrOrder := o2) m)).
  { intros x. by rewrite <- !list_elem_of_In, (range_attrs_perm (AttrOrder := o1)), (range_attrs_perm (AttrOrder := o2)). }
  naive_solver.
Qed.

Lemma read_loop allowed file path read (l : list (string * Attribute)) values :
  (forall n a e, read n a = Err e -> ~ is_shape e) ->
  match fold_res (fun (values : gmap string Value) p =>
    _ ← guard_or (allowed p.1) (unsupported_attribute file path p.1 p.2);
    value ← read p.1 p.2;
    Ok (<[p.1 := value]> values)) l values with
  | Ok values' => forallb (fun p => allowed p.1) l = true /\ dom values' = list_to_set l.*1 ∪ dom values
  | Err e => forallb (fun p => allowed p.1) l = false \/ ~ is_shape e
  end.
Proof.
  intros Hread. revert values. induction l as [|[n a] l IH]; intros values; cbn.
  { split; [done|]. set_solver. }
  destruct (allowed n); cbn; [|by left].
  destruct (read n a) as [v|e] eqn:Er; cbn; [|right; by eapply Hread].
  specialize (IH (<[n:=v]> values)). destruct (fold_res _ _ _) as [values'|e]; [|done].
  destruct IH as [-> ->]. split; [done|]. rewrite dom_insert_L. set_solver.
Qed.

Lemma dom_range m : list_to_set (range_attrs (AttrOrder := o2) m).*1 = (dom m : gset string).
Proof.
  apply set_eq. intros n. rewrite elem_of_list_to_set, (range_attrs_perm (AttrOrder := o2)), elem_of_dom.
  rewrite list_elem_of_fmap. split.
  - intros ([k a] & -> & Hin%elem_of_map_to_list). eauto.
  - intros [a Ha]. exists (n, a). split; [done|]. by apply elem_of_map_to_list.
Qed.

Lemma check_attrs_agree file path allowed read block :
  (forall n a e, read n a = Err e -> ~ is_shape e) ->
  agree (fun _ values => dom values = dom (attributes block) /\ forall n, n ∈ dom (attributes block) -> n ∈ allowed)
    (check_attrs (order := o1) file path allowed block)
    (read_attrs (order := o2) file path (fun n => bool_decide (n ∈ allowed)) read block).
Proof.
  intros Hread. unfold check_attrs, read_attrs.
  pose proof (read_loop (fun n => bool_decide (n ∈ allowed)) file path read (range_attrs (AttrOrder := o2) (attributes block)) ∅ Hread) as Hr.
  pose proof (fold_guards (fun p : string * Attribute => bool_decide (p.1 ∈ allowed))
    (fun p => unsupported_attribute file path p.1 p.2) (range_attrs (AttrOrder := o1) (attributes block))) as Hc.
  rewrite forallb_range in Hc.
  destruct Hc as [[-> Hall]|[[e ->] Hall]]; destruct (fold_res _ _ ∅) as [values|e'] in *; cbn.
  - destruct Hr as [_ ->]. rewrite dom_range, dom_empty_L, (right_id_L ∅ (∪)). split; [done|].
    intros n Hn. rewrite <- dom_range, elem_of_list_to_set in Hn. apply list_elem_of_fmap in Hn as (p & -> & Hp).
    rewrite forallb_forall in Hall. apply list_elem_of_In, Hall in Hp. by apply bool_decide_eq_true in Hp.
  - destruct Hr as [Hr|Hr]; [|done]. by rewrite Hall in Hr.
  - destruct Hr as [Hr _]. by rewrite Hall in Hr.
  - done.
Qed.

Lemma eval_attr_err file path ctx n a e : eval_attr file path ctx n a = Err e -> ~ is_shape e.
Proof. unfold eval_attr. destruct (evalValue _ _ _); cbn; [done|]. by intros [= <-] ?. Qed.

Lemma read_script_err file path n a e : read_script file path n a = Err e -> ~ is_shape e.
Proof.
  unfold read_script. rewrite bind_Err. intros [Hp|(ref & _ & [=])]. revert Hp. unfold parseScriptTraversal.
  repeat case_match; intros [=]; subst; cbn; auto.
Qed.

End attributes.

(** ** Paths of labelled blocks *)

Definition no_bracket (s : string) : bool := negb (existsb (Ascii.eqb "[") (String.list_ascii_of_string s)).

Lemma bracket_app a b : no_bracket (a +:+ b) = no_bracket a && no_bracket b.
Proof.
  unfold no_bracket. induction a as [|c a IH]; [done|]. rewrite str_app_cons. cbn.
  rewrite !negb_orb, IH. by rewrite andb_assoc.
Qed.

Lemma bracket_split a b r r' :
  no_bracket a = true -> no_bracket b = true -> a +:+ "[" +:+ r = b +:+ "[" +:+ r' -> a = b /\ r = r'.
Proof.
  revert b. induction a as [|c a IH]; intros [|d b] Ha Hb Heq.
  - split; [done|]. by apply (str_app_inv_l "[").
  - change (String "[" r = String d (b +:+ "[" +:+ r')) in Heq. injection Heq as <- _. done.
  - change (String c (a +:+ "[" +:+ r) = String "[" r') in Heq. injection Heq as -> _. done.
  - rewrite !str_app_cons in Heq. injection Heq as <- Heq. unfold no_bracket in Ha, Hb. cbn in Ha, Hb.
    rewrite negb_orb, andb_true_iff in Ha, Hb. destruct Ha, Hb. destruct (IH b) as [-> ->]; done.
Qed.

Section paths.
Context `{!HCL} {order : AttrOrder}.

Lemma object_path_inj path o o' l l' :
  no_bracket o = true -> no_bracket o' = true -> object_path path o l = object_path path o' l' -> o = o' /\ l = l'.
Proof.
  intros Ho Ho'. unfold object_path. intros Hp%str_app_inv_l%str_app_inv_l.
  apply bracket_split in Hp as [-> Hq]; [|done..]. split; [done|]. by eapply Quote_inj.
Qed.

Lemma object_path_bracket path o l n : no_bracket n = true -> object_path path o l <> n.
Proof.
  intros Hn <-. unfold object_path in Hn. rewrite !bracket_app in Hn.
  rewrite !andb_true_iff in Hn. by destruct Hn as (_ & _ & _ & Hb & _).
Qed.

(** The labels of a collection. *)
Definition labelled (values : gmap string Value) (o l : string) : Prop :=
  exists collection, values !! o = Some collection /\ is_Some (v_Map collection !! l).

(** What the validator has seen is what the reader has stored. *)
Record tracks (path : string) (singles objects : list string) (seen : gset string) (values : gmap string Value) : Prop := {
  tr_single : forall n, n ∈ singles -> n ∈ seen <-> is_Some (values !! n);
  tr_object : forall o l, o ∈ objects -> object_path path o l ∈ seen <-> labelled values o l;
}.

(** Names as the tables of the parser have them. *)
Definition plain_names (singles objects : list string) : bool :=
  forallb no_bracket (singles ++ objects) && forallb (fun n => negb (bool_decide (n ∈ objects))) singles.

Lemma plain_names_spec singles objects :
  plain_names singles objects = true ->
  (forall n, n ∈ singles \/ n ∈ objects -> no_bracket n = true) /\ (forall n, n ∈ singles -> n ∉ objects).
Proof.
  unfold plain_names. rewrite andb_true_iff, !forallb_forall. intros [Hb Hd]. split.
  - intros n Hn. apply Hb, list_elem_of_In. set_solver.
  - intros n Hn Ho. apply list_elem_of_In, Hd in Hn. by rewrite bool_decide_true in Hn.
Qed.

Lemma labelled_insert_ne values n v o l : n <> o -> labelled (<[n := v]> values) o l <-> labelled values o l.
Proof. intros Hne. unfold labelled. by rewrite lookup_insert_ne. Qed.

Lemma tracks_insert path singles objects seen values n v :
  plain_names singles objects = true -> n ∈ singles ->
  tracks path singles objects seen values -> tracks path singles objects ({[n]} ∪ seen) (<[n := v]> values).
Proof.
  intros [Hb Hd]%plain_names_spec Hn [Hs Ho]. split.
  - intros m Hm. rewrite elem_of_union, elem_of_singleton, Hs by done.
    destruct (decide (m = n)) as [->|]; [rewrite lookup_insert_eq|rewrite lookup_insert_ne by done]; naive_solver.
  - intros o l Hol. rewrite labelled_insert_ne by (intros ->; by eapply Hd).
    rewrite elem_of_union, elem_of_singleton, Ho by done. split; [|by right].
    intros [Hp|?]; [|done]. exfalso. revert Hp. apply object_path_bracket, Hb. by left.
Qed.

Lemma labelled_add file path o l block object values o' l' :
  labelled (<[o := with_map (<[l := object]> (v_Map (collection_of file path o block values)))
                     (collection_of file path o block values)]> values) o' l'
  <-> (o' = o /\ l' = l) \/ labelled values o' l'.
Proof.
  unfold labelled. destruct (decide (o' = o)) as [->|Hne].
  - rewrite lookup_insert_eq. unfold collection_of.
    destruct (values !! o) as [c|]; cbn; destruct (decide (l' = l)) as [->|Hl].
    + split; [by left|]. intros _. eexists. split; [done|]. cbn. by rewrite lookup_insert_eq.
    + split.
      * intros (c' & [= <-] & Hl'). right. cbn in Hl'. rewrite lookup_insert_ne in Hl' by done. eauto.
      * intros [[_ ?]|(c' & [= ->] & Hl')]; [done|]. eexists. split; [done|]. cbn. by rewrite lookup_insert_ne.
    + split; [by left|]. intros _. eexists. split; [done|]. cbn. by rewrite lookup_insert_eq.
    + split.
      * intros (c' & [= <-] & Hl'). cbn in Hl'. rewrite lookup_insert_ne, lookup_empty in Hl' by done. by destruct Hl'.
      * intros [[_ ?]|(c' & [=] & _)]; done.
  - rewrite lookup_insert_ne by done. naive_solver.
Qed.

Lemma tracks_add file path singles objects seen values o l block object :
  plain_names singles objects = true -> o ∈ objects ->
  tracks path singles objects seen values ->
  tracks path singles objects ({[object_path path o l]} ∪ seen)
    (<[o := with_map (<[l := object]> (v_Map (collection_of file path o block values)))
              (collection_of file path o block values)]> values).
Proof.
  intros [Hb Hd]%plain_names_spec Ho [Hs Hobj]. split.
  - intros n Hn. rewrite elem_of_union, elem_of_singleton, Hs by done.
    rewrite lookup_insert_ne by (intros ->; by eapply Hd). split; [|by right].
    intros [Hp|?]; [|done]. exfalso. symmetry in Hp. revert Hp. apply object_path_bracket, Hb. by left.
  - intros o' l' Ho'. rewrite labelled_add, elem_of_union, elem_of_singleton, Hobj by done.
    apply or_iff_compat_r. split; [|by intros [-> ->]].
    apply object_path_inj; apply Hb; by right.
Qed.

(** An object that the validator looks up before its body, and the reader after it. *)
Lemma object_agree file path singles objects o seen values block check read :
  plain_names singles objects = true -> o ∈ objects ->
  tracks path singles objects seen values ->
  (forall object_path, agree (fun _ _ => True) (check object_path) (read object_path)) ->
  agree (tracks path singles objects)
    (check_object file path o seen check block)
    (label ← one_label file (path +:+ "." +:+ o) block;
     object ← read (object_path path o label);
     add_object file path o label block object values).
Proof.
  intros Hp Ho Ht Hcr. unfold check_object. apply agree_step. intros l _.
  specialize (Hcr (object_path path o l)). assert (Hl := tr_object _ _ _ _ _ Ht o l Ho).
  assert (Hadd : is_Some (v_Map (collection_of file path o block values) !! l) <-> labelled values o l).
  { unfold labelled, collection_of. destruct (values !! o) as [c|]; cbn; [naive_solver|].
    rewrite lookup_empty. split; [by intros [? ?]|naive_solver]. }
  case_bool_decide as Hin.
  - apply Hl in Hin. destruct (read _) as [object|]; cbn; [|done].
    unfold add_object. apply Hadd in Hin as [x ->]. done.
  - destruct (check _) as [u|], (read _) as [object|]; cbn in *; try done.
    unfold add_object. destruct (v_Map _ !! l) eqn:Em; cbn.
    + exfalso. apply Hin, Hl, Hadd. eauto.
    + by apply tracks_add.
Qed.

Lemma once_agree file path singles objects n seen values block check read :
  plain_names singles objects = true -> n ∈ singles ->
  tracks path singles objects seen values ->
  agree (fun _ _ => True) check read ->
  agree (tracks path singles objects)
    (check_once file path n block seen check) (read_once file path n block values read).
Proof.
  intros Hp Hn Ht Hcr. unfold check_once, read_once. assert (Hs := tr_single _ _ _ _ _ Ht n Hn).
  case_bool_decide as Hin.
  - apply Hs in Hin as [x ->]. done.
  - destruct (values !! n) eqn:En; [exfalso; apply Hin, Hs; eauto|].
    destruct check as [u|], read as [object|]; cbn in *; try done. by apply tracks_insert.
Qed.

(** Before the first block. *)
Lemma tracks_empty path singles objects values :
  (forall n, n ∈ singles \/ n ∈ objects -> values !! n = None) -> tracks path singles objects ∅ values.
Proof.
  intros Hv. split.
  - intros n Hn. rewrite Hv by (by left). split; [set_solver|by intros [? ?]].
  - intros o l Ho. unfold labelled. rewrite Hv by (by right). split; [set_solver|naive_solver].
Qed.

End paths.

(** ** Blocks *)

Lemma agree_unit {B X} (R : unit -> B -> Prop) (Q : unit -> X -> Prop) c r g :
  agree R c r -> (forall b, R tt b -> agree Q (Ok tt) (g b)) -> agree Q c (r ≫= g).
Proof.
  intros Hcr Hg. destruct c as [[]|], r as [b|]; cbn in *; try done.
  by apply Hg.
Qed.

(** The reader that runs the validator again. *)
Lemma agree_again {A B X} (R : A -> B -> Prop) (Q : A -> X -> Prop) (c : P A) (c2 : P B) (r : P X) :
  agree R c c2 -> (is_ok c = true -> agree Q c r) -> agree Q c (c2 ≫= (fun _ => r)).
Proof. destruct c, c2, r; cbn; auto. Qed.

Abbreviation accepts := (agree (fun _ _ => True)).

Section blocks.
Context `{!HCL} (o1 o2 : AttrOrder) (ctx : EvalContext) (file : string).

Lemma attrs_agree path allowed read block :
  (forall n a e, read n a = Err e -> ~ is_shape e) ->
  accepts (check_attrs (order := o1) file path allowed block)
    (values ← read_attrs (order := o2) file path (fun n => bool_decide (n ∈ allowed)) read block;
     Ok (block_value file path block values)).
Proof. intros Hread. eapply agree_unit; [by apply check_attrs_agree|]. done. Qed.

Lemma eval_agree path allowed block :
  accepts (check_attrs (order := o1) file path allowed block)
    (values ← eval_attrs (order := o2) file path allowed ctx block; Ok (block_value file path block values)).
Proof. apply attrs_agree. intros *. apply eval_attr_err. Qed.

Lemma check_attrs_order path allowed block :
  accepts (check_attrs (order := o1) file path allowed block) (check_attrs (order := o2) file path allowed block).
Proof.
  unfold check_attrs.
  pose proof (fun o => fold_guards (fun p : string * Attribute => bool_decide (p.1 ∈ allowed))
    (fun p => unsupported_attribute file path p.1 p.2) (range_attrs (AttrOrder := o) (attributes block))) as Hc.
  destruct (Hc o1) as [[-> E1]|[[e1 ->] E1]], (Hc o2) as [[-> E2]|[[e2 ->] E2]]; cbn; try done;
    rewrite (forallb_range o1 o2) in E1; congruence.
Qed.

Lemma lifecycle_agree path block :
  accepts (validateLifecycleBlockShape (order := o1) file path block)
    (parseLifecycleBlock (order := o2) file path block ctx).
Proof. repeat (apply agree_step; intros _ _). apply eval_agree. Qed.

Lemma signing_key_agree path block :
  accepts (validateSigningKeyBlockShape (order := o1) file path block)
    (parseSigningKeyBlock (order := o2) file path block ctx).
Proof. repeat (apply agree_step; intros _ _). apply eval_agree. Qed.

Lemma section_agree path block :
  accepts (validateGenericNetworkdSectionBlockShape (order := o1) file path block)
    (parseGenericNetworkdSectionBlock (order := o2) file path block ctx).
Proof.
  eapply agree_again.
  - apply agree_step. intros _ _. apply check_attrs_order.
  - unfold validateGenericNetworkdSectionBlockShape. destruct (no_nested _ _ _); [|done]. intros _. apply eval_agree.
Qed.

Lemma activation_agree path block :
  accepts (validateNetworkdActivationBlockShape (order := o1) file path block)
    (parseNetworkdActivationBlock (order := o2) file path block ctx).
Proof.
  eapply agree_again.
  - do 2 (apply agree_step; intros _ _). apply check_attrs_order.
  - unfold validateNetworkdActivationBlockShape.
    destruct (no_labels _ _ _), (no_nested _ _ _); try done. intros _. apply attrs_agree.
    intros *. case_bool_decide; [apply read_script_err|apply eval_attr_err].
Qed.

(** Names of attributes are identifiers. *)
Lemma peer_agree path block :
  attributes block !! "" = None ->
  accepts (validateNetworkdSectionBlockShape (order := o1) file path block)
    (parseNetworkdSectionBlock (order := o2) file path block ctx).
Proof.
  intros Hn. apply agree_step. intros _ _.
  pose proof (fold_guards (fun p : string * Attribute => negb (bool_decide (p.1 = "")))
    (fun p => ShapeError file (at_Line p.2) ("unsupported empty attribute in " +:+ path))
    (range_attrs (AttrOrder := o1) (attributes block))) as [[-> _]|[_ Hf]].
  - unfold read_attrs. pose proof (read_loop (fun _ => true) file path (eval_attr file path ctx)
      (range_attrs (AttrOrder := o2) (attributes block)) ∅) as Hr.
    destruct (fold_res _ _ ∅) as [values|e]; cbn; [done|].
    destruct Hr as [Hr|Hr]; [intros *; apply eval_attr_err| |done].
    by rewrite (proj2 (forallb_forall _ _)) in Hr.
  - exfalso. apply not_true_iff_false in Hf. apply Hf, forallb_forall. intros [n a] Hin%list_elem_of_In.
    rewrite range_attrs_perm in Hin. apply elem_of_map_to_list in Hin. cbn. case_bool_decide; [|done].
    subst n. congruence.
Qed.

Lemma lifecycle_child_agree path seen values child :
  tracks path ["lifecycle"] [] seen values ->
  agree (tracks path ["lifecycle"] []) (lifecycle_child_shape (order := o1) file path seen child)
    (lifecycle_child (order := o2) file path ctx values child).
Proof.
  intros Ht. unfold lifecycle_child_shape, lifecycle_child. case_bool_decide; [|done].
  apply once_agree; [done|by left|done|apply lifecycle_agree].
Qed.

(** A body of attributes and blocks: the values of the attributes do not hide
    what the loop over the blocks tracks. *)
Lemma body_agree {X} (R : X -> gmap string Value -> Prop) path allowed read block
    (f : X -> Block -> P X) (g : gmap string Value -> Block -> P (gmap string Value)) (x0 : X) :
  (forall n a e, read n a = Err e -> ~ is_shape e) ->
  (forall values, dom values = dom (attributes block) ->
     (forall n, n ∈ dom (attributes block) -> n ∈ allowed) -> R x0 values) ->
  (forall x values child, child ∈ blocks block -> R x values -> agree R (f x child) (g values child)) ->
  accepts
    (_ ← check_attrs (order := o1) file path allowed block; _ ← fold_res f (blocks block) x0; Ok tt)
    (values ← read_attrs (order := o2) file path (fun n => bool_decide (n ∈ allowed)) read block;
     values ← fold_res g (blocks block) values;
     Ok (block_value file path block values)).
Proof.
  intros Hread H0 Hstep. eapply agree_bind; [by apply check_attrs_agree|]. intros [] values [Hd Ha].
  eapply agree_bind; [apply (agree_fold R); [by apply H0|by intros; apply Hstep]|]. done.
Qed.

(** No name of [names] is an attribute. *)
Lemma absent (values : gmap string Value) block (allowed names : list string) :
  dom values = dom (attributes block) -> (forall n, n ∈ dom (attributes block) -> n ∈ allowed) ->
  forallb (fun n => negb (bool_decide (n ∈ allowed))) names = true ->
  forall n, n ∈ names -> values !! n = None.
Proof.
  intros Hd Ha Hn n Hin. apply not_elem_of_dom. rewrite Hd. intros Hx%Ha.
  rewrite forallb_forall in Hn. apply list_elem_of_In, Hn in Hin. by rewrite bool_decide_true in Hin.
Qed.

Lemma nftables_agree path block :
  accepts (validateNftablesMainBlockShape (order := o1) file path block)
    (parseNftablesMainBlock (order := o2) file path block ctx).
Proof.
  apply agree_step. intros _ _. eapply (body_agree (tracks path ["lifecycle"] [])).
  - intros *. apply eval_attr_err.
  - intros values Hd Ha. apply tracks_empty. intros n Hn. eapply (absent _ _ _ ["lifecycle"]); [done..|]. set_solver.
  - intros. by apply lifecycle_child_agree.
Qed.

Lemma singleton_agree path block :
  accepts (validateSystemdSingletonBlockShape (order := o1) file path block)
    (parseSystemdSingletonBlock (order := o2) file path block ctx).
Proof.
  apply agree_step. intros _ _. apply agree_step. intros allowed Hallowed.
  eapply (body_agree (tracks path ["lifecycle"] [])).
  - intros *. apply eval_attr_err.
  - intros values Hd Ha. apply tracks_empty. intros n Hn. eapply (absent _ _ _ ["lifecycle"]); [done..| |set_solver].
    apply of_option_Ok in Hallowed. unfold systemd_singleton_attrs in Hallowed. by repeat case_bool_decide; simplify_eq.
  - intros. by apply lifecycle_child_agree.
Qed.

(** *** networkd *)

Definition has_peers (block : Block) : bool :=
  bool_decide (bl_Type block = "netdev") &&
  existsb (fun child => bool_decide (bl_Type child = "wireguard_peer")) (blocks block).

(** An attribute and a block of the same name are not both in a netdev, and the
    attributes of its blocks have names. *)
Definition peers_ok (block : Block) : Prop :=
  bl_Type block = "netdev" -> forall child, child ∈ blocks block -> bl_Type child = "wireguard_peer" ->
    attributes block !! "wireguard_peer" = None /\ attributes child !! "" = None.

Lemma order_tracks path objects seen values label :
  tracks path ["lifecycle"; "activation"] objects seen values ->
  tracks path ["lifecycle"; "activation"] objects seen (order_section label values).
Proof.
  intros [Hs Ho]. unfold order_section. split.
  - intros n Hn. rewrite Hs by done. assert (n <> "section") by set_solver. by rewrite lookup_alter_ne.
  - intros o l Hl. rewrite Ho by done. unfold labelled. destruct (decide (o = "section")) as [->|].
    + rewrite lookup_alter_eq. destruct (values !! "section") as [c|]; cbn; naive_solver.
    + by rewrite lookup_alter_ne.
Qed.

Definition peers_map (values : gmap string Value) : Prop :=
  forall c, values !! "wireguard_peer" = Some c -> IsMap c = true.

Lemma read_once_Ok path n block values read values' :
  read_once file path n block values read = Ok values' -> exists v, values' = <[n := v]> values.
Proof. unfold read_once. destruct (values !! n); [done|]. rewrite bind_Ok. intros (v & _ & [= <-]). eauto. Qed.

Lemma add_object_Ok path o l block object values values' :
  add_object file path o l block object values = Ok values' ->
  let c := collection_of file path o block values in values' = <[o := with_map (<[l := object]> (v_Map c)) c]> values.
Proof. unfold add_object. destruct (v_Map _ !! l); [done|]. by intros [= <-]. Qed.

Lemma networkd_object_child_map path typ values child values' :
  networkd_object_child (order := o2) file path typ ctx values child = Ok values' ->
  peers_map values -> peers_map values'.
Proof.
  unfold networkd_object_child. intros Hr Hm. repeat case_bool_decide.
  - apply read_once_Ok in Hr as [v ->]. intros c. rewrite lookup_insert_ne by done. apply Hm.
  - apply bind_Ok in Hr as (l & _ & Hr). apply bind_Ok in Hr as (x & _ & Hr). apply bind_Ok in Hr as (w & Hr & [= <-]).
    apply add_object_Ok in Hr as ->. intros c. unfold order_section.
    rewrite lookup_alter_ne, lookup_insert_ne by done. apply Hm.
  - apply read_once_Ok in Hr as [v ->]. intros c. rewrite lookup_insert_ne by done. apply Hm.
  - cbv zeta in Hr. do 3 (apply bind_Ok in Hr as (? & _ & Hr)). apply bind_Ok in Hr as (u & Hg & Hr).
    apply guard_or_Ok in Hg. apply add_object_Ok in Hr as ->. intros c. rewrite lookup_insert_eq. by intros [= <-].
  - done.
  - done.
Qed.

Lemma networkd_object_child_agree path typ objects seen values child :
  objects = ["section"] \/ objects = ["section"; "wireguard_peer"] ->
  (typ = "netdev" -> bl_Type child = "wireguard_peer" -> "wireguard_peer" ∈ objects /\ attributes child !! "" = None /\ peers_map values) ->
  tracks path ["lifecycle"; "activation"] objects seen values ->
  agree (tracks path ["lifecycle"; "activation"] objects)
    (networkd_object_child_shape (order := o1) file path typ seen child)
    (networkd_object_child (order := o2) file path typ ctx values child).
Proof.
  intros Hobj Hpeer Ht. assert (plain_names ["lifecycle"; "activation"] objects = true) as Hp by (by destruct Hobj; subst).
  assert ("section" ∈ objects) as Hsec by (destruct Hobj; subst; by left).
  unfold networkd_object_child_shape, networkd_object_child. repeat case_bool_decide.
  - apply once_agree; [done|set_solver|done|apply lifecycle_agree].
  - pose proof (object_agree file path _ objects "section" seen values child
      (fun p => validateGenericNetworkdSectionBlockShape (order := o1) file p child)
      (fun p => parseGenericNetworkdSectionBlock (order := o2) file p child ctx) Hp Hsec Ht
      (fun p => section_agree p child)) as Ha.
    revert Ha. destruct (one_label _ _ _) as [l|]; cbn; [|done].
    destruct (parseGenericNetworkdSectionBlock _ _ _ _) as [v|]; cbn; [|done].
    destruct (check_object _ _ _ _ _ _), (add_object _ _ _ _ _ _ _); cbn; try done. apply order_tracks.
  - apply once_agree; [done|set_solver|done|apply activation_agree].
  - destruct (Hpeer ltac:(done) ltac:(done)) as (Hin & Hn & Hm). apply agree_step. intros _ _.
    assert (Hmap : IsMap (collection_of file path "wireguard_peer" child values) = true).
    { unfold collection_of. destruct (values !! _) eqn:E; [by apply Hm|done]. }
    cbv zeta. rewrite Hmap. cbn [guard_or].
    apply (object_agree file path _ objects "wireguard_peer" seen values child
      (fun p => validateNetworkdSectionBlockShape (order := o1) file p child)
      (fun p => parseNetworkdSectionBlock (order := o2) file p child ctx)); [done..|].
    intros p. by apply peer_agree.
  - done.
  - done.
Qed.

Lemma networkd_object_agree path block :
  peers_ok block ->
  accepts (validateNetworkdObjectBlockShape (order := o1) file path block)
    (parseNetworkdObjectBlock (order := o2) file path block ctx).
Proof.
  intros Hpeers. apply agree_step. intros allowed Hallowed%of_option_Ok.
  set (objects := if has_peers block then ["section"; "wireguard_peer"] else ["section"]).
  assert (Hobj : objects = ["section"] \/ objects = ["section"; "wireguard_peer"]).
  { subst objects. destruct (has_peers block); auto. }
  assert (Hhas : forall child, child ∈ blocks block -> bl_Type block = "netdev" -> bl_Type child = "wireguard_peer" ->
    has_peers block = true).
  { intros child Hc Hn Ht. apply andb_true_iff. split; [by apply bool_decide_eq_true|]. apply existsb_exists.
    exists child. rewrite bool_decide_true by done. by rewrite <- list_elem_of_In. }
  eapply (body_agree (fun seen values =>
    tracks path ["lifecycle"; "activation"] objects seen values /\ (has_peers block = true -> peers_map values))).
  - intros *. apply eval_attr_err.
  - intros values Hd Ha.
    assert (Hno : forall n, n ∈ ["lifecycle"; "activation"; "section"] -> values !! n = None).
    { eapply absent; [done..|]. unfold networkd_object_attrs in Hallowed. by repeat case_bool_decide; simplify_eq. }
    assert (Hw : has_peers block = true -> values !! "wireguard_peer" = None).
    { intros [Hn%bool_decide_eq_true (child & Hc%list_elem_of_In & Ht%bool_decide_eq_true)%existsb_exists]%andb_true_iff.
      apply not_elem_of_dom. rewrite Hd. apply not_elem_of_dom. by eapply Hpeers. }
    split; [|by intros Hp c; rewrite (Hw Hp)].
    apply tracks_empty. intros n [Hn|Hn]; [apply Hno; set_solver|]. subst objects.
    destruct (has_peers block); [|apply Hno; set_solver].
    apply elem_of_cons in Hn as [->|Hn]; [apply Hno; set_solver|].
    apply list_elem_of_singleton in Hn as ->. by apply Hw.
  - intros seen values child Hc [Ht Hm].
    apply agree_with.
    + apply networkd_object_child_agree; [done| |done]. intros Hn Hw. assert (Hp := Hhas child Hc Hn Hw).
      split; [subst objects; rewrite Hp; by right; left|]. split; [by apply (Hpeers Hn child)|auto].
    + intros values' Hr Hp. eapply networkd_object_child_map; [done|auto].
Qed.

(** The validators of sections that hold labelled objects keep them as pairs. *)
Definition tracks_pairs (types : list string) (seen : gset (string * string)) (values : gmap string Value) : Prop :=
  forall o l, o ∈ types -> (o, l) ∈ seen <-> labelled values o l.

Lemma pair_agree {X} (get : X -> gset (string * string)) (put : gset (string * string) -> X -> X)
    (Q : X -> gmap string Value -> Prop) path types o seen values block
    (check : string -> P unit) (read : string -> P Value) :
  o ∈ types -> tracks_pairs types (get seen) values ->
  (forall l object, tracks_pairs types ({[(o, l)]} ∪ get seen)
     (<[o := with_map (<[l := object]> (v_Map (collection_of file path o block values)))
              (collection_of file path o block values)]> values) ->
     Q (put ({[(o, l)]} ∪ get seen) seen)
       (<[o := with_map (<[l := object]> (v_Map (collection_of file path o block values)))
              (collection_of file path o block values)]> values)) ->
  (forall object_path, accepts (check object_path) (read object_path)) ->
  agree Q
    (label ← one_label file (path +:+ "." +:+ o) block;
     let objectPath := object_path path o label in
     _ ← check objectPath;
     _ ← guard_or (negb (bool_decide ((o, label) ∈ get seen))) (duplicate_object file objectPath block);
     Ok (put ({[(o, label)]} ∪ get seen) seen))
    (label ← one_label file (path +:+ "." +:+ o) block;
     object ← read (object_path path o label);
     add_object file path o label block object values).
Proof.
  intros Ho Ht HQ Hcr. apply agree_step. intros l _. cbv zeta. eapply agree_bind; [apply Hcr|]. intros [] object _.
  assert (Hl := Ht o l Ho).
  assert (Hadd : is_Some (v_Map (collection_of file path o block values) !! l) <-> labelled values o l).
  { unfold labelled, collection_of. destruct (values !! o) as [c|]; cbn; [naive_solver|].
    rewrite lookup_empty. split; [by intros [? ?]|naive_solver]. }
  unfold add_object. case_bool_decide as Hin; cbn.
  - apply Hl, Hadd in Hin as [x ->]. done.
  - destruct (v_Map _ !! l) eqn:Em; [exfalso; apply Hin, Hl, Hadd; eauto|]. apply HQ.
    intros o' l' Ho'. rewrite labelled_add, elem_of_union, elem_of_singleton, (Ht o' l' Ho').
    apply or_iff_compat_r. naive_solver.
Qed.

Lemma networkd_child_agree path seen values child :
  peers_ok child -> tracks_pairs ["netdev"; "network"] seen values ->
  agree (tracks_pairs ["netdev"; "network"]) (networkd_child_shape (order := o1) file path seen child)
    (networkd_child (order := o2) file path ctx values child).
Proof.
  intros Hp Ht. unfold networkd_child_shape, networkd_child. case_bool_decide as Hty; [|done].
  apply (pair_agree (fun s => s) (fun s _ => s) _ path ["netdev"; "network"] (bl_Type child) seen values child
    (fun p => validateNetworkdObjectBlockShape (order := o1) file p child)
    (fun p => parseNetworkdObjectBlock (order := o2) file p child ctx)); [set_solver|done|done|].
  intros p. by apply networkd_object_agree.
Qed.

Lemma pairs_empty types (values : gmap string Value) :
  (forall n, n ∈ types -> values !! n = None) -> tracks_pairs types ∅ values.
Proof. intros Hv o l Ho. unfold labelled. rewrite Hv by done. split; [set_solver|naive_solver]. Qed.

Lemma networkd_agree path block :
  (forall child, child ∈ blocks block -> peers_ok child) ->
  accepts (validateNetworkdBlockShape (order := o1) file path block)
    (parseNetworkdBlock (order := o2) file path block ctx).
Proof.
  intros Hp. apply agree_step. intros _ _. eapply (body_agree (tracks_pairs ["netdev"; "network"])).
  - intros *. apply eval_attr_err.
  - intros values Hd Ha. apply pairs_empty. by eapply absent.
  - intros. apply networkd_child_agree; auto.
Qed.

(** *** Labelled objects *)

Lemma mapi_res_err {A B} (p : parse_error -> Prop) (f : nat -> A -> P B) i l e :
  (forall j x e, f j x = Err e -> p e) -> mapi_res f i l = Err e -> p e.
Proof.
  intros Hf. revert i. induction l as [|x l IH]; intros i; cbn; [done|].
  rewrite bind_Err. intros [Hx|(y & _ & Hx)]; [by eapply Hf|].
  apply bind_Err in Hx as [Hx|(r & _ & [=])]. by eapply IH.
Qed.

Lemma resource_list_err e source err :
  parseResourceReferenceList file e source = Err err -> ~ is_shape err.
Proof.
  unfold parseResourceReferenceList. destruct (hcl_ExprList e) as [items|]; [|by intros [= <-] []].
  rewrite bind_Err. intros [Hm|(refs & _ & [=])]. revert Hm. apply (mapi_res_err (fun e => ~ is_shape e)). intros j x e'.
  rewrite bind_Err. intros [Hx|(r & _ & [=])]. revert Hx. unfold parseResourceTraversal.
  repeat case_match; intros [=]; subst; cbn; auto.
Qed.

Lemma read_labeled_err domain path typ n a e :
  read_labeled_attr file domain path typ ctx n a = Err e -> ~ is_shape e.
Proof.
  unfold read_labeled_attr. repeat case_bool_decide; [apply resource_list_err|apply read_script_err|apply eval_attr_err].
Qed.

Lemma labeled_agree domain path block :
  accepts (validateLabeledObjectBlockShape (order := o1) file domain path block)
    (parseLabeledObjectBlock (order := o2) file domain path block ctx).
Proof.
  eapply (body_agree (tracks path ["lifecycle"; "signing_key"] [])).
  - intros *. apply read_labeled_err.
  - intros values Hd Ha. apply tracks_empty. intros n [Hn|Hn]; [|set_solver].
    eapply (absent _ _ _ ["lifecycle"; "signing_key"]); [done..| |done].
    unfold allowedLabeledObjectAttrs. cbv zeta. by repeat case_bool_decide.
  - intros seen values child _ Ht. unfold labeled_child_shape, labeled_child. repeat case_bool_decide; try done.
    + apply once_agree; [done|set_solver|done|apply lifecycle_agree].
    + apply agree_step. intros _ _. apply once_agree; [done|set_solver|done|apply signing_key_agree].
Qed.

(** *** Sections and bodies *)

Record domain_tracks (domain : string) (seen : shape_seen) (values : gmap string Value) : Prop := {
  dt_single : forall n, n ∈ ["main"; "networkd"; "resolved"; "journald"] ->
    n ∈ ss_values seen <-> is_Some (values !! n);
  dt_pairs : tracks_pairs (allowedDomainObjectBlocks domain) (ss_objects seen) values;
}.

Lemma domain_names domain n o :
  n ∈ ["main"; "networkd"; "resolved"; "journald"] -> o ∈ allowedDomainObjectBlocks domain -> n <> o.
Proof.
  intros Hn Ho ->. revert Hn Ho. unfold allowedDomainObjectBlocks. cbv zeta.
  repeat case_bool_decide; cbn; set_solver.
Qed.

Lemma domain_once domain n seen values path block check read :
  n ∈ ["main"; "networkd"; "resolved"; "journald"] -> domain_tracks domain seen values ->
  accepts check read ->
  agree (domain_tracks domain) (once_seen file path n block seen check) (read_once file path n block values read).
Proof.
  intros Hn [Hs Hp] Hcr. unfold once_seen, check_once, read_once. assert (Hsn := Hs n Hn).
  case_bool_decide as Hin; cbn.
  - apply Hsn in Hin as [x ->]. done.
  - destruct (values !! n) eqn:En; [exfalso; apply Hin, Hsn; eauto|].
    destruct check as [u|], read as [object|]; cbn in *; try done. split; cbn.
    + intros m Hm. rewrite elem_of_union, elem_of_singleton, Hs by done.
      destruct (decide (m = n)) as [->|]; [rewrite lookup_insert_eq|rewrite lookup_insert_ne by done]; naive_solver.
    + intros o l Ho. rewrite labelled_insert_ne by (by eapply domain_names). by apply Hp.
Qed.

Definition networkd_ok (block : Block) : Prop :=
  forall networkd child, networkd ∈ blocks block -> bl_Type networkd = "networkd" -> child ∈ blocks networkd ->
    peers_ok child.

Lemma domain_child_agree path domain seen values child :
  (domain = "systemd" -> bl_Type child = "networkd" -> forall c, c ∈ blocks child -> peers_ok c) ->
  domain_tracks domain seen values ->
  agree (domain_tracks domain) (domain_child_shape (order := o1) file path domain seen child)
    (domain_child (order := o2) file path domain ctx values child).
Proof.
  intros Hp Ht. unfold domain_child_shape, domain_child. cbv zeta.
  case_bool_decide; [apply domain_once; [set_solver|done|apply nftables_agree]|].
  case_bool_decide as Hn; [apply domain_once; [set_solver|done|]; apply networkd_agree, Hp; apply Hn|].
  case_bool_decide as Hs; [apply domain_once; [destruct Hs; set_solver|done|apply singleton_agree]|].
  apply agree_step. intros _ Hin%guard_or_Ok%bool_decide_eq_true.
  apply (pair_agree ss_objects (fun objects s => {| ss_values := ss_values s; ss_objects := objects |})
    (domain_tracks domain) path (allowedDomainObjectBlocks domain) (bl_Type child) seen values child
    (fun p => validateLabeledObjectBlockShape (order := o1) file domain p child)
    (fun p => parseLabeledObjectBlock (order := o2) file domain p child ctx)); [done|apply Ht| |].
  - intros l object Hpairs. split; cbn; [|done]. intros n Hnn.
    rewrite lookup_insert_ne; [by apply Ht|]. assert (n <> bl_Type child) by (by eapply domain_names). congruence.
  - intros p. apply labeled_agree.
Qed.

Lemma domain_agree path block :
  bl_Type block <> "docker" -> (bl_Type block = "systemd" -> networkd_ok block) ->
  accepts (validateDomainBlockShape (order := o1) file path block)
    (parseDomainBlock (order := o2) file path block ctx).
Proof.
  intros Hd Hn. unfold validateDomainBlockShape. rewrite (bool_decide_false _ Hd). cbn [andb].
  eapply (body_agree (domain_tracks (bl_Type block))).
  - intros *. apply eval_attr_err.
  - intros values Hdom Ha.
    assert (Hno : forall n, n ∈ ["main"; "networkd"; "resolved"; "journald"] ++ allowedDomainObjectBlocks (bl_Type block) ->
      values !! n = None).
    { eapply absent; [done..|]. unfold allowedDomainAttrs, allowedDomainObjectBlocks. cbv zeta.
      generalize (bl_Type block) as d. intros d. by repeat (case_bool_decide; subst; simplify_eq). }
    split; cbn.
    + intros n Hin. rewrite Hno by set_solver. split; [set_solver|by intros [? ?]].
    + apply pairs_empty. intros n Hin. apply Hno. set_solver.
  - intros seen values child Hc Ht. apply domain_child_agree; [|done]. intros Hs Ht' c Hcc. by eapply Hn.
Qed.
End blocks.

(** The library rejects attributes without a name, and no netdev declares its
    peers both as an attribute and as blocks. *)
Definition netdevs_ok `{HCL} (body : Body) : Prop :=
  forall block, block ∈ bd_Blocks body -> bl_Type block = "systemd" -> networkd_ok block.

Lemma component_agree `{!HCL} (o1 o2 : AttrOrder) source body ctx :
  netdevs_ok body ->
  accepts (ValidateComponentBodyShape (order := o1) source body)
    (ParseComponentBody (order := o2) source body ctx).
Proof.
  intros Hok. unfold ValidateComponentBodyShape, ParseComponentBody. eapply (agree_bind (fun _ _ => True)).
  { unfold component_attrs.
    pose proof (fun o => fold_guards (fun p : string * Attribute => bool_decide (p.1 ∈ ["type"; "version"]))
      (fun p => ShapeError (at_Filename p.2) (at_Line p.2) ("unsupported attribute " +:+ src_Path source +:+ "." +:+ p.1))
      (range_attrs (AttrOrder := o) (bd_Attributes body))) as Hc.
    destruct (Hc o1) as [[-> E1]|[[e1 ->] E1]], (Hc o2) as [[-> E2]|[[e2 ->] E2]]; cbn; try done;
      rewrite (forallb_range o1 o2) in E1; congruence. }
  intros _ _ _. eapply (agree_bind (tracks (src_Path source) component_sections [])); [|done].
  apply agree_fold; [apply tracks_empty; set_solver|]. intros block seen values Hb Ht.
  unfold component_child_shape, component_child. cbv zeta. case_bool_decide; [done|]. case_bool_decide as Hs; [|done].
  apply agree_step. intros _ _. apply once_agree; [done..|]. apply domain_agree; [|by apply Hok].
  intros E. rewrite E in Hs. assert (Hx : bool_decide ("docker" ∈ component_sections) = false) by reflexivity.
  by rewrite bool_decide_true in Hx.
Qed.


(** A component with a sensitive file and a netdev with two peers. *)
Module Demo.
Import Toy.

Definition lit (s : string) : Attribute :=
  {| at_Expr := ELit 1 (TC ∅ (TStr s)); at_Filename := "m.hcl"; at_Line := 1 |}.
Definition unbound : Attribute :=
  {| at_Expr := ERef 9 "target" [TraverseAttr "platform"]; at_Filename := "m.hcl"; at_Line := 9 |}.
Definition block (typ : string) (labels : list string) (attrs : list (string * Attribute)) (children : list Block) : Block :=
  mkBlock _ typ labels 2 (mkBody _ (list_to_map attrs) children 2).
Definition peer (label : string) : Block := block "wireguard_peer" [label] [("PublicKey", lit "k")] [].
Definition netdev : Block :=
  block "netdev" ["wg0"] [("wireguard", lit "w")] [peer "a"; peer "b"; block "lifecycle" [] [("prevent_destroy", lit "y")] []].
Definition file_with (content : Attribute) : Block := block "file" ["conf"] [("content", content)] [].
Definition component (content : Attribute) : Body :=
  mkBody _ {["type" := lit "binary"]}
    [block "input" ["i"] [] []; block "files" [] [] [file_with content];
     block "systemd" [] [] [block "networkd" [] [] [netdev]]] 1.
Definition source : SourceRef := {| src_File := "m.hcl"; src_Line := 1; src_Path := "component.c" |}.
Definition ctx : EvalContext :=
  {| ec_ModuleDir := "."; ec_Locals := ∅; ec_Variables := ∅; ec_RestrictVariableDefaultReferences := false |}.

Lemma demo_ok content : netdevs_ok (component content).
Proof.
  intros b Hb Ht networkd child Hn _ Hc _ p Hp _.
  repeat (apply elem_of_cons in Hb as [->|Hb]; [try discriminate Ht|]); [|by apply elem_of_nil in Hb].
  apply list_elem_of_singleton in Hn as ->. apply list_elem_of_singleton in Hc as ->. split; [done|].
  repeat (apply elem_of_cons in Hp as [->|Hp]; [done|]). by apply elem_of_nil in Hp.
Qed.
End Demo.

