(* ===== verification/Locals.v ===== *)
(** * Local values: [parser/locals.go]

    Locals are evaluated on demand, each after the locals its expression
    refers to.  A first pass, before the values of the variables are known,
    evaluates those that do not depend on a variable; a second pass evaluates
    them all. *)
From S2P Require Import Prelude Sha256 GoValue GoStrings IR Values InputType Merge Hcl.

Inductive visit_state := LocalVisiting | LocalVisited.
#[export] Instance visit_state_eq_dec : EqDecision visit_state.
Proof. solve_decision. Defined.

Section locals.
Context `{!HCL}.

Record localDefinition := {
  ld_Name : string;
  ld_Expr : hcl_expr;
  ld_Source : SourceRef;
  ld_ModuleDir : string;
}.

Inductive local_error :=
| UnknownLocal (name : string)
| LocalsCycle (chain : list string)
| LocalRequiresVariables
| InDefinition (def : localDefinition) (cause : parse_error)
| InVariable (name : string) (cause : parse_error)
| LocalsOutOfFuel.

(** [values] and [state]; a name without a state is unvisited. *)
Record local_world := { lw_values : gmap string Value; lw_state : gmap string visit_state }.
Abbreviation L := (M local_error local_world).

Definition traversalRoot (t : Traversal) : option string :=
  match tr_steps t with TraverseRoot name :: _ => Some name | _ => None end.
Definition traversalFirstAttr (t : Traversal) : option string :=
  match tr_steps t with _ :: TraverseAttr name :: _ => Some name | _ => None end.

(** Some reference of the expression starts at [name]. *)
Definition references_root (e : hcl_expr) (name : string) : bool :=
  existsb (fun t => bool_decide (traversalRoot t = Some name)) (hcl_Variables e).
Definition localExprReferencesVar (e : hcl_expr) : bool := references_root e "var".

Definition local_name (t : Traversal) : option string :=
  if bool_decide (traversalRoot t = Some "local") then traversalFirstAttr t else None.
Definition localDependencies (e : hcl_expr) : list string :=
  sort_strings (elements (list_to_set (omap local_name (hcl_Variables e)) : gset string)).

(** The chain of a cycle, from the first occurrence of the repeated name. *)
Definition cycle_chain (stack : list string) (repeated : string) : list string :=
  let start := match list_find (fun name => name = repeated) stack with Some (i, _) => i | None => 0 end in
  drop start stack ++ [repeated].
Definition localCycleError (stack : list string) (repeated : string) : local_error :=
  LocalsCycle ((fun name => "local." +:+ name) <$> cycle_chain stack repeated).

Definition set_state (name : string) (s : visit_state) (w : local_world) : local_world :=
  {| lw_values := lw_values w; lw_state := <[name := s]> (lw_state w) |}.
Definition store_local (name : string) (value : Value) (w : local_world) : local_world :=
  {| lw_values := <[name := value]> (lw_values w); lw_state := <[name := LocalVisited]> (lw_state w) |}.
(** The deferred function. *)
Definition leave_local (name : string) (w : local_world) : local_world :=
  {| lw_values := lw_values w;
     lw_state := if bool_decide (lw_state w !! name = Some LocalVisiting) then delete name (lw_state w) else lw_state w |}.

Section evaluate.
(** The fields of the configuration: the definitions, the declared variables
    and their values. *)
Context {V : Type}.
Variable localDefinitions : gmap string localDefinition.
Variable Variables : gmap string V.
Variable VariableValues : gmap string Value.

Definition variableNamespaceValue : result local_error cty :=
  entries ← seq_res ((fun p => x ← map_err (InVariable p.1) (ToCty p.2); Ok (p.1, x)) <$> sorted_entries VariableValues);
  Ok (cty_ObjectVal (list_to_map entries)).

Variable allowVariables : bool.

Definition validateLocalReferences (def : localDefinition) : P unit :=
  fold_res (fun _ t =>
    match traversalRoot t, traversalFirstAttr t with
    | Some root, Some name =>
        if bool_decide (root = "local") then
          guard_or (bool_decide (is_Some (localDefinitions !! name))) (Plain ("unknown local local." +:+ name))
        else if bool_decide (root = "var") && allowVariables then
          guard_or (bool_decide (is_Some (Variables !! name)) && bool_decide (is_Some (VariableValues !! name)))
            (Plain ("unknown variable var." +:+ name))
        else Ok tt
    | _, _ => Ok tt
    end) (hcl_Variables (ld_Expr def)) tt.

Variable variables : gmap string cty.

Definition local_context (def : localDefinition) (values : gmap string Value) : EvalContext :=
  {| ec_ModuleDir := ld_ModuleDir def; ec_Locals := values; ec_Variables := variables;
     ec_RestrictVariableDefaultReferences := false |}.
Definition evalLocal (def : localDefinition) (values : gmap string Value) : P Value :=
  evalValue (ld_Expr def) (local_context def values) (ld_Source def).

Definition store_value (name : string) (def : localDefinition) : L Value := fun w =>
  match evalLocal def (lw_values w) with
  | Err e => (Err (InDefinition def e), w)
  | Ok value => (Ok value, store_local name value w)
  end.

(** The part of [eval] that the deferred function covers. *)
Definition eval_definition (eval : string -> list string -> L Value) (name : string) (def : localDefinition)
    (stack : list string) : L Value :=
  _ ← lift (map_err (InDefinition def) (validateLocalReferences def));
  _ ← fold_M (fun _ dep => _ ← eval dep (stack ++ [name]); mret tt) (localDependencies (ld_Expr def)) tt;
  store_value name def.

Fixpoint eval_local (fuel : nat) (name : string) (stack : list string) : L Value := fun w =>
  match lw_values w !! name with
  | Some value => (Ok value, w)
  | None =>
      match localDefinitions !! name with
      | None => (Err (UnknownLocal name), w)
      | Some def =>
          match lw_state w !! name with
          | Some LocalVisited => (Ok (default zeroValue (lw_values w !! name)), w)
          | Some LocalVisiting => (Err (localCycleError stack name), w)
          | None =>
              if negb allowVariables && localExprReferencesVar (ld_Expr def) then (Err LocalRequiresVariables, w)
              else
                match fuel with
                | O => (Err LocalsOutOfFuel, w)
                | S fuel =>
                    let (r, w') := eval_definition (eval_local fuel) name def stack (set_state name LocalVisiting w) in
                    (r, leave_local name w')
                end
          end
      end
  end.

(** The loop over the names.  A name on the stack is being visited, so that
    calls nest at most as deep as there are definitions. *)
Definition eval_top (name : string) : L unit := fun w =>
  match lw_values w !! name with
  | Some _ => (Ok tt, w)
  | None =>
      let (r, w) := eval_local (S (size localDefinitions)) name [] w in
      match r with
      | Ok _ | Err LocalRequiresVariables => (Ok tt, w)
      | Err e => (Err e, w)
      end
  end.

Definition evaluate_definitions : result local_error (gmap string Value) :=
  match fold_M (fun _ => eval_top) (sorted_keys localDefinitions) tt {| lw_values := ∅; lw_state := ∅ |} with
  | (Ok _, w) => Ok (lw_values w)
  | (Err e, _) => Err e
  end.

End evaluate.

Section passes.
Context {V : Type}.
Variable localDefinitions : gmap string localDefinition.
Variable Variables : gmap string V.
Variable VariableValues : gmap string Value.

Definition evaluateLocalDefinitions (allowVariables : bool) : result local_error (gmap string Value) :=
  variables ← (if allowVariables
    then (fun namespace => {["var" := namespace]}) <$> variableNamespaceValue VariableValues else Ok ∅);
  evaluate_definitions localDefinitions Variables VariableValues allowVariables variables.

Definition evaluateStaticLocals : result local_error (gmap string Value) := evaluateLocalDefinitions false.
Definition evaluateLocals : result local_error (gmap string Value) := evaluateLocalDefinitions true.
End passes.

End locals.

(** ** What the evaluation computes

    The locals are a system of equations, one per definition.  When evaluation
    succeeds its result is the only solution; otherwise the error names a real
    cycle, or a definition that has no value. *)

(** ** Values of expressions can be converted back *)

Definition convertible `{HCL} (l : gmap string Value) : Prop :=
  forall n v, l !! n = Some v -> is_ok (ToCty v) = true.

(** The number of a value can be read back. *)
Class HCLNumbers `{HCL} :=
  number_text_parses : forall v, cty_Type v = CtyNumber -> is_ok (cty_ParseNumberVal (cty_NumberText v)) = true.

Lemma seq_res_ok {E A} (l : list (result E A)) : is_ok (seq_res l) = forallb is_ok l.
Proof.
  induction l as [|[a|e] l IH]; cbn; [done| |done]. rewrite <- IH. by destruct (seq_res l).
Qed.

Lemma is_ok_then {E A B} (m : result E A) (f : A -> B) : is_ok (m ≫= (fun a => Ok (f a))) = is_ok m.
Proof. by destruct m. Qed.
Lemma is_ok_fmap {E A B} (m : result E A) (f : A -> B) : is_ok (f <$> m) = is_ok m.
Proof. by destruct m. Qed.
Lemma is_ok_map_err {E E' A} (m : result E A) (f : E -> E') : is_ok (map_err f m) = is_ok m.
Proof. by destruct m. Qed.

Section convertible.
Context `{!HCL}.

Lemma ToCty_list v : v_Kind v = KindList -> is_ok (ToCty v) = true <-> forall x, x ∈ v_List v -> is_ok (ToCty x) = true.
Proof.
  intros Hk. destruct v; cbn in Hk; subst. cbn. rewrite is_ok_then, is_ok_fmap, seq_res_ok, forallb_forall.
  split.
  - intros Hall x Hx. apply Hall, list_elem_of_In, list_elem_of_fmap. eauto.
  - intros Hall r (x & -> & Hx)%list_elem_of_In%list_elem_of_fmap. auto.
Qed.

Lemma ToCty_map v : v_Kind v = KindMap -> is_ok (ToCty v) = true <-> convertible (v_Map v).
Proof.
  intros Hk. destruct v; cbn in Hk; subst. cbn. rewrite is_ok_then, is_ok_then, seq_res_ok, forallb_forall.
  unfold convertible. split.
  - intros Hall k x Hx. specialize (Hall (y ← ToCty x; Ok (k, y))). rewrite is_ok_then in Hall.
    apply Hall, list_elem_of_In, list_elem_of_fmap. exists (k, ToCty x). split; [done|].
    apply elem_of_sorted_entries. by rewrite lookup_fmap, Hx.
  - intros Hall r ([k r'] & -> & Hr)%list_elem_of_In%list_elem_of_fmap. rewrite is_ok_then. cbn.
    apply elem_of_sorted_entries in Hr. rewrite lookup_fmap in Hr.
    destruct (_ !! k) as [x|] eqn:Ek; [|done]. injection Hr as <-. by eapply Hall.
Qed.

Lemma ToCty_marks s e v : is_ok (ToCty (with_marks s e v)) = is_ok (ToCty v).
Proof. destruct v as [[] ? ? ? ? ? ? ? ? ? ? ? ?]; cbn; by rewrite ?is_ok_then. Qed.
Lemma ToCty_modifier m v : is_ok (ToCty (with_modifier m v)) = is_ok (ToCty v).
Proof. destruct v as [[] ? ? ? ? ? ? ? ? ? ? ? ?]; cbn; by rewrite ?is_ok_then. Qed.
Lemma ToCty_source source v : is_ok (ToCty (with_source source v)) = is_ok (ToCty v).
Proof. destruct v as [[] ? ? ? ? ? ? ? ? ? ? ? ?]; cbn; by rewrite ?is_ok_then. Qed.

Lemma mapi_res_all {A B} (p : B -> Prop) (f : nat -> A -> P B) i l out :
  (forall j x y, f j x = Ok y -> p y) -> mapi_res f i l = Ok out -> forall y, y ∈ out -> p y.
Proof.
  intros Hf. revert i out. induction l as [|x l IH]; intros i out; cbn.
  - intros [= <-] y Hy. by apply elem_of_nil in Hy.
  - rewrite bind_Ok. intros (y & Hy & Hl). apply bind_Ok in Hl as (ys & Hys & [= <-]).
    intros z [->|Hz]%elem_of_cons; [by eapply Hf|by eapply IH].
Qed.

Lemma fold_res_entries {A} (f : gmap string Value -> A -> P (gmap string Value)) l m out :
  (forall m x m', convertible m -> f m x = Ok m' -> convertible m') ->
  convertible m -> fold_res f l m = Ok out -> convertible out.
Proof.
  intros Hf. revert m. induction l as [|x l IH]; intros m Hm; cbn; [by intros [= <-]|].
  destruct (f m x) as [m'|] eqn:E; [|done]. apply IH. by eapply Hf.
Qed.

Lemma convertible_insert m k v : convertible m -> is_ok (ToCty v) = true -> convertible (<[k := v]> m).
Proof. intros Hm Hv n x. rewrite lookup_insert_Some. intros [[<- <-]|[_ Hx]]; [done|by eapply Hm]. Qed.
Lemma convertible_empty : convertible ∅.
Proof. intros n v. by rewrite lookup_empty. Qed.

Context {Hnum : HCLNumbers}.

Lemma ctyToValue_convertible fuel value source v :
  ctyToValue_ fuel value source = Ok v -> is_ok (ToCty v) = true.
Proof.
  revert value source v. induction fuel as [|fuel IH]; intros value source v; cbn [ctyToValue_]; [done|].
  rewrite bind_Ok. intros (_ & _ & Hv). cbv zeta in Hv. destruct (negb _); [done|].
  apply bind_Ok in Hv as (out & Hout & [= <-]). rewrite ToCty_marks. revert Hout.
  destruct (cty_IsNull _); [by intros [= <-]|].
  assert (Hlist : forall items, (forall y, y ∈ items -> is_ok (ToCty y) = true) ->
    is_ok (ToCty (listValue items source)) = true) by (intros; by apply ToCty_list).
  destruct (cty_Type _) eqn:Et; try (by intros [= <-]).
  - intros [= <-]. cbn. rewrite is_ok_then, is_ok_map_err. by apply number_text_parses.
  - rewrite bind_Ok. intros (items & Hi & [= <-]). apply Hlist. eapply mapi_res_all; [|exact Hi]. cbn. eauto.
  - rewrite bind_Ok. intros (items & Hi & [= <-]). apply Hlist. eapply mapi_res_all; [|exact Hi]. cbn. eauto.
  - rewrite bind_Ok. intros (items & Hi & [= <-]). apply ToCty_map; [done|].
    eapply fold_res_entries; [|apply convertible_empty|exact Hi]. cbn. intros m x m' Hm.
    rewrite bind_Ok. intros (y & Hy & [= <-]). apply convertible_insert; eauto.
Qed.

Lemma evalValue_convertible fuel e ctx source v :
  evalValue_ fuel e ctx source = Ok v -> is_ok (ToCty v) = true.
Proof.
  revert e source v. induction fuel as [|fuel IH]; intros e source v; cbn [evalValue_]; [done|]. cbv zeta.
  match goal with |- context [match hcl_ExprList e with Some _ => _ | None => _ end] => idtac end.
  set (plain := match hcl_ExprList e with Some items => _ | None => _ end).
  assert (Hplain : plain = Ok v -> is_ok (ToCty v) = true).
  { subst plain. destruct (hcl_ExprList e) as [items|].
    - rewrite bind_Ok. intros (values & Hi & [= <-]). apply ToCty_list; [done|].
      eapply mapi_res_all; [|exact Hi]. cbn. eauto.
    - destruct (hcl_ExprMap e) as [pairs|].
      + rewrite bind_Ok. intros (vars & _ & Hv). apply bind_Ok in Hv as (values & Hi & [= <-]).
        apply ToCty_map; [done|]. eapply fold_res_entries; [|apply convertible_empty|exact Hi]. cbn.
        intros m x m' Hm. rewrite bind_Ok. intros (k & _ & Hx). apply bind_Ok in Hx as (y & Hy & [= <-]).
        apply convertible_insert; eauto.
      + rewrite bind_Ok. intros (_ & _ & Hv). apply bind_Ok in Hv as (value & _ & Hv).
        by eapply ctyToValue_convertible. }
  destruct (hcl_Call e) as [[name args]|]; [|done]. case_bool_decide.
  - rewrite bind_Ok. intros (_ & _ & [= <-]). done.
  - destruct (list_modifier name); [|done]. destruct args as [|arg []]; try done.
    rewrite bind_Ok. intros (value & Hv & [= <-]). rewrite ToCty_source, ToCty_modifier. eauto.
Qed.
End convertible.

(** ** The search *)

Section search.
Context `{!HCL} {Hnum : HCLNumbers} {V : Type}.
Variable defs : gmap string localDefinition.
Variable Variables : gmap string V.
Variable VariableValues : gmap string Value.
Variable allow : bool.
Variable variables : gmap string cty.

Abbreviation eval := (eval_local defs Variables VariableValues allow variables).
Abbreviation validate := (validateLocalReferences defs Variables VariableValues allow).
Abbreviation value_in := (fun def => evalLocal variables def).

(** [local.a] occurs in the definition of [b]. *)
Definition refers (b a : string) : Prop :=
  exists def, defs !! b = Some def /\ a ∈ localDependencies (ld_Expr def).

(** A walk along references that ends where it starts. *)
Definition local_cycle (c : list string) : Prop := exists a mid, c = a :: mid ++ [a] /\ Sorted refers c.

(** Evaluation depends on the locals that the expression names. *)
Definition names_its_locals : Prop :=
  forall name def l l', defs !! name = Some def -> convertible l -> convertible l' ->
    (forall a, a ∈ localDependencies (ld_Expr def) -> l !! a = l' !! a) ->
    evalLocal variables def l = evalLocal variables def l'.

(** What has been computed solves the equations of its names. *)
Definition partial_solution (l : gmap string Value) : Prop :=
  forall name v, l !! name = Some v -> exists def, defs !! name = Some def
    /\ evalLocal variables def l = Ok v
    /\ (forall a, a ∈ localDependencies (ld_Expr def) -> is_Some (l !! a))
    /\ (allow || negb (localExprReferencesVar (ld_Expr def))) = true.

Definition needs_variables (name : string) : Prop :=
  allow = false /\ exists n def, rtc refers name n /\ defs !! n = Some def /\ localExprReferencesVar (ld_Expr def) = true.

Definition justified (name : string) (e : local_error) : Prop :=
  match e with
  | LocalsCycle chain => exists c, chain = (fun n => "local." +:+ n) <$> c /\ local_cycle c
  | LocalRequiresVariables => needs_variables name
  | InDefinition def cause => exists n l, defs !! n = Some def /\ partial_solution l
      /\ (validate def = Err cause
          \/ ((forall a, a ∈ localDependencies (ld_Expr def) -> is_Some (l !! a)) /\ evalLocal variables def l = Err cause))
  | _ => False
  end.

Record search_ok (w : local_world) (stack : list string) : Prop := {
  so_values : partial_solution (lw_values w);
  so_stack : forall n, lw_state w !! n = Some LocalVisiting <-> n ∈ stack;
  so_visited : forall n, lw_state w !! n = Some LocalVisited -> is_Some (lw_values w !! n);
  so_nodup : NoDup stack;
  so_defs : forall n, n ∈ stack -> is_Some (defs !! n) /\ lw_values w !! n = None;
  so_path : Sorted refers stack;
  so_acc : forall n, is_Some (lw_values w !! n) -> Acc (fun a b => refers b a) n;
}.

Definition may_eval (name : string) (stack : list string) : Prop :=
  is_Some (defs !! name) /\ forall p, last stack = Some p -> refers p name.

Definition search_post (w : local_world) (stack : list string) (name : string) (out : result local_error Value * local_world)
  : Prop :=
  search_ok out.2 stack /\ lw_values w ⊆ lw_values out.2 /\
  match out.1 with Ok v => lw_values out.2 !! name = Some v | Err e => justified name e end.

Lemma partial_convertible l : partial_solution l -> convertible l.
Proof.
  intros Hl n v Hv. destruct (Hl n v Hv) as (def & _ & He & _). unfold evalLocal, evalValue in He.
  by eapply evalValue_convertible.
Qed.

Lemma elem_of_dependencies e a :
  a ∈ localDependencies e <-> exists t, t ∈ hcl_Variables e /\ local_name t = Some a.
Proof.
  unfold localDependencies. rewrite elem_of_sort_strings, elem_of_elements, elem_of_list_to_set, list_elem_of_omap. done.
Qed.

(** Accepted references are defined. *)
Lemma validate_closed def a :
  validate def = Ok tt -> a ∈ localDependencies (ld_Expr def) -> is_Some (defs !! a).
Proof.
  unfold validateLocalReferences. rewrite fold_res_check. intros Hall (t & Ht & Hn)%elem_of_dependencies.
  apply Hall in Ht. unfold local_name in Hn. case_bool_decide as Hr; [|done]. rewrite Hr, Hn in Ht.
  rewrite bool_decide_true in Ht by done. apply guard_or_Ok in Ht. by apply bool_decide_eq_true in Ht.
Qed.

Lemma stack_size w stack : search_ok w stack -> length stack <= size defs.
Proof.
  intros Hs. rewrite <- size_dom. rewrite <- (size_list_to_set (C := gset string)) by apply Hs.
  apply subseteq_size. intros n. rewrite elem_of_list_to_set, elem_of_dom. apply Hs.
Qed.

Lemma cycle_found w stack name :
  search_ok w stack -> may_eval name stack -> name ∈ stack -> justified name (localCycleError stack name).
Proof.
  intros Hs [_ He] Hin. exists (cycle_chain stack name). split; [done|]. unfold cycle_chain.
  destruct (list_find (fun n => n = name) stack) as [[i n]|] eqn:Ef.
  - apply list_find_Some in Ef as (Hi & -> & _). exists name, (drop (S i) stack).
    rewrite (drop_S _ name) by done. split; [done|]. rewrite <- (drop_S _ name i) by done.
    assert (Sorted refers (stack ++ [name])) as Hp by (apply Sorted_snoc; [apply Hs|done]).
    rewrite <- (take_drop i stack), <- app_assoc in Hp. by apply Sorted_app_r in Hp.
  - apply list_find_None in Ef. rewrite Forall_forall in Ef. by apply Ef in Hin.
Qed.

Lemma push_search_ok w stack name :
  search_ok w stack -> may_eval name stack -> name ∉ stack -> lw_values w !! name = None ->
  search_ok (set_state name LocalVisiting w) (stack ++ [name]).
Proof.
  intros [Hv Hst Hvis Hnd Hd Hp Ha] [Hdef He] Hni Hn. split; cbn.
  - done.
  - intros n. rewrite lookup_insert_Some, elem_of_app, list_elem_of_singleton, <- Hst.
    destruct (decide (n = name)); naive_solver.
  - intros n. rewrite lookup_insert_Some. intros [[_ [=]]|[_ Hx]]. by apply Hvis.
  - apply NoDup_app. split; [done|]. split; [set_solver|repeat constructor; set_solver].
  - intros n. rewrite elem_of_app, list_elem_of_singleton. intros [Hx| ->]; [by apply Hd|done].
  - by apply Sorted_snoc.
  - done.
Qed.

(** Leaving [name] after an error below it. *)
Lemma leave_ok w w' stack name :
  search_ok w stack -> search_ok w' (stack ++ [name]) -> name ∉ stack -> search_ok (leave_local name w') stack.
Proof.
  intros Hs [Hv Hst Hvis Hnd Hd Hp Ha] Hni.
  assert (lw_state w' !! name = Some LocalVisiting) as Hname by (apply Hst; set_solver).
  unfold leave_local. rewrite bool_decide_true by done. split; cbn.
  - done.
  - intros n. rewrite lookup_delete_Some, Hst, elem_of_app, list_elem_of_singleton. naive_solver.
  - intros n. rewrite lookup_delete_Some. intros [_ Hx]. by apply Hvis.
  - apply Hs.
  - intros n Hn. apply Hd. set_solver.
  - apply Hs.
  - done.
Qed.

Lemma insert_solution l name def v :
  names_its_locals -> partial_solution l -> l !! name = None -> defs !! name = Some def ->
  evalLocal variables def l = Ok v -> (forall a, a ∈ localDependencies (ld_Expr def) -> is_Some (l !! a)) ->
  (allow || negb (localExprReferencesVar (ld_Expr def))) = true ->
  partial_solution (<[name := v]> l).
Proof.
  intros Hloc Hl Hn Hdef Hv Hdeps Hallow.
  assert (Hc : convertible (<[name := v]> l)).
  { apply convertible_insert; [by apply partial_convertible|]. by eapply evalValue_convertible. }
  assert (Hkeep : forall n def', defs !! n = Some def' -> (forall a, a ∈ localDependencies (ld_Expr def') -> is_Some (l !! a)) ->
    evalLocal variables def' (<[name := v]> l) = evalLocal variables def' l
    /\ forall a, a ∈ localDependencies (ld_Expr def') -> is_Some (<[name := v]> l !! a)).
  { intros n def' Hd' Ha. split.
    - eapply Hloc; [done|done|by apply partial_convertible|]. intros a Hin. apply lookup_insert_ne.
      intros <-. apply Ha in Hin as [x Hx]. congruence.
    - intros a Hin. apply lookup_insert_is_Some. destruct (decide (name = a)); auto. }
  intros n x. rewrite lookup_insert_Some. intros [[<- <-]|[_ Hx]].
  - destruct (Hkeep name def Hdef Hdeps) as [E Hk]. exists def. rewrite E. auto.
  - destruct (Hl n x Hx) as (def' & Hd' & Hv' & Ha' & Hal). destruct (Hkeep n def' Hd' Ha') as [E Hk].
    exists def'. rewrite E. auto.
Qed.

Lemma store_ok w w' stack name def v :
  names_its_locals -> search_ok w stack -> search_ok w' (stack ++ [name]) -> name ∉ stack ->
  defs !! name = Some def -> evalLocal variables def (lw_values w') = Ok v ->
  (forall a, a ∈ localDependencies (ld_Expr def) -> is_Some (lw_values w' !! a)) ->
  (allow || negb (localExprReferencesVar (ld_Expr def))) = true ->
  search_ok (leave_local name (store_local name v w')) stack.
Proof.
  intros Hloc Hs Hs' Hni Hdef Hv Hdeps Hallow. destruct Hs' as [Hval Hst Hvis Hnd Hd Hp Ha].
  assert (Hn : lw_values w' !! name = None) by (apply Hd; set_solver).
  unfold leave_local. cbn. rewrite lookup_insert_eq, bool_decide_false by done. split; cbn.
  - by eapply insert_solution.
  - intros n. rewrite lookup_insert_Some, Hst, elem_of_app, list_elem_of_singleton.
    destruct (decide (n = name)); naive_solver.
  - intros n. rewrite lookup_insert_Some, lookup_insert_is_Some. intros [[-> _]|[Hne Hx]]; [by left|].
    right. split; [done|]. by apply Hvis.
  - apply Hs.
  - intros n Hin. split; [by apply Hs|]. rewrite lookup_insert_ne by (intros ->; done). apply Hd. set_solver.
  - apply Hs.
  - intros n. rewrite lookup_insert_is_Some. intros [<-|[_ Hx]]; [|by apply Ha].
    constructor. intros a (def' & Hd' & Hin). apply Ha, Hdeps. congruence.
Qed.
Lemma justified_refers name a e : refers name a -> justified a e -> justified name e.
Proof.
  intros Hr. destruct e; cbn; try done. intros (Ha & n & def & Hn & Hd & Hv). split; [done|].
  exists n, def. split; [by eapply rtc_l|done].
Qed.

Lemma deps_post fuel stack l w :
  (forall a w, a ∈ l -> search_ok w stack -> may_eval a stack -> search_post w stack a (eval fuel a stack w)) ->
  search_ok w stack -> (forall a, a ∈ l -> may_eval a stack) ->
  let out := fold_M (fun _ dep => _ ← eval fuel dep stack; mret tt) l tt w in
  search_ok out.2 stack /\ lw_values w ⊆ lw_values out.2
  /\ match out.1 with
     | Ok _ => forall a, a ∈ l -> is_Some (lw_values out.2 !! a)
     | Err e => exists a, a ∈ l /\ justified a e
     end.
Proof.
  revert w. induction l as [|a l IH]; intros w Hev Hs Hl; cbn.
  { split; [done|]. split; [done|]. set_solver. }
  unfold mbind, M_bind. destruct (Hev a w ltac:(by left) Hs (Hl a ltac:(by left))) as (Hs1 & Hsub & Hr).
  destruct (eval fuel a stack w) as [[v|e] w1]; cbn in *; [|split; [done|]; split; [done|]; exists a; set_solver].
  destruct (IH w1) as (Hs2 & Hsub2 & Hr2); [intros; apply Hev; set_solver|done|set_solver|].
  destruct (fold_M _ l tt w1) as [[u|e] w2]; cbn in *; (split; [done|]); (split; [by etrans|]).
  - intros b [->|Hb]%elem_of_cons; [|by apply Hr2]. exists v. by eapply lookup_weaken.
  - destruct Hr2 as (b & Hb & Hj). exists b. set_solver.
Qed.

Lemma eval_post fuel name stack w :
  names_its_locals -> search_ok w stack -> may_eval name stack -> size defs < fuel + length stack ->
  search_post w stack name (eval fuel name stack w).
Proof.
  intros Hloc. revert name stack w. induction fuel as [|fuel IH]; intros name stack w Hs Hm Hf.
  { pose proof (stack_size w stack Hs). lia. }
  cbn [eval_local]. destruct (lw_values w !! name) as [v|] eqn:Ev; [by split; [|split]|].
  destruct Hm as [[def Hdef] He]. rewrite Hdef.
  destruct (lw_state w !! name) as [[]|] eqn:Es.
  - apply (so_stack _ _ Hs) in Es. split; [done|]. split; [done|].
    eapply cycle_found; [done| |done]. by split.
  - apply (so_visited _ _ Hs) in Es. rewrite Ev in Es. by destruct Es.
  - assert (Hni : name ∉ stack) by (rewrite <- (so_stack _ _ Hs), Es; done).
    destruct (negb allow && _) eqn:Eallow.
    { apply andb_true_iff in Eallow as [Ha%negb_true_iff Hv]. split; [done|]. split; [done|]. split; [done|]. by exists name, def. }
    assert (Hallow : (allow || negb (localExprReferencesVar (ld_Expr def))) = true).
    { by destruct allow, (localExprReferencesVar (ld_Expr def)). }
    assert (Hp : search_ok (set_state name LocalVisiting w) (stack ++ [name])) by (by apply push_search_ok).
    unfold eval_definition, mbind, M_bind, lift.
    destruct (validate def) as [[]|cause] eqn:Evd; cbn [map_err].
    2: { split; [by eapply leave_ok|]. split; [done|]. exists name, (lw_values w). split; [done|].
         split; [apply Hs|by left]. }
    assert (Hrefers : forall a, a ∈ localDependencies (ld_Expr def) -> refers name a) by (intros; by exists def).
    destruct (deps_post fuel (stack ++ [name]) (localDependencies (ld_Expr def)) (set_state name LocalVisiting w))
      as (Hs1 & Hsub & Hr).
    + intros a w' Ha Hs' Hm'. apply IH; [done|done|]. rewrite length_app. cbn. lia.
    + done.
    + intros a Ha. split; [by eapply validate_closed|]. rewrite last_snoc. intros p [= <-]. auto.
    + destruct (fold_M _ _ _ _) as [[u|e] w1]; cbn in *.
      2: { destruct Hr as (a & Ha & Hj). split; [by eapply leave_ok|]. split; [done|].
           eapply justified_refers; [by apply Hrefers|done]. }
      unfold store_value. destruct (evalLocal variables def (lw_values w1)) as [v|cause] eqn:Ew; cbn.
      * split; [by eapply store_ok|]. split; [|apply lookup_insert_eq].
        etrans; [exact Hsub|]. apply insert_subseteq, (so_defs _ _ Hs1). set_solver.
      * split; [by eapply leave_ok|]. split; [done|]. exists name, (lw_values w1). split; [done|].
        split; [apply Hs1|by right].
Qed.

(** The loop over the names. *)
Lemma top_post l w :
  names_its_locals -> search_ok w [] -> (forall n, n ∈ l -> is_Some (defs !! n)) ->
  let out := fold_M (fun _ => eval_top defs Variables VariableValues allow variables) l tt w in
  search_ok out.2 [] /\ lw_values w ⊆ lw_values out.2
  /\ match out.1 with
     | Ok _ => forall n, n ∈ l -> is_Some (lw_values out.2 !! n) \/ needs_variables n
     | Err e => e <> LocalRequiresVariables /\ exists n, justified n e
     end.
Proof.
  intros Hloc. revert w. induction l as [|n l IH]; intros w Hs Hl; cbn.
  { split; [done|]. split; [done|]. set_solver. }
  unfold mbind, M_bind.
  assert (Hn : search_ok (eval_top defs Variables VariableValues allow variables n w).2 []
    /\ lw_values w ⊆ lw_values (eval_top defs Variables VariableValues allow variables n w).2
    /\ match (eval_top defs Variables VariableValues allow variables n w).1 with
       | Ok _ => is_Some (lw_values (eval_top defs Variables VariableValues allow variables n w).2 !! n) \/ needs_variables n
       | Err e => e <> LocalRequiresVariables /\ justified n e
       end).
  { unfold eval_top. destruct (lw_values w !! n) eqn:Ev; [split; [done|]; split; [done|]; cbn; rewrite Ev; eauto|].
    destruct (eval_post (S (size defs)) n [] w) as (Hs1 & Hsub & Hr); [done|done|split; [apply Hl; by left|done]|cbn; lia|].
    destruct (eval _ n [] w) as [[v|[]] w1]; cbn in *; eauto 6; by (split; [done|]; split; [done|]). }
  destruct Hn as (Hs1 & Hsub & Hr). destruct (eval_top _ _ _ _ _ n w) as [[u|e] w1]; cbn in *.
  2: { split; [done|]. split; [done|]. destruct Hr as [? ?]. eauto. }
  destruct (IH w1 Hs1) as (Hs2 & Hsub2 & Hr2); [intros; apply Hl; by right|]. destruct u.
  destruct (fold_M _ l tt w1) as [[u|e] w2]; cbn in *; (split; [done|]); (split; [by etrans|]); [|done].
  intros m [->|Hm]%elem_of_cons; [|by apply Hr2]. destruct Hr as [[x Hx]|?]; [left; exists x; by eapply lookup_weaken|by right].
Qed.

Lemma search_empty : search_ok {| lw_values := ∅; lw_state := ∅ |} [].
Proof.
  split; cbn.
  - intros n v. by rewrite lookup_empty.
  - intros n. rewrite lookup_empty. split; [done|]. intros Hn. by apply elem_of_nil in Hn.
  - intros n. by rewrite lookup_empty.
  - constructor.
  - intros n Hn. by apply elem_of_nil in Hn.
  - constructor.
  - intros n. rewrite lookup_empty. by intros [? ?].
Qed.

Lemma evaluate_post :
  names_its_locals ->
  match evaluate_definitions defs Variables VariableValues allow variables with
  | Ok values => partial_solution values
      /\ (forall n, is_Some (values !! n) -> Acc (fun a b => refers b a) n)
      /\ (forall n, is_Some (defs !! n) -> is_Some (values !! n) \/ needs_variables n)
  | Err e => e <> LocalRequiresVariables /\ exists n, justified n e
  end.
Proof.
  intros Hloc. unfold evaluate_definitions.
  destruct (top_post (sorted_keys defs) _ Hloc search_empty) as (Hs & _ & Hr); [by intros n ?%elem_of_sorted_keys|].
  destruct (fold_M _ _ _ _) as [[u|e] w]; cbn in *; [|done]. split; [apply Hs|]. split; [apply Hs|].
  intros n Hn. apply Hr. by apply elem_of_sorted_keys.
Qed.

(** Two solutions agree where references are well-founded. *)
Lemma solution_unique l l' n :
  names_its_locals -> partial_solution l -> partial_solution l' ->
  Acc (fun a b => refers b a) n -> is_Some (l !! n) -> is_Some (l' !! n) -> l !! n = l' !! n.
Proof.
  intros Hloc Hl Hl'. induction 1 as [n _ IH]. intros [v Hv] [v' Hv'].
  destruct (Hl n v Hv) as (def & Hd & He & Ha & _), (Hl' n v' Hv') as (def' & Hd' & He' & Ha' & _).
  assert (def' = def) as -> by congruence.
  rewrite (Hloc n def l l') in He; [congruence|done|by apply partial_convertible..|].
  intros a Hin. apply IH; auto. by exists def.
Qed.
End search.

(** ** The two passes *)

Section passes.
Context `{!HCL} {Hnum : HCLNumbers} {V : Type}.
Variable defs : gmap string localDefinition.
Variable Variables : gmap string V.
Variable VariableValues : gmap string Value.

(** Every definition has a value, which its expression takes under [values]. *)
Definition solves (variables : gmap string cty) (values : gmap string Value) : Prop :=
  dom values = dom defs /\
  forall name def, defs !! name = Some def ->
    exists v, values !! name = Some v /\ evalLocal variables def values = Ok v.

Definition acyclic : Prop := forall n, ~ tc (refers defs) n n.

Lemma acc_acyclic n : Acc (fun a b => refers defs b a) n -> ~ tc (refers defs) n n.
Proof.
  induction 1 as [n _ IH]. intros Hn. inversion Hn as [? ? Hr|? m ? Hr Hm]; subst.
  - by apply (IH n).
  - apply (IH m); [done|]. by eapply tc_r.
Qed.


Lemma needs_excluded l n :
  partial_solution defs false ∅ l -> is_Some (l !! n) -> ~ needs_variables defs false n.
Proof.
  intros Hl Hn (_ & m & def & Hr & Hd & Hv). revert Hn. induction Hr as [m|n k m Hnk _ IH]; intros [v Hx].
  - destruct (Hl m v Hx) as (def' & Hd' & _ & _ & Ha). assert (def' = def) as -> by congruence. by rewrite Hv in Ha.
  - apply IH; [done|]. destruct (Hl n v Hx) as (def' & Hd' & _ & Ha & _), Hnk as (d & Hd2 & Hin).
    apply Ha. congruence.
Qed.

(** The first pass over the locals, which the types and defaults of
    variables are read with, is sound for the whole run: it evaluates exactly
    the locals that reach no reference to a variable, and the second pass gives
    each of them the same value. *)
Theorem evaluateStaticLocals_spec namespace early values :
  variableNamespaceValue VariableValues = Ok namespace ->
  names_its_locals defs ∅ -> names_its_locals defs {["var" := namespace]} ->
  (forall name def l, defs !! name = Some def -> localExprReferencesVar (ld_Expr def) = false -> convertible l ->
     evalLocal {["var" := namespace]} def l = evalLocal ∅ def l) ->
  evaluateStaticLocals defs Variables VariableValues = Ok early ->
  evaluateLocals defs Variables VariableValues = Ok values ->
  (forall n, is_Some (early !! n) <-> is_Some (defs !! n) /\
     forall m def, rtc (refers defs) n m -> defs !! m = Some def -> localExprReferencesVar (ld_Expr def) = false)
  /\ early ⊆ values.
Proof.
  intros Hns Hloc0 Hloc Hvars. unfold evaluateStaticLocals, evaluateLocals, evaluateLocalDefinitions.
  rewrite Hns. cbn. intros E0 E1.
  pose proof (evaluate_post defs Variables VariableValues false ∅ Hloc0) as H0. rewrite E0 in H0.
  pose proof (evaluate_post defs Variables VariableValues true _ Hloc) as H1. rewrite E1 in H1.
  destruct H0 as (Hp0 & Hacc0 & Hall0), H1 as (Hp1 & Hacc1 & Hall1). split.
  - intros n. split.
    + intros Hn. split; [destruct Hn as [v Hv]; apply Hp0 in Hv as (def & ? & _); eauto|].
      intros m def Hr Hd. apply not_true_iff_false. intros Hv. apply (needs_excluded early n); [done..|].
      split; [done|]. by exists m, def.
    + intros [Hd Hno]. destruct (Hall0 n Hd) as [|(_ & m & def & Hr & Hm & Hv)]; [done|].
      rewrite (Hno m def Hr Hm) in Hv. done.
  - apply map_subseteq_spec. intros n v Hv. rewrite <- Hv. symmetry.
    assert (Hp : partial_solution defs true {["var" := namespace]} early).
    { intros m x Hx. destruct (Hp0 m x Hx) as (def & Hd & He & Ha & Hal). exists def.
      split; [done|]. split; [|done]. rewrite (Hvars m def early Hd); [done| |by eapply partial_convertible].
      by apply negb_true_iff. }
    eapply solution_unique; [done|done|done|apply Hacc0; eauto|eauto|].
    destruct (Hp0 n v Hv) as (def & Hd & _). destruct (Hall1 n) as [|[? _]]; [eauto|done|done].
Qed.
End passes.

(** ** A configuration *)

(** A convertible value as a cty value, and the variables of a context. *)
Definition converted `{HCL} (v : Value) : option cty := match ToCty v with Ok c => Some c | Err _ => None end.

Lemma seq_entries `{HCL} (f : string -> Value -> P cty) (l : list (string * Value)) :
  (forall p, p ∈ l -> f p.1 p.2 = of_option OutOfFuel (converted p.2) /\ is_Some (converted p.2)) ->
  seq_res ((fun p => x ← f p.1 p.2; Ok (p.1, x)) <$> l)
  = Ok (omap (fun p => pair p.1 <$> converted p.2) l).
Proof.
  induction l as [|[k v] l IH]; intros Hf; [done|]. cbn.
  destruct (Hf (k, v)) as [E [c Ec]]; [by left|]. cbn in *. rewrite E, Ec. cbn. rewrite IH; [done|].
  intros p Hp. apply Hf. by right.
Qed.

Lemma omap_entries `{HCL} (m : gmap string Value) :
  list_to_map (omap (fun p => pair p.1 <$> converted p.2) (sorted_entries m)) = omap converted m.
Proof.
  apply map_eq. intros k. rewrite lookup_omap.
  assert (Hnd : NoDup (omap (fun p => pair p.1 <$> converted p.2) (sorted_entries m)).*1).
  { pose proof (NoDup_sorted_entries m) as Hs. revert Hs. induction (sorted_entries m) as [|[n v] l IH]; cbn; [done|].
    intros [Hn Hl]%NoDup_cons. destruct (converted v); cbn; [|by apply IH]. apply NoDup_cons. split; [|by apply IH].
    intros (p & -> & Hp)%list_elem_of_fmap. apply list_elem_of_omap in Hp as (q & Hq & Eq).
    apply Hn, list_elem_of_fmap. exists q. split; [|done]. destruct (converted q.2); [|done]. by injection Eq as <-. }
  apply option_eq. intros c. rewrite <- elem_of_list_to_map by done. rewrite list_elem_of_omap. split.
  - intros ([n v] & Hin%elem_of_sorted_entries & E). cbn in E. destruct (converted v) eqn:Ev; [|done].
    injection E as -> ->. by rewrite Hin.
  - intros E. apply bind_Some in E as (v & Hv & E). exists (k, v). split; [by apply elem_of_sorted_entries|]. cbn.
    by rewrite E.
Qed.

Lemma hclEvalContext_ok `{HCL} ctx :
  convertible (ec_Locals ctx) ->
  hclEvalContext ctx = Ok (ec_Variables ctx ∪
    <["path" := cty_ObjectVal {["module" := cty_StringVal (ec_ModuleDir ctx)]}]>
    {["local" := cty_ObjectVal (omap converted (ec_Locals ctx))]}).
Proof.
  intros Hc. unfold hclEvalContext. rewrite seq_entries.
  - cbn. by rewrite omap_entries.
  - intros [k v] Hin%elem_of_sorted_entries. cbn. specialize (Hc k v Hin). unfold convert_local, converted.
    destruct (ToCty v); [eauto|done].
Qed.

Lemma context_lookup `{HCL} ctx n :
  convertible (ec_Locals ctx) -> ec_Variables ctx !! "local" = None ->
  exists vars, hclEvalContext ctx = Ok vars /\ vars !! "local" = Some (cty_ObjectVal (omap converted (ec_Locals ctx)))
  /\ (n <> "local" -> vars !! n = (ec_Variables ctx ∪ {["path" := cty_ObjectVal {["module" := cty_StringVal (ec_ModuleDir ctx)]}]}) !! n).
Proof.
  intros Hc Hl. eexists. split; [by apply hclEvalContext_ok|]. split.
  - rewrite lookup_union, Hl, lookup_insert_ne, lookup_singleton_eq by done. done.
  - intros Hn. rewrite !lookup_union. f_equal. destruct (decide (n = "path")) as [->|Hp].
    + by rewrite lookup_insert_eq, lookup_singleton_eq.
    + by rewrite lookup_insert_ne, !lookup_singleton_ne by done.
Qed.

Module Demo.
Import Toy.

(** The references of an expression name their local with an attribute. *)
Fixpoint named_refs (e : expr) : bool :=
  match e with
  | ELit _ _ => true
  | EList _ l => forallb id (named_refs <$> l)
  | ERef _ root steps =>
      negb (bool_decide (root = "local")) || match steps with TraverseAttr _ :: _ => true | _ => false end
  | ECall _ _ _ => false
  end.

#[export] Instance toy_numbers : HCLNumbers.
Proof. done. Qed.

Lemma find_entry (m : gmap string value) n :
  match list_find (fun p => p.1 = n) (sorted_entries m) with Some (_, p) => Some p.2 | None => None end = m !! n.
Proof.
  destruct (list_find _ _) as [[i [k v]]|] eqn:E.
  - apply list_find_Some in E as (Hi & Hk & _). cbn in *. subst k. symmetry.
    apply elem_of_sorted_entries. by eapply list_elem_of_lookup_2.
  - apply list_find_None in E. rewrite Forall_forall in E. symmetry. apply eq_None_not_Some. intros [v Hv].
    apply elem_of_sorted_entries in Hv. by apply E in Hv.
Qed.

(** Such an expression does not see other locals. *)
(** Two contexts that agree on the references of an expression. *)
Record same_for (e : expr) (ctx ctx' : EvalContext) : Prop := {
  sf_dir : ec_ModuleDir ctx = ec_ModuleDir ctx';
  sf_reserved : ec_Variables ctx !! "local" = None /\ ec_Variables ctx' !! "local" = None;
  sf_convertible : convertible (ec_Locals ctx) /\ convertible (ec_Locals ctx');
  sf_roots : forall t n, t ∈ variables e -> traversalRoot t = Some n -> n <> "local" ->
    ec_Variables ctx !! n = ec_Variables ctx' !! n;
  sf_locals : forall a, a ∈ omap local_name (variables e) -> ec_Locals ctx !! a = ec_Locals ctx' !! a;
}.

Lemma reference_named line root steps ctx ctx' :
  named_refs (ERef line root steps) = true -> same_for (ERef line root steps) ctx ctx' ->
  evalCty (ERef line root steps) ctx = evalCty (ERef line root steps) ctx'.
Proof.
  intros Hn [Hm [Hl Hl'] [Hc Hc'] Hv Ha]. unfold evalCty.
  destruct (context_lookup ctx root Hc Hl) as (vars & -> & El & Er).
  destruct (context_lookup ctx' root Hc' Hl') as (vars' & -> & El' & Er').
  unfold module_value. cbn in *. f_equal. destruct (decide (root = "local")) as [->|Hr].
  - rewrite El, El'. cbn in Hn |- *. destruct steps as [|[|n| |] steps]; try done. cbn.
    specialize (Ha n ltac:(by left)).
    match type of El with _ = Some (TC _ (TObj (sorted_entries ?m))) => pose proof (find_entry m n) as F end.
    match type of El' with _ = Some (TC _ (TObj (sorted_entries ?m))) => pose proof (find_entry m n) as F' end.
    rewrite lookup_omap in F, F'. rewrite Ha, <- F' in F.
    destruct (list_find _ _) as [[? ?]|], (list_find _ _) as [[? ?]|]; congruence.
  - rewrite Er, Er' by done. rewrite !lookup_union, Hm. by rewrite (Hv _ root (list_elem_of_here _ _) eq_refl Hr).
Qed.

Lemma eval_named fuel e ctx ctx' source :
  named_refs e = true -> same_for e ctx ctx' ->
  evalValue_ fuel e ctx source = evalValue_ fuel e ctx' source.
Proof.
  revert e source. induction fuel as [|fuel IH]; intros e source Hn Hs; [done|].
  destruct e as [line v|line l|line root steps|line name args]; cbn in Hn; [..|done].
  - destruct Hs as [Hm [Hl Hl'] [Hc Hc'] _ _]. cbn. unfold evalCty.
    destruct (context_lookup ctx "" Hc Hl) as (vars & -> & _), (context_lookup ctx' "" Hc' Hl') as (vars' & -> & _). done.
  - cbn. f_equal. generalize 0. destruct Hs as [Hm Hl Hc Hv Ha]. cbn in Hv, Ha.
    induction l as [|e l IHl]; intros i; [done|]. cbn in Hn, Hv, Ha |- *.
    apply andb_true_iff in Hn as [He Hn]. rewrite omap_app in Ha. setoid_rewrite elem_of_app in Ha.
    setoid_rewrite elem_of_app in Hv. rewrite (IH e) by (done || split; eauto). by rewrite IHl by eauto.
  - cbn -[evalCty]. by rewrite (reference_named line root steps ctx ctx').
Qed.

Lemma toy_names defs vars :
  (forall name def, defs !! name = Some def -> named_refs (ld_Expr def) = true) -> vars !! "local" = None ->
  names_its_locals defs vars.
Proof.
  intros Hd Hl name def l l' Hdef Hc Hc' Ha. unfold evalLocal, evalValue. apply eval_named; [by eapply Hd|].
  split; [done..|]. intros a Hin. apply Ha, elem_of_dependencies. apply list_elem_of_omap in Hin. done.
Qed.

Lemma toy_no_var def vars vars' l :
  named_refs (ld_Expr def) = true -> localExprReferencesVar (ld_Expr def) = false -> convertible l ->
  vars !! "local" = None -> vars' !! "local" = None -> (forall n, n <> "var" -> vars !! n = vars' !! n) ->
  evalLocal vars def l = evalLocal vars' def l.
Proof.
  intros Hn Hv Hc Hl Hl' Hvars. unfold evalLocal, evalValue. apply eval_named; [done|]. split; try done.
  intros t n Ht Hr _. apply Hvars. intros ->. unfold localExprReferencesVar, references_root in Hv.
  apply not_true_iff_false in Hv. apply Hv, existsb_exists. exists t. rewrite bool_decide_true by done.
  by rewrite <- list_elem_of_In.
Qed.

(** [base] is fixed, [dir] extends it, [user] depends on a variable. *)
Definition local (name : string) (e : expr) : localDefinition :=
  {| ld_Name := name; ld_Expr := e; ld_Source := {| src_File := "m.hcl"; src_Line := 1; src_Path := "local." +:+ name |};
     ld_ModuleDir := "." |}.
Definition ref (root name : string) : expr := ERef 1 root [TraverseAttr name].
Definition defs : gmap string localDefinition :=
  {["base" := local "base" (ELit 1 (TC ∅ (TStr "/srv")));
    "dir" := local "dir" (EList 1 [ref "local" "base"; ELit 1 (TC ∅ (TStr "data"))]);
    "all" := local "all" (EList 1 [ref "local" "dir"; ref "var" "user"])]}.
Definition given : gmap string Value := {["user" := str_value "ann"]}.
Definition looped : gmap string localDefinition :=
  <["base" := local "base" (EList 1 [ref "local" "all"])]> defs.

Definition namespace : value := TC ∅ (TObj [("user", TC ∅ (TStr "ann"))]).
Definition vars : gmap string value := {["var" := namespace]}.

Lemma defs_named name def : defs !! name = Some def -> named_refs (ld_Expr def) = true.
Proof. unfold defs. rewrite !lookup_insert_Some, lookup_singleton_Some. naive_solver. Qed.
Lemma looped_named name def : looped !! name = Some def -> named_refs (ld_Expr def) = true.
Proof. unfold looped. rewrite lookup_insert_Some. intros [[_ <-]|[_ Hd]]; [done|by eapply defs_named]. Qed.
End Demo.

(** The chain of a cycle error. *)
Definition chain_of `{HCL} (r : result local_error (gmap string Value)) : list string :=
  match r with Err (LocalsCycle chain) => chain | _ => [] end.


Lemma evaluateStaticLocals_spec_witness :
  exists early values, evaluateStaticLocals Demo.defs Demo.given Demo.given = Ok early
    /\ evaluateLocals Demo.defs Demo.given Demo.given = Ok values /\ early ⊆ values.
Proof.
  assert (H0 : is_ok (evaluateStaticLocals Demo.defs Demo.given Demo.given) = true) by (vm_compute; reflexivity).
  assert (H1 : is_ok (evaluateLocals Demo.defs Demo.given Demo.given) = true) by (vm_compute; reflexivity).
  destruct (evaluateStaticLocals Demo.defs Demo.given Demo.given) as [early|] eqn:E0; [|discriminate H0].
  destruct (evaluateLocals Demo.defs Demo.given Demo.given) as [values|] eqn:E1; [|discriminate H1].
  exists early, values. split; [done|]. split; [done|].
  refine (proj2 (evaluateStaticLocals_spec (Hnum := Demo.toy_numbers) Demo.defs Demo.given Demo.given Demo.namespace
    early values eq_refl (Demo.toy_names Demo.defs ∅ Demo.defs_named eq_refl)
    (Demo.toy_names Demo.defs Demo.vars Demo.defs_named eq_refl) _ E0 E1)).
  intros name def l Hd Hv Hc. apply Demo.toy_no_var; [by eapply Demo.defs_named|done..|].
  intros n Hn. by rewrite lookup_singleton_ne.
Defined.

(** A reference with an index is not one of [localDependencies]: whether the
    local it names has been evaluated depends on the names. *)
Example index_references_are_not_ordered :
  let by_index name := Toy.ERef 1 "local" [TraverseIndex (Some name)] in
  let text := Toy.ELit 1 (Toy.TC ∅ (Toy.TStr "x")) in
  is_ok (evaluateLocals (H := Toy.toy) {["a" := Demo.local "a" text; "b" := Demo.local "b" (by_index "a")]} Demo.given Demo.given) = true
  /\ is_ok (evaluateLocals (H := Toy.toy) {["a" := Demo.local "a" (by_index "b"); "b" := Demo.local "b" text]} Demo.given Demo.given) = false.
Proof. vm_compute. done. Qed.
