(* ===== verification/Fields.v ===== *)
(** * Reading typed fields of a value: [internal/core/merge/merge_fields.go]

    The readers return [Ok None] for a missing field ([ok = false]), [Ok (Some
    v)] for a present one and an error for a value of the wrong shape.  A read
    [root.Map[name]] of a value that is not a map finds nothing. *)
From S2P Require Import Prelude Sha256 GoValue IR Values.

(** The formatted errors, with the source each one prints. *)
Inductive field_error :=
| ExpectedObject (source : SourceRef)
| MustBeObject (source : SourceRef)
| MustBeString (source : SourceRef)
| MustBeStringOrNull (source : SourceRef)
| MustBeBoolean (source : SourceRef)
| MustBeList (source : SourceRef)
| MustBeMap (source : SourceRef)
| MustBeOneOf (source : SourceRef) (allowed : string)
| EphemeralNotAllowed (source : SourceRef)
| NameEmpty (source : SourceRef)
| EntryNotString (item : SourceRef) (list_path : string)
| DuplicateEntry (item : SourceRef) (list_path value : string)
| RequiredStringList (source : SourceRef) (field : option string)
| BadEnsure (source : SourceRef)
| BadMode (source : SourceRef) (name : string)
| EmptyStableName (source : SourceRef) (kind : string)
| BadStableName (source : SourceRef) (kind value : string).

Abbreviation F := (result field_error).

(** [root.Map[name]]; a value that is not a map has a nil one. *)
Definition field (root : Value) (name : string) : option Value := v_Map root !! name.

Definition rejectEphemeralValue (value : Value) : F unit :=
  guard_or (negb (ContainsEphemeral value)) (EphemeralNotAllowed (v_Source value)).

Definition mapField (root : Value) (name : string) : F (option Value) :=
  if IsMap root then
    match field root name with
    | None => Ok None
    | Some value => _ ← guard_or (IsMap value) (MustBeObject (v_Source value)); Ok (Some value)
    end
  else Err (ExpectedObject (v_Source root)).

Definition stringFieldAllowEphemeral (root : Value) (name : string) : F (option string) :=
  match field root name with
  | None => Ok None
  | Some value =>
      match StringValue value with
      | Some str => Ok (Some str)
      | None => Err (MustBeString (v_Source value))
      end
  end.

Definition stringField (root : Value) (name : string) : F (option string) :=
  match field root name with
  | None => Ok None
  | Some value => _ ← rejectEphemeralValue value; stringFieldAllowEphemeral root name
  end.

Definition boolField (root : Value) (name : string) : F (option bool) :=
  match field root name with
  | None => Ok None
  | Some value =>
      _ ← rejectEphemeralValue value;
      _ ← guard_or (bool_decide (v_Kind value = KindBool)) (MustBeBoolean (v_Source value));
      Ok (Some (v_Bool value))
  end.

Definition listField (root : Value) (name : string) : F (option Value) :=
  match field root name with
  | None => Ok None
  | Some value =>
      _ ← rejectEphemeralValue value;
      _ ← guard_or (IsList value) (MustBeList (v_Source value));
      Ok (Some value)
  end.

Definition objectPath (root : Value) (name defaultPath : string) : F string :=
  path ← stringField root name; Ok (default defaultPath path).

Definition objectName (root : Value) (name defaultName : string) : F string :=
  value ← stringField root name;
  match value with
  | None => Ok defaultName
  | Some value =>
      _ ← guard_or (negb (bool_decide (value = "")))
            (NameEmpty (from_option v_Source no_source (field root name)));
      Ok value
  end.

Definition objectCollection (root : Value) (name : string) : F (option (gmap string Value)) :=
  match field root name with
  | None => Ok None
  | Some collection =>
      _ ← guard_or (IsMap collection) (MustBeMap (v_Source collection));
      Ok (Some (v_Map collection))
  end.

(** The loop of [stringListField], with its [seen] set. *)
Fixpoint string_entries (list_path : string) (seen : gset string) (items : list Value)
  : F (list string) :=
  match items with
  | [] => Ok []
  | item :: items =>
      match StringValue item with
      | None => Err (EntryNotString (v_Source item) list_path)
      | Some value =>
          _ ← guard_or (negb (bool_decide (value = ""))) (EntryNotString (v_Source item) list_path);
          _ ← guard_or (negb (bool_decide (value ∈ seen)))
                (DuplicateEntry (v_Source item) list_path value);
          rest ← string_entries list_path ({[value]} ∪ seen) items;
          Ok (value :: rest)
      end
  end.

Definition stringListField (root : Value) (name : string) : F (list string) :=
  list ← listField root name;
  match list with
  | None => Ok []
  | Some list => string_entries (src_Path (v_Source list)) ∅ (v_List list)
  end.

Definition requiredStringListField (root : Value) (name : string) : F (list string) :=
  match field root name with
  | None => Err (RequiredStringList (v_Source root) (Some name))
  | Some value =>
      values ← stringListField root name;
      _ ← guard_or (negb (bool_decide (values = []))) (RequiredStringList (v_Source value) None);
      Ok values
  end.

Definition stringFieldDefault (root : Value) (name fallback : string) : F string :=
  value ← stringField root name; Ok (default fallback value).

(** [Some None] is a present null. *)
Definition optionalStringField (root : Value) (name : string) : F (option (option string)) :=
  match field root name with
  | None => Ok None
  | Some value =>
      _ ← rejectEphemeralValue value;
      if bool_decide (v_Kind value = KindNull) then Ok (Some None)
      else match StringValue value with
           | Some str => Ok (Some (Some str))
           | None => Err (MustBeStringOrNull (v_Source value))
           end
  end.

Definition stringIn (value : string) (allowed : list string) : bool := bool_decide (value ∈ allowed).

Definition dockerRemoveConflictsField (root : Value) (name : string) : F (option string) :=
  match field root name with
  | None => Ok None
  | Some value =>
      _ ← rejectEphemeralValue value;
      match v_Kind value with
      | KindString =>
          _ ← guard_or (stringIn (v_String value) ["auto"; "true"; "false"])
                (MustBeOneOf (v_Source value) "auto, true, or false");
          Ok (Some (v_String value))
      | KindBool => Ok (Some (if v_Bool value then "true" else "false"))
      | _ => Err (MustBeOneOf (v_Source value) "auto, true, or false")
      end
  end.

Definition ensureField (root : Value) (fallback : string) : F string :=
  ensure ← stringField root "ensure";
  match ensure with
  | None => Ok fallback
  | Some ensure =>
      if bool_decide (ensure = "") then Ok fallback
      else
        _ ← guard_or (stringIn ensure ["present"; "absent"]) (BadEnsure (v_Source root));
        Ok ensure
  end.

Definition boolFieldDefault (root : Value) (name : string) (fallback : bool) : F bool :=
  value ← boolField root name; Ok (default fallback value).

Definition lifecycleSpec (root : Value) : F (option LifecycleSpec) :=
  lifecycle ← mapField root "lifecycle";
  match lifecycle with
  | None => Ok None
  | Some lifecycle =>
      preventDestroy ← boolField lifecycle "prevent_destroy";
      Ok (if bool_decide (preventDestroy = Some true)
          then Some {| PreventDestroy := true; lc_Source := v_Source lifecycle |} else None)
  end.

(** [modePattern]: a zero and three octal digits. *)
Definition octal (b : N) : bool := in_range 48 55 b.
Definition modePattern (mode : string) : bool :=
  match Sha256.bytes mode with
  | [b0; b1; b2; b3] => (b0 =? 48)%N && octal b1 && octal b2 && octal b3
  | _ => false
  end.

Definition modeFieldDefault (root : Value) (name fallback : string) : F string :=
  mode ← stringFieldDefault root name fallback;
  _ ← guard_or (modePattern mode) (BadMode (v_Source root) name);
  Ok mode.

(** A rune outside ASCII is refused, as each of its bytes is. *)
Definition stable_rune (i : nat) (b : N) : bool :=
  in_range 97 122 b || in_range 65 90 b || in_range 48 57 b
  || (bool_decide (0 < i) && bool_decide (b ∈ [95; 46; 64; 37; 43; 45]%N)).

Definition validateDockerStableName (kind value : string) (source : SourceRef) : F unit :=
  _ ← guard_or (negb (bool_decide (value = ""))) (EmptyStableName source kind);
  guard_or (forallb id (imap stable_rune (Sha256.bytes value))) (BadStableName source kind value).

(** ** Facts *)

Lemma string_entries_Ok path seen items out :
  string_entries path seen items = Ok out <->
  Forall2 (fun item s => StringValue item = Some s /\ s <> "") items out /\
  NoDup out /\ (forall s, s ∈ out -> s ∉ seen).
Proof.
  revert seen out; induction items as [|item items IH]; intros seen out; cbn [string_entries].
  { split; [|intros (H & _); by inversion H]. intros [= <-]. split_and!; [constructor..|].
    by intros ? ?%elem_of_nil. }
  split.
  - destruct (StringValue item) as [s|] eqn:Hs; [|done]. intros H. res_inv.
    rewrite negb_true_iff, bool_decide_eq_false in *.
    match goal with H : string_entries _ _ _ = Ok _ |- _ => apply IH in H as (Hall & Hnd & Hseen) end.
    split_and!; [by constructor|constructor; [set_solver|done]|set_solver].
  - intros (H & Hnd & Hseen). inversion H as [|? s ? rest [Hs Hne] Hrest]; subst.
    inversion Hnd; subst. rewrite Hs, !bool_decide_false by (set_solver || done). cbn.
    rewrite (proj2 (IH _ rest)); [done|]. split_and!; [done..|]. set_solver.
Qed.
