(* ===== verification/MergeProps.v ===== *)
(** * Properties of merging and profile resolution *)
From S2P Require Import Prelude Sha256 GoValue IR Values Merge.

(** ** Lists: first occurrences *)

(** Reference: keep a value, drop the later ones with its key. *)
Fixpoint keep_first (l : list Value) : list Value :=
  match l with
  | [] => []
  | x :: l => x :: filter (fun y => Key y <> Key x) (keep_first l)
  end.

Lemma dedup_values_keep_first seen l :
  dedup_values seen l = filter (fun y => Key y ∉ seen) (keep_first l).
Proof.
  revert seen; induction l as [|x l IH]; intros seen; [done|]. cbn [dedup_values keep_first].
  rewrite filter_cons, list_filter_filter. case_decide as Hx; case_decide as Hx'; try done.
  - rewrite IH. apply list_filter_iff. intros y. split; [|tauto].
    intros Hy; split; [done|]. congruence.
  - f_equal. rewrite IH. apply list_filter_iff. intros y. set_solver.
Qed.

Lemma appendDedup_keep_first a b : appendDedup a b = keep_first (a ++ b).
Proof.
  unfold appendDedup. rewrite dedup_values_keep_first. apply list_filter_all_true. set_solver.
Qed.

Lemma keep_first_elem l x : x ∈ keep_first l -> x ∈ l.
Proof.
  induction l as [|y l IH]; cbn; [done|]. rewrite !elem_of_cons, list_elem_of_filter. naive_solver.
Qed.

Lemma keep_first_keys l x : x ∈ l -> exists y, y ∈ keep_first l /\ Key y = Key x.
Proof.
  induction l as [|z l IH]; cbn; [by intros ?%elem_of_nil|]. intros [->|Hx]%elem_of_cons.
  - exists z. split; [left|done].
  - destruct (IH Hx) as (y & Hy & Hk). destruct (decide (Key y = Key z)) as [E|E].
    + exists z. split; [left|congruence].
    + exists y. split; [|done]. right. apply list_elem_of_filter. auto.
Qed.

Lemma keep_first_NoDup l : NoDup (Key <$> keep_first l).
Proof.
  induction l as [|z l IH]; cbn; [constructor|]. constructor.
  - intros (y & Hk & [Hn _]%list_elem_of_filter)%list_elem_of_fmap. by apply Hn.
  - eapply sublist_NoDup; [done|]. apply fmap_sublist, sublist_filter.
Qed.

(** ** Maps: every key on its own *)

Lemma fold_res_Err_split {E S A} (f : S -> A -> result E S) xs s e :
  fold_res f xs s = Err e ->
  exists l1 x l2 s1, xs = l1 ++ x :: l2 /\ fold_res f l1 s = Ok s1 /\ f s1 x = Err e.
Proof.
  revert s; induction xs as [|x xs IH]; intros s; cbn; [done|].
  destruct (f s x) as [s1|e1] eqn:E1.
  - intros (l1 & y & l2 & s2 & -> & H1 & H2)%IH. exists (x :: l1), y, l2, s2. cbn. by rewrite E1.
  - intros [= ->]. by exists [], x, xs, s.
Qed.

Lemma sorted_keys_sorted {V} (m : gmap string V) : StronglySorted (may_follow str_ltb) (sorted_keys m).
Proof. apply sort_strings_sorted. Qed.

Section entries.
Context (fs : gmap string (Value -> result merge_error (option Value))).

Definition entry_step (m : gmap string Value) (key : string)
  : result merge_error (gmap string Value) :=
  match fs !! key with
  | Some f =>
      merged ← f (map_get m key);
      Ok (match merged with Some v => <[key := v]> m | None => delete key m end)
  | None => Ok m
  end.

Lemma entry_step_Ok m key r f :
  fs !! key = Some f ->
  entry_step m key = Ok r <->
  f (map_get m key) = Ok (r !! key) /\ forall k, k <> key -> r !! k = m !! k.
Proof.
  intros Hf. unfold entry_step. rewrite Hf, bind_Ok. split.
  - intros (o & Ho & Hr). destruct o; injection Hr as <-.
    + split; [by rewrite lookup_insert_eq|]. intros. by rewrite lookup_insert_ne.
    + split; [by rewrite lookup_delete_eq|]. intros. by rewrite lookup_delete_ne.
  - intros [Ho Hk]. exists (r !! key). split; [done|]. f_equal. apply map_eq. intros k.
    destruct (decide (k = key)) as [->|Hne]; destruct (r !! key) eqn:E; rewrite ?E;
      rewrite ?lookup_insert_eq, ?lookup_delete_eq, ?lookup_insert_ne, ?lookup_delete_ne by done;
      try done; by rewrite Hk.
Qed.

Lemma entries_Ok ks m r :
  NoDup ks -> (forall k, k ∈ ks -> is_Some (fs !! k)) ->
  fold_res entry_step ks m = Ok r <->
  (forall k f, k ∈ ks -> fs !! k = Some f -> f (map_get m k) = Ok (r !! k)) /\
  (forall k, k ∉ ks -> r !! k = m !! k).
Proof.
  intros Hks. revert m r; induction Hks as [|key ks Hkey Hks IH]; intros m r Hfs; cbn.
  - split; [intros [= ->]; split; [by intros ?? ?%elem_of_nil|done]|].
    intros [_ Hr]. f_equal. apply map_eq. intros k. symmetry. apply Hr, not_elem_of_nil.
  - destruct (Hfs key) as [f Hf]; [left|].
    assert (Hget : forall k (m' : gmap string Value), m' !! k = m !! k -> map_get m' k = map_get m k)
      by (intros k m' Hk; unfold map_get; by rewrite Hk).
    split.
    + destruct (entry_step m key) as [m1|] eqn:E; [|done].
      apply (entry_step_Ok _ _ _ _ Hf) in E as [Ef Ek].
      rewrite IH by (intros; apply Hfs; by right). intros [H1 H2]. split.
      * intros k g [->|Hk]%elem_of_cons Hg; [rewrite Hf in Hg; injection Hg as <-; by rewrite H2|].
        rewrite <- (H1 k g Hk Hg). f_equal. symmetry. apply Hget, Ek. by intros ->.
      * intros k [Hne Hk]%not_elem_of_cons. by rewrite H2, Ek.
    + intros [H1 H2].
      assert (exists m1, entry_step m key = Ok m1 /\ m1 !! key = r !! key /\
                         forall k, k <> key -> m1 !! k = m !! k) as (m1 & -> & Ekey & Ek).
      { exists (match r !! key with Some v => <[key := v]> m | None => delete key m end).
        unfold entry_step. rewrite Hf, (H1 key f) by (by left || done). split; [done|].
        destruct (r !! key).
        - split; [apply lookup_insert_eq|]. intros. by rewrite lookup_insert_ne.
        - split; [apply lookup_delete_eq|]. intros. by rewrite lookup_delete_ne. }
      rewrite IH by (intros; apply Hfs; by right). split.
      * intros k g Hk Hg. rewrite (Hget k m1); [apply H1; [by right|done]|].
        apply Ek. by intros ->.
      * intros k Hk. destruct (decide (k = key)) as [->|Hne]; [done|].
        rewrite Ek by done. apply H2. by rewrite not_elem_of_cons.
Qed.

Lemma merge_entries_Ok m r :
  merge_entries fs m = Ok r <->
  forall k, match fs !! k with
            | Some f => f (map_get m k) = Ok (r !! k)
            | None => r !! k = m !! k
            end.
Proof.
  unfold merge_entries. change (fun m key => _) with entry_step.
  rewrite entries_Ok; [|apply NoDup_sorted_keys|by intros k Hk%elem_of_sorted_keys]. split.
  - intros [H1 H2] k. destruct (fs !! k) as [f|] eqn:Hf.
    + apply H1; [|done]. apply elem_of_sorted_keys. eauto.
    + apply H2. rewrite elem_of_sorted_keys, Hf. by intros [? ?].
  - intros H. split.
    + intros k f Hk Hf. specialize (H k). by rewrite Hf in H.
    + intros k Hk. specialize (H k). destruct (fs !! k) eqn:E; [|done].
      destruct Hk. apply elem_of_sorted_keys. eauto.
Qed.

Lemma entries_Err ks m e :
  NoDup ks -> (forall k, k ∈ ks -> is_Some (fs !! k)) ->
  fold_res entry_step ks m = Err e ->
  exists l1 k l2 f, ks = l1 ++ k :: l2 /\ fs !! k = Some f /\ f (map_get m k) = Err e /\
    forall k' f', k' ∈ l1 -> fs !! k' = Some f' -> exists r, f' (map_get m k') = Ok r.
Proof.
  intros Hks Hfs (l1 & k & l2 & m1 & -> & H1 & Hk)%fold_res_Err_split.
  apply NoDup_app in Hks as (Hl1 & Hdis & Hl2).
  apply entries_Ok in H1 as [H1 H1']; [|done|intros; apply Hfs; set_solver].
  destruct (Hfs k) as [f Hf]; [set_solver|]. exists l1, k, l2, f. split_and!; [done..| |eauto].
  assert (Hkl : k ∉ l1) by set_solver.
  unfold entry_step in Hk. rewrite Hf in Hk. apply bind_Err in Hk as [Hk|(o & _ & Hk)]; [|done].
  revert Hk. unfold map_get. by rewrite H1'.
Qed.

(** The loop fails with the error of the least key that fails. *)
Lemma merge_entries_Err m e :
  merge_entries fs m = Err e <->
  exists k f, fs !! k = Some f /\ f (map_get m k) = Err e /\
    forall k' f', fs !! k' = Some f' -> str_ltb k' k = true -> exists r, f' (map_get m k') = Ok r.
Proof.
  unfold merge_entries. change (fun m key => _) with entry_step.
  assert (Hfs : forall k, k ∈ sorted_keys fs -> is_Some (fs !! k)) by (by intros k ?%elem_of_sorted_keys).
  split.
  - intros (l1 & k & l2 & f & Hks & Hf & He & Hl1)%entries_Err; [|apply NoDup_sorted_keys|done].
    exists k, f. split_and!; [done..|]. intros k' f' Hf' Hlt. apply (Hl1 k' f'); [|done].
    assert (Hk' : k' ∈ sorted_keys fs) by (apply elem_of_sorted_keys; eauto).
    rewrite Hks in Hk'. apply elem_of_app in Hk' as [?|Hk']; [done|].
    assert (Hs := sorted_keys_sorted fs). rewrite Hks in Hs. apply StronglySorted_app in Hs as (_ & _ & Hs).
    apply elem_of_cons in Hk' as [->|Hk']; [by rewrite str_ltb_irrefl in Hlt|].
    inversion Hs as [|? ? _ Hall]; subst. rewrite Forall_forall in Hall. specialize (Hall k' Hk').
    unfold may_follow in Hall. congruence.
  - intros (k & f & Hf & He & Hmin). destruct (fold_res entry_step (sorted_keys fs) m) as [r|e'] eqn:E.
    + apply entries_Ok in E as [E _]; [|apply NoDup_sorted_keys|done].
      rewrite (E k f) in He; [done| |done]. apply elem_of_sorted_keys; eauto.
    + apply entries_Err in E as (l1 & k1 & l2 & f1 & Hks & Hf1 & He1 & Hl1); [|apply NoDup_sorted_keys|done].
      assert (Hs := sorted_keys_sorted fs). rewrite Hks in Hs. apply StronglySorted_app in Hs as (_ & _ & Hs).
      assert (Hk : k ∈ sorted_keys fs) by (apply elem_of_sorted_keys; eauto).
      rewrite Hks in Hk. apply elem_of_app in Hk as [Hk|[->|Hk]%elem_of_cons].
      * destruct (Hl1 k f Hk Hf). congruence.
      * congruence.
      * inversion Hs as [|? ? _ Hall]; subst. rewrite Forall_forall in Hall. specialize (Hall k Hk).
        unfold may_follow in Hall. destruct (str_ltb k1 k) eqn:Hlt.
        -- destruct (Hmin k1 f1 Hf1 Hlt). congruence.
        -- assert (k1 = k) as -> by (by apply str_ltb_total). congruence.
Qed.

End entries.

Lemma merge_maps_Err base overlay e :
  merge_entries ((fun o b => mergeValue b o) <$> v_Map overlay) (v_Map base) = Err e <->
  exists k o, v_Map overlay !! k = Some o /\ mergeValue (map_get (v_Map base) k) o = Err e /\
    forall k' o', v_Map overlay !! k' = Some o' -> str_ltb k' k = true ->
      exists r, mergeValue (map_get (v_Map base) k') o' = Ok r.
Proof.
  rewrite merge_entries_Err. split.
  - intros (k & f & Hf & He & Hmin). rewrite lookup_fmap in Hf.
    apply fmap_Some in Hf as (o & Ho & ->). exists k, o. split_and!; [done..|].
    intros k' o' Ho' Hlt. apply (Hmin k' (fun b => mergeValue b o')); [|done].
    by rewrite lookup_fmap, Ho'.
  - intros (k & o & Ho & He & Hmin). exists k, (fun b => mergeValue b o).
    split_and!; [by rewrite lookup_fmap, Ho|done|]. intros k' f' Hf' Hlt. rewrite lookup_fmap in Hf'.
    apply fmap_Some in Hf' as (o' & Ho' & ->). by apply (Hmin k' o').
Qed.

(** [mergeValue] on two maps, in terms of the maps' entries. *)
Lemma merge_maps_Ok base overlay r :
  merge_entries ((fun o b => mergeValue b o) <$> v_Map overlay) (v_Map base) = Ok r <->
  (forall k, v_Map overlay !! k = None -> r !! k = v_Map base !! k) /\
  (forall k o, v_Map overlay !! k = Some o ->
     mergeValue (map_get (v_Map base) k) o = Ok (r !! k)).
Proof.
  rewrite merge_entries_Ok. split.
  - intros H. split; intros k; intros; specialize (H k); rewrite lookup_fmap in H;
      destruct (v_Map overlay !! k) eqn:E; cbn in *; congruence.
  - intros [H1 H2] k. rewrite lookup_fmap. destruct (v_Map overlay !! k) eqn:E; cbn; auto.
Qed.

(** ** Profiles: the meaning of an import list *)

Section resolves.
Context {Assert : Type} (Profiles : gmap string (Profile Assert)).

Definition bodies (rs : list (resolvedProfile Assert)) : list Value := res_Body <$> rs.
Definition all_asserts (rs : list (resolvedProfile Assert)) : list Assert := mjoin (res_Asserts <$> rs).

(** [name] resolves to the merge of its resolved imports, in order, and its own
    body; no cache and no marks, and no derivation when imports are cyclic. *)
Inductive resolves : string -> resolvedProfile Assert -> Prop :=
| resolves_intro name profile rs raw merged :
    Profiles !! name = Some profile ->
    Forall2 resolves (prof_Imports profile) rs ->
    fold_res Merge (bodies rs) (MapValue ∅ (prof_Source profile)) = Ok raw ->
    Merge raw (prof_Body profile) = Ok merged ->
    resolves name {| res_Body := merged; res_Asserts := all_asserts rs ++ prof_Asserts profile |}.

Definition imports (a b : string) : Prop :=
  exists profile, Profiles !! a = Some profile /\ b ∈ prof_Imports profile.

Lemma resolves_nested (P : string -> resolvedProfile Assert -> Prop) :
  (forall name profile rs raw merged,
     Profiles !! name = Some profile ->
     Forall2 resolves (prof_Imports profile) rs -> Forall2 P (prof_Imports profile) rs ->
     fold_res Merge (bodies rs) (MapValue ∅ (prof_Source profile)) = Ok raw ->
     Merge raw (prof_Body profile) = Ok merged ->
     P name {| res_Body := merged; res_Asserts := all_asserts rs ++ prof_Asserts profile |}) ->
  forall name r, resolves name r -> P name r.
Proof.
  intros Hstep. fix IH 3. intros name r [name' profile rs raw merged Hp Himp Hraw Hm].
  eapply Hstep; [done..| |done|done]. clear Hraw.
  induction Himp as [|i ri names ris Hi Hrest IHrest]; constructor; [by apply IH|exact IHrest].
Qed.

Lemma resolves_det name r : resolves name r -> forall r', resolves name r' -> r = r'.
Proof.
  revert name r. apply (resolves_nested (fun name r => forall r', resolves name r' -> r = r')).
  intros name profile rs raw merged Hp _ Hdet Hraw Hm r' Hr'.
  inversion Hr' as [name' profile' rs' raw' merged' Hp' Himp' Hraw' Hm']; subst.
  assert (profile' = profile) as -> by congruence.
  assert (rs' = rs) as ->.
  { clear -Hdet Himp'. revert rs' Himp'. induction Hdet; intros rs' H';
      inversion H'; subst; f_equal; [symmetry|]; auto. }
  assert (raw' = raw) as -> by congruence. assert (merged' = merged) as -> by congruence. done.
Qed.

Lemma resolves_list_det names rs :
  Forall2 resolves names rs -> forall rs', Forall2 resolves names rs' -> rs = rs'.
Proof.
  induction 1 as [|i r names rs Hi Hrest IH]; intros rs' H'; inversion H'; subst; [done|].
  f_equal; [by eapply resolves_det|auto].
Qed.

(** What resolves has no import cycle below it. *)
Lemma resolves_acyclic name r : resolves name r -> Acc (fun b a => imports a b) name.
Proof.
  revert name r. apply resolves_nested.
  intros name profile rs raw merged Hp _ Hacc _ _. constructor. intros b (p & Hp' & Hb).
  assert (p = profile) as -> by congruence.
  apply list_elem_of_lookup_1 in Hb as [i Hi].
  destruct (Forall2_lookup_l _ _ _ _ _ Hacc Hi) as (x & _ & Hx). exact Hx.
Qed.

Lemma Acc_no_cycle name : Acc (fun b a => imports a b) name -> ~ tc imports name name.
Proof.
  intros Hacc. assert (H : Acc (fun b a => tc imports a b) name).
  { induction Hacc as [a _ IH]. constructor. intros b Hb.
    inversion Hb as [? ? Hab|? c ? Hac Hcb]; subst; [by apply IH|]. by apply (IH c Hac). }
  clear Hacc. induction H as [a _ IH]. intros Ha. by apply (IH a).
Qed.

Lemma walk_tc l x y : Sorted imports (l ++ [x]) -> y ∈ l -> tc imports y x.
Proof.
  revert y; induction l as [|z l IH]; intros y; [by intros _ ?%elem_of_nil|]. cbn.
  intros [Hs Hhd]%Sorted_inv Hy.
  assert (Hz : tc imports z x).
  { destruct l as [|w l]; cbn in *; inversion Hhd; subst; [by apply tc_once|].
    eapply tc_l; [done|]. apply IH; [done|left]. }
  apply elem_of_cons in Hy as [->|Hy]; auto.
Qed.

Lemma walk_snoc l x y : Sorted imports (l ++ [x]) -> imports x y -> Sorted imports ((l ++ [x]) ++ [y]).
Proof.
  intros Hs Hxy. induction l as [|z l IH]; cbn in *; [repeat constructor; done|].
  apply Sorted_inv in Hs as [Hs Hhd]. constructor; [by apply IH|].
  destruct l; cbn in *; inversion Hhd; subst; by constructor.
Qed.

(** *** The resolver's invariant *)

Definition cache_ok (c : compiler Assert) : Prop :=
  forall name r, profileCache c !! name = Some r -> resolves name r.

(** The errors: never out of fuel; a reported cycle is an import path that
    starts with [pre] and returns to one of its profiles. *)
Definition error_ok (pre : list string) (e : compile_error) : Prop :=
  match e with
  | DepthExceeded => False
  | ImportCycle source path =>
      pre `prefix_of` path /\ Sorted imports path /\
      exists l name profile, path = l ++ [name] /\ name ∈ l /\
        Profiles !! name = Some profile /\ source = prof_Source profile
  | _ => True
  end.

Lemma error_ok_weaken pre pre' e : pre `prefix_of` pre' -> error_ok pre' e -> error_ok pre e.
Proof. destruct e; cbn; try done. intros Hpre (Hp & H). split; [by etrans|done]. Qed.

Definition outcome (V : gset string) (pre : list string) (name : string)
    (out : result compile_error (resolvedProfile Assert) * compiler Assert) : Prop :=
  match out with
  | (Ok r, c) => resolves name r /\ cache_ok c /\ visiting c = V
  | (Err e, c) => error_ok pre e /\ ~ exists r, resolves name r
  end.

Lemma merge_imports_outcome resolve wrap (pre : list string) (V : gset string) names :
  (forall i e, error_ok (pre ++ [i]) (wrap i e)) ->
  (forall i c, i ∈ names -> cache_ok c -> visiting c = V -> outcome V (pre ++ [i]) i (resolve i c)) ->
  forall raw asserts c, cache_ok c -> visiting c = V ->
  match merge_imports resolve wrap names (raw, asserts) c with
  | (Ok acc, c') =>
      cache_ok c' /\ visiting c' = V /\
      exists rs, Forall2 resolves names rs /\ fold_res Merge (bodies rs) raw = Ok acc.1 /\
                 acc.2 = asserts ++ all_asserts rs
  | (Err e, _) =>
      (exists i, i ∈ names /\ error_ok (pre ++ [i]) e) /\
      ~ exists rs raw', Forall2 resolves names rs /\ fold_res Merge (bodies rs) raw = Ok raw'
  end.
Proof.
  intros Hwrap. induction names as [|i names IH]; intros Hres raw asserts c Hc HV.
  { cbn. split_and!; [done..|]. exists []. split_and!; [constructor|done|]. by rewrite app_nil_r. }
  specialize (IH (fun j c Hj => Hres j c (list_elem_of_further _ _ _ Hj))).
  unfold merge_imports. cbn [fold_M]. unfold mbind, M_bind.
  specialize (Hres i c (list_elem_of_here _ _) Hc HV).
  destruct (resolve i c) as [[r|e] c1] eqn:Er; cbn [outcome] in Hres.
  2:{ destruct Hres as [He Hno]. split; [exists i; split; [left|done]|].
      intros (rs & raw' & Hrs & _). inversion Hrs; subst. eauto. }
  destruct Hres as (Hr & Hc1 & HV1). unfold lift. cbn [fst snd].
  destruct (Merge raw (res_Body r)) as [raw1|e] eqn:Em; cbn [map_err].
  2:{ split; [exists i; split; [left|apply Hwrap]|].
      intros (rs & raw' & Hrs & Hf). inversion Hrs as [|? r' ? rs' Hr' Hrs']; subst.
      rewrite <- (resolves_det _ _ Hr _ Hr') in Hf. unfold bodies in Hf. cbn in Hf. by rewrite Em in Hf. }
  specialize (IH raw1 (asserts ++ res_Asserts r) c1 Hc1 HV1). unfold merge_imports in IH.
  cbn [mret M_ret] in *. destruct (fold_M _ names _ c1) as [[acc|e] c2].
  - destruct IH as (Hc2 & HV2 & rs & Hrs & Hf & Ha). split_and!; [done..|].
    exists (r :: rs). split_and!; [by constructor| |].
    + unfold bodies. cbn. by rewrite Em.
    + rewrite Ha. unfold all_asserts. cbn. by rewrite <- app_assoc.
  - destruct IH as ((j & Hj & He) & Hno). split; [exists j; split; [by right|done]|].
    intros (rs & raw' & Hrs & Hf). inversion Hrs as [|? r' ? rs' Hr' Hrs']; subst.
    rewrite <- (resolves_det _ _ Hr _ Hr') in Hf. unfold bodies in Hf. cbn in Hf. rewrite Em in Hf.
    apply Hno. by exists rs', raw'.
Qed.

Lemma stack_full (stack : list string) name profile :
  NoDup stack -> (forall n, n ∈ stack -> n ∈ dom Profiles) -> size Profiles <= length stack ->
  Profiles !! name = Some profile -> name ∈ stack.
Proof.
  intros Hnd Hdom Hsize Hp.
  assert (Hsub : stack ⊆+ elements (dom Profiles)).
  { apply NoDup_submseteq; [done|]. intros n Hn. apply elem_of_elements; auto. }
  rewrite (submseteq_length_Permutation _ _ Hsub).
  - apply elem_of_elements, elem_of_dom. eauto.
  - change (length (elements (dom Profiles))) with (size (dom Profiles)). by rewrite size_dom.
Qed.

(** The body of [resolveProfile], given what the imports' resolution does. *)
Definition resolve_body (resolve : string -> M compile_error (compiler Assert) (resolvedProfile Assert))
    (name : string) (profile : Profile Assert)
  : M compile_error (compiler Assert) (resolvedProfile Assert) :=
  _ ← mark name;
  acc ← merge_imports resolve (ProfileImportFailed (prof_Source profile) name)
          (prof_Imports profile) (MapValue ∅ (prof_Source profile), []);
  merged ← lift (map_err (ProfileFailed (prof_Source profile) name)
                   (Merge acc.1 (prof_Body profile)));
  let resolved := {| res_Body := merged; res_Asserts := acc.2 ++ prof_Asserts profile |} in
  _ ← finish name resolved;
  mret resolved.

Lemma resolve_body_outcome resolve name profile stack c :
  Profiles !! name = Some profile -> name ∉ visiting c -> cache_ok c ->
  (forall i c', i ∈ prof_Imports profile -> cache_ok c' -> visiting c' = {[name]} ∪ visiting c ->
     outcome ({[name]} ∪ visiting c) ((stack ++ [name]) ++ [i]) i (resolve i c')) ->
  outcome (visiting c) (stack ++ [name]) name (resolve_body resolve name profile c).
Proof.
  intros Hp Hv Hc Hres. unfold resolve_body.
  set (c1 := {| profileCache := profileCache c; visiting := {[name]} ∪ visiting c |}).
  assert (Himp := merge_imports_outcome resolve (ProfileImportFailed (prof_Source profile) name)
    (stack ++ [name]) ({[name]} ∪ visiting c) (prof_Imports profile) (fun i e => I) Hres
    (MapValue ∅ (prof_Source profile)) [] c1 Hc eq_refl).
  unfold mbind, M_bind, mark. fold c1.
  destruct (merge_imports _ _ _ _ c1) as [[acc|e] c2].
  2:{ destruct Himp as ((i & Hi & He) & Hno). split.
      - eapply error_ok_weaken; [|done]. by apply prefix_app_r.
      - intros [r Hr]. inversion Hr as [? p rs raw merged Hp' Hrs Hraw]; subst.
        assert (p = profile) as -> by congruence. eauto. }
  destruct Himp as (Hc2 & HV2 & rs & Hrs & Hraw & Ha). unfold lift.
  destruct (Merge acc.1 (prof_Body profile)) as [merged|e] eqn:Em; cbn [map_err].
  2:{ split; [done|]. intros [r Hr]. inversion Hr as [? p rs' raw' merged Hp' Hrs' Hraw' Hm']; subst.
      assert (p = profile) as -> by congruence.
      rewrite <- (resolves_list_det _ _ Hrs _ Hrs') in Hraw'. congruence. }
  assert (Hr : resolves name {| res_Body := merged; res_Asserts := acc.2 ++ prof_Asserts profile |}).
  { rewrite Ha. by eapply resolves_intro. }
  cbn. split_and!; [done| |rewrite HV2; set_solver].
  intros n r. cbn [profileCache]. destruct (decide (n = name)) as [->|Hne].
  - rewrite lookup_insert_eq. by intros [= <-].
  - rewrite lookup_insert_ne by done. apply Hc2.
Qed.

Lemma resolveProfile_outcome fuel : forall name stack c,
  cache_ok c -> visiting c = list_to_set stack -> NoDup stack ->
  (forall n, n ∈ stack -> n ∈ dom Profiles) -> size Profiles <= fuel + length stack ->
  Sorted imports (stack ++ [name]) ->
  outcome (visiting c) (stack ++ [name]) name (resolveProfile Profiles fuel name stack c).
Proof.
  induction fuel as [|fuel IH]; intros name stack c Hc HV Hnd Hdom Hfuel Hwalk; cbn [resolveProfile];
    destruct (profileCache c !! name) as [r|] eqn:Hcache;
    try (cbn; by split_and!; [apply Hc| |]);
    (destruct (Profiles !! name) as [profile|] eqn:Hp;
      [|cbn; split; [done|]; intros [r Hr]; inversion Hr; congruence]);
    case_decide as Hv.
  1,3: cbn; rewrite HV, elem_of_list_to_set in Hv; split;
    [split_and!; [done..|]; by exists stack, name, profile|];
    intros [r Hr]; apply (Acc_no_cycle name); [by eapply resolves_acyclic|by eapply walk_tc].
  { destruct Hv. rewrite HV, elem_of_list_to_set. by eapply stack_full. }
  apply resolve_body_outcome; [done..|]. intros i c' Hi Hc' HV'. rewrite <- HV'.
  rewrite HV, elem_of_list_to_set in Hv. apply IH; [done|..].
  - rewrite HV', HV, list_to_set_app_L. cbn. set_solver.
  - apply NoDup_app. split_and!; [done| |apply NoDup_singleton].
    intros n Hn ->%list_elem_of_singleton. done.
  - intros n [Hn| ->%list_elem_of_singleton]%elem_of_app; [auto|]. apply elem_of_dom. eauto.
  - rewrite length_app. cbn. lia.
  - apply walk_snoc; [done|]. by exists profile.
Qed.

End resolves.

(** ** The merge rules

    [overlays base overlay r]: overlaying gives the value of [r], or removes
    the entry when [r] is [None]; there is no rule for the rejected uses of a
    modifier.  [keeps overlay]: neither [unset] nor [force]. *)
Definition keeps (overlay : Value) : Prop :=
  v_Modifier overlay <> ModifierUnset /\ v_Modifier overlay <> ModifierForce.
Definition list_modifier (overlay : Value) : Prop :=
  v_Modifier overlay = ModifierBefore \/ v_Modifier overlay = ModifierAfter.

Inductive overlays : Value -> Value -> option Value -> Prop :=
| overlays_unset base overlay :
    v_Modifier overlay = ModifierUnset ->
    v_Kind base <> KindList -> isKnownListPath (src_Path (v_Source overlay)) = false ->
    overlays base overlay None
| overlays_force base overlay :
    v_Modifier overlay = ModifierForce ->
    overlays base overlay (Some (WithoutModifier overlay))
| overlays_map base overlay m :
    keeps overlay -> v_Kind base = KindMap -> v_Kind overlay = KindMap ->
    (forall k, v_Map overlay !! k = None -> m !! k = v_Map base !! k) ->
    (forall k o, v_Map overlay !! k = Some o -> overlays (map_get (v_Map base) k) o (m !! k)) ->
    overlays base overlay
      (Some (with_order (dedup (v_Order base ++ v_Order overlay)) (MapValue m (v_Source overlay))))
| overlays_before base overlay :
    v_Modifier overlay = ModifierBefore -> v_Kind base = KindList -> v_Kind overlay = KindList ->
    overlays base overlay
      (Some (listValue (keep_first (v_List overlay ++ v_List base)) (v_Source overlay)))
| overlays_append base overlay :
    keeps overlay -> v_Modifier overlay <> ModifierBefore ->
    v_Kind base = KindList -> v_Kind overlay = KindList ->
    overlays base overlay
      (Some (listValue (keep_first (v_List base ++ v_List overlay)) (v_Source overlay)))
| overlays_replace base overlay :
    keeps overlay -> (v_Kind base = v_Kind overlay -> v_Kind base <> KindMap /\ v_Kind base <> KindList) ->
    (list_modifier overlay -> v_Kind overlay = KindList) ->
    overlays base overlay (Some (WithoutModifier overlay)).

(** Induction on a value that reaches the entries of its map. *)
Fixpoint value_depth (v : Value) : nat :=
  S (foldr Nat.max 0 (map_to_list (value_depth <$> v_Map v)).*2).

Lemma value_depth_entry v k x : v_Map v !! k = Some x -> value_depth x < value_depth v.
Proof.
  intros Hx. destruct v as [? ? ? ? ? m]; cbn in *.
  assert (Hin : value_depth x ∈ (map_to_list (value_depth <$> m)).*2).
  { apply list_elem_of_fmap. exists (k, value_depth x). split; [done|].
    apply elem_of_map_to_list. by rewrite lookup_fmap, Hx. }
  revert Hin. generalize (map_to_list (value_depth <$> m)).*2 as l.
  induction l as [|n l IH]; cbn; [by intros ?%elem_of_nil|].
  intros [<-|Hl]%elem_of_cons; [lia|]. specialize (IH Hl). lia.
Qed.

Lemma Value_map_ind (P : Value -> Prop) :
  (forall v, map_Forall (fun _ => P) (v_Map v) -> P v) -> forall v, P v.
Proof.
  intros Hstep v. remember (value_depth v) as n eqn:Hn. revert v Hn.
  induction (lt_wf n) as [n _ IH]; intros v ->. apply Hstep. intros k x Hx.
  eapply IH; [|done]. by eapply value_depth_entry.
Qed.

(** One unfolding of [mergeValue]. *)
Lemma mergeValue_eq base overlay :
  mergeValue base overlay =
  match v_Modifier overlay with
  | ModifierUnset =>
      if IsList base || isKnownListPath (src_Path (v_Source overlay))
      then Err (UnsetOnList (v_Source overlay)) else Ok None
  | ModifierForce => Ok (Some (WithoutModifier overlay))
  | m =>
      if bool_decide (v_Kind base = KindZero) then
        _ ← check_list_modifier overlay; Ok (Some (WithoutModifier overlay))
      else if IsMap base && IsMap overlay then
        merged ← merge_entries ((fun o b => mergeValue b o) <$> v_Map overlay) (v_Map base);
        Ok (Some (with_order (mergeMapOrder base overlay) (MapValue merged (v_Source overlay))))
      else
        _ ← check_list_modifier overlay;
        if IsList base && IsList overlay then
          if bool_decide (m = ModifierBefore)
          then Ok (Some (listValue (appendDedup (v_List overlay) (v_List base)) (v_Source overlay)))
          else Ok (Some (listValue (appendDedup (v_List base) (v_List overlay)) (v_Source overlay)))
        else Ok (Some (WithoutModifier overlay))
  end.
Proof. by destruct overlay. Qed.

Lemma mergeValue_keeps base overlay :
  keeps overlay ->
  mergeValue base overlay =
  if bool_decide (v_Kind base = KindMap /\ v_Kind overlay = KindMap) then
    merged ← merge_entries ((fun o b => mergeValue b o) <$> v_Map overlay) (v_Map base);
    Ok (Some (with_order (mergeMapOrder base overlay) (MapValue merged (v_Source overlay))))
  else
    _ ← check_list_modifier overlay;
    Ok (Some
      (if bool_decide (v_Kind base = KindList /\ v_Kind overlay = KindList) then
         listValue (if bool_decide (v_Modifier overlay = ModifierBefore)
                    then appendDedup (v_List overlay) (v_List base)
                    else appendDedup (v_List base) (v_List overlay)) (v_Source overlay)
       else WithoutModifier overlay)).
Proof.
  intros [Hu Hf]. rewrite mergeValue_eq. unfold IsMap, IsList.
  destruct (v_Modifier overlay) eqn:Hm; try done;
    destruct (v_Kind base) eqn:Hb; try done; destruct (v_Kind overlay) eqn:Ho; done.
Qed.

Lemma check_list_modifier_Ok overlay u :
  check_list_modifier overlay = Ok u <-> (list_modifier overlay -> v_Kind overlay = KindList).
Proof.
  unfold check_list_modifier, list_modifier, IsList. rewrite guard_or_Ok, orb_true_iff, negb_true_iff.
  rewrite bool_decide_eq_false, bool_decide_eq_true. destruct (v_Modifier overlay); naive_solver.
Qed.

Lemma keeps_dec overlay :
  v_Modifier overlay = ModifierUnset \/ v_Modifier overlay = ModifierForce \/ keeps overlay.
Proof. unfold keeps. destruct (v_Modifier overlay); naive_solver. Qed.

Lemma mergeValue_overlays overlay : forall base r,
  mergeValue base overlay = Ok r <-> overlays base overlay r.
Proof.
  induction overlay as [overlay IH] using Value_map_ind. intros base r. split.
  - destruct (keeps_dec overlay) as [Hu|[Hf|Hk]].
    + rewrite mergeValue_eq, Hu. unfold IsList. case_bool_decide; [done|].
      rewrite orb_false_l. destruct (isKnownListPath (src_Path (v_Source overlay))) eqn:E; [done|]. intros [= <-]. by constructor.
    + rewrite mergeValue_eq, Hf. intros [= <-]. by constructor.
    + rewrite mergeValue_keeps by done. case_bool_decide as Hmap.
      * intros (m & [H1 H2]%merge_maps_Ok & [= <-])%bind_Ok. destruct Hmap.
        constructor; try done. intros k o Ho. by apply (IH k o Ho), H2.
      * intros (u & Hl & [= <-])%bind_Ok. rewrite check_list_modifier_Ok in Hl.
        case_bool_decide as Hlist; [destruct Hlist; case_bool_decide|];
          rewrite ?appendDedup_keep_first.
        -- by apply overlays_before.
        -- by apply overlays_append.
        -- apply overlays_replace; [done| |done].
           intros Heq. split; intros Hb; rewrite Hb in Heq; naive_solver.
  - destruct 1 as [base overlay Hu Hb Hp|base overlay Hf|base overlay m Hk Hb Ho H1 H2
                  |base overlay Hm Hb Ho|base overlay Hk Hm Hb Ho|base overlay Hk Hne Hl].
    + rewrite mergeValue_eq, Hu. unfold IsList. rewrite bool_decide_false by done. by rewrite Hp.
    + by rewrite mergeValue_eq, Hf.
    + rewrite mergeValue_keeps, bool_decide_true by done.
      rewrite (proj2 (merge_maps_Ok base overlay m)); [done|]. split; [done|].
      intros k o Hk'. by apply (IH k o Hk'), H2.
    + rewrite mergeValue_keeps by (split; congruence). rewrite Hb, Ho, Hm.
      rewrite bool_decide_false, bool_decide_true, bool_decide_true by naive_solver.
      rewrite (proj2 (check_list_modifier_Ok overlay tt)) by done.
      by rewrite appendDedup_keep_first.
    + rewrite mergeValue_keeps, Hb, Ho by done.
      rewrite bool_decide_false, bool_decide_true, bool_decide_false by naive_solver.
      rewrite (proj2 (check_list_modifier_Ok overlay tt)) by done.
      by rewrite appendDedup_keep_first.
    + rewrite mergeValue_keeps by done.
      rewrite !bool_decide_false by (intros [Hb Ho]; destruct Hne; congruence).
      by rewrite (proj2 (check_list_modifier_Ok overlay tt)).
Qed.

(** The rejected uses: [unset] of a list, [before] or [after] on another kind
    of value; among the entries of two maps the least failing key decides. *)
Inductive rejects : Value -> Value -> merge_error -> Prop :=
| rejects_unset base overlay :
    v_Modifier overlay = ModifierUnset ->
    v_Kind base = KindList \/ isKnownListPath (src_Path (v_Source overlay)) = true ->
    rejects base overlay (UnsetOnList (v_Source overlay))
| rejects_modifier base overlay :
    list_modifier overlay -> v_Kind overlay <> KindList ->
    ~ (v_Kind base = KindMap /\ v_Kind overlay = KindMap) ->
    rejects base overlay (ModifierNeedsList (v_Source overlay) (v_Modifier overlay))
| rejects_entry base overlay k o e :
    keeps overlay -> v_Kind base = KindMap -> v_Kind overlay = KindMap ->
    v_Map overlay !! k = Some o -> rejects (map_get (v_Map base) k) o e ->
    (forall k' o', v_Map overlay !! k' = Some o' -> str_ltb k' k = true ->
       exists r, overlays (map_get (v_Map base) k') o' r) ->
    rejects base overlay e.

Lemma check_list_modifier_Err overlay e :
  check_list_modifier overlay = Err e <->
  list_modifier overlay /\ v_Kind overlay <> KindList /\
  e = ModifierNeedsList (v_Source overlay) (v_Modifier overlay).
Proof.
  unfold check_list_modifier, list_modifier, IsList. rewrite guard_or_Err, orb_false_iff, negb_false_iff.
  rewrite bool_decide_eq_true, bool_decide_eq_false. naive_solver.
Qed.

Lemma mergeValue_rejects overlay : forall base e,
  mergeValue base overlay = Err e <-> rejects base overlay e.
Proof.
  induction overlay as [overlay IH] using Value_map_ind. intros base e. split.
  - destruct (keeps_dec overlay) as [Hu|[Hf|Hk]].
    + rewrite mergeValue_eq, Hu. unfold IsList.
      destruct (bool_decide _ || _) eqn:E; [|done]. intros [= <-]. apply rejects_unset; [done|].
      apply orb_true_iff in E as [?%bool_decide_eq_true|?]; auto.
    + by rewrite mergeValue_eq, Hf.
    + rewrite mergeValue_keeps by done. case_bool_decide as Hmap.
      * intros [(k & o & Ho & He & Hmin)%merge_maps_Err|(? & _ & ?)]%bind_Err; [|done].
        destruct Hmap. eapply rejects_entry; [done..|by apply (IH k o Ho)|].
        intros k' o' Ho' Hlt. destruct (Hmin k' o' Ho' Hlt) as [r Hr].
        exists r. by apply mergeValue_overlays.
      * intros [(? & ? & ->)%check_list_modifier_Err|(? & _ & ?)]%bind_Err; [|done].
        by apply rejects_modifier.
  - destruct 1 as [base overlay Hu Hb|base overlay Hm Ho Hmap|base overlay k o e Hk Hb Ho Hl He Hmin].
    + rewrite mergeValue_eq, Hu. unfold IsList. destruct Hb as [->| ->]; [done|]. by rewrite orb_true_r.
    + rewrite mergeValue_keeps by (split; destruct Hm; congruence).
      rewrite bool_decide_false by done. apply bind_Err. left. by apply check_list_modifier_Err.
    + rewrite mergeValue_keeps, bool_decide_true by done. apply bind_Err. left.
      apply merge_maps_Err. exists k, o. split_and!; [done|by apply (IH k o Hl)|].
      intros k' o' Ho' Hlt. destruct (Hmin k' o' Ho' Hlt) as [r Hr].
      exists r. by apply mergeValue_overlays.
Qed.


(** ** The marks of merged collections *)

(** when two lists meet, the merged list forgets the sensitive and
    ephemeral marks of both: if no item is marked itself, the merged list is
    not marked, whatever the marks of the lists. *)
Theorem Merge_drops_list_marks (base overlay r : Value) :
  v_Kind base = KindList -> v_Kind overlay = KindList -> keeps overlay ->
  (forall x, x ∈ v_List base ++ v_List overlay ->
     ContainsSensitive x = false /\ ContainsEphemeral x = false) ->
  Merge base overlay = Ok r ->
  v_Kind r = KindList /\ ContainsSensitive r = false /\ ContainsEphemeral r = false.
Proof.
  intros Hb Ho Hk Hx. unfold Merge. rewrite mergeValue_keeps, Hb, Ho by done.
  rewrite bool_decide_false, bool_decide_true by naive_solver.
  rewrite (proj2 (check_list_modifier_Ok overlay tt)) by done.
  rewrite !Ok_bind. intros [= <-]. split; [done|].
  assert (Hall : forall x, x ∈ (if bool_decide (v_Modifier overlay = ModifierBefore)
                    then appendDedup (v_List overlay) (v_List base)
                    else appendDedup (v_List base) (v_List overlay)) ->
                 ContainsSensitive x = false /\ ContainsEphemeral x = false).
  { intros x. rewrite !appendDedup_keep_first. case_bool_decide;
      intros Hin%keep_first_elem; apply Hx; revert Hin; rewrite !elem_of_app; tauto. }
  revert Hall. generalize (if bool_decide (v_Modifier overlay = ModifierBefore)
                    then appendDedup (v_List overlay) (v_List base)
                    else appendDedup (v_List base) (v_List overlay)) as l. intros l Hl.
  split; cbn; induction l as [|x l IH]; cbn; try done;
    (destruct (Hl x) as [Hs He]; [by left|]); rewrite ?Hs, ?He; apply IH; intros; apply Hl; by right.
Qed.

Definition secret_list : Value :=
  mkValue KindList "" false "" [mkValue KindString "token" false "" [] ∅ [] None None no_source
    ModifierNone false false] ∅ [] None None no_source ModifierNone true true.

Lemma Merge_drops_list_marks_witness :
  ContainsSensitive secret_list = true /\
  exists r, Merge (listValue [] no_source) secret_list = Ok r /\
    v_Kind r = KindList /\ ContainsSensitive r = false /\ ContainsEphemeral r = false.
Proof.
  split; [reflexivity|]. eexists. split; [vm_compute; reflexivity|].
  apply (Merge_drops_list_marks (listValue [] no_source) secret_list); try reflexivity.
  - split; intros H; discriminate H.
  - intros x Hx. cbn in Hx. apply list_elem_of_singleton in Hx as ->. split; reflexivity.
Defined.

(** ** Profiles *)

Section hosts.
Context {Assert : Type} (Profiles : gmap string (Profile Assert)).

(** A host's body is the merge of its resolved imports, in order, and its own
    body last. *)
Definition host_resolves (host : Host Assert) (out : Value * list Assert) : Prop :=
  exists rs raw, Forall2 (resolves Profiles) (hst_Imports host) rs /\
    fold_res Merge (bodies rs) (MapValue ∅ (hst_Source host)) = Ok raw /\
    Merge raw (hst_Body host) = Ok out.1 /\ out.2 = all_asserts rs ++ hst_Asserts host.

(** A path of imports that starts at [first] and comes back to a profile on it. *)
Definition import_cycle (first : string) (path : list string) : Prop :=
  [first] `prefix_of` path /\ Sorted (imports Profiles) path /\
  exists l name, path = l ++ [name] /\ name ∈ l.

(** A resolution started by a host. *)
Lemma resolve_root (names : list string) i c :
  i ∈ names -> cache_ok Profiles c -> visiting c = ∅ ->
  outcome Profiles ∅ ([] ++ [i]) i (resolveProfile Profiles (size Profiles) i [] c).
Proof.
  intros _ Hc HV. rewrite <- HV. apply resolveProfile_outcome; try done.
  - constructor.
  - by intros n ?%elem_of_nil.
  - cbn. lia.
  - repeat constructor.
Qed.

Lemma mergeHost_outcome host c :
  cache_ok Profiles c -> visiting c = ∅ ->
  match mergeHost Profiles host c with
  | (Ok out, c') => host_resolves host out /\ cache_ok Profiles c' /\ visiting c' = ∅
  | (Err e, _) =>
      (forall out, ~ host_resolves host out) /\ e <> DepthExceeded /\
      forall source path, e = ImportCycle source path ->
        exists first, first ∈ hst_Imports host /\ import_cycle first path
  end.
Proof.
  intros Hc HV. unfold mergeHost, mbind, M_bind.
  assert (Himp := merge_imports_outcome Profiles (fun i => resolveProfile Profiles (size Profiles) i [])
    (HostImportFailed (hst_Source host) (hst_Name host)) [] ∅ (hst_Imports host) (fun i e => I)).
  specialize (fun H => Himp H (MapValue ∅ (hst_Source host)) [] c Hc HV).
  destruct (merge_imports _ _ _ _ c) as [[acc|e] c1].
  2:{ destruct Himp as ((i & Hi & He) & Hno).
      - by apply resolve_root.
      - split_and!.
        + intros out (rs & raw & Hrs & Hraw & _). eauto.
        + by intros ->.
        + intros source path ->. exists i. destruct He as (Hpre & Hs & l & name & p & -> & Hn & _).
          split_and!; [done|]. split_and!; [done..|]. eauto. }
  destruct Himp as (Hc1 & HV1 & rs & Hrs & Hraw & Ha).
  { by apply resolve_root. }
  unfold lift. destruct (Merge acc.1 (hst_Body host)) as [merged|e] eqn:Em; cbn [map_err].
  - split_and!; [|done..]. exists rs, acc.1. cbn. split_and!; [done..|]. by rewrite Ha.
  - split_and!; [|done..]. intros out (rs' & raw' & Hrs' & Hraw' & Hm' & _).
    rewrite <- (resolves_list_det _ _ _ Hrs _ Hrs') in Hraw'. congruence.
Qed.

Lemma host_resolves_det host out out' : host_resolves host out -> host_resolves host out' -> out = out'.
Proof.
  intros (rs & raw & Hrs & Hraw & Hm & Ha) (rs' & raw' & Hrs' & Hraw' & Hm' & Ha').
  rewrite <- (resolves_list_det _ _ _ Hrs _ Hrs') in Hraw', Ha'.
  assert (raw' = raw) as -> by congruence. destruct out, out'; cbn in *. congruence.
Qed.

(** C29: merging a host with its profiles computes exactly the declarative
    import semantics.  Started with a cache of resolved profiles and no profile
    being resolved, it succeeds iff the import lists of the host and of the
    profiles below it have a meaning, with that body and those assertions, and
    leaves such a compiler for the next host: the cache and the marks do not
    show.  It never runs out of depth, and a reported cycle is a path of imports
    from one of the host's imports that returns to a profile on it. *)
Theorem mergeHost_spec (host : Host Assert) (c : compiler Assert) :
  cache_ok Profiles c -> visiting c = ∅ ->
  (forall out, (mergeHost Profiles host c).1 = Ok out <-> host_resolves host out) /\
  (forall out c', mergeHost Profiles host c = (Ok out, c') ->
     cache_ok Profiles c' /\ visiting c' = ∅) /\
  (forall e c', mergeHost Profiles host c = (Err e, c') ->
     e <> DepthExceeded /\
     forall source path, e = ImportCycle source path ->
       exists first, first ∈ hst_Imports host /\ import_cycle first path).
Proof.
  intros Hc HV. assert (H := mergeHost_outcome host c Hc HV).
  destruct (mergeHost Profiles host c) as [[out|e] c1].
  - destruct H as (Hout & Hc1 & HV1). split_and!; [|by intros ? ? [= <- <-]|done].
    intros out'. cbn. split; [by intros [= <-]|]. intros Hout'. f_equal. by eapply host_resolves_det.
  - destruct H as (Hno & He). split_and!; [|done|by intros ? ? [= <- <-]].
    intros out. cbn. split; [done|]. by intros ?%Hno.
Qed.

End hosts.

Definition settings (l : list (string * Value)) : Value := MapValue (list_to_map l) no_source.

Definition sample_profiles : gmap string (Profile string) :=
  {["base" := {| prof_Name := "base"; prof_Source := no_source; prof_Imports := [];
                 prof_Body := settings [("zone", str_value "UTC"); ("lang", str_value "C")];
                 prof_Asserts := ["a1"] |};
    "web" := {| prof_Name := "web"; prof_Source := no_source; prof_Imports := ["base"];
                prof_Body := settings [("zone", str_value "Asia/Tokyo")]; prof_Asserts := ["a2"] |}]}.

Definition sample_host : Host string :=
  {| hst_Name := "server1"; hst_Source := no_source; hst_Imports := ["web"];
     hst_Body := settings [("lang", with_modifier ModifierUnset (NullValue no_source))];
     hst_Asserts := ["a3"] |}.

Lemma mergeHost_spec_witness :
  host_resolves sample_profiles sample_host
    (settings [("zone", str_value "Asia/Tokyo")], ["a1"; "a2"; "a3"]).
Proof.
  apply (mergeHost_spec sample_profiles sample_host new_compiler).
  - intros name r H. discriminate H.
  - reflexivity.
  - vm_compute. reflexivity.
Defined.
