(* ===== verification/VariableProps.v ===== *)
(** * Properties of variables and component inputs *)
From S2P Require Import Prelude Sha256 GoValue GoStrings IR Values InputType InputTypeProps.
From S2P Require Import InputTypeProps Merge Variables.

Lemma has_type_marks spec v sensitive ephemeral :
  has_type spec v -> has_type spec (with_marks sensitive ephemeral v).
Proof.
  destruct 1; [by apply ht_null|by apply ht_any|by apply ht_string|by apply ht_number|by apply ht_bool
    |by apply ht_list|by apply ht_set|by apply ht_map|by apply ht_object|by apply ht_tuple].
Qed.

Section variables.
Context (range_keys : gmap string Value -> list string).
Context (decode_json : string -> option literal) (eval_hcl : string -> SourceRef -> option Value).

(** A value as its declaration wants it: of its type, null only when allowed,
    marked as declared. *)
Definition fits (variable : VariableDecl) (v : Value) : Prop :=
  has_type (var_TypeSpec variable) v /\
  (v_Kind v = KindNull -> var_Nullable variable = false -> False) /\
  (var_Sensitive variable = true -> v_Sensitive v = true) /\
  (var_Ephemeral variable = true -> v_Ephemeral v = true).

Lemma normalize_kind name spec value path r :
  normalizeValueForType range_keys name spec value path = Ok r -> v_Kind r = v_Kind value.
Proof.
  destruct spec as [k e a t]. cbn [normalizeValueForType t_Kind t_Element t_Attributes t_Tuple].
  case_bool_decide; [by intros [= <-]|].
  destruct k; unfold typeConstraintError; try (case_bool_decide; [|done]; by intros [= <-]).
  - by intros [= <-].
  - destruct (IsList value); [|done]. by intros (? & _ & [= <-])%bind_Ok.
  - destruct (IsList value); [|done]. by intros (? & _ & [= <-])%bind_Ok.
  - destruct (IsMap value); [|done]. by intros (? & _ & [= <-])%bind_Ok.
  - destruct (IsMap value); [|done]. destruct (unsupported_key _ _ _); [done|].
    by intros (? & _ & [= <-])%bind_Ok.
  - destruct (IsList value); [|done]. case_bool_decide; [|done]. by intros (? & _ & [= <-])%bind_Ok.
  - done.
Qed.

Lemma NormalizeVariableValue_fits variable value r :
  NormalizeVariableValue range_keys variable value = Ok r -> fits variable r.
Proof.
  unfold NormalizeVariableValue. intros (u & Hg%guard_or_Ok & (n & Hn & [= <-])%bind_Ok)%bind_Ok.
  split_and!.
  - apply has_type_marks. by eapply normalize_typed.
  - cbn. rewrite (normalize_kind _ _ _ _ _ Hn). intros Hk Hnull.
    by rewrite bool_decide_true, Hnull in Hg.
  - intros ->. apply orb_true_r.
  - intros ->. apply orb_true_r.
Qed.

Abbreviation external_value := (external_value range_keys decode_json eval_hcl).

Lemma external_value_fits variable item r : external_value variable item = Ok r -> fits variable r.
Proof.
  intros (v & _ & Hv)%bind_Ok. apply map_err_Ok in Hv. by eapply NormalizeVariableValue_fits.
Qed.

(** The last external value given for a name. *)
Definition last_external (name : string) (external : list ExternalVariableValue)
  : option ExternalVariableValue :=
  last (filter (fun item => ev_Name item = name) external).

Lemma last_external_cons name item external :
  last_external name (item :: external) =
  match last_external name external with
  | Some i => Some i
  | None => if decide (ev_Name item = name) then Some item else None
  end.
Proof.
  unfold last_external. rewrite filter_cons. case_decide.
  - rewrite last_cons. by destruct (last _).
  - by destruct (last _).
Qed.

Lemma explicit_values_Ok (Variables : gmap string VariableDecl) external : forall i explicit out,
  explicit_values range_keys decode_json eval_hcl Variables i external explicit = Ok out ->
  (forall item, item ∈ external -> is_Some (Variables !! ev_Name item) \/ ev_IgnoreUnknown item = true) /\
  forall name,
    match Variables !! name, last_external name external with
    | Some variable, Some item => exists v, external_value variable item = Ok v /\ out !! name = Some v
    | _, _ => out !! name = explicit !! name
    end.
Proof.
  induction external as [|item external IH]; intros i explicit out; cbn [explicit_values].
  { intros [= <-]. split; [by intros ? ?%elem_of_nil|]. intros name. by destruct (Variables !! name). }
  destruct (Variables !! ev_Name item) as [variable|] eqn:Hvar.
  - intros (v & Hv & [H1 H2]%IH)%bind_Ok. split.
    + intros x [->|Hx]%elem_of_cons; [left; eauto|by apply H1].
    + intros name. rewrite last_external_cons. specialize (H2 name).
      destruct (Variables !! name) as [variable'|] eqn:Hn.
      * destruct (last_external name external); [done|]. case_decide as Heq.
        -- subst name. rewrite H2, lookup_insert_eq. exists v. split; [congruence|done].
        -- by rewrite H2, lookup_insert_ne.
      * rewrite H2, lookup_insert_ne; [done|]. intros <-. congruence.
  - destruct (ev_IgnoreUnknown item) eqn:Hi; [|done]. intros [H1 H2]%IH. split.
    + intros x [->|Hx]%elem_of_cons; [by right|by apply H1].
    + intros name. rewrite last_external_cons. specialize (H2 name).
      destruct (Variables !! name) as [variable'|] eqn:Hn; [|done].
      destruct (last_external name external); [done|]. rewrite decide_False; [done|].
      intros <-. congruence.
Qed.

Lemma resolve_fold_Ok (Variables : gmap string VariableDecl) explicit allowMissing keys : forall values out : gmap string Value,
  NoDup keys -> (forall k, k ∈ keys -> is_Some (Variables !! k)) ->
  fold_res (fun (values : gmap string Value) name =>
    match Variables !! name with
    | None => Ok values
    | Some variable =>
        value ← resolve_one range_keys explicit allowMissing name variable;
        Ok (match value with Some v => <[name := v]> values | None => values end)
    end) keys values = Ok out ->
  (forall k variable, k ∈ keys -> Variables !! k = Some variable ->
     exists o, resolve_one range_keys explicit allowMissing k variable = Ok o /\
               out !! k = match o with Some v => Some v | None => values !! k end) /\
  (forall k, k ∉ keys -> out !! k = values !! k).
Proof.
  induction keys as [|key keys IH]; intros values out Hnd Hk; cbn [fold_res].
  { intros [= <-]. split; [by intros ? ? ?%elem_of_nil|done]. }
  apply NoDup_cons in Hnd as [Hkey Hnd]. destruct (Hk key) as [variable Hv]; [left|]. rewrite Hv.
  destruct (resolve_one _ _ _ _ _) as [o|e] eqn:Ho; [|done]. rewrite Ok_bind.
  intros [H1 H2]%IH; [|done|intros; apply Hk; by right]. split.
  - intros k variable' [->|Hin]%elem_of_cons Hv'.
    + assert (variable' = variable) as -> by congruence. exists o. split; [done|]. rewrite H2 by done.
      destruct o; [by rewrite lookup_insert_eq|done].
    + destruct (H1 k variable' Hin Hv') as (o' & Ho' & Hout). exists o'. split; [done|].
      rewrite Hout. destruct o' as [|], o as [|]; try done.
      rewrite lookup_insert_ne; [done|]. intros ->. done.
  - intros k [Hne Hin]%not_elem_of_cons. rewrite H2 by done. destruct o; [|done].
    by rewrite lookup_insert_ne.
Qed.

(** Every declared variable gets the value its sources say.  When resolution
    succeeds, each external value is for a declared variable or one the source
    may ignore; the value of a declared variable is its last external value or,
    without one, its default, of the declared type, null only where allowed, and
    marked sensitive or ephemeral as declared; a variable has no value only when
    it has no source and missing values are allowed; and the explicit variables
    are exactly those with an external value. *)
Theorem resolveVariableValues_spec (Variables : gmap string VariableDecl)
    (external : list ExternalVariableValue) (allowMissing : bool) values explicit :
  resolveVariableValues range_keys decode_json eval_hcl Variables external allowMissing = Ok (values, explicit) ->
  (forall item, item ∈ external -> is_Some (Variables !! ev_Name item) \/ ev_IgnoreUnknown item = true) /\
  (forall name, Variables !! name = None -> values !! name = None) /\
  (forall name variable, Variables !! name = Some variable ->
     (name ∈ explicit <-> is_Some (last_external name external)) /\
     match last_external name external, var_Default variable with
     | Some item, _ =>
         exists v, values !! name = Some v /\ external_value variable item = Ok v /\ fits variable v
     | None, Some dflt =>
         exists v, values !! name = Some v /\
           NormalizeVariableValue range_keys variable dflt = Ok v /\ fits variable v
     | None, None => values !! name = None /\ allowMissing = true
     end).
Proof.
  unfold resolveVariableValues.
  intros (exp & [Hdecl Hexp]%explicit_values_Ok & (vs & Hvs & [= <- <-])%bind_Ok)%bind_Ok.
  apply resolve_fold_Ok in Hvs as [Hvs Hnone];
    [|apply NoDup_sorted_keys|by intros k Hk%elem_of_sorted_keys]. split_and!; [done| |].
  - intros name Hn. rewrite Hnone; [apply lookup_empty|]. rewrite elem_of_sorted_keys, Hn. by intros [].
  - intros name variable Hv. specialize (Hexp name). rewrite Hv in Hexp.
    destruct (Hvs name variable) as (o & Ho & Hout); [apply elem_of_sorted_keys; eauto|done|].
    rewrite lookup_empty in Hout. unfold resolve_one in Ho.
    rewrite elem_of_dom. destruct (last_external name external) as [item|].
    + destruct Hexp as (v & Hval & Hexp). rewrite Hexp in Ho. injection Ho as <-. split; [rewrite Hexp; naive_solver|].
      exists v. split_and!; [done|done|]. by eapply external_value_fits.
    + rewrite lookup_empty in Hexp. rewrite Hexp in Ho. split; [rewrite Hexp; naive_solver|].
      destruct (var_Default variable) as [dflt|].
      * destruct (NormalizeVariableValue range_keys variable dflt) as [v|] eqn:Hnv; [|done].
        injection Ho as <-. exists v. split_and!; [done..|]. by eapply NormalizeVariableValue_fits.
      * destruct allowMissing; [|done]. injection Ho as <-. done.
Qed.

End variables.

Section inputs.
Context (range_keys : gmap string Value -> list string).
Context (Hrange : forall m, range_keys m ≡ₚ sorted_keys m).
Context {V E : Type}.
Abbreviation ComponentInput := (ComponentInput V).
Abbreviation Component := (Component V).
Context (validate : ComponentInput -> Value -> result E unit).

(** The value an instance gives an input, or its default. *)
Definition input_source (instance : ComponentInstance) (name : string) (input : ComponentInput)
  : option Value :=
  match ins_Inputs instance !! name with Some v => Some v | None => inp_Default input end.

(** What the loop records for one input. *)
Definition input_recorded (instance : ComponentInstance) (out : input_values) (name : string)
    (input : ComponentInput) : Prop :=
  exists value v, input_source instance name input = Some value /\
    normalizeComponentInput range_keys input value = Ok v /\ validate input v = Ok tt /\
    has_type (inp_TypeSpec input) v /\
    iv_values out !! name = Some (if inp_Sensitive input then with_marks true false v else v) /\
    iv_json out !! name = Some (if inp_Sensitive input then GStr "<sensitive>" else parserValueToAny v).

Lemma component_input_Ok template instance acc name input out :
  component_input range_keys validate template instance acc name input = Ok out ->
  input_recorded instance out name input /\
  forall k, k <> name -> iv_values out !! k = iv_values acc !! k /\ iv_json out !! k = iv_json acc !! k.
Proof.
  unfold component_input. intros (value & Hv & (v & Hn%map_err_Ok & (u & Hval%map_err_Ok & [= <-])%bind_Ok)%bind_Ok)%bind_Ok.
  cbn [iv_values iv_json]. split.
  - exists value, v. split_and!.
    + unfold input_source. destruct (ins_Inputs instance !! name); [by injection Hv as ->|].
      by apply of_option_Ok in Hv.
    + done.
    + by destruct u.
    + unfold normalizeComponentInput in Hn. apply bind_Ok in Hn as (? & _ & Hn).
      rewrite normalize_copies in Hn. apply map_err_Ok in Hn. by eapply normalize_typed.
    + apply lookup_insert_eq.
    + cbn. rewrite lookup_insert_eq. by destruct (inp_Sensitive input).
  - intros k Hk. by rewrite !lookup_insert_ne.
Qed.

Lemma component_inputs_fold template instance keys : forall acc out,
  NoDup keys -> (forall k, k ∈ keys -> is_Some (cmp_Inputs template !! k)) ->
  fold_res (fun acc name =>
    match cmp_Inputs template !! name with
    | Some input => component_input range_keys validate template instance acc name input
    | None => Ok acc
    end) keys acc = Ok out ->
  (forall k input, k ∈ keys -> cmp_Inputs template !! k = Some input -> input_recorded instance out k input) /\
  (forall k, k ∉ keys -> iv_values out !! k = iv_values acc !! k /\ iv_json out !! k = iv_json acc !! k).
Proof.
  induction keys as [|key keys IH]; intros acc out Hnd Hk; cbn [fold_res].
  { intros [= <-]. split; [by intros ? ? ?%elem_of_nil|done]. }
  apply NoDup_cons in Hnd as [Hkey Hnd]. destruct (Hk key) as [input Hi]; [left|]. rewrite Hi.
  destruct (component_input _ _ _ _ acc key input) as [acc1|] eqn:E1; [|done].
  apply component_input_Ok in E1 as [Hrec Hother].
  intros [H1 H2]%IH; [|done|intros; apply Hk; by right]. split.
  - intros k input' [->|Hin]%elem_of_cons Hi'; [|by apply H1].
    assert (input' = input) as -> by congruence. destruct (H2 key Hkey) as [Hval Hjson].
    destruct Hrec as (value & v & Hrec). exists value, v. by rewrite Hval, Hjson.
  - intros k [Hne Hin]%not_elem_of_cons. destruct (H2 k Hin) as [-> ->]. by apply Hother.
Qed.

(** A component instance gets a value of the declared type for every declared
    input, and nothing else: when [componentInputValues] succeeds, its maps have
    exactly the template's inputs; each value is the instance's value or the
    default, normalized to the input's type and accepted by its validations; a
    sensitive input is marked, and shows as a placeholder, whatever its value,
    among the values that are written out. *)
Theorem componentInputValues_spec (template : Component) (instance : ComponentInstance) out :
  componentInputValues range_keys validate template instance = Ok out ->
  dom (iv_values out) = dom (cmp_Inputs template) /\ dom (iv_json out) = dom (cmp_Inputs template) /\
  forall name input, cmp_Inputs template !! name = Some input -> input_recorded instance out name input.
Proof.
  unfold componentInputValues.
  destruct (unsupported_key _ _ _) eqn:Hu; [done|]. rewrite unsupported_None in Hu by done.
  intros [H1 H2]%component_inputs_fold; [|apply NoDup_sorted_keys|by intros k Hk%elem_of_sorted_keys].
  cbn [iv_values iv_json] in H2.
  assert (Hdom : forall k, is_Some (cmp_Inputs template !! k) ->
    is_Some (iv_values out !! k) /\ is_Some (iv_json out !! k)).
  { intros k [input Hi]. destruct (H1 k input) as (value & v & _ & _ & _ & _ & -> & ->);
      [apply elem_of_sorted_keys; eauto|done|]. eauto. }
  assert (Hnot : forall k, cmp_Inputs template !! k = None ->
    iv_values out !! k = None /\ iv_json out !! k = None).
  { intros k Hk. destruct (H2 k) as [-> ->]; [rewrite elem_of_sorted_keys, Hk; by intros []|].
    split; [|apply lookup_empty]. apply eq_None_not_Some. intros Hs%Hu. rewrite Hk in Hs. by destruct Hs. }
  split_and!.
  - apply set_eq. intros k. rewrite !elem_of_dom. split; [|intros ?; by apply Hdom].
    intros Hs. apply not_eq_None_Some. intros [Hn _]%Hnot. rewrite Hn in Hs. by destruct Hs.
  - apply set_eq. intros k. rewrite !elem_of_dom. split; [|intros ?; by apply Hdom].
    intros Hs. apply not_eq_None_Some. intros [_ Hn]%Hnot. rewrite Hn in Hs. by destruct Hs.
  - intros name input Hi. apply H1; [|done]. apply elem_of_sorted_keys. eauto.
Qed.

End inputs.

Definition sample_template : Component unit :=
  {| cmp_Name := "agent";
     cmp_Inputs := {["token" := {| inp_Name := "token"; inp_TypeSpec := simple_type ComponentInputTypeString;
                                   inp_Default := None; inp_Sensitive := true; inp_Nullable := false;
                                   inp_Deprecated := ""; inp_Validations := [];
                                   inp_Source := no_source |}]} |}.
Definition sample_instance : ComponentInstance :=
  {| ins_Name := "agent"; ins_Inputs := {["token" := string_value "s3cret" no_source]};
     ins_Source := no_source |}.
Definition accept (_ : ComponentInput unit) (_ : Value) : result unit unit := Ok tt.
Definition sample_inputs : input_values :=
  match componentInputValues sorted_keys accept sample_template sample_instance with
  | Ok out => out
  | Err _ => {| iv_values := ∅; iv_json := ∅; iv_warnings := [] |}
  end.

Lemma componentInputValues_spec_witness :
  iv_json sample_inputs !! "token" = Some (GStr "<sensitive>") /\
  dom (iv_values sample_inputs) = dom (cmp_Inputs sample_template).
Proof.
  split; [vm_compute; reflexivity|].
  apply (componentInputValues_spec sorted_keys sorted_keys_range accept sample_template sample_instance).
  vm_compute. reflexivity.
Defined.

Definition sample_variable (name : string) (k : ComponentInputTypeKind) (dflt : option Value) : VariableDecl :=
  {| var_Name := name; var_TypeSpec := simple_type k; var_Default := dflt; var_Sensitive := true;
     var_Nullable := false; var_Ephemeral := false; var_Source := no_source |}.
Definition sample_variables : gmap string VariableDecl :=
  {["port" := sample_variable "port" ComponentInputTypeString (Some (string_value "80" no_source));
    "zone" := sample_variable "zone" ComponentInputTypeString None]}.
Definition sample_external : list ExternalVariableValue :=
  (fun v => {| ev_Name := "zone"; ev_Value := v; ev_ParsedValue := None; ev_Source := no_source;
               ev_IgnoreUnknown := false |}) <$> ["a"; "b"].
Definition no_json (_ : string) : option literal := None.
Definition no_hcl (_ : string) (_ : SourceRef) : option Value := None.
Definition sample_resolved_variables :=
  resolveVariableValues sorted_keys no_json no_hcl sample_variables sample_external false.

Definition sample_outcome : gmap string Value * gset string :=
  match sample_resolved_variables with Ok out => out | Err _ => (∅, ∅) end.

Lemma resolveVariableValues_spec_witness :
  v_String <$> sample_outcome.1 !! "zone" = Some "b" /\
  v_String <$> sample_outcome.1 !! "port" = Some "80" /\
  ("zone" ∈ sample_outcome.2 <-> is_Some (last_external "zone" sample_external)).
Proof.
  split; [vm_compute; reflexivity|]. split; [vm_compute; reflexivity|].
  assert (H : resolveVariableValues sorted_keys no_json no_hcl sample_variables sample_external false =
              Ok (sample_outcome.1, sample_outcome.2)) by (vm_compute; reflexivity).
  apply (proj2 (proj2 (resolveVariableValues_spec sorted_keys no_json no_hcl
           sample_variables sample_external false _ _ H)) "zone"
           (sample_variable "zone" ComponentInputTypeString None)).
  vm_compute. reflexivity.
Defined.
