(* ===== verification/MovedDecl.v ===== *)
(** * Moved blocks of a configuration: [internal/core/parser/moved.go]

    [validateAndSortMoved] checks the mappings between component names that the
    [moved] blocks of a configuration declare, before [movedSpecs] addresses
    them on a host and [validateAndOrderMoves] of the state checks the
    addresses. *)
From S2P Require Import Prelude Sha256 GoValue IR State Moves MovesProps Values Merge.

Inductive moved_error :=
| MovesToItself (source : SourceRef) (name : string)
| DuplicateMapping (source : SourceRef) (from to : string) (first : SourceRef)
| MapsToBoth (source : SourceRef) (from first_to to : string) (first : SourceRef)
| BothMapTo (source : SourceRef) (first_from from to : string) (first : SourceRef)
| MappingCycle (source : SourceRef) (name : string)
| VisitOutOfFuel.

Definition moved_less_by_source (a b : Moved) : bool :=
  if decide (src_File (moved_Source a) = src_File (moved_Source b)) then
    if decide (src_Line (moved_Source a) = src_Line (moved_Source b)) then
      if decide (moved_From a = moved_From b) then str_ltb (moved_To a) (moved_To b)
      else str_ltb (moved_From a) (moved_From b)
    else bool_decide (src_Line (moved_Source a) < src_Line (moved_Source b))%Z
  else str_ltb (src_File (moved_Source a)) (src_File (moved_Source b)).

Definition moved_less_by_name (a b : Moved) : bool :=
  if decide (moved_From a = moved_From b) then
    if decide (moved_To a = moved_To b) then
      if decide (src_File (moved_Source a) = src_File (moved_Source b))
      then bool_decide (src_Line (moved_Source a) < src_Line (moved_Source b))%Z
      else str_ltb (src_File (moved_Source a)) (src_File (moved_Source b))
    else str_ltb (moved_To a) (moved_To b)
  else str_ltb (moved_From a) (moved_From b).

Record moved_index := { mi_bySource : gmap string Moved; mi_byTarget : gmap string Moved }.

Definition index_move (ix : moved_index) (move : Moved) : result moved_error moved_index :=
  _ ← guard_or (negb (bool_decide (moved_From move = moved_To move)))
        (MovesToItself (moved_FromSource move) (moved_From move));
  match mi_bySource ix !! moved_From move with
  | Some previous =>
      if bool_decide (moved_To previous = moved_To move)
      then Err (DuplicateMapping (moved_FromSource move) (moved_From move) (moved_To move)
                  (moved_Source previous))
      else Err (MapsToBoth (moved_FromSource move) (moved_From move) (moved_To previous)
                  (moved_To move) (moved_Source previous))
  | None =>
      let insert :=
        {| mi_bySource := <[moved_From move := move]> (mi_bySource ix);
           mi_byTarget := <[moved_To move := move]> (mi_byTarget ix) |} in
      match mi_byTarget ix !! moved_To move with
      | Some previous =>
          if bool_decide (moved_From previous = moved_From move) then Ok insert
          else Err (BothMapTo (moved_FromSource move) (moved_From previous) (moved_From move)
                      (moved_To move) (moved_Source previous))
      | None => Ok insert
      end
  end.

(** [visit]: depth-first along the mappings, with marks 1 (on the stack) and 2
    (done). *)
Fixpoint moved_visit (fuel : nat) (bySource : gmap string Moved) (state : gmap string nat) (name : string)
  : result moved_error (gmap string nat) :=
  match default 0 (state !! name) with
  | 1 => Err (MappingCycle (from_option moved_FromSource no_source (bySource !! name)) name)
  | 2 => Ok state
  | _ =>
      match fuel with
      | O => Err VisitOutOfFuel
      | S fuel =>
          let state := <[name := 1]> state in
          state ← match bySource !! name with
                  | Some move => moved_visit fuel bySource state (moved_To move)
                  | None => Ok state
                  end;
          Ok (<[name := 2]> state)
      end
  end.

(** Every name but the last of a chain is a source. *)
Definition validateAndSortMoved (moves : list Moved) : result moved_error (list Moved) :=
  let moves := sort_by moved_less_by_source moves in
  ix ← fold_res index_move moves {| mi_bySource := ∅; mi_byTarget := ∅ |};
  _ ← fold_res (moved_visit (S (S (size (mi_bySource ix)))) (mi_bySource ix))
        (sorted_keys (mi_bySource ix)) ∅;
  Ok (sort_by moved_less_by_name moves).

(** ** The mapping *)

(** A valid set of mappings: no name maps to itself, to two names, or receives
    two names. *)
Record valid_mapping (moves : list Moved) : Prop := {
  vd_distinct : forall m, m ∈ moves -> moved_From m <> moved_To m;
  vd_sources : NoDup (moved_From <$> moves);
  vd_targets : NoDup (moved_To <$> moves);
}.

(** [maps moves a b]: a block moves [a] to [b]. *)
Definition maps (moves : list Moved) (a b : string) : Prop :=
  exists m, m ∈ moves /\ moved_From m = a /\ moved_To m = b.
Definition acyclic_mapping (moves : list Moved) : Prop := forall a, ~ tc (maps moves) a a.

Definition indexes (moves : list Moved) (ix : moved_index) : Prop :=
  (forall k m, mi_bySource ix !! k = Some m <-> m ∈ moves /\ moved_From m = k) /\
  (forall k m, mi_byTarget ix !! k = Some m <-> m ∈ moves /\ moved_To m = k).

#[export] Instance valid_mapping_perm : Proper ((≡ₚ) ==> iff) valid_mapping.
Proof.
  intros l k Hlk.
  split; intros [Hd Hs Ht]; split; try (by rewrite <- Hlk); try (by rewrite Hlk);
    intros m Hm; apply Hd; [by rewrite Hlk|by rewrite <- Hlk].
Qed.

Lemma valid_mapping_snoc moves m :
  valid_mapping (moves ++ [m]) <->
  valid_mapping moves /\ moved_From m <> moved_To m /\
  (forall p, p ∈ moves -> moved_From p <> moved_From m /\ moved_To p <> moved_To m).
Proof.
  split.
  - intros [Hd Hs Ht]. rewrite fmap_app in Hs, Ht. apply NoDup_app in Hs as (Hs & Hs' & _), Ht as (Ht & Ht' & _).
    split_and!; [split; [intros; apply Hd; set_solver|done|done]|apply Hd; set_solver|].
    intros p Hp. split; intros Heq.
    + apply (Hs' (moved_From p)); [by apply list_elem_of_fmap_2|]. rewrite Heq. left.
    + apply (Ht' (moved_To p)); [by apply list_elem_of_fmap_2|]. rewrite Heq. left.
  - intros ([Hd Hs Ht] & Hne & Hp). split.
    + intros p [Hin| ->%list_elem_of_singleton]%elem_of_app; [by apply Hd|done].
    + rewrite fmap_app. apply NoDup_app. split_and!; [done| |apply NoDup_singleton].
      intros x (p & -> & Hin)%list_elem_of_fmap Hx%list_elem_of_singleton. by destruct (Hp p Hin).
    + rewrite fmap_app. apply NoDup_app. split_and!; [done| |apply NoDup_singleton].
      intros x (p & -> & Hin)%list_elem_of_fmap Hx%list_elem_of_singleton. by destruct (Hp p Hin).
Qed.

Lemma index_move_spec moves ix m :
  valid_mapping moves -> indexes moves ix ->
  match index_move ix m with
  | Ok ix' => valid_mapping (moves ++ [m]) /\ indexes (moves ++ [m]) ix'
  | Err e => ~ valid_mapping (moves ++ [m]) /\ e <> VisitOutOfFuel
  end.
Proof.
  intros Hv [Hs Ht]. unfold index_move. case_bool_decide as Heq; cbn [negb guard_or].
  { split; [|done]. rewrite valid_mapping_snoc. by intros (_ & ? & _). }
  rewrite Ok_bind. destruct (mi_bySource ix !! moved_From m) as [p|] eqn:Ep.
  { apply Hs in Ep as [Hp Hf]. case_bool_decide; (split; [|done]); rewrite valid_mapping_snoc;
      intros (_ & _ & Hall); by destruct (Hall p Hp). }
  assert (Hfrom : forall p, p ∈ moves -> moved_From p <> moved_From m).
  { intros p Hp Hf. assert (Hx := proj2 (Hs (moved_From m) p) (conj Hp Hf)). congruence. }
  destruct (mi_byTarget ix !! moved_To m) as [p|] eqn:Et.
  { apply Ht in Et as [Hp Hto]. rewrite bool_decide_false by (by apply Hfrom). split; [|done].
    rewrite valid_mapping_snoc. intros (_ & _ & Hall). by destruct (Hall p Hp). }
  assert (Hto : forall p, p ∈ moves -> moved_To p <> moved_To m).
  { intros p Hp Hf. assert (Hx := proj2 (Ht (moved_To m) p) (conj Hp Hf)). congruence. }
  split; [rewrite valid_mapping_snoc; auto|].
  split; intros k x; cbn [mi_bySource mi_byTarget]; rewrite lookup_insert_Some, elem_of_app, list_elem_of_singleton.
  - rewrite Hs. split; [naive_solver|]. intros [[Hx| ->] <-]; [right|by left]. split; [|done].
    intros Hf. by apply (Hfrom x Hx).
  - rewrite Ht. split; [naive_solver|]. intros [[Hx| ->] <-]; [right|by left]. split; [|done].
    intros Hf. by apply (Hto x Hx).
Qed.

Lemma index_moves_spec more : forall moves ix,
  valid_mapping moves -> indexes moves ix ->
  match fold_res index_move more ix with
  | Ok ix' => valid_mapping (moves ++ more) /\ indexes (moves ++ more) ix'
  | Err e => ~ valid_mapping (moves ++ more) /\ e <> VisitOutOfFuel
  end.
Proof.
  induction more as [|m more IH]; intros moves ix Hv Hix; cbn [fold_res]; [by rewrite app_nil_r|].
  assert (H := index_move_spec moves ix m Hv Hix). destruct (index_move ix m) as [ix1|e].
  - destruct H as [Hv1 Hix1]. specialize (IH _ _ Hv1 Hix1). by rewrite <- app_assoc in IH.
  - destruct H as [Hno He]. split; [|done]. intros Hall. apply Hno.
    change (moves ++ m :: more) with (moves ++ [m] ++ more) in Hall. rewrite app_assoc in Hall.
    destruct Hall as [Hd Hs Ht]. rewrite fmap_app in Hs, Ht.
    apply NoDup_app in Hs as (Hs & _), Ht as (Ht & _). split; [|done|done].
    intros p Hp. apply Hd. apply elem_of_app. by left.
Qed.

(** ** The search for cycles *)

Section visit.
Context (moves : list Moved) (bySource : gmap string Moved).
Context (Hindex : forall k m, bySource !! k = Some m <-> m ∈ moves /\ moved_From m = k).

Definition settled (name : string) : Prop := Acc (fun b a => maps moves a b) name.

Definition marked (state : gmap string nat) (name : string) : nat := default 0 (state !! name).

(** The marks during a visit whose call stack is [stack]. *)
Definition marks_ok (stack : list string) (state : gmap string nat) : Prop :=
  (forall n, marked state n = 1 <-> n ∈ stack) /\ (forall n, marked state n = 2 -> settled n) /\
  (forall n, marked state n <= 2).

Lemma marked_insert_eq state name k : marked (<[name := k]> state) name = k.
Proof. unfold marked. by rewrite lookup_insert_eq. Qed.
Lemma marked_insert_ne state name k n : n <> name -> marked (<[name := k]> state) n = marked state n.
Proof. intros. unfold marked. by rewrite lookup_insert_ne. Qed.

Lemma marks_empty : marks_ok [] ∅.
Proof. split_and!; intros n; unfold marked; rewrite lookup_empty; cbn; [by split; [|intros ?%elem_of_nil]|done|lia]. Qed.

Lemma marks_push stack state name :
  marks_ok stack state -> marked state name <> 2 -> marks_ok (name :: stack) (<[name := 1]> state).
Proof.
  intros (H1 & H2 & Hle) Hname. split_and!; intros n; (destruct (decide (n = name)) as [->|Hne];
    [rewrite marked_insert_eq|rewrite marked_insert_ne by done]).
  - split; [left|done].
  - rewrite elem_of_cons, H1. split; [by right|by intros [?|?]].
  - done.
  - apply H2.
  - lia.
  - apply Hle.
Qed.

Lemma marks_pop stack state name :
  marks_ok (name :: stack) state -> name ∉ stack -> settled name -> marks_ok stack (<[name := 2]> state).
Proof.
  intros (H1 & H2 & Hle) Hnot Hset. split_and!; intros n; (destruct (decide (n = name)) as [->|Hne];
    [rewrite marked_insert_eq|rewrite marked_insert_ne by done]).
  - done.
  - rewrite H1, elem_of_cons. split; [by intros [?|?]|by right].
  - done.
  - apply H2.
  - lia.
  - apply Hle.
Qed.

Lemma moved_visit_spec fuel : forall name stack state,
  marks_ok stack state -> NoDup stack -> (forall n, n ∈ stack -> n ∈ dom bySource) ->
  (forall n, n ∈ stack -> tc (maps moves) n name) -> size bySource < fuel + length stack ->
  match moved_visit fuel bySource state name with
  | Ok state' => settled name /\ marks_ok stack state' /\ marked state' name = 2 /\
                 (forall n, marked state n = 2 -> marked state' n = 2)
  | Err e => e <> VisitOutOfFuel /\ exists n, tc (maps moves) n n
  end.
Proof.
  induction fuel as [|fuel IH]; intros name stack state Hmarks Hnd Hdom Hreach Hfuel.
  { exfalso. assert (Hsub : stack ⊆+ elements (dom bySource)).
    { apply NoDup_submseteq; [done|]. intros n Hn. apply elem_of_elements. auto. }
    apply submseteq_length in Hsub. change (length (elements (dom bySource))) with (size (dom bySource)) in Hsub.
    rewrite size_dom in Hsub. lia. }
  cbn [moved_visit]. fold (marked state name). assert (Hmarks2 := Hmarks). destruct Hmarks2 as (H1 & H2 & Hle).
  assert (Hm := Hle name). destruct (marked state name) as [|[|[|k]]] eqn:Hmark; [| | |lia].
  2:{ split; [done|]. exists name. apply Hreach. by apply H1. }
  2:{ split_and!; [by apply H2|done|done|done]. }
  assert (Hstack : name ∉ stack) by (intros Hin%H1; congruence).
  assert (Hfinish : forall state', settled name -> marks_ok (name :: stack) state' ->
    (forall n, marked state n = 2 -> marked state' n = 2) ->
    settled name /\ marks_ok stack (<[name := 2]> state') /\ marked (<[name := 2]> state') name = 2 /\
    (forall n, marked state n = 2 -> marked (<[name := 2]> state') n = 2)).
  { intros state' Hset Hok' Hkeep. split_and!; [done|by apply marks_pop|apply marked_insert_eq|].
    intros n Hn. destruct (decide (n = name)) as [->|Hne]; [apply marked_insert_eq|].
    rewrite marked_insert_ne by done. auto. }
  assert (Hok1 : marks_ok (name :: stack) (<[name := 1]> state)) by (apply marks_push; [done|congruence]).
  assert (Hkeep1 : forall n, marked state n = 2 -> marked (<[name := 1]> state) n = 2).
  { intros n Hn. rewrite marked_insert_ne; [done|]. intros ->. congruence. }
  destruct (bySource !! name) as [move|] eqn:Hmove.
  - apply Hindex in Hmove as [Hin Hfrom].
    assert (Hedge : maps moves name (moved_To move)) by (by exists move).
    specialize (IH (moved_To move) (name :: stack) (<[name := 1]> state) Hok1).
    destruct (moved_visit fuel bySource _ (moved_To move)) as [state1|e].
    + destruct IH as (Hset & Hok & _ & Hkeep); [by constructor| | |cbn; lia|].
      * intros n [->|Hn]%elem_of_cons; [|auto]. apply elem_of_dom. exists move. by apply Hindex.
      * intros n [->|Hn]%elem_of_cons; [by apply tc_once|]. eapply tc_r; [by apply Hreach|done].
      * rewrite Ok_bind. apply Hfinish; [|done|auto]. constructor. intros b (m & Hm' & Hf & <-).
        assert (m = move) as ->; [|done].
        assert (Hx := proj2 (Hindex name m) (conj Hm' Hf)). assert (Hy := proj2 (Hindex name move) (conj Hin Hfrom)).
        congruence.
    + apply IH; [by constructor| | |cbn; lia].
      * intros n [->|Hn]%elem_of_cons; [|auto]. apply elem_of_dom. exists move. by apply Hindex.
      * intros n [->|Hn]%elem_of_cons; [by apply tc_once|]. eapply tc_r; [by apply Hreach|done].
  - rewrite Ok_bind. apply Hfinish; [|done|done]. constructor. intros b (m & Hm' & Hf & _).
    assert (Hx := proj2 (Hindex name m) (conj Hm' Hf)). congruence.
Qed.

Lemma visits_spec names : forall state,
  marks_ok [] state ->
  match fold_res (moved_visit (S (S (size bySource))) bySource) names state with
  | Ok state' => forall n, n ∈ names -> settled n
  | Err e => e <> VisitOutOfFuel /\ exists n, tc (maps moves) n n
  end.
Proof.
  induction names as [|name names IH]; intros state Hok; cbn [fold_res]; [by intros n ?%elem_of_nil|].
  assert (H := moved_visit_spec (S (S (size bySource))) name [] state Hok (NoDup_nil_2)).
  destruct (moved_visit _ bySource state name) as [state1|e].
  - destruct H as (Hset & Hok1 & _); [by intros n ?%elem_of_nil..|cbn; lia|]. specialize (IH state1 Hok1).
    destruct (fold_res _ names state1); [|done]. intros n [->|Hn]%elem_of_cons; auto.
  - apply H; [by intros n ?%elem_of_nil..|cbn; lia].
Qed.

End visit.

Lemma settled_no_cycle moves a : settled moves a -> ~ tc (maps moves) a a.
Proof.
  intros Hacc. assert (H : Acc (fun b a => tc (maps moves) a b) a).
  { induction Hacc as [x _ IH]. constructor. intros b Hb.
    inversion Hb as [? ? Hxb|? c ? Hxc Hcb]; subst; [by apply IH|]. by apply (IH c Hxc). }
  clear Hacc. induction H as [x _ IH]. intros Hx. by apply (IH x).
Qed.

#[export] Instance maps_perm a b : Proper ((≡ₚ) ==> iff) (fun moves => maps moves a b).
Proof. intros l k Hlk. unfold maps. split; intros (m & Hm & H); exists m; split; try done; by (rewrite Hlk || rewrite <- Hlk). Qed.

Lemma acyclic_mapping_perm l k : l ≡ₚ k -> acyclic_mapping l -> acyclic_mapping k.
Proof.
  intros Hlk Hl a Hk. apply (Hl a). revert Hk. generalize a at 2 4 as b. intros b Hk.
  induction Hk as [x y H|x y z H _ IH]; [apply tc_once|eapply tc_l; [|exact IH]];
    destruct H as (m & Hm & H); exists m; by rewrite Hlk.
Qed.

Lemma validate_moved_outcome moves :
  match validateAndSortMoved moves with
  | Ok ms => ms = sort_by moved_less_by_name (sort_by moved_less_by_source moves) /\
             valid_mapping moves /\ acyclic_mapping moves
  | Err e => e <> VisitOutOfFuel /\ ~ (valid_mapping moves /\ acyclic_mapping moves)
  end.
Proof.
  unfold validateAndSortMoved. set (sorted := sort_by moved_less_by_source moves).
  assert (Hperm : sorted ≡ₚ moves) by apply sort_by_perm.
  assert (H := index_moves_spec sorted [] {| mi_bySource := ∅; mi_byTarget := ∅ |}).
  destruct (fold_res index_move sorted _) as [ix|e].
  2:{ destruct H as [Hno He]; [split; [by intros ? ?%elem_of_nil|constructor..]|split; set_solver|].
      split; [done|]. intros [Hv _]. apply Hno. cbn. by rewrite Hperm. }
  destruct H as [Hv [Hs _]]; [split; [by intros ? ?%elem_of_nil|constructor..]|split; set_solver|].
  cbn [app] in *. rewrite Ok_bind.
  assert (Hvis := visits_spec sorted (mi_bySource ix) Hs (sorted_keys (mi_bySource ix)) ∅).
  destruct (fold_res _ _ ∅) as [state|e].
  - rewrite Ok_bind. split; [done|]. split; [by rewrite <- Hperm|]. eapply acyclic_mapping_perm; [done|].
    intros a Ha. assert (Hsrc : exists m, m ∈ sorted /\ moved_From m = a).
    { inversion Ha as [? ? (m & Hm & Hf & _)|? ? ? (m & Hm & Hf & _)]; subst; eauto. }
    destruct Hsrc as (m & Hm & Hf). apply (settled_no_cycle sorted a); [|done]. apply Hvis.
    + apply marks_empty.
    + apply elem_of_sorted_keys. exists m. by apply Hs.
  - destruct Hvis as (He & n & Hn).
    + apply marks_empty.
    + split; [done|]. intros [_ Hac]. by apply (acyclic_mapping_perm _ _ (symmetry Hperm) Hac n).
Qed.

(** ** From the configuration to the state *)

(** A component name as an identifier of the configuration language spells it. *)
Definition component_name (c : string) : Prop :=
  c <> "" /\ strings_Contains c "." = false /\ strings_ContainsAny c "[]" = false.

Definition host_component (host c : string) : string := "host." +:+ host +:+ ".components." +:+ c.

Lemma host_component_root host c : host_component host c = component_root host +:+ c.
Proof. unfold host_component, component_root. by rewrite !str_app_assoc. Qed.

Lemma component_name_root host c : component_name c -> is_root host (host_component host c).
Proof.
  intros (Hne & Hdot & Hbr). rewrite host_component_root. unfold is_root, componentFromPrefix.
  rewrite HasPrefix_app, TrimPrefix_app, Hdot, Hbr, bool_decide_false by done. by eexists.
Qed.

#[export] Instance host_component_inj host : Inj (=) (=) (host_component host).
Proof. intros c d. unfold host_component. by intros ?%str_app_inv_l%str_app_inv_l%str_app_inv_l. Qed.

Lemma moved_from_specs host moves : mv_From <$> movedSpecs moves host = host_component host <$> (moved_From <$> moves).
Proof. unfold movedSpecs. by rewrite <- !list_fmap_compose. Qed.
Lemma moved_to_specs host moves : mv_To <$> movedSpecs moves host = host_component host <$> (moved_To <$> moves).
Proof. unfold movedSpecs. by rewrite <- !list_fmap_compose. Qed.

Definition named_components (moves : list Moved) : Prop :=
  Forall (fun m => component_name (moved_From m) /\ component_name (moved_To m)) moves.

Lemma movedSpecs_valid host moves :
  named_components moves -> valid_mapping moves -> valid_moves host (movedSpecs moves host).
Proof.
  intros Hnames [Hd Hs Ht]. split.
  - unfold movedSpecs. rewrite Forall_fmap. apply Forall_forall. intros m Hm.
    destruct (proj1 (Forall_forall _ _) Hnames m Hm) as [Hf Hto]. split_and!; cbn.
    + by apply component_name_root.
    + by apply component_name_root.
    + intros Heq. apply (Hd m Hm). by apply (inj (host_component host)).
  - rewrite moved_from_specs. by apply NoDup_fmap_2; [apply _|].
  - rewrite moved_to_specs. by apply NoDup_fmap_2; [apply _|].
Qed.

Lemma feeds_maps host moves a b :
  feeds (movedSpecs moves host) a b ->
  exists c d, a = host_component host c /\ b = host_component host d /\ maps moves c d.
Proof.
  intros (m & (mv & -> & Hin)%list_elem_of_fmap & <- & <-).
  exists (moved_From mv), (moved_To mv). split_and!; [done|done|by exists mv].
Qed.

Lemma movedSpecs_acyclic host moves : acyclic_mapping moves -> acyclic_moves (movedSpecs moves host).
Proof.
  intros Hac a Ha.
  assert (H : forall x y, tc (feeds (movedSpecs moves host)) x y ->
    exists c d, x = host_component host c /\ y = host_component host d /\ tc (maps moves) c d).
  { intros x y Hxy. induction Hxy as [x y H|x y z H _ IH].
    - apply feeds_maps in H as (c & d & -> & -> & H). exists c, d. split_and!; [done|done|by apply tc_once].
    - apply feeds_maps in H as (c & d & -> & -> & H). destruct IH as (d' & e & Heq & -> & IH).
      apply (inj (host_component host)) in Heq as ->. exists c, e. split_and!; [done|done|by eapply tc_l]. }
  destruct (H a a Ha) as (c & d & -> & Heq & Hcd). apply (inj (host_component host)) in Heq as ->. by apply (Hac d).
Qed.

Lemma named_components_perm l k : l ≡ₚ k -> named_components l -> named_components k.
Proof. unfold named_components. by intros ->. Qed.

(** ** The order of the result *)

Lemma moved_name_asym a b : moved_less_by_name a b = true -> moved_less_by_name b a = false.
Proof.
  revert a b. refine (lex_asym moved_From _ _). refine (lex_asym moved_To _ _).
  refine (lex_asym (fun m => src_File (moved_Source m)) _ _).
  intros a b H%bool_decide_eq_true. apply bool_decide_eq_false. lia.
Qed.

Lemma moved_name_trans a b c :
  moved_less_by_name b a = false -> moved_less_by_name c b = false -> moved_less_by_name c a = false.
Proof.
  revert a b c. refine (lex_trans moved_From _ _). refine (lex_trans moved_To _ _).
  refine (lex_trans (fun m => src_File (moved_Source m)) _ _).
  intros a b c H1%bool_decide_eq_false H2%bool_decide_eq_false. apply bool_decide_eq_false. lia.
Qed.

Lemma valid_sources_inj moves a b :
  valid_mapping moves -> a ∈ moves -> b ∈ moves -> moved_From a = moved_From b -> a = b.
Proof. intros [_ Hs _] Ha Hb Heq. by apply (NoDup_fmap_eq moved_From moves). Qed.

Lemma moved_sort_unique l k :
  valid_mapping l -> l ≡ₚ k -> sort_by moved_less_by_name l = sort_by moved_less_by_name k.
Proof.
  intros Hv Hlk. apply sort_by_unique; [apply moved_name_asym|apply moved_name_trans| |done].
  intros a b Ha Hb Hab Hba. apply (valid_sources_inj l); [done..|].
  unfold moved_less_by_name in Hab, Hba. destruct (decide (moved_From a = moved_From b)); [done|].
  rewrite decide_False in Hba by congruence. by apply str_ltb_total.
Qed.

Lemma moved_sort_strict l :
  valid_mapping l ->
  StronglySorted (fun a b => str_ltb (moved_From a) (moved_From b) = true) (sort_by moved_less_by_name l).
Proof.
  intros Hv. assert (Hnd : NoDup (sort_by moved_less_by_name l)).
  { apply NoDup_sort_by. apply (NoDup_fmap_1 moved_From). apply Hv. }
  assert (Hall : forall x, x ∈ sort_by moved_less_by_name l -> x ∈ l) by (intros x; by rewrite elem_of_sort_by).
  assert (Hs := sort_by_sorted _ moved_name_asym moved_name_trans l).
  induction Hs as [|x k Hk IH Hx]; [constructor|]. apply NoDup_cons in Hnd as [Hnot Hnd].
  constructor; [apply IH; [done|set_solver]|]. apply Forall_forall. intros y Hy.
  assert (Hxy := proj1 (Forall_forall _ _) Hx y Hy). unfold may_follow, moved_less_by_name in Hxy.
  destruct (decide (moved_From y = moved_From x)) as [Heq|Hne].
  { destruct Hnot. by rewrite (valid_sources_inj l x y) by (set_solver || done). }
  destruct (str_ltb (moved_From x) (moved_From y)) eqn:E; [done|]. destruct Hne. by apply str_ltb_total.
Qed.

(** The order of the files does not matter. *)
Lemma moved_order_irrelevant moves moves' :
  valid_mapping moves -> acyclic_mapping moves -> moves' ≡ₚ moves ->
  validateAndSortMoved moves' = Ok (sort_by moved_less_by_name (sort_by moved_less_by_source moves)).
Proof.
  intros Hv Hac Hperm. assert (Hsrc : sort_by moved_less_by_source moves ≡ₚ moves) by apply sort_by_perm.
  assert (H := validate_moved_outcome moves'). destruct (validateAndSortMoved moves') as [ms|e].
  - destruct H as [-> _]. f_equal. apply moved_sort_unique; rewrite sort_by_perm, Hperm; [done|by rewrite Hsrc].
  - destruct H as [_ Hno]. destruct Hno. split; [by rewrite Hperm|by eapply acyclic_mapping_perm].
Qed.

(** ** The properties *)

(** [validateAndSortMoved] accepts the [moved] blocks of a configuration
    exactly when no component moves to itself, none is the source or the
    destination of two blocks and following the blocks never comes back to a
    component; it then returns the same blocks, ordered by source and
    destination name, whatever their order in the files, and its search for
    cycles always ends. *)
Theorem validateAndSortMoved_spec moves :
  (validateAndSortMoved moves <> Err VisitOutOfFuel) /\
  ((exists ms, validateAndSortMoved moves = Ok ms) <-> valid_mapping moves /\ acyclic_mapping moves) /\
  (forall ms, validateAndSortMoved moves = Ok ms ->
     ms ≡ₚ moves /\ StronglySorted (fun a b => str_ltb (moved_From a) (moved_From b) = true) ms /\
     forall moves', moves' ≡ₚ moves -> validateAndSortMoved moves' = Ok ms).
Proof.
  assert (H := validate_moved_outcome moves). destruct (validateAndSortMoved moves) as [ms|e].
  - destruct H as (-> & Hv & Hac).
    assert (Hsrc : sort_by moved_less_by_source moves ≡ₚ moves) by apply sort_by_perm.
    split_and!; [done|split; [done|eauto]|]. intros ms [= <-].
    split_and!; [by rewrite sort_by_perm|apply moved_sort_strict; by rewrite Hsrc|].
    intros moves' Hperm. by apply moved_order_irrelevant.
  - destruct H as [He Hno]. split_and!; [congruence| |done]. split; [intros [? ?]; done|done].
Qed.


Definition ex_block (line : Z) (from to : string) : Moved :=
  let source path := {| src_File := "main.dbf"; src_Line := line; src_Path := path |} in
  {| moved_From := from; moved_To := to; moved_Source := source "moved";
     moved_FromSource := source "moved.from"; moved_ToSource := source "moved.to" |}.
Definition ex_blocks : list Moved := [ex_block 3 "b" "c"; ex_block 7 "a" "b"].

Lemma ex_blocks_named : named_components ex_blocks.
Proof. repeat constructor; try done; vm_compute; done. Qed.


Example cyclic_blocks :
  validateAndSortMoved [ex_block 1 "a" "b"; ex_block 2 "b" "a"]
  = Err (MappingCycle (moved_FromSource (ex_block 1 "a" "b")) "a").
Proof. vm_compute. reflexivity. Qed.
