(* ===== verification/Dependencies.v ===== *)
(** * Explicit dependencies: [internal/core/merge/resource_dependencies.go]

    [depends_on] entries are typed references to packages, files, services and
    artifacts; [resourceDependencies] turns those of one scope (a host or a
    component) into addresses, [resolveArtifactDependencies] fills in the
    artifacts, which another component may install. *)
From S2P Require Import Prelude Sha256 GoValue IR Values Fields.

Record resourceDeclaration := {
  decl_typ : string;
  decl_label : string;
  decl_address : string;
  decl_value : Value;
}.

Inductive dependency_error :=
| FieldError (e : field_error)
| DependsOnNotList (source : SourceRef)
| EntryNotReference (source : SourceRef)
| ListFormPackage (source : SourceRef) (name : string)
| UnknownReference (source : SourceRef) (display : string)
| AmbiguousReference (source : SourceRef) (display : string) (addresses : list string).

Abbreviation D := (result dependency_error).

(** The byte ["\x00"] that separates the parts of a key. *)
Definition NUL : string := byte_str 0.

Definition resourceReferenceKey (typ name : string) : string := typ +:+ NUL +:+ name.

(** A rune outside ASCII is refused, as each of its bytes is. *)
Definition hcl_rune (i : nat) (b : N) : bool :=
  in_range 97 122 b || in_range 65 90 b || (b =? 95)%N || (b =? 45)%N
  || (bool_decide (0 < i) && in_range 48 57 b).

Definition hclIdentifier (value : string) : bool :=
  negb (bool_decide (value = "")) && forallb id (imap hcl_rune (Sha256.bytes value)).

Definition resourceReferenceDisplay (typ name : string) : string :=
  if hclIdentifier name then typ +:+ "." +:+ name
  else typ +:+ "[" +:+ strconv_Quote name +:+ "]".

Definition listPackageDeclared (raw : Value) (name : string) : bool :=
  match field raw "packages" with
  | None => false
  | Some packages =>
      match field packages "install" with
      | None => false
      | Some install =>
          IsList install && existsb (fun item => bool_decide (StringValue item = Some name)) (v_List install)
      end
  end.

(** ** Declarations *)

Inductive resource_type := TPackage | TFile | TService.

(** The rows of the table in [dependencyDeclarations]. *)
Definition decl_domain (t : resource_type) : string :=
  match t with TPackage => "packages" | TFile => "files" | TService => "services" end.
Definition decl_collection (t : resource_type) : string :=
  match t with TPackage => "package" | TFile => "file" | TService => "service" end.
Definition address_collection (t : resource_type) : string :=
  match t with TPackage => "install" | TFile => "file" | TService => "service" end.

Definition decl_identity (t : resource_type) (value : Value) (label : string) : D string :=
  match t with
  | TPackage => Ok label
  | TFile => map_err FieldError (objectPath value "path" label)
  | TService => map_err FieldError (objectName value "name" label)
  end.

Definition resource_address (prefix : string) (t : resource_type) (identity : string) : string :=
  prefix +:+ "." +:+ decl_domain t +:+ "." +:+ address_collection t +:+ "[" +:+
  strconv_Quote identity +:+ "]".

Definition declare (prefix : string) (t : resource_type) (objects : gmap string Value)
    (out : list resourceDeclaration) (label : string) : D (list resourceDeclaration) :=
  let value := default zeroValue (objects !! label) in
  identity ← decl_identity t value label;
  Ok (out ++ [{| decl_typ := decl_collection t; decl_label := label;
                 decl_address := resource_address prefix t identity; decl_value := value |}]).

Definition declare_type (raw : Value) (prefix : string) (out : list resourceDeclaration)
    (t : resource_type) : D (list resourceDeclaration) :=
  match field raw (decl_domain t) with
  | None => Ok out
  | Some domain =>
      objects ← map_err FieldError (objectCollection domain (decl_collection t));
      match objects with
      | None => Ok out
      | Some objects => fold_res (declare prefix t objects) (sorted_keys objects) out
      end
  end.

Definition dependencyDeclarations (raw : Value) (prefix : string) : D (list resourceDeclaration) :=
  fold_res (declare_type raw prefix) [TPackage; TFile; TService] [].

(** ** References of one scope *)

Definition by_reference (declarations : list resourceDeclaration)
  : gmap string resourceDeclaration :=
  fold_left (fun m d => <[resourceReferenceKey (decl_typ d) (decl_label d) := d]> m) declarations ∅.

(** The output slice and the [seen] set. *)
Record dep_state := { ds_out : list ResourceDependencySpec; ds_seen : gset string }.

(** [if _, exists := seen[key]; exists { continue }], then mark and append. *)
Definition add_once (key : string) (dep : ResourceDependencySpec) (s : dep_state) : dep_state :=
  if decide (key ∈ ds_seen s) then s
  else {| ds_out := ds_out s ++ [dep]; ds_seen := {[key]} ∪ ds_seen s |}.

Definition add_reference (raw : Value) (byReference : gmap string resourceDeclaration)
    (declaration : resourceDeclaration) (s : dep_state) (item : Value) : D dep_state :=
  match v_ResourceReference item with
  | None => Err (EntryNotReference (v_Source item))
  | Some ref =>
      if bool_decide (rref_Type ref = "artifact") then
        Ok (add_once (decl_address declaration +:+ NUL +:+ "artifact" +:+ NUL +:+ rref_Name ref)
              {| dep_From := decl_address declaration; dep_DependsOn := "";
                 dep_ArtifactPath := rref_Name ref; dep_Source := rref_Source ref |} s)
      else
        match byReference !! resourceReferenceKey (rref_Type ref) (rref_Name ref) with
        | None =>
            if bool_decide (rref_Type ref = "package") && listPackageDeclared raw (rref_Name ref)
            then Err (ListFormPackage (rref_Source ref) (rref_Name ref))
            else Err (UnknownReference (rref_Source ref)
                        (resourceReferenceDisplay (rref_Type ref) (rref_Name ref)))
        | Some target =>
            Ok (add_once (decl_address declaration +:+ NUL +:+ decl_address target)
                  {| dep_From := decl_address declaration; dep_DependsOn := decl_address target;
                     dep_ArtifactPath := ""; dep_Source := rref_Source ref |} s)
        end
  end.

Definition add_declaration (raw : Value) (byReference : gmap string resourceDeclaration)
    (s : dep_state) (declaration : resourceDeclaration) : D dep_state :=
  match field (decl_value declaration) "depends_on" with
  | None => Ok s
  | Some dependsOn =>
      _ ← guard_or (IsList dependsOn) (DependsOnNotList (v_Source dependsOn));
      fold_res (add_reference raw byReference declaration) (v_List dependsOn) s
  end.

Definition resourceDependencies (raw : Value) (prefix : string) : D (list ResourceDependencySpec) :=
  declarations ← dependencyDeclarations raw prefix;
  s ← fold_res (add_declaration raw (by_reference declarations)) declarations
        {| ds_out := []; ds_seen := ∅ |};
  Ok (ds_out s).

(** ** Artifacts *)

(** The fields of [ir.ComponentInstanceSpec] read here: the name and the
    install path, [None] without an install block. *)
Record ComponentInstall := { ci_Name : string; ci_InstallPath : option string }.

Definition artifact_address (hostName component path : string) : string :=
  "host." +:+ hostName +:+ ".components." +:+ component +:+ ".artifact.install[" +:+
  strconv_Quote path +:+ "]".

Definition index_component (hostName : string) (index : gmap string (list string))
    (component : ComponentInstall) : gmap string (list string) :=
  match ci_InstallPath component with
  | None => index
  | Some path =>
      if bool_decide (path = "") then index
      else <[path := default [] (index !! path) ++ [artifact_address hostName (ci_Name component) path]]>
             index
  end.

Definition artifactInstallAddresses (hostName : string) (components : list ComponentInstall)
  : gmap string (list string) :=
  fold_left (index_component hostName) components ∅.

Definition resolve_artifact (index : gmap string (list string)) (dep : ResourceDependencySpec)
  : D ResourceDependencySpec :=
  let path := dep_ArtifactPath dep in
  if bool_decide (path = "") then Ok dep
  else match default [] (index !! path) with
  | [] => Err (UnknownReference (dep_Source dep) (resourceReferenceDisplay "artifact" path))
  | [address] =>
      Ok {| dep_From := dep_From dep; dep_DependsOn := address; dep_ArtifactPath := "";
            dep_Source := dep_Source dep |}
  | addresses =>
      Err (AmbiguousReference (dep_Source dep) (resourceReferenceDisplay "artifact" path) addresses)
  end.

(** The slice is rewritten in place, up to the first error. *)
Fixpoint resolveArtifactDependencies (dependencies : list ResourceDependencySpec)
    (index : gmap string (list string)) : D (list ResourceDependencySpec) :=
  match dependencies with
  | [] => Ok []
  | dep :: dependencies =>
      dep' ← resolve_artifact index dep;
      rest ← resolveArtifactDependencies dependencies index;
      Ok (dep' :: rest)
  end.
