(* ===== verification/DependencyProps.v ===== *)
(** * Properties of explicit dependencies, from [depends_on] to graph edges *)
From S2P Require Import Prelude Sha256 GoValue GoStrings IR Graph Values Fields Dependencies.

(** ** Strings without NUL bytes *)
Fixpoint no_nul (s : string) : bool :=
  match s with
  | EmptyString => true
  | String c s => negb (Ascii.eqb c Ascii.zero) && no_nul s
  end.

Lemma no_nul_app a b : no_nul (a +:+ b) = no_nul a && no_nul b.
Proof.
  induction a as [|c a IH]; [done|]. rewrite str_app_cons. cbn [no_nul]. by rewrite IH, andb_assoc.
Qed.

Lemma nul_split a b x y :
  no_nul a = true -> no_nul b = true ->
  a +:+ NUL +:+ x = b +:+ NUL +:+ y -> a = b /\ x = y.
Proof.
  revert b; induction a as [|c a IH]; intros [|d b] Ha Hb; rewrite ?str_app_cons.
  - intros H. split; [done|]. by apply (str_app_inv_l NUL).
  - intros H. injection H as H _. subst d. done.
  - intros H. injection H as H _. subst c. done.
  - cbn [no_nul] in Ha, Hb. apply andb_true_iff in Ha as [_ Ha], Hb as [_ Hb].
    intros H. injection H as -> H. destruct (IH b Ha Hb H) as [-> ->]. done.
Qed.

Lemma no_nul_printable s : printable s = true -> no_nul s = true.
Proof.
  induction s as [|c s IH]; [done|]. rewrite printable_cons, andb_true_iff. intros [Hc Hs]. cbn [no_nul].
  rewrite (IH Hs), andb_true_r. apply negb_true_iff, Ascii.eqb_neq. by intros ->.
Qed.

Lemma no_nul_Quote s : no_nul (strconv_Quote s) = true.
Proof. apply no_nul_printable, printable_Quote. Qed.

Lemma no_nul_address prefix t identity :
  no_nul prefix = true -> no_nul (resource_address prefix t identity) = true.
Proof.
  intros Hp. unfold resource_address. rewrite !no_nul_app, Hp, no_nul_Quote. by destruct t.
Qed.

(** ** Declarations *)

Lemma declare_fold prefix t objects labels out out' :
  fold_res (declare prefix t objects) labels out = Ok out' ->
  exists new, out' = out ++ new /\ decl_label <$> new = labels /\
    Forall (fun d => decl_typ d = decl_collection t /\
                     exists identity, decl_address d = resource_address prefix t identity) new.
Proof.
  revert out; induction labels as [|label labels IH]; intros out; cbn [fold_res].
  { intros [= <-]. exists []. by rewrite app_nil_r. }
  unfold declare at 1. destruct (decl_identity t _ label) as [identity|e]; [|done]. rewrite Ok_bind.
  intros (new & -> & <- & Hnew)%IH. eexists (_ :: new). rewrite <- app_assoc. split_and!; [done..|].
  constructor; [|done]. split; [done|]. by exists identity.
Qed.

Definition decl_id (d : resourceDeclaration) : string * string := (decl_typ d, decl_label d).

(** The declarations [out] made for the types [ts]: distinct ids, addresses in
    the scope. *)
Definition declared (prefix : string) (ts : list resource_type) (out : list resourceDeclaration) : Prop :=
  NoDup (decl_id <$> out) /\
  forall d, d ∈ out -> exists t identity, t ∈ ts /\ decl_typ d = decl_collection t /\
    decl_address d = resource_address prefix t identity.

Lemma decl_collection_inj t t' : decl_collection t = decl_collection t' -> t = t'.
Proof. by destruct t, t'. Qed.

Lemma declare_type_declared raw prefix ts t out out' :
  t ∉ ts -> declared prefix ts out -> declare_type raw prefix out t = Ok out' ->
  declared prefix (t :: ts) out'.
Proof.
  intros Ht [Hnd Hout] H.
  assert (exists new, out' = out ++ new /\ NoDup (decl_label <$> new) /\
    Forall (fun d => decl_typ d = decl_collection t /\
                     exists identity, decl_address d = resource_address prefix t identity) new)
    as (new & -> & Hlab & Hnew).
  { unfold declare_type in H. destruct (field raw (decl_domain t)) as [domain|].
    2:{ injection H as <-. exists []. rewrite app_nil_r. split_and!; constructor. }
    apply bind_Ok in H as (objects & _ & H). destruct objects as [objects|].
    2:{ injection H as <-. exists []. rewrite app_nil_r. split_and!; constructor. }
    apply declare_fold in H as (new & -> & Hl & Hnew). exists new. split_and!; [done| |done].
    rewrite Hl. apply NoDup_sorted_keys. }
  rewrite Forall_forall in Hnew. split.
  - rewrite fmap_app. apply NoDup_app. split_and!; [done| |].
    + intros x (d & -> & Hd)%list_elem_of_fmap (d' & Hid & Hd')%list_elem_of_fmap.
      destruct (Hout d Hd) as (t1 & ? & Ht1 & Htyp & _). destruct (Hnew d' Hd') as [Htyp' _].
      unfold decl_id in Hid. injection Hid as Heq _. rewrite Htyp, Htyp' in Heq.
      apply decl_collection_inj in Heq as ->. done.
    + apply (NoDup_fmap_1 snd). by rewrite <- list_fmap_compose.
  - intros d [Hd|Hd]%elem_of_app.
    + destruct (Hout d Hd) as (t1 & identity & Ht1 & Hrest). exists t1, identity. split; [by right|done].
    + destruct (Hnew d Hd) as (Htyp & identity & Ha). exists t, identity. split_and!; [left|done..].
Qed.

Lemma dependencyDeclarations_declared raw prefix decls :
  dependencyDeclarations raw prefix = Ok decls -> declared prefix [TService; TFile; TPackage] decls.
Proof.
  unfold dependencyDeclarations. cbn [fold_res].
  assert (H0 : declared prefix [] []) by (split; [constructor|by intros ? ?%elem_of_nil]).
  destruct (declare_type raw prefix [] TPackage) as [o1|] eqn:E1; [|done].
  destruct (declare_type raw prefix o1 TFile) as [o2|] eqn:E2; [|done].
  destruct (declare_type raw prefix o2 TService) as [o3|] eqn:E3; [|done]. intros [= <-].
  apply (declare_type_declared _ _ [] TPackage) in E1; [|set_solver|done].
  apply (declare_type_declared _ _ [TPackage] TFile) in E2; [|set_solver|done].
  apply (declare_type_declared _ _ [TFile; TPackage] TService) in E3; [done|set_solver|done].
Qed.

(** *** References *)

Lemma resourceReferenceKey_inj typ name typ' name' :
  no_nul typ = true -> no_nul typ' = true ->
  resourceReferenceKey typ name = resourceReferenceKey typ' name' -> typ = typ' /\ name = name'.
Proof. apply nul_split. Qed.

Lemma no_nul_decl_collection t : no_nul (decl_collection t) = true.
Proof. by destruct t. Qed.

Lemma by_reference_lookup prefix ts decls typ name d :
  declared prefix ts decls -> no_nul typ = true ->
  by_reference decls !! resourceReferenceKey typ name = Some d <->
  d ∈ decls /\ decl_typ d = typ /\ decl_label d = name.
Proof.
  intros [Hnd Hd] Htyp. unfold by_reference.
  rewrite (fold_left_index (fun d => resourceReferenceKey (decl_typ d) (decl_label d)) id).
  - rewrite lookup_empty. split.
    + intros [(? & Hin & Hk & [= ->])|[_ ?]]; [|done]. split; [done|].
      destruct (Hd d Hin) as (t & ? & _ & Ht & _).
      apply resourceReferenceKey_inj in Hk; [done| |done]. rewrite Ht. apply no_nul_decl_collection.
    + intros (Hin & <- & <-). left. by exists d.
  - apply NoDup_fmap_2_strong.
    + intros x y Hx Hy Hk. destruct (Hd x Hx) as (t & ? & _ & Ht & _), (Hd y Hy) as (t' & ? & _ & Ht' & _).
      apply resourceReferenceKey_inj in Hk as [E1 E2]; [|rewrite ?Ht, ?Ht'; apply no_nul_decl_collection..].
      apply (NoDup_fmap_eq decl_id decls); try done. unfold decl_id. congruence.
    + by eapply NoDup_fmap_1.
Qed.

(** ** Accumulated dependencies *)

(** A dependency without its source. *)
Definition core (dep : ResourceDependencySpec) : string * string * string :=
  (dep_From dep, dep_DependsOn dep, dep_ArtifactPath dep).

(** The shape of the dependencies built: an artifact's or an address's. *)
Definition good_dep (dep : ResourceDependencySpec) : Prop :=
  no_nul (dep_From dep) = true /\ no_nul (dep_DependsOn dep) = true /\
  (dep_ArtifactPath dep <> "" -> dep_DependsOn dep = "").

Definition dep_key (dep : ResourceDependencySpec) : string :=
  if bool_decide (dep_ArtifactPath dep = "") then dep_From dep +:+ NUL +:+ dep_DependsOn dep
  else dep_From dep +:+ NUL +:+ "artifact" +:+ NUL +:+ dep_ArtifactPath dep.

Lemma artifact_key_nul x s : no_nul s = true -> "artifact" +:+ NUL +:+ x <> s.
Proof. intros Hs <-. by rewrite !no_nul_app in Hs. Qed.

Lemma dep_key_inj a b : good_dep a -> good_dep b -> dep_key a = dep_key b -> core a = core b.
Proof.
  intros (Ha & Ha' & Hax) (Hb & Hb' & Hbx) H. unfold dep_key in H. unfold core.
  do 2 case_bool_decide; apply nul_split in H as [-> H]; try done.
  - by f_equal; [f_equal|congruence].
  - symmetry in H. by apply artifact_key_nul in H.
  - by apply artifact_key_nul in H.
  - apply (nul_split "artifact" "artifact") in H as [_ ->]; [|done..].
    by rewrite Hax, Hbx.
Qed.

Definition state_ok (s : dep_state) : Prop :=
  (forall dep, dep ∈ ds_out s -> good_dep dep) /\
  forall k, k ∈ ds_seen s <-> exists dep, dep ∈ ds_out s /\ dep_key dep = k.

Lemma add_once_ok dep s :
  state_ok s -> good_dep dep ->
  state_ok (add_once (dep_key dep) dep s) /\
  forall c, c ∈ (core <$> ds_out (add_once (dep_key dep) dep s)) <->
            c ∈ (core <$> ds_out s) \/ c = core dep.
Proof.
  intros [Hgood Hseen] Hdep. unfold add_once. case_decide as Hk.
  - split; [done|]. intros c. split; [by left|]. intros [?| ->]; [done|].
    apply Hseen in Hk as (dep' & Hin & Hk). rewrite <- (dep_key_inj dep' dep); auto.
    by apply list_elem_of_fmap_2.
  - split; [split; cbn|].
    + intros d [Hd| ->%list_elem_of_singleton]%elem_of_app; auto.
    + intros k. rewrite elem_of_union, elem_of_singleton, Hseen. split.
      * intros [->|(d & Hd & <-)]; [exists dep; set_solver|exists d; set_solver].
      * intros (d & [Hd| ->%list_elem_of_singleton]%elem_of_app & <-); [right; eauto|by left].
    + intros c. cbn. rewrite fmap_app, elem_of_app. cbn. by rewrite list_elem_of_singleton.
Qed.

Section accumulate.
Context (raw : Value) (prefix : string) (decls : list resourceDeclaration).
Context (Hprefix : no_nul prefix = true).
Context (Hdecls : declared prefix [TService; TFile; TPackage] decls).

(** The values of a declaration's [depends_on] list. *)
Definition depends_items (d : resourceDeclaration) : list Value :=
  match field (decl_value d) "depends_on" with Some v => v_List v | None => [] end.

(** References as the parser builds them. *)
Definition parsed_reference (ref : ResourceReference) : Prop :=
  rref_Type ref ∈ ["package"; "file"; "service"; "artifact"] /\ rref_Name ref <> "".
Definition parsed_item (item : Value) : Prop :=
  forall ref, v_ResourceReference item = Some ref -> parsed_reference ref.

(** The dependency an item of declaration [d] asks for. *)
Definition wants (d : resourceDeclaration) (item : Value) (c : string * string * string) : Prop :=
  exists ref, v_ResourceReference item = Some ref /\
    ((rref_Type ref = "artifact" /\ c = (decl_address d, "", rref_Name ref)) \/
     (rref_Type ref <> "artifact" /\ exists target, target ∈ decls /\
        decl_typ target = rref_Type ref /\ decl_label target = rref_Name ref /\
        c = (decl_address d, decl_address target, ""))).

Lemma no_nul_decl d : d ∈ decls -> no_nul (decl_address d) = true.
Proof.
  intros Hd. destruct Hdecls as [_ H]. destruct (H d Hd) as (t & identity & _ & _ & ->).
  by apply no_nul_address.
Qed.

Lemma wants_det d item c c' : wants d item c -> wants d item c' -> c = c'.
Proof.
  intros (ref & Hr & H) (ref' & Hr' & H'). assert (ref' = ref) as -> by congruence.
  destruct H as [[Ht ->]|(Ht & t & Hin & Htyp & Hlab & ->)],
           H' as [[Ht' ->]|(Ht' & t' & Hin' & Htyp' & Hlab' & ->)]; try done.
  assert (t = t') as ->; [|done]. destruct Hdecls as [Hnd _].
  apply (NoDup_fmap_eq decl_id decls); try done. unfold decl_id. congruence.
Qed.

Lemma no_nul_parsed ref : parsed_reference ref -> no_nul (rref_Type ref) = true.
Proof.
  intros [Ht _]. rewrite !elem_of_cons, elem_of_nil in Ht.
  destruct Ht as [->|[->|[->|[->|[]]]]]; done.
Qed.

Lemma add_reference_ok d item s s' :
  d ∈ decls -> parsed_item item -> state_ok s ->
  add_reference raw (by_reference decls) d s item = Ok s' ->
  exists c, wants d item c /\ state_ok s' /\
    forall x, x ∈ (core <$> ds_out s') <-> x ∈ (core <$> ds_out s) \/ x = c.
Proof.
  intros Hd Hp Hs H. unfold add_reference in H.
  destruct (v_ResourceReference item) as [ref|] eqn:Hr; [|done]. specialize (Hp ref Hr).
  assert (Haddr := no_nul_decl d Hd). case_bool_decide as Ht.
  - set (dep := {| dep_From := decl_address d; dep_DependsOn := ""; dep_ArtifactPath := rref_Name ref;
                   dep_Source := rref_Source ref |}) in *.
    assert (Hkey : dep_key dep = decl_address d +:+ NUL +:+ "artifact" +:+ NUL +:+ rref_Name ref).
    { unfold dep_key. cbn. rewrite bool_decide_false; [done|]. by destruct Hp. }
    injection H as <-. rewrite <- Hkey. exists (core dep). split; [exists ref; auto|].
    apply add_once_ok; [done|]. by split_and!.
  - destruct (by_reference decls !! _) as [target|] eqn:Hb; [|by destruct (_ && _)].
    assert (Hb' := proj1 (by_reference_lookup _ _ _ _ _ _ Hdecls (no_nul_parsed ref Hp)) Hb).
    destruct Hb' as (Hin & Htyp & Hlab).
    set (dep := {| dep_From := decl_address d; dep_DependsOn := decl_address target;
                   dep_ArtifactPath := ""; dep_Source := rref_Source ref |}) in *.
    injection H as <-. exists (core dep). split.
    + exists ref. split; [done|]. right. split; [done|]. by exists target.
    + apply (add_once_ok dep); [done|]. split_and!; [done|by apply no_nul_decl|done].
Qed.

Lemma add_references_ok d items s s' :
  d ∈ decls -> Forall parsed_item items -> state_ok s ->
  fold_res (add_reference raw (by_reference decls) d) items s = Ok s' ->
  state_ok s' /\
  forall x, x ∈ (core <$> ds_out s') <->
    x ∈ (core <$> ds_out s) \/ exists item, item ∈ items /\ wants d item x.
Proof.
  intros Hd Hp. revert s; induction Hp as [|item items Hi Hp IH]; intros s Hs; cbn [fold_res].
  { intros [= <-]. split; [done|]. intros x. split; [by left|]. intros [?|(? & ?%elem_of_nil & _)]; done. }
  destruct (add_reference raw _ d s item) as [s1|e] eqn:E; [|done].
  apply add_reference_ok in E as (c & Hc & Hs1 & Hx1); [|done..].
  intros [Hs' Hx]%IH; [|done]. split; [done|]. intros x. rewrite Hx, Hx1. split.
  - intros [[?| ->]|(i & Hin & Hw)]; [by left|right; exists item; split; [left|done]|].
    right. exists i. split; [by right|done].
  - intros [?|(i & [->|Hin]%elem_of_cons & Hw)]; [by do 2 left| |right; eauto].
    left. right. by eapply wants_det.
Qed.

Lemma add_declaration_ok d s s' :
  d ∈ decls -> Forall parsed_item (depends_items d) -> state_ok s ->
  add_declaration raw (by_reference decls) s d = Ok s' ->
  state_ok s' /\
  forall x, x ∈ (core <$> ds_out s') <->
    x ∈ (core <$> ds_out s) \/ exists item, item ∈ depends_items d /\ wants d item x.
Proof.
  intros Hd Hp Hs H. unfold add_declaration in H. unfold depends_items in *.
  destruct (field (decl_value d) "depends_on") as [v|].
  - apply bind_Ok in H as (_ & _ & H). by eapply add_references_ok.
  - injection H as <-. split; [done|]. intros x. split; [by left|].
    intros [?|(? & ?%elem_of_nil & _)]; done.
Qed.

Lemma add_declarations_ok ds s s' :
  (forall d, d ∈ ds -> d ∈ decls /\ Forall parsed_item (depends_items d)) -> state_ok s ->
  fold_res (add_declaration raw (by_reference decls)) ds s = Ok s' ->
  state_ok s' /\
  forall x, x ∈ (core <$> ds_out s') <->
    x ∈ (core <$> ds_out s) \/ exists d item, d ∈ ds /\ item ∈ depends_items d /\ wants d item x.
Proof.
  revert s; induction ds as [|d ds IH]; intros s Hds Hs; cbn [fold_res].
  { intros [= <-]. split; [done|]. intros x. split; [by left|]. intros [?|(? & ? & ?%elem_of_nil & _)]; done. }
  destruct (add_declaration raw _ s d) as [s1|e] eqn:E; [|done].
  apply add_declaration_ok in E as [Hs1 Hx1]; [|by apply Hds; left..|done].
  intros [Hs' Hx]%IH; [|intros; apply Hds; by right|done].
  split; [done|]. intros x. rewrite Hx, Hx1. split.
  - intros [[?|(i & Hi & Hw)]|(d' & i & Hd' & Hi)]; [by left| |].
    + right. exists d, i. split; [left|done].
    + right. exists d', i. split; [by right|done].
  - intros [?|(d' & i & [->|Hd']%elem_of_cons & Hi & Hw)]; [by do 2 left| |right; eauto].
    left. right. eauto.
Qed.

End accumulate.

(** ** The graph side *)

Lemma node_index_lookup nodes a i :
  NoDup (n_Address <$> nodes) ->
  node_index nodes !! a = Some i <-> exists n, nodes !! i = Some n /\ n_Address n = a.
Proof.
  intros Hnd. unfold node_index.
  rewrite (fold_left_index (fun p : nat * Node => n_Address p.2) fst).
  - rewrite lookup_empty. split.
    + intros [([j n] & Hin & <- & <-)|[_ ?]]; [|done].
      apply elem_of_lookup_imap in Hin as (j' & n' & [= -> ->] & Hn). cbn. eauto.
    + intros (n & Hn & <-). left. exists (i, n). split; [|done].
      apply elem_of_lookup_imap. eauto.
  - rewrite fmap_imap. erewrite imap_ext; [by rewrite imap_const|done].
Qed.

Lemma list_lookup_fmap_Some_address (nodes : list Node) i a :
  (n_Address <$> nodes) !! i = Some a <-> exists n, nodes !! i = Some n /\ n_Address n = a.
Proof. rewrite list_lookup_fmap, fmap_Some. naive_solver. Qed.

(** The edges a list of dependencies asks for. *)
Definition edge_of (deps : list ResourceDependencySpec) (from t : string) : Prop :=
  exists dep, dep ∈ deps /\ dep_From dep = from /\ dep_DependsOn dep = t.

Definition in_scope (host : string) (addresses : list string) (dep : ResourceDependencySpec) : Prop :=
  strings_HasPrefix (dep_From dep) ("host." +:+ host +:+ ".") = true /\
  strings_HasPrefix (dep_DependsOn dep) ("host." +:+ host +:+ ".") = true /\
  dep_From dep ∈ addresses /\ dep_DependsOn dep ∈ addresses.

(** What one dependency, or a list of them, does to the nodes. *)
Definition edges_added (E : string -> string -> Prop) (nodes nodes' : list Node) : Prop :=
  n_Address <$> nodes' = n_Address <$> nodes /\
  forall i n n', nodes !! i = Some n -> nodes' !! i = Some n' ->
    forall t, t <> "" -> t ∈ n_DependsOn n' <-> t ∈ n_DependsOn n \/ E (n_Address n) t.

Lemma apply_dependency_ok host (index : gmap string nat) nodes dep :
  (forall a i, index !! a = Some i <-> exists n, nodes !! i = Some n /\ n_Address n = a) ->
  NoDup (n_Address <$> nodes) -> in_scope host (n_Address <$> nodes) dep ->
  exists nodes', apply_dependency host index nodes dep = Ok nodes' /\
    edges_added (edge_of [dep]) nodes nodes'.
Proof.
  intros Hindex Hnd (Hp & Hp' & Hf & Ht). unfold apply_dependency. rewrite Hp, Hp'. cbn [andb].
  assert (Hget : forall a, a ∈ (n_Address <$> nodes) -> exists i n, index !! a = Some i /\ nodes !! i = Some n /\ n_Address n = a).
  { intros a (n & -> & [i Hi]%list_elem_of_lookup)%list_elem_of_fmap.
    exists i, n. rewrite Hindex. eauto. }
  destruct (Hget _ Hf) as (i & n & Ei & Hi & Hn), (Hget _ Ht) as (j & _ & Ej & _). rewrite Ei, Ej.
  eexists. split; [done|]. split.
  - rewrite (list_fmap_alter _ _ id) by (by apply Forall_true). by rewrite list_alter_id.
  - intros k m m' Hm Hm' t Hne. destruct (decide (k = i)) as [->|Hki].
    + rewrite list_lookup_alter_eq, Hi in Hm'. injection Hm' as <-. rewrite Hi in Hm. injection Hm as <-.
      cbn. rewrite elem_of_dedupeStrings, elem_of_app, list_elem_of_singleton. unfold edge_of.
      split; [intros [[?| ->] _]; [by left|]|].
      * right. exists dep. split; [left|done].
      * intros [?|(d & ->%list_elem_of_singleton & _ & <-)]; auto.
    + rewrite list_lookup_alter_ne, Hm in Hm' by done. injection Hm' as <-. split; [by left|].
      intros [?|(d & ->%list_elem_of_singleton & Hd & _)]; [done|]. destruct Hki.
      eapply (NoDup_lookup (n_Address <$> nodes)); [done| |]; rewrite list_lookup_fmap.
      * by rewrite Hm.
      * rewrite Hi. cbn. congruence.
Qed.

Lemma apply_dependencies_ok host (index : gmap string nat) deps : forall nodes,
  (forall a i, index !! a = Some i <-> exists n, nodes !! i = Some n /\ n_Address n = a) ->
  NoDup (n_Address <$> nodes) -> Forall (in_scope host (n_Address <$> nodes)) deps ->
  exists nodes', fold_res (apply_dependency host index) deps nodes = Ok nodes' /\
    edges_added (edge_of deps) nodes nodes'.
Proof.
  induction deps as [|dep deps IH]; intros nodes Hindex Hnd Hall; cbn [fold_res].
  { exists nodes. split; [done|]. split; [done|]. intros i n n' Hn Hn' t _. assert (n' = n) as -> by congruence.
    split; [by left|]. by intros [?|(? & ?%elem_of_nil & _)]. }
  apply Forall_cons in Hall as [Hdep Hall].
  destruct (apply_dependency_ok host index nodes dep Hindex Hnd Hdep) as (nodes1 & -> & Ha1 & H1).
  destruct (IH nodes1) as (nodes' & -> & Ha' & H').
  - intros a i. by rewrite Hindex, <- !list_lookup_fmap_Some_address, Ha1.
  - by rewrite Ha1.
  - by rewrite Ha1.
  - exists nodes'. split; [done|]. split; [congruence|]. intros i n n' Hn Hn' t Ht.
    assert (exists n1, nodes1 !! i = Some n1 /\ n_Address n1 = n_Address n) as (n1 & Hn1 & Han).
    { apply list_lookup_fmap_Some_address. rewrite Ha1, list_lookup_fmap, Hn. done. }
    rewrite (H' i n1 n' Hn1 Hn' t Ht), (H1 i n n1 Hn Hn1 t Ht), Han. unfold edge_of.
    setoid_rewrite elem_of_cons. setoid_rewrite elem_of_nil. naive_solver.
Qed.

(** ** Artifacts *)

Lemma resolve_artifacts_Forall2 index deps deps' :
  resolveArtifactDependencies deps index = Ok deps' ->
  Forall2 (fun dep dep' => resolve_artifact index dep = Ok dep') deps deps'.
Proof.
  revert deps'; induction deps as [|dep deps IH]; intros deps'; cbn.
  - intros [= <-]. constructor.
  - destruct (resolve_artifact index dep) as [dep1|] eqn:E; [|done].
    destruct (resolveArtifactDependencies deps index) as [rest|]; [|done]. rewrite !Ok_bind.
    intros [= <-]. by constructor; [|apply IH].
Qed.

(** The address a dependency has after artifacts are resolved. *)
Lemma resolve_artifact_Ok index dep dep' :
  resolve_artifact index dep = Ok dep' ->
  dep_From dep' = dep_From dep /\
  ((dep_ArtifactPath dep = "" /\ dep_DependsOn dep' = dep_DependsOn dep) \/
   (dep_ArtifactPath dep <> "" /\ index !! dep_ArtifactPath dep = Some [dep_DependsOn dep'])).
Proof.
  unfold resolve_artifact. case_bool_decide as Hp; [intros [= <-]; auto|].
  destruct (index !! dep_ArtifactPath dep) as [[|a [|b l]]|] eqn:E; cbn; try done.
  intros [= <-]. cbn. auto.
Qed.

(** Every indexed address is an artifact address of the host. *)
Lemma artifact_index_scope host components path addresses :
  artifactInstallAddresses host components !! path = Some addresses ->
  Forall (fun a => exists component, a = artifact_address host component path) addresses.
Proof.
  unfold artifactInstallAddresses.
  assert (Hgo : forall index : gmap string (list string),
    (forall p l, index !! p = Some l -> Forall (fun a => exists c, a = artifact_address host c p) l) ->
    forall p l, fold_left (index_component host) components index !! p = Some l ->
      Forall (fun a => exists c, a = artifact_address host c p) l).
  { induction components as [|c components IH]; intros index Hi; [done|]. cbn [fold_left]. apply IH.
    intros p l. unfold index_component. destruct (ci_InstallPath c) as [q|]; [|by apply Hi].
    case_bool_decide; [by apply Hi|]. destruct (decide (q = p)) as [->|Hne].
    - rewrite lookup_insert_eq. intros [= <-]. apply Forall_app. split; [|by repeat econstructor].
      destruct (index !! p) as [l0|] eqn:E; [by apply Hi in E|constructor].
    - rewrite lookup_insert_ne by done. by apply Hi. }
  apply Hgo. intros p l H. by rewrite lookup_empty in H.
Qed.

(** ** From [depends_on] to edges *)

(** The address a reference means: the installing component's artifact, or the
    declaration of that type and label. *)
Definition refers (decls : list resourceDeclaration) (index : gmap string (list string))
    (ref : ResourceReference) (t : string) : Prop :=
  (rref_Type ref = "artifact" /\ index !! rref_Name ref = Some [t]) \/
  (rref_Type ref <> "artifact" /\ exists target, target ∈ decls /\
     decl_typ target = rref_Type ref /\ decl_label target = rref_Name ref /\ decl_address target = t).

Definition written_edge (decls : list resourceDeclaration) (index : gmap string (list string))
    (from t : string) : Prop :=
  exists d item ref, d ∈ decls /\ decl_address d = from /\ item ∈ depends_items d /\
    v_ResourceReference item = Some ref /\ refers decls index ref t.

Lemma resourceDependencies_cores raw prefix decls deps :
  no_nul prefix = true -> dependencyDeclarations raw prefix = Ok decls ->
  (forall d item, d ∈ decls -> item ∈ depends_items d -> parsed_item item) ->
  resourceDependencies raw prefix = Ok deps ->
  forall c, c ∈ (core <$> deps) <->
    exists d item, d ∈ decls /\ item ∈ depends_items d /\ wants decls d item c.
Proof.
  intros Hp Hd Hparsed H c. unfold resourceDependencies in H. rewrite Hd, Ok_bind in H.
  apply bind_Ok in H as (s & Hs & [= <-]).
  apply (add_declarations_ok raw prefix decls Hp (dependencyDeclarations_declared _ _ _ Hd)) in Hs as [_ Hx].
  - rewrite Hx. cbn. split; [by intros [?%elem_of_nil|?]|auto].
  - intros d Hin. split; [done|]. apply Forall_forall. eauto.
  - split; [by intros ? ?%elem_of_nil|]. intros k. cbn. split; [by intros ?%elem_of_empty|].
    by intros (? & ?%elem_of_nil & _).
Qed.

(** The resolved dependencies are exactly the written edges. *)
Lemma resolved_edges raw prefix index decls deps deps' :
  no_nul prefix = true -> dependencyDeclarations raw prefix = Ok decls ->
  (forall d item, d ∈ decls -> item ∈ depends_items d -> parsed_item item) ->
  resourceDependencies raw prefix = Ok deps -> resolveArtifactDependencies deps index = Ok deps' ->
  forall from t, edge_of deps' from t <-> written_edge decls index from t.
Proof.
  intros Hp Hd Hparsed Hdeps Hres%resolve_artifacts_Forall2 from t.
  assert (Hc := resourceDependencies_cores _ _ _ _ Hp Hd Hparsed Hdeps). split.
  - intros (dep' & Hin' & <- & <-). apply list_elem_of_lookup in Hin' as [i Hi].
    destruct (Forall2_lookup_r _ _ _ _ _ Hres Hi) as (dep & Hdep & Hr).
    apply list_elem_of_lookup_2 in Hdep. apply resolve_artifact_Ok in Hr as [-> Ht].
    destruct (proj1 (Hc (core dep)) (list_elem_of_fmap_2 core _ _ Hdep)) as (d & item & Hdin & Hit & ref & Href & Hw).
    exists d, item, ref. unfold core, refers in *.
    destruct Hw as [[Hty [= -> Hdo Hap]]|(Hty & target & Htin & Htt & Htl & [= -> Hdo Hap])].
    + split_and!; [done..|]. left. split; [done|]. rewrite <- Hap. destruct Ht as [[He _]|[_ Ht]]; [|done].
      destruct (Hparsed d item Hdin Hit ref Href) as [_ Hne]. congruence.
    + split_and!; [done..|]. right. split; [done|]. exists target. split_and!; [done..|].
      destruct Ht as [[_ ->]|[Hne _]]; congruence.
  - intros (d & item & ref & Hdin & <- & Hit & Href & Ht).
    assert (exists dep, dep ∈ deps /\ dep_From dep = decl_address d /\
      forall dep', resolve_artifact index dep = Ok dep' -> dep_DependsOn dep' = t)
      as (dep & Hdep & Hfrom & Hdo).
    { destruct Ht as [[Hty Hidx]|(Hty & target & Htin & Htt & Htl & <-)].
      - assert (Hcd : (decl_address d, "", rref_Name ref) ∈ (core <$> deps)).
        { apply Hc. exists d, item. split_and!; [done..|]. exists ref. auto. }
        apply list_elem_of_fmap in Hcd as (dep & Hcore & Hdep).
        exists dep. injection Hcore as Hf _ Ha. split_and!; [done..|].
        intros dep' [_ [[He _]|[_ He]]]%resolve_artifact_Ok; [|congruence].
        destruct (Hparsed d item Hdin Hit ref Href) as [_ Hne]. congruence.
      - assert (Hcd : (decl_address d, decl_address target, "") ∈ (core <$> deps)).
        { apply Hc. exists d, item. split_and!; [done..|]. exists ref. split; [done|]. right.
          split; [done|]. by exists target. }
        apply list_elem_of_fmap in Hcd as (dep & Hcore & Hdep).
        exists dep. injection Hcore as Hf Hto Ha. split_and!; [done..|].
        intros dep' [_ [[_ ->]|[Hne _]]]%resolve_artifact_Ok; congruence. }
    apply list_elem_of_lookup in Hdep as [i Hi].
    destruct (Forall2_lookup_l _ _ _ _ _ Hres Hi) as (dep' & Hdep' & Hr).
    exists dep'. split_and!; [by eapply list_elem_of_lookup_2| |by apply Hdo].
    apply resolve_artifact_Ok in Hr as [-> _]. done.
Qed.

Lemma host_scope host s : strings_HasPrefix (("host." +:+ host) +:+ "." +:+ s) ("host." +:+ host +:+ ".") = true.
Proof. rewrite <- !str_app_assoc. rewrite HasPrefix_iff. exists s. by rewrite !str_app_assoc. Qed.

(** C32: the edges of the graph are the references the configuration wrote.
    When the dependencies of a host's declarations compile and its artifacts
    resolve, and the declared and installed addresses are nodes of the graph,
    attaching them succeeds (in particular none is taken to cross hosts),
    changes no address, and adds to each node exactly the addresses its
    [depends_on] entries refer to: a package, file or service by its type and
    label, an artifact by the one component that installs its path. *)
Theorem explicit_dependencies_spec (raw : Value) (host : string) (components : list ComponentInstall)
    (decls : list resourceDeclaration) (deps deps' : list ResourceDependencySpec) (nodes : list Node) :
  no_nul host = true ->
  dependencyDeclarations raw ("host." +:+ host) = Ok decls ->
  (forall d item, d ∈ decls -> item ∈ depends_items d -> parsed_item item) ->
  resourceDependencies raw ("host." +:+ host) = Ok deps ->
  resolveArtifactDependencies deps (artifactInstallAddresses host components) = Ok deps' ->
  NoDup (n_Address <$> nodes) ->
  (forall d, d ∈ decls -> decl_address d ∈ (n_Address <$> nodes)) ->
  (forall path addresses a, artifactInstallAddresses host components !! path = Some addresses ->
     a ∈ addresses -> a ∈ (n_Address <$> nodes)) ->
  exists nodes', applyExplicitDependencies host nodes deps' = Ok nodes' /\
    edges_added (written_edge decls (artifactInstallAddresses host components)) nodes nodes'.
Proof.
  intros Hh Hd Hparsed Hdeps Hres Hnd Hdin Hain.
  assert (Hp : no_nul ("host." +:+ host) = true) by (by rewrite no_nul_app, Hh).
  assert (He := resolved_edges _ _ _ _ _ _ Hp Hd Hparsed Hdeps Hres).
  assert (Hdecl : forall d, d ∈ decls ->
    strings_HasPrefix (decl_address d) ("host." +:+ host +:+ ".") = true).
  { intros d Hin. apply dependencyDeclarations_declared in Hd as [_ Hd].
    destruct (Hd d Hin) as (t & identity & _ & _ & ->). apply host_scope. }
  destruct (apply_dependencies_ok host (node_index nodes) deps' nodes) as (nodes' & Hok & Ha & Hed).
  - intros a i. by apply node_index_lookup.
  - done.
  - apply Forall_forall. intros dep Hdep.
    destruct (proj1 (He (dep_From dep) (dep_DependsOn dep))) as (d & item & ref & Hin & Hf & _ & _ & Ht);
      [by exists dep|].
    unfold in_scope. rewrite <- Hf. split_and!; [by apply Hdecl| |by apply Hdin|].
    + destruct Ht as [[_ Hidx]|(_ & target & Htin & _ & _ & <-)]; [|by apply Hdecl].
      apply artifact_index_scope in Hidx. apply Forall_singleton in Hidx as [c ->].
      unfold artifact_address. rewrite <- (str_app_assoc "host."). apply host_scope.
    + destruct Ht as [[_ Hidx]|(_ & target & Htin & _ & _ & <-)]; [|by apply Hdin].
      eapply Hain; [done|]. left.
  - exists nodes'. split; [done|]. split; [done|]. intros i n n' Hn Hn' t Ht.
    by rewrite (Hed i n n' Hn Hn' t Ht), He.
Qed.

(** A sample host: a package needs a file and the artifact a component installs. *)
Definition parsed_itemb (item : Value) : bool :=
  match v_ResourceReference item with
  | None => true
  | Some ref => bool_decide (rref_Type ref ∈ ["package"; "file"; "service"; "artifact"])
                && negb (bool_decide (rref_Name ref = ""))
  end.

Lemma parsed_items_check decls :
  forallb (fun d => forallb parsed_itemb (depends_items d)) decls = true ->
  forall d item, d ∈ decls -> item ∈ depends_items d -> parsed_item item.
Proof.
  rewrite forallb_forall. intros H d item Hd Hit ref Hr.
  specialize (H d (proj1 (list_elem_of_In _ _) Hd)). rewrite forallb_forall in H.
  specialize (H item (proj1 (list_elem_of_In _ _) Hit)). unfold parsed_itemb in H. rewrite Hr in H.
  apply andb_true_iff in H as [H1%bool_decide_eq_true H2%negb_true_iff%bool_decide_eq_false]. done.
Qed.

Definition sample_reference (typ name : string) : Value :=
  mkValue KindString "" false "" [] ∅ [] None
    (Some {| rref_Type := typ; rref_Name := name; rref_Source := no_source |}) no_source ModifierNone
    false false.
Definition sample_object (l : list (string * Value)) : Value := MapValue (list_to_map l) no_source.
Definition sample_raw : Value :=
  sample_object
    [("files", sample_object [("file", sample_object [("/etc/a.conf", sample_object [])])]);
     ("packages", sample_object [("package", sample_object
        [("nginx", sample_object
           [("depends_on",
             mkValue KindList "" false "" [sample_reference "file" "/etc/a.conf";
                sample_reference "artifact" "/opt/a"; sample_reference "file" "/etc/a.conf"]
               ∅ [] None None no_source ModifierNone false false)])])])].
Definition sample_components : list ComponentInstall :=
  [{| ci_Name := "agent"; ci_InstallPath := Some "/opt/a" |}].
Definition sample_node (address : string) : Node :=
  {| n_Host := "web"; n_Address := address; n_Kind := ""; n_Summary := ""; n_Source := no_source;
     n_Lifecycle := None; n_Desired := ∅; n_ProviderType := ""; n_ProviderAddress := "";
     n_ProviderPayload := ∅; n_DependsOn := []; n_ExplicitDependsOn := [];
     n_DependencySources := ∅ |}.
Definition or_nil {E A} (r : result E (list A)) : list A := match r with Ok l => l | Err _ => [] end.
Definition sample_decls : list resourceDeclaration := or_nil (dependencyDeclarations sample_raw "host.web").
Definition sample_deps : list ResourceDependencySpec := or_nil (resourceDependencies sample_raw "host.web").
Definition sample_index := artifactInstallAddresses "web" sample_components.
Definition sample_resolved : list ResourceDependencySpec :=
  or_nil (resolveArtifactDependencies sample_deps sample_index).
Definition sample_nodes : list Node :=
  sample_node <$> (decl_address <$> sample_decls) ++ mjoin (map_to_list sample_index).*2.

Lemma explicit_dependencies_spec_witness :
  length sample_resolved = 2 /\
  exists nodes', applyExplicitDependencies "web" sample_nodes sample_resolved = Ok nodes' /\
    edges_added (written_edge sample_decls sample_index) sample_nodes nodes'.
Proof.
  split; [vm_compute; reflexivity|].
  apply (explicit_dependencies_spec sample_raw "web" sample_components sample_decls sample_deps
           sample_resolved sample_nodes).
  - reflexivity.
  - vm_compute. reflexivity.
  - apply parsed_items_check. vm_compute. reflexivity.
  - vm_compute. reflexivity.
  - vm_compute. reflexivity.
  - apply (bool_decide_unpack _). vm_compute. exact I.
  - intros d Hd. unfold sample_nodes. rewrite <- list_fmap_compose. apply list_elem_of_fmap.
    exists (decl_address d). split; [reflexivity|]. apply elem_of_app. left.
    apply list_elem_of_fmap_2. exact Hd.
  - intros path addresses a Hp Ha. unfold sample_nodes. rewrite <- list_fmap_compose.
    apply list_elem_of_fmap. exists a. split; [reflexivity|]. apply elem_of_app. right.
    apply list_elem_of_join. exists addresses. split; [exact Ha|]. apply list_elem_of_fmap.
    exists (path, addresses). split; [reflexivity|]. apply elem_of_map_to_list. exact Hp.
Defined.
