(* ===== verification/GraphHelpers.v ===== *)
(** * Helpers of the graph compiler: [internal/core/graph]

    [graph_helpers.go], [graph_apt.go], [graph_files.go], [graph_nftables.go]
    and [graph_components.go]: provider names, shell quoting, the attributes
    and payloads of file-like resources, and the names and digests of component
    artifacts and scripts. *)
From S2P Require Import Prelude Sha256 GoValue GoStrings IR HostIR Graph.

(** ** Building nodes and operations *)

(** A [map[string]any] literal. *)
Definition attrs (l : list (string * goval)) : gomap := list_to_map l.

(** [fmt.Sprintf("%s<kind>[%s]", prefix, strconv.Quote(key))] *)
Definition keyed (prefix kind key : string) : string :=
  prefix +:+ kind +:+ "[" +:+ strconv_Quote key +:+ "]".

(** A [Node] literal; the explicit dependencies are added later. *)
Definition make_node (host address kind summary : string) (source : SourceRef)
    (lifecycle : option LifecycleSpec) (desired : gomap) (deps : list string)
    (providerType providerAddress : string) (payload : gomap) : Node :=
  {| n_Host := host; n_Address := address; n_Kind := kind; n_Summary := summary;
     n_Source := source; n_Lifecycle := lifecycle; n_Desired := desired;
     n_ProviderType := providerType; n_ProviderAddress := providerAddress;
     n_ProviderPayload := payload; n_DependsOn := deps;
     n_ExplicitDependsOn := []; n_DependencySources := ∅ |}.

(** An [Operation] literal with action [run]; [compileHost] sets the host last. *)
Definition make_operation (address summary : string) (sensitive : bool) (deps triggers : list string)
    (command : string) (script : option ScriptPayload) (completion : option OperationCompletion)
    (source : SourceRef) : Operation :=
  {| op_Host := ""; op_Address := address; op_Action := "run"; op_Summary := summary;
     op_Sensitive := sensitive; op_DependsOn := deps; op_TriggeredBy := triggers;
     op_CommandPreview := command; op_ScriptPayload := script; op_Completion := completion;
     op_Source := source |}.

Definition set_n_DependsOn (deps : list string) (n : Node) : Node :=
  {| n_Host := n_Host n; n_Address := n_Address n; n_Kind := n_Kind n; n_Summary := n_Summary n;
     n_Source := n_Source n; n_Lifecycle := n_Lifecycle n; n_Desired := n_Desired n;
     n_ProviderType := n_ProviderType n; n_ProviderAddress := n_ProviderAddress n;
     n_ProviderPayload := n_ProviderPayload n; n_DependsOn := deps;
     n_ExplicitDependsOn := n_ExplicitDependsOn n; n_DependencySources := n_DependencySources n |}.

Definition set_op_DependsOn (deps : list string) (o : Operation) : Operation :=
  {| op_Host := op_Host o; op_Address := op_Address o; op_Action := op_Action o;
     op_Summary := op_Summary o; op_Sensitive := op_Sensitive o; op_DependsOn := deps;
     op_TriggeredBy := op_TriggeredBy o; op_CommandPreview := op_CommandPreview o;
     op_ScriptPayload := op_ScriptPayload o; op_Completion := op_Completion o; op_Source := op_Source o |}.

Definition set_op_TriggeredBy (triggers : list string) (o : Operation) : Operation :=
  {| op_Host := op_Host o; op_Address := op_Address o; op_Action := op_Action o;
     op_Summary := op_Summary o; op_Sensitive := op_Sensitive o; op_DependsOn := op_DependsOn o;
     op_TriggeredBy := triggers; op_CommandPreview := op_CommandPreview o;
     op_ScriptPayload := op_ScriptPayload o; op_Completion := op_Completion o; op_Source := op_Source o |}.

Definition set_op_Host (host : string) (o : Operation) : Operation :=
  {| op_Host := host; op_Address := op_Address o; op_Action := op_Action o;
     op_Summary := op_Summary o; op_Sensitive := op_Sensitive o; op_DependsOn := op_DependsOn o;
     op_TriggeredBy := op_TriggeredBy o; op_CommandPreview := op_CommandPreview o;
     op_ScriptPayload := op_ScriptPayload o; op_Completion := op_Completion o; op_Source := op_Source o |}.

(** A table filled in order, later entries winning. *)
Definition table {V} (l : list (string * V)) : gmap string V :=
  fold_left (fun m p => <[p.1 := p.2]> m) l ∅.

(** The address a table holds, as the guarded append to a dependency list. *)
Definition lookup_dep (t : gmap string string) (key : string) : list string :=
  from_option (fun a => [a]) [] (t !! key).

(** ** [graph_helpers.go] *)

Definition name_char (c : ascii) : bool := alnum (N_of_ascii c) || bool_decide (c = "_"%char).

(** [providerNamePattern.ReplaceAllString(s, "_")]: each maximal run of other
    characters becomes one underscore. *)
Fixpoint replace_runs (in_run : bool) (s : string) : string :=
  match s with
  | EmptyString => EmptyString
  | String c s =>
      if name_char c then String c (replace_runs false s)
      else if in_run then replace_runs true s
      else String "_" (replace_runs true s)
  end.

Definition providerName (parts : list string) : string :=
  let joined := strings_Join parts "_" in
  let normalized := strings_Trim (replace_runs false joined) "_" in
  if bool_decide (normalized = "") then "resource" else strings_ToLower normalized.

Example providerName_example : providerName ["web-1"; "/etc/motd"] = "web_1__etc_motd".
Proof. vm_compute. reflexivity. Qed.

Definition squote : ascii := ascii_of_N 39.

Definition safe_arg_char (c : ascii) : bool :=
  alnum (N_of_ascii c) || existsb (fun d => bool_decide (c = d)) (String.list_ascii_of_string "_./:@%+=,-").

(** [strings.ReplaceAll] of a one-byte pattern. *)
Fixpoint replace_char (c : ascii) (by_ : string) (s : string) : string :=
  match s with
  | EmptyString => EmptyString
  | String d s => (if bool_decide (d = c) then by_ else String d "") +:+ replace_char c by_ s
  end.

Definition quote_text : string := String squote "".

Definition shellQuoteGraph (value : string) : string :=
  if bool_decide (value = "") then quote_text +:+ quote_text
  else quote_text
       +:+ replace_char squote (quote_text +:+ dquote +:+ quote_text +:+ dquote +:+ quote_text) value
       +:+ quote_text.

Definition shellQuoteCommandArg (value : string) : string :=
  if negb (bool_decide (value = "")) && forallb safe_arg_char (String.list_ascii_of_string value)
  then value else shellQuoteGraph value.

Definition quoteCommand (args : list string) : string :=
  strings_Join (shellQuoteCommandArg <$> args) " ".

Definition newline_text : string := String newline "".

Fixpoint spaces (n : nat) : string := match n with O => "" | S n => "  " +:+ spaces n end.

(** [json.MarshalIndent(value, "", "  ")] *)
Fixpoint json_indent (depth : nat) (j : json) : string :=
  let lines open close items :=
    match items with
    | [] => open +:+ close
    | _ => open +:+ newline_text
           +:+ strings_Join ((fun item => spaces (S depth) +:+ item) <$> items) ("," +:+ newline_text)
           +:+ newline_text +:+ spaces depth +:+ close
    end in
  match j with
  | JArr l => lines "[" "]" (json_indent (S depth) <$> l)
  | JObj l => lines "{" "}" ((fun p => json_string p.1 +:+ ": " +:+ json_indent (S depth) p.2) <$> l)
  | j => json_text j
  end.

Definition deterministicJSON (value : gomap) : string :=
  json_indent 0 (marshal_map value) +:+ newline_text.

Definition contentSummary (data : string) : ContentSummary :=
  {| SHA256 := sha256Hex data; Bytes := Z.of_nat (String.length data) |}.

(** [strings.LastIndex] of one byte; -1 when it does not occur. *)
Definition strings_LastIndex (s : string) (c : ascii) : Z :=
  let l := String.list_ascii_of_string s in
  match list_find (fun d => d = c) (reverse l) with
  | Some (i, _) => (Z.of_nat (length l) - 1 - Z.of_nat i)%Z
  | None => (-1)%Z
  end.

(** [strconv.Unquote] of a double-quoted string; the strings it is applied to
    contain no escapes. *)
Definition strconv_Unquote (s : string) : option string :=
  match String.list_ascii_of_string s with
  | q :: rest =>
      match reverse rest with
      | q' :: inner =>
          if bool_decide (String q "" = dquote) && bool_decide (String q' "" = dquote)
             && forallb (fun c => negb (bool_decide (String c "" = dquote))
                                  && negb (bool_decide (c = newline))
                                  && negb (bool_decide (String c "" = backslash))) inner
          then Some (String.string_of_list_ascii (reverse inner)) else None
      | [] => None
      end
  | [] => None
  end.

Definition packageNameFromDockerPackageAddress (address : string) : string :=
  let start := strings_LastIndex address "[" in
  let end_ := strings_LastIndex address "]" in
  if bool_decide (start < 0)%Z || bool_decide (end_ <= start + 1)%Z then ""
  else default "" (strconv_Unquote
         (String.substring (Z.to_nat (start + 1)) (Z.to_nat (end_ - (start + 1))) address)).

Definition contentResourceDesiredPayload (desired : gomap) (content sourcePath : string)
    (sensitive : bool) (summary : ContentSummary) : gomap * gomap :=
  let hasContent := negb (bool_decide (content = ""))
                    || (bool_decide (sourcePath = "") && negb (bool_decide (SHA256 summary = ""))) in
  let desired :=
    if sensitive then
      let desired := <["sensitive" := GBool true]> desired in
      if bool_decide (SHA256 summary = "") then desired
      else <["content_bytes" := GInt (Bytes summary)]>
             (<["content_sha256" := GStr (SHA256 summary)]> desired)
    else
      let desired := if hasContent then <["content" := GStr content]> desired else desired in
      if bool_decide (sourcePath = "") then desired else <["source_path" := GStr sourcePath]> desired in
  let payload := cloneMap desired in
  let payload := if hasContent then <["content" := GStr content]> payload else payload in
  (desired, if bool_decide (sourcePath = "") then payload else <["source_path" := GStr sourcePath]> payload).

Definition ownershipDependencies (owner group : string) (userAddresses groupAddresses : gmap string string)
  : list string :=
  dedupeStrings
    ((if bool_decide (owner <> "" /\ owner <> "root") then lookup_dep userAddresses owner else [])
     ++ (if bool_decide (group <> "" /\ group <> "root") then lookup_dep groupAddresses group else [])).

Definition shortHash (value : string) : string := String.substring 0 16 (sha256Hex value).

Definition lifecyclePtr (lifecycle : option LifecycleSpec) : option LifecycleSpec :=
  l ← lifecycle; if PreventDestroy l then Some l else None.

(** [cloneStrings], stored under [any]. *)
Definition cloneStrings (values : slice string) : goval :=
  match values with None => GStrs [] | Some l => copied_strings l end.

(** ** [graph_apt.go] *)

Definition aptRepositorySourcePath (name : string) : string :=
  "/etc/apt/sources.list.d/" +:+ providerName [name] +:+ ".sources".

Definition aptRepositorySourceContent (repo : APTRepositorySpec) : string :=
  let lines := ["Types: deb"; "URIs: " +:+ strings_Join (ar_URIs repo) " ";
                "Suites: " +:+ strings_Join (ar_Suites repo) " ";
                "Components: " +:+ strings_Join (ar_Components repo) " "] in
  let lines := match ar_Architectures repo with
               | [] => lines
               | l => lines ++ ["Architectures: " +:+ strings_Join l " "]
               end in
  let lines := match ar_SigningKey repo with
               | Some key => if bool_decide (ak_Path key = "") then lines
                             else lines ++ ["Signed-By: " +:+ ak_Path key]
               | None => lines
               end in
  strings_Join lines newline_text +:+ newline_text.

(** ** [graph_files.go] *)

Definition optionalContentSummary (content : string) : ContentSummary :=
  if bool_decide (content = "") then {| SHA256 := ""; Bytes := 0 |} else contentSummary content.

Record fileResourceSpec := {
  fr_Path : string;
  fr_Component : string;
  fr_Content : string;
  fr_ContentVersion : string;
  fr_ContentWriteOnly : bool;
  fr_SourcePath : string;
  fr_Owner : string;
  fr_Group : string;
  fr_Mode : string;
  fr_Sensitive : bool;
  fr_Ensure : string;
  fr_Summary : ContentSummary;
}.

(** [if cond { m[key] = value }] *)
Definition set_if (cond : bool) (key : string) (value : goval) (m : gomap) : gomap :=
  if cond then <[key := value]> m else m.
Definition nonempty (s : string) : bool := negb (bool_decide (s = "")).

Definition fileResourceDesiredPayload (item : fileResourceSpec) : gomap * gomap :=
  let desired := attrs [("path", GStr (fr_Path item)); ("owner", GStr (fr_Owner item));
                        ("group", GStr (fr_Group item)); ("mode", GStr (fr_Mode item));
                        ("ensure", GStr (fr_Ensure item)); ("sensitive", GBool (fr_Sensitive item))] in
  let desired := set_if (nonempty (fr_Component item)) "component" (GStr (fr_Component item)) desired in
  let desired := set_if (negb (fr_ContentWriteOnly item)) "summary" (GSummary (fr_Summary item)) desired in
  let desired := set_if (fr_ContentWriteOnly item) "content_write_only" (GBool true) desired in
  let desired := set_if (nonempty (fr_ContentVersion item)) "content_version"
                   (GStr (fr_ContentVersion item)) desired in
  let desired := set_if (nonempty (fr_Content item) && negb (fr_Sensitive item)) "content"
                   (GStr (fr_Content item)) desired in
  let digest := nonempty (fr_Content item) && fr_Sensitive item && negb (fr_ContentWriteOnly item) in
  let desired := set_if digest "content_sha256" (GStr (SHA256 (fr_Summary item))) desired in
  let desired := set_if digest "content_bytes" (GInt (Bytes (fr_Summary item))) desired in
  let desired := set_if (nonempty (fr_SourcePath item)) "source_path" (GStr (fr_SourcePath item)) desired in
  let payload := cloneMap desired in
  let payload := set_if (nonempty (fr_Content item)) "content" (GStr (fr_Content item)) payload in
  (desired, set_if (nonempty (fr_SourcePath item)) "source_path" (GStr (fr_SourcePath item)) payload).

(** ** [graph_nftables.go] *)

Definition nftablesFileNode (hostName address : string) (item : NftablesFileSpec) (deps : list string)
  : Node :=
  let '(desired, payload) :=
    contentResourceDesiredPayload
      (attrs [("label", GStr (nf_Label item)); ("path", GStr (nf_Path item));
              ("owner", GStr (nf_Owner item)); ("group", GStr (nf_Group item));
              ("mode", GStr (nf_Mode item)); ("ensure", GStr (nf_Ensure item));
              ("sensitive", GBool (nf_Sensitive item)); ("summary", GSummary (nf_Summary item))])
      (nf_Content item) (nf_SourcePath item) (nf_Sensitive item) (nf_Summary item) in
  let summary := if bool_decide (nf_Label item = "main") then "manage nftables main ruleset"
                 else "manage nftables snippet " +:+ nf_Label item in
  make_node hostName address "nftables_file" summary (nf_Source item) (lifecyclePtr (nf_Lifecycle item))
    desired (dedupeStrings deps) "nftables_file"
    ("nftables_file." +:+ providerName [hostName; nf_Label item]) payload.

(** ** [graph_components.go] *)

Definition script_output (address_prefix : string) (provider_parts : list string) (digest path : string)
  : ScriptOutputPayload :=
  {| so_Address := keyed address_prefix ".outputs" path; so_Path := path; so_ScriptDigest := digest;
     so_ProviderAddress := "component_script_output." +:+ providerName (provider_parts ++ [path]) |}.

Definition componentScriptDigest (script : ComponentScriptSpec) : string :=
  sha256Hex (json_text (marshal_map (attrs
    [("name", GStr (cs_Name script)); ("mode", GStr (cs_Mode script)); ("body", GStr (cs_Body script));
     ("interpreter", slice_value (cs_Interpreter script)); ("run", GStr (cs_Run script));
     ("content", GStr (cs_Content script)); ("commands", from_option GStrss GNil (cs_Commands script))]))).

Definition scriptOutputPayloads (hostName componentName scriptName : string) (script : ComponentScriptSpec)
  : list ScriptOutputPayload :=
  let componentPrefix := "host." +:+ hostName +:+ ".components." +:+ componentName in
  script_output (keyed componentPrefix ".script" scriptName) [hostName; componentName; scriptName]
    (componentScriptDigest script) <$> cs_Outputs script.

Definition hostScriptOutputPayloads (hostName scriptName : string) (script : ComponentScriptSpec)
  : list ScriptOutputPayload :=
  script_output (keyed ("host." +:+ hostName) ".script" scriptName) [hostName; "host"; scriptName]
    (componentScriptDigest script) <$> cs_Outputs script.

Definition scriptPayloadKind (script : ComponentScriptSpec) : string :=
  if nonempty (cs_Body script) then cs_Body script
  else match elems (cs_Commands script) with
       | _ :: _ => "commands"
       | [] => if nonempty (cs_Content script) then "content" else "run"
       end.

Definition componentArtifactSourceLabel (source : ComponentArtifactSourceSpec) : string :=
  if nonempty (asrc_Architecture source) then asrc_Architecture source else "default".

Definition componentArtifactInstallKind (artifactType : string) : string :=
  if decide (artifactType = "archive") then "component_archive"
  else if decide (artifactType = "file") then "component_file"
  else if decide (artifactType = "ca_certificate") then "component_ca_certificate"
  else "component_binary".

Definition componentArtifactInstallSummary (component : ComponentInstanceSpec) (install : ComponentArtifactInstallSpec)
  : string :=
  let artifact := if decide (ci_ArtifactType component = "ca_certificate") then "ca certificate"
                  else ci_ArtifactType component in
  "install component " +:+ ci_Name component +:+ " " +:+ artifact +:+ " " +:+ ins_Path install.

Definition componentArtifactFieldDigest (value : string) : string := sha256Hex value.

Definition componentArtifactCacheKey (source : ComponentArtifactSourceSpec) : string :=
  if asrc_SHA256Sensitive source then componentArtifactFieldDigest (asrc_SHA256 source)
  else asrc_SHA256 source.

Definition artifact_directory (component : ComponentInstanceSpec) (source : ComponentArtifactSourceSpec)
  : string :=
  let name := if nonempty (ci_Template component) && negb (bool_decide (ci_Template component = ci_Name component))
              then providerName [ci_Template component; ci_Name component]
              else providerName [ci_Name component] in
  "/var/cache/debianform/components/" +:+ name +:+ "/" +:+ componentArtifactCacheKey source.

Definition componentArtifactCachePath (component : ComponentInstanceSpec) : string :=
  match ci_SelectedSource component with
  | None => ""
  | Some source => artifact_directory component source +:+ "/source"
  end.

Definition componentArtifactBuildPath (component : ComponentInstanceSpec) : string :=
  match ci_SelectedSource component with
  | None => ""
  | Some source => artifact_directory component source +:+ "/build"
  end.

Definition componentArtifactSourceSensitive (source : ComponentArtifactSourceSpec) : bool :=
  asrc_URLSensitive source || asrc_SHA256Sensitive source.

Definition redactComponentArtifactSourceFields (desired : gomap) (urlKey shaKey : string)
    (source : ComponentArtifactSourceSpec) : gomap :=
  if componentArtifactSourceSensitive source then
    let desired := <["sensitive" := GBool true]> desired in
    let desired :=
      if asrc_URLSensitive source
      then <[urlKey +:+ "_digest" := GStr (componentArtifactFieldDigest (asrc_URL source))]>
             (delete urlKey desired)
      else desired in
    if asrc_SHA256Sensitive source
    then <[shaKey +:+ "_digest" := GStr (componentArtifactFieldDigest (asrc_SHA256 source))]>
           (delete shaKey desired)
    else desired
  else desired.

Definition componentArtifactBuildOutputPath (component : ComponentInstanceSpec) : string :=
  match ci_Build component with
  | None => ""
  | Some build => componentArtifactBuildPath component +:+ "/out/" +:+ shortHash (bld_Output build)
                  +:+ "/" +:+ bld_Output build
  end.

Definition componentWorkspaceRoot (host : HostSpec) (component : ComponentInstanceSpec) : string :=
  if nonempty (ci_StagingRoot component) then ci_StagingRoot component
  else from_option stg_Root "" (h_Staging host).

(** [cloneCommandMatrix], stored under [any]: a nil matrix prints and reads
    like a nil list. *)
Definition cloneCommandMatrix (commands : list (list string)) : goval :=
  match commands with [] => GNilStrs | _ => GStrss commands end.

(** The payload of a script operation. *)
Definition script_payload (script : ComponentScriptSpec) (component mode : string)
    (outputs : list ScriptOutputPayload) : ScriptPayload :=
  {| sp_Name := cs_Name script; sp_ComponentName := component; sp_Mode := mode;
     sp_Kind := scriptPayloadKind script; sp_Interpreter := elems (cs_Interpreter script);
     sp_Outputs := outputs; sp_Run := cs_Run script; sp_Content := cs_Content script;
     sp_Commands := elems (cs_Commands script); sp_TriggerAddresses := []; sp_TriggerPaths := [] |}.
