(* ===== verification/GraphSystemd.v ===== *)
(** * Systemd and networkd nodes: [graph_systemd.go], [graph_networkd_activation.go] *)
From S2P Require Import Prelude Sha256 GoValue GoStrings IR HostIR Graph GraphHelpers.

(** ** Nodes *)

(** [providerParts]: the component, when there is one, between host and name. *)
Definition provider_parts (hostName component name : string) : list string :=
  [hostName] ++ (if nonempty component then [component] else []) ++ [name].

Definition systemdUnitNode (hostName address component : string) (item : SystemdUnit) (deps : list string)
  : Node :=
  let desired := attrs [("name", GStr (su_Name item)); ("path", GStr (su_Path item));
                        ("owner", GStr (su_Owner item)); ("group", GStr (su_Group item));
                        ("mode", GStr (su_Mode item)); ("ensure", GStr (su_Ensure item));
                        ("summary", GSummary (su_Summary item)); ("source_path", GStr (su_SourcePath item))] in
  let desired := set_if (nonempty component) "component" (GStr component) desired in
  let desired := if su_Sensitive item
                 then delete "source_path" (<["sensitive" := GBool true]> desired) else desired in
  let desired := set_if (nonempty (su_Content item) && negb (su_Sensitive item)) "content"
                   (GStr (su_Content item)) desired in
  let digest := nonempty (su_Content item) && su_Sensitive item in
  let desired := set_if digest "content_sha256" (GStr (SHA256 (su_Summary item))) desired in
  let desired := set_if digest "content_bytes" (GInt (Bytes (su_Summary item))) desired in
  let desired := set_if (nonempty (su_ChangeAction item)) "change_action" (GStr (su_ChangeAction item)) desired in
  let payload := cloneMap desired in
  let payload := set_if (nonempty (su_SourcePath item)) "source_path" (GStr (su_SourcePath item)) payload in
  let payload := set_if (nonempty (su_Content item)) "content" (GStr (su_Content item)) payload in
  make_node hostName address "systemd_unit" ("create systemd unit " +:+ su_Name item) (su_Source item)
    (lifecyclePtr (su_Lifecycle item)) desired (dedupeStrings deps) "systemd_unit"
    ("systemd_unit." +:+ providerName (provider_parts hostName component (su_Name item))) payload.

Record systemdServiceChangeAction := {
  ca_UnitAddress : string;
  ca_UnitName : string;
  ca_Action : string;
  ca_Source : SourceRef;
}.

Definition systemdServiceChangeActionCommand (action unit_ : string) : string :=
  let quotedUnit := shellQuoteGraph unit_ in
  "set -eu" +:+ newline_text +:+ "if systemctl is-active --quiet " +:+ quotedUnit +:+ "; then" +:+ newline_text
  +:+ "  systemctl " +:+ action +:+ " " +:+ quotedUnit +:+ newline_text +:+ "fi".

Definition systemdServiceChangeActionOperation (daemonReloadAddress : string)
    (item : systemdServiceChangeAction) : Operation :=
  let deps := [ca_UnitAddress item]
              ++ (if nonempty daemonReloadAddress then [daemonReloadAddress] else []) in
  make_operation (ca_UnitAddress item +:+ ".change_action")
    (ca_Action item +:+ " service " +:+ ca_UnitName item +:+ " after unit change") false
    (dedupeStrings deps) [ca_UnitAddress item]
    (systemdServiceChangeActionCommand (ca_Action item) (ca_UnitName item)) None
    (Some {| oc_ResourceAddress := ca_UnitAddress item; oc_ObservedField := "change_action_digest" |})
    (ca_Source item).

Definition systemdDropInFileNode (hostName address component : string) (item : SystemdUnit)
    (summary : string) (deps : list string) : Node :=
  let '(desired, payload) := fileResourceDesiredPayload
    {| fr_Path := su_Path item; fr_Component := component; fr_Content := su_Content item;
       fr_ContentVersion := ""; fr_ContentWriteOnly := false; fr_SourcePath := su_SourcePath item;
       fr_Owner := su_Owner item; fr_Group := su_Group item; fr_Mode := su_Mode item;
       fr_Sensitive := su_Sensitive item; fr_Ensure := su_Ensure item; fr_Summary := su_Summary item |} in
  make_node hostName address "file" summary (su_Source item) (lifecyclePtr (su_Lifecycle item)) desired
    (dedupeStrings deps) "file" ("file." +:+ providerName [hostName; su_Path item]) payload.

Definition systemdManagedServiceNode (hostName address component name unit_ packageName : string)
    (enabled : option bool) (state summary : string) (source : SourceRef) (deps : list string) : Node :=
  let desired := attrs [("name", GStr name); ("unit", GStr unit_); ("state", GStr state)] in
  let desired := set_if (nonempty component) "component" (GStr component) desired in
  let desired := set_if (nonempty packageName) "package" (GStr packageName) desired in
  let desired := match enabled with Some b => <["enabled" := GBool b]> desired | None => desired end in
  make_node hostName address "service" summary source None desired (dedupeStrings deps) "service"
    ("service." +:+ providerName (provider_parts hostName component name)) desired.

Definition systemdStateServiceNode (hostName address component name unit_ : string)
    (enabled : option bool) (state summary : string) (source : SourceRef) (deps : list string) : option Node :=
  if bool_decide (enabled = None) && bool_decide (state = "") then None
  else Some (systemdManagedServiceNode hostName address component name unit_ "" enabled state summary
               source deps).

Definition systemdDropInShouldRestartOnChange (enabled : option bool) (state : string) : bool :=
  if decide (state = "running") then true
  else if decide (state = "stopped" \/ state = "restarted" \/ state = "reloaded") then false
  else default true enabled.

Definition networkdNetDevName (item : NetworkdNetDev) : string :=
  if nonempty (nd_Name item) then nd_Name item
  else match nd_NetDev item !! "Name" with
       | Some (value :: _) => value
       | _ => ""
       end.

Definition networkdNetDevNode (hostName address component : string) (item : NetworkdNetDev)
    (deps : list string) : Node :=
  let build kind_summary desired payload :=
    make_node hostName address "networkd_netdev" kind_summary (nd_Source item)
      (lifecyclePtr (nd_Lifecycle item)) desired (dedupeStrings deps) "file"
      ("file." +:+ providerName [hostName; nd_Path item]) payload in
  if nonempty (nd_ContentMode item) then
    let '(desired, payload) := fileResourceDesiredPayload
      {| fr_Path := nd_Path item; fr_Component := component; fr_Content := nd_Content item;
         fr_ContentVersion := ""; fr_ContentWriteOnly := false; fr_SourcePath := nd_SourcePath item;
         fr_Owner := nd_Owner item; fr_Group := nd_Group item; fr_Mode := nd_Mode item;
         fr_Sensitive := nd_Sensitive item; fr_Ensure := nd_Ensure item; fr_Summary := nd_Summary item |} in
    let mark m := <["content_mode" := GStr (nd_ContentMode item)]>
                    (<["name" := GStr (networkdNetDevName item)]>
                       (<["label" := GStr (nd_Label item)]> m)) in
    build ("manage " +:+ nd_ContentMode item +:+ " networkd netdev " +:+ nd_Label item)
      (mark desired) (mark payload)
  else
    let desired := attrs [("label", GStr (nd_Label item)); ("name", GStr (networkdNetDevName item));
                          ("path", GStr (nd_Path item)); ("owner", GStr (nd_Owner item));
                          ("group", GStr (nd_Group item)); ("mode", GStr (nd_Mode item));
                          ("ensure", GStr (nd_Ensure item)); ("summary", GSummary (nd_Summary item))] in
    let desired := set_if (nonempty component) "component" (GStr component) desired in
    let desired := set_if (nonempty (nd_Content item)) "content" (GStr (nd_Content item)) desired in
    build ("manage networkd netdev " +:+ nd_Label item) desired desired.

Definition networkdNetworkNode (hostName address component : string) (item : NetworkdNetwork)
    (deps : list string) : Node :=
  let build kind_summary desired payload :=
    make_node hostName address "networkd_network" kind_summary (nn_Source item)
      (lifecyclePtr (nn_Lifecycle item)) desired (dedupeStrings deps) "file"
      ("file." +:+ providerName [hostName; nn_Path item]) payload in
  if nonempty (nn_ContentMode item) then
    let '(desired, payload) := fileResourceDesiredPayload
      {| fr_Path := nn_Path item; fr_Component := component; fr_Content := nn_Content item;
         fr_ContentVersion := ""; fr_ContentWriteOnly := false; fr_SourcePath := nn_SourcePath item;
         fr_Owner := nn_Owner item; fr_Group := nn_Group item; fr_Mode := nn_Mode item;
         fr_Sensitive := nn_Sensitive item; fr_Ensure := nn_Ensure item; fr_Summary := nn_Summary item |} in
    let mark m := <["content_mode" := GStr (nn_ContentMode item)]>
                    (<["label" := GStr (nn_Label item)]> m) in
    build ("manage " +:+ nn_ContentMode item +:+ " networkd network " +:+ nn_Label item)
      (mark desired) (mark payload)
  else
    let desired := attrs [("label", GStr (nn_Label item)); ("path", GStr (nn_Path item));
                          ("owner", GStr (nn_Owner item)); ("group", GStr (nn_Group item));
                          ("mode", GStr (nn_Mode item)); ("ensure", GStr (nn_Ensure item));
                          ("summary", GSummary (nn_Summary item))] in
    let desired := set_if (nonempty component) "component" (GStr component) desired in
    let desired := set_if (nonempty (nn_Content item)) "content" (GStr (nn_Content item)) desired in
    build ("manage networkd network " +:+ nn_Label item) desired desired.

(** The loop ranges over the map of addresses by path; [range_keys] is the
    order in which Go visits it. *)
Definition networkdNetworkDependencies (range_keys : gmap string string -> list string)
    (networkdAddresses : gmap string string) : list string :=
  dedupeStrings
    (omap (fun path =>
             match networkdAddresses !! path with
             | Some address =>
                 if strings_HasSuffix path ".netdev" && strings_Contains address ".networkd.netdev["
                 then Some address else None
             | None => None
             end) (range_keys networkdAddresses)).

Definition networkdReloadCommand (deleteNames : list string) : string :=
  strings_Join (["systemctl start systemd-networkd.service"; "networkctl reload"]
                ++ ((fun name => "ip link delete " +:+ shellQuoteGraph name +:+ " 2>/dev/null || true")
                      <$> dedupeStrings deleteNames)) newline_text.

(** ** Activation *)

Record networkdPostReloadGroup := {
  pg_Component : string;
  pg_Name : string;
  pg_DeclarationID : string;
  pg_Source : SourceRef;
  pg_Triggers : list string;
}.

Definition add_trigger (address : string) (g : networkdPostReloadGroup) : networkdPostReloadGroup :=
  {| pg_Component := pg_Component g; pg_Name := pg_Name g; pg_DeclarationID := pg_DeclarationID g;
     pg_Source := pg_Source g; pg_Triggers := pg_Triggers g ++ [address] |}.

Inductive compile_error :=
| UnresolvedPostReload (address name : string)
| PostReloadMismatch (host component name declarationID : string)
| UnresolvedRootScript (address name : string)
| RootScriptMismatch (host name declarationID : string)
| DockerChannel (source : SourceRef) (channel : string)
| DockerVersion (source : SourceRef)
| DockerSource (source : SourceRef) (package_source : string)
| DockerDistributionMissing (source : SourceRef) (host : string)
| DockerUbuntuVersionMissing (source : SourceRef) (host : string)
| DockerArchitectureMissing (source : SourceRef) (host : string)
| DockerCodenameMissing (source : SourceRef) (host : string)
| DockerDistribution (source : SourceRef) (distribution : string)
| DockerRepositoryConflict (source : SourceRef) (name : string)
| ComposeFileMissing (source : SourceRef)
| ExplicitDependency (e : graph_error).

(** The two maps [collectNetworkdActivation] fills. *)
Record activations := {
  ac_reconfigure : gmap string (list string);
  ac_postReload : gmap string networkdPostReloadGroup;
}.
Definition no_activations : activations := {| ac_reconfigure := ∅; ac_postReload := ∅ |}.

(** [triggers[name] = append(triggers[name], address)] *)
Definition append_at (name address : string) (m : gmap string (list string)) : gmap string (list string) :=
  <[name := default [] (m !! name) ++ [address]]> m.

Definition collectNetworkdActivation (activation : option NetworkdActivationSpec) (address component : string)
    (acc : activations) : result compile_error activations :=
  match activation with
  | None => Ok acc
  | Some activation =>
      let reconfigure := fold_left (fun m name => append_at name address m)
                           (na_Reconfigure activation) (ac_reconfigure acc) in
      match na_PostReload activation with
      | None => Ok {| ac_reconfigure := reconfigure; ac_postReload := ac_postReload acc |}
      | Some ref =>
          _ ← guard_or (nonempty (srf_DeclarationID ref)) (UnresolvedPostReload address (srf_Name ref));
          let key := srf_Scope ref +:+ ":" +:+ srf_DeclarationID ref in
          let key := if decide (srf_Scope ref = "component") then component +:+ ":" +:+ key else key in
          let groupComponent := if decide (srf_Scope ref = "root") then "" else component in
          let group := default {| pg_Component := groupComponent; pg_Name := srf_Name ref;
                                  pg_DeclarationID := srf_DeclarationID ref; pg_Source := srf_Source ref;
                                  pg_Triggers := [] |} (ac_postReload acc !! key) in
          Ok {| ac_reconfigure := reconfigure;
                ac_postReload := <[key := add_trigger address group]> (ac_postReload acc) |}
      end
  end.

(** The operations and their addresses; each waits for the ones before it. *)
Fixpoint reconfigure_operations (host reloadAddress : string) (triggers : gmap string (list string))
    (source : SourceRef) (names addresses : list string) : list Operation * list string :=
  match names with
  | [] => ([], addresses)
  | name :: names =>
      let address := keyed ("host." +:+ host) ".systemd.networkd.reconfigure" name in
      let op := set_op_Host host (make_operation address ("reconfigure networkd interface " +:+ name) false
        (dedupeStrings ([reloadAddress] ++ addresses)) (dedupeStrings (default [] (triggers !! name)))
        ("networkctl reconfigure " +:+ shellQuoteGraph name) None None source) in
      let '(ops, addresses) := reconfigure_operations host reloadAddress triggers source names
                                 (addresses ++ [address]) in
      (op :: ops, addresses)
  end.

Definition appendNetworkdReconfigureOperations (host reloadAddress : string)
    (triggers : gmap string (list string)) (source : SourceRef) : list Operation * list string :=
  reconfigure_operations host reloadAddress triggers source (sorted_keys triggers) [].

Definition networkdPostReloadScript (host : HostSpec) (group : networkdPostReloadGroup)
  : result compile_error (ComponentScriptSpec * string) :=
  let matching (scripts : gmap string ComponentScriptSpec) :=
    script ← scripts !! pg_Name group;
    if decide (cs_DeclarationID script = pg_DeclarationID group) then Some script else None in
  let mismatch := PostReloadMismatch (h_Name host) (pg_Component group) (pg_Name group) (pg_DeclarationID group) in
  if nonempty (pg_Component group) then
    match list_find (fun c => ci_Name c = pg_Component group) (h_Components host) with
    | Some (_, component) =>
        match matching (ci_Scripts component) with
        | Some script => Ok (script, keyed ("host." +:+ h_Name host +:+ ".components." +:+ ci_Name component)
                                       ".script" (pg_Name group))
        | None => Err mismatch
        end
    | None => Err mismatch
    end
  else
    match matching (h_Scripts host) with
    | Some script => Ok (script, keyed ("host." +:+ h_Name host) ".script" (pg_Name group))
    | None => Err mismatch
    end.

Definition operationIndex (operations : list Operation) (address : string) : option nat :=
  fst <$> list_find (fun o => op_Address o = address) operations.

Definition post_reload_operation (host : HostSpec) (after : list string)
    (acc : list Operation * list string) (entry : string * networkdPostReloadGroup)
  : result compile_error (list Operation * list string) :=
  let '(operations, previous) := acc in
  let group := entry.2 in
  '(script, address) ← networkdPostReloadScript host group;
  match operationIndex operations address with
  | Some index =>
      Ok (alter (fun op => set_op_DependsOn (dedupeStrings (op_DependsOn op ++ after ++ previous))
                             (set_op_TriggeredBy (dedupeStrings (op_TriggeredBy op ++ pg_Triggers group)) op))
            index operations, previous ++ [address])
  | None =>
      let op := set_op_Host (h_Name host) (make_operation address
        ("run networkd post-reload script " +:+ pg_Name group) (cs_Sensitive script)
        (dedupeStrings (after ++ previous ++ pg_Triggers group)) (dedupeStrings (pg_Triggers group))
        ("script " +:+ pg_Name group +:+ " (once)")
        (Some (script_payload script (pg_Component group) "once" [])) None (cs_Source script)) in
      Ok (operations ++ [op], previous ++ [address])
  end.

Definition appendNetworkdPostReloadOperations (host : HostSpec)
    (groups : gmap string networkdPostReloadGroup) (after : list string) (operations : list Operation)
  : result compile_error (list Operation) :=
  fst <$> fold_res (post_reload_operation host after) (sorted_entries groups) (operations, []).
