(* ===== verification/GraphDocker.v ===== *)
(** * Docker nodes: [graph_docker.go] *)
From S2P Require Import Prelude Sha256 GoValue GoStrings IR HostIR Graph GraphHelpers GraphSystemd.

Definition dockerOfficialRepositoryName : string := "docker-official".
Definition dockerOfficialKeyPath : string := "/etc/apt/keyrings/docker.asc".
Definition dockerOfficialPackages : list string :=
  ["docker-ce"; "docker-ce-cli"; "containerd.io"; "docker-buildx-plugin"; "docker-compose-plugin"].
Definition dockerConflictPackages : list string :=
  ["docker.io"; "docker-doc"; "docker-compose"; "podman-docker"; "containerd"; "runc"].

Definition DockerOfficialRepositoryURL : string := "https://download.docker.com/linux/debian".
Definition DockerOfficialGPGURL : string := "https://download.docker.com/linux/debian/gpg".
Definition DockerOfficialUbuntuRepositoryURL : string := "https://download.docker.com/linux/ubuntu".
Definition DockerOfficialUbuntuGPGURL : string := "https://download.docker.com/linux/ubuntu/gpg".
Definition DockerOfficialGPGSHA256 : string :=
  "1500c1f56fa9e26b9b8f42452a553675796ade0807cdce11975eb98170b3a570".

Record dockerEngineGraph := {
  dg_Nodes : list Node;
  dg_Operations : list Operation;
  dg_RepositoryTriggers : list string;
  dg_PackageAddresses : list string;
  dg_ServiceAddress : string;
  dg_DaemonFileAddress : string;
  dg_ComposeValidateAddresses : gmap string string;
}.
Definition no_docker : dockerEngineGraph :=
  {| dg_Nodes := []; dg_Operations := []; dg_RepositoryTriggers := []; dg_PackageAddresses := [];
     dg_ServiceAddress := ""; dg_DaemonFileAddress := ""; dg_ComposeValidateAddresses := ∅ |}.

(** ** The official repository and its packages *)

Definition docker_repository_urls (host : HostSpec) : result compile_error (string * string) :=
  let distribution := PlatformDistribution host in
  if decide (distribution = "" \/ distribution = "debian")
  then Ok (DockerOfficialRepositoryURL, DockerOfficialGPGURL)
  else if decide (distribution = "ubuntu")
  then Ok (DockerOfficialUbuntuRepositoryURL, DockerOfficialUbuntuGPGURL)
  else Err (DockerDistribution (h_Source host) distribution).

(** The nodes of the official source: signing key, repository, conflicting
    packages, packages. *)
Definition docker_official (host : HostSpec) (docker : DockerSpec)
    (repositoryAddresses : gmap string string) : result compile_error dockerEngineGraph :=
  let src := h_Source host in let name := h_Name host in let p := dk_Package docker in
  let prefix := "host." +:+ name in
  let distribution := PlatformDistribution host in
  _ ← guard_or (negb (bool_decide (distribution = "") && nonempty (PlatformVersion host)))
        (DockerDistributionMissing src name);
  _ ← guard_or (negb (bool_decide (distribution = "ubuntu") && bool_decide (PlatformVersion host = "")))
        (DockerUbuntuVersionMissing src name);
  let architecture := PlatformArchitecture host in
  _ ← guard_or (nonempty architecture) (DockerArchitectureMissing src name);
  let codename := PlatformCodename host in
  _ ← guard_or (nonempty codename) (DockerCodenameMissing src name);
  '(officialRepositoryURL, officialGPGURL) ← docker_repository_urls host;
  _ ← guard_or (bool_decide (apt_Repositories (h_APT host) !! dockerOfficialRepositoryName = None))
        (DockerRepositoryConflict src dockerOfficialRepositoryName);
  _ ← guard_or (bool_decide (repositoryAddresses !! dockerOfficialRepositoryName = None))
        (DockerRepositoryConflict src dockerOfficialRepositoryName);
  let keyAddress := keyed prefix ".docker.apt.signing_key" dockerOfficialRepositoryName in
  let repositoryAddress := keyed prefix ".docker.apt.repository" dockerOfficialRepositoryName in
  let sourcePath := aptRepositorySourcePath dockerOfficialRepositoryName in
  let repositoryURL := if dp_RepositoryURLSet p then dp_RepositoryURL p else officialRepositoryURL in
  let gpgURL := if dp_GPGURLSet p then dp_GPGURL p else officialGPGURL in
  let gpgSHA256 :=
    if bool_decide (dp_GPGSHA256 p = "")
       && bool_decide (gpgURL = DockerOfficialGPGURL \/ gpgURL = DockerOfficialUbuntuGPGURL)
    then DockerOfficialGPGSHA256 else dp_GPGSHA256 p in
  let keyDesired := attrs [("name", GStr dockerOfficialRepositoryName); ("path", GStr dockerOfficialKeyPath);
                           ("owner", GStr "root"); ("group", GStr "root"); ("mode", GStr "0644");
                           ("ensure", GStr "present"); ("url", GStr gpgURL)] in
  let keyDesired := set_if (nonempty gpgSHA256) "sha256" (GStr gpgSHA256) keyDesired in
  let repositorySpec :=
    {| ar_Name := dockerOfficialRepositoryName; ar_URIs := [repositoryURL]; ar_Suites := [codename];
       ar_Components := [dp_Channel p]; ar_Architectures := [architecture];
       ar_SigningKey := Some {| ak_URL := ""; ak_Content := ""; ak_SHA256 := ""; ak_Path := dockerOfficialKeyPath;
                                ak_Sensitive := false; ak_Source := no_source |};
       ar_Ensure := "present"; ar_Lifecycle := None; ar_Source := no_source |} in
  let repositoryDesired := attrs [("name", GStr dockerOfficialRepositoryName); ("path", GStr sourcePath);
                                  ("owner", GStr "root"); ("group", GStr "root"); ("mode", GStr "0644");
                                  ("ensure", GStr "present");
                                  ("content", GStr (aptRepositorySourceContent repositorySpec))] in
  let conflictAddress := prefix +:+ ".docker.package_conflicts" in
  let conflictDesired := attrs [("packages", GStrs dockerConflictPackages);
                                ("remove_conflicts", GStr (dp_RemoveConflicts p)); ("ensure", GStr "absent")] in
  let package_node pkg :=
    let desired := attrs [("name", GStr pkg); ("ensure", GStr "present");
                          ("repositories", GStrs [dockerOfficialRepositoryName])] in
    make_node name (keyed prefix ".docker.package" pkg) "package" ("install docker package " +:+ pkg)
      (dp_SourceRef p) None desired [repositoryAddress; conflictAddress] "package"
      ("package." +:+ providerName [name; "docker"; pkg]) desired in
  Ok {| dg_Nodes :=
          [ make_node name keyAddress "apt_signing_key" "manage docker official apt signing key" (dp_SourceRef p)
              None keyDesired [] "apt_signing_key"
              ("apt_signing_key." +:+ providerName [name; dockerOfficialRepositoryName]) keyDesired;
            make_node name repositoryAddress "file" "manage docker official apt repository" (dp_SourceRef p)
              None repositoryDesired [keyAddress] "file" ("file." +:+ providerName [name; sourcePath])
              repositoryDesired;
            make_node name conflictAddress "docker_package_conflicts" "remove docker conflict packages"
              (dp_SourceRef p) None conflictDesired [] "docker_package_conflicts"
              ("docker_package_conflicts." +:+ providerName [name; "docker"]) conflictDesired ]
          ++ (package_node <$> dockerOfficialPackages);
        dg_Operations := [];
        dg_RepositoryTriggers := [keyAddress; repositoryAddress];
        dg_PackageAddresses := keyed prefix ".docker.package" <$> dockerOfficialPackages;
        dg_ServiceAddress := ""; dg_DaemonFileAddress := ""; dg_ComposeValidateAddresses := ∅ |}.

(** ** Group membership *)

Definition dockerUserMembershipNodes (host : HostSpec) (docker : DockerSpec)
    (groupAddresses userAddresses : gmap string string) : list Node :=
  match dk_Users docker with
  | [] => []
  | users =>
      let prefix := "host." +:+ h_Name host in
      let '(groupAddress, groupNodes) :=
        match groupAddresses !! "docker" with
        | Some address => (address, [])
        | None =>
            let address := keyed prefix ".docker.group" "docker" in
            let desired := attrs [("name", GStr "docker"); ("gid", GStr ""); ("system", GBool false);
                                  ("ensure", GStr "present")] in
            (address, [make_node (h_Name host) address "group" "create docker group" (dk_Source docker) None
                         desired [] "group" ("group." +:+ providerName [h_Name host; "docker"]) desired])
        end in
      let member user :=
        let desired := attrs [("user", GStr user); ("group", GStr "docker"); ("ensure", GStr "present");
                              ("note", GStr "user must log out and back in for docker group membership to affect existing sessions")] in
        make_node (h_Name host) (keyed prefix ".docker.user_group_membership" (user +:+ ":docker"))
          "user_group_membership" ("add user " +:+ user +:+ " to docker group") (dk_Source docker) None desired
          (dedupeStrings ([groupAddress] ++ lookup_dep userAddresses user)) "user_group_membership"
          ("user_group_membership." +:+ providerName [h_Name host; user; "docker"]) desired in
      groupNodes ++ (member <$> dedupeStrings users)
  end.

(** ** The daemon configuration *)

Definition dockerDaemonGraph (host : HostSpec) (daemon : DockerDaemonSpec) : string * Node * Operation :=
  let name := h_Name host in
  let address := keyed ("host." +:+ name) ".docker.daemon.file" "/etc/docker/daemon.json" in
  let desired := attrs [("path", GStr "/etc/docker/daemon.json");
                        ("content", GStr (deterministicJSON (dd_Settings daemon)));
                        ("owner", GStr "root"); ("group", GStr "root"); ("mode", GStr "0644");
                        ("ensure", GStr "present"); ("summary", GSummary (dd_Summary daemon))] in
  (address,
   make_node name address "file" "manage docker daemon configuration" (dd_Source daemon) None desired []
     "file" ("file." +:+ providerName [name; "/etc/docker/daemon.json"]) desired,
   make_operation ("host." +:+ name +:+ ".docker.daemon.restart") "restart docker service" false
     [address] [address] "systemctl restart docker.service" None None (dd_Source daemon)).

(** ** Compose projects *)

Definition serviceUnitName (name : string) : string :=
  if strings_Contains name "." then name else name +:+ ".service".
Definition composeSystemdUnitName (compose : DockerComposeSpec) : string :=
  serviceUnitName (dcs_Name (dc_Service compose)).

Definition compose_file_args (compose : DockerComposeSpec) : list string :=
  from_option (fun file => ["-f"; df_Path file]) [] (dc_File compose).

Definition dockerComposeUnitCommand (compose : DockerComposeSpec) (command : list string) : string :=
  quoteCommand (["/usr/bin/docker"; "compose"; "-p"; dc_Project compose] ++ compose_file_args compose ++ command).

Definition dockerComposeConfigCommand (compose : DockerComposeSpec) : string :=
  quoteCommand (["docker"; "compose"; "-p"; dc_Project compose] ++ compose_file_args compose ++ ["config"]).

Definition dockerComposeSystemdUnitContent (compose : DockerComposeSpec) : string :=
  strings_Join
    ["[Unit]"; "Description=DebianForm Compose Project " +:+ dc_Project compose; "Requires=docker.service";
     "After=" +:+ strings_Join (dc_After compose) " "; ""; "[Service]"; "Type=oneshot"; "RemainAfterExit=yes";
     "WorkingDirectory=" +:+ dc_Directory compose;
     "ExecStart=" +:+ dockerComposeUnitCommand compose ["up"; "-d"];
     "ExecStop=" +:+ dockerComposeUnitCommand compose ["stop"]; "TimeoutStartSec=0"; ""; "[Install]";
     "WantedBy=" +:+ strings_Join (dc_WantedBy compose) " "] newline_text +:+ newline_text.

Definition dockerComposeSystemdUnitDesired (compose : DockerComposeSpec) (unitName : string) : gomap :=
  let content := dockerComposeSystemdUnitContent compose in
  attrs [("name", GStr unitName); ("path", GStr ("/etc/systemd/system/" +:+ unitName));
         ("content", GStr content); ("owner", GStr "root"); ("group", GStr "root"); ("mode", GStr "0644");
         ("ensure", GStr "present"); ("summary", GSummary (contentSummary content))].

Definition dockerComposeServiceDesired (compose : DockerComposeSpec) (unitName : string) : gomap :=
  let '(enabled, state) :=
    if decide (dc_State compose = "running") then (true, "running")
    else if decide (dc_State compose = "stopped") then (true, "stopped")
    else (false, "stopped") in
  attrs [("name", GStr (dcs_Name (dc_Service compose))); ("unit", GStr unitName);
         ("enabled", GBool enabled); ("state", GStr state)].

Definition dockerComposeProjectDesired (compose : DockerComposeSpec) : gomap :=
  let desired := attrs [("name", GStr (dc_Name compose)); ("directory", GStr (dc_Directory compose));
                        ("project", GStr (dc_Project compose)); ("state", GStr (dc_State compose));
                        ("pull", GStr (dc_Pull compose)); ("recreate", GStr (dc_Recreate compose));
                        ("remove_orphans", GBool (dc_RemoveOrphans compose))] in
  let desired := match dc_File compose with
                 | Some file => <["files" := GStrs [df_Path file]]> desired
                 | None => desired
                 end in
  match sorted_entries (dc_EnvFiles compose) with
  | [] => desired
  | files => <["env_files" := GStrs ((fun p => df_Path p.2) <$> files)]> desired
  end.

Definition dockerComposeFileNode (hostName address composeName : string) (item : DockerComposeFileSpec)
    (summary : string) (deps : list string) : Node :=
  let '(desired, payload) := fileResourceDesiredPayload
    {| fr_Path := df_Path item; fr_Component := ""; fr_Content := df_Content item;
       fr_ContentVersion := ""; fr_ContentWriteOnly := false; fr_SourcePath := df_SourcePath item;
       fr_Owner := df_Owner item; fr_Group := df_Group item; fr_Mode := df_Mode item;
       fr_Sensitive := df_Sensitive item; fr_Ensure := "present"; fr_Summary := df_Summary item |} in
  make_node hostName address "file" summary (df_Source item) None
    (<["compose" := GStr composeName]> desired) (dedupeStrings deps) "file"
    ("file." +:+ providerName [hostName; df_Path item]) (<["compose" := GStr composeName]> payload).

(** The systemd unit and service of a project with an enabled service, and the
    address of the service. *)
Definition compose_service (host prefix name : string) (compose : DockerComposeSpec)
    (validateAddress projectServiceAddress : string) : list Node * list Operation * string :=
  if dcs_Enable (dc_Service compose) then
    let unitAddress := prefix +:+ ".systemd_unit" in
    let daemonReloadAddress := prefix +:+ ".daemon_reload" in
    let serviceAddress := prefix +:+ ".service" in
    let unitName := composeSystemdUnitName compose in
    let unitDesired := dockerComposeSystemdUnitDesired compose unitName in
    let serviceDesired := dockerComposeServiceDesired compose unitName in
    let serviceDeps := [unitAddress; daemonReloadAddress]
                       ++ (if nonempty projectServiceAddress then [projectServiceAddress] else []) in
    ([ make_node host unitAddress "systemd_unit" ("create docker compose systemd unit " +:+ unitName)
         (dc_Source compose) None unitDesired [validateAddress] "systemd_unit"
         ("systemd_unit." +:+ providerName [host; "docker"; "compose"; name; unitName]) unitDesired;
       make_node host serviceAddress "service" ("manage docker compose service " +:+ dcs_Name (dc_Service compose))
         (dc_Source compose) None serviceDesired (dedupeStrings serviceDeps) "service"
         ("service." +:+ providerName [host; "docker"; "compose"; name]) serviceDesired ],
     [ make_operation daemonReloadAddress "reload systemd manager configuration" false [unitAddress]
         [unitAddress] "systemctl daemon-reload" None None (dc_Source compose) ],
     serviceAddress)
  else ([], [], "").

(** One enabled project: its directory, files, validation, service and the
    project itself. *)
Definition compose_project (host : string) (packageAddresses : list string)
    (fileServiceAddress projectServiceAddress name : string) (compose : DockerComposeSpec)
  : result compile_error (list Node * list Operation * string) :=
  let prefix := keyed ("host." +:+ host) ".docker.compose" name in
  let directoryAddress := prefix +:+ ".directory" in
  let directoryDesired := attrs [("path", GStr (dc_Directory compose)); ("owner", GStr "root");
                                 ("group", GStr "root"); ("mode", GStr "0755"); ("ensure", GStr "present")] in
  let engineDeps := packageAddresses ++ (if nonempty fileServiceAddress then [fileServiceAddress] else []) in
  let fileDeps := dedupeStrings ([directoryAddress] ++ engineDeps) in
  file ← of_option (ComposeFileMissing (dc_Source compose)) (dc_File compose);
  let env_address label := keyed prefix ".env_file" label in
  let env_node (p : string * DockerComposeFileSpec) :=
    dockerComposeFileNode host (env_address p.1) name p.2 ("manage docker compose env file " +:+ p.1) fileDeps in
  let fileAddresses := (prefix +:+ ".file") :: ((fun p => env_address p.1) <$> sorted_entries (dc_EnvFiles compose)) in
  let validateAddress := prefix +:+ ".validate" in
  let '(serviceNodes, serviceOperations, serviceAddress) :=
    compose_service host prefix name compose validateAddress projectServiceAddress in
  let projectDeps :=
    [validateAddress]
    ++ (if nonempty serviceAddress then [serviceAddress]
        else if nonempty projectServiceAddress then [projectServiceAddress] else []) in
  let projectDesired := dockerComposeProjectDesired compose in
  Ok ([ make_node host directoryAddress "directory"
          ("create docker compose directory " +:+ dc_Directory compose) (dc_Source compose) None
          directoryDesired [] "directory"
          ("directory." +:+ providerName [host; "docker"; "compose"; name; dc_Directory compose]) directoryDesired;
        dockerComposeFileNode host (prefix +:+ ".file") name file "manage docker compose file" fileDeps ]
      ++ (env_node <$> sorted_entries (dc_EnvFiles compose)) ++ serviceNodes
      ++ [ make_node host (prefix +:+ ".project") "docker_compose_project"
             ("converge docker compose project " +:+ dc_Project compose) (dc_Source compose) None
             projectDesired (dedupeStrings projectDeps) "docker_compose_project"
             ("docker_compose_project." +:+ providerName [host; name]) projectDesired ],
      [ make_operation validateAddress ("validate docker compose project " +:+ dc_Project compose) false
          (dedupeStrings fileAddresses) (dedupeStrings fileAddresses) (dockerComposeConfigCommand compose)
          None None (dc_Source compose) ] ++ serviceOperations,
      validateAddress).

Definition compose_step (host : string) (packageAddresses : list string)
    (fileServiceAddress projectServiceAddress : string)
    (acc : list Node * list Operation * gmap string string) (entry : string * DockerComposeSpec)
  : result compile_error (list Node * list Operation * gmap string string) :=
  let '(nodes, operations, validates) := acc in
  let '(name, compose) := entry in
  if dc_Enable compose then
    '(ns, ops, validate) ← compose_project host packageAddresses fileServiceAddress projectServiceAddress name compose;
    Ok (nodes ++ ns, operations ++ ops, <[name := validate]> validates)
  else Ok acc.

Definition dockerComposeGraph (host : HostSpec) (docker : DockerSpec) (packageAddresses : list string)
    (fileServiceAddress projectServiceAddress : string)
  : result compile_error (list Node * list Operation * gmap string string) :=
  fold_res (compose_step (h_Name host) packageAddresses fileServiceAddress projectServiceAddress)
    (sorted_entries (dk_Composes docker)) ([], [], ∅).

(** ** The engine *)

Definition dockerEngineNodes (host : HostSpec)
    (repositoryAddresses groupAddresses userAddresses : gmap string string)
  : result compile_error dockerEngineGraph :=
  match h_Docker host with
  | Some docker =>
      if negb (dk_Enable docker) then Ok no_docker else
      let name := h_Name host in let p := dk_Package docker in
      _ ← guard_or (bool_decide (dp_Channel p = "stable")) (DockerChannel (dp_SourceRef p) (dp_Channel p));
      _ ← guard_or (bool_decide (dp_Version p = None)) (DockerVersion (dp_SourceRef p));
      let installPackages := bool_decide (dp_Source p = "official") in
      _ ← guard_or (bool_decide (dp_Source p = "official" \/ dp_Source p = "none" \/ dp_Source p = "custom"))
            (DockerSource (dp_SourceRef p) (dp_Source p));
      out ← (if installPackages then docker_official host docker repositoryAddresses else Ok no_docker);
      let membership := dockerUserMembershipNodes host docker groupAddresses userAddresses in
      let serviceAddress := keyed ("host." +:+ name) ".docker.service" "docker" in
      let '(daemonAddress, daemonNodes, daemonOperations) :=
        match dk_Daemon docker with
        | None => ("", [], [])
        | Some daemon =>
            let '(fileAddress, fileNode, restartOperation) := dockerDaemonGraph host daemon in
            (fileAddress,
             [set_n_DependsOn (dedupeStrings (n_DependsOn fileNode ++ dg_PackageAddresses out)) fileNode],
             [set_op_DependsOn (dedupeStrings (op_DependsOn restartOperation ++ [serviceAddress]))
                restartOperation])
        end in
      let serviceDesired := attrs [("name", GStr "docker"); ("unit", GStr "docker.service");
                                   ("enabled", GBool (ds_Enable (dk_Service docker)));
                                   ("state", GStr (ds_State (dk_Service docker)))] in
      let serviceNode := make_node name serviceAddress "service" "manage docker service"
        (ds_SourceRef (dk_Service docker)) None serviceDesired [] "service"
        ("service." +:+ providerName [name; "docker"]) serviceDesired in
      let composeServiceAddress := if installPackages then serviceAddress else "" in
      '(composeNodes, composeOperations, composeValidates) ←
        dockerComposeGraph host docker (dg_PackageAddresses out) serviceAddress composeServiceAddress;
      Ok {| dg_Nodes := dg_Nodes out ++ membership ++ daemonNodes ++ [serviceNode] ++ composeNodes;
            dg_Operations := daemonOperations ++ composeOperations;
            dg_RepositoryTriggers := dg_RepositoryTriggers out;
            dg_PackageAddresses := dg_PackageAddresses out;
            dg_ServiceAddress := serviceAddress; dg_DaemonFileAddress := daemonAddress;
            dg_ComposeValidateAddresses := composeValidates |}
  | None => Ok no_docker
  end.
