(* ===== verification/GraphHost.v ===== *)
(** * Compiling a host into nodes and operations: [graph_host.go]

    [compileHost] walks the specification of a host section by section.  Each
    section is written once, for a [scope]: the host itself or one of its
    components, which differ in the address prefix, the [component] attribute
    and the parts of the provider name.  Where a loop of the code both appends
    nodes and fills an address table, the nodes and the table are two
    definitions. *)
From S2P Require Import Prelude Sha256 GoValue GoStrings IR HostIR Graph GraphHelpers GraphSystemd GraphDocker.

Record scope := {
  scope_Host : string;
  scope_Prefix : string;
  scope_Component : option string;
}.

Definition host_scope (host : HostSpec) : scope :=
  {| scope_Host := h_Name host; scope_Prefix := "host." +:+ h_Name host; scope_Component := None |}.
Definition component_scope (host : HostSpec) (component : ComponentInstanceSpec) : scope :=
  {| scope_Host := h_Name host; scope_Prefix := "host." +:+ h_Name host +:+ ".components." +:+ ci_Name component;
     scope_Component := Some (ci_Name component) |}.

(** The [component] attribute, and the component part of a provider name. *)
Definition in_component (sc : scope) (desired : gomap) : gomap :=
  match scope_Component sc with Some c => <["component" := GStr c]> desired | None => desired end.
Definition scoped_name (sc : scope) (parts : list string) : string :=
  providerName ([scope_Host sc] ++ from_option (fun c => [c]) [] (scope_Component sc) ++ parts).
(** The component name passed to the node builders, empty for the host. *)
Definition scope_name (sc : scope) : string := default "" (scope_Component sc).

(** [for _, component := range host.Components] *)
Definition each_component {A} (host : HostSpec) (f : scope -> ComponentInstanceSpec -> list A) : list A :=
  h_Components host ≫= (fun c => f (component_scope host c) c).

(** [if source.File == "" { source = item.Source }], over the items. *)
Definition first_source (source : SourceRef) (items : list SourceRef) : SourceRef :=
  fold_left (fun s item => if bool_decide (src_File s = "") then item else s) items source.

(** ** Address tables *)

(** [addresses[key] = fmt.Sprintf(..., key)] over the keys of a map. *)
Definition key_entries {V} (sc : scope) (kind : string) (m : gmap string V) : list (string * string) :=
  (fun key => (key, keyed (scope_Prefix sc) kind key)) <$> sorted_keys m.

Definition groupAddresses (host : HostSpec) : gmap string string :=
  table (key_entries (host_scope host) ".groups.group" (grs_Groups (h_Groups host))
         ++ each_component host (fun sc c => key_entries sc ".groups.group" (grs_Groups (ci_Groups c)))).

Definition userAddresses (host : HostSpec) : gmap string string :=
  table (key_entries (host_scope host) ".users.user" (uss_Users (h_Users host))
         ++ each_component host (fun sc c => key_entries sc ".users.user" (uss_Users (ci_Users c)))).

Definition managedFileAddresses (host : HostSpec) : gmap string string :=
  table (key_entries (host_scope host) ".files.file" (fls_Files (h_Files host))
         ++ key_entries (host_scope host) ".secrets.file" (secs_Files (h_Secrets host))
         ++ each_component host (fun sc c => key_entries sc ".files.file" (fls_Files (ci_Files c))
                                             ++ key_entries sc ".secrets.file" (secs_Files (ci_Secrets c)))).

Definition networkd_entries (sc : scope) (networkd : option NetworkdSpec) : list (string * string) :=
  match networkd with
  | None => []
  | Some nw =>
      ((fun p => (nd_Path p.2, keyed (scope_Prefix sc) ".systemd.networkd.netdev" p.1)) <$> sorted_entries (nw_NetDevs nw))
      ++ ((fun p => (nn_Path p.2, keyed (scope_Prefix sc) ".systemd.networkd.network" p.1))
            <$> sorted_entries (nw_Networks nw))
  end.

Definition networkdAddresses (host : HostSpec) : gmap string string :=
  table (networkd_entries (host_scope host) (sd_Networkd (h_Systemd host))
         ++ each_component host (fun sc c => networkd_entries sc (sd_Networkd (ci_Systemd c)))).

(** The units of the host and its components, then, in the order of the nodes,
    units and timers. *)
Definition unit_entries (sc : scope) (sd : SystemdSpec) : list (string * string) :=
  key_entries sc ".systemd.unit" (sd_Units sd).
Definition timer_entries (sc : scope) (sd : SystemdSpec) : list (string * string) :=
  (fun p => (su_Name (tm_Unit p.2), keyed (scope_Prefix sc) ".systemd.timer" p.1)) <$> sorted_entries (sd_Timers sd).

Definition unitAddresses (host : HostSpec) : gmap string string :=
  table (unit_entries (host_scope host) (h_Systemd host)
         ++ each_component host (fun sc c => unit_entries sc (ci_Systemd c))
         ++ unit_entries (host_scope host) (h_Systemd host)
         ++ timer_entries (host_scope host) (h_Systemd host)
         ++ each_component host (fun sc c => unit_entries sc (ci_Systemd c) ++ timer_entries sc (ci_Systemd c))).

(** ** System and kernel *)

Definition system_node (host : HostSpec) (attribute value : string) : Node :=
  let desired := attrs [(attribute, GStr value)] in
  let kind := "system_" +:+ attribute in
  make_node (h_Name host) ("host." +:+ h_Name host +:+ ".system." +:+ attribute) kind
    ("manage system " +:+ attribute +:+ " " +:+ value) (sys_Source (h_System host)) None desired []
    kind (kind +:+ "." +:+ providerName [h_Name host]) desired.

Definition system_nodes (host : HostSpec) : list Node :=
  let s := h_System host in
  (if sys_HostnameSet s then [system_node host "hostname" (sys_Hostname s)] else [])
  ++ (if sys_TimezoneSet s then [system_node host "timezone" (sys_Timezone s)] else [])
  ++ (if sys_LocaleSet s then [system_node host "locale" (sys_Locale s)] else []).

Definition module_address (host : HostSpec) (m : KernelModuleSpec) : string :=
  keyed ("host." +:+ h_Name host) ".kernel.module" (km_Name m).

Definition module_node (host : HostSpec) (m : KernelModuleSpec) : Node :=
  let desired := attrs [("name", GStr (km_Name m)); ("persist", GBool (km_Persist m)); ("ensure", GStr (km_Ensure m))] in
  make_node (h_Name host) (module_address host m) "kernel_module" ("create kernel module " +:+ km_Name m)
    (km_Source m) None desired [] "kernel_module" ("kernel_module." +:+ providerName [h_Name host; km_Name m]) desired.

Definition moduleAddresses (host : HostSpec) : gmap string string :=
  table ((fun m => (km_Name m, module_address host m)) <$> ker_Modules (h_Kernel host)).

Definition sysctl_node (host : HostSpec) (s : SysctlSpec) : Node :=
  let deps := if bool_decide (sc_Key s = "net.ipv4.tcp_congestion_control" /\ sc_Value s = "bbr")
              then lookup_dep (moduleAddresses host) "tcp_bbr" else [] in
  let desired := attrs [("key", GStr (sc_Key s)); ("value", GStr (sc_Value s)); ("persist", GBool (sc_Persist s));
                        ("apply_runtime", GBool (sc_ApplyRuntime s))] in
  make_node (h_Name host) (keyed ("host." +:+ h_Name host) ".kernel.sysctl" (sc_Key s)) "sysctl"
    ("create sysctl " +:+ sc_Key s) (sc_Source s) None desired deps "sysctl"
    ("sysctl." +:+ providerName [h_Name host; sc_Key s]) desired.

Definition kernel_nodes (host : HostSpec) : list Node :=
  (module_node host <$> ker_Modules (h_Kernel host))
  ++ ((fun p => sysctl_node host p.2) <$> sorted_entries (ker_Sysctl (h_Kernel host))).

(** ** APT *)

Definition repository_address (sc : scope) (name : string) : string := keyed (scope_Prefix sc) ".apt.repository" name.
Definition signing_key_address (sc : scope) (name : string) : string := keyed (scope_Prefix sc) ".apt.signing_key" name.
Definition source_file_address (sc : scope) (label : string) : string := keyed (scope_Prefix sc) ".apt.source_file" label.

Definition signing_key_node (sc : scope) (name : string) (item : APTRepositorySpec) (key : APTSigningKeySpec)
  : Node :=
  let desired := in_component sc
    (attrs [("name", GStr (ar_Name item)); ("path", GStr (ak_Path key)); ("owner", GStr "root");
            ("group", GStr "root"); ("mode", GStr "0644"); ("ensure", GStr (ar_Ensure item))]) in
  let desired := set_if (nonempty (ak_URL key)) "url" (GStr (ak_URL key)) desired in
  let desired := set_if (nonempty (ak_SHA256 key)) "sha256" (GStr (ak_SHA256 key)) desired in
  let '(desired, payload) := contentResourceDesiredPayload desired (ak_Content key) "" (ak_Sensitive key)
                               (optionalContentSummary (ak_Content key)) in
  make_node (scope_Host sc) (signing_key_address sc name) "apt_signing_key"
    ("manage apt signing key " +:+ ar_Name item) (ak_Source key) (lifecyclePtr (ar_Lifecycle item)) desired []
    "apt_signing_key" ("apt_signing_key." +:+ scoped_name sc [ar_Name item]) payload.

Definition repository_source_node (sc : scope) (name : string) (item : APTRepositorySpec) (deps : list string)
  : Node :=
  let sourcePath := aptRepositorySourcePath name in
  let desired := in_component sc
    (attrs [("name", GStr (ar_Name item)); ("path", GStr sourcePath); ("owner", GStr "root");
            ("group", GStr "root"); ("mode", GStr "0644"); ("ensure", GStr (ar_Ensure item))]) in
  let desired := set_if (negb (bool_decide (ar_Ensure item = "absent"))) "content"
                   (GStr (aptRepositorySourceContent item)) desired in
  make_node (scope_Host sc) (repository_address sc name) "file" ("manage apt repository " +:+ ar_Name item)
    (ar_Source item) (lifecyclePtr (ar_Lifecycle item)) desired deps "file"
    ("file." +:+ providerName [scope_Host sc; sourcePath]) desired.

(** A repository: its signing key, if any, and the source file that depends on
    it. *)
Definition repository_nodes (sc : scope) (entry : string * APTRepositorySpec) : list Node :=
  let '(name, item) := entry in
  match ar_SigningKey item with
  | Some key => [signing_key_node sc name item key; repository_source_node sc name item [signing_key_address sc name]]
  | None => [repository_source_node sc name item []]
  end.

Definition source_file_node (sc : scope) (entry : string * APTSourceFileSpec) : Node :=
  let '(label, item) := entry in
  let desired := in_component sc
    (attrs [("label", GStr (as_Label item)); ("path", GStr (as_Path item)); ("owner", GStr (as_Owner item));
            ("group", GStr (as_Group item)); ("mode", GStr (as_Mode item)); ("ensure", GStr (as_Ensure item));
            ("on_destroy", GStr (as_OnDestroy item))]) in
  let '(desired, payload) :=
    if bool_decide (as_Ensure item = "absent") then
      let payload := cloneMap desired in
      (set_if (as_Sensitive item) "sensitive" (GBool true) desired,
       set_if (as_Sensitive item) "sensitive" (GBool true) payload)
    else contentResourceDesiredPayload desired (as_Content item) (as_SourcePath item) (as_Sensitive item)
           (as_Summary item) in
  make_node (scope_Host sc) (source_file_address sc label) "apt_source_file"
    ("manage apt source file " +:+ as_Label item) (as_Source item) (lifecyclePtr (as_Lifecycle item)) desired []
    "apt_source_file" ("apt_source_file." +:+ scoped_name sc [as_Label item]) payload.

Definition apt_nodes (sc : scope) (apt : APTSpec) : list Node :=
  (sorted_entries (apt_Repositories apt) ≫= repository_nodes sc)
  ++ (source_file_node sc <$> sorted_entries (apt_SourceFiles apt)).

(** Each node of the section triggers the cache refresh. *)
Definition apt_triggers (sc : scope) (apt : APTSpec) : list string := n_Address <$> apt_nodes sc apt.

Definition apt_sensitive (apt : APTSpec) : bool :=
  existsb (fun p => from_option ak_Sensitive false (ar_SigningKey p.2)) (sorted_entries (apt_Repositories apt))
  || existsb (fun p => as_Sensitive p.2) (sorted_entries (apt_SourceFiles apt)).

Definition apt_sources (apt : APTSpec) : list SourceRef :=
  ((fun p => ar_Source p.2) <$> sorted_entries (apt_Repositories apt))
  ++ ((fun p => as_Source p.2) <$> sorted_entries (apt_SourceFiles apt)).

Definition repository_entries (sc : scope) (apt : APTSpec) : list (string * string) :=
  key_entries sc ".apt.repository" (apt_Repositories apt).

Definition repositoryAddresses (host : HostSpec) : gmap string string :=
  table (repository_entries (host_scope host) (h_APT host)
         ++ each_component host (fun sc c => repository_entries sc (ci_APT c))).

Definition all_apt_nodes (host : HostSpec) : list Node :=
  apt_nodes (host_scope host) (h_APT host) ++ each_component host (fun sc c => apt_nodes sc (ci_APT c)).

Definition repositoryTriggers (host : HostSpec) (dockerGraph : dockerEngineGraph) : list string :=
  dg_RepositoryTriggers dockerGraph ++ apt_triggers (host_scope host) (h_APT host)
  ++ each_component host (fun sc c => apt_triggers sc (ci_APT c)).

Definition aptCacheSource (host : HostSpec) (dockerGraph : dockerEngineGraph) : SourceRef :=
  let source := apt_Source (h_APT host) in
  let source := match dg_RepositoryTriggers dockerGraph, h_Docker host with
                | _ :: _, Some docker => first_source source [dk_Source docker]
                | _, _ => source
                end in
  first_source source (apt_sources (h_APT host) ++ each_component host (fun _ c => apt_sources (ci_APT c))).

(** The refresh operation and its address, which is empty without triggers. *)
Definition cache_refresh (host : HostSpec) (dockerGraph : dockerEngineGraph) : list Operation * string :=
  match repositoryTriggers host dockerGraph with
  | [] => ([], "")
  | triggers =>
      let address := "host." +:+ h_Name host +:+ ".apt.cache_refresh" in
      let sensitive := apt_sensitive (h_APT host) || existsb (fun c => apt_sensitive (ci_APT c)) (h_Components host) in
      ([make_operation address "refresh apt package cache" sensitive triggers triggers "apt-get update" None None
          (aptCacheSource host dockerGraph)], address)
  end.

(** The pass that makes the Docker packages wait for the refresh. *)
Definition wait_for_refresh (host : HostSpec) (refresh : string) (n : Node) : Node :=
  if nonempty refresh && strings_HasPrefix (n_Address n) ("host." +:+ h_Name host +:+ ".docker.package[")
  then set_n_DependsOn (dedupeStrings (n_DependsOn n ++ [refresh])) n else n.

(** ** Packages *)

Definition package_address (sc : scope) (item : PackageItem) : string :=
  keyed (scope_Prefix sc) ".packages.install" (pk_Name item).

Definition package_node (sc : scope) (repositories : gmap string string) (refresh : string) (item : PackageItem)
  : Node :=
  let deps := pk_Repositories item ≫= lookup_dep repositories in
  let deps := match deps with
              | [] => []
              | _ => if nonempty refresh then deps ++ [refresh] else deps
              end in
  let desired := in_component sc (attrs [("name", GStr (pk_Name item)); ("ensure", GStr "present")]) in
  let desired := set_if (pk_ConffilePolicySet item) "conffile_policy" (GStr (pk_ConffilePolicy item)) desired in
  let desired := match pk_Repositories item with
                 | [] => desired
                 | l => <["repositories" := GStrs l]> desired
                 end in
  make_node (scope_Host sc) (package_address sc item) "package" ("create package " +:+ pk_Name item)
    (pk_Source item) (lifecyclePtr (pk_Lifecycle item)) desired (dedupeStrings deps) "package"
    ("package." +:+ scoped_name sc [pk_Name item]) desired.

Definition package_nodes (host : HostSpec) (refresh : string) : list Node :=
  (package_node (host_scope host) (repositoryAddresses host) refresh <$> pks_Install (h_Packages host))
  ++ each_component host (fun sc c =>
       package_node sc (repositoryAddresses host) refresh <$> pks_Install (ci_Packages c)).

Definition package_entries (sc : scope) (p : PackageSpec) : list (string * string) :=
  (fun item => (pk_Name item, package_address sc item)) <$> pks_Install p.

(** The packages of the Docker source come first, under the name their address
    quotes. *)
Definition packageAddresses (host : HostSpec) (dockerGraph : dockerEngineGraph) : gmap string string :=
  table (filter (fun p => p.1 <> "")
           ((fun a => (packageNameFromDockerPackageAddress a, a)) <$> dg_PackageAddresses dockerGraph)
         ++ package_entries (host_scope host) (h_Packages host)
         ++ each_component host (fun sc c => package_entries sc (ci_Packages c))).

(** ** nftables *)

Definition nft_items (nft : NftablesSpec) : list NftablesFileSpec :=
  from_option (fun main => [main]) [] (nft_Main nft) ++ (snd <$> sorted_entries (nft_Files nft)).

Definition nft_address (host : HostSpec) (item : NftablesFileSpec) : string :=
  keyed ("host." +:+ h_Name host) ".nftables.file" (nf_Label item).

Definition nftables_files (host : HostSpec) (packages : gmap string string) : list Node :=
  (fun item => nftablesFileNode (h_Name host) (nft_address host item) item (lookup_dep packages "nftables"))
    <$> nft_items (h_Nftables host).

Definition nft_present (flag : NftablesFileSpec -> bool) (nft : NftablesSpec) : bool :=
  existsb (fun item => negb (bool_decide (nf_Ensure item = "absent")) && flag item) (nft_items nft).

(** Validation and activation of the ruleset, and the address of the
    activation. *)
Definition nftables_operations (host : HostSpec) : list Operation * string :=
  let nft := h_Nftables host in
  let triggers := nft_address host <$> nft_items nft in
  let mainPath := from_option nf_Path "/etc/nftables.conf" (nft_Main nft) in
  let sensitive := existsb nf_Sensitive (nft_items nft) in
  let source := first_source (nft_Source nft) (nf_Source <$> nft_items nft) in
  let validateAddress := "host." +:+ h_Name host +:+ ".nftables.validate" in
  let activateAddress := "host." +:+ h_Name host +:+ ".nftables.activate" in
  let activate deps := make_operation activateAddress "activate nftables ruleset" sensitive deps triggers
                         ("nft -f " +:+ mainPath) None None source in
  match triggers with
  | [] => ([], "")
  | _ =>
      if nft_present nf_Validate nft then
        let validate := make_operation validateAddress "validate nftables ruleset" sensitive triggers triggers
                          ("nft -c -f " +:+ mainPath) None None source in
        if nft_present nf_Activate nft then ([validate; activate [validateAddress]], activateAddress)
        else ([validate], "")
      else if nft_present nf_Activate nft then ([activate triggers], activateAddress)
      else ([], "")
  end.

Definition nftables_enable (host : HostSpec) (packages : gmap string string) (activateAddress : string)
  : list Node :=
  match nft_Enable (h_Nftables host) with
  | None => []
  | Some enable =>
      let deps := lookup_dep packages "nftables"
                  ++ (if enable && nonempty activateAddress then [activateAddress] else []) in
      let desired := attrs [("name", GStr "nftables"); ("unit", GStr "nftables.service"); ("enabled", GBool enable);
                            ("state", GStr (if enable then "running" else "stopped"))] in
      [make_node (h_Name host) ("host." +:+ h_Name host +:+ ".nftables.enable") "service"
         (if enable then "enable nftables service" else "disable nftables service") (nft_Source (h_Nftables host))
         None desired (dedupeStrings deps) "service"
         ("service." +:+ providerName [h_Name host; "nftables"]) desired]
  end.

(** The pass that makes the Docker service wait for the engine and the daemon
    configuration. *)
Definition wait_for_engine (dockerGraph : dockerEngineGraph) (n : Node) : Node :=
  if nonempty (dg_ServiceAddress dockerGraph) && bool_decide (n_Address n = dg_ServiceAddress dockerGraph)
  then set_n_DependsOn
         (dedupeStrings (n_DependsOn n ++ dg_PackageAddresses dockerGraph
                         ++ (if nonempty (dg_DaemonFileAddress dockerGraph)
                             then [dg_DaemonFileAddress dockerGraph] else []))) n
  else n.

(** ** Component artifacts *)

Definition install_address (sc : scope) (install : ComponentArtifactInstallSpec) : string :=
  keyed (scope_Prefix sc) ".artifact.install" (ins_Path install).

Definition download_address (sc : scope) (source : ComponentArtifactSourceSpec) : string :=
  keyed (scope_Prefix sc) ".artifact.download" (componentArtifactSourceLabel source).

(** The download of the selected source. *)
Definition download_node (host : HostSpec) (sc : scope) (c : ComponentInstanceSpec)
    (source : ComponentArtifactSourceSpec) : Node :=
  let desired := attrs
    [("component", GStr (ci_Name c)); ("type", GStr (ci_ArtifactType c)); ("version", GStr (ci_Version c));
     ("architecture", GStr (asrc_Architecture source)); ("url", GStr (asrc_URL source));
     ("sha256", GStr (asrc_SHA256 source)); ("path", GStr (componentArtifactCachePath c)); ("owner", GStr "root");
     ("group", GStr "root"); ("mode", GStr "0644"); ("ensure", GStr "present")] in
  let '(desired, payload) :=
    if componentArtifactSourceSensitive source
    then (redactComponentArtifactSourceFields desired "url" "sha256" source,
          <["sensitive" := GBool true]> (cloneMap desired))
    else (desired, desired) in
  let deps := if strings_HasPrefix (asrc_URL source) "file://"
              then lookup_dep (managedFileAddresses host) (strings_TrimPrefix (asrc_URL source) "file://")
              else [] in
  make_node (h_Name host) (download_address sc source) "component_download"
    ("download component " +:+ ci_Name c +:+ " source") (asrc_Source source) None desired deps "component_download"
    ("component_download." +:+ providerName [h_Name host; ci_Name c; componentArtifactSourceLabel source]) payload.

Definition build_package_address (sc : scope) (pkg : string) : string :=
  keyed (scope_Prefix sc) ".build.package" pkg.

Definition build_package_node (host : HostSpec) (sc : scope) (c : ComponentInstanceSpec)
    (build : ComponentArtifactBuildSpec) (pkg : string) : Node :=
  let desired := attrs [("name", GStr pkg); ("component", GStr (ci_Name c)); ("scope", GStr "build");
                        ("ensure", GStr "present")] in
  make_node (h_Name host) (build_package_address sc pkg) "package" ("install build package " +:+ pkg)
    (bld_Source build) None desired [] "package"
    ("package." +:+ providerName [h_Name host; ci_Name c; "build"; pkg]) desired.

Definition build_address (sc : scope) (c : ComponentInstanceSpec) : string :=
  keyed (scope_Prefix sc) ".artifact.build" (componentArtifactBuildOutputPath c).

Definition with_staging (host : HostSpec) (c : ComponentInstanceSpec) (desired : gomap) : gomap :=
  let root := componentWorkspaceRoot host c in
  if nonempty root then <["staging_root" := GStr root]> (cloneMap desired) else desired.

(** The build from source: its packages, then the build itself. *)
Definition build_nodes (host : HostSpec) (sc : scope) (c : ComponentInstanceSpec)
    (source : ComponentArtifactSourceSpec) (build : ComponentArtifactBuildSpec) : list Node :=
  let deps := [download_address sc source] ++ (build_package_address sc <$> bld_Packages build) in
  let desired := attrs
    [("component", GStr (ci_Name c)); ("type", GStr (ci_ArtifactType c)); ("version", GStr (ci_Version c));
     ("architecture", GStr (asrc_Architecture source)); ("source_url", GStr (asrc_URL source));
     ("source_sha256", GStr (asrc_SHA256 source)); ("cache_path", GStr (componentArtifactCachePath c));
     ("build_path", GStr (componentArtifactBuildPath c)); ("output_path", GStr (componentArtifactBuildOutputPath c));
     ("commands", cloneCommandMatrix (bld_Commands build)); ("packages", copied_strings (bld_Packages build));
     ("working_dir", GStr (bld_WorkingDir build)); ("output", GStr (bld_Output build)); ("owner", GStr "root");
     ("group", GStr "root"); ("mode", GStr "0644"); ("ensure", GStr "present")] in
  let desired := set_if (nonempty (bld_SourceName build)) "source_name" (GStr (bld_SourceName build)) desired in
  let desired := match ci_Extract c with
                 | Some e => <["strip_components" := GInt (ext_StripComponents e)]>
                               (<["extract_format" := GStr (ext_Format e)]> desired)
                 | None => desired
                 end in
  let desired := redactComponentArtifactSourceFields desired "source_url" "source_sha256" source in
  (build_package_node host sc c build <$> bld_Packages build)
  ++ [make_node (h_Name host) (build_address sc c) "component_build"
        ("build component " +:+ ci_Name c +:+ " from source") (bld_Source build) None desired (dedupeStrings deps)
        "component_build" ("component_build." +:+ providerName [h_Name host; ci_Name c]) (with_staging host c desired)].

(** The build of a component, if it is built from source. *)
Definition source_build (c : ComponentInstanceSpec) : option ComponentArtifactBuildSpec :=
  if decide (ci_ArtifactType c = "source") then ci_Build c else None.

Definition install_source (c : ComponentInstanceSpec) (install : ComponentArtifactInstallSpec) : SourceRef :=
  match source_build c with
  | Some build => bld_Source build
  | None => from_option ext_Source (ins_Source install) (ci_Extract c)
  end.

Definition install_node (host : HostSpec) (sc : scope) (c : ComponentInstanceSpec)
    (source : ComponentArtifactSourceSpec) (install : ComponentArtifactInstallSpec) : Node :=
  let cachePath :=
    match source_build c with
    | Some _ => if nonempty (componentArtifactBuildOutputPath c) then componentArtifactBuildOutputPath c
                else componentArtifactCachePath c
    | None => componentArtifactCachePath c
    end in
  let desired := attrs
    [("component", GStr (ci_Name c)); ("type", GStr (ci_ArtifactType c)); ("version", GStr (ci_Version c));
     ("architecture", GStr (asrc_Architecture source)); ("source_url", GStr (asrc_URL source));
     ("source_sha256", GStr (asrc_SHA256 source)); ("cache_path", GStr cachePath); ("path", GStr (ins_Path install));
     ("owner", GStr (ins_Owner install)); ("group", GStr (ins_Group install)); ("mode", GStr (ins_Mode install));
     ("ensure", GStr "present")] in
  let desired := match ci_Extract c with
                 | Some e => <["include" := GStr (ext_Include e)]>
                               (<["strip_components" := GInt (ext_StripComponents e)]>
                                  (<["extract_format" := GStr (ext_Format e)]> desired))
                 | None => desired
                 end in
  let desired := redactComponentArtifactSourceFields desired "source_url" "source_sha256" source in
  let '(deps, desired) :=
    match source_build c with
    | Some build =>
        ([build_address sc c],
         delete "include" (delete "strip_components" (delete "extract_format"
           (<["build_output" := GStr (bld_Output build)]>
              (<["build_path" := GStr (componentArtifactBuildPath c)]> desired)))))
    | None => ([download_address sc source], desired)
    end in
  let kind := componentArtifactInstallKind (ci_ArtifactType c) in
  let payload := if bool_decide (kind = "component_archive") || nonempty (stringMapValue desired "extract_format")
                 then with_staging host c desired else desired in
  let deps := deps ++ ownershipDependencies (ins_Owner install) (ins_Group install)
                        (userAddresses host) (groupAddresses host) in
  make_node (h_Name host) (install_address sc install) kind (componentArtifactInstallSummary c install)
    (install_source c install) None desired (dedupeStrings deps) kind
    (kind +:+ "." +:+ providerName [h_Name host; ci_Name c; ins_Path install]) payload.

(** A component with an artifact type, a selected source and an installation. *)
Definition artifact_parts (c : ComponentInstanceSpec)
  : option (ComponentArtifactSourceSpec * ComponentArtifactInstallSpec) :=
  source ← ci_SelectedSource c; install ← ci_Install c;
  if nonempty (ci_ArtifactType c) then Some (source, install) else None.

Definition artifact_nodes (host : HostSpec) (sc : scope) (c : ComponentInstanceSpec) : list Node :=
  match artifact_parts c with
  | None => []
  | Some (source, install) =>
      [download_node host sc c source]
      ++ from_option (build_nodes host sc c source) [] (source_build c)
      ++ [install_node host sc c source install]
  end.

Definition install_entries (sc : scope) (c : ComponentInstanceSpec) : list (string * string) :=
  from_option (fun p => [(ci_Name c, install_address sc p.2)]) [] (artifact_parts c).
Definition componentArtifactInstallAddresses (host : HostSpec) : gmap string string :=
  table (each_component host install_entries).

(** The installed certificates: addresses and sources. *)
Definition certificate_installs (sc : scope) (c : ComponentInstanceSpec) : list (string * SourceRef) :=
  match artifact_parts c with
  | Some (_, install) =>
      if decide (ci_ArtifactType c = "ca_certificate")
      then [(install_address sc install, install_source c install)] else []
  | None => []
  end.

Definition certificates_update (host : HostSpec) : list Operation :=
  match each_component host certificate_installs with
  | [] => []
  | installs =>
      [make_operation ("host." +:+ h_Name host +:+ ".ca_certificates.update") "update ca certificates" false
         installs.*1 installs.*1 "update-ca-certificates" None None (first_source no_source installs.*2)]
  end.

(** ** Directories, files and secrets *)

Definition owned_by (host : HostSpec) (owner group : string) : list string :=
  ownershipDependencies owner group (userAddresses host) (groupAddresses host).

Definition directory_node (host : HostSpec) (sc : scope) (entry : string * ManagedDirectory) : Node :=
  let '(path, item) := entry in
  let desired := in_component sc
    (attrs [("path", GStr (md_Path item)); ("owner", GStr (md_Owner item)); ("group", GStr (md_Group item));
            ("mode", GStr (md_Mode item)); ("ensure", GStr (md_Ensure item))]) in
  make_node (h_Name host) (keyed (scope_Prefix sc) ".directories.directory" path) "directory"
    ("create directory " +:+ md_Path item) (md_Source item) (lifecyclePtr (md_Lifecycle item)) desired
    (owned_by host (md_Owner item) (md_Group item)) "directory"
    ("directory." +:+ scoped_name sc [md_Path item]) desired.

Definition directory_nodes (host : HostSpec) : list Node :=
  (directory_node host (host_scope host) <$> sorted_entries (dirs_Directories (h_Directories host)))
  ++ each_component host (fun sc c => directory_node host sc <$> sorted_entries (dirs_Directories (ci_Directories c))).

Definition file_address (sc : scope) (path : string) : string := keyed (scope_Prefix sc) ".files.file" path.

Definition file_node (host : HostSpec) (sc : scope) (entry : string * ManagedFile) : Node :=
  let '(path, item) := entry in
  let '(desired, payload) := fileResourceDesiredPayload
    {| fr_Path := mf_Path item; fr_Component := scope_name sc; fr_Content := mf_Content item;
       fr_ContentVersion := mf_ContentVersion item; fr_ContentWriteOnly := mf_ContentWriteOnly item;
       fr_SourcePath := mf_SourcePath item; fr_Owner := mf_Owner item; fr_Group := mf_Group item;
       fr_Mode := mf_Mode item; fr_Sensitive := mf_Sensitive item; fr_Ensure := mf_Ensure item;
       fr_Summary := mf_Summary item |} in
  make_node (h_Name host) (file_address sc path) "file" ("create file " +:+ mf_Path item) (mf_Source item)
    (lifecyclePtr (mf_Lifecycle item)) desired (owned_by host (mf_Owner item) (mf_Group item)) "file"
    ("file." +:+ scoped_name sc [mf_Path item]) payload.

Definition file_nodes (host : HostSpec) : list Node :=
  (file_node host (host_scope host) <$> sorted_entries (fls_Files (h_Files host)))
  ++ each_component host (fun sc c => file_node host sc <$> sorted_entries (fls_Files (ci_Files c))).

Definition secret_node (host : HostSpec) (sc : scope) (entry : string * SecretFile) : Node :=
  let '(path, item) := entry in
  let '(desired, payload) := fileResourceDesiredPayload
    {| fr_Path := sf_Path item; fr_Component := scope_name sc; fr_Content := ""; fr_ContentVersion := "";
       fr_ContentWriteOnly := false; fr_SourcePath := sf_SourcePath item; fr_Owner := sf_Owner item;
       fr_Group := sf_Group item; fr_Mode := sf_Mode item; fr_Sensitive := true; fr_Ensure := sf_Ensure item;
       fr_Summary := sf_Summary item |} in
  make_node (h_Name host) (keyed (scope_Prefix sc) ".secrets.file" path) "secret"
    ("create secret file " +:+ sf_Path item) (sf_Source item) (lifecyclePtr (sf_Lifecycle item)) desired
    (owned_by host (sf_Owner item) (sf_Group item)) "file" ("file." +:+ scoped_name sc [sf_Path item]) payload.

Definition secret_nodes (host : HostSpec) : list Node :=
  (secret_node host (host_scope host) <$> sorted_entries (secs_Files (h_Secrets host)))
  ++ each_component host (fun sc c => secret_node host sc <$> sorted_entries (secs_Files (ci_Secrets c))).

(** ** Scripts run when files change *)

Record script_triggers := {
  st_component : gmap string (gmap string (list string));
  st_root : gmap string (list string);
  st_rootNames : gmap string string;
}.
Definition no_script_triggers : script_triggers := {| st_component := ∅; st_root := ∅; st_rootNames := ∅ |}.

(** The [on_change] of one component file. *)
Definition collect_on_change (acc : script_triggers) (entry : string * string * ManagedFile)
  : result compile_error script_triggers :=
  let '(component, address, item) := entry in
  match mf_OnChange item with
  | None => Ok acc
  | Some ref =>
      if decide (srf_Scope ref = "root") then
        _ ← guard_or (nonempty (srf_DeclarationID ref)) (UnresolvedRootScript address (srf_Name ref));
        Ok {| st_component := st_component acc;
              st_root := append_at (srf_DeclarationID ref) address (st_root acc);
              st_rootNames := <[srf_DeclarationID ref := srf_Name ref]> (st_rootNames acc) |}
      else
        Ok {| st_component :=
                <[component := append_at (srf_Name ref) address (default ∅ (st_component acc !! component))]>
                  (st_component acc);
              st_root := st_root acc; st_rootNames := st_rootNames acc |}
  end.

Definition component_file_entries (host : HostSpec) : list (string * string * ManagedFile) :=
  each_component host (fun sc c =>
    (fun p => (ci_Name c, file_address sc p.1, p.2)) <$> sorted_entries (fls_Files (ci_Files c))).

Definition scriptTriggers (host : HostSpec) : result compile_error script_triggers :=
  fold_res collect_on_change (component_file_entries host) no_script_triggers.

(** The nodes of the outputs of a script; each also waits for the outputs
    before it.  The second result is what triggers the script. *)
Fixpoint output_nodes (build : ScriptOutputPayload -> list string -> Node)
    (outputs : list ScriptOutputPayload) (triggeredBy : list string) : list Node * list string :=
  match outputs with
  | [] => ([], triggeredBy)
  | output :: outputs =>
      let node := build output triggeredBy in
      let '(nodes, triggeredBy) := output_nodes build outputs (triggeredBy ++ [so_Address output]) in
      (node :: nodes, triggeredBy)
  end.

Definition output_node (host summary scope_key scope_value name : string) (script : ComponentScriptSpec)
    (output : ScriptOutputPayload) (triggeredBy : list string) : Node :=
  let desired := attrs [("path", GStr (so_Path output)); (scope_key, GStr scope_value); ("script", GStr name)] in
  let desired := set_if (nonempty (so_ScriptDigest output)) "script_digest" (GStr (so_ScriptDigest output)) desired in
  make_node host (so_Address output) "component_script_output" (summary +:+ so_Path output) (cs_Source script) None
    desired triggeredBy "component_script_output" (so_ProviderAddress output) desired.

(** The script [name] of a component, run once for all the files that trigger
    it. *)
Definition component_script (host : HostSpec) (sc : scope) (c : ComponentInstanceSpec)
    (entry : string * list string) : list Node * list Operation :=
  let '(name, triggers) := entry in
  match ci_Scripts c !! name with
  | None => ([], [])
  | Some script =>
      let outputs := scriptOutputPayloads (h_Name host) (ci_Name c) name script in
      let '(nodes, triggeredBy) :=
        output_nodes (output_node (h_Name host) "check script output " "component" (ci_Name c) name script)
          outputs (dedupeStrings triggers) in
      let triggeredBy := dedupeStrings triggeredBy in
      (nodes,
       [make_operation (keyed (scope_Prefix sc) ".script" name) ("run component script " +:+ name)
          (cs_Sensitive script) triggeredBy triggeredBy
          ("script " +:+ name +:+ " (" +:+ cs_Mode script +:+ ")")
          (Some (script_payload script (ci_Name c) (cs_Mode script) outputs)) None (cs_Source script)])
  end.

Definition component_scripts (host : HostSpec) (triggers : script_triggers) : list (list Node * list Operation) :=
  each_component host (fun sc c =>
    component_script host sc c <$> sorted_entries (default ∅ (st_component triggers !! ci_Name c))).

(** A script declared at the root, found by the name its references use and
    checked against their declaration. *)
Definition root_script (host : HostSpec) (triggers : script_triggers)
    (acc : list (list Node * list Operation)) (entry : string * list string)
  : result compile_error (list (list Node * list Operation)) :=
  let '(declarationID, addresses) := entry in
  let name := default "" (st_rootNames triggers !! declarationID) in
  let mismatch := RootScriptMismatch (h_Name host) name declarationID in
  script ← of_option mismatch (h_Scripts host !! name);
  _ ← guard_or (bool_decide (cs_DeclarationID script = declarationID)) mismatch;
  let outputs := hostScriptOutputPayloads (h_Name host) name script in
  let '(nodes, triggeredBy) :=
    output_nodes (output_node (h_Name host) "check host script output " "scope" "host" name script)
      outputs (dedupeStrings addresses) in
  let triggeredBy := dedupeStrings triggeredBy in
  Ok (acc ++ [(nodes,
     [make_operation (keyed ("host." +:+ h_Name host) ".script" name) ("run host script " +:+ name)
        (cs_Sensitive script) triggeredBy triggeredBy ("script " +:+ name +:+ " (once)")
        (Some (script_payload script "" "once" outputs)) None (cs_Source script)])]).

Definition root_scripts (host : HostSpec) (triggers : script_triggers)
  : result compile_error (list (list Node * list Operation)) :=
  fold_res (root_script host triggers) (sorted_entries (st_root triggers)) [].

(** ** Groups and users *)

Definition group_node (host : HostSpec) (sc : scope) (entry : string * ManagedGroup) : Node :=
  let '(name, item) := entry in
  let desired := in_component sc
    (attrs [("name", GStr (mg_Name item)); ("gid", GStr (mg_GID item)); ("system", GBool (mg_System item));
            ("ensure", GStr (mg_Ensure item))]) in
  make_node (h_Name host) (keyed (scope_Prefix sc) ".groups.group" name) "group" ("create group " +:+ mg_Name item)
    (mg_Source item) (lifecyclePtr (mg_Lifecycle item)) desired [] "group"
    ("group." +:+ scoped_name sc [mg_Name item]) desired.

Definition group_nodes (host : HostSpec) : list Node :=
  (group_node host (host_scope host) <$> sorted_entries (grs_Groups (h_Groups host)))
  ++ each_component host (fun sc c => group_node host sc <$> sorted_entries (grs_Groups (ci_Groups c))).

Definition user_address (sc : scope) (name : string) : string := keyed (scope_Prefix sc) ".users.user" name.

Definition user_node (host : HostSpec) (sc : scope) (name : string) (item : ManagedUser) : Node :=
  let deps := lookup_dep (groupAddresses host) (mu_PrimaryGroup item)
              ++ (elems (mu_Groups item) ≫= lookup_dep (groupAddresses host)) in
  let desired := in_component sc
    (attrs [("name", GStr (mu_Name item)); ("uid", GStr (mu_UID item)); ("group", GStr (mu_PrimaryGroup item));
            ("groups", cloneStrings (mu_Groups item)); ("system", GBool (mu_System item));
            ("home", GStr (mu_Home item)); ("shell", GStr (mu_Shell item));
            ("ssh_authorized_keys", cloneStrings (mu_SSHAuthorizedKeys item)); ("ensure", GStr (mu_Ensure item))]) in
  make_node (h_Name host) (user_address sc name) "user" ("create user " +:+ mu_Name item) (mu_Source item)
    (lifecyclePtr (mu_Lifecycle item)) desired (dedupeStrings deps) "user"
    ("user." +:+ scoped_name sc [mu_Name item]) desired.

Definition ssh_key_node (host : HostSpec) (sc : scope) (name : string) (item : ManagedUser) (key : string) : Node :=
  let keyID := shortHash key in
  let desired := in_component sc
    (attrs [("user", GStr (mu_Name item)); ("key", GStr key); ("ensure", GStr (mu_Ensure item))]) in
  make_node (h_Name host) (keyed (user_address sc name) ".ssh_authorized_key" keyID) "ssh_authorized_key"
    ("create authorized key for " +:+ mu_Name item) (mu_Source item) (lifecyclePtr (mu_Lifecycle item)) desired
    [user_address sc name] "ssh_authorized_key"
    ("ssh_authorized_key." +:+ scoped_name sc [mu_Name item; keyID]) desired.

Definition user_and_keys (host : HostSpec) (sc : scope) (entry : string * ManagedUser) : list Node :=
  let '(name, item) := entry in
  user_node host sc name item :: (ssh_key_node host sc name item <$> elems (mu_SSHAuthorizedKeys item)).

Definition user_nodes (host : HostSpec) : list Node :=
  (sorted_entries (uss_Users (h_Users host)) ≫= user_and_keys host (host_scope host))
  ++ each_component host (fun sc c => sorted_entries (uss_Users (ci_Users c)) ≫= user_and_keys host sc).

(** ** Systemd units and timers *)

Definition install_dep (host : HostSpec) (sc : scope) : list string :=
  match scope_Component sc with
  | Some c => lookup_dep (componentArtifactInstallAddresses host) c
  | None => []
  end.

Definition owned_unit (host : HostSpec) (sc : scope) (item : SystemdUnit) : list string :=
  owned_by host (su_Owner item) (su_Group item) ++ install_dep host sc.

Definition unit_address (sc : scope) (name : string) : string := keyed (scope_Prefix sc) ".systemd.unit" name.
Definition timer_address (sc : scope) (name : string) : string := keyed (scope_Prefix sc) ".systemd.timer" name.

Definition unit_node (host : HostSpec) (sc : scope) (entry : string * SystemdUnit) : Node :=
  let '(name, item) := entry in
  systemdUnitNode (h_Name host) (unit_address sc name) (scope_name sc) item
    (dedupeStrings (owned_unit host sc item)).

Definition unit_change_action (sc : scope) (entry : string * SystemdUnit) : list systemdServiceChangeAction :=
  let '(name, item) := entry in
  if nonempty (su_ChangeAction item)
  then [{| ca_UnitAddress := unit_address sc name; ca_UnitName := su_Name item; ca_Action := su_ChangeAction item;
           ca_Source := su_ChangeActionSource item |}]
  else [].

Definition timer_node (host : HostSpec) (sc : scope) (entry : string * SystemdTimer) : Node :=
  let '(name, timer) := entry in
  systemdUnitNode (h_Name host) (timer_address sc name) (scope_name sc) (tm_Unit timer)
    (dedupeStrings (owned_unit host sc (tm_Unit timer))).

(** The service of a timer; a component timer also waits for what its unit
    waits for.  [daemonReload] is the address of the reload. *)
Definition timer_service_node (host : HostSpec) (sc : scope) (daemonReload : string)
    (entry : string * SystemdTimer) : list Node :=
  let '(name, timer) := entry in
  let unit_ := su_Name (tm_Unit timer) in
  let deps := [timer_address sc name]
              ++ match scope_Component sc with Some _ => owned_unit host sc (tm_Unit timer) | None => [] end in
  if bool_decide (tm_Enable timer = None) && bool_decide (tm_State timer = "") then []
  else
    let n := systemdManagedServiceNode (h_Name host) (timer_address sc name +:+ ".service") (scope_name sc) unit_ unit_ ""
               (tm_Enable timer) (tm_State timer) ("manage timer " +:+ unit_) (tm_Source timer) deps in
    [if nonempty daemonReload then set_n_DependsOn (dedupeStrings (n_DependsOn n ++ [daemonReload])) n else n].

Definition systemd_nodes (host : HostSpec) (sc : scope) (sd : SystemdSpec) : list Node :=
  (unit_node host sc <$> sorted_entries (sd_Units sd)) ++ (timer_node host sc <$> sorted_entries (sd_Timers sd)).

Definition unit_nodes (host : HostSpec) : list Node :=
  systemd_nodes host (host_scope host) (h_Systemd host)
  ++ each_component host (fun sc c => systemd_nodes host sc (ci_Systemd c)).

Definition unitChangeActions (host : HostSpec) : list systemdServiceChangeAction :=
  (sorted_entries (sd_Units (h_Systemd host)) ≫= unit_change_action (host_scope host))
  ++ each_component host (fun sc c => sorted_entries (sd_Units (ci_Systemd c)) ≫= unit_change_action sc).

Definition timer_service_nodes (host : HostSpec) (daemonReload : string) : list Node :=
  (sorted_entries (sd_Timers (h_Systemd host)) ≫= timer_service_node host (host_scope host) daemonReload)
  ++ each_component host (fun sc c =>
       sorted_entries (sd_Timers (ci_Systemd c)) ≫= timer_service_node host sc daemonReload).

Definition daemon_reload (host : HostSpec) : list Operation * string :=
  match n_Address <$> unit_nodes host with
  | [] => ([], "")
  | triggers =>
      let address := "host." +:+ h_Name host +:+ ".systemd.daemon_reload" in
      ([make_operation address "reload systemd manager configuration" false triggers triggers
          "systemctl daemon-reload" None None (sd_Source (h_Systemd host))], address)
  end.

Definition change_action_operations (host : HostSpec) (daemonReload : string) : list Operation :=
  systemdServiceChangeActionOperation daemonReload <$> unitChangeActions host.
Definition unitChangeActionAddresses (host : HostSpec) : gmap string string :=
  table ((fun item => (ca_UnitName item, ca_UnitAddress item +:+ ".change_action")) <$> unitChangeActions host).

(** ** Drop-ins of systemd-resolved and systemd-journald *)

Record dropin := {
  di_Unit : SystemdUnit;
  di_Enable : option bool;
  di_State : string;
  di_Source : SourceRef;
}.
Definition resolved_dropin (r : SystemdResolvedSpec) : dropin :=
  {| di_Unit := rs_Unit r; di_Enable := rs_Enable r; di_State := rs_State r; di_Source := rs_Source r |}.
Definition journald_dropin (j : SystemdJournaldSpec) : dropin :=
  {| di_Unit := jd_Unit j; di_Enable := None; di_State := jd_State j; di_Source := jd_Source j |}.

Definition dropin_address (sc : scope) (name : string) : string := scope_Prefix sc +:+ ".systemd." +:+ name.

(** The service of a drop-in, when its state is managed. *)
Definition dropin_service (host : HostSpec) (name : string) (entry : scope * dropin) : option Node :=
  let '(sc, item) := entry in
  systemdStateServiceNode (h_Name host) (dropin_address sc name +:+ ".service") (scope_name sc)
    ("systemd-" +:+ name) ("systemd-" +:+ name +:+ ".service") (di_Enable item) (di_State item)
    ("manage systemd-" +:+ name) (di_Source item) [dropin_address sc name].

(** The file of a drop-in and its service. *)
Definition dropin_nodes (host : HostSpec) (packages : list string) (name : string) (entry : scope * dropin)
  : list Node :=
  let '(sc, item) := entry in
  [systemdDropInFileNode (h_Name host) (dropin_address sc name) (scope_name sc) (di_Unit item)
     ("manage systemd-" +:+ name +:+ " drop-in") (owned_unit host sc (di_Unit item) ++ packages)]
  ++ from_option (fun n => [n]) [] (dropin_service host name entry).

Definition resolved_items (sc : scope) (sd : SystemdSpec) : list (scope * dropin) :=
  from_option (fun r => [(sc, resolved_dropin r)]) [] (sd_Resolved sd).
Definition journald_items (sc : scope) (sd : SystemdSpec) : list (scope * dropin) :=
  from_option (fun j => [(sc, journald_dropin j)]) [] (sd_Journald sd).

Definition all_resolved (host : HostSpec) : list (scope * dropin) :=
  resolved_items (host_scope host) (h_Systemd host)
  ++ each_component host (fun sc c => resolved_items sc (ci_Systemd c)).
Definition all_journald (host : HostSpec) : list (scope * dropin) :=
  journald_items (host_scope host) (h_Systemd host)
  ++ each_component host (fun sc c => journald_items sc (ci_Systemd c)).

Definition all_dropin_nodes (host : HostSpec) (packages : gmap string string) : list Node :=
  let resolved := lookup_dep packages "systemd-resolved" in
  let both sc sd := (resolved_items sc sd ≫= dropin_nodes host resolved "resolved")
                    ++ (journald_items sc sd ≫= dropin_nodes host [] "journald") in
  both (host_scope host) (h_Systemd host) ++ each_component host (fun sc c => both sc (ci_Systemd c)).

(** The restart after a change of a drop-in, as the last item asks. *)
Definition dropin_restart (host : HostSpec) (name : string) (items : list (scope * dropin)) : list Operation :=
  match last items with
  | None => []
  | Some (_, item) =>
      if systemdDropInShouldRestartOnChange (di_Enable item) (di_State item) then
        let triggers := (fun p => dropin_address p.1 name) <$> items in
        let service := from_option (fun n => [n_Address n]) [] (last (omap (dropin_service host name) items)) in
        [make_operation ("host." +:+ h_Name host +:+ ".systemd." +:+ name +:+ ".restart")
           ("restart systemd-" +:+ name) false (dedupeStrings (triggers ++ service)) triggers
           ("systemctl restart systemd-" +:+ name +:+ ".service") None None
           (first_source no_source ((fun p => di_Source p.2) <$> items))]
      else []
  end.

(** ** Networkd *)

Definition netdev_address (sc : scope) (label : string) : string := keyed (scope_Prefix sc) ".systemd.networkd.netdev" label.
Definition network_address (sc : scope) (label : string) : string := keyed (scope_Prefix sc) ".systemd.networkd.network" label.

Definition all_networkd (host : HostSpec) : list (scope * NetworkdSpec) :=
  from_option (fun nw => [(host_scope host, nw)]) [] (sd_Networkd (h_Systemd host))
  ++ each_component host (fun sc c => from_option (fun nw => [(sc, nw)]) [] (sd_Networkd (ci_Systemd c))).

(** What a component networkd file waits for; a host file waits for nothing
    here. *)
Definition networkd_owned (host : HostSpec) (sc : scope) (owner group : string) : list string :=
  match scope_Component sc with
  | Some _ => install_dep host sc ++ owned_by host owner group
  | None => []
  end.

Definition netdev_node (host : HostSpec) (sc : scope) (entry : string * NetworkdNetDev) : Node :=
  let '(label, item) := entry in
  networkdNetDevNode (h_Name host) (netdev_address sc label) (scope_name sc) item
    (dedupeStrings (networkd_owned host sc (nd_Owner item) (nd_Group item))).

Section networkd.
(** The order in which Go visits the map of addresses; it may differ from one
    loop to the next, here from one network to the next. *)
Variable range_keys : string -> gmap string string -> list string.

Definition network_node (host : HostSpec) (sc : scope) (entry : string * NetworkdNetwork) : Node :=
  let '(label, item) := entry in
  networkdNetworkNode (h_Name host) (network_address sc label) (scope_name sc) item
    (dedupeStrings (networkdNetworkDependencies (range_keys (network_address sc label)) (networkdAddresses host)
                    ++ networkd_owned host sc (nn_Owner item) (nn_Group item))).

Definition networkd_section (host : HostSpec) (entry : scope * NetworkdSpec) : list Node :=
  let '(sc, nw) := entry in
  (netdev_node host sc <$> sorted_entries (nw_NetDevs nw)) ++ (network_node host sc <$> sorted_entries (nw_Networks nw)).

Definition networkd_nodes (host : HostSpec) : list Node := all_networkd host ≫= networkd_section host.

(** The activations, in the order of the nodes. *)
Definition networkd_activations (entry : scope * NetworkdSpec)
  : list (option NetworkdActivationSpec * string * string) :=
  let '(sc, nw) := entry in
  ((fun p => (nd_Activation p.2, netdev_address sc p.1, scope_name sc)) <$> sorted_entries (nw_NetDevs nw))
  ++ ((fun p => (nn_Activation p.2, network_address sc p.1, scope_name sc)) <$> sorted_entries (nw_Networks nw)).

Definition collectActivations (host : HostSpec) : result compile_error activations :=
  fold_res (fun acc p => collectNetworkdActivation p.1.1 p.1.2 p.2 acc)
    (all_networkd host ≫= networkd_activations) no_activations.

Definition networkdDeleteNames (host : HostSpec) : list string :=
  networkdNetDevName <$>
    filter (fun item => nd_Ensure item = "absent") (all_networkd host ≫= (fun p => snd <$> sorted_entries (nw_NetDevs p.2))).

(** The last [enable], with its source. *)
Definition networkdEnable (host : HostSpec) : option (bool * SourceRef) :=
  last (omap (fun p => b ← nw_Enable p.2; Some (b, nw_Source p.2)) (all_networkd host)).

Definition networkd_enable_address (host : HostSpec) : string := "host." +:+ h_Name host +:+ ".systemd.networkd.enable".

(** The reload and the operations after it, appended to the operations so
    far. *)
Definition networkd_operations (host : HostSpec) (acts : activations) (operations : list Operation)
  : result compile_error (list Operation) :=
  match n_Address <$> networkd_nodes host with
  | [] => Ok operations
  | triggers =>
      let source := first_source no_source ((fun p => nw_Source p.2) <$> all_networkd host) in
      let reloadAddress := "host." +:+ h_Name host +:+ ".systemd.networkd.restart" in
      let deps := triggers ++ (match networkdEnable host with
                               | Some (true, _) => [networkd_enable_address host]
                               | _ => []
                               end) in
      let reload := make_operation reloadAddress "reload systemd-networkd" false (dedupeStrings deps) triggers
                      (networkdReloadCommand (networkdDeleteNames host)) None None source in
      let '(reconfigure, addresses) :=
        appendNetworkdReconfigureOperations (h_Name host) reloadAddress (ac_reconfigure acts) source in
      appendNetworkdPostReloadOperations host (ac_postReload acts) ([reloadAddress] ++ addresses)
        (operations ++ [reload] ++ reconfigure)
  end.

Definition networkd_enable (host : HostSpec) : list Node :=
  match networkdEnable host with
  | None => []
  | Some (enable, source) =>
      let desired := attrs [("name", GStr "systemd-networkd"); ("unit", GStr "systemd-networkd.service");
                            ("enabled", GBool enable); ("state", GStr (if enable then "running" else "stopped"))] in
      [make_node (h_Name host) (networkd_enable_address host) "service"
         (if enable then "enable systemd-networkd" else "disable systemd-networkd") source None desired
         (dedupeStrings (n_Address <$> networkd_nodes host)) "service"
         ("service." +:+ providerName [h_Name host; "systemd-networkd"]) desired]
  end.
End networkd.

(** ** Services *)

Record service_context := {
  sx_packages : gmap string string;
  sx_daemonReload : string;
}.

Definition service_address (sc : scope) (name : string) : string := keyed (scope_Prefix sc) ".services.service" name.

Definition service_deps (host : HostSpec) (cx : service_context) (sc : scope) (item : ManagedService) : list string :=
  dedupeStrings
    (lookup_dep (sx_packages cx) (ms_Package item)
     ++ install_dep host sc
     ++ (match unitAddresses host !! ms_Unit item with
         | Some unitAddress => [unitAddress] ++ (if nonempty (sx_daemonReload cx) then [sx_daemonReload cx] else [])
         | None => []
         end)
     ++ lookup_dep (unitChangeActionAddresses host) (ms_Unit item)).

Definition service_node (host : HostSpec) (cx : service_context) (sc : scope) (entry : string * ManagedService) : Node :=
  let '(name, item) := entry in
  let desired := in_component sc
    (attrs [("name", GStr (ms_Name item)); ("unit", GStr (ms_Unit item)); ("package", GStr (ms_Package item));
            ("state", GStr (ms_State item))]) in
  let desired := match ms_Enabled item with Some b => <["enabled" := GBool b]> desired | None => desired end in
  make_node (h_Name host) (service_address sc name) "service" ("manage service " +:+ ms_Name item) (ms_Source item)
    (lifecyclePtr (ms_Lifecycle item)) desired (service_deps host cx sc item) "service"
    ("service." +:+ scoped_name sc [ms_Name item]) desired.

(** The operation of a service whose state is [restarted] or [reloaded]. *)
Definition service_operation (host : HostSpec) (cx : service_context) (sc : scope) (entry : string * ManagedService)
  : list Operation :=
  let '(name, item) := entry in
  let run action :=
    [make_operation (service_address sc name +:+ "." +:+ action) (action +:+ " service " +:+ ms_Name item) false
       ([service_address sc name] ++ service_deps host cx sc item) [service_address sc name]
       ("systemctl " +:+ action +:+ " " +:+ ms_Unit item) None None (ms_Source item)] in
  if decide (ms_State item = "restarted") then run "restart"
  else if decide (ms_State item = "reloaded") then run "reload"
  else [].

Definition service_nodes (host : HostSpec) (cx : service_context) : list Node :=
  (service_node host cx (host_scope host) <$> sorted_entries (svs_Services (h_Services host)))
  ++ each_component host (fun sc c => service_node host cx sc <$> sorted_entries (svs_Services (ci_Services c))).

Definition service_operations (host : HostSpec) (cx : service_context) : list Operation :=
  (sorted_entries (svs_Services (h_Services host)) ≫= service_operation host cx (host_scope host))
  ++ each_component host (fun sc c => sorted_entries (svs_Services (ci_Services c)) ≫= service_operation host cx sc).

(** ** The host *)

Definition node_less (a b : Node) : bool := str_ltb (n_Address a) (n_Address b).
Definition operation_less (a b : Operation) : bool := str_ltb (op_Address a) (op_Address b).

Definition explicit_dependencies_of (host : HostSpec) : list ResourceDependencySpec :=
  h_ExplicitDependencies host ++ (h_Components host ≫= ci_ExplicitDependencies).

Section compile.
Variable range_keys : string -> gmap string string -> list string.

(** The nodes of the system, the Docker engine, the kernel, APT, the packages
    and nftables, after the two passes over them. *)
Definition engine_nodes (host : HostSpec) (dockerGraph : dockerEngineGraph) : list Node :=
  let refresh := (cache_refresh host dockerGraph).2 in
  let packages := packageAddresses host dockerGraph in
  wait_for_engine dockerGraph <$>
    ((wait_for_refresh host refresh <$>
        (system_nodes host ++ dg_Nodes dockerGraph ++ kernel_nodes host ++ all_apt_nodes host))
     ++ package_nodes host refresh
     ++ nftables_files host packages
     ++ nftables_enable host packages (nftables_operations host).2).

Definition service_context_of (host : HostSpec) (dockerGraph : dockerEngineGraph) : service_context :=
  {| sx_packages := packageAddresses host dockerGraph; sx_daemonReload := (daemon_reload host).2 |}.

Definition compiled_nodes (host : HostSpec) (dockerGraph : dockerEngineGraph)
    (scripts : list (list Node * list Operation)) : list Node :=
  engine_nodes host dockerGraph
  ++ each_component host (artifact_nodes host)
  ++ directory_nodes host ++ file_nodes host ++ concat scripts.*1 ++ secret_nodes host
  ++ group_nodes host ++ user_nodes host
  ++ unit_nodes host ++ all_dropin_nodes host (packageAddresses host dockerGraph)
  ++ networkd_nodes range_keys host ++ networkd_enable range_keys host
  ++ timer_service_nodes host (daemon_reload host).2
  ++ service_nodes host (service_context_of host dockerGraph).

(** The operations before and after those of networkd. *)
Definition early_operations (host : HostSpec) (dockerGraph : dockerEngineGraph)
    (scripts : list (list Node * list Operation)) : list Operation :=
  dg_Operations dockerGraph ++ (cache_refresh host dockerGraph).1 ++ (nftables_operations host).1
  ++ certificates_update host ++ concat scripts.*2.

Definition late_operations (host : HostSpec) (dockerGraph : dockerEngineGraph) : list Operation :=
  (daemon_reload host).1 ++ change_action_operations host (daemon_reload host).2
  ++ dropin_restart host "resolved" (all_resolved host)
  ++ dropin_restart host "journald" (all_journald host)
  ++ service_operations host (service_context_of host dockerGraph).

(** The nodes and operations before the explicit dependencies and the final
    order.  The table of repositories is still empty when the Docker engine is
    compiled. *)
Definition host_graph (host : HostSpec) : result compile_error (list Node * list Operation) :=
  dockerGraph ← dockerEngineNodes host ∅ (groupAddresses host) (userAddresses host);
  triggers ← scriptTriggers host;
  rootScripts ← root_scripts host triggers;
  acts ← collectActivations host;
  let scripts := component_scripts host triggers ++ rootScripts in
  operations ← networkd_operations range_keys host acts (early_operations host dockerGraph scripts);
  Ok (compiled_nodes host dockerGraph scripts, operations ++ late_operations host dockerGraph).

Definition compileHost (host : HostSpec) : result compile_error (list Node * list Operation) :=
  '(nodes, operations) ← host_graph host;
  let operations := set_op_Host (h_Name host) <$> operations in
  nodes ← map_err ExplicitDependency
            (applyExplicitDependencies (h_Name host) nodes (explicit_dependencies_of host));
  Ok (sort_by node_less nodes, sort_by operation_less operations).
End compile.
