(* ===== verification/GraphCompile.v ===== *)
(** * Compiling a program: [Compile] of [graph.go] *)
From S2P Require Import Prelude Sha256 GoValue GoStrings IR HostIR Graph GraphHelpers GraphSystemd GraphDocker GraphHost Schedule.

Inductive program_error :=
| CompileHost (e : compile_error)
| InvalidGraph (e : schedule_error).

Section compile.
Variable range_keys : string -> gmap string string -> list string.

Definition compile_step (g : list Node * list Operation) (host : HostSpec)
  : result program_error (list Node * list Operation) :=
  '(nodes, operations) ← map_err CompileHost (compileHost range_keys host);
  Ok (g.1 ++ nodes, g.2 ++ operations).

Definition Compile (program : Program) : result program_error ResourceGraph :=
  '(nodes, operations) ← fold_res compile_step (p_Hosts program) ([], []);
  let graph := {| g_Nodes := sort_by node_less nodes; g_Operations := sort_by operation_less operations |} in
  _ ← map_err InvalidGraph (Validate graph);
  Ok graph.
End compile.

(** ** A host that compiles

    One host that uses most sections: an APT repository with a key, a package,
    the Docker engine with a Compose project, nftables rules, networkd files
    with an activation, and a component with a user, a sensitive file that runs
    a script when it changes, a unit, a timer and a service.  The witnesses of
    the graph theorems are about it. *)

Definition no_summary : ContentSummary := {| SHA256 := ""; Bytes := 0 |}.

Definition example_file : ManagedFile :=
  {| mf_Path := "/etc/app.conf"; mf_Content := "token=hunter2"; mf_ContentVersion := ""; mf_ContentWriteOnly := false;
     mf_SourcePath := ""; mf_Owner := "app"; mf_Group := "app"; mf_Mode := "0600"; mf_Sensitive := true;
     mf_Ensure := "present";
     mf_OnChange := Some {| srf_Scope := "component"; srf_Name := "reload"; srf_DeclarationID := "d1"; srf_Source := no_source |};
     mf_Lifecycle := None; mf_Summary := contentSummary "token=hunter2"; mf_Source := no_source |}.

Definition example_script (name id : string) : ComponentScriptSpec :=
  {| cs_Name := name; cs_DeclarationID := id; cs_Mode := "once"; cs_Body := ""; cs_Interpreter := None;
     cs_Outputs := ["/run/" +:+ name]; cs_Run := "true"; cs_Content := ""; cs_Commands := None; cs_Sensitive := false;
     cs_Source := no_source |}.

Definition example_unit (name action : string) : SystemdUnit :=
  {| su_Name := name; su_Path := "/etc/systemd/system/" +:+ name; su_Content := "[Unit]"; su_SourcePath := "";
     su_Owner := "root"; su_Group := "root"; su_Mode := "0644"; su_Sensitive := false; su_Ensure := "present";
     su_ChangeAction := action; su_ChangeActionSource := no_source; su_Lifecycle := None;
     su_Summary := contentSummary "[Unit]"; su_Source := no_source |}.

Definition example_service : ManagedService :=
  {| ms_Name := "app"; ms_Unit := "app.service"; ms_Package := "curl"; ms_Enabled := Some true; ms_State := "restarted";
     ms_Lifecycle := None; ms_Source := no_source |}.

Definition example_component : ComponentInstanceSpec :=
  {| ci_Name := "app"; ci_Template := ""; ci_InputValues := ∅; ci_StagingRoot := "";
     ci_ArtifactType := "binary"; ci_Version := "1.0"; ci_Scripts := {["reload" := example_script "reload" "d1"]};
     ci_SelectedSource := Some {| asrc_Architecture := "amd64"; asrc_URL := "https://example.org/app"; asrc_SHA256 := "00";
                                  asrc_URLSensitive := true; asrc_SHA256Sensitive := false; asrc_Source := no_source |};
     ci_Extract := None; ci_Build := None;
     ci_Install := Some {| ins_Path := "/usr/local/bin/app"; ins_Owner := "root"; ins_Group := "root"; ins_Mode := "0755";
                           ins_Source := no_source |};
     ci_APT := zero_APTSpec; ci_Packages := zero_PackageSpec;
     ci_Files := {| fls_Files := {["/etc/app.conf" := example_file]}; fls_Source := no_source |};
     ci_Secrets := zero_SecretSpec; ci_Directories := zero_DirectorySpec;
     ci_Groups := {| grs_Groups := {["app" := {| mg_Name := "app"; mg_GID := ""; mg_System := true; mg_Ensure := "present";
                       mg_Lifecycle := None; mg_Source := no_source |}]}; grs_Source := no_source |};
     ci_Users := {| uss_Users := {["app" := {| mu_Name := "app"; mu_UID := ""; mu_PrimaryGroup := "app"; mu_Groups := None;
                      mu_System := true; mu_Home := "/"; mu_Shell := "/bin/sh"; mu_SSHAuthorizedKeys := Some ["key"];
                      mu_Ensure := "present"; mu_Lifecycle := None; mu_Source := no_source |}]}; uss_Source := no_source |};
     ci_Systemd := {| sd_Units := {["app.service" := example_unit "app.service" "restart"]}; sd_Networkd := None;
                      sd_Timers := {["app.timer" := {| tm_Name := "app.timer"; tm_Unit := example_unit "app.timer" ""; tm_Timer := ∅;
                                      tm_Install := ∅; tm_Enable := Some true; tm_State := "running"; tm_Source := no_source |}]};
                      sd_Resolved := None;
                      sd_Journald := Some {| jd_Unit := example_unit "journald.conf" ""; jd_Journal := ∅; jd_State := "running";
                                             jd_Source := no_source |};
                      sd_Source := no_source |};
     ci_Services := {| svs_Services := {["app" := example_service]}; svs_Source := no_source |};
     ci_Source := no_source; ci_ExplicitDependencies := [] |}.

Definition example_activation : NetworkdActivationSpec :=
  {| na_Reconfigure := ["br0"; "eth0"];
     na_PostReload := Some {| srf_Scope := "root"; srf_Name := "routes"; srf_DeclarationID := "d2"; srf_Source := no_source |};
     na_Source := no_source |}.

Definition example_networkd : NetworkdSpec :=
  {| nw_Enable := Some true;
     nw_NetDevs := {["br0" := {| nd_Label := "br0"; nd_Name := "br0"; nd_Path := "/etc/systemd/network/br0.netdev"; nd_NetDev := ∅;
       nd_WireGuard := ∅; nd_WireGuardPeers := ∅; nd_Sections := []; nd_ContentMode := "raw"; nd_SourcePath := "";
       nd_Owner := "root"; nd_Group := "root"; nd_Mode := "0644"; nd_Sensitive := false; nd_Ensure := "present";
       nd_Activation := None; nd_Lifecycle := None; nd_Summary := no_summary; nd_Content := "[NetDev]"; nd_Source := no_source |}]};
     nw_Networks := {["br0" := {| nn_Label := "br0"; nn_Path := "/etc/systemd/network/br0.network"; nn_Match := ∅; nn_Network := ∅;
       nn_Sections := []; nn_ContentMode := ""; nn_SourcePath := ""; nn_Owner := "root"; nn_Group := "root"; nn_Mode := "0644";
       nn_Sensitive := false; nn_Ensure := "present"; nn_Activation := Some example_activation; nn_Lifecycle := None;
       nn_Summary := no_summary; nn_Content := "[Match]"; nn_Source := no_source |}]};
     nw_Source := no_source |}.

Definition example_docker : DockerSpec :=
  {| dk_Enable := true;
     dk_Package := {| dp_Source := "official"; dp_Channel := "stable"; dp_Version := None; dp_RepositoryURL := ""; dp_GPGURL := "";
       dp_GPGSHA256 := ""; dp_RemoveConflicts := "auto"; dp_SourceRef := no_source; dp_RepositoryURLSet := false;
       dp_GPGURLSet := false |};
     dk_Service := {| ds_Enable := true; ds_State := "running"; ds_Name := "docker"; ds_SourceRef := no_source |};
     dk_Daemon := Some {| dd_Settings := {["debug" := GBool true]}; dd_Source := no_source; dd_Summary := no_summary |};
     dk_Users := ["app"];
     dk_Composes := {["web" := {| dc_Name := "web"; dc_Enable := true; dc_State := "running"; dc_Directory := "/srv/web";
       dc_Project := "web";
       dc_File := Some {| df_Label := "file"; df_Path := "/srv/web/compose.yml"; df_Content := "services: {}"; df_SourcePath := "";
         df_Owner := "root"; df_Group := "root"; df_Mode := "0644"; df_Sensitive := false; df_Summary := no_summary;
         df_Source := no_source |};
       dc_EnvFiles := ∅; dc_Pull := "missing"; dc_Recreate := "auto"; dc_RemoveOrphans := false;
       dc_Service := {| dcs_Enable := true; dcs_Name := "web" |}; dc_After := ["docker.service"]; dc_WantedBy := ["multi-user.target"];
       dc_Source := no_source |}]};
     dk_Source := no_source |}.

Definition example_rules : NftablesFileSpec :=
  {| nf_Label := "main"; nf_Path := "/etc/nftables.conf"; nf_Content := "table inet filter {}"; nf_SourcePath := "";
     nf_Owner := "root"; nf_Group := "root"; nf_Mode := "0644"; nf_Sensitive := false; nf_Validate := true; nf_Activate := true;
     nf_Ensure := "present"; nf_Lifecycle := None; nf_Summary := no_summary; nf_Source := no_source |}.

Definition example_host : HostSpec :=
  {| h_Name := "web"; h_Source := no_source; h_Facts := {| System := no_facts |};
     h_SSH := zero_SSHSpec; h_State := zero_StateSpec; h_Staging := None; h_Moves := [];
     h_Platform := Some {| pf_Distribution := "debian"; pf_Version := "12"; pf_Architecture := "amd64"; pf_Codename := "bookworm";
                           pf_Source := no_source |};
     h_System := zero_SystemSpec; h_Kernel := zero_KernelSpec;
     h_Packages := {| pks_Install := [{| pk_Name := "curl"; pk_Repositories := []; pk_ConffilePolicy := "";
       pk_ConffilePolicySet := false; pk_Lifecycle := None; pk_Source := no_source |}]; pks_Source := no_source |};
     h_APT := zero_APTSpec; h_Files := zero_FileSpec; h_Secrets := zero_SecretSpec; h_Directories := zero_DirectorySpec;
     h_Groups := zero_GroupSpec; h_Users := zero_UserSpec;
     h_Systemd := {| sd_Units := ∅; sd_Networkd := Some example_networkd; sd_Timers := ∅; sd_Resolved := None;
                     sd_Journald := None; sd_Source := no_source |};
     h_Services := zero_ServiceSpec;
     h_Nftables := {| nft_Enable := Some true; nft_Main := Some example_rules; nft_Files := ∅; nft_Source := no_source |};
     h_Docker := Some example_docker; h_Scripts := {["routes" := example_script "routes" "d2"]};
     h_Components := [example_component]; h_ExplicitDependencies := [] |}.

(** One order of map iteration, the sorted one. *)
Definition in_order (address : string) (m : gmap string string) : list string := sorted_keys m.

Definition example_program : Program := {| p_Hosts := [example_host] |}.
Definition example_graph : list Node * list Operation :=
  match fold_res (compile_step in_order) (p_Hosts example_program) ([], []) with Ok r => r | Err _ => ([], []) end.

Example example_sizes : (length example_graph.1, length example_graph.2) = (36, 15)%nat.
Proof. vm_compute. reflexivity. Qed.

Definition compiled_example : list Node * list Operation :=
  match compileHost in_order example_host with Ok r => r | Err _ => ([], []) end.

(** A result known to be a success, without writing it out. *)
Lemma ok_or {E A} (r : result E A) (d : A) : is_ok r = true -> r = Ok (match r with Ok a => a | Err _ => d end).
Proof. by destruct r. Qed.

Lemma example_host_compiles : compileHost in_order example_host = Ok compiled_example.
Proof. apply ok_or. vm_compute. reflexivity. Qed.

Lemma example_program_compiles :
  fold_res (compile_step in_order) (p_Hosts example_program) ([], []) = Ok example_graph.
Proof. apply ok_or. vm_compute. reflexivity. Qed.
