(* ===== verification/GraphClosed.v ===== *)
(** * The dependencies of a compiled host

    One induction serves two theorems.  [P] is a set of addresses closed under
    "all dependencies are in [P]"; walking the sections of [host_graph] in
    dependency order shows that every dependency and every trigger is in [P].
    With [P] the addresses of the graph this is closedness; with [P] the
    addresses from which no infinite chain of dependencies starts it is
    acyclicity. *)
From S2P Require Import Prelude Sha256 GoValue GoStrings IR HostIR Graph GraphHelpers GraphSystemd GraphDocker GraphHost.

(** ** Lemmas on the compilation of a host

    Address tables, the loops over the components, the attributes of node and
    operation literals, and what the post-reload scripts do to the operations
    compiled before them. *)

(** *** Tables *)

Lemma table_lookup {V} (l : list (string * V)) k v : table l !! k = Some v -> (k, v) ∈ l.
Proof.
  unfold table. assert (H : forall m : gmap string V, fold_left (fun m p => <[p.1 := p.2]> m) l m !! k = Some v ->
    (k, v) ∈ l \/ m !! k = Some v).
  { induction l as [|[k' v'] l IH]; intros m; cbn; [by right|].
    intros [H|H]%IH; [left; by right|]. apply lookup_insert_Some in H as [[<- <-]|[_ H]]; [left; left|by right]. }
  intros [?|Hk]%H; [done|]. by rewrite lookup_empty in Hk.
Qed.

Lemma elem_of_lookup_dep (t : gmap string string) k a : a ∈ lookup_dep t k <-> t !! k = Some a.
Proof. unfold lookup_dep. destruct (t !! k); cbn; [|set_solver]. rewrite list_elem_of_singleton. naive_solver. Qed.

Lemma elem_of_each_component {A} (host : HostSpec) (f : scope -> ComponentInstanceSpec -> list A) x :
  x ∈ each_component host f <-> exists c, c ∈ h_Components host /\ x ∈ f (component_scope host c) c.
Proof. unfold each_component. rewrite list_elem_of_bind. naive_solver. Qed.

Lemma elem_of_key_entries {V} sc kind (m : gmap string V) k a :
  (k, a) ∈ key_entries sc kind m -> a = keyed (scope_Prefix sc) kind k /\ exists v, (k, v) ∈ sorted_entries m.
Proof.
  intros (k' & [= -> ->] & Hk)%list_elem_of_fmap. split; [done|].
  apply elem_of_sorted_keys in Hk as [v Hv]. exists v. by apply elem_of_sorted_entries.
Qed.

(** *** Literals *)

Section literals.
Context (host address kind summary : string) (source : SourceRef) (lifecycle : option LifecycleSpec).
Context (desired payload : gomap) (deps : list string) (ptype paddress : string).

Lemma node_address : n_Address (make_node host address kind summary source lifecycle desired deps ptype paddress payload) = address.
Proof. done. Qed.
Lemma node_deps : n_DependsOn (make_node host address kind summary source lifecycle desired deps ptype paddress payload) = deps.
Proof. done. Qed.
End literals.

(** *** Post-reload scripts *)

Lemma operationIndex_Some ops a i :
  operationIndex ops a = Some i -> exists o, ops !! i = Some o /\ op_Address o = a.
Proof.
  unfold operationIndex. destruct (list_find _ ops) as [[j o]|] eqn:E; [|done]. intros [= <-].
  apply list_find_Some in E as (Hj & Ho & _). eauto.
Qed.

Lemma operationIndex_None ops a : operationIndex ops a = None -> forall o, o ∈ ops -> op_Address o <> a.
Proof.
  unfold operationIndex. destruct (list_find _ ops) as [[j o]|] eqn:E; [done|]. intros _ x Hx Ha.
  apply list_find_None in E. rewrite Forall_forall in E. by apply (E x Hx).
Qed.

(** The address of the script a group runs, when it resolves. *)
Definition group_address (host : HostSpec) (g : networkdPostReloadGroup) : option string :=
  match networkdPostReloadScript host g with Ok (_, a) => Some a | Err _ => None end.

Section post_reload.
Context (host : HostSpec) (after : list string) (initial : list Operation) (triggers : list string).

(** An operation as the groups before it left it: its dependencies come from
    the networkd operations, the scripts [before], the triggers of the groups,
    or from an operation compiled earlier under the same address. *)
Record touched (before : list string) (o : Operation) : Prop := {
  tc_deps : forall d, d ∈ op_DependsOn o ->
    d ∈ after \/ d ∈ before \/ d ∈ triggers
    \/ exists o0, o0 ∈ initial /\ op_Address o0 = op_Address o /\ d ∈ op_DependsOn o0;
  tc_triggers : forall t, t ∈ op_TriggeredBy o ->
    t ∈ triggers \/ exists o0, o0 ∈ initial /\ op_Address o0 = op_Address o /\ t ∈ op_TriggeredBy o0;
}.

Record post_reloaded (scripts : list string) (ops : list Operation) : Prop := {
  pr_kept : forall o, o ∈ initial -> op_Address o ∉ scripts -> o ∈ ops;
  pr_addresses : forall o, o ∈ initial -> op_Address o ∈ op_Address <$> ops;
  pr_scripts : forall a, a ∈ scripts -> a ∈ op_Address <$> ops;
  pr_origin : forall o, o ∈ ops -> o ∈ initial \/
    exists before after', scripts = before ++ op_Address o :: after' /\ touched before o;
}.

Lemma touched_weaken before more o : touched before o -> touched (before ++ more) o.
Proof. intros [H1 H2]. split; [|done]. intros d Hd. apply H1 in Hd. set_solver. Qed.

Lemma post_reloaded_initial : post_reloaded [] initial.
Proof. split; [done|by intros; apply list_elem_of_fmap_2|set_solver|by left]. Qed.

(** An existing operation is given the triggers of a group. *)
Definition join_group (previous group : list string) (op : Operation) : Operation :=
  set_op_DependsOn (dedupeStrings (op_DependsOn op ++ after ++ previous))
    (set_op_TriggeredBy (dedupeStrings (op_TriggeredBy op ++ group)) op).

Lemma touched_join previous group o :
  group ⊆ triggers ->
  o ∈ initial \/ (exists before after', previous = before ++ op_Address o :: after' /\ touched before o) ->
  touched previous (join_group previous group o).
Proof.
  intros Hgroup Ho.
  assert (Hold : (forall d, d ∈ op_DependsOn o -> d ∈ after \/ d ∈ previous \/ d ∈ triggers
    \/ exists o0, o0 ∈ initial /\ op_Address o0 = op_Address o /\ d ∈ op_DependsOn o0)
    /\ (forall t, t ∈ op_TriggeredBy o ->
    t ∈ triggers \/ exists o0, o0 ∈ initial /\ op_Address o0 = op_Address o /\ t ∈ op_TriggeredBy o0)).
  { destruct Ho as [Hin|(before & after' & -> & [H1 H2])]; [split; intros; repeat right; eauto|].
    split; [|done]. intros d Hd. apply H1 in Hd. set_solver. }
  destruct Hold as [Hdeps Htrig].
  split; cbn [op_Address op_DependsOn op_TriggeredBy join_group set_op_DependsOn set_op_TriggeredBy].
  - intros d [[Hd|[Hd|Hd]%elem_of_app]%elem_of_app _]%elem_of_dedupeStrings; auto.
  - intros t [[Ht|Ht]%elem_of_app _]%elem_of_dedupeStrings; auto.
Qed.

Lemma post_reload_step scripts ops entry ops' scripts' :
  post_reloaded scripts ops -> pg_Triggers entry.2 ⊆ triggers ->
  post_reload_operation host after (ops, scripts) entry = Ok (ops', scripts') ->
  post_reloaded scripts' ops' /\ exists a, group_address host entry.2 = Some a /\ scripts' = scripts ++ [a].
Proof.
  intros [Hkept Haddr Hscr Horig] Htrig. unfold post_reload_operation, group_address.
  destruct (networkdPostReloadScript host entry.2) as [[script a]|e]; [|done]. rewrite Ok_bind.
  destruct (operationIndex ops a) as [i|] eqn:Ei; intros [= <- <-]; (split; [|by eexists]).
  - apply operationIndex_Some in Ei as (o & Hi & <-).
    fold (join_group scripts (pg_Triggers entry.2)).
    assert (Haddrs : op_Address <$> alter (join_group scripts (pg_Triggers entry.2)) i ops = op_Address <$> ops).
    { rewrite (list_fmap_alter op_Address _ id) by (by apply Forall_true). by apply list_alter_id. }
    assert (Hin : forall x, x ∈ alter (join_group scripts (pg_Triggers entry.2)) i ops ->
      x ∈ ops \/ x = join_group scripts (pg_Triggers entry.2) o).
    { intros x [j Hj]%list_elem_of_lookup_1. rewrite list_lookup_alter in Hj. case_decide as Hij.
      - subst j. rewrite Hi in Hj. injection Hj as <-. by right.
      - left. by eapply list_elem_of_lookup_2. }
    split.
    + intros x Hx Hnot. rewrite elem_of_app, list_elem_of_singleton in Hnot.
      assert (Hops : x ∈ ops) by (apply Hkept; naive_solver). apply list_elem_of_lookup_1 in Hops as [j Hj].
      apply list_elem_of_lookup. exists j. rewrite list_lookup_alter_ne; [done|]. intros <-.
      rewrite Hj in Hi. injection Hi as ->. naive_solver.
    + intros x Hx. rewrite Haddrs. auto.
    + intros x [Hx| ->%list_elem_of_singleton]%elem_of_app; rewrite Haddrs; [auto|].
      apply list_elem_of_fmap_2. by eapply list_elem_of_lookup_2.
    + intros x [Hx| ->]%Hin.
      * destruct (Horig x Hx) as [?|(before & after' & -> & Ht)]; [by left|]. right.
        exists before, (after' ++ [op_Address o]). by rewrite <- app_assoc.
      * right. exists scripts, []. split; [done|]. apply touched_join; [done|].
        apply Horig. by eapply list_elem_of_lookup_2.
  - set (op := set_op_Host _ _). split.
    + intros x Hx Hnot. apply elem_of_app. left. apply Hkept; set_solver.
    + intros x Hx. rewrite fmap_app. apply elem_of_app. auto.
    + intros x [Hx| ->%list_elem_of_singleton]%elem_of_app; rewrite fmap_app; apply elem_of_app; [auto|].
      right. left.
    + intros x [Hx| ->%list_elem_of_singleton]%elem_of_app.
      * destruct (Horig x Hx) as [?|(before & after' & -> & Ht)]; [by left|]. right.
        exists before, (after' ++ [a]). by rewrite <- app_assoc.
      * right. exists scripts, []. split; [done|]. unfold op. split; cbn.
        -- intros d [[?|[?|?]%elem_of_app]%elem_of_app _]%elem_of_dedupeStrings; auto.
        -- intros t [? _]%elem_of_dedupeStrings. auto.
Qed.

Lemma post_reload_fold entries : forall scripts ops ops' scripts',
  post_reloaded scripts ops -> (forall e, e ∈ entries -> pg_Triggers e.2 ⊆ triggers) ->
  fold_res (post_reload_operation host after) entries (ops, scripts) = Ok (ops', scripts') ->
  post_reloaded scripts' ops' /\ scripts' = scripts ++ omap (fun e => group_address host e.2) entries.
Proof.
  induction entries as [|e entries IH]; intros scripts ops ops' scripts' Hpr Htrig; cbn [fold_res].
  { intros [= <- <-]. by rewrite app_nil_r. }
  destruct (post_reload_operation host after (ops, scripts) e) as [[ops1 scripts1]|] eqn:E; [|done].
  apply post_reload_step in E as (Hpr1 & a & Ha & ->); [|done|apply Htrig; left].
  intros H. apply IH in H as [Hpr' ->]; [|done|intros; apply Htrig; by right].
  split; [done|]. cbn. by rewrite Ha, <- app_assoc.
Qed.

End post_reload.

(** *** What a successful compilation of the Docker engine looks like *)

Definition node_is (n : Node) (host address : string) (deps : list string) : Prop :=
  n_Host n = host /\ n_Address n = address /\ n_DependsOn n = deps.
Definition operation_is (o : Operation) (address : string) (deps triggers : list string) : Prop :=
  op_Address o = address /\ op_DependsOn o = deps /\ op_TriggeredBy o = triggers.

Section addresses.
Context (host : HostSpec).
Definition docker_prefix : string := "host." +:+ h_Name host.
Definition docker_key : string := keyed docker_prefix ".docker.apt.signing_key" dockerOfficialRepositoryName.
Definition docker_repository : string := keyed docker_prefix ".docker.apt.repository" dockerOfficialRepositoryName.
Definition docker_conflicts : string := docker_prefix +:+ ".docker.package_conflicts".
Definition docker_package (name : string) : string := keyed docker_prefix ".docker.package" name.
Definition docker_daemon : string := keyed docker_prefix ".docker.daemon.file" "/etc/docker/daemon.json".
Definition docker_restart : string := "host." +:+ h_Name host +:+ ".docker.daemon.restart".
Definition docker_service : string := keyed docker_prefix ".docker.service" "docker".

(** The nodes of the official repository. *)
Definition official_shape (out : dockerEngineGraph) : Prop :=
  exists key repository conflicts package,
    dg_Nodes out = [key; repository; conflicts] ++ (package <$> dockerOfficialPackages)
    /\ node_is key (h_Name host) docker_key []
    /\ node_is repository (h_Name host) docker_repository [docker_key]
    /\ node_is conflicts (h_Name host) docker_conflicts []
    /\ (forall p, node_is (package p) (h_Name host) (docker_package p) [docker_repository; docker_conflicts])
    /\ dg_RepositoryTriggers out = [docker_key; docker_repository]
    /\ dg_PackageAddresses out = docker_package <$> dockerOfficialPackages.

Lemma docker_official_inv docker repositories out :
  docker_official host docker repositories = Ok out -> official_shape out.
Proof.
  unfold docker_official. intros H. res_inv. destruct x3 as [url gpg]. res_inv.
  do 3 eexists. exists (fun pkg => make_node (h_Name host) (docker_package pkg) "package"
    ("install docker package " +:+ pkg) (dp_SourceRef (dk_Package docker)) None
    (attrs [("name", GStr pkg); ("ensure", GStr "present"); ("repositories", GStrs [dockerOfficialRepositoryName])])
    [docker_repository; docker_conflicts] "package"
    ("package." +:+ providerName [h_Name host; "docker"; pkg])
    (attrs [("name", GStr pkg); ("ensure", GStr "present"); ("repositories", GStrs [dockerOfficialRepositoryName])])).
  split; [cbn [dg_Nodes]; f_equal; unfold docker_conflicts, docker_prefix; by rewrite str_app_assoc|].
  split_and!; done.
Qed.

(** The daemon configuration, if there is one. *)
Definition daemon_shape (packages : list string) (dg : dockerEngineGraph) (nodes : list Node)
    (operations : list Operation) : Prop :=
  (nodes = [] /\ operations = [] /\ dg_DaemonFileAddress dg = "")
  \/ exists n o, nodes = [n] /\ operations = [o] /\ dg_DaemonFileAddress dg = docker_daemon
     /\ node_is n (h_Name host) docker_daemon (dedupeStrings packages)
     /\ operation_is o docker_restart (dedupeStrings [docker_daemon; docker_service]) [docker_daemon].

Record engine_shape (groups users : gmap string string) (docker : DockerSpec) (dg out : dockerEngineGraph)
    (daemon_nodes : list Node) (service : Node) (compose_nodes : list Node)
    (daemon_operations compose_operations : list Operation) : Prop := {
  es_out : out = no_docker \/ official_shape out;
  es_nodes : dg_Nodes dg = dg_Nodes out ++ dockerUserMembershipNodes host docker groups users ++ daemon_nodes
                           ++ [service] ++ compose_nodes;
  es_operations : dg_Operations dg = daemon_operations ++ compose_operations;
  es_triggers : dg_RepositoryTriggers dg = dg_RepositoryTriggers out;
  es_packages : dg_PackageAddresses dg = dg_PackageAddresses out;
  es_service : dg_ServiceAddress dg = docker_service;
  es_service_node : node_is service (h_Name host) docker_service [];
  es_daemon : daemon_shape (dg_PackageAddresses out) dg daemon_nodes daemon_operations;
  es_compose : exists project_service validates,
    (project_service = docker_service \/ project_service = "") /\
    dockerComposeGraph host docker (dg_PackageAddresses out) docker_service project_service
    = Ok (compose_nodes, compose_operations, validates);
}.

Lemma dockerEngineNodes_inv repositories groups users dg :
  dockerEngineNodes host repositories groups users = Ok dg ->
  dg = no_docker \/ exists docker out dn service cn dops cops,
    engine_shape groups users docker dg out dn service cn dops cops.
Proof.
  unfold dockerEngineNodes. destruct (h_Docker host) as [docker|]; [|by intros [= <-]; left].
  destruct (dk_Enable docker); cbn [negb]; [|by intros [= <-]; left]. intros H.
  apply bind_Ok in H as (? & _ & H). apply bind_Ok in H as (? & _ & H). apply bind_Ok in H as (? & _ & H).
  apply bind_Ok in H as (out & Hout & H). right. exists docker, out.
  assert (Hshape : out = no_docker \/ official_shape out).
  { case_bool_decide; [right; by eapply docker_official_inv|left; by injection Hout as <-]. }
  unfold dockerDaemonGraph in H. destruct (dk_Daemon docker) as [daemon|].
  - apply bind_Ok in H as ([[cn cops] validates] & Hc & [= <-]).
    eexists [_], _, cn, [_], cops. split; [done|reflexivity|reflexivity|done|done|done|done| |].
    + right. do 2 eexists. split; [reflexivity|]. split; [reflexivity|]. split; [done|]. by split.
    + do 2 eexists. split; [|exact Hc]. case_bool_decide; auto.
  - apply bind_Ok in H as ([[cn cops] validates] & Hc & [= <-]).
    eexists [], _, cn, [], cops. split; [done|reflexivity|reflexivity|done|done|done|done| |].
    + by left.
    + do 2 eexists. split; [|exact Hc]. case_bool_decide; auto.
Qed.

End addresses.

(** *** Compose projects *)

Section compose.
Context (host : string) (packages : list string) (fileService projectService : string).

Lemma compose_fold entries : forall ns0 ops0 v0 ns ops v,
  fold_res (compose_step host packages fileService projectService) entries (ns0, ops0, v0) = Ok (ns, ops, v) ->
  ns0 ⊆ ns /\ ops0 ⊆ ops /\
  (forall n, n ∈ ns -> n ∈ ns0 \/ exists name c pn po a,
     compose_project host packages fileService projectService name c = Ok (pn, po, a)
     /\ n ∈ pn /\ pn ⊆ ns /\ po ⊆ ops) /\
  (forall o, o ∈ ops -> o ∈ ops0 \/ exists name c pn po a,
     compose_project host packages fileService projectService name c = Ok (pn, po, a)
     /\ o ∈ po /\ pn ⊆ ns /\ po ⊆ ops).
Proof.
  induction entries as [|[name c] entries IH]; intros ns0 ops0 v0 ns ops v; cbn [fold_res].
  { intros [= <- <- <-]. split_and!; auto. }
  unfold compose_step at 1. destruct (dc_Enable c); [|by apply IH].
  destruct (compose_project host packages fileService projectService name c) as [[[pn po] a]|] eqn:Hp; [|done].
  rewrite Ok_bind. intros H. apply IH in H as (Hn & Ho & Hns & Hops). split_and!; [set_solver..| |].
  - intros n Hin. destruct (Hns n Hin) as [[?|Hpn]%elem_of_app|?]; [by left| |by right].
    right. exists name, c, pn, po, a. split_and!; [done|done|set_solver..].
  - intros o Hin. destruct (Hops o Hin) as [[?|Hpo]%elem_of_app|?]; [by left| |by right].
    right. exists name, c, pn, po, a. split_and!; [done|done|set_solver..].
Qed.
End compose.

(** ** Addresses of a host *)

Definition host_prefix (host : HostSpec) : string := "host." +:+ h_Name host +:+ ".".
Definition belongs (host : HostSpec) (a : string) : Prop := strings_HasPrefix a (host_prefix host) = true.

Lemma belongs_iff host a : belongs host a <-> exists t, a = "host." +:+ h_Name host +:+ "." +:+ t.
Proof. unfold belongs, host_prefix. rewrite HasPrefix_iff. split; intros [t ->]; exists t; by rewrite !str_app_assoc. Qed.

(** The scopes of a host: itself and its components. *)
Inductive scope_of (host : HostSpec) : scope -> Prop :=
| scope_host : scope_of host (host_scope host)
| scope_component c : c ∈ h_Components host -> scope_of host (component_scope host c).

Lemma scope_of_Host host sc : scope_of host sc -> scope_Host sc = h_Name host.
Proof. by intros []. Qed.

(** An address of a scope, after the name of the host. *)
Lemma scope_rest host sc (r : string) :
  scope_of host sc -> exists t, scope_Prefix sc +:+ r = "host." +:+ h_Name host +:+ t
    /\ (t = r \/ exists u, t = ".components." +:+ u).
Proof.
  intros [|c Hc]; cbn [scope_Prefix host_scope component_scope].
  - exists r. rewrite !str_app_assoc. auto.
  - exists (".components." +:+ ci_Name c +:+ r). rewrite !str_app_assoc. eauto.
Qed.

Lemma keyed_belongs host sc kind key :
  scope_of host sc -> belongs host (keyed (scope_Prefix sc) (String "." kind) key).
Proof.
  intros Hsc. apply belongs_iff. unfold keyed.
  destruct (scope_rest host sc (String "." kind +:+ "[" +:+ strconv_Quote key +:+ "]") Hsc) as (t & -> & [->|[u ->]]).
  - by exists (kind +:+ "[" +:+ strconv_Quote key +:+ "]").
  - by exists ("components." +:+ u).
Qed.

Lemma host_belongs host r : belongs host ("host." +:+ h_Name host +:+ String "." r).
Proof. apply belongs_iff. by exists r. Qed.

Lemma belongs_app host a r : belongs host a -> belongs host (a +:+ r).
Proof. rewrite !belongs_iff. intros [t ->]. exists (t +:+ r). by rewrite !str_app_assoc. Qed.

Lemma HasPrefix_common p t q : strings_HasPrefix (p +:+ t) (p +:+ q) = strings_HasPrefix t q.
Proof.
  unfold strings_HasPrefix. induction p as [|c p IH]; [done|].
  change (String.prefix (String c (p +:+ q)) (String c (p +:+ t)) = String.prefix q t). cbn [String.prefix].
  destruct (ascii_dec c c) as [_|Hn]; [apply IH|by destruct Hn].
Qed.

(** The items of a section, at the host and at its components. *)
Section scopes.
Context {V : Type} (host : HostSpec) (at_host : list V) (at_component : ComponentInstanceSpec -> list V).

Inductive in_scopes : scope -> V -> Prop :=
| at_host_scope v : v ∈ at_host -> in_scopes (host_scope host) v
| at_component_scope c v : c ∈ h_Components host -> v ∈ at_component c -> in_scopes (component_scope host c) v.

Lemma in_scopes_scope sc v : in_scopes sc v -> scope_of host sc.
Proof. intros []; by constructor. Qed.

Lemma elem_of_scoped_bind {A} (f : scope -> V -> list A) x :
  x ∈ (at_host ≫= f (host_scope host)) ++ each_component host (fun sc c => at_component c ≫= f sc) <->
  exists sc v, in_scopes sc v /\ x ∈ f sc v.
Proof.
  rewrite elem_of_app, elem_of_each_component, list_elem_of_bind. split.
  - intros [(v & Hx & Hv)|(c & Hc & (v & Hx & Hv)%list_elem_of_bind)]; do 2 eexists; (split; [|exact Hx]); by constructor.
  - intros (sc & v & [v' Hv|c v' Hc Hv] & Hx); [left; eauto|right]. exists c. split; [done|].
    apply list_elem_of_bind. eauto.
Qed.

Lemma elem_of_scoped_fmap {A} (f : scope -> V -> A) x :
  x ∈ (f (host_scope host) <$> at_host) ++ each_component host (fun sc c => f sc <$> at_component c) <->
  exists sc v, in_scopes sc v /\ x = f sc v.
Proof.
  rewrite elem_of_app, elem_of_each_component, list_elem_of_fmap. split.
  - intros [(v & -> & Hv)|(c & Hc & (v & -> & Hv)%list_elem_of_fmap)]; do 2 eexists; (split; [|done]); by constructor.
  - intros (sc & v & [v' Hv|c v' Hc Hv] & ->); [left; eauto|right]. exists c. split; [done|].
    apply list_elem_of_fmap. eauto.
Qed.
End scopes.

(** A table of keyed addresses holds the addresses of the items. *)
Lemma key_table {V} (host : HostSpec) kind (at_host : gmap string V) (at_component : ComponentInstanceSpec -> gmap string V) k a :
  (k, a) ∈ key_entries (host_scope host) kind at_host
         ++ each_component host (fun sc c => key_entries sc kind (at_component c)) ->
  exists sc p, in_scopes host (sorted_entries at_host) (fun c => sorted_entries (at_component c)) sc p
    /\ a = keyed (scope_Prefix sc) kind p.1.
Proof.
  intros [Hin|(c & Hin & Hk)%elem_of_each_component]%elem_of_app.
  - apply elem_of_key_entries in Hin as (-> & v & Hv). exists (host_scope host), (k, v). split; [by constructor|done].
  - apply elem_of_key_entries in Hk as (-> & v & Hv). exists (component_scope host c), (k, v). split; [by constructor|done].
Qed.

(** Addresses that end in a quoted key; those of scripts do. *)
Definition last_char (a : string) : option ascii := last (String.list_ascii_of_string a).
Definition ends_bracket (a : string) : Prop := last_char a = Some "]"%char.

Lemma last_char_app p c s : last_char (p +:+ String c s) = last_char (String c s).
Proof.
  unfold last_char. induction p as [|d p IH]; [done|].
  change (last (d :: String.list_ascii_of_string (p +:+ String c s)) = last (String.list_ascii_of_string (String c s))).
  rewrite last_cons. rewrite IH. destruct (last (String.list_ascii_of_string (String c s))) eqn:E; [done|].
  by apply last_None in E.
Qed.

Lemma keyed_bracket p kind key : ends_bracket (keyed p kind key).
Proof.
  unfold ends_bracket, keyed. rewrite <- (str_app_assoc p), <- (str_app_assoc (p +:+ kind)).
  by rewrite <- str_app_assoc, last_char_app.
Qed.

Lemma host_not_bracket host c r :
  last_char (String c r) <> Some "]"%char -> ~ ends_bracket ("host." +:+ h_Name host +:+ String c r).
Proof. unfold ends_bracket. rewrite <- str_app_assoc, last_char_app. done. Qed.

(** ** Lists of dependencies *)

Section closed_lists.
Context (P : string -> Prop).

Definition table_in (t : gmap string string) : Prop := forall k a, t !! k = Some a -> P a.

Lemma Forall_dedupe l : Forall P l -> Forall P (dedupeStrings l).
Proof. rewrite !Forall_forall. intros H x [Hx _]%elem_of_dedupeStrings. auto. Qed.

Lemma Forall_lookup_dep t k : table_in t -> Forall P (lookup_dep t k).
Proof. intros Ht. apply Forall_forall. intros a Ha%elem_of_lookup_dep. by apply (Ht k). Qed.

Lemma Forall_ownership owner group users groups :
  table_in users -> table_in groups -> Forall P (ownershipDependencies owner group users groups).
Proof.
  intros Hu Hg. unfold ownershipDependencies. apply Forall_dedupe, Forall_app. split; case_bool_decide;
    try constructor; by apply Forall_lookup_dep.
Qed.

Lemma Forall_guarded (s : string) : P s -> Forall P (if nonempty s then [s] else []).
Proof. destruct (nonempty s); repeat constructor; done. Qed.

Lemma Forall_lookups (t : gmap string string) (keys : list string) : table_in t -> Forall P (keys ≫= lookup_dep t).
Proof.
  intros Ht. apply Forall_forall. intros a (k & Ha & _)%list_elem_of_bind.
  apply elem_of_lookup_dep in Ha. by apply (Ht k).
Qed.
End closed_lists.

Lemma Forall_cons_closed (P : string -> Prop) x l : P x -> Forall P l -> Forall P (x :: l).
Proof. by constructor. Qed.
Lemma Forall_app_closed (P : string -> Prop) l k : Forall P l -> Forall P k -> Forall P (l ++ k).
Proof. intros. by apply Forall_app. Qed.

Create HintDb closed.
#[export] Hint Resolve Forall_nil_2 Forall_cons_closed Forall_app_closed Forall_dedupe Forall_lookup_dep
  Forall_ownership Forall_guarded Forall_lookups : closed.
#[export] Hint Constructors scope_of : closed.

(** ** The walk *)

Section walk.
Context (range_keys : string -> gmap string string -> list string) (host : HostSpec).
Context (dg : dockerEngineGraph) (scripts : list (list Node * list Operation)).
Context (operations : list Operation).
Context (P : string -> Prop).

Local Abbreviation nodes := (compiled_nodes range_keys host dg scripts).
Local Abbreviation ops := (operations ++ late_operations host dg).

Context (HN : forall n, n ∈ nodes -> Forall P (n_DependsOn n) -> P (n_Address n)).
Context (HO : forall o, o ∈ ops -> Forall P (op_DependsOn o) -> P (op_Address o)).

(** Operations compiled before those of networkd; only scripts are changed by
    what follows. *)
Context (HE : forall o, o ∈ early_operations host dg scripts -> ~ ends_bracket (op_Address o) -> o ∈ operations).
Context (Hdocker : dockerEngineNodes host ∅ (groupAddresses host) (userAddresses host) = Ok dg).

(** What the walk shows of each node and operation. *)
Record node_ok (n : Node) : Prop := {
  no_host : n_Host n = h_Name host;
  no_address : belongs host (n_Address n);
  no_deps : Forall P (n_DependsOn n);
}.
Record op_ok (o : Operation) : Prop := {
  oo_address : belongs host (op_Address o);
  oo_deps : Forall P (op_DependsOn o);
  oo_triggers : Forall P (op_TriggeredBy o);
}.

Lemma node_closed n : n ∈ nodes -> node_ok n -> P (n_Address n).
Proof. intros Hn [_ _ Hd]. by apply HN. Qed.

Ltac in_nodes := unfold compiled_nodes; rewrite !elem_of_app; tauto.

(** *** Groups and users *)

Lemma group_ok n : n ∈ group_nodes host -> node_ok n.
Proof.
  intros (sc & [name item] & Hsc%in_scopes_scope & ->)%elem_of_scoped_fmap.
  split; [done|by apply keyed_belongs|constructor].
Qed.

Lemma groups_in : table_in P (groupAddresses host).
Proof.
  intros k a (sc & [name item] & Hsc & ->)%table_lookup%key_table.
  assert (Hn : group_node host sc (name, item) ∈ group_nodes host) by (apply elem_of_scoped_fmap; eauto).
  apply (node_closed (group_node host sc (name, item))); [in_nodes|by apply group_ok].
Qed.

Lemma user_node_ok sc name item : scope_of host sc -> node_ok (user_node host sc name item).
Proof.
  intros Hsc. split; [done|by apply keyed_belongs|]. cbn [n_DependsOn user_node make_node].
  assert (Hg := groups_in). auto with closed.
Qed.

Lemma users_in : table_in P (userAddresses host).
Proof.
  intros k a (sc & [name item] & Hsc & ->)%table_lookup%key_table.
  assert (Hn : user_node host sc name item ∈ user_nodes host).
  { apply elem_of_scoped_bind. exists sc, (name, item). split; [done|left]. }
  apply (node_closed (user_node host sc name item)); [in_nodes|].
  apply user_node_ok. by eapply in_scopes_scope.
Qed.

Lemma user_ok n : n ∈ user_nodes host -> node_ok n.
Proof.
  intros (sc & [name item] & Hsc & Hn)%elem_of_scoped_bind.
  assert (Hscope := in_scopes_scope _ _ _ _ _ Hsc). apply elem_of_cons in Hn as [->|(key & -> & Hkey)%list_elem_of_fmap].
  - by apply user_node_ok.
  - assert (Hu : P (user_address sc name)).
    { apply (node_closed (user_node host sc name item)); [|by apply user_node_ok].
      assert (user_node host sc name item ∈ user_nodes host); [|in_nodes].
      apply elem_of_scoped_bind. exists sc, (name, item). split; [done|left]. }
    split; [done|by apply belongs_app, keyed_belongs|by repeat constructor].
Qed.

Hint Resolve groups_in users_in : closed.

Lemma owned_in owner group : Forall P (owned_by host owner group).
Proof. unfold owned_by. auto with closed. Qed.
Hint Resolve owned_in : closed.

(** *** Directories, files and secrets *)

Lemma directory_ok n : n ∈ directory_nodes host -> node_ok n.
Proof.
  intros (sc & [path item] & Hsc%in_scopes_scope & ->)%elem_of_scoped_fmap.
  split; [done|by apply keyed_belongs|]. cbn [n_DependsOn directory_node make_node]. auto with closed.
Qed.

Lemma file_node_ok sc entry : scope_of host sc -> node_ok (file_node host sc entry).
Proof.
  intros Hsc. destruct entry as [path item]. unfold file_node. destruct (fileResourceDesiredPayload _) as [desired payload].
  split; [done|by apply keyed_belongs|]. cbn [n_DependsOn make_node]. auto with closed.
Qed.

Lemma file_address_of sc entry : n_Address (file_node host sc entry) = file_address sc entry.1.
Proof. destruct entry as [path item]. unfold file_node. by destruct (fileResourceDesiredPayload _). Qed.

Lemma secret_node_ok sc entry : scope_of host sc -> node_ok (secret_node host sc entry).
Proof.
  intros Hsc. destruct entry as [path item]. unfold secret_node. destruct (fileResourceDesiredPayload _) as [desired payload].
  split; [done|by apply keyed_belongs|]. cbn [n_DependsOn make_node]. auto with closed.
Qed.

Lemma secret_address_of sc entry :
  n_Address (secret_node host sc entry) = keyed (scope_Prefix sc) ".secrets.file" entry.1.
Proof. destruct entry as [path item]. unfold secret_node. by destruct (fileResourceDesiredPayload _). Qed.

Lemma file_ok n : n ∈ file_nodes host -> node_ok n.
Proof. intros (sc & e & Hsc%in_scopes_scope & ->)%elem_of_scoped_fmap. by apply file_node_ok. Qed.

Lemma secret_ok n : n ∈ secret_nodes host -> node_ok n.
Proof. intros (sc & e & Hsc%in_scopes_scope & ->)%elem_of_scoped_fmap. by apply secret_node_ok. Qed.

Local Abbreviation files_at := (in_scopes host (sorted_entries (fls_Files (h_Files host)))
  (fun c => sorted_entries (fls_Files (ci_Files c)))).
Local Abbreviation secrets_at := (in_scopes host (sorted_entries (secs_Files (h_Secrets host)))
  (fun c => sorted_entries (secs_Files (ci_Secrets c)))).

Lemma file_in sc e : files_at sc e -> P (file_address sc e.1).
Proof.
  intros Hsc. rewrite <- file_address_of.
  assert (file_node host sc e ∈ file_nodes host) by (apply elem_of_scoped_fmap; eauto).
  apply node_closed; [in_nodes|]. apply file_node_ok. by eapply in_scopes_scope.
Qed.

Lemma secret_in sc e : secrets_at sc e -> P (keyed (scope_Prefix sc) ".secrets.file" e.1).
Proof.
  intros Hsc. rewrite <- secret_address_of.
  assert (secret_node host sc e ∈ secret_nodes host) by (apply elem_of_scoped_fmap; eauto).
  apply node_closed; [in_nodes|]. apply secret_node_ok. by eapply in_scopes_scope.
Qed.

Lemma managed_files_in : table_in P (managedFileAddresses host).
Proof.
  intros k a Ha. apply table_lookup in Ha. rewrite !elem_of_app in Ha.
  assert (H : forall V sc kind (m : gmap string V), (k, a) ∈ key_entries sc kind m ->
            exists v, (k, v) ∈ sorted_entries m /\ a = keyed (scope_Prefix sc) kind k).
  { intros V sc kind m (-> & v & Hv)%elem_of_key_entries. eauto. }
  destruct Ha as [(v & Hv & ->)%H|[(v & Hv & ->)%H|(c & Hc & Hin)%elem_of_each_component]].
  - apply (file_in _ (k, v)). by constructor.
  - apply (secret_in _ (k, v)). by constructor.
  - apply elem_of_app in Hin as [(v & Hv & ->)%H|(v & Hv & ->)%H].
    + apply (file_in _ (k, v)). by constructor.
    + apply (secret_in _ (k, v)). by constructor.
Qed.
Hint Resolve managed_files_in : closed.

(** *** Component artifacts *)

Section artifact.
Context (c : ComponentInstanceSpec) (Hc : c ∈ h_Components host).
Context (source : ComponentArtifactSourceSpec) (install : ComponentArtifactInstallSpec).
Context (Hparts : artifact_parts c = Some (source, install)).
Local Abbreviation sc := (component_scope host c).

Lemma artifact_in n :
  n ∈ [download_node host sc c source] ++ from_option (build_nodes host sc c source) [] (source_build c)
      ++ [install_node host sc c source install] -> n ∈ nodes.
Proof.
  intros Hn. assert (n ∈ each_component host (artifact_nodes host)); [|in_nodes].
  apply elem_of_each_component. exists c. split; [done|]. unfold artifact_nodes. by rewrite Hparts.
Qed.

Lemma download_ok : node_ok (download_node host sc c source).
Proof.
  unfold download_node. set (desired := attrs _).
  destruct (if componentArtifactSourceSensitive source then _ else _) as [d p].
  split; [done|by apply keyed_belongs; auto with closed|]. cbn [n_DependsOn make_node].
  destruct (strings_HasPrefix _ _); auto with closed.
Qed.

Lemma download_in : P (download_address sc source).
Proof.
  replace (download_address sc source) with (n_Address (download_node host sc c source)).
  - apply node_closed; [|apply download_ok]. apply artifact_in. left.
  - unfold download_node. by destruct (if componentArtifactSourceSensitive source then _ else _).
Qed.

Lemma build_ok build n : source_build c = Some build -> n ∈ build_nodes host sc c source build -> node_ok n.
Proof.
  intros Hb. assert (Hall : forall m, m ∈ build_nodes host sc c source build -> m ∈ nodes).
  { intros m Hm. apply artifact_in. rewrite Hb. cbn [from_option]. rewrite !elem_of_app. auto. }
  unfold build_nodes in *. revert Hall. set (desired := redactComponentArtifactSourceFields _ _ _ _). intros Hall.
  assert (Hpkg : forall pkg, pkg ∈ bld_Packages build -> node_ok (build_package_node host sc c build pkg)).
  { intros pkg _. split; [done|by apply keyed_belongs; auto with closed|constructor]. }
  intros [(pkg & -> & Hpkgs)%list_elem_of_fmap| ->%list_elem_of_singleton]%elem_of_app; [by apply Hpkg|].
  split; [done|by apply keyed_belongs; auto with closed|]. cbn [n_DependsOn make_node].
  apply Forall_dedupe, Forall_app. split; [repeat constructor; apply download_in|].
  apply Forall_fmap, Forall_forall. intros pkg Hin. change (P (n_Address (build_package_node host sc c build pkg))).
  apply node_closed; [|by apply Hpkg]. apply Hall, elem_of_app. left. by apply list_elem_of_fmap_2.
Qed.

Lemma build_in build : source_build c = Some build -> P (build_address sc c).
Proof.
  intros Hb. assert (Hin : exists n, n ∈ build_nodes host sc c source build /\ n_Address n = build_address sc c).
  { unfold build_nodes. eexists. split; [apply elem_of_app; right; left|done]. }
  destruct Hin as (n & Hn & <-). apply node_closed; [|by apply (build_ok build)].
  apply artifact_in. rewrite Hb. cbn [from_option]. rewrite !elem_of_app. auto.
Qed.

Lemma install_ok : node_ok (install_node host sc c source install).
Proof.
  unfold install_node. assert (Hd := download_in). assert (Hb := build_in).
  destruct (source_build c) as [build|]; split; try done; try (apply keyed_belongs; auto with closed);
    cbn [n_DependsOn make_node]; apply Forall_dedupe, Forall_app; (split; [|auto with closed]); repeat constructor.
  - by apply (Hb build).
  - done.
Qed.

Lemma install_in : P (install_address sc install).
Proof.
  replace (install_address sc install) with (n_Address (install_node host sc c source install)).
  - apply node_closed; [|apply install_ok]. apply artifact_in. rewrite !elem_of_app. right. right. left.
  - unfold install_node. by destruct (source_build c).
Qed.
End artifact.

Lemma artifact_ok n : n ∈ each_component host (artifact_nodes host) -> node_ok n.
Proof.
  intros (c & Hc & Hn)%elem_of_each_component. unfold artifact_nodes in Hn.
  destruct (artifact_parts c) as [[source install]|] eqn:Hparts; [|by apply elem_of_nil in Hn].
  rewrite !elem_of_app, !list_elem_of_singleton in Hn. destruct Hn as [->|[Hn| ->]].
  - by apply download_ok.
  - destruct (source_build c) as [build|] eqn:Hb; [|by apply elem_of_nil in Hn]. by eapply build_ok.
  - by apply install_ok.
Qed.

Lemma installs_in : table_in P (componentArtifactInstallAddresses host).
Proof.
  intros k a (c & Hc & Hin)%table_lookup%elem_of_each_component. unfold install_entries in Hin.
  destruct (artifact_parts c) as [[source install]|] eqn:Hparts; cbn in Hin; [|by apply elem_of_nil in Hin].
  apply list_elem_of_singleton in Hin as [= -> ->]. by apply (install_in c Hc source).
Qed.
Hint Resolve installs_in : closed.

Lemma install_dep_in sc : Forall P (install_dep host sc).
Proof. unfold install_dep. destruct (scope_Component sc); auto with closed. Qed.
Hint Resolve install_dep_in : closed.

Lemma owned_unit_in sc item : Forall P (owned_unit host sc item).
Proof. unfold owned_unit. auto with closed. Qed.
Hint Resolve owned_unit_in : closed.

(** *** The passes over the engine nodes *)

Local Abbreviation refresh := ((cache_refresh host dg).2).
Definition waiting (n : Node) : Node := wait_for_engine dg (wait_for_refresh host refresh n).

Lemma wait_refresh_address n : n_Address (wait_for_refresh host refresh n) = n_Address n.
Proof. unfold wait_for_refresh. by destruct (_ && _). Qed.
Lemma wait_engine_address n : n_Address (wait_for_engine dg n) = n_Address n.
Proof. unfold wait_for_engine. by destruct (_ && _). Qed.
Lemma wait_refresh_host n : n_Host (wait_for_refresh host refresh n) = n_Host n.
Proof. unfold wait_for_refresh. by destruct (_ && _). Qed.
Lemma wait_engine_host n : n_Host (wait_for_engine dg n) = n_Host n.
Proof. unfold wait_for_engine. by destruct (_ && _). Qed.

Lemma first_engine_in n :
  n ∈ system_nodes host ++ dg_Nodes dg ++ kernel_nodes host ++ all_apt_nodes host -> waiting n ∈ nodes.
Proof.
  intros Hn. assert (waiting n ∈ engine_nodes host dg); [|in_nodes].
  unfold engine_nodes, waiting. apply list_elem_of_fmap_2. apply elem_of_app. left. by apply list_elem_of_fmap_2.
Qed.

Lemma second_engine_in n :
  n ∈ package_nodes host refresh ++ nftables_files host (packageAddresses host dg)
      ++ nftables_enable host (packageAddresses host dg) (nftables_operations host).2 ->
  wait_for_engine dg n ∈ nodes.
Proof.
  intros Hn. assert (wait_for_engine dg n ∈ engine_nodes host dg); [|in_nodes].
  unfold engine_nodes. apply list_elem_of_fmap_2. apply elem_of_app. by right.
Qed.

(** Addresses the passes leave alone, by what follows the name of the host. *)
Definition unpassed (t : string) : Prop :=
  strings_HasPrefix t ".docker.package[" = false /\ t <> keyed "" ".docker.service" "docker".

Definition service_is_docker : Prop :=
  dg_ServiceAddress dg = "" \/ dg_ServiceAddress dg = keyed ("host." +:+ h_Name host) ".docker.service" "docker".

Lemma not_docker_service t :
  service_is_docker -> t <> keyed "" ".docker.service" "docker" ->
  nonempty (dg_ServiceAddress dg) && bool_decide ("host." +:+ h_Name host +:+ t = dg_ServiceAddress dg) = false.
Proof.
  intros [->| ->] Ht; [done|]. apply andb_false_iff. right. apply bool_decide_eq_false. intros Heq. apply Ht.
  unfold keyed in *. rewrite !str_app_assoc in Heq. by apply str_app_inv_l, str_app_inv_l in Heq.
Qed.

Lemma unpassed_waiting n t :
  service_is_docker -> n_Address n = "host." +:+ h_Name host +:+ t -> unpassed t -> waiting n = n.
Proof.
  intros Hs Ha [Hp Hd]. assert (Hw : wait_for_refresh host refresh n = n).
  { unfold wait_for_refresh. rewrite Ha.
    replace ("host." +:+ h_Name host +:+ ".docker.package[") with (("host." +:+ h_Name host) +:+ ".docker.package[")
      by by rewrite str_app_assoc.
    replace ("host." +:+ h_Name host +:+ t) with (("host." +:+ h_Name host) +:+ t) by by rewrite str_app_assoc.
    by rewrite HasPrefix_common, Hp, andb_false_r. }
  unfold waiting, wait_for_engine. rewrite Hw, Ha. by rewrite not_docker_service.
Qed.

(** Sections whose addresses are not Docker's are never passed. *)
Lemma scope_unpassed sc c r :
  scope_of host sc -> c <> "d"%char ->
  exists t, scope_Prefix sc +:+ String "." (String c r) = "host." +:+ h_Name host +:+ t /\ unpassed t.
Proof.
  intros Hsc Hc. destruct (scope_rest host sc (String "." (String c r)) Hsc) as (t & Ht & Hr). exists t. split; [done|].
  destruct Hr as [->|[u ->]]; split; try done.
  - destruct (strings_HasPrefix _ _) eqn:E; [|done]. apply HasPrefix_iff in E as [t' E]. by injection E as -> _.
  - intros E. by injection E as -> _.
Qed.

(** *** APT *)

Lemma Hservice : service_is_docker.
Proof.
  destruct (dockerEngineNodes_inv _ _ _ _ _ Hdocker) as [Hno|(docker & out & dn & service & cn & dops & cops & H)]; [left; by rewrite Hno|].
  right. apply (es_service _ _ _ _ _ _ _ _ _ _ _ H).
Qed.
Hint Resolve Hservice : closed.

Lemma apt_shape n sc apt :
  scope_of host sc -> n ∈ apt_nodes sc apt ->
  n_Host n = h_Name host /\ (exists kind key, n_Address n = keyed (scope_Prefix sc) (".apt." +:+ kind) key)
  /\ forall d, d ∈ n_DependsOn n -> exists m, m ∈ apt_nodes sc apt /\ n_Address m = d /\ n_DependsOn m = [].
Proof.
  intros Hsc Hn. assert (Hhost := scope_of_Host _ _ Hsc).
  assert (Hkey : forall name item key, n_Host (signing_key_node sc name item key) = scope_Host sc
    /\ n_Address (signing_key_node sc name item key) = signing_key_address sc name
    /\ n_DependsOn (signing_key_node sc name item key) = []).
  { intros. unfold signing_key_node. by destruct (contentResourceDesiredPayload _ _ _ _ _). }
  unfold apt_nodes in *. apply elem_of_app in Hn as [([name item] & Hn & Hin)%list_elem_of_bind|([label item] & -> & Hin)%list_elem_of_fmap].
  - unfold repository_nodes in Hn. destruct (ar_SigningKey item) as [key|] eqn:Ek.
    + destruct (Hkey name item key) as (Hh & Ha & Hd). rewrite elem_of_cons, list_elem_of_singleton in Hn.
      destruct Hn as [->| ->].
      * rewrite Hh, Ha, Hd. split; [done|split; [by exists "signing_key", name|set_solver]].
      * split; [done|split; [by exists "repository", name|]]. cbn. intros d ->%list_elem_of_singleton.
        exists (signing_key_node sc name item key). split; [|done]. apply elem_of_app. left.
        apply list_elem_of_bind. exists (name, item). split; [|done]. unfold repository_nodes. rewrite Ek. left.
    + apply list_elem_of_singleton in Hn as ->. split; [done|split; [by exists "repository", name|cbn; set_solver]].
  - unfold source_file_node. destruct (if bool_decide _ then _ else _) as [desired payload].
    split; [done|split; [by exists "source_file", label|cbn; set_solver]].
Qed.

Lemma apt_unpassed n sc apt : scope_of host sc -> n ∈ apt_nodes sc apt -> waiting n = n.
Proof.
  intros Hsc Hn. destruct (apt_shape n sc apt Hsc Hn) as (_ & (kind & key & Ha) & _).
  destruct (scope_unpassed sc "a" ("pt." +:+ kind +:+ "[" +:+ strconv_Quote key +:+ "]") Hsc) as (t & Ht & Hu); [done|].
  apply (unpassed_waiting n t); [apply Hservice| |done]. rewrite Ha, <- Ht. unfold keyed. by rewrite !str_app_assoc.
Qed.

Lemma elem_of_all_apt n :
  n ∈ all_apt_nodes host <-> exists sc apt, scope_of host sc /\ n ∈ apt_nodes sc apt
    /\ forall m, m ∈ apt_nodes sc apt -> m ∈ all_apt_nodes host.
Proof.
  split; [|intros (sc & apt & _ & Hn & Hall); by apply Hall].
  intros [Hn|(c & Hc & Hn)%elem_of_each_component]%elem_of_app.
  - exists (host_scope host), (h_APT host). split; [constructor|split; [done|]]. intros m Hm. apply elem_of_app. by left.
  - exists (component_scope host c), (ci_APT c). split; [by constructor|split; [done|]]. intros m Hm.
    apply elem_of_app. right. apply elem_of_each_component. eauto.
Qed.

Lemma apt_ok n : n ∈ all_apt_nodes host -> node_ok n /\ P (n_Address n).
Proof.
  intros (sc & apt & Hsc & Hn & Hall)%elem_of_all_apt.
  assert (Hin : forall m, m ∈ apt_nodes sc apt -> m ∈ nodes).
  { intros m Hm. rewrite <- (apt_unpassed m sc apt) by done. apply first_engine_in. rewrite !elem_of_app. auto. }
  assert (Hok : forall m, m ∈ apt_nodes sc apt -> Forall P (n_DependsOn m) -> node_ok m).
  { intros m Hm Hd. destruct (apt_shape m sc apt Hsc Hm) as (Hh & (kind & key & Ha) & _).
    split; [done| |done]. rewrite Ha. by apply keyed_belongs. }
  assert (Hd : Forall P (n_DependsOn n)).
  { apply Forall_forall. intros d Hd. destruct (apt_shape n sc apt Hsc Hn) as (_ & _ & Hdeps).
    destruct (Hdeps d Hd) as (m & Hm & <- & Hnil). apply node_closed; [by apply Hin|]. apply Hok; [done|].
    rewrite Hnil. constructor. }
  split; [by apply Hok|]. apply node_closed; [by apply Hin|by apply Hok].
Qed.

(** *** The Docker engine *)

Lemma early_closed o :
  o ∈ early_operations host dg scripts -> ~ ends_bracket (op_Address o) -> op_ok o -> P (op_Address o).
Proof. intros Ho Hb [_ Hd _]. apply HO; [|done]. apply elem_of_app. left. by apply HE. Qed.

Lemma late_closed o : o ∈ late_operations host dg -> op_ok o -> P (op_Address o).
Proof. intros Ho [_ Hd _]. apply HO; [|done]. apply elem_of_app. by right. Qed.

Ltac in_early := unfold early_operations; rewrite !elem_of_app; tauto.
Ltac in_late := unfold late_operations; rewrite !elem_of_app; tauto.

Lemma docker_waiting n t :
  n ∈ dg_Nodes dg -> n_Address n = "host." +:+ h_Name host +:+ t -> unpassed t -> n ∈ nodes.
Proof.
  intros Hn Ha Ht. rewrite <- (unpassed_waiting n t Hservice Ha Ht). apply first_engine_in.
  rewrite !elem_of_app. auto.
Qed.

Lemma docker_keyed kind key : keyed (docker_prefix host) kind key = "host." +:+ h_Name host +:+ keyed "" kind key.
Proof. unfold keyed, docker_prefix. by rewrite !str_app_assoc. Qed.

Lemma node_is_ok n host' address deps :
  node_is n host' address deps -> host' = h_Name host -> belongs host address -> Forall P deps -> node_ok n.
Proof. intros (Hh & Ha & Hd) -> Hb Hf. split; [done|by rewrite Ha|by rewrite Hd]. Qed.

Lemma docker_belongs kind key : belongs host (keyed (docker_prefix host) (String "." kind) key).
Proof. apply (keyed_belongs host (host_scope host)). constructor. Qed.

(** The repository of the engine: it triggers the refresh of the cache. *)
Lemma docker_repository_in :
  dg_RepositoryTriggers dg = [] \/
  (P (docker_key host) /\ P (docker_repository host) /\ P (docker_conflicts host)
   /\ dg_RepositoryTriggers dg = [docker_key host; docker_repository host]).
Proof.
  destruct (dockerEngineNodes_inv _ _ _ _ _ Hdocker) as [Hno|(docker & out & dn & service & cn & dops & cops & H)]; [left; by rewrite Hno|].
  destruct (es_out _ _ _ _ _ _ _ _ _ _ _ H) as [->|(key & repo & conf & pkg & Hn & Hk & Hr & Hc & _ & Ht & _)].
  { left. by rewrite (es_triggers _ _ _ _ _ _ _ _ _ _ _ H). }
  right. assert (Hin : forall n, n ∈ [key; repo; conf] -> n ∈ dg_Nodes dg).
  { intros n Hin. rewrite (es_nodes _ _ _ _ _ _ _ _ _ _ _ H), Hn, !elem_of_app. auto. }
  assert (Pk : P (docker_key host)).
  { destruct Hk as (Hh & Ha & Hd). rewrite <- Ha. apply node_closed; [|split; [done|rewrite Ha; apply docker_belongs|by rewrite Hd; constructor]].
    apply (docker_waiting _ (keyed "" ".docker.apt.signing_key" dockerOfficialRepositoryName)); [apply Hin; left|by rewrite Ha; apply docker_keyed|by split]. }
  split_and!; [done| | |by rewrite (es_triggers _ _ _ _ _ _ _ _ _ _ _ H)].
  - destruct Hr as (Hh & Ha & Hd). rewrite <- Ha. apply node_closed; [|split; [done|rewrite Ha; apply docker_belongs|by rewrite Hd; auto with closed]].
    apply (docker_waiting _ (keyed "" ".docker.apt.repository" dockerOfficialRepositoryName)); [apply Hin; right; left|by rewrite Ha; apply docker_keyed|by split].
  - destruct Hc as (Hh & Ha & Hd). rewrite <- Ha. apply node_closed; [|split; [done| |by rewrite Hd; constructor]].
    + apply (docker_waiting _ ".docker.package_conflicts"); [apply Hin; do 2 right; left| |by split].
      rewrite Ha. unfold docker_conflicts, docker_prefix. by rewrite str_app_assoc.
    + rewrite Ha. unfold docker_conflicts, docker_prefix. rewrite str_app_assoc. apply host_belongs.
Qed.

Lemma triggers_in : Forall P (repositoryTriggers host dg).
Proof.
  unfold repositoryTriggers. apply Forall_app. split.
  { destruct docker_repository_in as [->|(? & ? & _ & ->)]; auto with closed. }
  apply Forall_forall. intros a Ha.
  assert (Hin : exists n, n ∈ all_apt_nodes host /\ n_Address n = a).
  { unfold apt_triggers in Ha. apply elem_of_app in Ha as [(n & -> & Hn)%list_elem_of_fmap|(c & Hc & (n & -> & Hn)%list_elem_of_fmap)%elem_of_each_component];
      exists n; (split; [|done]); apply elem_of_app; [by left|right; apply elem_of_each_component; eauto]. }
  destruct Hin as (n & Hn & <-). by apply apt_ok.
Qed.

Lemma cache_refresh_ok o : o ∈ (cache_refresh host dg).1 -> op_ok o.
Proof.
  unfold cache_refresh. assert (H := triggers_in). destruct (repositoryTriggers host dg) as [|t ts]; [by intros ?%elem_of_nil|].
  intros ->%list_elem_of_singleton. split; [apply host_belongs|done|done].
Qed.

Lemma refresh_in : refresh <> "" -> P refresh.
Proof.
  intros Hne. assert (Hin : exists o, o ∈ (cache_refresh host dg).1 /\ op_Address o = refresh).
  { unfold cache_refresh in *. destruct (repositoryTriggers host dg); [done|]. eexists. by split; [left|]. }
  assert (Ha : refresh = "host." +:+ h_Name host +:+ ".apt.cache_refresh").
  { unfold cache_refresh in *. by destruct (repositoryTriggers host dg). }
  destruct Hin as (o & Ho & Hoa). rewrite <- Hoa. apply early_closed; [in_early| |by apply cache_refresh_ok].
  rewrite Hoa, Ha. by apply host_not_bracket.
Qed.

Lemma guarded_in (s : string) l : (s <> "" -> P s) -> Forall P l -> Forall P (if nonempty s then l ++ [s] else l).
Proof.
  unfold nonempty. intros Hs Hl. case_bool_decide; cbn; [done|]. apply Forall_app. split; [done|]. repeat constructor. auto.
Qed.

Lemma guard_in (s : string) : (s <> "" -> P s) -> Forall P (if nonempty s then [s] else []).
Proof. unfold nonempty. intros Hs. case_bool_decide; cbn; repeat constructor. auto. Qed.

(** *** Packages *)

Lemma repositories_in : table_in P (repositoryAddresses host).
Proof.
  intros k a (sc & [name item] & Hsc & ->)%table_lookup%key_table.
  assert (Hn : exists n, n ∈ all_apt_nodes host /\ n_Address n = repository_address sc name).
  { assert (Hrep : forall sc apt, (name, item) ∈ sorted_entries (apt_Repositories apt) ->
      exists n, n ∈ apt_nodes sc apt /\ n_Address n = repository_address sc name).
    { intros sc' apt Hin. assert (H : exists n, n ∈ repository_nodes sc' (name, item) /\ n_Address n = repository_address sc' name).
      { unfold repository_nodes. destruct (ar_SigningKey item);
        [exists (repository_source_node sc' name item [signing_key_address sc' name])
        |exists (repository_source_node sc' name item [])]; (split; [|done]); [right; left|left]. }
      destruct H as (n & Hn & Ha). exists n. split; [|done]. apply elem_of_app. left. apply list_elem_of_bind. eauto. }
    inversion Hsc as [v Hv|c v Hc Hv]; subst.
    - destruct (Hrep (host_scope host) _ Hv) as (n & Hn & Ha). exists n. split; [|done]. apply elem_of_app. by left.
    - destruct (Hrep (component_scope host c) _ Hv) as (n & Hn & Ha). exists n. split; [|done]. apply elem_of_app. right.
      apply elem_of_each_component. eauto. }
  change (P (repository_address sc name)). destruct Hn as (n & Hn & <-). by apply apt_ok.
Qed.
Hint Resolve repositories_in : closed.

Lemma package_deps_in sc item : Forall P (n_DependsOn (package_node sc (repositoryAddresses host) refresh item)).
Proof.
  cbn [n_DependsOn package_node make_node]. apply Forall_dedupe.
  assert (H : Forall P (pk_Repositories item ≫= lookup_dep (repositoryAddresses host))) by auto with closed.
  destruct (pk_Repositories item ≫= _) as [|d ds]; [constructor|]. apply guarded_in; [apply refresh_in|done].
Qed.

Lemma wait_engine_package sc repositories r item :
  scope_of host sc -> wait_for_engine dg (package_node sc repositories r item) = package_node sc repositories r item.
Proof.
  intros Hsc. destruct (scope_unpassed sc "p" ("ackages.install" +:+ "[" +:+ strconv_Quote (pk_Name item) +:+ "]") Hsc)
    as (t & Ht & _ & Hu); [done|].
  unfold wait_for_engine.
  change (n_Address (package_node sc repositories r item)) with (scope_Prefix sc +:+ String "." (String "p"
    ("ackages.install" +:+ "[" +:+ strconv_Quote (pk_Name item) +:+ "]"))).
  rewrite Ht. by rewrite (not_docker_service t Hservice Hu).
Qed.

Lemma elem_of_package_nodes n :
  n ∈ package_nodes host refresh <->
  exists sc item, in_scopes host (pks_Install (h_Packages host)) (fun c => pks_Install (ci_Packages c)) sc item
    /\ n = package_node sc (repositoryAddresses host) refresh item.
Proof. apply (elem_of_scoped_fmap host _ _ (fun sc => package_node sc (repositoryAddresses host) refresh)). Qed.

Lemma package_ok_in n : n ∈ package_nodes host refresh -> n ∈ nodes /\ node_ok n.
Proof.
  intros Hn. assert (Hn' := Hn). apply elem_of_package_nodes in Hn' as (sc & item & Hsc%in_scopes_scope & ->). split.
  - rewrite <- (wait_engine_package sc (repositoryAddresses host) refresh item) by done.
    apply second_engine_in, elem_of_app. by left.
  - split; [by apply scope_of_Host|by apply keyed_belongs|apply package_deps_in].
Qed.

(** The packages of the engine wait for the repository and the refresh. *)
Lemma docker_packages_in : Forall P (dg_PackageAddresses dg).
Proof.
  destruct (dockerEngineNodes_inv _ _ _ _ _ Hdocker) as [Hno|(docker & out & dn & service & cn & dops & cops & H)].
  { rewrite Hno. constructor. }
  rewrite (es_packages _ _ _ _ _ _ _ _ _ _ _ H).
  destruct (es_out _ _ _ _ _ _ _ _ _ _ _ H) as [->|(key & repo & conf & pkg & Hn & _ & _ & _ & Hp & Ht & ->)]; [constructor|].
  destruct docker_repository_in as [Hnil|(_ & Hr & Hc & _)].
  { rewrite (es_triggers _ _ _ _ _ _ _ _ _ _ _ H), Ht in Hnil. done. }
  apply Forall_fmap, Forall_forall. intros name Hname. destruct (Hp name) as (Hh & Ha & Hd).
  assert (Hin : pkg name ∈ dg_Nodes dg).
  { rewrite (es_nodes _ _ _ _ _ _ _ _ _ _ _ H), Hn, !elem_of_app. left. right. by apply list_elem_of_fmap_2. }
  change (P (docker_package host name)). rewrite <- Ha. rewrite <- (wait_refresh_address (pkg name)).
  assert (Hwait : waiting (pkg name) = wait_for_refresh host refresh (pkg name)).
  { unfold waiting, wait_for_engine. rewrite wait_refresh_address, Ha. unfold docker_package. rewrite docker_keyed.
    rewrite not_docker_service; [done|apply Hservice|]. intros E. discriminate E. }
  rewrite <- Hwait. apply node_closed; [by apply first_engine_in; rewrite !elem_of_app; auto|]. rewrite Hwait. split.
  - by rewrite wait_refresh_host.
  - rewrite wait_refresh_address, Ha. apply docker_belongs.
  - unfold wait_for_refresh. destruct (nonempty refresh) eqn:Er; cbn [andb]; [|by rewrite Hd; auto with closed].
    assert (P refresh). { apply refresh_in. intros E. by rewrite E in Er. }
    destruct (strings_HasPrefix _ _); cbn [n_DependsOn set_n_DependsOn]; rewrite Hd; auto with closed.
Qed.

Lemma packages_in : table_in P (packageAddresses host dg).
Proof.
  intros k a Ha. apply table_lookup, elem_of_app in Ha as [Ha|Ha].
  - apply list_elem_of_filter in Ha as (_ & (x & [= -> ->] & Hx)%list_elem_of_fmap).
    assert (H := docker_packages_in). rewrite Forall_forall in H. by apply H.
  - assert (Hn : exists n, n ∈ package_nodes host refresh /\ n_Address n = a).
    { unfold package_entries in Ha. apply elem_of_app in Ha as [(item & [= -> ->] & Hi)%list_elem_of_fmap|
        (c & Hc & (item & [= -> ->] & Hi)%list_elem_of_fmap)%elem_of_each_component];
      [exists (package_node (host_scope host) (repositoryAddresses host) refresh item)
      |exists (package_node (component_scope host c) (repositoryAddresses host) refresh item)];
      (split; [|done]); apply elem_of_package_nodes; do 2 eexists; (split; [|reflexivity]); by constructor. }
    destruct Hn as (n & [Hn Hok]%package_ok_in & <-). by apply node_closed.
Qed.
Hint Resolve packages_in : closed.

(** *** The daemon configuration and the service of the engine *)

Lemma docker_daemon_in : dg_DaemonFileAddress dg <> "" -> P (dg_DaemonFileAddress dg).
Proof.
  intros Hne. destruct (dockerEngineNodes_inv _ _ _ _ _ Hdocker) as [Hno|(docker & out & dn & service & cn & dops & cops & H)].
  { by rewrite Hno in Hne. }
  destruct (es_daemon _ _ _ _ _ _ _ _ _ _ _ H) as [(_ & _ & E)|(n & o & -> & _ & E & (Hh & Ha & Hd) & _)]; [done|].
  rewrite E, <- Ha. apply node_closed.
  - apply (docker_waiting _ (keyed "" ".docker.daemon.file" "/etc/docker/daemon.json"));
      [|by rewrite Ha; apply docker_keyed|by split].
    rewrite (es_nodes _ _ _ _ _ _ _ _ _ _ _ H), !elem_of_app. do 2 right. left. left.
  - split; [done|rewrite Ha; apply docker_belongs|]. rewrite Hd. apply Forall_dedupe.
    rewrite <- (es_packages _ _ _ _ _ _ _ _ _ _ _ H). apply docker_packages_in.
Qed.

Lemma engine_deps_in : Forall P (dg_PackageAddresses dg ++ (if nonempty (dg_DaemonFileAddress dg)
                                                           then [dg_DaemonFileAddress dg] else [])).
Proof. apply Forall_app. split; [apply docker_packages_in|]. apply guard_in, docker_daemon_in. Qed.

Lemma wait_engine_deps n : Forall P (n_DependsOn n) -> Forall P (n_DependsOn (wait_for_engine dg n)).
Proof.
  intros Hn. unfold wait_for_engine. assert (H := engine_deps_in). destruct (_ && _); [|done].
  cbn [n_DependsOn set_n_DependsOn]. auto with closed.
Qed.

Lemma wait_refresh_deps n : Forall P (n_DependsOn n) -> Forall P (n_DependsOn (wait_for_refresh host refresh n)).
Proof.
  intros Hn. unfold wait_for_refresh. destruct (nonempty refresh) eqn:Er; cbn [andb]; [|done].
  destruct (strings_HasPrefix _ _); [|done]. cbn [n_DependsOn set_n_DependsOn]. apply Forall_dedupe, Forall_app.
  split; [done|]. repeat constructor. apply refresh_in. intros E. by rewrite E in Er.
Qed.

(** The nodes of the engine sections that wait for nothing but what is known
    already. *)
Lemma first_ok n :
  n ∈ system_nodes host ++ dg_Nodes dg ++ kernel_nodes host ++ all_apt_nodes host ->
  node_ok n -> node_ok (waiting n) /\ P (n_Address n).
Proof.
  intros Hin [Hh Ha Hd]. assert (Hok : node_ok (waiting n)).
  { unfold waiting. split; [by rewrite wait_engine_host, wait_refresh_host|by rewrite wait_engine_address, wait_refresh_address|].
    by apply wait_engine_deps, wait_refresh_deps. }
  split; [done|]. replace (n_Address n) with (n_Address (waiting n))
    by (unfold waiting; by rewrite wait_engine_address, wait_refresh_address).
  apply node_closed; [by apply first_engine_in|done].
Qed.

Lemma second_ok n :
  n ∈ package_nodes host refresh ++ nftables_files host (packageAddresses host dg)
      ++ nftables_enable host (packageAddresses host dg) (nftables_operations host).2 ->
  node_ok n -> node_ok (wait_for_engine dg n) /\ P (n_Address n).
Proof.
  intros Hin [Hh Ha Hd]. assert (Hok : node_ok (wait_for_engine dg n)).
  { split; [by rewrite wait_engine_host|by rewrite wait_engine_address|by apply wait_engine_deps]. }
  split; [done|]. rewrite <- wait_engine_address. apply node_closed; [by apply second_engine_in|done].
Qed.

Lemma docker_ok n : n ∈ dg_Nodes dg -> node_ok n -> node_ok (waiting n) /\ P (n_Address n).
Proof. intros Hn. apply first_ok. rewrite !elem_of_app. auto. Qed.

(** *** System and kernel *)

Lemma system_ok n : n ∈ system_nodes host -> node_ok n.
Proof.
  assert (H : forall attribute value, node_ok (system_node host attribute value)).
  { intros. split; [done| |constructor]. apply (host_belongs host ("system." +:+ attribute)). }
  unfold system_nodes. rewrite !elem_of_app. intros [Hn|[Hn|Hn]]; destruct (_ : bool) in Hn;
    apply list_elem_of_singleton in Hn || apply elem_of_nil in Hn; subst; done.
Qed.

Lemma modules_in : table_in P (moduleAddresses host).
Proof.
  intros k a (m & [= -> ->] & Hm)%table_lookup%list_elem_of_fmap.
  change (P (n_Address (module_node host m))).
  apply first_ok; [rewrite !elem_of_app; do 2 right; left; apply elem_of_app; left; by apply list_elem_of_fmap_2|].
  split; [done|by apply (keyed_belongs host (host_scope host)); constructor|constructor].
Qed.
Hint Resolve modules_in : closed.

Lemma kernel_ok n : n ∈ kernel_nodes host -> node_ok n.
Proof.
  intros [(m & -> & Hm)%list_elem_of_fmap|(p & -> & Hp)%list_elem_of_fmap]%elem_of_app.
  - split; [done|by apply (keyed_belongs host (host_scope host)); constructor|constructor].
  - split; [done|by apply (keyed_belongs host (host_scope host)); constructor|]. cbn [n_DependsOn sysctl_node make_node].
    case_bool_decide; auto with closed.
Qed.

(** *** nftables *)

Lemma nft_file_ok item : node_ok (nftablesFileNode (h_Name host) (nft_address host item) item
                                    (lookup_dep (packageAddresses host dg) "nftables")).
Proof.
  unfold nftablesFileNode. destruct (contentResourceDesiredPayload _ _ _ _ _) as [desired payload].
  split; [done|by apply (keyed_belongs host (host_scope host)); constructor|]. cbn [n_DependsOn make_node]. auto with closed.
Qed.

Lemma nft_triggers_in : Forall P (nft_address host <$> nft_items (h_Nftables host)).
Proof.
  apply Forall_fmap, Forall_forall. intros item Hi. cbn.
  replace (nft_address host item) with (n_Address (nftablesFileNode (h_Name host) (nft_address host item) item
    (lookup_dep (packageAddresses host dg) "nftables")))
    by (unfold nftablesFileNode; by destruct (contentResourceDesiredPayload _ _ _ _ _)).
  apply second_ok; [|apply nft_file_ok]. rewrite !elem_of_app. right. left. apply list_elem_of_fmap. by exists item.
Qed.

Local Abbreviation activate := ((nftables_operations host).2).

Lemma nft_ok_in o : o ∈ (nftables_operations host).1 -> op_ok o /\ P (op_Address o).
Proof.
  intros Ho. assert (Hearly : forall o, o ∈ (nftables_operations host).1 -> ~ ends_bracket (op_Address o) -> op_ok o -> P (op_Address o)).
  { intros x Hx. apply early_closed. in_early. }
  revert Ho Hearly. unfold nftables_operations. cbv zeta. assert (Ht := nft_triggers_in).
  destruct (nft_address host <$> nft_items (h_Nftables host)) as [|t ts]; [by intros ?%elem_of_nil|].
  destruct (nft_present nf_Validate (h_Nftables host)), (nft_present nf_Activate (h_Nftables host)); cbn [fst]; intros Ho Hearly.
  - assert (Hv : op_ok (make_operation ("host." +:+ h_Name host +:+ ".nftables.validate") "validate nftables ruleset"
      (existsb nf_Sensitive (nft_items (h_Nftables host))) (t :: ts) (t :: ts)
      ("nft -c -f " +:+ from_option nf_Path "/etc/nftables.conf" (nft_Main (h_Nftables host))) None None
      (first_source (nft_Source (h_Nftables host)) (nf_Source <$> nft_items (h_Nftables host))))).
    { split; [apply host_belongs|done|done]. }
    assert (Pv := Hearly _ ltac:(left) ltac:(by apply host_not_bracket) Hv).
    rewrite elem_of_cons, list_elem_of_singleton in Ho. destruct Ho as [->| ->]; [done|].
    match goal with |- op_ok ?o /\ _ => assert (Ha : op_ok o) end.
    { split; [apply host_belongs|by repeat constructor|done]. }
    split; [done|]. apply Hearly; [right; left|by apply host_not_bracket|done].
  - apply list_elem_of_singleton in Ho as ->.
    match goal with |- op_ok ?o /\ _ => assert (Ha : op_ok o) by (split; [apply host_belongs|done|done]) end.
    split; [done|]. apply Hearly; [left|by apply host_not_bracket|done].
  - apply list_elem_of_singleton in Ho as ->.
    match goal with |- op_ok ?o /\ _ => assert (Ha : op_ok o) by (split; [apply host_belongs|done|done]) end.
    split; [done|]. apply Hearly; [left|by apply host_not_bracket|done].
  - by apply elem_of_nil in Ho.
Qed.

Lemma nft_activate_in : activate <> "" -> P activate.
Proof.
  intros Hne. assert (Hin : exists o, o ∈ (nftables_operations host).1 /\ op_Address o = activate).
  { revert Hne. unfold nftables_operations. cbv zeta. destruct (nft_address host <$> nft_items (h_Nftables host)); [done|].
    destruct (nft_present nf_Validate (h_Nftables host)), (nft_present nf_Activate (h_Nftables host)); try done; intros _.
    - eexists. split; [right; left|done].
    - eexists. split; [left|done]. }
  destruct Hin as (o & Ho & <-). by apply nft_ok_in.
Qed.

Lemma nft_enable_ok n : n ∈ nftables_enable host (packageAddresses host dg) activate -> node_ok n.
Proof.
  unfold nftables_enable. destruct (nft_Enable (h_Nftables host)) as [enable|]; [|by intros ?%elem_of_nil].
  intros ->%list_elem_of_singleton. split; [done|apply host_belongs|]. cbn [n_DependsOn make_node].
  apply Forall_dedupe, Forall_app. split; [auto with closed|].
  destruct enable; cbn [andb]; [|constructor]. apply guard_in, nft_activate_in.
Qed.

(** *** Docker: memberships and projects *)

Lemma membership_ok docker n :
  (forall m, m ∈ dockerUserMembershipNodes host docker (groupAddresses host) (userAddresses host) -> m ∈ dg_Nodes dg) ->
  n ∈ dockerUserMembershipNodes host docker (groupAddresses host) (userAddresses host) -> node_ok n.
Proof.
  unfold dockerUserMembershipNodes. destruct (dk_Users docker) as [|u us]; [by intros _ ?%elem_of_nil|].
  assert (Hu := users_in). destruct (groupAddresses host !! "docker") as [a|] eqn:Ea; intros Hall.
  - intros (user & -> & Huser)%list_elem_of_fmap. split; [done|by apply (keyed_belongs host (host_scope host)); constructor|].
    cbn [n_DependsOn make_node]. apply Forall_dedupe, Forall_app. split; [|auto with closed].
    repeat constructor. by apply (groups_in "docker").
  - rewrite elem_of_app, list_elem_of_singleton.
    match goal with |- n = ?g \/ _ -> _ => assert (Hg : node_ok g) end.
    { split; [done|by apply (keyed_belongs host (host_scope host)); constructor|constructor]. }
    match type of Hg with node_ok ?g => assert (Pg : P (n_Address g)) by (apply (docker_ok g); [apply Hall; left|done]) end.
    intros [->|(user & -> & Huser)%list_elem_of_fmap]; [done|].
    split; [done|by apply (keyed_belongs host (host_scope host)); constructor|].
    cbn [n_DependsOn make_node]. apply Forall_dedupe, Forall_app. split; [|auto with closed]. by repeat constructor.
Qed.

Section project.
Context (projectService name : string) (compose : DockerComposeSpec) (pn : list Node) (po : list Operation) (a : string).
Context (Hservice_in : P (docker_service host)) (Hps : projectService = docker_service host \/ projectService = "").
Context (Hproject : compose_project (h_Name host) (dg_PackageAddresses dg) (docker_service host) projectService name compose
                    = Ok (pn, po, a)).
Context (Hpn : pn ⊆ dg_Nodes dg) (Hpo : po ⊆ dg_Operations dg).

Local Abbreviation prefix := (keyed ("host." +:+ h_Name host) ".docker.compose" name).

Lemma project_belongs r : belongs host (prefix +:+ r).
Proof. apply belongs_app. apply (keyed_belongs host (host_scope host)). constructor. Qed.

Lemma project_operation o c r :
  o ∈ po -> op_Address o = prefix +:+ String c r -> last_char (String c r) <> Some "]"%char ->
  Forall P (op_DependsOn o) -> Forall P (op_TriggeredBy o) -> op_ok o /\ P (op_Address o).
Proof.
  intros Ho Ha Hl Hd Ht. assert (Hok : op_ok o) by (split; [rewrite Ha; apply project_belongs|done|done]).
  split; [done|]. apply early_closed; [|by rewrite Ha; unfold ends_bracket; rewrite last_char_app|done].
  assert (o ∈ dg_Operations dg) by auto. in_early.
Qed.

Lemma compose_file_node_ok address item summary deps :
  belongs host address -> Forall P deps ->
  node_ok (dockerComposeFileNode (h_Name host) address name item summary deps)
  /\ n_Address (dockerComposeFileNode (h_Name host) address name item summary deps) = address.
Proof.
  intros Ha Hd. unfold dockerComposeFileNode. destruct (fileResourceDesiredPayload _) as [desired payload].
  split; [|done]. split; [done|done|]. cbn [n_DependsOn make_node]. auto with closed.
Qed.

Lemma project_service_in : Forall P (if nonempty projectService then [projectService] else []).
Proof. apply guard_in. intros Hne. by destruct Hps as [->| ->]. Qed.

Lemma project_ok : Forall node_ok pn /\ Forall op_ok po.
Proof.
  assert (Hproj := Hproject). unfold compose_project in Hproj. cbv zeta in Hproj.
  apply bind_Ok in Hproj as (file & _ & Hproj). assert (Hpkg := docker_packages_in). assert (Hpsi := project_service_in).
  destruct (compose_service _ _ _ _ _ _) as [[sn so] sa] eqn:Hsvc. injection Hproj as Hn Ho _.
  assert (Hnode : forall n, n ∈ pn -> node_ok n -> P (n_Address n)) by (intros n Hin; apply docker_ok; auto).
  rewrite <- Hn in Hnode |- *. rewrite <- Ho.
  assert (Hin : forall o, o ∈ [make_operation (prefix +:+ ".validate") ("validate docker compose project " +:+ dc_Project compose)
      false (dedupeStrings ((prefix +:+ ".file") :: ((fun p => keyed prefix ".env_file" p.1) <$> sorted_entries (dc_EnvFiles compose))))
      (dedupeStrings ((prefix +:+ ".file") :: ((fun p => keyed prefix ".env_file" p.1) <$> sorted_entries (dc_EnvFiles compose))))
      (dockerComposeConfigCommand compose) None None (dc_Source compose)] ++ so -> o ∈ po) by (intros o; by rewrite <- Ho).
  clear Hn Ho.
  (* the directory *)
  match goal with |- Forall _ (?d :: _) /\ _ => assert (Hdir : node_ok d) by (split; [done|apply project_belongs|constructor]);
    assert (Pdir : P (n_Address d)) by (apply Hnode; [left|done]) end. cbn [n_Address make_node] in Pdir.
  set (fileDeps := dedupeStrings _) in *.
  assert (HfileDeps : Forall P fileDeps).
  { apply Forall_dedupe. constructor; [done|]. apply Forall_app. split; [done|]. by repeat constructor. }
  (* the files *)
  destruct (compose_file_node_ok (prefix +:+ ".file") file "manage docker compose file" fileDeps (project_belongs _) HfileDeps) as [Hfile Afile].
  assert (Pfile : P (prefix +:+ ".file")) by (rewrite <- Afile; apply Hnode; [right; left|done]).
  assert (Henv : forall p, node_ok (dockerComposeFileNode (h_Name host) (keyed prefix ".env_file" p.1) name p.2
      ("manage docker compose env file " +:+ p.1) fileDeps)
    /\ n_Address (dockerComposeFileNode (h_Name host) (keyed prefix ".env_file" p.1) name p.2
      ("manage docker compose env file " +:+ p.1) fileDeps) = keyed prefix ".env_file" p.1).
  { intros p. apply compose_file_node_ok; [apply project_belongs|done]. }
  assert (Pfiles : Forall P ((prefix +:+ ".file") :: ((fun p => keyed prefix ".env_file" p.1) <$> sorted_entries (dc_EnvFiles compose)))).
  { constructor; [done|]. apply Forall_fmap, Forall_forall. intros p Hp. cbn. destruct (Henv p) as [Hok <-].
    apply Hnode; [|done]. do 2 right. rewrite !elem_of_app. left. apply list_elem_of_fmap. by exists p. }
  (* the validation *)
  match type of Hin with forall o, o ∈ [?v] ++ _ -> _ => destruct (project_operation v "." "validate") as [Hv Pv];
    [apply Hin; left|done|done|by apply Forall_dedupe|by apply Forall_dedupe|] end. cbn [op_Address make_operation] in Pv.
  (* the service *)
  assert (Hserv : Forall node_ok sn /\ Forall op_ok so /\ (sa <> "" -> P sa)).
  { revert Hsvc. unfold compose_service. cbv zeta. destruct (dcs_Enable (dc_Service compose)).
    2:{ intros [= <- <- <-]. split_and!; [constructor|constructor|done]. }
    intros [= <- <- <-].
    match goal with |- Forall _ [?u; ?s] /\ Forall _ [?r] /\ _ =>
      assert (Hu : node_ok u) by (split; [done|apply project_belongs|by constructor]);
      assert (Pu : P (n_Address u)) by (apply Hnode; [do 2 right; rewrite !elem_of_app; right; left; left|done]);
      cbn [n_Address make_node] in Pu;
      destruct (project_operation r "." "daemon_reload") as [Hr Pr];
        [apply Hin; right; left|done|done|by repeat constructor|by repeat constructor|];
      cbn [op_Address make_operation] in Pr;
      assert (Hs : node_ok s) by (split; [done|apply project_belongs|cbn [n_DependsOn make_node];
        apply Forall_dedupe; constructor; [done|]; constructor; done]);
      assert (Ps : P (n_Address s)) by (apply Hnode; [do 2 right; rewrite !elem_of_app; right; left; right; left|done])
    end.
    split_and!; [by apply Forall_cons_2; [|apply Forall_singleton]|by apply Forall_singleton|done]. }
  destruct Hserv as (Hsn & Hso & Psa).
  split.
  - constructor; [done|]. constructor; [done|]. apply Forall_app. split.
    { apply Forall_fmap, Forall_forall. intros p _. apply (Henv p). }
    apply Forall_app. split; [done|]. apply Forall_singleton. split; [done|apply project_belongs|].
    + cbn [n_DependsOn make_node]. apply Forall_dedupe. constructor; [done|].
      destruct (nonempty sa) eqn:Es; [|done]. repeat constructor. apply Psa. intros E. by rewrite E in Es.
  - by constructor.
Qed.
End project.

Lemma docker_service_in docker out dn service cn dops cops :
  engine_shape host (groupAddresses host) (userAddresses host) docker dg out dn service cn dops cops ->
  node_ok service /\ P (docker_service host).
Proof.
  intros H. destruct (es_service_node _ _ _ _ _ _ _ _ _ _ _ H) as (Hh & Ha & Hd).
  assert (Hok : node_ok service) by (split; [done|rewrite Ha; apply docker_belongs|by rewrite Hd; constructor]).
  split; [done|]. rewrite <- Ha. apply docker_ok; [|done].
  rewrite (es_nodes _ _ _ _ _ _ _ _ _ _ _ H), !elem_of_app. do 3 right. left. left.
Qed.

Lemma docker_all_ok : (forall n, n ∈ dg_Nodes dg -> node_ok n) /\ (forall o, o ∈ dg_Operations dg -> op_ok o).
Proof.
  destruct (dockerEngineNodes_inv _ _ _ _ _ Hdocker) as [Hno|(docker & out & dn & service & cn & dops & cops & H)].
  { rewrite Hno. split; intros x ?%elem_of_nil; done. }
  destruct (docker_service_in _ _ _ _ _ _ _ H) as [Hs Ps].
  destruct (es_compose _ _ _ _ _ _ _ _ _ _ _ H) as (ps & v & Hps & Hfold).
  unfold dockerComposeGraph in Hfold. apply compose_fold in Hfold as (_ & _ & Hcn & Hcops).
  assert (Hpkgs := es_packages _ _ _ _ _ _ _ _ _ _ _ H). rewrite <- Hpkgs in Hcn, Hcops.
  assert (Hin : forall n, n ∈ dg_Nodes out ++ dockerUserMembershipNodes host docker (groupAddresses host) (userAddresses host)
    ++ dn ++ [service] ++ cn -> n ∈ dg_Nodes dg) by (intros n; by rewrite (es_nodes _ _ _ _ _ _ _ _ _ _ _ H)).
  assert (Hops : forall o, o ∈ dops ++ cops -> o ∈ dg_Operations dg)
    by (intros o; by rewrite (es_operations _ _ _ _ _ _ _ _ _ _ _ H)).
  assert (Hproj : forall name c pn po a, compose_project (h_Name host) (dg_PackageAddresses dg) (docker_service host) ps name c
      = Ok (pn, po, a) -> pn ⊆ cn -> po ⊆ cops -> Forall node_ok pn /\ Forall op_ok po).
  { intros name c pn po a Hc Hpn Hpo. eapply (project_ok ps); [exact Ps|exact Hps|exact Hc| |].
    - intros n Hn. apply Hin. rewrite !elem_of_app. do 4 right. by apply Hpn.
    - intros o Ho. apply Hops, elem_of_app. right. by apply Hpo. }
  assert (Hdaemon := es_daemon _ _ _ _ _ _ _ _ _ _ _ H). split.
  - intros n. rewrite (es_nodes _ _ _ _ _ _ _ _ _ _ _ H), !elem_of_app, list_elem_of_singleton.
    intros [Hn|[Hn|[Hn|[->|Hn]]]].
    + destruct (es_out _ _ _ _ _ _ _ _ _ _ _ H) as [->|(key & repo & conf & pkg & E & Hk & Hr & Hc & Hp & Ht & _)];
        [by apply elem_of_nil in Hn|].
      destruct docker_repository_in as [Hnil|(Pk & Pr & Pc & _)].
      { rewrite (es_triggers _ _ _ _ _ _ _ _ _ _ _ H), Ht in Hnil. done. }
      rewrite E, elem_of_app, !elem_of_cons in Hn. destruct Hn as [[->|[->|[->|?%elem_of_nil]]]|(name & -> & _)%list_elem_of_fmap]; [..|done|].
      * eapply node_is_ok; [exact Hk|done|apply docker_belongs|constructor].
      * eapply node_is_ok; [exact Hr|done|apply docker_belongs|by repeat constructor].
      * eapply node_is_ok; [exact Hc|done| |constructor]. unfold docker_conflicts, docker_prefix.
        rewrite str_app_assoc. apply host_belongs.
      * eapply node_is_ok; [apply Hp|done|apply docker_belongs|by repeat constructor].
    + eapply membership_ok; [|exact Hn]. intros m Hm. apply Hin. rewrite !elem_of_app. auto.
    + destruct Hdaemon as [(-> & _)|(m & o & -> & _ & _ & Hm & _)]; [by apply elem_of_nil in Hn|].
      apply list_elem_of_singleton in Hn as ->. eapply node_is_ok; [exact Hm|done|apply docker_belongs|].
      rewrite <- Hpkgs. apply Forall_dedupe, docker_packages_in.
    + done.
    + destruct (Hcn n Hn) as [?%elem_of_nil|(name & c & pn & po & a & Hc & Hnp & Hpn & Hpo)]; [done|].
      destruct (Hproj _ _ _ _ _ Hc Hpn Hpo) as [Hall _]. rewrite Forall_forall in Hall. auto.
  - intros o. rewrite (es_operations _ _ _ _ _ _ _ _ _ _ _ H), elem_of_app. intros [Ho|Ho].
    + destruct Hdaemon as [(_ & -> & _)|(m & o' & _ & -> & E & _ & (Ha & Hd & Ht))]; [by apply elem_of_nil in Ho|].
      apply list_elem_of_singleton in Ho as ->. assert (Pd : P (docker_daemon host)).
      { rewrite <- E. apply docker_daemon_in. by rewrite E. }
      split; [rewrite Ha; apply (host_belongs host "docker.daemon.restart")|by rewrite Hd; auto with closed|by rewrite Ht; auto with closed].
    + destruct (Hcops o Ho) as [?%elem_of_nil|(name & c & pn & po & a & Hc & Hop & Hpn & Hpo)]; [done|].
      destruct (Hproj _ _ _ _ _ Hc Hpn Hpo) as [_ Hall]. rewrite Forall_forall in Hall. auto.
Qed.

(** The nodes of the engine sections. *)
Lemma engine_ok n : n ∈ engine_nodes host dg -> node_ok n.
Proof.
  unfold engine_nodes. intros (m & -> & [(k & -> & Hk)%list_elem_of_fmap|Hm]%elem_of_app)%list_elem_of_fmap.
  - change (node_ok (waiting k)). apply first_ok; [done|]. rewrite !elem_of_app in Hk. destruct Hk as [Hk|[Hk|[Hk|Hk]]].
    + by apply system_ok.
    + by apply docker_all_ok.
    + by apply kernel_ok.
    + by apply apt_ok.
  - apply second_ok; [done|]. rewrite !elem_of_app in Hm. destruct Hm as [Hm|[(item & -> & _)%list_elem_of_fmap|Hm]].
    + by apply package_ok_in.
    + apply nft_file_ok.
    + by apply nft_enable_ok.
Qed.
End walk.
