(* ===== verification/GraphClosedLate.v ===== *)
(** * The dependencies of a compiled host: scripts, systemd, networkd, services

    The second half of the walk that [GraphClosed] starts, over the sections
    compiled after the engine sections; it ends with the two statements the
    theorems use, [walk_nodes] and [walk_operations]. *)
From S2P Require Import Prelude Sha256 GoValue GoStrings IR HostIR Graph GraphHelpers GraphSystemd GraphDocker GraphHost GraphClosed.

Lemma NoDup_split_unique {A} (x : A) l1 : forall r1 l2 r2,
  NoDup (l1 ++ x :: r1) -> l1 ++ x :: r1 = l2 ++ x :: r2 -> l1 = l2.
Proof.
  induction l1 as [|y l1 IH]; intros r1 [|z l2] r2 Hnd E; [done|..]; injection E as -> E;
    cbn in Hnd; apply NoDup_cons in Hnd as [Hn Hnd].
  - destruct Hn. rewrite E. apply elem_of_app. right. left.
  - destruct Hn. apply elem_of_app. right. left.
  - f_equal. by eapply IH.
Qed.

(** ** The operations of networkd *)

Section networkd.
Context (range_keys : string -> gmap string string -> list string) (host : HostSpec) (acts : activations).

Definition reload_address : string := "host." +:+ h_Name host +:+ ".systemd.networkd.restart".

Definition networkd_source : SourceRef := first_source no_source ((fun p => nw_Source p.2) <$> all_networkd host).

Definition reload_deps : list string :=
  (n_Address <$> networkd_nodes range_keys host)
  ++ (match networkdEnable host with Some (true, _) => [networkd_enable_address host] | _ => [] end).

Definition reload_operation : Operation :=
  make_operation reload_address "reload systemd-networkd" false (dedupeStrings reload_deps)
    (n_Address <$> networkd_nodes range_keys host) (networkdReloadCommand (networkdDeleteNames host)) None None
    networkd_source.

Definition reconfigured : list Operation * list string :=
  appendNetworkdReconfigureOperations (h_Name host) reload_address (ac_reconfigure acts) networkd_source.

(** The addresses of the post-reload scripts, in the order of the groups. *)
Definition post_reload_scripts : list string :=
  match networkd_nodes range_keys host with
  | [] => []
  | _ => omap (fun e => group_address host e.2) (sorted_entries (ac_postReload acts))
  end.

Lemma script_address g s a :
  networkdPostReloadScript host g = Ok (s, a) ->
  exists sc, scope_of host sc /\ a = keyed (scope_Prefix sc) ".script" (pg_Name g).
Proof.
  unfold networkdPostReloadScript. destruct (nonempty (pg_Component g)).
  - destruct (list_find _ (h_Components host)) as [[i c]|] eqn:E; [|done].
    apply list_find_Some in E as (Hc & _ & _).
    destruct (ci_Scripts c !! pg_Name g ≫= _) as [script|]; [|done]. intros [= <- <-].
    exists (component_scope host c). split; [constructor; by eapply list_elem_of_lookup_2|done].
  - destruct (h_Scripts host !! pg_Name g ≫= _) as [script|]; [|done]. intros [= <- <-].
    exists (host_scope host). split; [constructor|done].
Qed.

Lemma post_reload_script_shape a :
  a ∈ post_reload_scripts -> exists sc name, scope_of host sc /\ a = keyed (scope_Prefix sc) ".script" name.
Proof.
  unfold post_reload_scripts. destruct (networkd_nodes range_keys host); [by intros ?%elem_of_nil|].
  intros (e & _ & He)%list_elem_of_omap. unfold group_address in He.
  destruct (networkdPostReloadScript host e.2) as [[s a']|] eqn:E; [|done]. injection He as ->.
  apply script_address in E as (sc & Hsc & ->). eauto.
Qed.

Lemma script_bracket a : a ∈ post_reload_scripts -> ends_bracket a.
Proof. intros (sc & name & _ & ->)%post_reload_script_shape. apply keyed_bracket. Qed.

Lemma script_not_reconfigure a name :
  a ∈ post_reload_scripts -> a <> keyed ("host." +:+ h_Name host) ".systemd.networkd.reconfigure" name.
Proof.
  intros (sc & s & Hsc & ->)%post_reload_script_shape. unfold keyed.
  destruct (scope_rest host sc (".script" +:+ "[" +:+ strconv_Quote s +:+ "]") Hsc) as (t & -> & Ht).
  rewrite str_app_assoc. intros E%str_app_inv_l%str_app_inv_l.
  destruct Ht as [->|[u ->]]; discriminate E.
Qed.

(** The reconfigure operations: each waits for the reload and for those
    before it. *)
Lemma reconfigure_spec (triggers : gmap string (list string)) source names : forall addresses ops addresses',
  reconfigure_operations (h_Name host) reload_address triggers source names addresses = (ops, addresses') ->
  addresses' = addresses ++ (op_Address <$> ops) /\
  forall i o, ops !! i = Some o ->
    (exists name, op_Address o = keyed ("host." +:+ h_Name host) ".systemd.networkd.reconfigure" name
      /\ op_TriggeredBy o = dedupeStrings (default [] (triggers !! name)))
    /\ op_DependsOn o = dedupeStrings ([reload_address] ++ addresses ++ (op_Address <$> take i ops)).
Proof.
  induction names as [|name names IH]; intros addresses ops addresses'; cbn [reconfigure_operations].
  { intros [= <- <-]. split; [by rewrite app_nil_r|done]. }
  destruct (reconfigure_operations _ _ _ _ names _) as [ops' addrs] eqn:E. intros [= <- <-].
  apply IH in E as [-> Hops]. split; [by rewrite <- app_assoc|]. intros [|i] o; cbn [lookup list_lookup].
  - intros [= <-]. split; [by exists name|]. cbn. by rewrite app_nil_r.
  - intros Ho. destruct (Hops i o Ho) as [Hname Hd]. split; [done|]. rewrite Hd. cbn. by rewrite <- app_assoc.
Qed.

Definition group_triggers : list string := sorted_entries (ac_postReload acts) ≫= (fun e => pg_Triggers e.2).

(** The operations after the post-reload scripts have been attached. *)
Lemma networkd_operations_inv early operations :
  networkd_operations range_keys host acts early = Ok operations ->
  (networkd_nodes range_keys host = [] /\ operations = early)
  \/ post_reloaded ([reload_address] ++ reconfigured.2)
       (early ++ [reload_operation] ++ reconfigured.1) group_triggers post_reload_scripts operations.
Proof.
  unfold networkd_operations, reconfigured, post_reload_scripts.
  destruct (n_Address <$> networkd_nodes range_keys host) as [|t ts] eqn:E.
  { intros [= <-]. left. split; [|done]. by apply fmap_nil_inv in E. }
  cbv zeta. change ("host." +:+ h_Name host +:+ ".systemd.networkd.restart") with reload_address.
  change (first_source no_source _) with networkd_source.
  destruct (appendNetworkdReconfigureOperations _ _ _ _) as [ops addresses] eqn:Er.
  unfold appendNetworkdPostReloadOperations. intros Hrun. right.
  destruct (fold_res _ _ _) as [[ops' scripts']|] eqn:Ef; [|done]. injection Hrun as <-.
  rewrite <- E in Ef. apply (post_reload_fold _ _ (early ++ [reload_operation] ++ ops)
    group_triggers) in Ef as [Hpr ->].
  - destruct (networkd_nodes range_keys host); [done|]. exact Hpr.
  - apply post_reloaded_initial.
  - intros e He x Hx. apply list_elem_of_bind. eauto.
Qed.

(** Only scripts are changed. *)
Lemma early_kept early operations o :
  networkd_operations range_keys host acts early = Ok operations ->
  o ∈ early -> ~ ends_bracket (op_Address o) -> o ∈ operations.
Proof.
  intros [[_ ->]|Hpr]%networkd_operations_inv Ho Hb; [done|].
  apply (pr_kept _ _ _ _ _ Hpr); [rewrite !elem_of_app; auto|]. intros Hs. by apply Hb, script_bracket.
Qed.
End networkd.

(** ** The walk *)

Section late.
Context (range_keys : string -> gmap string string -> list string) (host : HostSpec).
Context (dg : dockerEngineGraph) (triggers : script_triggers) (rootScripts : list (list Node * list Operation)).
Context (acts : activations) (operations : list Operation) (P : string -> Prop).

Local Abbreviation scripts := (component_scripts host triggers ++ rootScripts).
Local Abbreviation nodes := (compiled_nodes range_keys host dg scripts).
Local Abbreviation ops := (operations ++ late_operations host dg).
Local Abbreviation early := (early_operations host dg scripts).
Local Abbreviation node_ok := (node_ok host P).
Local Abbreviation op_ok := (op_ok host P).

Context (Hdocker : dockerEngineNodes host ∅ (groupAddresses host) (userAddresses host) = Ok dg).
Context (Htriggers : scriptTriggers host = Ok triggers) (Hroot : root_scripts host triggers = Ok rootScripts).
Context (Hacts : collectActivations host = Ok acts).
Context (Hnetworkd : networkd_operations range_keys host acts early = Ok operations).

Context (HN : forall n, n ∈ nodes -> Forall P (n_DependsOn n) -> P (n_Address n)).
Context (HO : forall o, o ∈ ops -> Forall P (op_DependsOn o) -> P (op_Address o)).

Lemma early_stays o : o ∈ early -> ~ ends_bracket (op_Address o) -> o ∈ operations.
Proof. by apply (early_kept range_keys host acts early operations o Hnetworkd). Qed.

Lemma closed_node n : n ∈ nodes -> node_ok n -> P (n_Address n).
Proof. intros Hn [_ _ Hd]. by apply HN. Qed.

Lemma closed_early o : o ∈ early -> ~ ends_bracket (op_Address o) -> op_ok o -> P (op_Address o).
Proof. exact (early_closed host dg scripts operations P HO early_stays o). Qed.

Lemma closed_late o : o ∈ late_operations host dg -> op_ok o -> P (op_Address o).
Proof. by apply (late_closed host dg operations). Qed.

Ltac in_nodes := unfold compiled_nodes; rewrite !elem_of_app; tauto.
Ltac in_early := unfold early_operations; rewrite !elem_of_app; tauto.
Ltac in_late := unfold late_operations; rewrite !elem_of_app; tauto.

Lemma packages_known : table_in P (packageAddresses host dg).
Proof. by apply (packages_in range_keys host dg scripts operations P HN HO early_stays Hdocker). Qed.
Lemma install_known sc : Forall P (install_dep host sc).
Proof. by apply (install_dep_in range_keys host dg scripts P HN). Qed.
Lemma owned_known owner group : Forall P (owned_by host owner group).
Proof. by apply (owned_in range_keys host dg scripts P HN). Qed.
Lemma owned_unit_known sc item : Forall P (owned_unit host sc item).
Proof. by apply (owned_unit_in range_keys host dg scripts P HN). Qed.
Hint Resolve packages_known install_known owned_known owned_unit_known : closed.

(** *** Certificates *)

Lemma certificates_ok o : o ∈ certificates_update host -> op_ok o.
Proof.
  unfold certificates_update. assert (Hall : Forall P (each_component host certificate_installs).*1).
  { apply Forall_fmap, Forall_forall. intros [a s] (c & Hc & Ha)%elem_of_each_component. cbn.
    unfold certificate_installs in Ha. destruct (artifact_parts c) as [[source install]|] eqn:Hp; [|by apply elem_of_nil in Ha].
    case_decide; [|by apply elem_of_nil in Ha]. apply list_elem_of_singleton in Ha as [= -> ->].
    by apply (install_in range_keys host dg scripts P HN c Hc source). }
  destruct (each_component host certificate_installs) as [|i installs]; [by intros ?%elem_of_nil|].
  intros ->%list_elem_of_singleton. split; [apply host_belongs|done|done].
Qed.

(** *** Scripts run when files change *)

Record triggers_known (t : script_triggers) : Prop := {
  tk_component : forall c m n l, st_component t !! c = Some m -> m !! n = Some l -> Forall P l;
  tk_root : forall d l, st_root t !! d = Some l -> Forall P l;
}.

Lemma append_at_known name a (m : gmap string (list string)) :
  P a -> (forall n l, m !! n = Some l -> Forall P l) ->
  forall n l, append_at name a m !! n = Some l -> Forall P l.
Proof.
  intros Ha Hm n l. unfold append_at. rewrite lookup_insert_Some. intros [[_ <-]|[_ ?]]; [|by eapply Hm].
  apply Forall_app. split; [|by repeat constructor]. destruct (m !! name) as [l'|] eqn:E; cbn; [by eapply Hm|constructor].
Qed.

Lemma script_triggers_known : triggers_known triggers.
Proof.
  revert Htriggers. unfold scriptTriggers. apply fold_res_inv.
  - intros t [[c a] item] t' (comp & Hc & ((path & item') & [= -> -> ->] & Hin)%list_elem_of_fmap)%elem_of_each_component [Hcomp Hr].
    assert (Ha : P (file_address (component_scope host comp) path)).
    { eapply (file_in range_keys host dg scripts P HN _ (path, item')). by constructor. }
    cbn [collect_on_change fst snd]. destruct (mf_OnChange item') as [ref|]; [|by intros [= <-]].
    case_decide.
    + intros Hrun. apply bind_Ok in Hrun as (u & _ & [= <-]). split; cbn [st_component st_root]; [done|]. by apply append_at_known.
    + intros [= <-]. split; cbn [st_component st_root]; [|done]. intros c m n l [[<- <-]|[_ Hm]]%lookup_insert_Some; [|by eapply Hcomp].
      apply append_at_known; [done|]. intros n' l' Hl. destruct (st_component t !! ci_Name comp) as [m'|] eqn:E; [by eapply Hcomp|].
      by cbn in Hl; rewrite lookup_empty in Hl.
  - split; cbn; intros *; rewrite lookup_empty; done.
Qed.

(** The outputs of a script wait for what triggers it and for each other. *)
Lemma output_nodes_ok build outputs : forall triggeredBy ns after,
  (forall o t, n_Host (build o t) = h_Name host /\ n_Address (build o t) = so_Address o /\ n_DependsOn (build o t) = t) ->
  (forall o, o ∈ outputs -> belongs host (so_Address o)) ->
  output_nodes build outputs triggeredBy = (ns, after) -> (forall n, n ∈ ns -> n ∈ nodes) -> Forall P triggeredBy ->
  Forall node_ok ns /\ Forall P after.
Proof.
  induction outputs as [|output outputs IH]; intros triggeredBy ns after Hb Ho; cbn [output_nodes].
  { intros [= <- <-] _ Ht. split; [constructor|done]. }
  destruct (output_nodes build outputs _) as [ns' after'] eqn:E. intros [= <- <-] Hin Ht.
  destruct (Hb output triggeredBy) as (Hh & Ha & Hd).
  assert (Hok : node_ok (build output triggeredBy)).
  { split; [done|rewrite Ha; apply Ho; left|by rewrite Hd]. }
  apply IH in E as [Hns Hafter]; [split; [by constructor|done]|done|intros; apply Ho; by right|intros; apply Hin; by right|].
  apply Forall_app. split; [done|]. repeat constructor. rewrite <- Ha. apply closed_node; [apply Hin; left|done].
Qed.

Lemma output_node_parts summary key value name script o t :
  n_Host (output_node (h_Name host) summary key value name script o t) = h_Name host
  /\ n_Address (output_node (h_Name host) summary key value name script o t) = so_Address o
  /\ n_DependsOn (output_node (h_Name host) summary key value name script o t) = t.
Proof. done. Qed.

(** What the walk shows of one script. *)
Definition script_ok (s : list Node * list Operation) : Prop :=
  (forall n, n ∈ s.1 -> n ∈ nodes) -> Forall node_ok s.1 /\ Forall op_ok s.2.

Lemma run_script_ok sc name build (outputs : list ScriptOutputPayload) trig ns after :
  scope_of host sc -> Forall P trig ->
  (forall o t, n_Host (build o t) = h_Name host /\ n_Address (build o t) = so_Address o /\ n_DependsOn (build o t) = t) ->
  (forall o, o ∈ outputs -> exists path, so_Address o = keyed (keyed (scope_Prefix sc) ".script" name) ".outputs" path) ->
  output_nodes build outputs (dedupeStrings trig) = (ns, after) -> (forall n, n ∈ ns -> n ∈ nodes) ->
  Forall node_ok ns /\ forall summary sensitive preview payload condition source,
    op_ok (make_operation (keyed (scope_Prefix sc) ".script" name) summary sensitive (dedupeStrings after)
             (dedupeStrings after) preview payload condition source).
Proof.
  intros Hsc Ht Hb Ho Hrun Hin. apply output_nodes_ok in Hrun as [Hns Hafter]; [|done| |done|auto with closed].
  - split; [done|]. intros. split; [by apply keyed_belongs|by apply Forall_dedupe|by apply Forall_dedupe].
  - intros o [path ->]%Ho. unfold keyed at 1. by apply belongs_app, keyed_belongs.
Qed.

Lemma script_outputs_at prefix parts digest (paths : list string) o :
  o ∈ script_output prefix parts digest <$> paths -> exists path, so_Address o = keyed prefix ".outputs" path.
Proof. intros (path & -> & _)%list_elem_of_fmap. by exists path. Qed.

Lemma scripts_known s : s ∈ scripts -> script_ok s.
Proof.
  intros [(c & Hc & ([name trig] & -> & Hin)%list_elem_of_fmap)%elem_of_each_component|Hs]%elem_of_app.
  - intros Hsub. assert (Ht : Forall P trig).
    { apply elem_of_sorted_entries in Hin. destruct (st_component triggers !! ci_Name c) as [m|] eqn:E;
        cbn in Hin; [|by rewrite lookup_empty in Hin]. by eapply (tk_component _ script_triggers_known). }
    unfold component_script in *. destruct (ci_Scripts c !! name) as [script|]; [|split; constructor].
    destruct (output_nodes _ _ _) as [ns after] eqn:E.
    destruct (run_script_ok (component_scope host c) name _ _ trig ns after (scope_component host c Hc) Ht
      (output_node_parts _ _ _ _ _) ltac:(intros o; apply script_outputs_at) E Hsub) as [Hns Hop].
    split; [done|]. apply Forall_singleton, Hop.
  - revert s Hs. revert Hroot. apply (fold_res_inv (fun acc => forall s, s ∈ acc -> script_ok s)); [|by intros s ?%elem_of_nil].
    intros acc [id addresses] acc' Hin%elem_of_sorted_entries Hacc. cbn [root_script]. intros H.
    apply bind_Ok in H as (script & _ & H). apply bind_Ok in H as (u & _ & H).
    destruct (output_nodes _ _ _) as [ns after] eqn:E. injection H as <-.
    intros s [?| ->%list_elem_of_singleton]%elem_of_app; [auto|]. intros Hsub.
    destruct (run_script_ok (host_scope host) (default "" (st_rootNames triggers !! id)) _ _ addresses ns after (scope_host host)
      (tk_root _ script_triggers_known _ _ Hin) (output_node_parts _ _ _ _ _) ltac:(intros o; apply script_outputs_at) E Hsub) as [Hns Hop].
    split; [done|]. apply Forall_singleton, Hop.
Qed.

Lemma scripts_in s n : s ∈ scripts -> n ∈ s.1 -> n ∈ nodes.
Proof.
  intros Hs Hn. assert (n ∈ concat scripts.*1); [|in_nodes].
  apply list_elem_of_In, in_concat. exists s.1. split; apply list_elem_of_In; [by apply list_elem_of_fmap_2|done].
Qed.

Lemma script_nodes_ok n : n ∈ concat scripts.*1 -> node_ok n.
Proof.
  intros (l & Hl & Hn)%list_elem_of_In%in_concat. apply list_elem_of_In in Hl as (s & -> & Hs)%list_elem_of_fmap.
  apply list_elem_of_In in Hn. destruct (scripts_known s Hs) as [Hall _]; [by intros; eapply scripts_in|].
  rewrite Forall_forall in Hall. auto.
Qed.

Lemma script_operations_ok o : o ∈ concat scripts.*2 -> op_ok o.
Proof.
  intros (l & Hl & Hn)%list_elem_of_In%in_concat. apply list_elem_of_In in Hl as (s & -> & Hs)%list_elem_of_fmap.
  apply list_elem_of_In in Hn. destruct (scripts_known s Hs) as [_ Hall]; [by intros; eapply scripts_in|].
  rewrite Forall_forall in Hall. auto.
Qed.

(** Every operation compiled before those of networkd. *)
Lemma early_ok o : o ∈ early -> op_ok o.
Proof.
  unfold early_operations. rewrite !elem_of_app. intros [Ho|[Ho|[Ho|[Ho|Ho]]]].
  - by apply (docker_all_ok range_keys host dg scripts operations P HN HO early_stays Hdocker).
  - by apply (cache_refresh_ok range_keys host dg scripts operations P HN HO early_stays Hdocker).
  - by apply (nft_ok_in range_keys host dg scripts operations P HN HO early_stays Hdocker).
  - by apply certificates_ok.
  - by apply script_operations_ok.
Qed.

(** *** Systemd units and timers *)

Inductive systemd_of : scope -> SystemdSpec -> Prop :=
| systemd_of_host : systemd_of (host_scope host) (h_Systemd host)
| systemd_of_component c : c ∈ h_Components host -> systemd_of (component_scope host c) (ci_Systemd c).

Lemma systemd_of_scope sc sd : systemd_of sc sd -> scope_of host sc.
Proof. intros []; by constructor. Qed.
Hint Resolve systemd_of_scope : closed.

Lemma elem_of_systemd {A} (f : scope -> SystemdSpec -> list A) x :
  x ∈ f (host_scope host) (h_Systemd host) ++ each_component host (fun sc c => f sc (ci_Systemd c)) <->
  exists sc sd, systemd_of sc sd /\ x ∈ f sc sd.
Proof.
  rewrite elem_of_app, elem_of_each_component. split.
  - intros [Hx|(c & Hc & Hx)]; [exists (host_scope host), (h_Systemd host)|exists (component_scope host c), (ci_Systemd c)];
      (split; [by constructor|done]).
  - intros (sc & sd & [|c Hc] & Hx); eauto.
Qed.

Lemma systemd_known sc sd n : systemd_of sc sd -> n ∈ systemd_nodes host sc sd -> node_ok n /\ P (n_Address n).
Proof.
  intros Hsd Hn. assert (Hok : node_ok n).
  { apply elem_of_app in Hn as [([name item] & -> & _)%list_elem_of_fmap|([name item] & -> & _)%list_elem_of_fmap];
      (split; [done|apply keyed_belongs; eauto with closed|]); apply Forall_dedupe, Forall_dedupe; auto with closed. }
  split; [done|]. apply closed_node; [|done]. assert (n ∈ unit_nodes host); [|in_nodes].
  apply (elem_of_systemd (systemd_nodes host)). eauto.
Qed.

Lemma unit_known sc sd p : systemd_of sc sd -> p ∈ sorted_entries (sd_Units sd) -> P (unit_address sc p.1).
Proof.
  intros Hsd Hp. replace (unit_address sc p.1) with (n_Address (unit_node host sc p)) by (by destruct p).
  apply (systemd_known sc sd); [done|]. apply elem_of_app. left. by apply list_elem_of_fmap_2.
Qed.

Lemma timer_known sc sd p : systemd_of sc sd -> p ∈ sorted_entries (sd_Timers sd) -> P (timer_address sc p.1).
Proof.
  intros Hsd Hp. replace (timer_address sc p.1) with (n_Address (timer_node host sc p)) by (by destruct p).
  apply (systemd_known sc sd); [done|]. apply elem_of_app. right. by apply list_elem_of_fmap_2.
Qed.

Lemma unit_nodes_ok n : n ∈ unit_nodes host -> node_ok n.
Proof. intros (sc & sd & Hsd & Hn)%(elem_of_systemd (systemd_nodes host)). by eapply systemd_known. Qed.

Lemma unit_addresses_known : table_in P (unitAddresses host).
Proof.
  intros k a Ha%table_lookup. rewrite !elem_of_app in Ha.
  assert (Hu : forall sc sd, systemd_of sc sd -> (k, a) ∈ unit_entries sc sd -> P a).
  { intros sc sd Hsd (-> & v & Hv)%elem_of_key_entries. by apply (unit_known sc sd (k, v)). }
  assert (Ht : forall sc sd, systemd_of sc sd -> (k, a) ∈ timer_entries sc sd -> P a).
  { intros sc sd Hsd (p & [= -> ->] & Hp)%list_elem_of_fmap. by apply (timer_known sc sd p). }
  destruct Ha as [Ha|[(c & Hc & Ha)%elem_of_each_component|[Ha|[Ha|(c & Hc & [Ha|Ha]%elem_of_app)%elem_of_each_component]]]].
  - by eapply Hu; [constructor|].
  - by eapply Hu; [by constructor|].
  - by eapply Hu; [constructor|].
  - by eapply Ht; [constructor|].
  - by eapply Hu; [by constructor|].
  - by eapply Ht; [by constructor|].
Qed.

Local Abbreviation daemonReload := ((daemon_reload host).2).

Lemma daemon_reload_ok o : o ∈ (daemon_reload host).1 -> op_ok o.
Proof.
  unfold daemon_reload. assert (Hall : Forall P (n_Address <$> unit_nodes host)).
  { apply Forall_fmap, Forall_forall. intros n (sc & sd & Hsd & Hn)%(elem_of_systemd (systemd_nodes host)).
    by eapply systemd_known. }
  destruct (n_Address <$> unit_nodes host) as [|t ts]; [by intros ?%elem_of_nil|].
  intros ->%list_elem_of_singleton. split; [apply host_belongs|done|done].
Qed.

Lemma reload_known : daemonReload <> "" -> P daemonReload.
Proof.
  intros Hne. assert (Hin : exists o, o ∈ (daemon_reload host).1 /\ op_Address o = daemonReload).
  { unfold daemon_reload in *. destruct (n_Address <$> unit_nodes host); [done|]. eexists. by split; [left|]. }
  destruct Hin as (o & Ho & <-). apply closed_late; [in_late|by apply daemon_reload_ok].
Qed.

Lemma timer_services_ok n : n ∈ timer_service_nodes host daemonReload -> node_ok n.
Proof.
  intros (sc & sd & Hsd & ([name timer] & Hn & Hin)%list_elem_of_bind)%(elem_of_systemd
    (fun sc sd => sorted_entries (sd_Timers sd) ≫= timer_service_node host sc daemonReload)).
  unfold timer_service_node in Hn. assert (Ht := timer_known sc sd (name, timer) Hsd Hin). cbn [fst] in Ht.
  destruct (_ && _); [by apply elem_of_nil in Hn|]. apply list_elem_of_singleton in Hn as ->.
  assert (Hd : Forall P (dedupeStrings ([timer_address sc name]
    ++ match scope_Component sc with Some _ => owned_unit host sc (tm_Unit timer) | None => [] end))).
  { apply Forall_dedupe, Forall_cons_closed; [done|]. destruct (scope_Component sc); [auto with closed|constructor]. }
  assert (Hb : belongs host (timer_address sc name +:+ ".service")) by (apply belongs_app, keyed_belongs; eauto with closed).
  destruct (nonempty daemonReload) eqn:Er; (split; [done|done|]); [|done].
  cbn [n_DependsOn set_n_DependsOn systemdManagedServiceNode make_node]. apply Forall_dedupe, Forall_app_closed; [done|].
  repeat constructor. apply reload_known. intros E. by rewrite E in Er.
Qed.

Lemma change_actions_known item :
  item ∈ unitChangeActions host -> P (ca_UnitAddress item) /\ belongs host (ca_UnitAddress item).
Proof.
  intros (sc & sd & Hsd & ([name unit_] & Hn & Hin)%list_elem_of_bind)%(elem_of_systemd
    (fun sc sd => sorted_entries (sd_Units sd) ≫= unit_change_action sc)).
  unfold unit_change_action in Hn. destruct (nonempty _); [|by apply elem_of_nil in Hn].
  apply list_elem_of_singleton in Hn as ->. split; [by apply (unit_known sc sd (name, unit_))|].
  apply keyed_belongs. eauto with closed.
Qed.

Lemma change_actions_ok o : o ∈ change_action_operations host daemonReload -> op_ok o.
Proof.
  intros (item & -> & [Hp Hb]%change_actions_known)%list_elem_of_fmap. split.
  - by apply belongs_app.
  - apply Forall_dedupe, Forall_cons_closed; [done|]. apply guard_in, reload_known.
  - by repeat constructor.
Qed.

Lemma change_table_known : table_in P (unitChangeActionAddresses host).
Proof.
  intros k a (item & [= -> ->] & Hi)%table_lookup%list_elem_of_fmap.
  change (P (op_Address (systemdServiceChangeActionOperation daemonReload item))).
  assert (Hin : systemdServiceChangeActionOperation daemonReload item ∈ change_action_operations host daemonReload)
    by by apply list_elem_of_fmap_2.
  apply closed_late; [in_late|by apply change_actions_ok].
Qed.
Hint Resolve unit_addresses_known change_table_known : closed.

(** *** Drop-ins *)

Lemma dropin_belongs sc name : scope_of host sc -> belongs host (dropin_address sc name).
Proof.
  intros Hsc. unfold dropin_address. apply belongs_iff.
  destruct (scope_rest host sc (".systemd." +:+ name) Hsc) as (t & -> & [->|[u ->]]).
  - by exists ("systemd." +:+ name).
  - by exists ("components." +:+ u).
Qed.

Lemma dropin_ok packages name sc item :
  scope_of host sc -> Forall P packages ->
  (forall n, n ∈ dropin_nodes host packages name (sc, item) -> n ∈ nodes) ->
  (forall n, n ∈ dropin_nodes host packages name (sc, item) -> node_ok n) /\ P (dropin_address sc name).
Proof.
  intros Hsc Hp Hin. unfold dropin_nodes in *.
  set (file := systemdDropInFileNode _ _ _ _ _ _) in *.
  assert (Hfile : node_ok file /\ n_Address file = dropin_address sc name).
  { unfold file, systemdDropInFileNode. destruct (fileResourceDesiredPayload _) as [desired payload].
    split; [|done]. split; [done|by apply dropin_belongs|]. cbn [n_DependsOn make_node]. auto with closed. }
  destruct Hfile as [Hok Ha]. assert (Pa : P (dropin_address sc name)).
  { rewrite <- Ha. apply closed_node; [apply Hin; left|done]. }
  split; [|done]. intros n [->%list_elem_of_singleton|Hn]%elem_of_app; [done|].
  unfold dropin_service, systemdStateServiceNode in Hn. destruct (_ && _); cbn [from_option] in Hn; [by apply elem_of_nil in Hn|].
  apply list_elem_of_singleton in Hn as ->. split; [done|by apply belongs_app, dropin_belongs|].
  cbn [n_DependsOn systemdManagedServiceNode make_node]. apply Forall_dedupe. by repeat constructor.
Qed.

Lemma resolved_known sc sd item :
  systemd_of sc sd -> (sc, item) ∈ resolved_items sc sd ->
  (forall n, n ∈ dropin_nodes host (lookup_dep (packageAddresses host dg) "systemd-resolved") "resolved" (sc, item) -> n ∈ nodes /\ node_ok n)
  /\ P (dropin_address sc "resolved").
Proof.
  intros Hsd Hi. assert (Hin : forall n,
    n ∈ dropin_nodes host (lookup_dep (packageAddresses host dg) "systemd-resolved") "resolved" (sc, item) -> n ∈ nodes).
  { intros n Hn. assert (n ∈ all_dropin_nodes host (packageAddresses host dg)); [|in_nodes].
    apply (elem_of_systemd (fun sc sd => (resolved_items sc sd ≫= dropin_nodes host _ "resolved")
                    ++ (journald_items sc sd ≫= dropin_nodes host [] "journald"))).
    exists sc, sd. split; [done|]. apply elem_of_app. left. apply list_elem_of_bind. eauto. }
  destruct (dropin_ok _ _ _ _ (systemd_of_scope _ _ Hsd) (Forall_lookup_dep _ _ _ packages_known) Hin) as [Hok Pa]. auto.
Qed.

Lemma journald_known sc sd item :
  systemd_of sc sd -> (sc, item) ∈ journald_items sc sd ->
  (forall n, n ∈ dropin_nodes host [] "journald" (sc, item) -> n ∈ nodes /\ node_ok n)
  /\ P (dropin_address sc "journald").
Proof.
  intros Hsd Hi. assert (Hin : forall n, n ∈ dropin_nodes host [] "journald" (sc, item) -> n ∈ nodes).
  { intros n Hn. assert (n ∈ all_dropin_nodes host (packageAddresses host dg)); [|in_nodes].
    apply (elem_of_systemd (fun sc sd => (resolved_items sc sd ≫= dropin_nodes host _ "resolved")
                    ++ (journald_items sc sd ≫= dropin_nodes host [] "journald"))).
    exists sc, sd. split; [done|]. apply elem_of_app. right. apply list_elem_of_bind. eauto. }
  destruct (dropin_ok _ _ _ _ (systemd_of_scope _ _ Hsd) (Forall_nil_2 P) Hin) as [Hok Pa]. auto.
Qed.

Lemma resolved_items_scope sc sd p : p ∈ resolved_items sc sd -> exists item, p = (sc, item).
Proof. unfold resolved_items. destruct (sd_Resolved sd); cbn; [intros ->%list_elem_of_singleton; eauto|by intros ?%elem_of_nil]. Qed.
Lemma journald_items_scope sc sd p : p ∈ journald_items sc sd -> exists item, p = (sc, item).
Proof. unfold journald_items. destruct (sd_Journald sd); cbn; [intros ->%list_elem_of_singleton; eauto|by intros ?%elem_of_nil]. Qed.

Lemma dropin_nodes_ok n : n ∈ all_dropin_nodes host (packageAddresses host dg) -> node_ok n.
Proof.
  intros (sc & sd & Hsd & [(p & Hn & Hp)%list_elem_of_bind|(p & Hn & Hp)%list_elem_of_bind]%elem_of_app)%(elem_of_systemd
    (fun sc sd => (resolved_items sc sd ≫= dropin_nodes host _ "resolved")
                  ++ (journald_items sc sd ≫= dropin_nodes host [] "journald"))).
  - destruct (resolved_items_scope _ _ _ Hp) as [item ->]. by apply (resolved_known sc sd item Hsd Hp).
  - destruct (journald_items_scope _ _ _ Hp) as [item ->]. by apply (journald_known sc sd item Hsd Hp).
Qed.

Lemma restart_ok name items o :
  (forall p, p ∈ items -> P (dropin_address p.1 name) /\ forall n, dropin_service host name p = Some n -> P (n_Address n)) ->
  o ∈ dropin_restart host name items -> op_ok o.
Proof.
  intros Hall. unfold dropin_restart. destruct (last items) as [[sc item]|]; [|by intros ?%elem_of_nil].
  destruct (systemdDropInShouldRestartOnChange _ _); [|by intros ?%elem_of_nil]. intros ->%list_elem_of_singleton.
  assert (Ht : Forall P ((fun p => dropin_address p.1 name) <$> items)).
  { apply Forall_fmap, Forall_forall. intros p Hp. by apply Hall. }
  split; [apply (host_belongs host ("systemd." +:+ name +:+ ".restart"))| |done].
  cbn [op_DependsOn make_operation]. apply Forall_dedupe, Forall_app_closed; [done|].
  destruct (last (omap (dropin_service host name) items)) as [n|] eqn:E; cbn [from_option]; [|constructor].
  repeat constructor. apply last_Some in E as [l E].
  assert (Hn : n ∈ omap (dropin_service host name) items) by (rewrite E; apply elem_of_app; right; left).
  apply list_elem_of_omap in Hn as (p & Hp & Hs). by apply (Hall p).
Qed.

Lemma dropin_service_in packages name p n :
  dropin_service host name p = Some n -> n ∈ dropin_nodes host packages name p.
Proof. destruct p as [sc item]. unfold dropin_nodes. intros ->. apply elem_of_app. right. left. Qed.

Lemma resolved_restart_ok o : o ∈ dropin_restart host "resolved" (all_resolved host) -> op_ok o.
Proof.
  apply restart_ok. intros p (sc & sd & Hsd & Hp)%(elem_of_systemd resolved_items).
  destruct (resolved_items_scope _ _ _ Hp) as [item ->]. destruct (resolved_known sc sd item Hsd Hp) as [Hns Pa].
  split; [done|]. intros n Hn%(dropin_service_in (lookup_dep (packageAddresses host dg) "systemd-resolved")).
  destruct (Hns n Hn). by apply closed_node.
Qed.

Lemma journald_restart_ok o : o ∈ dropin_restart host "journald" (all_journald host) -> op_ok o.
Proof.
  apply restart_ok. intros p (sc & sd & Hsd & Hp)%(elem_of_systemd journald_items).
  destruct (journald_items_scope _ _ _ Hp) as [item ->]. destruct (journald_known sc sd item Hsd Hp) as [Hns Pa].
  split; [done|]. intros n Hn%(dropin_service_in []). destruct (Hns n Hn). by apply closed_node.
Qed.

(** *** Networkd *)

Lemma elem_of_all_networkd sc nw :
  (sc, nw) ∈ all_networkd host <-> exists sd, systemd_of sc sd /\ sd_Networkd sd = Some nw.
Proof.
  unfold all_networkd. rewrite (elem_of_systemd (fun sc sd => from_option (fun nw => [(sc, nw)]) [] (sd_Networkd sd))).
  split.
  - intros (sc' & sd & Hsd & Hin). destruct (sd_Networkd sd) as [nw'|] eqn:E; cbn in Hin; [|by apply elem_of_nil in Hin].
    apply list_elem_of_singleton in Hin as [= -> ->]. eauto.
  - intros (sd & Hsd & E). exists sc, sd. split; [done|]. rewrite E. left.
Qed.

Lemma networkd_scope sc nw : (sc, nw) ∈ all_networkd host -> scope_of host sc.
Proof. intros (sd & Hsd & _)%elem_of_all_networkd. eauto with closed. Qed.

Lemma networkd_owned_known sc owner group : Forall P (networkd_owned host sc owner group).
Proof. unfold networkd_owned. destruct (scope_Component sc); auto with closed. Qed.
Hint Resolve networkd_owned_known : closed.

Lemma networkd_section_in sc nw n : (sc, nw) ∈ all_networkd host -> n ∈ networkd_section range_keys host (sc, nw) -> n ∈ nodes.
Proof.
  intros Hnw Hn. assert (n ∈ networkd_nodes range_keys host); [|in_nodes]. apply list_elem_of_bind. eauto.
Qed.

Lemma netdev_known sc nw p :
  (sc, nw) ∈ all_networkd host -> p ∈ sorted_entries (nw_NetDevs nw) ->
  node_ok (netdev_node host sc p) /\ P (netdev_address sc p.1).
Proof.
  intros Hnw Hp. assert (Hin : netdev_node host sc p ∈ nodes).
  { apply (networkd_section_in sc nw); [done|]. apply elem_of_app. left. by apply list_elem_of_fmap_2. }
  assert (Hnode : node_ok (netdev_node host sc p) /\ n_Address (netdev_node host sc p) = netdev_address sc p.1).
  { destruct p as [label item]. unfold netdev_node, networkdNetDevNode.
    assert (Hb : belongs host (netdev_address sc label)) by (eapply keyed_belongs, networkd_scope, Hnw).
    destruct (nonempty (nd_ContentMode item)); [destruct (fileResourceDesiredPayload _) as [desired payload]|];
      (split; [|done]); (split; [done|done|]); cbn [n_DependsOn make_node]; apply Forall_dedupe; auto with closed. }
  destruct Hnode as [Hok Ha]. split; [done|]. rewrite <- Ha. by apply closed_node.
Qed.

(** Networks wait for the netdevs found by their addresses. *)
Context (Hnetdevs : forall address, Forall P (networkdNetworkDependencies (range_keys address) (networkdAddresses host))).

Lemma network_known sc nw p :
  (sc, nw) ∈ all_networkd host -> p ∈ sorted_entries (nw_Networks nw) ->
  node_ok (network_node range_keys host sc p) /\ P (network_address sc p.1).
Proof.
  intros Hnw Hp. assert (Hin : network_node range_keys host sc p ∈ nodes).
  { apply (networkd_section_in sc nw); [done|]. apply elem_of_app. right. by apply list_elem_of_fmap_2. }
  assert (Hnode : node_ok (network_node range_keys host sc p)
    /\ n_Address (network_node range_keys host sc p) = network_address sc p.1).
  { destruct p as [label item]. unfold network_node, networkdNetworkNode.
    assert (Hb : belongs host (network_address sc label)) by (eapply keyed_belongs, networkd_scope, Hnw).
    destruct (nonempty (nn_ContentMode item)); [destruct (fileResourceDesiredPayload _) as [desired payload]|];
      (split; [|done]); (split; [done|done|]); cbn [n_DependsOn make_node]; apply Forall_dedupe, Forall_dedupe, Forall_app_closed;
      auto with closed. }
  destruct Hnode as [Hok Ha]. split; [done|]. rewrite <- Ha. by apply closed_node.
Qed.

Lemma networkd_nodes_ok n : n ∈ networkd_nodes range_keys host -> node_ok n /\ P (n_Address n).
Proof.
  intros ([sc nw] & Hn & Hnw)%list_elem_of_bind.
  assert (Hok : node_ok n).
  { apply elem_of_app in Hn as [(p & -> & Hp)%list_elem_of_fmap|(p & -> & Hp)%list_elem_of_fmap].
    - by eapply netdev_known.
    - by eapply network_known. }
  split; [done|]. apply closed_node; [|done]. by apply (networkd_section_in sc nw).
Qed.

Lemma networkd_triggers_known : Forall P (n_Address <$> networkd_nodes range_keys host).
Proof. apply Forall_fmap, Forall_forall. intros n Hn. by apply networkd_nodes_ok. Qed.
Hint Resolve networkd_triggers_known : closed.

Lemma networkd_enable_ok n : n ∈ networkd_enable range_keys host -> node_ok n.
Proof.
  unfold networkd_enable. destruct (networkdEnable host) as [[enable source]|]; [|by intros ?%elem_of_nil].
  intros ->%list_elem_of_singleton. split; [done|apply host_belongs|]. cbn [n_DependsOn make_node]. auto with closed.
Qed.

Lemma networkd_enable_known b source : networkdEnable host = Some (b, source) -> P (networkd_enable_address host).
Proof.
  intros E. assert (Hin : exists n, n ∈ networkd_enable range_keys host /\ n_Address n = networkd_enable_address host).
  { unfold networkd_enable. rewrite E. eexists. split; [left|done]. }
  destruct Hin as (n & Hn & <-). apply closed_node; [in_nodes|by apply networkd_enable_ok].
Qed.

(** The maps of activations name networkd nodes. *)
Lemma append_all_known a names : P a -> forall m : gmap string (list string),
  (forall n l, m !! n = Some l -> Forall P l) ->
  forall n l, fold_left (fun m name => append_at name a m) names m !! n = Some l -> Forall P l.
Proof.
  intros Ha. induction names as [|name names IH]; intros m Hm; cbn; [done|]. apply IH. by apply append_at_known.
Qed.

Lemma activations_known :
  (forall n l, ac_reconfigure acts !! n = Some l -> Forall P l)
  /\ (forall k g, ac_postReload acts !! k = Some g -> Forall P (pg_Triggers g)).
Proof.
  revert Hacts. unfold collectActivations.
  apply (fold_res_inv (fun acc => (forall n l, ac_reconfigure acc !! n = Some l -> Forall P l)
    /\ (forall k g, ac_postReload acc !! k = Some g -> Forall P (pg_Triggers g)))).
  - intros acc [[act a] c] acc' Hp [Hr Hg]. assert (Ha : P a).
    { apply list_elem_of_bind in Hp as ([sc nw] & Hp & Hnw).
      apply elem_of_app in Hp as [(p & [= -> -> ->] & Hp)%list_elem_of_fmap|(p & [= -> -> ->] & Hp)%list_elem_of_fmap].
      - by eapply netdev_known.
      - by eapply network_known. }
    cbn [fst snd]. unfold collectNetworkdActivation. destruct act as [act|]; [|by intros [= <-]].
    assert (Hrec := append_all_known a (na_Reconfigure act) Ha _ Hr).
    destruct (na_PostReload act) as [ref|]; [|by intros [= <-]].
    intros Hrun. apply bind_Ok in Hrun as (u & _ & [= <-]). cbn [ac_reconfigure ac_postReload]. split; [done|].
    intros k g [[_ <-]|[_ Hk]]%lookup_insert_Some; [|by eapply Hg]. cbn [pg_Triggers add_trigger].
    apply Forall_app_closed; [|by repeat constructor].
    destruct (ac_postReload acc !! _) as [g|] eqn:E; cbn [default]; [by eapply Hg|constructor].
  - split; cbn; intros *; rewrite lookup_empty; done.
Qed.

Lemma group_triggers_known : Forall P (group_triggers acts).
Proof.
  apply Forall_forall. intros a ([k g] & Ha & Hg%elem_of_sorted_entries)%list_elem_of_bind.
  assert (H := proj2 activations_known k g Hg). rewrite Forall_forall in H. auto.
Qed.

(** *** The operations of networkd *)

Context (Hscripts : NoDup (post_reload_scripts range_keys host acts) \/ Forall P (post_reload_scripts range_keys host acts)).

Local Abbreviation reload := (reload_operation range_keys host).
Local Abbreviation reconfigures := (reconfigured host acts).
Local Abbreviation initial := (early ++ [reload] ++ reconfigures.1).

Lemma operations_cases :
  (networkd_nodes range_keys host = [] /\ operations = early)
  \/ post_reloaded ([reload_address host] ++ reconfigures.2) initial (group_triggers acts)
       (post_reload_scripts range_keys host acts) operations.
Proof. by apply networkd_operations_inv. Qed.

Section reloaded.
Context (Hpr : post_reloaded ([reload_address host] ++ reconfigures.2) initial (group_triggers acts)
                 (post_reload_scripts range_keys host acts) operations).

Lemma kept o : o ∈ initial -> op_Address o ∉ post_reload_scripts range_keys host acts -> op_ok o -> P (op_Address o).
Proof.
  intros Ho Hnot [_ Hd _]. apply HO; [|done]. apply elem_of_app. left. by apply (pr_kept _ _ _ _ _ Hpr).
Qed.

Lemma reload_ok : op_ok reload /\ P (reload_address host).
Proof.
  assert (Hok : op_ok reload).
  { split; [apply host_belongs| |apply networkd_triggers_known]. cbn [op_DependsOn reload_operation make_operation].
    apply Forall_dedupe. unfold reload_deps. apply Forall_app_closed; [auto with closed|].
    destruct (networkdEnable host) as [[[] source]|] eqn:E; [|constructor..]. repeat constructor. by eapply networkd_enable_known. }
  split; [done|]. apply (kept reload); [rewrite !elem_of_app; right; left; left| |done].
  intros Hs%script_bracket. revert Hs. by apply host_not_bracket.
Qed.

Lemma reconfigure_known i o : reconfigures.1 !! i = Some o -> op_ok o /\ P (op_Address o).
Proof.
  assert (Hspec : forall i o, reconfigures.1 !! i = Some o ->
    (exists name, op_Address o = keyed ("host." +:+ h_Name host) ".systemd.networkd.reconfigure" name
      /\ op_TriggeredBy o = dedupeStrings (default [] (ac_reconfigure acts !! name)))
    /\ op_DependsOn o = dedupeStrings ([reload_address host] ++ [] ++ (op_Address <$> take i reconfigures.1))).
  { unfold reconfigured, appendNetworkdReconfigureOperations.
    destruct (reconfigure_operations _ _ _ _ _ _) as [l addresses] eqn:E. by apply reconfigure_spec in E as [_ E]. }
  revert o. induction i as [i IH] using lt_wf_ind. intros o Ho. destruct (Hspec i o Ho) as [(name & Ha & Ht) Hd].
  assert (Hok : op_ok o).
  { split.
    - rewrite Ha. apply (keyed_belongs host (host_scope host)). constructor.
    - rewrite Hd. apply Forall_dedupe, Forall_cons_closed; [apply reload_ok|]. apply Forall_fmap, Forall_forall.
      intros x (j & Hx & Hj)%elem_of_take. by apply (IH j Hj).
    - rewrite Ht. apply Forall_dedupe. destruct (ac_reconfigure acts !! name) as [l|] eqn:E; [|constructor].
      by eapply (proj1 activations_known). }
  split; [done|]. apply kept; [|by intros Hs; apply (script_not_reconfigure _ _ _ _ name Hs)|done].
  rewrite !elem_of_app. do 2 right. by eapply list_elem_of_lookup_2.
Qed.

Lemma initial_ok o : o ∈ initial -> op_ok o.
Proof.
  rewrite !elem_of_app, list_elem_of_singleton. intros [Ho|[->|[i Hi]%list_elem_of_lookup_1]].
  - by apply early_ok.
  - apply reload_ok.
  - by eapply reconfigure_known.
Qed.

Lemma after_known : Forall P ([reload_address host] ++ reconfigures.2).
Proof.
  apply Forall_cons_closed; [apply reload_ok|]. assert (H := reconfigure_known). revert H.
  unfold reconfigured, appendNetworkdReconfigureOperations.
  destruct (reconfigure_operations _ _ _ _ _ _) as [l addresses] eqn:E. apply reconfigure_spec in E as [-> _].
  cbn [fst snd app]. intros H. apply Forall_fmap, Forall_forall. intros o [i Hi]%list_elem_of_lookup_1. by eapply H.
Qed.

Lemma touched_ok before o :
  touched ([reload_address host] ++ reconfigures.2) initial (group_triggers acts) before o ->
  op_Address o ∈ post_reload_scripts range_keys host acts -> Forall P before -> op_ok o.
Proof.
  intros [Hd Ht] Ha Hbefore. assert (Hafter := after_known). assert (Hgroups := group_triggers_known).
  rewrite Forall_forall in Hafter, Hgroups, Hbefore. split.
  - apply post_reload_script_shape in Ha as (sc & name & Hsc & ->). by apply keyed_belongs.
  - apply Forall_forall. intros d [?|[?|[?|(o0 & Ho0 & _ & Hin)]]]%Hd; [auto..|].
    apply initial_ok in Ho0 as [_ H _]. rewrite Forall_forall in H. auto.
  - apply Forall_forall. intros t [?|(o0 & Ho0 & _ & Hin)]%Ht; [auto|].
    apply initial_ok in Ho0 as [_ _ H]. rewrite Forall_forall in H. auto.
Qed.

Lemma post_scripts_known : Forall P (post_reload_scripts range_keys host acts).
Proof.
  destruct Hscripts as [Hnd|?]; [|done].
  assert (Hprefix : forall before after', post_reload_scripts range_keys host acts = before ++ after' -> Forall P before).
  { induction before as [|a before IH] using rev_ind; intros after' E; [constructor|].
    rewrite <- app_assoc in E. assert (Hbefore := IH _ E). apply Forall_app_closed; [done|]. repeat constructor.
    assert (Ha : a ∈ post_reload_scripts range_keys host acts) by (rewrite E; apply elem_of_app; right; left).
    assert (Hop := Ha). apply (pr_scripts _ _ _ _ _ Hpr) in Hop as (o & -> & Ho)%list_elem_of_fmap.
    assert (Hok : op_ok o).
    { destruct (pr_origin _ _ _ _ _ Hpr o Ho) as [?|(b & af & E' & Ht)]; [by apply initial_ok|].
      apply (touched_ok b); [done|done|]. rewrite E in E', Hnd.
      by rewrite <- (NoDup_split_unique _ _ _ _ _ Hnd E'). }
    apply HO; [|by destruct Hok]. apply elem_of_app. by left. }
  apply (Hprefix _ []). by rewrite app_nil_r.
Qed.

Lemma reloaded_ok o : o ∈ operations -> op_ok o.
Proof.
  intros Ho. destruct (pr_origin _ _ _ _ _ Hpr o Ho) as [?|(b & af & E & Ht)]; [by apply initial_ok|].
  assert (Hall := post_scripts_known). apply (touched_ok b); [done|rewrite E; apply elem_of_app; right; left|].
  rewrite E in Hall. by apply Forall_app in Hall as [? _].
Qed.
End reloaded.

Lemma operations_ok o : o ∈ operations -> op_ok o.
Proof.
  destruct operations_cases as [[_ E]|Hpr]; [|by apply reloaded_ok]. intros Ho. apply early_ok. by rewrite <- E.
Qed.

(** *** Services *)

Local Abbreviation cx := (service_context_of host dg).

Lemma service_deps_known sc item : Forall P (service_deps host cx sc item).
Proof.
  unfold service_deps. apply Forall_dedupe. cbn [sx_packages sx_daemonReload service_context_of].
  apply Forall_app_closed; [auto with closed|]. apply Forall_app_closed; [auto with closed|].
  apply Forall_app_closed; [|auto with closed]. destruct (unitAddresses host !! ms_Unit item) as [a|] eqn:E; [|constructor].
  apply Forall_cons_closed; [by eapply unit_addresses_known|]. apply guard_in, reload_known.
Qed.
Hint Resolve service_deps_known : closed.

Local Abbreviation services_at := (in_scopes host (sorted_entries (svs_Services (h_Services host)))
  (fun c => sorted_entries (svs_Services (ci_Services c)))).

Lemma service_known sc p :
  services_at sc p -> node_ok (service_node host cx sc p) /\ P (service_address sc p.1).
Proof.
  intros Hsc. assert (Hok : node_ok (service_node host cx sc p) /\ n_Address (service_node host cx sc p) = service_address sc p.1).
  { destruct p as [name item]. split; [|done].
    split; [done|apply keyed_belongs; by eapply in_scopes_scope|apply service_deps_known]. }
  destruct Hok as [Hok <-]. split; [done|]. apply closed_node; [|done].
  assert (service_node host cx sc p ∈ service_nodes host cx); [|in_nodes].
  apply (elem_of_scoped_fmap host _ _ (service_node host cx)). eauto.
Qed.

Lemma services_ok n : n ∈ service_nodes host cx -> node_ok n.
Proof. intros (sc & p & Hsc & ->)%(elem_of_scoped_fmap host _ _ (service_node host cx)). by apply service_known. Qed.

Lemma service_operations_ok o : o ∈ service_operations host cx -> op_ok o.
Proof.
  intros (sc & [name item] & Hsc & Ho)%(elem_of_scoped_bind host _ _ (service_operation host cx)).
  assert (Hscope := in_scopes_scope _ _ _ _ _ Hsc). destruct (service_known sc (name, item) Hsc) as [_ Pa]. cbn [fst] in Pa.
  unfold service_operation in Ho. repeat case_decide; try (by apply elem_of_nil in Ho); apply list_elem_of_singleton in Ho as ->;
    (split; [by apply belongs_app, keyed_belongs|apply Forall_cons_closed; auto with closed|by repeat constructor]).
Qed.

(** *** The whole host *)

Theorem walk_nodes n : n ∈ nodes -> node_ok n.
Proof.
  unfold compiled_nodes. rewrite !elem_of_app.
  intros [Hn|[Hn|[Hn|[Hn|[Hn|[Hn|[Hn|[Hn|[Hn|[Hn|[Hn|[Hn|[Hn|Hn]]]]]]]]]]]]].
  - by apply (engine_ok range_keys host dg scripts operations P HN HO early_stays Hdocker).
  - by apply (artifact_ok range_keys host dg scripts P HN).
  - by apply (directory_ok range_keys host dg scripts P HN).
  - by apply (file_ok range_keys host dg scripts P HN).
  - by apply script_nodes_ok.
  - by apply (secret_ok range_keys host dg scripts P HN).
  - by apply group_ok.
  - by apply (user_ok range_keys host dg scripts P HN).
  - by apply unit_nodes_ok.
  - by apply dropin_nodes_ok.
  - by apply networkd_nodes_ok.
  - by apply networkd_enable_ok.
  - by apply timer_services_ok.
  - by apply services_ok.
Qed.

Theorem walk_operations o : o ∈ ops -> op_ok o.
Proof.
  unfold late_operations. rewrite !elem_of_app. intros [Ho|[Ho|[Ho|[Ho|[Ho|Ho]]]]].
  - by apply operations_ok.
  - by apply daemon_reload_ok.
  - by apply change_actions_ok.
  - by apply resolved_restart_ok.
  - by apply journald_restart_ok.
  - by apply service_operations_ok.
Qed.
End late.
