(* ===== verification/GraphCompileProps.v ===== *)
(** * Properties of the compiled graph

    What [compileHost] returns is closed under its dependencies and triggers,
    and a program without explicit dependencies compiles to a graph the
    scheduler accepts. *)
From S2P Require Import Prelude Sha256 GoValue GoStrings IR HostIR Graph GraphHelpers GraphSystemd GraphDocker GraphHost GraphClosed GraphClosedLate GraphCompile Schedule ScheduleGraph ScheduleProps.

(** The addresses a list of nodes and operations declares. *)
Definition declared (nodes : list Node) (operations : list Operation) : list string :=
  (n_Address <$> nodes) ++ (op_Address <$> operations).

Section host.
Context (range_keys : string -> gmap string string -> list string) (host : HostSpec).

(** The steps of a successful run. *)
Record compiled (dg : dockerEngineGraph) (triggers : script_triggers) (rootScripts : list (list Node * list Operation))
    (acts : activations) (operations : list Operation) : Prop := {
  cp_docker : dockerEngineNodes host ∅ (groupAddresses host) (userAddresses host) = Ok dg;
  cp_triggers : scriptTriggers host = Ok triggers;
  cp_root : root_scripts host triggers = Ok rootScripts;
  cp_acts : collectActivations host = Ok acts;
  cp_operations : networkd_operations range_keys host acts
    (early_operations host dg (component_scripts host triggers ++ rootScripts)) = Ok operations;
}.

Lemma host_graph_inv ns ops :
  host_graph range_keys host = Ok (ns, ops) ->
  exists dg triggers rootScripts acts operations, compiled dg triggers rootScripts acts operations
    /\ ns = compiled_nodes range_keys host dg (component_scripts host triggers ++ rootScripts)
    /\ ops = operations ++ late_operations host dg.
Proof.
  unfold host_graph. intros Hrun. apply bind_Ok in Hrun as (dg & Hdg & Hrun).
  apply bind_Ok in Hrun as (triggers & Ht & Hrun). apply bind_Ok in Hrun as (rs & Hr & Hrun).
  apply bind_Ok in Hrun as (acts & Ha & Hrun). apply bind_Ok in Hrun as (operations & Ho & [= <- <-]).
  exists dg, triggers, rs, acts, operations. by split_and!; [split|..].
Qed.

(** An address of the networkd table is that of a netdev, or of a network
    stored under its own path. *)
Lemma networkd_table path a :
  networkdAddresses host !! path = Some a ->
  exists sc nw, (sc, nw) ∈ all_networkd host /\
    ((exists p, p ∈ sorted_entries (nw_NetDevs nw) /\ a = netdev_address sc p.1)
     \/ exists p, p ∈ sorted_entries (nw_Networks nw) /\ a = network_address sc p.1 /\ path = nn_Path p.2).
Proof.
  intros Ha%table_lookup.
  assert (Hentries : forall sc nwo, (path, a) ∈ networkd_entries sc nwo -> exists nw, nwo = Some nw /\
    ((exists p, p ∈ sorted_entries (nw_NetDevs nw) /\ a = netdev_address sc p.1)
     \/ exists p, p ∈ sorted_entries (nw_Networks nw) /\ a = network_address sc p.1 /\ path = nn_Path p.2)).
  { intros sc [nw|]; cbn [networkd_entries]; [|by intros ?%elem_of_nil]. intros Hin. exists nw. split; [done|].
    apply elem_of_app in Hin as [(p & [= -> ->] & Hp)%list_elem_of_fmap|(p & [= -> ->] & Hp)%list_elem_of_fmap]; eauto. }
  apply elem_of_app in Ha as [Ha|(c & Hc & Ha)%elem_of_each_component];
    apply Hentries in Ha as (nw & E & Ha); do 2 eexists; (split; [|exact Ha]); apply elem_of_all_networkd;
    eexists; (split; [|exact E]); by constructor.
Qed.

Section run.
Context (dg : dockerEngineGraph) (triggers : script_triggers) (rootScripts : list (list Node * list Operation)).
Context (acts : activations) (operations : list Operation).
Context (Hcp : compiled dg triggers rootScripts acts operations).

Local Abbreviation nodes := (compiled_nodes range_keys host dg (component_scripts host triggers ++ rootScripts)).
Local Abbreviation ops := (operations ++ late_operations host dg).

(** The walk, from the two conditions on [P] and what the networks and the
    post-reload scripts need. *)
Lemma run_walk (P : string -> Prop) :
  (forall n, n ∈ nodes -> Forall P (n_DependsOn n) -> P (n_Address n)) ->
  (forall o, o ∈ ops -> Forall P (op_DependsOn o) -> P (op_Address o)) ->
  (forall address, Forall P (networkdNetworkDependencies (range_keys address) (networkdAddresses host))) ->
  (NoDup (post_reload_scripts range_keys host acts) \/ Forall P (post_reload_scripts range_keys host acts)) ->
  (forall n, n ∈ nodes -> node_ok host P n) /\ (forall o, o ∈ ops -> op_ok host P o).
Proof.
  intros HN HO Hnet Hscr. destruct Hcp as [Hd Ht Hr Ha Ho]. split.
  - intros n. by apply (walk_nodes range_keys host dg triggers rootScripts acts operations P).
  - intros o. by apply (walk_operations range_keys host dg triggers rootScripts acts operations P).
Qed.

(** A network never waits for another network, so the netdevs it waits for
    are in [P]. *)
Lemma netdevs_known (P : string -> Prop) :
  (forall n, n ∈ nodes -> Forall P (n_DependsOn n) -> P (n_Address n)) ->
  (forall o, o ∈ ops -> Forall P (op_DependsOn o) -> P (op_Address o)) ->
  (forall sc nw p, (sc, nw) ∈ all_networkd host -> p ∈ sorted_entries (nw_Networks nw) ->
     strings_HasSuffix (nn_Path p.2) ".netdev" = false) ->
  forall address, Forall P (networkdNetworkDependencies (range_keys address) (networkdAddresses host)).
Proof.
  intros HN HO Hpaths address. apply Forall_dedupe, Forall_forall. intros a (path & _ & Ha)%list_elem_of_omap.
  destruct (networkdAddresses host !! path) as [a'|] eqn:E; [|done].
  destruct (strings_HasSuffix path ".netdev") eqn:Es; [|done]. destruct (strings_Contains _ _); [|done]. injection Ha as ->.
  apply networkd_table in E as (sc & nw & Hnw & [(p & Hp & ->)|(p & Hp & _ & ->)]).
  - by apply (netdev_known range_keys host dg triggers rootScripts P HN sc nw p).
  - by rewrite (Hpaths _ _ _ Hnw Hp) in Es.
Qed.

Lemma declared_node n : n ∈ nodes -> n_Address n ∈ declared nodes ops.
Proof. intros Hn. apply elem_of_app. left. by apply list_elem_of_fmap_2. Qed.
Lemma declared_operation o : o ∈ ops -> op_Address o ∈ declared nodes ops.
Proof. intros Ho. apply elem_of_app. right. by apply list_elem_of_fmap_2. Qed.

Lemma run_closed :
  let known a := a ∈ declared nodes ops in
  (forall n, n ∈ nodes -> node_ok host known n) /\ (forall o, o ∈ ops -> op_ok host known o).
Proof.
  apply run_walk.
  - intros n Hn _. by apply declared_node.
  - intros o Ho _. by apply declared_operation.
  - intros address. apply Forall_dedupe, Forall_forall. intros a (path & _ & Ha)%list_elem_of_omap.
    destruct (networkdAddresses host !! path) as [a'|] eqn:E; [|done]. destruct (_ && _); [|done]. injection Ha as ->.
    apply networkd_table in E as (sc & nw & Hnw & Hin).
    assert (Hn : exists n, n ∈ networkd_section range_keys host (sc, nw) /\ n_Address n = a).
    { destruct Hin as [(p & Hp & ->)|(p & Hp & -> & _)].
      - exists (netdev_node host sc p). split; [apply elem_of_app; left; by apply list_elem_of_fmap_2|].
        destruct p as [label item]. unfold netdev_node, networkdNetDevNode.
        destruct (nonempty _); [by destruct (fileResourceDesiredPayload _)|done].
      - exists (network_node range_keys host sc p). split; [apply elem_of_app; right; by apply list_elem_of_fmap_2|].
        destruct p as [label item]. unfold network_node, networkdNetworkNode.
        destruct (nonempty _); [by destruct (fileResourceDesiredPayload _)|done]. }
    destruct Hn as (n & Hn & <-). apply declared_node.
    assert (n ∈ networkd_nodes range_keys host) by (apply list_elem_of_bind; eauto).
    unfold compiled_nodes. rewrite !elem_of_app. tauto.
  - right. destruct (networkd_operations_inv _ _ _ _ _ (cp_operations _ _ _ _ _ Hcp)) as [[E _]|Hpr].
    + unfold post_reload_scripts. rewrite E. constructor.
    + apply Forall_forall. intros a Ha. apply (pr_scripts _ _ _ _ _ Hpr) in Ha as (o & -> & Ho)%list_elem_of_fmap.
      apply declared_operation, elem_of_app. by left.
Qed.
End run.
End host.

(** ** Explicit dependencies keep the graph closed *)

Lemma node_index_declared nodes a i : node_index nodes !! a = Some i -> a ∈ n_Address <$> nodes.
Proof.
  unfold node_index. assert (H : forall l (m : gmap string nat),
    (forall p, p ∈ l -> n_Address p.2 ∈ n_Address <$> nodes) -> (forall k j, m !! k = Some j -> k ∈ n_Address <$> nodes) ->
    forall k j, fold_left (fun m (p : nat * Node) => <[n_Address p.2 := p.1]> m) l m !! k = Some j -> k ∈ n_Address <$> nodes).
  { induction l as [|p l IH]; intros m Hl Hm; cbn; [done|]. apply IH; [intros; apply Hl; by right|].
    intros k j [[<- _]|[_ ?]]%lookup_insert_Some; [apply Hl; left|by eapply Hm]. }
  apply H; [|intros k j; by rewrite lookup_empty].
  intros p (j & n & -> & Hn)%elem_of_lookup_imap. apply list_elem_of_fmap_2. by eapply list_elem_of_lookup_2.
Qed.

(** What explicit dependencies change of a node. *)
Definition extends (known : list string) (n n' : Node) : Prop :=
  n_Host n' = n_Host n /\ n_Address n' = n_Address n /\ n_Desired n' = n_Desired n /\ forall d, d ∈ n_DependsOn n' -> d ∈ n_DependsOn n \/ d ∈ known.

Lemma explicit_extends host nodes deps nodes' :
  applyExplicitDependencies host nodes deps = Ok nodes' ->
  Forall2 (extends (n_Address <$> nodes)) nodes nodes'.
Proof.
  unfold applyExplicitDependencies. apply (fold_res_inv (Forall2 (extends (n_Address <$> nodes)) nodes)).
  - intros s dep s' _ IH Hrun. unfold apply_dependency in Hrun. apply bind_Ok in Hrun as (u & _ & Hrun).
    apply bind_Ok in Hrun as (from & _ & Hrun). apply bind_Ok in Hrun as (t & Ht & [= <-]). apply of_option_Ok in Ht.
    apply node_index_declared in Ht. apply Forall2_same_length_lookup. apply Forall2_same_length_lookup in IH as [Hlen IH].
    split; [by rewrite length_alter|]. intros i n n' Hn. rewrite list_lookup_alter. case_decide as Hi; [subst i|by apply IH].
    destruct (s !! from) as [m|] eqn:Em; [|done]. intros [= <-]. destruct (IH _ _ _ Hn Em) as (Hh & Ha & Hdes & Hd).
    split_and!; [done..|]. intros d [[?| ->%list_elem_of_singleton]%elem_of_app _]%elem_of_dedupeStrings; auto.
  - apply Forall_Forall2_diag, Forall_forall. intros n _. split_and!; auto.
Qed.

Lemma extends_addresses known nodes nodes' : Forall2 (extends known) nodes nodes' -> n_Address <$> nodes' = n_Address <$> nodes.
Proof. induction 1 as [|n n' l l' (_ & Ha & _ & _) _ IH]; [done|]. cbn. by rewrite Ha, IH. Qed.

Definition address_order (a b : string) : Prop := str_ltb b a = false.

Lemma sort_nodes_sorted nodes : StronglySorted address_order (n_Address <$> sort_by node_less nodes).
Proof.
  assert (H : StronglySorted (may_follow node_less) (sort_by node_less nodes)).
  { apply sort_by_sorted; [intros a b; apply str_ltb_asym|intros a b c; apply str_not_ltb_trans]. }
  induction H as [|x l _ IH Hx]; constructor; [done|]. by apply Forall_fmap.
Qed.

Lemma sort_operations_sorted operations : StronglySorted address_order (op_Address <$> sort_by operation_less operations).
Proof.
  assert (H : StronglySorted (may_follow operation_less) (sort_by operation_less operations)).
  { apply sort_by_sorted; [intros a b; apply str_ltb_asym|intros a b c; apply str_not_ltb_trans]. }
  induction H as [|x l _ IH Hx]; constructor; [done|]. by apply Forall_fmap.
Qed.

(** ** Closedness *)

(** What holds of the nodes and the operations of a compiled host. *)
Record closed_node (host : HostSpec) (known : list string) (n : Node) : Prop := {
  cn_host : n_Host n = h_Name host;
  cn_address : belongs host (n_Address n);
  cn_deps : n_DependsOn n ⊆ known;
}.
Record closed_operation (host : HostSpec) (known : list string) (o : Operation) : Prop := {
  co_host : op_Host o = h_Name host;
  co_address : belongs host (op_Address o);
  co_deps : op_DependsOn o ⊆ known;
  co_triggers : op_TriggeredBy o ⊆ known;
}.

Lemma Forall_subseteq (l known : list string) : Forall (fun a => a ∈ known) l <-> l ⊆ known.
Proof. by rewrite Forall_forall. Qed.

Section compileHost.
Context (range_keys : string -> gmap string string -> list string) (host : HostSpec).

Lemma compileHost_inv nodes operations :
  compileHost range_keys host = Ok (nodes, operations) ->
  exists ns ns' ops, host_graph range_keys host = Ok (ns, ops)
    /\ applyExplicitDependencies (h_Name host) ns (explicit_dependencies_of host) = Ok ns'
    /\ nodes = sort_by node_less ns' /\ operations = sort_by operation_less (set_op_Host (h_Name host) <$> ops).
Proof.
  unfold compileHost. intros Hrun. apply bind_Ok in Hrun as ([ns ops] & Hg & Hrun).
  apply bind_Ok in Hrun as (ns' & He & [= <- <-]). apply map_err_Ok in He. exists ns, ns', ops. done.
Qed.

(** The addresses are those of the sections, in another order. *)
Lemma compileHost_addresses ns ns' ops :
  Forall2 (extends (n_Address <$> ns)) ns ns' ->
  declared (sort_by node_less ns') (sort_by operation_less (set_op_Host (h_Name host) <$> ops)) ≡ₚ declared ns ops.
Proof.
  intros Hext. unfold declared. rewrite !sort_by_perm, (extends_addresses _ _ _ Hext).
  by rewrite <- list_fmap_compose.
Qed.

Lemma compileHost_walk nodes operations :
  compileHost range_keys host = Ok (nodes, operations) ->
  Forall (closed_node host (declared nodes operations)) nodes
  /\ Forall (closed_operation host (declared nodes operations)) operations.
Proof.
  intros (ns & ns' & ops & Hg & He & -> & ->)%compileHost_inv.
  apply explicit_extends in He. assert (Hperm := compileHost_addresses _ _ ops He).
  apply host_graph_inv in Hg as (dg & triggers & rs & acts & pre & Hcp & -> & ->).
  destruct (run_closed _ _ _ _ _ _ _ Hcp) as [HN HO]. set (known := declared (sort_by _ _) (sort_by _ _)) in *.
  split.
  - apply Forall_forall. intros n Hn. rewrite elem_of_sort_by in Hn. apply list_elem_of_lookup_1 in Hn as [i Hi].
    destruct (Forall2_lookup_r _ _ _ _ _ He Hi) as (m & Hm & Hh & Ha & _ & Hd).
    destruct (HN m) as [Hmh Hma Hmd]; [by eapply list_elem_of_lookup_2|]. rewrite Forall_forall in Hmd. split.
    + by rewrite Hh.
    + by rewrite Ha.
    + intros d Hin. rewrite Hperm. destruct (Hd d Hin) as [?|?]; [auto|]. apply elem_of_app. by left.
  - apply Forall_forall. intros o Ho. rewrite elem_of_sort_by in Ho. apply list_elem_of_fmap in Ho as (o' & -> & Ho').
    destruct (HO o' Ho') as [Ha Hd Ht]. rewrite Forall_forall in Hd, Ht. split; [done|done| |].
    + intros d Hin. rewrite Hperm. auto.
    + intros t Hin. rewrite Hperm. auto.
Qed.
End compileHost.

(** C4: [compileHost] never emits a dangling or foreign edge.  Whatever the
    specification of the host, when it succeeds every node and operation
    carries the host's name and an address under it, every dependency of a node
    and every dependency and trigger of an operation - computed ones through
    all address tables, and the explicit ones - is the address of a node or an
    operation of the same result, and both lists are sorted by address. *)
Theorem compileHost_closed range_keys host nodes operations :
  compileHost range_keys host = Ok (nodes, operations) ->
  Forall (closed_node host (declared nodes operations)) nodes
  /\ Forall (closed_operation host (declared nodes operations)) operations
  /\ StronglySorted address_order (n_Address <$> nodes)
  /\ StronglySorted address_order (op_Address <$> operations).
Proof.
  intros Hrun. destruct (compileHost_walk _ _ _ _ Hrun) as [Hn Ho]. split_and!; [done|done|..];
    apply compileHost_inv in Hrun as (ns & ns' & ops & _ & _ & -> & ->).
  - apply sort_nodes_sorted.
  - apply sort_operations_sorted.
Qed.

Lemma compileHost_closed_witness :
  length compiled_example.1 = 36
  /\ Forall (closed_node example_host (declared compiled_example.1 compiled_example.2)) compiled_example.1
  /\ Forall (closed_operation example_host (declared compiled_example.1 compiled_example.2)) compiled_example.2.
Proof.
  split; [vm_compute; reflexivity|].
  destruct (compileHost_closed in_order example_host compiled_example.1 compiled_example.2) as (Hn & Ho & _); [|by split].
  rewrite <- surjective_pairing. exact example_host_compiles.
Defined.

(** ** Acceptance by the scheduler *)

Section accepts.
Context (range_keys : string -> gmap string string -> list string).

(** A host whose graph is built from its sections alone: no [depends_on], no
    network stored under the path of a netdev, and no script that two groups of
    networkd files run after the reload. *)
Record plain_host (host : HostSpec) : Prop := {
  ph_name : h_Name host <> "";
  ph_explicit : explicit_dependencies_of host = [];
  ph_networks : forall sc nw p, (sc, nw) ∈ all_networkd host -> p ∈ sorted_entries (nw_Networks nw) ->
    strings_HasSuffix (nn_Path p.2) ".netdev" = false;
  ph_scripts : forall acts, collectActivations host = Ok acts -> NoDup (post_reload_scripts range_keys host acts);
}.

(** A set of addresses closed under the dependencies of the result holds all
    its dependencies. *)
Lemma compileHost_induction host nodes operations (P : string -> Prop) :
  plain_host host -> compileHost range_keys host = Ok (nodes, operations) ->
  (forall n, n ∈ nodes -> Forall P (n_DependsOn n) -> P (n_Address n)) ->
  (forall o, o ∈ operations -> Forall P (op_DependsOn o) -> P (op_Address o)) ->
  forall a, a ∈ declared nodes operations -> P a.
Proof.
  intros [_ Hex Hnet Hscr] (ns & ns' & ops & Hg & He & -> & ->)%compileHost_inv HN HO a Ha.
  rewrite Hex in He. injection He as <-. setoid_rewrite elem_of_sort_by in HN. setoid_rewrite elem_of_sort_by in HO.
  assert (HO' : forall o, o ∈ ops -> Forall P (op_DependsOn o) -> P (op_Address o)).
  { intros o Ho Hd. apply (HO (set_op_Host (h_Name host) o)); [by apply list_elem_of_fmap_2|done]. }
  apply host_graph_inv in Hg as (dg & triggers & rs & acts & pre & Hcp & -> & ->).
  destruct (run_walk _ _ _ _ _ _ _ Hcp P HN HO') as [Wn Wo].
  - by apply (netdevs_known range_keys host dg triggers rs pre P HN HO').
  - left. apply Hscr, (cp_acts _ _ _ _ _ _ _ Hcp).
  - unfold declared in Ha. rewrite !sort_by_perm, <- list_fmap_compose in Ha.
    apply elem_of_app in Ha as [(n & -> & Hn)%list_elem_of_fmap|(o & -> & Ho)%list_elem_of_fmap].
    + apply HN; [done|]. apply (no_deps _ _ _ (Wn n Hn)).
    + apply (HO' o); [done|]. apply (oo_deps _ _ _ (Wo o Ho)).
Qed.

Lemma compile_fold hosts : forall N0 O0 N O,
  fold_res (compile_step range_keys) hosts (N0, O0) = Ok (N, O) ->
  N0 ⊆ N /\ O0 ⊆ O /\
  (forall host, host ∈ hosts -> exists ns ops, compileHost range_keys host = Ok (ns, ops) /\ ns ⊆ N /\ ops ⊆ O) /\
  (forall n, n ∈ N -> n ∈ N0 \/ exists host ns ops, host ∈ hosts /\ compileHost range_keys host = Ok (ns, ops)
     /\ n ∈ ns /\ ns ⊆ N /\ ops ⊆ O) /\
  (forall o, o ∈ O -> o ∈ O0 \/ exists host ns ops, host ∈ hosts /\ compileHost range_keys host = Ok (ns, ops)
     /\ o ∈ ops /\ ns ⊆ N /\ ops ⊆ O).
Proof.
  induction hosts as [|host hosts IH]; intros N0 O0 N O; cbn [fold_res].
  { intros [= <- <-]. split_and!; auto. by intros h ?%elem_of_nil. }
  unfold compile_step at 1. destruct (compileHost range_keys host) as [[ns ops]|] eqn:Hc; [|done].
  cbn [map_err]. rewrite Ok_bind. cbn [fst snd]. intros (Hn & Ho & Hall & HN & HO)%IH.
  apply list_subseteq_app_iff_l in Hn as [HN0 Hns], Ho as [HO0 Hops].
  split_and!; [done|done|..].
  - intros h [->|Hh]%elem_of_cons; [by exists ns, ops|auto].
  - intros n Hin. destruct (HN n Hin) as [[?|?]%elem_of_app|(h & ns' & ops' & Hh & Hrun)]; [by left|..]; right.
    + exists host, ns, ops. split_and!; [left|done..].
    + exists h, ns', ops'. split; [by right|done].
  - intros o Hin. destruct (HO o Hin) as [[?|?]%elem_of_app|(h & ns' & ops' & Hh & Hrun)]; [by left|..]; right.
    + exists host, ns, ops. split_and!; [left|done..].
    + exists h, ns', ops'. split; [by right|done].
Qed.

Section program.
Context (program : Program) (N : list Node) (O : list Operation).
Context (Hplain : forall host, host ∈ p_Hosts program -> plain_host host).
Context (Hhosts : fold_res (compile_step range_keys) (p_Hosts program) ([], []) = Ok (N, O)).

Definition program_graph : ResourceGraph :=
  {| g_Nodes := sort_by node_less N; g_Operations := sort_by operation_less O |}.

Lemma program_vertices a ds :
  (a, ds) ∈ graph_vertices program_graph <->
  (exists n, n ∈ N /\ a = n_Address n /\ ds = n_DependsOn n) \/ exists o, o ∈ O /\ a = op_Address o /\ ds = op_DependsOn o.
Proof.
  unfold graph_vertices, program_graph. cbn [g_Nodes g_Operations]. rewrite elem_of_app, !list_elem_of_fmap. split.
  - intros [(n & [= -> ->] & Hn)|(o & [= -> ->] & Ho)]; [left; exists n|right; exists o];
      (split; [by apply elem_of_sort_by in Hn || apply elem_of_sort_by in Ho|done]).
  - intros [(n & Hn & -> & ->)|(o & Ho & -> & ->)]; [left; exists n|right; exists o];
      (split; [done|by apply elem_of_sort_by]).
Qed.

Lemma program_addresses : addresses program_graph ≡ₚ declared N O.
Proof.
  unfold addresses, graph_vertices, declared, program_graph. cbn [g_Nodes g_Operations].
  rewrite fmap_app, <- !list_fmap_compose. by rewrite !sort_by_perm.
Qed.

(** Each vertex comes from a host, whose declared addresses are the
    program's. *)
Lemma program_source a ds :
  (a, ds) ∈ graph_vertices program_graph ->
  exists host ns ops, host ∈ p_Hosts program /\ compileHost range_keys host = Ok (ns, ops) /\ ns ⊆ N /\ ops ⊆ O
    /\ a ∈ declared ns ops /\ belongs host a /\ ds ⊆ declared ns ops.
Proof.
  destruct (compile_fold _ _ _ _ _ Hhosts) as (_ & _ & _ & HN & HO).
  intros [(n & Hn & -> & ->)|(o & Ho & -> & ->)]%program_vertices.
  - destruct (HN n Hn) as [?%elem_of_nil|(host & ns & ops & Hin & Hrun & Hmem & Hns & Hops)]; [done|].
    exists host, ns, ops. destruct (compileHost_walk _ _ _ _ Hrun) as [Hall _]. rewrite Forall_forall in Hall.
    destruct (Hall n Hmem) as [_ Hb Hd]. split_and!; try done. apply elem_of_app. left. by apply list_elem_of_fmap_2.
  - destruct (HO o Ho) as [?%elem_of_nil|(host & ns & ops & Hin & Hrun & Hmem & Hns & Hops)]; [done|].
    exists host, ns, ops. destruct (compileHost_walk _ _ _ _ Hrun) as [_ Hall]. rewrite Forall_forall in Hall.
    destruct (Hall o Hmem) as [_ Hb Hd _]. split_and!; try done. apply elem_of_app. right. by apply list_elem_of_fmap_2.
Qed.

Lemma declared_mono (ns : list Node) ops a : ns ⊆ N -> ops ⊆ O -> a ∈ declared ns ops -> a ∈ declared N O.
Proof.
  intros Hn Ho [(n & -> & ?)%list_elem_of_fmap|(o & -> & ?)%list_elem_of_fmap]%elem_of_app; apply elem_of_app;
    [left|right]; apply list_elem_of_fmap_2; auto.
Qed.

Lemma program_wf : NoDup (declared N O) -> graph_wf program_graph.
Proof.
  intros Hnd. destruct (compile_fold _ _ _ _ _ Hhosts) as (_ & _ & _ & _ & HO). split.
  - by rewrite program_addresses.
  - intros ((a & ds) & E & Hv)%list_elem_of_fmap. cbn in E. subst a.
    apply program_source in Hv as (host & _ & _ & _ & _ & _ & _ & _ & [t E]%belongs_iff & _). discriminate E.
  - apply Forall_forall. intros o Ho. apply elem_of_sort_by in Ho.
    destruct (HO o Ho) as [?%elem_of_nil|(host & ns & ops & Hin & Hrun & Hmem & _)]; [done|].
    destruct (compileHost_walk _ _ _ _ Hrun) as [_ Hall]. rewrite Forall_forall in Hall.
    rewrite (co_host _ _ _ (Hall o Hmem)). by apply (ph_name host), Hplain.
  - intros a b (ds & Hv & Hb & _). rewrite program_addresses.
    apply program_source in Hv as (host & ns & ops & _ & _ & Hns & Hops & _ & _ & Hd). by apply (declared_mono ns ops), Hd.
  - intros o t Ho Ht _. rewrite program_addresses. apply elem_of_sort_by in Ho.
    destruct (HO o Ho) as [?%elem_of_nil|(host & ns & ops & Hin & Hrun & Hmem & Hns & Hops)]; [done|].
    destruct (compileHost_walk _ _ _ _ Hrun) as [_ Hall]. rewrite Forall_forall in Hall.
    by apply (declared_mono ns ops), (co_triggers _ _ _ (Hall o Hmem)).
Qed.

(** With distinct addresses a vertex has one list of dependencies. *)
Lemma program_vertex_unique a ds ds' :
  NoDup (declared N O) -> (a, ds) ∈ graph_vertices program_graph -> (a, ds') ∈ graph_vertices program_graph -> ds = ds'.
Proof.
  rewrite <- program_addresses. unfold addresses. intros Hnd [i Hi]%list_elem_of_lookup_1 [j Hj]%list_elem_of_lookup_1.
  assert (i = j) as <-; [|congruence].
  eapply (NoDup_lookup _ _ _ a Hnd); rewrite list_lookup_fmap; by rewrite ?Hi, ?Hj.
Qed.

Lemma program_acyclic a : NoDup (declared N O) -> ~ tc (graph_edge program_graph) a a.
Proof.
  intros Hnd Hcyc. assert (Ha : a ∈ addresses program_graph) by (inversion Hcyc; subst; by eapply graph_edge_source).
  apply list_elem_of_fmap in Ha as ((a' & ds) & -> & Hv). revert Hcyc. apply Acc_acyclic. cbn [fst].
  apply program_source in Hv as (host & ns & ops & Hin & Hrun & Hns & Hops & Ha & _).
  assert (Hstep : forall a ds, (a, ds) ∈ graph_vertices program_graph ->
    Forall (Acc (fun b a => graph_edge program_graph a b)) ds -> Acc (fun b a => graph_edge program_graph a b) a).
  { intros x l Hx Hl. constructor. intros y (l' & Hx' & Hy & _).
    rewrite (program_vertex_unique _ _ _ Hnd Hx' Hx) in Hy. rewrite Forall_forall in Hl. auto. }
  apply (compileHost_induction host ns ops _ (Hplain _ Hin) Hrun); [| |done].
  - intros n Hn. apply Hstep, program_vertices. left. exists n. auto.
  - intros o Ho. apply Hstep, program_vertices. right. exists o. auto.
Qed.
End program.
End accepts.


Lemma example_plain : plain_host in_order example_host.
Proof.
  split; [done|done| |].
  - intros sc nw p Hnw Hp.
    assert (Hall : forallb (fun e => forallb (fun p => negb (strings_HasSuffix (nn_Path p.2) ".netdev"))
                                       (sorted_entries (nw_Networks e.2))) (all_networkd example_host) = true)
      by (vm_compute; reflexivity).
    rewrite forallb_forall in Hall. specialize (Hall (sc, nw)). rewrite <- list_elem_of_In in Hall. specialize (Hall Hnw).
    rewrite forallb_forall in Hall. specialize (Hall p). rewrite <- list_elem_of_In in Hall.
    by apply negb_true_iff, Hall.
  - intros acts Ha. rewrite (ok_or (collectActivations example_host) no_activations) in Ha by (vm_compute; reflexivity).
    assert (Hinj : forall a b : activations, @Ok compile_error _ a = Ok b -> a = b) by congruence. apply Hinj in Ha as <-. apply (bool_decide_eq_true_1 _). vm_compute. reflexivity.
Qed.

