(* ===== verification/GraphSensitive.v ===== *)
(** * Sensitive content in a compiled graph

    No compiled node that is marked sensitive shows its content among its
    desired attributes: the digest and the size stand for it there, and the
    content itself travels in the provider payload only. *)
From S2P Require Import Prelude Sha256 GoValue GoStrings IR HostIR Graph GraphHelpers GraphSystemd GraphDocker GraphHost GraphClosed GraphClosedLate GraphCompile GraphCompileProps.

Definition discreet (d : gomap) : Prop := boolMapValue d "sensitive" = true -> d !! "content" = None.
Definition discreet_node (n : Node) : Prop := discreet (n_Desired n).

(** ** Keys of attribute maps *)

Section keys.
Context (k : string).

Lemma attrs_none l : existsb (String.eqb k) l.*1 = false -> attrs l !! k = None.
Proof.
  intros Hk. apply not_elem_of_list_to_map_1. intros Hin. apply not_true_iff_false in Hk. apply Hk, existsb_exists.
  exists k. split; [by apply list_elem_of_In|apply String.eqb_refl].
Qed.

Lemma insert_none key v (m : gomap) : key <> k -> m !! k = None -> <[key := v]> m !! k = None.
Proof. intros. by rewrite lookup_insert_ne. Qed.

Lemma set_if_ne c key v (m : gomap) : key <> k -> set_if c key v m !! k = m !! k.
Proof. intros. unfold set_if. destruct c; [by rewrite lookup_insert_ne|done]. Qed.

Lemma set_if_none c key v m : key <> k -> m !! k = None -> set_if c key v m !! k = None.
Proof. intros. unfold set_if. destruct c; [by apply insert_none|done]. Qed.

Lemma delete_none key (m : gomap) : m !! k = None -> delete key m !! k = None.
Proof. intros H. apply lookup_delete_None. by right. Qed.

Lemma in_component_none sc m : "component" <> k -> m !! k = None -> in_component sc m !! k = None.
Proof. intros. unfold in_component. destruct (scope_Component sc); [by apply insert_none|done]. Qed.
End keys.

(** Searches a map built key by key. *)
Ltac no_key :=
  repeat match goal with
  | |- attrs _ !! _ = None => apply attrs_none; reflexivity
  | |- ∅ !! _ = None => apply lookup_empty
  | |- set_if _ _ _ _ !! _ = None => apply set_if_none; [discriminate|]
  | |- in_component _ _ !! _ = None => apply in_component_none; [discriminate|]
  | |- delete _ _ !! _ = None => apply delete_none
  | |- <[_ := _]> _ !! _ = None => apply insert_none; [discriminate|]
  end.

Lemma discreet_no_content d : d !! "content" = None -> discreet d.
Proof. by intros ? _. Qed.

Lemma discreet_not_sensitive d : d !! "sensitive" = None -> discreet d.
Proof. unfold discreet, boolMapValue. by intros ->. Qed.

(** Shows the attributes of a node literal. *)
Ltac show_desired :=
  unfold discreet_node;
  lazymatch goal with
  | |- context [n_Desired ?n] => let n' := eval hnf in n in let d := eval cbv beta iota delta [n_Desired] in (n_Desired n') in
                                change (n_Desired n) with d
  end.
Ltac quiet := show_desired; apply discreet_no_content; no_key.

(** ** The builders that take content *)

Lemma content_discreet desired content path sensitive summary :
  desired !! "content" = None -> desired !! "sensitive" = None ->
  discreet (contentResourceDesiredPayload desired content path sensitive summary).1.
Proof.
  intros Hc Hs. unfold contentResourceDesiredPayload. cbn [fst]. destruct sensitive.
  - apply discreet_no_content. case_bool_decide; repeat (apply insert_none; [discriminate|]); done.
  - apply discreet_not_sensitive. case_bool_decide; destruct (_ || _); repeat (apply insert_none; [discriminate|]); done.
Qed.

Lemma file_discreet item : discreet (fileResourceDesiredPayload item).1.
Proof.
  unfold fileResourceDesiredPayload. cbn [fst]. intros Hs. assert (Hsens : fr_Sensitive item = true).
  { unfold boolMapValue in Hs. rewrite !set_if_ne in Hs by discriminate. exact Hs. }
  rewrite Hsens. cbn [negb]. rewrite andb_false_r. cbn [set_if]. no_key.
Qed.

Lemma insert_discreet key v d : key <> "content" -> key <> "sensitive" -> discreet d -> discreet (<[key := v]> d).
Proof.
  unfold discreet, boolMapValue. intros Hc Hs H. rewrite !lookup_insert_ne by congruence. done.
Qed.

Lemma redact_none desired urlKey shaKey source :
  urlKey +:+ "_digest" <> "content" -> shaKey +:+ "_digest" <> "content" ->
  desired !! "content" = None -> redactComponentArtifactSourceFields desired urlKey shaKey source !! "content" = None.
Proof.
  intros Hu Hs Hd. unfold redactComponentArtifactSourceFields.
  repeat case_match; repeat first [apply insert_none; [first [done|discriminate]|]|apply delete_none]; done.
Qed.

(** ** The sections *)

Section sections.
Context (host : HostSpec).

Lemma group_discreet sc p : discreet_node (group_node host sc p).
Proof. destruct p as [name item]. quiet. Qed.
Lemma user_discreet sc p n : n ∈ user_and_keys host sc p -> discreet_node n.
Proof. destruct p as [name item]. intros [->|(key & -> & _)%list_elem_of_fmap]%elem_of_cons; quiet. Qed.
Lemma directory_discreet sc p : discreet_node (directory_node host sc p).
Proof. destruct p as [path item]. quiet. Qed.
Lemma module_discreet m : discreet_node (module_node host m).
Proof. quiet. Qed.
Lemma sysctl_discreet s : discreet_node (sysctl_node host s).
Proof. quiet. Qed.

(** A builder result is opened to its first component. *)
Lemma file_payload_discreet item desired payload : fileResourceDesiredPayload item = (desired, payload) -> discreet desired.
Proof. intros E. generalize (file_discreet item). by rewrite E. Qed.
Lemma content_payload_discreet d content path sensitive summary desired payload :
  contentResourceDesiredPayload d content path sensitive summary = (desired, payload) ->
  d !! "content" = None -> d !! "sensitive" = None -> discreet desired.
Proof. intros E Hc Hs. generalize (content_discreet d content path sensitive summary Hc Hs). by rewrite E. Qed.

Lemma file_node_discreet sc p : discreet_node (file_node host sc p).
Proof.
  destruct p as [path item]. unfold file_node. destruct (fileResourceDesiredPayload _) as [desired payload] eqn:E.
  by eapply file_payload_discreet.
Qed.
Lemma secret_discreet sc p : discreet_node (secret_node host sc p).
Proof.
  destruct p as [path item]. unfold secret_node. destruct (fileResourceDesiredPayload _) as [desired payload] eqn:E.
  by eapply file_payload_discreet.
Qed.

Lemma nft_file_discreet address item deps : discreet_node (nftablesFileNode (h_Name host) address item deps).
Proof.
  unfold nftablesFileNode. destruct (contentResourceDesiredPayload _ _ _ _ _) as [desired payload] eqn:E.
  (* the attributes already say whether the file is sensitive *)
  unfold discreet_node. cbn [n_Desired make_node]. unfold contentResourceDesiredPayload in E. injection E as <- _. destruct (nf_Sensitive item) eqn:Es.
  - apply discreet_no_content. case_bool_decide; no_key.
  - intros H. exfalso. revert H. unfold boolMapValue.
    case_bool_decide; destruct (_ || _); rewrite ?lookup_insert_ne by discriminate; done.
Qed.

Lemma apt_discreet sc apt n : n ∈ apt_nodes sc apt -> discreet_node n.
Proof.
  intros [([name item] & Hn & _)%list_elem_of_bind|([label item] & -> & _)%list_elem_of_fmap]%elem_of_app.
  - assert (Hrepo : forall deps, discreet_node (repository_source_node sc name item deps)).
    { intros deps. apply discreet_not_sensitive. cbn [n_Desired make_node repository_source_node]. no_key. }
    unfold repository_nodes in Hn. destruct (ar_SigningKey item) as [key|].
    + rewrite elem_of_cons, list_elem_of_singleton in Hn. destruct Hn as [->| ->]; [|done].
      unfold signing_key_node. destruct (contentResourceDesiredPayload _ _ _ _ _) as [desired payload] eqn:E.
      eapply content_payload_discreet; [exact E|no_key..].
    + by apply list_elem_of_singleton in Hn as ->.
  - unfold source_file_node. case_bool_decide; [quiet|].
    destruct (contentResourceDesiredPayload _ _ _ _ _) as [desired payload] eqn:E.
    eapply content_payload_discreet; [exact E|no_key..].
Qed.

Lemma package_discreet sc repositories refresh item : discreet_node (package_node sc repositories refresh item).
Proof. unfold package_node. destruct (pk_Repositories item); quiet. Qed.

Lemma artifact_discreet c n : n ∈ artifact_nodes host (component_scope host c) c -> discreet_node n.
Proof.
  unfold artifact_nodes. destruct (artifact_parts c) as [[source install]|]; [|by intros ?%elem_of_nil].
  rewrite !elem_of_app, !list_elem_of_singleton. intros [->|[Hn| ->]].
  - unfold download_node. destruct (componentArtifactSourceSensitive source); [|quiet].
    apply discreet_no_content. cbn [n_Desired make_node]. apply redact_none; [done|done|no_key].
  - destruct (source_build c) as [build|]; [|by apply elem_of_nil in Hn]. unfold build_nodes in Hn.
    apply elem_of_app in Hn as [(pkg & -> & _)%list_elem_of_fmap| ->%list_elem_of_singleton]; [quiet|].
    apply discreet_no_content. cbn [n_Desired make_node]. apply redact_none; [done|done|]. destruct (ci_Extract c); no_key.
  - unfold install_node. destruct (source_build c); apply discreet_no_content; cbn [n_Desired make_node];
      [no_key|]; (apply redact_none; [done|done|]); destruct (ci_Extract c); no_key.
Qed.

Lemma unit_discreet address component item deps : discreet_node (systemdUnitNode (h_Name host) address component item deps).
Proof.
  unfold discreet_node, systemdUnitNode. cbn [n_Desired make_node]. destruct (su_Sensitive item).
  - apply discreet_no_content. cbn [negb]. rewrite andb_false_r. cbn [set_if]. no_key.
  - apply discreet_not_sensitive. no_key.
Qed.

Lemma service_discreet address component name unit_ pkg enabled state summary source deps :
  discreet_node (systemdManagedServiceNode (h_Name host) address component name unit_ pkg enabled state summary source deps).
Proof. unfold discreet_node, systemdManagedServiceNode. destruct enabled; quiet. Qed.

Lemma dropin_discreet packages name p n : n ∈ dropin_nodes host packages name p -> discreet_node n.
Proof.
  destruct p as [sc item]. unfold dropin_nodes. intros [->%list_elem_of_singleton|Hn]%elem_of_app.
  - unfold systemdDropInFileNode. destruct (fileResourceDesiredPayload _) as [desired payload] eqn:E.
    by eapply file_payload_discreet.
  - unfold dropin_service, systemdStateServiceNode in Hn. destruct (_ && _); cbn [from_option] in Hn;
      [by apply elem_of_nil in Hn|]. apply list_elem_of_singleton in Hn as ->. apply service_discreet.
Qed.

Lemma netdev_discreet sc p : discreet_node (netdev_node host sc p).
Proof.
  destruct p as [label item]. unfold netdev_node, networkdNetDevNode. destruct (nonempty (nd_ContentMode item)).
  - destruct (fileResourceDesiredPayload _) as [desired payload] eqn:E. unfold discreet_node. cbn [n_Desired make_node].
    repeat (apply insert_discreet; [discriminate|discriminate|]). by eapply file_payload_discreet.
  - apply discreet_not_sensitive. cbn [n_Desired make_node]. no_key.
Qed.

Lemma network_discreet range_keys sc p : discreet_node (network_node range_keys host sc p).
Proof.
  destruct p as [label item]. unfold network_node, networkdNetworkNode. destruct (nonempty (nn_ContentMode item)).
  - destruct (fileResourceDesiredPayload _) as [desired payload] eqn:E. unfold discreet_node. cbn [n_Desired make_node].
    repeat (apply insert_discreet; [discriminate|discriminate|]). by eapply file_payload_discreet.
  - apply discreet_not_sensitive. cbn [n_Desired make_node]. no_key.
Qed.

Lemma outputs_discreet summary key value name script outputs : forall trig n,
  key <> "content" -> n ∈ (output_nodes (output_node (h_Name host) summary key value name script) outputs trig).1 -> discreet_node n.
Proof.
  induction outputs as [|output outputs IH]; intros trig n Hk; cbn [output_nodes]; [by intros ?%elem_of_nil|].
  destruct (output_nodes _ outputs _) as [ns after] eqn:E. intros [->|Hn]%elem_of_cons.
  - apply discreet_no_content. cbn [n_Desired make_node output_node]. apply set_if_none; [done|].
    unfold attrs. cbn [list_to_map foldr]. by simplify_map_eq.
  - eapply (IH _ n Hk). by rewrite E.
Qed.
End sections.

(** ** The Docker engine *)

Lemma discreet_all (l : list Node) : Forall discreet_node l -> forall n, n ∈ l -> discreet_node n.
Proof. by rewrite Forall_forall. Qed.

Lemma compose_project_discreet host packages fileService projectService name c pn po a n :
  compose_project host packages fileService projectService name c = Ok (pn, po, a) -> n ∈ pn -> discreet_node n.
Proof.
  unfold compose_project. intros Hrun. apply bind_Ok in Hrun as (file & _ & Hrun).
  destruct (compose_service _ _ _ _ _ _) as [[sn so] sa] eqn:Hsvc. injection Hrun as <- _ _.
  assert (Hfile : forall address item summary deps, discreet_node (dockerComposeFileNode host address name item summary deps)).
  { intros. unfold dockerComposeFileNode. destruct (fileResourceDesiredPayload _) as [desired payload] eqn:E.
    unfold discreet_node. cbn [n_Desired make_node]. apply insert_discreet; [discriminate|discriminate|].
    by eapply file_payload_discreet. }
  rewrite !elem_of_cons, !elem_of_app, list_elem_of_singleton.
  intros [->|[->|[(p & -> & _)%list_elem_of_fmap|[Hn| ->]]]]; [quiet|done|done|..].
  - unfold compose_service in Hsvc. destruct (dcs_Enable (dc_Service c)); [|injection Hsvc as <- _ _; by apply elem_of_nil in Hn].
    injection Hsvc as <- _ _. rewrite elem_of_cons, list_elem_of_singleton in Hn. destruct Hn as [->| ->].
    + apply discreet_not_sensitive. cbn [n_Desired make_node]. unfold dockerComposeSystemdUnitDesired. no_key.
    + apply discreet_no_content. cbn [n_Desired make_node]. unfold dockerComposeServiceDesired.
      destruct (if decide (dc_State c = "running") then _ else _). no_key.
  - apply discreet_no_content. cbn [n_Desired make_node]. unfold dockerComposeProjectDesired.
    destruct (sorted_entries (dc_EnvFiles c)), (dc_File c); no_key.
Qed.

Lemma docker_official_discreet host docker repositories out n :
  docker_official host docker repositories = Ok out -> n ∈ dg_Nodes out -> discreet_node n.
Proof.
  unfold docker_official. intros Hrun. res_inv. destruct x3 as [url gpg]. res_inv. cbn [dg_Nodes].
  rewrite !elem_of_cons. rewrite elem_of_nil. intros [->|[->|[->|Hn]]].
  - quiet.
  - apply discreet_not_sensitive. cbn [n_Desired make_node]. no_key.
  - quiet.
  - by destruct_or?; subst; quiet.
Qed.

Lemma membership_discreet host docker groups users n : n ∈ dockerUserMembershipNodes host docker groups users -> discreet_node n.
Proof.
  unfold dockerUserMembershipNodes. destruct (dk_Users docker); [by intros ?%elem_of_nil|].
  destruct (groups !! "docker"); rewrite elem_of_app.
  - intros [?%elem_of_nil|(u & -> & _)%list_elem_of_fmap]; [done|quiet].
  - intros [->%list_elem_of_singleton|(u & -> & _)%list_elem_of_fmap]; quiet.
Qed.

Lemma docker_discreet host repositories groups users dg n :
  dockerEngineNodes host repositories groups users = Ok dg -> n ∈ dg_Nodes dg -> discreet_node n.
Proof.
  unfold dockerEngineNodes. destruct (h_Docker host) as [docker|]; [|intros [= <-]; by intros ?%elem_of_nil].
  destruct (dk_Enable docker); cbn [negb]; [|intros [= <-]; by intros ?%elem_of_nil]. intros Hrun.
  do 3 apply bind_Ok in Hrun as (? & _ & Hrun). apply bind_Ok in Hrun as (out & Hout & Hrun).
  destruct (match dk_Daemon docker with Some _ => _ | None => _ end) as [[da dn] dops] eqn:Hd.
  apply bind_Ok in Hrun as ([[cn cops] validates] & Hc & [= <-]). cbn [dg_Nodes].
  rewrite !elem_of_app, elem_of_cons. intros [Hn|[Hn|[Hn|[->|Hn]]]].
  - case_bool_decide; [by eapply docker_official_discreet|]. injection Hout as <-. by apply elem_of_nil in Hn.
  - by eapply membership_discreet.
  - destruct (dk_Daemon docker) as [daemon|]; injection Hd as _ <- _; [|by apply elem_of_nil in Hn].
    apply list_elem_of_singleton in Hn as ->. apply discreet_not_sensitive.
    cbn [n_Desired set_n_DependsOn dockerDaemonGraph make_node]. no_key.
  - quiet.
  - unfold dockerComposeGraph in Hc. apply compose_fold in Hc as (_ & _ & Hns & _).
    destruct (Hns n Hn) as [?%elem_of_nil|(name & c & pn & po & a & Hp & Hin & _)]; [done|].
    by eapply compose_project_discreet.
Qed.

(** ** The whole host *)

Section whole.
Context (range_keys : string -> gmap string string -> list string) (host : HostSpec).

Lemma wait_refresh_discreet refresh n : discreet_node n -> discreet_node (wait_for_refresh host refresh n).
Proof. unfold wait_for_refresh. by destruct (_ && _). Qed.
Lemma wait_engine_discreet dg n : discreet_node n -> discreet_node (wait_for_engine dg n).
Proof. unfold wait_for_engine. by destruct (_ && _). Qed.

Lemma engine_discreet dg n :
  dockerEngineNodes host ∅ (groupAddresses host) (userAddresses host) = Ok dg ->
  n ∈ engine_nodes host dg -> discreet_node n.
Proof.
  unfold engine_nodes. intros Hdg (m & -> & Hm)%list_elem_of_fmap. apply wait_engine_discreet. revert Hm. rewrite !elem_of_app.
  intros [(k & -> & Hk)%list_elem_of_fmap|[Hm|[Hm|Hm]]].
  - apply wait_refresh_discreet. rewrite !elem_of_app in Hk. destruct Hk as [Hk|[Hk|[Hk|Hk]]].
    + unfold system_nodes in Hk. rewrite !elem_of_app in Hk.
      destruct Hk as [Hk|[Hk|Hk]]; destruct (_ : bool) in Hk; apply list_elem_of_singleton in Hk || apply elem_of_nil in Hk;
        subst; try done; quiet.
    + by eapply docker_discreet.
    + unfold kernel_nodes in Hk. apply elem_of_app in Hk as [(x & -> & _)%list_elem_of_fmap|(x & -> & _)%list_elem_of_fmap]; quiet.
    + apply elem_of_all_apt in Hk as (sc & apt & _ & Hk & _). by eapply apt_discreet.
  - apply elem_of_package_nodes in Hm as (sc & item & _ & ->). apply package_discreet.
  - apply list_elem_of_fmap in Hm as (item & -> & _). apply nft_file_discreet.
  - unfold nftables_enable in Hm. destruct (nft_Enable (h_Nftables host)); [|by apply elem_of_nil in Hm].
    apply list_elem_of_singleton in Hm as ->. quiet.
Qed.

Lemma script_nodes_discreet triggers rootScripts n :
  root_scripts host triggers = Ok rootScripts ->
  n ∈ concat (component_scripts host triggers ++ rootScripts).*1 -> discreet_node n.
Proof.
  intros Hroot (l & Hl & Hn)%list_elem_of_In%in_concat. apply list_elem_of_In in Hl as (s & -> & Hs)%list_elem_of_fmap.
  apply list_elem_of_In in Hn.
  apply elem_of_app in Hs as [(c & Hc & ([name trig] & -> & Hin)%list_elem_of_fmap)%elem_of_each_component|Hs].
  - unfold component_script in Hn. destruct (ci_Scripts c !! name) as [script|]; [|by apply elem_of_nil in Hn].
    destruct (output_nodes _ _ _) as [ns after] eqn:E. eapply (outputs_discreet host); [|rewrite E; exact Hn]. discriminate.
  - revert s Hs n Hn. revert Hroot. unfold root_scripts.
    apply (fold_res_inv (fun acc => forall s, s ∈ acc -> forall n, n ∈ s.1 -> discreet_node n)); [|by intros s ?%elem_of_nil].
    intros acc [id addresses] acc' _ Hacc. cbn [root_script]. intros Hrun.
    apply bind_Ok in Hrun as (script & _ & Hrun). apply bind_Ok in Hrun as (u & _ & Hrun).
    destruct (output_nodes _ _ _) as [ns after] eqn:E. injection Hrun as <-.
    intros s [?| ->%list_elem_of_singleton]%elem_of_app n Hn; [by eapply Hacc|].
    eapply (outputs_discreet host); [|rewrite E; exact Hn]. discriminate.
Qed.

Lemma compiled_discreet dg triggers rootScripts n :
  dockerEngineNodes host ∅ (groupAddresses host) (userAddresses host) = Ok dg ->
  root_scripts host triggers = Ok rootScripts ->
  n ∈ compiled_nodes range_keys host dg (component_scripts host triggers ++ rootScripts) -> discreet_node n.
Proof.
  intros Hdg Hroot. unfold compiled_nodes. rewrite !elem_of_app.
  intros [Hn|[Hn|[Hn|[Hn|[Hn|[Hn|[Hn|[Hn|[Hn|[Hn|[Hn|[Hn|[Hn|Hn]]]]]]]]]]]]].
  - by eapply engine_discreet.
  - apply elem_of_each_component in Hn as (c & _ & Hn). by eapply artifact_discreet.
  - apply elem_of_scoped_fmap in Hn as (sc & p & _ & ->). apply directory_discreet.
  - apply elem_of_scoped_fmap in Hn as (sc & p & _ & ->). apply file_node_discreet.
  - by eapply script_nodes_discreet.
  - apply elem_of_scoped_fmap in Hn as (sc & p & _ & ->). apply secret_discreet.
  - apply elem_of_scoped_fmap in Hn as (sc & p & _ & ->). apply group_discreet.
  - apply elem_of_scoped_bind in Hn as (sc & p & _ & Hn). by eapply user_discreet.
  - apply (elem_of_systemd host (systemd_nodes host)) in Hn as (sc & sd & _ & Hn).
    apply elem_of_app in Hn as [([name item] & -> & _)%list_elem_of_fmap|([name item] & -> & _)%list_elem_of_fmap]; apply unit_discreet.
  - apply (elem_of_systemd host (fun sc sd => (resolved_items sc sd ≫= dropin_nodes host _ "resolved")
                    ++ (journald_items sc sd ≫= dropin_nodes host [] "journald"))) in Hn as (sc & sd & _ & Hn).
    apply elem_of_app in Hn as [(p & Hn & _)%list_elem_of_bind|(p & Hn & _)%list_elem_of_bind]; by eapply dropin_discreet.
  - apply list_elem_of_bind in Hn as ([sc nw] & Hn & _).
    apply elem_of_app in Hn as [(p & -> & _)%list_elem_of_fmap|(p & -> & _)%list_elem_of_fmap];
      [apply netdev_discreet|apply network_discreet].
  - unfold networkd_enable in Hn. destruct (networkdEnable host) as [[enable source]|]; [|by apply elem_of_nil in Hn].
    apply list_elem_of_singleton in Hn as ->. quiet.
  - apply (elem_of_systemd host (fun sc sd => sorted_entries (sd_Timers sd) ≫= timer_service_node host sc _)) in Hn
      as (sc & sd & _ & ([name timer] & Hn & _)%list_elem_of_bind).
    unfold timer_service_node in Hn. destruct (_ && _); [by apply elem_of_nil in Hn|]. apply list_elem_of_singleton in Hn as ->.
    destruct (nonempty _); apply (service_discreet host).
  - apply (elem_of_scoped_fmap host _ _ (service_node host _)) in Hn as (sc & [name item] & _ & ->).
    unfold discreet_node, service_node. destruct (ms_Enabled item); quiet.
Qed.
End whole.

(** C30: No compiled resource that is marked sensitive carries its content in
    the attributes that plans print: for files, secrets, systemd units and
    drop-ins, networkd files, nftables rules, APT sources and keys, Docker
    Compose files and every other kind, at the host and in its components, a
    desired map with [sensitive] set has no [content]. *)
Theorem compileHost_hides_content range_keys host nodes operations n :
  compileHost range_keys host = Ok (nodes, operations) ->
  n ∈ nodes -> nodeSensitive n = true -> n_Desired n !! "content" = None.
Proof.
  intros (ns & ns' & ops & Hg & He & -> & ->)%compileHost_inv Hn.
  apply host_graph_inv in Hg as (dg & triggers & rs & acts & pre & [Hd _ Hr _ _] & -> & ->).
  apply explicit_extends in He. rewrite elem_of_sort_by in Hn. apply list_elem_of_lookup_1 in Hn as [i Hi].
  destruct (Forall2_lookup_r _ _ _ _ _ He Hi) as (m & Hm & _ & _ & Hdes & _).
  unfold nodeSensitive. rewrite Hdes. apply (compiled_discreet range_keys host dg triggers rs); [done|done|].
  by eapply list_elem_of_lookup_2.
Qed.

Lemma compileHost_hides_content_witness : exists n, n ∈ compiled_example.1 /\ nodeSensitive n = true
  /\ n_Kind n = "file" /\ n_Desired n !! "content" = None.
Proof.
  destruct (list_find (fun n => n_Address n = file_address (component_scope example_host example_component) "/etc/app.conf")
              compiled_example.1) as [[i n]|] eqn:E; [|vm_compute in E; discriminate].
  apply list_find_Some in E as (Hi & Ha & _). exists n.
  assert (Hn : n ∈ compiled_example.1) by by eapply list_elem_of_lookup_2.
  assert (Hk : nodeSensitive n = true /\ n_Kind n = "file").
  { assert (Hall : forallb (fun n => negb (bool_decide (n_Address n = file_address (component_scope example_host example_component) "/etc/app.conf"))
      || (nodeSensitive n && bool_decide (n_Kind n = "file"))) compiled_example.1 = true) by (vm_compute; reflexivity).
    rewrite forallb_forall in Hall. specialize (Hall n). rewrite <- list_elem_of_In in Hall. specialize (Hall Hn).
    rewrite (bool_decide_eq_true_2 _ Ha) in Hall. cbn [negb orb] in Hall. apply andb_true_iff in Hall as [Hs Hk].
    split; [done|by apply bool_decide_eq_true in Hk]. }
  destruct Hk as [Hs Hk]. split; [done|]. split; [done|]. split; [done|].
  eapply (compileHost_hides_content in_order example_host compiled_example.1 compiled_example.2 n); [|done|done].
  rewrite <- surjective_pairing. exact example_host_compiles.
Defined.
