(* ===== verification/HostValidation.v ===== *)
(** * Validation of a host specification: [merge_validation.go]

    [validateHostSpec] walks the host and then its components, and refuses a
    path, a repository, a package, a group, a user, a unit or a service that
    two declarations claim.  [checked] holds the local maps of the function;
    each section of its body is one definition.

    Go visits a map in any order: [visit site m] is the order of the loop named
    [site] over [m].  The loops that only copy a map are written as such. *)
From S2P Require Import Prelude Sha256 GoValue IR HostIR.

(** The errors, by the parts of their messages: every clash reads
    [source: (component c)? what name conflicts with other declared at previous]. *)
Inductive validation_error :=
| Conflict (component : option string) (source : SourceRef) (what name other : string) (previous : SourceRef)
| MissingPrimaryGroup (source : SourceRef) (user group : string)
| MissingRepository (source : SourceRef) (package repository : string)
| AbsentRepository (source : SourceRef) (package repository : string).

Abbreviation V := (result validation_error).

Record checked := {
  ck_files : gmap string SourceRef;
  ck_secrets : gmap string SourceRef;
  ck_repositories : gmap string APTRepositorySpec;
  ck_packages : gmap string PackageItem;
  ck_directories : gmap string ManagedDirectory;
  ck_groups : gmap string ManagedGroup;
  ck_users : gmap string ManagedUser;
  ck_units : gmap string SystemdUnit;
  ck_services : gmap string ManagedService;
}.

(** ** The assignments to the maps *)

Definition add_file (path : string) (source : SourceRef) (s : checked) : checked :=
  {| ck_files := <[path := source]> (ck_files s); ck_secrets := ck_secrets s; ck_repositories := ck_repositories s;
     ck_packages := ck_packages s; ck_directories := ck_directories s; ck_groups := ck_groups s;
     ck_users := ck_users s; ck_units := ck_units s; ck_services := ck_services s |}.
Definition add_secret (path : string) (source : SourceRef) (s : checked) : checked :=
  {| ck_files := ck_files s; ck_secrets := <[path := source]> (ck_secrets s); ck_repositories := ck_repositories s;
     ck_packages := ck_packages s; ck_directories := ck_directories s; ck_groups := ck_groups s;
     ck_users := ck_users s; ck_units := ck_units s; ck_services := ck_services s |}.
Definition add_repository (name : string) (item : APTRepositorySpec) (s : checked) : checked :=
  {| ck_files := ck_files s; ck_secrets := ck_secrets s; ck_repositories := <[name := item]> (ck_repositories s);
     ck_packages := ck_packages s; ck_directories := ck_directories s; ck_groups := ck_groups s;
     ck_users := ck_users s; ck_units := ck_units s; ck_services := ck_services s |}.
Definition add_package (name : string) (item : PackageItem) (s : checked) : checked :=
  {| ck_files := ck_files s; ck_secrets := ck_secrets s; ck_repositories := ck_repositories s;
     ck_packages := <[name := item]> (ck_packages s); ck_directories := ck_directories s; ck_groups := ck_groups s;
     ck_users := ck_users s; ck_units := ck_units s; ck_services := ck_services s |}.
Definition add_directory (path : string) (item : ManagedDirectory) (s : checked) : checked :=
  {| ck_files := ck_files s; ck_secrets := ck_secrets s; ck_repositories := ck_repositories s;
     ck_packages := ck_packages s; ck_directories := <[path := item]> (ck_directories s); ck_groups := ck_groups s;
     ck_users := ck_users s; ck_units := ck_units s; ck_services := ck_services s |}.
Definition add_group (name : string) (item : ManagedGroup) (s : checked) : checked :=
  {| ck_files := ck_files s; ck_secrets := ck_secrets s; ck_repositories := ck_repositories s;
     ck_packages := ck_packages s; ck_directories := ck_directories s; ck_groups := <[name := item]> (ck_groups s);
     ck_users := ck_users s; ck_units := ck_units s; ck_services := ck_services s |}.
Definition add_user (name : string) (item : ManagedUser) (s : checked) : checked :=
  {| ck_files := ck_files s; ck_secrets := ck_secrets s; ck_repositories := ck_repositories s;
     ck_packages := ck_packages s; ck_directories := ck_directories s; ck_groups := ck_groups s;
     ck_users := <[name := item]> (ck_users s); ck_units := ck_units s; ck_services := ck_services s |}.
Definition add_unit (name : string) (item : SystemdUnit) (s : checked) : checked :=
  {| ck_files := ck_files s; ck_secrets := ck_secrets s; ck_repositories := ck_repositories s;
     ck_packages := ck_packages s; ck_directories := ck_directories s; ck_groups := ck_groups s;
     ck_users := ck_users s; ck_units := <[name := item]> (ck_units s); ck_services := ck_services s |}.
Definition add_service (name : string) (item : ManagedService) (s : checked) : checked :=
  {| ck_files := ck_files s; ck_secrets := ck_secrets s; ck_repositories := ck_repositories s;
     ck_packages := ck_packages s; ck_directories := ck_directories s; ck_groups := ck_groups s;
     ck_users := ck_users s; ck_units := ck_units s; ck_services := <[name := item]> (ck_services s) |}.

(** ** The checks *)

Definition refuse (component : option string) (source : SourceRef) (what name other : string)
    (previous : option SourceRef) : V unit :=
  match previous with
  | Some previous => Err (Conflict component source what name other previous)
  | None => Ok tt
  end.

(** The pair of tests every path goes through: against the files, then against
    the secrets. *)
Definition check_path (component : option string) (source : SourceRef) (what path : string) (s : checked) : V unit :=
  _ ← refuse component source what path "file" (ck_files s !! path);
  refuse component source what path "secret" (ck_secrets s !! path).

(** The tests and [files[path] = source]. *)
Definition claim_file (component : option string) (source : SourceRef) (what path : string) (s : checked) : V checked :=
  _ ← check_path component source what path s; Ok (add_file path source s).

Definition validateNftablesPath (item : NftablesFileSpec) (s : checked) : V checked :=
  claim_file None (nf_Source item) "nftables file path" (nf_Path item) s.

Definition validateDockerComposePath (kind : string) (item : DockerComposeFileSpec) (s : checked) : V checked :=
  claim_file None (df_Source item) (kind +:+ " path") (df_Path item) s.

Definition validateNetworkdPath (kind path : string) (source : SourceRef) (s : checked) : V unit :=
  check_path None source (kind +:+ " path") path s.

(** One file of [validateNetworkdSpecPaths]: the files it has seen are apart
    from those of the host. *)
Definition networkd_path (kind : string) (s : checked) (seen : gmap string SourceRef) (item : string * SourceRef)
  : V (gmap string SourceRef) :=
  _ ← validateNetworkdPath kind item.1 item.2 s;
  _ ← refuse None item.2 (kind +:+ " path") item.1 "networkd file" (seen !! item.1);
  Ok (<[item.1 := item.2]> seen).

Definition netdev_paths (spec : NetworkdSpec) : list (string * SourceRef) :=
  (fun p => (nd_Path p.2, nd_Source p.2)) <$> sorted_entries (nw_NetDevs spec).
Definition network_paths (spec : NetworkdSpec) : list (string * SourceRef) :=
  (fun p => (nn_Path p.2, nn_Source p.2)) <$> sorted_entries (nw_Networks spec).

Definition validateNetworkdSpecPaths (spec : NetworkdSpec) (s : checked) : V unit :=
  seen ← fold_res (networkd_path "networkd netdev" s) (netdev_paths spec) ∅;
  _ ← fold_res (networkd_path "networkd network" s) (network_paths spec) seen;
  Ok tt.

(** The section of the host and of each component for networkd. *)
Definition networkd_check (networkd : option NetworkdSpec) (s : checked) : V checked :=
  match networkd with
  | None => Ok s
  | Some spec =>
      _ ← validateNetworkdSpecPaths spec s;
      Ok (fold_left (fun s p => add_file p.1 p.2 s) (netdev_paths spec ++ network_paths spec) s)
  end.

(** The sections of the host and of each component for timers and drop-ins. *)
Definition timer_check (component : option string) (s : checked) (entry : string * SystemdTimer) : V checked :=
  let '(name, timer) := entry in
  let unit_ := tm_Unit timer in
  _ ← refuse component (su_Source unit_) "systemd timer" (su_Name unit_) "unit" (su_Source <$> ck_units s !! su_Name unit_);
  s' ← claim_file component (su_Source unit_) "systemd timer path" (su_Path unit_) s;
  Ok (add_unit name unit_ s').

Definition dropin_check (component : option string) (what : string) (unit_ : option SystemdUnit) (s : checked) : V checked :=
  match unit_ with
  | None => Ok s
  | Some unit_ => claim_file component (su_Source unit_) what (su_Path unit_) s
  end.

Definition source_file_check (component : option string) (s : checked) (entry : string * APTSourceFileSpec) : V checked :=
  claim_file component (as_Source entry.2) "apt source_file path" (as_Path entry.2) s.

Definition sameManagedDirectory (a b : ManagedDirectory) : bool :=
  bool_decide (md_Path a = md_Path b) && bool_decide (md_Owner a = md_Owner b)
  && bool_decide (md_Group a = md_Group b) && bool_decide (md_Mode a = md_Mode b)
  && bool_decide (md_Ensure a = md_Ensure b) && bool_decide (md_Lifecycle a = md_Lifecycle b).

(** A unit name of a service, with the suffix the short form leaves out. *)
Definition serviceUnitName (name : string) : string :=
  if strings_Contains name "." then name else name +:+ ".service".

Definition daemon_path : string := "/etc/docker/daemon.json".

Section validate.
Variable visit : forall {A}, string -> gmap string A -> list (string * A).

(** ** The host *)

(** The maps filled without a check: a later package of the same name
    replaces an earlier one. *)
Definition host_maps (spec : HostSpec) : checked :=
  {| ck_files := mf_Source <$> fls_Files (h_Files spec);
     ck_secrets := ∅;
     ck_repositories := apt_Repositories (h_APT spec);
     ck_packages := fold_left (fun m item => <[pk_Name item := item]> m) (pks_Install (h_Packages spec)) ∅;
     ck_directories := dirs_Directories (h_Directories spec);
     ck_groups := grs_Groups (h_Groups spec);
     ck_users := uss_Users (h_Users spec);
     ck_units := ∅;
     ck_services := svs_Services (h_Services spec) |}.

Definition host_secret (s : checked) (entry : string * SecretFile) : V checked :=
  let '(path, secret) := entry in
  let s := add_secret path (sf_Source secret) s in
  match ck_files s !! path with
  | Some fileSource => Err (Conflict None fileSource "file path" path "secret" (sf_Source secret))
  | None => Ok s
  end.

(** Units of the host are recorded without a check of their paths. *)
Definition host_unit (s : checked) (entry : string * SystemdUnit) : checked :=
  add_file (su_Path entry.2) (su_Source entry.2) (add_unit (su_Name entry.2) entry.2 s).

Definition host_systemd (sd : SystemdSpec) (s : checked) : V checked :=
  let s := fold_left host_unit (visit "units" (sd_Units sd)) s in
  s ← fold_res (timer_check None) (visit "timers" (sd_Timers sd)) s;
  s ← dropin_check None "systemd resolved path" (rs_Unit <$> sd_Resolved sd) s;
  s ← dropin_check None "systemd journald path" (jd_Unit <$> sd_Journald sd) s;
  networkd_check (sd_Networkd sd) s.

Definition nftables_check (spec : NftablesSpec) (s : checked) : V checked :=
  s ← from_option validateNftablesPath Ok (nft_Main spec) s;
  fold_res (fun s p => validateNftablesPath p.2 s) (sorted_entries (nft_Files spec)) s.

(** [source] with [.service.name] after its path. *)
Definition service_name_source (source : SourceRef) : SourceRef :=
  {| src_File := src_File source; src_Line := src_Line source; src_Path := src_Path source +:+ ".service.name" |}.

Definition compose_check (s : checked) (entry : string * DockerComposeSpec) : V checked :=
  let compose := entry.2 in
  s ← (if dcs_Enable (dc_Service compose) then
         let unitPath := "/etc/systemd/system/" +:+ serviceUnitName (dcs_Name (dc_Service compose)) in
         _ ← check_path None (service_name_source (dc_Source compose)) "docker compose systemd unit path" unitPath s;
         Ok (add_file unitPath (dc_Source compose) s)
       else Ok s);
  s ← from_option (validateDockerComposePath "docker compose file") Ok (dc_File compose) s;
  fold_res (fun s p => validateDockerComposePath "docker compose env_file" p.2 s) (sorted_entries (dc_EnvFiles compose)) s.

Definition docker_check (docker : option DockerSpec) (s : checked) : V checked :=
  match docker with
  | None => Ok s
  | Some docker =>
      s ← (match dk_Daemon docker with
           | Some daemon => claim_file None (dd_Source daemon) "docker daemon path" daemon_path s
           | None => Ok s
           end);
      fold_res compose_check (sorted_entries (dk_Composes docker)) s
  end.

Definition host_check (spec : HostSpec) : V checked :=
  s ← fold_res host_secret (visit "secrets" (secs_Files (h_Secrets spec))) (host_maps spec);
  s ← fold_res (source_file_check None) (sorted_entries (apt_SourceFiles (h_APT spec))) s;
  s ← host_systemd (h_Systemd spec) s;
  s ← nftables_check (h_Nftables spec) s;
  docker_check (h_Docker spec) s.

(** ** The components *)

Section component.
Variable c : ComponentInstanceSpec.
Local Abbreviation site loop := (ci_Name c +:+ ":" +:+ loop).
Local Abbreviation owner := (Some (ci_Name c)).

Definition install_check (s : checked) : V checked :=
  match ci_Install c with
  | None => Ok s
  | Some install =>
      let path := ins_Path install in
      _ ← check_path owner (ins_Source install) "artifact path" path s;
      _ ← refuse owner (ins_Source install) "artifact path" path "directory" (md_Source <$> ck_directories s !! path);
      Ok (add_file path (ins_Source install) s)
  end.

Definition component_file (s : checked) (entry : string * ManagedFile) : V checked :=
  claim_file owner (mf_Source entry.2) "file path" entry.1 s.

Definition component_secret (s : checked) (entry : string * SecretFile) : V checked :=
  _ ← check_path owner (sf_Source entry.2) "secret path" entry.1 s;
  Ok (add_secret entry.1 (sf_Source entry.2) s).

Definition component_repository (s : checked) (entry : string * APTRepositorySpec) : V checked :=
  _ ← refuse owner (ar_Source entry.2) "apt.repository" entry.1 "repository" (ar_Source <$> ck_repositories s !! entry.1);
  Ok (add_repository entry.1 entry.2 s).

Definition component_package (s : checked) (item : PackageItem) : V checked :=
  _ ← refuse owner (pk_Source item) "package" (pk_Name item) "package" (pk_Source <$> ck_packages s !! pk_Name item);
  Ok (add_package (pk_Name item) item s).

(** A directory two declarations agree on is shared. *)
Definition component_directory (s : checked) (entry : string * ManagedDirectory) : V checked :=
  match ck_directories s !! entry.1 with
  | Some previous =>
      if sameManagedDirectory entry.2 previous then Ok s
      else Err (Conflict owner (md_Source entry.2) "directory" entry.1 "directory" (md_Source previous))
  | None => Ok (add_directory entry.1 entry.2 s)
  end.

Definition component_group (s : checked) (entry : string * ManagedGroup) : V checked :=
  _ ← refuse owner (mg_Source entry.2) "group" entry.1 "group" (mg_Source <$> ck_groups s !! entry.1);
  Ok (add_group entry.1 entry.2 s).

Definition component_user (s : checked) (entry : string * ManagedUser) : V checked :=
  _ ← refuse owner (mu_Source entry.2) "user" entry.1 "user" (mu_Source <$> ck_users s !! entry.1);
  Ok (add_user entry.1 entry.2 s).

Definition component_unit (s : checked) (entry : string * SystemdUnit) : V checked :=
  let '(name, unit_) := entry in
  _ ← refuse owner (su_Source unit_) "systemd unit" name "unit" (su_Source <$> ck_units s !! name);
  s ← claim_file owner (su_Source unit_) "systemd unit path" (su_Path unit_) s;
  Ok (add_unit (su_Name unit_) unit_ s).

Definition component_service (s : checked) (entry : string * ManagedService) : V checked :=
  _ ← refuse owner (ms_Source entry.2) "service" entry.1 "service" (ms_Source <$> ck_services s !! entry.1);
  Ok (add_service entry.1 entry.2 s).

Definition component_systemd (s : checked) : V checked :=
  let sd := ci_Systemd c in
  s ← fold_res component_unit (visit (site "units") (sd_Units sd)) s;
  s ← fold_res (timer_check owner) (visit (site "timers") (sd_Timers sd)) s;
  s ← dropin_check owner "systemd resolved path" (rs_Unit <$> sd_Resolved sd) s;
  s ← dropin_check owner "systemd journald path" (jd_Unit <$> sd_Journald sd) s;
  networkd_check (sd_Networkd sd) s.

Definition component_check (s : checked) : V checked :=
  s ← install_check s;
  s ← fold_res component_file (visit (site "files") (fls_Files (ci_Files c))) s;
  s ← fold_res component_secret (visit (site "secrets") (secs_Files (ci_Secrets c))) s;
  s ← fold_res component_repository (visit (site "repositories") (apt_Repositories (ci_APT c))) s;
  s ← fold_res (source_file_check owner) (sorted_entries (apt_SourceFiles (ci_APT c))) s;
  s ← fold_res component_package (pks_Install (ci_Packages c)) s;
  s ← fold_res component_directory (visit (site "directories") (dirs_Directories (ci_Directories c))) s;
  s ← fold_res component_group (visit (site "groups") (grs_Groups (ci_Groups c))) s;
  s ← fold_res component_user (visit (site "users") (uss_Users (ci_Users c))) s;
  s ← component_systemd s;
  fold_res component_service (visit (site "services") (svs_Services (ci_Services c))) s.
End component.

(** ** References *)

Definition user_check (s : checked) (user : ManagedUser) : V unit :=
  if decide (mu_PrimaryGroup user = "") then Ok tt
  else guard_or (bool_decide (is_Some (ck_groups s !! mu_PrimaryGroup user))
                 || bool_decide (mu_PrimaryGroup user = mu_Name user))
         (MissingPrimaryGroup (mu_Source user) (mu_Name user) (mu_PrimaryGroup user)).

Definition repository_check (s : checked) (pkg : PackageItem) (repo : string) : V unit :=
  repository ← of_option (MissingRepository (pk_Source pkg) (pk_Name pkg) repo) (ck_repositories s !! repo);
  guard_or (negb (bool_decide (ar_Ensure repository = "absent"))) (AbsentRepository (pk_Source pkg) (pk_Name pkg) repo).

Definition references_check (s : checked) : V unit :=
  _ ← fold_res (fun _ p => user_check s p.2) (visit "all users" (ck_users s)) tt;
  fold_res (fun _ p => fold_res (fun _ repo => repository_check s p.2 repo) (pk_Repositories p.2) tt)
    (visit "all packages" (ck_packages s)) tt.

Definition validateHostSpec (spec : HostSpec) : V unit :=
  s ← host_check spec;
  s ← fold_res (fun s c => component_check c s) (h_Components spec) s;
  references_check s.
End validate.
