(* ===== verification/HostValidationProps.v ===== *)
(** * Which specifications [validateHostSpec] accepts *)
From S2P Require Import Prelude Sha256 GoValue IR HostIR GraphCompile HostValidation.

(** ** The outcome of validating a section

    A section of [validateHostSpec] claims paths and names, and keeps five
    tables.  [outcome s r C D t] says when the section, run from [s] with
    result [r], succeeds: the claims [C] are distinct and still free, and [D]
    holds; and then it has recorded [C] and changed the tables by [t].  The
    rules for binds and loops carry this from the single checks to the whole
    walk. *)

Inductive kind := KPath | KRepository | KPackage | KGroup | KUser | KUnit | KService.
Abbreviation claim := (kind * string)%type.

(** What a state already holds. *)
Definition owned (s : checked) (c : claim) : Prop :=
  let '(k, name) := c in
  match k with
  | KPath => is_Some (ck_files s !! name) \/ is_Some (ck_secrets s !! name)
  | KRepository => is_Some (ck_repositories s !! name)
  | KPackage => is_Some (ck_packages s !! name)
  | KGroup => is_Some (ck_groups s !! name)
  | KUser => is_Some (ck_users s !! name)
  | KUnit => is_Some (ck_units s !! name)
  | KService => is_Some (ck_services s !! name)
  end.

(** Distinct claims, none of which is held. *)
Definition admits (held : claim -> Prop) (C : list claim) : Prop :=
  NoDup C /\ forall c, c ∈ C -> ~ held c.

Lemma admits_nil held : admits held [].
Proof. split; [constructor|]. by intros c ?%elem_of_nil. Qed.

Lemma admits_app held C C' :
  admits held (C ++ C') <-> admits held C /\ admits (fun c => c ∈ C \/ held c) C'.
Proof.
  unfold admits. rewrite NoDup_app. setoid_rewrite elem_of_app. split.
  - intros [(Hn & Hd & Hn') Hf]. split_and!; [done|auto|done|]. intros c Hc [H|H]; [by apply (Hd c)|].
    apply (Hf c); [by right|done].
  - intros [[Hn Hf] [Hn' Hf']]. split; [split_and!; [done| |done]|].
    + intros c Hc Hc'. apply (Hf' c Hc'). by left.
    + intros c [Hc|Hc]; [auto|]. intros H. apply (Hf' c Hc). by right.
Qed.

Lemma admits_ext held held' C : (forall c, held c <-> held' c) -> admits held C <-> admits held' C.
Proof. intros H. unfold admits. by setoid_rewrite H. Qed.

#[export] Instance admits_perm held : Proper ((≡ₚ) ==> iff) (admits held).
Proof. intros C C' HC. unfold admits. by setoid_rewrite HC. Qed.

Lemma admits_one held c : admits held [c] <-> ~ held c.
Proof.
  unfold admits. setoid_rewrite list_elem_of_singleton. split; [intros [_ H]; by apply H|].
  intros H. split; [apply NoDup_singleton|by intros c' ->].
Qed.

(** Claims with distinct names are admitted when none is held. *)
Lemma admits_keyed {A} held k (l : list (string * A)) :
  NoDup l.*1 -> admits held ((fun p => (k, p.1)) <$> l) <-> forall p, p ∈ l -> ~ held (k, p.1).
Proof.
  intros Hnd. unfold admits. split.
  - intros [_ H] p Hp. apply H. by apply (list_elem_of_fmap_2 (fun p : string * A => (k, p.1))).
  - intros H. split; [|by intros c (p & -> & Hp)%list_elem_of_fmap; apply H].
    assert (E : (fun p : string * A => (k, p.1)) <$> l = pair k <$> l.*1) by by rewrite <- list_fmap_compose.
    rewrite E. apply NoDup_fmap_2; [intros ?? [= ->]; done|done].
Qed.

(** *** The five tables *)

Record tables := {
  tb_repositories : gmap string APTRepositorySpec;
  tb_packages : gmap string PackageItem;
  tb_directories : gmap string ManagedDirectory;
  tb_groups : gmap string ManagedGroup;
  tb_users : gmap string ManagedUser;
}.
Definition tables_of (s : checked) : tables :=
  {| tb_repositories := ck_repositories s; tb_packages := ck_packages s; tb_directories := ck_directories s;
     tb_groups := ck_groups s; tb_users := ck_users s |}.

Definition outcome (s : checked) (r : V checked) (C : list claim) (D : Prop) (t : tables -> tables) : Prop :=
  (is_ok r = true <-> admits (owned s) C /\ D) /\
  forall s', r = Ok s' -> (forall c, owned s' c <-> c ∈ C \/ owned s c) /\ tables_of s' = t (tables_of s).

(** *** Rules *)

Lemma outcome_Ok s : outcome s (Ok s) [] True id.
Proof.
  split; [split; [split; [apply admits_nil|done]|done]|]. intros s' [= <-]. split; [|done].
  intros c. rewrite elem_of_nil. tauto.
Qed.

Lemma outcome_bind s (r : V checked) (g : checked -> V checked) C C' D (D' : tables -> Prop) t t' :
  outcome s r C D t ->
  (forall s', r = Ok s' -> outcome s' (g s') C' (D' (tables_of s')) t') ->
  outcome s (r ≫= g) (C ++ C') (D /\ D' (t (tables_of s))) (fun T => t' (t T)).
Proof.
  intros [Hok Hr] Hg. destruct r as [s1|e]; cbn [is_ok] in Hok.
  - rewrite Ok_bind. destruct (Hr s1 eq_refl) as [Ho Ht]. destruct (Hg s1 eq_refl) as [Hok' Hr'].
    split.
    + rewrite Hok', Ht, (admits_ext _ _ _ Ho), admits_app. tauto.
    + intros s' Hs'. destruct (Hr' s' Hs') as [Ho' Ht']. split; [|by rewrite Ht', Ht].
      intros c. rewrite Ho', Ho, elem_of_app. tauto.
  - split; [|done]. cbn. rewrite admits_app. split; [done|]. intros [[? _] [? _]]. by apply Hok.
Qed.

(** [all_along D t l T]: [D x] holds when the loop reaches [x]. *)
Fixpoint all_along {A} (D : A -> tables -> Prop) (t : A -> tables -> tables) (l : list A) (T : tables) : Prop :=
  match l with
  | [] => True
  | x :: l => D x T /\ all_along D t l (t x T)
  end.

Lemma outcome_fold {A} (f : checked -> A -> V checked) (C : A -> list claim) (D : A -> tables -> Prop)
    (t : A -> tables -> tables) l : forall s,
  (forall x s, x ∈ l -> outcome s (f s x) (C x) (D x (tables_of s)) (t x)) ->
  outcome s (fold_res f l s) (l ≫= C) (all_along D t l (tables_of s)) (fun T => fold_left (fun T x => t x T) l T).
Proof.
  induction l as [|x l IH]; intros s Hf; cbn [fold_res all_along fold_left].
  { apply outcome_Ok. }
  assert (H := outcome_bind s (f s x) (fold_res f l) (C x) (l ≫= C) (D x (tables_of s)) (all_along D t l) (t x)
                 (fun T => fold_left (fun T x => t x T) l T)).
  change (match f s x with Ok s' => fold_res f l s' | Err e => Err e end) with (f s x ≫= fold_res f l).
  apply H; [apply Hf; left|]. intros s' _. apply IH. intros; apply Hf; by right.
Qed.

Lemma all_along_True {A} (t : A -> tables -> tables) l : forall T, all_along (fun _ _ => True) t l T <-> True.
Proof. induction l as [|x l IH]; intros T; cbn; [done|]. rewrite IH. tauto. Qed.

(** Conditions on distinct keys do not depend on the order. *)
Lemma all_along_stable {A} (D : A -> tables -> Prop) (t : A -> tables -> tables) (key : A -> string) l : forall T,
  NoDup (key <$> l) -> (forall x y T, key x <> key y -> D x (t y T) <-> D x T) ->
  all_along D t l T <-> forall x, x ∈ l -> D x T.
Proof.
  induction l as [|y l IH]; intros T Hnd Hst; cbn.
  { split; [by intros _ x ?%elem_of_nil|done]. }
  apply NoDup_cons in Hnd as [Hy Hnd]. rewrite IH by done. setoid_rewrite elem_of_cons.
  assert (Hne : forall x, x ∈ l -> key x <> key y).
  { intros x Hx E. apply Hy. rewrite <- E. by apply list_elem_of_fmap_2. }
  split.
  - intros [HD Hl] x [->|Hx]; [done|]. apply (Hst x y); auto.
  - intros H. split; [auto|]. intros x Hx. apply Hst; auto.
Qed.

(** The loop whose steps ask nothing of the tables. *)
Lemma outcome_loop {A} (f : checked -> A -> V checked) (C : A -> list claim) (t : A -> tables -> tables) l s :
  (forall x s, x ∈ l -> outcome s (f s x) (C x) True (t x)) ->
  outcome s (fold_res f l s) (l ≫= C) True (fun T => fold_left (fun T x => t x T) l T).
Proof.
  intros Hf. assert (H := outcome_fold f C (fun _ _ => True) t l s Hf). unfold outcome in *.
  by rewrite all_along_True in H.
Qed.

Lemma fold_left_id {A} (l : list A) (T : tables) : fold_left (fun T _ => id T) l T = T.
Proof. by induction l. Qed.

(** Equal parts may be exchanged. *)
Lemma outcome_eq s r C C' (D D' : Prop) t t' :
  outcome s r C D t -> C ≡ₚ C' -> (D <-> D') -> (forall T, t T = t' T) -> outcome s r C' D' t'.
Proof.
  intros [Hok Hr] HC HD Ht. split; [by rewrite Hok, HC, HD|]. intros s' Hs. destruct (Hr s' Hs) as [Ho Hs'].
  split; [|by rewrite Hs']. intros c. by rewrite Ho, HC.
Qed.

(** The loop of claims only. *)
Lemma outcome_claims {A} (f : checked -> A -> V checked) (C : A -> list claim) l s :
  (forall x s, x ∈ l -> outcome s (f s x) (C x) True id) -> outcome s (fold_res f l s) (l ≫= C) True id.
Proof.
  intros Hf. eapply outcome_eq; [exact (outcome_loop f C (fun _ => id) l s Hf)|done|done|]. apply fold_left_id.
Qed.

(** The second section may rely on the run of the first. *)
Lemma outcome_seq' s (r : V checked) (g : checked -> V checked) C C' :
  outcome s r C True id -> (forall s', r = Ok s' -> outcome s' (g s') C' True id) -> outcome s (r ≫= g) (C ++ C') True id.
Proof.
  intros Hr Hg. by eapply outcome_eq; [apply (outcome_bind _ _ _ _ C' True (fun _ => True) _ id Hr)|done|tauto|done].
Qed.

(** A bind of sections that ask nothing of the tables and leave them. *)
Lemma outcome_seq s (r : V checked) (g : checked -> V checked) C C' :
  outcome s r C True id -> (forall s', outcome s' (g s') C' True id) -> outcome s (r ≫= g) (C ++ C') True id.
Proof. intros Hr Hg. by apply outcome_seq'. Qed.

(** *** The single checks *)

Lemma refuse_ok comp src what name other o : is_ok (refuse comp src what name other o) = true <-> o = None.
Proof. by destruct o; cbn. Qed.

Lemma is_ok_bind {E A B} (m : result E A) (f : A -> result E B) :
  is_ok (m ≫= f) = true <-> exists a, m = Ok a /\ is_ok (f a) = true.
Proof. destruct m; cbn; naive_solver. Qed.

Lemma is_ok_unit {E} (m : result E unit) : is_ok m = true <-> m = Ok tt.
Proof. destruct m as [[]|]; naive_solver. Qed.

Lemma check_path_ok comp src what path s :
  is_ok (check_path comp src what path s) = true <-> ~ owned s (KPath, path).
Proof.
  unfold check_path. rewrite is_ok_bind. setoid_rewrite refuse_ok. cbn.
  destruct (ck_files s !! path) as [x|]; cbn.
  - split; [by intros (a & Ha & _)|]. intros H. destruct H. left. by exists x.
  - split.
    + intros (_ & _ & ->) [[? ?]|[? ?]]; done.
    + intros H. exists tt. split; [done|]. destruct (ck_secrets s !! path) as [x|]; [|done]. destruct H. right. by exists x.
Qed.

Lemma owned_insert {A} (m : gmap string A) k x k' : is_Some (<[k := x]> m !! k') <-> k' = k \/ is_Some (m !! k').
Proof. rewrite lookup_insert_is_Some'. naive_solver. Qed.

(** A check of one name, then its record. *)
Lemma outcome_check s (r : V unit) (g : checked -> checked) c t :
  (is_ok r = true <-> ~ owned s c) ->
  (forall c', owned (g s) c' <-> c' = c \/ owned s c') -> tables_of (g s) = t (tables_of s) ->
  outcome s (_ ← r; Ok (g s)) [c] True t.
Proof.
  intros Hok Ho Ht. split.
  - rewrite admits_one, is_ok_bind. rewrite <- Hok, is_ok_unit. split; [intros (a & Ha & _); by destruct a|].
    intros [Hr _]. by exists tt.
  - intros s' Hs. apply bind_Ok in Hs as (a & _ & [= <-]). split; [|done]. intros c'. by rewrite list_elem_of_singleton.
Qed.

Lemma owned_add_file path src s c : owned (add_file path src s) c <-> c = (KPath, path) \/ owned s c.
Proof. destruct c as [[] name]; cbn; rewrite ?owned_insert; naive_solver. Qed.
Lemma owned_add_secret path src s c : owned (add_secret path src s) c <-> c = (KPath, path) \/ owned s c.
Proof. destruct c as [[] name]; cbn; rewrite ?owned_insert; naive_solver. Qed.
Lemma owned_add_unit name u s c : owned (add_unit name u s) c <-> c = (KUnit, name) \/ owned s c.
Proof. destruct c as [[] n]; cbn; rewrite ?owned_insert; naive_solver. Qed.

Lemma outcome_claim_file comp src what path s : outcome s (claim_file comp src what path s) [(KPath, path)] True id.
Proof. apply outcome_check; [apply check_path_ok|intros; apply owned_add_file|done]. Qed.

Lemma free_refused {A} (m : gmap string A) (f : A -> SourceRef) comp src what name other k :
  is_ok (refuse comp src what name other (f <$> m !! k)) = true <-> ~ is_Some (m !! k).
Proof. rewrite refuse_ok, fmap_None. apply eq_None_not_Some. Qed.

(** A tail that asks nothing of the tables; a head that does not change what
    the tail asks. *)
Lemma outcome_then s (r : V checked) (g : checked -> V checked) C C' D t t' :
  outcome s r C D t -> (forall s', outcome s' (g s') C' True t') ->
  outcome s (r ≫= g) (C ++ C') D (fun T => t' (t T)).
Proof.
  intros Hr Hg. eapply outcome_eq; [apply (outcome_bind _ _ _ _ C' D (fun _ => True) _ t' Hr)|done|tauto|done].
  intros s' _. apply Hg.
Qed.

Lemma outcome_before s (r : V checked) (g : checked -> V checked) C C' (D : tables -> Prop) t t' :
  outcome s r C True t -> (forall T, D (t T) <-> D T) ->
  (forall s', outcome s' (g s') C' (D (tables_of s')) t') ->
  outcome s (r ≫= g) (C ++ C') (D (tables_of s)) (fun T => t' (t T)).
Proof.
  intros Hr HD Hg. eapply outcome_eq; [apply (outcome_bind _ _ _ _ C' True D _ t' Hr)|done| |done].
  - intros s' _. apply Hg.
  - rewrite HD. tauto.
Qed.

(** *** Filling one table

    [get] and [set] select one of the tables. *)
Section table.
Context {A : Type} (get : tables -> gmap string A) (set : gmap string A -> tables -> tables).
Context (get_set : forall m T, get (set m T) = m) (set_set : forall m m' T, set m (set m' T) = set m T).
Context (set_get : forall T, set (get T) T = T).

Lemma fill_fold {B} (key : B -> string) (val : B -> A) l : forall T,
  fold_left (fun T x => set (<[key x := val x]> (get T)) T) l T
  = set (fold_left (fun m x => <[key x := val x]> m) l (get T)) T.
Proof. induction l as [|x l IH]; intros T; cbn; [by rewrite set_get|]. by rewrite IH, get_set, set_set. Qed.

Lemma fill_map (m : gmap string A) l T :
  l ≡ₚ map_to_list m ->
  fold_left (fun T p => set (<[p.1 := p.2]> (get T)) T) l T = set (m ∪ get T) T.
Proof.
  intros Hl. rewrite (fill_fold fst snd l T). f_equal.
  rewrite (fold_left_insert (fun x => x)). rewrite (list_to_map_entries (fun x => x) m l Hl).
  by rewrite map_fmap_id.
Qed.

(** The table keeps what it has. *)
Lemma keep_map (m : gmap string A) l T :
  l ≡ₚ map_to_list m ->
  fold_left (fun T p => set (get T ∪ {[p.1 := p.2]}) T) l T = set (get T ∪ m) T.
Proof.
  intros Hl. assert (m = list_to_map l) as ->.
  { rewrite <- (list_to_map_to_list m). symmetry. apply list_to_map_proper; [|done].
    rewrite Hl. apply NoDup_fst_map_to_list. }
  clear Hl. revert T. induction l as [|[k v] l IH]; intros T; cbn.
  - by rewrite (right_id_L ∅ (∪)), set_get.
  - rewrite IH, get_set, set_set. f_equal. rewrite <- (assoc_L (∪)). f_equal. by rewrite (insert_union_singleton_l (list_to_map l)).
Qed.
End table.

Lemma refused_None {A} (m : gmap string A) (f : A -> SourceRef) comp src what name other k :
  refuse comp src what name other (f <$> m !! k) = Ok tt <-> m !! k = None.
Proof. rewrite <- is_ok_unit, refuse_ok. apply fmap_None. Qed.

Lemma is_ok_loop {E A} (f : A -> result E unit) l : forall u,
  is_ok (fold_res (fun _ x => f x) l u) = true <-> forall x, x ∈ l -> is_ok (f x) = true.
Proof.
  induction l as [|x l IH]; intros u; cbn.
  { split; [by intros _ x ?%elem_of_nil|done]. }
  destruct (f x) as [u'|e] eqn:Hx.
  - rewrite IH. split; [intros H y [->|Hy]%elem_of_cons; [by rewrite Hx|auto]|intros H y Hy; apply H; by right].
  - split; [done|]. intros H. specialize (H x ltac:(left)). by rewrite Hx in H.
Qed.

(** ** The claims of a specification *)

Definition entries {A} (k : kind) (m : gmap string A) : list claim := (fun p => (k, p.1)) <$> map_to_list m.
Definition path_of {A} (f : A -> string) (x : A) : claim := (KPath, f x).

Definition timer_claims (p : string * SystemdTimer) : list claim := [(KUnit, p.1); (KPath, su_Path (tm_Unit p.2))].
Definition unit_claims (p : string * SystemdUnit) : list claim := [(KUnit, p.1); (KPath, su_Path p.2)].
Definition source_claims (apt : APTSpec) : list claim :=
  (fun p => (KPath, as_Path p.2)) <$> sorted_entries (apt_SourceFiles apt).
Definition networkd_claims (networkd : option NetworkdSpec) : list claim :=
  from_option (fun nw => (fun p => (KPath, p.1)) <$> (netdev_paths nw ++ network_paths nw)) [] networkd.
Definition dropin_claims (unit_ : option SystemdUnit) : list claim :=
  from_option (fun u => [(KPath, su_Path u)]) [] unit_.

(** Timers, drop-ins and networkd files. *)
Definition systemd_claims (sd : SystemdSpec) : list claim :=
  (map_to_list (sd_Timers sd) ≫= timer_claims)
  ++ dropin_claims (rs_Unit <$> sd_Resolved sd) ++ dropin_claims (jd_Unit <$> sd_Journald sd)
  ++ networkd_claims (sd_Networkd sd).

Definition nftables_claims (nft : NftablesSpec) : list claim :=
  from_option (fun i => [(KPath, nf_Path i)]) [] (nft_Main nft)
  ++ ((fun p => (KPath, nf_Path p.2)) <$> sorted_entries (nft_Files nft)).

Definition compose_claims (p : string * DockerComposeSpec) : list claim :=
  (if dcs_Enable (dc_Service p.2)
   then [(KPath, "/etc/systemd/system/" +:+ serviceUnitName (dcs_Name (dc_Service p.2)))] else [])
  ++ from_option (fun i => [(KPath, df_Path i)]) [] (dc_File p.2)
  ++ ((fun e => (KPath, df_Path e.2)) <$> sorted_entries (dc_EnvFiles p.2)).

Definition docker_claims (docker : option DockerSpec) : list claim :=
  from_option (fun d => from_option (fun _ => [(KPath, daemon_path)]) [] (dk_Daemon d)
                        ++ (sorted_entries (dk_Composes d) ≫= compose_claims)) [] docker.

(** What the host claims first, what its units take without asking, and what it
    claims after them. *)
Definition base_claims (spec : HostSpec) : list claim :=
  entries KPath (secs_Files (h_Secrets spec)) ++ source_claims (h_APT spec).
Definition host_unit_claims (spec : HostSpec) : list claim :=
  map_to_list (sd_Units (h_Systemd spec)) ≫= (fun p => [(KPath, su_Path p.2); (KUnit, su_Name p.2)]).
Definition host_claims (spec : HostSpec) : list claim :=
  systemd_claims (h_Systemd spec) ++ nftables_claims (h_Nftables spec) ++ docker_claims (h_Docker spec).

Definition component_claims (c : ComponentInstanceSpec) : list claim :=
  from_option (fun i => [(KPath, ins_Path i)]) [] (ci_Install c)
  ++ entries KPath (fls_Files (ci_Files c)) ++ entries KPath (secs_Files (ci_Secrets c))
  ++ entries KRepository (apt_Repositories (ci_APT c)) ++ source_claims (ci_APT c)
  ++ ((fun i => (KPackage, pk_Name i)) <$> pks_Install (ci_Packages c))
  ++ entries KGroup (grs_Groups (ci_Groups c)) ++ entries KUser (uss_Users (ci_Users c))
  ++ (map_to_list (sd_Units (ci_Systemd c)) ≫= unit_claims) ++ systemd_claims (ci_Systemd c)
  ++ entries KService (svs_Services (ci_Services c)).

(** ** The tables *)

Definition packages_in (items : list PackageItem) (m : gmap string PackageItem) : gmap string PackageItem :=
  fold_left (fun m item => <[pk_Name item := item]> m) items m.

(** The tables after the sections of a component. *)
Definition with_component (c : ComponentInstanceSpec) (T : tables) : tables :=
  {| tb_repositories := apt_Repositories (ci_APT c) ∪ tb_repositories T;
     tb_packages := packages_in (pks_Install (ci_Packages c)) (tb_packages T);
     tb_directories := tb_directories T ∪ dirs_Directories (ci_Directories c);
     tb_groups := grs_Groups (ci_Groups c) ∪ tb_groups T;
     tb_users := uss_Users (ci_Users c) ∪ tb_users T |}.

Definition host_tables (spec : HostSpec) : tables := tables_of (host_maps spec).
Definition all_tables (spec : HostSpec) : tables :=
  fold_left (fun T c => with_component c T) (h_Components spec) (host_tables spec).

(** The artifact of a component is not installed over a directory declared
    before it, and a directory declared again is the same. *)
Definition component_fits (c : ComponentInstanceSpec) (T : tables) : Prop :=
  (forall i, ci_Install c = Some i -> tb_directories T !! ins_Path i = None) /\
  (forall path d previous, dirs_Directories (ci_Directories c) !! path = Some d ->
     tb_directories T !! path = Some previous -> sameManagedDirectory d previous = true).

(** A user's primary group is declared, or is the user's own. *)
Definition user_fits (T : tables) (user : ManagedUser) : Prop :=
  mu_PrimaryGroup user = "" \/ mu_PrimaryGroup user = mu_Name user \/ is_Some (tb_groups T !! mu_PrimaryGroup user).
(** A package's repositories are declared and present. *)
Definition package_fits (T : tables) (pkg : PackageItem) : Prop :=
  forall repo, repo ∈ pk_Repositories pkg -> exists r, tb_repositories T !! repo = Some r /\ ar_Ensure r <> "absent".

(** ** Valid specifications *)

Record valid_host (spec : HostSpec) : Prop := {
  vh_base : admits (owned (host_maps spec)) (base_claims spec);
  vh_claims : admits (fun c => c ∈ host_unit_claims spec \/ c ∈ base_claims spec \/ owned (host_maps spec) c)
                (host_claims spec ++ (h_Components spec ≫= component_claims));
  vh_components : forall before c after, h_Components spec = before ++ c :: after ->
    component_fits c (fold_left (fun T c => with_component c T) before (host_tables spec));
  vh_users : forall name user, tb_users (all_tables spec) !! name = Some user -> user_fits (all_tables spec) user;
  vh_packages : forall name pkg, tb_packages (all_tables spec) !! name = Some pkg -> package_fits (all_tables spec) pkg;
}.

(** Units and timers are stored under the names of their units, as
    [systemdSpecs] and [systemdTimerSpecs] store them. *)
Record keyed_units (sd : SystemdSpec) : Prop := {
  ku_units : forall name u, sd_Units sd !! name = Some u -> su_Name u = name;
  ku_timers : forall name t, sd_Timers sd !! name = Some t -> su_Name (tm_Unit t) = name;
}.
Definition keyed_host (spec : HostSpec) : Prop :=
  keyed_units (h_Systemd spec) /\ forall c, c ∈ h_Components spec -> keyed_units (ci_Systemd c).

(** ** Outcomes of the sections *)

Lemma bind_singleton {A B} (f : A -> B) (l : list A) : (l ≫= fun x => [f x]) = f <$> l.
Proof. induction l as [|x l IH]; [done|]. change (f x :: (l ≫= fun x => [f x]) = f x :: (f <$> l)). by rewrite IH. Qed.

Lemma outcome_option {A} s (o : option A) (f : A -> checked -> V checked) (C : A -> list claim) :
  (forall x s, outcome s (f x s) (C x) True id) -> outcome s (from_option f Ok o s) (from_option C [] o) True id.
Proof. intros Hf. destruct o; cbn; [apply Hf|apply outcome_Ok]. Qed.

(** A loop in which each item claims one name. *)
Lemma outcome_each {A} s (f : checked -> A -> V checked) (C : A -> claim) l :
  (forall x s, x ∈ l -> outcome s (f s x) [C x] True id) -> outcome s (fold_res f l s) (C <$> l) True id.
Proof. intros Hf. rewrite <- bind_singleton. by apply outcome_claims. Qed.

Lemma outcome_source_files s comp apt :
  outcome s (fold_res (source_file_check comp) (sorted_entries (apt_SourceFiles apt)) s) (source_claims apt) True id.
Proof. apply outcome_each. intros; apply outcome_claim_file. Qed.

Lemma outcome_dropin s comp what unit_ : outcome s (dropin_check comp what unit_ s) (dropin_claims unit_) True id.
Proof. destruct unit_; [apply outcome_claim_file|apply outcome_Ok]. Qed.

(** A unit: its name, then its path, then the record of both. *)
Lemma outcome_named_unit s comp what what' u :
  outcome s (_ ← refuse comp (su_Source u) what (su_Name u) "unit" (su_Source <$> ck_units s !! su_Name u);
             s' ← claim_file comp (su_Source u) what' (su_Path u) s;
             Ok (add_unit (su_Name u) u s')) [(KUnit, su_Name u); (KPath, su_Path u)] True id.
Proof.
  split.
  - rewrite is_ok_bind. setoid_rewrite is_ok_bind.
    assert (Hp := check_path_ok comp (su_Source u) what' (su_Path u) s).
    change [(KUnit, su_Name u); (KPath, su_Path u)] with ([(KUnit, su_Name u)] ++ [(KPath, su_Path u)]).
    rewrite admits_app, !admits_one, list_elem_of_singleton. split.
    + intros ([] & Hu & s' & Hc & _). apply bind_Ok in Hc as ([] & Hc & _).
      apply is_ok_unit, free_refused in Hu. apply is_ok_unit, Hp in Hc. repeat split; [done|]. by intros [[= ]|?].
    + intros [[Hu Hc] _]. exists tt. split; [by apply is_ok_unit, free_refused|].
      eexists. split; [|done]. unfold claim_file. replace (check_path _ _ _ _ _) with (Ok () : V unit); [done|].
      symmetry. apply is_ok_unit, Hp. intros ?. apply Hc. by right.
  - intros s' (x & _ & Hs)%bind_Ok. apply bind_Ok in Hs as (s1 & Hs1 & [= <-]). apply bind_Ok in Hs1 as (? & _ & [= <-]).
    split; [|done]. intros c. rewrite owned_add_unit, owned_add_file, !elem_of_cons, elem_of_nil. tauto.
Qed.

Lemma outcome_timers s comp (l : list (string * SystemdTimer)) :
  (forall p, p ∈ l -> su_Name (tm_Unit p.2) = p.1) ->
  outcome s (fold_res (timer_check comp) l s) (l ≫= timer_claims) True id.
Proof.
  intros Hl. apply outcome_claims. intros [name tm] s' Hin. apply Hl in Hin. cbn in Hin. subst name.
  apply outcome_named_unit.
Qed.

Lemma outcome_units s c (l : list (string * SystemdUnit)) :
  (forall p, p ∈ l -> su_Name p.2 = p.1) ->
  outcome s (fold_res (component_unit c) l s) (l ≫= unit_claims) True id.
Proof.
  intros Hl. apply outcome_claims. intros [name u] s' Hin. apply Hl in Hin. cbn in Hin. subst name.
  apply outcome_named_unit.
Qed.

(** ** Networkd *)

Lemma networkd_fold kind s l : forall seen,
  (is_ok (fold_res (networkd_path kind s) l seen) = true <->
   admits (fun c => (exists p, c = (KPath, p) /\ is_Some (seen !! p)) \/ owned s c) ((fun p => (KPath, p.1)) <$> l)) /\
  forall seen', fold_res (networkd_path kind s) l seen = Ok seen' ->
    forall p, is_Some (seen' !! p) <-> p ∈ l.*1 \/ is_Some (seen !! p).
Proof.
  induction l as [|[path src] l IH]; intros seen; cbn [fold_res fmap list_fmap].
  { split; [split; [intros _; apply admits_nil|done]|]. intros seen' [= <-] p. rewrite elem_of_nil. tauto. }
  assert (Hone : is_ok (networkd_path kind s seen (path, src)) = true <-> ~ owned s (KPath, path) /\ ~ is_Some (seen !! path)).
  { unfold networkd_path, validateNetworkdPath. rewrite is_ok_bind. setoid_rewrite is_ok_bind.
    rewrite <- (check_path_ok None src (kind +:+ " path") path s), <- eq_None_not_Some. setoid_rewrite is_ok_unit. cbn [fst snd].
    split; [intros ([] & Hc & [] & Hr%is_ok_unit%refuse_ok & _)|intros [Hc Hr]; exists tt; split; [done|]; exists tt].
    + done.
    + split; [|done]. by apply is_ok_unit, refuse_ok. }
  destruct (networkd_path kind s seen (path, src)) as [seen1|] eqn:E; cbn [is_ok] in Hone.
  - destruct Hone as [[Hfree Hnew] _]; [done|].
    assert (seen1 = <[path := src]> seen) as ->.
    { unfold networkd_path in E. by apply bind_Ok in E as (? & _ & (? & _ & [= <-])%bind_Ok). }
    destruct (IH (<[path := src]> seen)) as [Hok Hres]. split.
    + rewrite Hok. change (?x :: ?l) with ([x] ++ l) at 1. rewrite admits_app, admits_one. cbn [fst].
      assert (Hext : forall c, (exists p, c = (KPath, p) /\ is_Some (<[path := src]> seen !! p)) \/ owned s c <->
        c ∈ [(KPath, path)] \/ (exists p, c = (KPath, p) /\ is_Some (seen !! p)) \/ owned s c).
      { intros c. rewrite list_elem_of_singleton. setoid_rewrite owned_insert. naive_solver. }
      rewrite (admits_ext _ _ _ Hext). split; [intros H; split; [|done]|by intros [_ H]].
      intros [(p & [= <-] & Hp)|Ho]; [by apply Hnew|by apply Hfree].
    + intros seen' H p. rewrite (Hres _ H), owned_insert, elem_of_cons. tauto.
  - split; [|done]. cbn. split; [done|]. intros [_ Hd]. apply Hone. clear -Hd. specialize (Hd (KPath, path) ltac:(left)).
    split; [intros ?; apply Hd; by right|intros ?; apply Hd; left; by exists path].
Qed.

Lemma owned_add_files l : forall s c,
  owned (fold_left (fun s p => add_file p.1 p.2 s) l s) c <-> c ∈ ((fun p : string * SourceRef => (KPath, p.1)) <$> l) \/ owned s c.
Proof.
  induction l as [|[p src] l IH]; intros s c; cbn; [rewrite elem_of_nil; tauto|].
  rewrite IH, owned_add_file, elem_of_cons. tauto.
Qed.
Lemma tables_add_files l : forall s, tables_of (fold_left (fun s p => add_file p.1 p.2 s) l s) = tables_of s.
Proof. induction l as [|p l IH]; intros s; cbn; [done|]. by rewrite IH. Qed.

Lemma claimed_path (l : list (string * SourceRef)) c :
  c ∈ ((fun p => (KPath, p.1)) <$> l) <-> exists p, c = (KPath, p) /\ p ∈ l.*1.
Proof.
  replace ((fun p : string * SourceRef => (KPath, p.1)) <$> l) with (pair KPath <$> l.*1) by by rewrite <- list_fmap_compose.
  apply list_elem_of_fmap.
Qed.

Lemma outcome_networkd s networkd : outcome s (networkd_check networkd s) (networkd_claims networkd) True id.
Proof.
  destruct networkd as [nw|]; [|apply outcome_Ok]. cbn [networkd_check networkd_claims from_option].
  destruct (networkd_fold "networkd netdev" s (netdev_paths nw) ∅) as [Hd Hseen].
  split.
  - rewrite is_ok_bind, fmap_app, admits_app. unfold validateNetworkdSpecPaths.
    assert (Hempty : forall c, (exists p, c = (KPath, p) /\ is_Some ((∅ : gmap string SourceRef) !! p)) \/ owned s c <-> owned s c).
    { intros c. split; [|tauto]. intros [(p & _ & Hp)|?]; [|done]. rewrite lookup_empty in Hp. by apply is_Some_None in Hp. }
    rewrite (admits_ext _ _ _ Hempty) in Hd. rewrite <- Hd.
    destruct (fold_res _ (netdev_paths nw) ∅) as [seen|] eqn:E; [|cbn; naive_solver].
    destruct (networkd_fold "networkd network" s (network_paths nw) seen) as [Hn _].
    assert (Hext : forall c, (exists p, c = (KPath, p) /\ is_Some (seen !! p)) \/ owned s c <->
      c ∈ ((fun p => (KPath, p.1)) <$> netdev_paths nw) \/ owned s c).
    { intros c. setoid_rewrite (Hseen _ eq_refl). setoid_rewrite lookup_empty.
      assert (Hf : c ∈ ((fun p : string * SourceRef => (KPath, p.1)) <$> netdev_paths nw) <->
        exists p, c = (KPath, p) /\ p ∈ (netdev_paths nw).*1).
      { apply claimed_path. }
      rewrite Hf. split; [intros [(p & -> & [Hp|[? ?]])|?]; [left; by exists p|done|by right]|].
      intros [(p & -> & Hp)|?]; [left; exists p; split; [done|by left]|by right]. }
    rewrite (admits_ext _ _ _ Hext) in Hn. rewrite <- Hn, Ok_bind.
    destruct (fold_res _ (network_paths nw) seen); cbn; naive_solver.
  - intros s' (? & _ & [= <-])%bind_Ok. split; [intros c; apply owned_add_files|apply tables_add_files].
Qed.

(** ** Systemd, nftables and Docker *)

Lemma outcome_nftables s nft : outcome s (nftables_check nft s) (nftables_claims nft) True id.
Proof.
  apply outcome_seq; [apply outcome_option; intros; apply outcome_claim_file|].
  intros s'. apply outcome_each. intros; apply outcome_claim_file.
Qed.

Lemma outcome_compose s p : outcome s (compose_check s p) (compose_claims p) True id.
Proof.
  unfold compose_check, compose_claims. apply outcome_seq.
  { destruct (dcs_Enable _); [|apply outcome_Ok].
    apply outcome_check; [apply check_path_ok|intros; apply owned_add_file|done]. }
  intros s'. apply outcome_seq; [apply outcome_option; intros; apply outcome_claim_file|].
  intros s''. apply outcome_each. intros; apply outcome_claim_file.
Qed.

Lemma outcome_docker s docker : outcome s (docker_check docker s) (docker_claims docker) True id.
Proof.
  destruct docker as [d|]; [|apply outcome_Ok]. apply outcome_seq.
  - destruct (dk_Daemon d); [apply outcome_claim_file|apply outcome_Ok].
  - intros s'. apply outcome_claims. intros; apply outcome_compose.
Qed.

(** What holds after a name is recorded. *)
Ltac record_name := intros [[] n]; cbn; rewrite ?owned_insert; naive_solver.

Section visit.
Context (visit : forall A, string -> gmap string A -> list (string * A)).
Context (visit_all : forall A site m, visit A site m ≡ₚ map_to_list m).

Lemma visit_NoDup {A} site (m : gmap string A) : NoDup (visit A site m).*1.
Proof. rewrite visit_all. apply NoDup_fst_map_to_list. Qed.
Lemma elem_of_visit {A} site (m : gmap string A) p : p ∈ visit A site m <-> m !! p.1 = Some p.2.
Proof. rewrite visit_all. destruct p as [k v]. by rewrite elem_of_map_to_list. Qed.

Lemma visit_entries {A} k site (m : gmap string A) : ((fun p => (k, p.1)) <$> visit A site m) ≡ₚ entries k m.
Proof. unfold entries. by rewrite visit_all. Qed.

Lemma outcome_systemd_tail s comp site sd :
  keyed_units sd ->
  outcome s (s ← fold_res (timer_check comp) (visit _ site (sd_Timers sd)) s;
             s ← dropin_check comp "systemd resolved path" (rs_Unit <$> sd_Resolved sd) s;
             s ← dropin_check comp "systemd journald path" (jd_Unit <$> sd_Journald sd) s;
             networkd_check (sd_Networkd sd) s) (systemd_claims sd) True id.
Proof.
  intros [_ Ht]. unfold systemd_claims. apply outcome_seq.
  { eapply outcome_eq; [apply outcome_timers|by rewrite visit_all|done|done]. intros p Hp%elem_of_visit. by apply Ht. }
  intros s1. apply outcome_seq; [apply outcome_dropin|]. intros s2. apply outcome_seq; [apply outcome_dropin|].
  intros s3. apply outcome_networkd.
Qed.

(** ** A component *)

(** A loop over a map in which each entry claims its key. *)
Lemma outcome_entries {A} s k site (m : gmap string A) (f : checked -> string * A -> V checked) t t' :
  (forall p s, outcome s (f s p) [(k, p.1)] True (t p)) ->
  (forall T, fold_left (fun T p => t p T) (visit A site m) T = t' T) ->
  outcome s (fold_res f (visit A site m) s) (entries k m) True t'.
Proof.
  intros Hf Ht. eapply outcome_eq; [apply (outcome_loop f (fun p => [(k, p.1)]) t)| |done|done].
  - intros; apply Hf.
  - rewrite bind_singleton. apply visit_entries.
Qed.

Definition put_repositories m (T : tables) : tables :=
  {| tb_repositories := m; tb_packages := tb_packages T; tb_directories := tb_directories T;
     tb_groups := tb_groups T; tb_users := tb_users T |}.
Definition put_packages m (T : tables) : tables :=
  {| tb_repositories := tb_repositories T; tb_packages := m; tb_directories := tb_directories T;
     tb_groups := tb_groups T; tb_users := tb_users T |}.
Definition put_directories m (T : tables) : tables :=
  {| tb_repositories := tb_repositories T; tb_packages := tb_packages T; tb_directories := m;
     tb_groups := tb_groups T; tb_users := tb_users T |}.
Definition put_groups m (T : tables) : tables :=
  {| tb_repositories := tb_repositories T; tb_packages := tb_packages T; tb_directories := tb_directories T;
     tb_groups := m; tb_users := tb_users T |}.
Definition put_users m (T : tables) : tables :=
  {| tb_repositories := tb_repositories T; tb_packages := tb_packages T; tb_directories := tb_directories T;
     tb_groups := tb_groups T; tb_users := m |}.

Section component.
Context (c : ComponentInstanceSpec).

Lemma outcome_install s :
  outcome s (install_check c s) (from_option (fun i => [(KPath, ins_Path i)]) [] (ci_Install c))
    (forall i, ci_Install c = Some i -> tb_directories (tables_of s) !! ins_Path i = None) id.
Proof.
  unfold install_check. destruct (ci_Install c) as [i|]; cbn [from_option].
  2: { eapply outcome_eq; [apply outcome_Ok|done|by split|done]. }
  split.
  - rewrite is_ok_bind, admits_one. rewrite <- (check_path_ok (Some (ci_Name c)) (ins_Source i) "artifact path").
    rewrite is_ok_unit. split.
    + intros ([] & Hp & ([] & Hd%refused_None & _)%is_ok_bind). split; [done|]. intros ? [= <-]. exact Hd.
    + intros [Hp Hd]. exists tt. split; [done|]. apply is_ok_bind. exists tt. split; [by apply refused_None, Hd|done].
  - intros s' (? & _ & (? & _ & [= <-])%bind_Ok)%bind_Ok. split; [|done].
    intros c'. by rewrite owned_add_file, list_elem_of_singleton.
Qed.

Lemma outcome_directories s site :
  let m := dirs_Directories (ci_Directories c) in
  outcome s (fold_res (component_directory c) (visit _ site m) s) []
    (forall path d previous, m !! path = Some d -> tb_directories (tables_of s) !! path = Some previous ->
       sameManagedDirectory d previous = true)
    (fun T => put_directories (tb_directories T ∪ m) T).
Proof.
  intros m.
  set (D (p : string * ManagedDirectory) T := forall previous, tb_directories T !! p.1 = Some previous ->
         sameManagedDirectory p.2 previous = true).
  set (t (p : string * ManagedDirectory) T := put_directories (tb_directories T ∪ {[p.1 := p.2]}) T).
  assert (Hstep : forall p s, outcome s (component_directory c s p) [] (D p (tables_of s)) (t p)).
  { intros p s'. unfold component_directory, D, t, outcome. cbn [tables_of tb_directories].
    destruct (ck_directories s' !! p.1) as [prev|] eqn:Ep.
    - destruct (sameManagedDirectory p.2 prev) eqn:Es; (split; [|try done]).
      + split; [intros _; split; [apply admits_nil|congruence]|done].
      + intros s'' [= <-]. split; [intros c'; rewrite elem_of_nil; tauto|].
        unfold put_directories, tables_of. cbn. by rewrite (union_singleton_r _ _ _ _ Ep).
      + split; [done|]. intros [_ H]. specialize (H _ eq_refl). congruence.
    - split; [split; [intros _; split; [apply admits_nil|done]|done]|]. intros s'' [= <-].
      split; [intros c'; rewrite elem_of_nil; destruct c' as [[] n]; cbn; tauto|].
      unfold put_directories, tables_of. cbn. by rewrite (insert_union_singleton_r _ _ _ Ep). }
  eapply outcome_eq; [apply (outcome_fold _ (fun _ => []) D t); intros; apply Hstep|..].
  - induction (visit _ site m); [done|]. cbn. done.
  - rewrite (all_along_stable D t fst); [|apply visit_NoDup|].
    + split; [intros H path d previous Hm; apply (H (path, d)), elem_of_visit; done|].
      intros H [path d] Hp%elem_of_visit previous. by apply H.
    + intros x y T Hne. unfold D, t. cbn.
      assert (E : (tb_directories T ∪ {[y.1 := y.2]}) !! x.1 = tb_directories T !! x.1).
      { rewrite lookup_union, lookup_singleton_ne by done. by destruct (tb_directories T !! x.1). }
      by rewrite E.
  - intros T. apply (keep_map tb_directories put_directories); [done|done|by intros []|apply visit_all].
Qed.

Lemma outcome_packages s items :
  outcome s (fold_res (component_package c) items s) ((fun i => (KPackage, pk_Name i)) <$> items) True
    (fun T => put_packages (packages_in items (tb_packages T)) T).
Proof.
  rewrite <- bind_singleton.
  eapply outcome_eq; [apply (outcome_loop _ (fun i => [(KPackage, pk_Name i)]) (fun i T => put_packages (<[pk_Name i := i]> (tb_packages T)) T))|done|done|].
  - intros i s' _. apply outcome_check; [apply free_refused| |done]. record_name.
  - intros T. by apply (fill_fold tb_packages put_packages); [..|intros []].
Qed.

Lemma outcome_files s site :
  outcome s (fold_res (component_file c) (visit _ site (fls_Files (ci_Files c))) s) (entries KPath (fls_Files (ci_Files c)))
    True id.
Proof. apply (outcome_entries _ _ _ _ _ (fun _ => id)); [intros; apply outcome_claim_file|apply fold_left_id]. Qed.

Lemma outcome_secrets s site :
  outcome s (fold_res (component_secret c) (visit _ site (secs_Files (ci_Secrets c))) s)
    (entries KPath (secs_Files (ci_Secrets c))) True id.
Proof.
  apply (outcome_entries _ _ _ _ _ (fun _ => id)); [|apply fold_left_id].
  intros. apply outcome_check; [apply check_path_ok|intros; apply owned_add_secret|done].
Qed.

Lemma outcome_services s site :
  outcome s (fold_res (component_service c) (visit _ site (svs_Services (ci_Services c))) s)
    (entries KService (svs_Services (ci_Services c))) True id.
Proof.
  apply (outcome_entries _ _ _ _ _ (fun _ => id)); [|apply fold_left_id].
  intros. apply outcome_check; [apply free_refused| |done]. record_name.
Qed.

Lemma outcome_repositories s site :
  outcome s (fold_res (component_repository c) (visit _ site (apt_Repositories (ci_APT c))) s)
    (entries KRepository (apt_Repositories (ci_APT c))) True
    (fun T => put_repositories (apt_Repositories (ci_APT c) ∪ tb_repositories T) T).
Proof.
  apply (outcome_entries _ _ _ _ _ (fun p T => put_repositories (<[p.1 := p.2]> (tb_repositories T)) T)).
  - intros. apply outcome_check; [apply free_refused| |done]. record_name.
  - intros T. apply (fill_map tb_repositories put_repositories); [done|done|by intros []|apply visit_all].
Qed.

Lemma outcome_groups s site :
  outcome s (fold_res (component_group c) (visit _ site (grs_Groups (ci_Groups c))) s)
    (entries KGroup (grs_Groups (ci_Groups c))) True (fun T => put_groups (grs_Groups (ci_Groups c) ∪ tb_groups T) T).
Proof.
  apply (outcome_entries _ _ _ _ _ (fun p T => put_groups (<[p.1 := p.2]> (tb_groups T)) T)).
  - intros. apply outcome_check; [apply free_refused| |done]. record_name.
  - intros T. apply (fill_map tb_groups put_groups); [done|done|by intros []|apply visit_all].
Qed.

Lemma outcome_users s site :
  outcome s (fold_res (component_user c) (visit _ site (uss_Users (ci_Users c))) s)
    (entries KUser (uss_Users (ci_Users c))) True (fun T => put_users (uss_Users (ci_Users c) ∪ tb_users T) T).
Proof.
  apply (outcome_entries _ _ _ _ _ (fun p T => put_users (<[p.1 := p.2]> (tb_users T)) T)).
  - intros. apply outcome_check; [apply free_refused| |done]. record_name.
  - intros T. apply (fill_map tb_users put_users); [done|done|by intros []|apply visit_all].
Qed.

Lemma outcome_component_units s site :
  keyed_units (ci_Systemd c) ->
  outcome s (fold_res (component_unit c) (visit _ site (sd_Units (ci_Systemd c))) s)
    (map_to_list (sd_Units (ci_Systemd c)) ≫= unit_claims) True id.
Proof.
  intros [Hu _]. eapply outcome_eq; [apply outcome_units|by rewrite visit_all|done|done].
  intros p Hp%elem_of_visit. by apply Hu.
Qed.

Lemma outcome_component s :
  keyed_units (ci_Systemd c) ->
  outcome s (component_check visit c s) (component_claims c) (component_fits c (tables_of s)) (with_component c).
Proof.
  intros Hk. unfold component_check, component_claims.
  set (agree T := forall path d previous, dirs_Directories (ci_Directories c) !! path = Some d ->
         tb_directories T !! path = Some previous -> sameManagedDirectory d previous = true).
  eapply outcome_eq; [eapply (outcome_bind _ _ _ _ _ _ agree); [apply outcome_install|intros s1 _]| |done|].
  - eapply (outcome_before _ _ _ _ _ agree); [apply outcome_files|done|intros s2].
    eapply (outcome_before _ _ _ _ _ agree); [apply outcome_secrets|done|intros s3].
    eapply (outcome_before _ _ _ _ _ agree); [apply outcome_repositories|done|intros s4].
    eapply (outcome_before _ _ _ _ _ agree); [apply outcome_source_files|done|intros s5].
    eapply (outcome_before _ _ _ _ _ agree); [apply outcome_packages|done|intros s6].
    eapply outcome_then; [apply outcome_directories|intros s7].
    eapply outcome_then; [apply outcome_groups|intros s8].
    eapply outcome_then; [apply outcome_users|intros s9].
    eapply outcome_then; [|intros s10; apply outcome_services].
    eapply outcome_then; [by apply outcome_component_units|intros s11; by apply outcome_systemd_tail].
  - cbn [app]. by rewrite <- !(assoc_L (++)).
  - intros []. reflexivity.
Qed.
End component.

(** ** The host *)

(** Secrets are tested against the files only: no path was secret before. *)
Lemma secrets_fold l : forall s,
  NoDup l.*1 -> (forall p, p ∈ l.*1 -> ck_secrets s !! p = None) ->
  outcome s (fold_res host_secret l s) ((fun p => (KPath, p.1)) <$> l) True id.
Proof.
  induction l as [|[path secret] l IH]; intros s Hnd Hfree; [apply outcome_Ok|].
  apply NoDup_cons in Hnd as [Hp Hnd].
  apply (outcome_seq' s (host_secret s (path, secret)) (fold_res host_secret l) [(KPath, path)]).
  - specialize (Hfree path ltac:(left)). cbn [host_secret]. split.
    + rewrite admits_one. cbn [owned]. rewrite Hfree. cbn [ck_files add_secret].
      destruct (ck_files s !! path) as [x|]; cbn; [split; [done|]|split; [|done]].
      * intros [H _]. destruct H. left. by exists x.
      * intros _. split; [|done]. by intros [[? ?]|[? ?]].
    + intros s' Hs. cbn [ck_files add_secret] in Hs. destruct (ck_files s !! path); [done|]. injection Hs as <-. split; [|done].
      intros c. rewrite list_elem_of_singleton. apply owned_add_secret.
  - intros s' Hs. cbn [host_secret ck_files add_secret] in Hs. destruct (ck_files s !! path); [done|]. injection Hs as <-.
    apply IH; [done|]. intros p Hin. cbn. rewrite lookup_insert_ne; [apply Hfree; by right|]. by intros ->.
Qed.

Lemma host_units l : forall s,
  (forall c, owned (fold_left host_unit l s) c <-> c ∈ (l ≫= fun p => [(KPath, su_Path p.2); (KUnit, su_Name p.2)]) \/ owned s c)
  /\ tables_of (fold_left host_unit l s) = tables_of s.
Proof.
  induction l as [|p l IH]; intros s; cbn [fold_left].
  { split; [|done]. intros c. rewrite elem_of_nil. tauto. }
  destruct (IH (host_unit s p)) as [Ho Ht]. split; [|by rewrite Ht]. intros c. rewrite Ho.
  unfold host_unit. rewrite owned_add_file, owned_add_unit.
  rewrite bind_cons, elem_of_app, !elem_of_cons, elem_of_nil. tauto.
Qed.

Lemma outcome_base spec :
  outcome (host_maps spec)
    (s ← fold_res host_secret (visit _ "secrets" (secs_Files (h_Secrets spec))) (host_maps spec);
     fold_res (source_file_check None) (sorted_entries (apt_SourceFiles (h_APT spec))) s) (base_claims spec) True id.
Proof.
  apply outcome_seq; [|intros; apply outcome_source_files].
  eapply outcome_eq; [apply secrets_fold|apply visit_entries|done|done]; [apply visit_NoDup|].
  intros p _. apply lookup_empty.
Qed.

Lemma outcome_late s spec :
  keyed_units (h_Systemd spec) ->
  outcome (fold_left host_unit (visit _ "units" (sd_Units (h_Systemd spec))) s)
    (s ← host_systemd visit (h_Systemd spec) s; s ← nftables_check (h_Nftables spec) s; docker_check (h_Docker spec) s)
    (host_claims spec) True id.
Proof.
  intros Hk. apply outcome_seq; [by apply outcome_systemd_tail|]. intros s'.
  apply outcome_seq; [apply outcome_nftables|intros; apply outcome_docker].
Qed.

(** What the host has taken before its own claims. *)
Definition host_held (spec : HostSpec) (c : claim) : Prop :=
  c ∈ host_unit_claims spec \/ c ∈ base_claims spec \/ owned (host_maps spec) c.

Lemma host_check_spec spec :
  keyed_units (h_Systemd spec) ->
  (is_ok (host_check visit spec) = true <->
     admits (owned (host_maps spec)) (base_claims spec) /\ admits (host_held spec) (host_claims spec)) /\
  forall s, host_check visit spec = Ok s ->
    (forall c, owned s c <-> c ∈ host_claims spec \/ host_held spec c) /\ tables_of s = host_tables spec.
Proof.
  intros Hk. destruct (outcome_base spec) as [Hb Hbase].
  set (b := _ ≫= _) in Hb, Hbase.
  assert (E : host_check visit spec = b ≫= fun s => s ← host_systemd visit (h_Systemd spec) s;
                s ← nftables_check (h_Nftables spec) s; docker_check (h_Docker spec) s).
  { unfold host_check, b. by destruct (fold_res host_secret _ _). }
  rewrite E. destruct b as [s1|]; cbn [is_ok] in Hb.
  2: { split; [|done]. split; [done|]. intros [H _]. apply Hb. by split. }
  destruct Hb as [[Hb _] _]; [done|]. destruct (Hbase s1 eq_refl) as [Ho1 Ht1]. rewrite Ok_bind.
  destruct (host_units (visit _ "units" (sd_Units (h_Systemd spec))) s1) as [Ho2 Ht2].
  destruct (outcome_late s1 spec Hk) as [Hok Hlate].
  assert (Hheld : forall c, owned (fold_left host_unit (visit _ "units" (sd_Units (h_Systemd spec))) s1) c <-> host_held spec c).
  { intros c. rewrite Ho2, Ho1. unfold host_held, host_unit_claims. by rewrite visit_all. }
  rewrite (admits_ext _ _ _ Hheld) in Hok. split; [tauto|].
  intros s Hs. destruct (Hlate s Hs) as [Ho Ht]. split; [intros c; by rewrite Ho, Hheld|]. by rewrite Ht, Ht2, Ht1.
Qed.

(** ** The references *)

Lemma user_check_ok s user : is_ok (user_check s user) = true <-> user_fits (tables_of s) user.
Proof.
  unfold user_check, user_fits. destruct (decide (mu_PrimaryGroup user = "")) as [E|E]; cbn [tables_of tb_groups].
  { split; [by left|done]. }
  rewrite is_ok_unit, guard_or_Ok, orb_true_iff, !bool_decide_eq_true. tauto.
Qed.

Lemma repository_check_ok s pkg repo :
  is_ok (repository_check s pkg repo) = true <->
  exists r, tb_repositories (tables_of s) !! repo = Some r /\ ar_Ensure r <> "absent".
Proof.
  unfold repository_check. rewrite is_ok_bind. cbn [tables_of tb_repositories].
  setoid_rewrite of_option_Ok. setoid_rewrite is_ok_unit. setoid_rewrite guard_or_Ok.
  by setoid_rewrite negb_true_iff; setoid_rewrite bool_decide_eq_false.
Qed.

Lemma references_check_ok s :
  references_check visit s = Ok tt <->
  (forall name user, tb_users (tables_of s) !! name = Some user -> user_fits (tables_of s) user) /\
  (forall name pkg, tb_packages (tables_of s) !! name = Some pkg -> package_fits (tables_of s) pkg).
Proof.
  unfold references_check. rewrite <- is_ok_unit, is_ok_bind. split.
  - intros ([] & Hu & Hp). rewrite <- is_ok_unit, (is_ok_loop (fun p => user_check s p.2)) in Hu.
    rewrite (is_ok_loop (fun p => fold_res (fun _ repo => repository_check s p.2 repo) (pk_Repositories p.2) tt)) in Hp. split.
    + intros name user H. apply user_check_ok, (Hu (name, user)), elem_of_visit, H.
    + intros name pkg H repo Hr. apply (repository_check_ok s pkg).
      revert repo Hr. apply (is_ok_loop (fun repo => repository_check s pkg repo) _ tt), (Hp (name, pkg)), elem_of_visit, H.
  - intros [Hu Hp]. exists tt. rewrite <- is_ok_unit, (is_ok_loop (fun p => user_check s p.2)).
    rewrite (is_ok_loop (fun p => fold_res (fun _ repo => repository_check s p.2 repo) (pk_Repositories p.2) tt)). split.
    + intros [name user] H%elem_of_visit. apply user_check_ok. by apply (Hu name).
    + intros [name pkg] H%elem_of_visit. apply (is_ok_loop (fun repo => repository_check s pkg repo)).
      intros repo Hr. apply repository_check_ok. by apply (Hp name pkg).
Qed.

Lemma all_along_split (D : ComponentInstanceSpec -> tables -> Prop) t l : forall T,
  all_along D t l T <-> forall before c after, l = before ++ c :: after -> D c (fold_left (fun T c => t c T) before T).
Proof.
  induction l as [|x l IH]; intros T; cbn.
  { split; [by intros _ [|? ?] ? ?|done]. }
  rewrite IH. split.
  - intros [HD Hl] [|y before] c after [= -> ->]; [done|]. by apply (Hl before c after).
  - intros H. split; [by apply (H [] x l)|]. intros before c after ->. by apply (H (x :: before) c after).
Qed.
End visit.


Definition all_entries (A : Type) (site : string) (m : gmap string A) : list (string * A) := map_to_list m.

Definition keyed_unitsb (sd : SystemdSpec) : bool :=
  forallb (fun p => bool_decide (su_Name p.2 = p.1)) (map_to_list (sd_Units sd))
  && forallb (fun p => bool_decide (su_Name (tm_Unit p.2) = p.1)) (map_to_list (sd_Timers sd)).
Lemma keyed_unitsb_ok sd : keyed_unitsb sd = true -> keyed_units sd.
Proof.
  intros [Hu Ht]%andb_true_iff. rewrite forallb_forall in Hu, Ht.
  split; intros name x Hx; [specialize (Hu (name, x))|specialize (Ht (name, x))]; cbn in *;
    eapply bool_decide_eq_true; [apply Hu|apply Ht]; by apply list_elem_of_In, elem_of_map_to_list.
Qed.
Lemma keyed_hostb spec :
  keyed_unitsb (h_Systemd spec) && forallb (fun c => keyed_unitsb (ci_Systemd c)) (h_Components spec) = true -> keyed_host spec.
Proof.
  intros [Hk Hc]%andb_true_iff. split; [by apply keyed_unitsb_ok|]. rewrite forallb_forall in Hc.
  intros c Hin%list_elem_of_In. by apply keyed_unitsb_ok, Hc.
Qed.


(** ** What the checks leave out *)

Definition with_files_and_systemd (files : gmap string ManagedFile) (sd : SystemdSpec) : HostSpec :=
  {| h_Name := "web"; h_Source := no_source; h_Facts := {| System := no_facts |};
     h_SSH := zero_SSHSpec; h_State := zero_StateSpec; h_Staging := None; h_Moves := []; h_Platform := None;
     h_System := zero_SystemSpec; h_Kernel := zero_KernelSpec; h_Packages := zero_PackageSpec; h_APT := zero_APTSpec;
     h_Files := {| fls_Files := files; fls_Source := no_source |}; h_Secrets := zero_SecretSpec;
     h_Directories := zero_DirectorySpec; h_Groups := zero_GroupSpec; h_Users := zero_UserSpec; h_Systemd := sd;
     h_Services := zero_ServiceSpec; h_Nftables := zero_NftablesSpec; h_Docker := None; h_Scripts := ∅;
     h_Components := []; h_ExplicitDependencies := [] |}.
Definition units_only (units : gmap string SystemdUnit) : SystemdSpec :=
  {| sd_Units := units; sd_Networkd := None; sd_Timers := ∅; sd_Resolved := None; sd_Journald := None;
     sd_Source := no_source |}.

(** A file and a unit of the host at one path are accepted. *)
Example host_unit_over_file :
  let path := "/etc/systemd/system/app.service" in
  validateHostSpec all_entries
    (with_files_and_systemd {[path := example_file]} (units_only {["app.service" := example_unit "app.service" ""]})) = Ok tt.
Proof. vm_compute. reflexivity. Qed.
