(* ===== verification/HostSpecs.v ===== *)
(** * Building the typed specification: [merge_files.go], [merge_users.go],
    [merge_packages.go], [merge_kernel.go], [merge_system.go],
    [merge_services.go], [merge_apt.go], [merge_nftables.go]

    Each builder reads the fields of a merged value in the order of the code
    and stops at the first error.  [ReadFile] is [os.ReadFile]. *)
From S2P Require Import Prelude Sha256 GoValue GoStrings IR HostIR Values Merge Fields HostValidation.

(** The errors, by the parts of their texts; [Invalid source suffix message]
    prints [source suffix: message]. *)
Inductive spec_error :=
| FieldError (e : field_error)
| Invalid (source : SourceRef) (suffix message : string)
| Clash (source : SourceRef) (what name other : string) (previous : SourceRef)
| DuplicatePackage (source : SourceRef) (name : string) (previous : SourceRef)
| DuplicateModule (source : SourceRef) (name : string)
| MustBeMapOf (source : SourceRef)
| UnknownScript (source : SourceRef) (what traversal : string)
| InvalidName (source : SourceRef) (suffix what name : string)
| ReadSource (source : SourceRef) (path : string).

Abbreviation S := (result spec_error).

(** A reader of [merge_fields.go]. *)
Definition rd {A} (m : F A) : S A := map_err FieldError m.

(** [item.Map[name]] *)
Definition entry (item : Value) (name : string) : Value := map_get (v_Map item) name.

(** [if !cond { return ..., error }] *)
Definition require (cond : bool) (source : SourceRef) (suffix message : string) : S unit :=
  guard_or cond (Invalid source suffix message).

Definition has {A} (o : option A) : bool := bool_decide (is_Some o).

Definition resolvePath (sourceFile value : string) : string :=
  if bool_decide (value = "") || filepath_IsAbs value then value
  else filepath_Join (filepath_Dir sourceFile) value.

Definition contentSummary (data : string) : ContentSummary :=
  {| SHA256 := sha256Hex data; Bytes := Z.of_nat (String.length data) |}.
Definition empty_summary : ContentSummary := {| SHA256 := ""; Bytes := 0 |}.

Definition contentNeedsRedaction (value : Value) : bool := ContainsSensitive value || ContainsEphemeral value.

(** A list of strings, nil when the field is missing. *)
Definition stringListSlice (item : Value) (name : string) : S (slice string) :=
  l ← rd (stringListField item name);
  Ok (if has (field item name) then Some l else None).

(** The loop over the entries of a collection, in the order of the keys. *)
Definition build {A} (collection : option (gmap string Value)) (step : A -> string * Value -> S A) (out : A) : S A :=
  match collection with
  | None => Ok out
  | Some objects => fold_res step (sorted_entries objects) out
  end.

Definition validServiceState (state : string) : bool := stringIn state ["running"; "stopped"; "restarted"; "reloaded"].

Definition timerUnitName (name : string) : string := if strings_Contains name "." then name else name +:+ ".timer".

(** ** Groups and users *)

Definition group_spec (out : gmap string ManagedGroup) (p : string * Value) : S (gmap string ManagedGroup) :=
  let '(name, item) := p in
  _ ← require (negb (bool_decide (name = ""))) (v_Source item) "" "group name must be non-empty";
  system ← rd (boolField item "system");
  gid ← rd (stringField item "gid");
  ensure ← rd (ensureField item "present");
  lifecycle ← rd (lifecycleSpec item);
  Ok (<[name := {| mg_Name := name; mg_GID := default "" gid; mg_System := default false system; mg_Ensure := ensure;
                   mg_Lifecycle := lifecycle; mg_Source := v_Source item |}]> out).

Definition groupSpecs (groups : Value) : S (gmap string ManagedGroup) :=
  objects ← rd (objectCollection groups "group"); build objects group_spec ∅.

Definition user_spec (out : gmap string ManagedUser) (p : string * Value) : S (gmap string ManagedUser) :=
  let '(name, item) := p in
  _ ← require (negb (bool_decide (name = ""))) (v_Source item) "" "user name must be non-empty";
  system ← rd (boolField item "system");
  uid ← rd (stringField item "uid");
  home ← rd (stringField item "home");
  shell ← rd (stringField item "shell");
  primaryGroup ← rd (stringField item "group");
  groups ← stringListSlice item "groups";
  keys ← stringListSlice item "ssh_authorized_keys";
  ensure ← rd (ensureField item "present");
  lifecycle ← rd (lifecycleSpec item);
  Ok (<[name := {| mu_Name := name; mu_UID := default "" uid; mu_PrimaryGroup := default "" primaryGroup;
                   mu_Groups := groups; mu_System := default false system; mu_Home := default "" home;
                   mu_Shell := default "" shell; mu_SSHAuthorizedKeys := keys; mu_Ensure := ensure;
                   mu_Lifecycle := lifecycle; mu_Source := v_Source item |}]> out).

Definition userSpecs (users : Value) : S (gmap string ManagedUser) :=
  objects ← rd (objectCollection users "user"); build objects user_spec ∅.

(** ** Packages *)

(** The packages so far, and where each name was declared. *)
Record package_list := { pl_out : list PackageItem; pl_seen : gmap string SourceRef }.

Definition push_package (item : PackageItem) (l : package_list) : package_list :=
  {| pl_out := pl_out l ++ [item]; pl_seen := <[pk_Name item := pk_Source item]> (pl_seen l) |}.

Definition fresh_package (l : package_list) (source : SourceRef) (name : string) : S unit :=
  match pl_seen l !! name with
  | Some previous => Err (DuplicatePackage source name previous)
  | None => Ok tt
  end.

Definition install_entry (l : package_list) (item : Value) : S package_list :=
  let complain := Invalid (v_Source item) "" "package install entries must be non-empty strings" in
  name ← of_option complain (StringValue item);
  _ ← guard_or (negb (bool_decide (name = ""))) complain;
  _ ← fresh_package l (v_Source item) name;
  Ok (push_package {| pk_Name := name; pk_Repositories := []; pk_ConffilePolicy := ""; pk_ConffilePolicySet := false;
                      pk_Lifecycle := None; pk_Source := v_Source item |} l).

Definition package_block (l : package_list) (p : string * Value) : S package_list :=
  let '(name, item) := p in
  _ ← require (negb (bool_decide (name = ""))) (v_Source item) "" "package label must be non-empty";
  _ ← fresh_package l (v_Source item) name;
  repositories ← rd (stringListField item "repositories");
  lifecycle ← rd (lifecycleSpec item);
  policy ← rd (stringField item "conffile_policy");
  _ ← require (from_option (fun v => stringIn v ["keep"; "replace"; "error"]) true policy)
        (from_option v_Source (v_Source item) (field item "conffile_policy")) ""
        "conffile_policy must be keep, replace, or error";
  Ok (push_package {| pk_Name := name; pk_Repositories := repositories; pk_ConffilePolicy := default "" policy;
                      pk_ConffilePolicySet := has policy; pk_Lifecycle := lifecycle; pk_Source := v_Source item |} l).

Definition packageItems (packages : Value) : S (list PackageItem) :=
  install ← rd (listField packages "install");
  l ← fold_res install_entry (from_option v_List [] install) {| pl_out := []; pl_seen := ∅ |};
  match field packages "package" with
  | None => Ok (pl_out l)
  | Some blocks =>
      _ ← require (IsMap blocks) (v_Source blocks) "" "package must be a map";
      l ← fold_res package_block (sorted_entries (v_Map blocks)) l;
      Ok (pl_out l)
  end.

(** ** Kernel *)

Definition module_spec (out : list KernelModuleSpec) (item : Value) : S (list KernelModuleSpec) :=
  let complain := Invalid (v_Source item) "" "kernel module entries must be non-empty strings" in
  name ← of_option complain (StringValue item);
  _ ← guard_or (negb (bool_decide (name = ""))) complain;
  _ ← guard_or (negb (bool_decide (name ∈ km_Name <$> out))) (DuplicateModule (v_Source item) name);
  Ok (out ++ [{| km_Name := name; km_Persist := true; km_Ensure := "present"; km_Source := v_Source item |}]).

Definition moduleSpecs (kernel : Value) : S (list KernelModuleSpec) :=
  modules ← rd (listField kernel "modules");
  fold_res module_spec (from_option v_List [] modules) [].

Definition sysctl_spec (out : gmap string SysctlSpec) (p : string * Value) : S (gmap string SysctlSpec) :=
  let '(key, item) := p in
  _ ← require (negb (bool_decide (key = ""))) (v_Source item) "" "sysctl key must be non-empty";
  str ← of_option (Invalid (v_Source item) "" "sysctl value must be a string") (StringValue item);
  Ok (<[key := {| sc_Key := key; sc_Value := str; sc_Persist := true; sc_ApplyRuntime := true;
                  sc_Source := v_Source item |}]> out).

Definition sysctlSpecs (kernel : Value) : S (gmap string SysctlSpec) :=
  match field kernel "sysctl" with
  | None => Ok ∅
  | Some value =>
      _ ← guard_or (IsMap value) (MustBeMapOf (v_Source value));
      fold_res sysctl_spec (sorted_entries (v_Map value)) ∅
  end.

(** ** System *)

Definition letter (b : N) : bool := in_range 97 122 b || in_range 65 90 b.
Definition word (b : N) : bool := alnum b || (b =? 95)%N.
Definition word_dash (b : N) : bool := word b || (b =? 45)%N.

Fixpoint drop_bytes (p : N -> bool) (l : list N) : list N :=
  match l with
  | [] => []
  | b :: l' => if p b then drop_bytes p l' else l
  end.

(** An optional group of [regexp]: the separator and one or more bytes of the
    class, taken greedily; the class does not hold the separators. *)
Definition optional_group (sep : N) (l : list N) : option (list N) :=
  match l with
  | b :: l' =>
      if (b =? sep)%N then
        match l' with
        | b' :: rest => if word_dash b' then Some (drop_bytes word_dash rest) else None
        | [] => None
        end
      else Some l
  | [] => Some []
  end.

Definition systemLocalePattern (value : string) : bool :=
  match Sha256.bytes value with
  | b :: l =>
      letter b &&
      match optional_group 46 (drop_bytes word l) with
      | Some l => match optional_group 64 l with Some [] => true | _ => false end
      | None => false
      end
  | [] => false
  end.

Definition systemTimezoneTokenPattern (value : string) : bool :=
  negb (bool_decide (value = ""))
  && forallb (fun b => alnum b || bool_decide (b ∈ [95; 43; 46; 47; 45]%N)) (Sha256.bytes value).

(** A string with the characters of the given codes. *)
Definition chars (codes : list N) : string := of_bytes codes.
Definition backslash : string := chars [92%N].

Definition validateSystemTimezone (value : string) (source : SourceRef) : S unit :=
  _ ← require (negb (bool_decide (value = ""))) source "" "system.timezone must be non-empty";
  _ ← require (negb (filepath_IsAbs value || strings_Contains value backslash
                     || strings_ContainsAny value (chars [32; 9; 13; 10]%N) || negb (systemTimezoneTokenPattern value)))
        source "" "system.timezone must be a zoneinfo name";
  require (forallb (fun part => negb (stringIn part [""; "."; ".."])) (strings_Split value slash)) source ""
    "system.timezone must not contain empty, current, or parent path segments".

Definition validateSystemLocale (value : string) (source : SourceRef) : S unit :=
  _ ← require (negb (bool_decide (value = ""))) source "" "system.locale must be non-empty";
  require (negb (strings_ContainsAny value (chars [32; 9; 13; 10; 39; 34; 96; 36; 59; 38; 124; 60; 62; 92]%N)
                 || negb (systemLocalePattern value))) source "" "system.locale must be a locale name".

Example locale_example :
  systemLocalePattern <$> ["en_US.UTF-8"; "C"; "C.UTF-8"; "ca_ES@valencia"; "1x"; "C."; "C.x@"; "en US"]
  = [true; true; true; true; false; false; false; false].
Proof. vm_compute. reflexivity. Qed.

(** ** Services *)

Definition service_spec (out : gmap string ManagedService) (p : string * Value) : S (gmap string ManagedService) :=
  let '(label, item) := p in
  _ ← require (negb (bool_decide (label = ""))) (v_Source item) "" "service name must be non-empty";
  name ← rd (objectName item "name" label);
  pkg ← rd (stringField item "package");
  enabled ← rd (boolField item "enabled");
  state ← rd (stringField item "state");
  let state := default "" state in
  _ ← require (bool_decide (state = "") || validServiceState state) (v_Source item) ".state"
        "service state must be running, stopped, restarted, or reloaded";
  lifecycle ← rd (lifecycleSpec item);
  match out !! name with
  | Some previous => Err (Clash (v_Source item) "service" name "service" (ms_Source previous))
  | None =>
      Ok (<[name := {| ms_Name := name; ms_Unit := serviceUnitName name; ms_Package := default "" pkg;
                       ms_Enabled := enabled; ms_State := state; ms_Lifecycle := lifecycle;
                       ms_Source := v_Source item |}]> out)
  end.

Definition serviceSpecs (services : Value) : S (gmap string ManagedService) :=
  objects ← rd (objectCollection services "service"); build objects service_spec ∅.

(** ** Directories *)

Definition absolute (path : string) : bool := negb (bool_decide (path = "")) && filepath_IsAbs path.

Definition directory_spec (out : gmap string ManagedDirectory) (p : string * Value) : S (gmap string ManagedDirectory) :=
  let '(label, item) := p in
  path ← rd (objectPath item "path" label);
  _ ← require (absolute path) (v_Source item) "" "directory path must be absolute and non-empty";
  owner ← rd (stringFieldDefault item "owner" "root");
  group ← rd (stringFieldDefault item "group" "root");
  mode ← rd (modeFieldDefault item "mode" "0755");
  ensure ← rd (ensureField item "present");
  lifecycle ← rd (lifecycleSpec item);
  let managed := {| md_Path := path; md_Owner := owner; md_Group := group; md_Mode := mode; md_Ensure := ensure;
                    md_Lifecycle := lifecycle; md_Source := v_Source item |} in
  match out !! path with
  | Some previous =>
      if sameManagedDirectory managed previous then Ok out
      else Err (Clash (v_Source item) "directory path" path "directory" (md_Source previous))
  | None => Ok (<[path := managed]> out)
  end.

Definition directorySpecs (directories : Value) : S (gmap string ManagedDirectory) :=
  objects ← rd (objectCollection directories "directory"); build objects directory_spec ∅.

(** ** Script references *)

Definition scope_text (scope : ScriptReferenceScope) : string :=
  match scope with ScriptReferenceAuto => "auto" | ScriptReferenceGlobal => "global" end.

(** The reference a field holds: the traversal it was written as, or a name. *)
Definition script_reference (value : Value) (name : string) : ScriptReferenceSpec :=
  match v_ScriptReference value with
  | Some ref => {| srf_Scope := scope_text (sref_Scope ref); srf_Name := sref_Name ref; srf_DeclarationID := "";
                   srf_Source := v_Source value |}
  | None => {| srf_Scope := scope_text ScriptReferenceAuto; srf_Name := name; srf_DeclarationID := "";
               srf_Source := v_Source value |}
  end.

Definition rejectHostFileOnChange (files : gmap string ManagedFile) : S unit :=
  fold_res (fun _ p =>
    match mf_OnChange p.2 with
    | None => Ok tt
    | Some ref =>
        let source := if bool_decide (src_Path (srf_Source ref) = "") then mf_Source p.2 else srf_Source ref in
        Err (Invalid source "" "files.file.on_change is only supported inside component")
    end) (sorted_entries files) tt.

(** The script a reference names: a local one unless the reference is global,
    then a root one. *)
Definition resolve_script (what : string) (check : ComponentScriptSpec -> S unit)
    (localScripts rootScripts : gmap string ComponentScriptSpec) (ref : ScriptReferenceSpec) : S ScriptReferenceSpec :=
  let resolved scope script :=
    _ ← check script;
    Ok {| srf_Scope := scope; srf_Name := srf_Name ref; srf_DeclarationID := cs_DeclarationID script;
          srf_Source := srf_Source ref |} in
  let global := bool_decide (srf_Scope ref = scope_text ScriptReferenceGlobal) in
  match (if global then None else localScripts !! srf_Name ref) with
  | Some script => resolved "component" script
  | None =>
      match rootScripts !! srf_Name ref with
      | Some script => resolved "root" script
      | None => Err (UnknownScript (srf_Source ref) what ((if global then "global.script." else "script.") +:+ srf_Name ref))
      end
  end.

Definition set_mf_OnChange (ref : option ScriptReferenceSpec) (f : ManagedFile) : ManagedFile :=
  {| mf_Path := mf_Path f; mf_Content := mf_Content f; mf_ContentVersion := mf_ContentVersion f;
     mf_ContentWriteOnly := mf_ContentWriteOnly f; mf_SourcePath := mf_SourcePath f; mf_Owner := mf_Owner f;
     mf_Group := mf_Group f; mf_Mode := mf_Mode f; mf_Sensitive := mf_Sensitive f; mf_Ensure := mf_Ensure f;
     mf_OnChange := ref; mf_Lifecycle := mf_Lifecycle f; mf_Summary := mf_Summary f; mf_Source := mf_Source f |}.

(** The map is updated in place; an error leaves the entries before it
    resolved. *)
Definition validateFileOnChangeRefs (localScripts rootScripts : gmap string ComponentScriptSpec)
    (files : gmap string ManagedFile) : S (gmap string ManagedFile) :=
  fold_res (fun files p =>
    match mf_OnChange p.2 with
    | None => Ok files
    | Some ref =>
        ref ← resolve_script "files.file.on_change" (fun _ => Ok tt) localScripts rootScripts ref;
        Ok (<[p.1 := set_mf_OnChange (Some ref) p.2]> files)
    end) (sorted_entries files) files.

Section read.
Variable ReadFile : string -> option string.

Definition fileSummary (path : string) (source : SourceRef) : S ContentSummary :=
  data ← of_option (ReadSource source path) (ReadFile path); Ok (contentSummary data).

(** The summary of the content, or of the file named as the source. *)
Definition summary_of (content : option string) (sourcePath : option string) (path : string) (source : SourceRef)
  : S ContentSummary :=
  match content, sourcePath with
  | Some content, _ => Ok (contentSummary content)
  | None, Some _ => fileSummary path source
  | None, None => Ok empty_summary
  end.

(** ** Files *)

Definition file_spec (out : gmap string ManagedFile) (p : string * Value) : S (gmap string ManagedFile) :=
  let '(label, item) := p in
  path ← rd (objectPath item "path" label);
  _ ← require (absolute path) (v_Source item) "" "file path must be absolute and non-empty";
  _ ← match out !! path with
      | Some previous => Err (Clash (v_Source item) "file path" path "file" (mf_Source previous))
      | None => Ok tt
      end;
  ensure ← rd (ensureField item "present");
  content ← rd (stringFieldAllowEphemeral item "content");
  version ← rd (stringField item "content_version");
  _ ← require (negb (has version && ContainsSensitive (entry item "content_version")))
        (v_Source (entry item "content_version")) "" "content_version must not be sensitive";
  sourcePath ← rd (stringField item "source");
  _ ← require (negb (bool_decide (ensure = "present") && bool_decide (has content = has sourcePath))) (v_Source item) ""
        "files.file requires exactly one of content or source when ensure is present";
  let writeOnly := has content && ContainsEphemeral (entry item "content") in
  _ ← require (negb (writeOnly && (negb (has version) || bool_decide (default "" version = "")))) (v_Source item)
        ".content_version" "files.file with ephemeral content requires content_version";
  owner ← rd (stringFieldDefault item "owner" "root");
  group ← rd (stringFieldDefault item "group" "root");
  mode ← rd (modeFieldDefault item "mode" "0644");
  sensitive ← rd (boolField item "sensitive");
  let sensitive := if has content && contentNeedsRedaction (entry item "content") then true else default false sensitive in
  lifecycle ← rd (lifecycleSpec item);
  onChange ← rd (stringField item "on_change");
  let resolved := resolvePath (src_File (v_Source item)) (default "" sourcePath) in
  summary ← summary_of content sourcePath resolved (v_Source item);
  Ok (<[path := {| mf_Path := path; mf_Content := default "" content; mf_ContentVersion := default "" version;
                   mf_ContentWriteOnly := writeOnly; mf_SourcePath := resolved; mf_Owner := owner; mf_Group := group;
                   mf_Mode := mode; mf_Sensitive := sensitive; mf_Ensure := ensure;
                   mf_OnChange := script_reference (entry item "on_change") <$> onChange; mf_Lifecycle := lifecycle;
                   mf_Summary := summary; mf_Source := v_Source item |}]> out).

Definition fileSpecs (files : Value) : S (gmap string ManagedFile) :=
  objects ← rd (objectCollection files "file"); build objects file_spec ∅.

Definition secret_spec (out : gmap string SecretFile) (p : string * Value) : S (gmap string SecretFile) :=
  let '(label, item) := p in
  path ← rd (objectPath item "path" label);
  _ ← require (absolute path) (v_Source item) "" "secret path must be absolute and non-empty";
  _ ← match out !! path with
      | Some previous => Err (Clash (v_Source item) "secret path" path "secret" (sf_Source previous))
      | None => Ok tt
      end;
  ensure ← rd (ensureField item "present");
  sourcePath ← rd (stringField item "source");
  _ ← require (negb (bool_decide (ensure = "present") && negb (has sourcePath))) (v_Source item) ""
        "secrets.file requires source when ensure is present";
  owner ← rd (stringFieldDefault item "owner" "root");
  group ← rd (stringFieldDefault item "group" "root");
  mode ← rd (modeFieldDefault item "mode" "0600");
  lifecycle ← rd (lifecycleSpec item);
  let resolved := resolvePath (src_File (v_Source item)) (default "" sourcePath) in
  summary ← summary_of None sourcePath resolved (v_Source item);
  Ok (<[path := {| sf_Path := path; sf_SourcePath := resolved; sf_Owner := owner; sf_Group := group; sf_Mode := mode;
                   sf_Ensure := ensure; sf_Lifecycle := lifecycle; sf_Summary := summary; sf_Source := v_Source item |}]> out).

Definition secretSpecs (secrets : Value) : S (gmap string SecretFile) :=
  objects ← rd (objectCollection secrets "file"); build objects secret_spec ∅.

(** ** APT source files *)

Definition source_file_spec (out : gmap string APTSourceFileSpec) (p : string * Value) : S (gmap string APTSourceFileSpec) :=
  let '(label, item) := p in
  _ ← require (negb (bool_decide (label = ""))) (v_Source item) "" "apt source_file label must be non-empty";
  path ← rd (stringField item "path");
  let path := default "" path in
  _ ← require (absolute path) (v_Source item) ".path" "apt source_file path must be absolute and non-empty";
  ensure ← rd (ensureField item "present");
  content ← rd (stringField item "content");
  sourcePath ← rd (stringField item "source");
  _ ← require (negb (bool_decide (ensure = "present") && bool_decide (has content = has sourcePath))) (v_Source item) ""
        "apt.source_file requires exactly one of content or source when ensure is present";
  owner ← rd (stringFieldDefault item "owner" "root");
  group ← rd (stringFieldDefault item "group" "root");
  mode ← rd (modeFieldDefault item "mode" "0644");
  onDestroy ← rd (stringFieldDefault item "on_destroy" "keep");
  _ ← require (stringIn onDestroy ["keep"; "restore"]) (v_Source item) ".on_destroy" "on_destroy must be keep or restore";
  let sensitive := has content && ContainsSensitive (entry item "content") in
  _ ← require (negb (sensitive && bool_decide (onDestroy = "restore"))) (v_Source item) ".on_destroy"
        "restore is not supported with sensitive content";
  lifecycle ← rd (lifecycleSpec item);
  let resolved := resolvePath (src_File (v_Source item)) (default "" sourcePath) in
  summary ← summary_of content sourcePath resolved (v_Source item);
  Ok (<[label := {| as_Label := label; as_Path := path; as_Content := default "" content; as_SourcePath := resolved;
                    as_Owner := owner; as_Group := group; as_Mode := mode; as_Ensure := ensure; as_OnDestroy := onDestroy;
                    as_Sensitive := sensitive; as_Lifecycle := lifecycle; as_Summary := summary;
                    as_Source := v_Source item |}]> out).

Definition aptSourceFileSpecs (apt : Value) : S (gmap string APTSourceFileSpec) :=
  objects ← rd (objectCollection apt "source_file"); build objects source_file_spec ∅.

(** ** Nftables *)

Definition nftablesFileSpec (label : string) (item : Value) (defaultPath : string) : S NftablesFileSpec :=
  path ← rd (stringField item "path");
  let path := if bool_decide (default "" path = "") then defaultPath else default "" path in
  _ ← require (filepath_IsAbs path) (v_Source item) ".path" "nftables file path must be absolute";
  ensure ← rd (ensureField item "present");
  content ← rd (stringField item "content");
  sourcePath ← rd (stringField item "source");
  _ ← require (negb (has content && has sourcePath)) (v_Source item) ""
        "nftables file requires exactly one of content or source";
  _ ← require (negb (bool_decide (ensure = "present") && negb (has content) && negb (has sourcePath))) (v_Source item) ""
        "nftables file requires exactly one of content or source when ensure is present";
  owner ← rd (stringFieldDefault item "owner" "root");
  group ← rd (stringFieldDefault item "group" "root");
  mode ← rd (modeFieldDefault item "mode" "0644");
  sensitive ← rd (boolField item "sensitive");
  let sensitive := if has content && ContainsSensitive (entry item "content") then true else default false sensitive in
  validate ← rd (boolFieldDefault item "validate" true);
  activate ← rd (boolFieldDefault item "activate" true);
  lifecycle ← rd (lifecycleSpec item);
  let resolved := resolvePath (src_File (v_Source item)) (default "" sourcePath) in
  summary ← summary_of content sourcePath resolved (v_Source item);
  Ok {| nf_Label := label; nf_Path := path; nf_Content := default "" content; nf_SourcePath := resolved; nf_Owner := owner;
        nf_Group := group; nf_Mode := mode; nf_Sensitive := sensitive; nf_Validate := validate; nf_Activate := activate;
        nf_Ensure := ensure; nf_Lifecycle := lifecycle; nf_Summary := summary; nf_Source := v_Source item |}.

Definition nftables_file (out : gmap string NftablesFileSpec) (p : string * Value) : S (gmap string NftablesFileSpec) :=
  let '(label, item) := p in
  _ ← require (negb (bool_decide (label = ""))) (v_Source item) "" "nftables file label must be non-empty";
  compiled ← nftablesFileSpec label item ("/etc/nftables.d/" +:+ label +:+ ".nft");
  Ok (<[label := compiled]> out).

Definition nftablesSpec (nftables : Value) : S NftablesSpec :=
  enable ← rd (boolField nftables "enable");
  main ← rd (mapField nftables "main");
  main ← (match main with
          | Some main => compiled ← nftablesFileSpec "main" main "/etc/nftables.conf"; Ok (Some compiled)
          | None => Ok None
          end);
  objects ← rd (objectCollection nftables "file");
  files ← build objects nftables_file ∅;
  Ok {| nft_Enable := enable; nft_Main := main; nft_Files := files; nft_Source := v_Source nftables |}.
End read.

(** ** APT repositories *)

Definition safeAPTName (value : string) : string :=
  let out := strings_Trim (safe_runes 0 (Sha256.bytes value)) "_" in
  if bool_decide (out = "") then "repository" else strings_ToLower out.

Definition defaultAPTSigningKeyPath (name : string) : string := "/etc/apt/keyrings/" +:+ safeAPTName name +:+ ".asc".

Definition hex_digit (b : N) : bool := in_range 48 57 b || in_range 97 102 b || in_range 65 70 b.
Definition sha256Pattern (value : string) : bool :=
  bool_decide (String.length value = 64) && forallb hex_digit (Sha256.bytes value).

(** The digest of a signing key: 64 hex digits in lower case, and that of the
    content when there is one. *)
Definition signing_key_digest (source : SourceRef) (content sha : option string) : S string :=
  match sha with
  | None => Ok ""
  | Some sha =>
      if bool_decide (sha = "") then Ok ""
      else
        _ ← require (sha256Pattern sha) source ".sha256" "sha256 must be a 64 character hex string";
        let sha := strings_ToLower sha in
        _ ← require (from_option (fun c => bool_decide (sha = SHA256 (contentSummary c))) true content) source ".sha256"
              "sha256 does not match signing key content";
        Ok sha
  end.

Definition aptSigningKeySpec (repoName : string) (repo : Value) (ensure : string) : S (option APTSigningKeySpec) :=
  key ← rd (mapField repo "signing_key");
  match key with
  | None => Ok None
  | Some key =>
      url ← rd (stringField key "url");
      content ← rd (stringField key "content");
      sha ← rd (stringField key "sha256");
      path ← rd (stringField key "path");
      _ ← require (negb (bool_decide (url = Some ""))) (v_Source key) ".url" "signing key url must be non-empty";
      _ ← require (negb (bool_decide (content = Some ""))) (v_Source key) ".content" "signing key content must be non-empty";
      _ ← require (negb (has url && has content)) (v_Source key) "" "signing_key requires exactly one of url or content";
      _ ← require (negb (bool_decide (ensure = "present") && negb (has url) && negb (has content))) (v_Source key) ""
            "signing_key requires exactly one of url or content when repository ensure is present";
      _ ← require (negb (has url && bool_decide (default "" sha = ""))) (v_Source key) ".sha256"
            "signing key url requires sha256";
      digest ← signing_key_digest (v_Source key) content sha;
      let path := if bool_decide (default "" path = "") then defaultAPTSigningKeyPath repoName else default "" path in
      _ ← require (filepath_IsAbs path) (v_Source key) ".path" "signing key path must be absolute";
      Ok (Some {| ak_URL := default "" url; ak_Content := default "" content; ak_SHA256 := digest; ak_Path := path;
                  ak_Sensitive := has content && ContainsSensitive (entry key "content"); ak_Source := v_Source key |})
  end.

Definition repository_spec (out : gmap string APTRepositorySpec) (p : string * Value) : S (gmap string APTRepositorySpec) :=
  let '(name, item) := p in
  _ ← require (negb (bool_decide (name = ""))) (v_Source item) "" "apt repository label must be non-empty";
  ensure ← rd (ensureField item "present");
  let list_field := if bool_decide (ensure = "present") then requiredStringListField else stringListField in
  uris ← rd (list_field item "uris");
  suites ← rd (list_field item "suites");
  components ← rd (list_field item "components");
  architectures ← rd (stringListField item "architectures");
  signingKey ← aptSigningKeySpec name item ensure;
  lifecycle ← rd (lifecycleSpec item);
  Ok (<[name := {| ar_Name := name; ar_URIs := uris; ar_Suites := suites; ar_Components := components;
                   ar_Architectures := architectures; ar_SigningKey := signingKey; ar_Ensure := ensure;
                   ar_Lifecycle := lifecycle; ar_Source := v_Source item |}]> out).

Definition aptRepositorySpecs (apt : Value) : S (gmap string APTRepositorySpec) :=
  objects ← rd (objectCollection apt "repository"); build objects repository_spec ∅.
