(* ===== verification/SystemdSpecs.v ===== *)
(** * Building the systemd specification: [merge_systemd.go]

    Units given as text or as structured fields, timers, the drop-ins of
    resolved and journald, and the networkd files.  A rendered file is a list
    of lines joined with newlines. *)
From S2P Require Import Prelude Sha256 GoValue GoStrings IR HostIR Values Merge Fields HostValidation HostSpecs.

(** [strings.Join(lines, ...) + ...] *)
Definition render_lines (lines : list string) : string := strings_Join lines nl +:+ nl.

Definition validateSystemdSingleLine (value : string) (source : SourceRef) : S unit :=
  require (negb (strings_ContainsAny value (chars [0; 10; 13]%N))) source "" "systemd unit values must be single-line strings".

Definition appendSystemdAssignment (lines : list string) (key value : string) (source : SourceRef) : S (list string) :=
  _ ← validateSystemdSingleLine value source; Ok (lines ++ [key +:+ "=" +:+ value]).

(** ** Sections *)

Definition networkdScalarValue (value : Value) : S string :=
  _ ← require (negb (ContainsEphemeral value)) (v_Source value) ""
        "ephemeral value is not allowed in networkd section settings";
  match v_Kind value with
  | KindString => _ ← validateSystemdSingleLine (v_String value) (v_Source value); Ok (v_String value)
  | KindNumber => _ ← validateSystemdSingleLine (v_Number value) (v_Source value); Ok (v_Number value)
  | KindBool => Ok (if v_Bool value then "yes" else "no")
  | _ => Err (Invalid (v_Source value) "" "networkd section values must be strings, numbers, booleans, or lists of those")
  end.

Definition networkdSectionValues (value : Value) : S (list string) :=
  if IsList value then fold_res (fun out item => str ← networkdScalarValue item; Ok (out ++ [str])) (v_List value) []
  else str ← networkdScalarValue value; Ok [str].

Definition section_entry (out : NetworkdSection) (p : string * Value) : S NetworkdSection :=
  if bool_decide (v_Kind p.2 = KindNull) then Ok out
  else values ← networkdSectionValues p.2; Ok (<[p.1 := values]> out).

Definition section_of (message : string) (root : Value) : S NetworkdSection :=
  _ ← require (IsMap root) (v_Source root) "" message;
  fold_res section_entry (sorted_entries (v_Map root)) ∅.

Definition networkdSection : Value -> S NetworkdSection := section_of "networkd section must be a map".
Definition systemdSection : Value -> S NetworkdSection := section_of "systemd section must be a map".

Definition networkdSectionField (root : Value) (name : string) : S NetworkdSection :=
  section ← rd (mapField root name); from_option networkdSection (Ok ∅) section.
Definition systemdSectionField (root : Value) (name : string) : S NetworkdSection :=
  section ← rd (mapField root name); from_option systemdSection (Ok ∅) section.

Definition section_item (name : string) (out : gmap string NetworkdSection) (p : string * Value)
  : S (gmap string NetworkdSection) :=
  _ ← guard_or (negb (bool_decide (p.1 = ""))) (InvalidName (v_Source p.2) "" "networkd label must be non-empty" name);
  section ← networkdSection p.2; Ok (<[p.1 := section]> out).
Definition networkdSectionCollection (root : Value) (name : string) : S (gmap string NetworkdSection) :=
  objects ← rd (objectCollection root name); build objects (section_item name) ∅.

Definition firstSectionValue (section : NetworkdSection) (key : string) : string :=
  match section !! key with Some (v :: _) => v | _ => "" end.

Definition section_key (what : string) (source : SourceRef) (key : string) : S unit :=
  guard_or (negb (bool_decide (strings_TrimSpace key = "") || strings_ContainsAny key (chars [61; 0; 10; 13]%N)))
    (InvalidName source "" what key).

Definition append_values (source : SourceRef) (key : string) (lines : list string) (values : list string)
  : S (list string) :=
  fold_res (fun lines value => _ ← validateSystemdSingleLine value source; Ok (lines ++ [key +:+ "=" +:+ value])) values lines.

Definition append_entries (what : string) (source : SourceRef) (lines : list string) (values : NetworkdSection)
  : S (list string) :=
  fold_res (fun lines p => _ ← section_key what source p.1; append_values source p.1 lines p.2) (sorted_entries values) lines.

(** The blank line and the header of a section. *)
Definition append_header (lines : list string) (name : string) : list string :=
  (match lines with [] => [] | _ => lines ++ [""] end) ++ ["[" +:+ name +:+ "]"].

Definition appendNetworkdSection (lines : list string) (name : string) (values : NetworkdSection) (source : SourceRef)
  : S (list string) :=
  append_entries "networkd section key is invalid" source (append_header lines name) values.

Definition appendSystemdSection (lines : list string) (name : string) (values : NetworkdSection) (source : SourceRef)
  : S (list string) :=
  append_entries "systemd section key is invalid" source
    (if bool_decide (name = "") then lines else append_header lines name) values.

Definition needs_redaction (item : Value) (name : string) : bool :=
  from_option contentNeedsRedaction false (field item name).
Definition systemdSectionNeedsRedaction : Value -> string -> bool := needs_redaction.
Definition systemdAnySectionNeedsRedaction (root : Value) : bool :=
  existsb (systemdSectionNeedsRedaction root) ["resolve"; "journal"; "timer"; "install"; "service_config"].

(** ** Structured service units *)

Definition structured_fields : list string :=
  ["description"; "run"; "type"; "user"; "group"; "working_dir"; "environment"; "restart"; "restart_delay"; "wants";
   "after"; "wanted_by"; "stdout"; "stderr"; "service_config"].
Definition systemdServiceUnitHasStructuredFields (item : Value) : bool :=
  existsb (fun name => has (field item name)) structured_fields.
Definition systemdServiceUnitStructuredSensitive (item : Value) : bool := existsb (needs_redaction item) structured_fields.

(** [systemdSafeTokenPattern], [systemdEnvironmentNamePattern] *)
Definition systemdSafeTokenPattern (value : string) : bool :=
  negb (bool_decide (value = ""))
  && forallb (fun b => alnum b || bool_decide (b ∈ [95; 64; 37; 43; 61; 58; 44; 46; 47; 45]%N)) (Sha256.bytes value).
Definition systemdEnvironmentNamePattern (value : string) : bool :=
  match Sha256.bytes value with
  | b :: l => (letter b || (b =? 95)%N) && forallb word l
  | [] => false
  end.

Definition systemdQuoteToken (value : string) : string :=
  if systemdSafeTokenPattern value then value else strconv_Quote value.

Definition run_argument (item : Value) (args : list string) : S (list string) :=
  let complain := Invalid (v_Source item) "" "run entries must be non-empty strings" in
  arg ← of_option complain (StringValue item);
  _ ← guard_or (negb (bool_decide (arg = ""))) complain;
  _ ← validateSystemdSingleLine arg (v_Source item);
  Ok (args ++ [systemdQuoteToken arg]).

Definition systemdRunCommandField (root : Value) (name : string) : S (option string) :=
  match field root name with
  | None => Ok None
  | Some value =>
      _ ← rd (rejectEphemeralValue value);
      let complain := "must be a non-empty string or list of strings" in
      match StringValue value with
      | Some str =>
          _ ← require (negb (bool_decide (strings_TrimSpace str = ""))) (v_Source value) "" complain;
          _ ← validateSystemdSingleLine str (v_Source value);
          Ok (Some str)
      | None =>
          _ ← require (IsList value) (v_Source value) "" complain;
          _ ← require (negb (bool_decide (v_List value = []))) (v_Source value) "" complain;
          args ← fold_res (fun args item => run_argument item args) (v_List value) [];
          Ok (Some (strings_Join args " "))
      end
  end.

Definition optionalStringListField (root : Value) (name : string) : S (option (list string)) :=
  match field root name with
  | None => Ok None
  | Some _ => values ← rd (stringListField root name); Ok (Some values)
  end.

Definition string_entry (out : gmap string string) (p : string * Value) : S (gmap string string) :=
  str ← of_option (Invalid (v_Source p.2) "" "map values must be strings") (StringValue p.2); Ok (<[p.1 := str]> out).
Definition stringMapField (root : Value) (name : string) : S (gmap string string) :=
  value ← rd (mapField root name);
  match value with
  | None => Ok ∅
  | Some value =>
      _ ← rd (rejectEphemeralValue value);
      fold_res string_entry (sorted_entries (v_Map value)) ∅
  end.

Definition systemdUnitListValue (values : list string) (source : SourceRef) : S string :=
  _ ← require (forallb (fun v => negb (bool_decide (v = "") || strings_ContainsAny v (chars [32; 9; 10; 13; 0]%N))) values)
        source "" "systemd unit names must be non-empty strings without whitespace";
  Ok (strings_Join values " ").

Definition validateSystemdServiceType (value : string) (source : SourceRef) : S unit :=
  require (stringIn value ["simple"; "exec"; "forking"; "oneshot"; "dbus"; "notify"; "notify-reload"; "idle"]) source ""
    "service type must be simple, exec, forking, oneshot, dbus, notify, notify-reload, or idle".
Definition validateSystemdRestart (value : string) (source : SourceRef) : S unit :=
  require (stringIn value ["no"; "on-success"; "on-failure"; "on-abnormal"; "on-watchdog"; "on-abort"; "always"]) source ""
    "restart must be no, on-success, on-failure, on-abnormal, on-watchdog, on-abort, or always".

(** The line of an optional list of units. *)
Definition unit_list_line (item : Value) (name key : string) (lines : list string) : S (list string) :=
  values ← rd (stringListField item name);
  match values with
  | [] => Ok lines
  | _ =>
      let source := v_Source (entry item name) in
      value ← systemdUnitListValue values source;
      appendSystemdAssignment lines key value source
  end.

(** The line of an optional field, checked first. *)
Definition field_line (item : Value) (name key : string) (check : string -> SourceRef -> S unit) (lines : list string)
  : S (list string) :=
  value ← rd (stringField item name);
  match value with
  | None => Ok lines
  | Some value =>
      let source := v_Source (entry item name) in
      _ ← check value source;
      appendSystemdAssignment lines key value source
  end.

Definition no_check (value : string) (source : SourceRef) : S unit := Ok tt.
(** The error of a blank field mixes the positions of the item and the field. *)
Definition not_blank (item : Value) (name value : string) (source : SourceRef) : S unit :=
  require (negb (bool_decide (strings_TrimSpace value = "")))
    {| src_File := src_File (v_Source item); src_Line := src_Line source; src_Path := src_Path source |}
    ("." +:+ name) "must be non-empty".

Definition environment_line (environment : Value) (lines : list string) (p : string * string) : S (list string) :=
  let source := v_Source (entry environment p.1) in
  _ ← guard_or (systemdEnvironmentNamePattern p.1) (InvalidName source "" "environment variable name is invalid" p.1);
  _ ← validateSystemdSingleLine p.2 source;
  Ok (lines ++ ["Environment=" +:+ systemdQuoteToken (p.1 +:+ "=" +:+ p.2)]).

(** The description of a unit: the field, or its name without the suffix. *)
Definition unit_description (item : Value) (fallback : string) : S string :=
  description ← rd (stringField item "description");
  match description with
  | None => Ok fallback
  | Some description =>
      _ ← require (negb (bool_decide (strings_TrimSpace description = ""))) (v_Source item) ".description" "must be non-empty";
      Ok description
  end.

Definition unit_section (unitName : string) (item : Value) : S (list string) :=
  description ← unit_description item (strings_TrimSuffix unitName ".service");
  lines ← appendSystemdAssignment [] "Description" description (v_Source item);
  lines ← unit_list_line item "wants" "Wants" lines;
  unit_list_line item "after" "After" lines.

Definition service_section (item : Value) (run : string) : S (list string) :=
  lines ← field_line item "type" "Type" validateSystemdServiceType [];
  lines ← field_line item "user" "User" (not_blank item "user") lines;
  lines ← field_line item "group" "Group" (not_blank item "group") lines;
  lines ← field_line item "working_dir" "WorkingDirectory" (not_blank item "working_dir") lines;
  environment ← stringMapField item "environment";
  lines ← fold_res (environment_line (entry item "environment")) (sorted_entries environment) lines;
  lines ← appendSystemdAssignment lines "ExecStart" run (v_Source (entry item "run"));
  lines ← field_line item "restart" "Restart" validateSystemdRestart lines;
  lines ← field_line item "restart_delay" "RestartSec" (not_blank item "restart_delay") lines;
  lines ← field_line item "stdout" "StandardOutput" no_check lines;
  lines ← field_line item "stderr" "StandardError" no_check lines;
  config ← systemdSectionField item "service_config";
  if bool_decide (config = ∅) then Ok lines
  else appendSystemdSection lines "" config (v_Source (entry item "service_config")).

Definition install_section (item : Value) : S (list string) :=
  wantedBy ← optionalStringListField item "wanted_by";
  let source := if has wantedBy then v_Source (entry item "wanted_by") else v_Source item in
  match default ["multi-user.target"] wantedBy with
  | [] => Ok []
  | wantedBy =>
      value ← systemdUnitListValue wantedBy source;
      appendSystemdAssignment [] "WantedBy" value source
  end.

Definition renderSystemdServiceUnit (unitName : string) (item : Value) : S string :=
  run ← systemdRunCommandField item "run";
  run ← of_option (Invalid (v_Source item) ".run"
                     "systemd.service_unit requires run unless content or source is used") run;
  unitLines ← unit_section unitName item;
  serviceLines ← service_section item run;
  installLines ← install_section item;
  Ok (render_lines (["[Unit]"] ++ unitLines ++ [""; "[Service]"] ++ serviceLines
                    ++ match installLines with [] => [] | _ => [""; "[Install]"] ++ installLines end)).

(** ** Units *)

Definition addSystemdUnit (units : gmap string SystemdUnit) (u : SystemdUnit) : S (gmap string SystemdUnit) :=
  match units !! su_Name u with
  | Some previous => Err (Clash (su_Source u) "systemd unit" (su_Name u) "unit" (su_Source previous))
  | None => Ok (<[su_Name u := u]> units)
  end.

Definition unit_path (name : string) : string := "/etc/systemd/system/" +:+ name.

(** The unit of a timer or a drop-in: rendered, without a source file. *)
Definition rendered_unit (name path content owner group mode : string) (sensitive : bool) (ensure : string)
    (lifecycle : option LifecycleSpec) (source : SourceRef) : SystemdUnit :=
  {| su_Name := name; su_Path := path; su_Content := content; su_SourcePath := ""; su_Owner := owner; su_Group := group;
     su_Mode := mode; su_Sensitive := sensitive; su_Ensure := ensure; su_ChangeAction := "";
     su_ChangeActionSource := no_source; su_Lifecycle := lifecycle;
     su_Summary := if bool_decide (content = "") then empty_summary else contentSummary content; su_Source := source |}.

Section read.
Variable ReadFile : string -> option string.

Definition systemdUnitSpec (name : string) (item : Value) : S SystemdUnit :=
  unitName ← rd (objectName item "name" name);
  ensure ← rd (ensureField item "present");
  content ← rd (stringFieldAllowEphemeral item "content");
  sourcePath ← rd (stringField item "source");
  _ ← require (negb (bool_decide (ensure = "present") && bool_decide (has content = has sourcePath))) (v_Source item) ""
        "systemd.unit requires exactly one of content or source when ensure is present";
  let sensitive := has content && contentNeedsRedaction (entry item "content") in
  owner ← rd (stringFieldDefault item "owner" "root");
  group ← rd (stringFieldDefault item "group" "root");
  mode ← rd (modeFieldDefault item "mode" "0644");
  lifecycle ← rd (lifecycleSpec item);
  let resolved := resolvePath (src_File (v_Source item)) (default "" sourcePath) in
  summary ← summary_of ReadFile content sourcePath resolved (v_Source item);
  Ok {| su_Name := unitName; su_Path := unit_path unitName; su_Content := default "" content; su_SourcePath := resolved;
        su_Owner := owner; su_Group := group; su_Mode := mode; su_Sensitive := sensitive; su_Ensure := ensure;
        su_ChangeAction := ""; su_ChangeActionSource := no_source; su_Lifecycle := lifecycle; su_Summary := summary;
        su_Source := v_Source item |}.

(** The text of a service unit: raw, or rendered from its fields. *)
Definition service_unit_content (unitName : string) (item : Value) (ensure : string) (content sourcePath : option string)
  : S (option string) :=
  if has content || has sourcePath then
    _ ← require (negb (bool_decide (ensure = "present") && bool_decide (has content = has sourcePath))) (v_Source item) ""
          "systemd.service_unit requires exactly one of content or source when ensure is present";
    _ ← require (negb (systemdServiceUnitHasStructuredFields item)) (v_Source item) ""
          "systemd.service_unit cannot combine content/source with structured service fields";
    Ok content
  else if bool_decide (ensure = "present") then
    rendered ← renderSystemdServiceUnit unitName item; Ok (Some rendered)
  else Ok content.

Definition systemdServiceUnitSpec (name : string) (item : Value) : S SystemdUnit :=
  baseName ← rd (objectName item "name" name);
  let unitName := serviceUnitName baseName in
  ensure ← rd (ensureField item "present");
  changeAction ← rd (stringField item "change_action");
  let actionSource := v_Source (entry item "change_action") in
  _ ← require (from_option (fun a => stringIn a ["restart"; "reload"; "try-restart"]) true changeAction) actionSource ""
        "systemd.service_unit change_action must be restart, reload, or try-restart";
  _ ← require (negb (has changeAction && bool_decide (ensure = "absent"))) actionSource ""
        "systemd.service_unit change_action requires ensure present";
  raw ← rd (stringFieldAllowEphemeral item "content");
  sourcePath ← rd (stringField item "source");
  let rawSensitive := has raw && contentNeedsRedaction (entry item "content") in
  content ← service_unit_content unitName item ensure raw sourcePath;
  let sensitive := rawSensitive || systemdServiceUnitStructuredSensitive item in
  owner ← rd (stringFieldDefault item "owner" "root");
  group ← rd (stringFieldDefault item "file_group" "root");
  mode ← rd (modeFieldDefault item "mode" "0644");
  lifecycle ← rd (lifecycleSpec item);
  let resolved := resolvePath (src_File (v_Source item)) (default "" sourcePath) in
  summary ← summary_of ReadFile content sourcePath resolved (v_Source item);
  Ok {| su_Name := unitName; su_Path := unit_path unitName; su_Content := default "" content; su_SourcePath := resolved;
        su_Owner := owner; su_Group := group; su_Mode := mode; su_Sensitive := sensitive; su_Ensure := ensure;
        su_ChangeAction := default "" changeAction;
        su_ChangeActionSource := if has changeAction then actionSource else no_source; su_Lifecycle := lifecycle;
        su_Summary := summary; su_Source := v_Source item |}.

Definition unit_item (spec : string -> Value -> S SystemdUnit) (message : string) (out : gmap string SystemdUnit)
    (p : string * Value) : S (gmap string SystemdUnit) :=
  let '(name, item) := p in
  _ ← require (negb (bool_decide (name = ""))) (v_Source item) "" message;
  u ← spec name item;
  addSystemdUnit out u.

Definition systemdSpecs (systemd : Value) : S (gmap string SystemdUnit) :=
  objects ← rd (objectCollection systemd "unit");
  serviceObjects ← rd (objectCollection systemd "service_unit");
  out ← build objects (unit_item systemdUnitSpec "systemd unit name must be non-empty") ∅;
  build serviceObjects (unit_item systemdServiceUnitSpec "systemd service_unit name must be non-empty") out.
End read.

(** ** Timers *)

Definition renderSystemdTimerUnit (description : string) (timer install : NetworkdSection) (source : SourceRef) : S string :=
  lines ← appendSystemdAssignment ["[Unit]"] "Description" description source;
  lines ← appendSystemdSection lines "Timer" timer source;
  lines ← (if bool_decide (install = ∅) then Ok lines else appendSystemdSection lines "Install" install source);
  Ok (render_lines lines).

Definition systemdTimerSpec (name : string) (item : Value) : S SystemdTimer :=
  let timerName := timerUnitName name in
  ensure ← rd (ensureField item "present");
  timerSection ← systemdSectionField item "timer";
  _ ← require (negb (bool_decide (ensure = "present") && bool_decide (timerSection = ∅))) (v_Source item) ".timer"
        "systemd.timer requires timer section when ensure is present";
  install ← systemdSectionField item "install";
  wantedBy ← optionalStringListField item "wanted_by";
  let install := match default ["timers.target"] wantedBy with [] => install | l => <["WantedBy" := l]> install end in
  content ← (if bool_decide (ensure = "present") then
               description ← unit_description item (strings_TrimSuffix timerName ".timer");
               renderSystemdTimerUnit description timerSection install (v_Source item)
             else Ok "");
  owner ← rd (stringFieldDefault item "owner" "root");
  group ← rd (stringFieldDefault item "file_group" "root");
  mode ← rd (modeFieldDefault item "mode" "0644");
  lifecycle ← rd (lifecycleSpec item);
  enable ← rd (boolField item "enable");
  state ← rd (stringField item "state");
  _ ← require (stringIn (default "" state) [""; "running"; "stopped"]) (v_Source item) ".state"
        "systemd.timer state must be running or stopped";
  let sensitive := systemdSectionNeedsRedaction item "timer" || systemdSectionNeedsRedaction item "install" in
  Ok {| tm_Name := timerName;
        tm_Unit := rendered_unit timerName (unit_path timerName) content owner group mode sensitive ensure lifecycle
                     (v_Source item);
        tm_Timer := timerSection; tm_Install := install; tm_Enable := enable; tm_State := default "" state;
        tm_Source := v_Source item |}.

Definition timer_item (out : gmap string SystemdTimer) (p : string * Value) : S (gmap string SystemdTimer) :=
  let '(name, item) := p in
  _ ← require (negb (bool_decide (name = ""))) (v_Source item) "" "systemd timer name must be non-empty";
  timer ← systemdTimerSpec name item;
  match out !! tm_Name timer with
  | Some previous => Err (Clash (tm_Source timer) "systemd timer" (tm_Name timer) "timer" (tm_Source previous))
  | None => Ok (<[tm_Name timer := timer]> out)
  end.

Definition systemdTimerSpecs (systemd : Value) : S (gmap string SystemdTimer) :=
  objects ← rd (objectCollection systemd "timer"); build objects timer_item ∅.

(** ** Drop-ins *)

Definition systemdDropInUnit (item : Value) (name path sectionName : string) (section : NetworkdSection) (ensure : string)
  : S SystemdUnit :=
  content ← (if bool_decide (ensure = "present") then
               lines ← appendSystemdSection [] sectionName section (v_Source item); Ok (render_lines lines)
             else Ok "");
  owner ← rd (stringFieldDefault item "owner" "root");
  group ← rd (stringFieldDefault item "file_group" "root");
  mode ← rd (modeFieldDefault item "mode" "0644");
  lifecycle ← rd (lifecycleSpec item);
  Ok (rendered_unit name path content owner group mode (systemdAnySectionNeedsRedaction item) ensure lifecycle (v_Source item)).

(** The section of a drop-in and its unit. *)
Definition dropin_parts (item : Value) (field_name message name path sectionName : string)
  : S (NetworkdSection * SystemdUnit) :=
  ensure ← rd (ensureField item "present");
  section ← systemdSectionField item field_name;
  _ ← require (negb (bool_decide (ensure = "present") && bool_decide (section = ∅))) (v_Source item) ("." +:+ field_name)
        message;
  u ← systemdDropInUnit item name path sectionName section ensure;
  Ok (section, u).

Definition dropin_state (item : Value) (message : string) : S string :=
  state ← rd (stringField item "state");
  _ ← require (stringIn (default "" state) [""; "running"; "stopped"; "restarted"; "reloaded"]) (v_Source item) ".state" message;
  Ok (default "" state).

Definition systemdResolvedSpec (systemd : Value) : S (option SystemdResolvedSpec) :=
  resolved ← rd (mapField systemd "resolved");
  match resolved with
  | None => Ok None
  | Some item =>
      '(section, u) ← dropin_parts item "resolve"
        "systemd.resolved requires resolve section when ensure is present" "systemd-resolved"
        "/etc/systemd/resolved.conf.d/debianform.conf" "Resolve";
      enable ← rd (boolField item "enable");
      state ← dropin_state item "systemd.resolved state must be running, stopped, restarted, or reloaded";
      Ok (Some {| rs_Unit := u; rs_Resolve := section; rs_Enable := enable; rs_State := state; rs_Source := v_Source item |})
  end.

Definition systemdJournaldSpec (systemd : Value) : S (option SystemdJournaldSpec) :=
  journald ← rd (mapField systemd "journald");
  match journald with
  | None => Ok None
  | Some item =>
      '(section, u) ← dropin_parts item "journal"
        "systemd.journald requires journal section when ensure is present" "systemd-journald"
        "/etc/systemd/journald.conf.d/debianform.conf" "Journal";
      state ← dropin_state item "systemd.journald state must be running, stopped, restarted, or reloaded";
      Ok (Some {| jd_Unit := u; jd_Journal := section; jd_State := state; jd_Source := v_Source item |})
  end.
