(* ===== verification/NetworkdSpecs.v ===== *)
(** * Building the networkd specification: the networkd part of
    [merge_systemd.go]

    A netdev or network is raw text, a list of named sections, or the older
    maps of settings; the three forms exclude each other. *)
From S2P Require Import Prelude Sha256 GoValue GoStrings IR HostIR Values Merge Fields HostValidation HostSpecs SystemdSpecs.

(** An identifier of a section or key: letters, digits and [_.:-]; a rune
    outside ASCII is refused, as each of its bytes is. *)
Definition validNetworkdIdentifier (value : string) : bool :=
  negb (bool_decide (value = ""))
  && forallb (fun b => alnum b || bool_decide (b ∈ [95; 46; 58; 45]%N)) (Sha256.bytes value).

(** ** Rendering *)

Definition named_section (lines : list string) (section : NetworkdNamedSection) : S (list string) :=
  _ ← guard_or (validNetworkdIdentifier (ns_Name section))
        (InvalidName (ns_Source section) "" "networkd section name is invalid" (ns_Name section));
  appendNetworkdSection lines (ns_Name section) (ns_Settings section) (ns_Source section).

Definition appendNetworkdNamedSections (lines : list string) (sections : list NetworkdNamedSection) : S (list string) :=
  fold_res named_section sections lines.

Definition renderNetworkdNetDev (item : NetworkdNetDev) : S string :=
  match nd_Sections item with
  | _ :: _ => lines ← appendNetworkdNamedSections [] (nd_Sections item); Ok (render_lines lines)
  | [] =>
      lines ← appendNetworkdSection [] "NetDev" (nd_NetDev item) (nd_Source item);
      lines ← (if bool_decide (nd_WireGuard item = ∅) then Ok lines
               else appendNetworkdSection lines "WireGuard" (nd_WireGuard item) (nd_Source item));
      lines ← fold_res (fun lines p => appendNetworkdSection lines "WireGuardPeer" p.2 (nd_Source item))
                (sorted_entries (nd_WireGuardPeers item)) lines;
      Ok (render_lines lines)
  end.

Definition renderNetworkdNetwork (item : NetworkdNetwork) : S string :=
  match nn_Sections item with
  | _ :: _ => lines ← appendNetworkdNamedSections [] (nn_Sections item); Ok (render_lines lines)
  | [] =>
      lines ← appendNetworkdSection [] "Match" (nn_Match item) (nn_Source item);
      lines ← appendNetworkdSection lines "Network" (nn_Network item) (nn_Source item);
      Ok (render_lines lines)
  end.

(** ** Named sections *)

(** The labels in the order of the source, then those it does not list. *)
Definition section_order (collection : Value) : list string :=
  v_Order collection ++ filter (fun label => label ∉ v_Order collection) (sorted_keys (v_Map collection)).

Definition setting_check (_ : unit) (p : string * Value) : S unit :=
  let '(key, value) := p in
  _ ← guard_or (validNetworkdIdentifier key) (InvalidName (v_Source value) "" "networkd section key is invalid" key);
  guard_or (negb (stringIn key ["PrivateKey"; "PresharedKey"] && negb (ContainsSensitive value)))
    (InvalidName (v_Source value) "" "inline key must use a sensitive value or its file-backed directive" key).

Definition generic_section (collection : Value) (acc : list NetworkdNamedSection * bool) (label : string)
  : S (list NetworkdNamedSection * bool) :=
  let section := entry collection label in
  _ ← require (negb (bool_decide (label = ""))) (v_Source section) "" "networkd section identity must be non-empty";
  name ← rd (stringField section "name");
  _ ← guard_or (from_option validNetworkdIdentifier false name)
        (InvalidName (v_Source section) ".name" "networkd section name is invalid" (default "" name));
  settings ← rd (mapField section "settings");
  settings ← of_option (Invalid (v_Source section) ".settings" "networkd section settings map is required") settings;
  _ ← require (negb (ContainsEphemeral settings)) (v_Source settings) ""
        "ephemeral value is not allowed in networkd section settings";
  _ ← fold_res setting_check (sorted_entries (v_Map settings)) tt;
  values ← networkdSection settings;
  Ok (acc.1 ++ [{| ns_Identity := label; ns_Name := default "" name; ns_Settings := values; ns_Source := v_Source section |}],
      acc.2 || ContainsSensitive settings).

(** The sections and whether one is sensitive, when there is a [section]
    block. *)
Definition networkdGenericSections (item : Value) : S (option (list NetworkdNamedSection * bool)) :=
  match field item "section" with
  | None => Ok None
  | Some collection =>
      _ ← require (IsMap collection) (v_Source collection) "" "networkd section collection must be a map";
      acc ← fold_res (generic_section collection) (section_order collection) ([], false);
      Ok (Some acc)
  end.

(** ** Activation *)

Definition single_lines (activation : Value) (_ : unit) (p : nat * string) : S unit :=
  validateSystemdSingleLine p.2
    (from_option v_Source no_source (v_List (entry activation "reconfigure") !! p.1)).

Definition networkdActivationSpec (item : Value) : S (option NetworkdActivationSpec) :=
  activation ← rd (mapField item "activation");
  match activation with
  | None => Ok None
  | Some activation =>
      reconfigure ← rd (stringListField activation "reconfigure");
      _ ← fold_res (single_lines activation) (imap pair reconfigure) tt;
      postReload ← (match field activation "post_reload" with
                    | None => Ok None
                    | Some value =>
                        name ← rd (stringField activation "post_reload");
                        Ok (Some (script_reference value (default "" name)))
                    end);
      _ ← require (negb (bool_decide (reconfigure = []) && negb (has postReload))) (v_Source activation) ""
            "networkd activation requires reconfigure or post_reload";
      Ok (Some {| na_Reconfigure := reconfigure; na_PostReload := postReload; na_Source := v_Source activation |})
  end.

Definition validateNetworkdPostReloadScript (source : SourceRef) (script : ComponentScriptSpec) : S unit :=
  _ ← require (bool_decide (cs_Mode script = "once")) source ""
        "networkd activation.post_reload requires script mode once";
  require (bool_decide (cs_Outputs script = [])) source ""
    "networkd activation.post_reload does not support script outputs".

Definition resolveNetworkdActivationRef (localScripts rootScripts : gmap string ComponentScriptSpec)
    (activation : option NetworkdActivationSpec) : S (option NetworkdActivationSpec) :=
  match activation with
  | Some a =>
      match na_PostReload a with
      | Some ref =>
          ref ← resolve_script "networkd activation.post_reload" (validateNetworkdPostReloadScript (srf_Source ref))
                  localScripts rootScripts ref;
          Ok (Some {| na_Reconfigure := na_Reconfigure a; na_PostReload := Some ref; na_Source := na_Source a |})
      | None => Ok activation
      end
  | None => Ok None
  end.

Definition set_nd_Activation (a : option NetworkdActivationSpec) (n : NetworkdNetDev) : NetworkdNetDev :=
  {| nd_Label := nd_Label n; nd_Name := nd_Name n; nd_Path := nd_Path n; nd_NetDev := nd_NetDev n;
     nd_WireGuard := nd_WireGuard n; nd_WireGuardPeers := nd_WireGuardPeers n; nd_Sections := nd_Sections n;
     nd_ContentMode := nd_ContentMode n; nd_SourcePath := nd_SourcePath n; nd_Owner := nd_Owner n; nd_Group := nd_Group n;
     nd_Mode := nd_Mode n; nd_Sensitive := nd_Sensitive n; nd_Ensure := nd_Ensure n; nd_Activation := a;
     nd_Lifecycle := nd_Lifecycle n; nd_Summary := nd_Summary n; nd_Content := nd_Content n; nd_Source := nd_Source n |}.
Definition set_nn_Activation (a : option NetworkdActivationSpec) (n : NetworkdNetwork) : NetworkdNetwork :=
  {| nn_Label := nn_Label n; nn_Path := nn_Path n; nn_Match := nn_Match n; nn_Network := nn_Network n;
     nn_Sections := nn_Sections n; nn_ContentMode := nn_ContentMode n; nn_SourcePath := nn_SourcePath n;
     nn_Owner := nn_Owner n; nn_Group := nn_Group n; nn_Mode := nn_Mode n; nn_Sensitive := nn_Sensitive n;
     nn_Ensure := nn_Ensure n; nn_Activation := a; nn_Lifecycle := nn_Lifecycle n; nn_Summary := nn_Summary n;
     nn_Content := nn_Content n; nn_Source := nn_Source n |}.

(** The activations are updated in place. *)
Definition validateNetworkdActivationRefs (localScripts rootScripts : gmap string ComponentScriptSpec)
    (spec : option NetworkdSpec) : S (option NetworkdSpec) :=
  match spec with
  | None => Ok None
  | Some spec =>
      netdevs ← fold_res (fun out p =>
                  a ← resolveNetworkdActivationRef localScripts rootScripts (nd_Activation p.2);
                  Ok (<[p.1 := set_nd_Activation a p.2]> out)) (sorted_entries (nw_NetDevs spec)) (nw_NetDevs spec);
      networks ← fold_res (fun out p =>
                  a ← resolveNetworkdActivationRef localScripts rootScripts (nn_Activation p.2);
                  Ok (<[p.1 := set_nn_Activation a p.2]> out)) (sorted_entries (nw_Networks spec)) (nw_Networks spec);
      Ok (Some {| nw_Enable := nw_Enable spec; nw_NetDevs := netdevs; nw_Networks := networks; nw_Source := nw_Source spec |})
  end.

(** ** Validation of netdevs *)

(** The scan of the [NetDev] sections: how many, and the last name. *)
Definition netdev_section (acc : nat * string) (section : NetworkdNamedSection) : S (nat * string) :=
  if bool_decide (ns_Name section = "NetDev") then
    let name := firstSectionValue (ns_Settings section) "Name" in
    _ ← require (negb (bool_decide (firstSectionValue (ns_Settings section) "Kind" = ""))) (ns_Source section) ""
          "networkd netdev [NetDev] section requires Kind";
    _ ← require (negb (bool_decide (name = ""))) (ns_Source section) "" "networkd netdev [NetDev] section requires Name";
    Ok (1 + acc.1, name)
  else Ok acc.

Definition validateGenericNetworkdNetDev (sections : list NetworkdNamedSection) (source : SourceRef) : S string :=
  '(found, name) ← fold_res netdev_section sections (0, "");
  _ ← require (bool_decide (found = 1)) source "" "networkd netdev requires exactly one NetDev section";
  Ok name.

(** The scan of a raw file, line by line. *)
Record raw_scan := { rw_inNetDev : bool; rw_name : string; rw_kind : string }.

Definition scan_line (s : raw_scan) (rawLine : string) : raw_scan :=
  let line := strings_TrimSpace rawLine in
  if bool_decide (line = "") || strings_HasPrefix line "#" || strings_HasPrefix line ";" then s
  else if strings_HasPrefix line "[" && strings_HasSuffix line "]" then
    {| rw_inNetDev := bool_decide (line = "[NetDev]"); rw_name := rw_name s; rw_kind := rw_kind s |}
  else if negb (rw_inNetDev s) then s
  else match strings_Cut line "="%char with
       | None => s
       | Some (key, value) =>
           let key := strings_TrimSpace key in
           if bool_decide (key = "Name") then
             {| rw_inNetDev := true; rw_name := strings_TrimSpace value; rw_kind := rw_kind s |}
           else if bool_decide (key = "Kind") then
             {| rw_inNetDev := true; rw_name := rw_name s; rw_kind := strings_TrimSpace value |}
           else s
       end.

Definition validateRawNetworkdNetDev (content : string) (source : SourceRef) : S string :=
  let s := fold_left scan_line (strings_Split content newline) {| rw_inNetDev := false; rw_name := ""; rw_kind := "" |} in
  _ ← require (negb (bool_decide (rw_name s = "" \/ rw_kind s = ""))) source ""
        "raw networkd netdev requires [NetDev] Name and Kind";
  _ ← validateSystemdSingleLine (rw_name s) source;
  Ok (rw_name s).

Definition networkdFilePath (item : Value) (field_name fallback : string) : S string :=
  path ← rd (stringField item field_name);
  let path := if bool_decide (default "" path = "") then fallback else default "" path in
  _ ← require (filepath_IsAbs path) (v_Source item) ("." +:+ field_name) "networkd file path must be absolute";
  Ok path.

Definition hasNetworkdCompatibilityFields (item : Value) (names : list string) : bool :=
  existsb (fun name => has (field item name)) names.

(** ** Raw files *)

Record networkdRawFileSpec := {
  nr_Content : string;
  nr_SourcePath : string;
  nr_Sensitive : bool;
  nr_Summary : ContentSummary;
  nr_ValidationContent : string;
}.

(** The three forms exclude each other. *)
Definition check_forms (what : string) (item : Value) (raw sections compatibility : bool) : S unit :=
  _ ← require (negb (raw && (sections || compatibility))) (v_Source item) ""
        (what +:+ " raw content/source is mutually exclusive with section blocks and compatibility attributes");
  require (negb (sections && compatibility)) (v_Source item) ""
    (what +:+ " section blocks are mutually exclusive with compatibility attributes").

Section read.
Variable ReadFile : string -> option string.

(** [None] is the zero [networkdRawFileSpec], whose [Present] is false. *)
Definition networkdRawFile (item : Value) : S (option networkdRawFileSpec) :=
  content ← rd (stringFieldAllowEphemeral item "content");
  _ ← (if has content then rd (rejectEphemeralValue (entry item "content")) else Ok tt);
  source ← rd (stringField item "source");
  _ ← require (negb (has content && has source)) (v_Source item) "" "networkd resource accepts only one of content or source";
  match content, source with
  | None, None => Ok None
  | _, _ =>
      flag ← rd (boolField item "sensitive");
      let sensitive := default false flag || has content && contentNeedsRedaction (entry item "content")
                       || has source && ContainsSensitive (entry item "source") in
      match content with
      | Some content =>
          Ok (Some {| nr_Content := content; nr_SourcePath := ""; nr_Sensitive := sensitive;
                      nr_Summary := contentSummary content; nr_ValidationContent := content |})
      | None =>
          let path := resolvePath (src_File (v_Source item)) (default "" source) in
          data ← of_option (ReadSource (v_Source item) path) (ReadFile path);
          Ok (Some {| nr_Content := ""; nr_SourcePath := path; nr_Sensitive := sensitive;
                      nr_Summary := contentSummary data; nr_ValidationContent := data |})
      end
  end.

(** The content mode, the content and the summary of a file; [render] is the
    text of the other two forms. *)
Definition networkd_content (ensure : string) (raw : option networkdRawFileSpec) (structured : bool) (render : S string)
  : S (string * string * ContentSummary) :=
  match raw with
  | Some raw => Ok ("raw", nr_Content raw, nr_Summary raw)
  | None =>
      let mode := if structured then "structured" else "" in
      if bool_decide (ensure = "present") then content ← render; Ok (mode, content, contentSummary content)
      else Ok (mode, "", empty_summary)
  end.

(** ** Netdevs and networks *)

Definition netdev_name (item : Value) (ensure : string) (raw : option networkdRawFileSpec)
    (sections : option (list NetworkdNamedSection * bool)) (netdev : NetworkdSection) : S string :=
  match raw, sections with
  | Some raw, _ => validateRawNetworkdNetDev (nr_ValidationContent raw) (v_Source item)
  | None, Some (sections, _) => validateGenericNetworkdNetDev sections (v_Source item)
  | None, None =>
      if bool_decide (ensure = "present") then
        _ ← require (negb (bool_decide (netdev = ∅))) (v_Source item) ".netdev"
              "networkd netdev requires netdev section when ensure is present";
        _ ← require (negb (bool_decide (firstSectionValue netdev "Kind" = ""))) (v_Source item) ".netdev.Kind"
              "networkd netdev requires Kind";
        _ ← require (negb (bool_decide (firstSectionValue netdev "Name" = ""))) (v_Source item) ".netdev.Name"
              "networkd netdev requires Name";
        Ok ""
      else Ok ""
  end.

(** Inline preshared keys of the older form are refused. *)
Definition no_inline_keys (item : Value) (peers : gmap string NetworkdSection) : S unit :=
  fold_res (fun _ p => guard_or (negb (has (p.2 !! "PresharedKey")))
                         (InvalidName (v_Source item) ".wireguard_peer" "use PresharedKeyFile instead of inline PresharedKey" p.1))
    (sorted_entries peers) tt.

Definition set_nd_content (content : string * string * ContentSummary) (n : NetworkdNetDev) : NetworkdNetDev :=
  {| nd_Label := nd_Label n; nd_Name := nd_Name n; nd_Path := nd_Path n; nd_NetDev := nd_NetDev n;
     nd_WireGuard := nd_WireGuard n; nd_WireGuardPeers := nd_WireGuardPeers n; nd_Sections := nd_Sections n;
     nd_ContentMode := content.1.1; nd_SourcePath := nd_SourcePath n; nd_Owner := nd_Owner n; nd_Group := nd_Group n;
     nd_Mode := nd_Mode n; nd_Sensitive := nd_Sensitive n; nd_Ensure := nd_Ensure n; nd_Activation := nd_Activation n;
     nd_Lifecycle := nd_Lifecycle n; nd_Summary := content.2; nd_Content := content.1.2; nd_Source := nd_Source n |}.
Definition set_nn_content (content : string * string * ContentSummary) (n : NetworkdNetwork) : NetworkdNetwork :=
  {| nn_Label := nn_Label n; nn_Path := nn_Path n; nn_Match := nn_Match n; nn_Network := nn_Network n;
     nn_Sections := nn_Sections n; nn_ContentMode := content.1.1; nn_SourcePath := nn_SourcePath n;
     nn_Owner := nn_Owner n; nn_Group := nn_Group n; nn_Mode := nn_Mode n; nn_Sensitive := nn_Sensitive n;
     nn_Ensure := nn_Ensure n; nn_Activation := nn_Activation n; nn_Lifecycle := nn_Lifecycle n;
     nn_Summary := content.2; nn_Content := content.1.2; nn_Source := nn_Source n |}.

(** Owner, group, mode and lifecycle of a networkd file. *)
Definition networkd_ownership (item : Value) (sensitive : bool)
  : S (string * string * string * option LifecycleSpec) :=
  owner ← rd (stringFieldDefault item "owner" "root");
  group ← rd (stringFieldDefault item "group" "root");
  mode ← rd (modeFieldDefault item "mode" (if sensitive then "0600" else "0644"));
  lifecycle ← rd (lifecycleSpec item);
  Ok (owner, group, mode, lifecycle).

Definition networkdNetDevSpec (label : string) (item : Value) : S NetworkdNetDev :=
  path ← networkdFilePath item "path" ("/etc/systemd/network/" +:+ label +:+ ".netdev");
  ensure ← rd (ensureField item "present");
  sections ← networkdGenericSections item;
  raw ← networkdRawFile item;
  netdev ← networkdSectionField item "netdev";
  wireguard ← networkdSectionField item "wireguard";
  _ ← require (negb (has (wireguard !! "PrivateKey"))) (v_Source item) ".wireguard.PrivateKey"
        "use PrivateKeyFile instead of inline PrivateKey";
  peers ← networkdSectionCollection item "wireguard_peer";
  _ ← no_inline_keys item peers;
  _ ← check_forms "networkd netdev" item (has raw) (has sections)
        (hasNetworkdCompatibilityFields item ["netdev"; "wireguard"; "wireguard_peer"]);
  name ← netdev_name item ensure raw sections netdev;
  activation ← networkdActivationSpec item;
  let sensitive := from_option nr_Sensitive false raw || from_option snd false sections in
  '(owner, group, mode, lifecycle) ← networkd_ownership item sensitive;
  let out := {| nd_Label := label; nd_Name := if has raw || has sections then name else ""; nd_Path := path;
                nd_NetDev := netdev; nd_WireGuard := wireguard; nd_WireGuardPeers := peers;
                nd_Sections := from_option fst [] sections; nd_ContentMode := "";
                nd_SourcePath := from_option nr_SourcePath "" raw; nd_Owner := owner; nd_Group := group; nd_Mode := mode;
                nd_Sensitive := sensitive; nd_Ensure := ensure; nd_Activation := activation; nd_Lifecycle := lifecycle;
                nd_Summary := empty_summary; nd_Content := ""; nd_Source := v_Source item |} in
  content ← networkd_content ensure raw (has sections) (renderNetworkdNetDev out);
  Ok (set_nd_content content out).

Definition networkdNetworkSpec (label : string) (item : Value) : S NetworkdNetwork :=
  path ← networkdFilePath item "path" ("/etc/systemd/network/" +:+ label +:+ ".network");
  ensure ← rd (ensureField item "present");
  sections ← networkdGenericSections item;
  raw ← networkdRawFile item;
  matches ← networkdSectionField item "match";
  network ← networkdSectionField item "network";
  _ ← check_forms "networkd network" item (has raw) (has sections)
        (hasNetworkdCompatibilityFields item ["match"; "network"]);
  _ ← (if bool_decide (ensure = "present") && negb (has raw) && negb (has sections) then
         _ ← require (negb (bool_decide (matches = ∅))) (v_Source item) ".match"
               "networkd network requires match section when ensure is present";
         require (negb (bool_decide (network = ∅))) (v_Source item) ".network"
           "networkd network requires network section when ensure is present"
       else Ok tt);
  activation ← networkdActivationSpec item;
  let sensitive := from_option nr_Sensitive false raw || from_option snd false sections in
  '(owner, group, mode, lifecycle) ← networkd_ownership item sensitive;
  let out := {| nn_Label := label; nn_Path := path; nn_Match := matches; nn_Network := network;
                nn_Sections := from_option fst [] sections; nn_ContentMode := "";
                nn_SourcePath := from_option nr_SourcePath "" raw; nn_Owner := owner; nn_Group := group; nn_Mode := mode;
                nn_Sensitive := sensitive; nn_Ensure := ensure; nn_Activation := activation; nn_Lifecycle := lifecycle;
                nn_Summary := empty_summary; nn_Content := ""; nn_Source := v_Source item |} in
  content ← networkd_content ensure raw (has sections) (renderNetworkdNetwork out);
  Ok (set_nn_content content out).

Definition netdev_item (out : gmap string NetworkdNetDev) (p : string * Value) : S (gmap string NetworkdNetDev) :=
  let '(label, item) := p in
  _ ← require (negb (bool_decide (label = ""))) (v_Source item) "" "networkd netdev label must be non-empty";
  netdev ← networkdNetDevSpec label item; Ok (<[label := netdev]> out).
Definition network_item (out : gmap string NetworkdNetwork) (p : string * Value) : S (gmap string NetworkdNetwork) :=
  let '(label, item) := p in
  _ ← require (negb (bool_decide (label = ""))) (v_Source item) "" "networkd network label must be non-empty";
  network ← networkdNetworkSpec label item; Ok (<[label := network]> out).

Definition networkdSpec (systemd : Value) : S (option NetworkdSpec) :=
  networkd ← rd (mapField systemd "networkd");
  match networkd with
  | None => Ok None
  | Some networkd =>
      enable ← rd (boolField networkd "enable");
      netdevs ← rd (objectCollection networkd "netdev");
      netdevs ← build netdevs netdev_item ∅;
      networks ← rd (objectCollection networkd "network");
      networks ← build networks network_item ∅;
      Ok (Some {| nw_Enable := enable; nw_NetDevs := netdevs; nw_Networks := networks; nw_Source := v_Source networkd |})
  end.
End read.
