(* ===== verification/HostBuild.v ===== *)
(** * Building a host: [merge_host.go]

    [host_sections] is [buildHostSpec] up to the Docker section; the code after
    it adds the Docker specification and the explicit dependencies.
    [applyHostFacts] merges the detected platform into the declared one. *)
From S2P Require Import Prelude Sha256 GoValue GoStrings IR HostIR Values Merge Fields HostValidation HostSpecs SystemdSpecs NetworkdSpecs.

Definition intField (root : Value) (name : string) : S (option Z) :=
  match field root name with
  | None => Ok None
  | Some value =>
      _ ← rd (rejectEphemeralValue value);
      str ← of_option (Invalid (v_Source value) "" "must be a number") (StringValue value);
      n ← of_option (Invalid (v_Source value) "" "must be an integer") (strconv_Atoi str);
      Ok (Some n)
  end.

(** [if section, ok, err := mapField(raw, name); ...]: the section is compiled
    when it is present. *)
Definition section {A} (raw : Value) (name : string) (absent : A) (compile : Value -> S A) : S A :=
  value ← rd (mapField raw name); from_option compile (Ok absent) value.

(** ** Platforms *)

Inductive platform_failure :=
| SpecError (e : spec_error)
| PlatformField (source : SourceRef) (field_name message value : string)
| PlatformMismatch (source : SourceRef) (field_name declared detected : string)
| UnsupportedPlatform (host : string) (e : platform_error).

Abbreviation P := (result platform_failure).

(** [fieldError] *)
Definition platform_require (spec : PlatformSpec) (cond : bool) (field_name message value : string) : P unit :=
  guard_or cond (PlatformField (pf_Source spec) field_name message value).

Definition check_ubuntu (spec : PlatformSpec) : P unit :=
  _ ← platform_require spec (stringIn (pf_Version spec) [""; "24.04"; "26.04"]) "version"
        "unsupported Ubuntu platform.version; supported versions are 24.04 and 26.04" (pf_Version spec);
  _ ← platform_require spec (stringIn (pf_Architecture spec) [""; "amd64"]) "architecture"
        "unsupported Ubuntu platform.architecture" (pf_Architecture spec);
  let codename := pf_Codename spec in
  if bool_decide (codename = "") then Ok tt
  else if bool_decide (pf_Version spec = "24.04") then
    platform_require spec (bool_decide (codename = "noble")) "codename" "Ubuntu 24.04 platform.codename must be noble" codename
  else if bool_decide (pf_Version spec = "26.04") then
    platform_require spec (bool_decide (codename = "resolute")) "codename" "Ubuntu 26.04 platform.codename must be resolute"
      codename
  else if bool_decide (pf_Version spec = "") then
    platform_require spec (stringIn codename ["noble"; "resolute"]) "codename"
      "unsupported Ubuntu platform.codename; supported codenames are noble and resolute" codename
  else Ok tt.

Definition check_debian (spec : PlatformSpec) : P unit :=
  let codename := pf_Codename spec in
  _ ← platform_require spec (stringIn (pf_Version spec) [""; "12"; "13"]) "version"
        "unsupported Debian platform.version; supported versions are 12 and 13" (pf_Version spec);
  _ ← platform_require spec (stringIn (pf_Architecture spec) [""; "amd64"; "arm64"]) "architecture"
        "unsupported Debian platform.architecture" (pf_Architecture spec);
  _ ← platform_require spec (negb (bool_decide (pf_Version spec = "12") && negb (stringIn codename [""; "bookworm"])))
        "codename" "Debian 12 platform.codename must be bookworm" codename;
  platform_require spec (negb (bool_decide (pf_Version spec = "13") && negb (stringIn codename [""; "trixie"])))
    "codename" "Debian 13 platform.codename must be trixie" codename.

Definition complete (fields : list string) : bool := forallb (fun f => negb (bool_decide (f = ""))) fields.

Definition validateDeclaredPlatform (spec : PlatformSpec) : P unit :=
  _ ← platform_require spec (stringIn (pf_Distribution spec) [""; "debian"; "ubuntu"]) "distribution"
        "unsupported platform.distribution" (pf_Distribution spec);
  _ ← (if bool_decide (pf_Distribution spec = "ubuntu") then check_ubuntu spec else Ok tt);
  _ ← (if bool_decide (pf_Distribution spec = "debian") then check_debian spec else Ok tt);
  if complete [pf_Distribution spec; pf_Version spec; pf_Architecture spec; pf_Codename spec] then
    map_err (UnsupportedPlatform "")
      (ValidateTargetPlatform (pf_Distribution spec) (pf_Version spec) (pf_Architecture spec) (pf_Codename spec))
  else Ok tt.

(** A field of the [platform] section, which may be left out but not empty. *)
Definition platform_field (platform : Value) (name : string) : P string :=
  value ← map_err SpecError (rd (stringField platform name));
  _ ← map_err SpecError (require (negb (bool_decide (value = Some ""))) (v_Source platform) ("." +:+ name)
        ("platform." +:+ name +:+ " must be non-empty"));
  Ok (default "" value).

Definition platform_section (platform : Value) : P PlatformSpec :=
  distribution ← platform_field platform "distribution";
  version ← platform_field platform "version";
  architecture ← platform_field platform "architecture";
  codename ← platform_field platform "codename";
  let spec := {| pf_Distribution := distribution; pf_Version := version; pf_Architecture := architecture;
                 pf_Codename := codename; pf_Source := v_Source platform |} in
  _ ← validateDeclaredPlatform spec;
  Ok spec.

(** One detected field against the declared one. *)
Definition merge_fact (source : SourceRef) (field_name declared detected : string) : P string :=
  if bool_decide (detected = "") then Ok declared
  else _ ← guard_or (bool_decide (declared = "") || bool_decide (declared = detected))
             (PlatformMismatch source field_name declared detected);
       Ok detected.

Definition set_facts (platform : option PlatformSpec) (facts : HostFacts) (spec : HostSpec) : HostSpec :=
  {| h_Name := h_Name spec; h_Source := h_Source spec; h_Facts := facts; h_SSH := h_SSH spec; h_State := h_State spec;
     h_Staging := h_Staging spec; h_Moves := h_Moves spec; h_Platform := platform; h_System := h_System spec;
     h_Kernel := h_Kernel spec; h_Packages := h_Packages spec; h_APT := h_APT spec; h_Files := h_Files spec;
     h_Secrets := h_Secrets spec; h_Directories := h_Directories spec; h_Groups := h_Groups spec; h_Users := h_Users spec;
     h_Systemd := h_Systemd spec; h_Services := h_Services spec; h_Nftables := h_Nftables spec; h_Docker := h_Docker spec;
     h_Scripts := h_Scripts spec; h_Components := h_Components spec;
     h_ExplicitDependencies := h_ExplicitDependencies spec |}.

(** A platform is made when some field is detected on a host without one. *)
Definition applyHostFacts (spec : HostSpec) (facts : HostFacts) : P HostSpec :=
  let system := System facts in
  let source := from_option pf_Source (h_Source spec) (h_Platform spec) in
  distribution ← merge_fact source "distribution" (PlatformDistribution spec) (Distribution system);
  version ← merge_fact source "version" (PlatformVersion spec) (Version system);
  architecture ← merge_fact source "architecture" (PlatformArchitecture spec) (Architecture system);
  codename ← merge_fact source "codename" (PlatformCodename spec) (Codename system);
  let detected := [Distribution system; Version system; Architecture system; Codename system] in
  let platform :=
    if bool_decide (h_Platform spec = None) && forallb (fun f => bool_decide (f = "")) detected then None
    else Some {| pf_Distribution := distribution; pf_Version := version; pf_Architecture := architecture;
                 pf_Codename := codename; pf_Source := source |} in
  _ ← (if complete detected then
         map_err (UnsupportedPlatform (h_Name spec))
           (ValidateTargetPlatform (Distribution system) (Version system) (Architecture system) (Codename system))
       else Ok tt);
  Ok (set_facts platform facts spec).

(** ** The small sections *)

Definition default_ssh (name : string) (source : SourceRef) : SSHSpec :=
  {| ssh_Host := name; ssh_Port := 22; ssh_User := "root"; ssh_IdentityFile := ""; ssh_Source := source |}.

Definition ssh_section (defaults : SSHSpec) (ssh : Value) : S SSHSpec :=
  host ← rd (stringField ssh "host");
  port ← intField ssh "port";
  user ← rd (stringField ssh "user");
  _ ← require (stringIn (default "" user) [""; "root"]) (v_Source ssh) ".user"
        "DebianForm manages target hosts as root; ssh.user must be root or omitted";
  identity ← rd (stringField ssh "identity_file");
  Ok {| ssh_Host := default (ssh_Host defaults) host; ssh_Port := default (ssh_Port defaults) port;
        ssh_User := default (ssh_User defaults) user; ssh_IdentityFile := default (ssh_IdentityFile defaults) identity;
        ssh_Source := v_Source ssh |}.

Definition default_state (name : string) (source : SourceRef) : StateSpec :=
  {| sts_Path := "/var/lib/debianform/state/" +:+ name +:+ ".json";
     sts_LockPath := "/var/lock/debianform/state/" +:+ name +:+ ".lock"; sts_Source := source |}.

Definition state_section (defaults : StateSpec) (state : Value) : S StateSpec :=
  path ← rd (stringField state "path");
  lock ← rd (stringField state "lock_path");
  Ok {| sts_Path := default (sts_Path defaults) path; sts_LockPath := default (sts_LockPath defaults) lock;
        sts_Source := v_Source state |}.

Definition staging_section (staging : Value) : S (option StagingSpec) :=
  _ ← require (negb (from_option (fun v => ContainsEphemeral v || ContainsSensitive v) false (field staging "root")))
        (v_Source (entry staging "root")) "" "staging root does not accept sensitive or ephemeral values";
  root ← rd (stringField staging "root");
  match root with
  | None => Ok None
  | Some root =>
      _ ← require (absolute root) (v_Source staging) ".root" "staging root must be absolute and non-empty";
      Ok (Some {| stg_Root := root; stg_Source := v_Source staging |})
  end.

(** A value of the section that is validated when it is present. *)
Definition checked_string (item : Value) (name : string) (check : string -> SourceRef -> S unit) : S (option string) :=
  value ← rd (stringField item name);
  _ ← from_option (fun v => check v (v_Source (entry item name))) (Ok tt) value;
  Ok value.

Definition no_longer (item : Value) (name message : string) : S unit :=
  require (negb (has (field item name))) (v_Source (entry item name)) "" message.

Definition system_section (system : Value) : S SystemSpec :=
  hostname ← rd (stringField system "hostname");
  _ ← no_longer system "architecture" "system.architecture is no longer supported; use platform.architecture";
  _ ← no_longer system "codename" "system.codename is no longer supported; use platform.codename";
  timezone ← checked_string system "timezone" validateSystemTimezone;
  locale ← checked_string system "locale" validateSystemLocale;
  Ok {| sys_Hostname := default "" hostname; sys_HostnameSet := has hostname; sys_Timezone := default "" timezone;
        sys_TimezoneSet := has timezone; sys_Locale := default "" locale; sys_LocaleSet := has locale;
        sys_Source := v_Source system |}.

Definition kernel_section (kernel : Value) : S KernelSpec :=
  modules ← moduleSpecs kernel;
  sysctl ← sysctlSpecs kernel;
  Ok {| ker_Modules := modules; ker_Sysctl := sysctl; ker_Source := v_Source kernel |}.

Definition packages_section (packages : Value) : S PackageSpec :=
  install ← packageItems packages; Ok {| pks_Install := install; pks_Source := v_Source packages |}.

Section read.
Variable ReadFile : string -> option string.

Definition apt_section (apt : Value) : S APTSpec :=
  repositories ← aptRepositorySpecs apt;
  sourceFiles ← aptSourceFileSpecs ReadFile apt;
  Ok {| apt_Repositories := repositories; apt_SourceFiles := sourceFiles; apt_Source := v_Source apt |}.

Definition files_section (files : Value) : S FileSpec :=
  managed ← fileSpecs ReadFile files;
  _ ← rejectHostFileOnChange managed;
  Ok {| fls_Files := managed; fls_Source := v_Source files |}.

Definition secrets_section (secrets : Value) : S SecretSpec :=
  files ← secretSpecs ReadFile secrets; Ok {| secs_Files := files; secs_Source := v_Source secrets |}.

Definition directories_section (directories : Value) : S DirectorySpec :=
  managed ← directorySpecs directories; Ok {| dirs_Directories := managed; dirs_Source := v_Source directories |}.

Definition groups_section (groups : Value) : S GroupSpec :=
  managed ← groupSpecs groups; Ok {| grs_Groups := managed; grs_Source := v_Source groups |}.

Definition users_section (users : Value) : S UserSpec :=
  managed ← userSpecs users; Ok {| uss_Users := managed; uss_Source := v_Source users |}.

Definition systemd_section (systemd : Value) : S SystemdSpec :=
  units ← systemdSpecs ReadFile systemd;
  timers ← systemdTimerSpecs systemd;
  networkd ← networkdSpec ReadFile systemd;
  resolved ← systemdResolvedSpec systemd;
  journald ← systemdJournaldSpec systemd;
  Ok {| sd_Units := units; sd_Networkd := networkd; sd_Timers := timers; sd_Resolved := resolved;
        sd_Journald := journald; sd_Source := v_Source systemd |}.

Definition services_section (services : Value) : S ServiceSpec :=
  managed ← serviceSpecs services; Ok {| svs_Services := managed; svs_Source := v_Source services |}.

(** ** The host, up to its Docker section *)

Definition host_sections {Assert} (host : Host Assert) (raw : Value) : P HostSpec :=
  let spec {A} (m : S A) : P A := map_err SpecError m in
  ssh ← spec (section raw "ssh" (default_ssh (hst_Name host) (hst_Source host))
                (ssh_section (default_ssh (hst_Name host) (hst_Source host))));
  state ← spec (section raw "state" (default_state (hst_Name host) (hst_Source host))
                  (state_section (default_state (hst_Name host) (hst_Source host))));
  staging ← spec (section raw "staging" None staging_section);
  system ← spec (section raw "system"
                   {| sys_Hostname := ""; sys_HostnameSet := false; sys_Timezone := ""; sys_TimezoneSet := false;
                      sys_Locale := ""; sys_LocaleSet := false; sys_Source := hst_Source host |} system_section);
  platform ← spec (rd (mapField raw "platform"));
  platform ← from_option (fun v => p ← platform_section v; Ok (Some p)) (Ok None) platform;
  kernel ← spec (section raw "kernel" zero_KernelSpec kernel_section);
  packages ← spec (section raw "packages" zero_PackageSpec packages_section);
  apt ← spec (section raw "apt" zero_APTSpec apt_section);
  files ← spec (section raw "files" zero_FileSpec files_section);
  secrets ← spec (section raw "secrets" zero_SecretSpec secrets_section);
  directories ← spec (section raw "directories" zero_DirectorySpec directories_section);
  groups ← spec (section raw "groups" zero_GroupSpec groups_section);
  users ← spec (section raw "users" zero_UserSpec users_section);
  systemd ← spec (section raw "systemd" zero_SystemdSpec systemd_section);
  services ← spec (section raw "services" zero_ServiceSpec services_section);
  nftables ← spec (section raw "nftables" zero_NftablesSpec (nftablesSpec ReadFile));
  Ok {| h_Name := hst_Name host; h_Source := hst_Source host; h_Facts := {| System := no_facts |}; h_SSH := ssh;
        h_State := state; h_Staging := staging; h_Moves := []; h_Platform := platform; h_System := system;
        h_Kernel := kernel; h_Packages := packages; h_APT := apt; h_Files := files; h_Secrets := secrets;
        h_Directories := directories; h_Groups := groups; h_Users := users; h_Systemd := systemd;
        h_Services := services; h_Nftables := nftables; h_Docker := None; h_Scripts := ∅; h_Components := [];
        h_ExplicitDependencies := [] |}.
End read.
