(* ===== verification/HostBuildUnits.v ===== *)
(** * Well-formed systemd specifications

    The units, timers, drop-ins and networkd files the builders return: keyed
    by their names, with the paths and the ownership the engine relies on. *)
From S2P Require Import Prelude Sha256 GoValue GoStrings IR HostIR Values Merge Fields HostValidation HostSpecs SystemdSpecs NetworkdSpecs HostBuild.

(** ** Inverting a builder *)

Lemma rd_Ok {A} (m : F A) a : rd m = Ok a <-> m = Ok a.
Proof. apply map_err_Ok. Qed.

Lemma require_Ok cond source suffix message u : require cond source suffix message = Ok u <-> cond = true.
Proof. apply guard_or_Ok. Qed.

(** Peels the reads and the checks of a successful run. *)
Ltac spec_inv :=
  repeat match goal with
  | H : (_ ≫= _) = Ok _ |- _ => apply bind_Ok in H as (? & ? & H)
  | H : rd _ = Ok _ |- _ => apply rd_Ok in H
  | H : require _ _ _ _ = Ok _ |- _ => apply require_Ok in H
  | H : guard_or _ _ = Ok _ |- _ => apply guard_or_Ok in H
  | H : of_option _ _ = Ok _ |- _ => apply of_option_Ok in H
  | H : map_err _ _ = Ok _ |- _ => apply map_err_Ok in H
  | H : Ok (_, _) = Ok (_, _) |- _ => injection H as ? ?; subst
  | H : Ok _ = Ok _ |- _ => injection H as H; try subst
  | H : Err _ = Ok _ |- _ => discriminate H
  end.

Lemma build_inv {A} (P : A -> Prop) collection step (out out' : A) :
  (forall a p a', P a -> step a p = Ok a' -> P a') -> P out -> build collection step out = Ok out' -> P out'.
Proof.
  intros Hstep Hout. unfold build. destruct collection; [|by intros [= <-]].
  apply fold_res_inv; [|done]. intros s x s' _. apply Hstep.
Qed.

(** ** Fields *)

Definition ensure_ok (ensure : string) : Prop := ensure = "present" \/ ensure = "absent".

Lemma ensureField_ok item e : ensureField item "present" = Ok e -> ensure_ok e.
Proof.
  unfold ensureField. intros H. spec_inv. destruct x as [e'|]; [|spec_inv; by left].
  destruct (bool_decide (e' = "")); spec_inv; [by left|].
  match goal with H : stringIn _ _ = true |- _ => unfold stringIn in H; apply bool_decide_eq_true in H end.
  unfold ensure_ok. set_solver.
Qed.

Lemma modeFieldDefault_ok item name fallback mode : modeFieldDefault item name fallback = Ok mode -> modePattern mode = true.
Proof. unfold modeFieldDefault. intros H. by spec_inv. Qed.

Lemma stringIn_true v l : stringIn v l = true <-> v ∈ l.
Proof. apply bool_decide_eq_true. Qed.

Lemma has_Some {A} (o : option A) : has o = true <-> is_Some o.
Proof. apply bool_decide_eq_true. Qed.

Lemma resolvePath_empty f : resolvePath f "" = "".
Proof. done. Qed.

(** Peels a run and keeps what it says of the fields. *)
Ltac spec_facts :=
  spec_inv;
  repeat match goal with
  | H : ensureField _ _ = Ok _ |- _ => apply ensureField_ok in H
  | H : modeFieldDefault _ _ _ = Ok _ |- _ => apply modeFieldDefault_ok in H
  end.

(** ** Files with content *)

(** The summary is that of the content, or of the file to read. *)
Definition described (ReadFile : string -> option string) (content path : string) (summary : ContentSummary) : Prop :=
  (path = "" /\ summary = contentSummary content)
  \/ (content = "" /\ exists data, ReadFile path = Some data /\ summary = contentSummary data).

Section read.
Context (ReadFile : string -> option string).

Lemma summary_described content sourcePath f source summary :
  has content <> has sourcePath ->
  summary_of ReadFile content sourcePath (resolvePath f (default "" sourcePath)) source = Ok summary ->
  described ReadFile (default "" content) (resolvePath f (default "" sourcePath)) summary.
Proof.
  unfold summary_of, fileSummary, described. destruct content as [c|], sourcePath as [s|]; intros Hx H; cbn in *; spec_inv;
    [done|by left|right; eauto|done].
Qed.

(** The condition [ensure == "present" && hasContent == hasSource] is refused. *)
Lemma exactly_one ensure (content sourcePath : option string) :
  negb (bool_decide (ensure = "present") && bool_decide (has content = has sourcePath)) = true ->
  ensure = "present" -> has content <> has sourcePath.
Proof. intros H He. rewrite bool_decide_true in H by done. by apply negb_true_iff, bool_decide_eq_false in H. Qed.

(** Mode and state of a managed file. *)
Record managed (mode ensure : string) : Prop := {
  mn_mode : modePattern mode = true;
  mn_ensure : ensure_ok ensure;
}.

(** ** Files, secrets, directories *)

Record wf_file (path : string) (f : ManagedFile) : Prop := {
  wf_file_path : mf_Path f = path /\ absolute path = true;
  wf_file_managed : managed (mf_Mode f) (mf_Ensure f);
  wf_file_summary : mf_Ensure f = "present" -> described ReadFile (mf_Content f) (mf_SourcePath f) (mf_Summary f);
  wf_file_writeOnly : mf_ContentWriteOnly f = true -> mf_ContentVersion f <> "" /\ mf_Sensitive f = true;
}.

Lemma file_spec_wf out p out' :
  map_Forall wf_file out -> file_spec ReadFile out p = Ok out' -> map_Forall wf_file out'.
Proof.
  destruct p as [label item]. unfold file_spec. intros Hout H. spec_facts.
  apply map_Forall_insert_2; [|done]. split; cbn.
  - done.
  - by split.
  - intros He. by eapply summary_described; [eapply exactly_one|].
  - intros Hwo. match goal with H : negb (_ && (_ || _)) = true |- _ => rewrite Hwo, negb_true_iff in H; cbn in H;
      apply orb_false_iff in H as [_ Hv] end.
    apply andb_true_iff in Hwo as [-> He]. unfold contentNeedsRedaction. rewrite He, orb_true_r.
    split; [by apply bool_decide_eq_false in Hv|done].
Qed.

Lemma fileSpecs_wf files out : fileSpecs ReadFile files = Ok out -> map_Forall wf_file out.
Proof.
  unfold fileSpecs. intros H. apply bind_Ok in H as (? & _ & H). eapply build_inv, H; [apply file_spec_wf|].
  apply map_Forall_empty.
Qed.
(** A builder of a map proves its invariant from that of one step. *)
Lemma map_build_wf {A} (P : string -> A -> Prop) collection step (out : gmap string A) :
  (forall out p out', map_Forall P out -> step out p = Ok out' -> map_Forall P out') ->
  build collection step ∅ = Ok out -> map_Forall P out.
Proof. intros Hstep H. eapply build_inv, H; [done|]. apply map_Forall_empty. Qed.

Record wf_secret (path : string) (s : SecretFile) : Prop := {
  wf_secret_path : sf_Path s = path /\ absolute path = true;
  wf_secret_managed : managed (sf_Mode s) (sf_Ensure s);
  wf_secret_summary : sf_Ensure s = "present" ->
    exists data, ReadFile (sf_SourcePath s) = Some data /\ sf_Summary s = contentSummary data;
}.

Lemma secret_spec_wf out p out' :
  map_Forall wf_secret out -> secret_spec ReadFile out p = Ok out' -> map_Forall wf_secret out'.
Proof.
  destruct p as [label item]. unfold secret_spec. intros Hout H. spec_facts.
  apply map_Forall_insert_2; [|done]. split; cbn; [done|by split|]. intros He.
  match goal with H : negb (bool_decide (_ = "present") && _) = true |- _ =>
    rewrite bool_decide_true in H by done; cbn in H; apply negb_true_iff, negb_false_iff, has_Some in H as [f ->] end.
  match goal with H : summary_of _ _ _ _ _ = Ok _ |- _ => cbn in H; unfold fileSummary in H end. spec_inv. eauto.
Qed.

Record wf_directory (path : string) (d : ManagedDirectory) : Prop := {
  wf_directory_path : md_Path d = path /\ absolute path = true;
  wf_directory_managed : managed (md_Mode d) (md_Ensure d);
}.

Lemma directory_spec_wf out p out' :
  map_Forall wf_directory out -> directory_spec out p = Ok out' -> map_Forall wf_directory out'.
Proof.
  destruct p as [label item]. unfold directory_spec. intros Hout H. spec_facts.
  destruct (out !! _); [destruct (sameManagedDirectory _ _); by spec_inv|]. spec_inv.
  apply map_Forall_insert_2; [|done]. split; cbn; [done|by split].
Qed.

(** ** APT and nftables *)

Record wf_source_file (label : string) (f : APTSourceFileSpec) : Prop := {
  wf_source_label : as_Label f = label /\ label <> "" /\ absolute (as_Path f) = true;
  wf_source_managed : managed (as_Mode f) (as_Ensure f);
  wf_source_summary : as_Ensure f = "present" -> described ReadFile (as_Content f) (as_SourcePath f) (as_Summary f);
  wf_source_destroy : as_OnDestroy f ∈ ["keep"; "restore"] /\ (as_Sensitive f = true -> as_OnDestroy f = "keep");
}.

Lemma source_file_spec_wf out p out' :
  map_Forall wf_source_file out -> source_file_spec ReadFile out p = Ok out' -> map_Forall wf_source_file out'.
Proof.
  destruct p as [label item]. unfold source_file_spec. intros Hout H. spec_facts.
  repeat match goal with H : negb (bool_decide _) = true |- _ => rewrite negb_true_iff, bool_decide_eq_false in H end.
  apply map_Forall_insert_2; [|done]. split; cbn.
  - done.
  - by split.
  - intros He. by eapply summary_described; [eapply exactly_one|].
  - match goal with H : stringIn _ _ = true |- _ => apply stringIn_true in H; split; [done|] end.
    intros Hs. match goal with H : negb (_ && bool_decide (_ = "restore")) = true |- _ =>
      rewrite Hs in H; apply negb_true_iff, bool_decide_eq_false in H end. set_solver.
Qed.

Record wf_nftables (f : NftablesFileSpec) : Prop := {
  wf_nftables_path : filepath_IsAbs (nf_Path f) = true;
  wf_nftables_managed : managed (nf_Mode f) (nf_Ensure f);
  wf_nftables_summary : nf_Ensure f = "present" -> described ReadFile (nf_Content f) (nf_SourcePath f) (nf_Summary f);
}.

Lemma nftablesFileSpec_wf label item path f : nftablesFileSpec ReadFile label item path = Ok f -> wf_nftables f.
Proof.
  unfold nftablesFileSpec. intros H. spec_facts. split; cbn; [done|by split|]. intros He.
  eapply summary_described; [|done].
  repeat match goal with H : negb _ = true |- _ => rewrite negb_true_iff in H end.
  match goal with H : bool_decide (_ = "present") && _ && _ = false |- _ => rewrite bool_decide_true in H by done; cbn in H end.
  repeat match goal with o : option string |- _ => destruct o end; done.
Qed.

Definition nft_main_ok (nft : NftablesSpec) : Prop := forall f, nft_Main nft = Some f -> wf_nftables f.

Lemma nftablesSpec_wf v nft :
  nftablesSpec ReadFile v = Ok nft -> nft_main_ok nft /\ map_Forall (fun _ => wf_nftables) (nft_Files nft).
Proof.
  unfold nftablesSpec. intros H. spec_inv. split; unfold nft_main_ok; cbn.
  - intros f Hf. match goal with H : match ?m with Some _ => _ | None => _ end = Ok _ |- _ => destruct m end; spec_inv.
    + injection Hf as ->. by eapply nftablesFileSpec_wf.
    + done.
  - eapply map_build_wf; [|done]. intros o [l i] o' Ho Hs. unfold nftables_file in Hs. spec_inv.
    apply map_Forall_insert_2; [by eapply nftablesFileSpec_wf|done].
Qed.

Record wf_repository (name : string) (r : APTRepositorySpec) : Prop := {
  wf_repository_name : ar_Name r = name /\ name <> "" /\ ensure_ok (ar_Ensure r);
  wf_repository_lists : ar_Ensure r = "present" -> ar_URIs r <> [] /\ ar_Suites r <> [] /\ ar_Components r <> [];
  wf_repository_key : forall key, ar_SigningKey r = Some key ->
    filepath_IsAbs (ak_Path key) = true /\ (ak_URL key <> "" -> ak_Content key = "" /\ sha256Pattern (ak_SHA256 key) = true);
}.

Lemma requiredStringListField_ok item name l : requiredStringListField item name = Ok l -> l <> [].
Proof.
  unfold requiredStringListField. destruct (field item name); [|done]. intros H. spec_inv.
  by match goal with H : negb (bool_decide _) = true |- _ => apply negb_true_iff, bool_decide_eq_false in H end.
Qed.

(** Lower-casing keeps hex digits hex digits. *)
Lemma lower_hex c : hex_digit (N_of_ascii c) = true -> hex_digit (N_of_ascii (lower_ascii c)) = true.
Proof. destruct c as [[][][][][][][][]]; vm_compute; done. Qed.

Lemma ToLower_length s : String.length (strings_ToLower s) = String.length s.
Proof. induction s; cbn; congruence. Qed.

Lemma sha256Pattern_lower s : sha256Pattern s = true -> sha256Pattern (strings_ToLower s) = true.
Proof.
  unfold sha256Pattern. rewrite !andb_true_iff, ToLower_length. intros [Hl Hh]. split; [done|]. clear Hl.
  induction s as [|c s IH]; [done|].
  change (hex_digit (N_of_ascii c) && forallb hex_digit (Sha256.bytes s) = true) in Hh.
  change (hex_digit (N_of_ascii (lower_ascii c)) && forallb hex_digit (Sha256.bytes (strings_ToLower s)) = true).
  apply andb_true_iff in Hh as [Hc Hs]. by rewrite lower_hex, IH.
Qed.

Lemma signing_key_digest_ok source content sha d :
  signing_key_digest source content sha = Ok d -> default "" sha <> "" -> sha256Pattern d = true.
Proof.
  unfold signing_key_digest. destruct sha as [sha|]; cbn; [|done]. intros H Hne. rewrite bool_decide_false in H by done.
  spec_inv. by apply sha256Pattern_lower.
Qed.

Lemma repository_spec_wf out p out' :
  map_Forall wf_repository out -> repository_spec out p = Ok out' -> map_Forall wf_repository out'.
Proof.
  destruct p as [name item]. unfold repository_spec. intros Hout H. spec_facts.
  repeat match goal with H : negb (bool_decide _) = true |- _ => rewrite negb_true_iff, bool_decide_eq_false in H end.
  apply map_Forall_insert_2; [|done]. split; cbn.
  - done.
  - intros He. repeat match goal with H : _ = Ok _ |- _ => rewrite (bool_decide_true (_ = "present")) in H by done end.
    split_and!; by eapply requiredStringListField_ok.
  - intros key ->. match goal with H : aptSigningKeySpec _ _ _ = Ok _ |- _ => unfold aptSigningKeySpec in H end. spec_inv.
    match goal with H : match ?m with Some _ => _ | None => _ end = Ok _ |- _ => destruct m end; spec_inv; [|done].
    cbn. split; [done|]. intros Hu.
    match goal with H : signing_key_digest _ _ _ = Ok _ |- _ => apply signing_key_digest_ok in H as Hd; [|clear H] end.
    + split; [|done]. match goal with u : option string, H : negb (has ?u && has ?c) = true |- _ => destruct u, c; cbn in *; done end.
    + match goal with H : negb (has ?u && bool_decide _) = true |- _ => destruct u; [|done]; apply negb_true_iff in H; cbn in H;
        by apply bool_decide_eq_false in H end.
Qed.
End read.

(** ** Names *)

Ltac nonempty :=
  repeat match goal with H : negb (bool_decide _) = true |- _ => rewrite negb_true_iff, bool_decide_eq_false in H end.

Record wf_group (name : string) (g : ManagedGroup) : Prop := {
  wf_group_name : mg_Name g = name /\ name <> "";
  wf_group_ensure : ensure_ok (mg_Ensure g);
}.
Lemma group_spec_wf out p out' : map_Forall wf_group out -> group_spec out p = Ok out' -> map_Forall wf_group out'.
Proof.
  destruct p as [name item]. unfold group_spec. intros Hout H. spec_facts. nonempty.
  apply map_Forall_insert_2; [|done]. by split.
Qed.

Record wf_user (name : string) (u : ManagedUser) : Prop := {
  wf_user_name : mu_Name u = name /\ name <> "";
  wf_user_ensure : ensure_ok (mu_Ensure u);
  wf_user_lists : NoDup (elems (mu_Groups u)) /\ NoDup (elems (mu_SSHAuthorizedKeys u));
}.
Lemma stringListField_NoDup item name l : stringListField item name = Ok l -> NoDup l /\ Forall (fun s => s <> "") l.
Proof.
  unfold stringListField. intros H. apply bind_Ok in H as (x & _ & H). destruct x as [v|]; [|spec_inv; split; constructor].
  apply string_entries_Ok in H as (Hall & Hnd & _). split; [done|].
  induction Hall as [|i s items out [_ Hs] _ IH]; constructor; [done|]. apply NoDup_cons in Hnd as [_ Hnd]. auto.
Qed.
Lemma stringListSlice_NoDup item name l : stringListSlice item name = Ok l -> NoDup (elems l).
Proof.
  unfold stringListSlice. intros H. spec_inv.
  match goal with H : stringListField _ _ = Ok _ |- _ => apply stringListField_NoDup in H as [H _] end.
  destruct (has _); [done|constructor].
Qed.
Lemma user_spec_wf out p out' : map_Forall wf_user out -> user_spec out p = Ok out' -> map_Forall wf_user out'.
Proof.
  destruct p as [name item]. unfold user_spec. intros Hout H. spec_facts. nonempty.
  apply map_Forall_insert_2; [|done]. split; [done|done|]. split; by eapply stringListSlice_NoDup.
Qed.

Record wf_service (name : string) (m : ManagedService) : Prop := {
  wf_service_name : ms_Name m = name /\ ms_Unit m = serviceUnitName name;
  wf_service_state : ms_State m = "" \/ validServiceState (ms_State m) = true;
}.
Lemma service_spec_wf out p out' : map_Forall wf_service out -> service_spec out p = Ok out' -> map_Forall wf_service out'.
Proof.
  destruct p as [label item]. unfold service_spec. intros Hout H. spec_facts.
  destruct (out !! _); [done|]. spec_inv. apply map_Forall_insert_2; [|done]. split; cbn; [done|].
  match goal with H : bool_decide _ || _ = true |- _ => apply orb_true_iff in H as [H|H]; [left|by right];
    by apply bool_decide_eq_true in H end.
Qed.

(** The packages: distinct, non-empty names, each in [pl_seen]. *)
Record wf_packages (l : package_list) : Prop := {
  wp_names : NoDup (pk_Name <$> pl_out l) /\ "" ∉ pk_Name <$> pl_out l;
  wp_seen : forall name, name ∈ pk_Name <$> pl_out l -> is_Some (pl_seen l !! name);
  wp_policy : Forall (fun i => pk_ConffilePolicySet i = true -> pk_ConffilePolicy i ∈ ["keep"; "replace"; "error"]) (pl_out l);
}.

Lemma push_package_wf l item :
  wf_packages l -> pk_Name item <> "" -> pl_seen l !! pk_Name item = None ->
  (pk_ConffilePolicySet item = true -> pk_ConffilePolicy item ∈ ["keep"; "replace"; "error"]) ->
  wf_packages (push_package item l).
Proof.
  intros [[Hn He] Hs Hp] Hne Hfree Hpol. split; cbn [push_package pl_out pl_seen]; rewrite ?fmap_app; cbn.
  - split.
    + apply NoDup_app. split_and!; [done| |apply NoDup_singleton]. intros x Hx ->%list_elem_of_singleton.
      destruct (Hs _ Hx) as [? ?]. congruence.
    + rewrite elem_of_app, list_elem_of_singleton. naive_solver.
  - intros name. rewrite elem_of_app, list_elem_of_singleton. intros [Hx| ->]; [|by rewrite lookup_insert_eq].
    apply lookup_insert_is_Some'. auto.
  - apply Forall_app. split; [done|]. by apply Forall_singleton.
Qed.

Lemma fresh_package_ok l source name u : fresh_package l source name = Ok u -> pl_seen l !! name = None.
Proof. unfold fresh_package. by destruct (pl_seen l !! name). Qed.

Lemma install_entry_wf l item l' : wf_packages l -> install_entry l item = Ok l' -> wf_packages l'.
Proof.
  unfold install_entry. intros Hl H. spec_inv. nonempty. apply push_package_wf; [done|done| |done].
  by eapply fresh_package_ok.
Qed.

Lemma package_block_wf l p l' : wf_packages l -> package_block l p = Ok l' -> wf_packages l'.
Proof.
  destruct p as [name item]. unfold package_block. intros Hl H. spec_inv. nonempty.
  apply push_package_wf; [done|done| |]; cbn [pk_Name pk_ConffilePolicySet pk_ConffilePolicy].
  - by eapply fresh_package_ok.
  - intros [v ->]%has_Some. by apply stringIn_true.
Qed.

Lemma packageItems_wf v items :
  packageItems v = Ok items ->
  NoDup (pk_Name <$> items) /\ ("" ∉ pk_Name <$> items)
  /\ Forall (fun i => pk_ConffilePolicySet i = true -> pk_ConffilePolicy i ∈ ["keep"; "replace"; "error"]) items.
Proof.
  unfold packageItems. intros H. apply bind_Ok in H as (install & _ & H). apply bind_Ok in H as (l & Hl & H).
  apply (fold_res_inv wf_packages) in Hl; [|intros; by eapply install_entry_wf|].
  2: { split; [split; [constructor|apply not_elem_of_nil]| |constructor]. by intros ? ?%elem_of_nil. }
  destruct (field v "package"); [|injection H as <-; destruct Hl as [[? ?] _ ?]; done].
  apply bind_Ok in H as (? & _ & H). apply bind_Ok in H as (l' & Hl' & [= <-]).
  apply (fold_res_inv wf_packages) in Hl'; [|intros; by eapply package_block_wf|done]. destruct Hl' as [[? ?] _ ?]; done.
Qed.

Lemma moduleSpecs_wf v ms : moduleSpecs v = Ok ms -> NoDup (km_Name <$> ms) /\ "" ∉ km_Name <$> ms.
Proof.
  unfold moduleSpecs. intros H. apply bind_Ok in H as (l & _ & H). revert H.
  apply (fold_res_inv (fun ms => NoDup (km_Name <$> ms) /\ "" ∉ km_Name <$> ms)).
  - intros s x s' _ [Hn He] H. unfold module_spec in H. spec_inv. nonempty. rewrite fmap_app. cbn. split.
    + apply NoDup_app. split_and!; [done| |apply NoDup_singleton]. by intros ? ? ->%list_elem_of_singleton.
    + rewrite elem_of_app, list_elem_of_singleton. naive_solver.
  - split; [constructor|apply not_elem_of_nil].
Qed.

Lemma render_lines_nonempty lines : render_lines lines <> "".
Proof. unfold render_lines. by destruct (strings_Join lines nl). Qed.

(** ** Inline keys *)

(** The key never appears in the settings of a section. *)
Definition no_key (key : string) (section : NetworkdSection) : Prop := section !! key = None.

Lemma has_None {A} (o : option A) : negb (has o) = true -> o = None.
Proof. by destruct o. Qed.

Lemma no_inline_keys_ok item peers u :
  no_inline_keys item peers = Ok u -> map_Forall (fun _ => no_key "PresharedKey") peers.
Proof.
  unfold no_inline_keys. destruct u. rewrite fold_res_check. intros Hall name section Hs.
  eapply has_None, guard_or_Ok, (Hall (name, section)). by apply elem_of_sorted_entries.
Qed.

(** An inline key may be set in a named section of a sensitive file only. *)
Definition keys_sensitive (sections : list NetworkdNamedSection) (sensitive : bool) : Prop :=
  sensitive = true \/ forall s, s ∈ sections -> no_key "PrivateKey" (ns_Settings s) /\ no_key "PresharedKey" (ns_Settings s).

Lemma section_of_keys message root section key :
  section_of message root = Ok section -> v_Map root !! key = None -> section !! key = None.
Proof.
  unfold section_of. intros H Hk. spec_inv. revert H.
  apply (fold_res_inv (fun out : NetworkdSection => out !! key = None)); [|apply lookup_empty].
  intros out [k v] out' Hin%elem_of_sorted_entries Hout H. unfold section_entry in H.
  destruct (bool_decide _); spec_inv; [done|]. cbn in *. rewrite lookup_insert_ne; [done|]. naive_solver.
Qed.

(** A key that is not refused is absent, or its value is sensitive. *)
Lemma setting_check_key settings u key :
  fold_res setting_check (sorted_entries (v_Map settings)) tt = Ok u -> IsMap settings = true ->
  key ∈ ["PrivateKey"; "PresharedKey"] -> ContainsSensitive settings = true \/ v_Map settings !! key = None.
Proof.
  destruct u. rewrite fold_res_check. intros Hall Hmap Hk. destruct (v_Map settings !! key) as [v|] eqn:Ev; [left|by right].
  apply ContainsSensitive_map; [by apply bool_decide_eq_true in Hmap|]. right. exists key, v. split; [done|].
  specialize (Hall (key, v) (proj2 (elem_of_sorted_entries _ _ _) Ev)). unfold setting_check in Hall. spec_inv.
  unfold stringIn in Hall. rewrite (bool_decide_true _ Hk) in Hall. by apply negb_true_iff, negb_false_iff in Hall.
Qed.

Lemma generic_section_keys collection acc label acc' :
  keys_sensitive acc.1 acc.2 -> generic_section collection acc label = Ok acc' -> keys_sensitive acc'.1 acc'.2.
Proof.
  unfold generic_section, keys_sensitive. intros Hacc H. spec_inv. cbn [fst snd].
  destruct Hacc as [->|Hacc]; [by left|].
  destruct (ContainsSensitive _) eqn:Es; [left; apply orb_true_r|right].
  intros s [Hs| ->%list_elem_of_singleton]%elem_of_app; [by apply Hacc|]. cbn [ns_Settings].
  match goal with Hf : fold_res setting_check _ tt = Ok _, Hn : networkdSection ?settings = Ok _ |- _ =>
    assert (Hmap : IsMap settings = true) by (unfold networkdSection, section_of in Hn; by spec_inv);
    split; (eapply section_of_keys; [exact Hn|]);
    (eapply setting_check_key in Hf as [Hf|Hf]; [congruence|exact Hf|done|set_solver]) end.
Qed.

Lemma networkdGenericSections_keys item sections :
  networkdGenericSections item = Ok sections ->
  keys_sensitive (from_option fst [] sections) (from_option snd false sections).
Proof.
  unfold networkdGenericSections. intros H. destruct (field item "section"); spec_inv.
  - cbn. match goal with H : fold_res _ _ _ = Ok _ |- _ => revert H end.
    apply (fold_res_inv (fun acc => keys_sensitive acc.1 acc.2)); [intros; by eapply generic_section_keys|].
    right. by intros s ?%elem_of_nil.
  - right. by intros s ?%elem_of_nil.
Qed.

Section read.
Context (ReadFile : string -> option string).

Abbreviation described := (described ReadFile).

(** ** Units *)

Record wf_unit (name : string) (u : SystemdUnit) : Prop := {
  wf_unit_name : su_Name u = name /\ su_Path u = unit_path name;
  wf_unit_managed : managed (su_Mode u) (su_Ensure u);
  wf_unit_summary : su_Ensure u = "present" -> described (su_Content u) (su_SourcePath u) (su_Summary u);
  wf_unit_action : su_ChangeAction u <> "" ->
    su_Ensure u <> "absent" /\ su_ChangeAction u ∈ ["restart"; "reload"; "try-restart"];
}.

Lemma systemdUnitSpec_wf name item u : systemdUnitSpec ReadFile name item = Ok u -> wf_unit (su_Name u) u.
Proof.
  unfold systemdUnitSpec. intros H. spec_facts. split; cbn; [done|by split| |done]. intros He.
  by eapply summary_described; [eapply exactly_one|].
Qed.

(** A present unit ends with content or a source, and not both. *)
Lemma service_unit_content_one unitName item ensure raw sourcePath content :
  service_unit_content unitName item ensure raw sourcePath = Ok content -> ensure = "present" ->
  has content <> has sourcePath.
Proof.
  unfold service_unit_content. intros H ->. destruct (has raw || has sourcePath) eqn:Eh.
  - spec_inv. by eapply exactly_one.
  - rewrite bool_decide_true in H by done. apply orb_false_iff in Eh as [_ ->]. by spec_inv.
Qed.

Lemma systemdServiceUnitSpec_wf name item u : systemdServiceUnitSpec ReadFile name item = Ok u -> wf_unit (su_Name u) u.
Proof.
  unfold systemdServiceUnitSpec. intros H. spec_facts. split; cbn; [done|by split| |].
  - intros He. by eapply summary_described; [eapply service_unit_content_one|].
  - match goal with H : from_option _ true ?a = true, H' : negb (has ?a && _) = true |- _ =>
      destruct a; [apply stringIn_true in H; apply negb_true_iff, bool_decide_eq_false in H'|]; done end.
Qed.

Lemma unit_item_wf spec message out p out' :
  (forall name item u, spec name item = Ok u -> wf_unit (su_Name u) u) ->
  map_Forall wf_unit out -> unit_item spec message out p = Ok out' -> map_Forall wf_unit out'.
Proof.
  destruct p as [name item]. unfold unit_item, addSystemdUnit. intros Hspec Hout H. spec_inv.
  destruct (out !! _); [done|]. spec_inv. apply map_Forall_insert_2; [|done]. by eapply Hspec.
Qed.

Lemma systemdSpecs_wf systemd out : systemdSpecs ReadFile systemd = Ok out -> map_Forall wf_unit out.
Proof.
  unfold systemdSpecs. intros H. spec_inv. eapply build_inv, H.
  { intros. by eapply unit_item_wf; [apply systemdServiceUnitSpec_wf| |]. }
  eapply map_build_wf; [|done]. intros. by eapply unit_item_wf; [apply systemdUnitSpec_wf| |].
Qed.

(** ** Rendered units *)

Lemma rendered_described name path content owner group mode sensitive ensure lifecycle source :
  content <> "" ->
  let u := rendered_unit name path content owner group mode sensitive ensure lifecycle source in
  described (su_Content u) (su_SourcePath u) (su_Summary u).
Proof. intros Hne. cbn. rewrite bool_decide_false by done. by left. Qed.

(** A unit the program renders: at a fixed path, with text when present. *)
Record wf_rendered (name path : string) (u : SystemdUnit) : Prop := {
  wr_name : su_Name u = name /\ su_Path u = path /\ su_SourcePath u = "";
  wr_managed : managed (su_Mode u) (su_Ensure u);
  wr_content : su_Ensure u = "present" -> su_Content u <> "" /\ described (su_Content u) (su_SourcePath u) (su_Summary u);
}.

Lemma wf_rendered_unit name path content owner group mode sensitive ensure lifecycle source :
  managed mode ensure -> (ensure = "present" -> content <> "") ->
  wf_rendered name path (rendered_unit name path content owner group mode sensitive ensure lifecycle source).
Proof. intros Hm Hc. split; [done|done|]. intros He. split; [by apply Hc|]. by apply rendered_described, Hc. Qed.

Record wf_timer (name : string) (t : SystemdTimer) : Prop := {
  wt_name : tm_Name t = name;
  wt_unit : wf_rendered name (unit_path name) (tm_Unit t);
  wt_timer : su_Ensure (tm_Unit t) = "present" -> tm_Timer t <> ∅;
  wt_state : tm_State t ∈ [""; "running"; "stopped"];
}.

Lemma systemdTimerSpec_wf name item t : systemdTimerSpec name item = Ok t -> wf_timer (tm_Name t) t.
Proof.
  unfold systemdTimerSpec. intros H. spec_facts. split; cbn [tm_Name tm_Unit tm_Timer tm_State]; [done| | |by apply stringIn_true].
  - apply wf_rendered_unit; [by split|]. intros ->.
    match goal with H : (if bool_decide ("present" = "present") then _ else _) = Ok _ |- _ =>
      rewrite bool_decide_true in H by done; apply bind_Ok in H as (? & _ & H); unfold renderSystemdTimerUnit in H end.
    spec_inv. apply render_lines_nonempty.
  - cbn. intros ->. match goal with H : negb (bool_decide ("present" = "present") && _) = true |- _ =>
      rewrite bool_decide_true in H by done; by apply negb_true_iff, bool_decide_eq_false in H end.
Qed.

Lemma timer_item_wf out p out' : map_Forall wf_timer out -> timer_item out p = Ok out' -> map_Forall wf_timer out'.
Proof.
  destruct p as [name item]. unfold timer_item. intros Hout H. spec_inv. destruct (out !! _); [done|]. spec_inv.
  apply map_Forall_insert_2; [|done]. by eapply systemdTimerSpec_wf.
Qed.

Lemma dropin_parts_wf item field_name message name path sectionName section u :
  dropin_parts item field_name message name path sectionName = Ok (section, u) ->
  wf_rendered name path u /\ (su_Ensure u = "present" -> section <> ∅).
Proof.
  unfold dropin_parts, systemdDropInUnit. intros H. spec_facts.
  split; [apply wf_rendered_unit; [by split|]|]; cbn.
  - intros ->. match goal with H : (if bool_decide ("present" = "present") then _ else _) = Ok _ |- _ =>
      rewrite bool_decide_true in H by done end. spec_inv. apply render_lines_nonempty.
  - intros ->. match goal with H : negb (bool_decide ("present" = "present") && _) = true |- _ =>
      rewrite bool_decide_true in H by done; by apply negb_true_iff, bool_decide_eq_false in H end.
Qed.

Definition resolved_path : string := "/etc/systemd/resolved.conf.d/debianform.conf".
Definition journald_path : string := "/etc/systemd/journald.conf.d/debianform.conf".

Lemma systemdResolvedSpec_wf systemd r :
  systemdResolvedSpec systemd = Ok (Some r) ->
  wf_rendered "systemd-resolved" resolved_path (rs_Unit r) /\ (su_Ensure (rs_Unit r) = "present" -> rs_Resolve r <> ∅).
Proof.
  unfold systemdResolvedSpec. intros H. apply bind_Ok in H as ([item|] & _ & H); [|done].
  apply bind_Ok in H as ([section u] & Hparts & H). spec_inv. by eapply dropin_parts_wf.
Qed.

Lemma systemdJournaldSpec_wf systemd j :
  systemdJournaldSpec systemd = Ok (Some j) ->
  wf_rendered "systemd-journald" journald_path (jd_Unit j) /\ (su_Ensure (jd_Unit j) = "present" -> jd_Journal j <> ∅).
Proof.
  unfold systemdJournaldSpec. intros H. apply bind_Ok in H as ([item|] & _ & H); [|done].
  apply bind_Ok in H as ([section u] & Hparts & H). spec_inv. by eapply dropin_parts_wf.
Qed.

(** ** networkd *)

Lemma networkdFilePath_ok item name fallback path : networkdFilePath item name fallback = Ok path -> filepath_IsAbs path = true.
Proof. unfold networkdFilePath. intros H. by spec_inv. Qed.

Lemma networkd_ownership_ok item sensitive owner group mode lifecycle :
  networkd_ownership item sensitive = Ok (owner, group, mode, lifecycle) -> modePattern mode = true.
Proof. unfold networkd_ownership. intros H. spec_facts. done. Qed.

Definition raw_described (raw : option networkdRawFileSpec) : Prop :=
  forall r, raw = Some r -> described (nr_Content r) (nr_SourcePath r) (nr_Summary r).

Lemma networkdRawFile_described item raw : networkdRawFile ReadFile item = Ok raw -> raw_described raw.
Proof.
  unfold networkdRawFile. intros Hr r ->. spec_inv.
  repeat match goal with o : option string |- _ => destruct o end; spec_inv; try done; cbn; [right; eauto|by left].
Qed.

(** The content of a file is its own text, or is to be read from its source. *)
Lemma networkd_content_described ensure raw structured render content :
  raw_described raw -> networkd_content ensure raw structured render = Ok content -> ensure = "present" ->
  described content.1.2 (from_option nr_SourcePath "" raw) content.2.
Proof.
  unfold networkd_content. intros Hraw H ->. destruct raw as [r|]; cbn.
  - injection H as <-. by apply Hraw.
  - rewrite bool_decide_true in H by done. spec_inv. by left.
Qed.

Record wf_netdev (label : string) (n : NetworkdNetDev) : Prop := {
  wnd_label : nd_Label n = label /\ label <> "" /\ filepath_IsAbs (nd_Path n) = true;
  wnd_managed : managed (nd_Mode n) (nd_Ensure n);
  wnd_summary : nd_Ensure n = "present" -> described (nd_Content n) (nd_SourcePath n) (nd_Summary n);
  wnd_keys : no_key "PrivateKey" (nd_WireGuard n) /\ map_Forall (fun _ => no_key "PresharedKey") (nd_WireGuardPeers n);
  wnd_sections : keys_sensitive (nd_Sections n) (nd_Sensitive n);
}.
Record wf_network (label : string) (n : NetworkdNetwork) : Prop := {
  wnn_label : nn_Label n = label /\ label <> "" /\ filepath_IsAbs (nn_Path n) = true;
  wnn_managed : managed (nn_Mode n) (nn_Ensure n);
  wnn_summary : nn_Ensure n = "present" -> described (nn_Content n) (nn_SourcePath n) (nn_Summary n);
  wnn_sections : keys_sensitive (nn_Sections n) (nn_Sensitive n);
}.

Lemma keys_sensitive_or sections a b : keys_sensitive sections b -> keys_sensitive sections (a || b).
Proof. unfold keys_sensitive. intros [->|H]; [left; apply orb_true_r|by right]. Qed.

Lemma networkdNetDevSpec_wf label item n : label <> "" -> networkdNetDevSpec ReadFile label item = Ok n -> wf_netdev label n.
Proof.
  unfold networkdNetDevSpec. intros Hl H. spec_facts.
  match goal with H : networkd_ownership _ _ = Ok ?o |- _ => destruct o as [[[owner group] mode] lifecycle];
    apply networkd_ownership_ok in H end.
  spec_inv. match goal with H : no_inline_keys _ _ = Ok _ |- _ => apply no_inline_keys_ok in H end.
  match goal with H : networkdFilePath _ _ _ = Ok _ |- _ => apply networkdFilePath_ok in H end.
  split; cbn; [done|by split| |split; [by apply has_None|done]|eapply keys_sensitive_or, networkdGenericSections_keys; done].
  intros He. by eapply networkd_content_described; [eapply networkdRawFile_described| |].
Qed.

Lemma networkdNetworkSpec_wf label item n : label <> "" -> networkdNetworkSpec ReadFile label item = Ok n -> wf_network label n.
Proof.
  unfold networkdNetworkSpec. intros Hl H. spec_facts.
  match goal with H : networkd_ownership _ _ = Ok ?o |- _ => destruct o as [[[owner group] mode] lifecycle];
    apply networkd_ownership_ok in H end.
  spec_inv. match goal with H : networkdFilePath _ _ _ = Ok _ |- _ => apply networkdFilePath_ok in H end.
  split; cbn; [done|by split| |eapply keys_sensitive_or, networkdGenericSections_keys; done].
  intros He. by eapply networkd_content_described; [eapply networkdRawFile_described| |].
Qed.

Lemma networkdSpec_wf systemd nw :
  networkdSpec ReadFile systemd = Ok (Some nw) ->
  map_Forall wf_netdev (nw_NetDevs nw) /\ map_Forall wf_network (nw_Networks nw).
Proof.
  unfold networkdSpec. intros H. apply bind_Ok in H as ([networkd|] & _ & H); [|done]. spec_inv.
  split; cbn; (eapply map_build_wf; [|done]); intros out [label item] out' Hout Hstep.
  - unfold netdev_item in Hstep. spec_inv. nonempty. apply map_Forall_insert_2; [by apply networkdNetDevSpec_wf with item|done].
  - unfold network_item in Hstep. spec_inv. nonempty. apply map_Forall_insert_2; [by apply networkdNetworkSpec_wf with item|done].
Qed.

(** ** The whole section *)

Record wf_systemd (sd : SystemdSpec) : Prop := {
  ws_units : map_Forall wf_unit (sd_Units sd);
  ws_timers : map_Forall wf_timer (sd_Timers sd);
  ws_netdevs : forall nw, sd_Networkd sd = Some nw -> map_Forall wf_netdev (nw_NetDevs nw) /\ map_Forall wf_network (nw_Networks nw);
  ws_resolved : forall r, sd_Resolved sd = Some r -> wf_rendered "systemd-resolved" resolved_path (rs_Unit r);
  ws_journald : forall j, sd_Journald sd = Some j -> wf_rendered "systemd-journald" journald_path (jd_Unit j);
}.

Lemma systemd_section_wf systemd sd : systemd_section ReadFile systemd = Ok sd -> wf_systemd sd.
Proof.
  unfold systemd_section. intros H. spec_inv. split; cbn.
  - by eapply systemdSpecs_wf.
  - match goal with H : systemdTimerSpecs _ = Ok _ |- _ => unfold systemdTimerSpecs in H end. spec_inv.
    eapply map_build_wf; [apply timer_item_wf|done].
  - intros nw ->. by eapply networkdSpec_wf.
  - intros r ->. match goal with H : systemdResolvedSpec _ = Ok _ |- _ => apply systemdResolvedSpec_wf in H as [? _] end. done.
  - intros j ->. match goal with H : systemdJournaldSpec _ = Ok _ |- _ => apply systemdJournaldSpec_wf in H as [? _] end. done.
Qed.
End read.
