(* ===== verification/HostBuildProps.v ===== *)
(** * Properties of the host builder

    Every host [buildHostSpec] accepts is well formed, section by section, and
    its units are keyed as host validation expects; the detected platform is
    merged exactly when the target is supported and the declaration agrees. *)
From S2P Require Import Prelude Sha256 GoValue GoStrings IR HostIR Values Merge Fields HostValidation HostValidationProps HostSpecs SystemdSpecs NetworkdSpecs HostBuild HostBuildUnits.

(** ** A well-formed host *)

Record wf_accounts (spec : HostSpec) : Prop := {
  wa_groups : map_Forall wf_group (grs_Groups (h_Groups spec));
  wa_users : map_Forall wf_user (uss_Users (h_Users spec));
}.
Record wf_install (spec : HostSpec) : Prop := {
  wi_packages : NoDup (pk_Name <$> pks_Install (h_Packages spec));
  wi_named : "" ∉ pk_Name <$> pks_Install (h_Packages spec);
  wi_modules : NoDup (km_Name <$> ker_Modules (h_Kernel spec));
  wi_sysctl : forall key s, ker_Sysctl (h_Kernel spec) !! key = Some s -> sc_Key s = key /\ key <> "";
}.
Record wf_settings (spec : HostSpec) : Prop := {
  wse_user : ssh_User (h_SSH spec) ∈ ["root"; ""];
  wse_staging : forall s, h_Staging spec = Some s -> absolute (stg_Root s) = true;
  wse_timezone : sys_TimezoneSet (h_System spec) = true ->
    exists source, validateSystemTimezone (sys_Timezone (h_System spec)) source = Ok tt;
  wse_locale : sys_LocaleSet (h_System spec) = true ->
    exists source, validateSystemLocale (sys_Locale (h_System spec)) source = Ok tt;
  wse_platform : forall p, h_Platform spec = Some p -> validateDeclaredPlatform p = Ok tt;
}.

(** A section holds its default, or what its block compiled to. *)
Lemma section_ok {A} (P : A -> Prop) raw name absent (compile : Value -> S A) a :
  section raw name absent compile = Ok a -> P absent -> (forall v a, compile v = Ok a -> P a) -> P a.
Proof.
  unfold section. intros H Habs Hcompile. apply bind_Ok in H as ([v|] & _ & H); [by eapply Hcompile|].
  by injection H as <-.
Qed.

(** Reduces a claim on a section to one on its default and one on its block,
    which leaves the run of the block in [Hblock]. *)
Ltac from_section :=
  match goal with H : section _ _ _ _ = Ok ?a |- context [?a] =>
    pattern a; apply (section_ok _ _ _ _ _ _ H); [|let v := fresh in let b := fresh in intros v b Hblock]; cbn beta end.
Ltac of_section := from_section; [apply map_Forall_empty|].

Section read.
Context (ReadFile : string -> option string).

Record wf_files (spec : HostSpec) : Prop := {
  wfi_files : map_Forall (wf_file ReadFile) (fls_Files (h_Files spec));
  wfi_on_change : map_Forall (fun _ f => mf_OnChange f = None) (fls_Files (h_Files spec));
  wfi_secrets : map_Forall (wf_secret ReadFile) (secs_Files (h_Secrets spec));
  wfi_directories : map_Forall wf_directory (dirs_Directories (h_Directories spec));
  wfi_sources : map_Forall (wf_source_file ReadFile) (apt_SourceFiles (h_APT spec));
  wfi_repositories : map_Forall wf_repository (apt_Repositories (h_APT spec));
  wfi_nftables : nft_main_ok ReadFile (h_Nftables spec) /\ map_Forall (fun _ => wf_nftables ReadFile) (nft_Files (h_Nftables spec));
}.
Record wf_host (spec : HostSpec) : Prop := {
  wh_settings : wf_settings spec;
  wh_install : wf_install spec;
  wh_accounts : wf_accounts spec;
  wh_files : wf_files spec;
  wh_systemd : wf_systemd ReadFile (h_Systemd spec);
  wh_services : map_Forall wf_service (svs_Services (h_Services spec));
}.

Lemma ssh_section_user defaults v s :
  ssh_User defaults = "root" -> ssh_section defaults v = Ok s -> ssh_User s ∈ ["root"; ""].
Proof.
  unfold ssh_section. intros Hd H. spec_inv. cbn. rewrite Hd.
  match goal with H : stringIn _ _ = true |- _ => apply stringIn_true in H end.
  match goal with H : default "" ?u ∈ _ |- _ => destruct u; cbn in *; set_solver end.
Qed.

Lemma staging_section_root v s : staging_section v = Ok (Some s) -> absolute (stg_Root s) = true.
Proof. unfold staging_section. intros H. spec_inv. destruct x0; by spec_inv. Qed.

Lemma checked_string_ok item name check o :
  checked_string item name check = Ok o -> has o = true -> exists source, check (default "" o) source = Ok tt.
Proof. unfold checked_string. intros H Ho. spec_inv. destruct o as [v|]; [|done]. destruct x0. eauto. Qed.

Lemma platform_section_ok v p : platform_section v = Ok p -> validateDeclaredPlatform p = Ok tt.
Proof.
  unfold platform_section. intros H.
  do 4 apply bind_Ok in H as (? & _ & H). apply bind_Ok in H as ([] & Hv & [= <-]). done.
Qed.

Lemma sysctlSpecs_keys v out : sysctlSpecs v = Ok out -> forall key s, out !! key = Some s -> sc_Key s = key /\ key <> "".
Proof.
  unfold sysctlSpecs. intros H. destruct (field v "sysctl"); [|spec_inv; by intros ?? ?%lookup_empty_Some].
  spec_inv. revert H. apply (fold_res_inv (map_Forall (fun key s => sc_Key s = key /\ key <> ""))); [|apply map_Forall_empty].
  intros s [key item] s' _ Hs H. unfold sysctl_spec in H. spec_inv. nonempty. by apply map_Forall_insert_2.
Qed.

Lemma rejectHostFileOnChange_ok files u :
  rejectHostFileOnChange files = Ok u -> map_Forall (fun _ f => mf_OnChange f = None) files.
Proof.
  destruct u. unfold rejectHostFileOnChange. rewrite fold_res_check. intros Hall path f Hf.
  specialize (Hall (path, f) (proj2 (elem_of_sorted_entries _ _ _) Hf)). cbn in Hall. by destruct (mf_OnChange f).
Qed.

(** The run of a host: each section of the result comes from its block. *)
Ltac host_inv H :=
  unfold host_sections in H; cbv zeta beta in H;
  repeat match type of H with _ ≫= _ = Ok _ =>
    let v := fresh "part" in let E := fresh "Part" in apply bind_Ok in H as (v & E & H); try apply map_err_Ok in E end;
  injection H as <-.

Lemma host_sections_files {Assert} (host : Host Assert) raw spec : host_sections ReadFile host raw = Ok spec -> wf_files spec.
Proof.
  intros H. host_inv H. split; cbn.
  - of_section. unfold files_section in Hblock. spec_inv. by eapply fileSpecs_wf.
  - of_section. unfold files_section in Hblock. spec_inv. by eapply rejectHostFileOnChange_ok.
  - of_section. unfold secrets_section, secretSpecs in Hblock. spec_inv. eapply map_build_wf; [apply secret_spec_wf|done].
  - of_section. unfold directories_section, directorySpecs in Hblock. spec_inv.
    eapply map_build_wf; [apply directory_spec_wf|done].
  - of_section. unfold apt_section, aptSourceFileSpecs in Hblock. spec_inv. eapply map_build_wf; [apply source_file_spec_wf|done].
  - of_section. unfold apt_section, aptRepositorySpecs in Hblock. spec_inv. eapply map_build_wf; [apply repository_spec_wf|done].
  - from_section; [split; [done|apply map_Forall_empty]|]. by apply (nftablesSpec_wf _ _ _ Hblock).
Qed.

Lemma host_sections_accounts {Assert} (host : Host Assert) raw spec :
  host_sections ReadFile host raw = Ok spec -> wf_accounts spec /\ map_Forall wf_service (svs_Services (h_Services spec)).
Proof.
  intros H. host_inv H. split; [split|]; cbn.
  - of_section. unfold groups_section, groupSpecs in Hblock. spec_inv. eapply map_build_wf; [apply group_spec_wf|done].
  - of_section. unfold users_section, userSpecs in Hblock. spec_inv. eapply map_build_wf; [apply user_spec_wf|done].
  - of_section. unfold services_section, serviceSpecs in Hblock. spec_inv. eapply map_build_wf; [apply service_spec_wf|done].
Qed.

Lemma host_sections_install {Assert} (host : Host Assert) raw spec :
  host_sections ReadFile host raw = Ok spec -> wf_install spec.
Proof.
  intros H. host_inv H. split; cbn.
  - from_section; [constructor|]. unfold packages_section in Hblock. spec_inv. by eapply packageItems_wf.
  - from_section; [apply not_elem_of_nil|]. unfold packages_section in Hblock. spec_inv. by eapply packageItems_wf.
  - from_section; [constructor|]. unfold kernel_section in Hblock. spec_inv. by eapply moduleSpecs_wf.
  - from_section; [done|]. unfold kernel_section in Hblock. spec_inv. by eapply sysctlSpecs_keys.
Qed.

Lemma host_sections_settings {Assert} (host : Host Assert) raw spec :
  host_sections ReadFile host raw = Ok spec -> wf_settings spec.
Proof.
  intros H. host_inv H. split; cbn.
  - from_section; [cbn; set_solver|]. by eapply ssh_section_user, Hblock.
  - from_section; [done|]. intros s ->. by eapply staging_section_root.
  - from_section; [done|]. unfold system_section in Hblock. spec_inv. by eapply checked_string_ok.
  - from_section; [done|]. unfold system_section in Hblock. spec_inv. by eapply checked_string_ok.
  - intros p ->. match goal with H : from_option _ (Ok None) ?o = Ok (Some p) |- _ => destruct o; [|done]; cbn in H;
      apply bind_Ok in H as (? & ? & [= <-]) end. by eapply platform_section_ok.
Qed.

(** The units of a built host are keyed by name, which is what host validation
    expects of them. *)
Lemma wf_systemd_keyed sd : wf_systemd ReadFile sd -> keyed_units sd.
Proof.
  intros [Hu Ht _ _ _]. split.
  - intros name u Hn. apply (Hu _ _ Hn).
  - intros name t Hn. by destruct (Ht _ _ Hn) as [_ [[? _] _ _] _ _].
Qed.

Lemma wf_host_keyed spec : wf_host spec -> h_Components spec = [] -> keyed_host spec.
Proof. intros [_ _ _ _ Hsd _] Hc. split; [by apply wf_systemd_keyed|by rewrite Hc; intros c ?%elem_of_nil]. Qed.

Lemma host_sections_components {Assert} (host : Host Assert) raw spec :
  host_sections ReadFile host raw = Ok spec -> h_Components spec = [].
Proof. intros H. by host_inv H. Qed.

(** Every host the builder accepts is well formed: managed files, secrets
    and directories are at absolute paths under their own key with a four-digit
    mode and a known state, and a present one carries the digest and size of its
    text or of the file it is read from; packages, modules, users and groups
    have distinct non-empty names; no inline private key reaches a networkd file
    that is not sensitive; the declared platform, time zone and locale passed
    their checks; and the units and timers are keyed by the names host
    validation relies on. *)
Theorem host_sections_wf {Assert} (host : Host Assert) raw spec :
  host_sections ReadFile host raw = Ok spec -> wf_host spec /\ keyed_host spec /\ h_Name spec = hst_Name host.
Proof.
  intros H. assert (Hwf : wf_host spec).
  { destruct (host_sections_accounts _ _ _ H) as [? ?]. split; [by eapply host_sections_settings|by eapply host_sections_install|
      done|by eapply host_sections_files| |done].
    host_inv H. cbn. from_section; [|by eapply systemd_section_wf].
    split; cbn; try apply map_Forall_empty; done. }
  split_and!; [done| |].
  - apply wf_host_keyed; [done|]. by host_inv H.
  - by host_inv H.
Qed.
End read.

(** ** The detected platform *)

Definition quadruple (s : SystemFacts) : string * string * string * string :=
  (Distribution s, Version s, Architecture s, Codename s).
Definition platform_quadruple (spec : HostSpec) : string * string * string * string :=
  (PlatformDistribution spec, PlatformVersion spec, PlatformArchitecture spec, PlatformCodename spec).

(** A declared field is left out or is the detected one. *)
Definition agrees (declared detected : string) : Prop := declared = "" \/ declared = detected.
Definition declaration_agrees (spec : HostSpec) (s : SystemFacts) : Prop :=
  agrees (PlatformDistribution spec) (Distribution s) /\ agrees (PlatformVersion spec) (Version s)
  /\ agrees (PlatformArchitecture spec) (Architecture s) /\ agrees (PlatformCodename spec) (Codename s).
Definition all_detected (s : SystemFacts) : bool := complete [Distribution s; Version s; Architecture s; Codename s].

Lemma merge_fact_detected source name declared detected out :
  detected <> "" -> merge_fact source name declared detected = Ok out <-> agrees declared detected /\ out = detected.
Proof.
  intros Hd. unfold merge_fact, agrees. rewrite bool_decide_false by done. rewrite bind_Ok. split.
  - intros (? & H%guard_or_Ok & [= <-]). apply orb_true_iff in H as [H|H]; apply bool_decide_eq_true in H; auto.
  - intros [H ->]. exists tt. split; [|done]. apply guard_or_Ok, orb_true_iff. rewrite !bool_decide_eq_true. tauto.
Qed.

Definition with_platform (spec : HostSpec) (facts : HostFacts) : HostSpec :=
  let s := System facts in
  set_facts (Some {| pf_Distribution := Distribution s; pf_Version := Version s; pf_Architecture := Architecture s;
                     pf_Codename := Codename s; pf_Source := from_option pf_Source (h_Source spec) (h_Platform spec) |})
    facts spec.

Lemma applyHostFacts_Ok spec facts spec' :
  all_detected (System facts) = true ->
  applyHostFacts spec facts = Ok spec' <->
  (declaration_agrees spec (System facts) /\ quadruple (System facts) ∈ supported_targets)
  /\ spec' = with_platform spec facts.
Proof.
  intros Hall. assert (Hne := Hall). unfold all_detected, complete in Hne. cbn [forallb] in Hne.
  rewrite !andb_true_iff, !negb_true_iff, !bool_decide_eq_false in Hne. destruct Hne as (Hd & Hv & Ha & Hc & _).
  unfold applyHostFacts, declaration_agrees, with_platform. fold (all_detected (System facts)). rewrite Hall.
  cbn [forallb]. rewrite (bool_decide_false (Distribution _ = "")) by done. rewrite andb_false_r. split.
  - intros Hrun. do 4 (apply bind_Ok in Hrun as (? & Hf & Hrun); apply merge_fact_detected in Hf as [? ->]; [|done]).
    apply bind_Ok in Hrun as ([] & Ht%map_err_Ok & [= <-]). apply ValidateTargetPlatform_supported in Ht. done.
  - intros [[(H1 & H2 & H3 & H4) Ht] ->]. apply ValidateTargetPlatform_supported in Ht.
    do 4 (apply bind_Ok; eexists; split; [by apply merge_fact_detected|]). by rewrite Ht.
Qed.

(** When all four fields of the target are detected, the facts are applied
    exactly when the target is a supported one and every declared field is left
    out or equal to the detected one; the host then has the detected platform
    and facts, and applying them again changes nothing. *)
Theorem applyHostFacts_spec spec facts :
  all_detected (System facts) = true ->
  (is_ok (applyHostFacts spec facts) = true <->
   declaration_agrees spec (System facts) /\ quadruple (System facts) ∈ supported_targets)
  /\ forall spec', applyHostFacts spec facts = Ok spec' ->
       platform_quadruple spec' = quadruple (System facts) /\ h_Facts spec' = facts
       /\ h_Source spec' = h_Source spec /\ applyHostFacts spec' facts = Ok spec'.
Proof.
  intros Hall. split.
  - pose proof (applyHostFacts_Ok spec facts) as H. destruct (applyHostFacts spec facts) as [spec'|e]; cbn.
    + split; [|done]. intros _. by apply (H spec').
    + split; [done|]. intros Hok. by discriminate (proj2 (H (with_platform spec facts) Hall) (conj Hok eq_refl)).
  - intros spec' [[_ Ht] ->]%applyHostFacts_Ok; [|done]. split_and!; [done..|].
    apply applyHostFacts_Ok; [done|]. split; [|done]. split; [|done]. by split_and!; right.
Qed.

(** ** A host that builds *)

Definition list_value (l : list string) : Value :=
  mkValue KindList "" false "" (str_value <$> l) ∅ [] None None no_source ModifierNone false false.
Definition block (l : list (string * Value)) : Value := MapValue (list_to_map l) no_source.

Definition sample_raw : Value :=
  block [("platform", block [("distribution", str_value "debian"); ("version", str_value "13")]);
         ("packages", block [("install", list_value ["nginx"; "curl"])]);
         ("kernel", block [("modules", list_value ["wireguard"])]);
         ("groups", block [("group", block [("web", block [])])]);
         ("users", block [("user", block [("deploy", block [("groups", list_value ["web"])])])]);
         ("directories", block [("directory", block [("/srv/app", block [("mode", str_value "0750")])])]);
         ("files", block [("file", block [("/etc/motd", block [("content", str_value "welcome")]);
                                          ("/etc/app.conf", block [("source", str_value "/src/app.conf")])])]);
         ("systemd", block
           [("service_unit", block [("app", block [("run", list_value ["/usr/bin/app"; "--name=a b"]);
                                                   ("restart", str_value "always");
                                                   ("environment", block [("MODE", str_value "prod")])])]);
            ("timer", block [("app", block [("timer", block [("OnCalendar", str_value "daily")])])]);
            ("networkd", block [("netdev", block [("wg0", block [("netdev", block [("Name", str_value "wg0");
                                                                                   ("Kind", str_value "wireguard")])])])])])].
Definition sample_files (path : string) : option string := if bool_decide (path = "/src/app.conf") then Some "port = 80" else None.
Definition sample_declaration : Host unit :=
  {| hst_Name := "web1"; hst_Source := no_source; hst_Imports := []; hst_Body := sample_raw; hst_Asserts := [] |}.
Definition sample_spec : HostSpec :=
  match host_sections sample_files sample_declaration sample_raw with Ok spec => spec | Err _ => bare_host "" end.

Example sample_unit :
  su_Content <$> sd_Units (h_Systemd sample_spec) !! "app.service"
  = Some (strings_Join ["[Unit]"; "Description=app"; ""; "[Service]"; "Environment=MODE=prod";
                        "ExecStart=/usr/bin/app " +:+ dquote +:+ "--name=a b" +:+ dquote; "Restart=always"; ""; "[Install]";
                        "WantedBy=multi-user.target"; ""] nl).
Proof. vm_compute. reflexivity. Qed.

Lemma host_sections_wf_witness : wf_host sample_files sample_spec /\ keyed_host sample_spec /\ h_Name sample_spec = "web1".
Proof. apply (host_sections_wf sample_files sample_declaration sample_raw). vm_compute. reflexivity. Defined.

Definition sample_facts : HostFacts :=
  {| System := {| Hostname := "web1"; Distribution := "debian"; Architecture := "amd64"; Version := "13"; Codename := "trixie"; DetectedAt := "" |} |}.

Lemma applyHostFacts_spec_witness :
  is_ok (applyHostFacts sample_spec sample_facts) = true /\ all_detected (System sample_facts) = true.
Proof.
  split; [|reflexivity].
  apply (proj1 (applyHostFacts_spec sample_spec sample_facts eq_refl)). split.
  - vm_compute. repeat split; (by left) || by right.
  - vm_compute. set_solver.
Defined.

(** A sensitive description of a timer is written into the unit, which is not
    marked sensitive. *)
Definition with_sensitive (v : Value) : Value :=
  mkValue (v_Kind v) (v_String v) (v_Bool v) (v_Number v) (v_List v) (v_Map v) (v_Order v) (v_ScriptReference v)
    (v_ResourceReference v) (v_Source v) (v_Modifier v) true (v_Ephemeral v).

Example timer_description_not_sensitive :
  match systemdTimerSpec "app" (block [("description", with_sensitive (str_value "hunter2"));
                                       ("timer", block [("OnCalendar", str_value "daily")])]) with
  | Ok t => su_Sensitive (tm_Unit t) = false /\ strings_Contains (su_Content (tm_Unit t)) "hunter2" = true
  | Err _ => False
  end.
Proof. vm_compute. done. Qed.
