(* ===== verification/DockerSpecs.v ===== *)
(** * Building the Docker specification: [merge_docker.go]

    The package source, the service, the users, the settings of the daemon and
    the compose projects. *)
From S2P Require Import Prelude Sha256 GoValue GoStrings IR HostIR Values InputType Merge Fields GraphDocker HostValidation HostSpecs SystemdSpecs NetworkdSpecs HostBuild HostBuildUnits.

(** ** Names *)

(** A name that is safe in a file name and on a command line; a rune outside
    ASCII is refused, as each of its bytes is. *)
Definition name_byte (b : N) : bool := alnum b || bool_decide (b ∈ [95; 46; 64; 37; 43; 45]%N).
Definition stable_name (value : string) : bool :=
  match Sha256.bytes value with
  | b :: l => alnum b && forallb name_byte l
  | [] => false
  end.

Definition validateDockerStableName (kind value : string) (source : SourceRef) : S unit :=
  _ ← require (negb (bool_decide (value = ""))) source "" (kind +:+ " must be non-empty");
  guard_or (stable_name value) (InvalidName source "" kind value).

(** The position of a field of a block that may be missing. *)
Definition field_source (block : option Value) (name : string) (fallback : SourceRef) : SourceRef :=
  from_option (fun b => v_Source (entry b name)) fallback block.

(** [enumError] *)
Definition enum (value : string) (allowed : list string) (source : SourceRef) (message : string) : S unit :=
  require (stringIn value allowed) source "" ("must be " +:+ message).

(** ** Users *)

Definition docker_user (users : list string) (item : Value) : S (list string) :=
  let complain := Invalid (v_Source item) "" "docker users entries must be non-empty strings" in
  value ← of_option complain (StringValue item);
  _ ← guard_or (negb (bool_decide (strings_TrimSpace value = ""))) complain;
  _ ← guard_or (negb (bool_decide (value ∈ users))) (InvalidName (v_Source item) "" "duplicate docker users entry" value);
  Ok (users ++ [value]).

Definition dockerUsersField (docker : Value) : S (list string) :=
  list ← rd (listField docker "users");
  from_option (fun list => fold_res docker_user (v_List list) []) (Ok []) list.

(** ** Package *)

(** A string field of a block that may be missing. *)
Definition block_string (block : option Value) (name : string) : S (option string) :=
  from_option (fun b => rd (stringField b name)) (Ok None) block.
Definition block_bool (block : option Value) (name : string) : S (option bool) :=
  from_option (fun b => rd (boolField b name)) (Ok None) block.

(** [packageBlock.Map] of a missing block is empty. *)
Definition official_only (block : option Value) (source : string) (u : unit) (name : string) : S unit :=
  match block ≫= fun b => field b name with
  | None => Ok tt
  | Some value => Err (InvalidName (v_Source value) "" ("docker package " +:+ name +:+ " is only valid when source is official") source)
  end.

(** The key of the repository: given, or the one of the official key file. *)
Definition gpg_digest (source : SourceRef) (gpgURL : string) (sha : option string) : S string :=
  match sha with
  | Some sha =>
      _ ← require (sha256Pattern sha) source "" "docker package gpg_sha256 must be a 64 character hex string";
      Ok (strings_ToLower sha)
  | None => Ok (if bool_decide (gpgURL = DockerOfficialGPGURL) then DockerOfficialGPGSHA256 else "")
  end.

Definition dockerPackageSpec (docker : Value) : S DockerPackageSpec :=
  block ← rd (mapField docker "package");
  let sourceRef := from_option v_Source (v_Source docker) block in
  source ← block_string block "source";
  channel ← block_string block "channel";
  version ← from_option (fun b => rd (optionalStringField b "version")) (Ok None) block;
  repositoryURL ← block_string block "repository_url";
  gpgURL ← block_string block "gpg_url";
  gpgSHA ← block_string block "gpg_sha256";
  conflicts ← from_option (fun b => rd (dockerRemoveConflictsField b "remove_conflicts")) (Ok None) block;
  let set_source := field_source block "source" sourceRef in
  let source := default "official" source in
  let channel := default "stable" channel in
  _ ← guard_or (negb (bool_decide (source = "debian")))
        (InvalidName set_source "" "docker package source is no longer supported" source);
  _ ← enum source ["official"; "none"; "custom"] set_source "official, none, or custom";
  _ ← require (negb (bool_decide (channel = ""))) sourceRef ".channel" "docker package channel must be non-empty";
  '(url, key, sha) ←
    (if bool_decide (source = "official") then
       _ ← require (negb (bool_decide (repositoryURL = Some ""))) (field_source block "repository_url" sourceRef) ""
             "docker package repository_url must be non-empty";
       _ ← require (negb (bool_decide (gpgURL = Some ""))) (field_source block "gpg_url" sourceRef) ""
             "docker package gpg_url must be non-empty";
       let key := default DockerOfficialGPGURL gpgURL in
       sha ← gpg_digest (field_source block "gpg_sha256" sourceRef) key gpgSHA;
       Ok (default DockerOfficialRepositoryURL repositoryURL, key, sha)
     else
       _ ← fold_res (official_only block source) ["repository_url"; "gpg_url"; "gpg_sha256"] tt;
       Ok ("", "", ""));
  Ok {| dp_Source := source; dp_Channel := channel; dp_Version := default None version; dp_RepositoryURL := url;
        dp_GPGURL := key; dp_GPGSHA256 := sha; dp_RemoveConflicts := default "auto" conflicts; dp_SourceRef := sourceRef;
        dp_RepositoryURLSet := has repositoryURL; dp_GPGURLSet := has gpgURL |}.

Definition dockerServiceSpec (docker : Value) : S DockerServiceSpec :=
  block ← rd (mapField docker "service");
  let sourceRef := from_option v_Source (v_Source docker) block in
  enable ← block_bool block "enable";
  state ← block_string block "state";
  let state := default "running" state in
  _ ← enum state ["running"; "stopped"] (field_source block "state" sourceRef) "running or stopped";
  Ok {| ds_Enable := default true enable; ds_State := state; ds_Name := "docker.service"; ds_SourceRef := sourceRef |}.

(** ** Compose projects *)

Section read.
Variable ReadFile : string -> option string.

Definition dockerComposeFileSpec (label : string) (item : Value) (defaultMode : string) (defaultSensitive : bool)
  : S DockerComposeFileSpec :=
  path ← rd (stringField item "path");
  _ ← require (absolute (default "" path)) (v_Source item) ".path" "docker compose file path must be absolute and non-empty";
  content ← rd (stringFieldAllowEphemeral item "content");
  sourcePath ← rd (stringField item "source");
  _ ← require (negb (bool_decide (has content = has sourcePath))) (v_Source item) ""
        "docker compose file requires exactly one of content or source";
  owner ← rd (stringFieldDefault item "owner" "root");
  group ← rd (stringFieldDefault item "group" "root");
  mode ← rd (modeFieldDefault item "mode" defaultMode);
  let sensitive := has content && contentNeedsRedaction (entry item "content") || defaultSensitive in
  let resolved := resolvePath (src_File (v_Source item)) (default "" sourcePath) in
  summary ← summary_of ReadFile content sourcePath resolved (v_Source item);
  Ok {| df_Label := label; df_Path := default "" path; df_Content := default "" content; df_SourcePath := resolved;
        df_Owner := owner; df_Group := group; df_Mode := mode; df_Sensitive := sensitive; df_Summary := summary;
        df_Source := v_Source item |}.

Definition dockerComposeMainFileSpec (compose : Value) : S (option DockerComposeFileSpec) :=
  block ← rd (mapField compose "file");
  match block with
  | None => Ok None
  | Some block => file ← dockerComposeFileSpec "" block "0644" false; Ok (Some file)
  end.

Definition env_file (out : gmap string DockerComposeFileSpec) (p : string * Value) : S (gmap string DockerComposeFileSpec) :=
  let '(label, item) := p in
  _ ← require (negb (bool_decide (label = ""))) (v_Source item) "" "docker compose env_file label must be non-empty";
  file ← dockerComposeFileSpec label item "0600" true; Ok (<[label := file]> out).
Definition dockerComposeEnvFileSpecs (compose : Value) : S (gmap string DockerComposeFileSpec) :=
  objects ← rd (objectCollection compose "env_file"); build objects env_file ∅.

Definition dockerComposeServiceSpec (name : string) (compose : Value) : S DockerComposeServiceSpec :=
  block ← rd (mapField compose "service");
  enable ← block_bool block "enable";
  given ← block_string block "name";
  let unitName := default ("debianform-compose-" +:+ name) given in
  _ ← require (negb (bool_decide (unitName = ""))) (v_Source compose) ".service.name"
        "docker compose service name must be non-empty";
  let source := from_option v_Source (v_Source compose) (block ≫= fun b => field b "name") in
  _ ← validateDockerStableName "docker compose service name" unitName source;
  Ok {| dcs_Enable := default true enable; dcs_Name := unitName |}.

(** An empty list stands for the default one. *)
Definition list_or (fallback l : list string) : list string := match l with [] => fallback | _ => l end.

Definition dockerComposeSpec (name : string) (item : Value) : S DockerComposeSpec :=
  enable ← rd (boolField item "enable");
  let enable := default true enable in
  state ← rd (stringFieldDefault item "state" "running");
  _ ← enum state ["running"; "stopped"; "absent"] (v_Source (entry item "state")) "running, stopped, or absent";
  directory ← rd (stringField item "directory");
  let directory := default "" directory in
  _ ← require (negb (enable && negb (absolute directory))) (v_Source item) ".directory"
        "docker compose directory must be absolute and non-empty";
  project ← rd (stringFieldDefault item "project" name);
  _ ← require (negb (bool_decide (project = ""))) (v_Source item) ".project" "docker compose project must be non-empty";
  _ ← validateDockerStableName "docker compose project" project (from_option v_Source (v_Source item) (field item "project"));
  pull ← rd (stringFieldDefault item "pull" "missing");
  _ ← enum pull ["never"; "missing"; "always"] (v_Source (entry item "pull")) "never, missing, or always";
  recreate ← rd (stringFieldDefault item "recreate" "auto");
  _ ← enum recreate ["auto"; "always"; "never"] (v_Source (entry item "recreate")) "auto, always, or never";
  removeOrphans ← rd (boolField item "remove_orphans");
  after ← rd (stringListField item "after");
  wantedBy ← rd (stringListField item "wanted_by");
  file ← dockerComposeMainFileSpec item;
  envFiles ← dockerComposeEnvFileSpecs item;
  _ ← require (negb (enable && negb (has file))) (v_Source item) ".file" "docker compose file block is required";
  service ← dockerComposeServiceSpec name item;
  Ok {| dc_Name := name; dc_Enable := enable; dc_State := state; dc_Directory := directory; dc_Project := project;
        dc_File := file; dc_EnvFiles := envFiles; dc_Pull := pull; dc_Recreate := recreate;
        dc_RemoveOrphans := default false removeOrphans; dc_Service := service;
        dc_After := list_or ["docker.service"; "network-online.target"] after;
        dc_WantedBy := list_or ["multi-user.target"] wantedBy; dc_Source := v_Source item |}.

Definition compose_item (out : gmap string DockerComposeSpec) (p : string * Value) : S (gmap string DockerComposeSpec) :=
  let '(name, item) := p in
  _ ← require (negb (bool_decide (name = ""))) (v_Source item) "" "docker compose label must be non-empty";
  _ ← validateDockerStableName "docker compose label" name (v_Source item);
  compose ← dockerComposeSpec name item; Ok (<[name := compose]> out).
Definition dockerComposeSpecs (docker : Value) : S (gmap string DockerComposeSpec) :=
  objects ← rd (objectCollection docker "compose"); build objects compose_item ∅.

(** ** The settings of the daemon *)

Fixpoint jsonCompatibleAny (value : Value) : S goval :=
  _ ← require (negb (ContainsSensitive value || ContainsEphemeral value)) (v_Source value) ""
        "docker daemon settings cannot contain sensitive or ephemeral values";
  match v_Kind value with
  | KindNull => Ok GNil
  | KindString => Ok (GStr (v_String value))
  | KindBool => Ok (GBool (v_Bool value))
  | KindNumber => Ok (GNumber (v_Number value))
  | KindList => GList <$> seq_res (jsonCompatibleAny <$> v_List value)
  | KindMap =>
      entries ← seq_res ((fun p =>
        _ ← require (negb (bool_decide (p.1 = ""))) (p.2).1 "" "docker daemon settings keys must be non-empty";
        converted ← (p.2).2; Ok (p.1, converted))
        <$> sorted_entries ((fun v => (v_Source v, jsonCompatibleAny v)) <$> v_Map value));
      Ok (GMap (list_to_map entries))
  | KindZero => Err (Invalid (v_Source value) "" "unsupported docker daemon settings value")
  end.

(** [json.Marshal] fails on a [json.Number] that is not a number. *)
Fixpoint numbers_valid (v : goval) : bool :=
  match v with
  | GNumber text => bool_decide (text = "") || isValidNumber text
  | GList l => forallb id (numbers_valid <$> l)
  | GMap m => forallb snd (map_to_list (numbers_valid <$> m))
  | _ => true
  end.
Definition jsonContentSummary (value : goval) (source : SourceRef) : S ContentSummary :=
  _ ← require (numbers_valid value) source "" "json marshal failed";
  Ok (contentSummary (json_text (marshal value))).

Definition dockerDaemonSpec (docker : Value) : S (option DockerDaemonSpec) :=
  daemon ← rd (mapField docker "daemon");
  match daemon with
  | None => Ok None
  | Some daemon =>
      let source := v_Source daemon in
      let settingsValue := default (MapValue ∅ {| src_File := src_File source; src_Line := src_Line source;
                                                  src_Path := src_Path source +:+ ".settings" |}) (field daemon "settings") in
      let must_be_map := Invalid (v_Source settingsValue) "" "docker daemon settings must be a map" in
      _ ← guard_or (IsMap settingsValue) must_be_map;
      settings ← jsonCompatibleAny settingsValue;
      settingsMap ← of_option must_be_map (as_map settings);
      summary ← jsonContentSummary settings source;
      Ok (Some {| dd_Settings := settingsMap; dd_Source := source; dd_Summary := summary |})
  end.

Definition dockerSpec (docker : Value) : S DockerSpec :=
  enable ← rd (boolField docker "enable");
  users ← dockerUsersField docker;
  package ← dockerPackageSpec docker;
  service ← dockerServiceSpec docker;
  daemon ← dockerDaemonSpec docker;
  composes ← dockerComposeSpecs docker;
  Ok {| dk_Enable := default false enable; dk_Package := package; dk_Service := service; dk_Daemon := daemon;
        dk_Users := users; dk_Composes := composes; dk_Source := v_Source docker |}.
End read.

(** ** Accepted specifications are well formed *)

Lemma validateDockerStableName_Ok kind value source u :
  validateDockerStableName kind value source = Ok u -> stable_name value = true.
Proof. unfold validateDockerStableName. intros H. by spec_inv. Qed.

(** A stable name holds no separator of paths or words. *)
Lemma stable_name_lacks b value : stable_name value = true -> name_byte b = false -> b ∉ Sha256.bytes value.
Proof.
  unfold stable_name. destruct (Sha256.bytes value) as [|b0 l]; [done|]. intros [H0 Hl]%andb_true_iff Hb [->|Hin]%elem_of_cons.
  - unfold name_byte in Hb. by rewrite H0 in Hb.
  - rewrite forallb_forall in Hl. apply list_elem_of_In, Hl in Hin. congruence.
Qed.

Lemma enum_Ok value allowed source message u : enum value allowed source message = Ok u <-> value ∈ allowed.
Proof. unfold enum. rewrite require_Ok. apply stringIn_true. Qed.

Record wf_docker_package (p : DockerPackageSpec) : Prop := {
  wdp_source : dp_Source p ∈ ["official"; "none"; "custom"] /\ dp_Channel p <> "";
  wdp_official : dp_Source p = "official" ->
    dp_RepositoryURL p <> "" /\ dp_GPGURL p <> "" /\ (dp_GPGSHA256 p = "" \/ sha256Pattern (dp_GPGSHA256 p) = true);
  wdp_other : dp_Source p <> "official" -> dp_RepositoryURL p = "" /\ dp_GPGURL p = "" /\ dp_GPGSHA256 p = "";
}.

Lemma gpg_digest_Ok source url sha d : gpg_digest source url sha = Ok d -> d = "" \/ sha256Pattern d = true.
Proof.
  unfold gpg_digest. destruct sha as [sha|]; intros H; spec_inv.
  - right. by apply sha256Pattern_lower.
  - case_bool_decide; [right; vm_compute; reflexivity|by left].
Qed.

Lemma dockerPackageSpec_wf docker p : dockerPackageSpec docker = Ok p -> wf_docker_package p.
Proof.
  unfold dockerPackageSpec. intros H. spec_inv.
  match goal with H : match ?parts with pair _ _ => _ end = Ok p |- _ => destruct parts as [[url key] sha] end.
  spec_inv. nonempty.
  match goal with H : enum _ _ _ _ = Ok _ |- _ => apply enum_Ok in H end.
  split; cbn; [done| |]; intros Hs;
    match goal with H : (if bool_decide _ then _ else _) = Ok _ |- _ =>
      (rewrite bool_decide_true in H by done) || (rewrite bool_decide_false in H by done) end; spec_inv; nonempty; [|done].
  split_and!.
  - match goal with |- default _ ?o <> "" => destruct o; cbn; [congruence|done] end.
  - match goal with |- default _ ?o <> "" => destruct o; cbn; [congruence|done] end.
  - by eapply gpg_digest_Ok.
Qed.

Section read.
Context (ReadFile : string -> option string).

Record wf_compose_file (f : DockerComposeFileSpec) : Prop := {
  wcf_path : absolute (df_Path f) = true /\ modePattern (df_Mode f) = true;
  wcf_summary : described ReadFile (df_Content f) (df_SourcePath f) (df_Summary f);
}.
Record wf_compose (name : string) (c : DockerComposeSpec) : Prop := {
  wco_names : dc_Name c = name /\ stable_name name = true /\ stable_name (dc_Project c) = true
              /\ stable_name (dcs_Name (dc_Service c)) = true;
  wco_enabled : dc_Enable c = true -> absolute (dc_Directory c) = true /\ is_Some (dc_File c);
  wco_state : dc_State c ∈ ["running"; "stopped"; "absent"];
  wco_file : forall f, dc_File c = Some f -> wf_compose_file f;
  wco_env : map_Forall (fun label f => wf_compose_file f /\ df_Sensitive f = true /\ df_Label f = label) (dc_EnvFiles c);
  wco_units : dc_After c <> [] /\ dc_WantedBy c <> [];
}.

Lemma dockerComposeFileSpec_wf label item mode sensitive f :
  dockerComposeFileSpec ReadFile label item mode sensitive = Ok f ->
  wf_compose_file f /\ df_Label f = label /\ (sensitive = true -> df_Sensitive f = true).
Proof.
  unfold dockerComposeFileSpec. intros H. spec_facts. nonempty. split_and!; cbn; [split; cbn; [done|]|done|].
  - by eapply summary_described.
  - intros ->. apply orb_true_r.
Qed.

Lemma dockerComposeSpec_wf name item c :
  stable_name name = true -> dockerComposeSpec ReadFile name item = Ok c -> wf_compose name c.
Proof.
  unfold dockerComposeSpec. intros Hname H. spec_inv.
  repeat match goal with
  | H : enum _ _ _ _ = Ok _ |- _ => apply enum_Ok in H
  | H : validateDockerStableName _ _ _ = Ok _ |- _ => apply validateDockerStableName_Ok in H
  end.
  match goal with H : dockerComposeServiceSpec _ _ = Ok _ |- _ => unfold dockerComposeServiceSpec in H end. spec_inv.
  match goal with H : validateDockerStableName _ _ _ = Ok _ |- _ => apply validateDockerStableName_Ok in H end.
  split; cbn; [done| |done| | |].
  - intros He. repeat match goal with H : negb (default true _ && _) = true |- _ => rewrite He in H; cbn in H;
      rewrite negb_true_iff, negb_false_iff in H end. split; [done|by apply has_Some].
  - intros f ->. match goal with H : dockerComposeMainFileSpec _ _ = Ok _ |- _ => unfold dockerComposeMainFileSpec in H end.
    spec_inv. match goal with H : match ?m with Some _ => _ | None => _ end = Ok _ |- _ => destruct m end; spec_inv; [|done].
    by eapply dockerComposeFileSpec_wf.
  - match goal with H : dockerComposeEnvFileSpecs _ _ = Ok _ |- _ => unfold dockerComposeEnvFileSpecs in H end. spec_inv.
    eapply map_build_wf; [|done]. intros out [label i] out' Hout Hstep. unfold env_file in Hstep. spec_inv.
    match goal with H : dockerComposeFileSpec _ _ _ _ _ = Ok _ |- _ => apply dockerComposeFileSpec_wf in H as (? & ? & Hs) end.
    apply map_Forall_insert_2; [|done]. by split_and!; try apply Hs.
  - unfold list_or. split; case_match; done.
Qed.

Record wf_docker (d : DockerSpec) : Prop := {
  wd_package : wf_docker_package (dk_Package d);
  wd_service : ds_State (dk_Service d) ∈ ["running"; "stopped"];
  wd_users : NoDup (dk_Users d) /\ "" ∉ dk_Users d;
  wd_composes : map_Forall wf_compose (dk_Composes d);
}.

Lemma dockerUsersField_ok docker users : dockerUsersField docker = Ok users -> NoDup users /\ ("" ∉ users).
Proof.
  unfold dockerUsersField. intros H. apply bind_Ok in H as ([list|] & _ & H); cbn in H.
  2: { injection H as <-. split; [constructor|apply not_elem_of_nil]. }
  revert H. apply (fold_res_inv (fun users => NoDup users /\ ("" ∉ users))).
  - intros l item l' _ [Hn He] H. unfold docker_user in H. spec_inv. nonempty. split.
    + apply NoDup_app. split_and!; [done| |apply NoDup_singleton]. by intros ? ? ->%list_elem_of_singleton.
    + rewrite elem_of_app, list_elem_of_singleton. intros [?|<-]; done.
  - split; [constructor|apply not_elem_of_nil].
Qed.

Theorem dockerSpec_wf docker d : dockerSpec ReadFile docker = Ok d -> wf_docker d.
Proof.
  unfold dockerSpec. intros H. spec_inv. split; cbn.
  - by eapply dockerPackageSpec_wf.
  - match goal with H : dockerServiceSpec _ = Ok _ |- _ => unfold dockerServiceSpec in H end. spec_inv. by eapply enum_Ok.
  - by eapply dockerUsersField_ok.
  - match goal with H : dockerComposeSpecs _ _ = Ok _ |- _ => unfold dockerComposeSpecs in H end. spec_inv.
    eapply map_build_wf; [|done]. intros out [name item] out' Hout Hstep. unfold compose_item in Hstep. spec_inv. nonempty.
    apply map_Forall_insert_2; [|done]. apply dockerComposeSpec_wf with item; [by eapply validateDockerStableName_Ok|done].
Qed.
End read.
