(* ===== verification/ComponentSpecs.v ===== *)
(** * Component instances: [merge_components.go]

    The scripts, the artifact and the body of a component instance.  The HCL
    library evaluates the body, the scripts and the sources of a template with
    the inputs of the instance; their values are arguments here. *)
From S2P Require Import Prelude Sha256 GoValue GoStrings IR Values Merge Fields Dependencies HostIR HostValidation HostSpecs SystemdSpecs NetworkdSpecs HostBuild.

(** [[%d]] of a message. *)
Definition index (i : nat) : string := "[" +:+ pretty (N.of_nat i) +:+ "]".

(** The first entry that fails a test, in the order of the list. *)
Definition each {A} (check : nat -> A -> S unit) (l : list A) : S unit :=
  fold_res (fun _ p => check p.1 p.2) (imap pair l) tt.

(** ** Scripts *)

(** [parser.ComponentScript] after evaluation. *)
Record ComponentScript := {
  scr_Name : string;
  scr_Mode : string;
  scr_Interpreter : list string;
  scr_Outputs : list string;
  scr_Run : string;
  scr_Content : string;
  scr_Commands : list (list string);
  scr_Sensitive : bool;
  scr_ModeSet : bool;
  scr_InterpreterSet : bool;
  scr_OutputsSet : bool;
  scr_RunSet : bool;
  scr_ContentSet : bool;
  scr_CommandsSet : bool;
  scr_ModeSource : SourceRef;
  scr_InterpreterSource : SourceRef;
  scr_OutputsSource : SourceRef;
  scr_CommandsSource : SourceRef;
  scr_Source : SourceRef;
}.

Definition validateComponentScriptShape (script : ComponentScript) : S unit :=
  require (bool_decide (length (filter Is_true [scr_RunSet script; scr_ContentSet script; scr_CommandsSet script]) = 1))
    (scr_Source script) ""
    ((if strings_HasPrefix (src_Path (scr_Source script)) "script[" then "root script" else "component script")
     +:+ " requires exactly one of run, content, or commands").

Definition componentScriptBody (script : ComponentScript) : string :=
  if scr_RunSet script then "run"
  else if scr_ContentSet script then "content"
  else if scr_CommandsSet script then "commands"
  else "".

Definition cloneCommandMatrix (m : list (list string)) : slice (list string) :=
  match m with [] => None | _ => Some m end.

Definition script_interpreter (script : ComponentScript) : S (list string) :=
  let source := scr_InterpreterSource script in
  if scr_InterpreterSet script then
    _ ← require (negb (bool_decide (scr_Interpreter script = []))) source "" "script interpreter must be a non-empty string list";
    _ ← each (fun i arg => require (negb (bool_decide (arg = ""))) source (index i)
                             "script interpreter entries must be non-empty strings") (scr_Interpreter script);
    Ok (scr_Interpreter script)
  else Ok ["/bin/sh"; "-eu"].

(** The paths so far are the [seen] set. *)
Definition output_path (source : SourceRef) (seen : list string) (p : nat * string) : S (list string) :=
  _ ← require (absolute p.2) source (index p.1) "script output path must be absolute and non-empty";
  _ ← guard_or (negb (bool_decide (p.2 ∈ seen))) (InvalidName source (index p.1) "duplicate script output path" p.2);
  Ok (seen ++ [p.2]).

Definition check_outputs (script : ComponentScript) : S unit :=
  if scr_OutputsSet script then
    _ ← require (negb (bool_decide (scr_Outputs script = []))) (scr_OutputsSource script) ""
          "script outputs must contain at least one path";
    _ ← fold_res (output_path (scr_OutputsSource script)) (imap pair (scr_Outputs script)) [];
    Ok tt
  else Ok tt.

(** A non-empty matrix of non-empty rows of non-empty strings. *)
Definition check_commands (what suffix : string) (source : SourceRef) (commands : list (list string)) : S unit :=
  _ ← require (negb (bool_decide (commands = []))) source suffix (what +:+ " commands must contain at least one command");
  each (fun i command =>
    _ ← require (negb (bool_decide (command = []))) source (suffix +:+ index i)
          (what +:+ " command must contain at least one argument");
    each (fun j arg => require (negb (bool_decide (arg = ""))) source (suffix +:+ index i +:+ index j)
                         (what +:+ " command arguments must be non-empty strings")) command) commands.

Definition componentScriptSpec (script : ComponentScript) : S ComponentScriptSpec :=
  _ ← validateComponentScriptShape script;
  let mode := if scr_ModeSet script then scr_Mode script else "once" in
  _ ← require (stringIn mode ["once"; "each"]) (scr_ModeSource script) "" "script mode must be once or each";
  interpreter ← script_interpreter script;
  _ ← check_outputs script;
  _ ← (if scr_CommandsSet script then check_commands "script" "" (scr_CommandsSource script) (scr_Commands script) else Ok tt);
  Ok {| cs_Name := scr_Name script; cs_DeclarationID := ""; cs_Mode := mode; cs_Body := componentScriptBody script;
        cs_Interpreter := Some interpreter; cs_Outputs := scr_Outputs script; cs_Run := scr_Run script;
        cs_Content := scr_Content script; cs_Commands := cloneCommandMatrix (scr_Commands script);
        cs_Sensitive := scr_Sensitive script; cs_Source := scr_Source script |}.

Definition declared_as (id : string) (s : ComponentScriptSpec) : ComponentScriptSpec :=
  {| cs_Name := cs_Name s; cs_DeclarationID := id; cs_Mode := cs_Mode s; cs_Body := cs_Body s;
     cs_Interpreter := cs_Interpreter s; cs_Outputs := cs_Outputs s; cs_Run := cs_Run s; cs_Content := cs_Content s;
     cs_Commands := cs_Commands s; cs_Sensitive := cs_Sensitive s; cs_Source := cs_Source s |}.

(** The scripts of an instance, from their evaluated declarations. *)
Definition instance_script (out : gmap string ComponentScriptSpec) (p : string * ComponentScript)
  : S (gmap string ComponentScriptSpec) :=
  spec ← componentScriptSpec p.2; Ok (<[p.1 := declared_as (src_Path (scr_Source p.2)) spec]> out).
Definition componentInstanceScriptSpecs (scripts : gmap string ComponentScript) : S (gmap string ComponentScriptSpec) :=
  fold_res instance_script (sorted_entries scripts) ∅.

(** A root script of a host runs once. *)
Definition root_script (out : gmap string ComponentScriptSpec) (p : string * ComponentScript)
  : S (gmap string ComponentScriptSpec) :=
  spec ← componentScriptSpec p.2;
  _ ← require (bool_decide (cs_Mode spec = "once")) (if scr_ModeSet p.2 then scr_ModeSource p.2 else scr_Source p.2) ""
        "root script mode must be once";
  Ok (<[p.1 := declared_as (src_Path (scr_Source p.2)) spec]> out).
Definition hostScriptSpecs (scripts : gmap string ComponentScript) : S (gmap string ComponentScriptSpec) :=
  fold_res root_script (sorted_entries scripts) ∅.

(** ** Artifacts *)

(** [parser.ComponentArtifactSource] after evaluation. *)
Record ComponentArtifactSource := {
  src_Architecture : string;
  src_URL : string;
  src_SHA256 : string;
  src_URLSensitive : bool;
  src_SHA256Sensitive : bool;
  src_URLSource : SourceRef;
  src_SHA256Source : SourceRef;
  src_Source : SourceRef;
}.

(** The artifact part of [parser.Component]; its extract, build and install
    blocks have the fields of the specification. *)
Record template := {
  tpl_Name : string;
  tpl_Source : SourceRef;
  tpl_Type : string;
  tpl_Version : string;
  tpl_Sources : gmap string ComponentArtifactSource;
  tpl_Extract : option ComponentArtifactExtractSpec;
  tpl_Build : option ComponentArtifactBuildSpec;
  tpl_Install : option ComponentArtifactInstallSpec;
}.

Definition no_artifact (t : template) : bool :=
  bool_decide (tpl_Type t = "") && bool_decide (tpl_Version t = "") && bool_decide (tpl_Sources t = ∅)
  && negb (has (tpl_Extract t)) && negb (has (tpl_Build t)) && negb (has (tpl_Install t)).

Definition supportedComponentArtifactType (artifactType : string) : bool :=
  stringIn artifactType ["binary"; "archive"; "file"; "ca_certificate"; "source"].

(** [urlSource], [shaSource]: a position without a file is that of the block. *)
Definition position_or (source block : SourceRef) (suffix : string) : SourceRef :=
  if bool_decide (src_File source = "")
  then {| src_File := src_File block; src_Line := src_Line block; src_Path := src_Path block +:+ suffix |} else source.

Definition validateComponentArtifactSource (s : ComponentArtifactSource) : S unit :=
  let shaSource := position_or (src_SHA256Source s) (src_Source s) ".sha256" in
  _ ← require (negb (bool_decide (src_URL s = ""))) (position_or (src_URLSource s) (src_Source s) ".url") ""
        "source url must be non-empty";
  _ ← require (negb (bool_decide (src_SHA256 s = ""))) shaSource "" "source url requires sha256";
  require (sha256Pattern (src_SHA256 s)) shaSource "" "sha256 must be a 64 character hex string".

Definition mixed_sources (s : ComponentArtifactSource) : spec_error :=
  Invalid (src_Source s) "" "cannot mix unlabeled and architecture-labeled source blocks".

(** The source without an architecture, alone, or that of the target. *)
Definition selectComponentArtifactSource (t : template) (target : HostSpec) : S ComponentArtifactSource :=
  _ ← require (negb (bool_decide (tpl_Sources t = ∅))) (tpl_Source t) ".source"
        "binary component requires at least one source block";
  match tpl_Sources t !! "" with
  | Some independent =>
      _ ← guard_or (bool_decide (size (tpl_Sources t) = 1)) (mixed_sources independent);
      _ ← validateComponentArtifactSource independent;
      Ok independent
  | None =>
      let architecture := PlatformArchitecture target in
      _ ← guard_or (negb (bool_decide (architecture = "")))
            (InvalidName (h_Source target) ".platform.architecture"
               "host must declare platform.architecture to select a component source" (h_Name target));
      source ← of_option (InvalidName (tpl_Source t) "" "component has no source for the architecture of the host" architecture)
                 (tpl_Sources t !! architecture);
      _ ← validateComponentArtifactSource source;
      Ok source
  end.

Definition extension_in (base : string) (suffixes : list string) : bool :=
  existsb (strings_HasSuffix (strings_ToLower base)) suffixes.

(** Up to the first [?] or [#]. *)
Fixpoint url_base (url : string) : string :=
  match url with
  | EmptyString => EmptyString
  | String c rest => if strings_Contains "?#" (String c "") then EmptyString else String c (url_base rest)
  end.

Definition inferArtifactFormat (sourceURL : string) : string :=
  let base := url_base sourceURL in
  if extension_in base [".zip"] then "zip"
  else if extension_in base [".tar.gz"; ".tgz"] then "tar.gz"
  else if extension_in base [".tar.xz"; ".txz"] then "tar.xz"
  else if extension_in base [".bz2"] then "bz2"
  else if extension_in base [".gz"] then "gz"
  else "".

Definition check_binary_extract (e : ComponentArtifactExtractSpec) (format : string) : S unit :=
  _ ← require (stringIn format ["zip"; "tar.gz"; "tar.xz"; "bz2"; "gz"]) (ext_Source e) ".format"
        "binary extract format must be zip, tar.gz, tar.xz, bz2, or gz";
  if stringIn format ["bz2"; "gz"] then
    _ ← require (bool_decide (ext_Include e = "")) (ext_Source e) ".include"
          (format +:+ " binary extract does not support include");
    require (bool_decide (ext_StripComponents e = 0%Z)) (ext_Source e) ".strip_components"
      (format +:+ " binary extract requires strip_components = 0")
  else require (negb (bool_decide (ext_Include e = ""))) (ext_Source e) ".include" "binary extract requires include".

(** Archives and sources are extracted whole. *)
Definition check_whole_extract (what : string) (formats : list string) (e : ComponentArtifactExtractSpec) (format : string)
  : S unit :=
  _ ← require (stringIn format formats) (ext_Source e) ".format" (what +:+ " extract format is not supported");
  require (bool_decide (ext_Include e = "")) (ext_Source e) ".include" (what +:+ " extract does not support include").

Definition componentArtifactExtractSpec (artifactType : string) (e : ComponentArtifactExtractSpec)
    (source : ComponentArtifactSource) : S ComponentArtifactExtractSpec :=
  let format := if bool_decide (ext_Format e = "") then inferArtifactFormat (src_URL source) else ext_Format e in
  _ ← require (negb (bool_decide (format = ""))) (ext_Source e) ".format"
        "extract format is required when it cannot be inferred from source url";
  _ ← (if bool_decide (artifactType = "binary") then check_binary_extract e format
       else if bool_decide (artifactType = "archive") then check_whole_extract "archive" ["tar.gz"] e format
       else if bool_decide (artifactType = "source") then check_whole_extract "source" ["zip"; "tar.gz"; "tar.xz"] e format
       else Err (InvalidName (ext_Source e) "" "component does not support extract" artifactType));
  _ ← require (bool_decide (0 <= ext_StripComponents e)%Z) (ext_Source e) ".strip_components"
        "strip_components must be greater than or equal to 0";
  Ok {| ext_Format := format; ext_StripComponents := ext_StripComponents e; ext_Include := ext_Include e;
        ext_Source := ext_Source e |}.

Definition componentArtifactBuildSpec (t : template) : S ComponentArtifactBuildSpec :=
  b ← of_option (Invalid (tpl_Source t) ".build" "source component requires a build block") (tpl_Build t);
  let check := fun cond => require cond (bld_Source b) in
  _ ← check_commands "build" ".commands" (bld_Source b) (bld_Commands b);
  _ ← each (fun i pkg => check (negb (bool_decide (pkg = ""))) (".packages" +:+ index i)
                           "build packages must be non-empty strings") (bld_Packages b);
  _ ← check (negb (filepath_IsAbs (bld_WorkingDir b))) ".working_dir" "build working_dir must be relative";
  _ ← check (negb (bool_decide (bld_Output b = ""))) ".output" "build output must be non-empty";
  _ ← check (negb (filepath_IsAbs (bld_Output b))) ".output" "build output must be relative";
  _ ← check (negb (filepath_IsAbs (bld_SourceName b) || strings_Contains (bld_SourceName b) "/"
                   || strings_Contains (bld_SourceName b) backslash)) ".source_name"
        "build source_name must be a relative file name";
  Ok b.

Definition defaultArtifactInstallMode (artifactType : string) : string :=
  if stringIn artifactType ["file"; "ca_certificate"] then "0644" else "0755".

Definition string_or (fallback value : string) : string := if bool_decide (value = "") then fallback else value.

Definition componentArtifactInstallSpec (t : template) : S ComponentArtifactInstallSpec :=
  i ← of_option (InvalidName (tpl_Source t) ".install" "component requires an install block" (tpl_Type t)) (tpl_Install t);
  _ ← require (negb (bool_decide (ins_Path i = ""))) (ins_Source i) ".path" "install path must be non-empty";
  _ ← require (filepath_IsAbs (ins_Path i)) (ins_Source i) ".path" "install path must be absolute";
  let mode := string_or (defaultArtifactInstallMode (tpl_Type t)) (ins_Mode i) in
  _ ← require (modePattern mode) (ins_Source i) ".mode" "mode must be a four digit octal string";
  Ok {| ins_Path := ins_Path i; ins_Owner := string_or "root" (ins_Owner i); ins_Group := string_or "root" (ins_Group i);
        ins_Mode := mode; ins_Source := ins_Source i |}.

(** The fields [applyComponentArtifact] sets. *)
Record artifact := {
  art_Type : string;
  art_Version : string;
  art_Source : ComponentArtifactSourceSpec;
  art_Extract : option ComponentArtifactExtractSpec;
  art_Build : option ComponentArtifactBuildSpec;
  art_Install : ComponentArtifactInstallSpec;
}.

Definition selected (s : ComponentArtifactSource) : ComponentArtifactSourceSpec :=
  {| asrc_Architecture := src_Architecture s; asrc_URL := src_URL s; asrc_SHA256 := strings_ToLower (src_SHA256 s);
     asrc_URLSensitive := src_URLSensitive s; asrc_SHA256Sensitive := src_SHA256Sensitive s;
     asrc_Source := src_Source s |}.

Definition check_type (t : template) : S unit :=
  _ ← require (negb (bool_decide (tpl_Type t = ""))) (tpl_Source t) ".type"
        "component artifact type is required when source, extract, build, install, or version is declared";
  guard_or (supportedComponentArtifactType (tpl_Type t))
    (InvalidName (tpl_Source t) ".type" "component artifact type is not supported yet" (tpl_Type t)).

(** The extract block of a template, when it has one. *)
Definition extract_of (t : template) (source : ComponentArtifactSource) : S (option ComponentArtifactExtractSpec) :=
  match tpl_Extract t with
  | Some e => e ← componentArtifactExtractSpec (tpl_Type t) e source; Ok (Some e)
  | None =>
      _ ← require (negb (bool_decide (tpl_Type t = "archive"))) (tpl_Source t) ".extract"
            "archive component requires an extract block";
      Ok None
  end.
Definition build_of (t : template) : S (option ComponentArtifactBuildSpec) :=
  if bool_decide (tpl_Type t = "source") then b ← componentArtifactBuildSpec t; Ok (Some b)
  else match tpl_Build t with
       | Some b => Err (InvalidName (bld_Source b) "" "component does not support build" (tpl_Type t))
       | None => Ok None
       end.

Definition applyComponentArtifact (t : template) (target : HostSpec) : S (option artifact) :=
  if no_artifact t then Ok None
  else
    _ ← check_type t;
    source ← selectComponentArtifactSource t target;
    extract ← extract_of t source;
    build ← build_of t;
    install ← componentArtifactInstallSpec t;
    Ok (Some {| art_Type := tpl_Type t; art_Version := tpl_Version t; art_Source := selected source;
                art_Extract := extract; art_Build := build; art_Install := install |}).

(** The checks that need no target: every source is checked. *)
Definition check_source (t : template) (u : unit) (p : string * ComponentArtifactSource) : S unit :=
  _ ← validateComponentArtifactSource p.2; _ ← extract_of t p.2; Ok tt.
Definition validateComponentArtifactTemplate (t : template) : S (option ComponentArtifactInstallSpec) :=
  if no_artifact t then Ok None
  else
    _ ← check_type t;
    _ ← guard_or (negb (bool_decide (tpl_Sources t = ∅)))
          (InvalidName (tpl_Source t) ".source" "component requires at least one source block" (tpl_Type t));
    _ ← match tpl_Sources t !! "" with
        | Some independent => guard_or (bool_decide (size (tpl_Sources t) = 1)) (mixed_sources independent)
        | None => Ok tt
        end;
    _ ← fold_res (check_source t) (sorted_entries (tpl_Sources t)) tt;
    _ ← build_of t;
    install ← componentArtifactInstallSpec t;
    Ok (Some install).

(** ** The body *)

(** [parser.ComponentInstance] *)
Record instance := {
  in_Name : string;
  in_Template : string;
  in_Inputs : gmap string Value;
  in_StagingRoot : string;
  in_StagingRootSet : bool;
  in_StagingRootSource : SourceRef;
  in_Source : SourceRef;
}.

Definition componentInstanceStagingRoot (i : instance) (t : template) : S string :=
  if in_StagingRootSet i then
    _ ← require (absolute (in_StagingRoot i)) (in_StagingRootSource i) "" "component staging_root must be absolute and non-empty";
    _ ← require (negb (no_artifact t)) (in_StagingRootSource i) "" "component staging_root requires an artifact component";
    Ok (in_StagingRoot i)
  else Ok "".

Section read.
Variable ReadFile : string -> option string.

(** The files of a component may name its scripts and those of the host. *)
Definition component_files (scripts rootScripts : gmap string ComponentScriptSpec) (files : Value) : S FileSpec :=
  managed ← fileSpecs ReadFile files;
  managed ← validateFileOnChangeRefs scripts rootScripts managed;
  Ok {| fls_Files := managed; fls_Source := v_Source files |}.

Definition component_systemd (scripts rootScripts : gmap string ComponentScriptSpec) (systemd : Value) : S SystemdSpec :=
  units ← systemdSpecs ReadFile systemd;
  timers ← systemdTimerSpecs systemd;
  networkd ← networkdSpec ReadFile systemd;
  networkd ← validateNetworkdActivationRefs scripts rootScripts networkd;
  resolved ← systemdResolvedSpec systemd;
  journald ← systemdJournaldSpec systemd;
  Ok {| sd_Units := units; sd_Networkd := networkd; sd_Timers := timers; sd_Resolved := resolved;
        sd_Journald := journald; sd_Source := v_Source systemd |}.

(** [scripts] are the evaluated scripts of the template. *)
Definition buildComponentSpec (i : instance) (scripts : gmap string ComponentScript) (raw : Value)
    (rootScripts : gmap string ComponentScriptSpec) : S ComponentInstanceSpec :=
  scripts ← componentInstanceScriptSpecs scripts;
  packages ← section raw "packages" zero_PackageSpec packages_section;
  apt ← section raw "apt" zero_APTSpec (apt_section ReadFile);
  files ← section raw "files" zero_FileSpec (component_files scripts rootScripts);
  secrets ← section raw "secrets" zero_SecretSpec (secrets_section ReadFile);
  directories ← section raw "directories" zero_DirectorySpec directories_section;
  groups ← section raw "groups" zero_GroupSpec groups_section;
  users ← section raw "users" zero_UserSpec users_section;
  systemd ← section raw "systemd" zero_SystemdSpec (component_systemd scripts rootScripts);
  services ← section raw "services" zero_ServiceSpec services_section;
  Ok {| ci_Name := in_Name i; ci_Template := in_Template i; ci_InputValues := ∅; ci_StagingRoot := "";
        ci_ArtifactType := ""; ci_Version := ""; ci_Scripts := scripts; ci_SelectedSource := None; ci_Extract := None;
        ci_Build := None; ci_Install := None; ci_APT := apt; ci_Packages := packages; ci_Files := files;
        ci_Secrets := secrets; ci_Directories := directories; ci_Groups := groups; ci_Users := users;
        ci_Systemd := systemd; ci_Services := services; ci_Source := in_Source i; ci_ExplicitDependencies := [] |}.

End read.

(** ** Instances *)

(** [E] are the errors of the evaluation of a template. *)
Inductive component_failure (E : Type) :=
| ComponentSpecError (e : spec_error)
| ComponentDependency (e : dependency_error)
| Evaluation (e : E)
| Mounted (template instance : SourceRef) (cause : component_failure E).
Arguments ComponentSpecError {E} e.
Arguments ComponentDependency {E} e.
Arguments Evaluation {E} e.
Arguments Mounted {E} template instance cause.

Abbreviation C E := (result (component_failure E)).

(** What a template evaluates to with the inputs of an instance: its body, its
    scripts and the JSON of the inputs. *)
Record evaluation := {
  ev_Body : Value;
  ev_Scripts : gmap string ComponentScript;
  ev_Inputs : gmap string goval;
}.

(** The instance with its artifact, its inputs and its dependencies. *)
Definition finish_component (t : template) (inputs : gmap string goval) (stagingRoot : string) (art : option artifact)
    (dependencies : list ResourceDependencySpec) (c : ComponentInstanceSpec) : ComponentInstanceSpec :=
  {| ci_Name := ci_Name c; ci_Template := tpl_Name t; ci_InputValues := inputs; ci_StagingRoot := stagingRoot;
     ci_ArtifactType := from_option art_Type (ci_ArtifactType c) art;
     ci_Version := from_option art_Version (ci_Version c) art; ci_Scripts := ci_Scripts c;
     ci_SelectedSource := art_Source <$> art; ci_Extract := art ≫= art_Extract; ci_Build := art ≫= art_Build;
     ci_Install := art_Install <$> art; ci_APT := ci_APT c; ci_Packages := ci_Packages c; ci_Files := ci_Files c;
     ci_Secrets := ci_Secrets c; ci_Directories := ci_Directories c; ci_Groups := ci_Groups c; ci_Users := ci_Users c;
     ci_Systemd := ci_Systemd c; ci_Services := ci_Services c; ci_Source := ci_Source c;
     ci_ExplicitDependencies := dependencies |}.

Section instances.
Context {E : Type}.
Variable ReadFile : string -> option string.

(** The templates with their artifact parts, the evaluation of a template for an
    instance, and that of the sources of its artifact. *)
Context {T : Type}.
Variable artifact_part : T -> template.
Variable evaluate : instance -> T -> C E evaluation.
Variable evaluate_sources : instance -> T -> C E template.
Variable templates : gmap string T.
Variable target : HostSpec.

(** One round of the loop of [instantiateComponents]: the instances so far and
    where each name was declared. *)
Definition instantiate_component (acc : list ComponentInstanceSpec * gmap string SourceRef) (i : instance)
  : C E (list ComponentInstanceSpec * gmap string SourceRef) :=
  let spec {A} (m : S A) : C E A := map_err ComponentSpecError m in
  _ ← spec (require (negb (bool_decide (in_Name i = ""))) (in_Source i) "" "component instance name must be non-empty");
  _ ← spec (match acc.2 !! in_Name i with
            | Some previous => Err (Clash (in_Source i) "component instance" (in_Name i) "instance" previous)
            | None => Ok tt
            end);
  t ← spec (of_option (InvalidName (in_Source i) "" "unknown component" (in_Template i)) (templates !! in_Template i));
  let part := artifact_part t in
  stagingRoot ← spec (componentInstanceStagingRoot i part);
  e ← evaluate i t;
  c ← spec (buildComponentSpec ReadFile i (ev_Scripts e) (ev_Body e) (h_Scripts target));
  dependencies ← map_err ComponentDependency
    (resourceDependencies (ev_Body e) ("host." +:+ h_Name target +:+ ".components." +:+ ci_Name c));
  t' ← evaluate_sources i t;
  art ← map_err (Mounted (tpl_Source part) (in_Source i)) (spec (applyComponentArtifact t' target));
  Ok (acc.1 ++ [finish_component part (ev_Inputs e) stagingRoot art dependencies c], <[in_Name i := in_Source i]> acc.2).

Definition instantiateComponents (instances : list instance) : C E (list ComponentInstanceSpec) :=
  acc ← fold_res instantiate_component instances ([], ∅); Ok acc.1.
End instances.
