(* ===== verification/ComponentProps.v ===== *)
(** * Properties of component instances

    Every instance the builder returns is well formed: its sections like those
    of a host, its scripts complete, each reference to a script resolved to one,
    and its artifact selected for the host with a pinned digest. *)
From S2P Require Import Prelude Sha256 GoValue GoStrings IR Values Merge Fields Dependencies HostIR HostValidation HostValidationProps HostSpecs SystemdSpecs NetworkdSpecs HostBuild HostBuildUnits HostBuildProps ComponentSpecs.

(** ** Scripts *)

Definition rows_ok (m : list (list string)) : Prop := m <> [] /\ Forall (fun row => row <> [] /\ "" ∉ row) m.

Record wf_script (s : ComponentScriptSpec) : Prop := {
  wsc_mode : cs_Mode s ∈ ["once"; "each"];
  wsc_body : cs_Body s ∈ ["run"; "content"; "commands"];
  wsc_interpreter : elems (cs_Interpreter s) <> [] /\ "" ∉ elems (cs_Interpreter s);
  wsc_commands : cs_Body s = "commands" -> rows_ok (elems (cs_Commands s));
}.

Lemma each_Ok {A} (check : nat -> A -> S unit) l u :
  each check l = Ok u -> forall i x, l !! i = Some x -> check i x = Ok tt.
Proof.
  unfold each. destruct u. rewrite fold_res_check. intros Hall i x Hx.
  apply (Hall (i, x)). apply list_elem_of_lookup. exists i. by rewrite list_lookup_imap, Hx.
Qed.

Lemma each_nonempty source suffix message l u :
  each (fun i (s : string) => require (negb (bool_decide (s = ""))) source (suffix i) message) l = Ok u -> "" ∉ l.
Proof.
  intros H [i Hi]%list_elem_of_lookup. specialize (each_Ok _ _ _ H i "" Hi) as Hc. apply require_Ok in Hc. by nonempty.
Qed.

Lemma check_commands_Ok what suffix source m u : check_commands what suffix source m = Ok u -> rows_ok m.
Proof.
  unfold check_commands, rows_ok. intros H. spec_inv. nonempty. split; [done|]. apply Forall_forall.
  intros row [i Hi]%list_elem_of_lookup. specialize (each_Ok _ _ _ H i row Hi) as Hrow. cbn beta in Hrow. spec_inv. nonempty.
  split; [done|]. by eapply (each_nonempty _ (fun j => suffix +:+ index i +:+ index j)).
Qed.

Lemma script_interpreter_Ok script l : script_interpreter script = Ok l -> l <> [] /\ ("" ∉ l).
Proof.
  unfold script_interpreter. destruct (scr_InterpreterSet script); intros H; spec_inv.
  - nonempty. split; [done|]. by eapply (each_nonempty _ index).
  - split; [done|]. set_solver.
Qed.

(** Exactly one body is set, and it is the one named. *)
Lemma componentScriptBody_ok script u :
  validateComponentScriptShape script = Ok u ->
  componentScriptBody script ∈ ["run"; "content"; "commands"]
  /\ (componentScriptBody script = "commands" -> scr_CommandsSet script = true).
Proof.
  unfold validateComponentScriptShape, componentScriptBody. intros H%require_Ok. apply bool_decide_eq_true in H.
  destruct (scr_RunSet script), (scr_ContentSet script), (scr_CommandsSet script); vm_compute in H; try discriminate;
    (split; [set_solver|done]).
Qed.

Lemma componentScriptSpec_wf script s : componentScriptSpec script = Ok s -> wf_script s.
Proof.
  unfold componentScriptSpec. intros H. spec_inv.
  match goal with H : validateComponentScriptShape _ = Ok _ |- _ => apply componentScriptBody_ok in H as [Hbody Hset] end.
  match goal with H : script_interpreter _ = Ok _ |- _ => apply script_interpreter_Ok in H end.
  split; cbn; [by apply stringIn_true|done|done|]. intros Hc. rewrite (Hset Hc) in *.
  match goal with H : check_commands _ _ _ _ = Ok _ |- _ => apply check_commands_Ok in H end.
  unfold cloneCommandMatrix. by destruct (scr_Commands script).
Qed.

Lemma componentInstanceScriptSpecs_wf scripts out :
  componentInstanceScriptSpecs scripts = Ok out -> map_Forall (fun _ => wf_script) out.
Proof.
  unfold componentInstanceScriptSpecs. apply (fold_res_inv (map_Forall (fun _ => wf_script))); [|apply map_Forall_empty].
  intros m [name script] m' _ Hm H. unfold instance_script in H. spec_inv. apply map_Forall_insert_2; [|done].
  match goal with H : componentScriptSpec _ = Ok _ |- _ => apply componentScriptSpec_wf in H as [] end. by split.
Qed.

(** ** References to scripts *)

(** A resolved reference names a script of the component or of the host, and
    carries its declaration. *)
Definition resolved_in (local root : gmap string ComponentScriptSpec) (ok : ComponentScriptSpec -> Prop)
    (ref : ScriptReferenceSpec) : Prop :=
  exists script, ok script /\ srf_DeclarationID ref = cs_DeclarationID script
    /\ (srf_Scope ref = "component" /\ local !! srf_Name ref = Some script
        \/ srf_Scope ref = "root" /\ root !! srf_Name ref = Some script).

Lemma resolve_script_Ok what check local root ref ref' :
  resolve_script what check local root ref = Ok ref' ->
  resolved_in local root (fun script => exists u, check script = Ok u) ref'.
Proof.
  unfold resolve_script. intros H.
  destruct (if bool_decide _ then None else local !! _) as [script|] eqn:E.
  - apply bind_Ok in H as (u & Hu & [= <-]). exists script. split_and!; [by exists u|done|left].
    case_bool_decide; [done|]. done.
  - destruct (root !! srf_Name ref) as [script|] eqn:Er; [|done].
    apply bind_Ok in H as (u & Hu & [= <-]). exists script. split_and!; [by exists u|done|by right].
Qed.

(** Updating the entries of a map one after the other updates each of them. *)
Lemma fold_entries_updated {A} (Q : string -> A -> Prop) (step : gmap string A -> string * A -> S (gmap string A)) m m' :
  (forall out p out', m !! p.1 = Some p.2 -> out !! p.1 = Some p.2 -> step out p = Ok out' ->
     exists a, out' = <[p.1 := a]> out /\ Q p.1 a) ->
  fold_res step (sorted_entries m) m = Ok m' -> map_Forall Q m'.
Proof.
  intros Hstep.
  enough (forall l out out', NoDup l.*1 -> (forall k a, (k, a) ∈ l -> m !! k = Some a /\ out !! k = Some a) ->
    (forall k a, out !! k = Some a -> k ∈ l.*1 \/ Q k a) -> fold_res step l out = Ok out' -> map_Forall Q out') as Hgo.
  { apply Hgo; [apply NoDup_sorted_entries|intros k a Hk; by apply elem_of_sorted_entries in Hk|].
    intros k a Hk. left. apply list_elem_of_fmap. exists (k, a). split; [done|]. by apply elem_of_sorted_entries. }
  induction l as [|[k a] l IH]; intros out out' Hnd Hin Hdone; cbn [fold_res].
  - intros [= <-] k a Hk. by destruct (Hdone k a Hk) as [?%elem_of_nil|].
  - destruct (step out (k, a)) as [out1|e] eqn:E; [|done]. cbn in Hnd. apply NoDup_cons in Hnd as [Hk Hnd].
    destruct (Hin k a) as [Hm Ho]; [by left|]. destruct (Hstep out (k, a) out1 Hm Ho E) as (b & -> & Hq). cbn [fst] in *.
    apply IH; [done| |].
    + intros k' a' Hin'. split; [apply Hin; by right|]. rewrite lookup_insert_ne; [apply Hin; by right|].
      intros ->. apply Hk, list_elem_of_fmap. by exists (k', a').
    + intros k' a' [[<- <-]|[Hne Ho']]%lookup_insert_Some; [by right|].
      destruct (Hdone k' a' Ho') as [Hin'|]; [|by right]. left. cbn in Hin'. apply elem_of_cons in Hin' as [->|]; done.
Qed.

Section read.
Context (ReadFile : string -> option string).

Definition file_resolved (local root : gmap string ComponentScriptSpec) (f : ManagedFile) : Prop :=
  forall ref, mf_OnChange f = Some ref -> resolved_in local root (fun _ => True) ref.

Lemma wf_file_on_change path ref f : wf_file ReadFile path f -> wf_file ReadFile path (set_mf_OnChange ref f).
Proof. intros []. by split. Qed.

Lemma wf_netdev_activation label a n : wf_netdev ReadFile label n -> wf_netdev ReadFile label (set_nd_Activation a n).
Proof. intros []. by split. Qed.
Lemma wf_network_activation label a n : wf_network ReadFile label n -> wf_network ReadFile label (set_nn_Activation a n).
Proof. intros []. by split. Qed.

Lemma validateFileOnChangeRefs_Ok local root files files' :
  map_Forall (wf_file ReadFile) files -> validateFileOnChangeRefs local root files = Ok files' ->
  map_Forall (fun path f => wf_file ReadFile path f /\ file_resolved local root f) files'.
Proof.
  intros Hwf. unfold validateFileOnChangeRefs. apply fold_entries_updated. intros out [path f] out' Hf Hout H. cbn [fst snd] in *.
  specialize (Hwf _ _ Hf). destruct (mf_OnChange f) as [ref|] eqn:E.
  - apply bind_Ok in H as (ref' & Href%resolve_script_Ok & [= <-]). eexists. split; [done|].
    split; [by apply wf_file_on_change|]. intros r [= <-]. destruct Href as (script & _ & ?). by exists script.
  - injection H as <-. exists f. split; [by rewrite insert_id|]. split; [done|]. by intros r Hr; rewrite E in Hr.
Qed.

(** An activation names a script that runs once and has no outputs. *)
Definition once_only (s : ComponentScriptSpec) : Prop := cs_Mode s = "once" /\ cs_Outputs s = [].
Definition activation_resolved (local root : gmap string ComponentScriptSpec) (a : option NetworkdActivationSpec) : Prop :=
  forall x ref, a = Some x -> na_PostReload x = Some ref -> resolved_in local root once_only ref.

Lemma resolveNetworkdActivationRef_Ok local root a a' :
  resolveNetworkdActivationRef local root a = Ok a' -> activation_resolved local root a'.
Proof.
  unfold resolveNetworkdActivationRef, activation_resolved. intros H x ref -> Href. destruct a as [a|]; [|done].
  destruct (na_PostReload a) as [r|] eqn:E; [|injection H as ->; congruence].
  apply bind_Ok in H as (r' & Hr%resolve_script_Ok & [= <-]). injection Href as <-.
  destruct Hr as (script & [u Hu] & ?). exists script. split; [|done].
  unfold validateNetworkdPostReloadScript in Hu. spec_inv. split; by eapply bool_decide_eq_true.
Qed.

Record networkd_resolved (local root : gmap string ComponentScriptSpec) (nw : NetworkdSpec) : Prop := {
  nr_netdevs : map_Forall (fun label n => wf_netdev ReadFile label n /\ activation_resolved local root (nd_Activation n)) (nw_NetDevs nw);
  nr_networks : map_Forall (fun label n => wf_network ReadFile label n /\ activation_resolved local root (nn_Activation n)) (nw_Networks nw);
}.

Lemma validateNetworkdActivationRefs_Ok local root nw nw' :
  (map_Forall (wf_netdev ReadFile) (nw_NetDevs nw) /\ map_Forall (wf_network ReadFile) (nw_Networks nw)) ->
  validateNetworkdActivationRefs local root (Some nw) = Ok (Some nw') -> networkd_resolved local root nw'.
Proof.
  intros [Hd Hn] H. unfold validateNetworkdActivationRefs in H.
  apply bind_Ok in H as (netdevs & H1 & H). apply bind_Ok in H as (networks & H2 & [= <-]). split; cbn.
  - revert H1. apply fold_entries_updated. intros out [label n] out' Hl Hout H. cbn [fst snd] in *.
    apply bind_Ok in H as (a & Ha & [= <-]). eexists. split; [done|]. split; [by apply wf_netdev_activation, Hd|].
    by eapply resolveNetworkdActivationRef_Ok.
  - revert H2. apply fold_entries_updated. intros out [label n] out' Hl Hout H. cbn [fst snd] in *.
    apply bind_Ok in H as (a & Ha & [= <-]). eexists. split; [done|]. split; [by apply wf_network_activation, Hn|].
    by eapply resolveNetworkdActivationRef_Ok.
Qed.

(** ** Artifacts *)

(** The source of a template for a target: the unlabeled one alone, or the one
    for the architecture of the target. *)
Definition chosen (t : template) (target : HostSpec) (s : ComponentArtifactSource) : Prop :=
  (tpl_Sources t !! "" = Some s /\ size (tpl_Sources t) = 1)
  \/ (tpl_Sources t !! "" = None /\ PlatformArchitecture target <> "" /\ tpl_Sources t !! PlatformArchitecture target = Some s).
Definition pinned (s : ComponentArtifactSource) : Prop := src_URL s <> "" /\ sha256Pattern (src_SHA256 s) = true.

Lemma validateComponentArtifactSource_Ok s u : validateComponentArtifactSource s = Ok u -> pinned s.
Proof. unfold validateComponentArtifactSource. intros H. spec_inv. nonempty. by split. Qed.

Lemma selectComponentArtifactSource_Ok t target s :
  selectComponentArtifactSource t target = Ok s -> chosen t target s /\ pinned s.
Proof.
  unfold selectComponentArtifactSource, chosen. intros H. apply bind_Ok in H as (u & _ & H).
  destruct (tpl_Sources t !! "") as [s'|] eqn:E; spec_inv;
    match goal with H : validateComponentArtifactSource _ = Ok _ |- _ => apply validateComponentArtifactSource_Ok in H end.
  - split; [left|done]. split; [done|]. by eapply bool_decide_eq_true.
  - nonempty. split; [right|done]. done.
Qed.

Record wf_extract (artifactType : string) (e : ComponentArtifactExtractSpec) : Prop := {
  we_format : ext_Format e ∈ ["zip"; "tar.gz"; "tar.xz"; "bz2"; "gz"];
  we_type : artifactType ∈ ["binary"; "archive"; "source"];
  we_strip : (0 <= ext_StripComponents e)%Z;
  we_include : ext_Include e <> "" -> artifactType = "binary";
}.

Lemma componentArtifactExtractSpec_wf artifactType e s e' :
  componentArtifactExtractSpec artifactType e s = Ok e' -> wf_extract artifactType e'.
Proof.
  unfold componentArtifactExtractSpec. set (format := if bool_decide (ext_Format e = "") then _ else _). intros H. spec_inv. nonempty.
  match goal with H : bool_decide (0 <= _)%Z = true |- _ => apply bool_decide_eq_true in H end.
  match goal with H : (if bool_decide (artifactType = "binary") then _ else _) = Ok _ |- _ => revert H end.
  case_bool_decide as Hb; [|case_bool_decide as Ha; [|case_bool_decide as Hs; [|done]]]; subst artifactType.
  - unfold check_binary_extract. intros H'. spec_inv.
    match goal with H : stringIn format _ = true |- _ => apply stringIn_true in H end. by split; cbn; [|set_solver| |].
  - unfold check_whole_extract. intros H'. spec_inv.
    match goal with H : stringIn format _ = true |- _ => apply stringIn_true in H end.
    match goal with H : bool_decide (ext_Include e = "") = true |- _ => apply bool_decide_eq_true in H end.
    split; cbn; [set_solver|set_solver|done|done].
  - unfold check_whole_extract. intros H'. spec_inv.
    match goal with H : stringIn format _ = true |- _ => apply stringIn_true in H end.
    match goal with H : bool_decide (ext_Include e = "") = true |- _ => apply bool_decide_eq_true in H end.
    split; cbn; [set_solver|set_solver|done|done].
Qed.

Record wf_build (b : ComponentArtifactBuildSpec) : Prop := {
  wb_commands : rows_ok (bld_Commands b);
  wb_packages : "" ∉ bld_Packages b;
  wb_output : bld_Output b <> "" /\ filepath_IsAbs (bld_Output b) = false;
}.

Lemma componentArtifactBuildSpec_wf t b : componentArtifactBuildSpec t = Ok b -> wf_build b.
Proof.
  unfold componentArtifactBuildSpec. intros H. spec_inv. nonempty.
  repeat match goal with H : negb (filepath_IsAbs _) = true |- _ => apply negb_true_iff in H end.
  match goal with H : check_commands _ _ _ _ = Ok _ |- _ => apply check_commands_Ok in H end.
  split; [done| |done]. by eapply (each_nonempty _ (fun i => ".packages" +:+ index i)).
Qed.

Record wf_artifact (target : HostSpec) (a : artifact) : Prop := {
  war_type : supportedComponentArtifactType (art_Type a) = true;
  war_source : exists t s, chosen t target s /\ pinned s /\ art_Source a = selected s;
  war_extract : forall e, art_Extract a = Some e -> wf_extract (art_Type a) e;
  war_archive : art_Type a = "archive" -> is_Some (art_Extract a);
  war_build : is_Some (art_Build a) <-> art_Type a = "source";
  war_steps : forall b, art_Build a = Some b -> wf_build b;
  war_install : filepath_IsAbs (ins_Path (art_Install a)) = true /\ modePattern (ins_Mode (art_Install a)) = true
                /\ ins_Owner (art_Install a) <> "" /\ ins_Group (art_Install a) <> "";
}.

Lemma string_or_nonempty fallback value : fallback <> "" -> string_or fallback value <> "".
Proof. unfold string_or. by case_bool_decide. Qed.

Lemma componentArtifactInstallSpec_wf t i :
  componentArtifactInstallSpec t = Ok i ->
  filepath_IsAbs (ins_Path i) = true /\ modePattern (ins_Mode i) = true /\ ins_Owner i <> "" /\ ins_Group i <> "".
Proof.
  unfold componentArtifactInstallSpec. intros H. spec_inv. cbn. split_and!; [done|done|..]; by apply string_or_nonempty.
Qed.

Lemma applyComponentArtifact_wf t target a : applyComponentArtifact t target = Ok (Some a) -> wf_artifact target a.
Proof.
  unfold applyComponentArtifact. intros H. destruct (no_artifact t); [done|]. spec_inv.
  match goal with H : selectComponentArtifactSource _ _ = Ok ?s |- _ => apply selectComponentArtifactSource_Ok in H as [Hc Hp] end.
  match goal with H : check_type _ = Ok _ |- _ => unfold check_type in H end. spec_inv.
  match goal with H : extract_of _ _ = Ok _ |- _ => unfold extract_of in H; rename H into He end.
  match goal with H : build_of _ = Ok _ |- _ => unfold build_of in H; rename H into Hb end.
  split; cbn.
  - done.
  - eauto.
  - intros e ->. destruct (tpl_Extract t); spec_inv; [|done]. by eapply componentArtifactExtractSpec_wf.
  - intros Ha. destruct (tpl_Extract t); spec_inv; [done|]. nonempty. done.
  - case_bool_decide as Hs; [spec_inv; done|]. destruct (tpl_Build t); spec_inv. split; [by intros []|done].
  - intros b ->. case_bool_decide as Hs; [|by destruct (tpl_Build t)]. spec_inv. by eapply componentArtifactBuildSpec_wf.
  - by eapply componentArtifactInstallSpec_wf.
Qed.

(** ** Instances *)

Definition artifact_ok (target : HostSpec) (c : ComponentInstanceSpec) : Prop :=
  (ci_ArtifactType c = "" /\ ci_SelectedSource c = None /\ ci_Extract c = None /\ ci_Build c = None /\ ci_Install c = None)
  \/ exists a, wf_artifact target a /\ ci_ArtifactType c = art_Type a /\ ci_SelectedSource c = Some (art_Source a)
       /\ ci_Extract c = art_Extract a /\ ci_Build c = art_Build a /\ ci_Install c = Some (art_Install a).

Record wf_body (target : HostSpec) (c : ComponentInstanceSpec) : Prop := {
  wb_scripts : map_Forall (fun _ => wf_script) (ci_Scripts c);
  wb_package_names : NoDup (pk_Name <$> pks_Install (ci_Packages c)) /\ "" ∉ pk_Name <$> pks_Install (ci_Packages c);
  wb_files : map_Forall (fun path f => wf_file ReadFile path f /\ file_resolved (ci_Scripts c) (h_Scripts target) f) (fls_Files (ci_Files c));
  wb_secrets : map_Forall (wf_secret ReadFile) (secs_Files (ci_Secrets c));
  wb_directories : map_Forall wf_directory (dirs_Directories (ci_Directories c));
  wb_sources : map_Forall (wf_source_file ReadFile) (apt_SourceFiles (ci_APT c));
  wb_repositories : map_Forall wf_repository (apt_Repositories (ci_APT c));
  wb_groups : map_Forall wf_group (grs_Groups (ci_Groups c));
  wb_users : map_Forall wf_user (uss_Users (ci_Users c));
  wb_systemd : wf_systemd ReadFile (ci_Systemd c);
  wb_networkd : forall nw, sd_Networkd (ci_Systemd c) = Some nw -> networkd_resolved (ci_Scripts c) (h_Scripts target) nw;
  wb_services : map_Forall wf_service (svs_Services (ci_Services c));
}.

Lemma networkd_refs_Ok local root systemd nw nw' :
  networkdSpec ReadFile systemd = Ok nw -> validateNetworkdActivationRefs local root nw = Ok (Some nw') ->
  networkd_resolved local root nw'.
Proof.
  intros Hnw Hrefs. destruct nw as [nw|]; [|done]. eapply validateNetworkdActivationRefs_Ok; [|exact Hrefs].
  by eapply networkdSpec_wf.
Qed.

Lemma component_systemd_wf scripts root systemd sd :
  component_systemd ReadFile scripts root systemd = Ok sd ->
  wf_systemd ReadFile sd /\ forall nw, sd_Networkd sd = Some nw -> networkd_resolved scripts root nw.
Proof.
  unfold component_systemd. intros H. spec_inv.
  match goal with Hn : networkdSpec _ _ = Ok _ |- _ => pose proof (fun nw' => networkd_refs_Ok scripts root _ _ nw' Hn) as Hrefs end.
  split; [split|]; cbn.
  - by eapply systemdSpecs_wf.
  - match goal with H : systemdTimerSpecs _ = Ok _ |- _ => unfold systemdTimerSpecs in H end. spec_inv.
    eapply map_build_wf; [apply (timer_item_wf ReadFile)|done].
  - intros nw ->. destruct (Hrefs nw) as [Hd Hn]; [done|]. split; (eapply map_Forall_impl; [eassumption|]); by intros ? ? [].
  - intros r ->. match goal with H : systemdResolvedSpec _ = Ok _ |- _ => apply (systemdResolvedSpec_wf ReadFile) in H as [? _] end. done.
  - intros j ->. match goal with H : systemdJournaldSpec _ = Ok _ |- _ => apply (systemdJournaldSpec_wf ReadFile) in H as [? _] end. done.
  - intros nw ->. by apply Hrefs.
Qed.

Ltac of_component := from_section; [apply map_Forall_empty|].

Lemma buildComponentSpec_wf i scripts raw target c :
  buildComponentSpec ReadFile i scripts raw (h_Scripts target) = Ok c -> wf_body target c.
Proof.
  unfold buildComponentSpec. intros H.
  repeat match type of H with _ ≫= _ = Ok _ =>
    let v := fresh "part" in let E := fresh "Part" in apply bind_Ok in H as (v & E & H) end.
  injection H as <-. split; cbn.
  - by eapply componentInstanceScriptSpecs_wf.
  - from_section; [split; [constructor|apply not_elem_of_nil]|]. unfold packages_section in Hblock. spec_inv.
    match goal with H : packageItems _ = Ok _ |- _ => by apply packageItems_wf in H as (? & ? & _) end.
  - of_component. unfold component_files in Hblock. spec_inv. eapply validateFileOnChangeRefs_Ok; [|done]. by eapply fileSpecs_wf.
  - of_component. unfold secrets_section, secretSpecs in Hblock. spec_inv. eapply map_build_wf; [apply secret_spec_wf|done].
  - of_component. unfold directories_section, directorySpecs in Hblock. spec_inv. eapply map_build_wf; [apply directory_spec_wf|done].
  - of_component. unfold apt_section, aptSourceFileSpecs in Hblock. spec_inv. eapply map_build_wf; [apply source_file_spec_wf|done].
  - of_component. unfold apt_section, aptRepositorySpecs in Hblock. spec_inv. eapply map_build_wf; [apply repository_spec_wf|done].
  - of_component. unfold groups_section, groupSpecs in Hblock. spec_inv. eapply map_build_wf; [apply group_spec_wf|done].
  - of_component. unfold users_section, userSpecs in Hblock. spec_inv. eapply map_build_wf; [apply user_spec_wf|done].
  - from_section; [split; cbn; try apply map_Forall_empty; done|]. by apply component_systemd_wf in Hblock as [? _].
  - from_section; [done|]. by apply component_systemd_wf in Hblock as [_ ?].
  - of_component. unfold services_section, serviceSpecs in Hblock. spec_inv. eapply map_build_wf; [apply service_spec_wf|done].
Qed.

Definition wf_component (target : HostSpec) (c : ComponentInstanceSpec) : Prop :=
  wf_body target c /\ artifact_ok target c /\ ci_Name c <> "" /\ (ci_StagingRoot c = "" \/ absolute (ci_StagingRoot c) = true).

Lemma wf_body_finish target t inputs root art deps c : wf_body target c -> wf_body target (finish_component t inputs root art deps c).
Proof. intros []. by split. Qed.

Lemma artifact_ok_finish t target t' inputs root art deps c :
  ci_ArtifactType c = "" -> applyComponentArtifact t' target = Ok art ->
  artifact_ok target (finish_component t inputs root art deps c).
Proof.
  intros Hc Ha. destruct art as [a|]; [right|by left]. exists a. split; [by eapply applyComponentArtifact_wf|done].
Qed.

Lemma componentInstanceStagingRoot_Ok i t root : componentInstanceStagingRoot i t = Ok root -> root = "" \/ absolute root = true.
Proof. unfold componentInstanceStagingRoot. destruct (in_StagingRootSet i); intros H; spec_inv; [by right|by left]. Qed.

Lemma buildComponentSpec_fields i scripts raw root c :
  buildComponentSpec ReadFile i scripts raw root = Ok c -> ci_Name c = in_Name i /\ ci_ArtifactType c = "".
Proof. unfold buildComponentSpec. intros H. repeat (apply bind_Ok in H as (? & _ & H)). by injection H as <-. Qed.

Section instances.
Context {E T : Type} (artifact_part : T -> template) (evaluate : instance -> T -> C E evaluation) (evaluate_sources : instance -> T -> C E template).
Context (templates : gmap string T) (target : HostSpec).

(** What the loop has so far: well-formed instances, each name recorded. *)
Record instances_inv (acc : list ComponentInstanceSpec * gmap string SourceRef) : Prop := {
  ii_wf : Forall (wf_component target) acc.1;
  ii_names : NoDup (ci_Name <$> acc.1);
  ii_seen : forall name, name ∈ ci_Name <$> acc.1 -> is_Some (acc.2 !! name);
}.

Lemma instantiate_component_inv acc i acc' :
  instances_inv acc -> instantiate_component ReadFile artifact_part evaluate evaluate_sources templates target acc i = Ok acc' ->
  instances_inv acc' /\ ci_Name <$> acc'.1 = (ci_Name <$> acc.1) ++ [in_Name i].
Proof.
  destruct acc as [out seen]. unfold instantiate_component. intros [Hwf Hnd Hseen] H. spec_inv. nonempty. cbn [fst snd] in *.
  match goal with H : match seen !! _ with Some _ => _ | None => _ end = Ok _ |- _ => destruct (seen !! in_Name i) eqn:Es; [done|clear H] end.
  match goal with H : buildComponentSpec _ _ _ _ _ = Ok _ |- _ =>
    apply buildComponentSpec_fields in H as Hf; apply buildComponentSpec_wf in H end. destruct Hf as [Hname Htype].
  match goal with H : applyComponentArtifact _ _ = Ok _ |- _ => eapply artifact_ok_finish in H; [|exact Htype] end.
  match goal with H : componentInstanceStagingRoot _ _ = Ok _ |- _ => apply componentInstanceStagingRoot_Ok in H end.
  split; [split|]; cbn [fst snd]; rewrite ?fmap_app; cbn [fmap list_fmap finish_component ci_Name]; rewrite ?Hname.
  - apply Forall_app. split; [done|]. apply Forall_singleton. split_and!; [by apply wf_body_finish|done|cbn; congruence|done].
  - apply NoDup_app. split_and!; [done| |apply NoDup_singleton]. intros n Hn ->%list_elem_of_singleton.
    destruct (Hseen _ Hn). congruence.
  - intros n [Hn| ->%list_elem_of_singleton]%elem_of_app; [|by rewrite lookup_insert_eq].
    apply lookup_insert_is_Some'. auto.
  - done.
Qed.
End instances.
End read.

(** Whatever the templates evaluate to, each component instance the builder
    returns is well formed, in the order of the declarations and under distinct
    names: its scripts have one body and a mode, every script named by a file or
    by a network resolves to a script of the component or of the host (for a
    network to one that runs once and has no outputs), its artifact comes from
    the unlabeled source or the one for the host's architecture, with a pinned
    digest and an absolute install path, and its units are keyed as host
    validation expects. *)
Theorem instantiateComponents_wf {E T} ReadFile (artifact_part : T -> template) (evaluate : instance -> T -> C E evaluation)
    evaluate_sources templates target instances cs :
  instantiateComponents ReadFile artifact_part evaluate evaluate_sources templates target instances = Ok cs ->
  Forall (wf_component ReadFile target) cs /\ NoDup (ci_Name <$> cs) /\ ci_Name <$> cs = in_Name <$> instances
  /\ Forall (fun c => keyed_units (ci_Systemd c)) cs.
Proof.
  unfold instantiateComponents. intros (acc & Hrun & [= <-])%bind_Ok.
  assert (forall l acc0 acc1, instances_inv ReadFile target acc0 ->
    fold_res (instantiate_component ReadFile artifact_part evaluate evaluate_sources templates target) l acc0 = Ok acc1 ->
    instances_inv ReadFile target acc1 /\ ci_Name <$> acc1.1 = (ci_Name <$> acc0.1) ++ (in_Name <$> l)) as Hfold.
  { induction l as [|i l IH]; intros acc0 acc1 Hinv; cbn [fold_res].
    - intros [= <-]. by rewrite app_nil_r.
    - destruct (instantiate_component _ _ _ _ _ _ acc0 i) as [acc2|e] eqn:E1; [|done]. intros H.
      apply instantiate_component_inv in E1 as [Hinv2 Hn]; [|done]. apply IH in H as [? ->]; [|done].
      split; [done|]. by rewrite Hn, <- app_assoc. }
  apply Hfold in Hrun as [[Hwf Hnd _] Hnames]; [|split; cbn; [constructor|constructor|by intros n ?%elem_of_nil]].
  split_and!; [done|done|done|]. eapply Forall_impl; [exact Hwf|]. intros c [[] _]. by eapply wf_systemd_keyed.
Qed.

(** ** A component that builds *)

Definition sample_source (architecture : string) : ComponentArtifactSource :=
  {| src_Architecture := architecture; src_URL := "https://example.net/app-" +:+ architecture +:+ ".tar.gz";
     src_SHA256 := "9F86D081884C7D659A2FEAA0C55AD015A3BF4F1B2B0B822CD15D6C15B0F00A08"; src_URLSensitive := false;
     src_SHA256Sensitive := false; src_URLSource := no_source; src_SHA256Source := no_source; src_Source := no_source |}.
Definition sample_template : template :=
  {| tpl_Name := "app"; tpl_Source := no_source; tpl_Type := "binary"; tpl_Version := "1.2";
     tpl_Sources := {["amd64" := sample_source "amd64"; "arm64" := sample_source "arm64"]};
     tpl_Extract := Some {| ext_Format := ""; ext_StripComponents := 1; ext_Include := "bin/app"; ext_Source := no_source |};
     tpl_Build := None;
     tpl_Install := Some {| ins_Path := "/usr/local/bin/app"; ins_Owner := ""; ins_Group := ""; ins_Mode := "";
                            ins_Source := no_source |} |}.
Definition sample_script : ComponentScript :=
  {| scr_Name := "reload"; scr_Mode := ""; scr_Interpreter := []; scr_Outputs := []; scr_Run := "systemctl reload app";
     scr_Content := ""; scr_Commands := []; scr_Sensitive := false; scr_ModeSet := false; scr_InterpreterSet := false;
     scr_OutputsSet := false; scr_RunSet := true; scr_ContentSet := false; scr_CommandsSet := false;
     scr_ModeSource := no_source; scr_InterpreterSource := no_source; scr_OutputsSource := no_source;
     scr_CommandsSource := no_source; scr_Source := {| src_File := "app.hcl"; src_Line := 3; src_Path := "component.app.script.reload" |} |}.
Definition sample_body : Value :=
  block [("files", block [("file", block [("/etc/app.conf", block [("content", str_value "port = 80"); ("on_change", str_value "reload")])])]);
         ("systemd", block [("service_unit", block [("app", block [("run", str_value "/usr/local/bin/app")])])])].
Definition sample_evaluate (i : instance) (t : template) : C Empty_set evaluation :=
  Ok {| ev_Body := sample_body; ev_Scripts := {["reload" := sample_script]}; ev_Inputs := ∅ |}.
Definition sample_instance (name : string) : instance :=
  {| in_Name := name; in_Template := "app"; in_Inputs := ∅; in_StagingRoot := "/var/tmp/" +:+ name; in_StagingRootSet := true;
     in_StagingRootSource := no_source; in_Source := no_source |}.
Definition sample_target : HostSpec := with_platform (bare_host "web1") sample_facts.
Definition sample_instances : C Empty_set (list ComponentInstanceSpec) :=
  instantiateComponents sample_files id sample_evaluate (fun _ t => Ok t) {["app" := sample_template]} sample_target
    [sample_instance "blue"; sample_instance "green"].

Definition sample_components : list ComponentInstanceSpec := match sample_instances with Ok cs => cs | Err _ => [] end.

(** The source is the one for the host, the format comes from its address, the
    script of the file is the component's. *)
Definition view (c : ComponentInstanceSpec) : list (option string) :=
  [Some (ci_Name c); asrc_Architecture <$> ci_SelectedSource c; ext_Format <$> ci_Extract c; ins_Mode <$> ci_Install c;
   f ← fls_Files (ci_Files c) !! "/etc/app.conf"; srf_DeclarationID <$> mf_OnChange f].
Example sample_component :
  view <$> sample_components
  = [[Some "blue"; Some "amd64"; Some "tar.gz"; Some "0755"; Some "component.app.script.reload"];
     [Some "green"; Some "amd64"; Some "tar.gz"; Some "0755"; Some "component.app.script.reload"]].
Proof. vm_compute. reflexivity. Qed.

Lemma instantiateComponents_wf_witness :
  Forall (wf_component sample_files sample_target) sample_components /\ ci_Name <$> sample_components = ["blue"; "green"].
Proof.
  destruct (instantiateComponents_wf sample_files id sample_evaluate (fun _ t => Ok t) {["app" := sample_template]} sample_target
              [sample_instance "blue"; sample_instance "green"] sample_components) as (Hwf & _ & Hnames & _).
  - vm_compute. reflexivity.
  - split; [exact Hwf|exact Hnames].
Defined.
