(* ===== verification/ParseConfig.v ===== *)
(** * Configurations: the rest of [parser/parse.go], and reading types and moved blocks

    Variables, components with their inputs, scripts and artifacts, profiles,
    hosts and assertions, and [ParseFilesWithOptions], which composes them with
    the locals, the values of the variables and the moved blocks. *)
From S2P Require Import Prelude Sha256 GoValue GoStrings IR Values InputType Merge Variables HostIR MovedDecl ComponentSpecs Hcl Parse Locals.

(** ** Data *)

Section data.
Context `{!HCL}.

(** [Assert], [VariableValidation] and [ComponentInputValidation]. *)
Record Validation := {
  vl_Source : SourceRef;
  vl_Condition : hcl_expr;
  vl_ConditionSource : SourceRef;
  vl_Message : string;
  vl_MessageSource : SourceRef;
}.

Record ComponentInput := {
  cin_Name : string;
  cin_Type : string;
  cin_TypeExpr : string;
  cin_TypeSpec : ComponentInputTypeSpec;
  cin_Description : string;
  cin_Default : option Value;
  cin_Sensitive : bool;
  cin_Nullable : bool;
  cin_Deprecated : string;
  cin_Validations : list Validation;
  cin_Source : SourceRef;
}.

(** The fields of [Variable] beside those it shares with an input. *)
Record Variable_ := {
  vr_Input : ComponentInput;
  vr_Ephemeral : bool;
  vr_Const : bool;
}.

(** An attribute of a script: its expression and position. *)
Record script_field := { sf_Expr : hcl_expr; sf_Source : SourceRef }.

(** [ComponentScript] before evaluation: a field is set when it is there. *)
Record ScriptDecl := {
  sd_Name : string;
  sd_ModuleDir : string;
  sd_Mode : option script_field;
  sd_Interpreter : option script_field;
  sd_Outputs : option script_field;
  sd_Run : option script_field;
  sd_Content : option script_field;
  sd_Commands : option script_field;
  sd_Source : SourceRef;
}.

(** [ComponentArtifactSource]: the value so far and the expressions. *)
Record ArtifactSource := {
  as_Value : ComponentArtifactSource;
  as_URLExpr : option hcl_expr;
  as_SHA256Expr : option hcl_expr;
}.

Record Component := {
  cm_Name : string;
  cm_Source : SourceRef;
  cm_ModuleDir : string;
  cm_Body : Body;
  cm_Inputs : gmap string ComponentInput;
  cm_Scripts : gmap string ScriptDecl;
  cm_Type : string;
  cm_Version : string;
  cm_Sources : gmap string ArtifactSource;
  cm_Extract : option ComponentArtifactExtractSpec;
  cm_Build : option ComponentArtifactBuildSpec;
  cm_Install : option ComponentArtifactInstallSpec;
}.

Record ComponentInstance := {
  cin_InstanceName : string;
  cin_Template : string;
  cin_Inputs : gmap string Value;
  cin_StagingRoot : option (string * SourceRef);
  cin_InstanceSource : SourceRef;
}.

Record HostDecl := {
  hd_Host : Host Validation;
  hd_Components : list ComponentInstance;
}.

End data.

Section parse.
Context `{!HCL} {order : AttrOrder}.

(** ** Attributes of a fixed type *)

Definition typed_attr {A} (file path : string) (ctx : EvalContext) (attr : Attribute) (what : string)
    (read : Value -> option A) : P A :=
  value ← map_err (Within file (at_Line attr) path) (evalValue (at_Expr attr) ctx (source_at file (at_Line attr) path));
  of_option (At file (at_Line attr) (path +:+ " must be " +:+ what)) (read value).

Definition parseStringAttribute (file path : string) (attr : Attribute) (ctx : EvalContext) : P string :=
  typed_attr file path ctx attr "a string" StringValue.

Definition parseIntAttribute (file path : string) (attr : Attribute) (ctx : EvalContext) : P Z :=
  typed_attr file path ctx attr "an integer" (fun value => s ← StringValue value; strconv_Atoi s).

Definition of_kind_bool (value : Value) : option bool :=
  if bool_decide (v_Kind value = KindBool) then Some (v_Bool value) else None.
Definition of_kind_string (value : Value) : option string :=
  if bool_decide (v_Kind value = KindString) then Some (v_String value) else None.

Definition parseBoolVariableAttribute (file path name : string) (attr : Attribute) (ctx : EvalContext) : P bool :=
  typed_attr file (path +:+ "." +:+ name) ctx attr "a boolean" of_kind_bool.

(** An optional attribute. *)
Definition optional_attr {A} (attrs : gmap string Attribute) (name : string) (read : Attribute -> P A) : P (option A) :=
  match attrs !! name with
  | Some attr => Some <$> read attr
  | None => Ok None
  end.

Definition commandMatrixFromValue (file path : string) (value : Value) : P (list (list string)) :=
  _ ← guard_or (IsList value) (At file (src_Line (v_Source value)) (path +:+ " must be a list of command argument lists"));
  mapi_res (fun i item =>
    let itemPath := item_path path i in
    _ ← guard_or (IsList item) (At file (src_Line (v_Source item)) (itemPath +:+ " must be a command argument list"));
    mapi_res (fun j arg =>
      of_option (At file (src_Line (v_Source arg)) (item_path itemPath j +:+ " must be a string")) (StringValue arg))
      0 (v_List item)) 0 (v_List value).

Definition parseCommandMatrixAttribute (file path : string) (attr : Attribute) (ctx : EvalContext)
  : P (list (list string)) :=
  value ← map_err (Within file (at_Line attr) path) (evalValue (at_Expr attr) ctx (source_at file (at_Line attr) path));
  commandMatrixFromValue file path value.

Definition list_item (file path : string) (i : nat) (item : Value) : P string :=
  let fail := At file (src_Line (v_Source item)) (item_path path i +:+ " must be a non-empty string") in
  str ← of_option fail (StringValue item);
  _ ← guard_or (negb (bool_decide (str = ""))) fail;
  Ok str.

Fixpoint distinct_strings (file path : string) (seen : gset string) (i : nat) (items : list Value) : P (list string) :=
  match items with
  | [] => Ok []
  | item :: items =>
      str ← list_item file path i item;
      _ ← guard_or (negb (bool_decide (str ∈ seen)))
            (At file (src_Line (v_Source item)) ("duplicate " +:+ path +:+ " entry " +:+ quoted str));
      rest ← distinct_strings file path ({[str]} ∪ seen) (S i) items;
      Ok (str :: rest)
  end.

Definition not_a_list (file path : string) (value : Value) : parse_error :=
  At file (src_Line (v_Source value)) (path +:+ " must be a list of strings").
Definition stringListFromValue (file path : string) (value : Value) : P (list string) :=
  _ ← guard_or (IsList value) (not_a_list file path value);
  distinct_strings file path ∅ 0 (v_List value).
Definition stringListFromValueAllowDuplicates (file path : string) (value : Value) : P (list string) :=
  _ ← guard_or (IsList value) (not_a_list file path value);
  mapi_res (list_item file path) 0 (v_List value).

Definition parseStringListAttribute (file path : string) (attr : Attribute) (ctx : EvalContext) : P (list string) :=
  value ← map_err (Within file (at_Line attr) path) (evalValue (at_Expr attr) ctx (source_at file (at_Line attr) path));
  stringListFromValue file path value.

(** ** Types: [input_type.go] *)

Definition base_kind (name : string) : option ComponentInputTypeKind :=
  if bool_decide (name = "string") then Some ComponentInputTypeString
  else if bool_decide (name = "number") then Some ComponentInputTypeNumber
  else if bool_decide (name = "bool") then Some ComponentInputTypeBool
  else if bool_decide (name = "any") then Some ComponentInputTypeAny
  else None.
Definition collection_kind (name : string) : option ComponentInputTypeKind :=
  if bool_decide (name = "list") then Some ComponentInputTypeList
  else if bool_decide (name = "set") then Some ComponentInputTypeSet
  else if bool_decide (name = "map") then Some ComponentInputTypeMap
  else None.
Definition needs_element (name : string) : bool := bool_decide (name ∈ ["list"; "map"; "set"; "object"; "tuple"]).

Definition simple_type (kind : ComponentInputTypeKind) : ComponentInputTypeSpec := mkType kind None ∅ [].

Definition validateVariableDefaultReferences (e : hcl_expr) (source : SourceRef) : P unit :=
  fold_res (fun _ t =>
    match tr_steps t with
    | TraverseRoot root :: _ =>
        guard_or (bool_decide (root = "local")) (AtSource source ("variable default cannot reference " +:+ root))
    | _ => Ok tt
    end) (hcl_Variables e) tt.

Definition objectTypeAttributeName (e : hcl_expr) (ctx : EvalContext) : P string :=
  match hcl_AbsTraversal e with
  | Some [TraverseRoot root] => Ok root
  | _ =>
      vars ← hclEvalContext ctx;
      value ← map_err (fun cause => Prefixed "object attribute name: " cause) (module_value ctx vars e);
      _ ← guard_or (negb (cty_IsNull value) && cty_IsKnown value) (Plain "object attribute name must be a known non-null string");
      value ← map_err (fun text => Prefixed "object attribute name must be a string: " (Plain text)) (cty_ConvertString value);
      Ok (cty_AsString value)
  end.

Definition defaultSourceForExpr (e : hcl_expr) (path : string) : SourceRef := source_at (hcl_Filename e) (hcl_Line e) path.

(** The root of a type expression that is a bare name. *)
Definition bare_name (e : hcl_expr) : option string :=
  match hcl_AbsTraversal e with Some [TraverseRoot root] => Some root | _ => None end.

Section types.
(** The reader of the types inside a type. *)
Variable parse : hcl_expr -> string -> P ComponentInputTypeSpec.
Variable ctx : EvalContext.

Definition parseObjectAttributeType (name : string) (e : hcl_expr) (sourcePath : string) : P ComponentObjectAttrSpec :=
  let attribute message := "object attribute " +:+ quoted name +:+ message in
  let plain :=
    spec ← map_err (Prefixed (attribute ": ")) (parse e sourcePath);
    Ok {| a_Type := spec; a_Optional := false; a_Default := None |} in
  match hcl_Call e with
  | Some (call, args) =>
      if bool_decide (call = "optional") then
        match args with
        | typ :: rest =>
            _ ← guard_or (bool_decide (length rest <= 1))
                  (Plain (attribute " optional() requires one type argument and optional default"));
            spec ← map_err (Prefixed (attribute ": ")) (parse typ sourcePath);
            dflt ← match rest with
              | [] => Ok None
              | dflt :: _ =>
                  let source := defaultSourceForExpr dflt (sourcePath +:+ ".default") in
                  _ ← (if ec_RestrictVariableDefaultReferences ctx then validateVariableDefaultReferences dflt source else Ok tt);
                  value ← map_err (Prefixed (attribute " optional default: ")) (evalValue dflt ctx source);
                  Ok (Some value)
              end;
            Ok {| a_Type := spec; a_Optional := true; a_Default := dflt |}
        | [] => Err (Plain (attribute " optional() requires one type argument and optional default"))
        end
      else plain
  | None => plain
  end.

Definition parseObjectInputType (e : hcl_expr) (sourcePath : string) : P ComponentInputTypeSpec :=
  match hcl_ExprMap e with
  | None => Err (Plain "object() argument must be an object schema")
  | Some pairs =>
      attrs ← fold_res (fun (attrs : gmap string ComponentObjectAttrSpec) p =>
        name ← objectTypeAttributeName p.1 ctx;
        _ ← guard_or (negb (bool_decide (is_Some (attrs !! name)))) (Plain ("duplicate object attribute " +:+ quoted name));
        attr ← parseObjectAttributeType name p.2 (sourcePath +:+ "." +:+ name);
        Ok (<[name := attr]> attrs)) pairs ∅;
      Ok (mkType ComponentInputTypeObject None attrs [])
  end.

Definition parseTupleInputType (e : hcl_expr) (sourcePath : string) : P ComponentInputTypeSpec :=
  match hcl_ExprList e with
  | None => Err (Plain "tuple() argument must be a list of types")
  | Some items =>
      out ← mapi_res (fun i item =>
        map_err (Prefixed ("tuple element " +:+ pretty (N.of_nat i) +:+ ": ")) (parse item (item_path sourcePath i))) 0 items;
      Ok (mkType ComponentInputTypeTuple None ∅ out)
  end.
End types.

(** [allowOptional] is false at every call, so that [optional()] is an error here. *)
Fixpoint parseComponentInputTypeExpr (fuel : nat) (e : hcl_expr) (ctx : EvalContext) (sourcePath : string)
  : P ComponentInputTypeSpec :=
  match fuel with
  | O => Err OutOfFuel
  | S fuel =>
      let parse e sourcePath := parseComponentInputTypeExpr fuel e ctx sourcePath in
      let call :=
        match hcl_Call e with
        | None => Err (Plain "supported types are string, number, bool, any, list(T), set(T), map(T), object({...}), and tuple([...])")
        | Some (name, args) =>
            if bool_decide (name = "array") then Err (Plain "array(T) is not supported; use list(T)")
            else match collection_kind name with
            | Some kind =>
                match args with
                | [arg] =>
                    element ← map_err (Prefixed (name +:+ "() element: ")) (parse arg sourcePath);
                    Ok (mkType kind (Some element) ∅ [])
                | _ => Err (Plain (name +:+ "() requires exactly one type argument"))
                end
            | None =>
                if bool_decide (name = "object") then
                  match args with
                  | [arg] => parseObjectInputType parse ctx arg sourcePath
                  | _ => Err (Plain "object() requires exactly one schema argument")
                  end
                else if bool_decide (name = "tuple") then
                  match args with
                  | [arg] => parseTupleInputType parse arg sourcePath
                  | _ => Err (Plain "tuple() requires exactly one schema argument")
                  end
                else if bool_decide (name = "optional") then
                  Err (Plain "optional() is only allowed inside object attribute type declarations")
                else Err (Plain ("unsupported type constructor " +:+ name +:+ "()"))
            end
        end in
      match bare_name e with
      | Some root =>
          match base_kind root with
          | Some kind => Ok (simple_type kind)
          | None =>
              if needs_element root
              then Err (Plain (root +:+ " requires an element type, for example " +:+ root +:+ "(string)"))
              else call
          end
      | None => call
      end
  end.

Definition parseComponentInputType (e : hcl_expr) (ctx : EvalContext) (sourcePath : string)
  : P (ComponentInputTypeSpec * string) :=
  spec ← parseComponentInputTypeExpr (S (hcl_size e)) e ctx sourcePath;
  Ok (spec, type_String spec).

(** ** Shared by the readers of declarations *)

Definition position (source : SourceRef) : string := src_File source +:+ ":" +:+ pretty (src_Line source).

(** An entry of a map by name; the first one wins, and a second is an error. *)
Definition add_named {A} (what name : string) (source_of : A -> SourceRef) (x : A) (m : gmap string A) : P (gmap string A) :=
  match m !! name with
  | Some previous =>
      Err (At (src_File (source_of x)) (src_Line (source_of x))
             ("duplicate " +:+ what +:+ " " +:+ quoted name +:+ "; first defined at " +:+ position (source_of previous)))
  | None => Ok (<[name := x]> m)
  end.

(** A block that may occur once, whose reader yields a record. *)
Definition set_once {A} (file path name : string) (block : Block) (current : option A) (read : P A) : P (option A) :=
  match current with
  | Some _ => Err (duplicate_block file path name block)
  | None => Some <$> read
  end.

Definition required_attr (file path name : string) (block : Block) : P Attribute :=
  of_option (ShapeError file (bl_Line block) (path +:+ "." +:+ name +:+ " is required")) (attributes block !! name).

(** The loop over attributes whose [step] evaluates each into its field. *)
Definition fold_attrs {A} (file path : string) (step : string -> Attribute -> A -> option (P A)) (attrs : gmap string Attribute)
    (init : A) : P A :=
  fold_res (fun acc p =>
    match step p.1 p.2 acc with
    | Some read => read
    | None => Err (unsupported_attribute file path p.1 p.2)
    end) (range_attrs attrs) init.

(** A step that stores the result of a reader. *)
Definition store {A B} (read : P B) (set : B -> A) : option (P A) := Some (set <$> read).

Definition parseLabeledHeader (file typ : string) (block : Block) : P (SourceRef * string) :=
  name ← one_label file typ block;
  _ ← guard_or (hcl_ValidIdentifier name)
        (At file (bl_Line block) (typ +:+ " block label " +:+ quoted name +:+ " must be a valid HCL identifier"));
  Ok (source_at file (bl_Line block) (typ +:+ "." +:+ name), name).

(** A condition with its message: [parseValidationBlock] and [parseAssertBlock]
    after their checks of the shape. *)
Definition condition_and_message (file path message_attr : string) (read : Z -> Value -> P string) (block : Block)
    (ctx : EvalContext) : P Validation :=
  condition ← required_attr file path "condition" block;
  message ← required_attr file path message_attr block;
  value ← eval_attr file path ctx message_attr message;
  text ← read (at_Line message) value;
  Ok {| vl_Source := blockSource file path block; vl_Condition := at_Expr condition;
        vl_ConditionSource := source_at file (at_Line condition) (path +:+ ".condition"); vl_Message := text;
        vl_MessageSource := source_at file (at_Line message) (path +:+ "." +:+ message_attr) |}.

Definition parseValidationBlock (file path : string) (block : Block) (ctx : EvalContext) : P Validation :=
  _ ← no_labels file path block;
  _ ← no_nested file path block;
  _ ← check_attrs file path ["condition"; "error_message"] block;
  condition_and_message file path "error_message" (fun line value =>
    let fail what := At file line (path +:+ ".error_message must be a " +:+ what) in
    text ← of_option (fail "string") (of_kind_string value);
    _ ← guard_or (negb (bool_decide (text = ""))) (fail "non-empty string");
    Ok text) block ctx.

Definition parseAssertBlock (file path : string) (block : Block) (ctx : EvalContext) : P Validation :=
  _ ← no_nested file path block;
  _ ← check_attrs file path ["condition"; "message"] block;
  condition_and_message file path "message" (fun line value =>
    let fail := At file line (path +:+ ".message must be a non-empty string") in
    text ← of_option fail (StringValue value);
    _ ← guard_or (negb (bool_decide (text = ""))) fail;
    Ok text) block ctx.

(** ** Variables and inputs *)

Definition described (file path name : string) (attrs : gmap string Attribute) (ctx : EvalContext) : P (option string) :=
  optional_attr attrs name (fun attr => typed_attr file (path +:+ "." +:+ name) ctx attr "a string" of_kind_string).

Definition flag (file path name : string) (attrs : gmap string Attribute) (ctx : EvalContext) (fallback : bool) : P bool :=
  value ← optional_attr attrs name (fun attr => parseBoolVariableAttribute file path name attr ctx);
  Ok (default fallback value).

Definition validation_child (file path : string) (child : Block) : P unit :=
  guard_or (bool_decide (bl_Type child = "validation")) (unsupported_block file path child).

(** What [parseVariable] and [parseComponentInputBlock] share: all but the
    validations.  The default of a variable refers to locals only. *)
Definition declared_fields (restricted : bool) (allowed : list string) (file path name : string) (block : Block)
    (ctx : EvalContext) : P ComponentInput :=
  _ ← check_attrs file path allowed block;
  _ ← fold_res (fun _ => validation_child file path) (blocks block) tt;
  typ ← required_attr file path "type" block;
  let typeCtx := {| ec_ModuleDir := ec_ModuleDir ctx; ec_Locals := ec_Locals ctx; ec_Variables := ec_Variables ctx;
                    ec_RestrictVariableDefaultReferences := restricted || ec_RestrictVariableDefaultReferences ctx |} in
  spec ← map_err (Within file (at_Line typ) (path +:+ ".type")) (parseComponentInputType (at_Expr typ) typeCtx (path +:+ ".type"));
  let attrs := attributes block in
  description ← described file path "description" attrs ctx;
  deprecated ← described file path "deprecated" attrs ctx;
  _ ← guard_or (negb (bool_decide (deprecated = Some "")))
        (At file (from_option at_Line 0%Z (attrs !! "deprecated")) (path +:+ ".deprecated must be a non-empty string"));
  dflt ← optional_attr attrs "default" (fun attr =>
    _ ← (if restricted
         then validateVariableDefaultReferences (at_Expr attr) (source_at file (at_Line attr) (path +:+ ".default")) else Ok tt);
    eval_attr file path ctx "default" attr);
  sensitive ← flag file path "sensitive" attrs ctx false;
  nullable ← flag file path "nullable" attrs ctx true;
  Ok {| cin_Name := name; cin_Type := spec.2; cin_TypeExpr := spec.2; cin_TypeSpec := spec.1;
        cin_Description := default "" description; cin_Default := dflt; cin_Sensitive := sensitive;
        cin_Nullable := nullable; cin_Deprecated := default "" deprecated; cin_Validations := [];
        cin_Source := blockSource file path block |}.

Definition with_validations (file path : string) (block : Block) (ctx : EvalContext) (input : ComponentInput) : P ComponentInput :=
  validations ← mapi_res (fun i child => parseValidationBlock file (item_path (path +:+ ".validation") i) child ctx) 0 (blocks block);
  Ok {| cin_Name := cin_Name input; cin_Type := cin_Type input; cin_TypeExpr := cin_TypeExpr input;
        cin_TypeSpec := cin_TypeSpec input; cin_Description := cin_Description input; cin_Default := cin_Default input;
        cin_Sensitive := cin_Sensitive input; cin_Nullable := cin_Nullable input; cin_Deprecated := cin_Deprecated input;
        cin_Validations := validations; cin_Source := cin_Source input |}.

Definition parseComponentInputBlock (file componentPath : string) (block : Block) (ctx : EvalContext) : P ComponentInput :=
  name ← one_label file "component input" block;
  let path := object_path componentPath "input" name in
  input ← declared_fields false ["type"; "default"; "sensitive"; "description"; "nullable"; "deprecated"] file path name block ctx;
  with_validations file path block ctx input.

Definition variable_attrs : list string :=
  ["type"; "default"; "description"; "nullable"; "sensitive"; "ephemeral"; "const"; "deprecated"].

Definition parseVariable (file : string) (block : Block) (ctx : EvalContext) : P Variable_ :=
  name ← one_label file "variable" block;
  let path := "variable[" +:+ quoted name +:+ "]" in
  input ← declared_fields true variable_attrs file path name block ctx;
  ephemeral ← flag file path "ephemeral" (attributes block) ctx false;
  const ← flag file path "const" (attributes block) ctx false;
  input ← with_validations file path block ctx input;
  Ok {| vr_Input := input; vr_Ephemeral := ephemeral; vr_Const := const |}.

(** ** Scripts *)

(** The loop stores each attribute in its field, whatever the order. *)
Definition script_attr (path : string) (block : Block) (file name : string) : option script_field :=
  (fun attr => {| sf_Expr := at_Expr attr; sf_Source := source_at file (at_Line attr) (path +:+ "." +:+ name) |})
    <$> attributes block !! name.

Definition parseScriptBlock (file parentPath description : string) (block : Block) : P ScriptDecl :=
  name ← one_label file description block;
  let path := (if bool_decide (parentPath = "") then "" else parentPath +:+ ".") +:+ "script[" +:+ quoted name +:+ "]" in
  _ ← no_nested file path block;
  _ ← check_attrs file path ["mode"; "interpreter"; "outputs"; "run"; "content"; "commands"] block;
  let field := script_attr path block file in
  Ok {| sd_Name := name; sd_ModuleDir := filepath_Dir file; sd_Mode := field "mode"; sd_Interpreter := field "interpreter";
        sd_Outputs := field "outputs"; sd_Run := field "run"; sd_Content := field "content"; sd_Commands := field "commands";
        sd_Source := blockSource file path block |}.

Definition parseComponentScriptBlock (file componentPath : string) (block : Block) : P ScriptDecl :=
  parseScriptBlock file componentPath "component script" block.

Definition refuse_input (script : ScriptDecl) (file : string) (field : option script_field) : P unit :=
  match field with
  | None => Ok tt
  | Some field =>
      fold_res (fun _ t =>
        guard_or (negb (bool_decide (traversalRoot t = Some "input")))
          (AtSource (source_at file (tr_Line t) (src_Path (sd_Source script))) "root script cannot reference component input.*"))
        (hcl_Variables (sf_Expr field)) tt
  end.

Definition parseRootScriptBlock (file : string) (block : Block) : P ScriptDecl :=
  script ← parseScriptBlock file "" "root script" block;
  _ ← guard_or (hcl_ValidIdentifier (sd_Name script))
        (AtSource (sd_Source script) ("root script label " +:+ quoted (sd_Name script) +:+ " must be a valid HCL identifier"));
  _ ← fold_res (fun _ => refuse_input script file)
        [sd_Mode script; sd_Interpreter script; sd_Outputs script; sd_Run script; sd_Content script; sd_Commands script] tt;
  Ok script.

Definition evalComponentScriptValue (source : SourceRef) (e : hcl_expr) (ctx : EvalContext) : P Value :=
  map_err (Within (src_File source) (src_Line source) (src_Path source)) (evalValue e ctx source).

(** A field that is there, with whether its value is sensitive. *)
Definition eval_field {A} (ctx : EvalContext) (zero : A) (read : SourceRef -> Value -> P A) (field : option script_field)
  : P (A * bool) :=
  match field with
  | None => Ok (zero, false)
  | Some field =>
      value ← evalComponentScriptValue (sf_Source field) (sf_Expr field) ctx;
      a ← read (sf_Source field) value;
      Ok (a, ContainsSensitive value)
  end.
Definition read_string (source : SourceRef) (value : Value) : P string :=
  of_option (At (src_File source) (src_Line source) (src_Path source +:+ " must be a string")) (StringValue value).
Definition read_list (source : SourceRef) : Value -> P (list string) :=
  stringListFromValueAllowDuplicates (src_File source) (src_Path source).
Definition read_matrix (source : SourceRef) : Value -> P (list (list string)) :=
  commandMatrixFromValue (src_File source) (src_Path source).

Definition field_source (field : option script_field) : SourceRef := from_option sf_Source no_source field.

Definition EvaluateComponentScript (script : ScriptDecl) (ctx : EvalContext) : P ComponentScript :=
  mode ← eval_field ctx "" read_string (sd_Mode script);
  interpreter ← eval_field ctx [] read_list (sd_Interpreter script);
  outputs ← eval_field ctx [] read_list (sd_Outputs script);
  run ← eval_field ctx "" read_string (sd_Run script);
  content ← eval_field ctx "" read_string (sd_Content script);
  commands ← eval_field ctx [] read_matrix (sd_Commands script);
  Ok {| scr_Name := sd_Name script; scr_Mode := mode.1; scr_Interpreter := interpreter.1; scr_Outputs := outputs.1;
        scr_Run := run.1; scr_Content := content.1; scr_Commands := commands.1;
        scr_Sensitive := mode.2 || interpreter.2 || outputs.2 || run.2 || content.2 || commands.2;
        scr_ModeSet := bool_decide (is_Some (sd_Mode script)); scr_InterpreterSet := bool_decide (is_Some (sd_Interpreter script));
        scr_OutputsSet := bool_decide (is_Some (sd_Outputs script)); scr_RunSet := bool_decide (is_Some (sd_Run script));
        scr_ContentSet := bool_decide (is_Some (sd_Content script)); scr_CommandsSet := bool_decide (is_Some (sd_Commands script));
        scr_ModeSource := field_source (sd_Mode script); scr_InterpreterSource := field_source (sd_Interpreter script);
        scr_OutputsSource := field_source (sd_Outputs script); scr_CommandsSource := field_source (sd_Commands script);
        scr_Source := sd_Source script |}.

(** ** Artifacts *)

Definition evaluateComponentArtifactString (e : hcl_expr) (ctx : EvalContext) (source : SourceRef) : P (string * bool) :=
  value ← evalComponentScriptValue source e ctx;
  text ← read_string source value;
  Ok (text, ContainsSensitive value).

Definition set_url (e : hcl_expr) (source : SourceRef) (value : string * bool) (s : ArtifactSource) : ArtifactSource :=
  let v := as_Value s in
  {| as_Value := {| src_Architecture := src_Architecture v; src_URL := value.1; src_SHA256 := src_SHA256 v;
                    src_URLSensitive := value.2; src_SHA256Sensitive := src_SHA256Sensitive v; src_URLSource := source;
                    src_SHA256Source := src_SHA256Source v; src_Source := src_Source v |};
     as_URLExpr := Some e; as_SHA256Expr := as_SHA256Expr s |}.
Definition set_sha256 (e : hcl_expr) (source : SourceRef) (value : string * bool) (s : ArtifactSource) : ArtifactSource :=
  let v := as_Value s in
  {| as_Value := {| src_Architecture := src_Architecture v; src_URL := src_URL v; src_SHA256 := value.1;
                    src_URLSensitive := src_URLSensitive v; src_SHA256Sensitive := value.2; src_URLSource := src_URLSource v;
                    src_SHA256Source := source; src_Source := src_Source v |};
     as_URLExpr := as_URLExpr s; as_SHA256Expr := Some e |}.

(** An expression that refers to an input waits for the instance. *)
Definition early_string (e : hcl_expr) (ctx : EvalContext) (source : SourceRef) : P (string * bool) :=
  if references_root e "input" then Ok ("", false) else evaluateComponentArtifactString e ctx source.

Definition source_attr (file path : string) (ctx : EvalContext) (name : string) (attr : Attribute) (s : ArtifactSource)
  : option (P ArtifactSource) :=
  let source := source_at file (at_Line attr) (path +:+ "." +:+ name) in
  let read := early_string (at_Expr attr) ctx source in
  if bool_decide (name = "url") then store read (fun value => set_url (at_Expr attr) source value s)
  else if bool_decide (name = "sha256") then store read (fun value => set_sha256 (at_Expr attr) source value s)
  else None.

Definition parseComponentSourceBlock (file componentPath : string) (block : Block) (ctx : EvalContext) : P ArtifactSource :=
  _ ← guard_or (bool_decide (length (bl_Labels block) <= 1))
        (ShapeError file (bl_Line block) "component source block accepts at most one architecture label");
  let '(architecture, path) := match bl_Labels block with
    | [architecture] => (architecture, object_path componentPath "source" architecture)
    | _ => ("", componentPath +:+ ".source")
    end in
  _ ← no_nested file path block;
  fold_attrs file path (source_attr file path ctx) (attributes block)
    {| as_Value := {| src_Architecture := architecture; src_URL := ""; src_SHA256 := ""; src_URLSensitive := false;
                      src_SHA256Sensitive := false; src_URLSource := no_source; src_SHA256Source := no_source;
                      src_Source := blockSource file path block |};
       as_URLExpr := None; as_SHA256Expr := None |}.

Definition evaluate_again (e : option hcl_expr) (ctx : EvalContext) (source : SourceRef)
    (set : hcl_expr -> SourceRef -> string * bool -> ArtifactSource -> ArtifactSource) (s : ArtifactSource) : P ArtifactSource :=
  match e with
  | None => Ok s
  | Some e => value ← evaluateComponentArtifactString e ctx source; Ok (set e source value s)
  end.
Definition evaluate_source (ctx : EvalContext) (s : ArtifactSource) : P ArtifactSource :=
  s ← evaluate_again (as_URLExpr s) ctx (src_URLSource (as_Value s)) set_url s;
  evaluate_again (as_SHA256Expr s) ctx (src_SHA256Source (as_Value s)) set_sha256 s.

(** The [Sources] of the evaluated component; its other fields stay. *)
Definition EvaluateComponentArtifactSources (sources : gmap string ArtifactSource) (ctx : EvalContext)
  : P (gmap string ArtifactSource) :=
  fold_res (fun out p => s ← evaluate_source ctx p.2; Ok (<[p.1 := s]> out)) (sorted_entries sources) ∅.

Definition extract_attr (file path : string) (ctx : EvalContext) (name : string) (attr : Attribute)
    (e : ComponentArtifactExtractSpec) : option (P ComponentArtifactExtractSpec) :=
  let text := parseStringAttribute file (path +:+ "." +:+ name) attr ctx in
  if bool_decide (name = "format") then store text (fun v =>
    {| ext_Format := v; ext_StripComponents := ext_StripComponents e; ext_Include := ext_Include e; ext_Source := ext_Source e |})
  else if bool_decide (name = "strip_components") then store (parseIntAttribute file (path +:+ "." +:+ name) attr ctx) (fun v =>
    {| ext_Format := ext_Format e; ext_StripComponents := v; ext_Include := ext_Include e; ext_Source := ext_Source e |})
  else if bool_decide (name = "include") then store text (fun v =>
    {| ext_Format := ext_Format e; ext_StripComponents := ext_StripComponents e; ext_Include := v; ext_Source := ext_Source e |})
  else None.

Definition parseComponentExtractBlock (file componentPath : string) (block : Block) (ctx : EvalContext)
  : P ComponentArtifactExtractSpec :=
  let path := componentPath +:+ ".extract" in
  _ ← no_labels file path block;
  _ ← no_nested file path block;
  fold_attrs file path (extract_attr file path ctx) (attributes block)
    {| ext_Format := ""; ext_StripComponents := 0; ext_Include := ""; ext_Source := blockSource file path block |}.

Definition build_attr (file path : string) (ctx : EvalContext) (name : string) (attr : Attribute)
    (b : ComponentArtifactBuildSpec) : option (P ComponentArtifactBuildSpec) :=
  let text := parseStringAttribute file (path +:+ "." +:+ name) attr ctx in
  if bool_decide (name = "commands") then store (parseCommandMatrixAttribute file (path +:+ "." +:+ name) attr ctx) (fun v =>
    {| bld_Commands := v; bld_Packages := bld_Packages b; bld_WorkingDir := bld_WorkingDir b; bld_Output := bld_Output b;
       bld_SourceName := bld_SourceName b; bld_Source := bld_Source b |})
  else if bool_decide (name = "packages") then store (parseStringListAttribute file (path +:+ "." +:+ name) attr ctx) (fun v =>
    {| bld_Commands := bld_Commands b; bld_Packages := v; bld_WorkingDir := bld_WorkingDir b; bld_Output := bld_Output b;
       bld_SourceName := bld_SourceName b; bld_Source := bld_Source b |})
  else if bool_decide (name = "working_dir") then store text (fun v =>
    {| bld_Commands := bld_Commands b; bld_Packages := bld_Packages b; bld_WorkingDir := v; bld_Output := bld_Output b;
       bld_SourceName := bld_SourceName b; bld_Source := bld_Source b |})
  else if bool_decide (name = "output") then store text (fun v =>
    {| bld_Commands := bld_Commands b; bld_Packages := bld_Packages b; bld_WorkingDir := bld_WorkingDir b; bld_Output := v;
       bld_SourceName := bld_SourceName b; bld_Source := bld_Source b |})
  else if bool_decide (name = "source_name") then store text (fun v =>
    {| bld_Commands := bld_Commands b; bld_Packages := bld_Packages b; bld_WorkingDir := bld_WorkingDir b; bld_Output := bld_Output b;
       bld_SourceName := v; bld_Source := bld_Source b |})
  else None.

Definition parseComponentBuildBlock (file componentPath : string) (block : Block) (ctx : EvalContext)
  : P ComponentArtifactBuildSpec :=
  let path := componentPath +:+ ".build" in
  _ ← no_labels file path block;
  _ ← no_nested file path block;
  fold_attrs file path (build_attr file path ctx) (attributes block)
    {| bld_Commands := []; bld_Packages := []; bld_WorkingDir := ""; bld_Output := ""; bld_SourceName := "";
       bld_Source := blockSource file path block |}.

Definition install_attr (file path : string) (ctx : EvalContext) (name : string) (attr : Attribute)
    (i : ComponentArtifactInstallSpec) : option (P ComponentArtifactInstallSpec) :=
  let text := parseStringAttribute file (path +:+ "." +:+ name) attr ctx in
  if bool_decide (name = "path") then store text (fun v =>
    {| ins_Path := v; ins_Owner := ins_Owner i; ins_Group := ins_Group i; ins_Mode := ins_Mode i; ins_Source := ins_Source i |})
  else if bool_decide (name = "owner") then store text (fun v =>
    {| ins_Path := ins_Path i; ins_Owner := v; ins_Group := ins_Group i; ins_Mode := ins_Mode i; ins_Source := ins_Source i |})
  else if bool_decide (name = "group") then store text (fun v =>
    {| ins_Path := ins_Path i; ins_Owner := ins_Owner i; ins_Group := v; ins_Mode := ins_Mode i; ins_Source := ins_Source i |})
  else if bool_decide (name = "mode") then store text (fun v =>
    {| ins_Path := ins_Path i; ins_Owner := ins_Owner i; ins_Group := ins_Group i; ins_Mode := v; ins_Source := ins_Source i |})
  else None.

Definition parseComponentInstallBlock (file componentPath : string) (block : Block) (ctx : EvalContext)
  : P ComponentArtifactInstallSpec :=
  let path := componentPath +:+ ".install" in
  _ ← no_labels file path block;
  _ ← no_nested file path block;
  fold_attrs file path (install_attr file path ctx) (attributes block)
    {| ins_Path := ""; ins_Owner := ""; ins_Group := ""; ins_Mode := ""; ins_Source := blockSource file path block |}.

(** ** Components *)

(** What the blocks of a component fill in. *)
Record component_parts := {
  cp_Inputs : gmap string ComponentInput;
  cp_Scripts : gmap string ScriptDecl;
  cp_Sources : gmap string ArtifactSource;
  cp_Extract : option ComponentArtifactExtractSpec;
  cp_Build : option ComponentArtifactBuildSpec;
  cp_Install : option ComponentArtifactInstallSpec;
}.
Definition no_parts : component_parts :=
  {| cp_Inputs := ∅; cp_Scripts := ∅; cp_Sources := ∅; cp_Extract := None; cp_Build := None; cp_Install := None |}.

Definition component_attr (file path : string) (ctx : EvalContext) (name : string) (attr : Attribute) (acc : string * string)
  : option (P (string * string)) :=
  let text := parseStringAttribute file (path +:+ "." +:+ name) attr ctx in
  if bool_decide (name = "type") then store text (fun v => (v, acc.2))
  else if bool_decide (name = "version") then store text (fun v => (acc.1, v))
  else None.

Definition component_part (file path : string) (ctx : EvalContext) (c : component_parts) (child : Block) : P component_parts :=
  let typ := bl_Type child in
  if bool_decide (typ = "input") then
    input ← parseComponentInputBlock file path child ctx;
    inputs ← add_named "component input" (cin_Name input) cin_Source input (cp_Inputs c);
    Ok {| cp_Inputs := inputs; cp_Scripts := cp_Scripts c; cp_Sources := cp_Sources c; cp_Extract := cp_Extract c;
          cp_Build := cp_Build c; cp_Install := cp_Install c |}
  else if bool_decide (typ = "script") then
    script ← parseComponentScriptBlock file path child;
    scripts ← add_named "component script" (sd_Name script) sd_Source script (cp_Scripts c);
    Ok {| cp_Inputs := cp_Inputs c; cp_Scripts := scripts; cp_Sources := cp_Sources c; cp_Extract := cp_Extract c;
          cp_Build := cp_Build c; cp_Install := cp_Install c |}
  else if bool_decide (typ = "source") then
    source ← parseComponentSourceBlock file path child ctx;
    sources ← add_named "component source" (src_Architecture (as_Value source)) (fun s => src_Source (as_Value s)) source (cp_Sources c);
    Ok {| cp_Inputs := cp_Inputs c; cp_Scripts := cp_Scripts c; cp_Sources := sources; cp_Extract := cp_Extract c;
          cp_Build := cp_Build c; cp_Install := cp_Install c |}
  else if bool_decide (typ = "extract") then
    extract ← set_once file path typ child (cp_Extract c) (parseComponentExtractBlock file path child ctx);
    Ok {| cp_Inputs := cp_Inputs c; cp_Scripts := cp_Scripts c; cp_Sources := cp_Sources c; cp_Extract := extract;
          cp_Build := cp_Build c; cp_Install := cp_Install c |}
  else if bool_decide (typ = "build") then
    build ← set_once file path typ child (cp_Build c) (parseComponentBuildBlock file path child ctx);
    Ok {| cp_Inputs := cp_Inputs c; cp_Scripts := cp_Scripts c; cp_Sources := cp_Sources c; cp_Extract := cp_Extract c;
          cp_Build := build; cp_Install := cp_Install c |}
  else if bool_decide (typ = "install") then
    install ← set_once file path typ child (cp_Install c) (parseComponentInstallBlock file path child ctx);
    Ok {| cp_Inputs := cp_Inputs c; cp_Scripts := cp_Scripts c; cp_Sources := cp_Sources c; cp_Extract := cp_Extract c;
          cp_Build := cp_Build c; cp_Install := install |}
  else if bool_decide (typ ∈ component_sections) then Ok c
  else Err (unsupported_block file path child).

Definition parseComponent (file : string) (block : Block) (ctx : EvalContext) : P Component :=
  header ← parseLabeledHeader file "component" block;
  let path := src_Path header.1 in
  attrs ← fold_attrs file path (component_attr file path ctx) (attributes block) ("", "");
  parts ← fold_res (component_part file path ctx) (blocks block) no_parts;
  Ok {| cm_Name := header.2; cm_Source := header.1; cm_ModuleDir := filepath_Dir file; cm_Body := bl_Body block;
        cm_Inputs := cp_Inputs parts; cm_Scripts := cp_Scripts parts; cm_Type := attrs.1; cm_Version := attrs.2;
        cm_Sources := cp_Sources parts; cm_Extract := cp_Extract parts; cm_Build := cp_Build parts;
        cm_Install := cp_Install parts |}.

(** ** Profiles and hosts *)

(** [root.<name>] *)
Definition named_reference (root : string) (e : hcl_expr) : option string :=
  match hcl_AbsTraversal e with
  | Some [TraverseRoot r; TraverseAttr name] =>
      if bool_decide (r = root) && negb (bool_decide (name = "")) then Some name else None
  | _ => None
  end.

Definition parseProfileRefs (file : string) (e : hcl_expr) : P (list string) :=
  items ← of_option (Plain "must be a list of profile references") (hcl_ExprList e);
  mapi_res (fun _ item => of_option (At file (hcl_Line item) "import must be profile.<name>") (named_reference "profile" item)) 0 items.

Definition parseComponentTraversal (file : string) (e : hcl_expr) : P string :=
  of_option (At file (hcl_Line e) "component reference must be component.<name>") (named_reference "component" e).

Definition parseComponentRefs (file path : string) (e : hcl_expr) : P (list ComponentInstance) :=
  items ← of_option (Plain "must be a list of component references") (hcl_ExprList e);
  mapi_res (fun i item =>
    template ← parseComponentTraversal file item;
    Ok {| cin_InstanceName := template; cin_Template := template; cin_Inputs := ∅; cin_StagingRoot := None;
          cin_InstanceSource := source_at file (hcl_Line item) (item_path path i) |}) 0 items.

Definition staging_root (file path : string) (ctx : EvalContext) (attr : Attribute) : P (string * SourceRef) :=
  let fail message := At file (at_Line attr) (path +:+ ".staging_root " +:+ message) in
  value ← eval_attr file path ctx "staging_root" attr;
  _ ← guard_or (negb (ContainsEphemeral value || ContainsSensitive value))
        (fail "does not accept sensitive or ephemeral values");
  text ← of_option (fail "must be a string") (StringValue value);
  Ok (text, source_at file (at_Line attr) (path +:+ ".staging_root")).

Definition parseComponentInstanceBlock (file path : string) (block : Block) (ctx : EvalContext) : P ComponentInstance :=
  header ← parseLabeledHeader file (path +:+ ".component") block;
  let path := object_path path "component" header.2 in
  _ ← no_nested file path block;
  _ ← check_attrs file path ["source"; "inputs"; "staging_root"] block;
  source ← required_attr file path "source" block;
  template ← parseComponentTraversal file (at_Expr source);
  inputs ← optional_attr (attributes block) "inputs" (fun attr =>
    value ← eval_attr file path ctx "inputs" attr;
    _ ← guard_or (IsMap value) (At file (at_Line attr) (path +:+ ".inputs must be a map"));
    Ok (v_Map value));
  staging ← optional_attr (attributes block) "staging_root" (staging_root file path ctx);
  Ok {| cin_InstanceName := header.2; cin_Template := template; cin_Inputs := default ∅ inputs; cin_StagingRoot := staging;
        cin_InstanceSource := blockSource file path block |}.

Definition host_sections : list string :=
  ["ssh"; "state"; "staging"; "platform"; "system"; "kernel"; "packages"; "apt"; "files"; "secrets"; "directories"; "groups";
   "users"; "systemd"; "services"; "nftables"].

(** [imports], [components], [values] and [asserts]. *)
Record host_parts := {
  hp_Imports : list string;
  hp_Components : list ComponentInstance;
  hp_Values : gmap string Value;
  hp_Asserts : list Validation;
}.
Definition no_host_parts : host_parts := {| hp_Imports := []; hp_Components := []; hp_Values := ∅; hp_Asserts := [] |}.

Section host_like.
Variable file path : string.
Variable ctx : EvalContext.
Variable allowComponents : bool.

Definition host_only (line : Z) (what : string) : P unit :=
  guard_or allowComponents (ShapeError file line (path +:+ "." +:+ what +:+ " is host-only and cannot be declared in profile")).

Definition host_attr (name : string) (attr : Attribute) (h : host_parts) : option (P host_parts) :=
  let within := Within file (at_Line attr) (path +:+ "." +:+ name) in
  if bool_decide (name = "imports") then
    store (map_err within (parseProfileRefs file (at_Expr attr))) (fun refs =>
      {| hp_Imports := refs; hp_Components := hp_Components h; hp_Values := hp_Values h; hp_Asserts := hp_Asserts h |})
  else if bool_decide (name = "components") then
    store (_ ← host_only (at_Line attr) "components";
           map_err within (parseComponentRefs file (path +:+ ".components") (at_Expr attr))) (fun refs =>
      {| hp_Imports := hp_Imports h; hp_Components := hp_Components h ++ refs; hp_Values := hp_Values h;
         hp_Asserts := hp_Asserts h |})
  else None.

(** The case of [docker] differs in the reader of the block only. *)
Definition host_section (block : Block) : P Value :=
  if bool_decide (bl_Type block = "docker") then parseDockerBlock file (path +:+ ".docker") block ctx
  else parseDomainBlock file (path +:+ "." +:+ bl_Type block) block ctx.

Definition host_part (h : host_parts) (block : Block) : P host_parts :=
  let typ := bl_Type block in
  if bool_decide (typ ∈ host_sections \/ typ = "docker") then
    _ ← no_labels file typ block;
    values ← read_once file path typ block (hp_Values h) (host_section block);
    Ok {| hp_Imports := hp_Imports h; hp_Components := hp_Components h; hp_Values := values; hp_Asserts := hp_Asserts h |}
  else if bool_decide (typ = "component") then
    _ ← host_only (bl_Line block) "component";
    instance ← parseComponentInstanceBlock file path block ctx;
    Ok {| hp_Imports := hp_Imports h; hp_Components := hp_Components h ++ [instance]; hp_Values := hp_Values h;
          hp_Asserts := hp_Asserts h |}
  else if bool_decide (typ = "assert") then
    _ ← no_labels file "assert" block;
    assert ← parseAssertBlock file (item_path (path +:+ ".assert") (length (hp_Asserts h))) block ctx;
    Ok {| hp_Imports := hp_Imports h; hp_Components := hp_Components h; hp_Values := hp_Values h;
          hp_Asserts := hp_Asserts h ++ [assert] |}
  else Err (unsupported_block file path block).

Definition parseHostLikeBody (body : Body) : P (host_parts * Value) :=
  h ← fold_attrs file path host_attr (bd_Attributes body) no_host_parts;
  h ← fold_res host_part (bd_Blocks body) h;
  Ok (h, MapValue (hp_Values h) (source_at file (bd_Line body) path)).
End host_like.

Definition host_only_fields : list (string * list string) :=
  [("platform", ["distribution"; "version"; "architecture"; "codename"]); ("system", ["hostname"; "architecture"; "codename"])].

Definition no_field (profile : SourceRef) (section : Value) (name : string) : P unit :=
  match v_Map section !! name with
  | Some value =>
      Err (At (src_File (v_Source value)) (src_Line (v_Source value))
             (src_Path (v_Source value) +:+ " is host-only and cannot be declared in profile " +:+ src_Path profile))
  | None => Ok tt
  end.

Definition validateProfileBody (profile : SourceRef) (body : Value) : P unit :=
  fold_res (fun _ p =>
    match v_Map body !! p.1 with
    | Some section => fold_res (fun _ => no_field profile section) p.2 tt
    | None => Ok tt
    end) host_only_fields tt.

Definition parseProfile (file : string) (block : Block) (ctx : EvalContext) : P (Profile Validation) :=
  header ← parseLabeledHeader file "profile" block;
  parts ← parseHostLikeBody file (src_Path header.1) ctx false (bl_Body block);
  _ ← validateProfileBody header.1 parts.2;
  Ok {| prof_Name := header.2; prof_Source := header.1; prof_Imports := hp_Imports parts.1; prof_Body := parts.2;
        prof_Asserts := hp_Asserts parts.1 |}.

Definition parseHost (file : string) (block : Block) (ctx : EvalContext) : P HostDecl :=
  header ← parseLabeledHeader file "host" block;
  parts ← parseHostLikeBody file (src_Path header.1) ctx true (bl_Body block);
  Ok {| hd_Host := {| hst_Name := header.2; hst_Source := header.1; hst_Imports := hp_Imports parts.1; hst_Body := parts.2;
                      hst_Asserts := hp_Asserts parts.1 |};
        hd_Components := hp_Components parts.1 |}.

(** ** Moved blocks: [moved.go] *)

Definition parseMovedComponentTraversal (file endpoint : string) (e : hcl_expr) : P string :=
  of_option (At file (hcl_Line e) ("moved." +:+ endpoint +:+ " must be a static component.<name> traversal"))
    (named_reference "component" e).

(** The first unsupported attribute by name. *)
Definition moved_unsupported (block : Block) : option (string * Attribute) :=
  head (filter (fun p => p.1 ∉ ["from"; "to"]) (sorted_entries (attributes block))).

Definition parseMovedBlock (file : string) (block : Block) : P Moved :=
  _ ← no_labels file "moved" block;
  _ ← match blocks block with
      | [] => Ok tt
      | nested :: _ => Err (ShapeError file (bl_Line nested) "moved block does not support nested blocks")
      end;
  _ ← match moved_unsupported block with
      | Some (name, attr) => Err (unsupported_attribute file "moved" name attr)
      | None => Ok tt
      end;
  fromAttr ← required_attr file "moved" "from" block;
  toAttr ← required_attr file "moved" "to" block;
  from ← parseMovedComponentTraversal file "from" (at_Expr fromAttr);
  to ← parseMovedComponentTraversal file "to" (at_Expr toAttr);
  let path := "moved[component." +:+ from +:+ "]" in
  Ok {| moved_From := from; moved_To := to; moved_Source := blockSource file path block;
        moved_FromSource := source_at file (at_Line fromAttr) (path +:+ ".from");
        moved_ToSource := source_at file (at_Line toAttr) (path +:+ ".to") |}.

End parse.
