(* ===== verification/ParseFiles.v ===== *)
(** * Whole configurations: [ParseFilesWithOptions], [parser/validation.go] and variable files

    Reading the files of a configuration composes the parts of the parser: the
    locals twice, the variables, their values and validations, the top-level
    blocks and the moved blocks.  The first half of the file holds the
    definitions; the second shows what an accepted configuration guarantees. *)
From S2P Require Import Prelude Sha256 GoValue GoStrings IR Values InputType Merge Variables MovedDecl ComponentSpecs Hcl Parse Locals ParseConfig.

(** ** Validations of variables: [validation.go] *)

Section validation.
Context `{!HCL}.

(** The library's [RawEquals] and its set of strings. *)
Variable RawEquals : cty -> cty -> bool.
Variable SetOfStrings : list string -> cty.

Definition validationStartsWithFunction (str prefix : cty) : bool := strings_HasPrefix (cty_AsString str) (cty_AsString prefix).
Definition validationEndsWithFunction (str suffix : cty) : bool := strings_HasSuffix (cty_AsString str) (cty_AsString suffix).

Definition usable (v : cty) : bool := cty_IsKnown v && negb (cty_IsNull v).
Definition is_bool (v : cty) : bool := match cty_Type v with CtyBool => true | _ => false end.
(** A tuple, list or set. *)
Definition is_sequence (v : cty) : bool := match cty_Type v with CtySequence | CtySet => true | _ => false end.

(** The checks that the functions on collections start with. *)
Definition collection_items (fn what : string) (collection : cty) : result string (list cty) :=
  let collection := cty_UnmarkDeep collection in
  _ ← guard_or (usable collection) (fn +:+ "() " +:+ what +:+ " must be known and non-null");
  _ ← guard_or (is_sequence collection) (fn +:+ "() " +:+ what +:+ " must be a list, tuple, or set");
  Ok ((fun p => cty_UnmarkDeep p.2) <$> cty_Elements collection).

(** It stops at the first entry that settles the answer. *)
Fixpoint bool_collection (name : string) (all : bool) (items : list cty) : result string bool :=
  match items with
  | [] => Ok all
  | item :: items =>
      _ ← guard_or (usable item && is_bool item) (name +:+ "() entries must be booleans");
      if Bool.eqb (cty_True item) all then bool_collection name all items else Ok (negb all)
  end.
Definition validationBoolCollectionFunction (name : string) (all : bool) (collection : cty) : result string bool :=
  items ← collection_items name "collection" collection; bool_collection name all items.
Definition validationAllTrueFunction : cty -> result string bool := validationBoolCollectionFunction "alltrue" true.
Definition validationAnyTrueFunction : cty -> result string bool := validationBoolCollectionFunction "anytrue" false.

Definition validationContainsFunction (collection needle : cty) : result string bool :=
  items ← collection_items "contains" "collection" collection;
  Ok (existsb (fun item => RawEquals item (cty_UnmarkDeep needle)) items).

Definition set_entry (item : cty) : result string string :=
  _ ← guard_or (usable item) "toset() entries must be known and non-null";
  converted ← map_err (fun text => "toset() entries must be convertible to string: " +:+ text) (cty_ConvertString item);
  Ok (cty_AsString converted).
Definition validationToSetFunction (value : cty) : result string cty :=
  items ← collection_items "toset" "argument" value;
  keys ← mapi_res (fun _ => set_entry) 0 items;
  Ok (SetOfStrings (dedup keys)).

Definition validateVariableValidationReferences (name : string) (validation : Validation) : P unit :=
  fold_res (fun _ t =>
    match tr_steps t with
    | TraverseRoot root :: rest =>
        guard_or (bool_decide (root = "var") && bool_decide (head rest ≫= (fun s => match s with TraverseAttr n => Some n | _ => None end) = Some name))
          (AtSource (vl_ConditionSource validation) ("variable validation can only read var." +:+ name))
    | _ => Ok tt
    end) (hcl_Variables (vl_Condition validation)) tt.

Definition evaluate_validation (variable : Variable_) (vars : gmap string cty) (i : nat) (validation : Validation) : P unit :=
  let name := cin_Name (vr_Input variable) in
  let fail := AtSource (vl_ConditionSource validation) in
  _ ← validateVariableValidationReferences name validation;
  result ← map_err (fun text => fail ("variable validation condition: " +:+ text))
             (hcl_Value ValidationFunctions vars (vl_Condition validation));
  let result := cty_UnmarkDeep result in
  _ ← guard_or (usable result && is_bool result) (fail "variable validation condition must evaluate to a boolean");
  guard_or (cty_True result)
    (AtSource (source_at (src_File (vl_Source validation)) (src_Line (vl_Source validation))
                 (item_path (src_Path (cin_Source (vr_Input variable)) +:+ ".validation") i))
       ("validation failed for variable " +:+ quoted name +:+ ": " +:+ vl_Message validation)).

Definition EvaluateVariableValidations (variable : Variable_) (value : Value) : P unit :=
  let name := cin_Name (vr_Input variable) in
  match cin_Validations (vr_Input variable) with
  | [] => Ok tt
  | validations =>
      converted ← map_err (fun cause => Prefixed (position (v_Source value) +:+ ":" +:+ src_Path (v_Source value)
                                                   +:+ ": variable " +:+ quoted name +:+ ": ") cause) (ToCty value);
      let vars := {["var" := cty_ObjectVal {[name := cty_UnmarkDeep converted]}]} in
      _ ← mapi_res (evaluate_validation variable vars) 0 validations;
      Ok tt
  end.

End validation.

(** ** Configurations *)

Record Config `{!HCL} := {
  cf_Files : list string;
  cf_Locals : gmap string Value;
  cf_localDefinitions : gmap string localDefinition;
  cf_Variables : gmap string Variable_;
  cf_VariableValues : gmap string Value;
  cf_ExplicitVariableValues : gset string;
  cf_Profiles : gmap string (Profile Validation);
  cf_Hosts : gmap string HostDecl;
  cf_Components : gmap string Component;
  cf_Scripts : gmap string ScriptDecl;
  cf_Moves : list Moved;
}.

Inductive config_error `{!HCL} :=
| InParse (e : parse_error)
| InLocals (e : local_error)
| InVariables (e : variable_error)
| InMoved (e : moved_error).

(** What the top-level blocks fill in. *)
Record top_level `{!HCL} := {
  tl_Profiles : gmap string (Profile Validation);
  tl_Hosts : gmap string HostDecl;
  tl_Components : gmap string Component;
  tl_Scripts : gmap string ScriptDecl;
  tl_Moves : list Moved;
}.

Section config.
Context `{!HCL} {order : AttrOrder}.

Definition local_entries (file : string) (block : Block) : list (string * localDefinition) :=
  (fun p => (p.1, {| ld_Name := p.1; ld_Expr := at_Expr p.2; ld_Source := source_at file (at_Line p.2) ("local." +:+ p.1);
                     ld_ModuleDir := filepath_Dir file |})) <$> sorted_entries (attributes block).

(** A later definition of a name overrides an earlier one. *)
Definition collect_block (file : string) (definitions : gmap string localDefinition) (block : Block)
  : P (gmap string localDefinition) :=
  if bool_decide (bl_Type block = "locals") then
    _ ← no_labels file "locals" block;
    _ ← guard_or (bool_decide (blocks block = [])) (ShapeError file (bl_Line block) "locals block does not support nested blocks");
    Ok (fold_left (fun definitions p => <[p.1 := p.2]> definitions) (local_entries file block) definitions)
  else Ok definitions.
Definition collectLocals (definitions : gmap string localDefinition) (f : string * Body) : P (gmap string localDefinition) :=
  fold_res (collect_block f.1) (bd_Blocks f.2) definitions.

Definition variable_block (file : string) (ctx : EvalContext) (variables : gmap string Variable_) (block : Block)
  : P (gmap string Variable_) :=
  if bool_decide (bl_Type block = "variable") then
    variable ← parseVariable file block ctx;
    add_named "variable" (cin_Name (vr_Input variable)) (fun v => cin_Source (vr_Input v)) variable variables
  else Ok variables.
Definition file_context (Locals : gmap string Value) (Variables : gmap string cty) (file : string) : EvalContext :=
  {| ec_ModuleDir := filepath_Dir file; ec_Locals := Locals; ec_Variables := Variables;
     ec_RestrictVariableDefaultReferences := false |}.
Definition parseVariables (Locals : gmap string Value) (variables : gmap string Variable_) (f : string * Body)
  : P (gmap string Variable_) :=
  fold_res (variable_block f.1 (file_context Locals ∅ f.1)) (bd_Blocks f.2) variables.

(** The fields that the resolution of values reads. *)
Definition variable_decl (v : Variable_) : VariableDecl :=
  {| var_Name := cin_Name (vr_Input v); var_TypeSpec := cin_TypeSpec (vr_Input v); var_Default := cin_Default (vr_Input v);
     var_Sensitive := cin_Sensitive (vr_Input v); var_Nullable := cin_Nullable (vr_Input v);
     var_Ephemeral := vr_Ephemeral v; var_Source := cin_Source (vr_Input v) |}.

Definition validateVariableValues (variables : gmap string Variable_) (values : gmap string Value) : P unit :=
  fold_res (fun _ name =>
    match variables !! name, values !! name with
    | Some variable, Some value => EvaluateVariableValidations variable value
    | _, _ => Ok tt
    end) (sorted_keys variables) tt.

Definition evalContextForProgram (Locals VariableValues : gmap string Value) (file : string) : result local_error EvalContext :=
  namespace ← variableNamespaceValue VariableValues;
  Ok (file_context Locals {["var" := namespace]} file).

Definition top_block (file : string) (ctx : EvalContext) (t : top_level) (block : Block) : P top_level :=
  let typ := bl_Type block in
  if bool_decide (typ ∈ ["locals"; "variable"]) then Ok t
  else if bool_decide (typ = "profile") then
    profile ← parseProfile file block ctx;
    profiles ← add_named "profile" (prof_Name profile) prof_Source profile (tl_Profiles t);
    Ok {| tl_Profiles := profiles; tl_Hosts := tl_Hosts t; tl_Components := tl_Components t; tl_Scripts := tl_Scripts t;
          tl_Moves := tl_Moves t |}
  else if bool_decide (typ = "host") then
    host ← parseHost file block ctx;
    hosts ← add_named "host" (hst_Name (hd_Host host)) (fun h => hst_Source (hd_Host h)) host (tl_Hosts t);
    Ok {| tl_Profiles := tl_Profiles t; tl_Hosts := hosts; tl_Components := tl_Components t; tl_Scripts := tl_Scripts t;
          tl_Moves := tl_Moves t |}
  else if bool_decide (typ = "component") then
    component ← parseComponent file block ctx;
    components ← add_named "component" (cm_Name component) cm_Source component (tl_Components t);
    Ok {| tl_Profiles := tl_Profiles t; tl_Hosts := tl_Hosts t; tl_Components := components; tl_Scripts := tl_Scripts t;
          tl_Moves := tl_Moves t |}
  else if bool_decide (typ = "script") then
    script ← parseRootScriptBlock file block;
    scripts ← add_named "root script" (sd_Name script) sd_Source script (tl_Scripts t);
    Ok {| tl_Profiles := tl_Profiles t; tl_Hosts := tl_Hosts t; tl_Components := tl_Components t; tl_Scripts := scripts;
          tl_Moves := tl_Moves t |}
  else if bool_decide (typ = "moved") then
    move ← parseMovedBlock file block;
    Ok {| tl_Profiles := tl_Profiles t; tl_Hosts := tl_Hosts t; tl_Components := tl_Components t; tl_Scripts := tl_Scripts t;
          tl_Moves := tl_Moves t ++ [move] |}
  else Err (At file (bl_Line block) ("unknown top-level block " +:+ quoted typ)).

Definition parseTopLevel (Locals VariableValues : gmap string Value) (t : top_level) (f : string * Body)
  : result config_error top_level :=
  ctx ← map_err InLocals (evalContextForProgram Locals VariableValues f.1);
  map_err InParse (fold_res (top_block f.1 ctx) (bd_Blocks f.2) t).

Definition no_top_level : top_level :=
  {| tl_Profiles := ∅; tl_Hosts := ∅; tl_Components := ∅; tl_Scripts := ∅; tl_Moves := [] |}.

Definition hclPos (line : Z) : Z := if bool_decide (line <= 0)%Z then 1%Z else line.

Section files.
(** The library's parsers, of a file and of one expression at a position; [inr]
    is a body of another syntax, with its type. *)
Variable ParseHCLFile : string -> result string (Body + string).
Variable ParseExpression : string -> string -> Z -> option hcl_expr.
Variable range_keys : gmap string Value -> list string.
Variable decode_json : string -> option literal.

Definition parse_file (file : string) : P (string * Body) :=
  parsed ← map_err Plain (ParseHCLFile file);
  match parsed with
  | inl body => Ok (file, body)
  | inr typ => Err (Plain (file +:+ ": unsupported HCL body type " +:+ typ))
  end.

(** The last branch of [parseExternalVariableValue]. *)
Definition eval_external (raw : string) (source : SourceRef) : option Value :=
  e ← ParseExpression raw (src_File source) (hclPos (src_Line source));
  match evalValue e {| ec_ModuleDir := ""; ec_Locals := ∅; ec_Variables := ∅; ec_RestrictVariableDefaultReferences := false |}
          source with
  | Ok value => Some value
  | Err _ => None
  end.

Record ParseOptions := {
  po_VariableValues : list ExternalVariableValue;
  po_AllowMissingVariables : bool;
  po_SkipTopLevel : bool;
}.

(** The two stages before and after [SkipTopLevel]. *)
Definition parse_variables (files : list string) (opts : ParseOptions) : result config_error (list (string * Body) * Config) :=
  parsed ← map_err InParse (mapi_res (fun _ => parse_file) 0 files);
  definitions ← map_err InParse (fold_res collectLocals parsed ∅);
  static ← map_err InLocals (evaluateStaticLocals definitions (∅ : gmap string Variable_) ∅);
  variables ← map_err InParse (fold_res (parseVariables static) parsed ∅);
  values ← map_err InVariables
    (resolveVariableValues range_keys decode_json eval_external (variable_decl <$> variables) (po_VariableValues opts)
       (po_AllowMissingVariables opts));
  Ok (parsed,
      {| cf_Files := files; cf_Locals := static; cf_localDefinitions := definitions; cf_Variables := variables;
         cf_VariableValues := values.1; cf_ExplicitVariableValues := values.2; cf_Profiles := ∅; cf_Hosts := ∅;
         cf_Components := ∅; cf_Scripts := ∅; cf_Moves := [] |}).

Definition parse_top_level (parsed : list (string * Body)) (cfg : Config) : result config_error Config :=
  _ ← map_err InParse (validateVariableValues (cf_Variables cfg) (cf_VariableValues cfg));
  locals ← map_err InLocals (evaluateLocals (cf_localDefinitions cfg) (cf_Variables cfg) (cf_VariableValues cfg));
  top ← fold_res (parseTopLevel locals (cf_VariableValues cfg)) parsed no_top_level;
  moves ← map_err InMoved (validateAndSortMoved (tl_Moves top));
  Ok {| cf_Files := cf_Files cfg; cf_Locals := locals; cf_localDefinitions := cf_localDefinitions cfg;
        cf_Variables := cf_Variables cfg; cf_VariableValues := cf_VariableValues cfg;
        cf_ExplicitVariableValues := cf_ExplicitVariableValues cfg; cf_Profiles := tl_Profiles top; cf_Hosts := tl_Hosts top;
        cf_Components := tl_Components top; cf_Scripts := tl_Scripts top; cf_Moves := moves |}.

Definition ParseFilesWithOptions (files : list string) (opts : ParseOptions) : result config_error Config :=
  stage ← parse_variables files opts;
  if po_SkipTopLevel opts then Ok stage.2 else parse_top_level stage.1 stage.2.

(** ** Variable files: [parser/variable.go] *)

Inductive varfile_error :=
| VarFileUnreadable (cause : string)
| VarFile (e : parse_error)
| VarFileJSON (source : SourceRef) (cause : option variable_error)
| VarFileNotObject (source : SourceRef).

Variable ReadFile : string -> result string string.

Definition parsed_value (name : string) (value : Value) (source : SourceRef) : ExternalVariableValue :=
  {| ev_Name := name; ev_Value := ""; ev_ParsedValue := Some value; ev_Source := source; ev_IgnoreUnknown := false |}.

Definition parseHCLVariableFile (path : string) : result varfile_error (list ExternalVariableValue) :=
  f ← map_err VarFile (parse_file path);
  _ ← match bd_Blocks f.2 with
      | [] => Ok tt
      | block :: _ => Err (VarFile (ShapeError path (bl_Line block) "var file does not support blocks"))
      end;
  mapi_res (fun _ p =>
    let source := source_at path (at_Line p.2) ("varfile." +:+ p.1) in
    value ← map_err (fun cause => VarFile (Prefixed (position source +:+ ":" +:+ src_Path source +:+ ": var file value "
                                                       +:+ quoted p.1 +:+ ": ") cause))
              (evalValue (at_Expr p.2) (file_context ∅ ∅ path) source);
    Ok (parsed_value p.1 value source)) 0 (sorted_entries (bd_Attributes f.2)).

Definition parseJSONVariableFile (path : string) : result varfile_error (list ExternalVariableValue) :=
  data ← map_err VarFileUnreadable (ReadFile path);
  let source := source_at path 1 "varfile" in
  value ← map_err (VarFileJSON source) (parseJSONVariableValue decode_json data source);
  _ ← guard_or (IsMap value) (VarFileNotObject source);
  Ok ((fun p => parsed_value p.1 p.2 (v_Source p.2)) <$> sorted_entries (v_Map value)).

Definition ParseVariableFile (path : string) : result varfile_error (list ExternalVariableValue) :=
  if strings_HasSuffix path ".json" then parseJSONVariableFile path else parseHCLVariableFile path.

End files.
End config.

(** ** Declarations by name

    [declared] says what a loop over the blocks of one type leaves in its map:
    one entry for each block, none of the same name, each what its block reads
    to. *)

Section declared.
Context {B A : Type} (read : B -> P A) (name_of : A -> string).

Definition by_name (items : list A) : gmap string A := list_to_map ((fun a => (name_of a, a)) <$> items).
Definition declared (bs : list B) (m : gmap string A) : Prop :=
  exists items, Forall2 (fun b a => read b = Ok a) bs items /\ NoDup (name_of <$> items) /\ m = by_name items.

Lemma by_name_keys items : ((fun a => (name_of a, a)) <$> items).*1 = name_of <$> items.
Proof. by rewrite <- list_fmap_compose. Qed.

Lemma by_name_None items name : by_name items !! name = None <-> name ∉ name_of <$> items.
Proof. unfold by_name. by rewrite <- not_elem_of_list_to_map, by_name_keys. Qed.

Lemma by_name_Some items name a :
  NoDup (name_of <$> items) -> by_name items !! name = Some a <-> name_of a = name /\ a ∈ items.
Proof.
  intros Hnd. unfold by_name. rewrite <- elem_of_list_to_map by (by rewrite by_name_keys).
  rewrite list_elem_of_fmap. naive_solver.
Qed.

Lemma declared_nil : declared [] ∅.
Proof. exists []. split_and!; [constructor..|done]. Qed.
Lemma declared_nil_inv m : declared [] m -> m = ∅.
Proof. by intros (items & ->%Forall2_nil_inv_l & _ & ->). Qed.

Lemma add_named_Ok {C} w name (src : C -> SourceRef) a (m m' : gmap string C) :
  add_named w name src a m = Ok m' <-> m !! name = None /\ m' = <[name := a]> m.
Proof. unfold add_named. destruct (m !! name); naive_solver. Qed.

Lemma declared_snoc (source_of : A -> SourceRef) (what : string) bs b m m' a :
  declared bs m -> read b = Ok a -> add_named what (name_of a) source_of a m = Ok m' -> declared (bs ++ [b]) m'.
Proof.
  intros (items & Hr & Hnd & ->) Hb [Hnew%by_name_None ->]%add_named_Ok. exists (items ++ [a]). split_and!.
  - apply Forall2_app; [done|]. by repeat constructor.
  - rewrite fmap_app. apply NoDup_app. split_and!; [done|set_solver|]. cbn. apply NoDup_singleton.
  - unfold by_name. rewrite fmap_app. cbn. symmetry. apply list_to_map_snoc. by rewrite by_name_keys.
Qed.

Lemma declared_snoc_inv (source_of : A -> SourceRef) (what : string) bs b m' :
  declared (bs ++ [b]) m' ->
  exists m a, declared bs m /\ read b = Ok a /\ add_named what (name_of a) source_of a m = Ok m'.
Proof.
  intros (items & (xs & ys & Hxs & (a & ys' & Ha & Hnil & ->)%Forall2_cons_inv_l & ->)%Forall2_app_inv_l & Hnd & ->).
  apply Forall2_nil_inv_l in Hnil as ->. rewrite fmap_app in Hnd. apply NoDup_app in Hnd as (Hnd & Hnot & _).
  exists (by_name xs), a. split_and!; [by exists xs|done|]. apply add_named_Ok.
  assert (Hfresh : name_of a ∉ name_of <$> xs) by (intros Hin; apply (Hnot _ Hin); cbn; left). split.
  - by apply by_name_None.
  - unfold by_name. rewrite fmap_app. cbn. apply list_to_map_snoc. by rewrite by_name_keys.
Qed.

Lemma declared_perm bs bs' m : bs ≡ₚ bs' -> declared bs m -> declared bs' m.
Proof.
  intros Hp (items & Hr & Hnd & ->).
  destruct (Permutation_Forall2 Hp Hr) as (items' & Hi & Hr').
  exists items'. split_and!; [done|by rewrite <- Hi|]. unfold by_name. apply list_to_map_proper; [by rewrite by_name_keys|].
  by rewrite Hi.
Qed.

End declared.

(** ** The blocks of all files *)

Section blocks.
Context `{!HCL}.

Definition all_blocks (parsed : list (string * Body)) : list (string * Block) :=
  mjoin ((fun f => pair f.1 <$> bd_Blocks f.2) <$> parsed).
Definition of_type (typ : string) (bs : list (string * Block)) : list (string * Block) :=
  filter (fun b => bl_Type b.2 = typ) bs.

Lemma fold_res_fmap {E A C T} (g : A -> C) (f : T -> C -> result E T) l t :
  fold_res f (g <$> l) t = fold_res (fun t a => f t (g a)) l t.
Proof. revert t. induction l as [|a l IH]; intros t; cbn; [done|]. destruct (f t (g a)); cbn; [apply IH|done]. Qed.

Lemma fold_files {E T} (step : string -> T -> Block -> result E T) parsed (t : T) :
  fold_res (fun t f => fold_res (step f.1) (bd_Blocks f.2) t) parsed t
  = fold_res (fun t b => step b.1 t b.2) (all_blocks parsed) t.
Proof.
  revert t. induction parsed as [|f parsed IH]; intros t; [done|]. unfold all_blocks in *. cbn. rewrite fold_res_app.
  rewrite (fold_res_fmap (pair f.1) (fun t b => step b.1 t b.2)). cbn.
  destruct (fold_res (step f.1) (bd_Blocks f.2) t); [apply IH|done].
Qed.

Lemma of_type_snoc typ bs b :
  of_type typ (bs ++ [b]) = if decide (bl_Type b.2 = typ) then of_type typ bs ++ [b] else of_type typ bs.
Proof. unfold of_type. rewrite filter_app, filter_cons, filter_nil. case_decide; [done|by rewrite app_nil_r]. Qed.

Lemma of_type_perm typ bs bs' : bs ≡ₚ bs' -> of_type typ bs ≡ₚ of_type typ bs'.
Proof. intros Hp. unfold of_type. by rewrite Hp. Qed.

Lemma all_blocks_perm parsed parsed' : parsed ≡ₚ parsed' -> all_blocks parsed ≡ₚ all_blocks parsed'.
Proof. intros Hp. unfold all_blocks. by rewrite Hp. Qed.

End blocks.

Section reading.
Context `{!HCL} {order : AttrOrder}.

(** A loop that grows with its list, one block at a time. *)
Lemma fold_snoc {E A T} (f : T -> A -> result E T) l x s t :
  fold_res f (l ++ [x]) s = Ok t <-> exists u, fold_res f l s = Ok u /\ f u x = Ok t.
Proof.
  rewrite fold_res_app. destruct (fold_res f l s) as [u|]; cbn; [|split; [done|by intros (? & ? & _)]]. split.
  - intros Ht. exists u. split; [done|]. by destruct (f u x).
  - by intros (u' & [= <-] & ->).
Qed.

Definition declares_variables (Locals : gmap string Value) (bs : list (string * Block)) : gmap string Variable_ -> Prop :=
  declared (fun b => parseVariable b.1 b.2 (file_context Locals ∅ b.1)) (fun v => cin_Name (vr_Input v))
    (of_type "variable" bs).

Lemma variable_blocks Locals bs m :
  fold_res (fun m b => variable_block b.1 (file_context Locals ∅ b.1) m b.2) bs ∅ = Ok m <-> declares_variables Locals bs m.
Proof.
  unfold declares_variables. revert m. induction bs as [|b bs IH] using rev_ind; intros m.
  { split; [intros [= <-]; apply declared_nil|]. by intros ->%declared_nil_inv. }
  rewrite fold_snoc, of_type_snoc. setoid_rewrite IH. unfold variable_block. split.
  - intros (u & Hu & Hb). case_bool_decide as Ht; [rewrite decide_True by done|rewrite decide_False by done; by simplify_eq].
    apply bind_Ok in Hb as (a & Hr & Ha). by eapply declared_snoc.
  - case_decide as Ht; [|exists m; by rewrite bool_decide_false by done].
    intros (u & a & Hu & Hr & Ha)%(declared_snoc_inv _ _ (fun v => cin_Source (vr_Input v)) "variable").
    exists u. split; [done|]. rewrite bool_decide_true by done. cbn in Hr. rewrite Hr. done.
Qed.

Lemma parseVariables_Ok Locals parsed m :
  fold_res (parseVariables Locals) parsed ∅ = Ok m <-> declares_variables Locals (all_blocks parsed) m.
Proof.
  rewrite <- variable_blocks, <- (fold_files (fun file => variable_block file (file_context Locals ∅ file))). done.
Qed.

Lemma of_type_same typ (bs : list (string * Block)) b : bl_Type b.2 = typ -> of_type typ (bs ++ [b]) = of_type typ bs ++ [b].
Proof. intros Ht. rewrite of_type_snoc. by rewrite decide_True. Qed.
Lemma of_type_other typ (bs : list (string * Block)) b : bl_Type b.2 <> typ -> of_type typ (bs ++ [b]) = of_type typ bs.
Proof. intros Ht. rewrite of_type_snoc. by rewrite decide_False. Qed.

Definition top_types : list string := ["locals"; "variable"; "profile"; "host"; "component"; "script"; "moved"].

(** What the top-level blocks of all files declare, read in the context of
    their file. *)
Record top_declared (ctx : string -> EvalContext) (bs : list (string * Block)) (t : top_level) : Prop := {
  td_types : forall b, b ∈ bs -> bl_Type b.2 ∈ top_types;
  td_profiles : declared (fun b => parseProfile b.1 b.2 (ctx b.1)) prof_Name (of_type "profile" bs) (tl_Profiles t);
  td_hosts : declared (fun b => parseHost b.1 b.2 (ctx b.1)) (fun h => hst_Name (hd_Host h)) (of_type "host" bs) (tl_Hosts t);
  td_components :
    declared (fun b => parseComponent b.1 b.2 (ctx b.1)) cm_Name (of_type "component" bs) (tl_Components t);
  td_scripts : declared (fun b => parseRootScriptBlock b.1 b.2) sd_Name (of_type "script" bs) (tl_Scripts t);
  td_moves : Forall2 (fun b m => parseMovedBlock b.1 b.2 = Ok m) (of_type "moved" bs) (tl_Moves t);
}.

(** The type of the new block decides which of the lists grow. *)
Ltac of_types Ht :=
  repeat first [rewrite of_type_same by exact Ht | rewrite of_type_other by (rewrite Ht; discriminate)].

Lemma types_snoc (bs : list (string * Block)) b :
  (forall x, x ∈ bs -> bl_Type x.2 ∈ top_types) -> bl_Type b.2 ∈ top_types ->
  forall x, x ∈ bs ++ [b] -> bl_Type x.2 ∈ top_types.
Proof. intros Hall Hb x [Hx| ->%list_elem_of_singleton]%elem_of_app; [by apply Hall|done]. Qed.

Lemma top_declared_step ctx bs b u t :
  top_declared ctx bs u -> top_block b.1 (ctx b.1) u b.2 = Ok t -> top_declared ctx (bs ++ [b]) t.
Proof.
  intros [Hty Hp Hh Hc Hs Hm] Hb. unfold top_block in Hb.
  repeat case_bool_decide; try discriminate Hb.
  1:{ injection Hb as <-. match goal with H : _ ∈ _ |- _ => rename H into Ht end.
      split; [apply types_snoc; [done|]; revert Ht; generalize (bl_Type b.2); set_solver|..];
        rewrite of_type_other by (intros Heq; rewrite Heq in Ht; set_solver); done. }
  all: match goal with H : bl_Type _ = _ |- _ => rename H into Ht end.
  all: apply bind_Ok in Hb as (a & Hr & Hb).
  all: try (apply bind_Ok in Hb as (m & Ha & Hb)).
  all: injection Hb as <-.
  all: split; cbn [tl_Profiles tl_Hosts tl_Components tl_Scripts tl_Moves]; of_types Ht; try assumption.
  all: try (apply types_snoc; [done|rewrite Ht; set_solver]).
  all: try (eapply declared_snoc; [eassumption|exact Hr|exact Ha]).
  apply Forall2_app; [done|]. by repeat constructor.
Qed.

(** The new block is of a known type; its declaration is the last of its kind. *)
Ltac of_types_in Ht Hd :=
  repeat first [rewrite of_type_same in Hd by exact Ht | rewrite of_type_other in Hd by (rewrite Ht; discriminate)].

Ltac pick_case Ht :=
  unfold top_block; rewrite Ht, (bool_decide_false (_ ∈ _)) by set_solver;
  repeat (rewrite bool_decide_false by discriminate); rewrite bool_decide_true by done.

Lemma top_declared_snoc ctx bs b t :
  top_declared ctx (bs ++ [b]) t -> exists u, top_declared ctx bs u /\ top_block b.1 (ctx b.1) u b.2 = Ok t.
Proof.
  intros [Hty Hp Hh Hc Hs Hm].
  assert (Hold : forall x, x ∈ bs -> bl_Type x.2 ∈ top_types) by (intros x Hx; apply Hty; set_solver).
  assert (Hb : bl_Type b.2 ∈ top_types) by (apply Hty; set_solver). unfold top_types in Hb.
  repeat (apply elem_of_cons in Hb as [Ht|Hb]); [..|by apply elem_of_nil in Hb].
  all: of_types_in Ht Hp; of_types_in Ht Hh; of_types_in Ht Hc; of_types_in Ht Hs; of_types_in Ht Hm.
  1,2: exists t; split; [by split|]; unfold top_block; by rewrite Ht, bool_decide_true by set_solver.
  - apply (declared_snoc_inv _ _ prof_Source "profile") in Hp as (m & a & Hp & Hr & Ha).
    exists {| tl_Profiles := m; tl_Hosts := tl_Hosts t; tl_Components := tl_Components t; tl_Scripts := tl_Scripts t;
              tl_Moves := tl_Moves t |}. split; [by split|]. pick_case Ht. rewrite Hr, Ok_bind. cbn. rewrite Ha. by destruct t.
  - apply (declared_snoc_inv _ _ (fun h => hst_Source (hd_Host h)) "host") in Hh as (m & a & Hh & Hr & Ha).
    exists {| tl_Profiles := tl_Profiles t; tl_Hosts := m; tl_Components := tl_Components t; tl_Scripts := tl_Scripts t;
              tl_Moves := tl_Moves t |}. split; [by split|]. pick_case Ht. rewrite Hr, Ok_bind. cbn. rewrite Ha. by destruct t.
  - apply (declared_snoc_inv _ _ cm_Source "component") in Hc as (m & a & Hc & Hr & Ha).
    exists {| tl_Profiles := tl_Profiles t; tl_Hosts := tl_Hosts t; tl_Components := m; tl_Scripts := tl_Scripts t;
              tl_Moves := tl_Moves t |}. split; [by split|]. pick_case Ht. rewrite Hr, Ok_bind. cbn. rewrite Ha. by destruct t.
  - apply (declared_snoc_inv _ _ sd_Source "root script") in Hs as (m & a & Hs & Hr & Ha).
    exists {| tl_Profiles := tl_Profiles t; tl_Hosts := tl_Hosts t; tl_Components := tl_Components t; tl_Scripts := m;
              tl_Moves := tl_Moves t |}. split; [by split|]. pick_case Ht. rewrite Hr, Ok_bind. cbn. rewrite Ha. by destruct t.
  - apply Forall2_app_inv_l in Hm as (ms & l & Hm & (a & l' & Hr & ->%Forall2_nil_inv_l & ->)%Forall2_cons_inv_l & Heq).
    exists {| tl_Profiles := tl_Profiles t; tl_Hosts := tl_Hosts t; tl_Components := tl_Components t;
              tl_Scripts := tl_Scripts t; tl_Moves := ms |}.
    split; [by split|]. pick_case Ht. rewrite Hr, Ok_bind. cbn. rewrite <- Heq. by destruct t.
Qed.

Lemma top_blocks ctx bs t :
  fold_res (fun t b => top_block b.1 (ctx b.1) t b.2) bs no_top_level = Ok t <-> top_declared ctx bs t.
Proof.
  revert t. induction bs as [|b bs IH] using rev_ind; intros t.
  - split; [intros [= <-]; split; try apply declared_nil; [by intros ? ?%elem_of_nil|constructor]|].
    destruct t as [p h c sc mv]. intros [_ Hp Hh Hc Hs Hm]. cbn in *. apply declared_nil_inv in Hp, Hh, Hc, Hs. subst.
    apply Forall2_nil_inv_l in Hm. by subst.
  - rewrite fold_snoc. setoid_rewrite IH. split.
    + intros (u & Hu & Hb). by eapply top_declared_step.
    + apply top_declared_snoc.
Qed.

(** The order of the blocks decides nothing but the order of the moves. *)
Lemma top_declared_perm ctx bs bs' t :
  bs ≡ₚ bs' -> top_declared ctx bs t ->
  exists moves, moves ≡ₚ tl_Moves t /\
    top_declared ctx bs' {| tl_Profiles := tl_Profiles t; tl_Hosts := tl_Hosts t; tl_Components := tl_Components t;
                            tl_Scripts := tl_Scripts t; tl_Moves := moves |}.
Proof.
  intros Hp [Hty Hpr Hh Hc Hs Hm].
  destruct (Permutation_Forall2 (of_type_perm "moved" bs bs' Hp) Hm) as (moves & Hmoves & Hm').
  exists moves. split; [done|]. split; cbn; try done.
  - intros b. rewrite <- Hp. apply Hty.
  - by eapply declared_perm; [apply of_type_perm|].
  - by eapply declared_perm; [apply of_type_perm|].
  - by eapply declared_perm; [apply of_type_perm|].
  - by eapply declared_perm; [apply of_type_perm|].
Qed.

Lemma fold_res_map_err {E E' A T} (g : E -> E') (f : T -> A -> result E T) l t :
  fold_res (fun t a => map_err g (f t a)) l t = map_err g (fold_res f l t).
Proof. revert t. induction l as [|a l IH]; intros t; cbn; [done|]. destruct (f t a); cbn; [apply IH|done]. Qed.

(** The context that a file's blocks are read in. *)
Definition program_context (Locals : gmap string Value) (namespace : cty) (file : string) : EvalContext :=
  file_context Locals {["var" := namespace]} file.

Lemma parseTopLevel_Ok Locals values namespace parsed t :
  variableNamespaceValue values = Ok namespace ->
  fold_res (parseTopLevel Locals values) parsed no_top_level = Ok t <->
  top_declared (program_context Locals namespace) (all_blocks parsed) t.
Proof.
  intros Hns. rewrite <- top_blocks, <- (fold_files (fun file => top_block file (program_context Locals namespace file))).
  rewrite <- (map_err_Ok InParse), <- fold_res_map_err. unfold parseTopLevel, evalContextForProgram. rewrite Hns. done.
Qed.

(** ** Locals *)

Definition locals_of (b : string * Block) : list (string * localDefinition) :=
  if decide (bl_Type b.2 = "locals") then local_entries b.1 b.2 else [].
Definition local_definitions (bs : list (string * Block)) : list (string * localDefinition) := bs ≫= locals_of.
Definition local_names (bs : list (string * Block)) : list string := (local_definitions bs).*1.
Definition locals_shape (b : string * Block) : Prop :=
  bl_Type b.2 = "locals" -> bl_Labels b.2 = [] /\ blocks b.2 = [].

Lemma collect_block_Ok file definitions block m :
  collect_block file definitions block = Ok m <->
  locals_shape (file, block) /\ m = fold_left (fun m p => <[p.1 := p.2]> m) (locals_of (file, block)) definitions.
Proof.
  unfold collect_block, locals_shape, locals_of. cbn. case_bool_decide as Ht; [rewrite decide_True by done|rewrite decide_False by done].
  - unfold no_labels. split.
    + intros (? & Hl%guard_or_Ok%bool_decide_eq_true & (? & Hb%guard_or_Ok%bool_decide_eq_true & [= <-])%bind_Ok)%bind_Ok. done.
    + intros (Hs & ->). destruct (Hs Ht) as [-> ->]. done.
  - cbn. split; [by intros [= <-]|by intros (_ & ->)].
Qed.

Lemma collectLocals_Ok parsed m :
  fold_res collectLocals parsed ∅ = Ok m <->
  Forall locals_shape (all_blocks parsed) /\ m = fold_left (fun m p => <[p.1 := p.2]> m) (local_definitions (all_blocks parsed)) ∅.
Proof.
  unfold collectLocals. rewrite (fold_files collect_block). revert m.
  induction (all_blocks parsed) as [|b bs IH] using rev_ind; intros m.
  { cbn. split; [intros [= <-]; by split|by intros [_ ->]]. }
  rewrite fold_snoc, Forall_app, Forall_singleton. setoid_rewrite IH. setoid_rewrite collect_block_Ok. rewrite <- surjective_pairing.
  unfold local_definitions. rewrite bind_app, fold_left_app. cbn. rewrite app_nil_r. naive_solver.
Qed.

(** Without a name defined twice the order of the files is irrelevant. *)
Lemma collectLocals_perm parsed parsed' m :
  parsed ≡ₚ parsed' -> NoDup (local_names (all_blocks parsed)) ->
  fold_res collectLocals parsed ∅ = Ok m -> fold_res collectLocals parsed' ∅ = Ok m.
Proof.
  intros Hp%all_blocks_perm Hnd [Hs ->]%collectLocals_Ok. apply collectLocals_Ok. split; [by rewrite <- Hp|].
  rewrite !(fold_left_insert (fun d => d)), !(right_id_L ∅ (∪)). apply list_to_map_proper.
  - rewrite fmap_reverse, <- list_fmap_compose. cbn. by rewrite reverse_Permutation.
  - unfold local_definitions. by rewrite !reverse_Permutation, Hp.
Qed.

End reading.

(** ** Names and profiles *)

Section names.
Context `{!HCL} {order : AttrOrder}.

Lemma parseLabeledHeader_Ok file typ block source name :
  parseLabeledHeader file typ block = Ok (source, name) -> bl_Labels block = [name] /\ hcl_ValidIdentifier name = true.
Proof.
  unfold parseLabeledHeader, one_label. intros (n & Hn & (? & Hid%guard_or_Ok & [= _ <-])%bind_Ok)%bind_Ok.
  destruct (bl_Labels block) as [|l [|]]; try discriminate Hn. injection Hn as ->. done.
Qed.

(** No field of a host's identity. *)
Definition portable (body : Value) : Prop :=
  forall section names, (section, names) ∈ host_only_fields ->
  forall value, v_Map body !! section = Some value -> forall name, name ∈ names -> v_Map value !! name = None.

Lemma fold_res_unit {E A} (f : A -> result E unit) l u :
  fold_res (fun _ => f) l tt = Ok u -> forall x, x ∈ l -> f x = Ok tt.
Proof.
  induction l as [|y l IH]; cbn; [by intros _ x ?%elem_of_nil|]. destruct (f y) as [[]|] eqn:Hy; [|done].
  intros Hl x [->|Hx]%elem_of_cons; [done|by apply IH].
Qed.

Lemma validateProfileBody_portable profile body u : validateProfileBody profile body = Ok u -> portable body.
Proof.
  intros Hf section names Hin value Hv name Hname. unfold validateProfileBody in Hf.
  eapply fold_res_unit in Hf; [|exact Hin]. cbn in Hf. rewrite Hv in Hf.
  eapply fold_res_unit in Hf; [|exact Hname]. unfold no_field in Hf. by destruct (v_Map value !! name).
Qed.

Lemma parseProfile_Ok file block ctx profile :
  parseProfile file block ctx = Ok profile ->
  bl_Labels block = [prof_Name profile] /\ hcl_ValidIdentifier (prof_Name profile) = true /\ portable (prof_Body profile).
Proof.
  unfold parseProfile. intros ([source name] & [Hl Hid]%parseLabeledHeader_Ok & (parts & _ & (? & Hb & [= <-])%bind_Ok)%bind_Ok)%bind_Ok.
  cbn [prof_Name prof_Body]. split_and!; [done..|]. by eapply validateProfileBody_portable.
Qed.
Lemma parseHost_Ok file block ctx host :
  parseHost file block ctx = Ok host ->
  bl_Labels block = [hst_Name (hd_Host host)] /\ hcl_ValidIdentifier (hst_Name (hd_Host host)) = true.
Proof. unfold parseHost. by intros ([source name] & [Hl Hid]%parseLabeledHeader_Ok & (parts & _ & [= <-])%bind_Ok)%bind_Ok. Qed.
Lemma parseComponent_Ok file block ctx component :
  parseComponent file block ctx = Ok component ->
  bl_Labels block = [cm_Name component] /\ hcl_ValidIdentifier (cm_Name component) = true.
Proof.
  unfold parseComponent.
  by intros ([source name] & [Hl Hid]%parseLabeledHeader_Ok & (? & _ & (parts & _ & [= <-])%bind_Ok)%bind_Ok)%bind_Ok.
Qed.
Lemma parseRootScriptBlock_Ok file block script :
  parseRootScriptBlock file block = Ok script ->
  bl_Labels block = [sd_Name script] /\ hcl_ValidIdentifier (sd_Name script) = true.
Proof.
  unfold parseRootScriptBlock, parseScriptBlock, one_label.
  intros (s & (name & Hn & (? & _ & (? & _ & [= <-])%bind_Ok)%bind_Ok)%bind_Ok & (? & Hid%guard_or_Ok & (? & _ & [= <-])%bind_Ok)%bind_Ok)%bind_Ok.
  cbn in *. destruct (bl_Labels block) as [|l [|]]; try discriminate Hn. by injection Hn as ->.
Qed.

(** An entry of a declared map comes from a block. *)
Lemma declared_lookup {B A} (read : B -> P A) name_of bs m name a :
  declared read name_of bs m -> m !! name = Some a -> name_of a = name /\ exists b, b ∈ bs /\ read b = Ok a.
Proof.
  intros (items & Hr & Hnd & ->) [Hn Ha]%by_name_Some; [|done]. split; [done|].
  apply list_elem_of_lookup in Ha as [i Hi]. destruct (Forall2_lookup_r _ _ _ _ _ Hr Hi) as (b & Hb & Hread).
  exists b. split; [by eapply list_elem_of_lookup_2|done].
Qed.

(** Every name of a configuration is an identifier, the one its entry carries;
    profiles carry no identity of a host. *)
Record named (cfg : Config) : Prop := {
  nm_profile : forall name p, cf_Profiles cfg !! name = Some p ->
    prof_Name p = name /\ hcl_ValidIdentifier name = true /\ portable (prof_Body p);
  nm_host : forall name h, cf_Hosts cfg !! name = Some h -> hst_Name (hd_Host h) = name /\ hcl_ValidIdentifier name = true;
  nm_component : forall name c, cf_Components cfg !! name = Some c -> cm_Name c = name /\ hcl_ValidIdentifier name = true;
  nm_script : forall name s, cf_Scripts cfg !! name = Some s -> sd_Name s = name /\ hcl_ValidIdentifier name = true;
}.

Definition top_of (cfg : Config) (moves : list Moved) : top_level :=
  {| tl_Profiles := cf_Profiles cfg; tl_Hosts := cf_Hosts cfg; tl_Components := cf_Components cfg;
     tl_Scripts := cf_Scripts cfg; tl_Moves := moves |}.

Lemma top_declared_named ctx bs cfg moves : top_declared ctx bs (top_of cfg moves) -> named cfg.
Proof.
  intros [_ Hp Hh Hc Hs _]. cbn in *. split; intros name x Hx.
  - destruct (declared_lookup _ _ _ _ _ _ Hp Hx) as (Hn & b & _ & (_ & ? & ?)%parseProfile_Ok). subst name. by split_and!.
  - destruct (declared_lookup _ _ _ _ _ _ Hh Hx) as (Hn & b & _ & (_ & ?)%parseHost_Ok). subst name. by split_and!.
  - destruct (declared_lookup _ _ _ _ _ _ Hc Hx) as (Hn & b & _ & (_ & ?)%parseComponent_Ok). subst name. by split_and!.
  - destruct (declared_lookup _ _ _ _ _ _ Hs Hx) as (Hn & b & _ & (_ & ?)%parseRootScriptBlock_Ok). subst name. by split_and!.
Qed.

End names.

(** ** The whole run *)

Section run.
Context `{!HCL} {order : AttrOrder}.
Context (ParseHCLFile : string -> result string (Body + string)) (ParseExpression : string -> string -> Z -> option hcl_expr).
Context (range_keys : gmap string Value -> list string) (decode_json : string -> option literal).

Abbreviation parse_variables := (parse_variables ParseHCLFile ParseExpression range_keys decode_json).
Abbreviation ParseFilesWithOptions := (ParseFilesWithOptions ParseHCLFile ParseExpression range_keys decode_json).

(** The bodies of the files, in the order of the files. *)
Definition bodies (files : list string) (parsed : list (string * Body)) : Prop :=
  Forall2 (fun file f => f.1 = file /\ ParseHCLFile file = Ok (inl f.2)) files parsed.

Lemma mapi_res_Forall2 {E A B} (f : A -> result E B) l : forall i out,
  mapi_res (fun _ => f) i l = Ok out <-> Forall2 (fun a b => f a = Ok b) l out.
Proof.
  induction l as [|a l IH]; intros i out; cbn.
  - split; [intros [= <-]; constructor|by intros ->%Forall2_nil_inv_l].
  - split.
    + intros (b & Hb & (bs & Hbs%IH & [= <-])%bind_Ok)%bind_Ok. by constructor.
    + intros (b & bs & Hb & Hbs%(IH (S i)) & ->)%Forall2_cons_inv_l. by rewrite Hb, Ok_bind, Hbs.
Qed.

Lemma parse_files_Ok files parsed :
  mapi_res (fun _ => parse_file ParseHCLFile) 0 files = Ok parsed <-> bodies files parsed.
Proof.
  rewrite mapi_res_Forall2. split; intros Hall; (eapply Forall2_impl; [exact Hall|]); intros file [f body]; unfold parse_file; cbn.
  - destruct (ParseHCLFile file) as [[b|t]|]; cbn; congruence || (intros [= -> ->]; done).
  - intros [-> ->]. done.
Qed.

(** The stages of a run that succeeds. *)
Lemma parse_variables_Ok files opts parsed cfg :
  parse_variables files opts = Ok (parsed, cfg) <->
  exists definitions static variables values,
    bodies files parsed /\ fold_res collectLocals parsed ∅ = Ok definitions /\
    evaluateStaticLocals definitions (∅ : gmap string Variable_) ∅ = Ok static /\
    declares_variables static (all_blocks parsed) variables /\
    resolveVariableValues range_keys decode_json (eval_external ParseExpression) (variable_decl <$> variables)
      (po_VariableValues opts) (po_AllowMissingVariables opts) = Ok values /\
    cfg = {| cf_Files := files; cf_Locals := static; cf_localDefinitions := definitions; cf_Variables := variables;
             cf_VariableValues := values.1; cf_ExplicitVariableValues := values.2; cf_Profiles := ∅; cf_Hosts := ∅;
             cf_Components := ∅; cf_Scripts := ∅; cf_Moves := [] |}.
Proof.
  unfold ParseFiles.parse_variables. split.
  - intros (p & Hp%map_err_Ok%parse_files_Ok & (d & Hd%map_err_Ok & (st & Hst%map_err_Ok &
      (vs & Hvs%map_err_Ok%parseVariables_Ok & (v & Hv%map_err_Ok & [= <- <-])%bind_Ok)%bind_Ok)%bind_Ok)%bind_Ok)%bind_Ok.
    by exists d, st, vs, v.
  - intros (d & st & vs & v & Hp%parse_files_Ok & Hd & Hst & Hvs%parseVariables_Ok & Hv & ->).
    rewrite Hp; cbn [map_err]; rewrite Ok_bind. rewrite Hd; cbn [map_err]; rewrite Ok_bind.
    rewrite Hst; cbn [map_err]; rewrite Ok_bind. rewrite Hvs; cbn [map_err]; rewrite Ok_bind. by rewrite Hv.
Qed.

Definition with_files (files : list string) (cfg : Config) : Config :=
  {| cf_Files := files; cf_Locals := cf_Locals cfg; cf_localDefinitions := cf_localDefinitions cfg;
     cf_Variables := cf_Variables cfg; cf_VariableValues := cf_VariableValues cfg;
     cf_ExplicitVariableValues := cf_ExplicitVariableValues cfg; cf_Profiles := cf_Profiles cfg; cf_Hosts := cf_Hosts cfg;
     cf_Components := cf_Components cfg; cf_Scripts := cf_Scripts cfg; cf_Moves := cf_Moves cfg |}.

Lemma bodies_perm files files' parsed :
  files ≡ₚ files' -> bodies files parsed -> exists parsed', parsed' ≡ₚ parsed /\ bodies files' parsed'.
Proof. intros Hp Hb. destruct (Permutation_Forall2 Hp Hb) as (parsed' & Hperm & Hb'). by exists parsed'. Qed.

Lemma parse_variables_perm files files' opts parsed cfg :
  files ≡ₚ files' -> NoDup (local_names (all_blocks parsed)) -> parse_variables files opts = Ok (parsed, cfg) ->
  exists parsed', parsed' ≡ₚ parsed /\ parse_variables files' opts = Ok (parsed', with_files files' cfg).
Proof.
  intros Hp Hnd (d & st & vs & v & Hb & Hd & Hst & Hvs & Hv & ->)%parse_variables_Ok.
  destruct (bodies_perm _ _ _ Hp Hb) as (parsed' & Hperm & Hb'). exists parsed'. split; [done|].
  apply parse_variables_Ok. exists d, st, vs, v. split_and!; try done.
  - by eapply collectLocals_perm.
  - unfold declares_variables in *. eapply declared_perm; [|done]. apply of_type_perm, all_blocks_perm. by symmetry.
Qed.

Lemma evaluateLocals_namespace {V} definitions (variables : gmap string V) values locals :
  evaluateLocals definitions variables values = Ok locals -> exists namespace, variableNamespaceValue values = Ok namespace.
Proof.
  unfold evaluateLocals, evaluateLocalDefinitions. destruct (variableNamespaceValue values) as [ns|]; [by exists ns|done].
Qed.

(** The second stage, as a relation. *)
Lemma parse_top_level_Ok parsed cfg out :
  parse_top_level parsed cfg = Ok out <->
  validateVariableValues (cf_Variables cfg) (cf_VariableValues cfg) = Ok tt /\
  exists locals namespace t moves,
    evaluateLocals (cf_localDefinitions cfg) (cf_Variables cfg) (cf_VariableValues cfg) = Ok locals /\
    variableNamespaceValue (cf_VariableValues cfg) = Ok namespace /\
    top_declared (program_context locals namespace) (all_blocks parsed) t /\
    validateAndSortMoved (tl_Moves t) = Ok moves /\
    out = {| cf_Files := cf_Files cfg; cf_Locals := locals; cf_localDefinitions := cf_localDefinitions cfg;
             cf_Variables := cf_Variables cfg; cf_VariableValues := cf_VariableValues cfg;
             cf_ExplicitVariableValues := cf_ExplicitVariableValues cfg; cf_Profiles := tl_Profiles t;
             cf_Hosts := tl_Hosts t; cf_Components := tl_Components t; cf_Scripts := tl_Scripts t; cf_Moves := moves |}.
Proof.
  unfold parse_top_level. split.
  - intros ([] & Hval%map_err_Ok & (l & Hl%map_err_Ok & (t & Ht & (m & Hm%map_err_Ok & [= <-])%bind_Ok)%bind_Ok)%bind_Ok)%bind_Ok.
    destruct (evaluateLocals_namespace _ _ _ _ Hl) as [ns Hns]. split; [done|]. exists l, ns, t, m.
    split_and!; try done. by apply (parseTopLevel_Ok l _ ns parsed t Hns).
  - intros (Hval & l & ns & t & m & Hl & Hns & Ht & Hm & ->). rewrite Hval; cbn [map_err]; rewrite Ok_bind. rewrite Hl; cbn [map_err]; rewrite Ok_bind.
    apply (parseTopLevel_Ok l _ ns parsed t Hns) in Ht. rewrite Ht, Ok_bind. by rewrite Hm.
Qed.

(** What a run that reads its top level has checked. *)
Lemma parsed_sound files opts cfg :
  ParseFilesWithOptions files opts = Ok cfg -> po_SkipTopLevel opts = false ->
  named cfg /\ validateVariableValues (cf_Variables cfg) (cf_VariableValues cfg) = Ok tt.
Proof.
  intros ([parsed cfg0] & _ & Ht)%bind_Ok Hskip.
  rewrite Hskip in Ht. apply parse_top_level_Ok in Ht as (Hval & l & ns & t & moves & _ & _ & Ht & _ & ->). split; [|done].
  destruct Ht as [? ? ? ? ? ?]. eapply top_declared_named. split; cbn; eassumption.
Qed.

(** C7: What an accepted configuration is.  Its files parse to bodies whose
    blocks are all of a known type; the variables, profiles, hosts, components
    and root scripts are exactly what the blocks of these types read to, one
    entry per block and no two of a name, in the final locals and values of the
    variables (the variables themselves in the locals that need no variable);
    every name of a profile, host, component or script is an identifier and
    profiles carry nothing of a host's identity; the moves are those of the
    moved blocks, one source and one destination each and without a cycle; and
    every value satisfies the validations of its variable. *)
Theorem ParseFilesWithOptions_spec files opts cfg :
  ParseFilesWithOptions files opts = Ok cfg -> po_SkipTopLevel opts = false ->
  exists parsed static namespace moves,
    bodies files parsed /\
    fold_res collectLocals parsed ∅ = Ok (cf_localDefinitions cfg) /\
    evaluateStaticLocals (cf_localDefinitions cfg) (∅ : gmap string Variable_) ∅ = Ok static /\
    declares_variables static (all_blocks parsed) (cf_Variables cfg) /\
    evaluateLocals (cf_localDefinitions cfg) (cf_Variables cfg) (cf_VariableValues cfg) = Ok (cf_Locals cfg) /\
    variableNamespaceValue (cf_VariableValues cfg) = Ok namespace /\
    top_declared (program_context (cf_Locals cfg) namespace) (all_blocks parsed) (top_of cfg moves) /\
    named cfg /\
    cf_Moves cfg ≡ₚ moves /\ valid_mapping moves /\ acyclic_mapping moves /\
    (forall name variable value, cf_Variables cfg !! name = Some variable -> cf_VariableValues cfg !! name = Some value ->
       EvaluateVariableValidations variable value = Ok tt).
Proof.
  intros ([parsed cfg0] & (d & st & vs & v & Hb & Hd & Hst & Hvs & Hv & ->)%parse_variables_Ok & Ht)%bind_Ok Hskip.
  rewrite Hskip in Ht. apply parse_top_level_Ok in Ht as (Hval & l & ns & t & moves & Hl & Hns & Ht & Hm & ->). cbn in *.
  assert (Hmoves := validate_moved_outcome (tl_Moves t)). rewrite Hm in Hmoves. destruct Hmoves as (-> & Hvalid & Hac).
  assert (Ht' : top_declared (program_context l ns) (all_blocks parsed)
    (top_of {| cf_Files := files; cf_Locals := l; cf_localDefinitions := d; cf_Variables := vs; cf_VariableValues := v.1;
               cf_ExplicitVariableValues := v.2; cf_Profiles := tl_Profiles t; cf_Hosts := tl_Hosts t;
               cf_Components := tl_Components t; cf_Scripts := tl_Scripts t;
               cf_Moves := sort_by moved_less_by_name (sort_by moved_less_by_source (tl_Moves t)) |} (tl_Moves t)))
    by (unfold top_of; cbn; by destruct t).
  exists parsed, st, ns, (tl_Moves t). split_and!; try done.
  - by eapply top_declared_named.
  - by rewrite !sort_by_perm.
  - intros name variable value Hn Hvalue. unfold validateVariableValues in Hval.
    eapply fold_res_unit in Hval; [|apply elem_of_sorted_keys; eauto]. cbn in Hval. by rewrite Hn, Hvalue in Hval.
Qed.

(** C9: The order of the files of a configuration is irrelevant: when no local
    is defined twice, the same files in another order give the same
    configuration, but for the list of the files. *)
Theorem ParseFilesWithOptions_order files files' opts cfg :
  files ≡ₚ files' ->
  (forall parsed, bodies files parsed -> NoDup (local_names (all_blocks parsed))) ->
  ParseFilesWithOptions files opts = Ok cfg ->
  ParseFilesWithOptions files' opts = Ok (with_files files' cfg).
Proof.
  intros Hp Hnd ([parsed cfg0] & Hstage & Ht)%bind_Ok.
  assert (Hb : bodies files parsed) by (apply parse_variables_Ok in Hstage; naive_solver).
  destruct (parse_variables_perm files files' opts parsed cfg0 Hp (Hnd _ Hb) Hstage) as (parsed' & Hperm & Hstage').
  unfold ParseFiles.ParseFilesWithOptions. rewrite Hstage', Ok_bind. cbn [fst snd] in *.
  destruct (po_SkipTopLevel opts); [by injection Ht as <-|].
  apply parse_top_level_Ok in Ht as (Hval & l & ns & t & moves & Hl & Hns & Ht & Hm & ->).
  destruct (top_declared_perm _ _ (all_blocks parsed') _ (all_blocks_perm _ _ (symmetry Hperm)) Ht) as (moves' & Hmoves & Ht').
  apply parse_top_level_Ok. split; [done|]. eexists l, ns, _, moves. split_and!; try done.
  assert (Hout := validate_moved_outcome (tl_Moves t)). rewrite Hm in Hout. destruct Hout as (-> & Hvalid & Hac).
  by apply moved_order_irrelevant.
Qed.

End run.

(** ** A configuration in two files *)
Module Site.
Import Toy.
#[local] Existing Instance toy.
#[local] Existing Instance toy_order.

Definition text (line : Z) (s : string) : expr := ELit line (TC ∅ (TStr s)).
Definition attr (line : Z) (e : expr) : Attribute := {| at_Expr := e; at_Filename := ""; at_Line := line |}.
Definition block (typ : string) (labels : list string) (line : Z) (attrs : gmap string Attribute) (nested : list Block) : Block :=
  mkBlock _ typ labels line (mkBody _ attrs nested line).
Definition ref (line : Z) (root name : string) : expr := ERef line root [TraverseAttr name].

Definition base : Body :=
  mkBody _ ∅
    [block "locals" [] 1 {["dir" := attr 2 (text 2 "/srv")]} [];
     block "variable" ["env"] 4 {["type" := attr 5 (ERef 5 "string" []); "default" := attr 6 (ref 6 "local" "dir")]} [];
     block "profile" ["web"] 8 ∅ [block "packages" [] 9 {["install" := attr 10 (EList 10 [text 10 "nginx"])]} []];
     block "script" ["reload"] 12 {["run" := attr 13 (ref 13 "var" "env")]} []] 1.

Definition site : Body :=
  mkBody _ ∅
    [block "host" ["h1"] 1 {["imports" := attr 2 (EList 2 [ref 2 "profile" "web"]);
                             "components" := attr 3 (EList 3 [ref 3 "component" "app"])]} [];
     block "component" ["app"] 5 {["type" := attr 6 (text 6 "binary")]}
       [block "input" ["port"] 7 {["type" := attr 8 (ERef 8 "number" [])]} []];
     block "moved" [] 10 {["from" := attr 11 (ref 11 "component" "old"); "to" := attr 12 (ref 12 "component" "app")]} []] 1.

(** A file that defines [local.dir] again. *)
Definition again : Body := mkBody _ ∅ [block "locals" [] 1 {["dir" := attr 2 (text 2 "/opt")]} []] 1.

(** A file whose locals refer to each other. *)
Definition looped : Body :=
  mkBody _ ∅ [block "locals" [] 1 {["a" := attr 2 (ref 2 "local" "b"); "b" := attr 3 (ref 3 "local" "a")]} []] 1.

Definition read_file (file : string) : result string (Body + string) :=
  if bool_decide (file = "base.dbf.hcl") then Ok (inl base)
  else if bool_decide (file = "site.dbf.hcl") then Ok (inl site)
  else if bool_decide (file = "again.dbf.hcl") then Ok (inl again)
  else if bool_decide (file = "looped.dbf.hcl") then Ok (inl looped)
  else Err "no such file".

Definition options : ParseOptions :=
  {| po_VariableValues := []; po_AllowMissingVariables := false; po_SkipTopLevel := false |}.
Definition run (files : list string) : result config_error Config :=
  ParseFilesWithOptions read_file (fun _ _ _ => None) sorted_keys (fun _ => None) files options.

Definition accepted (r : result config_error Config) : option (list string * list string * list string * list string * list string) :=
  match r with
  | Ok cfg => Some (sorted_keys (cf_Profiles cfg), sorted_keys (cf_Hosts cfg), sorted_keys (cf_Components cfg),
                    sorted_keys (cf_Scripts cfg), moved_From <$> cf_Moves cfg)
  | Err _ => None
  end.

Definition cycle (r : result config_error Config) : list string :=
  match r with Err (InLocals (LocalsCycle chain)) => chain | _ => [] end.

Example site_accepted :
  accepted (run ["base.dbf.hcl"; "site.dbf.hcl"]) = Some (["web"], ["h1"], ["app"], ["reload"], ["old"]).
Proof. vm_compute. reflexivity. Qed.

(** Two definitions of a local are no error: the last file wins, and the value
    of the variable follows. *)
Example local_defined_twice :
  (fun files => match run files with
                | Ok cfg => (v_String <$> cf_Locals cfg !! "dir", v_String <$> cf_VariableValues cfg !! "env")
                | Err _ => (None, None)
                end) <$> [["base.dbf.hcl"; "again.dbf.hcl"]; ["again.dbf.hcl"; "base.dbf.hcl"]]
  = [(Some "/opt", Some "/opt"); (Some "/srv", Some "/srv")].
Proof. vm_compute. reflexivity. Qed.

End Site.

Lemma ParseFilesWithOptions_spec_witness :
  exists cfg, Site.run ["base.dbf.hcl"; "site.dbf.hcl"] = Ok cfg /\ named (H := Toy.toy) cfg.
Proof.
  assert (Hok : is_ok (Site.run ["base.dbf.hcl"; "site.dbf.hcl"]) = true) by (vm_compute; reflexivity).
  destruct (Site.run ["base.dbf.hcl"; "site.dbf.hcl"]) as [cfg|e] eqn:Hrun; [|discriminate Hok].
  exists cfg. split; [reflexivity|].
  destruct (ParseFilesWithOptions_spec (order := Toy.toy_order) Site.read_file (fun _ _ _ => None) sorted_keys (fun _ => None)
              _ Site.options cfg Hrun eq_refl)
    as (parsed & static & namespace & moves & Hs).
  apply Hs.
Defined.

Lemma site_bodies parsed :
  bodies Site.read_file ["base.dbf.hcl"; "site.dbf.hcl"] parsed ->
  parsed = [("base.dbf.hcl", Site.base); ("site.dbf.hcl", Site.site)].
Proof.
  intros ([f b] & l & [Hf Hb] & ([g c] & l' & [Hg Hc] & ->%Forall2_nil_inv_l & ->)%Forall2_cons_inv_l & ->)%Forall2_cons_inv_l.
  cbn in Hf, Hg. subst. injection Hb as <-. injection Hc as <-. reflexivity.
Qed.

Lemma ParseFilesWithOptions_order_witness :
  exists cfg, Site.run ["base.dbf.hcl"; "site.dbf.hcl"] = Ok cfg /\
    Site.run ["site.dbf.hcl"; "base.dbf.hcl"] = Ok (with_files ["site.dbf.hcl"; "base.dbf.hcl"] cfg).
Proof.
  assert (Hok : is_ok (Site.run ["base.dbf.hcl"; "site.dbf.hcl"]) = true) by (vm_compute; reflexivity).
  destruct (Site.run ["base.dbf.hcl"; "site.dbf.hcl"]) as [cfg|e] eqn:Hrun; [|discriminate Hok].
  exists cfg. split; [reflexivity|].
  apply (ParseFilesWithOptions_order (order := Toy.toy_order) Site.read_file (fun _ _ _ => None) sorted_keys (fun _ => None)
           ["base.dbf.hcl"; "site.dbf.hcl"]); [apply perm_swap| |exact Hrun].
  intros parsed ->%site_bodies. vm_compute. repeat constructor; by intros ?%elem_of_nil.
Defined.

(** ** Reading terminates

    The recursive readers carry fuel; it is the size of the tree they descend
    and never runs out. *)

Fixpoint out_of_fuel (e : parse_error) : bool :=
  match e with
  | OutOfFuel => true
  | Within _ _ _ cause | Prefixed _ cause => out_of_fuel cause
  | _ => false
  end.

Definition total {A} (r : P A) : Prop := match r with Ok _ => True | Err e => out_of_fuel e = false end.

Create HintDb total.

Lemma total_bind {A B} (r : P A) (f : A -> P B) : total r -> (forall a, r = Ok a -> total (f a)) -> total (r ≫= f).
Proof. destruct r as [a|e]; cbn; [by intros _ Hf; apply Hf|done]. Qed.
Lemma total_fmap {A B} (f : A -> B) (r : P A) : total r -> total (f <$> r).
Proof. by destruct r. Qed.
Lemma total_guard b e : out_of_fuel e = false -> total (guard_or b e).
Proof. by destruct b. Qed.
Lemma total_of_option {A} e (o : option A) : out_of_fuel e = false -> total (of_option e o).
Proof. by destruct o. Qed.
Lemma total_map_err {A} f (r : P A) : (forall e, out_of_fuel e = false -> out_of_fuel (f e) = false) -> total r -> total (map_err f r).
Proof. destruct r; cbn; auto. Qed.
Lemma total_map_err_text {E A} (f : E -> parse_error) (r : result E A) : (forall e, out_of_fuel (f e) = false) -> total (map_err f r).
Proof. destruct r; cbn; auto. Qed.
Lemma total_fold {A T} (f : T -> A -> P T) l t : (forall t a, a ∈ l -> total (f t a)) -> total (fold_res f l t).
Proof.
  revert t. induction l as [|a l IH]; intros t Hf; [done|]. cbn.
  assert (Ha : total (f t a)) by (apply Hf; left). destruct (f t a); [|done]. apply IH. intros t' b Hb. apply Hf. by right.
Qed.
Lemma total_mapi {A B} (f : nat -> A -> P B) l i : (forall i a, a ∈ l -> total (f i a)) -> total (mapi_res f i l).
Proof.
  revert i. induction l as [|a l IH]; intros i Hf; [done|]. cbn. apply total_bind; [apply Hf; left|]. intros b _.
  apply total_bind; [|done]. apply IH. intros j c Hc. apply Hf. by right.
Qed.
Lemma total_seq {A} (l : list (P A)) : Forall total l -> total (seq_res l).
Proof.
  induction 1 as [|r l Hr _ IH]; [done|]. cbn. apply total_bind; [done|]. intros a _. by apply total_bind.
Qed.

Definition total_step_of {A} (o : option (P A)) : Prop := match o with Some r => total r | None => True end.
Lemma total_store {A B} (read : P B) (set : B -> A) : total read -> total_step_of (store read set).
Proof. apply total_fmap. Qed.
Lemma total_fold_attrs `{HCL} {order : AttrOrder} {A} file path (step : string -> Attribute -> A -> option (P A)) attrs init :
  (forall name attr acc, total_step_of (step name attr acc)) -> total (fold_attrs file path step attrs init).
Proof.
  intros Hstep. apply total_fold. intros acc p _. specialize (Hstep p.1 p.2 acc). by destruct (step p.1 p.2 acc).
Qed.

(** One step into the structure of a reader. *)
Ltac total_step :=
  first
  [ exact I
  | reflexivity
  | solve [auto with total]
  | apply total_bind; [|intros ? ?]
  | apply total_fmap
  | apply total_guard
  | apply total_of_option
  | apply total_map_err; [intros ? ?; cbn; assumption|]
  | apply total_map_err_text; intros ?
  | apply total_fold_attrs; intros ? ? ?
  | apply total_store
  | apply total_fold; intros ? ? ?
  | apply total_mapi; intros ? ? ?
  | match goal with
    | |- total (match ?x with _ => _ end) => destruct x eqn:?
    | |- total_step_of (match ?x with _ => _ end) => destruct x eqn:?
    end ].
Ltac head_of t := match t with ?f _ => head_of f | _ => t end.
Ltac total_unfold :=
  match goal with
  | |- total ?r => let f := head_of r in unfold f; cbv zeta
  | |- total_step_of ?r => let f := head_of r in unfold f; cbv zeta
  end.
Ltac total := intros; cbv zeta; repeat first [total_step | total_unfold].

Section total.
Context `{!HCL} {order : AttrOrder} {Hsizes : HCLSizes}.

Fixpoint value_nodes (v : Value) : nat :=
  S (sum_list (value_nodes <$> v_List v) + sum_list (map_to_list (value_nodes <$> v_Map v)).*2).

Lemma value_nodes_item v x : x ∈ v_List v -> value_nodes x < value_nodes v.
Proof.
  intros Hx. destruct v; cbn in *. enough (value_nodes x <= sum_list (value_nodes <$> v_List)) by lia.
  by apply (Toy.size_in value_nodes).
Qed.
Lemma value_nodes_entry v k x : v_Map v !! k = Some x -> value_nodes x < value_nodes v.
Proof.
  intros Hx. destruct v; cbn in *. enough (value_nodes x <= sum_list (map_to_list (value_nodes <$> v_Map)).*2) by lia.
  apply (Toy.size_in snd _ (k, value_nodes x)). apply elem_of_map_to_list. by rewrite lookup_fmap, Hx.
Qed.

Lemma ToCty_total v : total (ToCty v).
Proof.
  remember (value_nodes v) as n eqn:Hn. revert v Hn. induction (lt_wf n) as [n _ IH]. intros v ->.
  assert (Hitem : forall x, x ∈ v_List v -> total (ToCty x)).
  { intros x Hx. eapply IH; [|reflexivity]. by apply value_nodes_item. }
  assert (Hentry : forall k x, v_Map v !! k = Some x -> total (ToCty x)).
  { intros k x Hx. eapply IH; [|reflexivity]. by eapply value_nodes_entry. }
  destruct v; cbn in *. total; apply total_seq, Forall_forall.
  - intros r (x & -> & Hx)%list_elem_of_fmap. by apply Hitem.
  - intros r ([k r'] & -> & Hr)%list_elem_of_fmap. apply total_bind; [|done]. cbn.
    apply elem_of_sorted_entries in Hr. rewrite lookup_fmap in Hr. destruct (_ !! k) as [x|] eqn:Hx; [|done].
    injection Hr as <-. by eapply Hentry.
Qed.

Lemma ctyToValue_total value source : total (ctyToValue value source).
Proof.
  unfold ctyToValue. assert (Hf : cty_size value < S (cty_size value)) by lia. revert Hf.
  generalize (S (cty_size value)) as fuel. intros fuel. revert value source.
  induction fuel as [|fuel IH]; intros value source Hf; [lia|]. cbn [ctyToValue_].
  assert (Hel : forall p, p ∈ cty_Elements (cty_UnmarkDeep value) -> cty_size p.2 < fuel).
  { intros p Hp%element_size. rewrite unmark_size in Hp. lia. }
  total; by apply IH, Hel.
Qed.

#[local] Hint Resolve ToCty_total ctyToValue_total : total.

Lemma hclEvalContext_total ctx : total (hclEvalContext ctx).
Proof.
  unfold hclEvalContext. total. apply total_seq, Forall_forall. intros r (p & -> & _)%list_elem_of_fmap. total.
Qed.
#[local] Hint Resolve hclEvalContext_total : total.

Lemma evalValue_total e ctx source : total (evalValue e ctx source).
Proof.
  unfold evalValue. assert (Hf : hcl_size e < S (hcl_size e)) by lia. revert Hf.
  generalize (S (hcl_size e)) as fuel. intros fuel. revert e source.
  induction fuel as [|fuel IH]; intros e source Hf; [lia|]. cbn [evalValue_].
  assert (Hcall : forall name args a, hcl_Call e = Some (name, args) -> a ∈ args -> hcl_size a < fuel)
    by (intros name args a He Ha; assert (Hs := call_size _ _ _ _ He Ha); lia).
  assert (Hlist : forall items a, hcl_ExprList e = Some items -> a ∈ items -> hcl_size a < fuel)
    by (intros items a He Ha; assert (Hs := list_size _ _ _ He Ha); lia).
  assert (Hmap : forall pairs p, hcl_ExprMap e = Some pairs -> p ∈ pairs -> hcl_size p.2 < fuel)
    by (intros pairs p He Ha; assert (Hs := map_size _ _ _ He Ha); lia).
  unfold evalCty. total.
  all: apply IH; first [eapply Hlist; [reflexivity|assumption] | eapply Hmap; [reflexivity|assumption]
                       | eapply Hcall; [reflexivity|left]].
Qed.

#[local] Hint Resolve evalValue_total : total.

Lemma eval_attr_total file path ctx name attr : total (eval_attr file path ctx name attr).
Proof. total. Qed.
#[local] Hint Resolve eval_attr_total : total.

Lemma eval_attrs_total file path allowed ctx block : total (eval_attrs file path allowed ctx block).
Proof. total. Qed.
Lemma parseLifecycleBlock_total file path block ctx : total (parseLifecycleBlock file path block ctx).
Proof. total. Qed.
#[local] Hint Resolve eval_attrs_total parseLifecycleBlock_total : total.

Lemma parseLabeledObjectBlock_total file domain path block ctx : total (parseLabeledObjectBlock file domain path block ctx).
Proof. total. Qed.
Lemma parseNetworkdBlock_total file path block ctx : total (parseNetworkdBlock file path block ctx).
Proof. total. Qed.
Lemma parseDockerBlock_total file path block ctx : total (parseDockerBlock file path block ctx).
Proof. total. Qed.
#[local] Hint Resolve parseLabeledObjectBlock_total parseNetworkdBlock_total parseDockerBlock_total : total.

Lemma parseDomainBlock_total file path block ctx : total (parseDomainBlock file path block ctx).
Proof. total. Qed.
#[local] Hint Resolve parseDomainBlock_total : total.

Lemma parseObjectAttributeType_total parse ctx name e path :
  (forall a path, hcl_size a <= hcl_size e -> total (parse a path)) -> total (parseObjectAttributeType parse ctx name e path).
Proof.
  intros Hparse. unfold parseObjectAttributeType, validateVariableDefaultReferences.
  assert (Hcall : forall name args a, hcl_Call e = Some (name, args) -> a ∈ args -> hcl_size a <= hcl_size e)
    by (intros n args a He Ha; assert (Hs := call_size _ _ _ _ He Ha); lia).
  total; apply Hparse; first [done | eapply Hcall; [reflexivity|left]].
Qed.

Lemma parseComponentInputType_total e ctx path : total (parseComponentInputType e ctx path).
Proof.
  unfold parseComponentInputType. apply total_bind; [|done].
  assert (Hf : hcl_size e < S (hcl_size e)) by lia. revert Hf.
  generalize (S (hcl_size e)) as fuel. intros fuel. revert e path.
  induction fuel as [|fuel IH]; intros e path Hf; [lia|]. cbn [parseComponentInputTypeExpr].
  assert (Harg : forall name args a, hcl_Call e = Some (name, args) -> a ∈ args -> hcl_size a < fuel)
    by (intros n args a He Ha; assert (Hs := call_size _ _ _ _ He Ha); lia).
  assert (Hobject : forall name args a path, hcl_Call e = Some (name, args) -> a ∈ args ->
    total (parseObjectInputType (fun e path => parseComponentInputTypeExpr fuel e ctx path) ctx a path)).
  { intros n args a p He Ha. unfold parseObjectInputType. destruct (hcl_ExprMap a) as [pairs|] eqn:Em; [|done].
    assert (Hs := call_size _ _ _ _ He Ha).
    apply total_bind; [|done]. apply total_fold. intros attrs q Hq. assert (Hq' := map_size _ _ _ Em Hq).
    apply total_bind; [total|]. intros name _. apply total_bind; [total|]. intros _ _. apply total_bind; [|total].
    apply parseObjectAttributeType_total. intros b pb Hb. apply IH. lia. }
  assert (Htuple : forall name args a path, hcl_Call e = Some (name, args) -> a ∈ args ->
    total (parseTupleInputType (fun e path => parseComponentInputTypeExpr fuel e ctx path) a path)).
  { intros n args a p He Ha. unfold parseTupleInputType. destruct (hcl_ExprList a) as [items|] eqn:El; [|done].
    assert (Hs := call_size _ _ _ _ He Ha).
    apply total_bind; [|done]. apply total_mapi. intros i b Hb. apply total_map_err; [done|]. apply IH.
    assert (Hb' := list_size _ _ _ El Hb). lia. }
  destruct (bare_name e) as [root|]; [destruct (base_kind root); [done|]; destruct (needs_element root); [done|]|].
  all: destruct (hcl_Call e) as [[name args]|]; [|done].
  all: case_bool_decide; [done|]; destruct (collection_kind name).
  all: try (destruct args as [|a [|]]; [done| |done]; apply total_bind; [|done]; apply total_map_err; [done|];
            apply IH; eapply Harg; [reflexivity|left]).
  all: case_bool_decide; [destruct args as [|a [|]]; [done| |done]; eapply Hobject; [reflexivity|left]|].
  all: case_bool_decide; [destruct args as [|a [|]]; [done| |done]; eapply Htuple; [reflexivity|left]|].
  all: by case_bool_decide.
Qed.
#[local] Hint Resolve parseComponentInputType_total : total.

Lemma distinct_strings_total file path seen i items : total (distinct_strings file path seen i items).
Proof. revert seen i. induction items as [|item items IH]; intros seen i; cbn [distinct_strings]; [done|]. total. Qed.
#[local] Hint Resolve distinct_strings_total : total.

Lemma parseValidationBlock_total file path block ctx : total (parseValidationBlock file path block ctx).
Proof. total. Qed.
#[local] Hint Resolve parseValidationBlock_total : total.

Lemma parseComponentInputBlock_total file path block ctx : total (parseComponentInputBlock file path block ctx).
Proof. total. Qed.
Lemma parseVariable_total file block ctx : total (parseVariable file block ctx).
Proof. total. Qed.
Lemma parseComponentInstanceBlock_total file path block ctx : total (parseComponentInstanceBlock file path block ctx).
Proof. total. Qed.
Lemma parseRootScriptBlock_total file block : total (parseRootScriptBlock file block).
Proof. total. Qed.
#[local] Hint Resolve parseComponentInputBlock_total parseVariable_total parseComponentInstanceBlock_total
  parseRootScriptBlock_total : total.

Lemma top_block_total file ctx t block : total (top_block file ctx t block).
Proof. total. Qed.
Lemma EvaluateVariableValidations_total variable value : total (EvaluateVariableValidations variable value).
Proof. total. Qed.

Lemma parse_files_total ParseHCLFile files : total (mapi_res (fun _ => parse_file ParseHCLFile) 0 files).
Proof. total. Qed.
Lemma collectLocals_total m parsed : total (fold_res collectLocals parsed m).
Proof. total. Qed.
Lemma parseVariables_total Locals m parsed : total (fold_res (parseVariables Locals) parsed m).
Proof. total. Qed.
Lemma validateVariableValues_total variables values : total (validateVariableValues variables values).
Proof. total. Qed.

(** ** The search over the locals terminates *)

(** The error is not for want of fuel. *)
Definition sane (e : local_error) : Prop :=
  match e with
  | LocalsOutOfFuel => False
  | InDefinition _ cause | InVariable _ cause => out_of_fuel cause = false
  | _ => True
  end.
Definition sane_result {A} (r : result local_error A) : Prop := match r with Ok _ => True | Err e => sane e end.

(** From a world in [Pre] the computation ends in one in [Post], sanely. *)
Definition runs {A} (Pre Post : local_world -> Prop) (m : M local_error local_world A) : Prop :=
  forall w, Pre w -> sane_result (m w).1 /\ Post (m w).2.

Lemma runs_bind {A B} (Pre Mid Post : local_world -> Prop) (m : M local_error local_world A) (f : A -> M local_error local_world B) :
  runs Pre Mid m -> (forall a, runs Mid Post (f a)) -> (forall w, Mid w -> Post w) -> runs Pre Post (m ≫= f).
Proof.
  intros Hm Hf Hpost w Hw. destruct (Hm w Hw) as [Hs Hmid]. unfold mbind, M_bind.
  destruct (m w) as [[a|e] w']; cbn in *; [by apply Hf|]. split; [done|by apply Hpost].
Qed.
Lemma runs_ret {A} (Pre : local_world -> Prop) (a : A) : runs Pre Pre (mret a).
Proof. by intros w Hw. Qed.
Lemma runs_fold {A T} (Pre : local_world -> Prop) (f : T -> A -> M local_error local_world T) l t :
  (forall t a, runs Pre Pre (f t a)) -> runs Pre Pre (fold_M f l t).
Proof.
  intros Hf. revert t. induction l as [|a l IH]; intros t; cbn; [by intros w Hw|].
  apply (runs_bind _ Pre); [done|done|done].
Qed.

Section search.
Context {V : Type} (defs : gmap string localDefinition) (Variables : gmap string V) (VariableValues : gmap string Value).
Context (allow : bool) (variables : gmap string cty).

(** The names on the stack are those being visited. *)
Definition on_stack (stack : list string) (w : local_world) : Prop :=
  forall n, lw_state w !! n = Some LocalVisiting <-> n ∈ stack.

Lemma validateLocalReferences_total def : total (validateLocalReferences defs Variables VariableValues allow def).
Proof. total. Qed.

Lemma on_stack_enter name stack w :
  on_stack stack w -> on_stack (stack ++ [name]) (set_state name LocalVisiting w).
Proof.
  intros Hw n. cbn. rewrite lookup_insert_Some, elem_of_app, list_elem_of_singleton, (Hw n).
  destruct (decide (name = n)); naive_solver.
Qed.

(** Once [name] is left, whatever happened to it. *)
Lemma on_stack_leave name stack w :
  name ∉ stack -> (forall n, n <> name -> lw_state w !! n = Some LocalVisiting <-> n ∈ stack) ->
  on_stack stack (leave_local name w).
Proof.
  intros Hni Hw n. unfold leave_local. cbn. destruct (decide (n = name)) as [->|Hne].
  - case_bool_decide as Hv; [rewrite lookup_delete_eq|]; naive_solver.
  - rewrite <- (Hw n Hne). case_bool_decide; [|done]. by rewrite lookup_delete_ne by done.
Qed.

Lemma eval_local_runs fuel : forall name stack,
  NoDup stack -> (forall n, n ∈ stack -> is_Some (defs !! n)) -> size defs < fuel + length stack ->
  runs (on_stack stack) (on_stack stack) (eval_local defs Variables VariableValues allow variables fuel name stack).
Proof.
  induction fuel as [|fuel IH]; intros name stack Hnd Hdefs Hfuel w Hw; cbn [eval_local].
  all: destruct (lw_values w !! name); [done|]; destruct (defs !! name) as [def|] eqn:Hdef; [|done].
  all: destruct (lw_state w !! name) as [[]|] eqn:Hst; [done|done|].
  all: destruct (negb allow && localExprReferencesVar (ld_Expr def)); [done|].
  - exfalso. assert (Hsub : list_to_set stack ⊆ dom defs).
    { intros n Hn%elem_of_list_to_set. by apply elem_of_dom, Hdefs. }
    apply subseteq_size in Hsub. rewrite size_list_to_set, size_dom in Hsub by done. lia.
  - assert (Hni : name ∉ stack) by (rewrite <- (Hw name); congruence).
    assert (Hnd' : NoDup (stack ++ [name])) by (apply NoDup_app; split_and!; [done|set_solver|apply NoDup_singleton]).
    assert (Hrun : runs (on_stack (stack ++ [name]))
              (fun w => forall n, n <> name -> lw_state w !! n = Some LocalVisiting <-> n ∈ stack)
              (eval_definition defs Variables VariableValues allow variables
                 (eval_local defs Variables VariableValues allow variables fuel) name def stack)).
    { assert (Hout : forall w, on_stack (stack ++ [name]) w -> forall n, n <> name ->
                lw_state w !! n = Some LocalVisiting <-> n ∈ stack).
      { intros u Hu n Hne. rewrite (Hu n). set_solver. }
      unfold eval_definition. apply (runs_bind _ (on_stack (stack ++ [name]))); [|intros _|done].
      { intros u Hu. cbn. split; [|done]. assert (Ht := validateLocalReferences_total def).
        by destruct (validateLocalReferences _ _ _ _ _). }
      apply (runs_bind _ (on_stack (stack ++ [name]))); [|intros _|done].
      { apply runs_fold. intros _ dep. apply (runs_bind _ (on_stack (stack ++ [name]))); [|intros _; apply runs_ret|done].
        apply IH; [done| |rewrite length_app; cbn; lia].
        intros n [Hn| ->%list_elem_of_singleton]%elem_of_app; [by apply Hdefs|eauto]. }
      intros u Hu. unfold store_value, evalLocal. assert (Ht := evalValue_total (ld_Expr def) (local_context variables def (lw_values u)) (ld_Source def)).
      destruct (evalValue _ _ _) as [value|e]; cbn; (split; [done|]); [|by apply Hout].
      intros n Hne. rewrite lookup_insert_ne by done. by apply Hout. }
    destruct (Hrun _ (on_stack_enter name stack w Hw)) as [Hs Hpost].
    destruct (eval_definition _ _ _ _ _ _ _ _ _ _) as [r w']. cbn in *. split; [done|]. by apply on_stack_leave.
Qed.

Lemma evaluate_definitions_sane : sane_result (evaluate_definitions defs Variables VariableValues allow variables).
Proof.
  unfold evaluate_definitions.
  assert (Hrun : runs (on_stack []) (on_stack [])
    (fold_M (fun _ : unit => eval_top defs Variables VariableValues allow variables) (sorted_keys defs) tt)).
  { apply runs_fold. intros _ name w Hw. unfold eval_top. destruct (lw_values w !! name); [done|].
    destruct (eval_local_runs (S (size defs)) name []) with (w := w) as [Hs Hpost];
      [constructor|by intros n ?%elem_of_nil|cbn; lia|done|].
    destruct (eval_local _ _ _ _ _ _ _ _ _) as [[v|e] w']; cbn in *; [done|]. by destruct e. }
  destruct (Hrun {| lw_values := ∅; lw_state := ∅ |}) as [Hs _].
  { intros n. cbn. rewrite lookup_empty. split; [done|by intros ?%elem_of_nil]. }
  by destruct (fold_M _ _ _ _) as [[|e] w].
Qed.

End search.

End total.

Section terminates.
Context `{!HCL} {order : AttrOrder} {Hsizes : HCLSizes}.
Context (ParseHCLFile : string -> result string (Body + string)) (ParseExpression : string -> string -> Z -> option hcl_expr).
Context (range_keys : gmap string Value -> list string) (decode_json : string -> option literal).

(** An error that means that a bound on a recursion was too small. *)
Definition spent (e : config_error) : Prop :=
  match e with
  | InParse e => out_of_fuel e = true
  | InLocals e => ~ sane e
  | InVariables _ => False
  | InMoved e => e = VisitOutOfFuel
  end.
Definition ends {A} (r : result config_error A) : Prop := match r with Ok _ => True | Err e => ~ spent e end.

Lemma ends_bind {A B} (r : result config_error A) (f : A -> result config_error B) :
  ends r -> (forall a, ends (f a)) -> ends (r ≫= f).
Proof. by destruct r; cbn; auto. Qed.
Lemma ends_parse {A} (r : P A) : total r -> ends (map_err InParse r).
Proof. destruct r as [|e]; cbn; [done|]. by intros ->. Qed.
Lemma ends_locals {A} (r : result local_error A) : sane_result r -> ends (map_err InLocals r).
Proof. destruct r as [|e]; cbn; [done|]. by auto. Qed.
Lemma ends_fold {A T} (f : T -> A -> result config_error T) l t : (forall t a, ends (f t a)) -> ends (fold_res f l t).
Proof. intros Hf. revert t. induction l as [|a l IH]; intros t; cbn; [done|]. specialize (Hf t a). destruct (f t a); [apply IH|done]. Qed.

Lemma variableNamespaceValue_sane values : sane_result (variableNamespaceValue values).
Proof.
  unfold variableNamespaceValue. induction (sorted_entries values) as [|[name v] l IH]; [done|]. cbn [fmap list_fmap seq_res].
  assert (Hv := ToCty_total v). cbn. destruct (ToCty v) as [c|e]; [|done]. cbn.
  cbn in IH. destruct (seq_res _) as [entries|e]; cbn in *; done.
Qed.

Lemma evaluateLocalDefinitions_sane {V} definitions (variables : gmap string V) values allow :
  sane_result (evaluateLocalDefinitions definitions variables values allow).
Proof.
  unfold evaluateLocalDefinitions. destruct allow.
  - assert (Hns := variableNamespaceValue_sane values). destruct (variableNamespaceValue values); [|done].
    apply evaluate_definitions_sane.
  - apply evaluate_definitions_sane.
Qed.

(** C24: Reading a configuration always ends with a configuration or with an error
    of its own: the evaluation of expressions, their conversion to values, the
    reading of types, the search through the locals and the walk along the moved
    blocks each finish within the bound on their recursion (the size of the tree
    they descend, the number of definitions, the number of moves), on every
    input and on every path that reports an error. *)
Theorem ParseFilesWithOptions_terminates files opts :
  ends (ParseFilesWithOptions ParseHCLFile ParseExpression range_keys decode_json files opts).
Proof.
  apply ends_bind; [|intros [parsed cfg]; destruct (po_SkipTopLevel opts); [done|]]; cbn [fst snd].
  - apply ends_bind; [apply ends_parse, parse_files_total|intros parsed].
    apply ends_bind; [apply ends_parse, collectLocals_total|intros definitions].
    apply ends_bind; [apply ends_locals, evaluateLocalDefinitions_sane|intros static].
    apply ends_bind; [apply ends_parse, parseVariables_total|intros variables].
    apply ends_bind; [|done]. destruct (resolveVariableValues _ _ _ _ _ _); cbn; auto.
  - apply ends_bind; [apply ends_parse, validateVariableValues_total|intros _].
    apply ends_bind; [apply ends_locals, evaluateLocalDefinitions_sane|intros locals].
    apply ends_bind; [apply ends_fold; intros t f; unfold parseTopLevel, evalContextForProgram|intros top].
    + apply ends_bind; [apply ends_locals|intros ctx; apply ends_parse, total_fold; intros; apply top_block_total].
      assert (Hns := variableNamespaceValue_sane (cf_VariableValues cfg)). by destruct (variableNamespaceValue _).
    + apply ends_bind; [|done]. assert (Hm := validate_moved_outcome (tl_Moves top)).
      destruct (validateAndSortMoved (tl_Moves top)); cbn; naive_solver.
Qed.

End terminates.

Lemma ParseFilesWithOptions_terminates_witness :
  Site.cycle (Site.run ["looped.dbf.hcl"]) = ["local.a"; "local.b"; "local.a"]
  /\ ends (Site.run ["looped.dbf.hcl"]).
Proof.
  split; [vm_compute; reflexivity|].
  exact (ParseFilesWithOptions_terminates (Hsizes := Toy.toy_sizes) (order := Toy.toy_order) Site.read_file
           (fun _ _ _ => None) sorted_keys (fun _ => None) ["looped.dbf.hcl"] Site.options).
Defined.
