(* ===== verification/Assertions.v ===== *)
(** * Assertions and validations of inputs: [merge/assert.go] and [merge/component_input_validation.go]

    [hostSpecToCty] is the view of a host that the conditions of assertions, the
    scripts and the components of the host read; [evaluateAssertions] decides
    the assertions of a host on it.  The validations of component inputs and the
    merge package's copy of the validations of variables follow. *)
From S2P Require Import Prelude Sha256 GoValue GoStrings IR HostIR Values InputType Merge Variables MovedDecl ComponentSpecs Hcl Parse Locals ParseConfig ParseFiles.

(** ** The view of a host *)

Section view.
Context `{!HCL}.

(** [cty.ObjectVal] of a map written out. *)
Definition object (l : list (string * cty)) : cty := cty_ObjectVal (list_to_map l).

(** The empty tuple and the empty object are values of the same kind. *)
Definition stringTuple (values : list cty) : cty := cty_TupleVal values.
Definition objectOrEmpty (values : gmap string cty) : cty := cty_ObjectVal values.
Definition stringListToCty (values : list string) : cty := stringTuple (cty_StringVal <$> values).

(** A pointer to a boolean, [NullVal(Bool)] when it is nil. *)
Definition optional_bool (b : option bool) : cty := from_option cty_BoolVal cty_NullBool b.

Definition platform_object (distribution version architecture codename : cty) : cty :=
  object [("distribution", distribution); ("version", version); ("architecture", architecture); ("codename", codename)].
Definition platformSpecToCty (host : HostSpec) : cty :=
  platform_object (cty_StringVal (PlatformDistribution host)) (cty_StringVal (PlatformVersion host))
    (cty_StringVal (PlatformArchitecture host)) (cty_StringVal (PlatformCodename host)).

Definition sshSpecToCty (spec : SSHSpec) : cty :=
  object [("host", cty_StringVal (ssh_Host spec)); ("port", cty_NumberIntVal (ssh_Port spec));
          ("user", cty_StringVal (ssh_User spec)); ("identity_file", cty_StringVal (ssh_IdentityFile spec))].

Definition stateSpecToCty (spec : StateSpec) : cty :=
  object [("path", cty_StringVal (sts_Path spec)); ("lock_path", cty_StringVal (sts_LockPath spec))].

Definition stagingSpecToCty (spec : option StagingSpec) : cty :=
  object [("root", cty_StringVal (from_option stg_Root "" spec))].

Definition systemSpecToCty (spec : SystemSpec) : cty :=
  object [("hostname", cty_StringVal (sys_Hostname spec)); ("timezone", cty_StringVal (sys_Timezone spec));
          ("locale", cty_StringVal (sys_Locale spec))].

Definition kernelSpecToCty (spec : KernelSpec) : cty :=
  object [("modules", stringTuple ((fun m => cty_StringVal (km_Name m)) <$> ker_Modules spec));
          ("sysctl", objectOrEmpty ((fun s => cty_StringVal (sc_Value s)) <$> ker_Sysctl spec))].

Definition packageSpecToCty (spec : PackageSpec) : cty :=
  object [("install", stringTuple ((fun p => cty_StringVal (pk_Name p)) <$> pks_Install spec))].

Definition repository_object (item : APTRepositorySpec) : cty :=
  object [("name", cty_StringVal (ar_Name item)); ("uris", stringListToCty (ar_URIs item));
          ("suites", stringListToCty (ar_Suites item)); ("components", stringListToCty (ar_Components item));
          ("architectures", stringListToCty (ar_Architectures item)); ("ensure", cty_StringVal (ar_Ensure item))].
Definition source_file_object (item : APTSourceFileSpec) : cty :=
  object [("label", cty_StringVal (as_Label item)); ("path", cty_StringVal (as_Path item));
          ("owner", cty_StringVal (as_Owner item)); ("group", cty_StringVal (as_Group item));
          ("mode", cty_StringVal (as_Mode item)); ("ensure", cty_StringVal (as_Ensure item));
          ("on_destroy", cty_StringVal (as_OnDestroy item)); ("source_path", cty_StringVal (as_SourcePath item))].
Definition aptSpecToCty (spec : APTSpec) : cty :=
  object [("repositories", objectOrEmpty (repository_object <$> apt_Repositories spec));
          ("source_files", objectOrEmpty (source_file_object <$> apt_SourceFiles spec))].

Definition scriptReferenceName (ref : option ScriptReferenceSpec) : string := from_option srf_Name "" ref.

Definition file_object (item : ManagedFile) : cty :=
  object [("path", cty_StringVal (mf_Path item)); ("owner", cty_StringVal (mf_Owner item));
          ("group", cty_StringVal (mf_Group item)); ("mode", cty_StringVal (mf_Mode item));
          ("sensitive", cty_BoolVal (mf_Sensitive item)); ("ensure", cty_StringVal (mf_Ensure item));
          ("source_path", cty_StringVal (mf_SourcePath item));
          ("on_change", cty_StringVal (scriptReferenceName (mf_OnChange item)))].
Definition fileSpecToCty (spec : FileSpec) : cty := object [("files", objectOrEmpty (file_object <$> fls_Files spec))].

Definition secret_object (item : SecretFile) : cty :=
  object [("path", cty_StringVal (sf_Path item)); ("owner", cty_StringVal (sf_Owner item));
          ("group", cty_StringVal (sf_Group item)); ("mode", cty_StringVal (sf_Mode item));
          ("ensure", cty_StringVal (sf_Ensure item)); ("source_path", cty_StringVal (sf_SourcePath item))].
Definition secretSpecToCty (spec : SecretSpec) : cty := object [("files", objectOrEmpty (secret_object <$> secs_Files spec))].

Definition directory_object (item : ManagedDirectory) : cty :=
  object [("path", cty_StringVal (md_Path item)); ("owner", cty_StringVal (md_Owner item));
          ("group", cty_StringVal (md_Group item)); ("mode", cty_StringVal (md_Mode item));
          ("ensure", cty_StringVal (md_Ensure item))].
Definition directorySpecToCty (spec : DirectorySpec) : cty :=
  object [("directories", objectOrEmpty (directory_object <$> dirs_Directories spec))].

Definition group_object (item : ManagedGroup) : cty :=
  object [("name", cty_StringVal (mg_Name item)); ("gid", cty_StringVal (mg_GID item));
          ("system", cty_BoolVal (mg_System item)); ("ensure", cty_StringVal (mg_Ensure item))].
Definition groupSpecToCty (spec : GroupSpec) : cty := object [("groups", objectOrEmpty (group_object <$> grs_Groups spec))].

Definition user_object (item : ManagedUser) : cty :=
  object [("name", cty_StringVal (mu_Name item)); ("uid", cty_StringVal (mu_UID item));
          ("group", cty_StringVal (mu_PrimaryGroup item)); ("groups", stringListToCty (elems (mu_Groups item)));
          ("system", cty_BoolVal (mu_System item)); ("home", cty_StringVal (mu_Home item));
          ("shell", cty_StringVal (mu_Shell item));
          ("ssh_authorized_keys", stringListToCty (elems (mu_SSHAuthorizedKeys item)));
          ("ensure", cty_StringVal (mu_Ensure item))].
Definition userSpecToCty (spec : UserSpec) : cty := object [("users", objectOrEmpty (user_object <$> uss_Users spec))].

(** *** systemd *)

(** A setting with one value is a string, one with several a tuple. *)
Definition networkdSectionToCty (section : NetworkdSection) : cty :=
  objectOrEmpty ((fun items => match items with [item] => cty_StringVal item | _ => stringListToCty items end) <$> section).

Definition systemdUnitToCty (item : SystemdUnit) : cty :=
  object [("name", cty_StringVal (su_Name item)); ("path", cty_StringVal (su_Path item));
          ("owner", cty_StringVal (su_Owner item)); ("group", cty_StringVal (su_Group item));
          ("mode", cty_StringVal (su_Mode item)); ("ensure", cty_StringVal (su_Ensure item));
          ("change_action", cty_StringVal (su_ChangeAction item)); ("source_path", cty_StringVal (su_SourcePath item))].

Definition timer_object (item : SystemdTimer) : cty :=
  object [("name", cty_StringVal (tm_Name item)); ("unit", systemdUnitToCty (tm_Unit item));
          ("timer", networkdSectionToCty (tm_Timer item)); ("install", networkdSectionToCty (tm_Install item));
          ("enable", optional_bool (tm_Enable item)); ("state", cty_StringVal (tm_State item))].

Definition systemdResolvedSpecToCty (spec : SystemdResolvedSpec) : cty :=
  object [("unit", systemdUnitToCty (rs_Unit spec)); ("resolve", networkdSectionToCty (rs_Resolve spec));
          ("enable", optional_bool (rs_Enable spec)); ("state", cty_StringVal (rs_State spec))].

Definition systemdJournaldSpecToCty (spec : SystemdJournaldSpec) : cty :=
  object [("unit", systemdUnitToCty (jd_Unit spec)); ("journal", networkdSectionToCty (jd_Journal spec));
          ("state", cty_StringVal (jd_State spec))].

Definition netdev_object (item : NetworkdNetDev) : cty :=
  object [("label", cty_StringVal (nd_Label item)); ("path", cty_StringVal (nd_Path item));
          ("netdev", networkdSectionToCty (nd_NetDev item)); ("wireguard", networkdSectionToCty (nd_WireGuard item));
          ("wireguard_peer", objectOrEmpty (networkdSectionToCty <$> nd_WireGuardPeers item));
          ("owner", cty_StringVal (nd_Owner item)); ("group", cty_StringVal (nd_Group item));
          ("mode", cty_StringVal (nd_Mode item)); ("ensure", cty_StringVal (nd_Ensure item))].
Definition network_object (item : NetworkdNetwork) : cty :=
  object [("label", cty_StringVal (nn_Label item)); ("path", cty_StringVal (nn_Path item));
          ("match", networkdSectionToCty (nn_Match item)); ("network", networkdSectionToCty (nn_Network item));
          ("owner", cty_StringVal (nn_Owner item)); ("group", cty_StringVal (nn_Group item));
          ("mode", cty_StringVal (nn_Mode item)); ("ensure", cty_StringVal (nn_Ensure item))].
Definition networkdSpecToCty (spec : NetworkdSpec) : cty :=
  object [("enable", optional_bool (nw_Enable spec)); ("netdev", objectOrEmpty (netdev_object <$> nw_NetDevs spec));
          ("network", objectOrEmpty (network_object <$> nw_Networks spec))].

Definition systemdSpecToCty (spec : SystemdSpec) : cty :=
  object [("units", objectOrEmpty (systemdUnitToCty <$> sd_Units spec));
          ("timers", objectOrEmpty (timer_object <$> sd_Timers spec));
          ("networkd", from_option networkdSpecToCty cty_NullVal (sd_Networkd spec));
          ("resolved", from_option systemdResolvedSpecToCty cty_NullVal (sd_Resolved spec));
          ("journald", from_option systemdJournaldSpecToCty cty_NullVal (sd_Journald spec))].

Definition service_object (item : ManagedService) : cty :=
  object [("name", cty_StringVal (ms_Name item)); ("unit", cty_StringVal (ms_Unit item));
          ("package", cty_StringVal (ms_Package item)); ("enabled", optional_bool (ms_Enabled item));
          ("state", cty_StringVal (ms_State item))].
Definition serviceSpecToCty (spec : ServiceSpec) : cty :=
  object [("services", objectOrEmpty (service_object <$> svs_Services spec))].

Definition nftablesFileToCty (item : NftablesFileSpec) : cty :=
  object [("label", cty_StringVal (nf_Label item)); ("path", cty_StringVal (nf_Path item));
          ("owner", cty_StringVal (nf_Owner item)); ("group", cty_StringVal (nf_Group item));
          ("mode", cty_StringVal (nf_Mode item)); ("sensitive", cty_BoolVal (nf_Sensitive item));
          ("validate", cty_BoolVal (nf_Validate item)); ("activate", cty_BoolVal (nf_Activate item));
          ("ensure", cty_StringVal (nf_Ensure item)); ("source_path", cty_StringVal (nf_SourcePath item))].
Definition nftablesSpecToCty (spec : NftablesSpec) : cty :=
  object [("enable", cty_BoolVal (default false (nft_Enable spec)));
          ("files", objectOrEmpty (nftablesFileToCty <$> nft_Files spec));
          ("main", from_option nftablesFileToCty cty_NullVal (nft_Main spec))].

(** The fields of a host, given its platform and its system. *)
Definition host_object (host : HostSpec) (platform system : cty) : cty :=
  object [("name", cty_StringVal (h_Name host)); ("ssh", sshSpecToCty (h_SSH host)); ("state", stateSpecToCty (h_State host));
          ("staging", stagingSpecToCty (h_Staging host)); ("platform", platform); ("system", system);
          ("kernel", kernelSpecToCty (h_Kernel host)); ("packages", packageSpecToCty (h_Packages host));
          ("apt", aptSpecToCty (h_APT host)); ("files", fileSpecToCty (h_Files host));
          ("secrets", secretSpecToCty (h_Secrets host)); ("directories", directorySpecToCty (h_Directories host));
          ("groups", groupSpecToCty (h_Groups host)); ("users", userSpecToCty (h_Users host));
          ("systemd", systemdSpecToCty (h_Systemd host)); ("services", serviceSpecToCty (h_Services host));
          ("nftables", nftablesSpecToCty (h_Nftables host))].
Definition hostSpecToCty (host : HostSpec) : cty := host_object host (platformSpecToCty host) (systemSpecToCty (h_System host)).

(** Before the facts are known, an undeclared field of the platform is unknown. *)
Definition known_string (s : string) : cty := if bool_decide (s = "") then cty_UnknownString else cty_StringVal s.
Definition runtimeValidationTargetValue (host : HostSpec) : cty :=
  host_object host
    (platform_object (known_string (PlatformDistribution host)) (known_string (PlatformVersion host))
       (known_string (PlatformArchitecture host)) (known_string (PlatformCodename host)))
    (systemSpecToCty (h_System host)).

(** ** Assertions *)

Definition evaluate_assertion (self : cty) (assert : Validation) : P unit :=
  let source := vl_ConditionSource assert in
  let fail message := AtSource source ("assert condition" +:+ message) in
  _ ← map_err (fun cause => Within (src_File source) (src_Line source) (src_Path source) (Prefixed "assert condition: " cause))
        (RemovedSystemPlatformAliasError (vl_Condition assert) source);
  value ← map_err (fun text => fail (": " +:+ text))
            (hcl_Value AssertionFunctions {["self" := self]} (vl_Condition assert));
  let value := cty_UnmarkDeep value in
  _ ← guard_or (usable value && is_bool value) (fail " must evaluate to a boolean");
  guard_or (cty_True value) (AtSource (vl_Source assert) ("assertion failed: " +:+ vl_Message assert)).

Definition evaluateAssertions (asserts : list Validation) (host : HostSpec) : P unit :=
  fold_res (fun _ => evaluate_assertion (hostSpecToCty host)) asserts tt.

(** ** The functions of conditions *)

Section functions.
(** The library's [RawEquals] and its set of strings. *)
Variable RawEquals : cty -> cty -> bool.
Variable SetOfStrings : list string -> cty.

Definition containsFunction (collection needle : cty) : result string bool :=
  items ← collection_items "contains" "collection" collection;
  Ok (existsb (fun item => RawEquals item (cty_UnmarkDeep needle)) items).
Definition startsWithFunction (str prefix : cty) : bool := strings_HasPrefix (cty_AsString str) (cty_AsString prefix).
Definition endsWithFunction (str suffix : cty) : bool := strings_HasSuffix (cty_AsString str) (cty_AsString suffix).
Definition boolCollectionFunction (name : string) (all : bool) (collection : cty) : result string bool :=
  items ← collection_items name "collection" collection; bool_collection name all items.
Definition allTrueFunction : cty -> result string bool := boolCollectionFunction "alltrue" true.
Definition anyTrueFunction : cty -> result string bool := boolCollectionFunction "anytrue" false.
(** The entries already seen are skipped as the loop meets them. *)
Definition to_set_entry (out : list string) (item : cty) : result string (list string) :=
  _ ← guard_or (usable item) "toset() entries must be known and non-null";
  converted ← map_err (fun text => "toset() entries must be convertible to string: " +:+ text) (cty_ConvertString item);
  let key := cty_AsString converted in
  Ok (if bool_decide (key ∈ out) then out else out ++ [key]).
Definition validationToSetFunction (value : cty) : result string cty :=
  items ← collection_items "toset" "argument" value;
  out ← fold_res to_set_entry items [];
  Ok (SetOfStrings out).
End functions.

(** ** Validations *)

(** A condition reads nothing but [root.name]. *)
Definition references_only (root what name : string) (validation : Validation) : P unit :=
  fold_res (fun _ t =>
    match tr_steps t with
    | TraverseRoot r :: rest =>
        guard_or (bool_decide (r = root) &&
                  match rest with TraverseAttr attr :: _ => bool_decide (attr = name) | _ => false end)
          (AtSource (vl_ConditionSource validation) (what +:+ " validation can only read " +:+ root +:+ "." +:+ name))
    | _ => Ok tt
    end) (hcl_Variables (vl_Condition validation)) tt.
Definition validateComponentInputValidationReferences (name : string) : Validation -> P unit :=
  references_only "input" "input" name.
Definition validateVariableValidationReferences (name : string) : Validation -> P unit :=
  references_only "var" "variable" name.

(** One round of the loop over the validations of [root.name], declared at [path]. *)
Definition evaluate_rule (references : Validation -> P unit) (what name path : string) (vars : gmap string cty)
    (i : nat) (validation : Validation) : P unit :=
  let fail message := AtSource (vl_ConditionSource validation) (what +:+ " validation condition" +:+ message) in
  _ ← references validation;
  result ← map_err (fun text => fail (": " +:+ text)) (hcl_Value ValidationFunctions vars (vl_Condition validation));
  let result := cty_UnmarkDeep result in
  _ ← guard_or (usable result && is_bool result) (fail " must evaluate to a boolean");
  guard_or (cty_True result)
    (AtSource (source_at (src_File (vl_Source validation)) (src_Line (vl_Source validation))
                 (item_path (path +:+ ".validation") i))
       ("validation failed for " +:+ what +:+ " " +:+ quoted name +:+ ": " +:+ vl_Message validation)).

Definition converted_value (prefix : string) (value : Value) : P cty :=
  converted ← map_err (Prefixed (position (v_Source value) +:+ ":" +:+ src_Path (v_Source value) +:+ ": " +:+ prefix)) (ToCty value);
  Ok (cty_UnmarkDeep converted).

Definition evaluateComponentInputValidations (input : Variables.ComponentInput Validation) (value : Value) : P unit :=
  let name := inp_Name input in
  match inp_Validations input with
  | [] => Ok tt
  | validations =>
      converted ← converted_value ("component input " +:+ quoted name +:+ ": ") value;
      let vars := {["input" := cty_ObjectVal {[name := converted]}]} in
      _ ← mapi_res (evaluate_rule (validateComponentInputValidationReferences name) "input" name
                      (src_Path (inp_Source input)) vars) 0 validations;
      Ok tt
  end.

Definition evaluateVariableValidations (variable : Variable_) (value : Value) : P unit :=
  let name := cin_Name (vr_Input variable) in
  match cin_Validations (vr_Input variable) with
  | [] => Ok tt
  | validations =>
      converted ← converted_value ("variable " +:+ quoted name +:+ ": ") value;
      let vars := {["var" := cty_ObjectVal {[name := converted]}]} in
      _ ← mapi_res (evaluate_rule (validateVariableValidationReferences name) "variable" name
                      (src_Path (cin_Source (vr_Input variable))) vars) 0 validations;
      Ok tt
  end.

(** [ir.ComponentInputValidationSpec] *)
Record ValidationSpec := {
  vs_ConditionSource : SourceRef;
  vs_Message : string;
  vs_MessageSource : SourceRef;
}.
Definition validation_spec (v : Validation) : ValidationSpec :=
  {| vs_ConditionSource := vl_ConditionSource v; vs_Message := vl_Message v; vs_MessageSource := vl_MessageSource v |}.
Definition componentInputValidationSpecs (validations : list Validation) : list ValidationSpec := validation_spec <$> validations.
Definition variableValidationSpecs (validations : list Validation) : list ValidationSpec := validation_spec <$> validations.

End view.
