(* ===== verification/Compile.v ===== *)
(** * From a configuration to hosts: [merge.go], [merge_variables.go], [merge_scripts.go]
    and the rest of [merge_components.go]

    [CompileWithOptions] builds the program of a parsed configuration: the
    descriptions of its variables, templates and scripts, and for each host that
    passes the filter its merged declarations, facts, scripts and components,
    validated and with its assertions decided. *)
From S2P Require Import Prelude Sha256 GoValue GoStrings IR HostIR Values InputType Merge Variables Fields Dependencies HostValidation HostSpecs SystemdSpecs NetworkdSpecs HostBuild MovedDecl ComponentSpecs DockerSpecs Hcl Parse Locals ParseConfig ParseFiles Assertions.

(** ** What a program says beside its hosts *)

(** [ir.ComponentInputTypeSpec], its attributes with their flag and default. *)
Inductive TypeSpec := mkTypeSpec {
  ts_Kind : string;
  ts_Element : option TypeSpec;
  ts_Attributes : gmap string (TypeSpec * bool * goval);
  ts_Tuple : list TypeSpec;
}.

Record InputSpec := {
  is_Name : string;
  is_Type : string;
  is_TypeExpr : string;
  is_TypeSpec : TypeSpec;
  is_Description : string;
  is_Default : goval;
  is_Sensitive : bool;
  is_Nullable : bool;
  is_Deprecated : string;
  is_Validations : list ValidationSpec;
  is_Source : SourceRef;
}.

(** [ir.VariableSpec]: the fields it shares with an input, and its own. *)
Record VariableSpec := {
  vrs_Input : InputSpec;
  vrs_Ephemeral : bool;
  vrs_Const : bool;
}.

Record TemplateSpec := {
  tps_Name : string;
  tps_ArtifactType : string;
  tps_Version : string;
  tps_Inputs : gmap string InputSpec;
  tps_Scripts : gmap string (string * SourceRef);
  tps_Sources : gmap string ComponentArtifactSourceSpec;
  tps_Extract : option ComponentArtifactExtractSpec;
  tps_Build : option ComponentArtifactBuildSpec;
  tps_Install : option ComponentArtifactInstallSpec;
  tps_Source : SourceRef;
}.

(** [ir.ScriptDefinitionSpec]: name, declaration and source. *)
Record ScriptDefinitionSpec := {
  sds_Name : string;
  sds_DeclarationID : string;
  sds_Source : SourceRef;
}.

Record ir_Warning := { wn_Source : SourceRef; wn_Message : string }.

Record Compiled := {
  cd_Program : Program;
  cd_Variables : gmap string VariableSpec;
  cd_Components : gmap string TemplateSpec;
  cd_Scripts : gmap string ScriptDefinitionSpec;
  cd_Warnings : list ir_Warning;
}.

Record CompileOptions := {
  op_HostFilter : string;
  op_HostFacts : gmap string HostFacts;
  op_SkipComponents : bool;
  op_ValidateRuntimeTemplates : bool;
  op_SuppressSecretFileDeprecationWarning : bool;
}.

(** ** Errors *)

(** What the evaluation of a template for an instance can fail with. *)
Inductive evaluation_error :=
| InputsFailed (source : SourceRef) (e : checked_error parse_error)
| EvaluationFailed (e : parse_error).

Inductive compile_failure :=
| InValue (e : checked_error parse_error)
| InProfiles (e : Merge.compile_error)
| InHost (e : platform_failure)
| InDependencies (e : dependency_error)
| InSpec (e : spec_error)
| InEvaluation (e : parse_error)
| InComponents (e : component_failure evaluation_error)
| InValidation (e : validation_error)
| InAssertion (e : parse_error).

(** [isRuntimeUnknownError]: the text of the error mentions unknown values.
    The parts of a text are joined by colons, which the phrase does not hold. *)
Definition unknown_phrase (s : string) : bool := strings_Contains s "unknown values are not supported".
Definition unknown_source (s : SourceRef) : bool := unknown_phrase (src_File s) || unknown_phrase (src_Path s).
Fixpoint unknown_parse_error (e : parse_error) : bool :=
  match e with
  | ShapeError file _ message | At file _ message => unknown_phrase file || unknown_phrase message
  | AtSource source message => unknown_source source || unknown_phrase message
  | Plain message => unknown_phrase message
  | Within file _ path cause => unknown_phrase file || unknown_phrase path || unknown_parse_error cause
  | Prefixed prefix cause => unknown_phrase prefix || unknown_parse_error cause
  | OutOfFuel => false
  end.
Definition unknown_field_error (e : field_error) : bool :=
  match e with
  | ExpectedObject s | MustBeObject s | MustBeString s | MustBeStringOrNull s | MustBeBoolean s | MustBeList s | MustBeMap s
  | EphemeralNotAllowed s | NameEmpty s | BadEnsure s => unknown_source s
  | MustBeOneOf s text | EntryNotString s text | BadMode s text | EmptyStableName s text => unknown_source s || unknown_phrase text
  | DuplicateEntry s list_path text | BadStableName s list_path text =>
      unknown_source s || unknown_phrase list_path || unknown_phrase text
  | RequiredStringList s text => unknown_source s || from_option unknown_phrase false text
  end.
Definition unknown_spec_error (e : spec_error) : bool :=
  match e with
  | FieldError e => unknown_field_error e
  | Invalid s suffix message => unknown_source s || unknown_phrase suffix || unknown_phrase message
  | Clash s what name other previous =>
      unknown_source s || existsb unknown_phrase [what; name; other] || unknown_source previous
  | DuplicatePackage s name previous => unknown_source s || unknown_phrase name || unknown_source previous
  | DuplicateModule s name => unknown_source s || unknown_phrase name
  | MustBeMapOf s => unknown_source s
  | UnknownScript s what traversal => unknown_source s || unknown_phrase what || unknown_phrase traversal
  | InvalidName s suffix what name => unknown_source s || existsb unknown_phrase [suffix; what; name]
  | ReadSource s path => unknown_source s || unknown_phrase path
  end.
(** The errors of [buildComponentSpec]: those of its scripts and sections. *)
Definition isRuntimeUnknownError (e : component_failure evaluation_error) : bool :=
  match e with
  | ComponentSpecError e => unknown_spec_error e
  | Evaluation (EvaluationFailed e) => unknown_parse_error e
  | _ => false
  end.

(** ** Views of the parser's records *)

Section views.
Context `{!HCL}.

Definition input_decl (i : ParseConfig.ComponentInput) : Variables.ComponentInput Validation :=
  {| inp_Name := cin_Name i; inp_TypeSpec := cin_TypeSpec i; inp_Default := cin_Default i; inp_Sensitive := cin_Sensitive i;
     inp_Nullable := cin_Nullable i; inp_Deprecated := cin_Deprecated i; inp_Validations := cin_Validations i;
     inp_Source := cin_Source i |}.
Definition component_decl (c : ParseConfig.Component) : Variables.Component Validation :=
  {| cmp_Name := cm_Name c; cmp_Inputs := input_decl <$> cm_Inputs c |}.
Definition inputs_decl (i : instance) : Variables.ComponentInstance :=
  {| ins_Name := in_Name i; Variables.ins_Inputs := in_Inputs i; ins_Source := in_Source i |}.

Definition instance_of (i : ParseConfig.ComponentInstance) : instance :=
  {| in_Name := cin_InstanceName i; in_Template := cin_Template i; in_Inputs := cin_Inputs i;
     in_StagingRoot := from_option fst "" (cin_StagingRoot i);
     in_StagingRootSet := bool_decide (is_Some (cin_StagingRoot i));
     in_StagingRootSource := from_option snd no_source (cin_StagingRoot i); in_Source := cin_InstanceSource i |}.

(** The artifact part of a template, with its sources. *)
Definition template_with (sources : gmap string ArtifactSource) (c : ParseConfig.Component) : template :=
  {| tpl_Name := cm_Name c; tpl_Source := cm_Source c; tpl_Type := cm_Type c; tpl_Version := cm_Version c;
     tpl_Sources := as_Value <$> sources; tpl_Extract := cm_Extract c; tpl_Build := cm_Build c; tpl_Install := cm_Install c |}.
Definition template_of (c : ParseConfig.Component) : template := template_with (cm_Sources c) c.

(** A declared script before its evaluation: only which fields are set. *)
Definition unevaluated (d : ScriptDecl) : ComponentScript :=
  {| scr_Name := sd_Name d; scr_Mode := ""; scr_Interpreter := []; scr_Outputs := []; scr_Run := ""; scr_Content := "";
     scr_Commands := []; scr_Sensitive := false; scr_ModeSet := has (sd_Mode d); scr_InterpreterSet := has (sd_Interpreter d);
     scr_OutputsSet := has (sd_Outputs d); scr_RunSet := has (sd_Run d); scr_ContentSet := has (sd_Content d);
     scr_CommandsSet := has (sd_Commands d); scr_ModeSource := field_source (sd_Mode d);
     scr_InterpreterSource := field_source (sd_Interpreter d); scr_OutputsSource := field_source (sd_Outputs d);
     scr_CommandsSource := field_source (sd_Commands d); scr_Source := sd_Source d |}.

(** ** Descriptions *)

Fixpoint componentInputTypeSpecToIR (spec : ComponentInputTypeSpec) : TypeSpec :=
  mkTypeSpec (kind_text (t_Kind spec)) (componentInputTypeSpecToIR <$> t_Element spec)
    ((fun a => (componentInputTypeSpecToIR (a_Type a), a_Optional a, from_option parserValueToAny GNil (a_Default a)))
       <$> t_Attributes spec)
    (componentInputTypeSpecToIR <$> t_Tuple spec).

Definition input_spec (i : ParseConfig.ComponentInput) (dflt : goval) : InputSpec :=
  {| is_Name := cin_Name i; is_Type := cin_Type i; is_TypeExpr := cin_TypeExpr i;
     is_TypeSpec := componentInputTypeSpecToIR (cin_TypeSpec i); is_Description := cin_Description i; is_Default := dflt;
     is_Sensitive := cin_Sensitive i; is_Nullable := cin_Nullable i; is_Deprecated := cin_Deprecated i;
     is_Validations := componentInputValidationSpecs (cin_Validations i); is_Source := cin_Source i |}.

Section specs.
Variable range_keys : gmap string Value -> list string.

(** The loop over a map in the order of its names, into a map. *)
Definition build_map {E A B} (f : string -> A -> result E B) (m : gmap string A) : result E (gmap string B) :=
  fold_res (fun out p => b ← f p.1 p.2; Ok (<[p.1 := b]> out)) (sorted_entries m) ∅.

Definition template_input (i : ParseConfig.ComponentInput) : result compile_failure InputSpec :=
  _ ← map_err InValue (validateComponentInputDefinition range_keys evaluateComponentInputValidations (input_decl i));
  dflt ← match cin_Default i with
         | None => Ok GNil
         | Some dflt => parserValueToAny <$> map_err InValue (value_error (normalizeComponentInput range_keys (input_decl i) dflt))
         end;
  Ok (input_spec i dflt).

Definition template_script (d : ScriptDecl) : result compile_failure (string * SourceRef) :=
  _ ← map_err InSpec (validateComponentScriptShape (unevaluated d)); Ok (sd_Name d, sd_Source d).

Definition componentTemplateSpec (c : ParseConfig.Component) : result compile_failure TemplateSpec :=
  inputs ← build_map (fun _ => template_input) (cm_Inputs c);
  scripts ← build_map (fun _ => template_script) (cm_Scripts c);
  Ok {| tps_Name := cm_Name c; tps_ArtifactType := cm_Type c; tps_Version := cm_Version c; tps_Inputs := inputs;
        tps_Scripts := scripts; tps_Sources := (fun s => selected (as_Value s)) <$> cm_Sources c; tps_Extract := cm_Extract c;
        tps_Build := cm_Build c; tps_Install := cm_Install c; tps_Source := cm_Source c |}.
Definition componentTemplateSpecs (components : gmap string ParseConfig.Component)
  : result compile_failure (gmap string TemplateSpec) :=
  build_map (fun _ => componentTemplateSpec) components.

Definition rootScriptDefinitionSpecs (scripts : gmap string ScriptDecl)
  : result compile_failure (gmap string ScriptDefinitionSpec) :=
  build_map (fun name d =>
    _ ← map_err InSpec (validateComponentScriptShape (unevaluated d));
    Ok {| sds_Name := name; sds_DeclarationID := src_Path (sd_Source d); sds_Source := sd_Source d |}) scripts.

Definition normalizeVariable (v : Variable_) (value : Value) : result (checked_error parse_error) Value :=
  value_error (NormalizeVariableValue range_keys (variable_decl v) value).

Definition validateVariableDefinition (v : Variable_) : result (checked_error parse_error) unit :=
  _ ← match cin_Default (vr_Input v) with
      | None => Ok tt
      | Some dflt =>
          normalized ← normalizeVariable v dflt; map_err ConditionError (evaluateVariableValidations v normalized)
      end;
  value_error (validateComponentInputTypeSpecDefaults range_keys (cin_Name (vr_Input v)) (cin_TypeSpec (vr_Input v)) "").

(** A variable is described with its value, or with its default. *)
Definition variable_spec (values : gmap string Value) (name : string) (v : Variable_) : result (checked_error parse_error) VariableSpec :=
  _ ← validateVariableDefinition v;
  dflt ← match values !! name, cin_Default (vr_Input v) with
         | Some value, _ => Ok (parserValueToAny value)
         | None, Some dflt => parserValueToAny <$> normalizeVariable v dflt
         | None, None => Ok GNil
         end;
  Ok {| vrs_Input := input_spec (vr_Input v) dflt; vrs_Ephemeral := vr_Ephemeral v; vrs_Const := vr_Const v |}.
End specs.

End views.

(** ** The compiler *)

Section compile.
Context `{!HCL} {order : AttrOrder}.
Variable ReadFile : string -> option string.
Variable range_keys : gmap string Value -> list string.
Variable visit : forall {A}, string -> gmap string A -> list (string * A).
Variable cfg : Config.

Definition convert_entry (prefix : string -> string) (p : string * Value) : P (string * cty) :=
  converted ← map_err (Prefixed (prefix p.1)) (ToCty p.2); Ok (p.1, converted).

(** The error is that of the first failing variable; Go ranges over them in any
    order. *)
Definition evalVariables (extra : gmap string cty) : P (gmap string cty) :=
  entries ← seq_res (convert_entry (fun name => "var." +:+ name +:+ ": ") <$> sorted_entries (cf_VariableValues cfg));
  Ok (extra ∪ {["var" := cty_ObjectVal (list_to_map entries)]}).

Definition context_in (dir : string) (variables : gmap string cty) : EvalContext :=
  {| ec_ModuleDir := dir; ec_Locals := cf_Locals cfg; ec_Variables := variables; ec_RestrictVariableDefaultReferences := false |}.

(** *** Warnings *)

Definition variable_warning (values : gmap string Value) (p : string * Variable_) : list ir_Warning :=
  let deprecated := cin_Deprecated (vr_Input p.2) in
  match values !! p.1 with
  | Some value =>
      if negb (bool_decide (deprecated = "")) && bool_decide (p.1 ∈ cf_ExplicitVariableValues cfg)
      then [{| wn_Source := v_Source value; wn_Message := "variable " +:+ quoted p.1 +:+ " is deprecated: " +:+ deprecated |}]
      else []
  | None => []
  end.

Definition warnSecretFilesDeprecated (suppress : bool) (files : gmap string SecretFile) : list ir_Warning :=
  if suppress then []
  else (fun p => {| wn_Source := HostIR.sf_Source p.2;
                    wn_Message := "secrets.file is deprecated; use variable + files.file content with content_version instead" |})
         <$> sorted_entries files.

Definition input_warning (w : Warning) : ir_Warning :=
  {| wn_Source := w_Source w;
     wn_Message := "component." +:+ w_component w +:+ " input " +:+ quoted (w_input w) +:+ " is deprecated: " +:+ w_text w |}.

(** *** Variables *)

Definition validateVariableValues : result compile_failure (list ir_Warning) :=
  fold_res (fun warnings p =>
    match cf_VariableValues cfg !! p.1 with
    | None => Ok warnings
    | Some value =>
        _ ← map_err (fun e => InValue (ConditionError e)) (evaluateVariableValidations p.2 value);
        Ok (warnings ++ variable_warning (cf_VariableValues cfg) p)
    end) (sorted_entries (cf_Variables cfg)) [].

Definition variableSpecs : result compile_failure (gmap string VariableSpec) :=
  build_map (fun name v => map_err InValue (variable_spec range_keys (cf_VariableValues cfg) name v)) (cf_Variables cfg).

(** *** Hosts *)

Definition with_docker (docker : option DockerSpec) (dependencies : list ResourceDependencySpec) (h : HostSpec) : HostSpec :=
  {| h_Name := h_Name h; h_Source := h_Source h; h_Facts := h_Facts h; h_SSH := h_SSH h; h_State := h_State h;
     h_Staging := h_Staging h; h_Moves := h_Moves h; h_Platform := h_Platform h; h_System := h_System h;
     h_Kernel := h_Kernel h; h_Packages := h_Packages h; h_APT := h_APT h; h_Files := h_Files h; h_Secrets := h_Secrets h;
     h_Directories := h_Directories h; h_Groups := h_Groups h; h_Users := h_Users h; h_Systemd := h_Systemd h;
     h_Services := h_Services h; h_Nftables := h_Nftables h; h_Docker := docker; h_Scripts := h_Scripts h;
     h_Components := h_Components h; h_ExplicitDependencies := dependencies |}.

(** The rest of [buildHostSpec], after its sections. *)
Definition buildHostSpec (host : Host Validation) (raw : Value) : result compile_failure HostSpec :=
  spec ← map_err InHost (HostBuild.host_sections ReadFile host raw);
  docker ← map_err InSpec (section raw "docker" None (fun docker => d ← dockerSpec ReadFile docker; Ok (Some d)));
  dependencies ← map_err InDependencies (resourceDependencies raw ("host." +:+ hst_Name host));
  Ok (with_docker docker dependencies spec).

Definition set_networkd (networkd : option NetworkdSpec) (s : SystemdSpec) : SystemdSpec :=
  {| sd_Units := sd_Units s; HostIR.sd_Networkd := networkd; sd_Timers := sd_Timers s; sd_Resolved := sd_Resolved s;
     sd_Journald := sd_Journald s; HostIR.sd_Source := HostIR.sd_Source s |}.
Definition with_scripts (moves : list MovedSpec) (scripts : gmap string ComponentScriptSpec) (networkd : option NetworkdSpec)
    (h : HostSpec) : HostSpec :=
  {| h_Name := h_Name h; h_Source := h_Source h; h_Facts := h_Facts h; h_SSH := h_SSH h; h_State := h_State h;
     h_Staging := h_Staging h; h_Moves := moves; h_Platform := h_Platform h; h_System := h_System h;
     h_Kernel := h_Kernel h; h_Packages := h_Packages h; h_APT := h_APT h; h_Files := h_Files h; h_Secrets := h_Secrets h;
     h_Directories := h_Directories h; h_Groups := h_Groups h; h_Users := h_Users h;
     h_Systemd := set_networkd networkd (h_Systemd h);
     h_Services := h_Services h; h_Nftables := h_Nftables h; h_Docker := h_Docker h; h_Scripts := scripts;
     h_Components := h_Components h; h_ExplicitDependencies := h_ExplicitDependencies h |}.
Definition with_components (components : list ComponentInstanceSpec) (dependencies : list ResourceDependencySpec) (h : HostSpec)
  : HostSpec :=
  {| h_Name := h_Name h; h_Source := h_Source h; h_Facts := h_Facts h; h_SSH := h_SSH h; h_State := h_State h;
     h_Staging := h_Staging h; h_Moves := h_Moves h; h_Platform := h_Platform h; h_System := h_System h;
     h_Kernel := h_Kernel h; h_Packages := h_Packages h; h_APT := h_APT h; h_Files := h_Files h; h_Secrets := h_Secrets h;
     h_Directories := h_Directories h; h_Groups := h_Groups h; h_Users := h_Users h; h_Systemd := h_Systemd h;
     h_Services := h_Services h; h_Nftables := h_Nftables h; h_Docker := h_Docker h; h_Scripts := h_Scripts h;
     h_Components := components; h_ExplicitDependencies := dependencies |}.

(** *** Scripts of a host *)

Definition host_script (ctx : string -> EvalContext) (out : gmap string ComponentScriptSpec) (p : string * ScriptDecl)
  : result compile_failure (gmap string ComponentScriptSpec) :=
  evaluated ← map_err InEvaluation (EvaluateComponentScript p.2 (ctx (sd_ModuleDir p.2)));
  map_err InSpec (root_script out (p.1, evaluated)).
Definition evaluated_host_scripts (target : HostSpec) : result compile_failure (gmap string ComponentScriptSpec) :=
  if bool_decide (cf_Scripts cfg = ∅) then Ok ∅
  else
    variables ← map_err InEvaluation (evalVariables {["target" := hostSpecToCty target]});
    fold_res (host_script (fun dir => context_in dir variables)) (sorted_entries (cf_Scripts cfg)) ∅.

(** *** Evaluating a template *)

Abbreviation CE := (C evaluation_error).
Definition evaluated {A} (m : P A) : CE A := map_err (fun e => Evaluation (EvaluationFailed e)) m.
Definition mounted {A} (c : ParseConfig.Component) (i : instance) (m : CE A) : CE A :=
  map_err (Mounted (cm_Source c) (in_Source i)) m.

Definition instance_inputs (i : instance) (c : ParseConfig.Component) : CE input_values :=
  map_err (fun e => Evaluation (InputsFailed (in_Source i) e))
    (componentInputValues range_keys evaluateComponentInputValidations (component_decl c) (inputs_decl i)).

Definition input_variables (i : instance) (values : gmap string Value) : CE cty :=
  let source := in_Source i in
  entries ← evaluated (seq_res (convert_entry (fun name =>
      position source +:+ ":" +:+ src_Path source +:+ ".inputs[" +:+ quoted name +:+ "]: ") <$> sorted_entries values));
  Ok (objectOrEmpty (list_to_map entries)).

Definition component_context (target input : cty) (c : ParseConfig.Component) : CE EvalContext :=
  variables ← evaluated (evalVariables {["target" := target; "input" := input]});
  Ok (context_in (cm_ModuleDir c) variables).

(** The context of an instance, in the order of the code. *)
Definition instance_context (target : cty) (i : instance) (c : ParseConfig.Component) : CE (input_values * EvalContext) :=
  values ← instance_inputs i c;
  input ← input_variables i (iv_values values);
  ctx ← component_context target input c;
  Ok (values, ctx).

(** A script is checked as soon as it is evaluated; [buildComponentSpec] repeats
    the check for its result. *)
Definition evaluate_script (ctx : EvalContext) (out : gmap string ComponentScript) (p : string * ScriptDecl)
  : CE (gmap string ComponentScript) :=
  script ← evaluated (EvaluateComponentScript p.2 ctx);
  _ ← map_err ComponentSpecError (componentScriptSpec script);
  Ok (<[p.1 := script]> out).
Definition evaluate_scripts (ctx : EvalContext) (c : ParseConfig.Component) : CE (gmap string ComponentScript) :=
  fold_res (evaluate_script ctx) (sorted_entries (cm_Scripts c)) ∅.

Definition component_body (ctx : EvalContext) (c : ParseConfig.Component) : P Value :=
  ParseComponentBody (cm_Source c) (cm_Body c) ctx.

Definition evaluate_template (target : cty) (i : instance) (c : ParseConfig.Component) : CE evaluation :=
  context ← instance_context target i c;
  raw ← mounted c i (evaluated (component_body context.2 c));
  scripts ← evaluate_scripts context.2 c;
  Ok {| ev_Body := raw; ev_Scripts := scripts; ev_Inputs := iv_json context.1 |}.

Definition evaluate_sources (target : cty) (i : instance) (c : ParseConfig.Component) : CE template :=
  context ← instance_context target i c;
  sources ← mounted c i (evaluated (EvaluateComponentArtifactSources (cm_Sources c) context.2));
  Ok (template_with sources c).

(** *** Instances *)

Definition install_of (c : ComponentInstanceSpec) : ComponentInstall :=
  {| Dependencies.ci_Name := HostIR.ci_Name c; ci_InstallPath := HostIR.ins_Path <$> ci_Install c |}.

Definition set_dependencies (dependencies : list ResourceDependencySpec) (c : ComponentInstanceSpec) : ComponentInstanceSpec :=
  {| HostIR.ci_Name := HostIR.ci_Name c; ci_Template := ci_Template c; ci_InputValues := ci_InputValues c; ci_StagingRoot := ci_StagingRoot c;
     ci_ArtifactType := ci_ArtifactType c; ci_Version := ci_Version c; ci_Scripts := ci_Scripts c;
     ci_SelectedSource := ci_SelectedSource c; ci_Extract := ci_Extract c; ci_Build := ci_Build c; ci_Install := ci_Install c;
     ci_APT := ci_APT c; ci_Packages := ci_Packages c; ci_Files := ci_Files c; ci_Secrets := ci_Secrets c;
     ci_Directories := ci_Directories c; ci_Groups := ci_Groups c; ci_Users := ci_Users c; ci_Systemd := ci_Systemd c;
     ci_Services := ci_Services c; ci_Source := ci_Source c; ci_ExplicitDependencies := dependencies |}.

(** The dependencies of the host, then those of its components, are rewritten
    with the index of what the components install. *)
Definition resolve_artifacts (hostName : string) (components : list ComponentInstanceSpec)
    (dependencies : list ResourceDependencySpec)
  : result compile_failure (list ResourceDependencySpec * list ComponentInstanceSpec) :=
  let index := artifactInstallAddresses hostName (install_of <$> components) in
  dependencies ← map_err InDependencies (resolveArtifactDependencies dependencies index);
  components ← mapi_res (fun _ c =>
    dependencies ← map_err InDependencies (resolveArtifactDependencies (ci_ExplicitDependencies c) index);
    Ok (set_dependencies dependencies c)) 0 components;
  Ok (dependencies, components).

(** The warnings of an instance: its deprecated inputs and its secrets. *)
Definition instance_warnings (suppress : bool) (target : cty) (i : instance) (c : ComponentInstanceSpec) : list ir_Warning :=
  match cf_Components cfg !! in_Template i with
  | Some t =>
      match instance_inputs i t with
      | Ok values => (input_warning <$> iv_warnings values) ++ warnSecretFilesDeprecated suppress (secs_Files (ci_Secrets c))
      | Err _ => []
      end
  | None => []
  end.

Definition mount_components (suppress : bool) (instances : list instance) (spec : HostSpec)
  : result compile_failure (HostSpec * list ir_Warning) :=
  let target := hostSpecToCty spec in
  components ← map_err InComponents
    (instantiateComponents ReadFile template_of (evaluate_template target) (evaluate_sources target) (cf_Components cfg) spec
       instances);
  let warnings := concat (zip_with (instance_warnings suppress target) instances components) in
  resolved ← resolve_artifacts (h_Name spec) components (h_ExplicitDependencies spec);
  Ok (with_components resolved.2 resolved.1 spec, warnings).

(** *** Templates before the facts are known *)

(** An instance of which only the artifact is known. *)
Definition known_component (i : instance) (c : ParseConfig.Component) (inputs : gmap string goval) (stagingRoot : string)
    (install : ComponentArtifactInstallSpec) : ComponentInstanceSpec :=
  {| HostIR.ci_Name := in_Name i; ci_Template := cm_Name c; ci_InputValues := inputs; ci_StagingRoot := stagingRoot;
     ci_ArtifactType := cm_Type c; ci_Version := cm_Version c; ci_Scripts := ∅; ci_SelectedSource := None; ci_Extract := None;
     ci_Build := None; ci_Install := Some install; ci_APT := zero_APTSpec; ci_Packages := zero_PackageSpec;
     ci_Files := zero_FileSpec; ci_Secrets := zero_SecretSpec; ci_Directories := zero_DirectorySpec; ci_Groups := zero_GroupSpec;
     ci_Users := zero_UserSpec; ci_Systemd := zero_SystemdSpec; ci_Services := zero_ServiceSpec; ci_Source := in_Source i;
     ci_ExplicitDependencies := [] |}.

(** The instance that was built, with what its artifact installs. *)
Definition runtime_component (t : ParseConfig.Component) (inputs : gmap string goval) (stagingRoot : string)
    (install : option ComponentArtifactInstallSpec) (dependencies : list ResourceDependencySpec) (c : ComponentInstanceSpec)
  : ComponentInstanceSpec :=
  {| HostIR.ci_Name := HostIR.ci_Name c; ci_Template := cm_Name t; ci_InputValues := inputs; ci_StagingRoot := stagingRoot;
     ci_ArtifactType := if has install then cm_Type t else ci_ArtifactType c;
     ci_Version := if has install then cm_Version t else ci_Version c; ci_Scripts := ci_Scripts c;
     ci_SelectedSource := ci_SelectedSource c; ci_Extract := ci_Extract c; ci_Build := ci_Build c;
     ci_Install := match install with Some _ => install | None => ci_Install c end; ci_APT := ci_APT c; ci_Packages := ci_Packages c;
     ci_Files := ci_Files c; ci_Secrets := ci_Secrets c; ci_Directories := ci_Directories c; ci_Groups := ci_Groups c;
     ci_Users := ci_Users c; ci_Systemd := ci_Systemd c; ci_Services := ci_Services c; ci_Source := ci_Source c;
     ci_ExplicitDependencies := dependencies |}.

Definition validateComponentAgainstHost (target : HostSpec) (component : ComponentInstanceSpec) : V unit :=
  validateHostSpec (@visit) (with_components (h_Components target ++ [component]) (h_ExplicitDependencies target) target).

(** The components that were checked so far, where each name was declared, and
    the warnings. *)
Record runtime_state := {
  rt_components : list ComponentInstanceSpec;
  rt_seen : gmap string SourceRef;
  rt_warnings : list ir_Warning;
}.

Section runtime.
Variable suppress : bool.
Variable target : HostSpec.

Definition check_component (s : runtime_state) (component : ComponentInstanceSpec) : result compile_failure runtime_state :=
  _ ← map_err InValidation
        (validateComponentAgainstHost (with_components (rt_components s) (h_ExplicitDependencies target) target) component);
  Ok {| rt_components := rt_components s ++ [component]; rt_seen := rt_seen s; rt_warnings := rt_warnings s |}.

(** [buildComponentSpec] with its scripts. *)
Definition build_component (i : instance) (c : ParseConfig.Component) (ctx : EvalContext) (raw : Value) : CE ComponentInstanceSpec :=
  scripts ← evaluate_scripts ctx c;
  map_err ComponentSpecError (buildComponentSpec ReadFile i scripts raw (h_Scripts target)).

Definition warn (ws : list ir_Warning) (s : runtime_state) : runtime_state :=
  {| rt_components := rt_components s; rt_seen := rt_seen s; rt_warnings := rt_warnings s ++ ws |}.

(** When the body reads an unknown fact, only the artifact is checked. *)
Definition runtime_body (s : runtime_state) (i : instance) (c : ParseConfig.Component) (inputs : gmap string goval)
    (stagingRoot : string) (ctx : EvalContext) (install : option ComponentArtifactInstallSpec)
  : result compile_failure runtime_state :=
  let artifact_only :=
    match install with
    | Some install => check_component s (known_component i c inputs stagingRoot install)
    | None => Ok s
    end in
  match component_body ctx c with
  | Err e =>
      if unknown_parse_error e then artifact_only
      else Err (InComponents (Mounted (cm_Source c) (in_Source i) (Evaluation (EvaluationFailed e))))
  | Ok raw =>
      match build_component i c ctx raw with
      | Err e => if isRuntimeUnknownError e then artifact_only else Err (InComponents e)
      | Ok component =>
          dependencies ← map_err InDependencies
            (resourceDependencies raw ("host." +:+ h_Name target +:+ ".components." +:+ HostIR.ci_Name component));
          check_component (warn (warnSecretFilesDeprecated suppress (secs_Files (ci_Secrets component))) s)
            (runtime_component c inputs stagingRoot install dependencies component)
      end
  end.

(** The name, the template and the inputs of an instance. *)
Definition runtime_header (s : runtime_state) (i : instance) : CE (ParseConfig.Component * string) :=
  _ ← map_err ComponentSpecError
        (require (negb (bool_decide (in_Name i = ""))) (in_Source i) "" "component instance name must be non-empty");
  _ ← match rt_seen s !! in_Name i with
      | Some previous => Err (ComponentSpecError (Clash (in_Source i) "component instance" (in_Name i) "instance" previous))
      | None => Ok tt
      end;
  c ← of_option (ComponentSpecError (InvalidName (in_Source i) "" "unknown component" (in_Template i)))
        (cf_Components cfg !! in_Template i);
  stagingRoot ← map_err ComponentSpecError (componentInstanceStagingRoot i (template_of c));
  Ok (c, stagingRoot).

Definition runtime_component_check (s : runtime_state) (i : instance) : result compile_failure runtime_state :=
  let target_value := runtimeValidationTargetValue target in
  header ← map_err InComponents (runtime_header s i);
  let '(c, stagingRoot) := header in
  values ← map_err InComponents (instance_inputs i c);
  input ← map_err InComponents (input_variables i (iv_values values));
  _ ← map_err InComponents (mounted c i (evaluated (ValidateComponentBodyShape (cm_Source c) (cm_Body c))));
  ctx ← map_err InComponents (component_context target_value input c);
  sources ← map_err InComponents (mounted c i (evaluated (EvaluateComponentArtifactSources (cm_Sources c) ctx)));
  install ← map_err InComponents (mounted c i (map_err ComponentSpecError (validateComponentArtifactTemplate (template_with sources c))));
  runtime_body
    {| rt_components := rt_components s; rt_seen := <[in_Name i := in_Source i]> (rt_seen s);
       rt_warnings := rt_warnings s ++ (input_warning <$> iv_warnings values) |}
    i c (iv_json values) stagingRoot ctx install.

(** The dependencies of the host are rewritten in place. *)
Definition validateRuntimeComponentTemplates (instances : list instance)
  : result compile_failure (list ResourceDependencySpec * list ir_Warning) :=
  match instances with
  | [] => Ok (h_ExplicitDependencies target, [])
  | _ =>
      s ← fold_res runtime_component_check instances {| rt_components := h_Components target; rt_seen := ∅; rt_warnings := [] |};
      resolved ← resolve_artifacts (h_Name target) (rt_components s) (h_ExplicitDependencies target);
      Ok (resolved.1, rt_warnings s)
  end.
End runtime.

(** *** Programs *)

Variable opts : CompileOptions.

(** The components of a host, in the mode that the options ask for. *)
Definition host_components (instances : list instance) (spec : HostSpec) : result compile_failure (HostSpec * list ir_Warning) :=
  let suppress := op_SuppressSecretFileDeprecationWarning opts in
  if op_ValidateRuntimeTemplates opts then
    checked ← validateRuntimeComponentTemplates suppress spec instances;
    Ok (with_components (h_Components spec) checked.1 spec, checked.2)
  else if op_SkipComponents opts then Ok (spec, [])
  else mount_components suppress instances spec.

Definition apply_facts (spec : HostSpec) (facts : option HostFacts) : result compile_failure HostSpec :=
  from_option (fun facts => map_err InHost (applyHostFacts spec facts)) (Ok spec) facts.

(** The loop over the hosts after the merge of the profiles. *)
Definition build_host (host : HostDecl) (raw : Value) (asserts : list Validation)
  : result compile_failure (HostSpec * list ir_Warning) :=
  spec ← buildHostSpec (hd_Host host) raw;
  spec ← apply_facts spec (op_HostFacts opts !! hst_Name (hd_Host host));
  scripts ← evaluated_host_scripts spec;
  networkd ← map_err InSpec (validateNetworkdActivationRefs ∅ scripts (sd_Networkd (h_Systemd spec)));
  let spec := with_scripts (movedSpecs (cf_Moves cfg) (hst_Name (hd_Host host))) scripts networkd spec in
  built ← host_components (instance_of <$> hd_Components host) spec;
  _ ← map_err InValidation (validateHostSpec (@visit) built.1);
  _ ← map_err InAssertion (evaluateAssertions asserts built.1);
  Ok (built.1,
      warnSecretFilesDeprecated (op_SuppressSecretFileDeprecationWarning opts) (secs_Files (h_Secrets spec)) ++ built.2).

Definition profiles_error {A} (m : M Merge.compile_error (compiler Validation) A) : M compile_failure (compiler Validation) A :=
  fun c => let '(r, c') := m c in (map_err InProfiles r, c').

Definition compile_host (acc : list HostSpec * list ir_Warning) (name : string)
  : M compile_failure (compiler Validation) (list HostSpec * list ir_Warning) :=
  if negb (bool_decide (op_HostFilter opts = "")) && negb (bool_decide (name = op_HostFilter opts)) then mret acc
  else match cf_Hosts cfg !! name with
  | None => mret acc
  | Some host =>
      merged ← profiles_error (mergeHost (cf_Profiles cfg) (hd_Host host));
      built ← lift (build_host host merged.1 merged.2);
      mret (acc.1 ++ [built.1], acc.2 ++ built.2)
  end.

Definition CompileWithOptions : result compile_failure Compiled :=
  components ← componentTemplateSpecs range_keys (cf_Components cfg);
  warnings ← validateVariableValues;
  variables ← variableSpecs;
  scripts ← rootScriptDefinitionSpecs (cf_Scripts cfg);
  built ← (fold_M compile_host (sorted_keys (cf_Hosts cfg)) ([], warnings) new_compiler).1;
  Ok {| cd_Program := {| p_Hosts := built.1 |}; cd_Variables := variables; cd_Components := components; cd_Scripts := scripts;
        cd_Warnings := built.2 |}.

End compile.
