(* ===== verification/CompileProps.v ===== *)
(** * Properties of the compilation of a configuration

    What [CompileWithOptions] computes, in terms of the meaning of imports and
    of one host at a time; that every compiled host is well formed and passed
    its checks; that the filter selects among the hosts; and that conditions
    never see the contents of files. *)
From S2P Require Import Prelude Sha256 GoValue GoStrings IR Dependencies DependencyProps HostIR Values InputType Merge MergeProps Variables Fields Dependencies HostValidation HostValidationProps HostSpecs SystemdSpecs NetworkdSpecs HostBuild HostBuildUnits HostBuildProps MovedDecl ComponentSpecs ComponentProps DockerSpecs Hcl Parse Locals ParseConfig ParseFiles Assertions Compile.

Lemma Forall2_det {A B} (R : A -> B -> Prop) (Hdet : forall a b b', R a b -> R a b' -> b = b') l k k' :
  Forall2 R l k -> Forall2 R l k' -> k = k'.
Proof.
  intros H. revert k'. induction H as [|a b l k Hab _ IH]; intros k' H'; inversion H' as [|? b' ? k'' Hab' Hk]; subst; [done|].
  f_equal; [by eapply Hdet|by apply IH].
Qed.

Lemma filter_everything {A} (P : A -> Prop) `{forall x, Decision (P x)} (l : list A) : Forall P l -> filter P l = l.
Proof. induction 1 as [|x l Hx _ IH]; [done|]. by rewrite filter_cons_True, IH. Qed.

Lemma filter_fmap {A B} (P : B -> Prop) `{forall x, Decision (P x)} (f : A -> B) (l : list A) : f <$> filter (fun x => P (f x)) l = filter P (f <$> l).
Proof. induction l as [|x l IH]; [done|]. rewrite fmap_cons, !filter_cons. destruct (decide (P (f x))); cbn; by rewrite IH. Qed.

(** ** One host at a time *)

Section compile.
Context `{!HCL} {order : AttrOrder}.
Context (ReadFile : string -> option string) (range_keys : gmap string Value -> list string).
Context (visit : forall {A}, string -> gmap string A -> list (string * A)) (cfg : Config).

Abbreviation build_host := (build_host ReadFile range_keys (@visit) cfg).

(** The host named [name] compiles to [out]: the meaning of its imports, built. *)
Definition compiles (opts : CompileOptions) (name : string) (out : HostSpec * list ir_Warning) : Prop :=
  exists host merged, cf_Hosts cfg !! name = Some host /\ host_resolves (cf_Profiles cfg) (hd_Host host) merged
    /\ build_host opts host merged.1 merged.2 = Ok out.

Lemma compiles_det opts name out out' : compiles opts name out -> compiles opts name out' -> out = out'.
Proof.
  intros (host & merged & Hh & Hm & Hb) (host' & merged' & Hh' & Hm' & Hb').
  assert (host' = host) as -> by congruence. rewrite (host_resolves_det _ _ _ _ Hm' Hm) in Hb'. congruence.
Qed.

Definition selected_by (opts : CompileOptions) (name : string) : Prop := op_HostFilter opts = "" \/ name = op_HostFilter opts.
#[export] Instance selected_by_dec opts name : Decision (selected_by opts name) := _.

Lemma filter_test opts name :
  negb (bool_decide (op_HostFilter opts = "")) && negb (bool_decide (name = op_HostFilter opts))
  = negb (bool_decide (selected_by opts name)).
Proof. unfold selected_by. repeat case_bool_decide; naive_solver. Qed.

Lemma compile_host_outcome opts acc name c :
  cache_ok (cf_Profiles cfg) c -> visiting c = ∅ -> is_Some (cf_Hosts cfg !! name) -> selected_by opts name ->
  match compile_host ReadFile range_keys (@visit) cfg opts acc name c with
  | (Ok acc', c') =>
      exists out, compiles opts name out /\ acc' = (acc.1 ++ [out.1], acc.2 ++ out.2)
        /\ cache_ok (cf_Profiles cfg) c' /\ visiting c' = ∅
  | (Err _, _) => forall out, ~ compiles opts name out
  end.
Proof.
  intros Hc HV [host Hh] Hs. unfold compile_host. rewrite filter_test, bool_decide_true, Hh by done.
  cbn [negb]. unfold mbind, M_bind, profiles_error.
  assert (Ho := mergeHost_outcome (cf_Profiles cfg) (hd_Host host) c Hc HV).
  destruct (mergeHost (cf_Profiles cfg) (hd_Host host) c) as [[merged|e] c1]; cbn [map_err].
  - destruct Ho as (Hm & Hc1 & HV1). unfold lift. destruct (build_host opts host merged.1 merged.2) as [built|e] eqn:Hb.
    + cbn. exists built. split_and!; [|done..]. exists host, merged. done.
    + intros out (host' & merged' & Hh' & Hm' & Hb'). assert (host' = host) as -> by congruence.
      rewrite (host_resolves_det _ _ _ _ Hm' Hm) in Hb'. congruence.
  - destruct Ho as [Hno _]. intros out (host' & merged' & Hh' & Hm' & _). assert (host' = host) as -> by congruence.
    by apply (Hno merged').
Qed.

Lemma compile_hosts_outcome opts names : forall acc c,
  cache_ok (cf_Profiles cfg) c -> visiting c = ∅ -> Forall (fun name => is_Some (cf_Hosts cfg !! name)) names ->
  match (fold_M (compile_host ReadFile range_keys (@visit) cfg opts) names acc c).1 with
  | Ok acc' =>
      exists outs, Forall2 (compiles opts) (filter (selected_by opts) names) outs
        /\ acc' = (acc.1 ++ outs.*1, acc.2 ++ concat outs.*2)
  | Err _ => forall outs, ~ Forall2 (compiles opts) (filter (selected_by opts) names) outs
  end.
Proof.
  induction names as [|name names IH]; intros acc c Hc HV Hall.
  { exists []. cbn. rewrite !app_nil_r. by destruct acc. }
  apply Forall_cons in Hall as [Hname Hall]. cbn [fold_M]. unfold mbind, M_bind. rewrite filter_cons.
  destruct (decide (selected_by opts name)) as [Hs|Hs].
  - assert (Ho := compile_host_outcome opts acc name c Hc HV Hname Hs).
    destruct (compile_host _ _ _ _ _ acc name c) as [[acc1|e] c1].
    + destruct Ho as (out & Hout & -> & Hc1 & HV1).
      specialize (IH (acc.1 ++ [out.1], acc.2 ++ out.2) c1 Hc1 HV1 Hall).
      destruct (fold_M _ names _ c1) as [[acc'|e] c']; cbn [fst] in *.
      * destruct IH as (outs & Houts & ->). exists (out :: outs). split; [by constructor|].
        cbn. by rewrite <- !app_assoc.
      * intros outs Houts. inversion Houts as [|? out' ? outs' _ Hrest]; subst. by apply (IH outs').
    + cbn. intros outs Houts. inversion Houts as [|? out' ? outs' Hout _]; subst. by apply (Ho out').
  - unfold compile_host at 1. rewrite filter_test, bool_decide_false by done. cbn [negb]. by apply IH.
Qed.

(** The names of the hosts that the options select, in order. *)
Definition selection (opts : CompileOptions) : list string := filter (selected_by opts) (sorted_keys (cf_Hosts cfg)).

Lemma compile_hosts_Ok opts acc built :
  (fold_M (compile_host ReadFile range_keys (@visit) cfg opts) (sorted_keys (cf_Hosts cfg)) acc new_compiler).1 = Ok built <->
  exists outs, Forall2 (compiles opts) (selection opts) outs /\ built = (acc.1 ++ outs.*1, acc.2 ++ concat outs.*2).
Proof.
  assert (Ho := compile_hosts_outcome opts (sorted_keys (cf_Hosts cfg)) acc new_compiler).
  assert (cache_ok (cf_Profiles cfg) new_compiler) as Hc by (intros name r Hr; discriminate Hr).
  specialize (Ho Hc eq_refl). destruct (fold_M _ _ _ _) as [[acc'|e] c']; cbn [fst] in *.
  - destruct Ho as (outs & Houts & ->); [apply Forall_forall; by intros ? ?%elem_of_sorted_keys|]. split.
    + intros [= <-]. by exists outs.
    + intros (outs' & Houts' & ->). by rewrite (Forall2_det _ (compiles_det opts) _ _ _ Houts Houts').
  - split; [done|]. intros (outs & Houts & _). exfalso. eapply Ho; [|exact Houts].
    apply Forall_forall. by intros ? ?%elem_of_sorted_keys.
Qed.

Abbreviation CompileWithOptions := (CompileWithOptions ReadFile range_keys (@visit) cfg).

(** The descriptions of variables, templates and scripts, and the warnings about
    variables: the same whatever the options. *)
Definition described (cd : Compiled) (warnings : list ir_Warning) : Prop :=
  componentTemplateSpecs range_keys (cf_Components cfg) = Ok (cd_Components cd)
  /\ validateVariableValues cfg = Ok warnings
  /\ variableSpecs range_keys cfg = Ok (cd_Variables cd)
  /\ rootScriptDefinitionSpecs (cf_Scripts cfg) = Ok (cd_Scripts cd).

Lemma compile_run opts cd :
  CompileWithOptions opts = Ok cd ->
  exists warnings outs, described cd warnings /\ Forall2 (compiles opts) (selection opts) outs
    /\ cd_Program cd = {| p_Hosts := outs.*1 |} /\ cd_Warnings cd = warnings ++ concat outs.*2.
Proof.
  unfold Compile.CompileWithOptions, described.
  intros (components & Hc & (warnings & Hw & (variables & Hv & (scripts & Hs & (built & Hb & [= <-])%bind_Ok)%bind_Ok)%bind_Ok)%bind_Ok)%bind_Ok.
  apply compile_hosts_Ok in Hb as (outs & Houts & ->). by exists warnings, outs.
Qed.

Lemma compile_runs opts warnings outs cd :
  described cd warnings -> Forall2 (compiles opts) (selection opts) outs ->
  cd_Program cd = {| p_Hosts := outs.*1 |} -> cd_Warnings cd = warnings ++ concat outs.*2 -> CompileWithOptions opts = Ok cd.
Proof.
  intros (Hc & Hw & Hv & Hs) Houts Hp Hws. unfold Compile.CompileWithOptions. rewrite Hc, Hw, Hv, Hs. cbn.
  rewrite (proj2 (compile_hosts_Ok opts ([], warnings) _)) by eauto. cbn. destruct cd; cbn in *. by rewrite Hp, Hws.
Qed.

(** C8: What the compilation of a configuration computes.  It succeeds with a
    program exactly when the templates, variables and scripts have descriptions
    and each selected host compiles by itself, from the declarative meaning of
    its imports; the hosts come in the order of their names, and the caches that
    the loop shares between them do not show. *)
Theorem CompileWithOptions_spec opts cd :
  CompileWithOptions opts = Ok cd <->
  exists warnings outs, described cd warnings /\ Forall2 (compiles opts) (selection opts) outs
    /\ cd_Program cd = {| p_Hosts := outs.*1 |} /\ cd_Warnings cd = warnings ++ concat outs.*2.
Proof. split; [apply compile_run|]. intros (warnings & outs & ? & ? & ? & ?). by apply (compile_runs opts warnings outs). Qed.

(** ** Compiled hosts are well formed *)

Lemma apply_facts_Ok spec facts spec' :
  apply_facts spec facts = Ok spec' -> exists platform found, spec' = set_facts platform found spec \/ spec' = spec.
Proof.
  destruct facts as [facts|]; cbn; [|intros [= <-]; exists None, {| System := no_facts |}; by right].
  intros H'%map_err_Ok. unfold applyHostFacts in H'. res_inv. eexists _, facts. by left.
Qed.

(** No reference to an artifact is left. *)
Definition addressed (deps : list ResourceDependencySpec) : Prop := Forall (fun dep => dep_ArtifactPath dep = "") deps.

Lemma resolveArtifactDependencies_addressed index deps deps' :
  resolveArtifactDependencies deps index = Ok deps' -> addressed deps'.
Proof.
  intros Hr%resolve_artifacts_Forall2. induction Hr as [|dep dep' deps deps' Hd _ IH]; constructor; [|done].
  unfold resolve_artifact in Hd. case_bool_decide as Hp; [by injection Hd as <-|].
  destruct (default [] _) as [|a [|]]; try done. by injection Hd as <-.
Qed.

Lemma resolve_artifacts_Ok hostName components deps out :
  resolve_artifacts hostName components deps = Ok out ->
  addressed out.1 /\ Forall2 (fun c c' => exists ds, addressed ds /\ c' = set_dependencies ds c) components out.2.
Proof.
  unfold resolve_artifacts. intros (ds & Hds%map_err_Ok & (cs & Hcs & [= <-])%bind_Ok)%bind_Ok. cbn. split.
  - by eapply resolveArtifactDependencies_addressed.
  - eapply Forall2_impl; [by eapply mapi_res_related|]. intros c c' (j & (ds' & Hds'%map_err_Ok & [= <-])%bind_Ok).
    exists ds'. split; [|done]. by eapply resolveArtifactDependencies_addressed.
Qed.

Record wf_compiled (h : HostSpec) : Prop := {
  wc_install : wf_install h;
  wc_accounts : wf_accounts h;
  wc_files : wf_files ReadFile h;
  wc_services : map_Forall wf_service (svs_Services (h_Services h));
  wc_systemd : wf_systemd ReadFile (h_Systemd h);
  wc_networkd : forall nw, sd_Networkd (h_Systemd h) = Some nw -> networkd_resolved ReadFile ∅ (h_Scripts h) nw;
  wc_docker : forall d, h_Docker h = Some d -> wf_docker ReadFile d;
  wc_scripts : map_Forall (fun _ s => wf_script s /\ cs_Mode s = "once") (h_Scripts h);
  wc_components : Forall (wf_component ReadFile h) (h_Components h) /\ NoDup (HostIR.ci_Name <$> h_Components h);
  wc_keyed : keyed_host h;
  wc_valid : validateHostSpec (@visit) h = Ok tt;
}.

Lemma root_script_fold ctx l m m' :
  map_Forall (fun _ s => wf_script s /\ cs_Mode s = "once") m -> fold_res (host_script ctx) l m = Ok m' ->
  map_Forall (fun _ s => wf_script s /\ cs_Mode s = "once") m'.
Proof.
  intros Hm. apply fold_res_inv; [|done]. intros out p out' _ Hout H'. unfold host_script in H'. res_inv.
  match goal with H : root_script _ _ = Ok _ |- _ => unfold root_script in H; spec_inv end.
  apply map_Forall_insert_2; [|done].
  match goal with H : componentScriptSpec _ = Ok _ |- _ => apply componentScriptSpec_wf in H as [] end.
  split; [by split|]. cbn. by eapply bool_decide_eq_true.
Qed.

Lemma evaluated_host_scripts_wf target out :
  evaluated_host_scripts cfg target = Ok out -> map_Forall (fun _ s => wf_script s /\ cs_Mode s = "once") out.
Proof.
  unfold evaluated_host_scripts. case_bool_decide; [intros [= <-]; apply map_Forall_empty|].
  intros (variables & _ & Hf)%bind_Ok. by eapply root_script_fold, Hf; apply map_Forall_empty.
Qed.

(** *** Components *)

Definition mounts (opts : CompileOptions) : Prop :=
  op_ValidateRuntimeTemplates opts = false /\ op_SkipComponents opts = false.

(** What a host has after its components are mounted. *)
Record mounted_ok (instances : list instance) (h : HostSpec) : Prop := {
  mo_names : HostIR.ci_Name <$> h_Components h = in_Name <$> instances;
  mo_addressed : addressed (h_ExplicitDependencies h) /\ Forall (fun c => addressed (ci_ExplicitDependencies c)) (h_Components h);
}.

Lemma wf_component_set_dependencies target ds c :
  wf_component ReadFile target c -> wf_component ReadFile target (set_dependencies ds c).
Proof. intros (Hb & Ha & Hn & Hr). split_and!; [|done..]. destruct Hb. by split. Qed.

Lemma mount_components_Ok suppress instances spec out :
  mount_components ReadFile range_keys cfg suppress instances spec = Ok out ->
  exists cs ds, out.1 = with_components cs ds spec /\ Forall (wf_component ReadFile spec) cs /\ NoDup (HostIR.ci_Name <$> cs)
    /\ Forall (fun c => keyed_units (ci_Systemd c)) cs /\ mounted_ok instances out.1.
Proof.
  unfold mount_components.
  intros (cs & (Hwf & Hnd & Hnames & Hkeyed)%map_err_Ok%instantiateComponents_wf & (r & [Hds Hcs]%resolve_artifacts_Ok & [= <-])%bind_Ok)%bind_Ok.
  exists r.2, r.1. cbn [fst].
  assert (HostIR.ci_Name <$> r.2 = HostIR.ci_Name <$> cs) as Hn.
  { clear -Hcs. induction Hcs as [|c c' cs cs' (ds & _ & ->) _ IH]; [done|]. cbn. by rewrite IH. }
  split_and!; [done|..].
  - clear -Hcs Hwf. induction Hcs as [|c c' cs cs' (ds & _ & ->) _ IH]; [done|]. apply Forall_cons in Hwf as [Hc Hwf].
    constructor; [by apply wf_component_set_dependencies|auto].
  - by rewrite Hn.
  - clear -Hcs Hkeyed. induction Hcs as [|c c' cs cs' (ds & _ & ->) _ IH]; [done|]. apply Forall_cons in Hkeyed as [Hc Hk].
    constructor; auto.
  - split; cbn; [congruence|]. split; [done|]. clear -Hcs. induction Hcs as [|c c' cs cs' (ds & Hds & ->) _ IH]; by constructor.
Qed.

Lemma host_components_Ok opts instances spec out :
  h_Components spec = [] -> host_components ReadFile range_keys (@visit) cfg opts instances spec = Ok out ->
  exists cs ds, out.1 = with_components cs ds spec /\ Forall (wf_component ReadFile spec) cs /\ NoDup (HostIR.ci_Name <$> cs)
    /\ Forall (fun c => keyed_units (ci_Systemd c)) cs /\ (mounts opts -> mounted_ok instances out.1).
Proof.
  intros Hnone. unfold host_components, mounts.
  assert (Hno : Forall (wf_component ReadFile spec) (h_Components spec) /\ NoDup (HostIR.ci_Name <$> h_Components spec)
    /\ Forall (fun c => keyed_units (ci_Systemd c)) (h_Components spec)) by (rewrite Hnone; repeat constructor).
  destruct Hno as (? & ? & ?).
  destruct (op_ValidateRuntimeTemplates opts) eqn:Er; [|destruct (op_SkipComponents opts) eqn:Es].
  - intros (checked & _ & [= <-])%bind_Ok. exists (h_Components spec), checked.1. split_and!; [done..|]. by intros [? _].
  - intros [= <-]. exists (h_Components spec), (h_ExplicitDependencies spec). split_and!; [by destruct spec|done..|].
    by intros [_ ?].
  - intros (cs & ds & ? & ? & ? & ? & ?)%mount_components_Ok. exists cs, ds. by split_and!.
Qed.

(** *** Hosts *)

Lemma wf_systemd_set_networkd local root sd nw nw' :
  wf_systemd ReadFile sd -> sd_Networkd sd = nw -> validateNetworkdActivationRefs local root nw = Ok nw' ->
  wf_systemd ReadFile (set_networkd nw' sd) /\ forall n, nw' = Some n -> networkd_resolved ReadFile local root n.
Proof.
  intros [Hu Ht Hn Hr Hj] Hnw Hrefs.
  assert (Hres : forall n, nw' = Some n -> networkd_resolved ReadFile local root n).
  { intros n ->. destruct nw as [nw|]; [|done]. eapply validateNetworkdActivationRefs_Ok; [|exact Hrefs]. by apply Hn. }
  split; [|done]. split; cbn; [done|done| |done|done]. intros n Hn'. destruct (Hres n Hn') as [Hd Hw].
  split; (eapply map_Forall_impl; [eassumption|]); by intros ? ? [].
Qed.

(** The sections of a host that its facts, scripts and components leave alone. *)
Definition wf_sections (h : HostSpec) : Prop :=
  wf_install h /\ wf_accounts h /\ wf_files ReadFile h /\ map_Forall wf_service (svs_Services (h_Services h)).

Lemma wf_sections_same h h' :
  wf_sections h -> h_Packages h' = h_Packages h -> h_Kernel h' = h_Kernel h -> h_Groups h' = h_Groups h -> h_Users h' = h_Users h ->
  h_Files h' = h_Files h -> h_Secrets h' = h_Secrets h -> h_Directories h' = h_Directories h -> h_APT h' = h_APT h ->
  h_Nftables h' = h_Nftables h -> h_Services h' = h_Services h -> wf_sections h'.
Proof.
  intros ([] & [] & [] & Hs) Hp Hk Hg Hu Hf Hse Hd Ha Hn Hsv. unfold wf_sections. rewrite Hsv.
  split_and!; [split|split|split|done]; by rewrite ?Hp, ?Hk, ?Hg, ?Hu, ?Hf, ?Hse, ?Hd, ?Ha, ?Hn.
Qed.

(** The host after its sections, Docker and facts. *)
Lemma base_host_Ok host raw facts base spec :
  buildHostSpec ReadFile host raw = Ok base -> apply_facts base facts = Ok spec ->
  wf_sections spec /\ wf_systemd ReadFile (h_Systemd spec) /\ (forall d, h_Docker spec = Some d -> wf_docker ReadFile d)
  /\ h_Components spec = [] /\ h_Name spec = hst_Name host.
Proof.
  intros (sections & Hs%map_err_Ok & (docker & Hd%map_err_Ok & (deps & _ & [= <-])%bind_Ok)%bind_Ok)%bind_Ok Hfa.
  pose proof (host_sections_components _ _ _ _ Hs) as Hnone. apply host_sections_wf in Hs as ([_ Hi Ha Hf Hsd Hsv] & _ & Hname).
  assert (Hbase : wf_sections sections) by done.
  assert (Hdocker : forall d, docker = Some d -> wf_docker ReadFile d).
  { apply (section_ok (fun docker => forall d, docker = Some d -> wf_docker ReadFile d) _ _ _ _ _ Hd); [done|].
    intros v o (d' & Hd' & [= <-])%bind_Ok d [= <-]. by eapply dockerSpec_wf. }
  apply apply_facts_Ok in Hfa as (pl & fa & [-> | ->]); (split_and!; [by eapply wf_sections_same|done..]).
Qed.

Lemma build_host_wf opts host raw asserts out :
  build_host opts host raw asserts = Ok out ->
  wf_compiled out.1 /\ h_Name out.1 = hst_Name (hd_Host host) /\ evaluateAssertions asserts out.1 = Ok tt
  /\ (mounts opts -> mounted_ok (instance_of <$> hd_Components host) out.1).
Proof.
  intros (base & Hbase & (spec & Hfa & (scripts & Hsc & (nw & Hnw%map_err_Ok & (built & Hcomp & ([] & Hv%map_err_Ok
          & ([] & Has%map_err_Ok & [= <-])%bind_Ok)%bind_Ok)%bind_Ok)%bind_Ok)%bind_Ok)%bind_Ok)%bind_Ok.
  destruct (base_host_Ok _ _ _ _ _ Hbase Hfa) as (Hsec & Hsd & Hdk & Hnone & Hname).
  apply host_components_Ok in Hcomp as (cs & ds & Hb & Hcs & Hnd & Hkeyed & Hm); [|exact Hnone].
  destruct (wf_systemd_set_networkd _ _ _ _ _ Hsd eq_refl Hnw) as [Hsd' Hres].
  apply evaluated_host_scripts_wf in Hsc. cbn [fst]. split_and!; [|by rewrite Hb|done|done].
  assert (Hsec' : wf_sections built.1) by (rewrite Hb; by eapply wf_sections_same).
  destruct Hsec' as (Hi & Ha & Hf & Hsv).
  split; [done..| | | | | | |exact Hv]; rewrite Hb.
  - exact Hsd'.
  - exact Hres.
  - exact Hdk.
  - exact Hsc.
  - split; [|exact Hnd]. eapply Forall_impl; [exact Hcs|]. intros c (Hbody & Hart & Hrest). split; [|split; [|exact Hrest]].
    + destruct Hbody. by split.
    + destruct Hart as [?|(a & [] & Ha')]; [by left|]. right. exists a. split; [by split|done].
  - split; [by eapply wf_systemd_keyed, Hsd'|]. intros c Hc. cbn in Hc. rewrite Forall_forall in Hkeyed. by apply Hkeyed.
Qed.


(** ** One host alone *)

Definition with_filter (name : string) (opts : CompileOptions) : CompileOptions :=
  {| op_HostFilter := name; op_HostFacts := op_HostFacts opts; op_SkipComponents := op_SkipComponents opts;
     op_ValidateRuntimeTemplates := op_ValidateRuntimeTemplates opts;
     op_SuppressSecretFileDeprecationWarning := op_SuppressSecretFileDeprecationWarning opts |}.

(** The hosts are stored under their names, as the parser stores them. *)
Definition hosts_named : Prop := map_Forall (fun name host => hst_Name (hd_Host host) = name) (cf_Hosts cfg).

Lemma compiles_name opts name out : hosts_named -> compiles opts name out -> h_Name out.1 = name.
Proof.
  intros Hn (host & merged & Hh & _ & Hb). apply build_host_wf in Hb as (_ & -> & _). by apply (Hn name).
Qed.

Lemma compiles_filtered opts name names outs :
  hosts_named -> Forall2 (compiles opts) names outs ->
  Forall2 (compiles (with_filter name opts)) (filter (fun n => n = name) names) (filter (fun out => h_Name out.1 = name) outs).
Proof.
  intros Hn. induction 1 as [|n out names outs Hc _ IH]; [constructor|]. rewrite !filter_cons, (compiles_name _ _ _ Hn Hc).
  destruct (decide (n = name)); [|done]. by constructor.
Qed.

(** C14: A host compiles alone as it does among the others.  When a
    configuration compiles, it compiles with the filter set to any name, to the
    same descriptions and to exactly the hosts of that name: what the others
    leave in the caches of the compiler has no effect. *)
Theorem CompileWithOptions_filter opts name cd :
  hosts_named -> name <> "" -> CompileWithOptions (with_filter "" opts) = Ok cd ->
  exists cd', CompileWithOptions (with_filter name opts) = Ok cd'
    /\ p_Hosts (cd_Program cd') = filter (fun h => h_Name h = name) (p_Hosts (cd_Program cd))
    /\ cd_Variables cd' = cd_Variables cd /\ cd_Components cd' = cd_Components cd /\ cd_Scripts cd' = cd_Scripts cd.
Proof.
  intros Hn Hname (warnings & outs & Hd & Houts & Hp & _)%compile_run.
  assert (Hsel : selection (with_filter "" opts) = sorted_keys (cf_Hosts cfg)).
  { unfold selection. apply filter_everything, Forall_forall. intros k _. by left. }
  rewrite Hsel in Houts. apply (compiles_filtered _ name) in Houts; [|done].
  set (kept := filter (fun out => h_Name out.1 = name) outs) in Houts.
  exists {| cd_Program := {| p_Hosts := kept.*1 |}; cd_Variables := cd_Variables cd; cd_Components := cd_Components cd;
            cd_Scripts := cd_Scripts cd; cd_Warnings := warnings ++ concat kept.*2 |}. split.
  - apply (compile_runs _ warnings kept); [exact Hd| |done..]. unfold selection.
    rewrite (list_filter_iff _ (fun n => n = name)); [exact Houts|]. intros n. unfold selected_by. cbn. naive_solver.
  - rewrite Hp. cbn. split_and!; [|done..]. unfold kept. by rewrite <- filter_fmap.
Qed.
End compile.

(** ** Values that were already validated *)

Section revalidation.
Context `{!HCL} {order : AttrOrder}.

Lemma reference_copies name validation :
  Assertions.validateVariableValidationReferences name validation = ParseFiles.validateVariableValidationReferences name validation.
Proof.
  unfold Assertions.validateVariableValidationReferences, references_only, ParseFiles.validateVariableValidationReferences.
  apply fold_res_ext. intros _ t _. destruct (tr_steps t) as [|[root|?|?|] rest]; try done. do 2 f_equal.
  destruct rest as [|[?|attr|?|] ?]; cbn; try done. apply bool_decide_ext. naive_solver.
Qed.

Lemma validation_copies variable value :
  evaluateVariableValidations variable value = EvaluateVariableValidations variable value.
Proof.
  unfold evaluateVariableValidations, EvaluateVariableValidations, converted_value.
  destruct (cin_Validations (vr_Input variable)) as [|v vs]; [done|]. destruct (ToCty value) as [c|e]; [|done]. cbn [map_err].
  rewrite !Ok_bind. f_equal. apply mapi_res_ext. intros i a. unfold evaluate_rule, evaluate_validation.
  rewrite reference_copies. done.
Qed.

End revalidation.

(** ** A configuration that compiles *)

Module Demo.
Import Toy Site.
#[local] Existing Instance toy.
#[local] Existing Instance toy_order.

Definition truth (line : Z) (b : bool) : expr := ELit line (TC ∅ (TBool b)).
Definition path_ref (line : Z) (root : string) (names : list string) : expr := ERef line root (TraverseAttr <$> names).

Definition profiles : Body :=
  mkBody _ ∅
    [block "profile" ["web"] 1 ∅
       [block "packages" [] 2 {["install" := attr 3 (EList 3 [text 3 "nginx"])]} [];
        block "assert" [] 4 {["condition" := attr 5 (path_ref 5 "self" ["nftables"; "enable"]);
                              "message" := attr 6 (text 6 "web servers need a firewall")]} []];
     block "script" ["reload"] 8 {["run" := attr 9 (path_ref 9 "target" ["name"])]} [];
     block "component" ["app"] 11 ∅
       [block "input" ["zone"] 12 {["type" := attr 13 (ERef 13 "string" []); "default" := attr 14 (text 14 "eu")]} [];
        block "files" [] 15 ∅
          [block "file" ["/etc/app.conf"] 16 {["content" := attr 17 (path_ref 17 "input" ["zone"]);
                                               "on_change" := attr 18 (path_ref 18 "script" ["reload"])]} []]]] 1.

(** Both hosts import the profile; the firewall of the second is off. *)
Definition host (name : string) (line : Z) (firewall : bool) : Block :=
  block "host" [name] line {["imports" := attr (line + 1) (EList (line + 1) [ref (line + 1) "profile" "web"]);
                             "components" := attr (line + 2) (EList (line + 2) [ref (line + 2) "component" "app"])]}
    [block "nftables" [] (line + 3) {["enable" := attr (line + 4) (truth (line + 4) firewall)]} []].
Definition fleet (firewall : bool) : Body := mkBody _ ∅ [host "h2" 1 firewall; host "h1" 10 true] 1.

Definition read_file (file : string) : result string (Body + string) :=
  if bool_decide (file = "profiles.dbf.hcl") then Ok (inl profiles)
  else if bool_decide (file = "on.dbf.hcl") then Ok (inl (fleet true))
  else if bool_decide (file = "off.dbf.hcl") then Ok (inl (fleet false))
  else Err "no such file".
Definition config (file : string) : result config_error Config :=
  ParseFilesWithOptions read_file (fun _ _ _ => None) sorted_keys (fun _ => None) ["profiles.dbf.hcl"; file] Site.options.

Definition options (filter : string) : CompileOptions :=
  {| op_HostFilter := filter; op_HostFacts := ∅; op_SkipComponents := false; op_ValidateRuntimeTemplates := false;
     op_SuppressSecretFileDeprecationWarning := false |}.
Definition all_entries {A} (_ : string) (m : gmap string A) : list (string * A) := map_to_list m.
Definition compile (opts : CompileOptions) (cfg : Config) : result compile_failure Compiled :=
  CompileWithOptions (fun _ => None) sorted_keys (@all_entries) cfg opts.

Definition summary (r : result compile_failure Compiled) : result (option compile_failure) (list (string * list string * list (option string))) :=
  match r with
  | Ok cd => Ok ((fun h => (h_Name h, pk_Name <$> pks_Install (h_Packages h),
                            (fun c => mf_Content <$> fls_Files (ci_Files c) !! "/etc/app.conf") <$> h_Components h))
                   <$> p_Hosts (cd_Program cd))
  | Err e => Err (match e with InAssertion _ => Some e | _ => None end)
  end.

End Demo.

Import Toy Demo.
#[local] Existing Instance toy.
#[local] Existing Instance toy_order.

(** Evaluated once, by the kernel. *)
Ltac now_vm := lazymatch goal with |- _ = ?x => vm_cast_no_check (eq_refl x) end.

(** The hosts come in the order of their names, the components of each with the
    files that their inputs write. *)
Example compile_fleet :
  (config "on.dbf.hcl" ≫= fun cfg => Ok (summary (compile (options "") cfg)))
  = Ok (Ok [("h1", ["nginx"], [Some "eu"]); ("h2", ["nginx"], [Some "eu"])]).
Proof. now_vm. Qed.

(** The profile asserts that the firewall of its hosts is on. *)
Example compile_firewall_off :
  (config "off.dbf.hcl" ≫= fun cfg => Ok (is_ok (summary (compile (options "") cfg)), is_ok (summary (compile (options "h1") cfg))))
  = Ok (false, true).
Proof. now_vm. Qed.

Lemma fleet_compiles : (config "on.dbf.hcl" ≫= fun cfg => Ok (is_ok (compile (options "") cfg))) = Ok true.
Proof. now_vm. Qed.


Lemma CompileWithOptions_filter_witness :
  exists cfg cd cd', config "on.dbf.hcl" = Ok cfg /\ compile (options "") cfg = Ok cd /\ compile (options "h1") cfg = Ok cd' /\
    p_Hosts (cd_Program cd') = filter (fun h => h_Name h = "h1") (p_Hosts (cd_Program cd)).
Proof.
  assert (Hok := fleet_compiles).
  destruct (config "on.dbf.hcl") as [cfg|e] eqn:Hcfg; [|discriminate Hok]. exists cfg. cbn in Hok.
  destruct (compile (options "") cfg) as [cd|e] eqn:Hrun; [|discriminate Hok]. exists cd.
  pose proof Hcfg as Hp. unfold config in Hp. apply (parsed_sound (order := toy_order)) in Hp as [Hn _]; [|reflexivity].
  destruct (CompileWithOptions_filter (order := toy_order) (fun _ => None) sorted_keys (@all_entries) cfg (options "h1") "h1" cd)
    as (cd' & Hrun' & Hp & _); [|discriminate|exact Hrun|].
  - intros name host Hh. by apply (nm_host _ Hn).
  - exists cd'. by split_and!.
Defined.

