(* ===== verification/UnitFileProps.v ===== *)
(** * The rendered files read back

    A structured service unit reads back as its three sections, with the run
    command as its one [ExecStart]; the named sections of a networkd file read
    back as they were declared. *)
From S2P Require Import Prelude Sha256 GoValue GoStrings IR HostIR Values Merge Fields HostValidation HostSpecs SystemdSpecs NetworkdSpecs HostBuild HostBuildUnits.

(** ** Reading unit files back

    A reference reader of the sections and assignments of a systemd file, and
    the lemmas that relate the lines the builders append to what it reads.  The
    reader takes lines as they stand: it knows nothing of line continuations,
    and spaces around a key or a value are part of it. *)

(** The sections in order, each with its assignments. *)
Definition assignments : Type := list (string * string).
Definition unit_file : Type := list (string * assignments).

(** *** The reader *)

Definition first_is (cs s : string) : bool :=
  match s with String c _ => strings_Contains cs (String c "") | EmptyString => false end.

(** The assignments before the first header, and the sections. *)
Fixpoint read_lines (lines : list string) : assignments * unit_file :=
  match lines with
  | [] => ([], [])
  | line :: lines =>
      let '(before, sections) := read_lines lines in
      if bool_decide (line = "") || first_is "#;" line then (before, sections)
      else if first_is "[" line then ([], (strings_TrimSuffix (str_drop 1 line) "]", before) :: sections)
      else match strings_Cut line "="%char with
           | Some assignment => (assignment :: before, sections)
           | None => (before, sections)
           end
  end.

Definition read_unit (text : string) : assignments * unit_file := read_lines (strings_Split text newline).

(** *** Splitting what was joined *)

Lemma Split_render_lines lines :
  lines <> [] -> Forall (fun line => lacks newline line = true) lines ->
  strings_Split (render_lines lines) newline = lines ++ [""].
Proof. intros Hne Hl. by apply Split_lines. Qed.

(** *** Headers and assignments *)

Lemma HasSuffix_app a b : strings_HasSuffix (a +:+ b) b = true.
Proof.
  unfold strings_HasSuffix, str_rev. apply prefix_iff. eexists.
  by rewrite list_ascii_app, reverse_app, string_of_list_app.
Qed.

Lemma substring_app a b : String.substring 0 (String.length a) (a +:+ b) = a.
Proof. induction a as [|c a IH]; [by destruct b|]. rewrite str_app_cons. cbn. by rewrite IH. Qed.

Lemma TrimSuffix_app a b : strings_TrimSuffix (a +:+ b) b = a.
Proof.
  unfold strings_TrimSuffix. rewrite HasSuffix_app.
  assert (String.length (a +:+ b) = String.length a + String.length b) as ->.
  { clear. induction a as [|c a IH]; [done|]. rewrite str_app_cons. cbn. by rewrite IH. }
  replace (String.length a + String.length b - String.length b) with (String.length a) by lia. apply substring_app.
Qed.

Definition header (name : string) : string := "[" +:+ name +:+ "]".
Definition assign_line (p : string * string) : string := p.1 +:+ "=" +:+ p.2.

(** A key that is read as one: it holds no [=] and does not start like a
    header or a comment. *)
Definition plain_key (key : string) : bool := lacks "="%char key && negb (first_is "#;[" key).

Lemma Cut_assign key value : lacks "="%char key = true -> strings_Cut (key +:+ String "=" value) "="%char = Some (key, value).
Proof. apply Cut_lacks. Qed.

Lemma read_assign p lines :
  plain_key p.1 = true -> read_lines (assign_line p :: lines) = (p :: (read_lines lines).1, (read_lines lines).2).
Proof.
  destruct p as [key value]. unfold plain_key, assign_line. cbn [fst snd]. rewrite andb_true_iff, negb_true_iff. intros [Hl Hf].
  cbn [read_lines]. destruct (read_lines lines) as [before sections].
  change ("=" +:+ value) with (String "=" value). rewrite Cut_assign by done.
  rewrite (bool_decide_false (_ = "")) by (by destruct key). cbn [orb fst snd].
  destruct key as [|c key]; [done|]. rewrite str_app_cons. cbn in Hf |- *.
  destruct c as [[][][][][][][][]]; cbn in Hf |- *; done.
Qed.

Lemma read_assigns l lines :
  Forall (fun p => plain_key p.1 = true) l ->
  read_lines ((assign_line <$> l) ++ lines) = (l ++ (read_lines lines).1, (read_lines lines).2).
Proof.
  induction 1 as [|p l Hp Hl IH]; [cbn; by destruct (read_lines lines)|].
  change (read_lines (assign_line p :: (assign_line <$> l) ++ lines) = (p :: l ++ (read_lines lines).1, (read_lines lines).2)).
  by rewrite read_assign, IH.
Qed.

Lemma read_header name lines :
  read_lines (header name :: lines) = ([], (name, (read_lines lines).1) :: (read_lines lines).2).
Proof.
  cbn [read_lines]. destruct (read_lines lines) as [before sections]. unfold header.
  rewrite bool_decide_false by done. cbn [orb]. change (first_is "#;" ("[" +:+ ?x)) with false.
  change (first_is "[" ("[" +:+ ?x)) with true. cbn [orb]. change (str_drop 1 ("[" +:+ ?x)) with x.
  by rewrite TrimSuffix_app.
Qed.

Lemma read_blank lines : read_lines ("" :: lines) = read_lines lines.
Proof. cbn. by destruct (read_lines lines). Qed.

(** *** Whole files *)

(** The lines of a file, a blank line before each header but the first. *)
Definition section_lines (s : string * assignments) : list string := header s.1 :: (assign_line <$> s.2).
Fixpoint file_lines (f : unit_file) : list string :=
  match f with
  | [] => []
  | [s] => section_lines s
  | s :: f => section_lines s ++ "" :: file_lines f
  end.

Definition plain_file (f : unit_file) : Prop := Forall (fun s => Forall (fun p => plain_key p.1 = true) s.2) f.

Lemma read_file_lines f : plain_file f -> read_lines (file_lines f ++ [""]) = ([], f).
Proof.
  induction 1 as [|[name l] f Hs Hf IH]; [done|]. cbn [file_lines].
  destruct f as [|s f].
  - unfold section_lines. cbn [fst snd app]. rewrite read_header, read_assigns by done. cbn. by rewrite app_nil_r.
  - unfold section_lines in *. cbn [fst snd]. rewrite <- app_assoc. cbn [app]. rewrite read_header, read_assigns by done.
    rewrite read_blank, IH. cbn. by rewrite app_nil_r.
Qed.

(** Text made of such lines reads back as the file. *)
Lemma read_unit_file f :
  f <> [] -> plain_file f -> Forall (fun line => lacks newline line = true) (file_lines f) ->
  read_unit (render_lines (file_lines f)) = ([], f).
Proof.
  intros Hne Hp Hl. unfold read_unit. rewrite Split_render_lines; [by apply read_file_lines| |done].
  by destruct f as [|s [|s' f]].
Qed.

(** *** What the appenders add *)

(** An assignment on one line, whose key holds no [=]. *)
Definition one_line (p : string * string) : Prop :=
  lacks newline p.1 = true /\ lacks newline p.2 = true /\ lacks "="%char p.1 = true.

Definition flat (section : NetworkdSection) : assignments := sorted_entries section ≫= fun p => pair p.1 <$> p.2.

Lemma single_line_lacks value source u : validateSystemdSingleLine value source = Ok u -> lacks newline value = true.
Proof.
  unfold validateSystemdSingleLine. intros H%require_Ok%negb_true_iff. eapply ContainsAny_lacks; [|done]. vm_compute. done.
Qed.

Lemma appendSystemdAssignment_Ok lines key value source out :
  appendSystemdAssignment lines key value source = Ok out ->
  out = lines ++ [assign_line (key, value)] /\ lacks newline value = true.
Proof. unfold appendSystemdAssignment. intros (u & H & [= <-])%bind_Ok. split; [done|]. by eapply single_line_lacks. Qed.

Lemma append_values_Ok source key lines values out :
  append_values source key lines values = Ok out ->
  out = lines ++ (assign_line <$> (pair key <$> values)) /\ Forall (fun v => lacks newline v = true) values.
Proof.
  unfold append_values. revert lines; induction values as [|value values IH]; intros lines; cbn [fold_res].
  - intros [= <-]. by rewrite app_nil_r.
  - intros H. destruct (validateSystemdSingleLine value source) as [u|e] eqn:Ev; [|done]. cbn in H.
    apply IH in H as [-> Hall]. split; [by rewrite <- app_assoc|]. constructor; [by eapply single_line_lacks|done].
Qed.

Lemma section_key_Ok what source key u :
  section_key what source key = Ok u -> lacks newline key = true /\ lacks "="%char key = true.
Proof.
  unfold section_key. intros [_ H]%guard_or_Ok%negb_true_iff%orb_false_iff.
  split; (eapply ContainsAny_lacks; [|done]); vm_compute; done.
Qed.

Lemma append_entries_Ok what source lines values out :
  append_entries what source lines values = Ok out ->
  out = lines ++ (assign_line <$> flat values) /\ Forall one_line (flat values).
Proof.
  unfold append_entries, flat. generalize (sorted_entries values) as l. intros l. revert lines.
  induction l as [|[key vs] l IH]; intros lines; cbn [fold_res].
  - intros [= <-]. by rewrite app_nil_r.
  - intros H. cbn [fst snd] in H. destruct (section_key what source key) as [u|e] eqn:Ek; [|done]. cbn [mbind result_bind] in H.
    destruct (append_values source key lines vs) as [lines'|e] eqn:Ev; [|done].
    apply IH in H as [-> Hall]. apply append_values_Ok in Ev as [-> Hvs]. apply section_key_Ok in Ek as [Hn He].
    cbn [mbind list_bind fst snd]. rewrite fmap_app, app_assoc. split; [done|]. apply Forall_app. split; [|done].
    apply Forall_fmap. eapply Forall_impl; [exact Hvs|]. intros v Hv. by split_and!.
Qed.

(** A file grows by one section. *)
Lemma file_lines_snoc f s : file_lines (f ++ [s]) = (match f with [] => [] | _ => file_lines f ++ [""] end) ++ section_lines s.
Proof.
  induction f as [|s0 f IH]; [done|]. destruct f as [|s1 f]; [cbn; by rewrite <- app_assoc|].
  change (file_lines ((s0 :: s1 :: f) ++ [s])) with (section_lines s0 ++ "" :: file_lines ((s1 :: f) ++ [s])).
  change (file_lines (s0 :: s1 :: f)) with (section_lines s0 ++ "" :: file_lines (s1 :: f)).
  rewrite IH. by rewrite <- !app_assoc.
Qed.

Lemma file_lines_nil f : file_lines f = [] -> f = [].
Proof. by destruct f as [|s [|s' f]]. Qed.

Definition clean_section (s : string * assignments) : Prop := lacks newline s.1 = true /\ Forall one_line s.2.

Lemma clean_lines f : Forall clean_section f -> Forall (fun line => lacks newline line = true) (file_lines f).
Proof.
  assert (Hs : forall s, clean_section s -> Forall (fun line => lacks newline line = true) (section_lines s)).
  { intros [name l] [Hn Hl]. unfold section_lines. constructor; [unfold header; by rewrite !lacks_app, Hn|].
    apply Forall_fmap. eapply Forall_impl; [exact Hl|]. intros [k v] (Hk & Hv & _). unfold assign_line; cbn [fst snd] in *.
    change (lacks newline (k +:+ "=" +:+ v) = true). by rewrite !lacks_app, Hk, Hv. }
  induction 1 as [|s f Hc Hf IH]; [constructor|]. destruct f as [|s' f]; [by apply Hs|].
  change (file_lines (s :: s' :: f)) with (section_lines s ++ "" :: file_lines (s' :: f)).
  apply Forall_app. split; [by apply Hs|]. by constructor.
Qed.

Lemma appendNetworkdSection_Ok f name values source out :
  appendNetworkdSection (file_lines f) name values source = Ok out ->
  out = file_lines (f ++ [(name, flat values)]) /\ Forall one_line (flat values).
Proof.
  unfold appendNetworkdSection, append_header. intros [-> Hall]%append_entries_Ok. split; [|done].
  rewrite file_lines_snoc, <- app_assoc. unfold section_lines. cbn [fst snd]. f_equal.
  destruct f as [|s f]; [done|]. destruct (file_lines (s :: f)) eqn:E; [|done]. by apply file_lines_nil in E.
Qed.

(** ** Keys of the program's own *)

Definition own_keys (keys : list string) : bool := forallb (fun k => plain_key k && lacks newline k) keys.

(** [out] extends [lines] with assignments to [keys]. *)
Definition assigns (keys : list string) (l : assignments) : Prop := Forall (fun p => p.1 ∈ keys /\ lacks newline p.2 = true) l.
Definition grows (keys : list string) (lines out : list string) : Prop :=
  exists l, out = lines ++ (assign_line <$> l) /\ assigns keys l.

Lemma grows_refl keys lines : grows keys lines lines.
Proof. exists []. split; [by rewrite app_nil_r|constructor]. Qed.

Lemma grows_trans keys a b c : grows keys a b -> grows keys b c -> grows keys a c.
Proof.
  intros (l & -> & Hl) (l' & -> & Hl'). exists (l ++ l'). split; [by rewrite fmap_app, app_assoc|by apply Forall_app].
Qed.

Lemma grows_one keys lines key value : key ∈ keys -> lacks newline value = true -> grows keys lines (lines ++ [assign_line (key, value)]).
Proof. intros Hk Hv. exists [(key, value)]. split; [done|]. by constructor. Qed.

Lemma own_key keys p : own_keys keys = true -> p.1 ∈ keys /\ lacks newline p.2 = true -> plain_key p.1 = true /\ one_line p.
Proof.
  unfold own_keys. rewrite forallb_forall. intros Hall [Hk Hv].
  specialize (Hall p.1 (proj1 (list_elem_of_In _ _) Hk)). apply andb_true_iff in Hall as [Hp Hn].
  split; [done|]. split_and!; [done|done|]. by apply andb_true_iff in Hp as [? _].
Qed.

Lemma assigns_plain keys l : own_keys keys = true -> assigns keys l -> Forall (fun p => plain_key p.1 = true) l /\ Forall one_line l.
Proof.
  intros Hown Hl. split; (eapply Forall_impl; [exact Hl|]); intros p Hp; by apply (own_key keys p Hown).
Qed.

Lemma grows_assignment keys lines key value source out :
  key ∈ keys -> appendSystemdAssignment lines key value source = Ok out -> grows keys lines out.
Proof. intros Hk [-> Hv]%appendSystemdAssignment_Ok. by apply grows_one. Qed.

Lemma grows_unit_list keys item name key lines out :
  key ∈ keys -> unit_list_line item name key lines = Ok out -> grows keys lines out.
Proof.
  unfold unit_list_line. intros Hk (values & _ & H)%bind_Ok. destruct values; [injection H as <-; apply grows_refl|].
  apply bind_Ok in H as (value & _ & H). by eapply grows_assignment.
Qed.

Lemma grows_field keys item name key check lines out :
  key ∈ keys -> field_line item name key check lines = Ok out -> grows keys lines out.
Proof.
  unfold field_line. intros Hk (value & _ & H)%bind_Ok. destruct value; [|injection H as <-; apply grows_refl].
  apply bind_Ok in H as (u & _ & H). by eapply grows_assignment.
Qed.

(** ** Environment *)

Lemma quote_token_lacks value : lacks newline (systemdQuoteToken value) = true.
Proof.
  unfold systemdQuoteToken. destruct (systemdSafeTokenPattern value) eqn:E.
  - unfold systemdSafeTokenPattern in E. apply andb_true_iff in E as [_ E]. by eapply bytes_lacks, E.
  - apply printable_lacks, printable_Quote. done.
Qed.

Lemma grows_environment keys environment entries lines out :
  "Environment" ∈ keys -> fold_res (environment_line environment) entries lines = Ok out -> grows keys lines out.
Proof.
  intros Hk. apply (fold_res_inv (grows keys lines)); [|apply grows_refl].
  intros s p s' _ Hs H. unfold environment_line in H. spec_inv. eapply grows_trans; [exact Hs|].
  change ("Environment=" +:+ ?t) with (assign_line ("Environment", t)). apply grows_one; [done|apply quote_token_lacks].
Qed.

(** ** The sections of a service unit *)

Definition unit_keys : list string := ["Description"; "Wants"; "After"].
Definition before_keys : list string := ["Type"; "User"; "Group"; "WorkingDirectory"; "Environment"].
Definition after_keys : list string := ["Restart"; "RestartSec"; "StandardOutput"; "StandardError"].

Lemma unit_section_assigns unitName item lines :
  unit_section unitName item = Ok lines ->
  exists description l, lines = assign_line <$> ("Description", description) :: l
    /\ unit_description item (strings_TrimSuffix unitName ".service") = Ok description
    /\ assigns unit_keys (("Description", description) :: l).
Proof.
  unfold unit_section. intros H. apply bind_Ok in H as (description & Hd & H).
  apply bind_Ok in H as (l1 & [-> Hv]%appendSystemdAssignment_Ok & H). apply bind_Ok in H as (l2 & H2 & H3).
  apply (grows_unit_list unit_keys) in H2; [|set_solver]. apply (grows_unit_list unit_keys) in H3; [|set_solver].
  destruct (grows_trans _ _ _ _ H2 H3) as (l & -> & Hl). exists description, l. split_and!; [done|done|].
  constructor; [|done]. split; [set_solver|done].
Qed.

Lemma install_section_assigns item lines :
  install_section item = Ok lines -> exists l, lines = assign_line <$> l /\ assigns ["WantedBy"] l.
Proof.
  unfold install_section. intros (wantedBy & _ & H)%bind_Ok. destruct (default _ _).
  - injection H as <-. exists []. split; [done|constructor].
  - apply bind_Ok in H as (value & _ & H). apply (grows_assignment ["WantedBy"]) in H as (l' & -> & Hl); [|set_solver]. eauto.
Qed.

(** The assignments of [Service]: the run command between two groups of the
    program's own keys, then the free-form configuration. *)
Lemma service_section_assigns item run lines :
  service_section item run = Ok lines ->
  exists before after config, systemdSectionField item "service_config" = Ok config
    /\ lines = assign_line <$> before ++ ("ExecStart", run) :: after ++ flat config
    /\ assigns before_keys before /\ lacks newline run = true /\ assigns after_keys after /\ Forall one_line (flat config).
Proof.
  unfold service_section. intros H.
  do 4 (apply bind_Ok in H as (? & ?%(grows_field before_keys) & H); [|set_solver]).
  apply bind_Ok in H as (environment & _ & H). apply bind_Ok in H as (? & ?%(grows_environment before_keys) & H); [|set_solver].
  apply bind_Ok in H as (? & [-> Hrun]%appendSystemdAssignment_Ok & H).
  do 4 (apply bind_Ok in H as (? & ?%(grows_field after_keys) & H); [|set_solver]).
  apply bind_Ok in H as (config & Hconfig & H).
  assert (Hbefore : grows before_keys [] x3) by (repeat (eapply grows_trans; [eassumption|]); apply grows_refl).
  assert (Hafter : grows after_keys (x3 ++ [assign_line ("ExecStart", run)]) x7)
    by (repeat (eapply grows_trans; [eassumption|]); apply grows_refl).
  destruct Hbefore as (before & -> & Hb), Hafter as (after & -> & Ha). exists before, after, config.
  assert (lines = assign_line <$> before ++ ("ExecStart", run) :: after ++ flat config /\ Forall one_line (flat config))
    as [-> Hc]; [|done].
  rewrite fmap_app, fmap_cons, fmap_app. case_bool_decide as Hempty.
  - injection H as <-. subst config. split; [|constructor]. cbn. by rewrite app_nil_r, <- app_assoc.
  - unfold appendSystemdSection in H. rewrite bool_decide_true in H by done. apply append_entries_Ok in H as [-> Hall].
    split; [|done]. cbn. by rewrite <- !app_assoc.
Qed.

(** ** A structured service unit *)

Lemma flat_key section p : p ∈ flat section -> is_Some (section !! p.1).
Proof.
  unfold flat. intros ([k vs] & (v & -> & _)%list_elem_of_fmap & Hin)%list_elem_of_bind.
  apply elem_of_sorted_entries in Hin. by exists vs.
Qed.

(** No key of the free-form configuration starts like a header or a comment. *)
Definition plain_config (config : NetworkdSection) : Prop := forall key, is_Some (config !! key) -> first_is "#;[" key = false.

Lemma flat_plain config : plain_config config -> Forall one_line (flat config) -> Forall (fun p => plain_key p.1 = true) (flat config).
Proof.
  intros Hc Hl. apply Forall_forall. intros p Hp. rewrite Forall_forall in Hl. destruct (Hl p Hp) as (_ & _ & He).
  unfold plain_key. by rewrite He, (Hc p.1) by by apply flat_key.
Qed.


Definition sample_service : Value :=
  MapValue {["run" := str_value "/usr/bin/app --port 80"; "description" := str_value "The [app] = #1";
             "service_config" := MapValue {["LimitNOFILE" := str_value "1024"]} no_source]} no_source.

Definition plain_service_config (item : Value) : bool :=
  match systemdSectionField item "service_config" with
  | Ok config => bool_decide (map_Forall (fun key _ => first_is "#;[" key = false) config)
  | Err _ => true
  end.

Lemma plain_service_config_ok item :
  plain_service_config item = true ->
  forall config, systemdSectionField item "service_config" = Ok config -> plain_config config.
Proof.
  unfold plain_service_config. intros H config E. rewrite E in H. apply bool_decide_eq_true in H. intros key [v Hv]. exact (H key v Hv).
Qed.

Definition sample_text : string :=
  match renderSystemdServiceUnit "app.service" sample_service with Ok text => text | Err _ => "" end.

Example sample_text_sections :
  read_unit sample_text
  = ([], [("Unit", [("Description", "The [app] = #1")]); ("Service", [("ExecStart", "/usr/bin/app --port 80"); ("LimitNOFILE", "1024")]);
          ("Install", [("WantedBy", "multi-user.target")])]).
Proof. vm_compute. reflexivity. Qed.


(** ** The named sections of networkd files *)

Definition sections_file (sections : list NetworkdNamedSection) : unit_file :=
  (fun s => (ns_Name s, flat (ns_Settings s))) <$> sections.

Lemma identifier_plain key : validNetworkdIdentifier key = true -> plain_key key = true /\ lacks newline key = true.
Proof.
  unfold validNetworkdIdentifier, plain_key. intros [Hne H]%andb_true_iff. split.
  - rewrite (bytes_lacks _ "="%char _ eq_refl H). destruct key as [|c key]; [done|].
    change (Sha256.bytes (String c key)) with (N_of_ascii c :: Sha256.bytes key) in H.
    cbn [forallb] in H. apply andb_true_iff in H as [Hc _]. destruct c as [[][][][][][][][]]; vm_compute in Hc |- *; congruence.
  - by eapply bytes_lacks, H.
Qed.

Lemma appendNetworkdNamedSections_Ok sections f out :
  appendNetworkdNamedSections (file_lines f) sections = Ok out ->
  out = file_lines (f ++ sections_file sections) /\ Forall clean_section (sections_file sections).
Proof.
  unfold appendNetworkdNamedSections. revert f; induction sections as [|s sections IH]; intros f; cbn [fold_res].
  - intros [= <-]. by rewrite app_nil_r.
  - intros H. destruct (named_section (file_lines f) s) as [lines|e] eqn:E; [|done]. unfold named_section in E.
    apply bind_Ok in E as (u & Hname%guard_or_Ok & [-> Hflat]%appendNetworkdSection_Ok).
    apply IH in H as [-> Hall]. rewrite <- app_assoc. split; [done|]. constructor; [|done].
    split; [by apply identifier_plain|done].
Qed.

(** Every key of the named sections is an identifier. *)
Definition identifier_keys (sections : list NetworkdNamedSection) : Prop :=
  forall s key, s ∈ sections -> is_Some (ns_Settings s !! key) -> validNetworkdIdentifier key = true.

Lemma setting_check_identifier settings section key :
  fold_res setting_check (sorted_entries (v_Map settings)) tt = Ok tt -> networkdSection settings = Ok section ->
  is_Some (section !! key) -> validNetworkdIdentifier key = true.
Proof.
  rewrite fold_res_check. intros Hall Hs [vs Hvs]. destruct (v_Map settings !! key) as [v|] eqn:E.
  - specialize (Hall (key, v) (proj2 (elem_of_sorted_entries _ _ _) E)). unfold setting_check in Hall. by spec_inv.
  - pose proof (section_of_keys _ _ _ _ Hs E). congruence.
Qed.

(** The declared sections, in the order of their labels. *)
Lemma networkdGenericSections_Ok item sections sensitive :
  networkdGenericSections item = Ok (Some (sections, sensitive)) ->
  (exists collection, field item "section" = Some collection /\ ns_Identity <$> sections = section_order collection)
  /\ identifier_keys sections.
Proof.
  unfold networkdGenericSections. destruct (field item "section") as [collection|]; [|done].
  intros H. apply bind_Ok in H as (u & _ & H). apply bind_Ok in H as (acc & Hacc & [= ->]).
  assert (forall labels acc acc', identifier_keys acc.1 -> fold_res (generic_section collection) labels acc = Ok acc' ->
    ns_Identity <$> acc'.1 = (ns_Identity <$> acc.1) ++ labels /\ identifier_keys acc'.1) as Hfold.
  { induction labels as [|label labels IH]; intros acc acc' Hk; cbn [fold_res].
    - intros [= <-]. by rewrite app_nil_r.
    - intros H. destruct (generic_section collection acc label) as [acc1|e] eqn:E; [|done].
      unfold generic_section in E. spec_inv. apply IH in H as [-> ?]; cbn [fst].
      + rewrite fmap_app. split; [by rewrite <- app_assoc|done].
      + intros s key [Hs| ->%list_elem_of_singleton]%elem_of_app; [by apply Hk|]. cbn [ns_Settings].
        destruct x5. by eapply setting_check_identifier. }
  apply Hfold in Hacc as [Hid Hk]; [|by intros s key ?%elem_of_nil]. cbn in *. eauto.
Qed.

(** A present structured file reads back as its sections. *)
Lemma structured_reads_back sections text :
  sections <> [] -> identifier_keys sections ->
  (lines ← appendNetworkdNamedSections [] sections; Ok (render_lines lines)) = Ok text ->
  read_unit text = ([], sections_file sections).
Proof.
  intros Hne Hk (lines & H & [= <-])%bind_Ok. apply (appendNetworkdNamedSections_Ok _ []) in H as [-> Hclean].
  apply read_unit_file; [by destruct sections| |by apply clean_lines].
  apply Forall_fmap, Forall_forall. intros s Hs. apply Forall_forall. intros p Hp.
  by apply identifier_plain, (Hk s p.1 Hs), flat_key.
Qed.

(** The NetDev sections, and the name they set. *)
Definition netdev_sections (sections : list NetworkdNamedSection) : list NetworkdNamedSection :=
  filter (fun s => ns_Name s = "NetDev") sections.
Definition section_name (s : NetworkdNamedSection) : string := firstSectionValue (ns_Settings s) "Name".

Lemma netdev_scan sections : forall acc acc',
  fold_res netdev_section sections acc = Ok acc' ->
  acc'.1 = acc.1 + length (netdev_sections sections)
  /\ acc'.2 = from_option section_name acc.2 (last (netdev_sections sections))
  /\ Forall (fun s => section_name s <> "") (netdev_sections sections).
Proof.
  induction sections as [|s sections IH]; intros acc acc'; cbn [fold_res].
  - intros [= <-]. cbn. split_and!; [lia|done|constructor].
  - intros H. destruct (netdev_section acc s) as [acc1|e] eqn:E; [|done]. apply IH in H as (Hlen & Hname & Hall).
    unfold netdev_section in E. unfold netdev_sections in *. rewrite filter_cons. case_bool_decide as Hn.
    + rewrite decide_True by done. spec_inv. nonempty. cbn [fst snd] in *. split_and!; [cbn; lia| |by constructor].
      rewrite last_cons, Hname. by destruct (last _).
    + rewrite decide_False by done. by injection E as ->.
Qed.

Lemma validateGenericNetworkdNetDev_Ok sections source name :
  validateGenericNetworkdNetDev sections source = Ok name ->
  exists s, netdev_sections sections = [s] /\ name = section_name s /\ name <> "".
Proof.
  unfold validateGenericNetworkdNetDev. intros ([found nm] & Hscan%netdev_scan & H)%bind_Ok. spec_inv.
  cbn [fst snd] in Hscan. destruct Hscan as (Hlen & -> & Hall).
  match goal with H : bool_decide (found = 1) = true |- _ => apply bool_decide_eq_true in H; subst found end.
  destruct (netdev_sections sections) as [|s [|s' l]]; [done| |done].
  rewrite Forall_singleton in Hall. exists s. by split_and!.
Qed.

(** The mode of a file is structured when its sections made its text. *)
Lemma networkd_content_structured ensure raw structured render mode content summary :
  networkd_content ensure raw structured render = Ok (mode, content, summary) -> mode = "structured" -> ensure = "present" ->
  raw = None /\ structured = true /\ render = Ok content.
Proof.
  unfold networkd_content. intros H -> ->. destruct raw; [by injection H|]. rewrite bool_decide_true in H by done.
  apply bind_Ok in H as (c & Hc & [= Hs <- <-]). by destruct structured.
Qed.

Section read.
Context (ReadFile : string -> option string).

End read.

Definition named (name : string) (settings : list (string * Value)) : Value :=
  MapValue {["name" := str_value name; "settings" := MapValue (list_to_map settings) no_source]} no_source.
Definition sample_netdev : Value :=
  MapValue {["section" := with_order ["device"; "tunnel"]
    (MapValue {["tunnel" := named "WireGuard" [("PrivateKeyFile", str_value "/etc/wg.key")];
                "device" := named "NetDev" [("Name", str_value "wg0"); ("Kind", str_value "wireguard")]]} no_source)]} no_source.
Definition no_files (path : string) : option string := None.
Definition sample_netdev_spec : option NetworkdNetDev :=
  match networkdNetDevSpec no_files "wg0" sample_netdev with Ok n => Some n | Err _ => None end.

