(* ===== verification/Base64.v ===== *)
(** * Base64: [encoding/base64]'s StdEncoding

    The decoder that the engine applies to what the base64 command of a host
    printed, and the encoder as its reference: reading back what was written. *)
From S2P Require Import Prelude Sha256 GoValue GoStrings.

Open Scope N_scope.

(** The character of a 6-bit digit, and the digit of a character. *)
Definition digit_char (d : N) : ascii :=
  ascii_of_N (if d <? 26 then 65 + d else if d <? 52 then 71 + d else if d <? 62 then d - 4 else if d =? 62 then 43 else 47).
Definition char_digit (c : ascii) : option N :=
  let n := N_of_ascii c in
  if in_range 65 90 n then Some (n - 65) else if in_range 97 122 n then Some (n - 71)
  else if in_range 48 57 n then Some (n + 4) else if n =? 43 then Some 62 else if n =? 47 then Some 63 else None.
Definition pad : ascii := "="%char.

(** Three bytes are four digits; one or two bytes at the end are padded. *)
Fixpoint encode (l : list N) : list ascii :=
  match l with
  | [] => []
  | [a] => [digit_char (a / 4); digit_char (a mod 4 * 16); pad; pad]
  | [a; b] => [digit_char (a / 4); digit_char (a mod 4 * 16 + b / 16); digit_char (b mod 16 * 4); pad]
  | a :: b :: c :: l =>
      digit_char (a / 4) :: digit_char (a mod 4 * 16 + b / 16) :: digit_char (b mod 16 * 4 + c / 64) :: digit_char (c mod 64)
        :: encode l
  end.

(** [DecodeString]: line ends are skipped, padding ends the text, and the bits
    after the last byte are ignored. *)
Fixpoint decode_digits (l : list ascii) : option (list N) :=
  match l with
  | [] => Some []
  | c1 :: c2 :: c3 :: c4 :: l =>
      d1 ← char_digit c1; d2 ← char_digit c2;
      match char_digit c3, char_digit c4 with
      | Some d3, Some d4 =>
          rest ← decode_digits l;
          Some (d1 * 4 + d2 / 16 :: d2 mod 16 * 16 + d3 / 4 :: d3 mod 4 * 64 + d4 :: rest)
      | Some d3, None =>
          match l with [] => if Ascii.eqb c4 pad then Some [d1 * 4 + d2 / 16; d2 mod 16 * 16 + d3 / 4] else None | _ => None end
      | None, _ =>
          match l with [] => if Ascii.eqb c3 pad && Ascii.eqb c4 pad then Some [d1 * 4 + d2 / 16] else None | _ => None end
      end
  | _ => None
  end.
Definition line_end (c : ascii) : bool := Ascii.eqb c newline || Ascii.eqb c (ascii_of_N 13).
Definition base64_decode (s : string) : option string :=
  of_bytes <$> decode_digits (filter (fun c => line_end c = false) (String.list_ascii_of_string s)).
Definition base64_encode (s : string) : string := String.string_of_list_ascii (encode (Sha256.bytes s)).

Close Scope N_scope.

Example base64_example :
  (base64_encode <$> [""; "M"; "Ma"; "Man"; "Many"], base64_decode <$> ["TWFu"; "TWE="; "TQ=="; "TWFueQ=="; "TQ="; "T Q="; "="])
  = ([""; "TQ=="; "TWE="; "TWFu"; "TWFueQ=="], [Some "Man"; Some "Ma"; Some "M"; Some "Many"; None; None; None]).
Proof. vm_compute. reflexivity. Qed.

(** ** Reading back *)

Definition digits : list N := N.of_nat <$> seq 0 64.
Lemma digit_in d : (d < 64)%N -> d ∈ digits.
Proof. intros Hd. unfold digits. apply list_elem_of_fmap. exists (N.to_nat d). rewrite elem_of_seq. lia. Qed.

(** Characters of an encoding: they separate neither lines nor fields. *)
Definition text_char (c : ascii) : bool := (33 <=? N_of_ascii c)%N.

Lemma digits_ok : forallb (fun d => bool_decide (char_digit (digit_char d) = Some d) && text_char (digit_char d)) digits = true.
Proof. vm_compute. reflexivity. Qed.

Lemma digit_roundtrip d : (d < 64)%N -> char_digit (digit_char d) = Some d /\ text_char (digit_char d) = true.
Proof.
  intros Hd%digit_in. assert (Hall := digits_ok). rewrite forallb_forall in Hall.
  specialize (Hall d (proj1 (list_elem_of_In _ _) Hd)). apply andb_true_iff in Hall as [H1%bool_decide_eq_true H2]. done.
Qed.

Definition bytes_ok (l : list N) : Prop := Forall (fun b => (b < 256)%N) l.

Lemma bytes_in_range s : bytes_ok (Sha256.bytes s).
Proof.
  unfold bytes_ok, Sha256.bytes. apply Forall_fmap, Forall_forall. intros c _. apply N_ascii_bounded.
Qed.

Lemma of_bytes_bytes s : of_bytes (Sha256.bytes s) = s.
Proof.
  unfold of_bytes, Sha256.bytes. rewrite <- list_fmap_compose. erewrite list_fmap_ext, list_fmap_id.
  - apply String.string_of_list_ascii_of_string.
  - intros i c _. apply ascii_N_embedding.
Qed.

(** Induction on the groups of three bytes. *)
Lemma groups_ind (P : list N -> Prop) :
  P [] -> (forall a, P [a]) -> (forall a b, P [a; b]) -> (forall a b c l, P l -> P (a :: b :: c :: l)) -> forall l, P l.
Proof.
  intros H0 H1 H2 H3 l. enough (P l /\ (forall a, P (a :: l)) /\ (forall a b, P (a :: b :: l))) by tauto.
  induction l as [|x l (IH1 & IH2 & IH3)]; split_and!; auto.
Qed.

(** Splitting bytes into digits and back: arithmetic. *)
Ltac Zify.zify_post_hook ::= Z.to_euclidean_division_equations.
Lemma group_digits a b c :
  (a < 256)%N -> (b < 256)%N -> (c < 256)%N ->
  (a / 4 < 64 /\ a mod 4 * 16 + b / 16 < 64 /\ b mod 16 * 4 + c / 64 < 64 /\ c mod 64 < 64
   /\ a / 4 * 4 + (a mod 4 * 16 + b / 16) / 16 = a
   /\ (a mod 4 * 16 + b / 16) mod 16 * 16 + (b mod 16 * 4 + c / 64) / 4 = b
   /\ (b mod 16 * 4 + c / 64) mod 4 * 64 + c mod 64 = c)%N.
Proof. intros. split_and!; lia. Qed.
Ltac Zify.zify_post_hook ::= idtac.

Lemma encode_text l : bytes_ok l -> Forall (fun c => text_char c = true) (encode l).
Proof.
  induction l as [|a|a b|a b c l IH] using groups_ind; intros Hl; cbn [encode]; [constructor|..].
  - apply Forall_cons in Hl as [Ha _]. destruct (group_digits a 0 0 Ha) as (? & H2 & _); [done..|]. rewrite N.add_0_r in H2.
    repeat constructor; by apply digit_roundtrip.
  - apply Forall_cons in Hl as [Ha [Hb _]%Forall_cons]. destruct (group_digits a b 0 Ha Hb) as (? & ? & H3 & _); [done|].
    rewrite N.add_0_r in H3. repeat constructor; by apply digit_roundtrip.
  - apply Forall_cons in Hl as [Ha [Hb [Hc Hl]%Forall_cons]%Forall_cons].
    destruct (group_digits a b c Ha Hb Hc) as (? & ? & ? & ? & _).
    repeat (constructor; [by apply digit_roundtrip|]). by apply IH.
Qed.

Lemma decode_encode l : bytes_ok l -> decode_digits (encode l) = Some l.
Proof.
  induction l as [|a|a b|a b c l IH] using groups_ind; intros Hl; cbn [encode]; [done|..].
  - apply Forall_cons in Hl as [Ha _]. destruct (group_digits a 0 0 Ha) as (H1 & H2 & _ & _ & E1 & _); [done..|].
    rewrite N.add_0_r in H2, E1. cbn [decode_digits].
    rewrite (proj1 (digit_roundtrip _ H1)), (proj1 (digit_roundtrip _ H2)). cbn. by rewrite E1.
  - apply Forall_cons in Hl as [Ha [Hb _]%Forall_cons].
    destruct (group_digits a b 0 Ha Hb) as (H1 & H2 & H3 & _ & E1 & E2 & _); [done|]. rewrite N.add_0_r in H3, E2.
    cbn [decode_digits]. rewrite (proj1 (digit_roundtrip _ H1)), (proj1 (digit_roundtrip _ H2)), (proj1 (digit_roundtrip _ H3)).
    cbn. by rewrite E1, E2.
  - apply Forall_cons in Hl as [Ha [Hb [Hc Hl]%Forall_cons]%Forall_cons].
    destruct (group_digits a b c Ha Hb Hc) as (H1 & H2 & H3 & H4 & E1 & E2 & E3). cbn [decode_digits].
    rewrite (proj1 (digit_roundtrip _ H1)), (proj1 (digit_roundtrip _ H2)), (proj1 (digit_roundtrip _ H3)),
      (proj1 (digit_roundtrip _ H4)), (IH Hl). cbn. by rewrite E1, E2, E3.
Qed.

Lemma text_char_line_end c : text_char c = true -> line_end c = false.
Proof.
  unfold line_end. intros Hc. destruct (Ascii.eqb_spec c newline) as [->|]; [discriminate Hc|].
  destruct (Ascii.eqb_spec c (ascii_of_N 13)) as [->|]; [discriminate Hc|done].
Qed.

Lemma base64_roundtrip s : base64_decode (base64_encode s) = Some s.
Proof.
  unfold base64_decode, base64_encode. rewrite String.list_ascii_of_string_of_list_ascii.
  assert (Hf : filter (fun c => line_end c = false) (encode (Sha256.bytes s)) = encode (Sha256.bytes s)).
  { assert (Ht := encode_text _ (bytes_in_range s)). induction Ht as [|c l Hc _ IH]; [done|].
    rewrite filter_cons, decide_True by (by apply text_char_line_end). by rewrite IH. }
  rewrite Hf, decode_encode by apply bytes_in_range. cbn. by rewrite of_bytes_bytes.
Qed.
