(* ===== verification/Remote.v ===== *)
(** * Remote hosts: the runner of [engine/ssh.go], the quoting of shell words, [engine/facts.go]

    The class [Runner] is the Go interface through which every command reaches a
    host.  [shellQuote] is proved against a reader of the words of a POSIX shell:
    what it writes is one word, whatever the text. *)
From S2P Require Import Prelude Sha256 GoValue GoStrings IR HostIR State Moves Graph Schedule Engine.

(** ** The runner *)

(** [Result] *)
Record Result := { res_Stdout : string; res_Stderr : string }.

(** [Runner], over a world [W]: a script for a shell, a command with an input,
    one command line.  The context of a call only labels its progress. *)
Class Runner (W : Type) := {
  runner_Run : string -> string -> M engine_error W Result;
  runner_RunInput : string -> string -> string -> M engine_error W Result;
  runner_RunCommand : string -> string -> M engine_error W Result;
}.

(** ** The text of scripts *)

(** A backquote in a literal stands for a double quote; no script of the program
    has a backquote. *)
Fixpoint sh (s : string) : string :=
  match s with
  | EmptyString => EmptyString
  | String c s => (if Ascii.eqb c "`" then dquote else String c "") +:+ sh s
  end.

Definition tab : ascii := ascii_of_N 9.
Definition strings_TrimRight_newlines (s : string) : string :=
  str_rev (strings_TrimLeft (str_rev s) nl).

(** [strings.Join(lines, "\n") + "\n"] *)
Definition script_text (lines : list string) : string := strings_Join lines nl +:+ nl.

(** A raw literal: its lines, each with its end. *)
Definition raw_script (lines : list string) : string := sh (script_text lines).

(** [shellQuote]: a single quote closes the word, comes in double quotes, and
    opens it again. *)
Definition single : ascii := "'"%char.
Definition double : ascii := ascii_of_N 34.
Definition quoted_single : string := String single (String double (String single (String double (String single "")))).
Fixpoint quote_chars (s : string) : string :=
  match s with
  | EmptyString => EmptyString
  | String c s => (if Ascii.eqb c single then quoted_single else String c "") +:+ quote_chars s
  end.
Definition shellQuote (s : string) : string :=
  if decide (s = "") then "''" else String single (quote_chars s +:+ "'").

Definition shellQuoteArgs (args : list string) : list string := shellQuote <$> args.
Definition command_line (args : list string) : string := strings_Join (shellQuoteArgs args) " ".

(** ** Words of a shell

    A reader of simple commands: words of single-quoted, double-quoted and plain
    text, separated by blanks, commands ended by newlines.  Anything that the
    shell expands or that is an operator is refused ([None]). *)
Inductive lexer :=
| Blank                       (* between two words *)
| Plain (word : string)       (* in a word, outside quotes *)
| Single (word : string)
| Double (word : string).

Definition plain_char (c : ascii) : bool :=
  let n := N_of_ascii c in
  alnum n || (128 <=? n)%N || strings_Contains "_-+.,/:=@%" (String c "").
Definition expands_in_double (c : ascii) : bool :=
  bool_decide (c = "$"%char) || bool_decide (c = "`"%char) || bool_decide (c = "\"%char).

Definition end_word (st : lexer) (words : list string) : list string :=
  match st with Plain w => words ++ [w] | _ => words end.
Definition end_command (words : list string) (commands : list (list string)) : list (list string) :=
  match words with [] => commands | _ => commands ++ [words] end.
Definition word_of (st : lexer) : string := match st with Plain w | Single w | Double w => w | Blank => "" end.

Fixpoint sh_read (st : lexer) (words : list string) (commands : list (list string)) (s : string)
  : option (list (list string)) :=
  match s with
  | EmptyString =>
      match st with
      | Single _ | Double _ => None
      | _ => Some (end_command (end_word st words) commands)
      end
  | String c s =>
      match st with
      | Single w => if Ascii.eqb c single then sh_read (Plain w) words commands s
                    else sh_read (Single (w +:+ String c "")) words commands s
      | Double w => if Ascii.eqb c double then sh_read (Plain w) words commands s
                    else if expands_in_double c then None
                    else sh_read (Double (w +:+ String c "")) words commands s
      | Blank | Plain _ =>
          if Ascii.eqb c newline then sh_read Blank [] (end_command (end_word st words) commands) s
          else if Ascii.eqb c " " || Ascii.eqb c tab then sh_read Blank (end_word st words) commands s
          else if Ascii.eqb c single then sh_read (Single (word_of st)) words commands s
          else if Ascii.eqb c double then sh_read (Double (word_of st)) words commands s
          else if plain_char c then sh_read (Plain (word_of st +:+ String c "")) words commands s
          else None
      end
  end.

(** The commands of a script, each its words. *)
Definition sh_commands (script : string) : option (list (list string)) := sh_read Blank [] [] script.

Lemma str_app_snoc w c s : (w +:+ String c "") +:+ s = w +:+ String c s.
Proof. by rewrite str_app_assoc. Qed.

Lemma read_quote_chars s w words commands rest :
  sh_read (Single w) words commands (quote_chars s +:+ rest) = sh_read (Single (w +:+ s)) words commands rest.
Proof.
  revert w. induction s as [|c s IH]; intros w; cbn [quote_chars].
  - by rewrite str_app_nil_r.
  - rewrite str_app_assoc. destruct (Ascii.eqb_spec c single) as [->|Hc].
    + unfold quoted_single. rewrite !str_app_cons. cbn [sh_read Ascii.eqb single double Bool.eqb]. cbn.
      change (expands_in_double single) with false. cbn. change ("" +:+ ?x) with x. rewrite IH. by rewrite str_app_snoc.
    + rewrite str_app_cons. cbn [sh_read]. rewrite (proj2 (Ascii.eqb_neq _ _) Hc). rewrite IH. by rewrite str_app_snoc.
Qed.

(** A quoted text is read as itself, wherever a word may start. *)
Lemma read_quoted s words commands rest :
  sh_read Blank words commands (shellQuote s +:+ rest) = sh_read (Plain s) words commands rest.
Proof.
  unfold shellQuote. case_decide as Hs; [by subst|]. rewrite str_app_cons, str_app_assoc.
  change (sh_read Blank words commands (String single ?x)) with (sh_read (Single "") words commands x).
  rewrite read_quote_chars. done.
Qed.

Lemma read_command_line args words commands rest :
  sh_read Blank words commands (command_line args +:+ nl +:+ rest)
  = sh_read Blank [] (end_command (words ++ args) commands) rest.
Proof.
  unfold command_line, strings_Join. revert words. induction args as [|a args IH]; intros words; [by rewrite app_nil_r|].
  destruct args as [|b args].
  - cbn [shellQuoteArgs fmap list_fmap String.concat]. by rewrite read_quoted.
  - change (String.concat " " (shellQuoteArgs (a :: b :: args)))
      with (shellQuote a +:+ " " +:+ String.concat " " (shellQuoteArgs (b :: args))).
    rewrite !str_app_assoc, read_quoted. specialize (IH (words ++ [a])). rewrite <- app_assoc in IH. exact IH.
Qed.

(** ** Facts: [engine/facts.go] *)

Definition fact_line (values : gmap string string) (line : string) : gmap string string :=
  match strings_Cut (strings_TrimSpace line) "="%char with
  | Some (key, value) => <[key := value]> values
  | None => values
  end.
Definition parseFactLines (output : string) : gmap string string := fold_left fact_line (strings_Split output newline) ∅.
Definition fact (values : gmap string string) (name : string) : string := default "" (values !! name).

Definition normalizeTargetArchitecture (value : string) : string :=
  let value := strings_TrimSpace value in
  if decide (value = "x86_64") then "amd64" else if decide (value = "aarch64") then "arm64" else value.

Definition facts_script : string := raw_script
  ["set -eu";
   "host_name=`$(hostname 2>/dev/null || true)`";
   "arch=`$(dpkg --print-architecture 2>/dev/null || true)`";
   "if [ -z `$arch` ]; then";
   "  machine=`$(uname -m 2>/dev/null || true)`";
   "  case `$machine` in";
   "    x86_64) arch=`amd64` ;;";
   "    aarch64|arm64) arch=`arm64` ;;";
   "    armv7l|armhf) arch=`armhf` ;;";
   "    *) arch=`$machine` ;;";
   "  esac";
   "fi";
   "codename=``";
   "distribution=``";
   "version=``";
   "if [ -r /etc/os-release ]; then";
   "  os_release=`$({";
   "    . /etc/os-release";
   "    printf '%s\n' `${ID:-}` `${VERSION_ID:-}` `${VERSION_CODENAME:-${UBUNTU_CODENAME:-}}`";
   "  })`";
   "  distribution=`$(printf '%s\n' `$os_release` | sed -n '1p')`";
   "  version=`$(printf '%s\n' `$os_release` | sed -n '2p')`";
   "  codename=`$(printf '%s\n' `$os_release` | sed -n '3p')`";
   "fi";
   "if [ -z `$codename` ] && command -v lsb_release >/dev/null 2>&1; then";
   "  codename=`$(lsb_release -sc 2>/dev/null || true)`";
   "fi";
   "printf 'hostname=%s\n' `$host_name`";
   "printf 'distribution=%s\n' `$distribution`";
   "printf 'version=%s\n' `$version`";
   "printf 'architecture=%s\n' `$arch`";
   "printf 'codename=%s\n' `$codename`"].

(** The facts in an output, for the time [detectedAt] of the call. *)
Definition host_facts (host : string) (output : string) (detectedAt : string) : result engine_error HostFacts :=
  let empty name := NodeFailed ("discover host facts for " +:+ host +:+ ":") (name +:+ " is empty") in
  let values := parseFactLines output in
  let distribution := strings_ToLower (strings_TrimSpace (fact values "distribution")) in
  _ ← guard_or (bool_decide (distribution <> "")) (empty "distribution");
  let version := strings_TrimSpace (fact values "version") in
  _ ← guard_or (bool_decide (version <> "")) (empty "version");
  let arch := normalizeTargetArchitecture (fact values "architecture") in
  _ ← guard_or (bool_decide (arch <> "")) (empty "architecture");
  let codename := fact values "codename" in
  _ ← guard_or (bool_decide (codename <> "")) (empty "codename");
  _ ← map_err (EnginePlatform host) (ValidateTargetPlatform distribution version arch codename);
  Ok {| System := {| Hostname := fact values "hostname"; Distribution := distribution; Version := version;
                     Architecture := arch; Codename := codename; DetectedAt := detectedAt |} |}.

Definition boundedHostParallel (parallel : Z) (hostCount : nat) : Z :=
  if bool_decide (hostCount < 1) then 1%Z
  else Z.min (if bool_decide (parallel < 1)%Z then 4%Z else parallel) (Z.of_nat hostCount).

Section facts.
Context {W : Type} `{Runner W}.

Definition wrap_err {A} (prefix : string) (m : M engine_error W A) : M engine_error W A :=
  fun w => let '(r, w') := m w in (map_err (Wrapped prefix) r, w').

Definition DiscoverHostFacts (host : HostSpec) (detectedAt : string) : M engine_error W HostFacts :=
  result ← wrap_err ("discover host facts for " +:+ h_Name host) (runner_Run (h_Name host) facts_script);
  lift (host_facts (h_Name host) (res_Stdout result) detectedAt).

(** The workers take the hosts from a channel; here they are visited in order,
    which is what one worker does. *)
Definition DiscoverProgramFacts (p : Program) (detectedAt : string) : M engine_error W (gmap string HostFacts) :=
  fold_M (fun facts host => hostFacts ← DiscoverHostFacts host detectedAt; mret (<[h_Name host := hostFacts]> facts))
    (p_Hosts p) ∅.
End facts.

(** What is discovered is one of the supported targets. *)
Lemma host_facts_supported host output detectedAt facts :
  host_facts host output detectedAt = Ok facts ->
  (Distribution (System facts), Version (System facts), Architecture (System facts), Codename (System facts)) ∈ supported_targets.
Proof.
  unfold host_facts. intros ([] & _ & ([] & _ & ([] & _ & ([] & _ & ([] & Ht%map_err_Ok & [= <-])%bind_Ok)%bind_Ok)%bind_Ok)%bind_Ok)%bind_Ok.
  by apply ValidateTargetPlatform_supported.
Qed.

Example facts_example :
  (fun r => match r with Ok f => Some (System f) | Err _ => None end)
    (host_facts "h" (script_text ["hostname=web1"; "distribution=Debian"; "version=13"; "architecture=x86_64"; "codename=trixie"]) "now")
  = Some {| Hostname := "web1"; Distribution := "debian"; Version := "13"; Architecture := "amd64"; Codename := "trixie";
            DetectedAt := "now" |}.
Proof. vm_compute. reflexivity. Qed.
