(* ===== verification/Ssh.v ===== *)
(** * The SSH runner: [engine/ssh.go] and [engine/remote_call_context.go]

    What the runner computes around the processes that it starts: the arguments
    of ssh, its configuration and environment, the classification of failures.
    The slot that lets one connection authenticate before the others are started
    is a step relation over the goroutines that call the runner, with the mutex's
    critical sections as steps. *)
From S2P Require Import Prelude Sha256 GoValue GoStrings IR HostIR State Moves Graph Schedule Engine Remote.

(** ** Hosts and arguments *)

(** [Host] *)
Record Host := {
  ho_Name : string;
  ho_Address : string;
  ho_Port : Z;
  ho_User : string;
  ho_IdentityFile : string;
}.

Definition host_of_spec (h : HostSpec) : Host :=
  {| ho_Name := h_Name h; ho_Address := ssh_Host (h_SSH h); ho_Port := ssh_Port (h_SSH h); ho_User := ssh_User (h_SSH h);
     ho_IdentityFile := ssh_IdentityFile (h_SSH h) |}.
Definition HostsFromProgram (p : Program) : gmap string Host :=
  fold_left (fun hosts h => <[h_Name h := host_of_spec h]> hosts) (p_Hosts p) ∅.

(** A name that is not configured is its own address. *)
Definition resolve (hosts : gmap string Host) (host : string) : Host :=
  default {| ho_Name := host; ho_Address := host; ho_Port := 0; ho_User := "root"; ho_IdentityFile := "" |} (hosts !! host).

(** [expandHome], given [os.UserHomeDir]. *)
Definition expandHome (UserHomeDir : option string) (path : string) : string :=
  if decide (path = "~") then default path UserHomeDir
  else if strings_HasPrefix path "~/" then
    match UserHomeDir with Some home => home +:+ "/" +:+ strings_TrimPrefix path "~/" | None => path end
  else path.

Definition batch_options : list string :=
  ["-o"; "BatchMode=yes"; "-o"; "NumberOfPasswordPrompts=0"; "-o"; "PasswordAuthentication=no";
   "-o"; "KbdInteractiveAuthentication=no"; "-o"; "StrictHostKeyChecking=accept-new"].

(** [sshConfigPath] is given: the configuration of the control master or that of
    the environment. *)
Definition sshArgsAndTarget (UserHomeDir : option string) (sshConfigPath : string) (hosts : gmap string Host) (host : string)
  : list string * string :=
  let resolved := resolve hosts host in
  let user := if decide (ho_User resolved = "") then "root" else ho_User resolved in
  let args := batch_options ++ ["-l"; user] in
  let args := if decide (sshConfigPath = "") then args else ["-F"; sshConfigPath] ++ args in
  let args := if decide (ho_Port resolved = 0%Z \/ ho_Port resolved = 22%Z) then args
              else args ++ ["-p"; pretty (ho_Port resolved)] in
  let args := if decide (ho_IdentityFile resolved = "") then args
              else args ++ ["-i"; expandHome UserHomeDir (ho_IdentityFile resolved)] in
  (args, if decide (ho_Address resolved = "") then host else ho_Address resolved).
Definition SSHArgs (UserHomeDir : option string) (sshConfigPath : string) (hosts : gmap string Host) (host : string) : list string :=
  let '(args, target) := sshArgsAndTarget UserHomeDir sshConfigPath hosts host in args ++ [target].

(** The arguments that [Run] and [RunInput] start ssh with. *)
Definition Run_args (UserHomeDir : option string) (sshConfigPath : string) (hosts : gmap string Host) (host : string) : list string :=
  SSHArgs UserHomeDir sshConfigPath hosts host ++ ["sh"; "-s"].
Definition RunInput_args (UserHomeDir : option string) (sshConfigPath : string) (hosts : gmap string Host) (host remoteCommand : string)
  : list string := SSHArgs UserHomeDir sshConfigPath hosts host ++ [remoteCommand].

(** ** The control master *)

Definition sshControlPathMaxBytes : nat := 103.
Definition sshControlHashBytes : nat := 40.

(** [strings.ReplaceAll(path, "%C", strings.Repeat("0", 40))], its length. *)
Fixpoint expanded_len (l : list ascii) : nat :=
  match l with
  | "%"%char :: ("C"%char :: l) => sshControlHashBytes + expanded_len l
  | _ :: l => S (expanded_len l)
  | [] => 0
  end.
Definition sshControlPathExpandedLen (path : string) : nat := expanded_len (String.list_ascii_of_string path).
Definition sshControlPathFits (path : string) : bool := bool_decide (sshControlPathExpandedLen path <= sshControlPathMaxBytes).

Definition sshControlDirCandidates (DBF_SSH_CONTROL_DIR TempDir : string) : list string :=
  if decide (DBF_SSH_CONTROL_DIR = "") then
    ["/tmp"] ++ (if decide (TempDir = "" \/ TempDir = "/tmp") then [] else [TempDir])
  else [DBF_SSH_CONTROL_DIR].

(** [makeSSHControlDir]: [MkdirTemp] creates and protects a directory under a
    root, or fails. *)
Definition makeSSHControlDir (MkdirTemp : string -> option string) (candidates : list string) : option string :=
  fold_left (fun found root =>
    match found with
    | Some dir => Some dir
    | None => dir ← MkdirTemp root; if sshControlPathFits (dir +:+ "/%C") then Some dir else None
    end) candidates None.

Definition sshControlConfig (controlPath userConfig : string) : string :=
  let t line := String tab line in
  script_text
    (["Host *"; t "ControlMaster auto"; t "ControlPersist 10m"; t ("ControlPath " +:+ controlPath); t "BatchMode yes";
      t "NumberOfPasswordPrompts 0"; t "PasswordAuthentication no"; t "KbdInteractiveAuthentication no"]
     ++ (if decide (userConfig = "") then ["Include ~/.ssh/config"; "Include /etc/ssh/ssh_config"]
         else ["Include " +:+ userConfig])).

(** ** The environment *)

Definition envValue (env : list string) (key : string) : string :=
  let prefix := key +:+ "=" in
  match list_find (fun item => strings_HasPrefix item prefix = true) env with
  | Some (_, item) => strings_TrimPrefix item prefix
  | None => ""
  end.

(** The first entry of the key is replaced, the others are dropped. *)
Fixpoint set_env (prefix value : string) (replaced : bool) (env : list string) : list string :=
  match env with
  | [] => if replaced then [] else [prefix +:+ value]
  | item :: env =>
      if strings_HasPrefix item prefix
      then (if replaced then [] else [prefix +:+ value]) ++ set_env prefix value true env
      else item :: set_env prefix value replaced env
  end.
Definition setEnvValue (env : list string) (key value : string) : list string := set_env (key +:+ "=") value false env.

(** [nonInteractiveSSHEnv], given the directory of the wrapper when it could be
    created and written. *)
Definition nonInteractiveSSHEnv (base : list string) (wrapperDir : option string) : list string :=
  let env := setEnvValue base "SSH_ASKPASS" "/bin/false" in
  let env := setEnvValue env "SSH_ASKPASS_REQUIRE" "never" in
  let env := setEnvValue env "DISPLAY" "" in
  match wrapperDir with
  | None => env
  | Some dir =>
      let path := envValue env "PATH" in
      setEnvValue env "PATH" (if decide (path = "") then dir else dir +:+ ":" +:+ path)
  end.

(** The wrapper that proxy commands find as ssh. *)
Definition ssh_wrapper (sshPath : string) : string :=
  script_text
    ["#!/bin/sh";
     "exec " +:+ shellQuote sshPath +:+ " -o BatchMode=yes -o NumberOfPasswordPrompts=0 -o PasswordAuthentication=no"
     +:+ " -o KbdInteractiveAuthentication=no " +:+ sh "`$@`"].

(** What was set is read back, and no other entry is touched. *)
Lemma has_prefix_app p s : strings_HasPrefix (p +:+ s) p = true.
Proof.
  unfold strings_HasPrefix. induction p as [|c p IH]; [by destruct s|]. rewrite str_app_cons. cbn. by destruct (ascii_dec c c).
Qed.
Lemma trim_prefix_app p s : strings_TrimPrefix (p +:+ s) p = s.
Proof.
  unfold strings_TrimPrefix. rewrite has_prefix_app. induction p as [|c p IH]; [done|]. rewrite str_app_cons. apply IH.
Qed.

Lemma set_env_entries prefix value env replaced :
  filter (fun item => strings_HasPrefix item prefix = true) (set_env prefix value replaced env)
    = (if replaced then [] else [prefix +:+ value])
  /\ filter (fun item => strings_HasPrefix item prefix <> true) (set_env prefix value replaced env)
     = filter (fun item => strings_HasPrefix item prefix <> true) env.
Proof.
  revert replaced. induction env as [|item env IH]; intros replaced; cbn [set_env].
  - destruct replaced; [done|]. rewrite !filter_cons, has_prefix_app. by rewrite decide_True, decide_False by auto.
  - destruct (strings_HasPrefix item prefix) eqn:E.
    + destruct (IH true) as [IH1 IH2]. destruct replaced; cbn [app].
      * split; [done|]. rewrite IH2, (filter_cons _ item), decide_False by auto. done.
      * rewrite !filter_cons, has_prefix_app, E. rewrite decide_True, !decide_False by auto. by rewrite IH1, IH2.
    + destruct (IH replaced) as [IH1 IH2]. rewrite !filter_cons, E. rewrite decide_False, decide_True by auto.
      by rewrite IH1, IH2, decide_True by auto.
Qed.

Lemma list_find_filter {A} (P : A -> Prop) `{forall x, Decision (P x)} (l : list A) :
  snd <$> list_find P l = head (filter P l).
Proof.
  induction l as [|x l IH]; [done|]. cbn [list_find]. rewrite filter_cons. destruct (decide (P x)); [done|].
  rewrite <- IH. by destruct (list_find P l) as [[]|].
Qed.

Lemma envValue_setEnvValue env key value : envValue (setEnvValue env key value) key = value.
Proof.
  unfold envValue, setEnvValue. set (prefix := key +:+ "=").
  assert (Hf := list_find_filter (fun item => strings_HasPrefix item prefix = true) (set_env prefix value false env)).
  rewrite (proj1 (set_env_entries prefix value env false)) in Hf.
  destruct (list_find _ _) as [[i item]|]; [|done]. injection Hf as ->. apply trim_prefix_app.
Qed.

(** ** Failures *)

(** The error of [cmd.Run]: the process ended with a code, or something else. *)
Inductive process_error :=
| ExitError (code : Z)
| NotRun (cause : string).

Definition sshExitCode (e : process_error) : option Z := match e with ExitError code => Some code | NotRun _ => None end.

(** ssh itself ends with 255 when it cannot connect. *)
Definition sshCommandReachedRemote (e : option process_error) : bool :=
  match e with
  | None => true
  | Some e => from_option (fun code => bool_decide (0 <= code)%Z && negb (bool_decide (code = 255%Z))) false (sshExitCode e)
  end.

Inductive ssh_error :=
| RemoteCommandFailed (host : string) (e : process_error) (stderr : string)
| SSHFailed (host : string) (e : process_error) (stderr : string)
| SSHNotConnected (host : string) (e : process_error) (stderr : string).     (* with the hint on keys and proxies *)

Definition sshRunError (host : string) (r : Result) (e : option process_error) : result ssh_error unit :=
  let stderr := strings_TrimSpace (res_Stderr r) in
  match e with
  | None => Ok tt
  | Some e =>
      if sshCommandReachedRemote (Some e) then Err (RemoteCommandFailed host e stderr)
      else if decide (sshExitCode e = Some 255%Z) then Err (SSHNotConnected host e stderr)
      else Err (SSHFailed host e stderr)
  end.

(** ** The context of a call *)

(** [RemoteCallContext], its prompt as an identifier. *)
Record RemoteCallContext := {
  rc_Phase : string;
  rc_Address : string;
  rc_Action : string;
  rc_Summary : string;
  rc_Sensitive : bool;
  rc_Cleanup : bool;
  rc_Maintenance : bool;
  rc_onFailurePrompt : option nat;
}.
Definition keep_unless_set (current next : string) : string := if decide (next = "") then current else next.
Definition mergeRemoteCallContext (current next : RemoteCallContext) : RemoteCallContext :=
  {| rc_Phase := keep_unless_set (rc_Phase current) (rc_Phase next);
     rc_Address := keep_unless_set (rc_Address current) (rc_Address next);
     rc_Action := keep_unless_set (rc_Action current) (rc_Action next);
     rc_Summary := keep_unless_set (rc_Summary current) (rc_Summary next);
     rc_Sensitive := rc_Sensitive current || rc_Sensitive next;
     rc_Cleanup := rc_Cleanup current || rc_Cleanup next;
     rc_Maintenance := rc_Maintenance current || rc_Maintenance next;
     rc_onFailurePrompt := match rc_onFailurePrompt next with None => rc_onFailurePrompt current | prompt => prompt end |}.
Definition WithRemoteCallContext (ctx : option RemoteCallContext) (call : RemoteCallContext) : option RemoteCallContext :=
  Some (match ctx with Some current => mergeRemoteCallContext current call | None => call end).

(** ** The first authentication *)

(** The fields under [initialAuthMu]; a channel is a number, those below
    [sl_next] exist, and [sl_closed] holds the closed ones. *)
Record slot := {
  sl_running : bool;
  sl_succeeded : bool;
  sl_wait : option nat;
  sl_next : nat;
  sl_closed : gset nat;
}.
Definition new_slot : slot :=
  {| sl_running := false; sl_succeeded := false; sl_wait := None; sl_next := 0; sl_closed := ∅ |}.

(** What a goroutine in [runSSH] is doing. *)
Inductive caller :=
| Acquiring                   (* at the head of the loop *)
| Waiting (channel : nat)
| Connecting (owner : bool)   (* the process runs; [owner]: it holds the slot *)
| Returned.

(** [initialAuthWait], created when there is none. *)
Definition ensure_wait (s : slot) : nat * slot :=
  match sl_wait s with
  | Some ch => (ch, s)
  | None => (sl_next s, {| sl_running := sl_running s; sl_succeeded := sl_succeeded s; sl_wait := Some (sl_next s);
                           sl_next := S (sl_next s); sl_closed := sl_closed s |})
  end.

(** One round of the loop of [acquireInitialAuthSlot]. *)
Definition acquireInitialAuthSlot (s : slot) : caller * slot :=
  if sl_succeeded s then (Connecting false, s)
  else if sl_running s then let '(ch, s) := ensure_wait s in (Waiting ch, s)
  else let '(_, s) := ensure_wait s in
       (Connecting true, {| sl_running := true; sl_succeeded := sl_succeeded s; sl_wait := sl_wait s; sl_next := sl_next s;
                            sl_closed := sl_closed s |}).

Definition releaseInitialAuthSlot (reachedRemote : bool) (s : slot) : slot :=
  {| sl_running := false; sl_succeeded := sl_succeeded s || reachedRemote; sl_wait := Some (sl_next s); sl_next := S (sl_next s);
     sl_closed := from_option (fun ch => {[ch]} ∪ sl_closed s) (sl_closed s) (sl_wait s) |}.

Record ssh_world := { sw_slot : slot; sw_callers : gmap nat caller }.

Definition put (i : nat) (c : caller) (s : slot) (w : ssh_world) : ssh_world :=
  {| sw_slot := s; sw_callers := <[i := c]> (sw_callers w) |}.

(** The steps of the callers: a new call, a round of the loop, the wake-up by the
    close of the channel, the cancellation of a wait, the end of a process. *)
Inductive ssh_step : ssh_world -> ssh_world -> Prop :=
| step_call w i :
    sw_callers w !! i = None -> ssh_step w (put i Acquiring (sw_slot w) w)
| step_acquire w i c s :
    sw_callers w !! i = Some Acquiring -> acquireInitialAuthSlot (sw_slot w) = (c, s) -> ssh_step w (put i c s w)
| step_wake w i ch :
    sw_callers w !! i = Some (Waiting ch) -> ch ∈ sl_closed (sw_slot w) -> ssh_step w (put i Acquiring (sw_slot w) w)
| step_cancel w i ch :
    sw_callers w !! i = Some (Waiting ch) -> ssh_step w (put i Returned (sw_slot w) w)
| step_finish w i (owner reached : bool) :
    sw_callers w !! i = Some (Connecting owner) ->
    ssh_step w (put i Returned (if owner then releaseInitialAuthSlot reached (sw_slot w) else sw_slot w) w).

Definition started : ssh_world := {| sw_slot := new_slot; sw_callers := ∅ |}.
Definition reachable (w : ssh_world) : Prop := rtc ssh_step started w.

(** The invariant: at most one caller owns the slot, exactly when it is taken;
    others connect only after a success; every waiter waits on a channel that is
    closed or that the owner will close. *)
Record slot_ok (w : ssh_world) : Prop := {
  so_owner i j : sw_callers w !! i = Some (Connecting true) -> sw_callers w !! j = Some (Connecting true) -> i = j;
  so_running : sl_running (sw_slot w) = true <-> exists i, sw_callers w !! i = Some (Connecting true);
  so_others i : sw_callers w !! i = Some (Connecting false) -> sl_succeeded (sw_slot w) = true;
  so_waiters i ch : sw_callers w !! i = Some (Waiting ch) ->
    ch ∈ sl_closed (sw_slot w) \/ (sl_wait (sw_slot w) = Some ch /\ sl_running (sw_slot w) = true);
}.

Lemma started_ok : slot_ok started.
Proof. split; cbn; [intros i j Hi; discriminate Hi|split; [done|intros [i Hi]; discriminate Hi]|..]; intros i; rewrite lookup_empty; congruence. Qed.

Lemma put_cases i c s w k x :
  sw_callers (put i c s w) !! k = Some x -> (k = i /\ x = c) \/ (k <> i /\ sw_callers w !! k = Some x).
Proof. cbn. rewrite lookup_insert_Some. intros [[-> ->]|[? ?]]; [by left|by right]. Qed.
Lemma put_other i c s w k : k <> i -> sw_callers (put i c s w) !! k = sw_callers w !! k.
Proof. intros. cbn. by rewrite lookup_insert_ne. Qed.
Lemma put_same i c s w : sw_callers (put i c s w) !! i = Some c.
Proof. cbn. apply lookup_insert_eq. Qed.

(** Giving a caller that owns nothing another state that owns nothing. *)
Lemma slot_ok_put w i old c :
  slot_ok w -> sw_callers w !! i = old -> old <> Some (Connecting true) ->
  (c = Acquiring \/ c = Returned) -> slot_ok (put i c (sw_slot w) w).
Proof.
  intros [Ho Hr Hs Hw] Hi Hold Hc. split; cbn [sw_slot put].
  - intros j k [[_ Hc']|[_ Hj]]%put_cases; [destruct Hc; congruence|]. intros [[_ Hc']|[_ Hk]]%put_cases; [destruct Hc; congruence|]. by apply Ho.
  - rewrite Hr. split; intros [k Hk].
    + exists k. rewrite put_other; [done|]. intros ->. congruence.
    + apply put_cases in Hk as [[_ Hc']|[_ Hk]]; [destruct Hc; congruence|]. by exists k.
  - intros k [[_ Hc']|[_ Hk]]%put_cases; [destruct Hc; congruence|]. by eapply Hs.
  - intros k ch [[_ Hc']|[_ Hk]]%put_cases; [destruct Hc; congruence|]. by eapply Hw.
Qed.

Lemma ensure_wait_spec s ch s' :
  ensure_wait s = (ch, s') ->
  sl_wait s' = Some ch /\ sl_running s' = sl_running s /\ sl_succeeded s' = sl_succeeded s /\ sl_closed s' = sl_closed s
  /\ (forall ch', sl_wait s = Some ch' -> ch' = ch).
Proof.
  unfold ensure_wait. destruct (sl_wait s) eqn:E; intros [= <- <-]; cbn; naive_solver.
Qed.

Lemma slot_ok_acquire w i c s :
  slot_ok w -> sw_callers w !! i = Some Acquiring -> acquireInitialAuthSlot (sw_slot w) = (c, s) -> slot_ok (put i c s w).
Proof.
  intros [Ho Hr Hs Hw] Hi. unfold acquireInitialAuthSlot.
  destruct (sl_succeeded (sw_slot w)) eqn:Esucc; [|destruct (sl_running (sw_slot w)) eqn:Erun;
    destruct (ensure_wait (sw_slot w)) as [ch s'] eqn:Ew; apply ensure_wait_spec in Ew as (Hch & Hrun & Hsu & Hcl & Hold)].
  - intros [= <- <-]. split; cbn [sw_slot put].
    + intros j k [[_ [=]]|[_ Hj]]%put_cases [[_ [=]]|[_ Hk]]%put_cases. by apply Ho.
    + rewrite Hr. split; intros [k Hk].
      * exists k. rewrite put_other; [done|congruence].
      * apply put_cases in Hk as [[_ [=]]|[_ Hk]]. by exists k.
    + done.
    + intros k ch [[_ [=]]|[_ Hk]]%put_cases. by eapply Hw.
  - intros [= <- <-]. split; cbn [sw_slot put].
    + intros j k [[_ [=]]|[_ Hj]]%put_cases [[_ [=]]|[_ Hk]]%put_cases. by apply Ho.
    + rewrite Hrun, Erun. split; [|done]. intros _. destruct (proj1 Hr eq_refl) as [k Hk]. exists k. rewrite put_other; [done|congruence].
    + intros k [[_ [=]]|[_ Hk]]%put_cases. by specialize (Hs _ Hk).
    + intros k ch' [[_ [= ->]]|[_ Hk]]%put_cases; [right; by rewrite Hrun|]. rewrite Hcl, Hrun, Hch.
      destruct (Hw _ _ Hk) as [?|[?%Hold _]]; [by left|right; by subst].
  - intros [= <- <-]. assert (Hnone : forall k, sw_callers w !! k <> Some (Connecting true)) by (intros k Hk; by assert (false = true) by (apply Hr; eauto)).
    split; cbn [sw_slot put sl_running sl_succeeded sl_closed sl_wait].
    + intros j k [[-> _]|[_ Hj]]%put_cases [[-> _]|[_ Hk]]%put_cases; [done|exfalso; by eapply Hnone..].
    + split; [|done]. intros _. exists i. apply put_same.
    + intros k [[_ [=]]|[_ Hk]]%put_cases. by specialize (Hs _ Hk).
    + intros k ch' [[_ [=]]|[_ Hk]]%put_cases. rewrite Hcl, Hch.
      destruct (Hw _ _ Hk) as [?|[_ ?]]; [by left|congruence].
Qed.

Lemma slot_ok_release w i reached :
  slot_ok w -> sw_callers w !! i = Some (Connecting true) ->
  slot_ok (put i Returned (releaseInitialAuthSlot reached (sw_slot w)) w).
Proof.
  intros [Ho Hr Hs Hw] Hi. split; cbn [sw_slot put releaseInitialAuthSlot sl_running sl_succeeded sl_closed sl_wait].
  - intros j k [[_ [=]]|[_ Hj]]%put_cases [[_ [=]]|[_ Hk]]%put_cases. by apply Ho.
  - split; [done|]. intros [k [[_ [=]]|[Hne Hk]]%put_cases]. by destruct Hne; apply Ho.
  - intros k [[_ [=]]|[_ Hk]]%put_cases. by rewrite (Hs _ Hk).
  - intros k ch [[_ [=]]|[_ Hk]]%put_cases. left. destruct (Hw _ _ Hk) as [Hin|[-> _]]; cbn; [|set_solver].
    destruct (sl_wait (sw_slot w)); cbn; set_solver.
Qed.

Lemma slot_step w w' : slot_ok w -> ssh_step w w' -> slot_ok w'.
Proof.
  intros Hok Hstep. destruct Hstep as [w i Hi|w i c s Hi Ha|w i ch Hi Hch|w i ch Hi|w i owner reached Hi].
  - eapply slot_ok_put; eauto; congruence.
  - by eapply slot_ok_acquire.
  - eapply slot_ok_put; eauto; congruence.
  - eapply slot_ok_put; eauto; congruence.
  - destruct owner; [by apply slot_ok_release|]. eapply slot_ok_put; eauto; congruence.
Qed.

Lemma slot_reachable w : reachable w -> slot_ok w.
Proof. unfold reachable. apply (rtc_ind_r (fun w => slot_ok w)); [apply started_ok|]. intros. by eapply slot_step. Qed.


(** C21: No wake-up is lost: a caller that waits can continue at once, because its
    channel is closed, or another caller holds the slot, and when that one ends,
    however it ends, the channel is closed and the slot is free. *)
Theorem initial_auth_progress w i ch :
  reachable w -> sw_callers w !! i = Some (Waiting ch) ->
  (exists w', ssh_step w w' /\ sw_callers w' !! i = Some Acquiring)
  \/ (exists j, sw_callers w !! j = Some (Connecting true)
        /\ forall reached, exists w', ssh_step w w' /\ sw_callers w' !! j = Some Returned
             /\ sw_callers w' !! i = Some (Waiting ch) /\ ch ∈ sl_closed (sw_slot w') /\ sl_running (sw_slot w') = false
             /\ sl_succeeded (sw_slot w') = sl_succeeded (sw_slot w) || reached).
Proof.
  intros [Ho Hr Hs Hw]%slot_reachable Hi. destruct (Hw _ _ Hi) as [Hch|[Hch Hrun]].
  - left. eexists. split; [by eapply step_wake|apply put_same].
  - right. apply Hr in Hrun as [j Hj]. exists j. split; [done|]. intros reached. eexists. split; [by eapply (step_finish w j true reached)|].
    split; [apply put_same|]. cbn [sw_slot put releaseInitialAuthSlot sl_running sl_succeeded sl_closed].
    rewrite put_other by congruence. split_and!; [done| |done..]. rewrite Hch. cbn. set_solver.
Qed.

(** *** Two callers, the second of which waits *)

Ltac ssh_call i := eapply rtc_l; [apply (step_call _ i); reflexivity|].
Ltac ssh_acquire i := eapply rtc_l; [eapply (step_acquire _ i); reflexivity|].
Definition owner_and_waiter : ssh_world :=
  {| sw_slot := {| sl_running := true; sl_succeeded := false; sl_wait := Some 0; sl_next := 1; sl_closed := ∅ |};
     sw_callers := {[0 := Connecting true; 1 := Waiting 0]} |}.
Definition both_connected : ssh_world :=
  {| sw_slot := {| sl_running := false; sl_succeeded := true; sl_wait := Some 1; sl_next := 2; sl_closed := {[0]} |};
     sw_callers := {[0 := Returned; 1 := Connecting false; 2 := Connecting false]} |}.

Ltac ssh_arrive :=
  match goal with |- rtc _ ?w ?w' => replace w with w' by (vm_compute; reflexivity) end; apply rtc_refl.

Lemma owner_and_waiter_reachable : reachable owner_and_waiter.
Proof. unfold reachable. ssh_call 0. ssh_acquire 0. ssh_call 1. ssh_acquire 1. ssh_arrive. Qed.

Lemma both_connected_reachable : reachable both_connected.
Proof.
  unfold reachable. ssh_call 0. ssh_acquire 0. ssh_call 1. ssh_acquire 1.
  eapply rtc_l; [apply (step_finish _ 0 true true); reflexivity|].
  eapply rtc_l; [apply (step_wake _ 1 0); [reflexivity|by apply (bool_decide_unpack _); vm_compute]|].
  ssh_acquire 1. ssh_call 2. ssh_acquire 2. ssh_arrive.
Qed.


Lemma initial_auth_progress_witness :
  (exists w', ssh_step owner_and_waiter w' /\ sw_callers w' !! 1 = Some Acquiring)
  \/ (exists j, sw_callers owner_and_waiter !! j = Some (Connecting true)
        /\ forall reached, exists w', ssh_step owner_and_waiter w' /\ sw_callers w' !! j = Some Returned
             /\ sw_callers w' !! 1 = Some (Waiting 0) /\ 0 ∈ sl_closed (sw_slot w') /\ sl_running (sw_slot w') = false
             /\ sl_succeeded (sw_slot w') = sl_succeeded (sw_slot owner_and_waiter) || reached).
Proof.
  apply (initial_auth_progress owner_and_waiter 1 0).
  - apply owner_and_waiter_reachable.
  - reflexivity.
Defined.
