(* ===== verification/NativeFiles.v ===== *)
(** * Files, directories and APT files on a host: [provider_files.go], [provider_apt.go], [provider_networkd.go]

    Each kind of resource has a plan, which reads the host and compares, and an
    apply, which changes it; both reach the host through a [Runner].  Go repeats
    the comparison of owner, group and mode in each plan; here it is
    [metadata_differs]. *)
From S2P Require Import Prelude Sha256 GoValue GoStrings IR State Moves Graph Schedule Engine Document Remote Base64.

(** ** Plans *)

Definition plan_of (action summary : string) (observed : gomap) (prior : option Resource) : ProviderPlan :=
  {| pp_Action := action; pp_Summary := summary; pp_Observed := observed; pp_Ownership := ownership prior |}.

(** [pathState] *)
Record pathState := {
  ps_Exists : bool;
  ps_IsDir : bool;
  ps_Owner : string;
  ps_Group : string;
  ps_Mode : string;
  ps_SHA256 : string;
}.
Definition no_path : pathState :=
  {| ps_Exists := false; ps_IsDir := false; ps_Owner := ""; ps_Group := ""; ps_Mode := ""; ps_SHA256 := "" |}.

Definition path_observed (s : pathState) : gomap :=
  {["exists" := GBool (ps_Exists s); "is_dir" := GBool (ps_IsDir s); "owner" := GStr (ps_Owner s);
    "group" := GStr (ps_Group s); "mode" := GStr (displayMode (ps_Mode s)); "sha256" := GStr (ps_SHA256 s)]}.

(** ** Reading a path *)

Definition read_lines (q : string) : list string :=
  ["set -eu";
   "if [ ! -e " +:+ q +:+ " ]; then";
   "  echo missing";
   "  exit 0";
   "fi";
   "if [ -d " +:+ q +:+ " ]; then echo dir; else echo file; fi";
   "stat -c '%U' " +:+ q;
   "stat -c '%G' " +:+ q;
   "stat -c '%a' " +:+ q;
   "if [ -f " +:+ q +:+ " ]; then sha256sum " +:+ q +:+ " | awk '{print $1}'; else echo ''; fi"].
Definition readPath_script (path : string) : string := script_text (read_lines (shellQuote path)).
Definition readPathWithContent_script (path : string) : string :=
  let q := shellQuote path in
  script_text (read_lines q ++ ["if [ -f " +:+ q +:+ " ]; then base64 < " +:+ q +:+ " | tr -d '\n'; echo; else echo ''; fi"]).

Definition output_lines (stdout : string) : list string := strings_Split (strings_TrimRight_newlines stdout) newline.
Definition line (lines : list string) (i : nat) : string := default "" (lines !! i).

Definition path_of_lines (lines : list string) : pathState :=
  if decide (line lines 0 = "missing") then no_path
  else {| ps_Exists := true; ps_IsDir := bool_decide (line lines 0 = "dir"); ps_Owner := line lines 1; ps_Group := line lines 2;
          ps_Mode := line lines 3; ps_SHA256 := line lines 4 |}.

(** The content is the sixth line, in base64. *)
Definition content_of_lines (lines : list string) : result engine_error (pathState * string) :=
  if decide (line lines 0 = "missing") then Ok (no_path, "")
  else
    content ← (if decide (line lines 5 = "") then Ok ""
               else of_option (NodeFailed "" "illegal base64 data") (base64_decode (line lines 5)));
    Ok (path_of_lines lines, content).

(** ** Desired content *)

Definition providerDesired (node : Node) : gomap :=
  if decide (n_ProviderPayload node = ∅) then n_Desired node else n_ProviderPayload node.

Definition metadata_differs (node : Node) (current : pathState) : bool :=
  bool_decide (ps_Owner current <> stringDesired node "owner")
  || bool_decide (ps_Group current <> stringDesired node "group")
  || bool_decide (normalizeMode (ps_Mode current) <> normalizeMode (stringDesired node "mode")).

Section files.
Context {W : Type} `{Runner W}.
(** [os.ReadFile] on the machine that runs the program. *)
Variable ReadFile : string -> option string.

Abbreviation E := (M engine_error W).

Definition run (host script : string) : E Result := runner_Run host script.
Definition run_ (host script : string) : E unit := _ ← runner_Run host script; mret tt.

Definition readPath (host path : string) : E pathState :=
  if decide (path = "") then mret no_path
  else r ← run host (readPath_script path); mret (path_of_lines (output_lines (res_Stdout r))).

Definition readPathWithContent (host path : string) : E (pathState * string) :=
  if decide (path = "") then mret (no_path, "")
  else r ← run host (readPathWithContent_script path); lift (content_of_lines (output_lines (res_Stdout r))).

(** ** Writing and removing *)

(** [redactPayloadError] *)
Definition redactPayloadError {A} (m : E A) : E A := fun w => let '(r, w') := m w in (map_err RedactedPayload r, w').

Definition writePathContent_script (path owner group mode : string) : string :=
  script_text
    ["set -eu";
     "dest=" +:+ shellQuote path;
     sh "mkdir -p `$(dirname `$dest`)`";
     sh "tmp=`$(mktemp `${dest}.dbf-tmp.XXXXXX`)`";
     sh "trap 'rm -f -- `$tmp`' EXIT";
     sh "cat > `$tmp`";
     "install -o " +:+ shellQuote owner +:+ " -g " +:+ shellQuote group +:+ " -m " +:+ shellQuote mode +:+ sh " `$tmp` `$dest`"].
Definition writePathContent (host path content owner group mode : string) : E unit :=
  redactPayloadError (_ ← runner_RunInput host (writePathContent_script path owner group mode) content; mret tt).

Definition removePath (host path : string) (daemonReload : bool) : E unit :=
  if decide (path = "") then mret tt
  else run_ host (script_text (["set -eu"; "rm -f -- " +:+ shellQuote path]
                               ++ (if daemonReload then ["systemctl daemon-reload"] else []))).

Definition removeDirectory (host path : string) : E unit :=
  if decide (path = "" \/ path = "/") then mret tt
  else run_ host (script_text ["set -eu"; "rm -rf -- " +:+ shellQuote path]).

Definition desiredContent (node : Node) : result engine_error string :=
  let payload := providerDesired node in
  match payload !! "content" with
  | Some (GStr content) => Ok content
  | _ =>
      match payload !! "source_path" with
      | Some (GStr source) =>
          if decide (source = "") then Err (NodeFailed (n_Address node) "requires content or source_path")
          else of_option (NodeFailed source "cannot be read") (ReadFile source)
      | _ => Err (NodeFailed (n_Address node) "requires content or source_path")
      end
  end.

Definition desiredContentSHA (node : Node) : result engine_error string :=
  let sha := stringDesired node "content_sha256" in
  if decide (sha <> "") then Ok (strings_ToLower sha)
  else if fileContentWriteOnly node then Ok ""
  else content ← desiredContent node; Ok (sha256Hex content).

Definition applied (node : Node) : gomap :=
  {["exists" := GBool true; "desired_digest" := GStr (DesiredDigest (n_Desired node))]}.
Definition gone : gomap := {["exists" := GBool false]}.
Definition removes (step : Step) : bool := ensureAbsent (s_Node step) || bool_decide (s_Action step = ActionDelete).

(** The branch of an absent resource, when its existence was read. *)
Definition plan_absent (what path : string) (exists_ : bool) (observed : gomap) (prior : option Resource) : ProviderPlan :=
  if exists_ then plan_of ActionDelete ("remove " +:+ what +:+ " " +:+ path) observed prior
  else absentInSyncPlan prior ("already absent " +:+ what +:+ " " +:+ path) observed.

(** *** Files *)

Definition file_plan (node : Node) (prior : option Resource) (current : pathState) : result engine_error ProviderPlan :=
  let path := stringDesired node "path" in
  let observed := path_observed current in
  let update := plan_of ActionUpdate ("update file " +:+ path) in
  if ensureAbsent node then Ok (plan_absent (n_Kind node) path (ps_Exists current) observed prior)
  else
    wantSHA ← desiredContentSHA node;
    if negb (ps_Exists current) then Ok (plan_of ActionCreate ("write file " +:+ path) observed prior)
    else if fileContentWriteOnly node then
      let observed := delete "sha256" observed in
      if ps_IsDir current || metadata_differs node current then Ok (update observed prior)
      else if bool_decide (r_DesiredDigest <$> prior = Some (DesiredDigest (n_Desired node)))
      then Ok (inSyncPlan node prior ("no changes for file " +:+ path) observed)
      else Ok (update observed prior)
    else if ps_IsDir current || bool_decide (ps_SHA256 current <> wantSHA) || metadata_differs node current
    then Ok (update observed prior)
    else if changeActionCompletionPending node prior
    then Ok (plan_of ActionUpdate ("retry " +:+ stringDesired node "change_action" +:+ " after updating " +:+ path) observed prior)
    else if changeActionConfigurationRemoved node prior
    then Ok (plan_of ActionUpdate ("remove change action metadata for " +:+ path) observed prior)
    else Ok (inSyncPlan node prior ("no changes for file " +:+ path) (completeChangeActionOnAdopt node prior observed)).

Definition planFileLike (node : Node) (prior : option Resource) : E ProviderPlan :=
  current ← readPath (n_Host node) (stringDesired node "path");
  lift (file_plan node prior current).

Definition applyFileLike (step : Step) (daemonReload : bool) : E gomap :=
  let node := s_Node step in
  let path := stringDesired node "path" in
  if removes step then _ ← removePath (n_Host node) path daemonReload; mret gone
  else
    content ← lift (desiredContent node);
    _ ← writePathContent (n_Host node) path content (stringDesired node "owner") (stringDesired node "group")
          (stringDesired node "mode");
    _ ← (if daemonReload then run_ (n_Host node) (script_text ["systemctl daemon-reload"]) else mret tt);
    mret (applied node).

(** *** Directories *)

Definition directory_plan (node : Node) (prior : option Resource) (current : pathState) : ProviderPlan :=
  let path := stringDesired node "path" in
  let observed := path_observed current in
  if ensureAbsent node then plan_absent "directory" path (ps_Exists current) observed prior
  else if negb (ps_Exists current) then plan_of ActionCreate ("create directory " +:+ path) observed prior
  else if negb (ps_IsDir current) || metadata_differs node current
  then plan_of ActionUpdate ("update directory " +:+ path) observed prior
  else inSyncPlan node prior ("no changes for directory " +:+ path) observed.
Definition planDirectory (node : Node) (prior : option Resource) : E ProviderPlan :=
  current ← readPath (n_Host node) (stringDesired node "path"); mret (directory_plan node prior current).

Definition applyDirectory (step : Step) : E gomap :=
  let node := s_Node step in
  let path := stringDesired node "path" in
  let q := shellQuote path in
  if decide (path = "" \/ path = "/")
  then lift (Err (NodeFailed (s_Address step) ("refuses to manage unsafe directory path " +:+ strconv_Quote path)))
  else if removes step then _ ← run_ (n_Host node) (script_text ["rm -rf -- " +:+ q]); mret gone
  else
    _ ← run_ (n_Host node)
          (script_text
             ["set -eu"; "mkdir -p -- " +:+ q;
              "chown " +:+ shellQuote (stringDesired node "owner" +:+ ":" +:+ stringDesired node "group") +:+ " -- " +:+ q;
              "chmod " +:+ shellQuote (stringDesired node "mode") +:+ " -- " +:+ q]);
    mret (applied node).

(** ** APT *)

Definition original_keys : list string :=
  ["original_exists"; "original_content"; "original_owner"; "original_group"; "original_mode"].
Definition hasAPTSourceOriginal (values : gomap) : bool := bool_decide (is_Some (values !! "original_exists")).
Definition copyAPTSourceOriginal (dst src : gomap) : gomap :=
  fold_left (fun dst key => match src !! key with Some v => <[key := v]> dst | None => dst end) original_keys dst.
Definition aptSourceOriginalFromCurrent (current : pathState * string) : gomap :=
  {["original_exists" := GBool (ps_Exists current.1 && negb (ps_IsDir current.1)); "original_content" := GStr current.2;
    "original_owner" := GStr (ps_Owner current.1); "original_group" := GStr (ps_Group current.1);
    "original_mode" := GStr (ps_Mode current.1)]}.
(** The baseline of the prior, or else what is there now. *)
Definition withAPTSourceOriginal (observed : gomap) (prior : option Resource) (current : pathState * string) : gomap :=
  copyAPTSourceOriginal observed
    (match prior with
     | Some p => if hasAPTSourceOriginal (r_Observed p) then r_Observed p else aptSourceOriginalFromCurrent current
     | None => aptSourceOriginalFromCurrent current
     end).
Definition aptSourceStateNeedsRefresh (node : Node) (prior : option Resource) : bool :=
  match prior with
  | None => false
  | Some p => bool_decide (is_Some (r_Observed p !! "original_content"))
              || negb (bool_decide (r_DesiredDigest p = ""))
                 && negb (bool_decide (r_DesiredDigest p = DesiredDigest (n_Desired node)))
  end.

Definition apt_source_plan (node : Node) (prior : option Resource) (current : pathState * string) : result engine_error ProviderPlan :=
  let path := stringDesired node "path" in
  let observed := path_observed current.1 in
  let onDestroy := aptSourceOnDestroy (n_Desired node) in
  if ensureAbsent node then
    match prior with
    | None => Ok (plan_of ActionNoOp ("already unmanaged apt source file " +:+ path) observed prior)
    | Some p =>
        if decide (onDestroy = "keep") then Ok (plan_of ActionForget ("forget apt source file " +:+ path) observed prior)
        else if hasAPTSourceOriginal (r_Observed p)
        then Ok (plan_of ActionDelete ("restore apt source file " +:+ path) observed prior)
        else Err (NodeFailed (n_Address node) "cannot restore apt source file: original content baseline is unavailable")
    end
  else
    wantSHA ← desiredContentSHA node;
    if negb (ps_Exists current.1) then Ok (plan_of ActionCreate ("write apt source file " +:+ path) observed prior)
    else if ps_IsDir current.1 || bool_decide (ps_SHA256 current.1 <> wantSHA) || metadata_differs node current.1
    then Ok (plan_of ActionUpdate ("update apt source file " +:+ path) observed prior)
    else if boolDesired node "sensitive" then
      if aptSourceStateNeedsRefresh node prior
      then Ok (plan_of ActionAdopt ("refresh sensitive apt source file state " +:+ path) observed prior)
      else Ok (inSyncPlan node prior ("no changes for apt source file " +:+ path) observed)
    else Ok (inSyncPlan node prior ("no changes for apt source file " +:+ path) (withAPTSourceOriginal observed prior current)).

Definition planAPTSourceFile (node : Node) (prior : option Resource) : E ProviderPlan :=
  current ← readPathWithContent (n_Host node) (stringDesired node "path");
  lift (apt_source_plan node prior current).

Definition or_default (value dflt : string) : string := if decide (value = "") then dflt else value.

Definition restoreAPTSourceFile (host path : string) (prior : option Resource) : E unit :=
  match prior with
  | None => mret tt
  | Some p =>
      let original := stringMapValue (r_Observed p) in
      if boolMapValue (r_Observed p) "original_exists"
      then writePathContent host path (original "original_content") (or_default (original "original_owner") "root")
             (or_default (original "original_group") "root") (or_default (original "original_mode") "0644")
      else removePath host path false
  end.

Definition aptSourceOriginal (step : Step) : E gomap :=
  let read :=
    current ← readPathWithContent (n_Host (s_Node step)) (stringDesired (s_Node step) "path");
    mret (copyAPTSourceOriginal ∅ (aptSourceOriginalFromCurrent current)) in
  match s_Prior step with
  | Some p => if hasAPTSourceOriginal (r_Observed p) then mret (copyAPTSourceOriginal ∅ (r_Observed p)) else read
  | None => read
  end.

Definition applyAPTSourceFile (step : Step) : E gomap :=
  let node := s_Node step in
  let path := stringDesired node "path" in
  if removes step then
    _ ← (if decide (aptSourceOnDestroy (n_Desired node) = "restore")
         then restoreAPTSourceFile (n_Host node) path (s_Prior step) else mret tt);
    mret gone
  else
    original ← (if boolDesired node "sensitive" then mret ∅ else aptSourceOriginal step);
    content ← lift (desiredContent node);
    _ ← writePathContent (n_Host node) path content (stringDesired node "owner") (stringDesired node "group")
          (stringDesired node "mode");
    mret (copyAPTSourceOriginal (applied node) original).

Definition destroyAPTSourceFile (step : Step) (p : Resource) : E unit :=
  if decide (aptSourceOnDestroy (r_Desired p) = "restore") then
    _ ← restoreAPTSourceFile (s_Host step) (stringMapValue (r_Desired p) "path") (Some p);
    run_ (s_Host step) (script_text ["set -eu"; "export DEBIAN_FRONTEND=noninteractive"; "apt-get update"])
  else mret tt.

Definition desiredSigningKeySHA (node : Node) : result engine_error string :=
  let key := stringDesired node in
  if decide (key "sha256" <> "") then Ok (strings_ToLower (key "sha256"))
  else if decide (key "content_sha256" <> "") then Ok (strings_ToLower (key "content_sha256"))
  else if decide (key "content" <> "") then Ok (sha256Hex (key "content"))
  else if decide (key "url" <> "") then Ok ""
  else Err (NodeFailed (n_Address node) "apt signing key requires url with optional sha256 or content").

Definition signing_key_plan (node : Node) (prior : option Resource) (current : pathState) : result engine_error ProviderPlan :=
  let path := stringDesired node "path" in
  let observed := path_observed current in
  let update := plan_of ActionUpdate ("update apt signing key " +:+ path) observed prior in
  if ensureAbsent node then Ok (plan_absent "apt signing key" path (ps_Exists current) observed prior)
  else
    wantSHA ← desiredSigningKeySHA node;
    if negb (ps_Exists current) then Ok (plan_of ActionCreate ("install apt signing key " +:+ path) observed prior)
    else if ps_IsDir current || negb (bool_decide (wantSHA = "")) && negb (bool_decide (ps_SHA256 current = wantSHA))
            || metadata_differs node current
    then Ok update
    else match prior with
    | Some p =>
        if decide (wantSHA = "" /\ r_DesiredDigest p <> "" /\ r_DesiredDigest p <> DesiredDigest (n_Desired node))
        then Ok update else Ok (inSyncPlan node prior ("no changes for apt signing key " +:+ path) observed)
    | None => Ok (inSyncPlan node prior ("no changes for apt signing key " +:+ path) observed)
    end.
Definition planAPTSigningKey (node : Node) (prior : option Resource) : E ProviderPlan :=
  current ← readPath (n_Host node) (stringDesired node "path");
  lift (signing_key_plan node prior current).

(** The line that installs a temporary file with its owner and mode. *)
Definition install_line (node : Node) (source path : string) : string :=
  "install -o " +:+ shellQuote (stringDesired node "owner") +:+ " -g " +:+ shellQuote (stringDesired node "group")
  +:+ " -m " +:+ shellQuote (stringDesired node "mode") +:+ " " +:+ source +:+ " " +:+ shellQuote path.
Definition check_sha_line (sha tmp : string) : string :=
  "printf '%s  %s\n' " +:+ shellQuote sha +:+ " " +:+ shellQuote tmp +:+ " | sha256sum --check --status".
Definition mkdir_parent_line (path : string) : string := sh "mkdir -p `$(dirname " +:+ shellQuote path +:+ sh ")`".

Definition applyAPTSigningKey (step : Step) : E gomap :=
  let node := s_Node step in
  let path := stringDesired node "path" in
  let payload := providerDesired node in
  let url := stringMapValue payload "url" in
  let sha := stringMapValue payload "sha256" in
  let tmp := path +:+ ".dbf-tmp" in
  if removes step then _ ← removePath (n_Host node) path false; mret gone
  else if decide (stringMapValue payload "content" <> "") then applyFileLike step false
  else if decide (url = "") then lift (Err (NodeFailed (s_Address step) "apt signing key requires url or content"))
  else
    _ ← run_ (n_Host node)
          (script_text
             (["set -eu"; mkdir_parent_line path;
               "if ! command -v curl >/dev/null 2>&1; then";
               "  export DEBIAN_FRONTEND=noninteractive";
               "  apt-get update";
               "  apt-get install -y ca-certificates curl";
               "fi";
               "curl -fsSL " +:+ shellQuote url +:+ " -o " +:+ shellQuote tmp]
              ++ (if decide (sha = "") then [] else [check_sha_line sha tmp])
              ++ [install_line node (shellQuote tmp) path; "rm -f -- " +:+ shellQuote tmp]));
    mret (applied node).

(** ** Network devices *)

Definition netdev_name_lines (q : string) : list string :=
  ["if [ -f " +:+ q +:+ " ]; then";
   sh "  netdev_name=`$(sed -n '/^[[:space:]]*\[NetDev\][[:space:]]*$/,/^[[:space:]]*\[/ { s/^[[:space:]]*Name[[:space:]]*=[[:space:]]*//p; }' "
     +:+ q +:+ sh " | head -n 1)`";
   "fi"].

Definition destroyNetworkdNetDev (step : Step) (p : Resource) : E unit :=
  let path := stringMapValue (r_Desired p) "path" in
  let name := stringMapValue (r_Desired p) "name" in
  let q := shellQuote path in
  if decide (path = "") then mret tt
  else run_ (s_Host step)
         (script_text
            (["set -eu"; "netdev_name=" +:+ shellQuote name]
             ++ (if decide (name = "") then netdev_name_lines q else [])
             ++ ["rm -f -- " +:+ q; "systemctl start systemd-networkd.service"; "networkctl reload";
                 sh "if [ -n `$netdev_name` ]; then"; sh "  ip link delete dev `$netdev_name` 2>/dev/null || true"; "fi"])).

End files.
