(* ===== verification/NativeHost.v ===== *)
(** * System settings, kernel, packages, services and accounts: [provider_system.go],
    [provider_kernel.go], [provider_packages.go], [provider_services.go], [provider_users.go]

    As for files, a plan reads the host and decides; the decision is a function of
    what was read, and an apply runs a script. *)
From S2P Require Import Prelude Sha256 GoValue GoStrings IR State Moves Graph Schedule Engine Document Remote Base64 NativeFiles.

(** ** Scripts of the system settings *)

Definition systemHostnameReadScript : string := raw_script
    ["set -eu";
     "if command -v hostnamectl >/dev/null 2>&1; then";
     "  if hostnamectl --static 2>/dev/null; then";
     "    exit 0";
     "  fi";
     "fi";
     "if [ -r /etc/hostname ]; then";
     "  sed -n '1p' /etc/hostname";
     "else";
     "  printf '\n'";
     "fi"].
Definition systemHostnameApplyScript (hostname : string) : string := script_text
    ["set -eu";
     "name=" +:+ shellQuote hostname;
     "if command -v hostnamectl >/dev/null 2>&1; then";
     sh "  hostnamectl set-hostname `$name`";
     "else";
     sh "  printf '%s\n' `$name` > /etc/hostname";
     sh "  if command -v hostname >/dev/null 2>&1; then hostname `$name`; fi";
     "fi"].
Definition systemTimezoneReadScript (timezone : string) : string := script_text
    ["set -eu";
     "want=" +:+ shellQuote timezone;
     sh "tz=``";
     "if command -v timedatectl >/dev/null 2>&1; then";
     sh "  tz=`$(timedatectl show -p Timezone --value 2>/dev/null || true)`";
     "fi";
     sh "if [ -z `$tz` ] && [ -L /etc/localtime ]; then";
     sh "  target=`$(readlink -f /etc/localtime 2>/dev/null || true)`";
     sh "  case `$target` in";
     sh "    /usr/share/zoneinfo/*) tz=`${target#/usr/share/zoneinfo/}` ;;";
     "  esac";
     "fi";
     sh "if [ -z `$tz` ] && [ -r /etc/timezone ]; then";
     sh "  tz=`$(sed -n '1p' /etc/timezone | tr -d '[:space:]')`";
     "fi";
     "zone_exists=false";
     sh "if [ -f `/usr/share/zoneinfo/$want` ]; then zone_exists=true; fi";
     sh "printf 'timezone=%s\n' `$tz`";
     sh "printf 'zone_exists=%s\n' `$zone_exists`"].
Definition systemTimezoneApplyScript (timezone : string) : string := script_text
    ["set -eu";
     "tz=" +:+ shellQuote timezone;
     sh "zone=`/usr/share/zoneinfo/$tz`";
     sh "if [ ! -f `$zone` ]; then";
     sh "  printf 'timezone %s is not available at %s\n' `$tz` `$zone` >&2";
     "  exit 1";
     "fi";
     sh "if command -v timedatectl >/dev/null 2>&1 && timedatectl set-timezone `$tz` 2>/dev/null; then";
     "  exit 0";
     "fi";
     sh "ln -sfn `$zone` /etc/localtime";
     sh "printf '%s\n' `$tz` > /etc/timezone"].
Definition systemLocaleReadScript (locale : string) : string := script_text
    ["set -eu";
     "want=" +:+ shellQuote locale;
     sh "normalize_locale() { printf '%s' `$1` | tr '[:upper:]' '[:lower:]' | tr -d '-'; }";
     sh "current=``";
     "if [ -r /etc/default/locale ]; then";
     sh "  current=`$(sed -n 's/^LANG=//p' /etc/default/locale | tail -n 1)`";
     sh "  case `$current` in \`*\`) current=`${current#\`}`; current=`${current%\`}` ;; esac";
     sh "  case `$current` in \'*\') current=`${current#\'}`; current=`${current%\'}` ;; esac";
     "fi";
     "available=false";
     sh "case `$want` in";
     "  C|POSIX|C.UTF-8|C.utf8) available=true ;;";
     "  *)";
     "    if command -v locale >/dev/null 2>&1; then";
     sh "      want_norm=`$(normalize_locale `$want`)`";
     sh "      if locale -a 2>/dev/null | awk -v want=`$want_norm` '";
     "        {";
     "          item = tolower($0)";
     sh "          gsub(/-/, ``, item)";
     "          if (item == want) found = 1";
     "        }";
     "        END { exit found ? 0 : 1 }";
     "      '; then";
     "        available=true";
     "      fi";
     "    fi";
     "    ;;";
     "esac";
     sh "printf 'locale=%s\n' `$current`";
     sh "printf 'available=%s\n' `$available`"].
Definition systemLocaleApplyScript (locale : string) : string := script_text
    ["set -eu";
     "loc=" +:+ shellQuote locale;
     sh "case `$loc` in";
     "  C|POSIX|C.UTF-8|C.utf8) needs_generation=false ;;";
     "  *) needs_generation=true ;;";
     "esac";
     sh "if [ `$needs_generation` = true ]; then";
     "  export DEBIAN_FRONTEND=noninteractive";
     "  if ! command -v locale-gen >/dev/null 2>&1 || [ ! -e /etc/locale.gen ]; then";
     "    apt-get update";
     "    apt-get install -y locales";
     "  fi";
     "  [ -e /etc/locale.gen ] || : > /etc/locale.gen";
     sh "  charmap=`${loc#*.}`";
     sh "  case `$charmap` in `$loc`) charmap=`UTF-8` ;; *@*) charmap=`${charmap%@*}` ;; esac";
     sh "  case `$(printf '%s' `$charmap` | tr '[:lower:]' '[:upper:]' | tr -d '-')` in UTF8) charmap=`UTF-8` ;; esac";
     sh "  tmp=`$(mktemp)`";
     sh "  awk -v loc=`$loc` -v charmap=`$charmap` '";
     "    BEGIN { found = 0 }";
     "    {";
     "      stripped = $0";
     sh "      sub(/^[[:space:]#]+/, ``, stripped)";
     "      count = split(stripped, fields, /[[:space:]]+/)";
     "      if (count > 0 && fields[1] == loc) {";
     sh "        print loc ` ` charmap";
     "        found = 1";
     "        next";
     "      }";
     "      print $0";
     "    }";
     sh "    END { if (!found) print loc ` ` charmap }";
     sh "  ' /etc/locale.gen > `$tmp`";
     sh "  cat `$tmp` > /etc/locale.gen";
     sh "  rm -f -- `$tmp`";
     sh "  locale-gen `$loc`";
     "fi";
     "mkdir -p /etc/default";
     sh "tmp=`$(mktemp)`";
     "if [ -f /etc/default/locale ]; then";
     sh "  awk -v loc=`$loc` '";
     "    BEGIN { done = 0 }";
     sh "    /^LANG=/ { if (!done) { print `LANG=\`` loc `\``; done = 1 }; next }";
     "    { print $0 }";
     sh "    END { if (!done) print `LANG=\`` loc `\`` }";
     sh "  ' /etc/default/locale > `$tmp`";
     "else";
     sh "  printf 'LANG=`%s`\n' `$loc` > `$tmp`";
     "fi";
     sh "install -m 0644 `$tmp` /etc/default/locale";
     sh "rm -f -- `$tmp`"].

(** [strings.Cut] at the first newline. *)
Definition parseSystemHostname (stdout : string) : string := strings_TrimSpace (line (output_lines stdout) 0).

Definition change_summary (what current desired : string) : string :=
  if decide (current = "") then "set system " +:+ what +:+ " to " +:+ desired
  else "change system " +:+ what +:+ " from " +:+ current +:+ " to " +:+ desired.
Definition systemHostnameUpdateSummary : string -> string -> string := change_summary "hostname".
Definition systemTimezoneUpdateSummary : string -> string -> string := change_summary "timezone".
Definition systemLocaleUpdateSummary (current desired : string) (available : bool) : string :=
  if bool_decide (current <> "") && bool_decide (current = desired) && negb available
  then "generate system locale " +:+ desired
  else change_summary "locale" current desired.
Definition systemSettingAction (prior : option Resource) (current : string) : string :=
  if bool_decide (prior = None) && bool_decide (current = "") then ActionCreate else ActionUpdate.

Definition hostname_observed (hostname : string) : gomap := {["hostname" := GStr hostname]}.

(** [systemTimezoneState] and [systemLocaleState]: the value, and whether the host
    has it. *)
Record setting := { st_Value : string; st_Available : bool }.
Definition setting_of (value available stdout : string) : setting :=
  let values := parseFactLines stdout in
  {| st_Value := fact values value; st_Available := bool_decide (fact values available = "true") |}.
Definition timezone_observed (s : setting) : gomap := {["timezone" := GStr (st_Value s); "zone_exists" := GBool (st_Available s)]}.
Definition locale_observed (s : setting) : gomap := {["locale" := GStr (st_Value s); "available" := GBool (st_Available s)]}.

Definition with_digest (node : Node) (observed : gomap) : gomap :=
  <["desired_digest" := GStr (DesiredDigest (n_Desired node))]> observed.

(** ** Packages *)

(** [packageInstallState] *)
Record packageInstallState := { pi_Installed : bool; pi_Package : string; pi_Virtual : bool }.
Definition not_installed : packageInstallState := {| pi_Installed := false; pi_Package := ""; pi_Virtual := false |}.
Definition package_observed (s : packageInstallState) : gomap :=
  let observed : gomap := {["installed" := GBool (pi_Installed s)]} in
  let observed := if decide (pi_Package s = "") then observed else <["package" := GStr (pi_Package s)]> observed in
  if pi_Virtual s then <["virtual" := GBool true]> observed else observed.

Definition packageInstallStateScript (name : string) : string :=
  raw_script ["set -eu"] +:+ "target=" +:+ shellQuote name +:+ nl +:+ raw_script
    ["if dpkg-query -W -f='${binary:Package}\t${Status}\n' `$target` 2>/dev/null | awk -F '\t' -v target=`$target` '";
     "$2 ~ /^install ok installed$/ {";
     "  pkg = $1";
     "  base = pkg";
     "  sub(/:.*/, ``, base)";
     "  if (pkg == target || base == target) {";
     "    print `package\t` pkg";
     "  } else {";
     "    print `provider\t` pkg";
     "  }";
     "  found = 1";
     "}";
     "END { exit found ? 0 : 1 }";
     "'; then";
     "  exit 0";
     "fi";
     "dpkg-query -W -f='${binary:Package}\t${Status}\t${Provides}\n' 2>/dev/null | awk -F '\t' -v target=`$target` '";
     "$2 ~ /^install ok installed$/ {";
     "  n = split($3, provides, /, */)";
     "  for (i = 1; i <= n; i++) {";
     "    provide = provides[i]";
     "    sub(/[[:space:]]*\(.*/, ``, provide)";
     "    sub(/[[:space:]]*:.*/, ``, provide)";
     "    gsub(/^[[:space:]]+|[[:space:]]+$/, ``, provide)";
     "    if (provide == target) {";
     "      found = $1";
     "    }";
     "  }";
     "}";
     "END { if (found != ``) print `provider\t` found }";
     "' || true"].

(** The first line that names a package or a provider decides. *)
Fixpoint install_state (name : string) (lines : list string) : packageInstallState :=
  match lines with
  | [] => not_installed
  | l :: lines =>
      match strings_Split l tab with
      | kind :: field :: _ =>
          let provider := strings_TrimSpace field in
          if decide (kind = "package")
          then {| pi_Installed := true; pi_Package := or_default provider name; pi_Virtual := false |}
          else if decide (kind = "provider" /\ provider <> "")
          then {| pi_Installed := true; pi_Package := provider; pi_Virtual := true |}
          else install_state name lines
      | _ => install_state name lines
      end
  end.

Definition packageConffilePolicy (node : Node) : string :=
  let policy := stringDesired node "conffile_policy" in
  if decide (policy = "replace" \/ policy = "error") then policy else "keep".
Definition packageConffileDiagnostic (node : Node) : string :=
  let source := n_Source node in
  if decide (src_File source = "") then n_Address node
  else src_File source +:+ ":" +:+ pretty (src_Line source) +:+ ":" +:+ src_Path source +:+ ": " +:+ n_Address node.

Definition packageInstallCommand (name policy diagnostic : string) : list string :=
  if decide (policy = "replace") then ["apt-get -o Dpkg::Options::=--force-confnew install -y " +:+ shellQuote name]
  else if decide (policy = "error") then
    let modifiedMessage := diagnostic +:+ ": conffile_policy=error rejected locally modified package conffiles" in
    let installMessage := diagnostic +:+ ": package install failed under conffile_policy=error; resolve conffile differences or select keep or replace" in
    ["dbf_conffile_conflicts=$(dpkg-query -W -f='${Conffiles}\n' " +:+ shellQuote name +:+ " 2>/dev/null | while read -r dbf_path dbf_expected dbf_status; do";
     sh "  [ -n `$dbf_path` ] || continue";
     sh "  [ `$dbf_status` = obsolete ] && continue";
     sh "  if [ ! -f `$dbf_path` ]; then printf '%s\n' `$dbf_path`; continue; fi";
     sh "  dbf_actual=$(md5sum -- `$dbf_path` | awk '{print $1}')";
     sh "  [ `$dbf_actual` = `$dbf_expected` ] || printf '%s\n' `$dbf_path`";
     "done)";
     sh "if [ -n `$dbf_conffile_conflicts` ]; then";
     "  echo " +:+ shellQuote modifiedMessage +:+ " >&2";
     sh "  printf '%s\n' `$dbf_conffile_conflicts` >&2";
     "  exit 1";
     "fi";
     "if ! apt-get install -y " +:+ shellQuote name +:+ " </dev/null; then";
     "  echo " +:+ shellQuote installMessage +:+ " >&2";
     "  exit 1";
     "fi"]
  else ["apt-get -o Dpkg::Options::=--force-confdef -o Dpkg::Options::=--force-confold install -y " +:+ shellQuote name].

Definition package_plan (node : Node) (prior : option Resource) (state : packageInstallState) : ProviderPlan :=
  let name := stringDesired node "name" in
  let observed := package_observed state in
  let policy desired := match desired !! "conffile_policy" with Some (GStr policy) => Some policy | _ => None end in
  if ensureAbsent node then
    if pi_Installed state && negb (pi_Virtual state) then plan_of ActionDelete ("remove package " +:+ name) observed prior
    else absentInSyncPlan prior ("already absent package " +:+ name)
           (if pi_Virtual state
            then <["satisfied_by" := GStr (pi_Package state)]> (<["installed" := GBool false]> observed) else observed)
  else if negb (pi_Installed state) then plan_of ActionCreate ("install package " +:+ name) observed prior
  else if pi_Virtual state && bool_decide (pi_Package state <> "")
  then inSyncPlan node prior ("no changes for package " +:+ name +:+ " provided by " +:+ pi_Package state) observed
  else match prior, policy (n_Desired node) with
  | Some p, Some policy_set =>
      if decide (policy_set = default "" (policy (r_Desired p)))
      then inSyncPlan node prior ("no changes for package " +:+ name) observed
      else plan_of ActionUpdate ("apply conffile policy " +:+ policy_set +:+ " to package " +:+ name) observed prior
  | _, _ => inSyncPlan node prior ("no changes for package " +:+ name) observed
  end.

(** The declared packages that the lines report as installed, in their order. *)
Definition installed_entry (l : string) : option string :=
  match strings_Split l tab with
  | name :: status :: _ =>
      let name := strings_TrimSpace name in
      if strings_Contains status "install ok installed" && bool_decide (name <> "") then Some name else None
  | _ => None
  end.
Definition installed_of (packages : list string) (stdout : string) : list string :=
  let seen := omap installed_entry (strings_Split stdout newline) in
  filter (fun name => name ∈ seen) packages.
Definition installedPackages_script (packages : list string) : string :=
  command_line (["dpkg-query"; "-W"; "-f=${binary:Package}\t${Status}\n"] ++ packages) +:+ " 2>/dev/null || true" +:+ nl.

(** A nil slice when there is none. *)
Definition strings_value (l : list string) : goval := match l with [] => GNilStrs | _ => GStrs l end.

Definition conflicts_error (node : Node) (installed : list string) : engine_error :=
  NodeFailed (n_Address node)
    ("docker conflict packages are installed: " +:+ strings_Join installed ", "
     +:+ "; set docker.package.remove_conflicts = true or auto to remove them").
Definition conflicts_plan (node : Node) (prior : option Resource) (installed : list string) : result engine_error ProviderPlan :=
  let observed : gomap := {["installed" := strings_value installed]} in
  let names := strings_Join installed ", " in
  if decide (installed = []) then Ok (plan_of ActionNoOp "no docker conflict packages installed" observed prior)
  else if decide (stringDesired node "remove_conflicts" = "false") then Err (conflicts_error node installed)
  else if decide (stringDesired node "remove_conflicts" = "true")
  then Ok (plan_of ActionDelete ("remove docker conflict packages " +:+ names) observed prior)
  else Ok (plan_of ActionDelete ("replace docker conflict packages " +:+ names) observed prior).

(** ** Kernel *)

Definition planKernelModule_script (name : string) : string :=
  let path := shellQuote (modulePath name) in
  script_text
    ["module=" +:+ shellQuote name;
     sh "kmod=$(printf '%s' `$module` | tr '-' '_')";
     sh "if awk -v m=`$kmod` '$1 == m { found = 1 } END { exit found ? 0 : 1 }' /proc/modules; then echo loaded; else echo missing; fi";
     "if [ -f " +:+ path +:+ " ]; then sha256sum " +:+ path +:+ " | awk '{print $1}'; else echo ''; fi"].
Definition kernel_module_plan (node : Node) (prior : option Resource) (stdout : string) : ProviderPlan :=
  let name := stringDesired node "name" in
  let lines := nonEmptyLines stdout in
  let loaded := bool_decide (head lines = Some "loaded") in
  let persisted := bool_decide (lines !! 1 = Some (sha256Hex (name +:+ nl))) in
  let observed : gomap := {["loaded" := GBool loaded; "persisted" := GBool persisted]} in
  if ensureAbsent node then
    if loaded || persisted then plan_of ActionDelete ("unload kernel module " +:+ name) observed prior
    else absentInSyncPlan prior ("already absent kernel module " +:+ name) observed
  else if negb loaded || negb persisted
  then plan_of ActionUpdate ("modprobe " +:+ name +:+ " and write " +:+ modulePath name) observed prior
  else inSyncPlan node prior ("no changes for kernel module " +:+ name) observed.

Definition planSysctl_script (key : string) : string :=
  let path := shellQuote (sysctlPath key) in
  script_text
    ["sysctl -n " +:+ shellQuote key +:+ " 2>/dev/null || true";
     "if [ -f " +:+ path +:+ " ]; then sha256sum " +:+ path +:+ " | awk '{print $1}'; else echo ''; fi"].
Definition sysctl_plan (node : Node) (prior : option Resource) (stdout : string) : ProviderPlan :=
  let key := stringDesired node "key" in
  let value := stringDesired node "value" in
  let lines := output_lines stdout in
  let current := strings_TrimSpace (line lines 0) in
  let persisted := bool_decide (1 < length lines)
                   && bool_decide (strings_TrimSpace (line lines 1) = sha256Hex (key +:+ " = " +:+ value +:+ nl)) in
  let observed : gomap := {["value" := GStr current; "persisted" := GBool persisted]} in
  if ensureAbsent node then
    if persisted then plan_of ActionDelete ("remove sysctl " +:+ key) observed prior
    else absentInSyncPlan prior ("already absent sysctl " +:+ key) observed
  else if negb (bool_decide (current = value)) || negb persisted
  then plan_of ActionUpdate ("sysctl -w " +:+ key +:+ "=" +:+ value +:+ " and write " +:+ sysctlPath key) observed prior
  else inSyncPlan node prior ("no changes for sysctl " +:+ key) observed.

(** ** Services *)

Definition planService_script (name : string) : string :=
  script_text
    ["printf 'enabled='; systemctl is-enabled " +:+ shellQuote name +:+ " 2>/dev/null || true";
     "printf 'active='; systemctl is-active " +:+ shellQuote name +:+ " 2>/dev/null || true"].
Definition bool_value (v : option goval) : option bool := match v with Some (GBool b) => Some b | _ => None end.
Definition service_changes (node : Node) (enabled active : bool) : list string :=
  match bool_value (n_Desired node !! "enabled") with
  | Some want => if Bool.eqb enabled want then [] else [if want then "enable" else "disable"]
  | None => []
  end
  ++ (let state := stringDesired node "state" in
      if decide (state = "running") then if active then [] else ["start"]
      else if decide (state = "stopped") then if active then ["stop"] else []
      else if decide (state = "restarted") then ["restart"]
      else if decide (state = "reloaded") then ["reload"] else []).
Definition service_plan (node : Node) (prior : option Resource) (stdout : string) : ProviderPlan :=
  let name := stringDesired node "unit" in
  let enabled := strings_Contains stdout "enabled=enabled" in
  let active := strings_Contains stdout "active=active" in
  let observed : gomap := {["enabled" := GBool enabled; "active" := GBool active]} in
  match service_changes node enabled active with
  | [] => inSyncPlan node prior ("no changes for service " +:+ name) observed
  | changes => plan_of ActionUpdate (strings_Join changes " " +:+ " service " +:+ name) observed prior
  end.

(** ** Accounts *)

Definition group_plan (node : Node) (prior : option Resource) (stdout : string) : ProviderPlan :=
  let name := stringDesired node "name" in
  let l := strings_TrimSpace stdout in
  let exists_ := negb (bool_decide (l = "")) in
  let gid := line (strings_Split l ":"%char) 2 in
  let observed : gomap := {["exists" := GBool exists_; "gid" := GStr gid]} in
  let wantGID := stringDesired node "gid" in
  if ensureAbsent node then plan_absent "group" name exists_ observed prior
  else if negb exists_ then plan_of ActionCreate ("create group " +:+ name) observed prior
  else if decide (wantGID = "" \/ gid = wantGID) then inSyncPlan node prior ("no changes for group " +:+ name) observed
  else plan_of ActionUpdate ("set group " +:+ name +:+ " gid to " +:+ wantGID) observed prior.
Definition planGroup_script (name : string) : string := script_text ["getent group " +:+ shellQuote name +:+ " || true"].

(** [userState] *)
Record userState := {
  us_exists : bool;
  us_uid : string;
  us_gidNum : string;
  us_primaryGroup : string;
  us_home : string;
  us_shell : string;
  us_groups : list string;
}.
Definition no_user : userState :=
  {| us_exists := false; us_uid := ""; us_gidNum := ""; us_primaryGroup := ""; us_home := ""; us_shell := ""; us_groups := [] |}.

Definition readUser_script (name : string) : string :=
  let quoted := shellQuote name in
  script_text
    ["if getent passwd " +:+ quoted +:+ " >/dev/null 2>&1; then";
     "  getent passwd " +:+ quoted;
     "  id -gn " +:+ quoted;
     "  id -nG " +:+ quoted;
     "else";
     "  echo __ABSENT__";
     "fi"].

(** [strings.Fields] *)
Fixpoint fields_go (fuel : nat) (cur : list N) (l : list N) : list string :=
  let flush := match cur with [] => [] | _ => [of_bytes cur] end in
  match fuel, l with
  | S fuel, b :: l' =>
      match space_len l with
      | O => fields_go fuel (cur ++ [b]) l'
      | n => flush ++ fields_go fuel [] (drop n l)
      end
  | _, _ => flush
  end.
Definition strings_Fields (s : string) : list string :=
  let l := Sha256.bytes s in fields_go (length l) [] l.

Definition user_of_lines (lines : list string) : userState :=
  let first := strings_TrimSpace (line lines 0) in
  if decide (first = "__ABSENT__" \/ first = "") then no_user
  else
    let fields := strings_Split (line lines 0) ":"%char in
    let field i := if decide (7 <= length fields) then line fields i else "" in
    let primary := strings_TrimSpace (line lines 1) in
    {| us_exists := true; us_uid := field 2; us_gidNum := field 3; us_primaryGroup := primary; us_home := field 5;
       us_shell := field 6; us_groups := filter (fun g => g <> primary) (strings_Fields (line lines 2)) |}.

Definition user_reasons (node : Node) (cur : userState) : list string :=
  let changed field actual := let want := stringDesired node field in bool_decide (want <> "") && bool_decide (actual <> want) in
  let groups := stringListDesired node "groups" in
  (if changed "uid" (us_uid cur) then ["uid"] else [])
  ++ (if changed "group" (us_gidNum cur) && changed "group" (us_primaryGroup cur) then ["primary group"] else [])
  ++ (if changed "home" (us_home cur) then ["home"] else [])
  ++ (if changed "shell" (us_shell cur) then ["shell"] else [])
  ++ (if negb (bool_decide (groups = [])) && negb (sameStringSet groups (us_groups cur)) then ["groups"] else []).

Definition user_plan (node : Node) (prior : option Resource) (cur : userState) : ProviderPlan :=
  let name := stringDesired node "name" in
  let observed : gomap :=
    {["exists" := GBool (us_exists cur); "uid" := GStr (us_uid cur); "group" := GStr (us_primaryGroup cur);
      "home" := GStr (us_home cur); "shell" := GStr (us_shell cur); "groups" := strings_value (us_groups cur)]} in
  if ensureAbsent node then plan_absent "user" name (us_exists cur) observed prior
  else if negb (us_exists cur) then plan_of ActionCreate ("create user " +:+ name) observed prior
  else match user_reasons node cur with
  | [] => inSyncPlan node prior ("no changes for user " +:+ name) observed
  | reasons => plan_of ActionUpdate ("update user " +:+ name +:+ " (" +:+ strings_Join reasons ", " +:+ ")") observed prior
  end.

Definition userInGroup (user : userState) (group : string) : bool :=
  bool_decide (us_primaryGroup user = group) || bool_decide (group ∈ us_groups user).
Definition membershipDependsOnManagedUser (node : Node) (user : string) : bool :=
  existsb (fun dep => strings_Contains dep (sh ".users.user[`" +:+ user +:+ sh "`]")) (n_DependsOn node).

Definition membership_plan (node : Node) (prior : option Resource) (cur : userState) : result engine_error ProviderPlan :=
  let user := stringDesired node "user" in
  let group := stringDesired node "group" in
  let what := "user group membership " +:+ user +:+ ":" +:+ group in
  let observed : gomap :=
    {["exists" := GBool (us_exists cur); "user" := GStr user; "group" := GStr group; "primary_group" := GStr (us_primaryGroup cur);
      "present" := GBool (us_exists cur && userInGroup cur group); "groups" := strings_value (us_groups cur)]} in
  if ensureAbsent node then
    if us_exists cur && bool_decide (group ∈ us_groups cur)
    then Ok (plan_of ActionDelete ("remove user " +:+ user +:+ " from group " +:+ group) observed prior)
    else Ok (absentInSyncPlan prior ("already absent " +:+ what) observed)
  else if negb (us_exists cur) then
    if membershipDependsOnManagedUser node user
    then Ok (plan_of ActionCreate ("add user " +:+ user +:+ " to group " +:+ group +:+ " after creating user") observed prior)
    else Err (NodeFailed (n_Address node)
                ("user " +:+ strconv_Quote user +:+ " does not exist; declare users.user[" +:+ strconv_Quote user
                 +:+ "] or create it before applying group membership " +:+ strconv_Quote group))
  else if userInGroup cur group then Ok (inSyncPlan node prior ("no changes for " +:+ what) observed)
  else Ok (plan_of ActionUpdate
             ("add user " +:+ user +:+ " to group " +:+ group +:+ " (log out and back in for group session to refresh)") observed prior).

Definition authorizedKeyPreamble (desired : gomap) : string :=
  let path := stringMapValue desired "path" in
  script_text
    ["user=" +:+ shellQuote (stringMapValue desired "user");
     sh "home=$(getent passwd `$user` | cut -d: -f6) || home=";
     if decide (path = "") then sh "file=`$home/.ssh/authorized_keys`" else "file=" +:+ shellQuote path].
Definition splitAuthorizedKey (key : string) : option (string * string) :=
  match strings_Fields (strings_TrimSpace key) with keytype :: keyblob :: _ => Some (keytype, keyblob) | _ => None end.
Definition key_error : string := "authorized key must contain a type and body".
Definition key_match (key : string * string) : string :=
  "awk -v t=" +:+ shellQuote key.1 +:+ " -v b=" +:+ shellQuote key.2.
Definition planAuthorizedKey_script (desired : gomap) (key : string * string) : string :=
  authorizedKeyPreamble desired
  +:+ sh "if [ -n `$home` ] && [ -f `$file` ] && " +:+ key_match key
  +:+ sh " '($1==t && $2==b){f=1} END{exit f?0:1}' `$file`; then echo present; else echo absent; fi" +:+ nl.
Definition authorized_key_plan (node : Node) (prior : option Resource) (stdout : string) : ProviderPlan :=
  let user := stringDesired node "user" in
  let present := strings_Contains stdout "present" in
  let observed : gomap := {["present" := GBool present]} in
  if ensureAbsent node then
    if present then plan_of ActionDelete ("remove authorized key for " +:+ user) observed prior
    else absentInSyncPlan prior "already absent authorized key" observed
  else if present then inSyncPlan node prior "no changes for authorized key" observed
  else plan_of ActionCreate ("add authorized key for " +:+ user) observed prior.

Section host.
Context {W : Type} `{Runner W}.
Abbreviation E := (M engine_error W).

Definition readSystemHostname (host : string) : E string :=
  r ← run host systemHostnameReadScript; mret (parseSystemHostname (res_Stdout r)).
Definition readSystemTimezone (host timezone : string) : E setting :=
  r ← run host (systemTimezoneReadScript timezone); mret (setting_of "timezone" "zone_exists" (res_Stdout r)).
Definition readSystemLocale (host locale : string) : E setting :=
  r ← run host (systemLocaleReadScript locale); mret (setting_of "locale" "available" (res_Stdout r)).

(** The value of a setting, required. *)
Definition required (subject kind field : string) (node : Node) : E string :=
  let value := stringDesired node field in
  if decide (value = "") then lift (Err (NodeFailed subject (kind +:+ " requires " +:+ field))) else mret value.

Definition planSystemHostname (node : Node) (prior : option Resource) : E ProviderPlan :=
  hostname ← required (n_Address node) "system_hostname" "hostname" node;
  current ← readSystemHostname (n_Host node);
  mret (if decide (current = hostname)
        then inSyncPlan node prior ("no changes for system hostname " +:+ hostname) (hostname_observed current)
        else plan_of ActionUpdate (systemHostnameUpdateSummary current hostname) (hostname_observed current) prior).
Definition applySystemHostname (step : Step) : E gomap :=
  let node := s_Node step in
  hostname ← required (s_Address step) "system_hostname" "hostname" node;
  _ ← run_ (n_Host node) (systemHostnameApplyScript hostname);
  current ← readSystemHostname (n_Host node);
  if decide (current = hostname) then mret (with_digest node (hostname_observed current))
  else lift (Err (NodeFailed (s_Address step)
                    ("set system hostname to " +:+ strconv_Quote hostname +:+ " but observed " +:+ strconv_Quote current))).

Definition planSystemTimezone (node : Node) (prior : option Resource) : E ProviderPlan :=
  timezone ← required (n_Address node) "system_timezone" "timezone" node;
  current ← readSystemTimezone (n_Host node) timezone;
  if negb (st_Available current)
  then lift (Err (NodeFailed (n_Address node) ("system_timezone requires /usr/share/zoneinfo/" +:+ timezone +:+ " on target")))
  else mret (if decide (st_Value current = timezone)
             then inSyncPlan node prior ("no changes for system timezone " +:+ timezone) (timezone_observed current)
             else plan_of (systemSettingAction prior (st_Value current)) (systemTimezoneUpdateSummary (st_Value current) timezone)
                    (timezone_observed current) prior).
Definition applySystemTimezone (step : Step) : E gomap :=
  let node := s_Node step in
  timezone ← required (s_Address step) "system_timezone" "timezone" node;
  _ ← run_ (n_Host node) (systemTimezoneApplyScript timezone);
  current ← readSystemTimezone (n_Host node) timezone;
  if negb (st_Available current)
  then lift (Err (NodeFailed (s_Address step)
                    ("system timezone zoneinfo " +:+ strconv_Quote timezone +:+ " is not available after apply")))
  else if decide (st_Value current = timezone) then mret (with_digest node (timezone_observed current))
  else lift (Err (NodeFailed (s_Address step)
                    ("set system timezone to " +:+ strconv_Quote timezone +:+ " but observed " +:+ strconv_Quote (st_Value current)))).

Definition planSystemLocale (node : Node) (prior : option Resource) : E ProviderPlan :=
  locale ← required (n_Address node) "system_locale" "locale" node;
  current ← readSystemLocale (n_Host node) locale;
  mret (if bool_decide (st_Value current = locale) && st_Available current
        then inSyncPlan node prior ("no changes for system locale " +:+ locale) (locale_observed current)
        else plan_of (systemSettingAction prior (st_Value current))
               (systemLocaleUpdateSummary (st_Value current) locale (st_Available current)) (locale_observed current) prior).
Definition applySystemLocale (step : Step) : E gomap :=
  let node := s_Node step in
  locale ← required (s_Address step) "system_locale" "locale" node;
  _ ← run_ (n_Host node) (systemLocaleApplyScript locale);
  current ← readSystemLocale (n_Host node) locale;
  if negb (bool_decide (st_Value current = locale))
  then lift (Err (NodeFailed (s_Address step)
                    ("set system locale to " +:+ strconv_Quote locale +:+ " but observed " +:+ strconv_Quote (st_Value current))))
  else if st_Available current then mret (with_digest node (locale_observed current))
  else lift (Err (NodeFailed (s_Address step) ("system locale " +:+ strconv_Quote locale +:+ " is not available after apply"))).

(** *** Packages *)

Definition package_install_state (host name : string) : E packageInstallState :=
  r ← run host (packageInstallStateScript name); mret (install_state name (strings_Split (res_Stdout r) newline)).

Definition planPackage (node : Node) (prior : option Resource) : E ProviderPlan :=
  state ← package_install_state (n_Host node) (stringDesired node "name");
  mret (package_plan node prior state).

Definition applyPackage (step : Step) : E gomap :=
  let node := s_Node step in
  let name := stringDesired node "name" in
  let prefix := ["set -eu"; "export DEBIAN_FRONTEND=noninteractive"] in
  if removes step && negb (boolMapValue (s_Observed step) "installed") then mret {["installed" := GBool false]}
  else if removes step then
    _ ← run_ (n_Host node) (script_text (prefix ++ ["apt-get remove -y " +:+ shellQuote name]));
    mret (with_digest node {["installed" := GBool false]})
  else
    _ ← run_ (n_Host node)
          (script_text
             (prefix
              ++ ["if ! apt-cache policy " +:+ shellQuote name
                    +:+ sh " | awk '$1 == `Candidate:` && $2 != `(none)` { found = 1 } END { exit found ? 0 : 1 }'; then";
                  "  apt-get update"; "fi"]
              ++ packageInstallCommand name (packageConffilePolicy node) (packageConffileDiagnostic node)));
    state ← package_install_state (n_Host node) name;
    if pi_Installed state then mret (with_digest node (package_observed state))
    else lift (Err (NodeFailed (s_Address step)
                      ("package " +:+ name +:+ " was installed but no installed package or provider could be verified"))).

Definition installedPackages (host : string) (packages : list string) : E (list string) :=
  if decide (packages = []) then mret []
  else r ← run host (installedPackages_script packages); mret (installed_of packages (res_Stdout r)).

Definition planDockerPackageConflicts (node : Node) (prior : option Resource) : E ProviderPlan :=
  installed ← installedPackages (n_Host node) (stringListDesired node "packages");
  lift (conflicts_plan node prior installed).

(** What the plan observed, or else what is installed now. *)
Definition applyDockerPackageConflicts (step : Step) : E gomap :=
  let node := s_Node step in
  installed ← (match stringListMapValue (s_Observed step) "installed" with
               | [] => installedPackages (n_Host node) (stringListDesired node "packages")
               | installed => mret installed
               end);
  if decide (installed = []) then mret (with_digest node {["installed" := GStrs []]})
  else if decide (stringDesired node "remove_conflicts" = "false") then lift (Err (conflicts_error node installed))
  else
    _ ← run_ (n_Host node)
          (script_text ["set -eu"; "export DEBIAN_FRONTEND=noninteractive"; command_line (["apt-get"; "remove"; "-y"] ++ installed)]);
    mret (with_digest node {["installed" := GStrs []; "removed" := GStrs installed]}).

(** *** Kernel *)

Definition planKernelModule (node : Node) (prior : option Resource) : E ProviderPlan :=
  r ← run (n_Host node) (planKernelModule_script (stringDesired node "name"));
  mret (kernel_module_plan node prior (res_Stdout r)).

(** The lines that write a file of root's with one line of text. *)
Definition persist_lines (text path : string) : list string :=
  [sh "mkdir -p -- `$(dirname " +:+ shellQuote path +:+ sh ")`";
   "printf '%s\n' " +:+ shellQuote text +:+ " > " +:+ shellQuote path;
   "chown root:root " +:+ shellQuote path;
   "chmod 0644 " +:+ shellQuote path].

Definition applyKernelModule (step : Step) : E gomap :=
  let node := s_Node step in
  let name := stringDesired node "name" in
  let path := modulePath name in
  _ ← run_ (n_Host node)
        (script_text
           ("set -eu" ::
            (if removes step then ["rm -f -- " +:+ shellQuote path; "modprobe -r " +:+ shellQuote name +:+ " 2>/dev/null || true"]
             else ("modprobe " +:+ shellQuote name) :: persist_lines name path)));
  mret (with_digest node {["loaded" := GBool (negb (ensureAbsent node))]}).

Definition planSysctl (node : Node) (prior : option Resource) : E ProviderPlan :=
  r ← run (n_Host node) (planSysctl_script (stringDesired node "key")); mret (sysctl_plan node prior (res_Stdout r)).

Definition applySysctl (step : Step) : E gomap :=
  let node := s_Node step in
  let key := stringDesired node "key" in
  let value := stringDesired node "value" in
  let path := sysctlPath key in
  if removes step then _ ← removePath (n_Host node) path false; mret (with_digest node {["persisted" := GBool false]})
  else
    _ ← run_ (n_Host node)
          (script_text ("set -eu" :: ("sysctl -w " +:+ shellQuote (key +:+ "=" +:+ value)) :: persist_lines (key +:+ " = " +:+ value) path));
    mret (with_digest node {["value" := GStr value]}).

(** *** Services *)

Definition planService (node : Node) (prior : option Resource) : E ProviderPlan :=
  r ← run (n_Host node) (planService_script (stringDesired node "unit")); mret (service_plan node prior (res_Stdout r)).

Definition service_command (name state : string) : list string :=
  let systemctl verb := ["systemctl " +:+ verb +:+ " " +:+ shellQuote name] in
  if decide (state = "running") then systemctl "start"
  else if decide (state = "stopped") then systemctl "stop"
  else if decide (state = "restarted") then systemctl "restart"
  else if decide (state = "reloaded") then systemctl "reload" else [].
Definition applyService (step : Step) : E gomap :=
  let node := s_Node step in
  let name := stringDesired node "unit" in
  _ ← run_ (n_Host node)
        (script_text
           (["set -eu"]
            ++ match bool_value (n_Desired node !! "enabled") with
               | Some true => ["systemctl enable " +:+ shellQuote name]
               | Some false => ["systemctl disable " +:+ shellQuote name]
               | None => []
               end
            ++ service_command name (stringDesired node "state")));
  mret (with_digest node ∅).

(** *** Accounts *)

Definition planGroup (node : Node) (prior : option Resource) : E ProviderPlan :=
  r ← run (n_Host node) (planGroup_script (stringDesired node "name")); mret (group_plan node prior (res_Stdout r)).

Definition account_applied (node : Node) : gomap := with_digest node {["exists" := GBool (negb (ensureAbsent node))]}.
Definition applyGroup (step : Step) : E gomap :=
  let node := s_Node step in
  let quoted := shellQuote (stringDesired node "name") in
  let gid := stringDesired node "gid" in
  let add := "groupadd" +:+ (if boolDesired node "system" then " -r" else "")
             +:+ (if decide (gid = "") then "" else " -g " +:+ shellQuote gid) +:+ " " +:+ quoted in
  let mod_ := if decide (gid = "") then ":" else "groupmod -g " +:+ shellQuote gid +:+ " " +:+ quoted in
  let there := "if getent group " +:+ quoted +:+ " >/dev/null; then " in
  _ ← run_ (n_Host node)
        (script_text
           ["set -eu";
            if removes step then there +:+ "groupdel " +:+ quoted +:+ "; fi" else there +:+ mod_ +:+ "; else " +:+ add +:+ "; fi"]);
  mret (account_applied node).

Definition readUser (host name : string) : E userState :=
  r ← run host (readUser_script name); mret (user_of_lines (output_lines (res_Stdout r))).
Definition planUser (node : Node) (prior : option Resource) : E ProviderPlan :=
  cur ← readUser (n_Host node) (stringDesired node "name"); mret (user_plan node prior cur).

Definition flag (letter value : string) : string := if decide (value = "") then "" else " -" +:+ letter +:+ " " +:+ shellQuote value.
Definition userFlags (node : Node) : string :=
  flag "u" (stringDesired node "uid") +:+ flag "g" (stringDesired node "group")
  +:+ (match stringListDesired node "groups" with [] => "" | groups => " -G " +:+ shellQuote (strings_Join groups ",") end)
  +:+ flag "d" (stringDesired node "home") +:+ flag "s" (stringDesired node "shell").
Definition applyUser (step : Step) : E gomap :=
  let node := s_Node step in
  let quoted := shellQuote (stringDesired node "name") in
  let flags := userFlags node in
  let add := "useradd" +:+ (if boolDesired node "system" then " -r" else " -m") +:+ flags +:+ " " +:+ quoted in
  let mod_ := if decide (flags = "") then ":" else "usermod" +:+ flags +:+ " " +:+ quoted in
  let there := "if getent passwd " +:+ quoted +:+ " >/dev/null; then " in
  _ ← run_ (n_Host node)
        (script_text
           ["set -eu";
            if removes step then there +:+ "userdel " +:+ quoted +:+ "; fi" else there +:+ mod_ +:+ "; else " +:+ add +:+ "; fi"]);
  mret (account_applied node).

Definition planUserGroupMembership (node : Node) (prior : option Resource) : E ProviderPlan :=
  cur ← readUser (n_Host node) (stringDesired node "user"); lift (membership_plan node prior cur).

Definition membership_lines (remove : bool) (user group : string) : list string :=
  let u := shellQuote user in
  let g := shellQuote group in
  if remove then
    ["if getent passwd " +:+ u +:+ sh " >/dev/null && [ `$(id -gn " +:+ u +:+ sh ")` != " +:+ g +:+ " ] && id -nG " +:+ u
       +:+ " | tr ' ' '\n' | grep -Fx " +:+ g +:+ " >/dev/null; then gpasswd -d " +:+ u +:+ " " +:+ g +:+ "; fi"]
  else
    ["getent passwd " +:+ u +:+ " >/dev/null || { echo "
       +:+ shellQuote ("debianform: user " +:+ user +:+ " does not exist; create it before applying group membership " +:+ group)
       +:+ " >&2; exit 1; }";
     "getent group " +:+ g +:+ " >/dev/null || { echo "
       +:+ shellQuote ("debianform: group " +:+ group +:+ " does not exist; create it before applying membership for user " +:+ user)
       +:+ " >&2; exit 1; }";
     "usermod -aG " +:+ g +:+ " " +:+ u;
     "echo " +:+ shellQuote ("debianform: user " +:+ user +:+ " must log out and back in for " +:+ group
                             +:+ " group membership to affect existing sessions")].
Definition applyUserGroupMembership (step : Step) : E gomap :=
  let node := s_Node step in
  _ ← run_ (n_Host node)
        (script_text ("set -eu" :: membership_lines (removes step) (stringDesired node "user") (stringDesired node "group")));
  mret (with_digest node {["exists" := GBool true; "present" := GBool (negb (removes step))]}).

Definition planAuthorizedKey (node : Node) (prior : option Resource) : E ProviderPlan :=
  key ← lift (of_option (NodeFailed (n_Address node) key_error) (splitAuthorizedKey (stringDesired node "key")));
  r ← run (n_Host node) (planAuthorizedKey_script (n_Desired node) key);
  mret (authorized_key_plan node prior (res_Stdout r)).

Definition authorized_key_body (remove : bool) (key : string) (parts : string * string) : list string :=
  if remove then
    [sh "if [ -z `$home` ]; then exit 0; fi";
     sh "if [ -f `$file` ]; then";
     "  tmp=$(mktemp)";
     "  " +:+ key_match parts +:+ sh " '!($1==t && $2==b)' `$file` > `$tmp`";
     sh "  cat `$tmp` > `$file`";
     sh "  rm -f `$tmp`";
     "fi"]
  else
    [sh "dir=$(dirname `$file`)";
     sh "group=$(id -gn `$user`)";
     sh "mkdir -p `$dir`";
     sh "chmod 0700 `$dir`";
     sh "if ! { [ -f `$file` ] && " +:+ key_match parts +:+ sh " '($1==t && $2==b){f=1} END{exit f?0:1}' `$file`; }; then";
     "  printf '%s\n' " +:+ shellQuote key +:+ sh " >> `$file`";
     "fi";
     sh "chmod 0600 `$file`";
     sh "chown `$user`:`$group` `$dir` `$file`"].
Definition applyAuthorizedKey (step : Step) : E gomap :=
  let node := s_Node step in
  let key := stringDesired node "key" in
  parts ← lift (of_option (NodeFailed "" key_error) (splitAuthorizedKey key));
  _ ← run_ (n_Host node)
        (script_text ["set -eu"] +:+ authorizedKeyPreamble (n_Desired node)
         +:+ script_text (authorized_key_body (removes step) key parts));
  mret (with_digest node {["present" := GBool (negb (ensureAbsent node))]}).

End host.
