(* ===== verification/NativeApps.v ===== *)
(** * Components and Compose projects on a host: [provider_components.go], [provider_docker.go]

    Downloads, builds, binaries, files and archives of components, the outputs of
    scripts, and Docker Compose projects.  The decoder of JSON texts is a
    parameter. *)
From S2P Require Import Prelude Sha256 GoValue GoStrings IR State Moves Graph Schedule Engine Document Remote Base64 NativeFiles NativeHost.

(** ** Components: plans *)

(** [commandMatrixDesired] *)
Definition commandMatrixDesired (node : Node) (name : string) : list (list string) := commandMatrixValue (n_Desired node) name.

Definition lower (s : string) : string := strings_ToLower s.
Definition recorded_sha (prior : option Resource) : string := from_option (fun p => stringMapValue (r_Observed p) "sha256") "" prior.

(** A file that is installed from somewhere else: it is compared by its digest. *)
Definition digest_differs (node : Node) (current : pathState) (wantSHA : string) : bool :=
  ps_IsDir current || bool_decide (ps_SHA256 current <> wantSHA) || metadata_differs node current.

Definition download_plan (node : Node) (prior : option Resource) (current : pathState) : result engine_error ProviderPlan :=
  let path := stringDesired node "path" in
  let observed := path_observed current in
  if ensureAbsent node then Ok (plan_absent "component source" path (ps_Exists current) observed prior)
  else
    let payload := providerDesired node in
    let wantSHA := lower (stringMapValue payload "sha256") in
    if decide (wantSHA = "" \/ stringMapValue payload "url" = "")
    then Err (NodeFailed (n_Address node) "component download requires url and sha256")
    else if negb (ps_Exists current) then Ok (plan_of ActionCreate ("download component source " +:+ path) observed prior)
    else if digest_differs node current wantSHA then Ok (plan_of ActionUpdate ("update component source " +:+ path) observed prior)
    else Ok (inSyncPlan node prior ("no changes for component source " +:+ path) observed).

(** What was built is in sync when neither the description nor the file changed
    since. *)
Definition built_plan (node : Node) (prior : option Resource) (current : pathState) (what update again path : string) : ProviderPlan :=
  let observed := path_observed current in
  let desiredDigest := DesiredDigest (n_Desired node) in
  let priorSHA := recorded_sha prior in
  if ps_IsDir current || metadata_differs node current then plan_of ActionUpdate ("update " +:+ update +:+ path) observed prior
  else if bool_decide (r_DesiredDigest <$> prior = Some desiredDigest) && negb (bool_decide (priorSHA = ""))
          && bool_decide (priorSHA = ps_SHA256 current)
  then plan_of ActionNoOp ("no changes for " +:+ what +:+ path) (<["desired_digest" := GStr desiredDigest]> observed) prior
  else plan_of ActionUpdate (again +:+ path) observed prior.

Definition build_plan (node : Node) (prior : option Resource) (current : pathState) : result engine_error ProviderPlan :=
  let path := stringDesired node "output_path" in
  let observed := path_observed current in
  let fail message := Err (NodeFailed (n_Address node) ("component build requires " +:+ message)) in
  if ensureAbsent node then Ok (plan_absent "component build output" path (ps_Exists current) observed prior)
  else if decide (path = "" \/ stringDesired node "cache_path" = "" \/ stringDesired node "build_path" = "")
  then fail "cache_path, build_path, and output_path"
  else if decide (commandMatrixDesired node "commands" = []) then fail "commands"
  else if decide (stringDesired node "output" = "") then fail "output"
  else if negb (ps_Exists current) then Ok (plan_of ActionCreate ("build component output " +:+ path) observed prior)
  else Ok (built_plan node prior current "component build output " "component build output " "rebuild component output " path).

Definition binary_plan (node : Node) (prior : option Resource) (current : pathState) : ProviderPlan :=
  let path := stringDesired node "path" in
  let observed := path_observed current in
  if ensureAbsent node then plan_absent "component binary" path (ps_Exists current) observed prior
  else if negb (ps_Exists current) then plan_of ActionCreate ("install component binary " +:+ path) observed prior
  else built_plan node prior current "component binary " "component binary " "reinstall component binary " path.

Definition component_file_plan (node : Node) (prior : option Resource) (current : pathState) : result engine_error ProviderPlan :=
  let path := stringDesired node "path" in
  let observed := path_observed current in
  let wantSHA := lower (stringDesired node "source_sha256") in
  if ensureAbsent node then Ok (plan_absent "component file" path (ps_Exists current) observed prior)
  else if decide (wantSHA = "") then Err (NodeFailed (n_Address node) "component file requires source_sha256")
  else if negb (ps_Exists current) then Ok (plan_of ActionCreate ("install component file " +:+ path) observed prior)
  else if digest_differs node current wantSHA then Ok (plan_of ActionUpdate ("update component file " +:+ path) observed prior)
  else Ok (inSyncPlan node prior ("no changes for component file " +:+ path) observed).

Definition archive_plan (node : Node) (prior : option Resource) (current : pathState) : ProviderPlan :=
  let path := stringDesired node "path" in
  let observed := path_observed current in
  if ensureAbsent node then plan_absent "component archive" path (ps_Exists current) observed prior
  else if negb (ps_Exists current) then plan_of ActionCreate ("install component archive " +:+ path) observed prior
  else if negb (ps_IsDir current) || metadata_differs node current
  then plan_of ActionUpdate ("update component archive " +:+ path) observed prior
  else if bool_decide (r_DesiredDigest <$> prior = Some (DesiredDigest (n_Desired node)))
  then inSyncPlan node prior ("no changes for component archive " +:+ path) observed
  else plan_of ActionUpdate ("replace component archive " +:+ path) observed prior.

Definition script_output_plan (node : Node) (prior : option Resource) (current : pathState) : ProviderPlan :=
  let path := stringDesired node "path" in
  let observed := path_observed current in
  let update summary := plan_of ActionUpdate (summary +:+ path) observed prior in
  if negb (ps_Exists current)
  then plan_of (if decide (prior = None) then ActionCreate else ActionUpdate) ("run script to create output " +:+ path) observed prior
  else if ps_IsDir current then update "run script to repair output "
  else match prior with
  | None => update "refresh script output state "
  | Some p =>
      let wantSHA := stringMapValue (r_Observed p) "sha256" in
      if decide (r_DesiredDigest p <> "" /\ r_DesiredDigest p <> DesiredDigest (n_Desired node)) then update "refresh script output "
      else if decide (wantSHA = "") then update "refresh script output state "
      else if decide (ps_SHA256 current = wantSHA) then inSyncPlan node prior ("no changes for script output " +:+ path) observed
      else update "repair script output drift "
  end.

(** ** Components: scripts *)

(** [fmt.Sprintf] with the verb v, of a dynamic value; nil is printed as nil. *)
Fixpoint fmt_v (v : goval) : string :=
  let bracket l := "[" +:+ strings_Join l " " +:+ "]" in
  match v with
  | GNil => "<nil>"
  | GBool b => if b then "true" else "false"
  | GInt z | GFloat z => pretty z
  | GStr s | GNumber s => s
  | GNilStrs => "[]"
  | GStrs l => bracket l
  | GStrss l => bracket (bracket <$> l)
  | GSummary c => "{" +:+ SHA256 c +:+ " " +:+ pretty (Bytes c) +:+ "}"
  | GList l => bracket (fmt_v <$> l)
  | GMap m => "map[" +:+ strings_Join ((fun p => p.1 +:+ ":" +:+ p.2) <$> sorted_entries (fmt_v <$> m)) " " +:+ "]"
  end.
Definition strip_components (node : Node) : string :=
  let text := fmt_v (default GNil (n_Desired node !! "strip_components")) in
  if decide (text = "" \/ text = "<nil>") then "0" else text.

(** The common part of the scripts that work in a directory of their own: it is
    made under the staging root and removed when the script ends. *)
Definition componentWorkspaceSetup (node : Node) (defaultRoot : string) : list string :=
  let stagingRoot := or_default (stringDesired node "staging_root") defaultRoot in
  [if decide (stagingRoot = "") then "staging_root=${TMPDIR:-/tmp}" else "staging_root=" +:+ shellQuote stagingRoot]
  ++ ["component_previous_umask=$(umask)";
     "umask 077";
     "work=";
     "component_workspace_diagnostic() {";
     sh "  available=$(df -Pk `$staging_root` 2>/dev/null | awk 'NR == 2 { print $4; exit }')";
     sh "  if [ -z `$available` ]; then available=unknown; fi";
     sh "  printf 'component workspace failed: staging_root=%s work_path=%s available_kib=%s\n' `$staging_root` `${work:-$staging_root}` `$available` >&2";
     "}";
     "component_workspace_rollback() { :; }";
     "component_workspace_cleanup() {";
     "  status=$?";
     "  trap - EXIT";
     sh "  component_workspace_rollback `$status` || true";
     sh "  if [ `$status` -ne 0 ]; then component_workspace_diagnostic; fi";
     sh "  if [ -n `$work` ]; then";
     sh "    if rm -rf -- `$work`; then";
     "      :";
     "    else";
     "      cleanup_status=$?";
     sh "      if [ `$status` -eq 0 ]; then";
     "        status=$cleanup_status";
     "        component_workspace_diagnostic";
     "      fi";
     "    fi";
     "  fi";
     sh "  exit `$status`";
     "}";
     "trap component_workspace_cleanup EXIT"]
  ++ (if decide (stagingRoot = "")
      then ["work=$(mktemp -d)";
     sh "staging_root=$(dirname `$work`)"]
      else [sh "mkdir -p -- `$staging_root`";
     sh "work=$(mktemp -d `${staging_root%/}/.debianform-component.XXXXXX`)"])
  ++ [sh "chmod 0700 `$work`";
     sh "umask `$component_previous_umask`"].

Definition shellCommandArgv (args : list string) : string :=
  "set -- " +:+ command_line args +:+ nl +:+ sh "`$@`".

Definition componentBinaryExtractInstallScript (node : Node) : list string :=
  let cachePath := stringDesired node "cache_path" in
  let path := stringDesired node "path" in
  let format := stringDesired node "extract_format" in
  if decide (format = "bz2" \/ format = "gz") then
    let command := if decide (format = "gz") then "gzip" else "bzip2" in
    let packageName := command in
    ["if ! command -v " +:+ command +:+ " >/dev/null 2>&1; then";
     "  export DEBIAN_FRONTEND=noninteractive";
     "  apt-get update";
     "  apt-get install -y " +:+ packageName;
     "fi"]
    ++ componentWorkspaceSetup node ""
    ++ [command +:+ " -dc " +:+ shellQuote cachePath +:+ sh " > `$work/binary`";
     "install -o " +:+ shellQuote (stringDesired node "owner") +:+ " -g " +:+ shellQuote (stringDesired node "group") +:+ " -m " +:+ shellQuote (stringDesired node "mode") +:+ sh " `$work/binary` " +:+ shellQuote path]
  else
    let include := stringDesired node "include" in
    let stripComponents := strip_components node in
    ["if [ " +:+ shellQuote format +:+ " = 'zip' ] && ! command -v unzip >/dev/null 2>&1; then";
     "  export DEBIAN_FRONTEND=noninteractive";
     "  apt-get update";
     "  apt-get install -y unzip";
     "fi";
     "if [ " +:+ shellQuote format +:+ " = 'tar.gz' ] && ! command -v tar >/dev/null 2>&1; then";
     "  export DEBIAN_FRONTEND=noninteractive";
     "  apt-get update";
     "  apt-get install -y tar gzip";
     "fi";
     "if [ " +:+ shellQuote format +:+ " = 'tar.xz' ] && { ! command -v tar >/dev/null 2>&1 || ! command -v xz >/dev/null 2>&1; }; then";
     "  export DEBIAN_FRONTEND=noninteractive";
     "  apt-get update";
     "  apt-get install -y tar xz-utils";
     "fi"]
    ++ componentWorkspaceSetup node ""
    ++ [if decide (format = "zip") then "unzip -q " +:+ shellQuote cachePath +:+ sh " -d `$work`"
        else if decide (format = "tar.xz") then "tar --no-same-owner -xJf " +:+ shellQuote cachePath +:+ sh " -C `$work`"
        else "tar --no-same-owner -xzf " +:+ shellQuote cachePath +:+ sh " -C `$work`"]
    ++ ["include=" +:+ shellQuote include;
     "strip_components=" +:+ shellQuote stripComponents;
     sh "matches=`$work/.dbf-matches`";
     sh ": > `$matches`";
     sh "find `$work` -type f | sort > `$work/.dbf-files`";
     "while IFS= read -r file; do";
     sh "  rel=${file#`$work`/}";
     "  stripped=$rel";
     "  i=0";
     sh "  while [ `$i` -lt `$strip_components` ]; do";
     sh "    case `$stripped` in */*) stripped=${stripped#*/} ;; *) stripped= ;; esac";
     "    i=$((i + 1))";
     "  done";
     sh "  if [ `$stripped` = `$include` ]; then printf '%s\n' `$file` >> `$matches`; fi";
     sh "done < `$work/.dbf-files`";
     sh "count=$(wc -l < `$matches` | tr -d ' ')";
     sh "if [ `$count` != 1 ]; then echo `component binary include matched $count files: $include` >&2; exit 1; fi";
     sh "src=$(sed -n '1p' `$matches`)";
     "install -o " +:+ shellQuote (stringDesired node "owner") +:+ " -g " +:+ shellQuote (stringDesired node "group") +:+ " -m " +:+ shellQuote (stringDesired node "mode") +:+ sh " `$src` " +:+ shellQuote path].

Definition componentBuildScript (node : Node) : result engine_error (list string) :=
  let cachePath := stringDesired node "cache_path" in
  let buildPath := stringDesired node "build_path" in
  let outputPath := stringDesired node "output_path" in
  let output := stringDesired node "output" in
  let fail message := NodeFailed (n_Address node) message in
  _ ← guard_or (negb (bool_decide (cachePath = "" \/ buildPath = "" \/ outputPath = "" \/ output = "")))
        (fail "component build requires cache_path, build_path, output_path, and output");
  let commands := commandMatrixDesired node "commands" in
  _ ← guard_or (negb (bool_decide (commands = []))) (fail "component build requires commands");
  _ ← mapi_res (fun i command => guard_or (negb (bool_decide (command = [])))
                                   (fail ("component build command " +:+ pretty i +:+ " is empty"))) 0 commands;
  let format := stringDesired node "extract_format" in
  _ ← guard_or (bool_decide (format ∈ [""; "zip"; "tar.gz"; "tar.xz"]))
        (fail ("unsupported component source extract format " +:+ strconv_Quote format));
  let stripComponents := strip_components node in
  let sourceName := or_default (stringDesired node "source_name") "source" in
  let workingDir := stringDesired node "working_dir" in
  Ok (["set -eu";
     "if [ " +:+ shellQuote format +:+ " = 'zip' ] && ! command -v unzip >/dev/null 2>&1; then";
     "  export DEBIAN_FRONTEND=noninteractive";
     "  apt-get update";
     "  apt-get install -y unzip";
     "fi";
     "if [ " +:+ shellQuote format +:+ " = 'tar.gz' ] && ! command -v tar >/dev/null 2>&1; then";
     "  export DEBIAN_FRONTEND=noninteractive";
     "  apt-get update";
     "  apt-get install -y tar gzip";
     "fi";
     "if [ " +:+ shellQuote format +:+ " = 'tar.xz' ] && { ! command -v tar >/dev/null 2>&1 || ! command -v xz >/dev/null 2>&1; }; then";
     "  export DEBIAN_FRONTEND=noninteractive";
     "  apt-get update";
     "  apt-get install -y tar xz-utils";
     "fi"]
      ++ componentWorkspaceSetup node ""
      ++ [sh "src=`$work/src`";
     sh "mkdir -p `$src`"]
      ++ [if decide (format = "zip") then "unzip -q " +:+ shellQuote cachePath +:+ sh " -d `$src`"
          else if decide (format = "tar.gz")
          then "tar --no-same-owner -xzf " +:+ shellQuote cachePath +:+ sh " -C `$src` --strip-components " +:+ shellQuote stripComponents
          else if decide (format = "tar.xz")
          then "tar --no-same-owner -xJf " +:+ shellQuote cachePath +:+ sh " -C `$src` --strip-components " +:+ shellQuote stripComponents
          else "cp -- " +:+ shellQuote cachePath +:+ sh " `$src/" +:+ sourceName +:+ dquote]
      ++ ["build_root=" +:+ shellQuote buildPath;
     sh "rm -rf -- `$build_root/work`";
     sh "cd `$src`"]
      ++ (if decide (workingDir = "") then [] else ["cd " +:+ shellQuote workingDir])
      ++ (shellCommandArgv <$> commands)
      ++ ["built=" +:+ shellQuote output;
     sh "if [ ! -f `$built` ]; then echo `component build output is missing: $built` >&2; exit 1; fi";
     sh "mkdir -p `$(dirname " +:+ shellQuote outputPath +:+ sh ")`";
     "install -o " +:+ shellQuote (stringDesired node "owner") +:+ " -g " +:+ shellQuote (stringDesired node "group") +:+ " -m " +:+ shellQuote (stringDesired node "mode") +:+ sh " `$built` " +:+ shellQuote outputPath]).

Definition download_script (node : Node) (url sha path : string) : list string :=
  let tmp := path +:+ ".dbf-tmp" in
  ["set -eu";
     sh "mkdir -p `$(dirname " +:+ shellQuote path +:+ sh ")`";
     "source_url=" +:+ shellQuote url;
     sh "case `$source_url` in";
     "  file://*) ;;";
     "  *)";
     "    if ! command -v curl >/dev/null 2>&1; then";
     "      export DEBIAN_FRONTEND=noninteractive";
     "      apt-get update";
     "      apt-get install -y ca-certificates curl";
     "    fi";
     "    ;;";
     "esac";
     sh "case `$source_url` in";
     sh "  file://*) cp -- `${source_url#file://}` " +:+ shellQuote tmp +:+ " ;;";
     sh "  *) curl -fsSL `$source_url` -o " +:+ shellQuote tmp +:+ " ;;";
     "esac";
     "printf '%s  %s\n' " +:+ shellQuote sha +:+ " " +:+ shellQuote tmp +:+ " | sha256sum --check --status";
     "install -o " +:+ shellQuote (stringDesired node "owner") +:+ " -g " +:+ shellQuote (stringDesired node "group") +:+ " -m " +:+ shellQuote (stringDesired node "mode") +:+ " " +:+ shellQuote tmp +:+ " " +:+ shellQuote path;
     "rm -f -- " +:+ shellQuote tmp].

Definition archive_script (node : Node) (path cachePath : string) : list string :=
  let stripComponents := strip_components node in
  ["set -eu";
     "if ! command -v tar >/dev/null 2>&1; then";
     "  export DEBIAN_FRONTEND=noninteractive";
     "  apt-get update";
     "  apt-get install -y tar gzip";
     "fi";
     "parent=$(dirname " +:+ shellQuote path +:+ ")";
     "base=$(basename " +:+ shellQuote path +:+ ")";
     sh "mkdir -p `$parent`"]
  ++ componentWorkspaceSetup node (filepath_Dir path)
  ++ ["archive_destination=" +:+ shellQuote path;
     sh "tmp=`$parent/.${base}.dbf-new`";
     sh "old=`$parent/.${base}.dbf-old`";
     "archive_old_moved=0";
     "archive_committed=0";
     "component_workspace_rollback() {";
     sh "  if [ `$archive_committed` -eq 0 ]; then";
     sh "    rm -rf -- `$tmp` || true";
     sh "    if [ `$archive_old_moved` -eq 1 ] && [ -e `$old` ]; then";
     sh "      rm -rf -- `$archive_destination` || true";
     sh "      mv -- `$old` `$archive_destination` || true";
     "    else";
     sh "      rm -rf -- `$old` || true";
     "    fi";
     "  fi";
     "}";
     sh "rm -rf -- `$tmp` `$old`";
     sh "staging=`$work/staging`";
     sh "mkdir -p `$staging`";
     "tar --no-same-owner -xzf " +:+ shellQuote cachePath +:+ sh " -C `$staging` --strip-components " +:+ shellQuote stripComponents;
     "chown -R " +:+ shellQuote (stringDesired node "owner" +:+ ":" +:+ stringDesired node "group") +:+ sh " `$staging`";
     "chmod " +:+ shellQuote (stringDesired node "mode") +:+ sh " `$staging`";
     sh "mv -- `$staging` `$tmp`";
     sh "if [ -e `$archive_destination` ]; then";
     sh "  mv -- `$archive_destination` `$old`";
     "  archive_old_moved=1";
     "fi";
     sh "mv -- `$tmp` `$archive_destination`";
     "archive_committed=1";
     sh "rm -rf -- `$old`";
     "archive_old_moved=0"].

(** ** Compose projects *)

(** [dockerComposeContainer] *)
Record dockerComposeContainer := { dc_Service : string; dc_State : string; dc_Name : string }.

(** The first of the two keys that holds a string. *)
Definition either_key (item : gomap) (key key' : string) : string :=
  match item !! key with
  | Some (GStr s) => s
  | _ => match item !! key' with Some (GStr s) => s | _ => "" end
  end.
Definition dockerComposePSContainer (item : gomap) : dockerComposeContainer :=
  {| dc_Service := either_key item "Service" "service"; dc_State := either_key item "State" "state";
     dc_Name := either_key item "Name" "name" |}.

(** A JSON value as a [map[string]any], and as a slice of them. *)
Definition json_map (v : goval) : option gomap := match v with GMap m => Some m | GNil => Some ∅ | _ => None end.
Definition json_maps (v : goval) : option (list gomap) :=
  match v with GList l => mapM json_map l | GNil => Some [] | _ => None end.

(** Compose prints an array, or an object per line. *)
Definition dockerComposePSContainers (Unmarshal : string -> option goval) (stdout : string) : list dockerComposeContainer :=
  let text := strings_TrimSpace stdout in
  let containers items := filter (fun c => dc_State c <> "") (dockerComposePSContainer <$> items) in
  if decide (text = "" \/ text = "[]") then []
  else match Unmarshal text ≫= json_maps with
  | Some items => containers items
  | None =>
      containers (omap (fun l =>
        let l := strings_TrimSpace l in
        if decide (l = "" \/ l = "[]") then None else Unmarshal l ≫= json_map) (strings_Split text newline))
  end.

Definition dedupeStringValues (values : list string) : list string :=
  sort_strings (dedup (filter (fun v => v <> "") values)).
Definition dockerComposeConfigServices (stdout : string) : list string :=
  dedupeStringValues (strings_TrimSpace <$> strings_Split stdout newline).
Definition dockerComposeOrphanServices (actual expected : list string) : list string :=
  if decide (actual = [] \/ expected = []) then [] else filter (fun s => s ∉ expected) (dedupeStringValues actual).

Definition dockerComposeProjectObservedState (total running : nat) : string :=
  if decide (total = 0) then "absent" else if decide (running = total) then "running"
  else if decide (running = 0) then "stopped" else "degraded".

(** [strings.EqualFold] with a lower-case word whose letters fold to nothing else. *)
Definition is_running (c : dockerComposeContainer) : bool := bool_decide (strings_ToLower (dc_State c) = "running").

Definition summarizeDockerComposePS (Unmarshal : string -> option goval) (stdout : string) (expectedServices : list string) : gomap :=
  let containers := dockerComposePSContainers Unmarshal stdout in
  let total := length containers in
  let running := length (filter (fun c => is_running c = true) containers) in
  let expected := dedupeStringValues expectedServices in
  let actual := dedupeStringValues (dc_Service <$> containers) in
  let orphans := dockerComposeOrphanServices actual expected in
  {["exists" := GBool (bool_decide (0 < total)); "state" := GStr (dockerComposeProjectObservedState total running);
    "services" := GMap {["total" := GInt (Z.of_nat total); "running" := GInt (Z.of_nat running); "stopped" := GInt (Z.of_nat (total - running));
                         "expected" := strings_value expected; "actual" := strings_value actual]};
    "containers" := GMap {["total" := GInt (Z.of_nat total)]};
    "orphan_count" := GInt (Z.of_nat (length orphans)); "orphan_services" := strings_value orphans]}.

Definition pluralize (count : Z) (singular : string) : string :=
  if decide (count = 1%Z) then "1 " +:+ singular else pretty count +:+ " " +:+ singular +:+ "s".
Definition dockerComposeDriftSummary (project want actual : string) (orphanCount : Z) : string :=
  "converge docker compose project " +:+ project +:+ " from " +:+ actual +:+ " to " +:+ want
  +:+ (if decide (0 < orphanCount)%Z then " and inspect " +:+ pluralize orphanCount "orphan service" else "").
Definition dockerComposeOrphanSummary (project : string) (orphanCount : Z) (removeOrphans : bool) : string :=
  if removeOrphans then "remove " +:+ pluralize orphanCount "orphan service" +:+ " from docker compose project " +:+ project
  else "docker compose project " +:+ project +:+ " has " +:+ pluralize orphanCount "orphan service"
       +:+ "; set remove_orphans = true to clean them".

Definition compose_plan (node : Node) (prior : option Resource) (observed : gomap) : ProviderPlan :=
  let want := stringDesired node "state" in
  let actual := match observed !! "state" with Some (GStr s) => s | _ => "" end in
  let project := stringDesired node "project" in
  let orphanCount := intMapValue observed "orphan_count" in
  let update summary := plan_of ActionUpdate summary observed prior in
  if decide (want = "absent") then
    if decide (actual = "absent") then absentInSyncPlan prior ("already absent docker compose project " +:+ project) observed
    else plan_of ActionDelete ("remove docker compose project " +:+ project) observed prior
  else if negb (bool_decide (actual = want)) then update (dockerComposeDriftSummary project want actual orphanCount)
  else if decide (0 < orphanCount)%Z
  then update (dockerComposeOrphanSummary project orphanCount (boolDesired node "remove_orphans"))
  else
    let in_sync := inSyncPlan node prior ("no changes for docker compose project " +:+ project) observed in
    match prior with
    | Some p =>
        if decide (r_DesiredDigest p <> "" /\ r_DesiredDigest p <> DesiredDigest (n_Desired node)) then
          let observed := <["desired_digest" := GStr (r_DesiredDigest p)]> observed in
          let oldProject := stringMapValue (r_Desired p) "project" in
          if decide (oldProject <> "" /\ oldProject <> project)
          then plan_of ActionUpdate ("replace docker compose project " +:+ oldProject +:+ " with " +:+ project) observed prior
          else plan_of ActionUpdate ("update docker compose project " +:+ project) observed prior
        else in_sync
    | None => in_sync
    end.

Definition compose_args (project : string) (files : list string) : list string :=
  ["docker"; "compose"; "-p"; project] ++ (files ≫= fun file => ["-f"; file]).
Definition dockerComposeBaseArgs (node : Node) : list string :=
  compose_args (stringDesired node "project") (stringListDesired node "files").
Definition dockerComposeProjectServicesCommand (node : Node) : string :=
  command_line (dockerComposeBaseArgs node ++ ["config"; "--services"]) +:+ " 2>/dev/null || true" +:+ nl.
Definition dockerComposeProjectPSCommand (node : Node) : string :=
  command_line (dockerComposeBaseArgs node ++ ["ps"; "--all"; "--format"; "json"]) +:+ " 2>/dev/null || true" +:+ nl.
Definition dockerComposePullArgs (value : string) : list string :=
  ["--pull"; if decide (value = "never" \/ value = "always") then value else "missing"].
Definition dockerComposeRecreateArgs (value : string) : list string :=
  if decide (value = "always") then ["--force-recreate"] else if decide (value = "never") then ["--no-recreate"] else [].

(** The arguments after those of the project. *)
Definition compose_state_args (node : Node) : option (list string) :=
  let state := stringDesired node "state" in
  let orphans := if boolDesired node "remove_orphans" then ["--remove-orphans"] else [] in
  if decide (state = "running")
  then Some (["up"; "-d"] ++ dockerComposePullArgs (stringDesired node "pull")
             ++ dockerComposeRecreateArgs (stringDesired node "recreate") ++ orphans)
  else if decide (state = "stopped") then Some ["stop"]
  else if decide (state = "absent") then Some ("down" :: orphans)
  else None.
Definition dockerComposeProjectCommand (node : Node) : result engine_error string :=
  args ← of_option (NodeFailed (n_Address node) ("unsupported docker compose state " +:+ strconv_Quote (stringDesired node "state")))
           (compose_state_args node);
  Ok (command_line (dockerComposeBaseArgs node ++ args) +:+ nl).
Definition dockerComposeProjectCommandForProject (node : Node) (project : string) (command : list string) : string :=
  command_line (compose_args project (stringListDesired node "files") ++ command) +:+ nl.
Definition dockerComposePriorProject (step : Step) : string :=
  from_option (fun p => stringMapValue (r_Desired p) "project") "" (s_Prior step).

(** ** On the host *)

Section apps.
Context {W : Type} `{Runner W}.
Variable Unmarshal : string -> option goval.
Abbreviation E := (M engine_error W).

(** A plan that decides on what is at a path. *)
Definition plan_at (field : string) (decide_on : Node -> option Resource -> pathState -> result engine_error ProviderPlan)
    (node : Node) (prior : option Resource) : E ProviderPlan :=
  current ← readPath (n_Host node) (stringDesired node field); lift (decide_on node prior current).
Definition pure_plan (f : Node -> option Resource -> pathState -> ProviderPlan) node prior current : result engine_error ProviderPlan :=
  Ok (f node prior current).

Definition planComponentDownload : Node -> option Resource -> E ProviderPlan := plan_at "path" download_plan.
Definition planComponentBuild : Node -> option Resource -> E ProviderPlan := plan_at "output_path" build_plan.
Definition planComponentBinary : Node -> option Resource -> E ProviderPlan := plan_at "path" (pure_plan binary_plan).
Definition planComponentFile : Node -> option Resource -> E ProviderPlan := plan_at "path" component_file_plan.
Definition planComponentArchive : Node -> option Resource -> E ProviderPlan := plan_at "path" (pure_plan archive_plan).
Definition planComponentScriptOutput : Node -> option Resource -> E ProviderPlan := plan_at "path" (pure_plan script_output_plan).

(** A script, then what is at the path. *)
Definition installed_at (node : Node) (lines : list string) (path : string) : E gomap :=
  _ ← run_ (n_Host node) (script_text lines);
  current ← readPath (n_Host node) path;
  mret (with_digest node (path_observed current)).

Definition failed {A} (step : Step) (message : string) : E A := lift (Err (NodeFailed (s_Address step) message)).

Definition applyComponentDownload (step : Step) : E gomap :=
  let node := s_Node step in
  let path := stringDesired node "path" in
  let url := stringDesired node "url" in
  let sha := lower (stringDesired node "sha256") in
  let download := run_ (n_Host node) (script_text (download_script node url sha path)) in
  if removes step then _ ← removePath (n_Host node) path false; mret gone
  else if decide (url = "" \/ sha = "") then failed step "component download requires url and sha256"
  else _ ← (if boolDesired node "sensitive" then redactPayloadError download else download); mret (applied node).

Definition applyComponentBuild (step : Step) : E gomap :=
  let node := s_Node step in
  let outputPath := stringDesired node "output_path" in
  if removes step then _ ← removePath (n_Host node) outputPath false; mret gone
  else if decide (outputPath = "") then failed step "component build requires output_path"
  else lines ← lift (componentBuildScript node); installed_at node lines outputPath.

Definition applyComponentBinary (step : Step) : E gomap :=
  let node := s_Node step in
  let path := stringDesired node "path" in
  let cachePath := stringDesired node "cache_path" in
  let format := stringDesired node "extract_format" in
  if removes step then _ ← removePath (n_Host node) path false; mret gone
  else if decide (cachePath = "") then failed step "component binary requires cache_path"
  else if negb (bool_decide (format ∈ [""; "zip"; "tar.gz"; "tar.xz"; "bz2"; "gz"]))
  then failed step ("unsupported component binary extract format " +:+ strconv_Quote format)
  else
    installed_at node
      (["set -eu"; mkdir_parent_line path]
       ++ (if decide (format = "") then [install_line node (shellQuote cachePath) path] else componentBinaryExtractInstallScript node))
      path.

Definition applyComponentFile (step : Step) : E gomap :=
  let node := s_Node step in
  let path := stringDesired node "path" in
  let cachePath := stringDesired node "cache_path" in
  if removes step then _ ← removePath (n_Host node) path false; mret gone
  else if decide (cachePath = "") then failed step "component file requires cache_path"
  else installed_at node ["set -eu"; mkdir_parent_line path; install_line node (shellQuote cachePath) path] path.

Definition applyComponentArchive (step : Step) : E gomap :=
  let node := s_Node step in
  let path := stringDesired node "path" in
  let cachePath := stringDesired node "cache_path" in
  let format := stringDesired node "extract_format" in
  if decide (path = "" \/ path = "/") then failed step ("refuses to manage unsafe archive path " +:+ strconv_Quote path)
  else if removes step then _ ← removeDirectory (n_Host node) path; mret gone
  else if decide (cachePath = "") then failed step "component archive requires cache_path"
  else if negb (bool_decide (format = "tar.gz"))
  then failed step ("unsupported component archive extract format " +:+ strconv_Quote format)
  else installed_at node (archive_script node path cachePath) path.

(** The script itself runs as an operation. *)
Definition applyComponentScriptOutput (step : Step) : E gomap :=
  mret (<["pending_script" := GBool true]> (<["path" := GStr (stringDesired (s_Node step) "path")]> (s_Observed step))).

Definition readDockerComposeProject (node : Node) : E gomap :=
  services ← run (n_Host node) (dockerComposeProjectServicesCommand node);
  ps ← run (n_Host node) (dockerComposeProjectPSCommand node);
  mret (summarizeDockerComposePS Unmarshal (res_Stdout ps) (dockerComposeConfigServices (res_Stdout services))).

Definition planDockerComposeProject (node : Node) (prior : option Resource) : E ProviderPlan :=
  observed ← readDockerComposeProject node; mret (compose_plan node prior observed).

(** A project that was renamed is taken down first. *)
Definition applyDockerComposeProject (step : Step) : E gomap :=
  let node := s_Node step in
  let oldProject := dockerComposePriorProject step in
  _ ← (if decide (oldProject <> "" /\ oldProject <> stringDesired node "project")
       then run_ (n_Host node) (dockerComposeProjectCommandForProject node oldProject ["down"]) else mret tt);
  command ← lift (dockerComposeProjectCommand node);
  _ ← run_ (n_Host node) command;
  observed ← readDockerComposeProject node;
  mret (with_digest node observed).
End apps.
