(* ===== verification/Native.v ===== *)
(** * The provider of remote hosts: [provider.go], [provider_operations.go], [provider_networkd_preflight.go], [bulk_plan.go]

    The plan, the change and the removal of a resource by its kind, the run of
    an operation, the check of a host before anything is planned, and the plan
    of a whole host from one script.  Any [Runner] makes a [Provider]. *)
From S2P Require Import Prelude Sha256 GoValue GoStrings IR HostIR State Moves Graph Schedule Engine Execute Document.
From S2P Require Import Remote Base64 NativeFiles NativeHost NativeApps.

(** A [switch] on a string, each case with its labels. *)
Fixpoint switch {A} (cases : list (list string * A)) (default : A) (k : string) : A :=
  match cases with
  | [] => default
  | (labels, a) :: cases => if existsb (String.eqb k) labels then a else switch cases default k
  end.

Definition unsupported_kind (address kind : string) : engine_error :=
  NodeFailed address ("unsupported resource kind " +:+ strconv_Quote kind).

(** ** Scripts of operations *)

Definition firstString (values : list string) : string := default "" (head values).

Definition scriptEnvironmentPrefix (payload : ScriptPayload) : string :=
  let assign (p : string * string) := p.1 +:+ "=" +:+ shellQuote p.2 in
  strings_Join
    (assign <$>
     [("DBF_SCRIPT_NAME", sp_Name payload);
      ("DBF_COMPONENT_NAME", sp_ComponentName payload);
      ("DBF_TRIGGER_ADDRESS", firstString (sp_TriggerAddresses payload));
      ("DBF_TRIGGER_PATH", firstString (sp_TriggerPaths payload));
      ("DBF_TRIGGER_ADDRESSES", strings_Join (sp_TriggerAddresses payload) nl);
      ("DBF_TRIGGER_PATHS", strings_Join (sp_TriggerPaths payload) nl)]) " " +:+ " ".

Definition check_argument (fail : string -> engine_error) (i j : nat) (arg : string) : result engine_error unit :=
  guard_or (bool_decide (arg <> ""))
    (fail ("script payload command[" +:+ pretty i +:+ "][" +:+ pretty j +:+ "] must be non-empty")).
Definition check_command (fail : string -> engine_error) (i : nat) (command : list string) : result engine_error string :=
  _ ← guard_or (negb (bool_decide (command = [])))
        (fail ("script payload command[" +:+ pretty i +:+ "] must contain at least one argument"));
  _ ← mapi_res (check_argument fail i) 0 command;
  Ok (command_line command).
Definition scriptPayloadCommands (address : string) (commands : list (list string)) : result engine_error string :=
  let fail := NodeFailed address in
  _ ← guard_or (negb (bool_decide (commands = []))) (fail "script payload commands must contain at least one command");
  lines ← mapi_res (check_command fail) 0 commands;
  Ok (script_text lines).

Definition scriptPayloadContent (address : string) (payload : ScriptPayload) : result engine_error string :=
  let kind := sp_Kind payload in
  if decide (kind = "run") then Ok (sp_Run payload +:+ nl)
  else if decide (kind = "content") then Ok (sp_Content payload)
  else if decide (kind = "commands") then scriptPayloadCommands address (sp_Commands payload)
  else Err (NodeFailed address "script payload kind must be run, content, or commands").

(** ** The check before planning *)

Definition netplanOwnershipScript : string := raw_script
  ["set -eu";
   "export LC_ALL=C";
   "for path in \";
   "  /lib/netplan/*.yaml \";
   "  /etc/netplan/*.yaml \";
   "  /run/netplan/*.yaml \";
   "  /run/systemd/network/*netplan* \";
   "  /run/NetworkManager/system-connections/netplan-*; do";
   "  [ -f `$path` ] || continue";
   "  printf '%s\n' `$path`";
   "done"].

(** [path.Clean] of slash-separated paths is [filepath.Clean] of the hosts. *)
Definition pathWithinDirectory (candidate directory : string) : bool :=
  let candidate := filepath_Clean candidate in
  let directory := filepath_Clean directory in
  negb (bool_decide (candidate = directory)) && strings_HasPrefix candidate (directory +:+ "/").

Definition networkd_affected (node : Node) : bool :=
  if decide (n_Kind node = "file") then pathWithinDirectory (stringDesired node "path") "/etc/systemd/network"
  else bool_decide (n_Kind node = "networkd_netdev" \/ n_Kind node = "networkd_network").
Definition nativeNetworkdDeclarations (nodes : list Node) : list string :=
  sort_strings (n_Address <$> filter (fun node => networkd_affected node = true) nodes).

Definition netplan_error (host : string) (ownership declarations : list string) : engine_error :=
  NodeFailed ("host " +:+ strconv_Quote host)
    ("has active Netplan ownership (" +:+ strings_Join ownership ", "
     +:+ "); affected native systemd-networkd declarations: " +:+ strings_Join declarations ", "
     +:+ "; no provider changes were made; prepare a native-networkd target outside DebianForm").

(** ** One script for the plans of a host *)

Definition bulkPlanPrefix : string := "DBF_BULK".

Definition bulkReadPathScript (path : string) : string := if decide (path = "") then ":" +:+ nl else readPath_script path.
Definition bulkReadPathWithContentScript (path : string) : string :=
  if decide (path = "") then ":" +:+ nl else readPathWithContent_script path.
Definition bulkInstalledPackagesScript (packages : list string) : string :=
  if decide (packages = []) then ":" +:+ nl else installedPackages_script packages.

Definition bulkAuthorizedKeyScript (node : Node) : result engine_error string :=
  key ← of_option (NodeFailed (n_Address node) key_error) (splitAuthorizedKey (stringDesired node "key"));
  Ok (planAuthorizedKey_script (n_Desired node) key).

(** What the plan of a node reads. *)
Definition bulkPlanNodeScripts (node : Node) : result engine_error (list string) :=
  let desired := stringDesired node in
  switch
    [(["system_hostname"], Ok [systemHostnameReadScript]);
     (["system_timezone"], Ok [systemTimezoneReadScript (desired "timezone")]);
     (["system_locale"], Ok [systemLocaleReadScript (desired "locale")]);
     (["file"; "secret"; "systemd_unit"; "nftables_file"; "networkd_netdev"; "networkd_network"],
      Ok [bulkReadPathScript (desired "path")]);
     (["apt_source_file"], Ok [bulkReadPathWithContentScript (desired "path")]);
     (["apt_signing_key"; "component_download"; "component_binary"; "component_file"; "component_ca_certificate";
       "component_script_output"; "directory"], Ok [bulkReadPathScript (desired "path")]);
     (["component_build"], Ok [bulkReadPathScript (desired "output_path")]);
     (["component_archive"], Ok [bulkReadPathScript (desired "path")]);
     (["package"], Ok [packageInstallStateScript (desired "name")]);
     (["docker_package_conflicts"], Ok [bulkInstalledPackagesScript (stringListDesired node "packages")]);
     (["kernel_module"], Ok [planKernelModule_script (desired "name")]);
     (["sysctl"], Ok [planSysctl_script (desired "key")]);
     (["group"], Ok [planGroup_script (desired "name")]);
     (["user"], Ok [readUser_script (desired "name")]);
     (["user_group_membership"], Ok [readUser_script (desired "user")]);
     (["ssh_authorized_key"], script ← bulkAuthorizedKeyScript node; Ok [script]);
     (["service"], Ok [planService_script (desired "unit")]);
     (["docker_compose_project"], Ok [dockerComposeProjectServicesCommand node; dockerComposeProjectPSCommand node])]
    (Err (unsupported_kind (n_Address node) (n_Kind node))) (n_Kind node).

Definition bulk_preamble : list string :=
  ["set -u";
   "dbf_emit_script() {";
   "  dbf_idx=$1";
   "  dbf_call=$2";
   "  dbf_out=$(mktemp)";
   "  dbf_err=$(mktemp)";
   sh "  if sh -s >`$dbf_out` 2>`$dbf_err`; then";
   "    printf '" +:+ bulkPlanPrefix +:+ sh "\t%s\t%s\tOK\t' `$dbf_idx` `$dbf_call`";
   sh "    base64 < `$dbf_out` | tr -d '\n'";
   "    printf '\n'";
   "  else";
   "    dbf_status=$?";
   sh "    cat `$dbf_err` >&2";
   sh "    rm -f -- `$dbf_out` `$dbf_err`";
   sh "    exit `$dbf_status`";
   "  fi";
   sh "  rm -f -- `$dbf_out` `$dbf_err`";
   "}"].

Definition bulk_command (i call : nat) : string := "dbf_emit_script " +:+ pretty i +:+ " " +:+ pretty call +:+ " <<'".
Definition bulk_delimiter (i call : nat) : string := "__DBF_BULK_" +:+ pretty i +:+ "_" +:+ pretty call +:+ "__".
Definition bulk_document (i call : nat) (script : string) : string :=
  bulk_command i call +:+ bulk_delimiter i call +:+ "'" +:+ nl +:+ strings_TrimRight_newlines script +:+ nl
  +:+ bulk_delimiter i call +:+ nl.
Definition bulk_node (i : nat) (node : Node) : result engine_error string :=
  scripts ← bulkPlanNodeScripts node; Ok (strings_Join (imap (bulk_document i) scripts) "").
Definition bulkPlanScript (nodes : list Node) : result engine_error string :=
  documents ← mapi_res bulk_node 0 nodes; Ok (script_text bulk_preamble +:+ strings_Join documents "").

(** [strings.SplitN] by a single byte. *)
Fixpoint strings_SplitN (s : string) (c : ascii) (n : nat) : list string :=
  match n with
  | 0 => []
  | 1 => [s]
  | S n => match strings_Cut s c with Some (a, b) => a :: strings_SplitN b c n | None => [s] end
  end.

(** An output that is not understood; with a negative number of a call, Go
    indexes out of range and panics. *)
Inductive bulk_failure := InvalidOutput (message : string) | IndexOutOfRange.
Definition no_result : Result := {| res_Stdout := ""; res_Stderr := "" |}.

Definition put_result (idx call : Z) (stdout : string) (out : gmap Z (list Result)) : result bulk_failure (gmap Z (list Result)) :=
  let results := default [] (out !! idx) in
  let results := results ++ replicate (Z.to_nat (call + 1) - length results) no_result in
  if decide (call < 0)%Z then Err IndexOutOfRange
  else Ok (<[idx := <[Z.to_nat call := {| res_Stdout := stdout; res_Stderr := "" |}]> results]> out).
Definition parse_record (out : gmap Z (list Result)) (line : string) : result bulk_failure (gmap Z (list Result)) :=
  match strings_SplitN line tab 5 with
  | [prefix; idx; call; status; data] =>
      _ ← guard_or (bool_decide (prefix = bulkPlanPrefix)) (InvalidOutput "invalid bulk inspect output");
      idx ← of_option (InvalidOutput ("invalid bulk inspect index " +:+ strconv_Quote idx)) (strconv_Atoi idx);
      call ← of_option (InvalidOutput ("invalid bulk inspect call " +:+ strconv_Quote call)) (strconv_Atoi call);
      _ ← guard_or (bool_decide (status = "OK")) (InvalidOutput "bulk inspect call failed");
      data ← of_option (InvalidOutput "illegal base64 data") (base64_decode data);
      put_result idx call data out
  | _ => Err (InvalidOutput "invalid bulk inspect output")
  end.
Definition bulk_lines (output : string) : list string :=
  filter (fun line => strings_TrimSpace line <> "") (strings_Split output newline).
Definition parseBulkPlanOutput (output : string) : result bulk_failure (gmap Z (list Result)) :=
  out ← fold_res parse_record (bulk_lines output) ∅;
  _ ← guard_or (negb (bool_decide (bulk_lines output = []))) (InvalidOutput "empty bulk inspect output");
  Ok out.

(** [bulkPlanRunner]: the results that were read, and the place of the next. *)
Record bulkPlanRunner := { br_outputs : list Result; br_pos : nat }.
Definition bulk_Run (host script : string) : M engine_error bulkPlanRunner Result := fun r =>
  match br_outputs r !! br_pos r with
  | Some result => (Ok result, {| br_outputs := br_outputs r; br_pos := S (br_pos r) |})
  | None => (Err (NodeFailed "" "bulk inspect has no result for script"), r)
  end.
#[export] Instance bulk_runner : Runner bulkPlanRunner :=
  {| runner_Run := bulk_Run;
     runner_RunInput := fun _ _ _ => lift (Err (NodeFailed "" "bulk inspect does not support RunInput"));
     runner_RunCommand := bulk_Run |}.

Section native.
Context {W : Type} `{Runner W}.
(** [os.ReadFile] on the machine that runs the program, and the decoder of JSON
    texts. *)
Variable ReadFile : string -> option string.
Variable Unmarshal : string -> option goval.
Abbreviation E := (M engine_error W).

(** ** Resources by kind *)

(** [NativeProvider.Plan] *)
Definition native_Plan (node : Node) : option Resource -> E ProviderPlan :=
  switch
    [(["system_hostname"], planSystemHostname node);
     (["system_timezone"], planSystemTimezone node);
     (["system_locale"], planSystemLocale node);
     (["file"; "secret"; "systemd_unit"; "nftables_file"; "networkd_netdev"; "networkd_network"], planFileLike ReadFile node);
     (["apt_source_file"], planAPTSourceFile ReadFile node);
     (["apt_signing_key"], planAPTSigningKey node);
     (["component_download"], planComponentDownload node);
     (["component_build"], planComponentBuild node);
     (["component_binary"], planComponentBinary node);
     (["component_file"; "component_ca_certificate"], planComponentFile node);
     (["component_archive"], planComponentArchive node);
     (["component_script_output"], planComponentScriptOutput node);
     (["directory"], planDirectory node);
     (["package"], planPackage node);
     (["docker_package_conflicts"], planDockerPackageConflicts node);
     (["kernel_module"], planKernelModule node);
     (["sysctl"], planSysctl node);
     (["group"], planGroup node);
     (["user"], planUser node);
     (["user_group_membership"], planUserGroupMembership node);
     (["ssh_authorized_key"], planAuthorizedKey node);
     (["service"], planService node);
     (["docker_compose_project"], planDockerComposeProject Unmarshal node)]
    (fun _ => lift (Err (unsupported_kind (n_Address node) (n_Kind node)))) (n_Kind node).

(** [NativeProvider.Apply] *)
Definition native_Apply (step : Step) : E gomap :=
  switch
    [(["system_hostname"], applySystemHostname step);
     (["system_timezone"], applySystemTimezone step);
     (["system_locale"], applySystemLocale step);
     (["file"; "secret"; "nftables_file"; "networkd_netdev"; "networkd_network"], applyFileLike ReadFile step false);
     (["apt_source_file"], applyAPTSourceFile ReadFile step);
     (["systemd_unit"], applyFileLike ReadFile step true);
     (["apt_signing_key"], applyAPTSigningKey ReadFile step);
     (["component_download"], applyComponentDownload step);
     (["component_build"], applyComponentBuild step);
     (["component_binary"], applyComponentBinary step);
     (["component_file"; "component_ca_certificate"], applyComponentFile step);
     (["component_archive"], applyComponentArchive step);
     (["component_script_output"], applyComponentScriptOutput step);
     (["directory"], applyDirectory step);
     (["package"], applyPackage step);
     (["docker_package_conflicts"], applyDockerPackageConflicts step);
     (["kernel_module"], applyKernelModule step);
     (["sysctl"], applySysctl step);
     (["group"], applyGroup step);
     (["user"], applyUser step);
     (["user_group_membership"], applyUserGroupMembership step);
     (["ssh_authorized_key"], applyAuthorizedKey step);
     (["service"], applyService step);
     (["docker_compose_project"], applyDockerComposeProject Unmarshal step)]
    (lift (Err (unsupported_kind (s_Address step) (n_Kind (s_Node step))))) (n_Kind (s_Node step)).

(** A node made up to remove what a state records. *)
Definition bare_node (address host : string) (desired : gomap) : Node :=
  {| n_Host := host; n_Address := address; n_Kind := ""; n_Summary := ""; n_Source := no_source; n_Lifecycle := None;
     n_Desired := desired; n_ProviderType := ""; n_ProviderAddress := "";
     n_ProviderPayload := ∅; n_DependsOn := []; n_ExplicitDependsOn := []; n_DependencySources := ∅ |}.
Definition bare_step (action : string) (node : Node) : Step :=
  {| s_Address := ""; s_Host := ""; s_Action := action; s_Summary := ""; s_Node := node; s_Prior := None;
     s_Observed := ∅; s_Ownership := ""; s_Order := 0 |}.

(** [f], unless the name is empty. *)
Definition unless_empty (name : string) (f : E unit) : E unit := if decide (name = "") then mret tt else f.

Definition destroy_kind (step : Step) (p : Resource) : E unit :=
  let host := s_Host step in
  let desired := stringMapValue (r_Desired p) in
  let name := desired "name" in
  let q := shellQuote name in
  let none : E unit := mret tt in
  switch
    [(["system_hostname"; "system_timezone"; "system_locale"], none);
     (["apt_source_file"], destroyAPTSourceFile step p);
     (["component_build"], removePath host (desired "output_path") false);
     (["networkd_netdev"], destroyNetworkdNetDev step p);
     (["file"; "secret"; "nftables_file"; "networkd_network"; "apt_signing_key"; "component_download"; "component_binary";
       "component_file"; "component_ca_certificate"], removePath host (desired "path") false);
     (["component_script_output"], none);
     (["component_archive"], removeDirectory host (desired "path"));
     (["systemd_unit"], removePath host (desired "path") true);
     (["directory"], if decide (desired "path" = "" \/ desired "path" = "/") then none
                     else run_ host ("rm -rf -- " +:+ shellQuote (desired "path") +:+ nl));
     (["package"], unless_empty name
                     (run_ host (script_text ["set -eu"; "export DEBIAN_FRONTEND=noninteractive"; "apt-get remove -y " +:+ q])));
     (["docker_package_conflicts"], none);
     (["kernel_module"], unless_empty name
                           (run_ host (script_text ["set -eu"; "rm -f -- " +:+ shellQuote (modulePath name);
                                                    "modprobe -r " +:+ q +:+ " 2>/dev/null || true"])));
     (["sysctl"], unless_empty (desired "key") (removePath host (sysctlPath (desired "key")) false));
     (["group"], unless_empty name
                   (run_ host (script_text ["if getent group " +:+ q +:+ " >/dev/null; then groupdel " +:+ q +:+ "; fi"])));
     (["user"], unless_empty name
                  (run_ host (script_text ["if getent passwd " +:+ q +:+ " >/dev/null; then userdel " +:+ q +:+ "; fi"])));
     (["user_group_membership"],
      unless_empty (desired "user") (unless_empty (desired "group")
        (let node := bare_node (s_Address step) host
                       {["user" := GStr (desired "user"); "group" := GStr (desired "group"); "ensure" := GStr "absent"]} in
         _ ← applyUserGroupMembership (bare_step ActionDelete node); mret tt)));
     (["ssh_authorized_key"],
      unless_empty (desired "user") (unless_empty (desired "key")
        (let node := bare_node "" host
                       {["user" := GStr (desired "user"); "key" := GStr (desired "key"); "ensure" := GStr "absent"]} in
         _ ← applyAuthorizedKey (bare_step "" node); mret tt)));
     (["service"], unless_empty name (run_ host (script_text ["systemctl disable --now " +:+ q +:+ " 2>/dev/null || true"])));
     (["docker_compose_project"],
      command ← lift (dockerComposeProjectCommand
                        (bare_node (s_Address step) host (<["state" := GStr "absent"]> (r_Desired p))));
      run_ host command)]
    (lift (Err (NodeFailed (s_Address step) ("unsupported prior kind " +:+ strconv_Quote (r_Kind p))))) (r_Kind p).

(** [NativeProvider.Destroy] *)
Definition native_Destroy (step : Step) : E unit :=
  match s_Prior step with
  | None => mret tt
  | Some p =>
      if decide (s_Host step = "") then lift (Err (NodeFailed (s_Address step) "is missing its target host"))
      else destroy_kind step p
  end.

(** ** Operations *)

Definition read_output (host : string) (out : gmap string gomap) (output : ScriptOutputPayload) : E (gmap string gomap) :=
  current ← readPath host (so_Path output);
  if negb (ps_Exists current) || ps_IsDir current || bool_decide (ps_SHA256 current = "")
  then lift (Err (NodeFailed ("script output " +:+ so_Path output) "was not created as a regular file"))
  else mret (<[so_Address output := <["path" := GStr (so_Path output)]> (path_observed current)]> out).
Definition readScriptOutputs (host : string) (outputs : list ScriptOutputPayload) : E (gmap string gomap) :=
  fold_M (read_output host) outputs ∅.

Definition missing_target (operation : Operation) : engine_error :=
  NodeFailed ("operation " +:+ op_Address operation) "is missing its target host".

Definition runScriptOperation (operation : Operation) (payload : ScriptPayload) : E OperationResult :=
  let host := op_Host operation in
  let fail := NodeFailed (op_Address operation) in
  let interpreter := sp_Interpreter payload in
  if decide (host = "") then lift (Err (missing_target operation))
  else
    _ ← lift (guard_or (negb (bool_decide (interpreter = []))) (fail "script payload requires interpreter"));
    _ ← lift (mapi_res (fun i arg => guard_or (bool_decide (arg <> ""))
                                       (fail ("script payload interpreter[" +:+ pretty i +:+ "] must be non-empty"))) 0 interpreter);
    script ← lift (scriptPayloadContent (op_Address operation) payload);
    _ ← runner_RunInput host (scriptEnvironmentPrefix payload +:+ command_line interpreter) script;
    outputs ← readScriptOutputs host (sp_Outputs payload);
    mret {| or_Outputs := outputs |}.

Definition redact_if {A} (sensitive : bool) (m : E A) : E A := if sensitive then redactPayloadError m else m.

(** [NativeProvider.RunOperation] *)
Definition native_RunOperation (operation : Operation) : E OperationResult :=
  let no_outputs : OperationResult := {| or_Outputs := ∅ |} in
  match op_ScriptPayload operation with
  | Some payload => redact_if (op_Sensitive operation) (runScriptOperation operation payload)
  | None =>
      if decide (op_CommandPreview operation = "") then mret no_outputs
      else if decide (op_Host operation = "") then lift (Err (missing_target operation))
      else redact_if (op_Sensitive operation)
             (_ ← runner_RunCommand (op_Host operation) (op_CommandPreview operation); mret no_outputs)
  end.

(** [NativeProvider.PreflightHost] *)
Definition native_PreflightHost (host : HostSpec) (nodes : list Node) : E unit :=
  let declarations := nativeNetworkdDeclarations nodes in
  if decide (Distribution (System (h_Facts host)) <> "ubuntu" \/ declarations = []) then mret tt
  else
    r ← wrap_err ("preflight native systemd-networkd ownership for host " +:+ strconv_Quote (h_Name host))
          (run (h_Name host) netplanOwnershipScript);
    match nonEmptyLines (res_Stdout r) with
    | [] => mret tt
    | ownership => lift (Err (netplan_error (h_Name host) (sort_strings ownership) declarations))
    end.

Definition plan_into (plan : Node -> option Resource -> E ProviderPlan) (priors : gmap string (option Resource))
    (plans : gmap string ProviderPlan) (node : Node) : E (gmap string ProviderPlan) :=
  plan ← plan node (default None (priors !! n_Address node)); mret (<[n_Address node := plan]> plans).
Definition planHostLegacy (nodes : list Node) (priors : gmap string (option Resource)) : E (gmap string ProviderPlan) :=
  fold_M (plan_into native_Plan priors) nodes ∅.
End native.

(** ** The plans of a host from one script *)

Section bulk.
Context {W : Type} `{Runner W}.
Variable ReadFile : string -> option string.
Variable Unmarshal : string -> option goval.
Abbreviation E := (M engine_error W).

(** The plan of a node from the results of its scripts, all of which are used. *)
Definition replay (outputs : gmap Z (list Result)) (i : nat) (node : Node) (prior : option Resource) : result engine_error ProviderPlan :=
  let '(plan, r) := native_Plan ReadFile Unmarshal node prior {| br_outputs := default [] (outputs !! Z.of_nat i); br_pos := 0 |} in
  plan ← plan;
  _ ← guard_or (bool_decide (br_pos r = length (br_outputs r)))
        (NodeFailed (n_Address node)
           ("bulk inspect returned " +:+ pretty (length (br_outputs r) - br_pos r) +:+ " unused result(s)"));
  Ok plan.
Definition replay_all (outputs : gmap Z (list Result)) (priors : gmap string (option Resource)) (nodes : list Node)
  : result engine_error (gmap string ProviderPlan) :=
  plans ← mapi_res (fun i node => plan ← replay outputs i node (default None (priors !! n_Address node));
                                   Ok (n_Address node, plan)) 0 nodes;
  Ok (fold_left (fun plans p => <[p.1 := p.2]> plans) plans ∅).

(** [NativeProvider.PlanHost] *)
Definition PlanHost (host : HostSpec) (nodes : list Node) (priors : gmap string (option Resource)) : E (gmap string ProviderPlan) :=
  if decide (nodes = []) then mret ∅
  else
    script ← lift (bulkPlanScript nodes);
    r ← wrap_err ("bulk inspect host " +:+ h_Name host) (run (h_Name host) script);
    match parseBulkPlanOutput (res_Stdout r) with
    | Err (InvalidOutput _) => planHostLegacy ReadFile Unmarshal nodes priors
    | Err IndexOutOfRange => lift (Err (NodeFailed "panic" "index out of range"))
    | Ok outputs => lift (replay_all outputs priors nodes)
    end.

#[export] Instance native_provider : Provider W :=
  {| provider_Plan := native_Plan ReadFile Unmarshal;
     provider_Apply := fun step => observed ← native_Apply ReadFile Unmarshal step; mret (Some observed);
     provider_Destroy := native_Destroy;
     provider_RunOperation := native_RunOperation;
     provider_PlanHost := Some PlanHost;
     provider_PreflightHost := Some native_PreflightHost |}.
End bulk.
