(* ===== verification/BulkProps.v ===== *)
(** * The plans of a host from one script *)
From S2P Require Import Prelude Sha256 GoValue GoStrings IR HostIR State Moves Graph Schedule Engine Execute Document.
From S2P Require Import Remote Base64 NativeFiles NativeHost NativeApps Native.

(** ** What a plan reads *)

Section reads.
Context {W : Type} `{Runner W}.
(** The outputs of scripts, run one after the other. *)
Fixpoint run_all (host : string) (scripts : list string) : M engine_error W (list string) :=
  match scripts with
  | [] => mret []
  | script :: scripts => r ← run host script; outputs ← run_all host scripts; mret (res_Stdout r :: outputs)
  end.

Lemma run_all_one host script w outputs w' :
  run_all host [script] w = (Ok outputs, w') -> exists err, runner_Run host script w = (Ok {| res_Stdout := line outputs 0; res_Stderr := err |}, w').
Proof.
  cbn. unfold mbind, M_bind, run. destruct (runner_Run host script w) as [[[out err]|e] w1]; [|done]. intros [= <- <-]. by exists err.
Qed.
End reads.

Lemma switch_cases {A} (cases : list (list string * A)) (d : A) k :
  (exists labels a, (labels, a) ∈ cases /\ k ∈ labels /\ switch cases d k = a) \/ switch cases d k = d.
Proof.
  induction cases as [|[labels a] cases IH]; [by right|]. cbn [switch]. destruct (existsb (String.eqb k) labels) eqn:Hk.
  - left. apply existsb_exists in Hk as (l & Hl & ->%String.eqb_eq). exists labels, a. split_and!; [left|by apply list_elem_of_In|done].
  - destruct IH as [(labels' & a' & Hin & Hl & He)|IH]; [left|by right]. exists labels', a'. split_and!; [by right|done..].
Qed.

(** No plan of the node reads an empty path, and no list of packages is empty:
    the placeholder [:] is no script of its. *)
Definition reads_something (node : Node) : Prop :=
  forall scripts, bulkPlanNodeScripts node = Ok scripts -> (":" +:+ nl) ∉ scripts.

(** What a plan does is decided by the outputs of its scripts, on whatever they
    are run; or else it fails before it reads. *)
Definition reads (host : string) (scripts : list string) (plan : forall W, Runner W -> M engine_error W ProviderPlan) : Prop :=
  forall W (R : Runner W) w w1 W' (R' : Runner W') w' w1' outputs,
    run_all host scripts w = (Ok outputs, w1) -> run_all host scripts w' = (Ok outputs, w1') ->
    (exists r, plan W R w = (r, w1) /\ plan W' R' w' = (r, w1'))
    \/ exists e, plan W R w = (Err e, w) /\ plan W' R' w' = (Err e, w').

(** Runs a plan with the outputs of its one script. *)
Ltac one_script :=
  intros W R w w1 W' R' w' w1' outputs H1%run_all_one H2%run_all_one;
  destruct H1 as (err1 & H1), H2 as (err2 & H2);
  unfold mbind, M_bind, mret, M_ret, lift, run; rewrite H1, H2; left; cbn; first [eexists; split; reflexivity|case_match; eexists; split; reflexivity].
(** The plan fails. *)
Ltac no_script := intros W R w w1 W' R' w' w1' outputs _ _; right; eexists; split; reflexivity.

Section kinds.
Variable ReadFile : string -> option string.
Variable Unmarshal : string -> option goval.
Context (node : Node) (prior : option Resource).

Lemma hostname_reads : reads (n_Host node) [systemHostnameReadScript] (fun W R => planSystemHostname node prior).
Proof. unfold planSystemHostname, readSystemHostname, required. case_decide; [no_script|one_script]. Qed.

Lemma timezone_reads :
  reads (n_Host node) [systemTimezoneReadScript (stringDesired node "timezone")] (fun W R => planSystemTimezone node prior).
Proof. unfold planSystemTimezone, readSystemTimezone, required. case_decide; [no_script|one_script]. Qed.

Lemma locale_reads :
  reads (n_Host node) [systemLocaleReadScript (stringDesired node "locale")] (fun W R => planSystemLocale node prior).
Proof. unfold planSystemLocale, readSystemLocale, required. case_decide; [no_script|one_script]. Qed.

(** A plan that is decided by what is at a path. *)
Lemma path_reads (f : pathState -> result engine_error ProviderPlan) path :
  (":" +:+ nl) ∉ [bulkReadPathScript path] ->
  reads (n_Host node) [bulkReadPathScript path] (fun W R => current ← readPath (n_Host node) path; lift (f current)).
Proof. unfold bulkReadPathScript, readPath. case_decide; [by intros []; left|]. intros _. one_script. Qed.

Lemma apt_source_reads :
  let script := bulkReadPathWithContentScript (stringDesired node "path") in
  (":" +:+ nl) ∉ [script] -> reads (n_Host node) [script] (fun W R => planAPTSourceFile ReadFile node prior).
Proof.
  unfold bulkReadPathWithContentScript, planAPTSourceFile, readPathWithContent. case_decide; [by intros []; left|]. intros _.
  one_script.
Qed.

Lemma conflicts_reads :
  let script := bulkInstalledPackagesScript (stringListDesired node "packages") in
  (":" +:+ nl) ∉ [script] -> reads (n_Host node) [script] (fun W R => planDockerPackageConflicts node prior).
Proof.
  unfold bulkInstalledPackagesScript, planDockerPackageConflicts, installedPackages. case_decide; [by intros []; left|]. intros _.
  one_script.
Qed.

Lemma authorized_key_reads script :
  bulkAuthorizedKeyScript node = Ok script -> reads (n_Host node) [script] (fun W R => planAuthorizedKey node prior).
Proof.
  unfold bulkAuthorizedKeyScript, planAuthorizedKey. destruct (splitAuthorizedKey _) as [key|]; [|done].
  intros [= <-]. unfold lift, mbind, M_bind. cbn [of_option]. one_script.
Qed.

(** The services of a project, then its containers. *)
Lemma compose_reads :
  reads (n_Host node) [dockerComposeProjectServicesCommand node; dockerComposeProjectPSCommand node]
    (fun W R => planDockerComposeProject Unmarshal node prior).
Proof.
  intros W R w w1 W' R' w' w1' outputs. cbn [run_all]. unfold planDockerComposeProject, readDockerComposeProject, mbind, M_bind, run.
  destruct (runner_Run _ _ w) as [[s|e] w2]; [|done]. destruct (runner_Run _ _ w2) as [[p|e] w3] eqn:Hp; [|done]. intros [= <- <-].
  destruct (runner_Run _ _ w') as [[s'|e] w2']; [|done]. destruct (runner_Run _ _ w2') as [[p'|e] w3']; [|done]. intros [= <- <- <-].
  left. eexists. split; reflexivity.
Qed.
End kinds.

Section plan.
Variable ReadFile : string -> option string.
Variable Unmarshal : string -> option goval.

Lemma plan_reads node prior scripts :
  reads_something node -> bulkPlanNodeScripts node = Ok scripts ->
  reads (n_Host node) scripts (fun W R => native_Plan ReadFile Unmarshal node prior).
Proof.
  intros Hready Hs. assert (Hne := Hready _ Hs). unfold bulkPlanNodeScripts in Hs.
  match type of Hs with switch ?cases ?d ?k = _ =>
    destruct (switch_cases cases d k) as [(labels & a & Hin & Hk & He)|He]; rewrite He in Hs; [|done] end. clear He Hready.
  repeat (apply elem_of_cons in Hin as [[= -> ->]|Hin]; [|]); [..|by apply elem_of_nil in Hin].
  all: repeat (apply elem_of_cons in Hk as [Hk|Hk]; [|]); try by apply elem_of_nil in Hk.
  all: unfold native_Plan; rewrite Hk; cbn [switch existsb String.eqb Ascii.eqb Bool.eqb orb].
  all: try (injection Hs as <-).
  all: try (unfold planKernelModule, planSysctl, planGroup, planUser, planUserGroupMembership, planService, planPackage, package_install_state, readUser; one_script).
  all: try (first [apply path_reads|eapply (path_reads node (fun c => Ok (directory_plan node prior c)))]; exact Hne).
  all: eauto using hostname_reads, timezone_reads, locale_reads, apt_source_reads, conflicts_reads, compose_reads.
  apply bind_Ok in Hs as (script & Hk' & [= <-]). by apply authorized_key_reads.
Qed.
End plan.

(** ** The script is read by the shell of the host *)

(** The reference: here-documents, each with the words of its command. *)
Definition read_header (line : string) : option (string * string * string) :=
  if strings_HasPrefix line "dbf_emit_script " then
    '(i, rest) ← strings_Cut (strings_TrimPrefix line "dbf_emit_script ") " ";
    '(call, rest) ← strings_Cut rest " ";
    '(_, rest) ← strings_Cut rest "'";
    '(delimiter, _) ← strings_Cut rest "'";
    Some (i, call, delimiter)
  else None.
Fixpoint read_documents (opened : option (string * string * string * list string)) (lines : list string)
  : option (list (string * string * string)) :=
  match lines with
  | [] => match opened with None => Some [] | Some _ => None end
  | line :: lines =>
      match opened with
      | None =>
          if decide (line = "") then read_documents None lines
          else '(i, call, delimiter) ← read_header line; read_documents (Some (i, call, delimiter, [])) lines
      | Some (i, call, delimiter, body) =>
          if decide (line = delimiter)
          then documents ← read_documents None lines; Some ((i, call, script_text body) :: documents)
          else read_documents (Some (i, call, delimiter, body ++ [line])) lines
      end
  end.
(** The scripts that a bulk script runs, with the numbers it prints. *)
Definition read_bulk (script : string) : option (list (string * string * string)) :=
  if strings_HasPrefix script (script_text bulk_preamble)
  then read_documents None (strings_Split (strings_TrimPrefix script (script_text bulk_preamble)) newline)
  else None.

(** What it prints when the scripts print [answer]. *)
Definition bulk_record (answer : string -> string) (document : string * string * string) : string :=
  let '(i, call, script) := document in
  strings_Join [bulkPlanPrefix; i; call; "OK"; base64_encode (answer script)] (String tab "").
Definition bulk_output (answer : string -> string) (documents : list (string * string * string)) : string :=
  strings_Join ((fun d => bulk_record answer d +:+ nl) <$> documents) "".

Lemma Split_app a rest : strings_Split (a +:+ nl +:+ rest) newline = strings_Split a newline ++ strings_Split rest newline.
Proof.
  unfold strings_Split. generalize "" at 1 2 as cur. induction a as [|c a IH]; intros cur.
  - change ("" +:+ nl +:+ rest) with (String newline rest). cbn [split_go]. by rewrite decide_True.
  - rewrite str_app_cons. cbn [split_go]. case_decide; [|by apply IH]. cbn [app]. f_equal. apply IH.
Qed.

Lemma Split_single a : lacks newline a = true -> strings_Split a newline = [a].
Proof.
  unfold strings_Split. enough (He : forall cur, lacks newline a = true -> split_go newline cur a = [cur +:+ a]) by apply (He "").
  induction a as [|c a IH]; intros cur.
  - by rewrite str_app_nil_r.
  - rewrite lacks_cons, andb_true_iff, negb_true_iff, bool_decide_eq_false. intros [Hc Ha]. cbn [split_go].
    rewrite decide_False by done. rewrite IH by done. by rewrite str_app_snoc.
Qed.

Lemma Split_nonempty s c : strings_Split s c <> [].
Proof. unfold strings_Split. generalize "" as cur. induction s as [|d s IH]; intros cur; cbn [split_go]; [done|]. by case_decide. Qed.

Lemma Join_Split s : strings_Join (strings_Split s newline) nl = s.
Proof.
  unfold strings_Split. enough (He : forall cur, strings_Join (split_go newline cur s) nl = cur +:+ s) by apply (He "").
  induction s as [|c s IH]; intros cur; [by rewrite str_app_nil_r|].
  cbn [split_go]. case_decide as Hc; [|by rewrite IH, str_app_snoc]. subst. specialize (IH "").
  assert (Hn := Split_nonempty s newline). unfold strings_Split in Hn. unfold strings_Join in *.
  destruct (split_go newline "" s) as [|x l] eqn:E; [done|]. cbn [String.concat] in *. by rewrite IH.
Qed.

Lemma concat_nil_cons s l : strings_Join (s :: l) "" = s +:+ strings_Join l "".
Proof. unfold strings_Join. cbn [String.concat]. destruct l; [by rewrite str_app_nil_r|done]. Qed.

Lemma pretty_lacks c (n : nat) : in_range 48 57 (N_of_ascii c) = false -> lacks c (pretty n) = true.
Proof.
  intros Hc. destruct (pretty_digits n) as (d & _ & _ & -> & _ & Hd & _). unfold lacks. apply forallb_forall. intros x Hx%list_elem_of_In.
  unfold digit_text in Hd. rewrite Forall_forall in Hd. specialize (Hd x Hx). apply negb_true_iff, bool_decide_eq_false. intros ->. congruence.
Qed.

Definition header_line (i call : nat) : string := bulk_command i call +:+ bulk_delimiter i call +:+ "'".

Lemma delimiter_lacks c i call :
  in_range 48 57 (N_of_ascii c) = false -> lacks c "__DBF_BULK_" = true -> lacks c (bulk_delimiter i call) = true.
Proof.
  intros Hd Hc. unfold bulk_delimiter. assert (Hu : lacks c "_" = true).
  { revert Hc. change "__DBF_BULK_" with ("_" +:+ "_DBF_BULK_"). rewrite lacks_app. by intros [? _]%andb_true_iff. }
  change "__" with ("_" +:+ "_"). rewrite !lacks_app, Hc, Hu, !pretty_lacks by done. done.
Qed.

Lemma header_lacks i call : lacks newline (header_line i call) = true.
Proof.
  unfold header_line, bulk_command. rewrite !lacks_app, !pretty_lacks by done. by rewrite delimiter_lacks.
Qed.

Lemma read_header_line i call : read_header (header_line i call) = Some (pretty i, pretty call, bulk_delimiter i call).
Proof.
  unfold read_header, header_line, bulk_command. rewrite !str_app_assoc.
  rewrite HasPrefix_app, TrimPrefix_app.
  change (" " +:+ ?r) with (String " " r). rewrite Cut_lacks by by apply pretty_lacks. cbn [mbind option_bind].
  change (" <<'" +:+ ?r) with (String " " ("<<" +:+ String "'" r)). rewrite Cut_lacks by by apply pretty_lacks. cbn [mbind option_bind].
  rewrite Cut_lacks by done. cbn [mbind option_bind]. rewrite Cut_lacks by by apply delimiter_lacks. done.
Qed.

Lemma read_body i call d body lines rest :
  d ∉ lines ->
  read_documents (Some (i, call, d, body)) (lines ++ d :: rest)
  = documents ← read_documents None rest; Some ((i, call, script_text (body ++ lines)) :: documents).
Proof.
  revert body. induction lines as [|line lines IH]; intros body Hd; cbn [app read_documents].
  - by rewrite decide_True, app_nil_r.
  - rewrite decide_False by (intros ->; apply Hd; left). rewrite IH by (intros Hin; apply Hd; by right). by rewrite <- app_assoc.
Qed.

(** The document of a script, whose lines have no delimiter. *)
Definition trimmed (script : string) : string := strings_TrimRight_newlines script +:+ nl.
Definition keeps_documents (script : string) : bool :=
  forallb (fun line => negb (strings_HasPrefix line "__DBF_BULK_")) (strings_Split (strings_TrimRight_newlines script) newline).

Lemma read_document i call script rest :
  keeps_documents script = true ->
  read_documents None (strings_Split (bulk_document i call script +:+ rest) newline)
  = documents ← read_documents None (strings_Split rest newline); Some ((pretty i, pretty call, trimmed script) :: documents).
Proof.
  intros Hk. unfold bulk_document.
  replace ((bulk_command i call +:+ bulk_delimiter i call +:+ "'" +:+ nl +:+ strings_TrimRight_newlines script +:+ nl +:+ bulk_delimiter i call +:+ nl) +:+ rest)
    with (header_line i call +:+ nl +:+ strings_TrimRight_newlines script +:+ nl +:+ bulk_delimiter i call +:+ nl +:+ rest)
    by (unfold header_line; by rewrite !str_app_assoc).
  rewrite (Split_app (header_line i call)), (Split_single (header_line i call)) by apply header_lacks.
  rewrite (Split_app (strings_TrimRight_newlines script)), (Split_app (bulk_delimiter i call)).
  rewrite (Split_single (bulk_delimiter i call)) by by apply delimiter_lacks.
  cbn [app read_documents]. rewrite decide_False by (unfold header_line, bulk_command; done).
  rewrite read_header_line. cbn [mbind option_bind]. rewrite read_body.
  - unfold script_text. cbn [app]. by rewrite Join_Split.
  - intros Hin. unfold keeps_documents in Hk. rewrite forallb_forall in Hk.
    specialize (Hk _ (proj1 (list_elem_of_In _ _) Hin)). apply negb_true_iff in Hk.
    assert (strings_HasPrefix (bulk_delimiter i call) "__DBF_BULK_" = true); [|congruence].
    apply HasPrefix_app.
Qed.

(** The documents of the scripts of a node, and of the nodes from one. *)
Definition node_documents (i : nat) (scripts : list string) : list (string * string * string) :=
  imap (fun call script => (pretty i, pretty call, trimmed script)) scripts.
Fixpoint documents_from (i : nat) (all : list (list string)) : list (string * string * string) :=
  match all with [] => [] | scripts :: all => node_documents i scripts ++ documents_from (S i) all end.

Lemma read_node_from i call scripts rest :
  forallb keeps_documents scripts = true ->
  read_documents None (strings_Split (strings_Join (imap (fun k => bulk_document i (call + k)) scripts) "" +:+ rest) newline)
  = documents ← read_documents None (strings_Split rest newline);
    Some (imap (fun k script => (pretty i, pretty (call + k), trimmed script)) scripts ++ documents).
Proof.
  revert call. induction scripts as [|script scripts IH]; intros call.
  - intros _. change (strings_Join _ "" +:+ rest) with rest. by destruct (read_documents _ _).
  - cbn [forallb]. intros [Hk Hks]%andb_true_iff. rewrite !imap_cons, Nat.add_0_r, concat_nil_cons, str_app_assoc, read_document by done.
    assert (Hshift : forall A (f : nat -> string -> A), imap ((fun k => f (call + k)) ∘ S) scripts = imap (fun k => f (S call + k)) scripts).
    { intros A f. apply imap_ext. intros k x _. cbn. by rewrite Nat.add_succ_r. }
    rewrite (Hshift _ (bulk_document i)), (Hshift _ (fun k script => (pretty i, pretty k, trimmed script))), (IH (S call) Hks).
    by destruct (read_documents _ _).
Qed.

Lemma read_node i scripts rest :
  forallb keeps_documents scripts = true ->
  read_documents None (strings_Split (strings_Join (imap (bulk_document i) scripts) "" +:+ rest) newline)
  = documents ← read_documents None (strings_Split rest newline); Some (node_documents i scripts ++ documents).
Proof. apply (read_node_from i 0). Qed.

(** What the nodes read. *)
Definition reads_of (node : Node) (scripts : list string) : Prop := bulkPlanNodeScripts node = Ok scripts.

Lemma read_nodes i nodes texts :
  mapi_res bulk_node i nodes = Ok texts ->
  (forall node scripts, node ∈ nodes -> reads_of node scripts -> forallb keeps_documents scripts = true) ->
  exists all, Forall2 reads_of nodes all
    /\ read_documents None (strings_Split (strings_Join texts "") newline) = Some (documents_from i all).
Proof.
  revert i texts. induction nodes as [|node nodes IH]; intros i texts; cbn [mapi_res]; [intros [= <-] _; by exists []|].
  intros (text & Ht & (rest & Hrest & [= <-])%bind_Ok)%bind_Ok Hk. unfold bulk_node in Ht.
  apply bind_Ok in Ht as (scripts & Hs & [= <-]).
  destruct (IH _ _ Hrest) as (all & Hall & Hr); [intros; eapply Hk; eauto; by right|].
  exists (scripts :: all). split; [by constructor|]. rewrite concat_nil_cons, read_node by (eapply Hk; [left|done]). by rewrite Hr.
Qed.

Lemma bulk_script_read nodes script :
  bulkPlanScript nodes = Ok script ->
  (forall node scripts, node ∈ nodes -> reads_of node scripts -> forallb keeps_documents scripts = true) ->
  exists all, Forall2 reads_of nodes all /\ read_bulk script = Some (documents_from 0 all).
Proof.
  intros (texts & Ht & [= <-])%bind_Ok Hk. destruct (read_nodes _ _ _ Ht Hk) as (all & Hall & Hr). exists all. split; [done|].
  unfold read_bulk. by rewrite HasPrefix_app, TrimPrefix_app.
Qed.

(** ** The records are parsed back *)

Definition answered (answer : string -> string) (scripts : list string) : list Result :=
  (fun script => {| res_Stdout := answer (trimmed script); res_Stderr := "" |}) <$> scripts.

Lemma encode_lacks c s : text_char c = false -> lacks c (base64_encode s) = true.
Proof.
  intros Hc. unfold base64_encode, lacks. rewrite String.list_ascii_of_string_of_list_ascii.
  apply forallb_forall. intros x Hx%list_elem_of_In.
  assert (Ht := encode_text _ (bytes_in_range s)). rewrite Forall_forall in Ht. specialize (Ht x Hx).
  apply negb_true_iff, bool_decide_eq_false. intros ->. congruence.
Qed.

Lemma record_lacks answer (i call : nat) script : lacks newline (bulk_record answer (pretty i, pretty call, script)) = true.
Proof.
  unfold bulk_record. apply lacks_Join; [done|]. repeat constructor; try done; [by apply pretty_lacks..|by apply encode_lacks].
Qed.

Lemma parse_record_text answer (i call : nat) script out :
  (Z.of_nat i <= int_max)%Z -> (Z.of_nat call <= int_max)%Z ->
  parse_record out (bulk_record answer (pretty i, pretty call, script)) = put_result (Z.of_nat i) (Z.of_nat call) (answer script) out.
Proof.
  intros Hi Hcall. unfold parse_record, bulk_record, strings_Join. cbn [String.concat].
  assert (Htab : forall r, String tab "" +:+ r = String tab r) by done. rewrite !Htab. cbn [strings_SplitN].
  rewrite !Cut_lacks by (done || by apply pretty_lacks). rewrite bool_decide_true by done. cbn [guard_or mbind result_bind].
  rewrite !Atoi_pretty by done. cbn [of_option mbind result_bind]. by rewrite base64_roundtrip.
Qed.

Lemma put_next idx (out : gmap Z (list Result)) (l : list Result) stdout :
  default [] (out !! idx) = l ->
  put_result idx (Z.of_nat (length l)) stdout out = Ok (<[idx := l ++ [{| res_Stdout := stdout; res_Stderr := "" |}]]> out).
Proof.
  intros Hl. unfold put_result. rewrite decide_False, Hl by lia. do 2 f_equal.
  replace (Z.to_nat (Z.of_nat (length l) + 1) - length l) with 1 by lia. cbn [replicate].
  rewrite Nat2Z.id, <- (Nat.add_0_r (length l)) at 1. by rewrite insert_app_r.
Qed.

Lemma parse_node_from answer i (before scripts : list string) (out : gmap Z (list Result)) :
  (Z.of_nat i <= int_max)%Z -> (Z.of_nat (length (before ++ scripts)) <= int_max)%Z ->
  default [] (out !! Z.of_nat i) = answered answer before ->
  exists out', fold_res parse_record
      (bulk_record answer <$> imap (fun k script => (pretty i, pretty (length before + k), trimmed script)) scripts) out = Ok out'
    /\ default [] (out' !! Z.of_nat i) = answered answer (before ++ scripts) /\ forall j, j <> Z.of_nat i -> out' !! j = out !! j.
Proof.
  intros Hi. revert before out. induction scripts as [|script scripts IH]; intros before out Hl Hb.
  { exists out. by rewrite app_nil_r. }
  rewrite imap_cons, fmap_cons, Nat.add_0_r. cbn [fold_res]. rewrite length_app in Hl. cbn [length] in Hl.
  rewrite parse_record_text by lia.
  replace (Z.of_nat (length before)) with (Z.of_nat (length (answered answer before))) by (unfold answered; by rewrite length_fmap).
  rewrite (put_next _ _ _ _ Hb).
  destruct (IH (before ++ [script])
              (<[Z.of_nat i := answered answer before ++ [{| res_Stdout := answer (trimmed script); res_Stderr := "" |}]]> out))
    as (out' & Hf & He & Ho).
  - rewrite !length_app. cbn [length]. lia.
  - rewrite lookup_insert_eq. unfold answered. by rewrite fmap_app.
  - exists out'. rewrite <- app_assoc in He. split_and!; [|done|].
    + rewrite <- Hf. f_equal. f_equal. apply imap_ext. intros k x _. cbn. rewrite length_app. cbn [length]. do 2 f_equal. f_equal. lia.
    + intros j Hj. rewrite Ho by done. by rewrite lookup_insert_ne.
Qed.

Lemma parse_nodes answer i all out :
  (Z.of_nat (i + length all) <= int_max)%Z -> Forall (fun scripts => length scripts <= 2) all ->
  (forall j, (Z.of_nat i <= j)%Z -> out !! j = None) ->
  exists out', fold_res parse_record (bulk_record answer <$> documents_from i all) out = Ok out'
    /\ (forall k scripts, all !! k = Some scripts -> default [] (out' !! Z.of_nat (i + k)) = answered answer scripts)
    /\ forall j, (j < Z.of_nat i)%Z -> out' !! j = out !! j.
Proof.
  intros Hsize Hall. revert i out Hsize. induction Hall as [|scripts all Hs Hall IH]; intros i out Hsize Hout.
  { exists out. split_and!; [done| |done]. intros k scripts. by rewrite lookup_nil. }
  cbn [length] in Hsize. cbn [documents_from]. rewrite fmap_app, fold_res_app.
  destruct (parse_node_from answer i [] scripts out) as (out1 & H1 & E1 & O1).
  { lia. } { cbn [app]. unfold int_max. lia. } { by rewrite Hout. }
  cbn [length Nat.add] in H1. unfold node_documents. rewrite H1. cbn [mbind result_bind].
  destruct (IH (S i) out1) as (out2 & H2 & E2 & O2); [lia|intros j Hj; rewrite O1 by lia; apply Hout; lia|].
  exists out2. split_and!; [done| |].
  - intros [|k] scripts' Hk; cbn in Hk.
    + injection Hk as <-. rewrite Nat.add_0_r, O2 by lia. exact E1.
    + rewrite Nat.add_succ_r. by apply (E2 k).
  - intros j Hj. rewrite O2 by lia. by rewrite O1 by lia.
Qed.

Lemma reads_of_length node scripts : reads_of node scripts -> scripts <> [] /\ length scripts <= 2.
Proof.
  unfold reads_of, bulkPlanNodeScripts. intros Hs.
  match type of Hs with switch ?cases ?d ?k = _ =>
    destruct (switch_cases cases d k) as [(labels & a & Hin & _ & He)|He]; rewrite He in Hs; [|done] end. clear He.
  repeat (apply elem_of_cons in Hin as [[= -> ->]|Hin]; [|]); [..|by apply elem_of_nil in Hin].
  all: try (injection Hs as <-; split; [done|cbn; lia]).
  apply bind_Ok in Hs as (script & _ & [= <-]). split; [done|cbn; lia].
Qed.

Lemma output_lines_read answer (documents : list (string * string * string)) :
  Forall (fun d => lacks newline (bulk_record answer d) = true) documents ->
  bulk_lines (bulk_output answer documents) = bulk_record answer <$> documents.
Proof.
  unfold bulk_lines, bulk_output. induction 1 as [|d documents Hd Hds IH]; [done|].
  rewrite fmap_cons, concat_nil_cons, str_app_assoc, Split_app, (Split_single (bulk_record answer d)) by done.
  cbn [app]. rewrite filter_cons, decide_True, IH; [done|].
  destruct d as [[i call] script]. unfold bulk_record, strings_Join. cbn [String.concat].
  change (bulkPlanPrefix +:+ ?r) with (String "D" ("BF_BULK" +:+ r)). apply TrimSpace_nonempty. cbn. lia.
Qed.

Lemma documents_lack answer i all : Forall (fun d => lacks newline (bulk_record answer d) = true) (documents_from i all).
Proof.
  revert i. induction all as [|scripts all IH]; intros i; [constructor|]. cbn [documents_from]. apply Forall_app. split; [|apply IH].
  unfold node_documents. apply Forall_lookup. intros k d. rewrite list_lookup_imap. destruct (scripts !! k) as [script|]; [|done].
  intros [= <-]. apply record_lacks.
Qed.

Lemma bulk_output_parsed answer nodes all :
  Forall2 reads_of nodes all -> nodes <> [] -> (Z.of_nat (length nodes) <= int_max)%Z ->
  exists outputs, parseBulkPlanOutput (bulk_output answer (documents_from 0 all)) = Ok outputs
    /\ forall k scripts, all !! k = Some scripts -> default [] (outputs !! Z.of_nat k) = answered answer scripts.
Proof.
  intros Hall Hne Hsize. assert (Hlen := Forall2_length _ _ _ Hall).
  assert (Hshort : Forall (fun scripts : list string => length scripts <= 2) all).
  { apply Forall_lookup. intros k scripts Hk. destruct (Forall2_lookup_r _ _ _ _ _ Hall Hk) as (node & _ & Hr).
    by apply reads_of_length in Hr as [_ ?]. }
  destruct (parse_nodes answer 0 all ∅) as (outputs & Hf & He & _); [cbn; lia|done|intros; apply lookup_empty|].
  exists outputs. split; [|exact He]. unfold parseBulkPlanOutput. rewrite output_lines_read by apply documents_lack.
  rewrite Hf. cbn [mbind result_bind]. rewrite bool_decide_false; [done|].
  inversion Hall as [|node scripts nodes' all' Hr _ E1 E2]; subst; [done|]. apply reads_of_length in Hr as [Hr _].
  destruct scripts as [|script scripts]; [done|]. cbn [documents_from]. unfold node_documents. by rewrite imap_cons.
Qed.

(** ** Replaying *)

(** A host that answers scripts without changing, and runs a bulk script as the
    scripts in it: the text [answer script] is what a script prints. *)
Record inspected {W} `{Runner W} (w : W) (host : string) (answer : string -> string) (nodes : list Node) : Prop := {
  in_script : forall node scripts script, node ∈ nodes -> reads_of node scripts -> script ∈ scripts ->
    exists err, runner_Run host script w = (Ok {| res_Stdout := answer (trimmed script); res_Stderr := err |}, w);
  in_bulk : forall script documents, bulkPlanScript nodes = Ok script -> read_bulk script = Some documents ->
    exists err, runner_Run host script w = (Ok {| res_Stdout := bulk_output answer documents; res_Stderr := err |}, w);
}.

Lemma run_all_answers {W} `{Runner W} (w : W) host answer scripts :
  (forall script, script ∈ scripts ->
     exists err, runner_Run host script w = (Ok {| res_Stdout := answer (trimmed script); res_Stderr := err |}, w)) ->
  run_all host scripts w = (Ok ((fun script => answer (trimmed script)) <$> scripts), w).
Proof.
  induction scripts as [|script scripts IH]; intros Hs; [done|]. cbn [run_all]. unfold mbind, M_bind, run.
  destruct (Hs script) as (err & ->); [left|]. rewrite IH by (intros; apply Hs; by right). done.
Qed.

Lemma run_all_replayed host answer (before scripts : list string) :
  run_all host scripts {| br_outputs := answered answer (before ++ scripts); br_pos := length before |}
  = (Ok ((fun script => answer (trimmed script)) <$> scripts),
     {| br_outputs := answered answer (before ++ scripts); br_pos := length (before ++ scripts) |}).
Proof.
  revert before. induction scripts as [|script scripts IH]; intros before; [by rewrite app_nil_r|].
  cbn [run_all]. unfold mbind, M_bind, run. cbn [runner_Run bulk_runner]. unfold bulk_Run. cbn [br_outputs br_pos].
  unfold answered at 1. rewrite list_lookup_fmap, lookup_app_r, Nat.sub_diag by lia. cbn [lookup list_lookup fmap option_fmap option_map].
  specialize (IH (before ++ [script])). rewrite length_app in IH. cbn [length] in IH. rewrite Nat.add_1_r, <- app_assoc in IH.
  cbn [app] in IH. rewrite IH. done.
Qed.

Section equivalence.
Context {W : Type} `{Runner W}.
Variable ReadFile : string -> option string.
Variable Unmarshal : string -> option goval.
Context (w : W) (host : string) (answer : string -> string) (nodes : list Node).

Lemma replay_plan outputs i node prior scripts :
  inspected w host answer nodes -> node ∈ nodes -> n_Host node = host -> reads_something node -> reads_of node scripts ->
  default [] (outputs !! Z.of_nat i) = answered answer scripts ->
  native_Plan ReadFile Unmarshal node prior w = (replay ReadFile Unmarshal outputs i node prior, w).
Proof.
  intros Hin Hnode Hhost Hready Hs Hout. unfold replay. rewrite Hout.
  assert (H1 := run_all_answers w host answer scripts (fun script => in_script _ _ _ _ Hin node scripts script Hnode Hs)).
  assert (H2 := run_all_replayed host answer [] scripts). cbn [app length] in H2. rewrite <- Hhost in H1, H2.
  destruct (plan_reads ReadFile Unmarshal node prior scripts Hready Hs _ _ _ _ _ _ _ _ _ H1 H2) as [(r & -> & ->)|(e & -> & ->)]; [|done].
  cbn [br_pos br_outputs]. rewrite bool_decide_true by (unfold answered; by rewrite length_fmap). by destruct r.
Qed.

Lemma replay_legacy outputs priors i rest all acc :
  inspected w host answer nodes -> (forall node, node ∈ rest -> node ∈ nodes /\ n_Host node = host /\ reads_something node) ->
  Forall2 reads_of rest all ->
  (forall k scripts, all !! k = Some scripts -> default [] (outputs !! Z.of_nat (i + k)) = answered answer scripts) ->
  fold_M (plan_into (native_Plan ReadFile Unmarshal) priors) rest acc w
  = (plans ← mapi_res (fun i node => plan ← replay ReadFile Unmarshal outputs i node (default None (priors !! n_Address node));
                                     Ok (n_Address node, plan)) i rest;
     Ok (fold_left (fun plans p => <[p.1 := p.2]> plans) plans acc), w).
Proof.
  intros Hin Hrest Hall. revert i acc. induction Hall as [|node scripts rest all Hs Hall IH]; intros i acc Hout; [done|].
  destruct (Hrest node) as (Hnode & Hhost & Hready); [left|].
  assert (Hp := replay_plan outputs i node (default None (priors !! n_Address node)) scripts Hin Hnode Hhost Hready Hs).
  rewrite <- (Hout 0 scripts eq_refl), Nat.add_0_r in Hp. specialize (Hp eq_refl). cbn [fold_M mapi_res].
  assert (Hstep : plan_into (native_Plan ReadFile Unmarshal) priors acc node w
    = (plan ← replay ReadFile Unmarshal outputs i node (default None (priors !! n_Address node));
       Ok (<[n_Address node := plan]> acc), w)).
  { unfold plan_into, mbind at 1, M_bind. rewrite Hp. by destruct (replay _ _ _ _ _ _). }
  unfold mbind at 1, M_bind. rewrite Hstep.
  destruct (replay _ _ _ _ _ _) as [plan|e]; [|done]. cbn [mbind result_bind].
  rewrite (IH ltac:(intros; apply Hrest; by right) (S i)); [|intros k s Hk; rewrite Nat.add_succ_comm; by apply Hout].
  by destruct (mapi_res _ _ rest).
Qed.
End equivalence.

(** C5: Planning a host with one script makes the plans that planning its nodes
    one after the other makes, errors included: on a host that answers without
    changing and runs the bulk script as the scripts in it, [PlanHost] and
    [planHostLegacy] agree, when every plan reads something and no line of a
    script starts like a delimiter. *)
Theorem PlanHost_planHostLegacy {W} `{Runner W} ReadFile Unmarshal (w : W) host answer nodes priors script :
  bulkPlanScript nodes = Ok script ->
  inspected w (h_Name host) answer nodes ->
  (forall node, node ∈ nodes -> n_Host node = h_Name host /\ reads_something node) ->
  (forall node scripts, node ∈ nodes -> reads_of node scripts -> forallb keeps_documents scripts = true) ->
  (Z.of_nat (length nodes) <= int_max)%Z ->
  PlanHost ReadFile Unmarshal host nodes priors w = planHostLegacy ReadFile Unmarshal nodes priors w.
Proof.
  intros Hscript Hin Hnodes Hk Hsize. unfold PlanHost. case_decide as Hne; [by rewrite Hne|].
  destruct (bulk_script_read _ _ Hscript Hk) as (all & Hall & Hread).
  destruct (in_bulk _ _ _ _ Hin _ _ Hscript Hread) as (err & Hrun).
  destruct (bulk_output_parsed answer nodes all Hall Hne Hsize) as (outputs & Hp & Hout).
  rewrite Hscript. unfold wrap_err, run, lift, mbind, M_bind. rewrite Hrun. cbn [map_err res_Stdout]. rewrite Hp.
  unfold planHostLegacy, replay_all. symmetry. apply (replay_legacy ReadFile Unmarshal w (h_Name host) answer nodes outputs priors 0 nodes all);
    [done|by intros node Hn; destruct (Hnodes node Hn)|done|done].
Qed.

(** *** A host that only answers *)

(** The world is the function that answers. *)
Definition answering : Type := string -> string.
#[export] Instance answering_runner : Runner answering :=
  let reply (w : answering) text : result engine_error Result * answering := (Ok {| res_Stdout := text; res_Stderr := "" |}, w) in
  {| runner_Run := fun _ script w =>
       match read_bulk script with
       | Some documents => reply w (bulk_output w documents)
       | None => reply w (w (trimmed script))
       end;
     runner_RunInput := fun _ _ _ w => reply w "";
     runner_RunCommand := fun _ command w => reply w (w command) |}.

Definition demo_node (kind address : string) (desired : gomap) : Node :=
  {| n_Host := "web1"; n_Address := address; n_Kind := kind; n_Summary := ""; n_Source := no_source; n_Lifecycle := None;
     n_Desired := desired; n_ProviderType := kind; n_ProviderAddress := address; n_ProviderPayload := ∅; n_DependsOn := [];
     n_ExplicitDependsOn := []; n_DependencySources := ∅ |}.
Definition demo_nodes : list Node :=
  [demo_node "directory" "d" {["path" := GStr "/srv/it's"; "owner" := GStr "root"; "group" := GStr "root"; "mode" := GStr "0755"]};
   demo_node "service" "s" {["unit" := GStr "nginx"; "enabled" := GBool true; "state" := GStr "running"]}].
Definition demo_answer : answering := fun script =>
  if strings_Contains script "systemctl" then script_text ["enabled=disabled"; "active=active"] else script_text ["missing"].

Lemma demo_inspected host : inspected demo_answer host demo_answer demo_nodes.
Proof.
  split.
  - intros node scripts script Hn Hs Hin. exists "".
    repeat (apply elem_of_cons in Hn as [->|Hn]; [injection Hs as <-; apply list_elem_of_singleton in Hin as ->; vm_compute; reflexivity|]).
    by apply elem_of_nil in Hn.
  - intros script documents _ Hread. exists "". cbn. by rewrite Hread.
Qed.

Lemma PlanHost_planHostLegacy_witness :
  let host := bare_host "web1" in
  let run := PlanHost (fun _ => None) (fun _ => None) host demo_nodes ∅ demo_answer in
  run = planHostLegacy (fun _ => None) (fun _ => None) demo_nodes ∅ demo_answer
  /\ match run.1 with
     | Ok plans => (pp_Summary <$> plans !! "d", pp_Summary <$> plans !! "s")
                  = (Some "create directory /srv/it's", Some "enable service nginx")
     | Err _ => False
     end.
Proof.
  split; [|vm_compute; reflexivity].
  destruct (bulkPlanScript demo_nodes) as [script|e] eqn:Hs; [|vm_compute in Hs; discriminate].
  apply (PlanHost_planHostLegacy _ _ demo_answer (bare_host "web1") demo_answer demo_nodes ∅ script Hs).
  - apply demo_inspected.
  - intros node Hn. repeat (apply elem_of_cons in Hn as [->|Hn];
      [split; [reflexivity|intros scripts Hr; injection Hr as <-; by apply (bool_decide_unpack _); vm_compute]|]).
    by apply elem_of_nil in Hn.
  - intros node scripts Hn Hr. repeat (apply elem_of_cons in Hn as [->|Hn]; [injection Hr as <-; vm_compute; reflexivity|]).
    by apply elem_of_nil in Hn.
  - vm_compute. discriminate.
Defined.
