(* ===== verification/NativeProps.v ===== *)
(** * What the provider of remote hosts does *)
From S2P Require Import Prelude Sha256 GoValue GoStrings IR HostIR State Moves Graph Schedule Engine Execute Run Memory EngineProps Document.
From S2P Require Import Remote Base64 NativeFiles NativeHost NativeApps Native BulkProps.

(** ** Command lines are read as they were meant *)

Lemma read_lines_of commands (done_ : list (list string)) rest :
  Forall (fun command : list string => command <> []) commands -> commands <> [] ->
  sh_read Blank [] done_ (script_text (command_line <$> commands) +:+ rest) = sh_read Blank [] (done_ ++ commands) rest.
Proof.
  intros Hne. revert done_. unfold script_text, strings_Join. induction Hne as [|c commands Hc Hne IH]; intros done_ Hn; [done|].
  destruct commands as [|c' commands].
  - cbn [fmap list_fmap String.concat]. rewrite str_app_assoc, read_command_line. by destruct c.
  - change (String.concat nl (command_line <$> c :: c' :: commands))
      with (command_line c +:+ nl +:+ String.concat nl (command_line <$> c' :: commands)).
    rewrite !str_app_assoc, read_command_line. cbn [app].
    replace (end_command c done_) with (done_ ++ [c]) by (by destruct c).
    rewrite <- str_app_assoc, IH by done. by rewrite <- app_assoc.
Qed.

(** A command that the program writes: words that are not empty. *)
Definition proper_command (command : list string) : Prop := command <> [] /\ Forall (fun arg => arg <> "") command.

(** A loop that checks words succeeds when none is empty. *)
Lemma mapi_words {E} (e : nat -> string -> E) i (words : list string) :
  match mapi_res (fun i a => guard_or (bool_decide (a <> "")) (e i a)) i words with
  | Ok _ => Forall (fun a => a <> "") words
  | Err _ => ~ Forall (fun a => a <> "") words
  end.
Proof.
  revert i. induction words as [|a l IH]; intros i; [by constructor|]. cbn [mapi_res].
  case_bool_decide as Ha; cbn [guard_or mbind result_bind].
  - specialize (IH (S i)). destruct (mapi_res _ (S i) l); [by constructor|]. by intros [_ ?]%Forall_cons.
  - by intros [? _]%Forall_cons.
Qed.

Lemma check_command_spec fail i command :
  match check_command fail i command with
  | Ok line => line = command_line command /\ proper_command command
  | Err _ => ~ proper_command command
  end.
Proof.
  unfold check_command. case_bool_decide as Hc; [by intros [? _]|]. cbn [negb guard_or mbind result_bind].
  assert (Ha := mapi_words (fun j _ =>
    fail ("script payload command[" +:+ pretty i +:+ "][" +:+ pretty j +:+ "] must be non-empty")) 0 command).
  change (mapi_res _ 0 command) with (mapi_res (check_argument fail i) 0 command) in Ha. destruct (mapi_res (check_argument fail i) 0 command); cbn; [done|]. by intros [_ ?].
Qed.

Lemma check_commands_spec fail i (commands : list (list string)) :
  match mapi_res (check_command fail) i commands with
  | Ok lines => lines = command_line <$> commands /\ Forall proper_command commands
  | Err _ => ~ Forall proper_command commands
  end.
Proof.
  revert i. induction commands as [|c commands IH]; intros i; [by split; [|constructor]|]. cbn [mapi_res].
  assert (Hc := check_command_spec fail i c). destruct (check_command fail i c) as [line|e]; cbn [mbind result_bind].
  - specialize (IH (S i)). destruct Hc as [-> Hc]. destruct (mapi_res _ (S i) commands); cbn.
    + destruct IH as [-> IH]. by split; [|constructor].
    + by intros [_ ?]%Forall_cons.
  - by intros [? _]%Forall_cons.
Qed.

(** The six variables of a script, as words. *)
Definition script_environment (payload : ScriptPayload) : list string :=
  ["DBF_SCRIPT_NAME=" +:+ sp_Name payload;
   "DBF_COMPONENT_NAME=" +:+ sp_ComponentName payload;
   "DBF_TRIGGER_ADDRESS=" +:+ firstString (sp_TriggerAddresses payload);
   "DBF_TRIGGER_PATH=" +:+ firstString (sp_TriggerPaths payload);
   "DBF_TRIGGER_ADDRESSES=" +:+ strings_Join (sp_TriggerAddresses payload) nl;
   "DBF_TRIGGER_PATHS=" +:+ strings_Join (sp_TriggerPaths payload) nl].

(** A plain character starts or continues a word. *)
Lemma read_plain_char st c words commands rest :
  match st with Single _ | Double _ => False | _ => True end -> plain_char c = true ->
  sh_read st words commands (String c rest) = sh_read (Plain (word_of st +:+ String c "")) words commands rest.
Proof.
  intros Hst Hc. assert (Hn : forall d, plain_char d = false -> Ascii.eqb c d = false).
  { intros d Hd. apply Ascii.eqb_neq. intros ->. by rewrite Hc in Hd. }
  destruct st as [|w|w|w]; [|clear Hst|destruct Hst..]; cbn [sh_read word_of];
    rewrite (Hn newline), (Hn " "%char), (Hn tab), (Hn single), (Hn double) by done; cbn [orb]; by rewrite Hc.
Qed.

Lemma read_plain s w words commands rest :
  forallb plain_char (String.list_ascii_of_string s) = true ->
  sh_read (Plain w) words commands (s +:+ rest) = sh_read (Plain (w +:+ s)) words commands rest.
Proof.
  revert w. induction s as [|c s IH]; intros w; [by rewrite str_app_nil_r|]. cbn [String.list_ascii_of_string forallb].
  intros [Hc Hs]%andb_true_iff. rewrite str_app_cons, read_plain_char by done. rewrite IH by done. by rewrite str_app_snoc.
Qed.

(** A quoted text continues a word as well. *)
Lemma read_quoted_in w s words commands rest :
  sh_read (Plain w) words commands (shellQuote s +:+ rest) = sh_read (Plain (w +:+ s)) words commands rest.
Proof.
  unfold shellQuote. case_decide as Hs; [subst; by rewrite str_app_nil_r|]. rewrite str_app_cons, str_app_assoc.
  change (sh_read (Plain w) words commands (String single ?x)) with (sh_read (Single w) words commands x).
  by rewrite read_quote_chars.
Qed.

Lemma read_assignment c name value words rest :
  forallb plain_char (String.list_ascii_of_string (String c name)) = true ->
  sh_read Blank words [] (((String c name +:+ "=") +:+ shellQuote value) +:+ " " +:+ rest)
  = sh_read Blank (words ++ [(String c name +:+ "=") +:+ value]) [] rest.
Proof.
  intros Hn. assert (Hc := Hn). cbn [String.list_ascii_of_string forallb] in Hc. apply andb_true_iff in Hc as [Hc _].
  trans (sh_read (Plain "") words [] (((String c name +:+ "=") +:+ shellQuote value) +:+ " " +:+ rest)).
  { by rewrite !str_app_assoc, str_app_cons, !read_plain_char. }
  rewrite !str_app_assoc, read_plain by done. rewrite read_plain by done. rewrite read_quoted_in.
  change ("" +:+ ?x) with x. rewrite str_app_assoc. done.
Qed.

Lemma read_environment payload rest :
  sh_read Blank [] [] (scriptEnvironmentPrefix payload +:+ rest) = sh_read Blank (script_environment payload) [] rest.
Proof.
  unfold scriptEnvironmentPrefix, strings_Join. cbn [fmap list_fmap String.concat fst snd]. rewrite !str_app_assoc.
  repeat (rewrite <- (str_app_assoc _ "=" (shellQuote _ +:+ _)), <- (str_app_assoc _ (shellQuote _)), read_assignment by done).
  reflexivity.
Qed.

Lemma read_last_command args words commands :
  sh_read Blank words commands (command_line args) = Some (end_command (words ++ args) commands).
Proof.
  unfold command_line, strings_Join. revert words. induction args as [|a args IH]; intros words; [by rewrite app_nil_r|].
  destruct args as [|b args].
  - cbn [shellQuoteArgs fmap list_fmap String.concat]. rewrite <- (str_app_nil_r (shellQuote a)), read_quoted. done.
  - change (String.concat " " (shellQuoteArgs (a :: b :: args)))
      with (shellQuote a +:+ " " +:+ String.concat " " (shellQuoteArgs (b :: args))).
    rewrite read_quoted. specialize (IH (words ++ [a])). rewrite <- app_assoc in IH. exact IH.
Qed.

(** C11: What a script operation sends is read by a shell as it was declared,
    whatever characters it has: the remote command is one command, the six
    variables of the script followed by the words of the interpreter; and a
    payload of commands is either refused, because there is no command, or one
    without words, or an empty word, or is a script of exactly these commands. *)
Theorem operation_commands_read (address : string) (payload : ScriptPayload) :
  sh_commands (scriptEnvironmentPrefix payload +:+ command_line (sp_Interpreter payload))
  = Some [script_environment payload ++ sp_Interpreter payload]
  /\ match scriptPayloadCommands address (sp_Commands payload) with
     | Ok text => sp_Commands payload <> [] /\ Forall proper_command (sp_Commands payload) /\ sh_commands text = Some (sp_Commands payload)
     | Err _ => sp_Commands payload = [] \/ ~ Forall proper_command (sp_Commands payload)
     end.
Proof.
  unfold sh_commands. split.
  - rewrite read_environment, read_last_command. done.
  - unfold scriptPayloadCommands. case_bool_decide as Hn; [by left|]. cbn [negb guard_or mbind result_bind].
    assert (Hc := check_commands_spec (NodeFailed address) 0 (sp_Commands payload)).
    destruct (mapi_res _ 0 _) as [lines|e]; cbn; [|by right]. destruct Hc as [-> Hc]. split_and!; [done..|].
    rewrite <- (str_app_nil_r (script_text _)), read_lines_of; [done| |done]. by eapply Forall_impl; [exact Hc|intros c [? _]].
Qed.

(** ** A file that was applied is in sync *)

Lemma list_ascii_snoc s c : String.list_ascii_of_string (s +:+ String c "") = String.list_ascii_of_string s ++ [c].
Proof. by rewrite list_ascii_app. Qed.

(** Only the ends of lines at the end are trimmed. *)
Lemma TrimRight_newlines_line s c : c <> newline -> strings_TrimRight_newlines ((s +:+ String c "") +:+ nl) = s +:+ String c "".
Proof.
  intros Hc. unfold strings_TrimRight_newlines, strings_TrimLeft, str_rev.
  rewrite !list_ascii_app, !reverse_app, !String.list_ascii_of_string_of_list_ascii.
  change (reverse (String.list_ascii_of_string nl)) with [newline]. change (reverse (String.list_ascii_of_string (String c ""))) with [c].
  cbn [app drop_while]. assert (Hn : in_cutset nl newline = true) by done. rewrite Hn.
  assert (Hcut : in_cutset nl c = false) by (apply bool_decide_eq_false; intros Hin%list_elem_of_singleton; done).
  rewrite Hcut, reverse_cons, reverse_involutive, string_of_list_app, String.string_of_list_ascii_of_string. done.
Qed.

Lemma lacks_snoc s c : s <> "" -> lacks c s = true -> exists s' d, s = s' +:+ String d "" /\ d <> c.
Proof.
  induction s as [|d s IH]; [done|]. intros _. rewrite lacks_cons, andb_true_iff, negb_true_iff, bool_decide_eq_false.
  intros [Hd Hs]. destruct s as [|e s]; [by exists "", d|]. destruct IH as (s' & d' & -> & Hd'); [done..|].
  by exists (String d s'), d'.
Qed.

Lemma Split_Join lines :
  lines <> [] -> Forall (fun line => lacks newline line = true) lines -> strings_Split (strings_Join lines nl) newline = lines.
Proof.
  intros Hne Hl. induction Hl as [|line lines Hline Hl IH]; [done|]. destruct lines as [|line' lines]; [by apply Split_single|].
  change (strings_Join (line :: line' :: lines) nl) with (line +:+ nl +:+ strings_Join (line' :: lines) nl).
  by rewrite Split_app, Split_single, IH.
Qed.

(** The lines of an output whose last line is not blank. *)
Lemma output_lines_text lines last :
  Forall (fun line => lacks newline line = true) (lines ++ [last]) -> last <> "" ->
  output_lines (script_text (lines ++ [last])) = lines ++ [last].
Proof.
  intros Hl Hne. unfold output_lines, script_text.
  destruct (lacks_snoc last newline Hne) as (s' & d & -> & Hd); [by apply Forall_app in Hl as [_ [? _]%Forall_cons]|].
  assert (Hj : exists t, strings_Join (lines ++ [s' +:+ String d ""]) nl = t +:+ String d "").
  { clear. unfold strings_Join. induction lines as [|l lines [t IH]]; [by exists s'|].
    destruct lines as [|l' lines]; cbn [app String.concat] in *; rewrite ?IH; eexists; by rewrite <- !str_app_assoc. }
  destruct Hj as [t Ht]. rewrite Ht, TrimRight_newlines_line by done. rewrite <- Ht. apply Split_Join; [by destruct lines|done].
Qed.

Lemma hex_digit_lacks x : (x < 16)%N -> Sha256.hex_digit x <> newline.
Proof.
  intros Hx. assert (Hin : x ∈ N.of_nat <$> seq 0 16).
  { apply list_elem_of_fmap. exists (N.to_nat x). rewrite elem_of_seq. lia. }
  repeat (apply elem_of_cons in Hin as [->|Hin]; [done|]). by apply elem_of_nil in Hin.
Qed.

Lemma land_bound x m : (N.land x (N.ones m) < 2 ^ m)%N.
Proof. rewrite N.land_ones. apply N.mod_lt. by apply N.pow_nonzero. Qed.

Lemma hex_lacks bs : Forall (fun b => (b < 256)%N) bs -> lacks newline (Sha256.hex bs) = true.
Proof.
  induction 1 as [|b bs Hb _ IH]; [done|]. cbn [Sha256.hex]. rewrite !lacks_cons, IH, andb_true_r.
  rewrite andb_true_iff, !negb_true_iff, !bool_decide_eq_false. split; apply hex_digit_lacks.
  - rewrite N.shiftr_div_pow2. apply N.Div0.div_lt_upper_bound. exact Hb.
  - apply (land_bound b 4).
Qed.

Lemma be_bytes_bound n x : Forall (fun b => (b < 256)%N) (Sha256.be_bytes n x).
Proof. induction n as [|n IH]; [constructor|]. cbn [Sha256.be_bytes]. constructor; [apply (land_bound _ 8)|done]. Qed.

Lemma sha256Hex_line s : lacks newline (sha256Hex s) = true /\ sha256Hex s <> "".
Proof.
  split.
  - apply hex_lacks. unfold Sha256.sum256. apply Forall_forall. intros b Hb.
    apply list_elem_of_join in Hb as (l & Hb & (x & -> & _)%list_elem_of_fmap).
    assert (Hall := be_bytes_bound 4 x). rewrite Forall_forall in Hall. by apply Hall.
  - intros He. assert (Hl := sha256Hex_length s). by rewrite He in Hl.
Qed.

(** What the script that reads a path prints for a file. *)
Definition file_listing (owner group mode sha : string) : string := script_text (["file"; owner; group; mode] ++ [sha]).

Lemma file_listing_read owner group mode content :
  Forall (fun line => lacks newline line = true) [owner; group; mode] ->
  path_of_lines (output_lines (file_listing owner group mode (sha256Hex content)))
  = {| ps_Exists := true; ps_IsDir := false; ps_Owner := owner; ps_Group := group; ps_Mode := mode; ps_SHA256 := sha256Hex content |}.
Proof.
  intros [Ho [Hg [Hm _]%Forall_cons]%Forall_cons]%Forall_cons. destruct (sha256Hex_line content) as [Hc Hn].
  unfold file_listing. rewrite output_lines_text; [done| |done]. by repeat constructor.
Qed.

(** A host that keeps a file: [holds] says that the file is there as it was
    written, and the script that reads its path prints it, its mode without
    zeros before it. *)
Record keeps_file {W} `{Runner W} (host path owner group mode content : string) (holds : W -> Prop) : Prop := {
  kf_write : forall w r w', runner_RunInput host (writePathContent_script path owner group mode) content w = (Ok r, w') -> holds w';
  kf_reload : forall w r w', holds w -> runner_Run host (script_text ["systemctl daemon-reload"]) w = (Ok r, w') -> holds w';
  kf_read : forall w, holds w -> exists printed err,
    normalizeMode printed = normalizeMode mode /\ lacks newline printed = true
    /\ runner_Run host (readPath_script path) w
       = (Ok {| res_Stdout := file_listing owner group printed (sha256Hex content); res_Stderr := err |}, w);
}.

Lemma apply_holds {W} `{Runner W} ReadFile host path owner group mode content holds step reload (w w1 : W) observed :
  keeps_file host path owner group mode content holds ->
  removes step = false -> n_Host (s_Node step) = host -> desiredContent ReadFile (s_Node step) = Ok content ->
  (path, owner, group, mode) = (stringDesired (s_Node step) "path", stringDesired (s_Node step) "owner",
                                stringDesired (s_Node step) "group", stringDesired (s_Node step) "mode") ->
  applyFileLike ReadFile step reload w = (Ok observed, w1) -> holds w1 /\ observed = applied (s_Node step).
Proof.
  intros Hk Hr <- Hc [= -> -> -> ->]. unfold applyFileLike. rewrite Hr.
  unfold lift. rewrite Hc. intros (c & w2 & [= <- <-] & ([] & w3 & Hw & ([] & w4 & Hl & [= <- <-])%M_bind_Ok)%M_bind_Ok)%M_bind_Ok.
  split; [|done]. unfold writePathContent, redactPayloadError in Hw.
  destruct ((_ ← runner_RunInput _ _ _; mret tt) w) as [[[]|e] w5] eqn:E; [|done]. injection Hw as <-.
  apply M_bind_Ok in E as (r & w6 & Hrun & [= <-]). apply (kf_write _ _ _ _ _ _ _ Hk) in Hrun.
  destruct reload; [|by injection Hl as <-]. apply M_bind_Ok in Hl as (r' & w7 & Hl & [= <-]). by apply (kf_reload _ _ _ _ _ _ _ Hk _ _ _ Hrun Hl).
Qed.

(** What apply and plan read of a node is the same for the node and the one the
    provider is given. *)
Definition payload_agrees (node : Node) : Prop :=
  Forall (fun field => stringDesired (providerNode node) field = stringDesired node field) ["ensure"; "path"; "owner"; "group"; "mode"].

Lemma desiredContent_providerNode ReadFile node : desiredContent ReadFile (providerNode node) = desiredContent ReadFile node.
Proof.
  unfold providerNode. case_decide as Hs; [done|]. destruct (fileContentWriteOnly node); [done|].
  unfold desiredContent, providerDesired. cbn [n_ProviderPayload set_n_Desired n_Address].
  assert (Hne : n_ProviderPayload node <> ∅) by (intros He; apply Hs; by rewrite He, map_size_empty).
  by rewrite !(decide_False _ _ Hne).
Qed.

Definition file_kinds : list string := ["file"; "secret"; "systemd_unit"; "nftables_file"; "networkd_netdev"; "networkd_network"].

Lemma file_kinds_plan {W} `{Runner W} ReadFile Unmarshal node prior :
  n_Kind node ∈ file_kinds -> native_Plan ReadFile Unmarshal node prior = planFileLike ReadFile node prior.
Proof.
  intros Hk. unfold native_Plan. repeat (apply elem_of_cons in Hk as [->|Hk]; [done|]). by apply elem_of_nil in Hk.
Qed.
Lemma file_kinds_apply {W} `{Runner W} ReadFile Unmarshal step :
  n_Kind (s_Node step) ∈ file_kinds ->
  exists reload, native_Apply ReadFile Unmarshal step = applyFileLike ReadFile step reload.
Proof.
  intros Hk. unfold native_Apply.
  repeat (apply elem_of_cons in Hk as [->|Hk]; [first [by exists false|by exists true]|]). by apply elem_of_nil in Hk.
Qed.

(** A change action still has to run, for a file whose content is compared. *)
Definition action_pending (node : Node) : bool :=
  negb (fileContentWriteOnly node) && negb (bool_decide (stringDesired node "change_action" = "")).

Lemma file_plan_in_sync ReadFile node p current sha :
  ensureAbsent node = false -> desiredContentSHA ReadFile node = Ok sha ->
  ps_Exists current = true -> ps_IsDir current = false -> metadata_differs node current = false ->
  (fileContentWriteOnly node = false -> ps_SHA256 current = sha) ->
  r_DesiredDigest p = DesiredDigest (n_Desired node) ->
  (stringDesired node "change_action" = "" -> stringMapValue (r_Desired p) "change_action" = "") ->
  exists plan, file_plan ReadFile node (Some p) current = Ok plan
    /\ pp_Action plan = if negb (fileContentWriteOnly node) && changeActionCompletionPending node (Some p) then ActionUpdate else ActionNoOp.
Proof.
  intros Ha Hs He Hd Hm Hsha Hp Hc. unfold file_plan. rewrite Ha, Hs, He, Hd, Hm. cbn [mbind result_bind negb orb].
  destruct (fileContentWriteOnly node).
  - rewrite bool_decide_true by (cbn; by rewrite Hp). by eexists.
  - rewrite (Hsha eq_refl), bool_decide_false by tauto. cbn [orb negb andb].
    destruct (changeActionCompletionPending node (Some p)); [by eexists|].
    assert (changeActionConfigurationRemoved node (Some p) = false) as ->; [|by eexists].
    unfold changeActionConfigurationRemoved. case_bool_decide as Hca; [|done]. cbn [andb]. by rewrite bool_decide_false by (rewrite Hc; tauto).
Qed.

Lemma stringMapValue_sanitized d k : k ∉ sanitized_keys -> stringMapValue (SanitizeDesired d) k = stringMapValue d k.
Proof.
  intros Hk. rewrite <- (stringMapValue_clone d). unfold stringMapValue. by rewrite SanitizeDesired_other.
Qed.

Lemma recorded_pending node step observed now :
  s_Node step = node -> observed !! changeActionDigestObservedField = None ->
  let r := resourceStateForStep step observed now in
  changeActionCompletionPending node (Some r) = negb (bool_decide (stringDesired node "change_action" = ""))
  /\ changeActionCompletionPending node (Some (set_completion changeActionDigestObservedField now r)) = false.
Proof.
  intros Hn Ho r. assert (Hk : changeActionDigestObservedField ∉ sanitized_keys) by (by apply (bool_decide_unpack _); vm_compute).
  unfold changeActionCompletionPending. split; case_decide as Hc; [by rewrite bool_decide_true|..|done|].
  - rewrite (bool_decide_false (_ = "")) by done. apply bool_decide_eq_true.
    assert (stringMapValue (r_Observed r) changeActionDigestObservedField = "") as ->.
    { unfold r. cbn [r_Observed resourceStateForStep].
      assert (stringMapValue (SanitizeObserved observed) changeActionDigestObservedField = "") as He.
      { unfold SanitizeObserved. rewrite stringMapValue_sanitized by done. unfold stringMapValue. by rewrite Ho. }
      destruct (boolMapValue _ _); [|done]. unfold stringMapValue in *. by rewrite lookup_delete_ne. }
    intros He. assert (Hl := sha256Hex_length (json_text (marshal (GMap (SanitizeDesired (n_Desired node)))))).
    unfold DesiredDigest, Digest in He. by rewrite <- He in Hl.
  - apply bool_decide_eq_false. intros Hd. apply Hd. unfold r. cbn [r_Observed set_completion r_DesiredDigest resourceStateForStep].
    unfold SanitizeObserved at 1. rewrite stringMapValue_sanitized by done. unfold stringMapValue. by rewrite lookup_insert_eq, Hn.
Qed.

Definition listed (printed owner group content : string) : pathState :=
  {| ps_Exists := true; ps_IsDir := false; ps_Owner := owner; ps_Group := group; ps_Mode := printed; ps_SHA256 := sha256Hex content |}.

(** The plan of a node whose file is there as it was written. *)
Lemma plan_of_held {W} `{Runner W} ReadFile node content sha holds (w : W) p :
  let field := stringDesired node in
  keeps_file (n_Host node) (field "path") (field "owner") (field "group") (field "mode") content holds ->
  holds w -> field "path" <> "" -> lacks newline (field "owner") = true -> lacks newline (field "group") = true ->
  ensureAbsent node = false -> desiredContentSHA ReadFile node = Ok sha ->
  (fileContentWriteOnly node = false -> sha = sha256Hex content) ->
  r_DesiredDigest p = DesiredDigest (n_Desired node) ->
  (field "change_action" = "" -> stringMapValue (r_Desired p) "change_action" = "") ->
  exists plan, planFileLike ReadFile node (Some p) w = (Ok plan, w)
    /\ pp_Action plan = if negb (fileContentWriteOnly node) && changeActionCompletionPending node (Some p) then ActionUpdate else ActionNoOp.
Proof.
  intros field Hk Hw Hpath Ho Hg Ha Hs Hsha Hp Hc. subst field.
  destruct (kf_read _ _ _ _ _ _ _ Hk w Hw) as (printed & err & Hm & Hl & Hread).
  unfold planFileLike, readPath. rewrite decide_False by done. unfold mbind, M_bind, run, lift, mret, M_ret. rewrite Hread.
  cbn [res_Stdout]. rewrite file_listing_read by (by repeat constructor).
  destruct (file_plan_in_sync ReadFile node p (listed printed (stringDesired node "owner") (stringDesired node "group") content) sha) as (plan & Hplan & Hact); try done.
  - unfold metadata_differs, listed. cbn [ps_Owner ps_Group ps_Mode]. rewrite !bool_decide_false by tauto. done.
  - cbn. intros Hwo. by rewrite (Hsha Hwo).
  - exists plan. unfold listed in Hplan. by rewrite Hplan.
Qed.

(** C6: Applying converges: when the apply of a file succeeds on a host that
    keeps what is written and prints it when it is read, the next plan changes
    nothing, except that a pending change action is retried until its
    completion is recorded, after which nothing is left to do. *)
Theorem file_converges {W} `{Runner W} ReadFile Unmarshal node step content sha holds now (w w1 : W) observed :
  let field := stringDesired node in
  n_Kind node ∈ file_kinds -> s_Node step = node -> s_Action step <> ActionDelete -> ensureAbsent node = false ->
  payload_agrees node -> field "path" <> "" -> lacks newline (field "owner") = true -> lacks newline (field "group") = true ->
  desiredContent ReadFile node = Ok content -> desiredContentSHA ReadFile node = Ok sha ->
  (fileContentWriteOnly node = false -> sha = sha256Hex content) ->
  keeps_file (n_Host node) (field "path") (field "owner") (field "group") (field "mode") content holds ->
  native_Apply ReadFile Unmarshal (providerStep step) w = (Ok observed, w1) ->
  let r := resourceStateForStep step observed now in
  let plan_with p := native_Plan ReadFile Unmarshal node (Some p) w1 in
  (exists plan, plan_with r = (Ok plan, w1) /\ pp_Action plan = if action_pending node then ActionUpdate else ActionNoOp)
  /\ exists plan, plan_with (set_completion changeActionDigestObservedField now r) = (Ok plan, w1) /\ pp_Action plan = ActionNoOp.
Proof.
  intros field Hkind Hnode Hact Ha Hagree Hpath Ho Hg Hc Hs Hsha Hk Happly r plan_with.
  assert (Hkind' : n_Kind (s_Node (providerStep step)) = n_Kind node).
  { cbn. rewrite Hnode. unfold providerNode. case_decide; [done|]. by destruct (fileContentWriteOnly node). }
  destruct (file_kinds_apply ReadFile Unmarshal (providerStep step)) as [reload Hreload]; [by rewrite Hkind'|]. rewrite Hreload in Happly.
  unfold payload_agrees in Hagree. apply Forall_cons in Hagree as [Hensure [H1 [H2 [H3 [H4 _]%Forall_cons]%Forall_cons]%Forall_cons]%Forall_cons].
  assert (Hhost : n_Host (providerNode node) = n_Host node).
  { unfold providerNode. case_decide; [done|]. by destruct (fileContentWriteOnly node). }
  destruct (apply_holds ReadFile (n_Host node) (field "path") (field "owner") (field "group") (field "mode") content holds
              (providerStep step) reload w w1 observed) as [Hheld ->]; try done.
  { unfold removes. cbn [s_Node s_Action providerStep set_s_Node]. rewrite Hnode. unfold ensureAbsent in *. rewrite Hensure, Ha.
    by apply bool_decide_eq_false. }
  { cbn. by rewrite Hnode. } { cbn. by rewrite Hnode, desiredContent_providerNode. }
  { cbn [s_Node providerStep set_s_Node]. rewrite Hnode, H1, H2, H3, H4. done. }
  destruct (recorded_pending node step (applied (s_Node (providerStep step))) now Hnode ltac:(done)) as [Hpending Hdone].
  assert (Hrdesired : stringMapValue (r_Desired r) "change_action" = field "change_action").
  { unfold r. cbn [r_Desired resourceStateForStep]. rewrite Hnode, stringMapValue_sanitized; [done|].
    by apply (bool_decide_unpack _); vm_compute. }
  assert (Hrdigest : r_DesiredDigest r = DesiredDigest (n_Desired node)) by (unfold r; cbn; by rewrite Hnode).
  unfold plan_with. rewrite !file_kinds_plan by done. split.
  - destruct (plan_of_held ReadFile node content sha holds w1 r) as (plan & Hplan & Hpa); try done; [by rewrite Hrdesired|].
    exists plan. split; [done|]. rewrite Hpa. unfold r. rewrite Hpending. done.
  - destruct (plan_of_held ReadFile node content sha holds w1 (set_completion changeActionDigestObservedField now r)) as (plan & Hplan & Hpa);
      try done; [cbn [r_Desired set_completion]; by rewrite Hrdesired|].
    exists plan. split; [done|]. rewrite Hpa. unfold r. rewrite Hdone. by rewrite andb_false_r.
Qed.

(** A host with one file: the world is what was written to it. *)
Definition one_file : Type := option string.
#[export] Instance one_file_runner : Runner one_file :=
  let reply (w : one_file) text : result engine_error Result * one_file := (Ok {| res_Stdout := text; res_Stderr := "" |}, w) in
  {| runner_Run := fun _ script w =>
       if decide (script = script_text ["systemctl daemon-reload"]) then reply w ""
       else match w with
            | Some content => reply w (file_listing "root" "root" "644" (sha256Hex content))
            | None => reply w (script_text ["missing"])
            end;
     runner_RunInput := fun _ _ input _ => reply (Some input) "";
     runner_RunCommand := fun _ _ w => reply w "" |}.

Definition demo_unit : Node :=
  demo_node "systemd_unit" "host.web1.systemd.unit.app"
    {["path" := GStr "/etc/systemd/system/app.service"; "owner" := GStr "root"; "group" := GStr "root"; "mode" := GStr "0644";
      "content" := GStr "[Service]"; "change_action" := GStr "restart"]}.
Definition demo_create : Step :=
  {| s_Address := n_Address demo_unit; s_Host := "web1"; s_Action := ActionCreate; s_Summary := ""; s_Node := demo_unit; s_Prior := None;
     s_Observed := ∅; s_Ownership := ""; s_Order := 0 |}.

Lemma one_file_keeps host path content : keeps_file host path "root" "root" "0644" content (fun w : one_file => w = Some content).
Proof.
  split.
  - intros w r w' Hr. cbn in Hr. by injection Hr as _ <-.
  - intros w r w' -> Hr. cbn [runner_Run one_file_runner] in Hr. rewrite decide_True in Hr by done. by injection Hr as _ <-.
  - intros w ->. exists "644", "". split_and!; [reflexivity|reflexivity|]. cbn [runner_Run one_file_runner].
    rewrite decide_False; [reflexivity|]. unfold readPath_script, script_text, strings_Join. cbn [read_lines String.concat]. discriminate.
Qed.

Lemma file_converges_witness :
  let observed := applied demo_unit in
  let r := resourceStateForStep demo_create observed "now" in
  let plan_with p := native_Plan (fun _ => None) (fun _ => None) demo_unit (Some p) (Some "[Service]") in
  (exists plan, plan_with r = (Ok plan, Some "[Service]") /\ pp_Action plan = ActionUpdate)
  /\ exists plan, plan_with (set_completion changeActionDigestObservedField "now" r) = (Ok plan, Some "[Service]") /\ pp_Action plan = ActionNoOp.
Proof.
  apply (file_converges (fun _ => None) (fun _ => None) demo_unit demo_create "[Service]" (sha256Hex "[Service]")
           (fun w : one_file => w = Some "[Service]") "now" None (Some "[Service]") (applied demo_unit)).
  - by apply (bool_decide_unpack _); vm_compute.
  - reflexivity.
  - discriminate.
  - reflexivity.
  - by apply (bool_decide_unpack _); vm_compute.
  - discriminate.
  - reflexivity.
  - reflexivity.
  - reflexivity.
  - reflexivity.
  - reflexivity.
  - exact (one_file_keeps _ _ _).
  - vm_compute. reflexivity.
Defined.

(** ** Netplan hosts are not planned *)

Lemma hostsByName_name program name host : hostsByName program !! name = Some host -> h_Name host = name.
Proof.
  unfold hostsByName. assert (Hgo : forall l (m : gmap string HostSpec), (forall k h, m !! k = Some h -> h_Name h = k) ->
    forall k h, fold_left (fun m h => <[h_Name h := h]> m) l m !! k = Some h -> h_Name h = k).
  { induction l as [|x l IH]; intros m Hm; [done|]. apply IH. intros k h. destruct (decide (h_Name x = k)) as [<-|Hne].
    - rewrite lookup_insert_eq. by intros [= <-].
    - rewrite lookup_insert_ne by done. apply Hm. }
  apply Hgo. by intros k h; rewrite lookup_empty.
Qed.

(** The nodes of a plan, by host. *)
Lemma collect_nodes_byHost program states opts g input node :
  collect_nodes (hostsByName program) states opts g = Ok input -> node ∈ g_Nodes g -> selected opts (n_Host node) = true ->
  node ∈ default [] (pi_byHost input !! n_Host node).
Proof.
  unfold collect_nodes. intros Hc Hin Hsel.
  assert (Hgo : forall l acc out, fold_res (collect_node (hostsByName program) states opts) l acc = Ok out ->
    (node ∈ default [] (pi_byHost acc !! n_Host node) \/ exists o, (o, node) ∈ l) -> node ∈ default [] (pi_byHost out !! n_Host node)).
  { induction l as [|[o n] l IH]; intros acc out; cbn [fold_res].
    { intros [= <-] [?|[o Ho%elem_of_nil]]; done. }
    destruct (collect_node _ states opts acc (o, n)) as [acc1|] eqn:E; [|done]. intros Hf Hor. apply (IH _ _ Hf).
    unfold collect_node in E. destruct (selected opts (n_Host n)) eqn:Es; cbn [negb] in E.
    - apply bind_Ok in E as (h & Hh%of_option_Ok & [= <-]). apply hostsByName_name in Hh. cbn [pi_byHost].
      destruct Hor as [Ha|[o' [[= -> ->]|Ho]%elem_of_cons]]; [left|left|right; by exists o'].
      + destruct (decide (h_Name h = n_Host node)) as [->|Hne]; [|by rewrite lookup_insert_ne].
        rewrite lookup_insert_eq. cbn. apply elem_of_app. by left.
      + rewrite Hh, lookup_insert_eq. cbn. apply elem_of_app. right. by left.
    - injection E as <-. destruct Hor as [Ha|[o' [[= -> ->]|Ho]%elem_of_cons]]; [by left|congruence|right; by exists o']. }
  apply (Hgo _ _ _ Hc). right. apply list_elem_of_lookup in Hin as [i Hi]. exists i. apply elem_of_lookup_imap. by exists i, node.
Qed.

Lemma fold_M_reaches {E W S A} (f : S -> A -> M E W S) xs s w s' w' x :
  fold_M f xs s w = (Ok s', w') -> x ∈ xs -> exists s0 w0 s1 w1, f s0 x w0 = (Ok s1, w1).
Proof.
  revert s w. induction xs as [|y xs IH]; intros s w; cbn; [by intros _ Hx%elem_of_nil|].
  intros (s1 & w1 & H1 & Hf)%M_bind_Ok [->|Hx]%elem_of_cons; [by exists s, w, s1, w1|by eapply IH].
Qed.

Lemma declarations_nonempty nodes node : node ∈ nodes -> networkd_affected node = true -> nativeNetworkdDeclarations nodes <> [].
Proof.
  intros Hin Ha He. unfold nativeNetworkdDeclarations in He.
  assert (Hn : n_Address node ∈ sort_strings (n_Address <$> filter (fun node => networkd_affected node = true) nodes)).
  { apply elem_of_sort_strings, list_elem_of_fmap. exists node. split; [done|]. by apply list_elem_of_filter. }
  rewrite He in Hn. by apply elem_of_nil in Hn.
Qed.

(** C36: A host that Netplan owns is not planned: when the engine makes a plan
    for a host that runs Ubuntu and has a node that declares systemd-networkd
    files, the host was asked for Netplan's files, and answered that there is
    none. *)
Theorem plan_needs_native_networkd {W} `{R : Runner W} `{!Backend W} ReadFile Unmarshal program g opts host node (w : W) plan w' :
  @engine_Plan W (native_provider ReadFile Unmarshal) _ program g opts w = (Ok plan, w') ->
  host ∈ selectedProgramHosts program opts -> Distribution (System (h_Facts host)) = "ubuntu" ->
  node ∈ g_Nodes g -> n_Host node = h_Name host -> networkd_affected node = true ->
  exists w0 r w1, runner_Run (h_Name host) netplanOwnershipScript w0 = (Ok r, w1) /\ nonEmptyLines (res_Stdout r) = [].
Proof.
  intros Hplan Hhost Hubuntu Hnode Hn Ha. unfold engine_Plan in Hplan.
  apply M_bind_Ok in Hplan as (u & w1 & _ & H). apply M_bind_Ok in H as (u2 & w2 & _ & H).
  apply M_bind_Ok in H as (states0 & w3 & _ & H). apply M_bind_Ok in H as ([states moves] & w4 & _ & H).
  apply M_bind_Ok in H as (input & w5 & Hc & H). apply lift_Ok in Hc as [Hc _].
  apply M_bind_Ok in H as ([] & w6 & Hpre & _).
  assert (Hsel : selected opts (n_Host node) = true) by (rewrite Hn; by apply list_elem_of_filter in Hhost as [? _]).
  assert (Hby := collect_nodes_byHost _ _ _ _ _ _ Hc Hnode Hsel). rewrite Hn in Hby.
  unfold preflightHosts in Hpre. cbn [provider_PreflightHost native_provider] in Hpre.
  destruct (fold_M_reaches _ _ _ _ _ _ _ Hpre Hhost) as ([] & w7 & [] & w8 & Hf).
  unfold preflight_host in Hf. destruct (default [] _) as [|n nodes] eqn:En; [by apply elem_of_nil in Hby|].
  unfold native_PreflightHost in Hf. rewrite decide_False in Hf.
  2:{ intros [?|He]; [done|]. by apply (declarations_nonempty _ _ Hby Ha). }
  apply M_bind_Ok in Hf as (r & w9 & Hr & Hf). unfold wrap_err, run in Hr.
  destruct (runner_Run _ _ w7) as [[r'|e] w10] eqn:Hrun; [|done]. injection Hr as <- <-.
  exists w7, r', w10. split; [done|]. by destruct (nonEmptyLines (res_Stdout r')).
Qed.

(** An engine on the in-memory backend, whose host answers that no file is
    there. *)
#[export] Instance empty_host_runner : Runner memory :=
  let reply text : M engine_error memory Result := fun w => (Ok {| res_Stdout := text; res_Stderr := "" |}, w) in
  {| runner_Run := fun _ script => if decide (script = netplanOwnershipScript) then reply "" else reply (script_text ["missing"]);
     runner_RunInput := fun _ _ _ => reply "";
     runner_RunCommand := fun _ _ => reply "" |}.
Definition ubuntu_facts : HostFacts :=
  {| System := {| Hostname := "h"; Distribution := "ubuntu"; Version := "24.04"; Architecture := "amd64"; Codename := "noble";
                  DetectedAt := "now" |} |}.
Definition ubuntu_host : HostSpec :=
  {| h_Name := "h"; h_Source := no_source; h_Facts := ubuntu_facts; h_SSH := zero_SSHSpec; h_State := zero_StateSpec;
     h_Staging := None; h_Moves := []; h_Platform := None; h_System := zero_SystemSpec; h_Kernel := zero_KernelSpec;
     h_Packages := zero_PackageSpec; h_APT := zero_APTSpec; h_Files := zero_FileSpec; h_Secrets := zero_SecretSpec;
     h_Directories := zero_DirectorySpec; h_Groups := zero_GroupSpec; h_Users := zero_UserSpec; h_Systemd := zero_SystemdSpec;
     h_Services := zero_ServiceSpec; h_Nftables := zero_NftablesSpec; h_Docker := None; h_Scripts := ∅; h_Components := [];
     h_ExplicitDependencies := [] |}.
Definition demo_network : Node :=
  {| n_Host := "h"; n_Address := "h.lan"; n_Kind := "networkd_network"; n_Summary := ""; n_Source := no_source; n_Lifecycle := None;
     n_Desired := {["path" := GStr "/etc/systemd/network/10-lan.network"; "content" := GStr "x"]}; n_ProviderType := "networkd_network";
     n_ProviderAddress := "h.lan"; n_ProviderPayload := ∅; n_DependsOn := []; n_ExplicitDependsOn := []; n_DependencySources := ∅ |}.
Definition demo_network_run : result engine_error Plan * memory :=
  @engine_Plan memory (native_provider (fun _ => None) (fun _ => None)) _ {| p_Hosts := [ubuntu_host] |}
    {| g_Nodes := [demo_network]; g_Operations := [] |} ex_options
    {| mw_backend := NewMemoryBackend; mw_provider := NewMemoryProvider; mw_now := "t1" |}.

Lemma plan_needs_native_networkd_witness :
  (fun r => match r with Ok p => s_Summary <$> pl_Steps p | Err _ => [] end) demo_network_run.1
  = ["write file /etc/systemd/network/10-lan.network"]
  /\ exists w0 r w1, runner_Run (Runner := empty_host_runner) "h" netplanOwnershipScript w0 = (Ok r, w1) /\ nonEmptyLines (res_Stdout r) = [].
Proof.
  assert (Hs : (fun r => match r with Ok p => s_Summary <$> pl_Steps p | Err _ => [] end) demo_network_run.1
          = ["write file /etc/systemd/network/10-lan.network"]) by (vm_compute; reflexivity).
  split; [exact Hs|]. destruct demo_network_run as [[plan|e] w'] eqn:Hrun; [|discriminate Hs].
  apply (plan_needs_native_networkd _ _ _ _ _ ubuntu_host demo_network _ plan w' Hrun).
  - apply list_elem_of_filter. split; [reflexivity|left].
  - reflexivity.
  - left.
  - reflexivity.
  - reflexivity.
Defined.
